(* ===== verification/_CoqProject ===== *)
-Q . S2P
Prelude.v
GoStd.v
Queue.v
Breaker.v
GoStr.v
GoText.v
GoHttp.v
GoJson.v
Route.v
Router.v
RetryAfter.v
Retry.v
BufferTracker.v
Sse.v
Budget.v
Admission.v
Suite.v
ResponsesFsm.v
Credentials.v
ExecSource.v
Recorder.v
Classify.v
Limited.v
WireObject.v
Losses.v
Ir.v
Usage.v
SchemaBounds.v
ChatRender.v
Emitter.v
ChatStream.v
ChatStreamLaws.v
ChatStreamText.v
ChatStreamTerminal.v
ChatStreamOrder.v
ToolArgs.v
MsgStream.v
MsgClient.v
MsgStreamLaws.v
MsgStreamCalls.v
MsgStreamRun.v
MsgStreamOrder.v
ChatMessages.v
ChatMessagesLaws.v
ChatMessagesRun.v
StreamReader.v
StreamReaderLaws.v
StreamWriter.v
StreamRun.v
ApiErrors.v
HttpHeaders.v
Handler.v
HandlerLaws.v
HandlerVerdict.v
HandlerFaults.v
HandlerHeaders.v
Continuity.v
ContinuityLaws.v
Journal.v
ResponseDecode.v
ResponseRender.v
ResponseLaws.v
ResponseExchange.v
ResponseMessages.v
MsgRequest.v
MsgRequestLaws.v
RespRequest.v
ToolNamesLaws.v
RespRequestLaws.v
RespRequestRender.v
RespRenderLaws.v
Accept.v
AcceptLaws.v
ConvertRequest.v
ConvertErrors.v
ConvertLaws.v
Conversation.v
