(* ===== verification/Prelude.v ===== *)
(** * Verification of ai-concurrency-shaper: a Rocq model of its core logic

    ai-concurrency-shaper is a reverse proxy in front of an AI provider.  It
    bounds how many completion requests run at once, retries what fails, opens a
    circuit when the provider refuses, routes requests by path, and transcodes
    between the provider protocols, whose streams it validates.  This library
    models the parts that decide, translated from the Go sources under [src/],
    and proves what makes each of them correct.

    ** The files

    - [Prelude]: results, list, integer and relation lemmas, the development's
      tactics and hint databases.
    - [GoStd], [GoStr], [GoText]: the parts of Go the program uses: 64-bit
      integers with their wrap-around, durations and times, byte strings with the
      functions of [strings], [bytes] and [strconv], UTF-8, JSON strings and
      [path.Clean].  Nothing of the program is in them.  The Unicode case tables
      are the class [UnicodeTables].
    - [Queue] ([internal/queue/queue.go]): [Limiter], a semaphore channel with an
      adaptive mode that withholds slots.  The channel, the atomic counters and
      the fields under [adaptiveMu] are the record [Limiter]; goroutines and
      timers are a pool of [thread]s, each at a program point, and a step of the
      relation is one atomic action of one of them, so that a run is any
      interleaving.
    - [Breaker] ([internal/circuitbreaker/circuitbreaker.go], up to the status
      classification): the circuit breaker with its sliding failure window, probe
      epochs, backoff and penalty.  Each method holds the mutex throughout, so it
      is one function of the breaker and of its clock readings.
    - [RetryAfter] (the rest of that file): which statuses count as failures,
      [ParseRetryAfter] and [IsTemporaryBanResponse].
    - [Route] ([internal/route/route.go]) and [Router]
      ([internal/router/router.go]): pattern notation, trailing-segment matching,
      first-match selection; the mount table, its construction and the dispatch
      of a request.  [Router] uses [Route]'s path resolution.
    - [Admission] ([internal/router/suiteadmission.go]): the pool that bounds how
      many request bodies a catalog suite buffers, and the hand-off of a body to
      its target, as a step relation over channel operations, [sync.Once] calls
      and the critical sections of a body.
    - [Suite] ([internal/router/suite.go]): the catalog suite handler, from its
      configuration to the log of a request's effects and the documents it
      answers with; its acquisitions and hand-offs are those of [Admission].
    - [Retry] ([internal/retry/transport.go]): [RoundTrip] with its buffering,
      waiting, classification and breaker calls, as a function from a script of
      what it observes (clock, context, random source, breaker and upstream
      answers) to its result and the ordered log of its effects.  It uses
      [RetryAfter] for waiting and for reporting failures.
    - [BufferTracker] (same source): the pooled request buffer shared by the
      readers [RoundTrip] hands out, as a step relation over the critical
      sections of [bufferTracker], [trackingReader] and [pooledBody].
    - [Sse] ([internal/transcode/sse.go]): the bounded event reader and the
      bounded frame writer.
    - [Budget] ([internal/transcode/stream_budget.go],
      [internal/transcode/limits.go]): the exchange budget and the body limits.
    - [ResponsesFsm] ([internal/transcode/responses_stream_fsm.go]): the
      validator of a Responses stream, a state and error monad with one
      computation per handler.  It charges [Budget].

    - [Credentials], [ExecSource] ([internal/auth]): policies, the secret sources
      and what they make of a request, redaction, and the caching command source
      as a step relation over its critical sections.
    - [Recorder], [Classify], [Limited] ([internal/proxy]): the response recorder,
      the outcome of an exchange and what each path reports to the breaker, and
      the two admission paths as functions from what they observe to the ordered
      log of their effects.  [Limited] runs a handler over [Recorder] and resolves
      it through [Classify].
    - [WireObject] ([internal/transcode/wire/object.go]): the strict and tolerant
      decoders of wire documents, over the token streams of [GoJson].
    - [Losses] ([internal/transcode/losses.go]): the loss policy, the bounded
      report, and the monad of a conversion with its program logic ([has_post] for
      results, [keeps_lawful] for reports).
    - [Ir], [SchemaBounds], [ChatRender] ([internal/transcode/ir.go],
      [schema_bounds.go], [convert_request.go], [convert_helpers.go]): the
      canonical form of a conversation with its validity, the rewriting of tool
      schemas, and the rendering of a request for a Chat upstream.
    - [Usage] ([internal/transcode/usage_clamp.go] and the usage functions of
      [stream_converters.go] and [convert_response.go]): clamps, derived totals
      and the conversions of token counts.
    - [Emitter]: the monad of the stream converters (a computation over a machine
      that emits events in order and may end in an error) and its program logic,
      which relates the events to the state of a reader ([wp], [preserves],
      [quiet], [keeps]).
    - [ChatStream] ([internal/transcode/stream_converters.go], [ids.go],
      [stream_adapter.go]): the machine that turns a Chat stream into the events
      of a Responses stream, one computation of [Emitter] per method.  It uses [Budget], [Usage], [Losses] and [Ir].  [ChatStreamLaws]
      puts its events to the validator [ResponsesFsm] (a weakest precondition over
      the validator's state), [ChatStreamText] and [ChatStreamTerminal] say what
      they carry and how they end, [ChatStreamOrder] in which order their parts
      are streamed.
    - [ToolArgs] ([losses.go], [stream_converters.go]): the arguments of a call as
      the text of an object, and how a snapshot is reconciled with the fragments
      seen before it.
    - [MsgStream] (the second half of [stream_converters.go],
      [stream_adapter.go]): the machine that turns a Responses stream into a
      Messages stream.  It runs the validator [ResponsesFsm] on what it reads.
      [MsgClient] is its specification: a client that reads the events, and what
      the upstream announced.  [MsgStreamLaws] relates machine, client and
      announced contents by an invariant, [MsgStreamCalls] and [MsgStreamRun] carry
      it over the handlers of calls and over whole streams.  [MsgStreamOrder]: one
      block at a time, as long as the upstream keeps its contents apart.
    - [ChatMessages] ([stream_adapter.go]): the two machines in sequence, from a
      Chat stream to a Messages stream.  [ChatMessagesLaws] runs both invariants
      side by side and [ChatMessagesRun] says what the client holds of the chunks.
    - [StreamReader] ([stream_reader.go]): the reader that converts a body event
      by event, over any converter (the class [frameConverter]); it uses [Sse] and
      [Budget].  [StreamReaderLaws] is what any sequence of reads gets of it: the
      [conversion] of the source, a reference without buffers.
    - [StreamWriter] ([stream_writer.go]): the sealed writer of whole events, as a
      function and as the steps of goroutines under its mutex and its flag.
    - [StreamRun] ([stream_run.go]): the copy between the two, its shutdown and the
      classification of what was observed.
    - [ApiErrors] ([errors.go], [stream_adapter.go]): errors in the canonical form,
      read from an upstream and rendered in the client's dialect.
    - [HttpHeaders] ([headers.go], [handler.go]): the headers that are removed and
      copied on the way.  [Handler] ([handler.go], [outcome.go]): [ServeHTTP] of the
      transcoding handler as a function from a configuration, what an exchange
      observes and a request to the log of its effects; it runs [StreamRun] and
      renders [ApiErrors].  [HandlerLaws] is the shape of the log and its one
      outcome, [HandlerVerdict] when that is a success, [HandlerFaults] when it is
      charged to the upstream (both through [Classify]), [HandlerHeaders] which
      headers the client sees.
    - [Continuity] ([continuity.go]): the bounded store behind
      [previous_response_id] and the turns a response leaves for it, over the
      canonical form [Ir].  [ContinuityLaws] relates it to the history of its calls.
    - [ResponseDecode] ([convert_response.go]): the decoders of a whole Chat and of a
      whole Responses response into [Ir].  [ResponseRender] ([convert_response.go],
      [handler.go]): the renderers for a Messages and for a Responses client, and
      [convertResponse], which decodes, renders and records the conversation in
      [Continuity].  [ResponseLaws], [ResponseExchange] and [ResponseMessages] relate
      what each client gets to what the upstream's document says.
    - [MsgRequest] and [RespRequest] ([convert_request.go], [anthropic.go],
      [tools.go], [responses_input.go], [wire]): the checks of a Messages and of a
      Responses request and their decoding into [Ir], the second with the
      flattening of namespaced tools and the bounded echo of the request.
      [MsgRequestLaws] and [RespRequestLaws] say what of a request arrives,
      [ToolNamesLaws] that a declared tool has one name and is found by it.
    - [RespRequestRender] ([convert_request.go]): the rendering of a request for a
      Responses upstream; [RespRenderLaws] reads it back with [RespRequest].
    - [Accept] ([handler.go]): the negotiation of a stream by the [Accept] header,
      and [AcceptLaws] its specification.
    - [ConvertRequest] ([handler.go], [models.go]): the model mapping, the conversation
      a request continues, and [convertRequest], which decodes with [MsgRequest] or
      [RespRequest], renders with [ChatRender] or [RespRequestRender] and bounds what
      it sends.  [ConvertErrors] and [ConvertLaws] are its results and its errors.
      [Conversation] runs it and [convertResponse] of [ResponseRender] over one store
      of [Continuity].
    - [Journal] ([internal/journal/journal.go]): the ring of exchanges and the
      capture of a body.

    [GoHttp] and [GoJson] hold what the program uses of [net/http], [net/url] and
    [encoding/json].

    Definitions carry the names of the source.  The manifest maps each to the
    lines it translates.

    ** What is proved

    - Limiter: the number of admitted callers never exceeds the limit in any
      interleaving and the gauges are exact; sending a token back never blocks;
      a waiter can always still be served; once only slot holders remain no slot
      is missing; the contract of [AdaptiveReduce] on every branch.
    - Breaker: an invariant of all runs under a monotonic clock; transitions only
      along the documented edges and for the documented reasons; a failure opens
      the circuit exactly at the threshold; results of superseded probes are
      ignored for ever; a cancelled probe readmits at once; recovery from every
      reachable state; exact overflow-free arithmetic of timeout and penalty.
    - Retry: the log of every call is accepted by a protocol automaton (a
      refinement): bounded attempts, a fresh reader and the caller's exact body
      for each, outcomes reported with the epoch of their admission, one
      finalization, balanced counters; termination within the limit; the wait's
      exact value and bounds.  The pooled buffer is given up exactly once, exactly
      when nobody can read it any more, and can always still be given up.
    - Failure classification: the remaining [Retry-After] counts down within its
      bounds and is free of clock skew; when a 403 counts as a ban.
    - Routing: the notation round-trips; matching is exactly equality with the
      trailing segments of the resolved path; dot segments change nothing; a
      request goes to the one mount whose prefix begins its path, and forwarded
      paths classify as the original.
    - Suites: the pool's tokens are exactly the exchanges holding one and bound
      the buffered bytes; a handed-off token comes back exactly when its body is
      spent, closed or abandoned; a body is delivered once and in order; every
      completion keeps the discipline of its slot, timer and deadline, goes to
      exactly the target of its model, and no answer exceeds its limit; a bounded
      message stays valid UTF-8.
    - Streams: frames written within the bounds are read back exactly; the reader
      computes a line-level reference, is bounded and never resynchronises after
      an oversized line.  A stream the validator accepts has the lifecycle of the
      protocol, settles everything before [response.completed], has snapshots
      equal to the concatenated deltas and stays within the budgets; every
      message streamed within the budgets is accepted.
    - Credentials: a policy attaches exactly its own credential and nothing on an
      error; concurrent callers share one run of the command, whose answers are
      current; what is redacted never shows.
    - Outcomes: the recorded status is the client's; the breaker is told of an
      exchange at most once and with the verdict its outcome deserves, also when
      the retry layer has marked it; a slot and a gauge taken are given back on
      every path, panics included.
    - Decoding: the token walks reject exactly duplicate keys and illegal nulls,
      and of an object whose numbers are in range and whose keys are spelled as
      declared a strict decode is exact for its destination.
    - Requests: under the strict policy nothing of a conversation is lost (of
      several refusals in a turn the last is kept); the rendered messages keep the
      upstream's protocol and every control; each loss is allowed and recorded;
      schema rewriting removes bounds only and keeps every other number's spelling.
    - Usage: clamped counts are consistent and each correction is claimed when
      made; streamed and whole exchanges agree; derived totals are exact.
    - Generated streams: whatever chunks arrive, the converter's events pass the
      validator (a composition of the two machines) and it does not panic; text
      and refusals arrive unchanged; there is one terminal, last, with the finish
      reason and the last usage of the chunks and the items the stream closed.
    - Messages streams: one block is open at a time when the upstream keeps its
      contents apart, and a patient client can read what is passed on whatever it
      sends; of a converted stream it holds exactly the contents announced,
      also the calls that waited for another block to close, and it stops as the
      upstream did; a call waits only while another block is open.
    - From Chat to Messages: the events between the two machines always pass the
      validation, the client assembles what they announce, and its text is
      exactly that of the chunks.
    - Delivery: any reads of a translated stream agree; it is the conversion of its
      source, whole batches within their bounds, and ends cleanly or with the
      converter's error event; nothing is written once the writer is sealed; an
      exchange is a success exactly if the client has the whole stream.
    - Transcoded exchanges: one outcome, request and status at most, panics
      included; success is told to the breaker exactly for a complete delivery and
      failure exactly for the faults listed in [HandlerFaults]; no other header of
      the upstream gets through.
    - Continuity: whatever the history, no call panics, the store is bounded, and
      an id is resolved exactly to the conversation recorded last under it and its
      mapping while it is fresh and not displaced; what a valid response leaves is
      valid in a request and loses no content silently.
    - Whole responses: a client gets exactly the content, stop reason and usage the
      upstream's document has, in either dialect; a response that failed is never a
      message; the upstream is charged only for corrupt documents; no conversion
      panics; the identifier a Responses client is given resolves to the conversation
      that goes on from it.
    - Requests of clients: every block of a Messages request and every item of a
      Responses request arrives in its turn and order, or is refused, lost by leave of
      the policy or noted; a declared function is taught under one name that leads back
      to it; the input of a Responses upstream reads back as the
      conversation, but for the media type of a document; under a policy without
      losses a converted request is whole.  A conversion fails only with
      an error for the client, and never panics.
    - Negotiation: the ranges of an [Accept] header are the parts it was written from,
      and a stream is chosen exactly if its most specific range is the better one.
    - Conversations: the second request of a client is rendered after the first and its
      answer, whatever exchanges happen in between, as long as the store keeps them.
    - Journal: a snapshot is the end of what was recorded since the last clear, in
      order and numbered; a capture is the front of the body and says what it lacks.

    ** Bounds and fuel

    The retry loop ([Retry]), the byte loops of [Sse] and [GoJson]'s and
    [WireObject]'s readers take fuel.  The retry loop with a limit needs at most
    one unit more than the limit, and more fuel changes nothing
    ([RoundTrip_terminates_within_limit]); the readers of [Sse] are run with the
    length of the input plus one, which is proved enough ([sse_bounds_fatal]), as is the
    [conversion] of a body ([handed_out_whole]); a JSON value is read with three units per lexeme plus three and a walk with
    three per token plus three, which the exactness theorems of [WireObject]
    show enough; the queue of deferred calls is drained with its length.  The
    synthetic key of a tool call is searched among as many
    candidates as calls are pending, so one is free.  A report is bounded by 4096
    entries and its overflow marker.  A limiter's epoch, a breaker's counters,
    sequence numbers and identifiers advance once per event and are unbounded
    integers; durations, budgets, token counts and body limits keep their 64 bits.

    ** Hypotheses on what is outside

    [http.ParseTime], the inner transport, the breaker as [Retry], [Classify] and
    [Limited] call it, the random source, the request context, the environment
    and files behind secrets, the command of a source, the Unicode tables (also
    behind [%q]), the JSON decoding of a request's model and what [encoding/json]
    makes of a first value and writes of an object are parameters, and so is [stream.Proxy], of which
    [StreamRun] relies on its copying in order ([copies], met by a plain copy
    loop).  The conversions of a request and of a whole response, the building of
    the upstream's request and [mime.ParseMediaType] are fields of a handler's
    configuration: its theorems hold for all of them.  [ConvertRequest] takes what
    the wire layer makes of a request's body, what [json.Marshal] writes of a block, an
    object, a reasoning item, the echo and the rendered request, [strconv.Quote],
    [mime.ParseMediaType] and [strconv.ParseFloat]; a document the program writes of an
    object is read as an object ([Conversation]).  What the wire layer makes of a
    whole body is a parameter of [ResponseDecode], which reads a Chat body twice: the
    two readings agree on the fields they share ([same_response]); so is what
    [json.Marshal] writes of a reasoning item.  Where a theorem needs more of them (a
    clock that does not run backwards, a context that stays cancelled), the
    hypothesis is named and a witness instantiates it.

    ** What is not modelled

    The JSON codecs of the wire types and the echo of a request in the envelope of its
    response; the URL and headers of the upstream's request, its signing and the
    Opencode preset; the model catalog and the flow log; the metrics counters and their rendering;
    the configuration files and flags; the reauthenticating transport and the walk
    over authentication error chains; the assembly of the proxy around
    [httputil.ReverseProxy].  HTTP and process I/O, the remote control client and
    the terminal interface are left out: they are glue over libraries. *)

From Stdlib Require Import ZArith Lia Bool List.
From stdpp Require Export base tactics list option relations sets.

#[global] Set Default Goal Selector "!".

Declare Scope shaper_scope.
Delimit Scope shaper_scope with shaper.

Create HintDb shaper discriminated.
Create Rewrite HintDb shaper.

(** ** Fallible computations: Go's [(T, error)] results *)

Inductive result (E A : Type) : Type :=
| Ok (a : A)
| Err (e : E).
Arguments Ok {E A} a.
Arguments Err {E A} e.

Definition result_bind {E A B} (r : result E A) (k : A → result E B) : result E B :=
  match r with
  | Ok a => k a
  | Err e => Err e
  end.

Notation "x <-? c ;; k" := (result_bind c (λ x, k))
  (at level 60, c at next level, right associativity) : shaper_scope.
Notation "c ;;? k" := (result_bind c (λ _, k))
  (at level 60, right associativity) : shaper_scope.
#[global] Open Scope shaper_scope.

Definition is_ok {E A} (r : result E A) : bool :=
  match r with Ok _ => true | Err _ => false end.

Lemma result_bind_ok {E A B} (r : result E A) (k : A → result E B) b :
  result_bind r k = Ok b ↔ ∃ a, r = Ok a ∧ k a = Ok b.
Proof. destruct r as [a|e]; simpl; split; [by eauto | by intros (? & [= ->] & ?) | done | by intros (? & ? & ?)]. Qed.

(** ** Booleans and integer comparisons *)

(** Case analysis on the boolean comparisons of a hypothesis or of the goal,
    leaving linear arithmetic facts. *)
Ltac bcase :=
  repeat match goal with
  | H : context [Z.leb ?a ?b] |- _ => destruct (Z.leb_spec a b)
  | H : context [Z.ltb ?a ?b] |- _ => destruct (Z.ltb_spec a b)
  | H : context [Z.eqb ?a ?b] |- _ => destruct (Z.eqb_spec a b)
  | |- context [Z.leb ?a ?b] => destruct (Z.leb_spec a b)
  | |- context [Z.ltb ?a ?b] => destruct (Z.ltb_spec a b)
  | |- context [Z.eqb ?a ?b] => destruct (Z.eqb_spec a b)
  end; simpl in *.

(** Close a goal that is linear arithmetic once the comparisons are split. *)
Ltac bsolve := bcase; try done; try lia; try congruence.

Lemma negb_eq_true b : negb b = true → b = false.
Proof. by destruct b. Qed.
Lemma negb_eq_false b : negb b = false → b = true.
Proof. by destruct b. Qed.

(** Turn boolean connectives in the hypotheses into propositional ones. *)
Ltac bprop :=
  repeat match goal with
  | H : _ && _ = true |- _ => apply andb_prop in H; destruct H
  | H : _ || _ = false |- _ => apply orb_false_elim in H; destruct H
  | H : negb _ = true |- _ => apply negb_eq_true in H
  | H : negb _ = false |- _ => apply negb_eq_false in H
  | H : (_ <=? _)%Z = true |- _ => apply Z.leb_le in H
  | H : (_ <? _)%Z = true |- _ => apply Z.ltb_lt in H
  | H : (_ =? _)%Z = true |- _ => apply Z.eqb_eq in H
  | H : (_ <=? _)%Z = false |- _ => apply Z.leb_gt in H
  | H : (_ <? _)%Z = false |- _ => apply Z.ltb_ge in H
  | H : (_ =? _)%Z = false |- _ => apply Z.eqb_neq in H
  end.

(** List membership goals over [++] and [::]. *)
Ltac in_solve := rewrite ?elem_of_app, ?elem_of_cons in *; tauto.

(** ** Weighted sums over a list

    Used to count the goroutines of a pool that are in a given phase. *)

Section sum.
Context {A : Type} (w : A → Z).

Fixpoint sumZ (l : list A) : Z :=
  match l with
  | [] => 0
  | x :: l => w x + sumZ l
  end%Z.

Lemma sumZ_app l k : sumZ (l ++ k) = (sumZ l + sumZ k)%Z.
Proof. induction l; simpl; lia. Qed.

Lemma sumZ_nonneg l : (∀ x, 0 <= w x)%Z → (0 <= sumZ l)%Z.
Proof. intros Hw. induction l as [|x l IH]; simpl; [lia|]. specialize (Hw x). lia. Qed.

Lemma sumZ_elem_le l x : (∀ x, 0 <= w x)%Z → x ∈ l → (w x <= sumZ l)%Z.
Proof.
  intros Hw. induction 1 as [x l|x y l Hx IH]; simpl.
  - pose proof (sumZ_nonneg l Hw). lia.
  - specialize (Hw y). lia.
Qed.

Lemma sumZ_pos_elem l : (0 < sumZ l)%Z → ∃ x, x ∈ l ∧ (0 < w x)%Z.
Proof.
  induction l as [|x l IH]; simpl; [lia|]. intros H.
  destruct (Z.ltb_spec 0 (w x)).
  - exists x. split; [left | done].
  - destruct IH as (y & Hy & ?); [lia|]. exists y. split; [by right | done].
Qed.

Lemma sumZ_insert l i x y : l !! i = Some x → sumZ (<[i := y]> l) = (sumZ l - w x + w y)%Z.
Proof.
  revert i. induction l as [|a l IH]; intros [|i] Hl; simplify_eq/=; [lia|]. rewrite (IH i Hl). lia.
Qed.

Lemma sumZ_filter_sub l (P : A → Prop) `{∀ x, Decision (P x)} :
  (∀ x, ¬ P x → w x = 0%Z) → sumZ (filter P l) = sumZ l.
Proof.
  intros Hw. induction l as [|x l IH]; [done|].
  rewrite filter_cons. case_decide as Hp; simpl; [lia|]. rewrite IH, (Hw x Hp). lia.
Qed.
End sum.

#[export] Hint Rewrite @sumZ_app : shaper.

(** ** Lists *)

Lemma Forall_snoc_inv {A} (P : A → Prop) l x : Forall P (l ++ [x]) → Forall P l ∧ P x.
Proof. rewrite Forall_app, Forall_singleton. done. Qed.

Lemma filter_id {A} (P : A → Prop) `{∀ x, Decision (P x)} (l : list A) :
  Forall P l → filter P l = l.
Proof. induction 1 as [|x l Hx _ IH]; [done|]. rewrite filter_cons, decide_True, IH; done. Qed.

(** ** Record updates

    [set_field proj v r eta] builds the record [r] with the field [proj] replaced by
    [v], given the expansion [eta] of a record into its fields. *)
Ltac set_field proj v r eta :=
  let e := eval cbv beta delta [eta] in (eta r) in
  let e := eval pattern (proj r) in e in
  match e with
  | ?g _ => let e' := eval cbv beta in (g v) in exact e'
  end.

(** ** Reachability *)

(** [rtc]-induction for an invariant: it holds initially and each step keeps it. *)
Lemma rtc_invariant {A} (R : relation A) (I : A → Prop) x y :
  (∀ a b, I a → R a b → I b) → I x → rtc R x y → I y.
Proof. intros Hstep Hx Hr. induction Hr; eauto. Qed.
