(* ===== verification/GoStd.v ===== *)
(** * The parts of the Go language and standard library the program uses

    64-bit integers with their wrap-around, [time.Duration] and [time.Time]
    arithmetic, and the byte-string functions of [strings], [strconv] and
    [bytes].  Nothing here comes from [src/]; the components build on it. *)

From Stdlib Require Import ZArith Lia Bool List Ascii String NArith.
From stdpp Require Import strings.
From S2P Require Import Prelude.

Open Scope Z_scope.

(** ** [int64] *)

Definition min_int64 : Z := - 2 ^ 63.
Definition max_int64 : Z := 2 ^ 63 - 1.
Definition in_int64 (z : Z) : Prop := min_int64 <= z <= max_int64.

(** The value of a wrapped-around [int64] computation whose exact value is [z]. *)
Definition wrap64 (z : Z) : Z := (z + 2 ^ 63) mod 2 ^ 64 - 2 ^ 63.

(** Saturation, as [time.Time.Sub] does. *)
Definition clamp64 (z : Z) : Z := Z.max min_int64 (Z.min z max_int64).

(** Go's integer division truncates toward zero. *)
Definition div64 (a b : Z) : Z := wrap64 (Z.quot a b).
Definition mul64 (a b : Z) : Z := wrap64 (a * b).
Definition add64 (a b : Z) : Z := wrap64 (a + b).
Definition sub64 (a b : Z) : Z := wrap64 (a - b).

(** [1 << shift] on an [int], for a non-negative [shift]. *)
Definition shl1_64 (shift : Z) : Z := wrap64 (Z.shiftl 1 shift).

(** ** [time] *)

(** Nanoseconds; [Time] counts from the zero [time.Time], which [IsZero]
    recognises. *)
Definition Duration : Type := Z.
Definition Time : Type := Z.

Definition Nanosecond : Duration := 1.
Definition Millisecond : Duration := 1000000.
Definition Second : Duration := 1000000000.
Definition Minute : Duration := 60000000000.

Definition time_IsZero (t : Time) : bool := t =? 0.
Definition time_Before (t u : Time) : bool := t <? u.
Definition time_Add (t : Time) (d : Duration) : Time := t + d.
Definition time_Sub (t u : Time) : Duration := clamp64 (t - u).

(** ** Lemmas *)

Lemma wrap64_id z : in_int64 z → wrap64 z = z.
Proof.
  unfold in_int64, min_int64, max_int64, wrap64. intros H.
  rewrite Z.mod_small; lia.
Qed.

Lemma wrap64_range z : in_int64 (wrap64 z).
Proof.
  unfold in_int64, min_int64, max_int64, wrap64.
  pose proof (Z.mod_pos_bound (z + 2 ^ 63) (2 ^ 64) ltac:(lia)). lia.
Qed.

Lemma clamp64_id z : in_int64 z → clamp64 z = z.
Proof. unfold in_int64, clamp64, min_int64, max_int64. lia. Qed.

Lemma clamp64_range z : in_int64 (clamp64 z).
Proof. unfold in_int64, clamp64, min_int64, max_int64. lia. Qed.

Lemma clamp64_mono a b : a <= b → clamp64 a <= clamp64 b.
Proof. unfold clamp64. lia. Qed.

Lemma div64_div a b : in_int64 a → 0 <= a → 0 < b → div64 a b = a `div` b.
Proof.
  unfold div64. intros Ha H0 Hb. rewrite Z.quot_div_nonneg by lia.
  apply wrap64_id. unfold in_int64, min_int64, max_int64 in *.
  assert (0 <= a `div` b) by (apply Z.div_pos; lia).
  assert (a `div` b <= a) by (apply Z.div_le_upper_bound; nia). lia.
Qed.

Lemma shl1_64_pow s : 0 <= s < 63 → shl1_64 s = 2 ^ s.
Proof.
  intros H. unfold shl1_64. rewrite Z.shiftl_1_l. apply wrap64_id.
  unfold in_int64, min_int64, max_int64.
  assert (2 ^ s <= 2 ^ 62) by (apply Z.pow_le_mono_r; lia).
  assert (0 < 2 ^ s) by (apply Z.pow_pos_nonneg; lia). lia.
Qed.

#[export] Hint Rewrite wrap64_id clamp64_id using done : shaper.
#[export] Hint Resolve wrap64_range clamp64_range : shaper.
