(* ===== verification/Queue.v ===== *)
(** * The blocking concurrency limiter ([src/internal/queue/queue.go])

    A [Limiter] is modelled at the grain of its atomic actions: channel
    operations, atomic counters and critical sections of [adaptiveMu].  The
    goroutines and timers that run its code are a pool of [thread]s, each at a
    program point of [Acquire], of the release closure or of
    [restoreAdaptiveSlot]; [tstep] runs one atomic action of one thread. *)

From Stdlib Require Import ZArith Lia Bool List.
From S2P Require Import Prelude.

Open Scope Z_scope.

(** ** Data *)

(** [queue.go:40] *)
Definition maxAdaptiveSlots : Z := 1.

(** The fields of [Limiter].  [slots] is the number of tokens buffered in the
    channel and [cap] its capacity; [adaptiveTimer] names a timer by the epoch
    its callback was created with, which is unique per timer. *)
Record Limiter := {
  cap : Z;
  cooldown : Z;
  slots : Z;
  waiters : Z;
  active : Z;
  totalAcquired : Z;
  totalReleased : Z;
  totalTimeout : Z;
  withheld : Z;
  absorbNext : bool;
  adaptiveTimer : option Z;
  timerEpoch : Z;
}.

(** Program points.  [done] is whether the caller's context has ended and
    [slow] whether [Acquire] took its slow path (so the deferred decrement of
    [waiters] is still to run). *)
Inductive thread :=
| AcqStart (done : bool)             (* at the [ctx.Err()] fast fail *)
| AcqFast (done : bool)              (* at the non-blocking select *)
| AcqEnter (done : bool)             (* about to increment [waiters] *)
| AcqWait (done : bool)              (* in the blocking select *)
| AcqTimeout                         (* about to count the timeout *)
| AcqTrack (slow : bool)             (* token received, [totalAcquired] next *)
| AcqActive (slow : bool)            (* [active] next *)
| AcqLeave                           (* deferred decrement, then [Held] *)
| AcqFailLeave                       (* deferred decrement, then an error *)
| Held                               (* the caller owns an unfired release *)
| CoolPending                        (* post-release cooldown timer *)
| Absorbing                          (* about to call [absorbNextRelease] *)
| Sending                            (* about to send the token back *)
| Counting                           (* about to count the release *)
| RestorePending (epoch : Z)         (* adaptive timer not fired yet *)
| RestoreRun (epoch : Z)             (* in [restoreAdaptiveSlot] *)
| RestoreSend.                       (* restoring the withheld token *)

#[export] Instance thread_eq_dec : EqDecision thread.
Proof. solve_decision. Defined.

(** ** Record updates *)

Definition upd_slots (d : Z) (l : Limiter) : Limiter :=
  {| cap := cap l; cooldown := cooldown l; slots := slots l + d; waiters := waiters l;
     active := active l; totalAcquired := totalAcquired l;
     totalReleased := totalReleased l; totalTimeout := totalTimeout l;
     withheld := withheld l; absorbNext := absorbNext l;
     adaptiveTimer := adaptiveTimer l; timerEpoch := timerEpoch l |}.

Definition upd_counts (dw da dacq drel dto : Z) (l : Limiter) : Limiter :=
  {| cap := cap l; cooldown := cooldown l; slots := slots l; waiters := waiters l + dw;
     active := active l + da; totalAcquired := totalAcquired l + dacq;
     totalReleased := totalReleased l + drel; totalTimeout := totalTimeout l + dto;
     withheld := withheld l; absorbNext := absorbNext l;
     adaptiveTimer := adaptiveTimer l; timerEpoch := timerEpoch l |}.

Definition set_adaptive (w : Z) (a : bool) (t : option Z) (e : Z) (l : Limiter) : Limiter :=
  {| cap := cap l; cooldown := cooldown l; slots := slots l; waiters := waiters l;
     active := active l; totalAcquired := totalAcquired l;
     totalReleased := totalReleased l; totalTimeout := totalTimeout l;
     withheld := w; absorbNext := a; adaptiveTimer := t; timerEpoch := e |}.

(** ** Operations *)

(** [NewLimiterWithCooldown]; [None] is the panic. *)
Definition NewLimiterWithCooldown (limit cd : Z) : option Limiter :=
  if limit <? 1 then None
  else if cd <? 0 then None
  else Some {| cap := limit; cooldown := cd; slots := limit; waiters := 0;
               active := 0; totalAcquired := 0; totalReleased := 0;
               totalTimeout := 0; withheld := 0; absorbNext := false;
               adaptiveTimer := None; timerEpoch := 0 |}.

(** [absorbNextRelease]: one critical section. *)
Definition absorbNextRelease (l : Limiter) : bool * Limiter :=
  if negb (absorbNext l) then (false, l)
  else (true, set_adaptive (withheld l) false (adaptiveTimer l) (timerEpoch l) l).

(** [stopAdaptiveTimerLocked]: the timer is removed when it has not fired. *)
Definition stopAdaptiveTimerLocked (l : Limiter) (ts : list thread) : list thread :=
  match adaptiveTimer l with
  | Some e => filter (λ t, t ≠ RestorePending e) ts
  | None => ts
  end.

(** [AdaptiveReduce]: one critical section, over the limiter and the pool of
    pending timers. *)
Definition AdaptiveReduce (window : Z) (l : Limiter) (ts : list thread)
    : bool * Limiter * list thread :=
  if window <=? 0 then (false, l, ts)
  else if maxAdaptiveSlots <=? withheld l then
    let epoch := timerEpoch l + 1 in
    (true, set_adaptive (withheld l) (absorbNext l) (Some epoch) epoch l,
     stopAdaptiveTimerLocked l ts ++ [RestorePending epoch])
  else if cap l - withheld l <=? 1 then (false, l, ts)
  else
    let epoch := timerEpoch l + 1 in
    let l1 := set_adaptive (withheld l + 1) true (Some epoch) epoch l in
    let ts1 := stopAdaptiveTimerLocked l ts ++ [RestorePending epoch] in
    if 0 <? slots l1
    then (true, upd_slots (-1) (set_adaptive (withheld l1) false (adaptiveTimer l1) (timerEpoch l1) l1), ts1)
    else (true, l1, ts1).

(** The critical section of [restoreAdaptiveSlot]; [true] when the token has
    to be sent back to the channel afterwards. *)
Definition restoreAdaptiveSlot (epoch : Z) (l : Limiter) : bool * Limiter :=
  if negb (epoch =? timerEpoch l) then (false, l)
  else if withheld l <=? 0 then
    (false, set_adaptive (withheld l) false (adaptiveTimer l) (timerEpoch l) l)
  else if absorbNext l then
    (false, set_adaptive (withheld l - 1) false (adaptiveTimer l) (timerEpoch l) l)
  else
    (true, set_adaptive (withheld l - 1) (absorbNext l) (adaptiveTimer l) (timerEpoch l) l).

Definition AdaptiveActive (l : Limiter) : bool := (0 <? withheld l) || absorbNext l.
Definition EffectiveLimit (l : Limiter) : Z := cap l - withheld l.
Definition Limit (l : Limiter) : Z := cap l.

Record LimiterStats := {
  st_Active : Z; st_Waiters : Z; st_TotalAcq : Z; st_TotalRel : Z;
  st_TotalTimeout : Z; st_Withheld : Z;
}.

Definition Stats (l : Limiter) : LimiterStats :=
  {| st_Active := Z.max (active l) 0; st_Waiters := waiters l;
     st_TotalAcq := totalAcquired l; st_TotalRel := totalReleased l;
     st_TotalTimeout := totalTimeout l; st_Withheld := withheld l |}.

(** What the scheduler, the client or the clock may do with a thread: run its
    next atomic action, prefer the context branch of a [select], end its
    context, call a held release, or fire a timer. *)
Inductive action := Run | TakeDone | EndContext | Release | Fire.

(** One action of one thread: the new limiter and what replaces the thread.
    [None] when the action is not enabled (a blocked channel operation). *)
Definition tstep (a : action) (l : Limiter) (t : thread) : option (Limiter * list thread) :=
  match t, a with
  | AcqStart false, EndContext => Some (l, [AcqStart true])
  | AcqFast false, EndContext => Some (l, [AcqFast true])
  | AcqEnter false, EndContext => Some (l, [AcqEnter true])
  | AcqWait false, EndContext => Some (l, [AcqWait true])
  | AcqStart true, Run => Some (upd_counts 0 0 0 0 1 l, [])
  | AcqStart false, Run => Some (l, [AcqFast false])
  | AcqFast d, Run =>
      if 0 <? slots l then Some (upd_slots (-1) l, [AcqTrack false])
      else Some (l, [AcqEnter d])
  | AcqEnter d, Run => Some (upd_counts 1 0 0 0 0 l, [AcqWait d])
  | AcqWait true, TakeDone => Some (l, [AcqTimeout])
  | AcqWait _, Run =>
      if 0 <? slots l then Some (upd_slots (-1) l, [AcqTrack true]) else None
  | AcqTimeout, Run => Some (upd_counts 0 0 0 0 1 l, [AcqFailLeave])
  | AcqTrack slow, Run => Some (upd_counts 0 0 1 0 0 l, [AcqActive slow])
  | AcqActive slow, Run =>
      Some (upd_counts 0 1 0 0 0 l, [if slow then AcqLeave else Held])
  | AcqLeave, Run => Some (upd_counts (-1) 0 0 0 0 l, [Held])
  | AcqFailLeave, Run => Some (upd_counts (-1) 0 0 0 0 l, [])
  | Held, Release =>
      Some (upd_counts 0 (-1) 0 0 0 l,
            [if 0 <? cooldown l then CoolPending else Absorbing])
  | CoolPending, Fire => Some (l, [Absorbing])
  | Absorbing, Run =>
      let '(absorbed, l') := absorbNextRelease l in
      Some (l', if absorbed then [] else [Sending])
  | Sending, Run | RestoreSend, Run =>
      if slots l <? cap l then Some (upd_slots 1 l, [Counting]) else None
  | Counting, Run => Some (upd_counts 0 0 0 1 0 l, [])
  | RestorePending e, Fire => Some (l, [RestoreRun e])
  | RestoreRun e, Run =>
      let '(send, l') := restoreAdaptiveSlot e l in
      Some (l', if send then [RestoreSend] else [])
  | _, _ => None
  end.

(** ** The transition system *)

Definition config : Type := Limiter * list thread.

Inductive step : config → config → Prop :=
| StepSpawn l ts d :                       (* a caller enters [Acquire] *)
    step (l, ts) (l, ts ++ [AcqStart d])
| StepReduce l ts window ok l' ts' :       (* a caller of [AdaptiveReduce] *)
    AdaptiveReduce window l ts = (ok, l', ts') →
    step (l, ts) (l', ts')
| StepThread a l ts1 t ts2 l' new :
    tstep a l t = Some (l', new) →
    step (l, ts1 ++ t :: ts2) (l', ts1 ++ new ++ ts2).

Definition initial (c : config) : Prop :=
  ∃ limit cd l, NewLimiterWithCooldown limit cd = Some l ∧ c = (l, []).

Definition reachable (c : config) : Prop := ∃ c0, initial c0 ∧ rtc step c0 c.

(** An executable scheduler: a list of moves run from a configuration. *)
Inductive move :=
| MSpawn (d : bool)
| MReduce (window : Z)
| MThread (a : action) (i : nat).

Definition exec1 (m : move) (c : config) : option config :=
  let '(l, ts) := c in
  match m with
  | MSpawn d => Some (l, ts ++ [AcqStart d])
  | MReduce w => let '(_, l', ts') := AdaptiveReduce w l ts in Some (l', ts')
  | MThread a i =>
      t ← ts !! i;
      '(l', new) ← tstep a l t;
      Some (l', take i ts ++ new ++ drop (S i) ts)
  end.

Fixpoint exec (ms : list move) (c : config) : option config :=
  match ms with
  | [] => Some c
  | m :: ms => c' ← exec1 m c; exec ms c'
  end.

(** Number of tokens a thread owns: from receiving it until sending it back. *)
Definition tokens (t : thread) : Z :=
  match t with
  | AcqTrack _ | AcqActive _ | AcqLeave | Held | CoolPending | Absorbing
  | Sending | RestoreSend => 1
  | _ => 0
  end.

(** Threads counted by the [active] counter, and by [waiters]. *)
Definition counts_active (t : thread) : Z :=
  match t with AcqLeave | Held => 1 | _ => 0 end.

Definition counts_waiter (t : thread) : Z :=
  match t with
  | AcqWait _ | AcqTimeout | AcqTrack true | AcqActive true | AcqLeave
  | AcqFailLeave => 1
  | _ => 0
  end.

(** Whether the thread is a timer or callback able to restore epoch [e]. *)
Definition restores (e : Z) (t : thread) : Prop :=
  t = RestorePending e ∨ t = RestoreRun e.

(** The token [AdaptiveReduce] actually took out of circulation. *)
Definition withheld_token (l : Limiter) : Z :=
  if absorbNext l then 0 else withheld l.

Definition thread_facts (l l' : Limiter) (t : thread) (new : list thread) : Prop :=
  cap l' = cap l ∧ timerEpoch l' = timerEpoch l ∧ (0 <= slots l → 0 <= slots l') ∧
  active l' - active l = sumZ counts_active new - counts_active t ∧
  waiters l' - waiters l = sumZ counts_waiter new - counts_waiter t.

(** [t] can be run to [new], whatever the rest of the pool is. *)
Definition truns (l : Limiter) (t : thread) (l' : Limiter) (new : list thread) : Prop :=
  ∀ A B, rtc step (l, A ++ t :: B) (l', A ++ new ++ B).

(** The limiter fields the release path relies on. *)
Definition same_pool (l l' : Limiter) : Prop :=
  cap l' = cap l ∧ slots l' = slots l ∧ withheld l' = withheld l ∧
  absorbNext l' = absorbNext l ∧ timerEpoch l' = timerEpoch l.

(** Two slots with a cooldown: one caller holds a slot, one is in its cooldown,
    a reduction is pending on the next release and a third caller waits. *)
Definition busy_moves : list move :=
  [MSpawn false; MThread Run 0; MThread Run 0; MThread Run 0; MThread Run 0;
   MSpawn false; MThread Run 1; MThread Run 1; MThread Run 1; MThread Run 1;
   MThread Release 1; MReduce 30; MSpawn false;
   MThread Run 3; MThread Run 3; MThread Run 3].

Definition busy : config :=
  match NewLimiterWithCooldown 2 7 with
  | Some l => match exec busy_moves (l, []) with Some c => c | None => (l, []) end
  | None => ({| cap := 0; cooldown := 0; slots := 0; waiters := 0; active := 0;
                totalAcquired := 0; totalReleased := 0; totalTimeout := 0; withheld := 0;
                absorbNext := false; adaptiveTimer := None; timerEpoch := 0 |}, [])
  end.

Definition sending_moves : list move :=
  busy_moves ++ [MThread Fire 2; MThread Run 2; MThread Fire 1; MThread Run 1].

Definition one_holder_moves : list move :=
  [MSpawn false; MThread Run 0; MThread Run 0; MThread Run 0; MThread Run 0].

(** ** Invariant *)

Record Inv (l : Limiter) (ts : list thread) : Prop := {
  inv_cap : 1 <= cap l;
  inv_slots : 0 <= slots l;
  inv_tokens : slots l + sumZ tokens ts + withheld_token l = cap l;
  inv_active : active l = sumZ counts_active ts;
  inv_waiters : waiters l = sumZ counts_waiter ts;
  inv_withheld : 0 <= withheld l <= maxAdaptiveSlots;
  inv_absorb : absorbNext l = true → withheld l = 1;
  inv_effective : 1 <= cap l - withheld l;
  inv_restore : withheld l = 1 → ∃ t, t ∈ ts ∧ restores (timerEpoch l) t;
  inv_epochs : ∀ e t, t ∈ ts → restores e t → e <= timerEpoch l;
}.

Lemma tokens_nonneg t : 0 <= tokens t.
Proof. destruct t; simpl; lia. Qed.

Lemma counts_active_le_tokens ts : sumZ counts_active ts <= sumZ tokens ts.
Proof. induction ts as [|t ts IH]; simpl; [lia|]. destruct t; simpl; lia. Qed.

#[export] Hint Resolve tokens_nonneg : shaper.

(** The per-thread facts: which counters an action moves, and what it keeps. *)
Ltac tstep_cases H :=
  unfold tstep, absorbNextRelease, restoreAdaptiveSlot in H;
  repeat (case_match; simpl in *; try done); simplify_eq; simpl in *; bprop.

Lemma tstep_facts a l t l' new :
  tstep a l t = Some (l', new) → thread_facts l l' t new.
Proof.
  intros H. unfold thread_facts. tstep_cases H; repeat split; lia.
Qed.

(** Tokens are neither created nor lost by any action. *)
Lemma tstep_balance a l t l' new :
  tstep a l t = Some (l', new) →
  0 <= withheld l <= maxAdaptiveSlots → (absorbNext l = true → withheld l = 1) →
  slots l' + sumZ tokens new + withheld_token l' =
  slots l + tokens t + withheld_token l.
Proof.
  intros H Hw Ha. unfold withheld_token, maxAdaptiveSlots in *.
  tstep_cases H; try congruence; try specialize (Ha ltac:(congruence)); lia.
Qed.

Lemma tstep_adaptive a l t l' new :
  tstep a l t = Some (l', new) →
  0 <= withheld l <= maxAdaptiveSlots → (absorbNext l = true → withheld l = 1) →
  0 <= withheld l' <= withheld l ∧ (absorbNext l' = true → withheld l' = 1).
Proof.
  intros H Hw Ha. unfold maxAdaptiveSlots in *.
  tstep_cases H; (split; [lia|]); intros; try congruence; auto.
Qed.

(** While a slot stays withheld, a restorer of the current epoch is not
    consumed without leaving one. *)
Lemma tstep_restores a l t l' new :
  tstep a l t = Some (l', new) → 0 <= withheld l <= maxAdaptiveSlots →
  withheld l' = 1 → restores (timerEpoch l) t →
  ∃ t', t' ∈ new ∧ restores (timerEpoch l) t'.
Proof.
  intros H Hw Hl' Hr. unfold restores, maxAdaptiveSlots in *.
  destruct Hr as [-> | ->]; simpl in H.
  - destruct a; try done. injection H as Hl Hn. subst new.
    exists (RestoreRun (timerEpoch l)). split; [left | by right].
  - destruct a; try done. unfold restoreAdaptiveSlot in H.
    rewrite Z.eqb_refl in H. simpl in H. tstep_cases H; lia.
Qed.

(** A thread's successors restore no epoch the thread did not restore. *)
Lemma tstep_epochs a l t l' new e t' :
  tstep a l t = Some (l', new) → t' ∈ new → restores e t' → restores e t.
Proof.
  intros H Hin Hr. unfold restores in *.
  tstep_cases H; try (apply elem_of_nil in Hin; done);
    rewrite list_elem_of_singleton in Hin; subst; destruct Hr; simplify_eq; auto.
Qed.

Lemma Inv_thread a l ts1 t ts2 l' new :
  Inv l (ts1 ++ t :: ts2) → tstep a l t = Some (l', new) →
  Inv l' (ts1 ++ new ++ ts2).
Proof.
  intros [] Ht.
  destruct (tstep_facts _ _ _ _ _ Ht) as (Hc & He & Hs & Hact & Hwait).
  pose proof (tstep_balance _ _ _ _ _ Ht ltac:(done) ltac:(done)).
  pose proof (tstep_adaptive _ _ _ _ _ Ht ltac:(done) ltac:(done)) as [? ?].
  rewrite !sumZ_app in *. simpl in *.
  split; rewrite ?sumZ_app; try done; try lia.
  2:{ intros e t' Hin Hr. rewrite He.
      apply elem_of_app in Hin as [?|[Hin|?]%elem_of_app]; try (eapply (inv_epochs0 e t'); [in_solve | done]).
      eapply (inv_epochs0 e t); [in_solve | by eapply tstep_epochs]. }
  intros Hw'. rewrite He. destruct inv_restore0 as (t' & Hin & Hr); [unfold maxAdaptiveSlots in *; lia|].
  apply elem_of_app in Hin as [Hin | Hin%elem_of_cons].
  - exists t'. split; [in_solve | done].
  - destruct Hin as [-> | Hin].
    + destruct (tstep_restores _ _ _ _ _ Ht ltac:(done) Hw' Hr) as (t'' & ? & ?).
      exists t''. split; [in_solve | done].
    + exists t'. split; [in_solve | done].
Qed.

Lemma sumZ_stop (w : thread → Z) l ts :
  (∀ e, w (RestorePending e) = 0) → sumZ w (stopAdaptiveTimerLocked l ts) = sumZ w ts.
Proof.
  intros Hw. unfold stopAdaptiveTimerLocked. destruct (adaptiveTimer l) as [e|]; [|done].
  apply sumZ_filter_sub. intros x Hx. destruct (decide (x = RestorePending e)); [by subst | tauto].
Qed.

Lemma elem_of_stop t l ts : t ∈ stopAdaptiveTimerLocked l ts → t ∈ ts.
Proof.
  unfold stopAdaptiveTimerLocked. destruct (adaptiveTimer l); [|done].
  by intros [_ ?]%list_elem_of_filter.
Qed.

Lemma Inv_reduce window l ts ok l' ts' :
  Inv l ts → AdaptiveReduce window l ts = (ok, l', ts') → Inv l' ts'.
Proof.
  intros Hi H. unfold AdaptiveReduce, maxAdaptiveSlots in H. destruct Hi.
  unfold withheld_token, maxAdaptiveSlots in *.
  repeat case_match; simplify_eq; bprop; split; simpl in *;
    rewrite ?sumZ_app, ?sumZ_stop by done; simpl;
    unfold withheld_token, maxAdaptiveSlots in *; simpl;
    repeat match goal with H : absorbNext _ = _ |- _ => rewrite H in * end;
    try done; try lia; try (intros; lia).
  all: try (intros _; eexists; split; [apply elem_of_app; right; left | by left]).
  all: try (destruct (absorbNext l) eqn:E; [specialize (inv_absorb0 eq_refl)|]; try done; lia).
  all: intros e t [Hin%elem_of_stop | ->%list_elem_of_singleton]%elem_of_app Hr;
    [specialize (inv_epochs0 e t Hin Hr); lia | destruct Hr; simplify_eq; lia].
Qed.

Lemma Inv_step c c' : Inv c.1 c.2 → step c c' → Inv c'.1 c'.2.
Proof.
  intros Hi Hs. destruct Hs as [l ts d | l ts window ok l' ts' Hr | a l ts1 t ts2 l' new Ht];
    simpl in *.
  - destruct Hi. split; rewrite ?sumZ_app; simpl; try done; try lia.
    + intros Hw. destruct (inv_restore0 Hw) as (t & ? & ?). exists t. split; [in_solve | done].
    + intros e t [Hin | ->%list_elem_of_singleton]%elem_of_app Hr; [eauto | by destruct Hr].
  - by eapply Inv_reduce.
  - by eapply Inv_thread.
Qed.

Lemma Inv_initial c : initial c → Inv c.1 c.2.
Proof.
  intros (limit & cd & l & Hn & ->). unfold NewLimiterWithCooldown in Hn.
  repeat case_match; simplify_eq; bprop; split; unfold withheld_token, maxAdaptiveSlots; simpl;
    try lia; try done. by intros e t ?%elem_of_nil.
Qed.

Lemma reachable_inv l ts : reachable (l, ts) → Inv l ts.
Proof.
  intros (c0 & Hi & Hr).
  apply (rtc_invariant step (λ c, Inv c.1 c.2) c0 (l, ts)); [apply Inv_step | by apply Inv_initial | done].
Qed.

Lemma reachable_step c c' : reachable c → step c c' → reachable c'.
Proof. intros (c0 & Hi & Hr) Hs. exists c0. split; [done|]. by eapply rtc_r. Qed.

(** ** The executable scheduler is sound *)

Lemma exec1_sound m c c' : exec1 m c = Some c' → step c c'.
Proof.
  destruct c as [l ts]. destruct m as [d | w | a i]; simpl.
  - intros [= <-]. constructor.
  - destruct (AdaptiveReduce w l ts) as [[ok l'] ts'] eqn:E. intros [= <-].
    by econstructor.
  - intros (t & Hi & ([l' new] & Ht & [= <-])%bind_Some)%bind_Some.
    rewrite <- (take_drop_middle ts i t Hi) at 1. by econstructor.
Qed.

Lemma exec_sound ms c c' : exec ms c = Some c' → rtc step c c'.
Proof.
  revert c. induction ms as [|m ms IH]; simpl; intros c.
  - intros [= ->]. apply rtc_refl.
  - intros (c1 & H1 & H2)%bind_Some. eapply rtc_l; [by eapply exec1_sound | eauto].
Qed.

Lemma exec_reachable limit cd l0 ms c :
  NewLimiterWithCooldown limit cd = Some l0 → exec ms (l0, []) = Some c → reachable c.
Proof. intros Hn He. exists (l0, []). split; [by exists limit, cd, l0 | by eapply exec_sound]. Qed.

(** ** Running one thread in any context *)

Lemma truns_refl l t : truns l t l [t].
Proof. intros A B. apply rtc_refl. Qed.

Lemma truns_step a l t l1 t1 l2 new :
  tstep a l t = Some (l1, [t1]) → truns l1 t1 l2 new → truns l t l2 new.
Proof.
  intros Hs Hr A B. eapply rtc_l; [by eapply (StepThread a l A t B)|]. apply Hr.
Qed.

Lemma truns_one a l t l' new : tstep a l t = Some (l', new) → truns l t l' new.
Proof. intros Hs A B. apply rtc_once. by eapply StepThread. Qed.

Lemma same_pool_refl l : same_pool l l.
Proof. by repeat split. Qed.

Lemma same_pool_counts dw da dacq drel dto l l' :
  same_pool (upd_counts dw da dacq drel dto l) l' → same_pool l l'.
Proof. done. Qed.

#[local] Hint Resolve same_pool_refl same_pool_counts truns_refl : core.

(** Every thread that owns a token, other than one already sending, can be run
    to the point where its release is absorbed or sent. *)
Lemma held_to_absorbing l : ∃ l', truns l Held l' [Absorbing] ∧ same_pool l l'.
Proof.
  destruct (0 <? cooldown l) eqn:E.
  - exists (upd_counts 0 (-1) 0 0 0 l). split; [|done].
    eapply (truns_step Release); [simpl; by rewrite E|].
    by apply (truns_one Fire).
  - exists (upd_counts 0 (-1) 0 0 0 l). split; [|done].
    apply (truns_one Release). simpl. by rewrite E.
Qed.

Lemma active_to_absorbing slow l :
  ∃ l', truns l (AcqActive slow) l' [Absorbing] ∧ same_pool l l'.
Proof.
  destruct slow.
  - destruct (held_to_absorbing (upd_counts (-1) 0 0 0 0 (upd_counts 0 1 0 0 0 l)))
      as (l' & Hr & Hp).
    exists l'. split; [|by eauto].
    eapply (truns_step Run); [done|]. by eapply (truns_step Run).
  - destruct (held_to_absorbing (upd_counts 0 1 0 0 0 l)) as (l' & Hr & Hp).
    exists l'. split; [|by eauto]. by eapply (truns_step Run).
Qed.

Lemma token_to_absorbing l t :
  tokens t = 1 → t ≠ Sending → t ≠ RestoreSend →
  ∃ l', truns l t l' [Absorbing] ∧ same_pool l l'.
Proof.
  intros Ht Hs1 Hs2. destruct t; try done.
  - destruct (active_to_absorbing slow (upd_counts 0 0 1 0 0 l)) as (l' & Hr & Hp).
    exists l'. split; [|by eauto]. by eapply (truns_step Run).
  - apply active_to_absorbing.
  - destruct (held_to_absorbing (upd_counts (-1) 0 0 0 0 l)) as (l' & Hr & Hp).
    exists l'. split; [|by eauto]. by eapply (truns_step Run).
  - apply held_to_absorbing.
  - exists l. split; [|done]. by apply (truns_one Fire).
  - by exists l.
Qed.

(** With no absorption pending and room in the channel, a thread that owns a
    token can be run until the token is back in the channel. *)
Lemma token_returns l t :
  tokens t = 1 → absorbNext l = false → 0 <= slots l < cap l →
  ∃ l' new, truns l t l' new ∧ 0 < slots l'.
Proof.
  intros Ht Ha Hs.
  assert (Hsend : ∀ l1 t1, slots l1 = slots l → cap l1 = cap l →
            t1 = Sending ∨ t1 = RestoreSend →
            tstep Run l1 t1 = Some (upd_slots 1 l1, [Counting])).
  { intros l1 t1 H1 H2 [-> | ->]; simpl; rewrite H1, H2;
      (destruct (Z.ltb_spec (slots l) (cap l)); [done | lia]). }
  destruct (decide (t = Sending ∨ t = RestoreSend)) as [Hc|Hc].
  - exists (upd_slots 1 l), [Counting]. split; [by eapply (truns_one Run), Hsend | simpl; lia].
  - destruct (token_to_absorbing l t) as (l1 & Hr & Hc1 & Hs1 & Hw1 & Ha1 & He1); [done|tauto|tauto|].
    exists (upd_slots 1 l1), [Counting]. split; [|simpl; lia].
    intros A B. etrans; [apply Hr|]. simpl.
    refine (truns_step Run l1 Absorbing l1 Sending (upd_slots 1 l1) [Counting] _ _ A B).
    { simpl. unfold absorbNextRelease. by rewrite Ha1, Ha. }
    apply (truns_one Run). apply Hsend; [done | done | by left].
Qed.

(** The pool split around one waiting thread: a thread on either side can be
    run without touching the waiter. *)
Lemma truns_around l r l' new ts1 ts2 :
  r ∈ ts1 ++ ts2 → truns l r l' new →
  ∃ ts1' ts2', ∀ x, rtc step (l, ts1 ++ x :: ts2) (l', ts1' ++ x :: ts2').
Proof.
  intros Hin Hr. apply elem_of_app in Hin as [Hin|Hin].
  - apply list_elem_of_split in Hin as (A & B & ->).
    exists (A ++ new ++ B), ts2. intros x. rewrite <- !app_assoc. simpl.
    apply (Hr A (B ++ x :: ts2)).
  - apply list_elem_of_split in Hin as (A & B & ->).
    exists ts1, (A ++ new ++ B). intros x.
    pose proof (Hr (ts1 ++ x :: A) B) as H. rewrite <- !app_assoc in H. done.
Qed.

Lemma reachable_rtc c c' : reachable c → rtc step c c' → reachable c'.
Proof. intros (c0 & ? & ?) Hr. exists c0. split; [done|]. by etrans. Qed.

(** When the channel is empty, some thread owns a token. *)
Lemma token_owner l ts :
  Inv l ts → slots l = 0 → ∃ t, t ∈ ts ∧ tokens t = 1.
Proof.
  intros [] Hs. unfold withheld_token in *.
  destruct (sumZ_pos_elem tokens ts) as (t & Hin & Ht).
  - destruct (absorbNext l); lia.
  - exists t. split; [done|]. destruct t; simpl in *; lia.
Qed.

(** A pending absorption can be cleared by letting its timer run. *)
Lemma restorer_clears l r :
  restores (timerEpoch l) r → absorbNext l = true → withheld l = 1 →
  ∃ l', truns l r l' [] ∧ absorbNext l' = false ∧ slots l' = slots l ∧ cap l' = cap l.
Proof.
  intros Hr Ha Hw.
  assert (Hrun : tstep Run l (RestoreRun (timerEpoch l)) =
    Some (set_adaptive (withheld l - 1) false (adaptiveTimer l) (timerEpoch l) l, [])).
  { simpl. unfold restoreAdaptiveSlot. rewrite Z.eqb_refl, Hw, Ha. done. }
  exists (set_adaptive (withheld l - 1) false (adaptiveTimer l) (timerEpoch l) l).
  split; [|done]. destruct Hr as [-> | ->].
  - eapply (truns_step Fire); [done|]. by apply (truns_one Run).
  - by apply (truns_one Run).
Qed.

(** ** Properties *)

(** C1: the channel, the goroutines and the adaptive headroom together hold
    exactly the configured number of tokens in every reachable state, so the
    callers inside the limiter, cooling slots included, never exceed the limit,
    nor the limit minus one once a slot has been withheld; and the [active] and
    [waiters] gauges count exactly the callers holding a slot and those blocked. *)
Theorem limit_never_exceeded l ts :
  reachable (l, ts) →
  slots l + sumZ tokens ts + withheld_token l = cap l ∧
  sumZ tokens ts <= cap l - withheld_token l ∧
  active l = sumZ counts_active ts ∧ 0 <= active l <= cap l - withheld_token l ∧
  waiters l = sumZ counts_waiter ts.
Proof.
  intros [] %reachable_inv. pose proof (counts_active_le_tokens ts).
  pose proof (sumZ_nonneg counts_active ts ltac:(intros []; simpl; lia)). lia.
Qed.

(** a release never blocks: whenever a goroutine is about to send a token
    back, by a plain release, after a cooldown or when restoring a withheld
    slot, the channel has room for it. *)
Theorem release_never_blocks l ts t :
  reachable (l, ts) → t ∈ ts → t = Sending ∨ t = RestoreSend →
  is_Some (tstep Run l t).
Proof.
  intros [] %reachable_inv Hin Ht.
  pose proof (sumZ_elem_le tokens ts t tokens_nonneg Hin).
  assert (slots l < cap l) as Hlt.
  { unfold withheld_token in *. destruct (absorbNext l), Ht; subst; simpl in *; lia. }
  destruct Ht as [-> | ->]; simpl; (destruct (Z.ltb_spec (slots l) (cap l)); [eauto | lia]).
Qed.

(** C39: no waiter can be starved by a lost slot: from every reachable state, the
    other goroutines and timers can be run, without touching the waiter, to a
    state where its receive is enabled; in particular adaptive headroom and
    post-release cooldowns never lose a token for good. *)
Theorem waiter_can_be_served l ts1 d ts2 :
  reachable (l, ts1 ++ AcqWait d :: ts2) →
  ∃ l' ts1' ts2',
    (∀ x, rtc step (l, ts1 ++ x :: ts2) (l', ts1' ++ x :: ts2')) ∧ 0 < slots l'.
Proof.
  intros Hreach. pose proof (reachable_inv _ _ Hreach) as Hi.
  destruct (decide (0 < slots l)) as [Hs|Hs]; [by exists l, ts1, ts2|].
  (* first clear a pending absorption *)
  assert (∃ l1 us1 us2, (∀ x, rtc step (l, ts1 ++ x :: ts2) (l1, us1 ++ x :: us2)) ∧
            absorbNext l1 = false ∧ slots l1 = 0) as (l1 & us1 & us2 & Hr1 & Ha1 & Hs1).
  { destruct (absorbNext l) eqn:Ha; [|exists l, ts1, ts2; split; [done|destruct Hi; split; [done|lia]]].
    destruct Hi. destruct (inv_restore0 (inv_absorb0 Ha)) as (r & Hin & Hr).
    destruct (restorer_clears l r Hr Ha (inv_absorb0 Ha)) as (l1 & Hrun & ? & ? & ?).
    destruct (truns_around l r l1 [] ts1 ts2) as (us1 & us2 & Hx); [|done|].
    - apply elem_of_app in Hin as [?|[->|?]%elem_of_cons]; [in_solve | by destruct Hr | in_solve].
    - exists l1, us1, us2. split; [done|]. split; [done|lia]. }
  (* then run a token owner *)
  pose proof (reachable_inv _ _ (reachable_rtc _ _ Hreach (Hr1 (AcqWait d)))) as Hi1.
  destruct (token_owner _ _ Hi1 Hs1) as (t & Hin & Ht).
  destruct (token_returns l1 t Ht Ha1) as (l2 & new & Hrun & Hs2); [destruct Hi1; lia|].
  destruct (truns_around l1 t l2 new us1 us2) as (vs1 & vs2 & Hx); [|done|].
  - apply elem_of_app in Hin as [?|[->|?]%elem_of_cons]; [in_solve | done | in_solve].
  - exists l2, vs1, vs2. split; [|done]. intros x. by etrans; [apply Hr1|].
Qed.

(** when every admitted caller still holds its slot and nothing else is in
    flight (no timer, no cooldown, no waiter), no slot is missing: adaptive
    headroom is over and the free slots are the limit minus the holders. *)
Theorem quiescent_slots_restored l ts :
  reachable (l, ts) → Forall (λ t, t = Held) ts →
  withheld l = 0 ∧ absorbNext l = false ∧ slots l = cap l - Z.of_nat (length ts) ∧
  active l = Z.of_nat (length ts) ∧ waiters l = 0.
Proof.
  intros Hr Hall. destruct (reachable_inv _ _ Hr).
  assert (∀ w, sumZ w ts = Z.of_nat (length ts) * w Held) as Hsum.
  { intros w. clear -Hall. induction Hall as [|t ts -> _ IH]; simpl length; simpl sumZ; lia. }
  rewrite !Hsum in *. simpl in *. unfold maxAdaptiveSlots, withheld_token in *.
  assert (withheld l ≠ 1) as Hw.
  { intros Hw. destruct (inv_restore0 Hw) as (t & Hin & Ht).
    rewrite Forall_forall in Hall. rewrite (Hall t Hin) in Ht. by destruct Ht. }
  destruct (absorbNext l) eqn:Ha; [by specialize (inv_absorb0 eq_refl)|]. lia.
Qed.

(** [AdaptiveReduce] succeeds exactly for a positive window on a limiter
    that is already reduced or has at least two slots; it then leaves one slot
    withheld, never less than one usable slot, a timer of the new epoch to
    restore it, and every earlier timer or callback is of an epoch
    [restoreAdaptiveSlot] ignores.  When it refuses it changes nothing. *)
Theorem adaptive_reduce_contract l ts window ok l' ts' :
  reachable (l, ts) → AdaptiveReduce window l ts = (ok, l', ts') →
  (ok = true ↔ 0 < window ∧ (withheld l = 1 ∨ 2 <= cap l)) ∧
  (ok = false → l' = l ∧ ts' = ts) ∧
  (ok = true → withheld l' = 1 ∧ EffectiveLimit l' = cap l - 1 ∧ 1 <= EffectiveLimit l' ∧
     RestorePending (timerEpoch l') ∈ ts' ∧
     ∀ e t, t ∈ ts → restores e t → restoreAdaptiveSlot e l' = (false, l')).
Proof.
  intros Hr H. destruct (reachable_inv _ _ Hr). unfold maxAdaptiveSlots in *.
  assert (Hstale : ∀ l1 e t, timerEpoch l1 = timerEpoch l + 1 → t ∈ ts → restores e t →
            restoreAdaptiveSlot e l1 = (false, l1)).
  { intros l1 e t He Hin Ht. specialize (inv_epochs0 e t Hin Ht).
    unfold restoreAdaptiveSlot. destruct (Z.eqb_spec e (timerEpoch l1)); [lia | done]. }
  unfold AdaptiveReduce, EffectiveLimit, maxAdaptiveSlots in *.
  repeat case_match; simplify_eq; bprop; simpl;
    (split; [split; intros ?; (done || lia) | split; [done|]]); intros; try done;
    (split; [lia|split; [lia|split; [lia|split]]]);
    try (apply elem_of_app; right; left); intros; by eapply Hstale.
Qed.

(** the release counter is not bounded by the acquisition counter: when
    adaptive headroom withholds an idle slot and gives it back, the restore is
    counted in [totalReleased] although nothing was acquired. *)
Theorem totals_can_diverge :
  ∃ l, reachable (l, []) ∧ totalAcquired l = 0 ∧ totalReleased l = 1.
Proof.
  eexists. split.
  - eapply (exec_reachable 2 0 _ [MReduce 5; MThread Fire 0; MThread Run 0; MThread Run 0; MThread Run 0]);
      vm_compute; reflexivity.
  - done.
Qed.

(** ** Witnesses *)

Lemma busy_reachable : reachable (busy.1, busy.2).
Proof.
  rewrite <- surjective_pairing.
  eapply (exec_reachable 2 7 _ busy_moves); vm_compute; reflexivity.
Qed.

Example busy_pool : busy.2 = [Held; CoolPending; RestorePending 1; AcqWait false].
Proof. reflexivity. Qed.

Lemma limit_never_exceeded_witness :
  sumZ tokens busy.2 <= cap busy.1 - withheld_token busy.1.
Proof. apply (limit_never_exceeded busy.1 busy.2). exact busy_reachable. Defined.

Lemma release_never_blocks_witness :
  ∃ c, exec sending_moves (match NewLimiterWithCooldown 2 7 with Some l => (l, []) | None => busy end) = Some c
       ∧ is_Some (tstep Run c.1 Sending).
Proof.
  eexists. split; [vm_compute; reflexivity|].
  eapply (release_never_blocks _ _ Sending).
  - eapply (exec_reachable 2 7 _ sending_moves); vm_compute; reflexivity.
  - simpl. right. left.
  - by left.
Defined.

Lemma waiter_can_be_served_witness :
  ∃ l' ts1' ts2',
    (∀ x, rtc step (busy.1, [Held; CoolPending; RestorePending 1] ++ x :: []) (l', ts1' ++ x :: ts2'))
    ∧ 0 < slots l'.
Proof.
  apply (waiter_can_be_served busy.1 [Held; CoolPending; RestorePending 1] false []).
  change (reachable (busy.1, [Held; CoolPending; RestorePending 1; AcqWait false])).
  rewrite <- busy_pool. exact busy_reachable.
Defined.

Lemma quiescent_slots_restored_witness :
  ∃ l, reachable (l, [Held]) ∧ slots l = cap l - 1.
Proof.
  assert (Hr : ∃ l, reachable (l, [Held])).
  { eexists. eapply (exec_reachable 2 7 _ one_holder_moves); vm_compute; reflexivity. }
  destruct Hr as (l & Hr). exists l. split; [exact Hr|].
  destruct (quiescent_slots_restored l [Held] Hr) as (_ & _ & Hs & _).
  - by repeat constructor.
  - exact Hs.
Defined.

Lemma adaptive_reduce_contract_witness :
  ∃ l' ts', AdaptiveReduce 9 busy.1 busy.2 = (true, l', ts') ∧
  RestorePending (timerEpoch l') ∈ ts'.
Proof.
  destruct (AdaptiveReduce 9 busy.1 busy.2) as [[ok l'] ts'] eqn:E.
  destruct (adaptive_reduce_contract busy.1 busy.2 9 ok l' ts' busy_reachable E)
    as (Hok & _ & H).
  assert (ok = true) as -> by (apply Hok; split; [lia | left; reflexivity]).
  exists l', ts'. split; [reflexivity|]. by destruct (H eq_refl) as (_ & _ & _ & ? & _).
Defined.
