(* ===== verification/Breaker.v ===== *)
(** * The circuit breaker ([src/internal/circuitbreaker/circuitbreaker.go])

    Every method holds [b.mu] for its whole body, so a method is one atomic
    function of the breaker and of the clock readings it makes, in the order it
    makes them: [now] is the method's own [time.Now], [since] the reading inside
    [time.Since] and [stamp] the one [setState] makes.  Counters that advance
    once per request ([consecutive], [totalFailures], [backoffMultiple],
    [issuedEpoch]) are unbounded integers; durations keep their 64 bits. *)

From Stdlib Require Import ZArith Lia Bool List Sorting.Sorted String.
From S2P Require Import Prelude GoStd.

Open Scope Z_scope.

(** ** Configuration *)

Inductive State := Closed | Open | HalfOpen.

#[export] Instance State_eq_dec : EqDecision State.
Proof. solve_decision. Defined.

(** [State.String]; the default branch has no value of the type. *)
Definition State_String (s : State) : string :=
  match s with
  | Closed => "CLOSED"
  | Open => "OPEN"
  | HalfOpen => "HALF_OPEN"
  end.

Record breakerConfig := {
  failureThreshold : Z;
  window : Duration;
  cfg_openTimeout : Duration;
  maxOpenTimeout : Duration;
  basePenalty : Duration;
  maxPenalty : Duration;
}.

Definition zeroConfig : breakerConfig :=
  {| failureThreshold := 0; window := 0; cfg_openTimeout := 0; maxOpenTimeout := 0;
     basePenalty := 0; maxPenalty := 0 |}.

Definition MaxFailureThreshold : Z := 100000.

(** The option types and their [applyBreakerOption] methods. *)
Inductive BreakerOption :=
| FailureThresholdOption (value : Z)
| WindowOption (value : Duration)
| OpenTimeoutOption (value : Duration)
| MaxOpenTimeoutOption (value : Duration)
| BasePenaltyOption (value : Duration)
| MaxPenaltyOption (value : Duration).

Inductive BreakerError :=
| ErrThresholdRange (value : Z)
| ErrNotPositive (what : string) (value : Duration)
| ErrPenaltyOrder (max base : Duration).

Definition applyBreakerOption (o : BreakerOption) (c : breakerConfig)
    : result BreakerError breakerConfig :=
  match o with
  | FailureThresholdOption v =>
      if (v <=? 0) || (MaxFailureThreshold <? v) then Err (ErrThresholdRange v)
      else Ok {| failureThreshold := v; window := window c; cfg_openTimeout := cfg_openTimeout c;
                 maxOpenTimeout := maxOpenTimeout c; basePenalty := basePenalty c;
                 maxPenalty := maxPenalty c |}
  | WindowOption v =>
      if v <=? 0 then Err (ErrNotPositive "window" v)
      else Ok {| failureThreshold := failureThreshold c; window := v;
                 cfg_openTimeout := cfg_openTimeout c; maxOpenTimeout := maxOpenTimeout c;
                 basePenalty := basePenalty c; maxPenalty := maxPenalty c |}
  | OpenTimeoutOption v =>
      if v <=? 0 then Err (ErrNotPositive "open timeout" v)
      else Ok {| failureThreshold := failureThreshold c; window := window c;
                 cfg_openTimeout := v; maxOpenTimeout := maxOpenTimeout c;
                 basePenalty := basePenalty c; maxPenalty := maxPenalty c |}
  | MaxOpenTimeoutOption v =>
      if v <=? 0 then Err (ErrNotPositive "max open timeout" v)
      else Ok {| failureThreshold := failureThreshold c; window := window c;
                 cfg_openTimeout := cfg_openTimeout c; maxOpenTimeout := v;
                 basePenalty := basePenalty c; maxPenalty := maxPenalty c |}
  | BasePenaltyOption v =>
      if v <=? 0 then Err (ErrNotPositive "base penalty" v)
      else Ok {| failureThreshold := failureThreshold c; window := window c;
                 cfg_openTimeout := cfg_openTimeout c; maxOpenTimeout := maxOpenTimeout c;
                 basePenalty := v; maxPenalty := maxPenalty c |}
  | MaxPenaltyOption v =>
      if v <=? 0 then Err (ErrNotPositive "max penalty" v)
      else Ok {| failureThreshold := failureThreshold c; window := window c;
                 cfg_openTimeout := cfg_openTimeout c; maxOpenTimeout := maxOpenTimeout c;
                 basePenalty := basePenalty c; maxPenalty := v |}
  end.

(** [v], or [d] when the field was left at zero (or below). *)
Definition orDefault (v d : Z) : Z := if v <=? 0 then d else v.

Definition applyDefaults (c : breakerConfig) : breakerConfig :=
  let open := orDefault (cfg_openTimeout c) (10 * Second) in
  let maxOpen := orDefault (maxOpenTimeout c) (120 * Second) in
  {| failureThreshold := orDefault (failureThreshold c) 5;
     window := orDefault (window c) (30 * Second);
     cfg_openTimeout := open;
     maxOpenTimeout := if maxOpen <? open then open else maxOpen;
     basePenalty := orDefault (basePenalty c) (2 * Second);
     maxPenalty := orDefault (maxPenalty c) (60 * Second) |}.

Fixpoint applyOptions (opts : list BreakerOption) (c : breakerConfig)
    : result BreakerError breakerConfig :=
  match opts with
  | [] => Ok c
  | o :: opts => c' <-? applyBreakerOption o c;; applyOptions opts c'
  end.

(** ** The breaker *)

Record probeTicket := { pt_epoch : Z; pt_startedAt : Time }.

Record Breaker := {
  cfg : breakerConfig;
  state : State;
  failures : list Time;
  consecutive : Z;
  totalFailures : Z;
  totalSuccesses : Z;
  lastFailure : Time;
  lastStateChange : Time;
  openSince : Time;
  backoffMultiple : Z;
  lastRetryAfter : Duration;
  probes : list probeTicket;
  issuedEpoch : Z;
}.

(** Field updates. *)
Definition setState (s : State) (stamp : Time) (b : Breaker) : Breaker :=
  {| cfg := cfg b; state := s; failures := failures b; consecutive := consecutive b;
     totalFailures := totalFailures b; totalSuccesses := totalSuccesses b;
     lastFailure := lastFailure b; lastStateChange := stamp; openSince := openSince b;
     backoffMultiple := backoffMultiple b; lastRetryAfter := lastRetryAfter b;
     probes := probes b; issuedEpoch := issuedEpoch b |}.

Definition set_failures (fs : list Time) (b : Breaker) : Breaker :=
  {| cfg := cfg b; state := state b; failures := fs; consecutive := consecutive b;
     totalFailures := totalFailures b; totalSuccesses := totalSuccesses b;
     lastFailure := lastFailure b; lastStateChange := lastStateChange b;
     openSince := openSince b; backoffMultiple := backoffMultiple b;
     lastRetryAfter := lastRetryAfter b; probes := probes b; issuedEpoch := issuedEpoch b |}.

Definition set_health (cons fails succ : Z) (lastF : Time) (ra : Duration) (b : Breaker) : Breaker :=
  {| cfg := cfg b; state := state b; failures := failures b; consecutive := cons;
     totalFailures := fails; totalSuccesses := succ; lastFailure := lastF;
     lastStateChange := lastStateChange b; openSince := openSince b;
     backoffMultiple := backoffMultiple b; lastRetryAfter := ra; probes := probes b;
     issuedEpoch := issuedEpoch b |}.

Definition set_open (since : Time) (backoff : Z) (b : Breaker) : Breaker :=
  {| cfg := cfg b; state := state b; failures := failures b; consecutive := consecutive b;
     totalFailures := totalFailures b; totalSuccesses := totalSuccesses b;
     lastFailure := lastFailure b; lastStateChange := lastStateChange b;
     openSince := since; backoffMultiple := backoff; lastRetryAfter := lastRetryAfter b;
     probes := probes b; issuedEpoch := issuedEpoch b |}.

Definition set_probes (ps : list probeTicket) (issued : Z) (b : Breaker) : Breaker :=
  {| cfg := cfg b; state := state b; failures := failures b; consecutive := consecutive b;
     totalFailures := totalFailures b; totalSuccesses := totalSuccesses b;
     lastFailure := lastFailure b; lastStateChange := lastStateChange b;
     openSince := openSince b; backoffMultiple := backoffMultiple b;
     lastRetryAfter := lastRetryAfter b; probes := ps; issuedEpoch := issued |}.

(** [New]. *)
Definition New (opts : list BreakerOption) (now : Time) : result BreakerError Breaker :=
  c0 <-? applyOptions opts zeroConfig;;
  let c := applyDefaults c0 in
  if maxPenalty c <? basePenalty c then Err (ErrPenaltyOrder (maxPenalty c) (basePenalty c))
  else Ok {| cfg := c; state := Closed; failures := []; consecutive := 0;
             totalFailures := 0; totalSuccesses := 0; lastFailure := 0;
             lastStateChange := now; openSince := 0; backoffMultiple := 0;
             lastRetryAfter := 0; probes := []; issuedEpoch := 0 |}.

(** [openTimeout]: [cfg.openTimeout * 2^backoffMultiple], capped. *)
Definition openTimeout (b : Breaker) : Duration :=
  let shift := backoffMultiple b in
  if 62 <=? shift then maxOpenTimeout (cfg b)
  else
    let multiplier := shl1_64 shift in
    if (0 <? multiplier) && (div64 (maxOpenTimeout (cfg b)) multiplier <? cfg_openTimeout (cfg b))
    then maxOpenTimeout (cfg b)
    else Z.min (mul64 (cfg_openTimeout (cfg b)) multiplier) (maxOpenTimeout (cfg b)).

(** [currentPenaltyLocked] *)
Definition currentPenaltyLocked (b : Breaker) : Duration :=
  let c :=
    if 0 <? consecutive b then
      let maxConsecutive := Z.max (sub64 (div64 (maxPenalty (cfg b)) (basePenalty (cfg b))) 1) 0 in
      if maxConsecutive <? consecutive b then maxConsecutive else consecutive b
    else consecutive b in
  let scaled := mul64 (basePenalty (cfg b)) (add64 1 c) in
  Z.min (Z.max (lastRetryAfter b) scaled) (maxPenalty (cfg b)).

(** [trimFailures]: drops the leading entries older than the window. *)
Fixpoint dropBefore (cutoff : Time) (fs : list Time) : list Time :=
  match fs with
  | [] => []
  | f :: fs' => if time_Before f cutoff then dropBefore cutoff fs' else fs
  end.

Definition trimFailures (now : Time) (b : Breaker) : Breaker :=
  set_failures (dropBefore (time_Add now (- window (cfg b))) (failures b)) b.

(** [newestProbe], [isNewestProbe], [isLiveProbe] *)
Definition newestProbe (b : Breaker) : option probeTicket := last (probes b).

Definition isNewestProbe (epoch : Z) (b : Breaker) : bool :=
  match newestProbe b with
  | Some p => pt_epoch p =? epoch
  | None => false
  end.

Definition isLiveProbe (epoch : Z) (b : Breaker) : bool :=
  existsb (λ p, pt_epoch p =? epoch) (probes b).

Definition endProbeWindow (b : Breaker) : Breaker := set_probes [] (issuedEpoch b) b.

Definition issueProbe (now : Time) (b : Breaker) : Z * Breaker :=
  let e := issuedEpoch b + 1 in
  (e, set_probes (probes b ++ [{| pt_epoch := e; pt_startedAt := now |}]) e b).

Inductive AllowError := ErrCircuitOpen.

(** [Allow] *)
Definition Allow (now since stamp : Time) (b : Breaker) : result AllowError Z * Breaker :=
  match state b with
  | Closed => (Ok 0, b)
  | Open =>
      if openTimeout b <=? time_Sub since (openSince b) then
        let '(e, b') := issueProbe now (setState HalfOpen stamp b) in (Ok e, b')
      else (Err ErrCircuitOpen, b)
  | HalfOpen =>
      match newestProbe b with
      | Some newest =>
          if openTimeout b <? time_Sub since (pt_startedAt newest) then
            let '(e, b') := issueProbe now b in (Ok e, b')
          else (Err ErrCircuitOpen, b)
      | None => let '(e, b') := issueProbe now b in (Ok e, b')
      end
  end.

(** [WouldAllow] *)
Definition WouldAllow (since : Time) (b : Breaker) : bool :=
  match state b with
  | Closed => true
  | Open => openTimeout b <=? time_Sub since (openSince b)
  | HalfOpen =>
      match newestProbe b with
      | Some newest => openTimeout b <? time_Sub since (pt_startedAt newest)
      | None => true
      end
  end.

(** Removes the first ticket of the epoch, as the loop of [CancelProbe] does. *)
Fixpoint removeProbe (epoch : Z) (ps : list probeTicket) : list probeTicket :=
  match ps with
  | [] => []
  | p :: ps' => if pt_epoch p =? epoch then ps' else p :: removeProbe epoch ps'
  end.

(** [CancelProbe] *)
Definition CancelProbe (epoch : Z) (b : Breaker) : Breaker :=
  if epoch =? 0 then b
  else match state b with
       | HalfOpen => set_probes (removeProbe epoch (probes b)) (issuedEpoch b) b
       | _ => b
       end.

(** The guard both recording methods share: the request started before the
    current OPEN period. *)
Definition startedBeforeOpen (startedAt : Time) (b : Breaker) : bool :=
  negb (time_IsZero startedAt) && negb (time_IsZero (openSince b)) &&
  time_Before startedAt (openSince b).

(** [RecordFailure]; the status code is not read. *)
Definition RecordFailure (statusCode : Z) (retryAfter : Duration) (startedAt : Time) (epoch : Z)
    (now stamp : Time) (b : Breaker) : Breaker :=
  if negb (epoch =? 0) && negb (isNewestProbe epoch b) then b
  else if startedBeforeOpen startedAt b then b
  else
    let ra := if lastRetryAfter b <? retryAfter then retryAfter else lastRetryAfter b in
    let b1 := set_health (consecutive b + 1) (totalFailures b + 1) (totalSuccesses b) now ra b in
    let b2 := trimFailures now (set_failures (failures b1 ++ [now]) b1) in
    match state b with
    | Closed =>
        if failureThreshold (cfg b) <=? Z.of_nat (length (failures b2)) then
          endProbeWindow (set_open now (backoffMultiple b2) (setState Open stamp b2))
        else b2
    | HalfOpen =>
        endProbeWindow (set_open now (backoffMultiple b2 + 1) (setState Open stamp b2))
    | Open => b2
    end.

(** [RecordSuccess] *)
Definition RecordSuccess (startedAt : Time) (epoch : Z) (stamp : Time) (b : Breaker) : Breaker :=
  if negb (epoch =? 0) && negb (isLiveProbe epoch b) then b
  else
    let b1 := set_health (consecutive b) (totalFailures b) (totalSuccesses b + 1)
                (lastFailure b) (lastRetryAfter b) b in
    match state b with
    | HalfOpen =>
        if startedBeforeOpen startedAt b then b1
        else
          let b2 := set_open (openSince b1) 0 b1 in
          let b3 := set_health 0 (totalFailures b2) (totalSuccesses b2) (lastFailure b2) 0 b2 in
          endProbeWindow (setState Closed stamp (set_failures [] b3))
    | Closed => set_health 0 (totalFailures b1) (totalSuccesses b1) (lastFailure b1) 0 b1
    | Open => b1
    end.

(** [WaitDuration] *)
Definition WaitDuration (since : Time) (b : Breaker) : Duration :=
  match state b with
  | Open =>
      let wait := sub64 (openTimeout b) (time_Sub since (openSince b)) in
      if wait <? 0 then 0 else wait
  | _ => 0
  end.

(** [PenaltyDuration] *)
Definition PenaltyDuration (b : Breaker) : Duration := currentPenaltyLocked b.

Record Stats := {
  st_State : State;
  st_Failures : Z;
  st_ConsecutiveFailures : Z;
  st_TotalFailures : Z;
  st_TotalSuccesses : Z;
  st_LastFailure : Time;
  st_LastStateChange : Time;
  st_CurrentPenalty : Duration;
  st_NextRetry : Time;
}.

(** [Breaker.Stats]: trims as a side effect. *)
Definition Breaker_Stats (now : Time) (b : Breaker) : Stats * Breaker :=
  let b' := trimFailures now b in
  ({| st_State := state b'; st_Failures := Z.of_nat (length (failures b'));
      st_ConsecutiveFailures := consecutive b'; st_TotalFailures := totalFailures b';
      st_TotalSuccesses := totalSuccesses b'; st_LastFailure := lastFailure b';
      st_LastStateChange := lastStateChange b'; st_CurrentPenalty := currentPenaltyLocked b';
      st_NextRetry := match state b' with
                      | Open => time_Add (openSince b') (openTimeout b')
                      | _ => 0
                      end |}, b').

(** ** Runs of the breaker under a monotonic clock *)

Inductive bop :=
| DoAllow (now since stamp : Time)
| DoCancel (epoch : Z)
| DoFailure (code : Z) (ra : Duration) (startedAt : Time) (epoch : Z) (now stamp : Time)
| DoSuccess (startedAt : Time) (epoch : Z) (stamp : Time)
| DoStats (now : Time).

Definition bop_run (o : bop) (b : Breaker) : Breaker :=
  match o with
  | DoAllow now since stamp => (Allow now since stamp b).2
  | DoCancel epoch => CancelProbe epoch b
  | DoFailure code ra startedAt epoch now stamp =>
      RecordFailure code ra startedAt epoch now stamp b
  | DoSuccess startedAt epoch stamp => RecordSuccess startedAt epoch stamp b
  | DoStats now => (Breaker_Stats now b).2
  end.

(** The clock readings of an operation, in program order. *)
Definition bop_times (o : bop) : list Time :=
  match o with
  | DoAllow now since stamp => [now; since; stamp]
  | DoCancel _ => []
  | DoFailure _ _ _ _ now stamp => [now; stamp]
  | DoSuccess _ _ stamp => [stamp]
  | DoStats now => [now]
  end.

(** The readings do not go back: from [t], through [ts], to [t']. *)
Fixpoint clock_ok (t : Time) (ts : list Time) (t' : Time) : Prop :=
  match ts with
  | [] => t <= t'
  | x :: ts => t <= x ∧ clock_ok x ts t'
  end.

Inductive bstep : Breaker * Time → Breaker * Time → Prop :=
| BStep o b t t' : clock_ok t (bop_times o) t' → bstep (b, t) (bop_run o b, t').

Definition option_in_int64 (o : BreakerOption) : Prop :=
  match o with
  | FailureThresholdOption v | WindowOption v | OpenTimeoutOption v
  | MaxOpenTimeoutOption v | BasePenaltyOption v | MaxPenaltyOption v => in_int64 v
  end.

Definition breaker_initial (c : Breaker * Time) : Prop :=
  ∃ opts, Forall option_in_int64 opts ∧ 0 < c.2 ∧ New opts c.2 = Ok c.1.

Definition breaker_reachable (c : Breaker * Time) : Prop :=
  ∃ c0, breaker_initial c0 ∧ rtc bstep c0 c.

(** An executable run: operations with the time each is finished at. *)
Fixpoint clock_okb (t : Time) (ts : list Time) (t' : Time) : bool :=
  match ts with
  | [] => t <=? t'
  | x :: ts => (t <=? x) && clock_okb x ts t'
  end.

Fixpoint bexec (os : list (bop * Time)) (c : Breaker * Time) : option (Breaker * Time) :=
  match os with
  | [] => Some c
  | (o, t') :: os =>
      if clock_okb c.2 (bop_times o) t' then bexec os (bop_run o c.1, t') else None
  end.

(** A run used to exhibit concrete states: two failures trip a breaker with
    threshold two, a probe goes stale and a second one is admitted. *)
Definition demo_opts : list BreakerOption := [FailureThresholdOption 2; OpenTimeoutOption 10].

Definition demo_one_failure : list (bop * Time) := [(DoFailure 503 0 100 0 110 110, 110)].

Definition demo_open : list (bop * Time) :=
  [(DoFailure 503 0 100 0 110 110, 110); (DoFailure 0 7 105 0 120 120, 120)].

Definition demo_half : list (bop * Time) :=
  demo_open ++ [(DoAllow 131 131 131, 131); (DoAllow 150 150 150, 150)].

Definition demo (os : list (bop * Time)) : Breaker * Time :=
  match New demo_opts 100 with
  | Ok b0 => match bexec os (b0, 100) with Some c => c | None => (b0, 100) end
  | Err _ => ({| cfg := zeroConfig; state := Closed; failures := []; consecutive := 0;
                 totalFailures := 0; totalSuccesses := 0; lastFailure := 0;
                 lastStateChange := 0; openSince := 0; backoffMultiple := 0;
                 lastRetryAfter := 0; probes := []; issuedEpoch := 0 |}, 0)
  end.

Definition half_b : Breaker := Eval vm_compute in (demo demo_half).1.
Definition one_failure_b : Breaker := Eval vm_compute in (demo demo_one_failure).1.

(** ** Invariants *)

Record valid_cfg (c : breakerConfig) : Prop := {
  vc_threshold : 1 <= failureThreshold c;
  vc_window : 0 < window c <= max_int64;
  vc_open : 0 < cfg_openTimeout c <= maxOpenTimeout c;
  vc_maxOpen : maxOpenTimeout c <= max_int64;
  vc_base : 0 < basePenalty c <= maxPenalty c;
  vc_maxPenalty : maxPenalty c <= max_int64;
}.

(** A probe the breaker no longer waits on at time [t]. *)
Definition stale (b : Breaker) (t : Time) (p : probeTicket) : Prop :=
  openTimeout b < time_Sub t (pt_startedAt p).

Record BInv (b : Breaker) (t : Time) : Prop := {
  bi_cfg : valid_cfg (cfg b);
  bi_backoff : 0 <= backoffMultiple b;
  bi_consecutive : 0 <= consecutive b;
  bi_retryAfter : 0 <= lastRetryAfter b;
  bi_clock : 0 < t;
  bi_openSince : 0 <= openSince b <= t;
  bi_open : state b ≠ Closed → 0 < openSince b;
  bi_window : state b ≠ HalfOpen → probes b = [];
  bi_issued : 0 <= issuedEpoch b;
  bi_epochs : Forall (λ p, 1 <= pt_epoch p <= issuedEpoch b) (probes b);
  bi_unique : NoDup (map pt_epoch (probes b));
  bi_started : Forall (λ p, openSince b <= pt_startedAt p <= t) (probes b);
  bi_superseded : ∀ ps p, probes b = ps ++ [p] → Forall (stale b t) ps;
  bi_sorted : StronglySorted Z.le (failures b);
  bi_failures : Forall (λ f, f <= t) (failures b);
  bi_threshold : state b = Closed → Z.of_nat (length (failures b)) < failureThreshold (cfg b);
}.

(** Whether the epoch names a live probe. *)
Definition live (epoch : Z) (b : Breaker) : Prop := epoch ∈ map pt_epoch (probes b).

(** The edges of the state machine, with what each requires of the operation
    that takes it. *)
Definition legal_transition (o : bop) (b b' : Breaker) : Prop :=
  match state b, state b' with
  | Closed, Closed | Open, Open | HalfOpen, HalfOpen => True
  | Closed, Open =>
      ∃ code ra startedAt epoch now stamp,
        o = DoFailure code ra startedAt epoch now stamp ∧
        failureThreshold (cfg b) <=
          Z.of_nat (length (filter (λ f, now - window (cfg b) <= f) (failures b ++ [now]))) ∧
        openSince b' = now
  | Open, HalfOpen =>
      ∃ now since stamp, o = DoAllow now since stamp ∧
        openTimeout b <= time_Sub since (openSince b) ∧
        probes b' = [{| pt_epoch := issuedEpoch b + 1; pt_startedAt := now |}]
  | HalfOpen, Closed =>
      ∃ startedAt epoch stamp, o = DoSuccess startedAt epoch stamp ∧
        (epoch = 0 ∨ live epoch b) ∧ backoffMultiple b' = 0 ∧ consecutive b' = 0 ∧
        failures b' = [] ∧ probes b' = []
  | HalfOpen, Open =>
      ∃ code ra startedAt epoch now stamp,
        o = DoFailure code ra startedAt epoch now stamp ∧
        (epoch = 0 ∨ isNewestProbe epoch b = true) ∧
        backoffMultiple b' = backoffMultiple b + 1 ∧ openSince b' = now ∧ probes b' = []
  | Closed, HalfOpen | Open, Closed => False
  end.

(** What recording a failure does before the state is looked at. *)
Definition recorded (ra : Duration) (now : Time) (b : Breaker) : Breaker :=
  let b1 := set_health (consecutive b + 1) (totalFailures b + 1) (totalSuccesses b) now
              (if lastRetryAfter b <? ra then ra else lastRetryAfter b) b in
  trimFailures now (set_failures (failures b1 ++ [now]) b1).

(** Every field an option may have set is non-negative and fits. *)
Definition cfg_fields_ok (c : breakerConfig) : Prop :=
  0 <= failureThreshold c ∧ 0 <= window c <= max_int64 ∧ 0 <= cfg_openTimeout c <= max_int64 ∧
  0 <= maxOpenTimeout c <= max_int64 ∧ 0 <= basePenalty c <= max_int64 ∧
  0 <= maxPenalty c <= max_int64.

(** ** Lemmas: configuration *)

Lemma applyDefaults_valid c :
  0 <= failureThreshold c → 0 <= window c <= max_int64 → 0 <= cfg_openTimeout c <= max_int64 →
  0 <= maxOpenTimeout c <= max_int64 → 0 <= basePenalty c <= max_int64 →
  0 <= maxPenalty c <= max_int64 →
  basePenalty (applyDefaults c) <= maxPenalty (applyDefaults c) →
  valid_cfg (applyDefaults c).
Proof.
  unfold applyDefaults, orDefault, max_int64, Second. simpl. intros ?????? Hp.
  split; simpl; unfold max_int64; bcase; lia.
Qed.

Lemma applyOptions_fields opts c c' :
  Forall option_in_int64 opts → cfg_fields_ok c → applyOptions opts c = Ok c' → cfg_fields_ok c'.
Proof.
  intros Ho. revert c. induction Ho as [|o opts Ho _ IH]; intros c Hc; simpl.
  - by intros [= <-].
  - intros (c1 & H1 & H2)%result_bind_ok. apply (IH c1); [|done].
    unfold cfg_fields_ok, in_int64 in *.
    destruct o; simpl in *; repeat case_match; simplify_eq; bprop; simpl; unfold in_int64 in *; lia.
Qed.

Lemma New_inv opts now b :
  Forall option_in_int64 opts → 0 < now → New opts now = Ok b → BInv b now.
Proof.
  intros Ho Hn (c0 & Hc & Hb)%result_bind_ok.
  assert (cfg_fields_ok c0) as (?&?&?&?&?&?).
  { eapply applyOptions_fields; [done| |done]. unfold cfg_fields_ok, max_int64; simpl; lia. }
  cbv zeta in Hb. destruct (Z.ltb_spec (maxPenalty (applyDefaults c0)) (basePenalty (applyDefaults c0)));
    simplify_eq.
  assert (Hv : valid_cfg (applyDefaults c0)) by (by apply applyDefaults_valid).
  split; simpl; try done; try lia.
  - apply NoDup_nil_2.
  - intros ps p Hp. by destruct ps.
  - constructor.
  - intros _. pose proof (vc_threshold _ Hv) as Ht. simpl in *. lia.
Qed.

(** ** Lemmas: the sliding window *)

Lemma dropBefore_suffix cutoff fs : ∃ k, dropBefore cutoff fs = drop k fs.
Proof.
  induction fs as [|f fs [k IH]]; simpl; [by exists 0%nat|].
  case_match; [by exists (S k) | by exists 0%nat].
Qed.

Lemma dropBefore_filter cutoff fs :
  StronglySorted Z.le fs → dropBefore cutoff fs = filter (λ f, cutoff <= f) fs.
Proof.
  induction 1 as [|f fs Hs IH Hf]; [done|]. simpl. unfold time_Before. rewrite filter_cons.
  destruct (Z.ltb_spec f cutoff).
  - rewrite decide_False by lia. done.
  - rewrite decide_True by lia. f_equal. symmetry. apply filter_id.
    eapply Forall_impl; [done|]. simpl. intros. lia.
Qed.

Lemma dropBefore_length cutoff fs : (length (dropBefore cutoff fs) <= length fs)%nat.
Proof. destruct (dropBefore_suffix cutoff fs) as [k ->]. rewrite length_drop. lia. Qed.

Lemma dropBefore_Forall (P : Time → Prop) cutoff fs : Forall P fs → Forall P (dropBefore cutoff fs).
Proof. destruct (dropBefore_suffix cutoff fs) as [k ->]. apply Forall_drop. Qed.

Lemma dropBefore_sorted cutoff fs :
  StronglySorted Z.le fs → StronglySorted Z.le (dropBefore cutoff fs).
Proof. induction 1; simpl; [constructor|]. case_match; [done | by constructor]. Qed.

Lemma StronglySorted_snoc fs x :
  StronglySorted Z.le fs → Forall (λ f, f <= x) fs → StronglySorted Z.le (fs ++ [x]).
Proof.
  induction 1 as [|f fs Hs IH Hf]; intros H; simpl; [by repeat constructor|].
  inversion H; subst. constructor; [auto|]. apply Forall_app. split; [done | by constructor].
Qed.

(** ** Lemmas: probes *)

Lemma removeProbe_subset e ps p : p ∈ removeProbe e ps → p ∈ ps.
Proof.
  induction ps as [|q ps IH]; simpl; [done|]. case_match; [by right|].
  rewrite !elem_of_cons. intros [->|?]; auto.
Qed.

Lemma removeProbe_Forall (P : probeTicket → Prop) e ps : Forall P ps → Forall P (removeProbe e ps).
Proof. rewrite !Forall_forall. eauto using removeProbe_subset. Qed.

Lemma removeProbe_NoDup e ps : NoDup (map pt_epoch ps) → NoDup (map pt_epoch (removeProbe e ps)).
Proof.
  induction ps as [|q ps IH]; simpl; [done|]. rewrite NoDup_cons. intros [Hq Hn].
  case_match; [done|]. simpl. rewrite NoDup_cons. split; [|auto].
  intros Hin. apply Hq. rewrite list_elem_of_fmap in Hin. destruct Hin as (p & -> & Hp).
  rewrite list_elem_of_fmap. eauto using removeProbe_subset.
Qed.

Lemma removeProbe_gone e ps : NoDup (map pt_epoch ps) → e ∉ map pt_epoch (removeProbe e ps).
Proof.
  induction ps as [|q ps IH]; simpl; [intros _; apply not_elem_of_nil|].
  rewrite NoDup_cons. intros [Hq Hn]. case_match; bprop; [by subst|].
  simpl. rewrite elem_of_cons. intros [->|?]; [done|]. by apply IH.
Qed.

(** Removing a ticket either keeps the newest one or drops it. *)
Lemma removeProbe_snoc e ps p :
  removeProbe e (ps ++ [p]) = removeProbe e ps ++ [p] ∨
  removeProbe e (ps ++ [p]) = ps.
Proof.
  induction ps as [|q ps IH]; simpl.
  - case_match; auto.
  - case_match; [by left|]. destruct IH as [-> | ->]; [by left | by right].
Qed.

Lemma isLiveProbe_live e b : isLiveProbe e b = true ↔ live e b.
Proof.
  unfold isLiveProbe, live. rewrite existsb_exists, list_elem_of_fmap.
  setoid_rewrite <- list_elem_of_In. setoid_rewrite Z.eqb_eq.
  split; intros (p & H1 & H2); exists p; done.
Qed.

Lemma isNewestProbe_live e b : isNewestProbe e b = true → live e b.
Proof.
  unfold isNewestProbe, newestProbe, live. destruct (last (probes b)) as [p|] eqn:E; [|done].
  intros He. bprop. apply last_Some in E as [l' ->]. rewrite map_app, elem_of_app. right.
  simpl. subst. left.
Qed.

Lemma stale_mono b t t' p : t <= t' → stale b t p → stale b t' p.
Proof.
  unfold stale, time_Sub. intros Ht Hs.
  pose proof (clamp64_mono (t - pt_startedAt p) (t' - pt_startedAt p) ltac:(lia)). lia.
Qed.

Lemma openTimeout_ext b b' :
  cfg b' = cfg b → backoffMultiple b' = backoffMultiple b → openTimeout b' = openTimeout b.
Proof. unfold openTimeout. by intros -> ->. Qed.

(** ** Preservation of the invariant *)

Lemma BInv_mono b t t' : BInv b t → t <= t' → BInv b t'.
Proof.
  intros [] Ht. split; try done; try lia.
  - eapply Forall_impl; [exact bi_started0|]. simpl. intros; lia.
  - intros ps p Hp. eapply Forall_impl; [by eapply bi_superseded0|].
    intros q Hq. by eapply stale_mono.
  - eapply Forall_impl; [exact bi_failures0|]. simpl. intros; lia.
Qed.

(** A probe issued at [now] while every probe already there is stale. *)
Lemma BInv_issue b t now t' :
  BInv b t → state b = HalfOpen → t <= now <= t' → Forall (stale b t') (probes b) →
  BInv (issueProbe now b).2 t'.
Proof.
  intros [] Hst Ht Hstale.
  assert (Hfresh : issuedEpoch b + 1 ∉ map pt_epoch (probes b)).
  { intros Hin. rewrite list_elem_of_fmap in Hin. destruct Hin as (p & Hp & Hin).
    rewrite Forall_forall in bi_epochs0. specialize (bi_epochs0 p Hin). lia. }
  unfold issueProbe. simpl. split; simpl; try done; try lia.
  - apply Forall_app. split; [|apply Forall_singleton; simpl; lia].
    eapply Forall_impl; [exact bi_epochs0|]. simpl. intros; lia.
  - rewrite map_app. apply NoDup_app. split; [done|]. split; [|apply NoDup_singleton].
    simpl. intros e He ->%list_elem_of_singleton. done.
  - apply Forall_app. split; [|apply Forall_singleton; simpl; lia].
    eapply Forall_impl; [exact bi_started0|]. simpl. intros; lia.
  - intros ps p [<- _]%app_inj_tail. exact Hstale.
  - eapply Forall_impl; [exact bi_failures0|]. simpl. intros; lia.
Qed.

Lemma BInv_Allow now since stamp b t t' :
  BInv b t → clock_ok t [now; since; stamp] t' → BInv (Allow now since stamp b).2 t'.
Proof.
  simpl. intros Hi (H1 & H2 & H3 & H4). unfold Allow.
  pose proof (BInv_mono b t t' Hi ltac:(lia)) as Hi'.
  destruct (state b) eqn:Hst; [done| |].
  - case_match; [|done]. change (BInv (issueProbe now (setState HalfOpen stamp b)).2 t').
    assert (Hp : probes b = []) by (destruct Hi; apply bi_window0; congruence).
    apply (BInv_issue (setState HalfOpen stamp b) t); [|done|lia|by simpl; rewrite Hp].
    destruct Hi. split; simpl; try done.
    + intros _. apply bi_open0. congruence.
  - unfold newestProbe. destruct (last (probes b)) as [p|] eqn:Hl.
    + case_match; [|done]. bprop.
      apply (BInv_issue b t); [done|done|lia|].
      apply last_Some in Hl as [ps Hps]. rewrite Hps. apply Forall_app. split.
      * destruct Hi'. by eapply bi_superseded0.
      * constructor; [|constructor]. eapply (stale_mono _ since); [lia|]. done.
    + apply (BInv_issue b t); [done|done|lia|].
      apply last_None in Hl. by rewrite Hl.
Qed.

Lemma BInv_Cancel e b t : BInv b t → BInv (CancelProbe e b) t.
Proof.
  intros Hi. unfold CancelProbe. case_match; [done|]. destruct (state b) eqn:Hst; try done.
  destruct Hi. split; simpl; try done; try congruence.
  - by apply removeProbe_Forall.
  - by apply removeProbe_NoDup.
  - by apply removeProbe_Forall.
  - intros ps p Hp. induction (probes b) as [|q qs _] using rev_ind; [by destruct ps|].
    specialize (bi_superseded0 qs q eq_refl).
    destruct (removeProbe_snoc e qs q) as [Hr|Hr]; rewrite Hr in Hp.
    + apply app_inj_tail in Hp as [<- <-]. by apply removeProbe_Forall.
    + subst qs. by apply Forall_app in bi_superseded0 as [? _].
Qed.

Lemma recorded_failures ra now b t :
  BInv b t → t <= now →
  failures (recorded ra now b) =
    filter (λ f, now - window (cfg b) <= f) (failures b ++ [now]).
Proof.
  intros [] Ht. unfold recorded. simpl. rewrite dropBefore_filter; [done|].
  apply StronglySorted_snoc; [done|]. eapply Forall_impl; [exact bi_failures0|]. simpl. intros; lia.
Qed.

Lemma BInv_Failure code ra startedAt e now stamp b t t' :
  BInv b t → clock_ok t [now; stamp] t' → BInv (RecordFailure code ra startedAt e now stamp b) t'.
Proof.
  simpl. intros Hi (H1 & H2 & H3). unfold RecordFailure.
  pose proof (BInv_mono b t t' Hi ltac:(lia)) as Hi'.
  case_match; [done|]. case_match; [done|].
  change (BInv match state b with
    | Closed => if failureThreshold (cfg b) <=? Z.of_nat (length (failures (recorded ra now b)))
                then endProbeWindow (set_open now (backoffMultiple b) (setState Open stamp (recorded ra now b)))
                else recorded ra now b
    | Open => recorded ra now b
    | HalfOpen => endProbeWindow (set_open now (backoffMultiple b + 1) (setState Open stamp (recorded ra now b)))
    end t').
  assert (StronglySorted Z.le (failures (recorded ra now b)) ∧
                  Forall (λ f, f <= t') (failures (recorded ra now b))) as [Hsort Hle].
  { destruct Hi. split; unfold recorded; simpl.
    - apply dropBefore_sorted, StronglySorted_snoc; [done|].
      eapply Forall_impl; [exact bi_failures0|]. simpl. intros; lia.
    - apply dropBefore_Forall, Forall_app. split; [|apply Forall_singleton; lia].
      eapply Forall_impl; [exact bi_failures0|]. simpl. intros; lia. }
  assert (Hra : 0 <= lastRetryAfter (recorded ra now b)).
  { destruct Hi. simpl. bcase; lia. }
  pose proof (bi_clock _ _ Hi) as Hpos. clear Hi.
  destruct Hi', (state b) eqn:Hst; [case_match | |]; bprop;
    split; try done; try (simpl; intros; lia); try (simpl; congruence); try (simpl; by auto);
    try apply NoDup_nil_2; try (intros ps p Hp; by destruct ps).
  all: simpl; rewrite Hst; by auto.
Qed.

Lemma BInv_Success startedAt e stamp b t t' :
  BInv b t → clock_ok t [stamp] t' → BInv (RecordSuccess startedAt e stamp b) t'.
Proof.
  simpl. intros Hi (H1 & H2). unfold RecordSuccess.
  apply (BInv_mono b t t') in Hi; [|lia]. case_match; [done|].
  destruct Hi, (state b) eqn:Hst; [| |case_match];
    split; simpl; try done; try lia; try congruence;
    try apply NoDup_nil_2; try (intros ps p Hp; by destruct ps); try constructor.
  all: try (rewrite Hst; by auto).
  intros _. pose proof (vc_threshold _ bi_cfg0). lia.
Qed.

Lemma BInv_Stats now b t t' :
  BInv b t → clock_ok t [now] t' → BInv (Breaker_Stats now b).2 t'.
Proof.
  simpl. intros Hi (H1 & H2). apply (BInv_mono b t t') in Hi; [|lia].
  pose proof (dropBefore_length (time_Add now (- window (cfg b))) (failures b)).
  destruct Hi. split; simpl; try done.
  - by apply dropBefore_sorted.
  - by apply dropBefore_Forall.
  - intros Hc. specialize (bi_threshold0 Hc). lia.
Qed.

Lemma BInv_step c c' : BInv c.1 c.2 → bstep c c' → BInv c'.1 c'.2.
Proof.
  intros Hi Hs. destruct Hs as [o b t t' Hc]. cbn [fst snd] in *.
  destruct o; cbn [bop_run bop_times] in *.
  - by apply (BInv_Allow now since stamp b t).
  - apply BInv_Cancel. by apply (BInv_mono b t).
  - by apply (BInv_Failure code ra startedAt epoch now stamp b t).
  - by apply (BInv_Success startedAt epoch stamp b t).
  - by apply (BInv_Stats now b t).
Qed.

Lemma breaker_reachable_inv b t : breaker_reachable (b, t) → BInv b t.
Proof.
  intros ([b0 t0] & (opts & Ho & Ht & Hn) & Hr).
  apply (rtc_invariant bstep (λ c, BInv c.1 c.2) (b0, t0) (b, t)); [apply BInv_step| |done].
  by eapply New_inv.
Qed.

(** ** Timeouts and penalties *)

Lemma openTimeout_formula b :
  valid_cfg (cfg b) → 0 <= backoffMultiple b < 62 →
  openTimeout b = Z.min (cfg_openTimeout (cfg b) * 2 ^ backoffMultiple b) (maxOpenTimeout (cfg b)).
Proof.
  intros [] Hs. unfold openTimeout, max_int64 in *.
  destruct (Z.leb_spec 62 (backoffMultiple b)); [lia|].
  rewrite shl1_64_pow by lia.
  assert (Hm : 0 < 2 ^ backoffMultiple b) by (apply Z.pow_pos_nonneg; lia).
  destruct (Z.ltb_spec 0 (2 ^ backoffMultiple b)); [|lia]. simpl.
  rewrite div64_div by (unfold in_int64, min_int64, max_int64; lia).
  generalize dependent (2 ^ backoffMultiple b). intros m Hm _.
  destruct (Z.ltb_spec (maxOpenTimeout (cfg b) `div` m) (cfg_openTimeout (cfg b))) as [Hd|Hd].
  - pose proof (Z.mul_succ_div_gt (maxOpenTimeout (cfg b)) m ltac:(lia)). nia.
  - pose proof (Z.mul_div_le (maxOpenTimeout (cfg b)) m ltac:(lia)).
    unfold mul64. rewrite wrap64_id; [done|]. unfold in_int64, min_int64, max_int64. nia.
Qed.

Lemma openTimeout_bounds b :
  valid_cfg (cfg b) → 0 <= backoffMultiple b →
  cfg_openTimeout (cfg b) <= openTimeout b <= maxOpenTimeout (cfg b).
Proof.
  intros Hv Hb. destruct (Z.ltb_spec (backoffMultiple b) 62).
  - rewrite openTimeout_formula by (done || lia). destruct Hv.
    assert (0 < 2 ^ backoffMultiple b) by (apply Z.pow_pos_nonneg; lia). nia.
  - unfold openTimeout. destruct (Z.leb_spec 62 (backoffMultiple b)); [|lia]. destruct Hv. lia.
Qed.

Lemma penalty_formula b :
  valid_cfg (cfg b) → 0 <= consecutive b →
  currentPenaltyLocked b =
    Z.min (Z.max (lastRetryAfter b)
             (basePenalty (cfg b) *
              Z.min (1 + consecutive b) (maxPenalty (cfg b) `div` basePenalty (cfg b))))
          (maxPenalty (cfg b)).
Proof.
  intros [] Hc. unfold currentPenaltyLocked, max_int64 in *.
  rewrite div64_div by (unfold in_int64, min_int64, max_int64; lia).
  set (base := basePenalty (cfg b)) in *. set (mx := maxPenalty (cfg b)) in *.
  pose proof (Z.mul_div_le mx base ltac:(lia)) as Hq.
  assert (1 <= mx `div` base) as Hq1 by (apply Z.div_le_lower_bound; lia).
  assert (mx `div` base <= mx) as Hq2 by nia.
  generalize dependent (mx `div` base). intros q Hq Hq1 Hq2.
  assert (Hsub : sub64 q 1 = q - 1).
  { unfold sub64. apply wrap64_id. unfold in_int64, min_int64, max_int64. lia. }
  rewrite Hsub. rewrite (Z.max_l (q - 1) 0) by lia.
  match goal with |- context [add64 1 ?c] => set (k := c) end.
  assert (Hk : k = Z.min (consecutive b) (q - 1)) by (subst k; bcase; lia).
  assert (Hadd : add64 1 k = Z.min (1 + consecutive b) q).
  { unfold add64. rewrite wrap64_id; [lia|]. unfold in_int64, min_int64, max_int64. lia. }
  rewrite Hadd. clearbody k. unfold mul64. rewrite wrap64_id; [done|].
  unfold in_int64, min_int64, max_int64. nia.
Qed.

(** ** Probe epochs are never reused *)

Lemma live_issueProbe e now b :
  live e (issueProbe now b).2 ↔ live e b ∨ e = issuedEpoch b + 1.
Proof.
  unfold live, issueProbe. simpl.
  rewrite map_app, elem_of_app. simpl. rewrite list_elem_of_singleton. done.
Qed.

Lemma live_recorded e ra now b : live e (recorded ra now b) ↔ live e b.
Proof. done. Qed.

(** No operation lowers the last issued epoch, and a newly live epoch is newer
    than every epoch issued before. *)
Lemma bop_epochs o b t :
  BInv b t →
  issuedEpoch b <= issuedEpoch (bop_run o b) ∧
  ∀ e, live e (bop_run o b) → live e b ∨ issuedEpoch b < e.
Proof.
  intros Hi. destruct o; cbn [bop_run].
  - unfold Allow, issueProbe. repeat case_match; simplify_eq; simpl;
      (split; [lia|]); intros e He; auto.
    all: unfold live in *; simpl in He; rewrite map_app, elem_of_app in He; simpl in He;
      rewrite list_elem_of_singleton in He; destruct He as [He | ->]; auto; right; lia.
  - unfold CancelProbe. repeat case_match; simpl; (split; [lia|]); intros e He; auto.
    left. unfold live in *. simpl in He. rewrite list_elem_of_fmap in *.
    destruct He as (p & ? & Hp%removeProbe_subset). eauto.
  - unfold RecordFailure. repeat case_match; simpl; (split; [lia|]); intros e He; auto.
    all: unfold live in He; simpl in He; by apply elem_of_nil in He.
  - unfold RecordSuccess. repeat case_match; simpl; (split; [lia|]); intros e He; auto.
    all: unfold live in He; simpl in He; by apply elem_of_nil in He.
  - simpl. split; [lia|]. auto.
Qed.

Lemma dead_stays_dead b t b' t' e :
  BInv b t → rtc bstep (b, t) (b', t') → e <= issuedEpoch b → ¬ live e b → ¬ live e b'.
Proof.
  intros Hi Hr He Hd.
  assert (BInv b' t' ∧ e <= issuedEpoch b' ∧ ¬ live e b') as (_ & _ & ?); [|done].
  apply (rtc_invariant bstep (λ c, BInv c.1 c.2 ∧ e <= issuedEpoch c.1 ∧ ¬ live e c.1)
           (b, t) (b', t')); [|done|done].
  intros c c' (Hc1 & Hc2 & Hc3) Hs. split; [by eapply BInv_step|].
  destruct Hs as [o bb tt tt' Hclk]. cbn [fst snd] in *.
  destruct (bop_epochs o bb tt Hc1) as [Hle Hnew]. split; [lia|].
  intros Hl. destruct (Hnew e Hl); [done|lia].
Qed.

Lemma removeProbe_absent e ps : e ∉ map pt_epoch ps → removeProbe e ps = ps.
Proof.
  induction ps as [|p ps IH]; simpl; [done|]. rewrite not_elem_of_cons. intros [Hp Hps].
  destruct (Z.eqb_spec (pt_epoch p) e); [by subst|]. by rewrite IH.
Qed.

Lemma removeProbe_newest ps p :
  NoDup (map pt_epoch (ps ++ [p])) → removeProbe (pt_epoch p) (ps ++ [p]) = ps.
Proof.
  induction ps as [|q ps IH]; simpl; [by rewrite Z.eqb_refl|].
  rewrite NoDup_cons. intros [Hq Hn].
  destruct (Z.eqb_spec (pt_epoch q) (pt_epoch p)) as [E|E].
  - destruct Hq. rewrite E, map_app, elem_of_app. right. simpl. left.
  - by rewrite IH.
Qed.

(** Results of a dead probe change nothing. *)
Lemma dead_results_ignored e b :
  e ≠ 0 → ¬ live e b →
  (∀ code ra startedAt now stamp, RecordFailure code ra startedAt e now stamp b = b) ∧
  (∀ startedAt stamp, RecordSuccess startedAt e stamp b = b) ∧ CancelProbe e b = b.
Proof.
  intros He Hd.
  assert (He0 : (e =? 0) = false) by (by apply Z.eqb_neq).
  assert (Hn : isNewestProbe e b = false).
  { destruct (isNewestProbe e b) eqn:E; [|done]. by apply isNewestProbe_live in E. }
  assert (Hl : isLiveProbe e b = false).
  { destruct (isLiveProbe e b) eqn:E; [|done]. by apply isLiveProbe_live in E. }
  unfold RecordFailure, RecordSuccess, CancelProbe. rewrite He0, Hn, Hl.
  split; [done|split; [done|]]. destruct (state b); try done.
  rewrite removeProbe_absent by done. by destruct b.
Qed.

(** In an OPEN state the elapsed time decides, and after [maxOpenTimeout] every
    breaker that is not CLOSED admits a probe. *)
Lemma Allow_after_max b t now since stamp :
  BInv b t → maxOpenTimeout (cfg b) < max_int64 → state b ≠ Closed →
  t + maxOpenTimeout (cfg b) < now → now <= since →
  ∃ e b', Allow now since stamp b = (Ok e, b') ∧ state b' = HalfOpen ∧ live e b' ∧ e ≠ 0 ∧
    openSince b' = openSince b ∧ cfg b' = cfg b.
Proof.
  intros Hi Hmax Hst Hn Hs. pose proof (openTimeout_bounds b (bi_cfg _ _ Hi) (bi_backoff _ _ Hi)).
  assert (Helapsed : ∀ x, x <= t → openTimeout b < time_Sub since x).
  { intros x Hx. unfold time_Sub.
    pose proof (clamp64_mono (maxOpenTimeout (cfg b) + 1) (since - x) ltac:(lia)) as Hm.
    rewrite (clamp64_id (maxOpenTimeout (cfg b) + 1)) in Hm; [lia|].
    destruct Hi, bi_cfg0. unfold in_int64, min_int64, max_int64 in *. lia. }
  assert (Hlive : ∀ bb, live (issuedEpoch bb + 1) (issueProbe now bb).2) by (intros; apply live_issueProbe; auto).
  pose proof (bi_issued _ _ Hi).
  unfold Allow. destruct (state b) eqn:Hb; [done| |].
  - specialize (Helapsed (openSince b) ltac:(destruct Hi; lia)). destruct Hi.
    destruct (Z.leb_spec (openTimeout b) (time_Sub since (openSince b))); [|lia].
    eexists _, _. split; [done|]. split; [done|]. split; [apply (Hlive (setState HalfOpen stamp b))|].
    simpl. split; [lia|done].
  - destruct (newestProbe b) as [p|] eqn:Hp.
    + destruct (Z.ltb_spec (openTimeout b) (time_Sub since (pt_startedAt p))) as [_|Hle].
      * eexists _, _. split; [done|]. split; [done|]. split; [apply (Hlive b)|].
        simpl. split; [lia|done].
      * exfalso. unfold newestProbe in Hp. apply last_Some in Hp as [ps Hps].
        destruct Hi. rewrite Hps in bi_started0.
        apply Forall_snoc_inv in bi_started0 as [_ Hf]. cbv beta in Hf.
        specialize (Helapsed (pt_startedAt p) ltac:(lia)). lia.
    + eexists _, _. split; [done|]. split; [done|]. split; [apply (Hlive b)|].
      simpl. split; [lia|done].
Qed.

(** ** Properties *)

(** C2: every run of the breaker under a monotonic clock keeps its invariant:
    probes exist only in HALF_OPEN with fresh, distinct epochs, all probes but
    the newest are stale, the failure window is sorted and, while CLOSED, below
    the threshold, and no counter or duration leaves its range. *)
Theorem breaker_invariant b t : breaker_reachable (b, t) → BInv b t.
Proof. apply breaker_reachable_inv. Qed.

(** every operation moves the breaker along an edge of its state machine and
    for the documented reason: CLOSED trips only when the failures inside the
    window reach the threshold, OPEN is left only by [Allow] after the open
    timeout and with exactly one probe, HALF_OPEN is closed only by a live probe
    (or an unfiltered result) and re-opened, with more backoff, only by the
    newest one. *)
Theorem breaker_transitions_legal b t o t' :
  breaker_reachable (b, t) → clock_ok t (bop_times o) t' →
  legal_transition o b (bop_run o b).
Proof.
  intros Hi%breaker_reachable_inv Hc.
  destruct o as [now since stamp | e | code ra startedAt e now stamp | startedAt e stamp | now];
    cbn [bop_run bop_times clock_ok] in *.
  - unfold legal_transition, Allow. pose proof (bi_window _ _ Hi) as Hw.
    destruct (state b) eqn:Hst; [by simpl; rewrite Hst| |].
    + destruct (openTimeout b <=? _) eqn:E; simpl; [|by rewrite Hst].
      bprop. exists now, since, stamp. rewrite Hw by congruence. done.
    + destruct (newestProbe b); [destruct (openTimeout b <? _)|]; simpl; by rewrite Hst.
  - unfold legal_transition, CancelProbe. destruct (e =? 0), (state b) eqn:Hst; simpl; by rewrite ?Hst.
  - pose proof (recorded_failures ra now b t Hi ltac:(lia)) as Hf.
    unfold legal_transition, RecordFailure.
    destruct (negb (e =? 0) && negb (isNewestProbe e b)) eqn:E1; [by destruct (state b)|].
    destruct (startedBeforeOpen startedAt b); [by destruct (state b)|].
    fold (recorded ra now b). destruct (state b) eqn:Hst; [|simpl; by rewrite Hst|].
    + destruct (Z.leb_spec (failureThreshold (cfg b)) (Z.of_nat (length (failures (recorded ra now b)))))
        as [Hle|]; [|simpl; by rewrite Hst].
      rewrite Hf in Hle. by exists code, ra, startedAt, e, now, stamp.
    + simpl. exists code, ra, startedAt, e, now, stamp. split; [done|]. split; [|done].
      destruct (Z.eqb_spec e 0); [by left|]. right. by destruct (isNewestProbe e b).
  - unfold legal_transition, RecordSuccess.
    destruct (negb (e =? 0) && negb (isLiveProbe e b)) eqn:E1; [by destruct (state b)|].
    destruct (state b) eqn:Hst; [simpl; by rewrite Hst | simpl; by rewrite Hst|].
    destruct (startedBeforeOpen startedAt b); [simpl; by rewrite Hst|].
    simpl. exists startedAt, e, stamp. split; [done|]. split; [|done].
    destruct (Z.eqb_spec e 0); [by left|]. right. apply isLiveProbe_live. by destruct (isLiveProbe e b).
  - simpl. unfold legal_transition. simpl. by destruct (state b).
Qed.

(** while CLOSED a recorded failure opens the circuit exactly when it brings
    the number of failures inside the sliding window up to the threshold. *)
Theorem failure_trips_at_threshold b t code ra startedAt now stamp :
  breaker_reachable (b, t) → t <= now → state b = Closed →
  startedBeforeOpen startedAt b = false →
  let b' := RecordFailure code ra startedAt 0 now stamp b in
  let inWindow := filter (λ f, now - window (cfg b) <= f) (failures b ++ [now]) in
  failures b' = inWindow ∧
  (state b' = Open ↔ failureThreshold (cfg b) <= Z.of_nat (length inWindow)).
Proof.
  intros Hi%breaker_reachable_inv Hn Hst Hs b' inWindow. subst b' inWindow.
  rewrite <- (recorded_failures ra now b t Hi Hn).
  unfold RecordFailure. simpl negb. cbn [andb]. rewrite Hs. fold (recorded ra now b).
  rewrite Hst. destruct (Z.leb_spec (failureThreshold (cfg b)) (Z.of_nat (length (failures (recorded ra now b))))).
  - simpl. split; [done|]. split; [done|done].
  - split; [done|]. change (state (recorded ra now b)) with (state b). rewrite Hst. split; [done|lia].
Qed.

(** results are never mistaken for those of a newer probe: an epoch that has
    been issued and is no longer live stays dead in every later state, and there
    its failure, success and cancellation all leave the breaker unchanged. *)
Theorem dead_probe_results_discarded b t b' t' e :
  breaker_reachable (b, t) → rtc bstep (b, t) (b', t') →
  1 <= e <= issuedEpoch b → ¬ live e b →
  (∀ code ra startedAt now stamp, RecordFailure code ra startedAt e now stamp b' = b') ∧
  (∀ startedAt stamp, RecordSuccess startedAt e stamp b' = b') ∧ CancelProbe e b' = b'.
Proof.
  intros Hi%breaker_reachable_inv Hr He Hd.
  apply dead_results_ignored; [lia|]. eapply dead_stays_dead; [done|done|lia|done].
Qed.

(** an inconclusive probe costs no recovery time: cancelling the newest probe
    makes the very next [Allow] admit another one, because every probe it had
    superseded is already stale. *)
Theorem cancelled_probe_readmits b t e now since stamp :
  breaker_reachable (b, t) → state b = HalfOpen → isNewestProbe e b = true →
  t <= now → now <= since →
  ∃ b', Allow now since stamp (CancelProbe e b) = (Ok (issuedEpoch b + 1), b') ∧
        ¬ live e (CancelProbe e b) ∧ state b' = HalfOpen.
Proof.
  intros Hi%breaker_reachable_inv Hst Hn Ht1 Ht2.
  unfold isNewestProbe, newestProbe in Hn.
  destruct (last (probes b)) as [p|] eqn:Hl; [|done]. bprop. subst e.
  apply last_Some in Hl as [ps Hps].
  pose proof (bi_superseded _ _ Hi ps p Hps) as Hstale.
  pose proof (bi_unique _ _ Hi) as Hu. pose proof (bi_epochs _ _ Hi) as He.
  rewrite Hps in Hu, He. apply Forall_snoc_inv in He as [_ He]. cbv beta in He.
  assert (Hc : CancelProbe (pt_epoch p) b = set_probes ps (issuedEpoch b) b).
  { unfold CancelProbe. destruct (Z.eqb_spec (pt_epoch p) 0); [lia|].
    by rewrite Hst, Hps, removeProbe_newest. }
  rewrite Hc. unfold Allow. simpl. rewrite Hst. unfold newestProbe. simpl.
  assert (Hgone : pt_epoch p ∉ map pt_epoch ps).
  { rewrite map_app in Hu. apply NoDup_app in Hu as (_ & Hu & _). simpl in Hu.
    intros Hin. apply (Hu _ Hin). left. }
  destruct (last ps) as [q|] eqn:Hlq.
  - apply last_Some in Hlq as [qs ->]. apply Forall_snoc_inv in Hstale as [_ Hq].
    apply (stale_mono _ t since) in Hq; [|lia]. unfold stale in Hq.
    rewrite (openTimeout_ext b) by done.
    destruct (Z.ltb_spec (openTimeout b) (time_Sub since (pt_startedAt q))); [|lia].
    eexists. split; [done|]. done.
  - eexists. split; [done|]. done.
Qed.

(** the breaker always recovers: from any reachable state that is not
    CLOSED, once the maximum open timeout has passed a request is admitted as a
    probe, and its success closes the circuit with backoff, failure window,
    consecutive failures and penalty all back to their initial values. *)
Theorem breaker_recovers b t now since stamp stamp' :
  breaker_reachable (b, t) → maxOpenTimeout (cfg b) < max_int64 → state b ≠ Closed →
  t + maxOpenTimeout (cfg b) < now → now <= since →
  ∃ e b1, Allow now since stamp b = (Ok e, b1) ∧
    let b2 := RecordSuccess now e stamp' b1 in
    state b2 = Closed ∧ backoffMultiple b2 = 0 ∧ consecutive b2 = 0 ∧ failures b2 = [] ∧
    probes b2 = [] ∧ PenaltyDuration b2 = basePenalty (cfg b).
Proof.
  intros Hi%breaker_reachable_inv Hmax Hst Hn Hs.
  destruct (Allow_after_max b t now since stamp) as (e & b1 & Ha & H1 & Hl & He & Ho & Hc); try done.
  exists e, b1. split; [done|]. cbv zeta.
  assert (Hsb : startedBeforeOpen now b1 = false).
  { unfold startedBeforeOpen, time_Before. rewrite Ho. destruct Hi, bi_cfg0.
    destruct (Z.ltb_spec now (openSince b)); [lia|]. by rewrite andb_false_r. }
  unfold RecordSuccess. destruct (Z.eqb_spec e 0); [done|].
  apply isLiveProbe_live in Hl. rewrite Hl, H1, Hsb. simpl.
  do 5 (split; [done|]).
  unfold PenaltyDuration. rewrite penalty_formula; [|simpl; rewrite Hc; by destruct Hi|simpl; lia].
  simpl. rewrite Hc. destruct Hi, bi_cfg0.
  assert (1 <= maxPenalty (cfg b) `div` basePenalty (cfg b)) by (apply Z.div_le_lower_bound; lia).
  rewrite (Z.min_l (1 + 0)) by lia. lia.
Qed.

(** the 64-bit computation of the open timeout never overflows and is exactly
    the capped exponential backoff; it stays between the configured timeout and
    its maximum for every backoff. *)
Theorem openTimeout_exact b t :
  breaker_reachable (b, t) →
  cfg_openTimeout (cfg b) <= openTimeout b <= maxOpenTimeout (cfg b) ∧
  (backoffMultiple b < 62 ∨ maxOpenTimeout (cfg b) <= 2 ^ 62 →
   openTimeout b = Z.min (cfg_openTimeout (cfg b) * 2 ^ backoffMultiple b) (maxOpenTimeout (cfg b))).
Proof.
  intros Hi%breaker_reachable_inv. pose proof (bi_cfg _ _ Hi) as Hv.
  pose proof (bi_backoff _ _ Hi) as Hb. split; [by apply openTimeout_bounds|]. intros Hc.
  destruct (Z.ltb_spec (backoffMultiple b) 62); [apply openTimeout_formula; [done|lia]|].
  unfold openTimeout. destruct (Z.leb_spec 62 (backoffMultiple b)); [|lia].
  assert (2 ^ 62 <= 2 ^ backoffMultiple b) by (apply Z.pow_le_mono_r; lia).
  destruct Hv. nia.
Qed.

(** the phantom penalty is computed without overflow, always lies between
    the base and the maximum penalty, and is the larger of the observed
    Retry-After and the base penalty scaled by the consecutive failures, where
    the factor is capped at the whole number of base units in the maximum. *)
Theorem penalty_exact b t :
  breaker_reachable (b, t) →
  basePenalty (cfg b) <= PenaltyDuration b <= maxPenalty (cfg b) ∧
  PenaltyDuration b =
    Z.min (Z.max (lastRetryAfter b)
             (basePenalty (cfg b) *
              Z.min (1 + consecutive b) (maxPenalty (cfg b) `div` basePenalty (cfg b))))
          (maxPenalty (cfg b)).
Proof.
  intros []%breaker_reachable_inv. unfold PenaltyDuration. rewrite penalty_formula by done.
  split; [|done]. destruct bi_cfg0.
  assert (1 <= maxPenalty (cfg b) `div` basePenalty (cfg b)) by (apply Z.div_le_lower_bound; lia).
  nia.
Qed.

(** [WouldAllow] and [WaitDuration] predict [Allow]: at the same clock
    reading the peek answers exactly whether [Allow] admits, without changing
    anything, and an OPEN breaker admits exactly when no wait is left. *)
Theorem would_allow_agrees b t now since stamp :
  breaker_reachable (b, t) → t <= since →
  WouldAllow since b = is_ok (Allow now since stamp b).1 ∧
  (is_ok (Allow now since stamp b).1 = false → (Allow now since stamp b).2 = b) ∧
  (state b = Open → (WaitDuration since b = 0 ↔ WouldAllow since b = true)) ∧
  0 <= WaitDuration since b <= maxOpenTimeout (cfg b).
Proof.
  intros Hi%breaker_reachable_inv Ht.
  pose proof (openTimeout_bounds b (bi_cfg _ _ Hi) (bi_backoff _ _ Hi)) as Hb.
  assert (Hel : 0 <= time_Sub since (openSince b)).
  { unfold time_Sub, clamp64, max_int64. destruct Hi. lia. }
  pose proof (clamp64_range (since - openSince b)) as Hr. fold (time_Sub since (openSince b)) in Hr.
  assert (Hsub : sub64 (openTimeout b) (time_Sub since (openSince b)) =
                 openTimeout b - time_Sub since (openSince b)).
  { apply wrap64_id. destruct Hi, bi_cfg0. unfold in_int64, min_int64, max_int64 in *. lia. }
  unfold WouldAllow, Allow, WaitDuration. rewrite Hsub.
  destruct Hi, bi_cfg0. destruct (state b) eqn:Hst; simpl.
  - repeat split; try done; lia.
  - destruct (Z.leb_spec (openTimeout b) (time_Sub since (openSince b))); simpl;
      (repeat split; try done; try (intros; bsolve); bsolve).
  - destruct (newestProbe b); [case_match|]; simpl; repeat split; try done; lia.
Qed.

(** ** Witnesses *)

Lemma clock_okb_ok t ts t' : clock_okb t ts t' = true → clock_ok t ts t'.
Proof.
  revert t. induction ts as [|x ts IH]; simpl; intros t H; bprop; [done|]. split; [done|auto].
Qed.

Lemma bexec_sound os c c' : bexec os c = Some c' → rtc bstep c c'.
Proof.
  revert c. induction os as [|[o t'] os IH]; simpl; intros c H.
  - injection H as <-. apply rtc_refl.
  - destruct c as [b t]. simpl in H.
    destruct (clock_okb t (bop_times o) t') eqn:E; [|done].
    eapply rtc_l; [|by apply IH]. constructor. by apply clock_okb_ok.
Qed.

Lemma bexec_reachable opts now b0 os c :
  Forall option_in_int64 opts → 0 < now → New opts now = Ok b0 →
  bexec os (b0, now) = Some c → breaker_reachable (c.1, c.2).
Proof.
  intros Ho Hn Hb He. rewrite <- surjective_pairing. exists (b0, now). split.
  - by exists opts.
  - by eapply bexec_sound.
Qed.

Lemma demo_opts_ok : Forall option_in_int64 demo_opts.
Proof. repeat constructor; vm_compute; congruence. Qed.

Lemma demo_reachable os :
  bexec os (demo []) = Some (demo os) → breaker_reachable ((demo os).1, (demo os).2).
Proof.
  intros H. apply (bexec_reachable demo_opts 100 (demo []).1 os (demo os) demo_opts_ok); [lia | | exact H].
  vm_compute. reflexivity.
Qed.

Lemma demo_half_reachable : breaker_reachable (half_b, 150).
Proof. apply (demo_reachable demo_half). vm_compute. reflexivity. Qed.

Lemma demo_one_failure_reachable : breaker_reachable (one_failure_b, 110).
Proof. apply (demo_reachable demo_one_failure). vm_compute. reflexivity. Qed.

Lemma breaker_invariant_witness : BInv half_b 150.
Proof. apply breaker_invariant. exact demo_half_reachable. Defined.

Lemma breaker_transitions_legal_witness :
  legal_transition (DoSuccess 131 1 160) half_b
    (bop_run (DoSuccess 131 1 160) half_b) ∧
  state (bop_run (DoSuccess 131 1 160) half_b) = Closed.
Proof.
  split; [|reflexivity].
  apply (breaker_transitions_legal half_b 150 (DoSuccess 131 1 160) 160 demo_half_reachable).
  apply clock_okb_ok. reflexivity.
Defined.

Lemma failure_trips_at_threshold_witness :
  state (RecordFailure 503 0 100 0 120 120 one_failure_b) = Open.
Proof.
  apply (failure_trips_at_threshold one_failure_b 110 503 0 100 120 120 demo_one_failure_reachable);
    [vm_compute; congruence | reflexivity | reflexivity |].
  vm_compute. congruence.
Defined.

(** Epoch 2 cancelled: it is dead from then on. *)
Lemma dead_probe_results_discarded_witness :
  CancelProbe 2 (CancelProbe 2 half_b) = CancelProbe 2 half_b.
Proof.
  assert (Hr : breaker_reachable (CancelProbe 2 half_b, 150)).
  { destruct demo_half_reachable as (c0 & Hi & Hr). exists c0. split; [exact Hi|].
    eapply rtc_r; [exact Hr|]. apply (BStep (DoCancel 2)). simpl. lia. }
  apply (dead_probe_results_discarded (CancelProbe 2 half_b) 150 (CancelProbe 2 half_b) 150 2 Hr (rtc_refl _ _)).
  - vm_compute. split; congruence.
  - unfold live. vm_compute. intros H. inversion H; subst. by apply elem_of_nil in H2.
Defined.

Lemma cancelled_probe_readmits_witness :
  ∃ b', Allow 151 151 151 (CancelProbe 2 half_b) = (Ok 3, b').
Proof.
  destruct (cancelled_probe_readmits half_b 150 2 151 151 151)
    as (b' & H & _).
  - exact demo_half_reachable.
  - reflexivity.
  - reflexivity.
  - vm_compute. congruence.
  - lia.
  - exists b'. exact H.
Defined.

Lemma breaker_recovers_witness :
  ∃ e b1, Allow 200000000000 200000000000 200000000000 half_b = (Ok e, b1) ∧
    state (RecordSuccess 200000000000 e 200000000001 b1) = Closed.
Proof.
  destruct (breaker_recovers half_b 150
              200000000000 200000000000 200000000000 200000000001) as (e & b1 & H1 & H2 & _).
  - exact demo_half_reachable.
  - vm_compute. reflexivity.
  - vm_compute. congruence.
  - vm_compute. reflexivity.
  - lia.
  - exists e, b1. split; [exact H1 | exact H2].
Defined.

Lemma openTimeout_exact_witness :
  10 <= openTimeout half_b <= 120000000000.
Proof. apply (openTimeout_exact half_b 150 demo_half_reachable). Defined.

Lemma penalty_exact_witness :
  2000000000 <= PenaltyDuration half_b <= 60000000000.
Proof. apply (penalty_exact half_b 150 demo_half_reachable). Defined.

Lemma would_allow_agrees_witness :
  WouldAllow 155 half_b = is_ok (Allow 155 155 155 half_b).1.
Proof.
  apply (would_allow_agrees half_b 150 155 155 155 demo_half_reachable).
  vm_compute. congruence.
Defined.

(** The documented penalty [BasePenalty * (1 + consecutive)], capped at the
    maximum, is not reached when the maximum is no multiple of the base: with a
    base of 2 and a maximum of 5, three consecutive failures give 4, not 5. *)
Example penalty_below_documented_cap :
  ∃ b0, New [BasePenaltyOption 2; MaxPenaltyOption 5] 1 = Ok b0 ∧
    let b := RecordFailure 503 0 0 0 4 4 (RecordFailure 503 0 0 0 3 3 (RecordFailure 503 0 0 0 2 2 b0)) in
    PenaltyDuration b = 4 ∧ Z.min (2 * (1 + consecutive b)) 5 = 5.
Proof. eexists. split; [reflexivity|]. split; reflexivity. Qed.
