(* ===== verification/GoStr.v ===== *)
(** * Go byte strings

    A Go [string] or [[]byte] is a [list ascii].  The functions of [strings],
    [bytes] and [strconv] the program calls are defined here; what they take
    from the Unicode tables (case folding and mapping of non-ASCII runes) is the
    class [UnicodeTables]. *)

From Stdlib Require Import ZArith Lia Bool List Ascii String NArith.
From stdpp Require Import strings.
From S2P Require Import Prelude GoStd.

Open Scope Z_scope.

Abbreviation str := (list ascii).

(** Literals. *)
Definition lit : string → str := list_ascii_of_string.
Coercion lit : string >-> list.

Definition code (c : ascii) : Z := Z.of_N (N_of_ascii c).
Definition byte_eqb (a b : ascii) : bool := Ascii.eqb a b.

Fixpoint str_eqb (a b : str) : bool :=
  match a, b with
  | [], [] => true
  | x :: a, y :: b => byte_eqb x y && str_eqb a b
  | _, _ => false
  end.

(** ** Prefixes, suffixes, cutting *)

Fixpoint strip_prefix (p s : str) : option str :=
  match p, s with
  | [], _ => Some s
  | x :: p, y :: s => if byte_eqb x y then strip_prefix p s else None
  | _ :: _, [] => None
  end.

Definition HasPrefix (s p : str) : bool :=
  match strip_prefix p s with Some _ => true | None => false end.

Definition TrimPrefix (s p : str) : str :=
  match strip_prefix p s with Some r => r | None => s end.

Definition HasSuffix (s p : str) : bool := HasPrefix (rev s) (rev p).

Definition TrimSuffix (s p : str) : str := rev (TrimPrefix (rev s) (rev p)).

(** [strings.Split] (and [SplitSeq]) on a one-byte separator. *)
Fixpoint Split (c : ascii) (s : str) : list str :=
  match s with
  | [] => [[]]
  | x :: s =>
      if byte_eqb x c then [] :: Split c s
      else match Split c s with
           | p :: ps => (x :: p) :: ps
           | [] => [[x]]
           end
  end.

(** [strings.Cut] on a one-byte separator; [None] is [found = false]. *)
Fixpoint Cut (c : ascii) (s : str) : option (str * str) :=
  match s with
  | [] => None
  | x :: s =>
      if byte_eqb x c then Some ([], s)
      else match Cut c s with
           | Some (a, b) => Some (x :: a, b)
           | None => None
           end
  end.

(** The parts before and after [strings.LastIndex] of a one-byte separator. *)
Fixpoint CutLast (c : ascii) (s : str) : option (str * str) :=
  match s with
  | [] => None
  | x :: s =>
      match CutLast c s with
      | Some (a, b) => Some (x :: a, b)
      | None => if byte_eqb x c then Some ([], s) else None
      end
  end.

Definition ContainsByte (c : ascii) (s : str) : bool := existsb (byte_eqb c) s.

(** ** White space *)

(** Length in bytes of the white-space rune at the head of the string, if any:
    ASCII space, and the UTF-8 encodings of U+0085, U+00A0, U+1680,
    U+2000-U+200A, U+2028, U+2029, U+202F, U+205F and U+3000. *)
Definition space_head (s : str) : option nat :=
  match s with
  | [] => None
  | a :: r =>
      let x := code a in
      if (x =? 32) || ((9 <=? x) && (x <=? 13)) then Some 1%nat
      else match r with
           | [] => None
           | b :: r =>
               let y := code b in
               if (x =? 194) && ((y =? 133) || (y =? 160)) then Some 2%nat
               else match r with
                    | [] => None
                    | c :: _ =>
                        let z := code c in
                        if ((x =? 225) && (y =? 154) && (z =? 128)) ||
                           ((x =? 226) && (y =? 128) &&
                             (((128 <=? z) && (z <=? 138)) || (z =? 168) || (z =? 169) || (z =? 175))) ||
                           ((x =? 226) && (y =? 129) && (z =? 159)) ||
                           ((x =? 227) && (y =? 128) && (z =? 128))
                        then Some 3%nat else None
                    end
           end
  end.

(** The same for the last rune; the argument is the reversed string. *)
Definition space_last (s : str) : option nat :=
  match s with
  | [] => None
  | a :: r =>
      match space_head [a] with
      | Some n => Some n
      | None =>
          match r with
          | [] => None
          | b :: r =>
              match space_head [b; a] with
              | Some 2%nat => Some 2%nat
              | _ => match r with
                     | [] => None
                     | c :: _ => match space_head [c; b; a] with
                                 | Some 3%nat => Some 3%nat
                                 | _ => None
                                 end
                     end
              end
          end
      end
  end.

Fixpoint trim_while (f : str → option nat) (fuel : nat) (s : str) : str :=
  match fuel with
  | O => s
  | S fuel => match f s with
              | Some n => trim_while f fuel (drop n s)
              | None => s
              end
  end.

Definition TrimLeftSpace (s : str) : str := trim_while space_head (length s) s.
Definition TrimRightSpace (s : str) : str := rev (trim_while space_last (length s) (rev s)).
Definition TrimSpace (s : str) : str := TrimRightSpace (TrimLeftSpace s).

(** ** Case *)

Definition is_ascii (c : ascii) : bool := code c <? 128.

Definition lower_ascii (c : ascii) : ascii :=
  if (65 <=? code c) && (code c <=? 90) then ascii_of_N (Z.to_N (code c + 32)) else c.

Definition upper_ascii (c : ascii) : ascii :=
  if (97 <=? code c) && (code c <=? 122) then ascii_of_N (Z.to_N (code c - 32)) else c.

(** What [strings] does once it meets a non-ASCII byte. *)
Class UnicodeTables := {
  unicode_fold_eq : str → str → bool;
  unicode_upper : str → str;
  unicode_lower : str → str;
}.

(** Documented: [EqualFold] is an equivalence, coarser than equality. *)
Class UnicodeLaws `(UnicodeTables) : Prop := {
  unicode_fold_refl : ∀ s, unicode_fold_eq s s = true;
}.

(** Tables that know no non-ASCII case: the ASCII behaviour on every byte. *)
#[export] Instance ascii_tables : UnicodeTables :=
  {| unicode_fold_eq := str_eqb; unicode_upper := map upper_ascii; unicode_lower := map lower_ascii |}.

Section case.
Context `{UnicodeTables}.

(** [strings.EqualFold]: bytewise while both are ASCII, then the tables. *)
Fixpoint EqualFold (s t : str) : bool :=
  match s, t with
  | [], [] => true
  | a :: s', b :: t' =>
      if negb (is_ascii a) || negb (is_ascii b) then unicode_fold_eq s t
      else byte_eqb (lower_ascii a) (lower_ascii b) && EqualFold s' t'
  | _, _ => false
  end.

Definition ToUpper (s : str) : str :=
  if forallb is_ascii s then map upper_ascii s else unicode_upper s.

Definition ToLower (s : str) : str :=
  if forallb is_ascii s then map lower_ascii s else unicode_lower s.
End case.

(** ** Numbers *)

Definition digit (c : ascii) : option Z :=
  if (48 <=? code c) && (code c <=? 57) then Some (code c - 48) else None.

Fixpoint digits (s : str) (acc : Z) : option Z :=
  match s with
  | [] => Some acc
  | c :: s => match digit c with
              | Some d => digits s (acc * 10 + d)
              | None => None
              end
  end.

(** [strconv.Atoi]; [None] is an error (syntax or range). *)
Definition Atoi (s : str) : option Z :=
  let '(neg, ds) :=
    match s with
    | c :: r => if byte_eqb c "-" then (true, r)
                else if byte_eqb c "+" then (false, r) else (false, s)
    | [] => (false, s)
    end in
  match ds with
  | [] => None
  | _ => match digits ds 0 with
         | Some n =>
             let v := if neg : bool then - n else n in
             if (min_int64 <=? v) && (v <=? max_int64) then Some v else None
         | None => None
         end
  end.

(** ** Path segments

    Both [router.segments] and [route.splitSegments] run this loop body over the
    '/'-separated pieces of a path. *)
Definition resolve_step (out : list str) (seg : str) : list str :=
  if str_eqb seg [] || str_eqb seg "." then out
  else if str_eqb seg ".." then removelast out
  else out ++ [seg].

Definition resolve_path (path : str) : list str := fold_left resolve_step (Split "/" path) [].

(** A segment the loop keeps. *)
Definition plain_segment (seg : str) : Prop :=
  seg ≠ [] ∧ seg ≠ lit "." ∧ seg ≠ lit ".." ∧ "/"%char ∉ seg.

(** ** Lemmas *)

Lemma byte_eqb_eq a b : byte_eqb a b = true ↔ a = b.
Proof. apply Ascii.eqb_eq. Qed.

Lemma byte_eqb_refl a : byte_eqb a a = true.
Proof. by apply byte_eqb_eq. Qed.

Lemma byte_eqb_neq a b : a ≠ b → byte_eqb a b = false.
Proof. intros Hn. destruct (byte_eqb a b) eqn:E; [|done]. by apply byte_eqb_eq in E. Qed.

Lemma str_eqb_eq a b : str_eqb a b = true ↔ a = b.
Proof.
  revert b. induction a as [|x a IH]; intros [|y b]; simpl; try done.
  rewrite andb_true_iff, byte_eqb_eq, IH. split; [by intros [-> ->] | by intros [= -> ->]].
Qed.

Lemma str_eqb_refl a : str_eqb a a = true.
Proof. by apply str_eqb_eq. Qed.

Lemma str_eqb_neq a b : a ≠ b → str_eqb a b = false.
Proof. intros Hn. destruct (str_eqb a b) eqn:E; [|done]. by apply str_eqb_eq in E. Qed.

Lemma strip_prefix_app p s r : strip_prefix p s = Some r ↔ s = p ++ r.
Proof.
  revert s. induction p as [|x p IH]; intros s; simpl.
  - split; [by intros [= ->] | by intros ->].
  - destruct s as [|y s]; [done|]. destruct (byte_eqb x y) eqn:E.
    + apply byte_eqb_eq in E as ->. rewrite IH. split; [by intros -> | by intros [= ->]].
    + split; [done|]. intros [= -> ->]. by rewrite byte_eqb_refl in E.
Qed.

Lemma HasPrefix_app s p : HasPrefix s p = true ↔ ∃ r, s = p ++ r.
Proof.
  unfold HasPrefix. destruct (strip_prefix p s) as [r|] eqn:E.
  - apply strip_prefix_app in E. split; [by exists r | done].
  - split; [done|]. intros [r Hr]. apply strip_prefix_app in Hr. congruence.
Qed.

Lemma TrimPrefix_app p r : TrimPrefix (p ++ r) p = r.
Proof.
  unfold TrimPrefix. assert (strip_prefix p (p ++ r) = Some r) as -> by by apply strip_prefix_app.
  done.
Qed.

(** Splitting *)

Lemma Split_nonempty c s : Split c s ≠ [].
Proof. destruct s as [|x s]; simpl; [done|]. case_match; [done|]. by destruct (Split c s). Qed.

Lemma Split_no_sep c s : c ∉ s → Split c s = [s].
Proof.
  induction s as [|x s IH]; simpl; [done|]. rewrite not_elem_of_cons. intros [Hx Hs].
  rewrite byte_eqb_neq by done. by rewrite IH.
Qed.

Lemma Split_app_sep c s t : c ∉ s → Split c (s ++ c :: t) = s :: Split c t.
Proof.
  induction s as [|x s IH]; simpl; [by rewrite byte_eqb_refl|].
  rewrite not_elem_of_cons. intros [Hx Hs]. rewrite byte_eqb_neq by done. by rewrite IH.
Qed.

Lemma Split_pieces c s : Forall (λ p, c ∉ p) (Split c s).
Proof.
  induction s as [|x s IH]; simpl; [repeat constructor; apply not_elem_of_nil|].
  destruct (byte_eqb x c) eqn:E; [constructor; [apply not_elem_of_nil | done]|].
  destruct (Split c s) as [|p ps]; [repeat constructor|].
  - intros Hin%list_elem_of_singleton. subst. by rewrite byte_eqb_refl in E.
  - inversion IH; subst. constructor; [|done]. rewrite not_elem_of_cons. split; [|done].
    intros ->. by rewrite byte_eqb_refl in E.
Qed.

Lemma Split_elem c s p x : p ∈ Split c s → x ∈ p → x ∈ s.
Proof.
  revert p. induction s as [|y s IH]; simpl; intros p Hp Hx.
  - apply list_elem_of_singleton in Hp. by subst.
  - destruct (byte_eqb y c).
    + apply elem_of_cons in Hp as [->|Hp]; [by apply elem_of_nil in Hx|]. right. eauto.
    + pose proof (Split_nonempty c s). destruct (Split c s) as [|q qs]; [done|].
      apply elem_of_cons in Hp as [->|Hp].
      * apply elem_of_cons in Hx as [->|Hx]; [left|]. right. eapply IH; [left | done].
      * right. eapply IH; [by right | done].
Qed.

(** Splitting distributes over a separator in the middle. *)
Lemma Split_app c s t : Split c (s ++ c :: t) = Split c s ++ Split c t.
Proof.
  induction s as [|x s IH]; simpl; [by rewrite byte_eqb_refl|].
  destruct (byte_eqb x c); [by rewrite IH|]. rewrite IH.
  pose proof (Split_nonempty c s). by destruct (Split c s).
Qed.

Lemma Cut_app c s t : c ∉ s → Cut c (s ++ c :: t) = Some (s, t).
Proof.
  induction s as [|x s IH]; simpl; [by rewrite byte_eqb_refl|].
  rewrite not_elem_of_cons. intros [Hx Hs]. rewrite byte_eqb_neq by done. by rewrite IH.
Qed.

Lemma Cut_none c s : c ∉ s → Cut c s = None.
Proof.
  induction s as [|x s IH]; simpl; [done|]. rewrite not_elem_of_cons. intros [Hx Hs].
  rewrite byte_eqb_neq by done. by rewrite IH.
Qed.

Lemma Cut_spec c s a b : Cut c s = Some (a, b) → s = a ++ c :: b ∧ c ∉ a.
Proof.
  revert a. induction s as [|x s IH]; simpl; intros a H; [done|].
  destruct (byte_eqb x c) eqn:E.
  - apply byte_eqb_eq in E. simplify_eq. split; [done | apply not_elem_of_nil].
  - destruct (Cut c s) as [[a' b']|]; [|done]. simplify_eq.
    destruct (IH a' eq_refl) as [-> Hn]. split; [done|]. rewrite not_elem_of_cons.
    split; [|done]. intros ->. by rewrite byte_eqb_refl in E.
Qed.

Lemma CutLast_none c s : c ∉ s → CutLast c s = None.
Proof.
  induction s as [|x s IH]; simpl; [done|]. rewrite not_elem_of_cons. intros [Hx Hs].
  by rewrite IH, byte_eqb_neq by done.
Qed.

Lemma CutLast_app c s t : c ∉ t → CutLast c (s ++ c :: t) = Some (s, t).
Proof.
  intros Ht. induction s as [|x s IH]; simpl.
  - by rewrite CutLast_none, byte_eqb_refl.
  - by rewrite IH.
Qed.

Lemma ContainsByte_elem c s : ContainsByte c s = true ↔ c ∈ s.
Proof.
  unfold ContainsByte. rewrite existsb_exists. setoid_rewrite <- list_elem_of_In.
  setoid_rewrite byte_eqb_eq. split; [by intros (x & ? & ->) | by exists c].
Qed.

(** Segments *)

Lemma resolve_step_plain out seg : plain_segment seg → resolve_step out seg = out ++ [seg].
Proof.
  intros (H1 & H2 & H3 & _). unfold resolve_step.
  by rewrite !str_eqb_neq by done.
Qed.

Lemma fold_resolve_plain segs out :
  Forall plain_segment segs → fold_left resolve_step segs out = out ++ segs.
Proof.
  intros Hs. revert out. induction Hs as [|s segs Hs _ IH]; intros out; simpl; [by rewrite app_nil_r|].
  rewrite resolve_step_plain by done. rewrite IH. by rewrite <- app_assoc.
Qed.

Lemma removelast_Forall {A} (P : A → Prop) l : Forall P l → Forall P (removelast l).
Proof. induction 1 as [|x l Hx Hl IH]; simpl; [done|]. destruct l; [done|]. by constructor. Qed.

Lemma resolve_step_keeps out seg :
  "/"%char ∉ seg → Forall plain_segment out → Forall plain_segment (resolve_step out seg).
Proof.
  intros Hs Ho. unfold resolve_step.
  destruct (str_eqb seg []) eqn:E1; [done|]. destruct (str_eqb seg ".") eqn:E2; [done|].
  destruct (str_eqb seg "..") eqn:E3; [by apply removelast_Forall|].
  apply Forall_app. split; [done|]. apply Forall_singleton.
  repeat split; try done; intros ->; discriminate.
Qed.

Lemma resolve_path_plain path : Forall plain_segment (resolve_path path).
Proof.
  unfold resolve_path. pose proof (Split_pieces "/" path) as Hp.
  assert (H0 : Forall plain_segment []) by constructor. revert H0.
  generalize (@nil str). induction Hp as [|p ps Hp _ IH]; intros out Ho; simpl; [done|].
  apply IH. apply resolve_step_keeps; done.
Qed.

(** Appending ["/seg/.."] to a path does not change what it resolves to. *)
Lemma resolve_path_dotdot path seg :
  plain_segment seg →
  resolve_path (path ++ "/"%char :: seg ++ "/"%char :: lit "..") = resolve_path path.
Proof.
  intros Hs. unfold resolve_path. rewrite Split_app, fold_left_app.
  pose proof Hs as (_ & _ & _ & Hn). rewrite Split_app_sep by done. simpl.
  rewrite (resolve_step_plain _ seg) by done. apply removelast_last.
Qed.

(** Case *)

Section case_lemmas.
Context `{UnicodeLaws}.

Lemma EqualFold_refl s : EqualFold s s = true.
Proof.
  induction s as [|a s IH]; simpl; [done|].
  destruct (negb (is_ascii a) || negb (is_ascii a)); [apply unicode_fold_refl|].
  by rewrite byte_eqb_refl.
Qed.
End case_lemmas.

#[export] Instance ascii_laws : UnicodeLaws ascii_tables.
Proof. constructor. apply str_eqb_refl. Qed.

(** Digits parse to what they spell. *)
Lemma digits_nonneg s acc n : 0 <= acc → digits s acc = Some n → 0 <= n.
Proof.
  revert acc. induction s as [|c s IH]; simpl; intros acc Ha H; [by simplify_eq|].
  unfold digit in H. destruct ((48 <=? code c) && (code c <=? 57)) eqn:E; [|done].
  bprop. eapply IH; [|exact H]. lia.
Qed.

(** ** Trimming twice *)

Lemma space_head_app s t n : space_head s = Some n → space_head (s ++ t) = Some n.
Proof.
  destruct s as [|a [|b [|c s]]]; simpl; [done|..].
  - destruct (_ || _); [done|done].
  - destruct (_ || _); [done|]. destruct (_ && _); [done|done].
  - done.
Qed.

Lemma trim_while_done f fuel s :
  f [] = None → (∀ s n, f s = Some n → (0 < n)%nat) → (length s <= fuel)%nat → f (trim_while f fuel s) = None.
Proof.
  intros H0 Hpos. revert s. induction fuel as [|fuel IH]; intros s Hl; simpl.
  { destruct s; [done | simpl in Hl; lia]. }
  destruct (f s) as [n|] eqn:E; [|done]. apply IH. rewrite length_drop.
  pose proof (Hpos _ _ E). destruct s; [congruence|]. simpl in *. lia.
Qed.

Lemma trim_while_fix f fuel s : f s = None → trim_while f fuel s = s.
Proof. intros H. destruct fuel; simpl; [done|]. by rewrite H. Qed.

Lemma trim_while_suffix f fuel s : ∃ t, s = t ++ trim_while f fuel s.
Proof.
  revert s. induction fuel as [|fuel IH]; intros s; simpl; [by exists []|].
  destruct (f s) as [n|]; [|by exists []]. destruct (IH (drop n s)) as [t Ht].
  exists (take n s ++ t). by rewrite <- (app_assoc _ t), <- Ht, take_drop.
Qed.

Lemma space_head_pos s n : space_head s = Some n → (0 < n)%nat.
Proof.
  destruct s as [|a [|b [|c s]]]; simpl; [done|..]; repeat (destruct (_ || _)); repeat (destruct (_ && _));
    intros [= <-]; lia.
Qed.

Lemma space_last_pos s n : space_last s = Some n → (0 < n)%nat.
Proof.
  unfold space_last. destruct s as [|a s]; [done|]. destruct (space_head [a]) as [k|] eqn:E.
  { intros [= <-]. by eapply space_head_pos. }
  destruct s as [|b s]; [done|].
  destruct (space_head [b; a]) as [[|[|[|k]]]|]; try (intros [= <-]; lia);
    (destruct s as [|c s]; [done|]); destruct (space_head [c; b; a]) as [[|[|[|[|m]]]]|]; intros [= <-]; lia.
Qed.

(** Nothing left begins with white space. *)
Lemma TrimSpace_head s : space_head (TrimSpace s) = None.
Proof.
  set (l := TrimLeftSpace s). assert (Hl : space_head l = None).
  { apply trim_while_done; [done|apply space_head_pos|done]. }
  assert (Hr : ∃ u, l = TrimRightSpace l ++ u).
  { destruct (trim_while_suffix space_last (length l) (rev l)) as [t Ht]. exists (rev t).
    unfold TrimRightSpace. rewrite <- rev_app_distr, <- Ht. by rewrite rev_involutive. }
  destruct Hr as [u Hu]. unfold TrimSpace. fold l. destruct (space_head (TrimRightSpace l)) as [n|] eqn:E; [|done].
  apply (space_head_app _ u) in E. rewrite <- Hu in E. congruence.
Qed.

Lemma TrimSpace_idem s : TrimSpace (TrimSpace s) = TrimSpace s.
Proof.
  pose proof (TrimSpace_head s) as Hh. unfold TrimSpace in *. set (l := TrimLeftSpace s) in *.
  unfold TrimLeftSpace at 1. rewrite trim_while_fix by done.
  unfold TrimRightSpace at 1. rewrite trim_while_fix; [by rewrite rev_involutive|].
  unfold TrimRightSpace. rewrite rev_involutive. apply trim_while_done; [done|apply space_last_pos|by rewrite length_rev].
Qed.
