(* ===== verification/GoText.v ===== *)
(** * UTF-8, JSON strings and lexical paths as Go defines them

    The functions of [unicode/utf8], [encoding/json] and [path] the program
    uses, on byte strings.  Nothing here comes from [src/]. *)

From Stdlib Require Import ZArith Lia Bool List Ascii String NArith.
From stdpp Require Import strings.
From S2P Require Import Prelude GoStd GoStr.

Open Scope Z_scope.

(** ** [unicode/utf8] *)

(** [utf8.RuneStart]: not a continuation byte. *)
Definition RuneStart (c : ascii) : bool := negb ((128 <=? code c) && (code c <? 192)).

Definition in_range (lo hi : Z) (c : ascii) : bool := (lo <=? code c) && (code c <=? hi).

(** The ranges of a rune's second byte, by its first ([utf8]'s accept ranges). *)
Definition second_range (x : Z) : Z * Z :=
  if x =? 224 then (160, 191) else if x =? 237 then (128, 159)
  else if x =? 240 then (144, 191) else if x =? 244 then (128, 143) else (128, 191).

(** The width of the valid rune a string begins with, 0 when there is none. *)
Definition rune_width (s : str) : nat :=
  match s with
  | [] => 0%nat
  | a :: r =>
      let x := code a in
      let lo := fst (second_range x) in
      let hi := snd (second_range x) in
      if x <? 128 then 1%nat
      else if (194 <=? x) && (x <=? 223) then
        match r with b :: _ => if in_range lo hi b then 2%nat else 0%nat | _ => 0%nat end
      else if (224 <=? x) && (x <=? 239) then
        match r with
        | b :: c :: _ => if in_range lo hi b && in_range 128 191 c then 3%nat else 0%nat
        | _ => 0%nat
        end
      else if (240 <=? x) && (x <=? 244) then
        match r with
        | b :: c :: d :: _ => if in_range lo hi b && in_range 128 191 c && in_range 128 191 d then 4%nat else 0%nat
        | _ => 0%nat
        end
      else 0%nat
  end.

#[global] Arguments rune_width : simpl never.

(** [utf8.ValidString]; the string's length is fuel enough. *)
Fixpoint valid_fuel (fuel : nat) (s : str) : bool :=
  match s, fuel with
  | [], _ => true
  | _, O => false
  | _, S fuel => match rune_width s with
                 | O => false
                 | w => valid_fuel fuel (drop w s)
                 end
  end.

Definition ValidString (s : str) : bool := valid_fuel (length s) s.

(** ** [encoding/json] *)

Definition hex_digit (n : Z) : ascii := ascii_of_N (Z.to_N (if n <? 10 then 48 + n else 87 + n)).

(** The escape of an ASCII byte ([Marshal] escapes HTML too). *)
Definition json_byte (c : ascii) : str :=
  let x := code c in
  if x =? 34 then lit "\" ++ [c]
  else if x =? 92 then lit "\\"
  else if x =? 8 then lit "\b" else if x =? 12 then lit "\f"
  else if x =? 10 then lit "\n" else if x =? 13 then lit "\r" else if x =? 9 then lit "\t"
  else if (x <? 32) || (x =? 60) || (x =? 62) || (x =? 38) then
    lit "\u00" ++ [hex_digit (x / 16); hex_digit (x mod 16)]
  else [c].

(** The contents of a JSON string: [copy] bytes of a rune are still to be
    copied and [skip] bytes dropped. *)
Fixpoint json_chars (copy skip : nat) (s : str) : str :=
  match s with
  | [] => []
  | c :: s' =>
      match copy, skip with
      | S copy, _ => c :: json_chars copy skip s'
      | O, S skip => json_chars 0 skip s'
      | O, O =>
          match rune_width s with
          | O => lit "\ufffd" ++ json_chars 0 0 s'
          | 1%nat => json_byte c ++ json_chars 0 0 s'
          | w =>
              if str_eqb (take 3 s) (map ascii_of_nat [226; 128; 168])%nat then lit "\u2028" ++ json_chars 0 2 s'
              else if str_eqb (take 3 s) (map ascii_of_nat [226; 128; 169])%nat then lit "\u2029" ++ json_chars 0 2 s'
              else c :: json_chars (w - 1) 0 s'
          end
      end
  end.

Definition quote_char : ascii := ascii_of_nat 34.

Definition json_string (s : str) : str := [quote_char] ++ json_chars 0 0 s ++ [quote_char].

(** ** [path.Clean] *)

Definition clean_step (rooted : bool) (out : list str) (seg : str) : list str :=
  if str_eqb seg [] || str_eqb seg "." then out
  else if str_eqb seg ".." then
    match last out with
    | Some l => if negb rooted && str_eqb l ".." then out ++ [seg] else removelast out
    | None => if rooted then out else out ++ [seg]
    end
  else out ++ [seg].

Definition Join (segs : list str) : str := concat (imap (λ i s, if (i =? 0)%nat then s else "/"%char :: s) segs).

Definition path_Clean (p : str) : str :=
  let rooted := HasPrefix p "/" in
  let out := Join (fold_left (clean_step rooted) (Split "/" p) []) in
  if rooted then "/"%char :: out else if str_eqb out [] then lit "." else out.

Example path_Clean_examples :
  path_Clean (lit "/v1//models/../responses/") = lit "/v1/responses" ∧ path_Clean (lit "/../..") = lit "/" ∧
  path_Clean (lit "a/../../b") = lit "../b" ∧ path_Clean [] = lit ".".
Proof. by vm_compute. Qed.

(** ** Lemmas: UTF-8 *)

Lemma in_range_cont lo hi c : 128 <= lo → hi <= 191 → in_range lo hi c = true → RuneStart c = false.
Proof.
  intros Hlo Hhi Hb. unfold in_range, RuneStart in *. bprop. apply negb_false_iff, andb_true_iff.
  split; [apply Z.leb_le|apply Z.ltb_lt]; lia.
Qed.

Lemma second_range_cont x : 128 <= fst (second_range x) ∧ snd (second_range x) <= 191.
Proof. unfold second_range. repeat (destruct (_ =? _); [simpl; lia|]). simpl; lia. Qed.

(** A rune's first byte is the only start in it. *)
Lemma rune_width_spec s w :
  rune_width s = w → w ≠ 0%nat →
  (w <= length s)%nat ∧ ∀ k c, (0 < k < w)%nat → s !! k = Some c → RuneStart c = false.
Proof.
  intros Hw Hn. destruct s as [|a r]; [by subst|]. unfold rune_width in Hw.
  destruct (second_range_cont (code a)) as [Hlo Hhi].
  pose proof (λ c, in_range_cont _ _ c Hlo Hhi) as Hsnd.
  pose proof (λ c, in_range_cont 128 191 c ltac:(lia) ltac:(lia)) as Hrest.
  destruct (_ <? 128); [subst; simpl; split; [lia|intros; lia]|].
  destruct (_ && _).
  { destruct r as [|b r]; [by subst|]. destruct (in_range _ _ b) eqn:Eb; [|by subst].
    subst. simpl. split; [lia|]. intros [|[|k]] c Hk Hc; simplify_eq/=; try lia. by apply Hsnd. }
  destruct (_ && _).
  { destruct r as [|b [|c r]]; [by subst|by subst|].
    destruct (in_range _ _ b) eqn:Eb, (in_range _ _ c) eqn:Ec; simpl in Hw; try by subst.
    subst. simpl. split; [lia|]. intros [|[|[|k]]] c' Hk Hc; simplify_eq/=; try lia; auto. }
  destruct (_ && _); [|by subst].
  destruct r as [|b [|c [|d r]]]; [by subst|by subst|by subst|].
  destruct (in_range _ _ b) eqn:Eb, (in_range _ _ c) eqn:Ec, (in_range _ _ d) eqn:Ed; simpl in Hw; try by subst.
  subst. simpl. split; [lia|]. intros [|[|[|[|k]]]] c' Hk Hc; simplify_eq/=; try lia; auto.
Qed.

(** The width depends on the rune's own bytes alone. *)
Lemma rune_width_app s t w : rune_width s = w → w ≠ 0%nat → rune_width (s ++ t) = w.
Proof.
  intros Hw Hn. destruct s as [|a r]; [by subst|]. unfold rune_width in *. simpl.
  destruct (_ <? 128); [done|].
  destruct (_ && _); [destruct r; [by subst|done]|].
  destruct (_ && _); [destruct r as [|b [|c r]]; by subst|].
  destruct (_ && _); [destruct r as [|b [|c [|d r]]]; by subst|done].
Qed.

Lemma rune_width_take s w n : rune_width s = w → w ≠ 0%nat → (w <= n)%nat → rune_width (take n s) = w.
Proof.
  intros Hw Hn Hle. destruct s as [|a r]; [by subst|]. destruct n as [|n]; [lia|]. unfold rune_width in *. simpl.
  destruct (_ <? 128); [done|].
  destruct (_ && _).
  { destruct r as [|b r]; [by subst|]. destruct (in_range _ _ b) eqn:Eb; [|by subst].
    destruct n; [lia|]. simpl. by rewrite Eb. }
  destruct (_ && _).
  { destruct r as [|b [|c r]]; [by subst|by subst|]. destruct (_ && _) eqn:Eb; [|by subst].
    destruct n as [|[|n]]; [lia|lia|]. simpl. by rewrite Eb. }
  destruct (_ && _); [|by subst].
  destruct r as [|b [|c [|d r]]]; [by subst|by subst|by subst|]. destruct (_ && _) eqn:Eb; [|by subst].
  destruct n as [|[|[|n]]]; [lia|lia|lia|]. simpl. by rewrite Eb.
Qed.

Lemma valid_fuel_more n m s : (n <= m)%nat → valid_fuel n s = true → valid_fuel m s = true.
Proof.
  revert m s. induction n as [|n IH]; intros m s Hle Hv.
  - destruct s; [by destruct m|done].
  - destruct s as [|a r]; [by destruct m|]. destruct m as [|m]; [lia|]. simpl in *.
    destruct (rune_width (a :: r)) as [|w]; [done|]. apply IH; [lia|done].
Qed.

(** A valid string is its first rune and a valid rest. *)
Lemma valid_cons s : s ≠ [] →
  ValidString s = true ↔ ∃ w, rune_width s = w ∧ w ≠ 0%nat ∧ ValidString (drop w s) = true.
Proof.
  intros Hs. unfold ValidString. destruct s as [|a r]; [done|]. simpl.
  destruct (rune_width (a :: r)) as [|w] eqn:Ew.
  - split; [done|]. by intros (w & <- & ? & _).
  - simpl. split.
    + intros Hv. exists (S w). split; [done|]. split; [done|]. simpl.
      destruct (rune_width_spec _ _ Ew) as [Hle _]; [done|].
      assert (Hgen : ∀ n s, valid_fuel n s = true → valid_fuel (length s) s = true).
      { clear. induction n as [|n IH]; intros s Hv; [by destruct s|]. destruct s as [|a r]; [done|]. simpl in *.
        destruct (rune_width (a :: r)) as [|w] eqn:Ew; [done|]. simpl in *.
        eapply valid_fuel_more; [|by apply (IH (drop w r))]. rewrite length_drop. lia. }
      by eapply Hgen.
    + intros (w' & <- & _ & Hv). simpl in Hv. eapply valid_fuel_more; [|exact Hv]. rewrite length_drop. lia.
Qed.

Lemma ValidString_app s t : ValidString s = true → ValidString t = true → ValidString (s ++ t) = true.
Proof.
  intros Hs Ht. remember (length s) as n eqn:Hn. revert s Hs Hn.
  induction (lt_wf n) as [n _ IH]. intros s Hs Hn. destruct (decide (s = [])) as [->|Hne]; [done|].
  destruct (proj1 (valid_cons s Hne) Hs) as (w & Hw & Hw0 & Hd). destruct (rune_width_spec _ _ Hw Hw0) as [Hle _].
  apply valid_cons; [by destruct s|]. exists w. split; [by apply rune_width_app|]. split; [done|].
  rewrite drop_app_le by done. apply (IH (length (drop w s))); [|done|done]. rewrite length_drop. lia.
Qed.

(** Cutting a valid string before a rune's first byte leaves a valid string. *)
Lemma ValidString_take s k :
  ValidString s = true → (k = 0%nat ∨ ∀ c, s !! k = Some c → RuneStart c = true) → ValidString (take k s) = true.
Proof.
  intros Hs Hk. remember (length s) as n eqn:Hn. revert s k Hs Hk Hn.
  induction (lt_wf n) as [n _ IH]. intros s k Hs Hk Hn. destruct (decide (s = [])) as [->|Hne]; [by destruct k|].
  destruct (decide (k = 0%nat)) as [->|Hk0]; [done|]. destruct Hk as [?|Hk]; [done|].
  destruct (proj1 (valid_cons s Hne) Hs) as (w & Hw & Hw0 & Hd). destruct (rune_width_spec _ _ Hw Hw0) as [Hle Hc].
  destruct (Nat.lt_ge_cases k w) as [Hlt|Hge].
  - destruct (lookup_lt_is_Some_2 s k) as [c Hck]; [lia|]. specialize (Hk _ Hck). rewrite (Hc k c) in Hk; [done|lia|done].
  - apply valid_cons; [destruct s; [done|by destruct k]|]. exists w.
    split; [by apply rune_width_take|]. split; [done|].
    replace (drop w (take k s)) with (take (k - w) (drop w s)) by (by rewrite skipn_firstn_comm).
    apply (IH (length (drop w s))); [rewrite length_drop; lia|done| |done].
    right. intros c. rewrite lookup_drop. replace (w + (k - w))%nat with k by lia. apply Hk.
Qed.
