(* ===== verification/GoHttp.v ===== *)
(** * The parts of [net/http] and [net/url] the program uses

    Header maps with canonical keys ([textproto.CanonicalMIMEHeaderKey]), and the
    unescaping of query components.  Nothing here comes from [src/]. *)

From Stdlib Require Import ZArith Lia Bool List Ascii String.
From stdpp Require Import strings gmap.
From S2P Require Import Prelude GoStd GoStr.

Open Scope Z_scope.

(** ** Header names *)

Definition is_lower (c : ascii) : bool := (97 <=? code c) && (code c <=? 122).
Definition is_upper (c : ascii) : bool := (65 <=? code c) && (code c <=? 90).
Definition is_digit (c : ascii) : bool := (48 <=? code c) && (code c <=? 57).

(** RFC 7230 [tchar]. *)
Definition is_tchar (c : ascii) : bool :=
  is_lower c || is_upper c || is_digit c || ContainsByte c (lit "!#$%&'*+-.^_`|~").

Fixpoint canon (upper : bool) (s : str) : str :=
  match s with
  | [] => []
  | c :: s => (if upper then upper_ascii c else lower_ascii c) :: canon (byte_eqb c "-") s
  end.

(** [http.CanonicalHeaderKey]: a string that is no token is left as it is. *)
Definition CanonicalHeaderKey (s : str) : str := if forallb is_tchar s then canon true s else s.

(** ** Header maps *)

Abbreviation Header := (gmap str (list str)).

Definition header_Set (k v : str) (h : Header) : Header := <[CanonicalHeaderKey k := [v]]> h.
Definition header_Values (k : str) (h : Header) : list str := default [] (h !! CanonicalHeaderKey k).
Definition header_Get (k : str) (h : Header) : str := hd [] (header_Values k h).
Definition header_Add (k v : str) (h : Header) : Header :=
  <[CanonicalHeaderKey k := header_Values k h ++ [v]]> h.
Definition header_Del (k : str) (h : Header) : Header := delete (CanonicalHeaderKey k) h.

(** ** Query components *)

Definition hex_value (c : ascii) : option Z :=
  if is_digit c then Some (code c - 48)
  else if (97 <=? code c) && (code c <=? 102) then Some (code c - 87)
  else if (65 <=? code c) && (code c <=? 70) then Some (code c - 55)
  else None.

(** [url.QueryUnescape]; [None] is an error. *)
Fixpoint QueryUnescape (s : str) : option str :=
  match s with
  | [] => Some []
  | c :: s =>
      if byte_eqb c "%" then
        match s with
        | a :: b :: s =>
            match hex_value a, hex_value b with
            | Some x, Some y => cons (ascii_of_N (Z.to_N (16 * x + y))) <$> QueryUnescape s
            | _, _ => None
            end
        | _ => None
        end
      else if byte_eqb c "+" then cons " "%char <$> QueryUnescape s
      else cons c <$> QueryUnescape s
  end.

(** ** Lemmas *)

(** A fact about every byte, by enumeration. *)
Lemma ascii_all (P : ascii → bool) :
  forallb P (map ascii_of_nat (seq 0 256)) = true → ∀ c, P c = true.
Proof.
  rewrite forallb_forall. intros H c. apply H. apply in_map_iff. exists (nat_of_ascii c).
  split; [apply ascii_nat_embedding|]. apply in_seq. pose proof (nat_ascii_bounded c). lia.
Qed.

Lemma is_tchar_lower c : is_tchar (lower_ascii c) = is_tchar c.
Proof. apply eqb_prop. revert c. apply ascii_all. by vm_compute. Qed.

Lemma case_lower c :
  upper_ascii (lower_ascii c) = upper_ascii c ∧ lower_ascii (lower_ascii c) = lower_ascii c ∧
  lower_ascii (upper_ascii c) = lower_ascii c ∧ upper_ascii (upper_ascii c) = upper_ascii c.
Proof.
  rewrite <- !byte_eqb_eq, <- !andb_true_iff. revert c.
  refine (ascii_all (λ c, byte_eqb (upper_ascii (lower_ascii c)) (upper_ascii c) &&
    (byte_eqb (lower_ascii (lower_ascii c)) (lower_ascii c) &&
     (byte_eqb (lower_ascii (upper_ascii c)) (lower_ascii c) &&
      byte_eqb (upper_ascii (upper_ascii c)) (upper_ascii c)))) _). by vm_compute.
Qed.

Lemma case_dash c : byte_eqb (lower_ascii c) "-" = byte_eqb c "-" ∧ byte_eqb (upper_ascii c) "-" = byte_eqb c "-".
Proof.
  split; apply eqb_prop.
  - revert c. refine (ascii_all (λ c, eqb (byte_eqb (lower_ascii c) "-") (byte_eqb c "-")) _). by vm_compute.
  - revert c. refine (ascii_all (λ c, eqb (byte_eqb (upper_ascii c) "-") (byte_eqb c "-")) _). by vm_compute.
Qed.

Lemma canon_lower u s : canon u (map lower_ascii s) = canon u s.
Proof.
  revert u. induction s as [|c s IH]; intros u; simpl; [done|].
  destruct (case_lower c) as (Hu & Hl & _). destruct (case_dash c) as [-> _]. rewrite IH. by destruct u; rewrite ?Hu, ?Hl.
Qed.

Lemma token_lower s : forallb is_tchar (map lower_ascii s) = forallb is_tchar s.
Proof. induction s as [|c s IH]; simpl; [done|]. by rewrite is_tchar_lower, IH. Qed.

(** Spellings that differ in case only have one canonical key. *)
Lemma canonical_any_case s t :
  forallb is_tchar t = true → map lower_ascii s = map lower_ascii t → CanonicalHeaderKey s = CanonicalHeaderKey t.
Proof.
  intros Ht He. assert (Hs : forallb is_tchar s = true) by (by rewrite <- token_lower, He, token_lower).
  unfold CanonicalHeaderKey. rewrite Hs, Ht. by rewrite <- (canon_lower true s), He, canon_lower.
Qed.

Lemma lower_canon u s : map lower_ascii (canon u s) = map lower_ascii s.
Proof.
  revert u. induction s as [|c s IH]; intros u; simpl; [done|]. rewrite IH. f_equal.
  destruct (case_lower c) as (_ & Hl & Hu & _). by destruct u.
Qed.

Lemma canonical_idem s : CanonicalHeaderKey (CanonicalHeaderKey s) = CanonicalHeaderKey s.
Proof.
  unfold CanonicalHeaderKey at 2 3. destruct (forallb is_tchar s) eqn:Hs.
  - rewrite (canonical_any_case (canon true s) s) by (done || apply lower_canon). unfold CanonicalHeaderKey. by rewrite Hs.
  - unfold CanonicalHeaderKey. by rewrite Hs.
Qed.
