(* ===== verification/GoJson.v ===== *)
(** * JSON as [encoding/json] reads it

    The lexemes of a text, the token stream of [Decoder.Token] and the values
    [Decoder.Decode] reads, with what relates the two.  Nothing here comes from
    [src/]. *)

From Stdlib Require Import ZArith Lia Bool List Ascii String NArith.
From stdpp Require Import strings.
From S2P Require Import Prelude GoStd GoStr GoText.

Open Scope Z_scope.

(** ** Lexemes *)

Inductive lexeme :=
| LOpen (obj : bool)
| LClose (obj : bool)
| LComma
| LColon
| LStr (s : str)
| LNum (raw : str)
| LBool (b : bool)
| LNull.

Definition hex_value (c : ascii) : option Z :=
  let x := code c in
  if (48 <=? x) && (x <=? 57) then Some (x - 48)
  else if (97 <=? x) && (x <=? 102) then Some (x - 87)
  else if (65 <=? x) && (x <=? 70) then Some (x - 55)
  else None.

Definition hex4 (a b c d : ascii) : option Z :=
  match hex_value a, hex_value b, hex_value c, hex_value d with
  | Some a, Some b, Some c, Some d => Some (((a * 16 + b) * 16 + c) * 16 + d)
  | _, _, _, _ => None
  end.

Definition simple_escape (c : ascii) : option ascii :=
  let x := code c in
  if (x =? 34) || (x =? 92) || (x =? 47) then Some c
  else if x =? 98 then Some (ascii_of_nat 8) else if x =? 102 then Some (ascii_of_nat 12)
  else if x =? 110 then Some (ascii_of_nat 10) else if x =? 114 then Some (ascii_of_nat 13)
  else if x =? 116 then Some (ascii_of_nat 9) else None.

Definition byte_of (x : Z) : ascii := ascii_of_N (Z.to_N x).

(** [utf8.AppendRune]. *)
Definition encode_rune (r : Z) : str :=
  if r <? 128 then [byte_of r]
  else if r <? 2048 then [byte_of (192 + r / 64); byte_of (128 + r mod 64)]
  else if r <? 65536 then [byte_of (224 + r / 4096); byte_of (128 + (r / 64) mod 64); byte_of (128 + r mod 64)]
  else [byte_of (240 + r / 262144); byte_of (128 + (r / 4096) mod 64); byte_of (128 + (r / 64) mod 64);
        byte_of (128 + r mod 64)].

Definition replacement : str := encode_rune 65533.

Definition is_surrogate (r : Z) : bool := (55296 <=? r) && (r <=? 57343).

(** The rest of a string after its opening quote: the contents with their escapes
    resolved, and what follows the closing quote. *)
Fixpoint scan_string (s : str) : option (str * str) :=
  match s with
  | [] => None
  | c :: s' =>
      if code c =? 34 then Some ([], s')
      else if code c <? 32 then None
      else if code c =? 92 then
        match s' with
        | "u"%char :: h1 :: h2 :: h3 :: h4 :: s1 =>
            match hex4 h1 h2 h3 h4 with
            | None => None
            | Some r =>
                if is_surrogate r then
                  match s1 with
                  | "\"%char :: "u"%char :: g1 :: g2 :: g3 :: g4 :: s2 =>
                      match hex4 g1 g2 g3 g4 with
                      | Some r2 =>
                          if (r <? 56320) && (56320 <=? r2) && (r2 <=? 57343) then
                            match scan_string s2 with
                            | Some (out, rest) =>
                                Some (encode_rune (65536 + (r - 55296) * 1024 + (r2 - 56320)) ++ out, rest)
                            | None => None
                            end
                          else match scan_string s1 with
                               | Some (out, rest) => Some (replacement ++ out, rest)
                               | None => None
                               end
                      | None => None
                      end
                  | _ => match scan_string s1 with
                         | Some (out, rest) => Some (replacement ++ out, rest)
                         | None => None
                         end
                  end
                else match scan_string s1 with
                     | Some (out, rest) => Some (encode_rune r ++ out, rest)
                     | None => None
                     end
            end
        | e :: s1 =>
            match simple_escape e, scan_string s1 with
            | Some x, Some (out, rest) => Some (x :: out, rest)
            | _, _ => None
            end
        | [] => None
        end
      else match scan_string s' with
           | Some (out, rest) => Some (c :: out, rest)
           | None => None
           end
  end.

(** Bytes that are not valid UTF-8 read as U+FFFD. *)
Fixpoint sanitize (fuel : nat) (s : str) : str :=
  match s, fuel with
  | [], _ | _, O => []
  | _ :: s', S fuel =>
      match rune_width s with
      | O => replacement ++ sanitize fuel s'
      | w => take w s ++ sanitize fuel (drop w s)
      end
  end.

Definition is_digit (c : ascii) : bool := (48 <=? code c) && (code c <=? 57).

Fixpoint digits_run (s : str) : str * str :=
  match s with
  | c :: s' => if is_digit c then let '(d, r) := digits_run s' in (c :: d, r) else ([], s)
  | [] => ([], [])
  end.

(** At least one digit. *)
Definition digits1 (s : str) : option (str * str) :=
  match digits_run s with
  | ([], _) => None
  | r => Some r
  end.

Definition scan_int (s : str) : option (str * str) :=
  match s with
  | "0"%char :: s' => Some (lit "0", s')
  | _ => digits1 s
  end.

Definition scan_frac (s : str) : option (str * str) :=
  match s with
  | "."%char :: s' => match digits1 s' with Some (d, r) => Some ("."%char :: d, r) | None => None end
  | _ => Some ([], s)
  end.

Definition scan_exp (s : str) : option (str * str) :=
  match s with
  | ("e"%char | "E"%char) as e :: s' =>
      let '(sign, s1) := match s' with
                         | ("+"%char | "-"%char) as c :: s1 => ([c], s1)
                         | _ => ([], s')
                         end in
      match digits1 s1 with Some (d, r) => Some (e :: sign ++ d, r) | None => None end
  | _ => Some ([], s)
  end.

Definition scan_number (s : str) : option (str * str) :=
  let '(sign, s0) := match s with "-"%char :: s' => (lit "-", s') | _ => ([], s) end in
  match scan_int s0 with
  | None => None
  | Some (i, s1) =>
      match scan_frac s1 with
      | None => None
      | Some (f, s2) =>
          match scan_exp s2 with
          | None => None
          | Some (e, s3) => Some (sign ++ i ++ f ++ e, s3)
          end
      end
  end.

Definition is_json_space (c : ascii) : bool :=
  let x := code c in (x =? 32) || (x =? 9) || (x =? 10) || (x =? 13).

(** The next lexeme of a text that does not begin with white space. *)
Definition lex1 (c : ascii) (s : str) : option (lexeme * str) :=
  let x := code c in
  if x =? 123 then Some (LOpen true, s) else if x =? 125 then Some (LClose true, s)
  else if x =? 91 then Some (LOpen false, s) else if x =? 93 then Some (LClose false, s)
  else if x =? 44 then Some (LComma, s) else if x =? 58 then Some (LColon, s)
  else if x =? 34 then
    match scan_string s with Some (out, r) => Some (LStr (sanitize (length out) out), r) | None => None end
  else match strip_prefix (lit "true") (c :: s), strip_prefix (lit "false") (c :: s), strip_prefix (lit "null") (c :: s) with
       | Some r, _, _ => Some (LBool true, r)
       | _, Some r, _ => Some (LBool false, r)
       | _, _, Some r => Some (LNull, r)
       | _, _, _ => match scan_number (c :: s) with Some (raw, r) => Some (LNum raw, r) | None => None end
       end.

(** The lexemes up to the end of the text, or to the first error ([false]). *)
Fixpoint lex_fuel (fuel : nat) (s : str) : list lexeme * bool :=
  match s, fuel with
  | [], _ => ([], true)
  | _, O => ([], false)
  | c :: s', S fuel =>
      if is_json_space c then lex_fuel fuel s'
      else match lex1 c s' with
           | Some (x, r) => let '(l, ok) := lex_fuel fuel r in (x :: l, ok)
           | None => ([], false)
           end
  end.

Definition lex (s : str) : list lexeme * bool := lex_fuel (length s) s.

(** ** [Decoder.Token] *)

Inductive token :=
| TOpen (obj : bool)
| TClose (obj : bool)
| TStr (s : str)
| TNum (raw : str)
| TBool (b : bool)
| TNull
| TErr.

Inductive tok_state :=
| TopValue | ArrayStart | ArrayValue | ArrayComma | ObjectStart | ObjectKey | ObjectColon | ObjectValue | ObjectComma.

Definition value_allowed (st : tok_state) : bool :=
  match st with TopValue | ArrayStart | ArrayValue | ObjectValue => true | _ => false end.

Definition value_end (st : tok_state) : tok_state :=
  match st with ArrayStart | ArrayValue => ArrayComma | ObjectValue => ObjectComma | _ => st end.

Definition key_allowed (st : tok_state) : bool := match st with ObjectStart | ObjectKey => true | _ => false end.

Definition can_close (obj : bool) (st : tok_state) : bool :=
  match st with
  | ArrayStart | ArrayComma => negb obj
  | ObjectStart | ObjectComma => obj
  | _ => false
  end.

(** [json.Number]s that do not fit a float64 are an error of their token only. *)
Definition num_token (float_ok : str → bool) (raw : str) : token := if float_ok raw then TNum raw else TErr.

(** The tokens up to the first syntax error or the end of the text. *)
Fixpoint dec (float_ok : str → bool) (st : tok_state) (stk : list tok_state) (l : list lexeme) : list token :=
  match l with
  | [] => []
  | x :: l =>
      match x with
      | LOpen o => if value_allowed st
                   then TOpen o :: dec float_ok (if o then ObjectStart else ArrayStart) (st :: stk) l else []
      | LClose o => match stk with
                    | up :: stk => if can_close o st then TClose o :: dec float_ok (value_end up) stk l else []
                    | [] => []
                    end
      | LColon => match st with ObjectColon => dec float_ok ObjectValue stk l | _ => [] end
      | LComma => match st with
                  | ArrayComma => dec float_ok ArrayValue stk l
                  | ObjectComma => dec float_ok ObjectKey stk l
                  | _ => []
                  end
      | LStr s => if key_allowed st then TStr s :: dec float_ok ObjectColon stk l
                  else if value_allowed st then TStr s :: dec float_ok (value_end st) stk l else []
      | LNum raw => if value_allowed st then num_token float_ok raw :: dec float_ok (value_end st) stk l else []
      | LBool b => if value_allowed st then TBool b :: dec float_ok (value_end st) stk l else []
      | LNull => if value_allowed st then TNull :: dec float_ok (value_end st) stk l else []
      end
  end.

Definition tokens (float_ok : str → bool) (text : str) : list token := dec float_ok TopValue [] (fst (lex text)).

(** ** Values *)

Inductive json :=
| JNull
| JBool (b : bool)
| JNum (raw : str)
| JStr (s : str)
| JArr (vs : list json)
| JObj (kvs : list (str * json)).

(** [maxNestingDepth]. *)
Definition max_depth : Z := 10000.

(** One value from the front of the lexemes; the fuel bounds their number. *)
Fixpoint parse (fuel : nat) (depth : Z) (l : list lexeme) : option (json * list lexeme) :=
  match fuel with
  | O => None
  | S fuel =>
      match l with
      | LNull :: l => Some (JNull, l)
      | LBool b :: l => Some (JBool b, l)
      | LNum raw :: l => Some (JNum raw, l)
      | LStr s :: l => Some (JStr s, l)
      | LOpen false :: l =>
          if max_depth <=? depth then None
          else match l with
               | LClose false :: l => Some (JArr [], l)
               | _ => match parse_elems fuel (depth + 1) l with Some (vs, l) => Some (JArr vs, l) | None => None end
               end
      | LOpen true :: l =>
          if max_depth <=? depth then None
          else match l with
               | LClose true :: l => Some (JObj [], l)
               | _ => match parse_fields fuel (depth + 1) l with Some (kvs, l) => Some (JObj kvs, l) | None => None end
               end
      | _ => None
      end
  end
with parse_elems (fuel : nat) (depth : Z) (l : list lexeme) : option (list json * list lexeme) :=
  match fuel with
  | O => None
  | S fuel =>
      match parse fuel depth l with
      | Some (v, LClose false :: l) => Some ([v], l)
      | Some (v, LComma :: l) =>
          match parse_elems fuel depth l with Some (vs, l) => Some (v :: vs, l) | None => None end
      | _ => None
      end
  end
with parse_fields (fuel : nat) (depth : Z) (l : list lexeme) : option (list (str * json) * list lexeme) :=
  match fuel with
  | O => None
  | S fuel =>
      match l with
      | LStr k :: LColon :: l =>
          match parse fuel depth l with
          | Some (v, LClose true :: l) => Some ([(k, v)], l)
          | Some (v, LComma :: l) =>
              match parse_fields fuel depth l with Some (kvs, l) => Some ((k, v) :: kvs, l) | None => None end
          | _ => None
          end
      | _ => None
      end
  end.

(** [Decoder.Decode]: the first value of a text and the lexemes after it. *)
Definition decode_first (l : list lexeme) : option (json * list lexeme) := parse (3 * length l + 3) 0 l.

(** What a decoder finds after the first value. *)
Inductive trailer := NoTrailer | TrailingValue | TrailingGarbage.

Definition trailing (l : list lexeme) (ok : bool) : trailer :=
  match l with
  | [] => if ok then NoTrailer else TrailingGarbage
  | _ => match decode_first l with Some _ => TrailingValue | None => TrailingGarbage end
  end.

(** A text that is one value, as [json.Valid] and [json.Unmarshal] require. *)
Definition parse_text (s : str) : option json :=
  let '(l, ok) := lex s in
  match decode_first l with
  | Some (v, rest) => match trailing rest ok with NoTrailer => Some v | _ => None end
  | None => None
  end.

Definition json_Valid (s : str) : bool := match parse_text s with Some _ => true | None => false end.

(** The tokens of a value. *)
Fixpoint toks (float_ok : str → bool) (v : json) : list token :=
  match v with
  | JNull => [TNull]
  | JBool b => [TBool b]
  | JNum raw => [num_token float_ok raw]
  | JStr s => [TStr s]
  | JArr vs => TOpen false :: concat (map (toks float_ok) vs) ++ [TClose false]
  | JObj kvs => TOpen true :: concat (map (λ '(k, v), TStr k :: toks float_ok v) kvs) ++ [TClose true]
  end.

(** ** Compact texts *)

Fixpoint intersperse (sep : str) (l : list str) : str :=
  match l with
  | [] => []
  | [x] => x
  | x :: l => x ++ sep ++ intersperse sep l
  end.

(** The compact text of a value. *)
Fixpoint print (v : json) : str :=
  match v with
  | JNull => lit "null"
  | JBool b => if b then lit "true" else lit "false"
  | JNum raw => raw
  | JStr s => json_string s
  | JArr vs => lit "[" ++ intersperse (lit ",") (map print vs) ++ lit "]"
  | JObj kvs => lit "{" ++ intersperse (lit ",") (map (λ '(k, v), json_string k ++ lit ":" ++ print v) kvs) ++ lit "}"
  end.

Example parse_text_examples :
  parse_text (lit " [1, -2.5e3,null] ") = Some (JArr [JNum (lit "1"); JNum (lit "-2.5e3"); JNull]) ∧
  parse_text (lit "{} {}") = None ∧ parse_text (lit "[1,]") = None ∧ parse_text (lit "01") = None.
Proof. by vm_compute. Qed.

(** ** Induction over values *)

Section json_induction.
Context (P : json → Prop).
Context (Hnull : P JNull) (Hbool : ∀ b, P (JBool b)) (Hnum : ∀ raw, P (JNum raw)) (Hstr : ∀ s, P (JStr s)).
Context (Harr : ∀ vs, Forall P vs → P (JArr vs)) (Hobj : ∀ kvs, Forall (λ kv, P (snd kv)) kvs → P (JObj kvs)).

Fixpoint json_nested_ind (v : json) : P v :=
  match v with
  | JNull => Hnull
  | JBool b => Hbool b
  | JNum raw => Hnum raw
  | JStr s => Hstr s
  | JArr vs => Harr vs ((fix go (vs : list json) : Forall P vs :=
      match vs with
      | [] => Forall_nil_2 _
      | v :: vs => Forall_cons_2 _ _ _ (json_nested_ind v) (go vs)
      end) vs)
  | JObj kvs => Hobj kvs ((fix go (kvs : list (str * json)) : Forall (λ kv, P (snd kv)) kvs :=
      match kvs with
      | [] => Forall_nil_2 _
      | kv :: kvs => Forall_cons_2 _ _ _ (json_nested_ind (snd kv)) (go kvs)
      end) kvs)
  end.
End json_induction.

(** ** Lemmas *)

Section token_lemmas.
Context (float_ok : str → bool).

(** What the decoder reads as a value, [Token] reads as that value's tokens. *)
Lemma parse_tokens fuel :
  (∀ d l v rest st stk, parse fuel d l = Some (v, rest) → value_allowed st = true →
     dec float_ok st stk l = toks float_ok v ++ dec float_ok (value_end st) stk rest) ∧
  (∀ d l vs rest st up stk, parse_elems fuel d l = Some (vs, rest) → st = ArrayStart ∨ st = ArrayValue →
     dec float_ok st (up :: stk) l =
       concat (map (toks float_ok) vs) ++ TClose false :: dec float_ok (value_end up) stk rest) ∧
  (∀ d l kvs rest st up stk, parse_fields fuel d l = Some (kvs, rest) → key_allowed st = true →
     dec float_ok st (up :: stk) l =
       concat (map (λ '(k, v), TStr k :: toks float_ok v) kvs) ++ TClose true :: dec float_ok (value_end up) stk rest).
Proof.
  induction fuel as [|fuel (IHv & IHe & IHf)]; [done|]. split; [|split].
  - intros d l v rest st stk Hp Hst. simpl in Hp.
    destruct l as [|[[]|[]| | |s|raw|b|] l]; try done; simpl; rewrite ?Hst.
    + destruct (max_depth <=? d); [done|]. destruct l as [|x l]; [destruct fuel as [|[]]; simpl in Hp; done|].
      destruct (parse_fields fuel (d + 1) (x :: l)) as [[kvs r]|] eqn:Ef.
      * assert (Hx : x ≠ LClose true) by (intros ->; destruct fuel; simpl in Ef; done).
        assert (Hv : v = JObj kvs ∧ rest = r) by (destruct x as [|[]| | | | | |]; by simplify_eq).
        destruct Hv as [-> ->]. f_equal. rewrite (IHf _ _ _ _ ObjectStart st stk Ef eq_refl). simpl.
        by rewrite <- app_assoc.
      * destruct x as [|[]| | | | | |]; by simplify_eq.
    + destruct (max_depth <=? d); [done|]. destruct l as [|x l]; [destruct fuel as [|[]]; simpl in Hp; done|].
      destruct (parse_elems fuel (d + 1) (x :: l)) as [[vs r]|] eqn:Ef.
      * assert (Hx : x ≠ LClose false) by (intros ->; destruct fuel as [|[]]; simpl in Ef; done).
        assert (Hv : v = JArr vs ∧ rest = r) by (destruct x as [|[]| | | | | |]; by simplify_eq).
        destruct Hv as [-> ->]. f_equal. rewrite (IHe _ _ _ _ ArrayStart st stk Ef (or_introl eq_refl)). simpl.
        by rewrite <- app_assoc.
      * destruct x as [|[]| | | | | |]; by simplify_eq.
    + simplify_eq. by destruct st.
    + by simplify_eq.
    + by simplify_eq.
    + by simplify_eq.
  - intros d l vs rest st up stk Hp Hst. simpl in Hp.
    destruct (parse fuel d l) as [[v r]|] eqn:Ev; [|done].
    assert (Hal : value_allowed st = true ∧ value_end st = ArrayComma) by (by destruct Hst as [-> | ->]).
    destruct Hal as [Hal Hend]. rewrite (IHv _ _ _ _ st (up :: stk) Ev Hal), Hend.
    destruct r as [|[|[]| | | | | |] r]; try done.
    + simplify_eq. simpl. by rewrite app_nil_r.
    + destruct (parse_elems fuel d r) as [[vs' r']|] eqn:Ee; [|done]. simplify_eq.
      simpl. rewrite (IHe _ _ _ _ ArrayValue up stk Ee (or_intror eq_refl)). by rewrite <- app_assoc.
  - intros d l kvs rest st up stk Hp Hst. simpl in Hp.
    destruct l as [|[| | | |k| | |] l]; try done. destruct l as [|[] l]; try done.
    destruct (parse fuel d l) as [[v r]|] eqn:Ev; [|done]. simpl. rewrite Hst. simpl.
    rewrite (IHv _ _ _ _ ObjectValue (up :: stk) Ev eq_refl). simpl.
    destruct r as [|[|[]| | | | | |] r]; try done.
    + simplify_eq. simpl. by rewrite app_nil_r.
    + destruct (parse_fields fuel d r) as [[kvs' r']|] eqn:Ee; [|done]. simplify_eq.
      simpl. rewrite (IHf _ _ _ _ ObjectKey up stk Ee eq_refl). by rewrite <- app_assoc.
Qed.

Lemma decode_first_tokens l v rest :
  decode_first l = Some (v, rest) →
  dec float_ok TopValue [] l = toks float_ok v ++ dec float_ok TopValue [] rest.
Proof. intros Hp. destruct (parse_tokens (3 * length l + 3)) as (H1 & _ & _). by apply (H1 _ _ _ _ TopValue [] Hp). Qed.
End token_lemmas.
