(* ===== verification/Route.v ===== *)
(** * Fuzzy route patterns ([src/internal/route/route.go])

    Pattern parsing, trailing-segment matching and first-match selection.  The
    Unicode case tables behind [strings.ToUpper] and [strings.EqualFold] are the
    [UnicodeTables] instance; the matcher's defensive copies of segment slices
    are value copies here. *)

From Stdlib Require Import ZArith Lia Bool List Ascii String.
From stdpp Require Import strings.
From S2P Require Import Prelude GoStd GoStr.

Open Scope Z_scope.

(** ** Data *)

Record Pattern := {
  Method : str;
  Segments : list str;
  Raw : str;
  Limit : Z;
  Group : str;
  Unlimited : bool;
}.

Inductive ParseError :=
| InvalidPattern (s : str)
| EmptyMethod (s : str)
| UnlimitedWithGroup (s group : str)
| PathWithoutSlash (s : str).

(** ** Parsing *)

(** Step 1 of [splitSegments]: '/'-separated segments, traversal resolved.
    Step 2: each one split on ':', empty pieces dropped. *)
Definition splitSegments (path : str) : list str :=
  let resolved := resolve_path path in
  concat (map (λ seg, List.filter (λ sub, negb (str_eqb sub [])) (Split ":" seg)) resolved).

Record PathLimitGroup := {
  plg_path : str;
  plg_limit : Z;
  plg_group : str;
  plg_unlimited : bool;
}.

(** [parsePathLimitGroup] *)
Definition parsePathLimitGroup (s : str) : PathLimitGroup :=
  let '(s1, group) :=
    match CutLast "@" s with
    | Some (before, after) =>
        if ContainsByte "/" ("@"%char :: after) then (s, []) else (before, after)
    | None => (s, [])
    end in
  match CutLast ":" s1 with
  | Some (before, candidate) =>
      if str_eqb candidate "unlimited" then
        {| plg_path := before; plg_limit := 0; plg_group := group; plg_unlimited := true |}
      else
        match Atoi candidate with
        | Some n =>
            if 0 <=? n then
              {| plg_path := before; plg_limit := n; plg_group := group; plg_unlimited := false |}
            else {| plg_path := s1; plg_limit := 0; plg_group := group; plg_unlimited := false |}
        | None => {| plg_path := s1; plg_limit := 0; plg_group := group; plg_unlimited := false |}
        end
  | None => {| plg_path := s1; plg_limit := 0; plg_group := group; plg_unlimited := false |}
  end.

Definition is_empty (s : str) : bool := match s with [] => true | _ => false end.

Section route.
Context `{UnicodeTables}.

(** [Parse] *)
Definition Parse (s0 : str) : result ParseError Pattern :=
  let s := TrimSpace s0 in
  match Cut " " s with
  | None => Err (InvalidPattern s)
  | Some (before, after) =>
      let method := ToUpper before in
      let rest := TrimSpace after in
      if is_empty method then Err (EmptyMethod s)
      else
        let r := parsePathLimitGroup rest in
        if plg_unlimited r && negb (is_empty (plg_group r)) then
          Err (UnlimitedWithGroup s (plg_group r))
        else if negb (HasPrefix (plg_path r) "/") then Err (PathWithoutSlash s)
        else Ok {| Method := method; Segments := splitSegments (plg_path r); Raw := s;
                   Limit := plg_limit r; Group := plg_group r; Unlimited := plg_unlimited r |}
  end.

(** ** Matching *)

(** [matchesSuffixSegments] *)
Definition matchesSuffixSegments (haystack needle : list str) : bool :=
  match needle with
  | [] => true
  | _ =>
      if (length haystack <? length needle)%nat then false
      else forallb (λ hv, EqualFold (fst hv) (snd hv))
             (combine (drop (length haystack - length needle) haystack) needle)
  end.

(** [Pattern.Match] *)
Definition Match (p : Pattern) (method path : str) : bool :=
  if negb (EqualFold method (Method p)) then false
  else
    match Segments p with
    | [] => match splitSegments path with [] => true | _ => false end
    | _ => matchesSuffixSegments (splitSegments path) (Segments p)
    end.

(** ** Matchers *)

Record Matcher := { patterns : list Pattern }.

Definition NewMatcher (ps : list Pattern) : Matcher := {| patterns := ps |}.

Definition AddPattern (p : Pattern) (m : Matcher) : Matcher :=
  {| patterns := patterns m ++ [p] |}.

(** [FindMatch]: the first matching pattern. *)
Definition FindMatch (m : Matcher) (method path : str) : option Pattern :=
  find (λ p, Match p method path) (patterns m).

Definition IsLimited (m : Matcher) (method path : str) : bool :=
  existsb (λ p, Match p method path) (patterns m).

Definition IsUnlimited (m : Matcher) (method path : str) : bool :=
  match FindMatch m method path with
  | Some pat => Unlimited pat
  | None => false
  end.

(** ** Built-in patterns *)

Definition defaultSpecs : list string :=
  ["POST /chat/completions"; "POST /completions"; "POST /responses";
   "POST /api/embeddings"; "POST /embeddings"; "POST /images/generations";
   "POST /images/edits"; "POST /images/variations"; "POST /audio/speech";
   "POST /audio/transcriptions"; "POST /audio/translations"; "POST /moderations";
   "POST /runs"; "POST /threads"; "POST /submit_tool_outputs";
   "POST /messages/batches"; "POST /batches"; "POST /realtime/sessions";
   "POST /realtime/transcript_sessions"; "POST /messages"; "POST /api/generate";
   "POST /api/chat"; "POST /generateContent"; "POST /streamGenerateContent"]%string.

(** [DefaultPatterns]; [None] is the panic on an invalid built-in. *)
Fixpoint parseAll (specs : list string) : option (list Pattern) :=
  match specs with
  | [] => Some []
  | s :: specs =>
      match Parse s with
      | Ok p => match parseAll specs with
                | Some ps => Some (p :: ps)
                | None => None
                end
      | Err _ => None
      end
  end.

Definition DefaultPatterns : option (list Pattern) := parseAll defaultSpecs.
End route.

(** ** Specifications *)

(** A printable ASCII byte other than space. *)
Definition graphic (c : ascii) : Prop := 33 <= code c <= 126.

(** The request path a default spec names: what follows its method. *)
Definition spec_path (s : string) : str := drop 5 (lit s).

(** ** Lemmas *)

Lemma graphic_not_space c : graphic c → c ≠ " "%char.
Proof. unfold graphic. intros H ->. vm_compute in H. destruct H. congruence. Qed.

Lemma graphic_ascii c : graphic c → is_ascii c = true.
Proof. unfold graphic, is_ascii. intros H. apply Z.ltb_lt. lia. Qed.

Lemma space_head_graphic c r : graphic c → space_head (c :: r) = None.
Proof.
  unfold graphic, space_head. intros H.
  repeat match goal with
  | |- context [code c =? ?n] => destruct (Z.eqb_spec (code c) n); [lia|]
  end.
  destruct (Z.leb_spec 9 (code c)), (Z.leb_spec (code c) 13); try lia; simpl;
    destruct r as [|b [|d r]]; done.
Qed.

Lemma space_last_graphic c r : graphic c → space_last (c :: r) = None.
Proof.
  intros H. unfold space_last. rewrite space_head_graphic by done.
  destruct r as [|b r]; [done|].
  assert (H2 : space_head [b; c] ≠ Some 2%nat).
  { unfold graphic in H. unfold space_head. case_match; [done|].
    destruct (Z.eqb_spec (code c) 133); [lia|]. destruct (Z.eqb_spec (code c) 160); [lia|].
    by rewrite andb_false_r. }
  assert (Hk : match r with
               | [] => None
               | d :: _ => match space_head [d; b; c] with Some 3%nat => Some 3%nat | _ => None end
               end = None).
  { destruct r as [|d r]; [done|]. unfold graphic in H. unfold space_head.
    repeat case_match; simplify_eq; try done; exfalso.
    destruct (Z.eqb_spec (code c) 128); [lia|]. destruct (Z.leb_spec 128 (code c)); [lia|].
    destruct (Z.eqb_spec (code c) 168); [lia|]. destruct (Z.eqb_spec (code c) 169); [lia|].
    destruct (Z.eqb_spec (code c) 175); [lia|]. destruct (Z.eqb_spec (code c) 159); [lia|].
    rewrite !andb_false_r in *. simpl in *. congruence. }
  destruct (space_head [b; c]) as [[|[|[|n]]]|]; done.
Qed.

Lemma trim_while_none f fuel s : f s = None → trim_while f fuel s = s.
Proof. intros H. destruct fuel; simpl; [done|]. by rewrite H. Qed.

(** Trimming keeps a string whose first and last bytes are graphic. *)
Lemma TrimSpace_graphic a s b :
  graphic a → graphic b → TrimSpace (a :: s ++ [b]) = a :: s ++ [b].
Proof.
  intros Ha Hb. unfold TrimSpace, TrimLeftSpace, TrimRightSpace.
  rewrite (trim_while_none space_head) by by apply space_head_graphic.
  assert (Hr : rev (a :: s ++ [b]) = b :: rev s ++ [a]) by (simpl; by rewrite rev_app_distr).
  rewrite Hr, trim_while_none by by apply space_last_graphic.
  rewrite <- Hr. apply rev_involutive.
Qed.

Lemma TrimSpace_graphic_all s : s ≠ [] → Forall graphic s → TrimSpace s = s.
Proof.
  intros Hn Hg. destruct s as [|a s]; [done|]. inversion Hg as [|? ? Ha Hs]; subst.
  destruct s as [|b s _] using rev_ind.
  - unfold TrimSpace, TrimLeftSpace, TrimRightSpace.
    rewrite (trim_while_none space_head) by by apply space_head_graphic.
    change (rev [a]) with [a]. by rewrite (trim_while_none space_last) by by apply space_last_graphic.
  - apply Forall_snoc_inv in Hs as [_ Hb]. by apply TrimSpace_graphic.
Qed.

Lemma forallb_ascii s : Forall graphic s → forallb is_ascii s = true.
Proof. induction 1 as [|c s Hc _ IH]; simpl; [done|]. by rewrite graphic_ascii, IH. Qed.

Lemma splitSegments_pieces path :
  Forall (λ seg, (seg ≠ []) ∧ ("/"%char ∉ seg) ∧ ":"%char ∉ seg) (splitSegments path).
Proof.
  unfold splitSegments. apply Forall_forall. intros seg Hin.
  apply list_elem_of_In, in_concat in Hin as (l & Hl & Hin).
  apply in_map_iff in Hl as (s & <- & Hs). apply filter_In in Hin as [Hin Hne].
  pose proof (resolve_path_plain path) as Hp. rewrite Forall_forall in Hp.
  destruct (Hp s) as (_ & _ & _ & Hslash); [by apply list_elem_of_In|].
  pose proof (Split_pieces ":" s) as Hc. rewrite Forall_forall in Hc.
  split; [by intros -> | split; [|by apply Hc, list_elem_of_In]].
  intros Hsl. apply Hslash. eapply Split_elem; [by apply list_elem_of_In | done].
Qed.

Lemma find_first {A} (f : A → bool) l x :
  find f l = Some x ↔ ∃ l1 l2, l = l1 ++ x :: l2 ∧ f x = true ∧ Forall (λ y, f y = false) l1.
Proof.
  induction l as [|a l IH]; simpl.
  - split; [done|]. intros (l1 & l2 & Hl & _). by destruct l1.
  - destruct (f a) eqn:E; split.
    + intros [= ->]. by exists [], l.
    + intros (l1 & l2 & Hl & Hf & Hall). destruct l1 as [|b l1]; injection Hl as -> ->; [done|].
      inversion Hall. congruence.
    + intros (l1 & l2 & -> & Hf & Hall)%IH. exists (a :: l1), l2.
      split; [done|]. split; [done|]. by constructor.
    + intros (l1 & l2 & Hl & Hf & Hall). destruct l1 as [|b l1]; injection Hl as -> ->; [congruence|].
      inversion Hall; subst. apply IH. by exists l1, l2.
Qed.

Lemma forallb_combine {A B} (f : A → B → bool) (l : list A) (k : list B) :
  length l = length k →
  forallb (λ hv, f (fst hv) (snd hv)) (combine l k) = true ↔ Forall2 (λ a b, f a b = true) l k.
Proof.
  revert k. induction l as [|a l IH]; intros [|b k] Hl; simpl in *; try done.
  rewrite andb_true_iff, IH by lia. split; [intros [? ?]; by constructor | by inversion 1].
Qed.

Section route_lemmas.
Context `{UnicodeTables}.

Lemma matchesSuffixSegments_spec h n :
  matchesSuffixSegments h n = true ↔
  ∃ pre suf, h = pre ++ suf ∧ Forall2 (λ a b, EqualFold a b = true) suf n.
Proof.
  destruct n as [|x n]; simpl.
  - split; [|done]. intros _. exists h, []. split; [by rewrite app_nil_r | constructor].
  - destruct (Nat.ltb_spec (length h) (S (length n))) as [Hlt|Hge].
    + split; [done|]. intros (pre & suf & -> & Hf). apply Forall2_length in Hf.
      rewrite length_app in Hlt. simpl in Hf. lia.
    + rewrite forallb_combine by (rewrite length_drop; simpl; lia). split.
      * intros Hf. exists (take (length h - S (length n)) h), (drop (length h - S (length n)) h).
        by rewrite take_drop.
      * intros (pre & suf & -> & Hf). pose proof (Forall2_length _ _ _ Hf) as Hl. simpl in Hl.
        rewrite length_app. replace (length pre + length suf - S (length n))%nat with (length pre) by lia.
        by rewrite drop_app_length.
Qed.

Lemma ToUpper_graphic s : Forall graphic s → ToUpper s = map upper_ascii s.
Proof. intros Hg. unfold ToUpper. by rewrite forallb_ascii. Qed.
End route_lemmas.

(** The result of [parsePathLimitGroup] for each documented suffix form. *)
Lemma parse_plain p :
  "@"%char ∉ p → ":"%char ∉ p →
  parsePathLimitGroup p = {| plg_path := p; plg_limit := 0; plg_group := []; plg_unlimited := false |}.
Proof. intros Ha Hc. unfold parsePathLimitGroup. by rewrite (CutLast_none "@"), (CutLast_none ":"). Qed.

Lemma parse_limit_group p d n g :
  "@"%char ∉ p → "@"%char ∉ d → ":"%char ∉ d → "@"%char ∉ g → "/"%char ∉ g →
  Atoi d = Some n → 0 <= n → d ≠ lit "unlimited" →
  parsePathLimitGroup (p ++ ":"%char :: d ++ "@"%char :: g) =
    {| plg_path := p; plg_limit := n; plg_group := g; plg_unlimited := false |}.
Proof.
  intros Hp Hd Hdc Hg Hgs Hn H0 Hu. unfold parsePathLimitGroup.
  replace (p ++ ":"%char :: d ++ "@"%char :: g) with ((p ++ ":"%char :: d) ++ "@"%char :: g)
    by (by rewrite <- app_assoc).
  rewrite CutLast_app by done.
  assert (ContainsByte "/" ("@"%char :: g) = false) as ->.
  { destruct (ContainsByte "/" ("@"%char :: g)) eqn:E; [|done].
    apply ContainsByte_elem, elem_of_cons in E as [|]; done. }
  rewrite CutLast_app by done. rewrite str_eqb_neq, Hn by done.
  by destruct (Z.leb_spec 0 n); [|lia].
Qed.

Lemma parse_limit p d n :
  "@"%char ∉ p → "@"%char ∉ d → ":"%char ∉ d →
  Atoi d = Some n → 0 <= n → d ≠ lit "unlimited" →
  parsePathLimitGroup (p ++ ":"%char :: d) =
    {| plg_path := p; plg_limit := n; plg_group := []; plg_unlimited := false |}.
Proof.
  intros Hp Hd Hdc Hn H0 Hu. unfold parsePathLimitGroup.
  rewrite (CutLast_none "@") by (rewrite elem_of_app, elem_of_cons; intuition congruence).
  rewrite CutLast_app by done. rewrite str_eqb_neq, Hn by done.
  by destruct (Z.leb_spec 0 n); [|lia].
Qed.

Lemma parse_unlimited p :
  "@"%char ∉ p →
  parsePathLimitGroup (p ++ ":"%char :: lit "unlimited") =
    {| plg_path := p; plg_limit := 0; plg_group := []; plg_unlimited := true |}.
Proof.
  intros Hp. unfold parsePathLimitGroup.
  assert (Hl : Forall (λ c, c ≠ "@"%char ∧ c ≠ ":"%char) (lit "unlimited")) by (repeat constructor; done).
  rewrite Forall_forall in Hl.
  rewrite (CutLast_none "@").
  - rewrite CutLast_app; [done|]. intros Hin. by apply Hl in Hin as [_ ?].
  - rewrite elem_of_app, elem_of_cons. intros [?|[?|Hin]]; [done|done|]. by apply Hl in Hin as [? _].
Qed.

Section parse_lemmas.
Context `{UnicodeTables}.

(** [Parse] on ["METHOD rest"] for graphic texts. *)
Lemma Parse_unfold m rest :
  m ≠ [] → rest ≠ [] → Forall graphic m → Forall graphic rest →
  Parse (m ++ " "%char :: rest) =
    let r := parsePathLimitGroup rest in
    let s := m ++ " "%char :: rest in
    if plg_unlimited r && negb (is_empty (plg_group r)) then Err (UnlimitedWithGroup s (plg_group r))
    else if negb (HasPrefix (plg_path r) "/") then Err (PathWithoutSlash s)
    else Ok {| Method := map upper_ascii m; Segments := splitSegments (plg_path r); Raw := s;
               Limit := plg_limit r; Group := plg_group r; Unlimited := plg_unlimited r |}.
Proof.
  intros Hm Hr Hgm Hgr. unfold Parse.
  assert (Htrim : TrimSpace (m ++ " "%char :: rest) = m ++ " "%char :: rest).
  { destruct m as [|a m]; [done|]. destruct rest as [|b r _] using rev_ind; [done|].
    inversion Hgm; subst. apply Forall_snoc_inv in Hgr as [_ Hb].
    replace ((a :: m) ++ " "%char :: r ++ [b]) with (a :: (m ++ " "%char :: r) ++ [b])
      by (simpl; by rewrite <- app_assoc).
    by apply TrimSpace_graphic. }
  rewrite Htrim, Cut_app.
  - rewrite ToUpper_graphic, TrimSpace_graphic_all by done.
    destruct m as [|a m]; [done|]. done.
  - intros Hin. rewrite Forall_forall in Hgm. by apply (graphic_not_space " "%char (Hgm _ Hin)).
Qed.
End parse_lemmas.

(** ** Properties *)

Section properties.
Context `{UnicodeTables}.

(** parsing inverts the documented notation: a method and an absolute path
    written alone, with [:limit], [:limit@group] or [:unlimited], parse to
    exactly that method (upper-cased), those segments, that limit and group. *)
Theorem Parse_notation_roundtrip m p d n g :
  m ≠ [] → Forall graphic (m ++ p ++ d ++ g) → HasPrefix p "/" = true →
  "@"%char ∉ p → ":"%char ∉ p → "@"%char ∉ d → ":"%char ∉ d → "@"%char ∉ g → "/"%char ∉ g →
  Atoi d = Some n → 0 <= n → d ≠ lit "unlimited" →
  let pat raw limit group unl :=
    Ok {| Method := map upper_ascii m; Segments := splitSegments p; Raw := raw;
          Limit := limit; Group := group; Unlimited := unl |} in
  let s0 := m ++ " "%char :: p in
  Parse s0 = pat s0 0 [] false ∧
  Parse (s0 ++ ":"%char :: d) = pat (s0 ++ ":"%char :: d) n [] false ∧
  Parse (s0 ++ ":"%char :: d ++ "@"%char :: g) = pat (s0 ++ ":"%char :: d ++ "@"%char :: g) n g false ∧
  Parse (s0 ++ ":"%char :: lit "unlimited") = pat (s0 ++ ":"%char :: lit "unlimited") 0 [] true.
Proof.
  intros Hm Hg Hp Hpa Hpc Hda Hdc Hga Hgs Hn H0 Hu pat s0. subst pat s0. cbv zeta.
  rewrite !Forall_app in Hg. destruct Hg as (Hgm & Hgp & Hgd & Hgg).
  assert (Hpn : p ≠ []) by (by intros ->).
  assert (Hcolon : graphic ":") by (vm_compute; split; congruence).
  assert (Hat : graphic "@") by (vm_compute; split; congruence).
  assert (Hunl : Forall graphic (lit "unlimited")) by (repeat constructor; vm_compute; congruence).
  assert (Happ : ∀ t, (m ++ " "%char :: p) ++ t = m ++ " "%char :: p ++ t) by (intros; by rewrite <- app_assoc).
  assert (Hne : ∀ t, p ++ t ≠ []) by (intros t; by destruct p).
  rewrite !Happ.
  split; [|split; [|split]]; rewrite Parse_unfold by (done || rewrite ?Forall_app, ?Forall_cons, ?Forall_app, ?Forall_cons; tauto).
  - rewrite parse_plain by done. cbn -[HasPrefix lit]. by rewrite Hp.
  - rewrite (parse_limit p d n) by done. cbn -[HasPrefix lit]. by rewrite Hp.
  - rewrite (parse_limit_group p d n g) by done. cbn -[HasPrefix lit]. by rewrite Hp.
  - rewrite parse_unlimited by done. cbn -[HasPrefix lit]. by rewrite Hp.
Qed.

(** a request matches a pattern exactly when the methods are equal up to
    case and the pattern's segments are, up to case, the trailing segments of
    the resolved request path (the empty pattern matches only the root). *)
Theorem Match_trailing_segments p method path :
  Match p method path = true ↔
  EqualFold method (Method p) = true ∧
  ∃ pre suf, splitSegments path = pre ++ suf ∧
    Forall2 (λ a b, EqualFold a b = true) suf (Segments p) ∧
    (Segments p = [] → pre = []).
Proof.
  unfold Match. destruct (EqualFold method (Method p)) eqn:E; simpl; [|by split; [|intros []]].
  destruct (Segments p) as [|x xs] eqn:Hs.
  - destruct (splitSegments path) as [|y ys] eqn:Ep.
    + split; [|done]. intros _. split; [done|]. exists [], []. by repeat constructor.
    + split; [done|]. intros (_ & pre & suf & Hl & Hf & Hp). inversion Hf; subst.
      by rewrite (Hp eq_refl) in Hl.
  - rewrite matchesSuffixSegments_spec. split.
    + intros (pre & suf & Hl & Hf). split; [done|]. by exists pre, suf.
    + intros (_ & pre & suf & Hl & Hf & _). by exists pre, suf.
Qed.

(** a request's class and its limiter come from the same pattern: the one
    [FindMatch] returns is the first matching pattern in configuration order,
    the request is limited exactly when there is one, and it is exempt exactly
    when that first pattern is unlimited. *)
Theorem admission_class_agrees m method path :
  (∀ p, FindMatch m method path = Some p ↔
     ∃ l1 l2, patterns m = l1 ++ p :: l2 ∧ Match p method path = true ∧
       Forall (λ q, Match q method path = false) l1) ∧
  (IsLimited m method path = true ↔ ∃ p, FindMatch m method path = Some p) ∧
  (IsUnlimited m method path = true ↔
     ∃ p, FindMatch m method path = Some p ∧ Unlimited p = true) ∧
  (IsUnlimited m method path = true → IsLimited m method path = true).
Proof.
  assert (Hlim : IsLimited m method path = true ↔ ∃ p, FindMatch m method path = Some p).
  { unfold IsLimited, FindMatch. rewrite existsb_exists. split.
    - intros (p & Hin & Hm). destruct (find (λ p, Match p method path) (patterns m)) eqn:E; [eauto|].
      by rewrite (find_none _ _ E p Hin) in Hm.
    - intros [p Hp]. apply find_some in Hp. eauto. }
  assert (Hunl : IsUnlimited m method path = true ↔
     ∃ p, FindMatch m method path = Some p ∧ Unlimited p = true).
  { unfold IsUnlimited. destruct (FindMatch m method path) as [p|]; [|by split; [|intros (? & ? & ?)]].
    split; [eauto | by intros (? & [= ->] & ?)]. }
  split; [intros p; exact (find_first (λ q, Match q method path) _ p)|]. split; [done|]. split; [done|].
  rewrite Hunl, Hlim. intros (p & Hp & _). by exists p.
Qed.

(** path traversal cannot change how a request is classified: inserting a
    segment and its ["..": parent] at the end of the path leaves the resolved
    segments, hence every match, unchanged; and resolved segments never contain
    a slash, a colon or an empty piece. *)
Theorem traversal_is_neutral path seg p method :
  plain_segment seg →
  let path' := path ++ "/"%char :: seg ++ "/"%char :: lit ".." in
  splitSegments path' = splitSegments path ∧ Match p method path' = Match p method path ∧
  Forall (λ s, (s ≠ []) ∧ ("/"%char ∉ s) ∧ ":"%char ∉ s) (splitSegments path').
Proof.
  intros Hs path'. assert (He : splitSegments path' = splitSegments path).
  { unfold splitSegments, path'. by rewrite resolve_path_dotdot. }
  split; [done|]. split; [unfold Match; by rewrite He|]. apply splitSegments_pieces.
Qed.

(** the built-in patterns all parse (building them never panics), are plain
    POST patterns, and none is shadowed by an earlier one: each one is the first
    match for its own path, also below a version prefix. *)
Theorem default_patterns_not_shadowed :
  ∃ ps, DefaultPatterns = Some ps ∧ length ps = 24%nat ∧
    Forall (λ p, Method p = lit "POST" ∧ Limit p = 0 ∧ Group p = [] ∧ Unlimited p = false) ps ∧
    Forall2 (λ s p, FindMatch (NewMatcher ps) "POST" (spec_path s) = Some p ∧
                    FindMatch (NewMatcher ps) "POST" (lit "/v1" ++ spec_path s) = Some p)
      defaultSpecs ps.
Proof.
  eexists. split; [vm_compute; reflexivity|]. split; [reflexivity|].
  split; [repeat constructor|]. repeat (constructor; [split; vm_compute; reflexivity|]). constructor.
Qed.
End properties.

(** ** Witnesses *)

Lemma Parse_notation_roundtrip_witness :
  Parse (lit "post /v1/messages:4@anthropic") =
    Ok {| Method := "POST"; Segments := [lit "v1"; lit "messages"];
          Raw := "post /v1/messages:4@anthropic"; Limit := 4; Group := "anthropic"; Unlimited := false |}.
Proof.
  destruct (Parse_notation_roundtrip (lit "post") (lit "/v1/messages") (lit "4") 4 (lit "anthropic"))
    as (_ & _ & H & _).
  - discriminate.
  - repeat constructor; vm_compute; congruence.
  - reflexivity.
  - by apply (bool_decide_eq_true_1 _); vm_compute.
  - by apply (bool_decide_eq_true_1 _); vm_compute.
  - by apply (bool_decide_eq_true_1 _); vm_compute.
  - by apply (bool_decide_eq_true_1 _); vm_compute.
  - by apply (bool_decide_eq_true_1 _); vm_compute.
  - by apply (bool_decide_eq_true_1 _); vm_compute.
  - reflexivity.
  - lia.
  - discriminate.
  - exact H.
Defined.

Lemma traversal_is_neutral_witness :
  splitSegments (lit "/v1/messages" ++ "/"%char :: lit "batches" ++ "/"%char :: lit "..") =
  splitSegments (lit "/v1/messages").
Proof.
  apply (traversal_is_neutral (lit "/v1/messages") (lit "batches")
    {| Method := "POST"; Segments := [lit "messages"]; Raw := []; Limit := 0; Group := []; Unlimited := false |}
    (lit "POST")).
  split; [discriminate|]. split; [discriminate|]. split; [discriminate|].
  by apply (bool_decide_eq_true_1 _); vm_compute.
Defined.
