(* ===== verification/Router.v ===== *)
(** * Prefix-mount dispatch ([src/internal/router/router.go])

    The router over a list of providers, each mounted at a path prefix.  A
    provider's handler is a value of an abstract type [T] ([None] is a nil
    handler); serving a request yields the handler called with the rewritten
    request, a 404, or the panic of dereferencing a nil [URL]. *)

From Stdlib Require Import ZArith Lia Bool List Ascii String.
From stdpp Require Import strings.
From S2P Require Import Prelude GoStd GoStr Route.

Open Scope Z_scope.

(** ** Data *)

Section router.
Context {T : Type}.

Record Provider := {
  Name : str;
  Prefix : str;
  Proxy : option T;
}.

Record Handler := {
  providers : list Provider;
  bare : option Provider;
}.

Inductive NewError :=
| NoProvider
| NilProxy (i : nat)
| TwoBareRoots
| BareWithOthers (name : str)
| PrefixesOverlap (a b : Provider).

Record URL := { Path : str; RawPath : str }.
Record Request := { r_URL : option URL }.

Inductive Outcome :=
| Delegate (p : T) (r : Request)
| NilHandler
| NotFound
| NilDereference.

(** ** Paths *)

Definition segments (path : str) : list str := resolve_path path.

Definition joinSegments (segs : list str) : str :=
  match segs with
  | [] => lit "/"
  | _ => concat (map (λ s, "/"%char :: s) segs)
  end.

Definition normalizePrefix (prefix : str) : str :=
  if str_eqb prefix [] || str_eqb prefix "/" then [] else TrimSuffix prefix "/".

Fixpoint segs_prefix (a b : list str) : bool :=
  match a, b with
  | [], _ => true
  | x :: a, y :: b => str_eqb x y && segs_prefix a b
  | _ :: _, [] => false
  end.

Definition prefixesOverlap (a b : str) : bool :=
  let '(as_, bs) := (segments a, segments b) in
  if (length bs <? length as_)%nat then segs_prefix bs as_ else segs_prefix as_ bs.

(** ** Construction *)

Definition set_Prefix (s : str) (p : Provider) : Provider :=
  {| Name := Name p; Prefix := s; Proxy := Proxy p |}.

(** The validation loop: normalises each prefix and remembers the bare root. *)
Fixpoint validate (i : nat) (bare_ : option Provider) (ps : list Provider)
    : result NewError (list Provider * option Provider) :=
  match ps with
  | [] => Ok ([], bare_)
  | p :: ps =>
      match Proxy p with
      | None => Err (NilProxy i)
      | Some _ =>
          let p := set_Prefix (normalizePrefix (Prefix p)) p in
          match Prefix p, bare_ with
          | [], Some _ => Err TwoBareRoots
          | [], None =>
              r <-? validate (S i) (Some p) ps ;; Ok (p :: fst r, snd r)
          | _, _ =>
              r <-? validate (S i) bare_ ps ;; Ok (p :: fst r, snd r)
          end
      end
  end.

(** The first overlapping pair, in the order of the nested loops. *)
Fixpoint find_overlap (ps : list Provider) : option (Provider * Provider) :=
  match ps with
  | [] => None
  | a :: ps =>
      match find (λ b, prefixesOverlap (Prefix a) (Prefix b)) ps with
      | Some b => Some (a, b)
      | None => find_overlap ps
      end
  end.

Definition New (ps : list Provider) : result NewError Handler :=
  match ps with
  | [] => Err NoProvider
  | _ =>
      r <-? validate 0 None ps ;;
      let '(qs, bare_) := r in
      match bare_ with
      | Some b =>
          if (1 <? length qs)%nat then Err (BareWithOthers (Name b))
          else match find_overlap qs with
               | Some (a, c) => Err (PrefixesOverlap a c)
               | None => Ok {| providers := qs; bare := bare_ |}
               end
      | None =>
          match find_overlap qs with
          | Some (a, c) => Err (PrefixesOverlap a c)
          | None => Ok {| providers := qs; bare := bare_ |}
          end
      end
  end.

(** ** Dispatch *)

Definition delegate (p : Provider) (r : Request) : Outcome :=
  match Proxy p with
  | Some h => Delegate h r
  | None => NilHandler
  end.

(** The shallow clone with the rewritten path. *)
Definition rewritten (segs : list str) (r : Request) : Request :=
  match r_URL r with
  | Some _ => {| r_URL := Some {| Path := joinSegments segs; RawPath := [] |} |}
  | None => r
  end.

Fixpoint dispatch (ps : list Provider) (segs : list str) (r : Request) : Outcome :=
  match ps with
  | [] => NotFound
  | p :: ps =>
      let pre := segments (Prefix p) in
      if (length segs <? length pre)%nat then dispatch ps segs r
      else if negb (segs_prefix pre segs) then dispatch ps segs r
      else delegate p (rewritten (drop (length pre) segs) r)
  end.

Definition ServeHTTP (h : Handler) (r : Request) : Outcome :=
  match bare h with
  | Some p =>
      match r_URL r with
      | Some u => delegate p (rewritten (segments (Path u)) r)
      | None => delegate p r
      end
  | None =>
      match r_URL r with
      | None => NilDereference
      | Some u => dispatch (providers h) (segments (Path u)) r
      end
  end.
End router.
Arguments Provider : clear implicits.
Arguments Handler : clear implicits.
Arguments NewError : clear implicits.
Arguments Outcome : clear implicits.

(** ** Specifications *)

Section specifications.
Context {T : Type}.

(** The normalised provider [New] stores. *)
Definition normalized (p : Provider T) : Provider T := set_Prefix (normalizePrefix (Prefix p)) p.

Definition disjoint_mounts (ps : list (Provider T)) : Prop :=
  ∀ i j p q, i ≠ j → ps !! i = Some p → ps !! j = Some q → prefixesOverlap (Prefix p) (Prefix q) = false.

(** The request reaches [p]'s mount, leaving [rest]. *)
Definition mounts (p : Provider T) (path : str) (rest : list str) : Prop :=
  segments path = segments (Prefix p) ++ rest.

End specifications.

(** A sample configuration. *)
Definition example_mounts : list (Provider nat) :=
  [{| Name := "acme"; Prefix := "/acme/"; Proxy := Some 1%nat |};
   {| Name := "beta"; Prefix := "/beta/v2"; Proxy := Some 2%nat |}].

Definition example_router : Handler nat :=
  Eval vm_compute in match New example_mounts with Ok h => h | Err _ => {| providers := []; bare := None |} end.

(** ** Lemmas *)

Lemma Split_joined segs :
  Forall (λ s, "/"%char ∉ s) segs → segs ≠ [] →
  Split "/" (concat (map (λ s, "/"%char :: s) segs)) = [] :: segs.
Proof.
  intros Hs Hn. destruct segs as [|a segs]; [done|]. clear Hn. simpl. f_equal.
  revert a Hs. induction segs as [|b segs IH]; intros a Hs; inversion Hs; subst; simpl.
  - rewrite app_nil_r. by apply Split_no_sep.
  - rewrite Split_app_sep by done. by rewrite IH.
Qed.

Lemma plain_no_slash segs : Forall plain_segment segs → Forall (λ s, "/"%char ∉ s) segs.
Proof. intros Hs. eapply Forall_impl; [exact Hs|]. by intros s (_ & _ & _ & ?). Qed.

Lemma segments_joinSegments segs :
  Forall plain_segment segs → segments (joinSegments segs) = segs.
Proof.
  intros Hs. destruct segs as [|a segs]; [reflexivity|].
  unfold segments, resolve_path. unfold joinSegments.
  rewrite Split_joined by (done || by apply plain_no_slash). simpl.
  inversion Hs; subst. rewrite (resolve_step_plain []) by done. by rewrite fold_resolve_plain.
Qed.

Lemma segs_prefix_app a b : segs_prefix a b = true ↔ ∃ r, b = a ++ r.
Proof.
  revert b. induction a as [|x a IH]; intros b; simpl; [split; eauto|].
  destruct b as [|y b]; [split; [done | by intros []]|].
  rewrite andb_true_iff, str_eqb_eq, IH. split.
  - intros (-> & r & ->). by exists r.
  - intros (r & [= -> ->]). eauto.
Qed.

Lemma prefixesOverlap_spec a b :
  prefixesOverlap a b = true ↔
  (∃ r, segments b = segments a ++ r) ∨ (∃ r, segments a = segments b ++ r).
Proof.
  unfold prefixesOverlap. destruct (Nat.ltb_spec (length (segments b)) (length (segments a))) as [Hl|Hl];
    rewrite segs_prefix_app; split; try tauto; intros [[r Hr]|[r Hr]]; eauto;
    rewrite Hr, length_app in Hl.
  - lia.
  - assert (r = []) as -> by (destruct r; [done | simpl in Hl; lia]).
    rewrite app_nil_r in *. exists []. by rewrite app_nil_r.
Qed.

(** Dropping one trailing slash does not change what a prefix resolves to. *)
Lemma segments_normalizePrefix p : segments (normalizePrefix p) = segments p.
Proof.
  unfold normalizePrefix. destruct (str_eqb p [] || str_eqb p "/") eqn:E.
  - apply orb_prop in E as [->%str_eqb_eq | ->%str_eqb_eq]; reflexivity.
  - unfold TrimSuffix, TrimPrefix. destruct (strip_prefix (rev "/") (rev p)) as [r|] eqn:Es.
    + apply strip_prefix_app in Es. apply (f_equal (@rev ascii)) in Es.
      rewrite rev_involutive in Es. subst p. simpl. unfold segments, resolve_path.
      by rewrite Split_app, fold_left_app.
    + by rewrite rev_involutive.
Qed.

Section router_lemmas.
Context {T : Type}.
Implicit Types (p q : Provider T) (ps : list (Provider T)) (h : Handler T).

Lemma prefixesOverlap_comm a b : prefixesOverlap a b = prefixesOverlap b a.
Proof.
  apply eq_bool_prop_intro. rewrite !Is_true_true, !prefixesOverlap_spec. tauto.
Qed.

Lemma disjoint_mounts_cons p ps :
  disjoint_mounts (p :: ps) ↔
  Forall (λ q, prefixesOverlap (Prefix p) (Prefix q) = false) ps ∧ disjoint_mounts ps.
Proof.
  split.
  - intros Hd. split.
    + apply Forall_lookup. intros j q Hq. by apply (Hd 0%nat (S j) p q).
    + intros i j a b Hij Ha Hb. by apply (Hd (S i) (S j) a b); [congruence|..].
  - intros [Hf Hd] [|i] [|j] a b Hij Ha Hb; simpl in *; simplify_eq.
    + rewrite Forall_lookup in Hf. by eapply Hf.
    + rewrite prefixesOverlap_comm. rewrite Forall_lookup in Hf. by eapply Hf.
    + apply (Hd i j); congruence.
Qed.

Lemma find_overlap_none ps : find_overlap ps = None ↔ disjoint_mounts ps.
Proof.
  induction ps as [|p ps IH]; simpl.
  - split; [by intros _ ? ? ? ? _|done].
  - rewrite disjoint_mounts_cons, <- IH, Forall_forall.
    destruct (find _ ps) as [q|] eqn:E.
    + split; [done|]. intros [Hf _]. apply find_some in E as [Hin Ho].
      rewrite Hf in Ho; [done | by apply list_elem_of_In].
    + split; [|tauto]. intros Hn. split; [|done]. intros q Hq.
      apply (find_none _ _ E). by apply list_elem_of_In.
Qed.

Lemma disjoint_mounts_map ps : disjoint_mounts (map normalized ps) ↔ disjoint_mounts ps.
Proof.
  unfold disjoint_mounts, prefixesOverlap. setoid_rewrite list_lookup_fmap. split; intros Hd i j p q Hij Hp Hq.
  - specialize (Hd i j (normalized p) (normalized q) Hij). rewrite Hp, Hq in Hd.
    specialize (Hd eq_refl eq_refl). simpl in Hd. by rewrite !segments_normalizePrefix in Hd.
  - destruct (ps !! i) as [p'|] eqn:Hi; [|done]. destruct (ps !! j) as [q'|] eqn:Hj; [|done].
    simpl in Hp, Hq. simplify_eq. simpl. rewrite !segments_normalizePrefix. by apply (Hd i j).
Qed.

(** What the validation loop accepts: no nil handler, at most one bare root
    (counting [b], the one met before). *)
Lemma validate_ok i b ps qs b' :
  validate i b ps = Ok (qs, b') ↔
  Forall (λ p, Proxy p ≠ None) ps ∧ qs = map normalized ps ∧
  (option_list b ++ List.filter (λ p, str_eqb (Prefix p) []) qs = option_list b').
Proof.
  revert i b qs b'. induction ps as [|p ps IH]; intros i b qs b'; simpl.
  - split.
    + intros [= <- <-]. split; [constructor|]. split; [done|]. simpl. apply app_nil_r.
    + intros (_ & -> & Hb). simpl in Hb. rewrite app_nil_r in Hb. by destruct b, b'; simplify_eq/=.
  - rewrite Forall_cons. destruct (Proxy p) as [t|] eqn:Ep; [|by split; [|intros ((? & _) & _)]].
    assert (Hp : Some t ≠ None) by done.
    assert (Hgo : ∀ c,
      (r <-? validate (S i) c ps;; Ok (normalized p :: fst r, snd r)) = Ok (qs, b') ↔
      Forall (λ p, Proxy p ≠ None) ps ∧ qs = map normalized (p :: ps) ∧
      option_list c ++ List.filter (λ p, str_eqb (Prefix p) []) (map normalized ps) = option_list b').
    { intros c. rewrite result_bind_ok. split.
      - intros ([qs' b''] & (Hf & -> & Hb)%IH & [= <- <-]). done.
      - intros (Hf & -> & Hb). exists (map normalized ps, b'). rewrite IH. done. }
    fold (normalized p). simpl in Hgo. change (set_Prefix (normalizePrefix (Prefix p)) p) with (normalized p) in *.
    destruct (normalizePrefix (Prefix p)) as [|c s] eqn:Epre.
    + destruct b as [b|].
      * split; [done|]. intros (_ & -> & Hb). simpl in Hb. rewrite Epre in Hb.
        simpl in Hb. by destruct b'.
      * rewrite Hgo. simpl. split; intros (Hf & -> & Hb); (split; [tauto|]); (split; [done|]);
          simpl in *; by rewrite Epre in *.
    + rewrite Hgo. split; intros (Hf & -> & Hb); (split; [tauto|]); (split; [done|]);
        simpl in *; by rewrite Epre in *.
Qed.

(** Two empty prefixes are never disjoint from anything. *)
Lemma disjoint_bare_single p ps :
  disjoint_mounts ps → p ∈ ps → Prefix p = [] → ps = [p].
Proof.
  intros Hd Hin Hp. apply list_elem_of_lookup in Hin as [i Hi].
  assert (Hlen : ∀ j q, ps !! j = Some q → j = i).
  { intros j q Hj. destruct (decide (i = j)) as [|Hn]; [done|].
    specialize (Hd i j p q Hn Hi Hj). exfalso.
    assert (Ho : prefixesOverlap (Prefix p) (Prefix q) = true); [|congruence].
    apply prefixesOverlap_spec. left. rewrite Hp. exists (segments (Prefix q)). reflexivity. }
  destruct ps as [|a [|b ps]]; [done| |].
  - assert (i = 0)%nat as -> by (symmetry; by eapply Hlen). by simplify_eq/=.
  - specialize (Hlen 0%nat a eq_refl) as Ha. specialize (Hlen 1%nat b eq_refl). lia.
Qed.

(** Everything [New] establishes, and when it succeeds. *)
Lemma New_ok_spec ps h :
  New ps = Ok h ↔
  ps ≠ [] ∧ Forall (λ p, Proxy p ≠ None) ps ∧ disjoint_mounts ps ∧
  h = {| providers := map normalized ps;
         bare := head (List.filter (λ p, str_eqb (Prefix p) []) (map normalized ps)) |}.
Proof.
  assert (Hmap : New ps = Ok h ↔ ps ≠ [] ∧ ∃ b, validate 0 None ps = Ok (map normalized ps, b) ∧
     disjoint_mounts ps ∧ (b = None ∨ length ps = 1%nat) ∧
     h = {| providers := map normalized ps; bare := b |}).
  { assert (Hov : disjoint_mounts ps ↔ find_overlap (map normalized ps) = None)
      by by rewrite find_overlap_none, disjoint_mounts_map.
    setoid_rewrite Hov. unfold New. destruct ps as [|p ps]; [by split; [|intros []]|].
    destruct (validate 0 None (p :: ps)) as [[qs b]|e] eqn:E.
    - pose proof E as (_ & -> & _)%validate_ok. cbn [result_bind]. destruct b as [b|].
      + destruct (Nat.ltb_spec 1 (length (map normalized (p :: ps)))) as [Hl|Hl].
        * split; [done|]. intros (_ & ? & [= <-] & _ & [?|Hl'] & _); [done|].
          rewrite length_map in Hl. simpl in *. lia.
        * rewrite length_map in Hl. destruct (find_overlap _) as [[a c]|] eqn:Eo.
          -- split; [done|]. by intros (_ & ? & _ & ? & _).
          -- split; [|by intros (_ & ? & [= <-] & _ & _ & ->)]. intros [= <-]. split; [done|].
             exists (Some b). split; [done|]. split; [done|]. split; [right; simpl in *; lia|done].
      + destruct (find_overlap _) as [[a c]|] eqn:Eo.
        * split; [done|]. by intros (_ & ? & _ & ? & _).
        * split; [|by intros (_ & ? & [= <-] & _ & _ & ->)]. intros [= <-]. split; [done|].
          exists None. tauto.
    - split; [done|]. by intros (_ & ? & ? & _). }
  rewrite Hmap. clear Hmap. setoid_rewrite validate_ok. split.
  - intros (Hn & b & (Hf & _ & Hb) & Hd & _ & ->). simpl in Hb. rewrite Hb.
    by destruct b.
  - intros (Hn & Hf & Hd & ->). split; [done|].
    set (l := List.filter _ _). destruct l as [|a l'] eqn:El.
    + exists None. tauto.
    + assert (Ha : a ∈ map normalized ps ∧ Prefix a = []).
      { assert (a ∈ l) as Ha by (rewrite El; left). subst l.
        apply list_elem_of_In, filter_In in Ha as [Ha ->%str_eqb_eq%eq_sym].
        split; [by apply list_elem_of_In | done]. }
      destruct Ha as [Ha Hp]. apply disjoint_mounts_map in Hd as Hd'.
      pose proof (disjoint_bare_single a _ Hd' Ha Hp) as Hone.
      exists (Some a). split.
      * split; [done|]. split; [done|]. simpl. fold l.
        subst l. rewrite Hone in El. simpl in El. by rewrite Hp in El.
      * split; [done|]. split; [right|done]. by rewrite <- (length_map normalized), Hone.
Qed.

Lemma mounts_overlap p q path rest rest' :
  mounts p path rest → mounts q path rest' → prefixesOverlap (Prefix p) (Prefix q) = true.
Proof.
  unfold mounts. intros Hp Hq. rewrite Hp in Hq. apply prefixesOverlap_spec.
  apply app_eq_inv in Hq as [(k & -> & _)|(k & -> & _)]; eauto.
Qed.

Lemma mounts_normalized p path rest : mounts (normalized p) path rest ↔ mounts p path rest.
Proof. unfold mounts. simpl. by rewrite segments_normalizePrefix. Qed.

(** Disjointness as the request sees it: no path reaches two mounts. *)
Lemma disjoint_mounts_paths ps :
  disjoint_mounts ps ↔
  ∀ i j p q path rest rest', ps !! i = Some p → ps !! j = Some q →
    mounts p path rest → mounts q path rest' → i = j.
Proof.
  split.
  - intros Hd i j p q path rest rest' Hi Hj Hp Hq.
    destruct (decide (i = j)) as [|Hn]; [done|]. specialize (Hd i j p q Hn Hi Hj).
    by rewrite (mounts_overlap p q path rest rest') in Hd.
  - intros Hu i j p q Hn Hi Hj. destruct (prefixesOverlap (Prefix p) (Prefix q)) eqn:E; [|done].
    exfalso. apply Hn. apply prefixesOverlap_spec in E as [[r Hr]|[r Hr]].
    + apply (Hu i j p q (Prefix q) r []); [done|done|done|]. unfold mounts. by rewrite app_nil_r.
    + apply (Hu i j p q (Prefix p) [] r); [done|done| |done]. unfold mounts. by rewrite app_nil_r.
Qed.

Lemma dispatch_step p ps segs r :
  dispatch (p :: ps) segs r =
    if segs_prefix (segments (Prefix p)) segs
    then delegate p (rewritten (drop (length (segments (Prefix p))) segs) r)
    else dispatch ps segs r.
Proof.
  simpl. destruct (segs_prefix (segments (Prefix p)) segs) eqn:E; simpl.
  - apply segs_prefix_app in E as [k ->]. rewrite length_app.
    by destruct (Nat.ltb_spec (length (segments (Prefix p)) + length k) (length (segments (Prefix p)))); [lia|].
  - by destruct (_ <? _)%nat.
Qed.

Lemma dispatch_none ps segs r :
  Forall (λ p : Provider T, segs_prefix (segments (Prefix p)) segs = false) ps → dispatch ps segs r = NotFound.
Proof. induction 1 as [|p ps Hp _ IH]; [done|]. by rewrite dispatch_step, Hp. Qed.

Lemma dispatch_hit ps p path rest r :
  disjoint_mounts ps → p ∈ ps → mounts p path rest →
  dispatch ps (segments path) r = delegate p (rewritten rest r).
Proof.
  intros Hd Hin Hm. induction ps as [|q ps IH]; [by apply elem_of_nil in Hin|].
  rewrite dispatch_step. apply disjoint_mounts_cons in Hd as [Hq Hd].
  apply elem_of_cons in Hin as [->|Hin].
  - unfold mounts in Hm. rewrite !Hm. assert (segs_prefix (segments (Prefix q)) (segments (Prefix q) ++ rest) = true) as ->
      by (apply segs_prefix_app; eauto).
    by rewrite drop_app_length.
  - destruct (segs_prefix (segments (Prefix q)) (segments path)) eqn:E; [|by apply IH].
    apply segs_prefix_app in E as [k Hk]. rewrite Forall_forall in Hq.
    specialize (Hq p Hin). by rewrite (mounts_overlap q p path k rest) in Hq.
Qed.

Lemma bare_spec ps h p :
  New ps = Ok h → bare h = Some p → map normalized ps = [p] ∧ Prefix p = [].
Proof.
  intros (_ & _ & Hd & ->)%New_ok_spec Hb. simpl in Hb.
  assert (Hp : p ∈ map normalized ps ∧ Prefix p = []).
  { destruct (List.filter _ _) as [|a l] eqn:El; [done|]. simplify_eq/=.
    assert (Hin : In p (p :: l)) by by left. rewrite <- El in Hin.
    apply filter_In in Hin as [Hin He%str_eqb_eq]. split; [by apply list_elem_of_In | done]. }
  destruct Hp. split; [|done]. apply disjoint_bare_single; [by apply disjoint_mounts_map|done|done].
Qed.

(** Serving a path under an accepted configuration. *)
Lemma serve_hit ps h p t path raw rest :
  New ps = Ok h → p ∈ ps → Proxy p = Some t → mounts p path rest →
  ServeHTTP h {| r_URL := Some {| Path := path; RawPath := raw |} |} =
    Delegate t {| r_URL := Some {| Path := joinSegments rest; RawPath := [] |} |}.
Proof.
  intros Hnew Hin Ht Hm. pose proof Hnew as (_ & _ & Hd & Hh)%New_ok_spec. unfold ServeHTTP.
  destruct (bare h) as [b|] eqn:Eb.
  - destruct (bare_spec _ _ _ Hnew Eb) as [Hone Hpre].
    assert (Hn : normalized p ∈ map normalized ps) by (apply list_elem_of_fmap; eauto).
    rewrite Hone, list_elem_of_singleton in Hn. subst b.
    apply mounts_normalized in Hm. unfold mounts in Hm. rewrite Hpre in Hm.
    simpl. rewrite Hm. unfold delegate. simpl. by rewrite Ht.
  - subst h. simpl. rewrite (dispatch_hit _ (normalized p) _ rest).
    + unfold delegate. simpl. by rewrite Ht.
    + by apply disjoint_mounts_map.
    + apply list_elem_of_fmap. eauto.
    + by apply mounts_normalized.
Qed.

Lemma serve_miss ps h path raw :
  New ps = Ok h → (∀ p rest, p ∈ ps → ¬ mounts p path rest) →
  ServeHTTP h {| r_URL := Some {| Path := path; RawPath := raw |} |} = NotFound.
Proof.
  intros Hnew Hno. pose proof Hnew as (_ & _ & _ & Hh)%New_ok_spec. unfold ServeHTTP.
  destruct (bare h) as [b|] eqn:Eb.
  - destruct (bare_spec _ _ _ Hnew Eb) as [Hone Hpre]. destruct ps as [|p [|q ps]]; try done.
    simplify_eq/=. exfalso. apply (Hno p (segments path)); [left|]. apply mounts_normalized.
    unfold mounts. simpl. by rewrite Hpre.
  - subst h. simpl. apply dispatch_none. apply Forall_map, Forall_forall. intros p Hp. simpl.
    rewrite segments_normalizePrefix. destruct (segs_prefix _ _) eqn:E; [|done].
    apply segs_prefix_app in E as [k Hk]. by destruct (Hno p k).
Qed.

Lemma mounts_dec ps path :
  (∃ p rest, p ∈ ps ∧ mounts p path rest) ∨ (∀ p rest, p ∈ ps → ¬ mounts p path rest).
Proof.
  destruct (existsb (λ p : Provider T, segs_prefix (segments (Prefix p)) (segments path)) ps) eqn:E.
  - left. apply existsb_exists in E as (p & Hp & [r Hr]%segs_prefix_app).
    exists p, r. split; [by apply list_elem_of_In | done].
  - right. intros p rest Hp Hm. assert (Ht : existsb (λ p : Provider T, segs_prefix (segments (Prefix p)) (segments path)) ps = true);
      [|congruence].
    apply existsb_exists. exists p. split; [by apply list_elem_of_In|]. apply segs_prefix_app. eauto.
Qed.

Lemma ServeHTTP_true_mount_fwd ps h path raw t r :
  New ps = Ok h →
  ServeHTTP h {| r_URL := Some {| Path := path; RawPath := raw |} |} = Delegate t r →
  ∃ p rest, mounts p path rest ∧ r = {| r_URL := Some {| Path := joinSegments rest; RawPath := [] |} |}.
Proof.
  intros Hnew Hs. pose proof Hnew as (_ & Hf & _ & _)%New_ok_spec. rewrite Forall_forall in Hf.
  destruct (mounts_dec ps path) as [(p & rest & Hin & Hm)|Hno].
  - specialize (Hf p Hin). destruct (Proxy p) as [t'|] eqn:Ht; [|done].
    rewrite (serve_hit ps h p t' path raw rest) in Hs by done. simplify_eq. eauto.
  - by rewrite (serve_miss ps h path raw) in Hs.
Qed.
End router_lemmas.

(** Suffixes of plain segments, split again on colons. *)
Lemma splitSegments_resolve a b :
  segments a = segments b → splitSegments a = splitSegments b.
Proof. unfold splitSegments, segments. by intros ->. Qed.

Lemma splitSegments_app path pre rest :
  segments path = pre ++ rest →
  ∃ k, splitSegments path = k ++ splitSegments (joinSegments rest).
Proof.
  intros Hs. assert (Hr : Forall plain_segment rest).
  { pose proof (resolve_path_plain path) as Hp. unfold segments in Hs. rewrite Hs in Hp.
    by apply Forall_app in Hp as [_ ?]. }
  apply segments_joinSegments in Hr. unfold splitSegments. unfold segments in *.
  rewrite Hs, Hr, map_app, concat_app. eauto.
Qed.

(** ** Properties *)

(** a router is built exactly when there is at least one provider, none has
    a nil handler and no request path whatsoever could reach two of the mounts. *)
Theorem New_accepts_unambiguous {T} (ps : list (Provider T)) :
  is_ok (New ps) = true ↔
  ps ≠ [] ∧ Forall (λ p, Proxy p ≠ None) ps ∧
  ∀ i j p q path rest rest', ps !! i = Some p → ps !! j = Some q →
    mounts p path rest → mounts q path rest' → i = j.
Proof.
  rewrite <- disjoint_mounts_paths. destruct (New ps) as [h|e] eqn:E; simpl; split; try done.
  - intros _. by apply New_ok_spec in E as (? & ? & ? & _).
  - intros (Hn & Hf & Hd). exfalso.
    assert (Hok : ∃ h, New ps = Ok h) by (eexists; by apply New_ok_spec).
    destruct Hok. congruence.
Qed.

(** C31: an accepted router delegates a request to the provider whose prefix
    its resolved path starts with, whatever the order of the mounts, with the
    prefix stripped and the raw path cleared; it answers 404 exactly when no
    mount matches, and never reaches a nil handler. *)
Theorem ServeHTTP_true_mount {T} (ps : list (Provider T)) h path raw :
  New ps = Ok h →
  let out := ServeHTTP h {| r_URL := Some {| Path := path; RawPath := raw |} |} in
  (∀ t r, out = Delegate t r ↔
     ∃ p rest, p ∈ ps ∧ Proxy p = Some t ∧ mounts p path rest ∧
       r = {| r_URL := Some {| Path := joinSegments rest; RawPath := [] |} |}) ∧
  (out = NotFound ↔ ∀ p rest, p ∈ ps → ¬ mounts p path rest) ∧
  out ≠ NilHandler ∧ out ≠ NilDereference.
Proof.
  intros Hnew out. pose proof Hnew as (_ & Hf & _ & _)%New_ok_spec. rewrite Forall_forall in Hf.
  destruct (mounts_dec ps path) as [(p & rest & Hin & Hm)|Hno].
  - specialize (Hf p Hin). destruct (Proxy p) as [t|] eqn:Ht; [|done].
    pose proof (serve_hit ps h p t path raw rest Hnew Hin Ht Hm) as Hout. fold out in Hout.
    rewrite Hout. split; [|split; [|done]].
    + intros t' r. split; [intros [= <- <-]; eauto 7|].
      intros (q & rest' & Hq & Hqt & Hqm & ->).
      pose proof (serve_hit ps h q t' path raw rest' Hnew Hq Hqt Hqm) as Hout'.
      fold out in Hout'. congruence.
    + split; [done|]. intros Hno. by destruct (Hno p rest).
  - pose proof (serve_miss ps h path raw Hnew Hno) as Hout. fold out in Hout. rewrite Hout.
    split; [|split; [|done]].
    + intros t r. split; [done|]. intros (p & rest & Hin & _ & Hm & _). by destruct (Hno p rest).
    + done.
Qed.

(** what a provider receives is canonical and no easier to match: the
    forwarded path resolves to itself (no dot segment survives), its segments
    are the tail of the request's, any non-root pattern it matches also matches
    the original path, and below a root mount the two paths match the same
    patterns. *)
Theorem forwarded_path_classification `{UnicodeTables} {T} (ps : list (Provider T)) h path raw t r :
  New ps = Ok h →
  ServeHTTP h {| r_URL := Some {| Path := path; RawPath := raw |} |} = Delegate t r →
  ∃ fwd pre, r = {| r_URL := Some {| Path := fwd; RawPath := [] |} |} ∧
    joinSegments (segments fwd) = fwd ∧ Forall plain_segment (segments fwd) ∧
    segments path = pre ++ segments fwd ∧
    (∀ pat m, Segments pat ≠ [] → Match pat m fwd = true → Match pat m path = true) ∧
    (pre = [] → ∀ pat m, Match pat m fwd = Match pat m path).
Proof.
  intros Hnew Hs. apply (ServeHTTP_true_mount_fwd ps h path raw) in Hs as (p & rest & Hm & ->); [|done].
  assert (Hp : Forall plain_segment rest).
  { pose proof (resolve_path_plain path) as Hp. fold (segments path) in Hp. rewrite Hm in Hp.
    by apply Forall_app in Hp as [_ ?]. }
  pose proof (segments_joinSegments _ Hp) as Hj.
  exists (joinSegments rest), (segments (Prefix p)). rewrite Hj.
  split; [done|]. split; [done|]. split; [done|]. split; [done|]. split.
  - intros pat m Hn. destruct (splitSegments_app _ _ _ Hm) as [k Hk]. unfold Match.
    destruct (negb _); [done|]. destruct (Segments pat) as [|a l]; [done|].
    rewrite !matchesSuffixSegments_spec, Hk. intros (pre & suf & -> & Hf).
    exists (k ++ pre), suf. by rewrite <- app_assoc.
  - intros Hpre pat m. unfold Match. rewrite (splitSegments_resolve (joinSegments rest) path); [done|].
    by rewrite Hj, Hm, Hpre.
Qed.

(** ** Witnesses *)

Lemma ServeHTTP_true_mount_witness :
  ServeHTTP example_router {| r_URL := Some {| Path := "/acme/x/../v1/messages"; RawPath := "/junk" |} |} =
  Delegate 1%nat {| r_URL := Some {| Path := "/v1/messages"; RawPath := [] |} |}.
Proof.
  assert (Hnew : New example_mounts = Ok example_router) by (vm_compute; reflexivity).
  destruct (ServeHTTP_true_mount example_mounts example_router "/acme/x/../v1/messages" "/junk" Hnew) as [Hd _].
  apply Hd. exists {| Name := "acme"; Prefix := "/acme/"; Proxy := Some 1%nat |}, [lit "v1"; lit "messages"].
  split; [left|]. split; [reflexivity|]. split; vm_compute; reflexivity.
Defined.

Lemma forwarded_path_classification_witness :
  ∃ fwd pre, {| r_URL := Some {| Path := "/v1/messages"; RawPath := [] |} |} =
    {| r_URL := Some {| Path := fwd; RawPath := [] |} |} ∧
    segments "/acme/x/../v1/messages" = pre ++ segments fwd.
Proof.
  assert (Hnew : New example_mounts = Ok example_router) by (vm_compute; reflexivity).
  destruct (forwarded_path_classification example_mounts example_router "/acme/x/../v1/messages" "/junk" 1%nat
    {| r_URL := Some {| Path := "/v1/messages"; RawPath := [] |} |} Hnew)
    as (fwd & pre & Hr & _ & _ & Hs & _); [vm_compute; reflexivity|]. exists fwd, pre. by split.
Defined.
