(* ===== verification/RetryAfter.v ===== *)
(** * Failure classification and [Retry-After]
      ([src/internal/circuitbreaker/circuitbreaker.go], from [IsFailureStatus] on)

    Response headers are an association list from canonical names to values
    ([None] is a nil map).  [http.ParseTime] is the parameter [ParseTime]: every
    theorem holds for whatever dates it recognises. *)

From Stdlib Require Import ZArith Lia Bool List Ascii String.
From stdpp Require Import strings.
From S2P Require Import Prelude GoStd GoStr.

Open Scope Z_scope.

(** ** Headers *)

Definition Header : Type := option (list (str * list str)).

(** The values stored under an exact (canonical) key. *)
Fixpoint header_values (h : list (str * list str)) (key : str) : list str :=
  match h with
  | [] => []
  | (k, vs) :: h => if str_eqb k key then vs else header_values h key
  end.

(** [Header.Get] of a canonical key: the first value, or the empty string. *)
Definition Header_Get (h : list (str * list str)) (key : str) : str :=
  match header_values h key with
  | v :: _ => v
  | [] => []
  end.

(** ** Status classification *)

Definition IsFailureStatus (code : Z) : bool :=
  (code =? 0) || (code =? 429) || (code =? 403) || ((500 <=? code) && (code <? 600)).

Definition clockSkewTolerance : Duration := 1 * Second.

Section retry_after.
Context `{UnicodeTables} (ParseTime : str → option Time).

(** ** Remaining delay *)

Definition elapsed_since (receivedAt evaluatedAt : Time) : Duration :=
  Z.max (time_Sub evaluatedAt receivedAt) 0.

Definition ParseRetryAfter (h : Header) (receivedAt evaluatedAt : Time) : Duration :=
  match h with
  | None => 0
  | Some h =>
      let v := Header_Get h "Retry-After" in
      if str_eqb v [] then 0
      else
        match Atoi v with
        | Some sec =>
            if sec <=? 0 then 0
            else
              let elapsed := elapsed_since receivedAt evaluatedAt in
              let intended := mul64 sec Second in
              if intended <=? elapsed then 0 else sub64 intended elapsed
        | None =>
            match ParseTime v with
            | None => 0
            | Some retry =>
                let fallback :=
                  let remaining := time_Sub retry evaluatedAt in
                  if remaining <=? 0 then 0 else remaining in
                let dateStr := Header_Get h "Date" in
                if str_eqb dateStr [] then fallback
                else
                  match ParseTime dateStr with
                  | None => fallback
                  | Some upstreamDate =>
                      let intendedDelta := time_Sub retry upstreamDate in
                      if intendedDelta <=? 0 then 0
                      else
                        let proxyElapsed := elapsed_since receivedAt evaluatedAt in
                        let remaining := sub64 intendedDelta proxyElapsed in
                        if remaining <=? 0 then 0 else remaining
                  end
            end
        end
  end.

(** ** Temporary bans *)

Definition rateLimitKeys : list string :=
  ["x-ratelimit-reset"; "x-ratelimit-limit"; "x-ratelimit-remaining";
   "ratelimit-reset"; "ratelimit-limit"; "ratelimit-remaining"]%string.

(** The header loop of [IsTemporaryBanResponse]. *)
Definition hasRateLimitHeader (h : list (str * list str)) : bool :=
  existsb (λ kv, match snd kv with
                 | [] => false
                 | _ => existsb (λ k, str_eqb (ToLower (fst kv)) (lit k)) rateLimitKeys
                 end) h.

Definition IsTemporaryBanResponse (h : Header) (receivedAt evaluatedAt : Time) : bool :=
  match h with
  | None => false
  | Some hs =>
      let rl := hasRateLimitHeader hs in
      let v := Header_Get hs "Retry-After" in
      if str_eqb v [] then rl
      else
        match Atoi v with
        | Some _ => (0 <? ParseRetryAfter h receivedAt evaluatedAt) || rl
        | None =>
            match ParseTime v with
            | None => rl
            | Some retry =>
                let fallback := (- clockSkewTolerance <=? time_Sub retry evaluatedAt) || rl in
                let dateStr := Header_Get hs "Date" in
                if str_eqb dateStr [] then fallback
                else
                  match ParseTime dateStr with
                  | None => fallback
                  | Some upstreamDate =>
                      let intendedDelta := time_Sub retry upstreamDate in
                      let proxyElapsed := elapsed_since receivedAt evaluatedAt in
                      (0 <? sub64 intendedDelta proxyElapsed) || rl
                  end
            end
        end
  end.

Definition IsFailureStatusWithHeaders (code : Z) (h : Header) (receivedAt evaluatedAt : Time) : bool :=
  if code =? 403 then IsTemporaryBanResponse h receivedAt evaluatedAt
  else IsFailureStatus code.
End retry_after.

(** ** Specifications *)

(** A parser whose upstream clock is [d] ahead. *)
Definition shifted (d : Duration) (ParseTime : str → option Time) (v : str) : option Time :=
  match ParseTime v with
  | Some t => Some (t + d)
  | None => None
  end.

(** Every date is within [2^61] ns (73 years) of [now]. *)
Definition dates_near (ParseTime : str → option Time) (now : Time) : Prop :=
  ∀ v t, ParseTime v = Some t → - 2 ^ 61 <= t - now <= 2 ^ 61.

(** The delay does not depend on comparing the two clocks: it is a number of
    seconds, or the response also says what the upstream clock read. *)
Definition skew_free (ParseTime : str → option Time) (h : list (str * list str)) : Prop :=
  Atoi (Header_Get h "Retry-After") ≠ None ∨
  (Header_Get h "Date" ≠ [] ∧ ParseTime (Header_Get h "Date") ≠ None).

(** The only case in which a ban outlives its delay: an HTTP date without a
    usable [Date], at most the tolerance in the past. *)
Definition tolerated (ParseTime : str → option Time) (h : list (str * list str)) (evaluatedAt : Time) : Prop :=
  ¬ skew_free ParseTime h ∧ Header_Get h "Retry-After" ≠ [] ∧
  ∃ t, ParseTime (Header_Get h "Retry-After") = Some t ∧
    - clockSkewTolerance <= time_Sub t evaluatedAt <= 0.

(** What is left of a delay: both delay branches of [ParseRetryAfter]. *)
Definition remainder (intended elapsed : Duration) : Duration := Z.max 0 (intended - elapsed).

(** What a present [Retry-After] header amounts to: a delay counted from
    receipt, or an absolute date compared with the local clock. *)
Inductive advice :=
| NoAdvice
| Delay (intended : Duration)
| Until (t : Time).

Definition advice_of (ParseTime : str → option Time) (h : list (str * list str)) : advice :=
  let v := Header_Get h "Retry-After" in
  if str_eqb v [] then NoAdvice
  else match Atoi v, ParseTime v with
       | Some sec, _ => if sec <=? 0 then NoAdvice else Delay (mul64 sec Second)
       | None, None => NoAdvice
       | None, Some t =>
           let dateStr := Header_Get h "Date" in
           if str_eqb dateStr [] then Until t
           else match ParseTime dateStr with
                | None => Until t
                | Some d => Delay (time_Sub t d)
                end
       end.

Definition demo_dates (v : list Ascii.ascii) : option Z :=
  if str_eqb v "then" then Some (90 * Second) else if str_eqb v "now" then Some (30 * Second) else None.

Definition demo_header := [(lit "Retry-After", [lit "then"]); (lit "Date", [lit "now"])].

(** ** Lemmas *)

Lemma clamp64_sub_mono a b c : b <= c → clamp64 (a - c) <= clamp64 (a - b).
Proof. intros. apply clamp64_mono. lia. Qed.

Lemma elapsed_bounds rc e : 0 <= elapsed_since rc e <= max_int64.
Proof.
  unfold elapsed_since, time_Sub. pose proof (clamp64_range (e - rc)) as Hr.
  unfold in_int64, min_int64, max_int64 in *. lia.
Qed.

Lemma elapsed_mono rc e e' : e <= e' → elapsed_since rc e <= elapsed_since rc e'.
Proof. intros. unfold elapsed_since, time_Sub. pose proof (clamp64_mono (e - rc) (e' - rc)). lia. Qed.

Lemma elapsed_exact rc e : rc <= e → e - rc <= max_int64 → elapsed_since rc e = e - rc.
Proof.
  intros H1 H2. unfold elapsed_since, time_Sub. rewrite clamp64_id; [lia|].
  unfold in_int64, min_int64, max_int64 in *. lia.
Qed.

Lemma elapsed_shift d rc e : elapsed_since (rc + d) (e + d) = elapsed_since rc e.
Proof. unfold elapsed_since, time_Sub. by replace (e + d - (rc + d)) with (e - rc) by lia. Qed.

Lemma remaining_delay i el :
  in_int64 i → 0 <= el <= max_int64 →
  (if i <=? el then 0 else sub64 i el) = remainder i el.
Proof.
  intros Hi Hel. unfold remainder, sub64. destruct (Z.leb_spec i el); [lia|].
  rewrite wrap64_id; [lia|]. unfold in_int64, min_int64, max_int64 in *. lia.
Qed.

Lemma remaining_date i el :
  in_int64 i → 0 <= el <= max_int64 →
  (if i <=? 0 then 0 else let r := sub64 i el in if r <=? 0 then 0 else r) = remainder i el.
Proof.
  intros Hi Hel. unfold remainder, sub64. cbv zeta. destruct (Z.leb_spec i 0); [lia|].
  rewrite wrap64_id; [|unfold in_int64, min_int64, max_int64 in *; lia].
  destruct (Z.leb_spec (i - el) 0); lia.
Qed.

Lemma positive_part z : (if z <=? 0 then 0 else z) = Z.max 0 z.
Proof. destruct (Z.leb_spec z 0); lia. Qed.

Section lemmas.
Context (ParseTime : str → option Time).

Lemma ParseRetryAfter_advice h rc e :
  ParseRetryAfter ParseTime (Some h) rc e =
    match advice_of ParseTime h with
    | NoAdvice => 0
    | Delay i => remainder i (elapsed_since rc e)
    | Until t => Z.max 0 (time_Sub t e)
    end.
Proof.
  unfold ParseRetryAfter, advice_of. pose proof (elapsed_bounds rc e) as Hel.
  destruct (str_eqb _ []); [done|]. destruct (Atoi _) as [sec|].
  - destruct (sec <=? 0); [done|]. apply remaining_delay; [apply wrap64_range | done].
  - destruct (ParseTime _) as [t|]; [|done].
    destruct (str_eqb (Header_Get h "Date") []); [apply positive_part|].
    destruct (ParseTime (Header_Get h "Date")) as [d|]; [|apply positive_part].
    apply remaining_date; [apply clamp64_range | done].
Qed.

Lemma ParseRetryAfter_mono h rc e e' :
  e <= e' → 0 <= ParseRetryAfter ParseTime h rc e' <= ParseRetryAfter ParseTime h rc e.
Proof.
  intros He. destruct h as [h|]; [|simpl; lia]. rewrite !ParseRetryAfter_advice.
  destruct (advice_of ParseTime h); [lia| |].
  - unfold remainder. pose proof (elapsed_mono rc e e' He). lia.
  - unfold time_Sub. pose proof (clamp64_sub_mono t e e' He). lia.
Qed.

Lemma advice_range h :
  match advice_of ParseTime h with Delay i => in_int64 i | _ => True end.
Proof.
  unfold advice_of. repeat (case_match; try done); simplify_eq;
    first [apply wrap64_range | apply clamp64_range].
Qed.

Lemma ParseRetryAfter_max h rc e : ParseRetryAfter ParseTime h rc e <= max_int64.
Proof.
  destruct h as [h|]; [|done]. rewrite ParseRetryAfter_advice. pose proof (advice_range h) as Hr.
  pose proof (elapsed_bounds rc e). destruct (advice_of ParseTime h).
  - unfold max_int64. lia.
  - unfold remainder, in_int64, max_int64 in *. lia.
  - unfold time_Sub. pose proof (clamp64_range (t - e)) as Hc. unfold in_int64, max_int64 in *. lia.
Qed.
End lemmas.

Section ban_lemmas.
Context `{UnicodeTables} (ParseTime : str → option Time).

(** The two parses of the header agree, tolerance apart. *)
Lemma IsTemporaryBanResponse_iff hs rc e :
  dates_near ParseTime rc → rc <= e <= rc + 2 ^ 61 →
  IsTemporaryBanResponse ParseTime (Some hs) rc e = true ↔
  hasRateLimitHeader hs = true ∨ 0 < ParseRetryAfter ParseTime (Some hs) rc e ∨
  tolerated ParseTime hs e.
Proof.
  intros Hn He.
  assert (Hor : ∀ b (P : Prop), (b = true ↔ P) → b || hasRateLimitHeader hs = true ↔ hasRateLimitHeader hs = true ∨ P).
  { intros b P <-. rewrite orb_true_iff. tauto. }
  rewrite ParseRetryAfter_advice. unfold IsTemporaryBanResponse. unfold tolerated, skew_free.
  destruct (str_eqb (Header_Get hs "Retry-After") []) eqn:Ev.
  { apply str_eqb_eq in Ev. unfold advice_of. rewrite Ev. simpl. split; [tauto|].
    intros [?|[?|(_ & ? & _)]]; [done|lia|done]. }
  assert (Hne : Header_Get hs "Retry-After" ≠ []) by (intros Hx; by rewrite Hx in Ev).
  destruct (Atoi (Header_Get hs "Retry-After")) as [sec|] eqn:Ea.
  { rewrite Hor; [|apply Z.ltb_lt]. rewrite ParseRetryAfter_advice.
    split; [tauto|]. intros [?|[?|(Hs & _)]]; [tauto..|]. exfalso. apply Hs. by left. }
  unfold advice_of. rewrite Ev, Ea.
  destruct (ParseTime (Header_Get hs "Retry-After")) as [t|] eqn:Et.
  2:{ split; [tauto|]. intros [?|[?|(_ & _ & ? & ? & _)]]; [done|lia|done]. }
  assert (Hfall : (Header_Get hs "Date" = [] ∨ ParseTime (Header_Get hs "Date") = None) →
    (- clockSkewTolerance <=? time_Sub t e) || hasRateLimitHeader hs = true ↔
    hasRateLimitHeader hs = true ∨ 0 < Z.max 0 (time_Sub t e) ∨
    ¬ (None ≠ @None Z ∨ Header_Get hs "Date" ≠ [] ∧ ParseTime (Header_Get hs "Date") ≠ None) ∧
    Header_Get hs "Retry-After" ≠ [] ∧
    ∃ t0, Some t = Some t0 ∧ - clockSkewTolerance <= time_Sub t0 e <= 0).
  { intros Hd. apply Hor. rewrite Z.leb_le. split.
    - intros Hle. destruct (Z.leb_spec (time_Sub t e) 0); [|left; lia]. right.
      split; [intros [?|[??]]; [done|tauto]|]. split; [done|]. by exists t.
    - unfold clockSkewTolerance, Second. intros [?|(_ & _ & ? & [= <-] & ?)]; lia. }
  destruct (str_eqb (Header_Get hs "Date") []) eqn:Ed.
  { apply Hfall. left. by apply str_eqb_eq. }
  destruct (ParseTime (Header_Get hs "Date")) as [d|] eqn:Edt; [|apply Hfall; by right].
  assert (Hdn : Header_Get hs "Date" ≠ []) by (intros Hx; by rewrite Hx in Ed).
  rewrite Hor; [|apply Z.ltb_lt]. pose proof (Hn _ _ Et). pose proof (Hn _ _ Edt).
  rewrite elapsed_exact by (unfold max_int64; lia).
  unfold remainder, sub64, time_Sub.
  assert (Hc : clamp64 (t - d) = t - d) by (apply clamp64_id; unfold in_int64, min_int64, max_int64; lia).
  rewrite Hc. rewrite wrap64_id by (unfold in_int64, min_int64, max_int64; lia).
  split; [intros [?|?]; [tauto|right; left; lia]|].
  intros [?|[?|(Hs & _)]]; [tauto|right; lia|]. exfalso. apply Hs. right. done.
Qed.
End ban_lemmas.

(** ** Properties *)

Section properties.
Context `{UnicodeTables} (ParseTime : str → option Time).

(** the remaining delay is a countdown: never negative, never above the
    64-bit range, never longer when evaluated later, and, for in-range clocks,
    exactly one nanosecond shorter per nanosecond of waiting until it is zero. *)
Theorem retry_after_counts_down (h : Header) rc e e' :
  e <= e' →
  let w := ParseRetryAfter ParseTime h rc in
  0 <= w e' <= w e ∧ w e <= max_int64 ∧
  (rc <= e → e' - rc <= max_int64 →
   (∀ v t, ParseTime v = Some t → in_int64 (t - e) ∧ in_int64 (t - e')) →
   w e' = Z.max 0 (w e - (e' - e))).
Proof.
  intros He w. split; [by apply ParseRetryAfter_mono|]. split; [apply ParseRetryAfter_max|].
  intros Hrc Hr Hp. subst w. destruct h as [h|]; [|simpl; lia]. rewrite !ParseRetryAfter_advice.
  destruct (advice_of ParseTime h) as [|i|t] eqn:Ea; [lia| |].
  - rewrite !elapsed_exact by lia. unfold remainder. lia.
  - assert (Ht : ∃ v, ParseTime v = Some t).
    { unfold advice_of in Ea. repeat (case_match; try done); simplify_eq; eauto. }
    destruct Ht as [v [H1 H2]%Hp]. unfold time_Sub. rewrite !clamp64_id by done. lia.
Qed.

(** a 403 counts as a ban exactly while the response says so: an explicit
    rate-limit header, a delay still running, or, when the response carries no
    usable upstream clock, an expiry at most the tolerance in the past; and once
    it has stopped counting it never counts again. *)
Theorem temporary_ban_classification hs rc e :
  dates_near ParseTime rc → rc <= e <= rc + 2 ^ 61 →
  (IsFailureStatusWithHeaders ParseTime 403 (Some hs) rc e = true ↔
   hasRateLimitHeader hs = true ∨ 0 < ParseRetryAfter ParseTime (Some hs) rc e ∨ tolerated ParseTime hs e) ∧
  (∀ e', e <= e' <= rc + 2 ^ 61 →
   IsFailureStatusWithHeaders ParseTime 403 (Some hs) rc e' = true →
   IsFailureStatusWithHeaders ParseTime 403 (Some hs) rc e = true).
Proof.
  intros Hn He. change (IsFailureStatusWithHeaders ParseTime 403) with (IsTemporaryBanResponse ParseTime).
  split; [by apply IsTemporaryBanResponse_iff|]. intros e' He'.
  rewrite !IsTemporaryBanResponse_iff by (done || lia).
  intros [?|[Hw|(Hs & Hne & t & Ht & Hb)]]; [tauto| |].
  - right; left. pose proof (ParseRetryAfter_mono ParseTime (Some hs) rc e e'). lia.
  - destruct (Z.leb_spec (time_Sub t e) 0) as [Hle|Hgt].
    + right; right. split; [done|]. split; [done|]. exists t. split; [done|].
      pose proof (clamp64_sub_mono t e e'). unfold time_Sub in *. lia.
    + right; left. rewrite ParseRetryAfter_advice. unfold advice_of.
      rewrite (str_eqb_neq _ [] Hne), Ht. unfold skew_free in Hs.
      destruct (Atoi _) as [sec|]; [exfalso; apply Hs; by left|].
      destruct (str_eqb (Header_Get hs "Date") []) eqn:Ed; [lia|].
      destruct (ParseTime (Header_Get hs "Date")) eqn:Edt; [|lia].
      exfalso. apply Hs. right. split; [by intros Hx; rewrite Hx in Ed | done].
Qed.

(** a delay that comes with the upstream's clock, or as seconds, is immune
    to clock skew: shifting the upstream's clock and the proxy's clock by any
    amounts changes neither the remaining delay nor the classification. *)
Theorem skew_is_eliminated hs code rc e d d' :
  skew_free ParseTime hs →
  ParseRetryAfter (shifted d ParseTime) (Some hs) (rc + d') (e + d') =
    ParseRetryAfter ParseTime (Some hs) rc e ∧
  IsFailureStatusWithHeaders (shifted d ParseTime) code (Some hs) (rc + d') (e + d') =
    IsFailureStatusWithHeaders ParseTime code (Some hs) rc e.
Proof.
  intros Hs.
  assert (Hadv : ParseRetryAfter (shifted d ParseTime) (Some hs) (rc + d') (e + d') =
    ParseRetryAfter ParseTime (Some hs) rc e).
  { rewrite !ParseRetryAfter_advice, elapsed_shift. unfold advice_of, shifted.
    destruct (str_eqb _ []); [done|]. destruct (Atoi _) as [sec|] eqn:Ea; [by destruct (sec <=? 0)|].
    destruct (ParseTime (Header_Get hs "Retry-After")) as [t|]; [|done].
    destruct Hs as [?|[Hd Hp]]; [done|]. rewrite (str_eqb_neq _ [] Hd).
    destruct (ParseTime (Header_Get hs "Date")) as [u|]; [|done].
    unfold time_Sub. by replace (t + d - (u + d)) with (t - u) by lia. }
  split; [done|]. unfold IsFailureStatusWithHeaders. destruct (code =? 403); [|done].
  unfold IsTemporaryBanResponse. rewrite Hadv, elapsed_shift. unfold shifted.
  destruct (str_eqb _ []); [done|]. destruct (Atoi _) as [sec|] eqn:Ea; [done|].
  destruct (ParseTime (Header_Get hs "Retry-After")) as [t|]; [|done].
  destruct Hs as [?|[Hd Hp]]; [done|]. rewrite (str_eqb_neq _ [] Hd).
  destruct (ParseTime (Header_Get hs "Date")) as [u|]; [|done].
  unfold time_Sub. by replace (t + d - (u + d)) with (t - u) by lia.
Qed.
End properties.

(** A delay of more than 2^63 ns overflows [time.Duration(sec)*time.Second] and
    is read as no delay at all, so the ban is not seen. *)
Example huge_delay_ignored `{UnicodeTables} ParseTime :
  let h := Some [(lit "Retry-After", [lit "9223372037"])] in
  ParseRetryAfter ParseTime h 0 0 = 0 ∧ IsFailureStatusWithHeaders ParseTime 403 h 0 0 = false.
Proof. vm_compute. done. Qed.

(** An expiry centuries before the response's own [Date] saturates, and the
    unguarded subtraction of the elapsed time then wraps to a huge positive
    delay: the expired ban is classified as running. *)
Example ancient_expiry_is_a_ban `{UnicodeTables} :
  let dates v := if str_eqb v "new" then Some (2 ^ 63) else if str_eqb v "old" then Some (-5) else None in
  let h := Some [(lit "Retry-After", [lit "old"]); (lit "Date", [lit "new"])] in
  ParseRetryAfter dates h 0 1 = 0 ∧ IsFailureStatusWithHeaders dates 403 h 0 1 = true.
Proof. vm_compute. done. Qed.

(** ** Witnesses *)


Lemma retry_after_counts_down_witness :
  ParseRetryAfter (λ _, None) (Some [(lit "Retry-After", [lit "10"])]) 5 (5 + 4 * Second) = 6 * Second.
Proof.
  destruct (retry_after_counts_down (λ _, None) (Some [(lit "Retry-After", [lit "10"])]) 5 5 (5 + 4 * Second))
    as (_ & _ & Hx); [unfold Second; lia|].
  etransitivity; [apply Hx|vm_compute; reflexivity].
  - lia.
  - unfold max_int64, Second. lia.
  - done.
Defined.

Lemma temporary_ban_classification_witness :
  IsFailureStatusWithHeaders (λ _, None) 403 (Some [(lit "Retry-After", [lit "10"])]) 5 6 = true.
Proof.
  apply (temporary_ban_classification (λ _, None) [(lit "Retry-After", [lit "10"])] 5 6).
  - intros v t Ht. discriminate Ht.
  - lia.
  - right; left. vm_compute. reflexivity.
Defined.

Lemma skew_is_eliminated_witness :
  ParseRetryAfter (shifted 7 demo_dates) (Some demo_header) (0 + 9) (Second + 9) = 59 * Second.
Proof.
  destruct (skew_is_eliminated demo_dates demo_header 403 0 Second 7 9) as [Hw _].
  - right. split; [discriminate|]. vm_compute. discriminate.
  - etransitivity; [exact Hw|]. vm_compute. reflexivity.
Defined.
