(* ===== verification/Retry.v ===== *)
(** * The retrying transport ([src/internal/retry/transport.go])

    [RoundTrip] is a function of a transport, a request and a script of
    everything the code observes from outside: the clock, the request context,
    the random source, the answers of [Breaker.Allow] and of the inner
    transport.  It returns what the code returns and the log of what the code
    did, in order.  [CheckRetry] is a field, [http.ParseTime] a parameter.
    The buffer whose readers are logged is modelled in [BufferTracker]. *)

From Stdlib Require Import ZArith Lia Bool List Ascii String.
From stdpp Require Import strings.
From S2P Require Import Prelude GoStd GoStr RetryAfter.

Open Scope Z_scope.

(** ** Errors *)

Inductive errKind := Canceled | DeadlineExceeded | CircuitOpen | NilResponse | OtherError (n : Z).

(** An error value: its identity, whether its [IsNonRetryable] method answers
    true, and the errors it unwraps to (either form of [Unwrap]). *)
Inductive goerr := GoErr (kind : errKind) (marker : bool) (unwrap : list goerr).

Fixpoint IsNonRetryable (e : goerr) : bool :=
  match e with
  | GoErr _ marker unwrap => if marker then true else existsb IsNonRetryable unwrap
  end.

Definition kind_is_ctx (k : errKind) : bool :=
  match k with Canceled | DeadlineExceeded => true | _ => false end.

(** [errors.Is] against either context error. *)
Fixpoint isContextCancellation (e : goerr) : bool :=
  match e with
  | GoErr k _ unwrap => kind_is_ctx k || existsb isContextCancellation unwrap
  end.

Definition plain_err (k : errKind) : goerr := GoErr k false [].

Definition is_ctx_err (e : option goerr) : bool :=
  match e with Some e => isContextCancellation e | None => false end.

(** ** Data *)

Record Response := {
  StatusCode : Z;
  resp_Header : Header;
  resp_hasBody : bool;
}.

(** [DefaultCheckRetry] *)
Definition DefaultCheckRetry (resp : option Response) (err : option goerr) : bool :=
  match err with
  | Some e => negb (IsNonRetryable e)
  | None =>
      match resp with
      | None => false
      | Some r => (StatusCode r =? 429) || (500 <=? StatusCode r)
      end
  end.

Record Transport := {
  MaxRetries : Z;
  MaxBodyBytes : Z;
  CheckRetry : option (option Response → option goerr → bool);
  WaitMin : Duration;
  WaitMax : Duration;
  MinRetryDelay : Duration;
  InFlightRetries : bool;
  tr_Breaker : bool;
}.

(** A request body: nil, [http.NoBody], or a stream with the error, if any,
    that ends it. *)
Inductive Body :=
| BodyNil
| BodyNone
| BodyStream (content : str) (err : option goerr).

Record Request := {
  req_Body : Body;
  ctx_epoch : option Z;
  deferSuccess : bool;
  has_attempt : bool;
}.

Record BreakerAttempt := {
  StartedAt : Time;
  Epoch : Z;
  FailureRecorded : bool;
  HeaderFailureRecorded : bool;
  AnyFailureRecorded : bool;
  AnyHeaderFailureRecorded : bool;
}.

Definition zeroAttempt : BreakerAttempt :=
  {| StartedAt := 0; Epoch := 0; FailureRecorded := false; HeaderFailureRecorded := false;
     AnyFailureRecorded := false; AnyHeaderFailureRecorded := false |}.

(** What one iteration observes.  The context is read at every point the code
    reads it. *)
Record Observed := {
  o_ctx_top : option goerr;
  o_allow : option Z;
  o_retryNow : Time;
  o_rand : Z → Z;
  o_wait_done : bool;
  o_attemptStart : Time;
  o_result : option Response * option goerr;
  o_receivedAt : Time;
  o_now : Time;
  o_ctx_suppress : option goerr;
  o_ctx_terminal : option goerr;
  o_ctx_drain : option goerr;
  o_ctx_finish : option goerr;
}.

(** What the transport does to the world. *)
Inductive event :=
| EvAllow (r : option Z)
| EvBody
| EvWait (d : Duration)
| EvSend (startedAt : Time) (epoch : Z) (body : option str)
| EvFailure (code : Z) (ra : Duration) (startedAt : Time) (epoch : Z)
| EvSuccess (startedAt : Time) (epoch : Z)
| EvCancel (epoch : Z)
| EvDrain
| EvCloseResponse
| EvFinalize (hasRespBody : bool)
| EvInFlight (delta : Z).

Record RTState := { log : list event; attempt_meta : option BreakerAttempt }.

Definition emit (e : event) (s : RTState) : RTState :=
  {| log := log s ++ [e]; attempt_meta := attempt_meta s |}.

Definition emit_if (b : bool) (e : event) (s : RTState) : RTState := if b then emit e s else s.

Definition on_attempt (f : BreakerAttempt → BreakerAttempt) (s : RTState) : RTState :=
  {| log := log s; attempt_meta := option_map f (attempt_meta s) |}.

(** ** Waiting *)

(** [float64] of an [int64]: the nearest multiple of a 53-bit unit, ties to even. *)
Definition round53 (z : Z) : Z :=
  let a := Z.abs z in
  if a <? 2 ^ 53 then z
  else
    let u := 2 ^ (Z.log2 a - 52) in
    let q := a / u in
    let r := a mod u in
    let q' := if (2 * r <? u) || ((2 * r =? u) && Z.even q) then q else q + 1 in
    Z.sgn z * (q' * u).

(** [int64(float64(base) * 0.25)] *)
Definition quarter (base : Duration) : Z := wrap64 (Z.quot (round53 base) 4).

Fixpoint backoff_base (n : nat) (wMax base : Duration) : Duration :=
  match n with
  | O => base
  | S n =>
      let base := mul64 base 2 in
      if wMax <=? base then wMax else backoff_base n wMax base
  end.

Definition wait_min (wMin : Duration) : Duration := if wMin <=? 0 then 500 * Millisecond else wMin.
Definition wait_max (wMax : Duration) : Duration := if wMax <=? 0 then 30 * Second else wMax.

(** [calcWait]; [rand] is [rand.Int64N]. *)
Definition calcWait (rand : Z → Z) (attempt : nat) (wMin0 wMax0 : Duration) : Duration :=
  let wMin := wait_min wMin0 in
  let wMax := wait_max wMax0 in
  let base := backoff_base (attempt - 1) wMax wMin in
  let j := quarter base in
  let base := if 0 <? j then add64 base (rand (2 * j + 1) - j) else base in
  if base <? wMin then wMin else if wMax <? base then wMax else base.

Section retry.
Context `{UnicodeTables} (ParseTime : str → option Time).

Definition retryWait (t : Transport) (attempt : nat) (o : Observed) (last : option (Response * Time))
    : Duration :=
  let wait := calcWait (o_rand o) attempt (WaitMin t) (WaitMax t) in
  let wait :=
    match last with
    | Some (r, lastReceivedAt) =>
        let ra := ParseRetryAfter ParseTime (resp_Header r) lastReceivedAt (o_retryNow o) in
        if (0 <? ra) && (wait <? ra) then ra else wait
    | None => wait
    end in
  if (0 <? MinRetryDelay t) && (wait <? MinRetryDelay t) then MinRetryDelay t else wait.

(** ** One attempt *)

Definition recordBreakerAttempt (startedAt : Time) (epoch : Z) : RTState → RTState :=
  on_attempt (λ a, {| StartedAt := startedAt; Epoch := epoch; FailureRecorded := false;
    HeaderFailureRecorded := false; AnyFailureRecorded := AnyFailureRecorded a;
    AnyHeaderFailureRecorded := AnyHeaderFailureRecorded a |}).

Definition markBreakerAttemptFailure (headerFailure : bool) : RTState → RTState :=
  on_attempt (λ a, {| StartedAt := StartedAt a; Epoch := Epoch a; FailureRecorded := true;
    HeaderFailureRecorded := headerFailure || HeaderFailureRecorded a; AnyFailureRecorded := true;
    AnyHeaderFailureRecorded := headerFailure || AnyHeaderFailureRecorded a |}).

Definition statusCode (resp : option Response) (err : option goerr) : Z :=
  match err, resp with
  | None, Some r => StatusCode r
  | _, _ => 0
  end.

(** The guard against a [(nil, nil)] answer of the inner transport. *)
Definition guard_nil (res : option Response * option goerr) : option Response * option goerr :=
  match res with
  | (None, None) => (None, Some (plain_err NilResponse))
  | _ => res
  end.

Definition suppressBreakerFailureForError (ctx : option goerr) (e : goerr) : bool :=
  IsNonRetryable e || (is_ctx_err ctx && isContextCancellation e).

Definition isTerminalCancellation (ctx : option goerr) (e : goerr) : bool :=
  is_ctx_err ctx && isContextCancellation e.

Definition status_failure (o : Observed) (resp : option Response) : bool :=
  match resp with
  | Some r => IsFailureStatusWithHeaders ParseTime (StatusCode r) (resp_Header r) (o_receivedAt o) (o_now o)
  | None => false
  end.

Definition error_failure (o : Observed) (err : option goerr) : bool :=
  match err with
  | Some e => negb (suppressBreakerFailureForError (o_ctx_suppress o) e)
  | None => false
  end.

Definition is_success (resp : option Response) (err : option goerr) : bool :=
  match err, resp with
  | None, Some r => (200 <=? StatusCode r) && (StatusCode r <? 300)
  | _, _ => false
  end.

(** The breaker accounting that follows every attempt, in both paths. *)
Definition report (t : Transport) (req : Request) (o : Observed) (epoch : Z)
    (resp : option Response) (err : option goerr) (s : RTState) : RTState :=
  let statusFailure := status_failure o resp in
  if statusFailure || error_failure o err then
    let s := markBreakerAttemptFailure statusFailure s in
    if tr_Breaker t then
      let ra := match resp with
                | Some r => ParseRetryAfter ParseTime (resp_Header r) (o_receivedAt o) (o_now o)
                | None => 0
                end in
      let code := match resp with
                  | Some r => if statusFailure then StatusCode r else statusCode resp err
                  | None => statusCode resp err
                  end in
      emit (EvFailure code ra (o_attemptStart o) epoch) s
    else s
  else emit_if (tr_Breaker t && negb (deferSuccess req) && is_success resp err)
         (EvSuccess (o_attemptStart o) epoch) s.

Definition has_resp_body (resp : option Response) : bool :=
  match resp with Some r => resp_hasBody r | None => false end.

(** [finishRequestCancellation], with [closeResponseAndReleaseBuffer]. *)
Definition finishRequestCancellation (t : Transport) (o : Observed) (resp : option Response)
    (tracked : bool) (epoch : Z) (s : RTState) : (option Response * option goerr) * RTState :=
  let s := emit_if (tr_Breaker t) (EvCancel epoch) s in
  let s := emit_if (has_resp_body resp) EvCloseResponse s in
  let s := emit_if tracked (EvFinalize false) s in
  let err := match o_ctx_finish o with Some e => e | None => plain_err Canceled end in
  ((None, Some err), s).

(** [finalizeBufferedResponseBody] *)
Definition finalizeBufferedResponseBody (resp : option Response) (tracked : bool) (s : RTState) : RTState :=
  emit_if tracked (EvFinalize (has_resp_body resp)) s.

Definition shouldRetry (t : Transport) : option Response → option goerr → bool :=
  match CheckRetry t with Some f => f | None => DefaultCheckRetry end.

(** ** The retry loop *)

(** How an iteration of the loop ends: it returns, or goes round again with the
    epoch of the attempt just made and its response. *)
Inductive iteration :=
| Done (r : option Response * option goerr)
| Again (epoch : Z) (last : option (Response * Time)).

(** The attempt itself: send, report, and decide. *)
Definition try_once (t : Transport) (req : Request) (o : Observed) (tracked : bool) (buf : option str)
    (attempt : nat) (epoch : Z) (s : RTState) : iteration * RTState :=
  let s := recordBreakerAttempt (o_attemptStart o) epoch s in
  let s := emit (EvSend (o_attemptStart o) epoch buf) s in
  let '(resp, err) := guard_nil (o_result o) in
  let s := report t req o epoch resp err s in
  let terminal := match err with
                  | Some e => isTerminalCancellation (o_ctx_terminal o) e
                  | None => false
                  end in
  if terminal then
    let '(r, s) := finishRequestCancellation t o resp tracked epoch s in (Done r, s)
  else
    let mustRetry := shouldRetry t resp err in
    let atLimit := (0 <=? MaxRetries t) && (MaxRetries t <=? Z.of_nat attempt) in
    let canRetry := match req_Body req with
                    | BodyNil | BodyNone => true
                    | BodyStream _ _ => tracked
                    end in
    if negb mustRetry || atLimit || negb canRetry then
      (Done (resp, err), finalizeBufferedResponseBody resp tracked s)
    else if is_ctx_err (o_ctx_drain o) then
      let '(r, s) := finishRequestCancellation t o resp tracked epoch s in (Done r, s)
    else
      (Again epoch (match resp with Some r => Some (r, o_receivedAt o) | None => None end),
       emit_if (has_resp_body resp) EvDrain s).

(** One iteration.  [tracked] says whether a [bufferTracker] holds the body,
    [buf] what every attempt sends. *)
Definition iterate (t : Transport) (req : Request) (o : Observed) (tracked : bool) (buf : option str)
    (attempt : nat) (epoch : Z) (last : option (Response * Time)) (s : RTState) : iteration * RTState :=
  let retry := (0 <? attempt)%nat in
  if retry && is_ctx_err (o_ctx_top o) then
    let '(r, s) := finishRequestCancellation t o None tracked epoch s in (Done r, s)
  else
    let s := emit_if ((attempt =? 1)%nat && InFlightRetries t) (EvInFlight 1) s in
    let allow := if retry && tr_Breaker t then o_allow o else Some epoch in
    let s := emit_if (retry && tr_Breaker t) (EvAllow (o_allow o)) s in
    match allow with
    | None => (Done (None, Some (plain_err CircuitOpen)), emit_if tracked (EvFinalize false) s)
    | Some epoch =>
        let s := emit_if tracked EvBody s in
        let s := emit_if retry (EvWait (retryWait t attempt o last)) s in
        if retry && o_wait_done o then
          let '(r, s) := finishRequestCancellation t o None tracked epoch s in (Done r, s)
        else try_once t req o tracked buf attempt epoch s
    end.

(** The loop; [None] is out of fuel. *)
Fixpoint loop (fuel : nat) (t : Transport) (req : Request) (obs : nat → Observed)
    (tracked : bool) (buf : option str) (attempt : nat) (epoch : Z)
    (last : option (Response * Time)) (s : RTState)
    : option ((option Response * option goerr) * RTState) :=
  match fuel with
  | O => None
  | S fuel =>
      match iterate t req (obs attempt) tracked buf attempt epoch last s with
      | (Done r, s) => Some (r, s)
      | (Again epoch last, s) => loop fuel t req obs tracked buf (S attempt) epoch last s
      end
  end.

(** What [io.Copy] reads of a body through a [LimitReader] of [n] bytes: the
    bytes, and the error it stops at unless the limit comes first. *)
Definition read_limited (n : Z) (content : str) (err : option goerr) : str * option goerr :=
  if n <=? Z.of_nat (length content) then (take (Z.to_nat n) content, None) else (content, err).

(** The single attempt with a body too large to buffer. *)
Definition send_unbuffered (t : Transport) (req : Request) (obs : nat → Observed) (epoch : Z)
    (body : str) (s : RTState) : (option Response * option goerr) * RTState :=
  let o := obs 0%nat in
  let s := recordBreakerAttempt (o_attemptStart o) epoch s in
  let s := emit (EvSend (o_attemptStart o) epoch (Some body)) s in
  let '(resp, err) := guard_nil (o_result o) in
  let s := report t req o epoch resp err s in
  let terminal := match err with
                  | Some e => isTerminalCancellation (o_ctx_terminal o) e
                  | None => false
                  end in
  if terminal then finishRequestCancellation t o resp false epoch s else ((resp, err), s).

(** The deferred decrement of the in-flight counter. *)
Definition exit_retry (t : Transport) (r : (option Response * option goerr) * RTState)
    : (option Response * option goerr) * RTState :=
  let entered := existsb (λ e, match e with EvInFlight 1 => true | _ => false end) (log (snd r)) in
  (fst r, emit_if (InFlightRetries t && entered) (EvInFlight (-1)) (snd r)).

Definition content_of (b : Body) : str :=
  match b with BodyStream c _ => c | _ => [] end.

(** [RoundTrip] *)
Definition RoundTrip (fuel : nat) (t : Transport) (req : Request) (obs : nat → Observed)
    : option ((option Response * option goerr) * RTState) :=
  let epoch := match ctx_epoch req with Some e => e | None => 0 end in
  let s := {| log := []; attempt_meta := if has_attempt req then Some zeroAttempt else None |} in
  let unbuffered buf := option_map (exit_retry t) (loop fuel t req obs false buf 0 epoch None s) in
  match req_Body req with
  | BodyNil => unbuffered None
  | body =>
      if MaxBodyBytes t <=? 0 then unbuffered (Some (content_of body))
      else
        let '(buf, readErr) :=
          match body with
          | BodyStream c e => read_limited (add64 (MaxBodyBytes t) 1) c e
          | _ => ([], None)
          end in
        match readErr with
        | Some e => Some ((None, Some e), s)
        | None =>
            if MaxBodyBytes t <? Z.of_nat (length buf) then
              Some (send_unbuffered t req obs epoch (buf ++ drop (length buf) (content_of body)) s)
            else option_map (exit_retry t) (loop fuel t req obs true (Some buf) 0 epoch None s)
        end
  end.
End retry.

(** ** Specification: the protocol of one [RoundTrip]

    An automaton over the log.  It checks, event by event, that attempts stay
    within the limit, that each sends the same bytes from a fresh reader after
    its wait, under the epoch last admitted, that outcomes are reported for the
    attempt just made and at most once, that the buffer is given up once and
    nothing happens afterwards, and that the in-flight counter is balanced. *)

Record proto := {
  p_epoch : Z;
  p_pending : option Time;
  p_attempts : nat;
  p_bodies : nat;
  p_waits : nat;
  p_final : bool;
  p_inflight : Z;
}.

Definition proto0 (epoch : Z) : proto :=
  {| p_epoch := epoch; p_pending := None; p_attempts := 0; p_bodies := 0; p_waits := 0;
     p_final := false; p_inflight := 0 |}.

Section protocol.
(** [strict]: an attempt is made only when the previous one has been reported. *)
Context (t : Transport) (tracked strict : bool) (body : option str).

Definition guarded (b : bool) (p : proto) : option proto := if b then Some p else None.

Definition pending_is (p : proto) (startedAt : Time) : bool :=
  match p_pending p with Some u => u =? startedAt | None => false end.

Definition with_epoch (e : Z) (p : proto) : proto :=
  {| p_epoch := e; p_pending := p_pending p; p_attempts := p_attempts p; p_bodies := p_bodies p;
     p_waits := p_waits p; p_final := p_final p; p_inflight := p_inflight p |}.
Definition with_pending (u : option Time) (p : proto) : proto :=
  {| p_epoch := p_epoch p; p_pending := u; p_attempts := p_attempts p; p_bodies := p_bodies p;
     p_waits := p_waits p; p_final := p_final p; p_inflight := p_inflight p |}.
Definition with_counts (a b w : nat) (p : proto) : proto :=
  {| p_epoch := p_epoch p; p_pending := p_pending p; p_attempts := a; p_bodies := b;
     p_waits := w; p_final := p_final p; p_inflight := p_inflight p |}.
Definition with_end (f : bool) (i : Z) (p : proto) : proto :=
  {| p_epoch := p_epoch p; p_pending := p_pending p; p_attempts := p_attempts p; p_bodies := p_bodies p;
     p_waits := p_waits p; p_final := f; p_inflight := i |}.

Definition settled (p : proto) : bool := match p_pending p with None => true | Some _ => negb strict end.

Definition pstep (p : proto) (e : event) : option proto :=
  let '(a, b, w) := (p_attempts p, p_bodies p, p_waits p) in
  match e with
  | EvInFlight d =>
      if d =? 1 then
        guarded (InFlightRetries t && negb (p_final p) && (a =? 1)%nat && (p_inflight p =? 0)) (with_end false 1 p)
      else guarded ((d =? -1) && (p_inflight p =? 1)) (with_end (p_final p) 0 p)
  | _ =>
      if p_final p then None
      else match e with
      | EvAllow (Some e) => guarded ((0 <? a)%nat && settled p) (with_epoch e p)
      | EvAllow None => guarded ((0 <? a)%nat && settled p) p
      | EvBody => guarded (tracked && (b =? a)%nat) (with_counts a (S b) w p)
      | EvWait d => guarded ((S w =? a)%nat && (MinRetryDelay t <=? d)) (with_counts a b (S w) p)
      | EvSend st e bd =>
          guarded ((e =? p_epoch p) && bool_decide (bd = body) && settled p && (w =? a)%nat &&
                   (negb tracked || (b =? S a)%nat) &&
                   ((MaxRetries t <? 0) || (Z.of_nat a <=? MaxRetries t)))
            (with_pending (Some st) (with_counts (S a) b w p))
      | EvFailure _ _ st e | EvSuccess st e =>
          guarded ((e =? p_epoch p) && pending_is p st) (with_pending None p)
      | EvCancel e => guarded (e =? p_epoch p) (with_pending None p)
      | EvDrain | EvCloseResponse => guarded (0 <? a)%nat p
      | EvFinalize _ => guarded tracked (with_end true (p_inflight p) p)
      | EvInFlight _ => None
      end
  end.

Fixpoint follow (p : proto) (l : list event) : option proto :=
  match l with
  | [] => Some p
  | e :: l => match pstep p e with Some p => follow p l | None => None end
  end.
End protocol.

(** What reaches the inner transport: the caller's body. *)
Definition original_body (b : Body) : option str :=
  match b with BodyNil => None | b => Some (content_of b) end.

(** Whether the body is held by a [bufferTracker]. *)
Definition buffered (t : Transport) (b : Body) : bool :=
  match b with
  | BodyNil => false
  | b => (0 <? MaxBodyBytes t) && (Z.of_nat (length (content_of b)) <=? MaxBodyBytes t)
  end.

(** A context, once done, stays done. *)
Definition ctx_monotone (o : Observed) : Prop :=
  (is_ctx_err (o_ctx_suppress o) = true → is_ctx_err (o_ctx_terminal o) = true).

(** The inner transport answers with registered status classes only. *)
Definition status_registered (o : Observed) : Prop :=
  ∀ r, fst (o_result o) = Some r → StatusCode r < 600.

(** The attempt returned to the caller was no failure. *)
Definition not_failed `{UnicodeTables} (ParseTime : str → option Time) (o : Observed) : Prop :=
  let '(resp, err) := guard_nil (o_result o) in
  status_failure ParseTime o resp = false ∧ error_failure o err = false.

Definition is_send (e : event) : bool := match e with EvSend _ _ _ => true | _ => false end.
Definition sends (l : list event) : nat := length (List.filter is_send l).

(** The documented contract of [rand.Int64N]. *)
Definition wait_bounds (rand : Z → Z) : Prop := ∀ n, 0 < n → 0 <= rand n < n.

(** A sample call: two retries allowed, a 5-byte body, answers 503, 503, 200. *)
Definition demo_transport (maxBody : Z) : Transport :=
  {| MaxRetries := 2; MaxBodyBytes := maxBody; CheckRetry := None; WaitMin := Second; WaitMax := 8 * Second;
     MinRetryDelay := 0; InFlightRetries := true; tr_Breaker := true |}.

Definition demo_request (b : Body) : Request :=
  {| req_Body := b; ctx_epoch := Some 3; deferSuccess := true; has_attempt := true |}.

Definition answer (code : Z) : option Response * option goerr :=
  (Some {| StatusCode := code; resp_Header := None; resp_hasBody := true |}, None).

Definition demo_observed (codes : list Z) (n : nat) : Observed :=
  {| o_ctx_top := None; o_allow := Some (Z.of_nat n); o_retryNow := 10 * Z.of_nat n; o_rand := λ _, 0;
     o_wait_done := false; o_attemptStart := 10 * Z.of_nat n + 1; o_result := answer (nth n codes 200);
     o_receivedAt := 10 * Z.of_nat n + 2; o_now := 10 * Z.of_nat n + 3; o_ctx_suppress := None;
     o_ctx_terminal := None; o_ctx_drain := None; o_ctx_finish := None |}.

Definition demo_run (maxBody : Z) (b : Body) (codes : list Z) : option ((option Response * option goerr) * RTState) :=
  RoundTrip (λ _, None) 5 (demo_transport maxBody) (demo_request b) (demo_observed codes).

Definition demo_log (maxBody : Z) (b : Body) (codes : list Z) : list event :=
  match demo_run maxBody b codes with Some (_, s) => log s | None => [] end.

Definition demo_result : (option Response * option goerr) * RTState :=
  Eval vm_compute in
    match demo_run 100 (BodyStream "hello" None) [503; 503] with
    | Some r => r
    | None => ((None, None), {| log := []; attempt_meta := None |})
    end.

(** ** Lemmas: the backoff *)

Lemma backoff_base_exact n wMax base :
  0 < base → base <= wMax → wMax < 2 ^ 62 →
  backoff_base n wMax base = Z.min (base * 2 ^ Z.of_nat n) wMax.
Proof.
  revert base. induction n as [|n IH]; intros base H0 H1 H2; simpl backoff_base.
  - change (Z.of_nat 0) with 0. rewrite Z.pow_0_r. lia.
  - unfold mul64. rewrite wrap64_id by (unfold in_int64, min_int64, max_int64; lia).
    rewrite Nat2Z.inj_succ, Z.pow_succ_r by lia.
    assert (Hp : 0 < 2 ^ Z.of_nat n) by (apply Z.pow_pos_nonneg; lia).
    destruct (Z.leb_spec wMax (base * 2)) as [Hle|Hgt].
    + nia.
    + rewrite IH by lia. f_equal. ring.
Qed.

Lemma calcWait_range rand attempt wMin wMax :
  wait_min wMin <= wait_max wMax →
  wait_min wMin <= calcWait rand attempt wMin wMax <= wait_max wMax.
Proof.
  intros Hle. unfold calcWait. cbv zeta. match goal with |- context [if ?b <? wait_min wMin then _ else _] => generalize b end.
  intros z. bcase; lia.
Qed.

Lemma round53_close z : 0 <= z → Z.abs (round53 z - z) * 2 ^ 52 <= z ∧ 0 <= round53 z.
Proof.
  intros Hz. unfold round53. rewrite (Z.abs_eq z) by done.
  destruct (Z.ltb_spec z (2 ^ 53)) as [Hlt|Hge]; [lia|].
  assert (H53 : 53 <= Z.log2 z) by (apply Z.log2_le_pow2; lia).
  pose proof (Z.log2_spec z ltac:(lia)) as [Hlo _].
  set (u := 2 ^ (Z.log2 z - 52)). assert (Hu : 0 < u) by (apply Z.pow_pos_nonneg; lia).
  assert (Huz : u * 2 ^ 52 <= z).
  { unfold u. rewrite <- Z.pow_add_r by lia. by replace (Z.log2 z - 52 + 52) with (Z.log2 z) by lia. }
  pose proof (Z.div_mod z u ltac:(lia)) as Hdm. pose proof (Z.mod_pos_bound z u Hu) as Hr.
  pose proof (Z.div_pos z u ltac:(lia) Hu) as Hq.
  set (q := z / u) in *. set (r := z mod u) in *. replace (Z.sgn z) with 1 by lia. rewrite Z.mul_1_l.
  assert (Hdist : ∀ q', q' = q ∨ q' = q + 1 → Z.abs (q' * u - z) <= u) by (intros q' [->| ->]; nia).
  destruct ((2 * r <? u) || ((2 * r =? u) && Z.even q)).
  - specialize (Hdist q (or_introl eq_refl)). nia.
  - specialize (Hdist (q + 1) (or_intror eq_refl)). nia.
Qed.

(** The jitter is a quarter of the base, up to rounding. *)
Lemma quarter_bounds z : 0 <= z <= 2 ^ 62 → 0 <= quarter z <= z / 4 + 2 ^ 9.
Proof.
  intros Hz. destruct (round53_close z) as [Hc H0]; [lia|]. unfold quarter.
  assert (Hb : Z.abs (round53 z - z) <= 2 ^ 10).
  { assert (Z.abs (round53 z - z) * 2 ^ 52 <= 2 ^ 10 * 2 ^ 52) by lia. nia. }
  rewrite Z.quot_div_nonneg by lia.
  assert (round53 z / 4 <= (z + 4 * 2 ^ 8) / 4) by (apply Z.div_le_mono; lia).
  rewrite (Z.mul_comm 4), Z.div_add in H by lia.
  pose proof (Z.div_pos (round53 z) 4 ltac:(lia)).
  assert (round53 z / 4 <= 2 ^ 62) by (apply Z.div_le_upper_bound; lia).
  rewrite wrap64_id; [|unfold in_int64, min_int64, max_int64; lia]. lia.
Qed.

(** ** Lemmas: the protocol *)

Section protocol_lemmas.
Context `{UnicodeTables} (ParseTime : str → option Time).
Context (t : Transport) (req : Request) (obs : nat → Observed).
Context (tracked strict : bool) (body : option str) (epoch0 : Z).

Definition enters (e : event) : bool := match e with EvInFlight 1 => true | _ => false end.

(** The log so far follows the protocol, and has reached state [p]. *)
Definition at_state (s : RTState) (p : proto) : Prop :=
  follow t tracked strict body (proto0 epoch0) (log s) = Some p ∧
  existsb enters (log s) = (p_inflight p =? 1).

Lemma follow_app l k p :
  follow t tracked strict body p (l ++ k) =
    match follow t tracked strict body p l with
    | Some p => follow t tracked strict body p k
    | None => None
    end.
Proof. revert p. induction l as [|e l IH]; intros p; simpl; [done|]. by destruct (pstep _ _ _ _ p e). Qed.

Lemma pstep_inflight p e p' :
  pstep t tracked strict body p e = Some p' →
  p_inflight p' = match e with EvInFlight d => if d =? 1 then 1 else 0 | _ => p_inflight p end.
Proof.
  unfold pstep, guarded. intros Hs.
  destruct e; repeat (case_match; try done); simplify_eq; try done; simpl; bprop; lia.
Qed.

Lemma at_emit s p e p' :
  at_state s p → e ≠ EvInFlight (-1) → pstep t tracked strict body p e = Some p' → at_state (emit e s) p'.
Proof.
  intros [Hf He] Hn Hs. split.
  - simpl. rewrite follow_app, Hf. simpl. by rewrite Hs.
  - simpl. rewrite existsb_app, He. simpl. rewrite orb_false_r, (pstep_inflight _ _ _ Hs).
    destruct e; simpl; try by rewrite orb_false_r.
    unfold pstep, guarded in Hs. destruct (Z.eqb_spec delta 1) as [->|H1].
    + by rewrite orb_true_r.
    + destruct (Z.eqb_spec delta (-1)) as [->|H2]; [done|]. done.
Qed.

Lemma at_emit_if (b : bool) s p e p' :
  at_state s p → e ≠ EvInFlight (-1) →
  (if b then pstep t tracked strict body p e = Some p' else p' = p) → at_state (emit_if b e s) p'.
Proof. destruct b; simpl; [by apply at_emit | by intros ? ? ->]. Qed.

Lemma at_attempt f s p : at_state s p → at_state (on_attempt f s) p.
Proof. done. Qed.

(** The end of a cancelled call. *)
Lemma at_finish o resp epoch s p :
  at_state s p → p_final p = false → p_epoch p = epoch → (resp = None ∨ (0 < p_attempts p)%nat) →
  ∃ p', at_state (snd (finishRequestCancellation t o resp tracked epoch s)) p' ∧
    p_final p' = tracked ∧ p_attempts p' = p_attempts p ∧
    (tr_Breaker t = true → p_pending p' = None).
Proof.
  intros Hs Hf He Hr. unfold finishRequestCancellation. simpl.
  set (p1 := if tr_Breaker t then with_pending None p else p).
  assert (H1 : at_state (emit_if (tr_Breaker t) (EvCancel epoch) s) p1).
  { eapply at_emit_if; [exact Hs|done|]. subst p1. destruct (tr_Breaker t); [|done].
    unfold pstep, guarded. simpl. rewrite Hf, He, Z.eqb_refl. done. }
  assert (Hf1 : p_final p1 = false) by (by subst p1; destruct (tr_Breaker t)).
  assert (H2 : at_state (emit_if (has_resp_body resp) EvCloseResponse (emit_if (tr_Breaker t) (EvCancel epoch) s)) p1).
  { eapply at_emit_if; [exact H1|done|]. destruct resp as [r|]; simpl; [|done].
    destruct (resp_hasBody r); [|done]. unfold pstep, guarded. rewrite Hf1. simpl. destruct Hr as [|Hr]; [done|].
    assert (p_attempts p1 = p_attempts p) as -> by (by subst p1; destruct (tr_Breaker t)).
    by destruct (Nat.ltb_spec 0 (p_attempts p)); [|lia]. }
  exists (if tracked then with_end true (p_inflight p1) p1 else p1). split; [|split; [|split]].
  - eapply at_emit_if; [exact H2|done|]. destruct tracked; [|done]. unfold pstep, guarded. simpl. by rewrite Hf1.
  - by destruct tracked.
  - subst p1. by destruct tracked, (tr_Breaker t).
  - subst p1. intros ->. by destruct tracked.
Qed.

(** What the accounting leaves pending. *)
Lemma at_report o epoch resp err s p :
  at_state s p → p_final p = false → p_epoch p = epoch → p_pending p = Some (o_attemptStart o) →
  ∃ u, at_state (report ParseTime t req o epoch resp err s) (with_pending u p) ∧
    (u = None ∨ u = Some (o_attemptStart o)) ∧
    (tr_Breaker t = true → status_failure ParseTime o resp || error_failure o err = true → u = None).
Proof.
  intros Hs Hf He Hp.
  assert (Hsame : with_pending (Some (o_attemptStart o)) p = p) by (rewrite <- Hp; by destruct p).
  assert (Hstep : pending_is p (o_attemptStart o) = true) by (unfold pending_is; rewrite Hp; apply Z.eqb_refl).
  unfold report. destruct (_ || _) eqn:Ef.
  - destruct (tr_Breaker t) eqn:Eb.
    + exists None. split; [|by eauto]. eapply at_emit; [by apply at_attempt, Hs|done|].
      unfold pstep, guarded. simpl. by rewrite Hf, He, Z.eqb_refl, Hstep.
    + exists (Some (o_attemptStart o)). rewrite Hsame. split; [by apply at_attempt|]. split; [by right|done].
  - destruct (_ && _) eqn:Es; simpl.
    + exists None. split; [|split; [by left|done]]. eapply at_emit; [exact Hs|done|].
      unfold pstep, guarded. simpl. by rewrite Hf, He, Z.eqb_refl, Hstep.
    + exists (Some (o_attemptStart o)). rewrite Hsame. split; [done|]. split; [by right|done].
Qed.

Lemma calcWait_pos rand attempt wMin wMax : 0 < calcWait rand attempt wMin wMax.
Proof.
  unfold calcWait. cbv zeta. match goal with |- context [if ?b <? wait_min wMin then _ else _] => generalize b end.
  intros z. unfold wait_min, wait_max, Millisecond, Second. bcase; lia.
Qed.

Lemma retryWait_floor k o last : MinRetryDelay t <= retryWait ParseTime t k o last.
Proof.
  unfold retryWait. cbv zeta. pose proof (calcWait_pos (o_rand o) k (WaitMin t) (WaitMax t)) as Hp.
  set (c := calcWait _ _ _ _) in *. destruct last as [[r u]|].
  - set (ra := ParseRetryAfter _ _ _ _). destruct (Z.ltb_spec 0 ra), (Z.ltb_spec c ra); simpl;
      match goal with |- context [(0 <? MinRetryDelay t) && (?w <? _)] =>
        destruct (Z.ltb_spec 0 (MinRetryDelay t)), (Z.ltb_spec w (MinRetryDelay t)) end; simpl; lia.
  - destruct (Z.ltb_spec 0 (MinRetryDelay t)), (Z.ltb_spec c (MinRetryDelay t)); simpl; lia.
Qed.

Lemma default_retry_reported o resp err :
  guard_nil (o_result o) = (resp, err) → ctx_monotone o → status_registered o →
  match err with Some e => isTerminalCancellation (o_ctx_terminal o) e | None => false end = false →
  DefaultCheckRetry resp err = true →
  status_failure ParseTime o resp || error_failure o err = true.
Proof.
  intros Hg Hm Hs Ht Hd. destruct err as [e|]; simpl in *.
  - apply orb_true_intro. right. unfold suppressBreakerFailureForError, isTerminalCancellation in *.
    apply negb_true_iff in Hd. rewrite Hd. simpl. unfold ctx_monotone in Hm.
    destruct (is_ctx_err (o_ctx_suppress o)); [|done]. rewrite Hm in Ht by done. simpl in *. by rewrite Ht.
  - destruct resp as [r|]; [|done]. assert (Hr : fst (o_result o) = Some r).
    { unfold guard_nil in Hg. destruct (o_result o) as [[r'|] [e|]]; by simplify_eq/=. }
    specialize (Hs r Hr). rewrite orb_false_r. unfold status_failure, IsFailureStatusWithHeaders, IsFailureStatus.
    destruct (Z.eqb_spec (StatusCode r) 429) as [->|]; [done|]. simpl in Hd. apply Z.leb_le in Hd.
    destruct (Z.eqb_spec (StatusCode r) 403); [lia|].
    destruct (Z.leb_spec 500 (StatusCode r)), (Z.ltb_spec (StatusCode r) 600); try lia.
Qed.

(** The state of the protocol when iteration [k] starts. *)
Definition entry (k : nat) (epoch : Z) (s : RTState) : Prop :=
  ∃ p, at_state s p ∧ p_final p = false ∧ p_epoch p = epoch ∧ p_attempts p = k ∧
    p_bodies p = (if tracked then k else 0%nat) ∧ p_waits p = (k - 1)%nat ∧ settled strict p = true ∧
    (0 <= MaxRetries t → Z.of_nat k <= MaxRetries t) ∧
    p_inflight p = (if InFlightRetries t && (2 <=? k)%nat then 1 else 0).

(** What has been established when iteration [k] returns. *)
Definition exit_ok (k : nat) (r : option Response * option goerr) (s : RTState) : Prop :=
  ∃ p, at_state s p ∧ p_final p = tracked ∧ (p_attempts p <= S k)%nat ∧
    (0 <= MaxRetries t → Z.of_nat (p_attempts p) <= MaxRetries t + 1) ∧
    (strict = true → ∀ st, p_pending p = Some st →
      st = o_attemptStart (obs k) ∧ r = guard_nil (o_result (obs k)) ∧ not_failed ParseTime (obs k) ∧
      ∀ a, attempt_meta s = Some a → StartedAt a = st ∧ Epoch a = p_epoch p ∧ FailureRecorded a = false).

Context (Hstrict : strict = true →
  tr_Breaker t = true ∧ CheckRetry t = None ∧ ∀ n, ctx_monotone (obs n) ∧ status_registered (obs n)).

Lemma meta_report o epoch resp err ev s a :
  attempt_meta (report ParseTime t req o epoch resp err
    (emit ev (recordBreakerAttempt (o_attemptStart o) epoch s))) = Some a →
  StartedAt a = o_attemptStart o ∧ Epoch a = epoch ∧
  FailureRecorded a = (status_failure ParseTime o resp || error_failure o err).
Proof.
  unfold report. destruct (_ || _).
  - destruct (tr_Breaker t); simpl; destruct (attempt_meta s); simpl; intros; by simplify_eq/=.
  - destruct (_ && _); simpl; destruct (attempt_meta s); simpl; intros; by simplify_eq/=.
Qed.

(** Ready to send: the state between admission (and wait) and the attempt. *)
Definition ready (k : nat) (epoch : Z) (p : proto) : Prop :=
  p_final p = false ∧ p_epoch p = epoch ∧ p_attempts p = k ∧
  p_bodies p = (if tracked then S k else 0%nat) ∧ p_waits p = k ∧ settled strict p = true ∧
  (0 <= MaxRetries t → Z.of_nat k <= MaxRetries t) ∧
  p_inflight p = (if InFlightRetries t && (1 <=? k)%nat then 1 else 0).

Lemma at_send k epoch s p o :
  at_state s p → ready k epoch p →
  at_state (emit (EvSend (o_attemptStart o) epoch body) (recordBreakerAttempt (o_attemptStart o) epoch s))
    (with_pending (Some (o_attemptStart o)) (with_counts (S k) (p_bodies p) k p)).
Proof.
  intros Hs (Hf & He & Hk & Hb & Hw & Hset & Hm & _). eapply at_emit; [by apply at_attempt, Hs|done|].
  unfold pstep, guarded. simpl. rewrite Hf, He, Hk, Hw, Hset, Z.eqb_refl, Nat.eqb_refl, Hb.
  rewrite bool_decide_eq_true_2 by done. simpl.
  assert (negb tracked || ((if tracked then S k else 0%nat) =? S k)%nat = true) as ->
    by (destruct tracked; [apply Nat.eqb_refl | done]).
  destruct (Z.ltb_spec (MaxRetries t) 0), (Z.leb_spec (Z.of_nat k) (MaxRetries t)); simpl; try done. lia.
Qed.

Lemma exit_finish k o resp epoch s p :
  at_state s p → p_final p = false → p_epoch p = epoch → (resp = None ∨ (0 < p_attempts p)%nat) →
  (p_attempts p <= S k)%nat → (0 <= MaxRetries t → Z.of_nat (p_attempts p) <= MaxRetries t + 1) →
  ∀ r s', finishRequestCancellation t o resp tracked epoch s = (r, s') → exit_ok k r s'.
Proof.
  intros Hs Hf He Hr Hk Hm r s' Hfin.
  destruct (at_finish o resp epoch s p Hs Hf He Hr) as (p' & Hp' & Hf' & Ha & Hpend).
  rewrite Hfin in Hp'. exists p'. split; [done|]. split; [done|]. rewrite Ha.
  split; [done|]. split; [done|]. intros Hst. destruct (Hstrict Hst) as [Hb _].
  rewrite Hpend by done. done.
Qed.

(** The state after an attempt and its accounting. *)
Definition accounted (k : nat) (epoch : Z) (s : RTState) : RTState :=
  let '(resp, err) := guard_nil (o_result (obs k)) in
  report ParseTime t req (obs k) epoch resp err
    (emit (EvSend (o_attemptStart (obs k)) epoch body) (recordBreakerAttempt (o_attemptStart (obs k)) epoch s)).

Lemma at_accounted k epoch s p resp err :
  at_state s p → ready k epoch p → guard_nil (o_result (obs k)) = (resp, err) →
  ∃ u, at_state (accounted k epoch s) (with_pending u (with_counts (S k) (p_bodies p) k p)) ∧
    (u = None ∨ u = Some (o_attemptStart (obs k))) ∧
    (tr_Breaker t = true → status_failure ParseTime (obs k) resp || error_failure (obs k) err = true → u = None).
Proof.
  intros Hs Hr Hg. pose proof (at_send k epoch s p (obs k) Hs Hr) as H1.
  destruct Hr as (Hf & He & _). unfold accounted. rewrite Hg.
  by apply (at_report (obs k) epoch resp err _ _ H1 Hf He eq_refl).
Qed.

Lemma exit_cancelled k epoch s p resp err r s' :
  at_state s p → ready k epoch p → guard_nil (o_result (obs k)) = (resp, err) →
  finishRequestCancellation t (obs k) resp tracked epoch (accounted k epoch s) = (r, s') → exit_ok k r s'.
Proof.
  intros Hs Hr Hg. destruct (at_accounted k epoch s p resp err Hs Hr Hg) as (u & H2 & _).
  destruct Hr as (Hf & He & Hk & _ & _ & _ & Hm & _).
  eapply exit_finish; [exact H2|done|done|right; simpl; lia|simpl; lia|simpl; lia].
Qed.

Lemma exit_return k epoch s p resp err :
  at_state s p → ready k epoch p → guard_nil (o_result (obs k)) = (resp, err) →
  exit_ok k (resp, err) (finalizeBufferedResponseBody resp tracked (accounted k epoch s)).
Proof.
  intros Hs Hr Hg. destruct (at_accounted k epoch s p resp err Hs Hr Hg) as (u & H2 & Hu & Hrep).
  destruct Hr as (Hf & He & Hk & _ & _ & _ & Hm & _). set (p2 := with_pending u _) in *.
  exists (if tracked then with_end true (p_inflight p2) p2 else p2). split; [|split; [|split; [|split]]].
  - unfold finalizeBufferedResponseBody. eapply at_emit_if; [exact H2|done|].
    destruct tracked eqn:Et; [|done]. unfold pstep, guarded. simpl. rewrite Hf. by rewrite ?Et.
  - by destruct tracked.
  - destruct tracked; simpl; lia.
  - destruct tracked; simpl; lia.
  - intros Hst st Hp. destruct (Hstrict Hst) as [Hbr _].
    assert (Hpu : u = Some st) by (destruct tracked; exact Hp).
    assert (Hst' : st = o_attemptStart (obs k)) by (destruct Hu as [->| ->]; by simplify_eq).
    assert (Hno : status_failure ParseTime (obs k) resp || error_failure (obs k) err = false).
    { destruct (_ || _) eqn:E; [|done]. rewrite Hrep in Hpu by done. done. }
    split; [done|]. split; [by rewrite Hg|].
    split; [unfold not_failed; rewrite Hg; by apply orb_false_elim in Hno|].
    intros a Ha. assert (Hmeta : attempt_meta (accounted k epoch s) = Some a).
    { unfold finalizeBufferedResponseBody in Ha. destruct tracked; exact Ha. }
    unfold accounted in Hmeta. rewrite Hg in Hmeta.
    apply meta_report in Hmeta as (Hsa & Hea & Hfa). rewrite Hsa, Hea, Hfa, Hno.
    split; [done|]. split; [|done]. destruct tracked; by simpl.
Qed.

Lemma try_once_ok k epoch s p :
  at_state s p → ready k epoch p →
  match try_once ParseTime t req (obs k) tracked body k epoch s with
  | (Done r, s') => exit_ok k r s'
  | (Again epoch' _, s') => entry (S k) epoch' s'
  end.
Proof.
  intros Hs Hr. unfold try_once. destruct (guard_nil (o_result (obs k))) as [resp err] eqn:Hg.
  assert (Hacc : accounted k epoch s = report ParseTime t req (obs k) epoch resp err
    (emit (EvSend (o_attemptStart (obs k)) epoch body) (recordBreakerAttempt (o_attemptStart (obs k)) epoch s)))
    by (unfold accounted; by rewrite Hg).
  rewrite <- Hacc. clear Hacc.
  destruct (match err with Some e => isTerminalCancellation (o_ctx_terminal (obs k)) e | None => false end) eqn:Hterm.
  { destruct (finishRequestCancellation _ _ _ _ _ _) as [r s'] eqn:E. by eapply exit_cancelled. }
  destruct (negb (shouldRetry t resp err) || _ || _) eqn:Hstop; [by eapply exit_return|].
  destruct (is_ctx_err (o_ctx_drain (obs k))).
  { destruct (finishRequestCancellation _ _ _ _ _ _) as [r s'] eqn:E. by eapply exit_cancelled. }
  destruct (at_accounted k epoch s p resp err Hs Hr Hg) as (u & H2 & _ & Hrep).
  destruct Hr as (Hf & He & Hk & Hb & Hw & _ & Hm & Hi). set (p2 := with_pending u _) in *.
  apply orb_false_elim in Hstop as [[Hret Hlim]%orb_false_elim _]. apply negb_false_iff in Hret.
  exists p2. split; [|split; [exact Hf|split; [exact He|split; [done|]]]].
  - eapply at_emit_if; [exact H2|done|]. destruct (has_resp_body resp); [|done].
    unfold pstep, guarded. simpl. by rewrite Hf.
  - split; [exact Hb|]. split; [simpl; lia|]. split; [|split; [|exact Hi]].
    + unfold settled. simpl. destruct strict eqn:Est; [|by destruct u].
      destruct (Hstrict eq_refl) as (Hbr & Hc & Hn). destruct (Hn k).
      rewrite Hrep; [done|done|]. apply default_retry_reported; try done.
      unfold shouldRetry in Hret. by rewrite Hc in Hret.
    + intros H0. apply andb_false_iff in Hlim as [Hl|Hl]; bprop; lia.
Qed.

(** Admission, reader and wait of iteration [k]. *)
Lemma at_ready k epoch s p o last :
  at_state s p → p_final p = false → p_epoch p = epoch → p_attempts p = k →
  p_bodies p = (if tracked then k else 0%nat) → p_waits p = (k - 1)%nat → settled strict p = true →
  (0 <= MaxRetries t → Z.of_nat k <= MaxRetries t) →
  p_inflight p = (if InFlightRetries t && (1 <=? k)%nat then 1 else 0) →
  ∃ p', at_state (emit_if (0 <? k)%nat (EvWait (retryWait ParseTime t k o last)) (emit_if tracked EvBody s)) p' ∧
    ready k epoch p'.
Proof.
  intros Hs Hf He Hk Hb Hw Hset Hm Hi.
  set (p1 := if tracked then with_counts k (S k) (p_waits p) p else p).
  assert (H1 : at_state (emit_if tracked EvBody s) p1).
  { eapply at_emit_if; [exact Hs|done|]. subst p1. destruct tracked eqn:Et; [|done].
    unfold pstep, guarded. rewrite Hf, Hk, Hb, ?Et, Nat.eqb_refl. done. }
  assert (Hp1 : p_final p1 = false ∧ p_epoch p1 = epoch ∧ p_attempts p1 = k ∧
    p_bodies p1 = (if tracked then S k else 0%nat) ∧ p_waits p1 = (k - 1)%nat ∧
    settled strict p1 = true ∧ p_inflight p1 = p_inflight p).
  { subst p1. by destruct tracked. }
  destruct Hp1 as (Hf1 & He1 & Hk1 & Hb1 & Hw1 & Hset1 & Hi1).
  exists (if (0 <? k)%nat then with_counts k (p_bodies p1) k p1 else p1). split.
  - eapply at_emit_if; [exact H1|done|]. destruct (Nat.ltb_spec 0 k) as [Hk0|]; [|done].
    unfold pstep, guarded. rewrite Hf1, Hk1, Hw1. pose proof (retryWait_floor k o last) as Hfl.
    apply Z.leb_le in Hfl. rewrite Hfl. replace (S (k - 1)) with k by lia. by rewrite Nat.eqb_refl.
  - unfold ready. rewrite <- Hi1 in Hi.
    destruct (Nat.ltb_spec 0 k); simpl; repeat (split; [done || lia|]); done.
Qed.

Lemma iterate_ok k epoch last s :
  entry k epoch s →
  match iterate ParseTime t req (obs k) tracked body k epoch last s with
  | (Done r, s') => exit_ok k r s'
  | (Again epoch' _, s') => entry (S k) epoch' s'
  end.
Proof.
  intros (p & Hs & Hf & He & Hk & Hb & Hw & Hset & Hm & Hi). unfold iterate.
  destruct ((0 <? k)%nat && is_ctx_err (o_ctx_top (obs k))).
  { destruct (finishRequestCancellation _ _ _ _ _ _) as [r s'] eqn:E.
    eapply (exit_finish k (obs k) None epoch s p); eauto; lia. }
  set (ent := ((k =? 1)%nat && InFlightRetries t)).
  set (p1 := if ent then with_end false 1 p else p).
  assert (H1 : at_state (emit_if ent (EvInFlight 1) s) p1).
  { eapply at_emit_if; [exact Hs|done|]. subst p1 ent. destruct (Nat.eqb_spec k 1) as [->|]; [|done].
    destruct (InFlightRetries t) eqn:Eif; [|done]. unfold pstep, guarded. simpl. by rewrite Hf, Hk, Hi, ?Eif. }
  assert (Hp1 : p_final p1 = false ∧ p_epoch p1 = epoch ∧ p_attempts p1 = k ∧
    p_bodies p1 = (if tracked then k else 0%nat) ∧ p_waits p1 = (k - 1)%nat ∧
    settled strict p1 = true ∧ p_inflight p1 = (if InFlightRetries t && (1 <=? k)%nat then 1 else 0)).
  { subst p1 ent. destruct (InFlightRetries t); rewrite ?andb_true_r, ?andb_false_r in *; [|done].
    destruct (Nat.eqb_spec k 1) as [->|Hk1]; [done|]. simpl in *.
    repeat (split; [done|]). rewrite Hi. by destruct k as [|[|k]]. }
  clearbody p1. clear Hs Hf He Hk Hb Hw Hset Hi p.
  destruct Hp1 as (Hf & He & Hk & Hb & Hw & Hset & Hi).
  set (adm := (0 <? k)%nat && tr_Breaker t).
  set (allow := if adm then o_allow (obs k) else Some epoch).
  set (p2 := match allow with Some e => with_epoch e p1 | None => p1 end).
  assert (H2 : at_state (emit_if adm (EvAllow (o_allow (obs k))) (emit_if ent (EvInFlight 1) s)) p2).
  { eapply at_emit_if; [exact H1|done|]. subst p2 allow adm.
    destruct (Nat.ltb_spec 0 k); [|simpl; rewrite <- He; by destruct p1].
    destruct (tr_Breaker t); simpl; [|rewrite <- He; by destruct p1].
    unfold pstep, guarded. rewrite Hf, Hk, Hset. destruct k; [lia|]. by destruct (o_allow (obs (S k))). }
  destruct allow as [epoch'|] eqn:Ea.
  - destruct (at_ready k epoch' _ p2 (obs k) last H2 Hf eq_refl Hk Hb Hw Hset Hm Hi) as (p3 & H3 & Hr).
    set (s3 := emit_if _ _ (emit_if tracked _ _)) in *.
    destruct ((0 <? k)%nat && o_wait_done (obs k)); [|by apply (try_once_ok k epoch' s3 p3)].
    destruct (finishRequestCancellation _ _ _ _ _ _) as [r s'] eqn:E.
    destruct Hr as (Hf3 & He3 & Hk3 & _ & _ & _ & Hm3 & _).
    eapply (exit_finish k (obs k) None epoch' s3 p3); eauto; lia.
  - exists (if tracked then with_end true (p_inflight p2) p2 else p2). subst p2.
    split; [|split; [|split; [|split]]].
    + eapply at_emit_if; [exact H2|done|]. destruct tracked eqn:Et; [|done].
      unfold pstep, guarded. by rewrite Hf, ?Et.
    + by destruct tracked.
    + destruct tracked; simpl; lia.
    + destruct tracked; simpl; lia.
    + intros Hst st Hp. unfold settled in Hset. rewrite Hst in Hset.
      destruct tracked; simpl in Hp; by rewrite Hp in Hset.
Qed.

Lemma loop_ok fuel k epoch last s r s' :
  entry k epoch s →
  loop ParseTime fuel t req obs tracked body k epoch last s = Some (r, s') →
  ∃ n, exit_ok n r s'.
Proof.
  revert k epoch last s. induction fuel as [|fuel IH]; intros k epoch last s Hent Hl; [done|].
  simpl in Hl. pose proof (iterate_ok k epoch last s Hent) as Hi.
  destruct (iterate _ _ _ _ _ _ _ _ _ _) as [[r1|e1 l1] s1].
  - simplify_eq. eauto.
  - by apply IH in Hl.
Qed.

(** With a limit, the loop returns after at most [MaxRetries + 1] iterations. *)
Lemma iterate_done k epoch last s :
  0 <= MaxRetries t <= Z.of_nat k →
  ∃ r s', iterate ParseTime t req (obs k) tracked body k epoch last s = (Done r, s').
Proof.
  intros Hk. unfold iterate.
  assert (Hfin : ∀ resp e s0, ∃ r s',
    (let '(r, s) := finishRequestCancellation t (obs k) resp tracked e s0 in (Done r, s)) = (Done r, s')).
  { intros. destruct (finishRequestCancellation _ _ _ _ _ _). eauto. }
  destruct (_ && is_ctx_err (o_ctx_top (obs k))); [apply Hfin|].
  destruct (if _ && _ then o_allow _ else _) as [e|]; [|eauto].
  destruct (_ && o_wait_done (obs k)); [apply Hfin|]. unfold try_once.
  destruct (guard_nil _) as [resp err].
  destruct (match err with Some e => _ | None => false end); [apply Hfin|].
  assert ((0 <=? MaxRetries t) && (MaxRetries t <=? Z.of_nat k) = true) as ->.
  { apply andb_true_intro. split; apply Z.leb_le; lia. }
  rewrite orb_true_r. eauto.
Qed.

Lemma loop_total fuel k epoch last s :
  0 <= MaxRetries t → (Z.of_nat k + Z.of_nat fuel > MaxRetries t) → (0 < fuel)%nat →
  ∃ r, ∀ fuel', (fuel <= fuel')%nat → loop ParseTime fuel' t req obs tracked body k epoch last s = Some r.
Proof.
  intros H0. revert k epoch last s. induction fuel as [|fuel IH]; intros k epoch last s Hf Hp; [lia|].
  destruct (iterate ParseTime t req (obs k) tracked body k epoch last s) as [[r1|e1 l1] s1] eqn:E.
  - exists (r1, s1). intros [|fuel'] Hle; [lia|]. simpl. by rewrite E.
  - destruct (decide (fuel = 0%nat)) as [->|Hn].
    + destruct (iterate_done k epoch last s) as (r & s' & Hd); [lia|]. congruence.
    + destruct (IH (S k) e1 l1 s1) as [r Hr]; [lia|lia|]. exists r. intros [|fuel'] Hle; [lia|].
      simpl. rewrite E. apply Hr. lia.
Qed.

Lemma send_unbuffered_ok b epoch s p r s' :
  tracked = false → body = Some b → at_state s p → ready 0 epoch p →
  send_unbuffered ParseTime t req obs epoch b s = (r, s') → exit_ok 0 r s'.
Proof.
  intros Ht Hb Hs Hr. unfold send_unbuffered.
  destruct (guard_nil (o_result (obs 0%nat))) as [resp err] eqn:Hg.
  pose proof (exit_return 0 epoch s p resp err Hs Hr Hg) as Hret.
  pose proof (exit_cancelled 0 epoch s p resp err) as Hcan.
  unfold accounted in Hret, Hcan. rewrite Hg in Hret, Hcan.
  unfold finalizeBufferedResponseBody in Hret. rewrite Ht in Hret, Hcan. rewrite <- Hb.
  destruct (match err with Some e => _ | None => false end).
  - intros. by eapply Hcan.
  - intros. simplify_eq. exact Hret.
Qed.

Definition inflight_ok (p : proto) : Prop :=
  p_inflight p = 0 ∨ (p_inflight p = 1 ∧ InFlightRetries t = true).

Lemma follow_inflight p l p' :
  inflight_ok p → follow t tracked strict body p l = Some p' → inflight_ok p'.
Proof.
  revert p. induction l as [|e l IH]; intros p Hp Hf; [by simplify_eq/=|]. simpl in Hf.
  destruct (pstep _ _ _ _ p e) as [p1|] eqn:Es; [|done]. apply (IH p1); [|done].
  pose proof (pstep_inflight _ _ _ Es) as Hi. unfold inflight_ok in *. rewrite Hi.
  destruct e; try done. destruct (Z.eqb_spec delta 1) as [->|]; [|by left].
  right. split; [done|]. unfold pstep, guarded in Es. simpl in Es. by destruct (InFlightRetries t).
Qed.

Lemma exit_retry_ok k r s :
  exit_ok k r s → ∃ p, follow t tracked strict body (proto0 epoch0) (log (snd (exit_retry t (r, s)))) = Some p ∧
    p_final p = tracked ∧ p_inflight p = 0 ∧ (p_attempts p <= S k)%nat ∧
    (0 <= MaxRetries t → Z.of_nat (p_attempts p) <= MaxRetries t + 1) ∧
    (strict = true → ∀ st, p_pending p = Some st →
      st = o_attemptStart (obs k) ∧ r = guard_nil (o_result (obs k)) ∧ not_failed ParseTime (obs k) ∧
      ∀ a, attempt_meta s = Some a → StartedAt a = st ∧ Epoch a = p_epoch p ∧ FailureRecorded a = false).
Proof.
  intros (p & [Hfol Hent] & Hf & Ha & Hm & Hp).
  pose proof (follow_inflight (proto0 epoch0) _ p (or_introl eq_refl) Hfol) as Hi.
  unfold exit_retry. cbn [fst snd]. fold enters. change (λ e, match e with EvInFlight 1 => true | _ => false end) with enters.
  rewrite Hent. destruct Hi as [Hi|[Hi Hc]]; rewrite Hi.
  - simpl. rewrite andb_false_r. simpl. exists p. done.
  - rewrite Hc. simpl. exists (with_end (p_final p) 0 p). split; [|done].
    rewrite follow_app, Hfol. simpl. unfold pstep, guarded. simpl. by rewrite Hi.
Qed.
End protocol_lemmas.

Section roundtrip_lemmas.
Context `{UnicodeTables} (ParseTime : str → option Time).
Context (t : Transport) (req : Request) (obs : nat → Observed).

Definition initial_epoch : Z := match ctx_epoch req with Some e => e | None => 0 end.

(** Attempts may only follow a reported one. *)
Definition strict_ok : Prop :=
  tr_Breaker t = true ∧ CheckRetry t = None ∧ ∀ n, ctx_monotone (obs n) ∧ status_registered (obs n).

Lemma read_limited_cases c e :
  0 < MaxBodyBytes t < max_int64 →
  read_limited (add64 (MaxBodyBytes t) 1) c e =
    if buffered t (BodyStream c e) then (c, e)
    else (take (Z.to_nat (MaxBodyBytes t + 1)) c, None).
Proof.
  intros Hm. unfold read_limited, add64, buffered. simpl.
  rewrite wrap64_id by (unfold in_int64, min_int64, max_int64 in *; lia).
  destruct (Z.ltb_spec 0 (MaxBodyBytes t)); [|lia]. simpl.
  destruct (Z.leb_spec (MaxBodyBytes t + 1) (Z.of_nat (length c))), (Z.leb_spec (Z.of_nat (length c)) (MaxBodyBytes t));
    by try lia.
Qed.

Lemma entry_initial tracked strict body s :
  log s = [] → entry t tracked strict body initial_epoch 0 initial_epoch s.
Proof.
  intros Hl. exists (proto0 initial_epoch). unfold at_state. rewrite Hl. simpl.
  rewrite andb_false_r. destruct tracked; repeat (split; [done || lia|]); done.
Qed.

Lemma ready_initial strict : ready t false strict 0 initial_epoch (proto0 initial_epoch).
Proof. unfold ready. simpl. rewrite andb_false_r. repeat (split; [done || lia|]); done. Qed.

Lemma send_unbuffered_enters epoch b s :
  log s = [] → existsb enters (log (snd (send_unbuffered ParseTime t req obs epoch b s))) = false.
Proof.
  intros Hl. unfold send_unbuffered. destruct (guard_nil _) as [resp err].
  set (s1 := report _ _ _ _ _ _ _ _).
  assert (H1 : existsb enters (log s1) = false).
  { subst s1. unfold report. destruct (_ || _), (tr_Breaker t); simpl; try (destruct (_ && _));
      simpl; rewrite Hl; reflexivity. }
  clearbody s1. destruct (match err with Some e => _ | None => false end); [|done].
  unfold finishRequestCancellation. simpl.
  destruct (tr_Breaker t), (has_resp_body resp); simpl; rewrite ?existsb_app, H1; reflexivity.
Qed.

(** The two ways [RoundTrip] ends: the body could not be read, or the log
    follows the protocol to the end. *)
Lemma RoundTrip_cases fuel r s :
  MaxBodyBytes t < max_int64 →
  RoundTrip ParseTime fuel t req obs = Some (r, s) →
  (∃ c e, req_Body req = BodyStream c (Some e) ∧ buffered t (req_Body req) = true ∧ r = (None, Some e) ∧ log s = []) ∨
  ∀ strict, (strict = true → strict_ok) →
    ∃ n s', exit_ok ParseTime t obs (buffered t (req_Body req)) strict (original_body (req_Body req)) initial_epoch n r s' ∧
            log s = log (snd (exit_retry t (r, s'))) ∧ attempt_meta s = attempt_meta s'.
Proof.
  intros Hm. unfold RoundTrip. fold initial_epoch. set (s0 := {| log := [] |}).
  assert (Hloop : ∀ tracked body fuel, tracked = buffered t (req_Body req) → body = original_body (req_Body req) →
    option_map (exit_retry t) (loop ParseTime fuel t req obs tracked body 0 initial_epoch None s0) = Some (r, s) →
    ∀ strict, (strict = true → strict_ok) →
    ∃ n s', exit_ok ParseTime t obs (buffered t (req_Body req)) strict (original_body (req_Body req)) initial_epoch n r s' ∧
            log s = log (snd (exit_retry t (r, s'))) ∧ attempt_meta s = attempt_meta s').
  { intros tracked body fuel' -> -> Hl strict Hst.
    destruct (loop _ _ _ _ _ _ _ _ _ _ _) as [[r1 s1]|] eqn:El; [|done].
    destruct (loop_ok ParseTime t req obs _ strict _ initial_epoch Hst _ _ _ _ _ _ _ (entry_initial _ _ _ s0 eq_refl) El) as [n Hn].
    unfold exit_retry in Hl. simpl in Hl. simplify_eq. exists n, s1. split; [done|].
    unfold exit_retry. simpl. split; [done|]. by destruct (_ && _). }
  destruct (req_Body req) as [| |c e] eqn:Eb.
  - intros Hl. right. by eapply Hloop.
  - destruct (Z.leb_spec (MaxBodyBytes t) 0) as [Hle|Hgt].
    + intros Hl. right. eapply Hloop; [|done|exact Hl]. unfold buffered.
      by destruct (Z.ltb_spec 0 (MaxBodyBytes t)); [lia|].
    + simpl. change (Z.of_nat 0) with 0. destruct (Z.ltb_spec (MaxBodyBytes t) 0); [lia|].
      intros Hl. right. eapply Hloop; [|done|exact Hl]. symmetry. unfold buffered. apply andb_true_intro.
      split; [apply Z.ltb_lt | apply Z.leb_le]; simpl; lia.
  - destruct (Z.leb_spec (MaxBodyBytes t) 0) as [Hle|Hgt].
    + intros Hl. right. eapply Hloop; [|done|exact Hl]. unfold buffered.
      by destruct (Z.ltb_spec 0 (MaxBodyBytes t)); [lia|].
    + rewrite read_limited_cases by lia. destruct (buffered t (BodyStream c e)) eqn:Ebuf.
      * destruct e as [e|].
        -- intros [= <- <-]. left. eauto 6.
        -- pose proof Ebuf as Hlen. unfold buffered in Hlen. apply andb_prop in Hlen as [_ Hlen]. simpl in Hlen.
           apply Z.leb_le in Hlen. destruct (Z.ltb_spec (MaxBodyBytes t) (Z.of_nat (length c))); [lia|].
           intros Hl. right. exact (Hloop true (Some c) fuel eq_refl eq_refl Hl).
      * assert (Hlen : MaxBodyBytes t + 1 <= Z.of_nat (length c)).
        { unfold buffered in Ebuf. destruct (Z.ltb_spec 0 (MaxBodyBytes t)); [|lia]. simpl in Ebuf. bprop. lia. }
        rewrite length_take. destruct (Z.ltb_spec (MaxBodyBytes t) (Z.of_nat (Z.to_nat (MaxBodyBytes t + 1) `min` length c))); [|lia].
        simpl. replace (Z.to_nat (MaxBodyBytes t + 1) `min` length c)%nat with (Z.to_nat (MaxBodyBytes t + 1)) by lia.
        rewrite take_drop. intros [= Hl]. right. intros strict Hst.
        exists 0%nat, s. split; [|split; [|done]].
        -- eapply (send_unbuffered_ok ParseTime t req obs false strict (Some c) initial_epoch Hst c initial_epoch s0 (proto0 initial_epoch)); try done.
           apply ready_initial.
        -- pose proof (send_unbuffered_enters initial_epoch c s0 eq_refl) as He. rewrite Hl in He.
           unfold exit_retry. cbn [fst snd]. change (λ e, match e with EvInFlight 1 => true | _ => false end) with enters.
           simpl in He. by rewrite He, andb_false_r.
Qed.
End roundtrip_lemmas.

Lemma pstep_sends t tracked strict body p e p' :
  pstep t tracked strict body p e = Some p' →
  p_attempts p' = (p_attempts p + (if is_send e then 1 else 0))%nat ∧
  (∀ st ep b, e = EvSend st ep b → b = body).
Proof.
  unfold pstep, guarded. intros Hs.
  destruct e; repeat (case_match; try done); simplify_eq; simpl; try (split; [lia|done]).
  split; [lia|]. intros st ep b [= -> -> ->]. bprop.
  match goal with Hb : bool_decide _ = true |- _ => exact (bool_decide_eq_true_1 _ Hb) end.
Qed.

Lemma follow_sends t tracked strict body l p p' :
  follow t tracked strict body p l = Some p' →
  p_attempts p' = (p_attempts p + sends l)%nat ∧ (∀ st ep b, EvSend st ep b ∈ l → b = body).
Proof.
  revert p. induction l as [|e l IH]; intros p Hf; simpl in Hf.
  - simplify_eq. unfold sends. simpl. split; [lia|]. intros st ep b Hin. by apply elem_of_nil in Hin.
  - destruct (pstep t tracked strict body p e) as [p1|] eqn:Es; [|done].
    apply pstep_sends in Es as [Ha Hb]. apply IH in Hf as [Ha' Hb']. split.
    + rewrite Ha', Ha. unfold sends. simpl. destruct (is_send e); simpl; lia.
    + intros st ep b [Hin|Hin]%elem_of_cons; [by eapply Hb|by eapply Hb'].
Qed.

(** ** Properties *)

Section properties.
Context `{UnicodeTables} (ParseTime : str → option Time).

(** C40: with a retry limit the call always returns, after at most one attempt
    more than the limit, and once the fuel exceeds the limit the result does not
    depend on it. *)
Theorem RoundTrip_terminates_within_limit t req obs :
  0 <= MaxRetries t → MaxBodyBytes t < max_int64 →
  ∃ r s, (∀ fuel, (Z.to_nat (MaxRetries t) < fuel)%nat → RoundTrip ParseTime fuel t req obs = Some (r, s)) ∧
    Z.of_nat (sends (log s)) <= MaxRetries t + 1.
Proof.
  intros H0 Hm.
  assert (Htot : ∃ rs, ∀ fuel, (Z.to_nat (MaxRetries t) < fuel)%nat → RoundTrip ParseTime fuel t req obs = Some rs).
  { unfold RoundTrip. fold (initial_epoch req). set (s0 := {| log := [] |}).
    assert (Hl : ∀ tracked buf, ∃ rs, ∀ fuel, (Z.to_nat (MaxRetries t) < fuel)%nat →
      option_map (exit_retry t) (loop ParseTime fuel t req obs tracked buf 0 (initial_epoch req) None s0) = Some rs).
    { intros tracked buf. destruct (loop_total ParseTime t req obs tracked buf (S (Z.to_nat (MaxRetries t))) 0
        (initial_epoch req) None s0) as [rs Hrs]; [lia|lia|lia|].
      exists (exit_retry t rs). intros fuel Hf. by rewrite Hrs by lia. }
    destruct (req_Body req) as [| |c e]; [apply Hl|..]; (destruct (MaxBodyBytes t <=? 0); [apply Hl|]).
    - destruct (_ <? _); [eauto|apply Hl].
    - destruct (read_limited _ _ _) as [buf [re|]]; [eauto|]. destruct (_ <? _); [eauto|apply Hl]. }
  destruct Htot as [[r s] Htot]. exists r, s. split; [done|].
  specialize (Htot (S (Z.to_nat (MaxRetries t))) ltac:(lia)).
  apply RoundTrip_cases in Htot as [(c & e & _ & _ & _ & Hl)|Hc]; [|specialize (Hc false ltac:(done))|done].
  - rewrite Hl. unfold sends. simpl. lia.
  - destruct Hc as (n & s' & Hx & -> & _). apply exit_retry_ok in Hx as (p & Hf & _ & _ & _ & Ha & _).
    apply follow_sends in Hf as [Hs _]. simpl in Hs. rewrite Hs in Ha. by apply Ha.
Qed.

(** every attempt of a call, retried or not, buffered or too large to
    buffer, sends exactly the caller's body; a body that fails while it is
    buffered is never sent at all. *)
Theorem attempts_send_original_body t req obs fuel r s :
  MaxBodyBytes t < max_int64 →
  RoundTrip ParseTime fuel t req obs = Some (r, s) →
  (∀ st e b, EvSend st e b ∈ log s → b = original_body (req_Body req)) ∧
  (∀ c e, req_Body req = BodyStream c (Some e) → buffered t (req_Body req) = true →
     r = (None, Some e) ∧ sends (log s) = 0%nat).
Proof.
  intros Hm Hr. split.
  - apply RoundTrip_cases in Hr as [(c & e & _ & _ & _ & Hl)|Hc]; [|specialize (Hc false ltac:(done))|done].
    + intros st e' b Hin. rewrite Hl in Hin. by apply elem_of_nil in Hin.
    + destruct Hc as (n & s' & Hx & -> & _). apply exit_retry_ok in Hx as (p & Hf & _).
      by apply follow_sends in Hf as [_ Hb].
  - intros c e Hb Hbuf. unfold RoundTrip in Hr. rewrite Hb in *.
    assert (H0 : 0 < MaxBodyBytes t) by (unfold buffered in Hbuf; bprop; lia).
    destruct (Z.leb_spec (MaxBodyBytes t) 0); [lia|].
    rewrite read_limited_cases, Hbuf in Hr by lia. by simplify_eq.
Qed.

(** C3: the log of a call is accepted by the protocol automaton from start to
    end: it finishes with the buffer given up (once) exactly when there was one
    and the in-flight counter back where it was; under the default policy every
    attempt but the last has been reported under its own epoch before the next
    one, and an attempt left unreported is the one returned to the caller, which
    was no failure and whose start and epoch the caller finds in its record. *)
Theorem RoundTrip_refines_protocol t req obs fuel r s strict :
  MaxBodyBytes t < max_int64 → (strict = true → strict_ok t obs) →
  RoundTrip ParseTime fuel t req obs = Some (r, s) →
  log s = [] ∧ fst r = None ∨
  ∃ n p, follow t (buffered t (req_Body req)) strict (original_body (req_Body req))
           (proto0 (initial_epoch req)) (log s) = Some p ∧
    p_final p = buffered t (req_Body req) ∧ p_inflight p = 0 ∧
    (strict = true → ∀ st, p_pending p = Some st →
       st = o_attemptStart (obs n) ∧ r = guard_nil (o_result (obs n)) ∧ not_failed ParseTime (obs n) ∧
       ∀ a, attempt_meta s = Some a → StartedAt a = st ∧ Epoch a = p_epoch p ∧ FailureRecorded a = false).
Proof.
  intros Hm Hst Hr. apply RoundTrip_cases in Hr as [(c & e & _ & _ & -> & Hl)|Hc]; [by left| |done].
  right. destruct (Hc strict Hst) as (n & s' & Hx & -> & ->).
  apply exit_retry_ok in Hx as (p & Hf & Hfin & Hi & _ & _ & Hp). eauto 8.
Qed.

(** the wait before a retry is the largest of the backoff, the upstream's
    remaining Retry-After and the configured floor. *)
Theorem retryWait_exact t attempt o last :
  retryWait ParseTime t attempt o last =
    Z.max (MinRetryDelay t)
      (Z.max (calcWait (o_rand o) attempt (WaitMin t) (WaitMax t))
        (match last with
         | Some (resp, receivedAt) => ParseRetryAfter ParseTime (resp_Header resp) receivedAt (o_retryNow o)
         | None => 0
         end)).
Proof.
  unfold retryWait. cbv zeta. pose proof (calcWait_pos (o_rand o) attempt (WaitMin t) (WaitMax t)) as Hp.
  set (c := calcWait _ _ _ _) in *.
  assert (Hfloor : ∀ w, 0 < w → (if (0 <? MinRetryDelay t) && (w <? MinRetryDelay t) then MinRetryDelay t else w) =
    Z.max (MinRetryDelay t) w).
  { intros w Hw. destruct (Z.ltb_spec 0 (MinRetryDelay t)), (Z.ltb_spec w (MinRetryDelay t)); simpl; lia. }
  rewrite Hfloor.
  - destruct last as [[resp u]|]; [|lia]. set (ra := ParseRetryAfter _ _ _ _).
    destruct (Z.ltb_spec 0 ra), (Z.ltb_spec c ra); simpl; lia.
  - destruct last as [[resp u]|]; [|done]. set (ra := ParseRetryAfter _ _ _ _).
    destruct (Z.ltb_spec 0 ra), (Z.ltb_spec c ra); simpl; lia.
Qed.
End properties.

(** the backoff before retry [n] lies between the configured bounds and
    within a quarter (up to [float64] rounding) of the doubled-and-capped base. *)
Theorem calcWait_backoff rand n wMin wMax :
  (1 <= n)%nat → wait_bounds rand → wait_min wMin <= wait_max wMax → wait_max wMax < 2 ^ 62 →
  let c := calcWait rand n wMin wMax in
  let base := Z.min (wait_min wMin * 2 ^ Z.of_nat (n - 1)) (wait_max wMax) in
  wait_min wMin <= c <= wait_max wMax ∧ Z.abs (c - base) <= base / 4 + 2 ^ 9.
Proof.
  intros Hn Hr Hle Hmax c base. split; [by apply calcWait_range|]. subst c. unfold calcWait. cbv zeta.
  assert (Hmin : 0 < wait_min wMin) by (unfold wait_min, Millisecond; bcase; lia).
  rewrite backoff_base_exact by lia. fold base.
  assert (Hb : wait_min wMin <= base <= wait_max wMax).
  { subst base. assert (0 < 2 ^ Z.of_nat (n - 1)) by (apply Z.pow_pos_nonneg; lia). nia. }
  pose proof (quarter_bounds base) as Hq. specialize (Hq ltac:(lia)).
  set (j := quarter base) in *. pose proof (Z.div_le_upper_bound base 4 (2 ^ 60) ltac:(lia) ltac:(lia)).
  assert (Hd : ∃ d, (if 0 <? j then add64 base (rand (2 * j + 1) - j) else base) = base + d ∧ Z.abs d <= j).
  { destruct (Z.ltb_spec 0 j); [|exists 0; lia]. specialize (Hr (2 * j + 1) ltac:(lia)).
    exists (rand (2 * j + 1) - j). split; [|lia]. unfold add64. apply wrap64_id.
    unfold in_int64, min_int64, max_int64. lia. }
  destruct Hd as (d & -> & Hd). bcase; lia.
Qed.

(** ** Witnesses *)

Lemma demo_strict : strict_ok (demo_transport 100) (demo_observed [503; 503]).
Proof.
  split; [done|]. split; [done|]. intros n. split; [done|]. intros r Hr. simpl in Hr. simplify_eq. simpl.
  destruct n as [|[|[|n]]]; simpl; lia.
Qed.

Lemma demo_run_result : demo_run 100 (BodyStream "hello" None) [503; 503] = Some (demo_result.1, demo_result.2).
Proof. vm_compute. reflexivity. Qed.

Lemma RoundTrip_terminates_within_limit_witness :
  ∃ r s, RoundTrip (λ _, None) 3 (demo_transport 100) (demo_request (BodyStream "hello" None)) (demo_observed [503; 503]) = Some (r, s) ∧
    Z.of_nat (sends (log s)) <= 3.
Proof.
  destruct (RoundTrip_terminates_within_limit (λ _, None) (demo_transport 100) (demo_request (BodyStream "hello" None))
    (demo_observed [503; 503])) as (r & s & Hf & Hs); [simpl; lia|simpl; unfold max_int64; lia|].
  exists r, s. split; [apply Hf; vm_compute; lia | exact Hs].
Defined.

Lemma attempts_send_original_body_witness :
  sends (log demo_result.2) = 3%nat ∧ ∀ st e b, EvSend st e b ∈ log demo_result.2 → b = Some (lit "hello").
Proof.
  split; [vm_compute; reflexivity|].
  destruct (attempts_send_original_body (λ _, None) (demo_transport 100) (demo_request (BodyStream "hello" None))
    (demo_observed [503; 503]) 5 demo_result.1 demo_result.2) as [Hb _].
  - vm_compute. reflexivity.
  - exact demo_run_result.
  - exact Hb.
Defined.

Lemma RoundTrip_refines_protocol_witness :
  ∃ n p, follow (demo_transport 100) true true (Some (lit "hello")) (proto0 3) (log demo_result.2) = Some p ∧
    p_pending p = Some 21 ∧ n = 2%nat ∧ sends (log demo_result.2) = 3%nat.
Proof.
  destruct (RoundTrip_refines_protocol (λ _, None) (demo_transport 100) (demo_request (BodyStream "hello" None))
    (demo_observed [503; 503]) 5 demo_result.1 demo_result.2 true) as [[Hl _]|(n & p & Hf & _)].
  - vm_compute. reflexivity.
  - intros _. exact demo_strict.
  - exact demo_run_result.
  - discriminate Hl.
  - exists 2%nat, p. split; [exact Hf|]. vm_compute in Hf. injection Hf as <-. done.
Defined.

Lemma calcWait_backoff_witness :
  Second <= calcWait (λ _, 0) 3 Second (30 * Second) <= 30 * Second.
Proof.
  apply (calcWait_backoff (λ _, 0) 3 Second (30 * Second)).
  - lia.
  - intros n Hn. lia.
  - vm_compute. discriminate.
  - vm_compute. reflexivity.
Defined.

(** [io.LimitReader] gets [MaxBodyBytes + 1]: at the largest [MaxBodyBytes] the
    sum wraps, nothing is read, and an empty body is sent. *)
Example max_body_drops_body :
  ∃ st e, EvSend st e (Some []) ∈ demo_log max_int64 (BodyStream "hello" None) [200].
Proof.
  exists 1, 3. change (EvSend 1 3 (Some []) ∈ demo_log max_int64 (BodyStream "hello" None) [200]).
  apply list_elem_of_In. vm_compute. tauto.
Qed.

(** [DefaultCheckRetry] retries statuses from 600 up, which the breaker does not
    count as failures: the attempt is retried without having been reported. *)
Example status_600_retried_unreported :
  demo_log 100 BodyNil [600] =
  [EvSend 1 3 None; EvDrain; EvInFlight 1; EvAllow (Some 1); EvWait (Second); EvSend 11 1 None; EvInFlight (-1)].
Proof. vm_compute. reflexivity. Qed.
