(* ===== verification/BufferTracker.v ===== *)
(** * The life of a pooled request buffer ([src/internal/retry/transport.go])

    [bufferTracker] counts the readers handed to the inner transport and gives
    the buffer back to the pool.  Its methods, [trackingReader]'s and
    [pooledBody.Close] are functions on a shared state; a step is one critical
    section of one of them, so that any interleaving of the goroutines holding
    readers is a run.  As [RoundTrip] does (the protocol of [Retry]), readers
    are made before [finalize], which is called once. *)

From Stdlib Require Import ZArith Lia Bool List Ascii String.
From stdpp Require Import strings.
From S2P Require Import Prelude GoStd GoStr Retry.

Open Scope Z_scope.

(** ** State *)

Record bufferTracker := {
  activeReads : Z;
  finalized : bool;
  respClosed : bool;
  released : bool;
}.

Definition newBufferTracker : bufferTracker :=
  {| activeReads := 0; finalized := false; respClosed := false; released := false |}.

(** A reader over the buffer: its offset, whether it was closed, whether some
    call has seen its end and owes [readDone], and its [sync.Once]. *)
Record trackingReader := {
  offset : Z;
  rd_closed : bool;
  owes : bool;
  once : bool;
}.

Definition fresh_reader : trackingReader :=
  {| offset := 0; rd_closed := false; owes := false; once := false |}.

(** The buffer, and what the pool has been given. *)
Record shared := {
  buf_len : Z;
  buf_cap : Z;
  tracker : bufferTracker;
  readers : list trackingReader;
  closeOnce : bool;
  puts : Z;
  releases : Z;
}.

Definition maxPoolBufCap : Z := 65536.

Definition set_tracker (bt : bufferTracker) (s : shared) : shared :=
  {| buf_len := buf_len s; buf_cap := buf_cap s; tracker := bt; readers := readers s;
     closeOnce := closeOnce s; puts := puts s; releases := releases s |}.

Definition set_readers (rs : list trackingReader) (s : shared) : shared :=
  {| buf_len := buf_len s; buf_cap := buf_cap s; tracker := tracker s; readers := rs;
     closeOnce := closeOnce s; puts := puts s; releases := releases s |}.

Definition set_closeOnce (s : shared) : shared :=
  {| buf_len := buf_len s; buf_cap := buf_cap s; tracker := tracker s; readers := readers s;
     closeOnce := true; puts := puts s; releases := releases s |}.

(** ** Operations *)

(** [releaseBuf]: an oversized buffer is left to the collector. *)
Definition releaseBuf (s : shared) : shared :=
  {| buf_len := buf_len s; buf_cap := buf_cap s; tracker := tracker s; readers := readers s;
     closeOnce := closeOnce s;
     puts := if maxPoolBufCap <? buf_cap s then puts s else puts s + 1; releases := releases s + 1 |}.

Definition maybeReleaseLocked (s : shared) : shared :=
  let bt := tracker s in
  if negb (released bt) && finalized bt && respClosed bt && (activeReads bt <=? 0) then
    releaseBuf (set_tracker
      {| activeReads := activeReads bt; finalized := finalized bt; respClosed := respClosed bt;
         released := true |} s)
  else s.

Definition newBody (s : shared) : shared :=
  let bt := tracker s in
  set_readers (readers s ++ [fresh_reader])
    (set_tracker {| activeReads := activeReads bt + 1; finalized := finalized bt;
                    respClosed := respClosed bt; released := released bt |} s).

Definition readDone (s : shared) : shared :=
  let bt := tracker s in
  maybeReleaseLocked
    (set_tracker {| activeReads := activeReads bt - 1; finalized := finalized bt;
                    respClosed := respClosed bt; released := released bt |} s).

Definition responseClosed (s : shared) : shared :=
  let bt := tracker s in
  maybeReleaseLocked
    (set_tracker {| activeReads := activeReads bt; finalized := finalized bt;
                    respClosed := true; released := released bt |} s).

Definition finalize (hasRespBody : bool) (s : shared) : shared :=
  let bt := tracker s in
  maybeReleaseLocked
    (set_tracker {| activeReads := activeReads bt; finalized := true;
                    respClosed := respClosed bt || negb hasRespBody; released := released bt |} s).

Inductive read_result :=
| ReadAfterClose
| Bytes (n : Z)
| EndOfFile.

(** [trackingReader.Read] up to its unlock. *)
Definition reader_Read (s : shared) (n : Z) (r : trackingReader) : read_result * trackingReader :=
  if rd_closed r then (ReadAfterClose, r)
  else if buf_len s <=? offset r then
    (EndOfFile, {| offset := offset r; rd_closed := false; owes := true; once := once r |})
  else
    let k := Z.min n (buf_len s - offset r) in
    (Bytes k, {| offset := offset r + k; rd_closed := false; owes := owes r; once := once r |}).

(** [trackingReader.Close] up to its unlock. *)
Definition reader_Close (r : trackingReader) : trackingReader :=
  {| offset := offset r; rd_closed := true; owes := true; once := once r |}.

(** [once.Do(readDone)] *)
Definition reader_once (i : nat) (s : shared) : shared :=
  match readers s !! i with
  | Some r =>
      if once r then s
      else readDone (set_readers
        (<[i := {| offset := offset r; rd_closed := rd_closed r; owes := owes r; once := true |}]> (readers s)) s)
  | None => s
  end.

(** [pooledBody.Close] (and its 101 variants) on the tracked response body. *)
Definition pooledBody_Close (s : shared) : shared :=
  if closeOnce s then s else responseClosed (set_closeOnce s).

(** ** Runs *)

Inductive bt_step : shared → shared → Prop :=
| step_newBody s :
    finalized (tracker s) = false → bt_step s (newBody s)
| step_Read s i r n :
    readers s !! i = Some r → 0 <= n →
    bt_step s (set_readers (<[i := snd (reader_Read s n r)]> (readers s)) s)
| step_Close s i r :
    readers s !! i = Some r → bt_step s (set_readers (<[i := reader_Close r]> (readers s)) s)
| step_once s i r :
    readers s !! i = Some r → owes r = true → bt_step s (reader_once i s)
| step_finalize s b :
    finalized (tracker s) = false → bt_step s (finalize b s)
| step_respClose s :
    finalized (tracker s) = true → bt_step s (pooledBody_Close s).

Definition bt_initial (len cap : Z) : shared :=
  {| buf_len := len; buf_cap := cap; tracker := newBufferTracker; readers := []; closeOnce := false;
     puts := 0; releases := 0 |}.

Definition bt_reachable (len cap : Z) (s : shared) : Prop := rtc bt_step (bt_initial len cap) s.

(** Everything the holders of readers and of the response still owe: close reader
    [i], and run its [sync.Once]. *)
Definition close_reader (i : nat) (s : shared) : shared :=
  match readers s !! i with
  | Some r => reader_once i (set_readers (<[i := reader_Close r]> (readers s)) s)
  | None => s
  end.

Fixpoint close_all (n : nat) (s : shared) : shared :=
  match n with
  | O => s
  | S n => close_reader n (close_all n s)
  end.

(** A one-attempt life: made, read to the end, answered without a body. *)
Definition demo_shared : shared :=
  Eval vm_compute in finalize false (close_reader 0 (newBody (bt_initial 5 64))).

(** ** Invariant *)

Definition active (r : trackingReader) : Z := if once r then 0 else 1.

(** A reader that can yield no more bytes. *)
Definition spent (len : Z) (r : trackingReader) : Prop := rd_closed r = true ∨ len <= offset r.

Record bt_inv (len cap : Z) (s : shared) : Prop := {
  bt_len : buf_len s = len;
  bt_cap : buf_cap s = cap;
  bt_count : activeReads (tracker s) = sumZ active (readers s);
  bt_released : released (tracker s) = true ↔
    finalized (tracker s) = true ∧ respClosed (tracker s) = true ∧ sumZ active (readers s) = 0;
  bt_releases : releases s = if released (tracker s) then 1 else 0;
  bt_puts : puts s = if released (tracker s) && (cap <=? maxPoolBufCap) then 1 else 0;
  bt_once : closeOnce s = true → respClosed (tracker s) = true;
  bt_readers : Forall (λ r, (owes r = true → spent len r) ∧ (once r = true → owes r = true)) (readers s);
}.

(** ** Lemmas *)

Lemma active_nonneg r : 0 <= active r.
Proof. unfold active. by destruct (once r). Qed.

(** The release test decides the invariant's condition, given the right count. *)
Lemma maybeRelease_inv len cap s :
  buf_len s = len → buf_cap s = cap →
  activeReads (tracker s) = sumZ active (readers s) →
  (released (tracker s) = true →
    finalized (tracker s) = true ∧ respClosed (tracker s) = true ∧ sumZ active (readers s) = 0) →
  releases s = (if released (tracker s) then 1 else 0) →
  puts s = (if released (tracker s) && (cap <=? maxPoolBufCap) then 1 else 0) →
  (closeOnce s = true → respClosed (tracker s) = true) →
  Forall (λ r, (owes r = true → spent len r) ∧ (once r = true → owes r = true)) (readers s) →
  bt_inv len cap (maybeReleaseLocked s).
Proof.
  intros Hlen Hcap Hc Hr Hrel Hp Hco Hf. pose proof (sumZ_nonneg active (readers s) active_nonneg) as Hn.
  unfold maybeReleaseLocked. destruct (released (tracker s)) eqn:Er; simpl.
  { constructor; try done; [|by rewrite Er|by rewrite Er].
    split; [intros _; by apply Hr | intros _; exact Er]. }
  assert (Hkeep : ¬ (finalized (tracker s) = true ∧ respClosed (tracker s) = true ∧ sumZ active (readers s) = 0) →
    bt_inv len cap s).
  { intros Hno. constructor; rewrite ?Er; try done. }
  destruct (finalized (tracker s)) eqn:Ef; [|apply Hkeep; by intros []].
  destruct (respClosed (tracker s)) eqn:Ec; [|apply Hkeep; by intros (_ & ? & _)].
  destruct (Z.leb_spec (activeReads (tracker s)) 0); [|apply Hkeep; intros (_ & _ & ?); lia].
  simpl.
  constructor; simpl; try done.
  - split; [|done]. intros _. split; [done|]. split; [done|]. lia.
  - lia.
  - rewrite Hcap, Hp. simpl. destruct (Z.ltb_spec maxPoolBufCap cap), (Z.leb_spec cap maxPoolBufCap); lia.
Qed.

Lemma bt_inv_step len cap s s' : bt_inv len cap s → bt_step s s' → bt_inv len cap s'.
Proof.
  intros [Hlen Hcap Hc Hr Hrel Hp Hco Hf] Hs.
  assert (Hupd : ∀ i r r', readers s !! i = Some r → once r' = once r →
    ((owes r' = true → spent len r') ∧ (once r' = true → owes r' = true)) →
    bt_inv len cap (set_readers (<[i := r']> (readers s)) s)).
  { intros i r r' Hi Ho Hok.
    assert (Hsum : sumZ active (<[i := r']> (readers s)) = sumZ active (readers s)).
    { rewrite (sumZ_insert active _ _ r) by done. unfold active. rewrite Ho. lia. }
    constructor; simpl; rewrite ?Hsum; try done. by apply Forall_insert. }
  destruct Hs as [s Hfin|s i r n Hi Hn|s i r Hi|s i r Hi Ho|s b Hfin|s Hfin].
  - assert (Hrf : released (tracker s) = false).
    { destruct (released (tracker s)); [|done]. destruct Hr as [Hr _]. destruct Hr as [Hr _]; [done|]. congruence. }
    constructor; simpl; try done.
    + rewrite sumZ_app. simpl. unfold active at 2. simpl. lia.
    + rewrite Hrf, Hfin. split; [done|]. by intros [? _].
    + apply Forall_app. split; [done|]. apply Forall_singleton. done.
  - rewrite Forall_forall in Hf. pose proof (Hf r) as [Hok1 Hok2]; [by eapply list_elem_of_lookup_2|].
    apply (Hupd i r); [done|..].
    + unfold reader_Read. destruct (rd_closed r); [done|]. by destruct (buf_len s <=? offset r).
    + unfold reader_Read. destruct (rd_closed r) eqn:Ec; [done|].
      destruct (Z.leb_spec (buf_len s) (offset r)); simpl.
      * split; [|done]. intros _. right. simpl. lia.
      * split; [|done]. intros Hx. destruct (Hok1 Hx) as [?|?]; [congruence|]. lia.
  - apply (Hupd i r); [done|done|]. simpl. split; [|done]. intros _. by left.
  - unfold reader_once. rewrite Hi. destruct (once r) eqn:Eo; [by constructor|].
    rewrite Forall_forall in Hf. pose proof (Hf r) as [Hok1 Hok2]; [by eapply list_elem_of_lookup_2|].
    assert (Hsum : sumZ active (<[i := {| offset := offset r; rd_closed := rd_closed r; owes := owes r; once := true |}]> (readers s))
      = sumZ active (readers s) - 1).
    { rewrite (sumZ_insert active _ _ r) by done. unfold active. rewrite Eo. simpl. lia. }
    assert (Hpos : 1 <= sumZ active (readers s)).
    { pose proof (sumZ_elem_le active (readers s) r active_nonneg) as He. unfold active in He at 1. rewrite Eo in He.
      apply He. by eapply list_elem_of_lookup_2. }
    apply maybeRelease_inv; simpl; try done; rewrite ?Hsum.
    + lia.
    + intros (_ & _ & Hz)%Hr. lia.
    + apply Forall_insert; [by apply Forall_forall|]. simpl. split; [exact Hok1 | done].
  - apply maybeRelease_inv; simpl; try done.
    + intros (Hx & _)%Hr. congruence.
    + intros Hx. by rewrite (Hco Hx).
  - unfold pooledBody_Close. destruct (closeOnce s) eqn:Eco.
    { constructor; try done. intros _. by apply Hco. }
    apply maybeRelease_inv; simpl; try done. intros (? & _ & ?)%Hr. done.
Qed.

Lemma bt_reachable_inv len cap s : bt_reachable len cap s → bt_inv len cap s.
Proof.
  apply rtc_invariant; [intros a b; apply bt_inv_step|].
  constructor; try done. simpl. split; [done|]. by intros [? _].
Qed.

(** Closing a reader is two steps, and leaves it done. *)
Lemma close_reader_steps i s : rtc bt_step s (close_reader i s).
Proof.
  unfold close_reader. destruct (readers s !! i) as [r|] eqn:Hi; [|done].
  eapply rtc_l; [by apply step_Close|]. apply rtc_once. eapply (step_once _ i (reader_Close r)); [|done].
  simpl. rewrite list_lookup_insert_eq; [done|]. by eapply lookup_lt_Some.
Qed.

Lemma maybeRelease_fields s :
  readers (maybeReleaseLocked s) = readers s ∧
  finalized (tracker (maybeReleaseLocked s)) = finalized (tracker s) ∧
  respClosed (tracker (maybeReleaseLocked s)) = respClosed (tracker s).
Proof. unfold maybeReleaseLocked. by destruct (_ && _). Qed.

Lemma close_reader_spec i s :
  (∀ j r', readers (close_reader i s) !! j = Some r' →
     (j = i → once r' = true) ∧ (j ≠ i → readers s !! j = Some r')) ∧
  length (readers (close_reader i s)) = length (readers s) ∧
  finalized (tracker (close_reader i s)) = finalized (tracker s) ∧
  respClosed (tracker (close_reader i s)) = respClosed (tracker s).
Proof.
  unfold close_reader. destruct (readers s !! i) as [r|] eqn:Hi.
  - unfold reader_once. simpl. pose proof (lookup_lt_Some _ _ _ Hi) as Hlt.
    rewrite list_lookup_insert_eq by done.
    destruct (once (reader_Close r)) eqn:Eo.
    + simpl. rewrite length_insert. split; [|done]. intros j r' Hj. split.
      * intros ->. rewrite list_lookup_insert_eq in Hj by done. by simplify_eq.
      * intros Hn. by rewrite list_lookup_insert_ne in Hj.
    + match goal with |- context [readDone ?x] => set (s1 := x) end. unfold readDone.
      destruct (maybeRelease_fields (set_tracker
        {| activeReads := activeReads (tracker s1) - 1; finalized := finalized (tracker s1);
           respClosed := respClosed (tracker s1); released := released (tracker s1) |} s1)) as (-> & -> & ->).
      subst s1. simpl. rewrite !length_insert. split; [|done]. intros j r' Hj. split.
      * intros ->. rewrite list_lookup_insert_eq in Hj by (by rewrite length_insert). by simplify_eq.
      * intros Hn. by rewrite !list_lookup_insert_ne in Hj.
  - split; [|done]. intros j r' Hj. split; [congruence | done].
Qed.

Lemma close_all_spec n s :
  rtc bt_step s (close_all n s) ∧
  (∀ j r, (j < n)%nat → readers (close_all n s) !! j = Some r → once r = true) ∧
  length (readers (close_all n s)) = length (readers s) ∧
  finalized (tracker (close_all n s)) = finalized (tracker s) ∧
  respClosed (tracker (close_all n s)) = respClosed (tracker s).
Proof.
  induction n as [|n (Hr & Hd & Hl & Hf & Hc)]; simpl; [split; [done|]; split; [lia|done]|].
  destruct (close_reader_spec n (close_all n s)) as (Ho & Hl' & Hf' & Hc').
  split; [etrans; [exact Hr | apply close_reader_steps]|].
  split; [|by rewrite Hl', Hf', Hc'].
  intros j r Hj Hjr. destruct (Ho j r Hjr) as [H1 H2]. destruct (decide (j = n)) as [->|Hn]; [by apply H1|].
  apply (Hd j r); [lia|]. by apply H2.
Qed.

Lemma sumZ_zero rs : (∀ j r, rs !! j = Some r → once r = true) ↔ sumZ active rs = 0.
Proof.
  induction rs as [|r rs IH]; simpl; [done|]. pose proof (sumZ_nonneg active rs active_nonneg).
  pose proof (active_nonneg r). split.
  - intros Hall. assert (sumZ active rs = 0) as -> by (apply IH; intros j; apply (Hall (S j))).
    unfold active. by rewrite (Hall 0%nat r eq_refl).
  - intros Hz [|j] r' Hj; simplify_eq/=.
    + unfold active in *. destruct (once r'); [done|lia].
    + apply (proj2 IH) with j; [lia|done].
Qed.

(** ** Properties *)

(** C28: at every moment of every interleaving the buffer has been given up
    exactly when no more attempts can come, the response body is closed (or
    there is none) and each reader has been closed or read to its end; it is
    given up once, and goes back to the pool only within the size cap. *)
Theorem buffer_released_when_done len cap s :
  bt_reachable len cap s →
  (released (tracker s) = true ↔
     finalized (tracker s) = true ∧ respClosed (tracker s) = true ∧
     ∀ i r, readers s !! i = Some r → once r = true) ∧
  releases s = (if released (tracker s) then 1 else 0) ∧
  puts s = (if released (tracker s) && (cap <=? maxPoolBufCap) then 1 else 0).
Proof.
  intros Hr. destruct (bt_reachable_inv len cap s Hr) as [_ _ _ Hrel Hn Hp _ _].
  split; [|done]. rewrite Hrel. by rewrite (sumZ_zero (readers s)).
Qed.

(** once the buffer is given up no read returns any of its bytes, now or
    after any further steps, and no new reader appears. *)
Theorem no_read_after_release len cap s s' :
  bt_reachable len cap s → released (tracker s) = true → rtc bt_step s s' →
  released (tracker s') = true ∧ length (readers s') = length (readers s) ∧
  ∀ i r n, readers s' !! i = Some r →
    fst (reader_Read s' n r) = ReadAfterClose ∨ fst (reader_Read s' n r) = EndOfFile.
Proof.
  intros Hr Hrel Hss.
  assert (Hkeep : bt_inv len cap s' ∧ released (tracker s') = true ∧ length (readers s') = length (readers s)).
  { apply bt_reachable_inv in Hr.
    apply (rtc_invariant bt_step (λ x, bt_inv len cap x ∧ released (tracker x) = true ∧ length (readers x) = length (readers s)) s s');
      [|done|done].
    clear s' Hss. intros a b (Hi & Ha & Hl) Hs. split; [by eapply bt_inv_step|].
    destruct Hi as [_ _ _ Hiff _ _ _ _]. apply proj1 in Hiff. destruct (Hiff Ha) as (Hf & Hc & Hz).
    destruct Hs as [x Hx|x i r n Hir Hn|x i r Hir|x i r Hir Ho|x y Hx|x Hx]; try congruence; simpl.
    - by rewrite length_insert.
    - by rewrite length_insert.
    - unfold reader_once. rewrite Hir. apply sumZ_zero with (j := i) (r := r) in Hz; [|done]. by rewrite Hz.
    - unfold pooledBody_Close. destruct (closeOnce x); [done|]. unfold responseClosed.
      unfold maybeReleaseLocked. simpl. rewrite Ha. done. }
  destruct Hkeep as (Hi & Hrel' & Hl). split; [done|]. split; [done|]. intros i r n Hir.
  destruct Hi as [Hlen _ _ Hiff _ _ _ Hf]. destruct (proj1 Hiff Hrel') as (_ & _ & Hz).
  rewrite Forall_forall in Hf. destruct (Hf r) as [Hok1 Hok2]; [by eapply list_elem_of_lookup_2|].
  apply sumZ_zero with (j := i) (r := r) in Hz; [|done]. unfold reader_Read.
  destruct (rd_closed r) eqn:Ec; [by left|]. destruct (Hok1 (Hok2 Hz)) as [?|Ho]; [congruence|].
  rewrite Hlen. destruct (Z.leb_spec len (offset r)); [by right|lia].
Qed.

(** the buffer can always still be given up: from any reachable state,
    closing the readers, ending the call and closing the response releases it. *)
Theorem buffer_release_possible len cap s :
  bt_reachable len cap s → ∃ s', rtc bt_step s s' ∧ released (tracker s') = true.
Proof.
  intros Hr. destruct (close_all_spec (length (readers s)) s) as (Hst & Hd & Hl & Hf & Hc).
  set (s1 := close_all _ s) in *.
  assert (Hdone : ∀ j r, readers s1 !! j = Some r → once r = true).
  { intros j r Hj. apply (Hd j r); [|done]. rewrite <- Hl. by eapply lookup_lt_Some. }
  assert (Hfin : ∃ s2, rtc bt_step s1 s2 ∧ readers s2 = readers s1 ∧ finalized (tracker s2) = true).
  { destruct (finalized (tracker s1)) eqn:E; [by exists s1|]. exists (finalize true s1).
    split; [apply rtc_once; by constructor|]. unfold finalize.
    destruct (maybeRelease_fields (set_tracker {| activeReads := activeReads (tracker s1); finalized := true;
      respClosed := respClosed (tracker s1) || negb true; released := released (tracker s1) |} s1)) as (-> & -> & _). done. }
  destruct Hfin as (s2 & Hst2 & Hrd & Hf2). exists (pooledBody_Close s2).
  assert (Hst3 : rtc bt_step s2 (pooledBody_Close s2)) by (apply rtc_once; by constructor).
  split; [by etrans; [exact Hst|]; etrans|].
  assert (Hreach : bt_reachable len cap (pooledBody_Close s2)).
  { unfold bt_reachable in *. etrans; [exact Hr|]. etrans; [exact Hst|]. by etrans. }
  assert (Hr2 : bt_inv len cap s2).
  { apply bt_reachable_inv. unfold bt_reachable in *. etrans; [exact Hr|]. by etrans. }
  destruct (bt_reachable_inv _ _ _ Hreach) as [_ _ _ Hiff _ _ _ _]. apply Hiff. unfold pooledBody_Close.
  destruct (closeOnce s2) eqn:Eo.
  - split; [done|]. split; [by apply (bt_once _ _ _ Hr2)|]. apply sumZ_zero. by rewrite Hrd.
  - unfold responseClosed. match goal with |- context [maybeReleaseLocked ?x] =>
      destruct (maybeRelease_fields x) as (-> & -> & ->) end. simpl.
    split; [done|]. split; [done|]. apply sumZ_zero. by rewrite Hrd.
Qed.

(** A request cancelled during the wait before a retry leaves the reader made for
    that attempt in no one's hands: two readers are made, one attempt is sent,
    and a reader nobody closes keeps the buffer from the pool. *)
Example cancelled_wait_strands_reader :
  let obs n := let o := demo_observed [503] n in
    {| o_ctx_top := None; o_allow := o_allow o; o_retryNow := o_retryNow o; o_rand := o_rand o;
       o_wait_done := (n =? 1)%nat; o_attemptStart := o_attemptStart o; o_result := o_result o;
       o_receivedAt := o_receivedAt o; o_now := o_now o; o_ctx_suppress := None; o_ctx_terminal := None;
       o_ctx_drain := None; o_ctx_finish := Some (plain_err Canceled) |} in
  match RoundTrip (λ _, None) 5 (demo_transport 100)
          (demo_request (BodyStream (lit "hello") None)) obs with
  | Some (_, s) => log s =
      [EvBody; EvSend 1 3 (Some (lit "hello")); EvFailure 503 0 1 3; EvDrain; EvInFlight 1;
       EvAllow (Some 1); EvBody; EvWait Second; EvCancel 1; EvFinalize false; EvInFlight (-1)]
  | None => False
  end.
Proof. vm_compute. reflexivity. Qed.

(** ** Witnesses *)

Lemma demo_shared_reachable : bt_reachable 5 64 demo_shared.
Proof.
  change demo_shared with (finalize false (close_reader 0 (newBody (bt_initial 5 64)))).
  unfold bt_reachable. eapply rtc_l; [by apply step_newBody|].
  etrans; [apply close_reader_steps|]. apply rtc_once. by apply step_finalize.
Qed.

Lemma buffer_released_when_done_witness : released (tracker demo_shared) = true ∧ puts demo_shared = 1.
Proof.
  destruct (buffer_released_when_done 5 64 demo_shared demo_shared_reachable) as (_ & _ & Hp).
  split; [reflexivity | exact Hp].
Defined.

Lemma no_read_after_release_witness :
  released (tracker demo_shared) = true ∧ length (readers demo_shared) = length (readers demo_shared).
Proof.
  destruct (no_read_after_release 5 64 demo_shared demo_shared demo_shared_reachable eq_refl) as (H1 & H2 & _);
    [apply rtc_refl|]. split; [exact H1|exact H2].
Defined.

Lemma buffer_release_possible_witness :
  ∃ s', rtc bt_step (newBody (bt_initial 5 64)) s' ∧ released (tracker s') = true.
Proof.
  apply (buffer_release_possible 5 64). unfold bt_reachable. apply rtc_once. by apply step_newBody.
Defined.
