(* ===== verification/Sse.v ===== *)
(** * Server-sent-event framing ([src/internal/transcode/sse.go])

    Reading one event from a byte stream and writing one frame.  The buffered
    reader is the list of bytes still to come and what ends them, an [io.EOF] or
    a read error that every later read repeats. *)

From Stdlib Require Import ZArith Lia Bool List Ascii String.
From stdpp Require Import strings.
From S2P Require Import Prelude GoStd GoStr.

Open Scope Z_scope.

(** ** Data *)

Definition LF : ascii := "010"%char.
Definition CR : ascii := "013"%char.

Definition maxSSELineBytes : Z := 1048576.
Definition maxSSEFrameBytes : Z := 1048576.

Record SSEEvent := { sse_Event : str; sse_Data : str }.

(** How the underlying stream ends. *)
Inductive stream_end := StreamEOF | StreamError.

Inductive sse_result :=
| SSENext (e : SSEEvent) (rest : str)
| SSELast (e : SSEEvent)
| SSEEnd (e : stream_end)
| SSEBoundError (line : bool) (bound : Z).

(** ** Reading *)

Inductive line_result :=
| Line (line : str) (rest : str)
| LastLine (line : str)
| Oversized (rest : str).

(** After a CR: a following LF belongs to the same terminator. *)
Definition skip_lf (s : str) : str :=
  match s with
  | b :: r => if byte_eqb b LF then r else s
  | [] => []
  end.

(** The rest of an oversized line. *)
Fixpoint skip_line (s : str) : str :=
  match s with
  | [] => []
  | b :: r => if byte_eqb b LF then r else if byte_eqb b CR then skip_lf r else skip_line r
  end.

(** [readSSELine], with the bytes of the line read so far. *)
Fixpoint read_line (lineMax : Z) (line s : str) : line_result :=
  match s with
  | [] => LastLine line
  | b :: r =>
      if byte_eqb b CR then Line line (skip_lf r)
      else if byte_eqb b LF then Line line r
      else
        let line := line ++ [b] in
        if lineMax <? Z.of_nat (length line) then Oversized (skip_line r)
        else read_line lineMax line r
  end.

Definition readSSELine (lineMax : Z) (s : str) : line_result := read_line lineMax [] s.

(** What one non-empty line does to the pending event: its name and data, or the
    bound it violates. *)
Definition sse_line (lineMax frameMax : Z) (line name data : str) : (str * str) + (bool * Z) :=
  if HasPrefix line "event:" then
    let name := TrimSpace (TrimPrefix line "event:") in
    if lineMax <? Z.of_nat (length name) then inr (true, lineMax) else inl (name, data)
  else if HasPrefix line "data:" then
    let payload := TrimPrefix (TrimPrefix line "data:") " " in
    let data := (match data with [] => [] | _ => data ++ [LF] end) ++ payload in
    if frameMax <? Z.of_nat (length data) then inr (false, frameMax) else inl (name, data)
  else inl (name, data).

(** The loop of [readSSEEventLimited]; [None] is out of fuel. *)
Fixpoint read_event (fuel : nat) (lineMax frameMax : Z) (fin : stream_end) (name data s : str)
    : option sse_result :=
  match fuel with
  | O => None
  | S fuel =>
      let process line rest :=
        match sse_line lineMax frameMax line name data with
        | inl (name, data) => read_event fuel lineMax frameMax fin name data rest
        | inr (l, b) => Some (SSEBoundError l b)
        end in
      match readSSELine lineMax s with
      | Oversized _ => Some (SSEBoundError true lineMax)
      | LastLine [] =>
          match fin, data with
          | StreamError, _ => Some (SSEEnd StreamError)
          | StreamEOF, [] => Some (SSEEnd StreamEOF)
          | StreamEOF, _ => Some (SSELast {| sse_Event := name; sse_Data := data |})
          end
      | LastLine line => process line []
      | Line [] rest =>
          match data with
          | [] => read_event fuel lineMax frameMax fin [] [] rest
          | _ => Some (SSENext {| sse_Event := name; sse_Data := data |} rest)
          end
      | Line line rest => process line rest
      end
  end.

(** [readSSEEventLimited]: a line costs at least one byte, so this fuel is enough
    ([readSSEEventLimited_total]). *)
Definition readSSEEventLimited (lineMax frameMax : Z) (fin : stream_end) (s : str) : option sse_result :=
  read_event (S (length s)) lineMax frameMax fin [] [] s.

Definition readSSEEvent (fin : stream_end) (s : str) : option sse_result :=
  readSSEEventLimited maxSSELineBytes maxSSEFrameBytes fin s.

(** ** Writing *)

Record frameEvent := { fe_Type : str; fe_Data : str }.

(** [writeFrameBytesBounded] appends a frame to the buffer, or reports the bound. *)
Definition writeFrameBytesBounded (buf : str) (event : frameEvent) (max : Z) : result Z str :=
  let total := Z.of_nat (length (fe_Data event)) + Z.of_nat (length (fe_Type event)) + 16 in
  if max <? total then Err max
  else
    let buf := if str_eqb (fe_Type event) [] then buf
               else buf ++ lit "event: " ++ fe_Type event ++ [LF] in
    Ok (buf ++ lit "data: " ++ fe_Data event ++ [LF; LF]).

(** ** Specifications *)

Definition one_line (s : str) : Prop := (CR ∉ s) ∧ (LF ∉ s).

(** A frame whose event survives the framing: both fields on one line, the name
    with no white space around it, the data not empty, within the bounds. *)
Definition plain_frame (lineMax frameMax : Z) (f : frameEvent) : Prop :=
  one_line (fe_Type f) ∧ one_line (fe_Data f) ∧ fe_Data f ≠ [] ∧
  TrimSpace (" "%char :: fe_Type f) = fe_Type f ∧
  Z.of_nat (length (fe_Type f)) + 7 <= lineMax ∧
  Z.of_nat (length (fe_Data f)) + 6 <= lineMax ∧
  Z.of_nat (length (fe_Data f)) <= frameMax.

(** All the frames, written one after the other. *)
Fixpoint write_all (fs : list frameEvent) (max : Z) (buf : str) : result Z str :=
  match fs with
  | [] => Ok buf
  | f :: fs => b <-? writeFrameBytesBounded buf f max ;; write_all fs max b
  end.

(** Every event of a stream, until one call reports an end or a violation. *)
Fixpoint read_all (fuel : nat) (lineMax frameMax : Z) (fin : stream_end) (s : str)
    : option (list SSEEvent * option (bool * Z)) :=
  match fuel with
  | O => None
  | S fuel =>
      match readSSEEventLimited lineMax frameMax fin s with
      | Some (SSENext e rest) =>
          match read_all fuel lineMax frameMax fin rest with
          | Some (es, b) => Some (e :: es, b)
          | None => None
          end
      | Some (SSELast e) => Some ([e], None)
      | Some (SSEEnd _) => Some ([], None)
      | Some (SSEBoundError l b) => Some ([], Some (l, b))
      | None => None
      end
  end.

(** The lines of a text, any of the three terminators ending one. *)
Fixpoint lines (cur s : str) : list str :=
  match s with
  | [] => match cur with [] => [] | _ => [cur] end
  | b :: r =>
      if byte_eqb b LF then cur :: lines [] r
      else if byte_eqb b CR then
        cur :: match r with
               | c :: r' => if byte_eqb c LF then lines [] r' else lines [] r
               | [] => []
               end
      else lines (cur ++ [b]) r
  end.

Definition line_ok (lineMax : Z) (l : str) : Prop := Z.of_nat (length l) <= lineMax.

Definition data_ok (frameMax : Z) (e : SSEEvent) : Prop :=
  sse_Data e ≠ [] ∧ Z.of_nat (length (sse_Data e)) <= frameMax.

(** A text whose lines all end with the same terminator. *)
Definition joined (term : str) (ls : list str) : str := concat (map (λ l, l ++ term) ls).

(** The next event and the lines left after it, computed from the lines alone. *)
Fixpoint event_of_lines (lineMax frameMax : Z) (fin : stream_end) (name data : str) (ls : list str)
    : sse_result * list str :=
  match ls with
  | [] =>
      match fin, data with
      | StreamError, _ => (SSEEnd StreamError, [])
      | StreamEOF, [] => (SSEEnd StreamEOF, [])
      | StreamEOF, _ => (SSELast {| sse_Event := name; sse_Data := data |}, [])
      end
  | l :: ls =>
      if lineMax <? Z.of_nat (length l) then (SSEBoundError true lineMax, [])
      else match l, data with
           | [], [] => event_of_lines lineMax frameMax fin [] [] ls
           | [], _ => (SSENext {| sse_Event := name; sse_Data := data |} [], ls)
           | _, _ => match sse_line lineMax frameMax l name data with
                     | inl (name, data) => event_of_lines lineMax frameMax fin name data ls
                     | inr (b, n) => (SSEBoundError b n, [])
                     end
           end
  end.

(** The reference result with the rest of the text in place of the rest of the
    lines. *)
Definition with_rest (term : str) (r : sse_result * list str) : sse_result :=
  match r with
  | (SSENext e _, ls) => SSENext e (joined term ls)
  | (r, _) => r
  end.

Definition terminator (term : str) : Prop := term = [LF] ∨ term = [CR] ∨ term = [CR; LF].

Definition event_of (f : frameEvent) : SSEEvent := {| sse_Event := fe_Type f; sse_Data := fe_Data f |}.

(** The bytes of one frame. *)
Definition frame_bytes (f : frameEvent) : str :=
  (if str_eqb (fe_Type f) [] then [] else lit "event: " ++ fe_Type f ++ [LF]) ++
  lit "data: " ++ fe_Data f ++ [LF; LF].

Definition demo_frames : list frameEvent :=
  [{| fe_Type := "response.created"; fe_Data := "{}" |}; {| fe_Type := []; fe_Data := "[DONE]" |}].

(** ** Lemmas: lines *)

Lemma read_line_app lineMax line l s :
  one_line l → Z.of_nat (length line + length l) <= lineMax →
  read_line lineMax line (l ++ s) = read_line lineMax (line ++ l) s.
Proof.
  revert line. induction l as [|b l IH]; intros line [Hcr Hlf] Hl; simpl; [by rewrite app_nil_r|].
  rewrite not_elem_of_cons in Hcr, Hlf. destruct Hcr as [Hb1 Hcr], Hlf as [Hb2 Hlf].
  rewrite !byte_eqb_neq by done. rewrite length_app. simpl in *.
  destruct (Z.ltb_spec lineMax (Z.of_nat (length line + 1))); [lia|].
  rewrite IH; [by rewrite <- app_assoc|done|]. rewrite length_app. simpl. lia.
Qed.

Lemma readSSELine_lf lineMax l s :
  one_line l → Z.of_nat (length l) <= lineMax → readSSELine lineMax (l ++ LF :: s) = Line l s.
Proof. intros H1 H2. unfold readSSELine. rewrite read_line_app by done. done. Qed.

(** What reading a line takes from the stream. *)
Lemma read_line_spec lineMax line s :
  Z.of_nat (length line) <= lineMax →
  match read_line lineMax line s with
  | Line l rest =>
      ∃ t term, l = line ++ t ∧ s = t ++ term ++ rest ∧ one_line t ∧ Z.of_nat (length l) <= lineMax ∧
        (term = [LF] ∨ term = [CR; LF] ∨ (term = [CR] ∧ ∀ r, rest ≠ LF :: r))
  | LastLine l => ∃ t, l = line ++ t ∧ s = t ∧ one_line t ∧ Z.of_nat (length l) <= lineMax
  | Oversized _ => ∃ t r, s = t ++ r ∧ one_line t ∧ lineMax < Z.of_nat (length (line ++ t))
  end.
Proof.
  revert line. induction s as [|b r IH]; intros line Hl; simpl.
  - exists []. rewrite app_nil_r. repeat split; try done; apply not_elem_of_nil.
  - destruct (byte_eqb b CR) eqn:Ec.
    { apply byte_eqb_eq in Ec as ->. destruct r as [|c r]; simpl.
      - exists [], [CR]. rewrite app_nil_r. repeat split; try done; [apply not_elem_of_nil..|]. right; right. done.
      - destruct (byte_eqb c LF) eqn:El.
        + apply byte_eqb_eq in El as ->. exists [], [CR; LF]. rewrite app_nil_r.
          repeat split; try done; [apply not_elem_of_nil..|]. by right; left.
        + exists [], [CR]. rewrite app_nil_r. repeat split; try done; [apply not_elem_of_nil..|].
          right; right. split; [done|]. intros r' [= -> _]. by rewrite byte_eqb_refl in El. }
    destruct (byte_eqb b LF) eqn:El.
    { apply byte_eqb_eq in El as ->. exists [], [LF]. rewrite app_nil_r.
      repeat split; try done; [apply not_elem_of_nil..|]. by left. }
    assert (Hb : one_line [b]).
    { split; intros Hin%list_elem_of_singleton; subst; [by rewrite byte_eqb_refl in Ec|by rewrite byte_eqb_refl in El]. }
    assert (Hcons : ∀ t, one_line t → one_line (b :: t)).
    { intros t [H1 H2]. destruct Hb as [Hb1 Hb2]. rewrite list_elem_of_singleton in Hb1, Hb2.
      split; rewrite not_elem_of_cons; done. }
    rewrite length_app. simpl.
    destruct (Z.ltb_spec lineMax (Z.of_nat (length line + 1))) as [Hgt|Hle].
    { exists [b], r. rewrite length_app. simpl. done. }
    specialize (IH (line ++ [b])). rewrite length_app in IH. specialize (IH ltac:(simpl; lia)).
    destruct (read_line lineMax (line ++ [b]) r).
    + destruct IH as (t & term & -> & -> & Ht & Hlen & Hterm). exists (b :: t), term.
      rewrite <- app_assoc in *. split; [done|]. split; [done|]. split; [by apply Hcons|]. done.
    + destruct IH as (t & -> & -> & Ht & Hlen). exists (b :: t). rewrite <- app_assoc in *.
      split; [done|]. split; [done|]. split; [by apply Hcons|]. done.
    + destruct IH as (t & r' & -> & Ht & Hlen). exists (b :: t), r'. rewrite <- app_assoc in Hlen.
      split; [done|]. split; [by apply Hcons|]. done.
Qed.

Lemma read_line_shorter lineMax line s :
  match read_line lineMax line s with
  | Line _ rest => (length rest < length s)%nat
  | LastLine l => l = line ++ s
  | Oversized _ => True
  end.
Proof.
  revert line. induction s as [|b r IH]; intros line; simpl; [by rewrite app_nil_r|].
  destruct (byte_eqb b CR).
  { destruct r as [|c r]; simpl; [lia|]. destruct (byte_eqb c LF); simpl; lia. }
  destruct (byte_eqb b LF); [lia|]. destruct (_ <? _); [done|].
  specialize (IH (line ++ [b])). destruct (read_line _ _ r); [lia| |done]. by rewrite <- app_assoc in IH.
Qed.

Lemma lines_line cur l term k :
  one_line l → (term = [LF] ∨ term = [CR; LF] ∨ (term = [CR] ∧ ∀ r, k ≠ LF :: r)) →
  lines cur (l ++ term ++ k) = (cur ++ l) :: lines [] k.
Proof.
  revert cur. induction l as [|b l IH]; intros cur [Hcr Hlf] Ht.
  - rewrite app_nil_r. destruct Ht as [->|[->|[-> Hk]]]; try done. simpl.
    destruct k as [|c k]; [done|]. rewrite byte_eqb_neq; [done|]. intros ->. by destruct (Hk k).
  - rewrite not_elem_of_cons in Hcr, Hlf. destruct Hcr as [H1 Hcr], Hlf as [H2 Hlf]. simpl.
    rewrite !byte_eqb_neq by done. rewrite IH by done. by rewrite <- app_assoc.
Qed.

Lemma lines_last l : one_line l → lines [] l = match l with [] => [] | _ => [l] end.
Proof.
  assert (Hg : ∀ cur, one_line l → lines cur l = match cur ++ l with [] => [] | _ => [cur ++ l] end).
  { induction l as [|b l IH]; intros cur [Hcr Hlf]; simpl; [by rewrite app_nil_r|].
    rewrite not_elem_of_cons in Hcr, Hlf. destruct Hcr as [H1 Hcr], Hlf as [H2 Hlf].
    rewrite !byte_eqb_neq by done. rewrite IH by done. by rewrite <- app_assoc. }
  intros Hl. by rewrite Hg.
Qed.

(** ** Lemmas: events *)

Lemma sse_line_data lineMax frameMax line name data name' data' :
  sse_line lineMax frameMax line name data = inl (name', data') →
  Z.of_nat (length data) <= frameMax → Z.of_nat (length data') <= frameMax.
Proof.
  unfold sse_line. intros Hs Hd. destruct (HasPrefix line "event:").
  - destruct (_ <? _); by simplify_eq.
  - destruct (HasPrefix line "data:"); [|by simplify_eq].
    match type of Hs with context [?a <? ?b] => destruct (Z.ltb_spec a b) end; by simplify_eq.
Qed.

(** More fuel than bytes is enough, and more makes no difference. *)
Lemma read_event_fuel lineMax frameMax fin fuel fuel' name data s :
  (length s < fuel)%nat → (length s < fuel')%nat →
  read_event fuel lineMax frameMax fin name data s ≠ None ∧
  read_event fuel lineMax frameMax fin name data s = read_event fuel' lineMax frameMax fin name data s.
Proof.
  revert fuel' name data s. induction fuel as [|fuel IH]; intros [|fuel'] name data s H1 H2; [lia..|].
  simpl. pose proof (read_line_shorter lineMax [] s) as Hs. unfold readSSELine.
  destruct (read_line lineMax [] s) as [[|a l] rest|[|a l]|rest].
  - destruct data; [apply IH; lia|done].
  - destruct (sse_line _ _ _ _ _) as [[n d]|[l' b]]; [apply IH; lia|done].
  - destruct fin; [|done]. by destruct data.
  - destruct (sse_line _ _ _ _ _) as [[n d]|[l' b]]; [|done]. simpl in Hs. subst s. simpl in *. apply IH; simpl; lia.
  - done.
Qed.

(** An event takes at least a byte. *)
Lemma read_event_shorter lineMax frameMax fin fuel name data s e rest :
  read_event fuel lineMax frameMax fin name data s = Some (SSENext e rest) → (length rest < length s)%nat.
Proof.
  revert name data s. induction fuel as [|fuel IH]; intros name data s; simpl; [done|].
  pose proof (read_line_shorter lineMax [] s) as Hs. unfold readSSELine.
  destruct (read_line lineMax [] s) as [[|a l] rest'|[|a l]|rest']; [| | | |done].
  - destruct data; [intros H%IH; lia|by intros [= _ <-]].
  - destruct (sse_line _ _ _ _ _) as [[n d]|[l' b]]; [intros H%IH; lia|done].
  - destruct fin; [|done]. by destruct data.
  - destruct (sse_line _ _ _ _ _) as [[n d]|[l' b]]; [|done]. intros H%IH. simpl in H. lia.
Qed.

Lemma read_event_lines lineMax frameMax fin fuel name data s res :
  0 <= lineMax → Z.of_nat (length data) <= frameMax →
  read_event fuel lineMax frameMax fin name data s = Some res →
  match res with
  | SSENext e rest =>
      ∃ ls, lines [] s = ls ++ lines [] rest ∧ Forall (line_ok lineMax) ls ∧ data_ok frameMax e ∧
            (length rest < length s)%nat
  | SSELast e => Forall (line_ok lineMax) (lines [] s) ∧ data_ok frameMax e
  | SSEEnd _ => Forall (line_ok lineMax) (lines [] s)
  | SSEBoundError _ _ => True
  end.
Proof.
  intros Hm. revert name data s. induction fuel as [|fuel IH]; intros name data s Hd Hr; [done|].
  simpl in Hr. pose proof (read_line_spec lineMax [] s ltac:(simpl; lia)) as Hspec.
  unfold readSSELine in Hr.
  (* a line was read: prepend it to what the rest gives *)
  assert (Hcons : ∀ l t term rest, l = [] ++ t → s = t ++ term ++ rest → one_line t → line_ok lineMax l →
    (term = [LF] ∨ term = [CR; LF] ∨ (term = [CR] ∧ ∀ r, rest ≠ LF :: r)) →
    lines [] s = l :: lines [] rest ∧ (length rest < length s)%nat).
  { intros l t term rest -> -> Ht Hl Hterm. split; [by rewrite lines_line|].
    rewrite !length_app. destruct Hterm as [->|[->|[-> _]]]; simpl; lia. }
  assert (Hlift : ∀ l rest n d, lines [] s = l :: lines [] rest ∧ (length rest < length s)%nat → line_ok lineMax l →
    Z.of_nat (length d) <= frameMax → read_event fuel lineMax frameMax fin n d rest = Some res →
    match res with
    | SSENext e rest =>
        ∃ ls, lines [] s = ls ++ lines [] rest ∧ Forall (line_ok lineMax) ls ∧ data_ok frameMax e ∧
              (length rest < length s)%nat
    | SSELast e => Forall (line_ok lineMax) (lines [] s) ∧ data_ok frameMax e
    | SSEEnd _ => Forall (line_ok lineMax) (lines [] s)
    | SSEBoundError _ _ => True
    end).
  { intros l rest n d [Hls Hlen] Hl Hd' Hrd. apply IH in Hrd; [|done]. rewrite Hls. destruct res as [e r|e|e|? ?].
    - destruct Hrd as (ls & -> & Hf & He & Hlt). exists (l :: ls). repeat split; try done; try apply He; [by constructor|lia].
    - destruct Hrd. split; [by constructor|done].
    - by constructor.
    - done. }
  destruct (read_line lineMax [] s) as [[|a l] rest|[|a l]|rest] eqn:El.
  - destruct Hspec as (t & term & Ht & Hst & Ho & Hl & Hterm). pose proof (Hcons _ _ _ _ Ht Hst Ho Hl Hterm) as Hc.
    destruct data as [|x data]; [by eapply Hlift|]. simplify_eq/=. destruct Hc as [Hc Hlt].
    exists [[]]. split; [done|]. split; [by repeat constructor|]. split; [|done]. split; [done|]. simpl. lia.
  - destruct Hspec as (t & term & Ht & Hst & Ho & Hl & Hterm). pose proof (Hcons _ _ _ _ Ht Hst Ho Hl Hterm) as Hc.
    destruct (sse_line _ _ _ _ _) as [[n d]|[l' b]] eqn:Es; [|by simplify_eq].
    eapply Hlift; [done|done| |done]. by eapply sse_line_data.
  - destruct Hspec as (t & Ht & -> & Ho & Hl). simpl in Ht. subst t.
    destruct fin; [|by simplify_eq]. destruct data as [|x data]; simplify_eq/=; [done|].
    split; [done|]. split; [done|]. simpl. lia.
  - destruct Hspec as (t & Ht & -> & Ho & Hl). simpl in Ht. subst t.
    destruct (sse_line _ _ _ _ _) as [[n d]|[l' b]] eqn:Es; [|by simplify_eq].
    eapply (Hlift (a :: l) []); [|done| |done]; [|by eapply sse_line_data].
    split; [by rewrite lines_last|simpl; lia].
  - by simplify_eq.
Qed.

(** ** Lemmas: round trip *)

Lemma write_frame_ok buf f max out :
  writeFrameBytesBounded buf f max = Ok out → out = buf ++ frame_bytes f.
Proof.
  unfold writeFrameBytesBounded, frame_bytes. destruct (_ <? _); [done|]. intros [= <-].
  destruct (str_eqb (fe_Type f) []); [reflexivity|]. rewrite <- app_assoc. reflexivity.
Qed.

Lemma write_all_ok fs max buf out :
  write_all fs max buf = Ok out → out = buf ++ concat (map frame_bytes fs).
Proof.
  revert buf. induction fs as [|f fs IH]; intros buf; simpl; [by intros [= <-]; rewrite app_nil_r|].
  rewrite result_bind_ok. intros (b & ->%write_frame_ok & ->%IH). by rewrite <- app_assoc.
Qed.

Lemma one_line_app a b : one_line a → one_line b → one_line (a ++ b).
Proof. intros [H1 H2] [H3 H4]. split; rewrite not_elem_of_app; done. Qed.

Lemma lit_one_line s : forallb (λ c, negb (byte_eqb c CR) && negb (byte_eqb c LF)) (lit s) = true → one_line (lit s).
Proof.
  rewrite forallb_forall. intros Hf. split; intros Hin%list_elem_of_In%Hf; by rewrite ?byte_eqb_refl, ?andb_false_r in Hin.
Qed.

Lemma sse_line_event lineMax frameMax t name data :
  TrimSpace (" "%char :: t) = t → Z.of_nat (length t) <= lineMax →
  sse_line lineMax frameMax (lit "event: " ++ t) name data = inl (t, data).
Proof.
  intros Ht Hl. unfold sse_line. change (HasPrefix (lit "event: " ++ t) "event:") with true.
  change (TrimPrefix (lit "event: " ++ t) "event:") with (" "%char :: t). rewrite Ht.
  by destruct (Z.ltb_spec lineMax (Z.of_nat (length t))); [lia|].
Qed.

Lemma sse_line_payload lineMax frameMax d name :
  Z.of_nat (length d) <= frameMax →
  sse_line lineMax frameMax (lit "data: " ++ d) name [] = inl (name, d).
Proof.
  intros Hl. unfold sse_line. change (HasPrefix (lit "data: " ++ d) "event:") with false.
  change (HasPrefix (lit "data: " ++ d) "data:") with true.
  change (TrimPrefix (TrimPrefix (lit "data: " ++ d) "data:") " ") with d. simpl.
  by destruct (Z.ltb_spec frameMax (Z.of_nat (length d))); [lia|].
Qed.

(** A written frame, whatever follows it, reads back as its event. *)
Lemma read_frame lineMax frameMax fin fuel f rest :
  plain_frame lineMax frameMax f →
  read_event (S (S (S fuel))) lineMax frameMax fin [] [] (frame_bytes f ++ rest) = Some (SSENext (event_of f) rest).
Proof.
  intros (Ht & Hd & Hne & Htrim & Hlt & Hld & Hfd).
  assert (Hdata : ∀ fuel name, read_event (S (S fuel)) lineMax frameMax fin name []
    ((lit "data: " ++ fe_Data f ++ [LF; LF]) ++ rest) = Some (SSENext {| sse_Event := name; sse_Data := fe_Data f |} rest)).
  { intros fuel' name.
    replace ((lit "data: " ++ fe_Data f ++ [LF; LF]) ++ rest) with ((lit "data: " ++ fe_Data f) ++ LF :: LF :: rest)
      by (by rewrite <- !app_assoc).
    cbn [read_event]. rewrite readSSELine_lf; [|apply one_line_app; [apply lit_one_line; vm_compute; reflexivity | done] | rewrite length_app; simpl; lia].
    change (lit "data: " ++ fe_Data f) with ("d"%char :: lit "ata: " ++ fe_Data f) at 1. cbn iota.
    change ("d"%char :: lit "ata: " ++ fe_Data f) with (lit "data: " ++ fe_Data f).
    rewrite sse_line_payload by done. change (readSSELine lineMax (LF :: rest)) with (Line [] rest). cbn iota.
    by destruct (fe_Data f). }
  unfold frame_bytes, event_of. destruct (str_eqb (fe_Type f) []) eqn:Et.
  - apply str_eqb_eq in Et. rewrite Et. apply Hdata.
  - replace (((lit "event: " ++ fe_Type f ++ [LF]) ++ lit "data: " ++ fe_Data f ++ [LF; LF]) ++ rest)
      with ((lit "event: " ++ fe_Type f) ++ LF :: (lit "data: " ++ fe_Data f ++ [LF; LF]) ++ rest)
      by (by rewrite <- !app_assoc).
    set (k := (lit "data: " ++ _) ++ rest) in *. cbn [read_event].
    rewrite readSSELine_lf; [|apply one_line_app; [apply lit_one_line; vm_compute; reflexivity | done] | rewrite length_app; simpl; lia].
    change (lit "event: " ++ fe_Type f) with ("e"%char :: lit "vent: " ++ fe_Type f) at 1. cbn iota.
    change ("e"%char :: lit "vent: " ++ fe_Type f) with (lit "event: " ++ fe_Type f).
    rewrite sse_line_event by (done || lia). apply Hdata.
Qed.

Lemma frame_bytes_long f : (2 <= length (frame_bytes f))%nat.
Proof. unfold frame_bytes. rewrite !length_app. simpl. lia. Qed.

Lemma read_all_frames lineMax frameMax fs :
  Forall (plain_frame lineMax frameMax) fs →
  read_all (S (length fs)) lineMax frameMax StreamEOF (concat (map frame_bytes fs)) = Some (map event_of fs, None).
Proof.
  induction 1 as [|f fs Hf Hfs IH]; [done|].
  change (length (f :: fs)) with (S (length fs)). set (n := S (length fs)) in *.
  change (concat (map frame_bytes (f :: fs))) with (frame_bytes f ++ concat (map frame_bytes fs)).
  change (read_all (S n)) with (λ lm fm fin s, match readSSEEventLimited lm fm fin s with
      | Some (SSENext e rest) =>
          match read_all n lm fm fin rest with Some (es, b) => Some (e :: es, b) | None => None end
      | Some (SSELast e) => Some ([e], None)
      | Some (SSEEnd _) => Some ([], None)
      | Some (SSEBoundError l b) => Some ([], Some (l, b))
      | None => None
      end). cbv beta.
  assert (Hone : readSSEEventLimited lineMax frameMax StreamEOF (frame_bytes f ++ concat (map frame_bytes fs)) =
    Some (SSENext (event_of f) (concat (map frame_bytes fs)))).
  { unfold readSSEEventLimited. pose proof (frame_bytes_long f) as Hl. rewrite length_app.
    replace (S (length (frame_bytes f) + length (concat (map frame_bytes fs))))%nat
      with (S (S (S (length (frame_bytes f) + length (concat (map frame_bytes fs)) - 2)))) by lia.
    by apply read_frame. }
  by rewrite Hone, IH.
Qed.

(** ** Lemmas: terminators *)

Lemma joined_head_not_lf term ls r :
  Forall one_line ls → (term = [CR] ∨ term = [CR; LF]) → joined term ls ≠ LF :: r.
Proof.
  intros Hls Ht. destruct Hls as [|l ls [_ Hlf] _]; [done|]. unfold joined. simpl. rewrite <- app_assoc.
  destruct l as [|b l]; [destruct Ht as [->| ->]; discriminate|]. simpl. intros [= -> _]. apply Hlf. left.
Qed.

Lemma readSSELine_joined lineMax term l ls :
  one_line l → Forall one_line ls → (term = [LF] ∨ term = [CR] ∨ term = [CR; LF]) → line_ok lineMax l →
  readSSELine lineMax (joined term (l :: ls)) = Line l (joined term ls).
Proof.
  intros Hl Hls Ht Hok. unfold joined at 1. simpl. fold (joined term ls). unfold readSSELine.
  rewrite <- app_assoc, read_line_app by done. simpl.
  destruct Ht as [->|Ht]; [done|]. pose proof (joined_head_not_lf term ls) as Hn.
  destruct Ht as [->| ->]; [|done]. simpl. f_equal. unfold skip_lf. destruct (joined [CR] ls) as [|c k] eqn:Ek; [done|].
  rewrite byte_eqb_neq; [done|]. intros ->. destruct (Hn k Hls (or_introl eq_refl)). done.
Qed.

Lemma read_line_oversized lineMax line l k :
  one_line l → Z.of_nat (length line) <= lineMax → lineMax < Z.of_nat (length line + length l) →
  ∃ r, read_line lineMax line (l ++ k) = Oversized r.
Proof.
  revert line. induction l as [|b l IH]; intros line [Hcr Hlf] H1 H2; simpl in *; [lia|].
  rewrite not_elem_of_cons in Hcr, Hlf. destruct Hcr as [Hb1 Hcr], Hlf as [Hb2 Hlf].
  rewrite !byte_eqb_neq by done. rewrite length_app. simpl.
  destruct (Z.ltb_spec lineMax (Z.of_nat (length line + 1))); [by eexists|].
  apply IH; [done|..]; rewrite length_app; simpl; lia.
Qed.

Lemma read_event_joined lineMax frameMax fin term fuel name data ls :
  Forall one_line ls → terminator term → 0 <= lineMax → (length (joined term ls) < fuel)%nat →
  read_event fuel lineMax frameMax fin name data (joined term ls) =
    Some (with_rest term (event_of_lines lineMax frameMax fin name data ls)).
Proof.
  intros Hls Ht Hm. revert fuel name data.
  induction Hls as [|l ls Hl Hls IH]; intros fuel name data Hf; (destruct fuel as [|fuel]; [lia|]).
  - simpl. destruct fin; [|done]. by destruct data.
  - cbn [event_of_lines read_event].
    assert (Hfuel : (length (joined term ls) < fuel)%nat).
    { unfold joined in *. simpl in Hf. rewrite !length_app in Hf.
      assert (1 <= length term)%nat by (destruct Ht as [->|[->| ->]]; simpl; lia). lia. }
    destruct (Z.ltb_spec lineMax (Z.of_nat (length l))) as [Hgt|Hle].
    + destruct (read_line_oversized lineMax [] l (term ++ joined term ls) Hl) as [r Hr]; [simpl; lia|simpl; lia|].
      unfold readSSELine, joined. simpl. rewrite <- app_assoc. fold (joined term ls). by rewrite Hr.
    + rewrite readSSELine_joined by done. destruct l as [|a l].
      * destruct data; [by apply IH|done].
      * assert (Hgo : match sse_line lineMax frameMax (a :: l) name data with
          | inl (name0, data0) => read_event fuel lineMax frameMax fin name0 data0 (joined term ls)
          | inr (l0, b) => Some (SSEBoundError l0 b) end =
          Some (with_rest term match sse_line lineMax frameMax (a :: l) name data with
          | inl (name0, data0) => event_of_lines lineMax frameMax fin name0 data0 ls
          | inr (b, n) => (SSEBoundError b n, []) end)).
        { destruct (sse_line _ _ _ _ _) as [[n d]|[b n]]; [by apply IH|done]. }
        rewrite Hgo. by destruct data.
Qed.

Lemma read_all_bounds lineMax frameMax fin n s :
  0 <= lineMax → 0 <= frameMax → (length s < n)%nat →
  ∃ es b, read_all n lineMax frameMax fin s = Some (es, b) ∧ Forall (data_ok frameMax) es ∧
    (b = None → Forall (line_ok lineMax) (lines [] s)).
Proof.
  intros Hl Hf. revert s. induction n as [|n IH]; intros s Hn; [lia|]. simpl.
  unfold readSSEEventLimited.
  destruct (read_event_fuel lineMax frameMax fin (S (length s)) (S (length s)) [] [] s) as [Hsome _]; [lia..|].
  destruct (read_event _ _ _ _ _ _ s) as [res|] eqn:Er; [|done].
  apply read_event_lines in Er; [|done|done]. destruct res as [e rest|e|e|l b].
  - destruct Er as (ls & Hls & Hok & He & Hlen).
    destruct (IH rest) as (es & b & -> & Hes & Hb); [lia|]. exists (e :: es), b. split; [done|].
    split; [by constructor|]. intros Hb0. rewrite Hls. apply Forall_app. split; [done|]. by apply Hb.
  - destruct Er as [Hlo He]. exists [e], None. split; [done|]. split; [by apply Forall_singleton|done].
  - exists [], None. split; [done|]. split; [constructor|done].
  - exists [], (Some (l, b)). split; [done|]. split; [constructor|done].
Qed.

(** ** Properties *)

(** C36: frames written within any frame bound are read back exactly, in order,
    with nothing left over, when each fits the reader's bounds and its name and
    data stay on one line. *)
Theorem sse_roundtrip lineMax frameMax max fs out :
  Forall (plain_frame lineMax frameMax) fs → write_all fs max [] = Ok out →
  read_all (S (length fs)) lineMax frameMax StreamEOF out = Some (map event_of fs, None).
Proof. intros Hfs ->%write_all_ok. by apply read_all_frames. Qed.

(** a size violation is never skipped: reading any byte stream terminates;
    every event it yields has non-empty data within the frame bound, and if it
    does not end in a violation then no line anywhere in the stream was longer
    than the line bound. *)
Theorem sse_bounds_fatal lineMax frameMax fin s :
  0 <= lineMax → 0 <= frameMax →
  ∃ es b, read_all (S (length s)) lineMax frameMax fin s = Some (es, b) ∧ Forall (data_ok frameMax) es ∧
    (b = None → Forall (line_ok lineMax) (lines [] s)).
Proof. intros Hl Hf. apply read_all_bounds; [done|done|lia]. Qed.

(** the byte-level reader computes the line-level reference: for text whose
    lines end in LF, in CR or in CRLF alike, the next event, violation or end,
    and the text left over, are those of the lines. *)
Theorem sse_reader_reference lineMax frameMax fin term ls :
  Forall one_line ls → terminator term → 0 <= lineMax →
  readSSEEventLimited lineMax frameMax fin (joined term ls) =
    Some (with_rest term (event_of_lines lineMax frameMax fin [] [] ls)).
Proof. intros Hls Ht Hm. apply read_event_joined; try done. lia. Qed.

(** An empty [data:] line before another leaves no newline behind: the pending
    data is still empty when the next line is joined. *)
Example empty_data_line_lost :
  readSSEEvent StreamEOF (lit "data:" ++ LF :: lit "data: x" ++ [LF; LF]) =
  Some (SSENext {| sse_Event := []; sse_Data := lit "x" |} []).
Proof. vm_compute. reflexivity. Qed.

(** ** Witnesses *)

Lemma demo_frames_plain : Forall (plain_frame 100 100) demo_frames.
Proof.
  assert (Hone : ∀ s, forallb (λ c, negb (byte_eqb c CR) && negb (byte_eqb c LF)) (lit s) = true → one_line (lit s))
    by apply lit_one_line.
  repeat constructor; simpl; try lia; try reflexivity; try discriminate; try apply not_elem_of_nil;
    (apply (Hone "response.created"%string) || apply (Hone "{}"%string) || apply (Hone "[DONE]"%string)); reflexivity.
Qed.

Lemma sse_roundtrip_witness :
  read_all 3 100 100 StreamEOF (frame_bytes (hd {| fe_Type := []; fe_Data := [] |} demo_frames) ++ lit "data: [DONE]" ++ [LF; LF])
  = Some ([{| sse_Event := "response.created"; sse_Data := "{}" |}; {| sse_Event := []; sse_Data := "[DONE]" |}], None).
Proof.
  apply (sse_roundtrip 100 100 64 demo_frames).
  - exact demo_frames_plain.
  - vm_compute. reflexivity.
Defined.

Lemma sse_bounds_fatal_witness :
  ∃ es b, read_all 22 8 100 StreamEOF (lit "data: x12" ++ LF :: lit "data: y" ++ [LF; LF]) = Some (es, b) ∧ b ≠ None.
Proof.
  destruct (sse_bounds_fatal 8 100 StreamEOF (lit "data: x12" ++ LF :: lit "data: y" ++ [LF; LF]))
    as (es & b & Hr & _ & _); [lia|lia|].
  vm_compute in Hr. exists es, b. injection Hr as <- <-. split; [vm_compute; reflexivity | discriminate].
Defined.

Lemma sse_reader_reference_witness :
  readSSEEventLimited 100 100 StreamEOF (joined [CR; LF] [lit "event: a"; lit "data: 1"; lit "data: 2"; []; lit "x"]) =
  Some (SSENext {| sse_Event := "a"; sse_Data := "1" ++ LF :: lit "2" |} (joined [CR; LF] [lit "x"])).
Proof.
  etransitivity; [apply (sse_reader_reference 100 100 StreamEOF [CR; LF])|vm_compute; reflexivity].
  - repeat constructor; intros Hin; apply list_elem_of_In in Hin; vm_compute in Hin; intuition discriminate.
  - right; right. reflexivity.
  - lia.
Defined.
