(* ===== verification/Budget.v ===== *)
(** * Stream budgets and body limits
      ([src/internal/transcode/stream_budget.go], [src/internal/transcode/limits.go])

    The exchange budget with its charging methods, the package constants and the
    normalisation and validation of configured limits.  Counters are 64-bit. *)

From Stdlib Require Import ZArith Lia Bool List String.
From S2P Require Import Prelude GoStd.

Open Scope Z_scope.

(** ** Constants *)

Definition maxStreamEchoBytes : Z := 4 * 2 ^ 20.
Definition maxStreamAccumulatedBytes : Z := 2 ^ 20.
Definition maxStreamTotalAccumulatedBytes : Z := 4 * 2 ^ 20.
Definition maxStreamOutputItems : Z := 4096.
Definition maxStreamPartsPerItem : Z := 4096.
Definition maxStreamToolCalls : Z := 4096.
Definition maxStreamTotalEvents : Z := 2 ^ 20.
Definition maxStreamTotalParts : Z := 2 ^ 16.
Definition maxStreamStateEntries : Z := 2 ^ 16.
Definition maxStreamPerEventFramingBytes : Z := 256.

Definition DefaultAcceptedRequestBytes : Z := 32 * 2 ^ 20.
Definition DefaultDecodedRequestBytes : Z := 32 * 2 ^ 22.
Definition DefaultRetryReplayBytes : Z := 32 * 2 ^ 20.
Definition DefaultSuccessfulResponseBytes : Z := 32 * 2 ^ 20.
Definition DefaultErrorResponseBytes : Z := 2 ^ 20.
Definition DefaultSSELineBytes : Z := 2 ^ 20.
Definition DefaultSSEFrameBytes : Z := 2 ^ 20.
Definition DefaultGeneratedResponseBytes : Z := 32 * 2 ^ 20.
Definition DefaultErrorMessageBytes : Z := 4 * 2 ^ 10.
Definition DefaultGeneratedSSEFrameBytes : Z := 6 * maxStreamTotalAccumulatedBytes + 6 * maxStreamEchoBytes + 2 ^ 20.
Definition DefaultGeneratedSSEBatchBytes : Z := 6 * 4 * maxStreamTotalAccumulatedBytes + DefaultGeneratedSSEFrameBytes.
Definition MinGeneratedFrameBytes : Z := 2 ^ 10.
Definition MinGeneratedBatchBytes : Z := 2 ^ 10.
Definition MinGeneratedResponseBytes : Z := 2 ^ 10.

Definition maxStreamGeneratedBytes : Z :=
  DefaultGeneratedSSEBatchBytes + maxStreamTotalEvents * maxStreamPerEventFramingBytes +
  6 * maxStreamTotalAccumulatedBytes + 2 ^ 20.

(** ** The exchange budget *)

Record streamBudget := {
  events : Z;
  items_count : Z;
  parts_count : Z;
  toolCalls : Z;
  stateEntries : Z;
  semanticBytes : Z;
}.

(** [newStreamBudget]: the caps are the package constants. *)
Definition newStreamBudget : streamBudget :=
  {| events := 0; items_count := 0; parts_count := 0; toolCalls := 0; stateEntries := 0; semanticBytes := 0 |}.

(** A charging method: the new budget, or [None] when the cap is exceeded. *)
Definition addEvent (b : streamBudget) : option streamBudget :=
  if maxStreamTotalEvents <=? events b then None
  else Some {| events := add64 (events b) 1; items_count := items_count b; parts_count := parts_count b;
               toolCalls := toolCalls b; stateEntries := stateEntries b; semanticBytes := semanticBytes b |}.

Definition addItem (b : streamBudget) : option streamBudget :=
  if maxStreamOutputItems <=? items_count b then None
  else Some {| events := events b; items_count := add64 (items_count b) 1; parts_count := parts_count b;
               toolCalls := toolCalls b; stateEntries := stateEntries b; semanticBytes := semanticBytes b |}.

Definition addPart (b : streamBudget) : option streamBudget :=
  if maxStreamTotalParts <=? parts_count b then None
  else Some {| events := events b; items_count := items_count b; parts_count := add64 (parts_count b) 1;
               toolCalls := toolCalls b; stateEntries := stateEntries b; semanticBytes := semanticBytes b |}.

Definition addToolCall (b : streamBudget) : option streamBudget :=
  if maxStreamToolCalls <=? toolCalls b then None
  else Some {| events := events b; items_count := items_count b; parts_count := parts_count b;
               toolCalls := add64 (toolCalls b) 1; stateEntries := stateEntries b; semanticBytes := semanticBytes b |}.

Definition addStateEntries (n : Z) (b : streamBudget) : option streamBudget :=
  if maxStreamStateEntries <? add64 (stateEntries b) n then None
  else Some {| events := events b; items_count := items_count b; parts_count := parts_count b;
               toolCalls := toolCalls b; stateEntries := add64 (stateEntries b) n; semanticBytes := semanticBytes b |}.

Definition addSemanticBytes (n : Z) (b : streamBudget) : option streamBudget :=
  if maxStreamTotalAccumulatedBytes <? add64 (semanticBytes b) n then None
  else Some {| events := events b; items_count := items_count b; parts_count := parts_count b;
               toolCalls := toolCalls b; stateEntries := stateEntries b; semanticBytes := add64 (semanticBytes b) n |}.

(** ** Body limits *)

Record BodyLimits := {
  AcceptedRequestBytes : Z;
  DecodedRequestBytes : Z;
  RetryReplayBytes : Z;
  SuccessfulResponseBytes : Z;
  ErrorResponseBytes : Z;
  SSELineBytes : Z;
  SSEFrameBytes : Z;
  GeneratedResponseBytes : Z;
  ErrorMessageBytes : Z;
  GeneratedSSEFrameBytes : Z;
  GeneratedSSEBatchBytes : Z;
}.

Definition or_default (v d : Z) : Z := if v <=? 0 then d else v.

Definition WithDefaults (l : BodyLimits) : BodyLimits :=
  {| AcceptedRequestBytes := or_default (AcceptedRequestBytes l) DefaultAcceptedRequestBytes;
     DecodedRequestBytes := or_default (DecodedRequestBytes l) DefaultDecodedRequestBytes;
     RetryReplayBytes := or_default (RetryReplayBytes l) DefaultRetryReplayBytes;
     SuccessfulResponseBytes := or_default (SuccessfulResponseBytes l) DefaultSuccessfulResponseBytes;
     ErrorResponseBytes := or_default (ErrorResponseBytes l) DefaultErrorResponseBytes;
     SSELineBytes := or_default (SSELineBytes l) DefaultSSELineBytes;
     SSEFrameBytes := or_default (SSEFrameBytes l) DefaultSSEFrameBytes;
     GeneratedResponseBytes := or_default (GeneratedResponseBytes l) DefaultGeneratedResponseBytes;
     ErrorMessageBytes := or_default (ErrorMessageBytes l) DefaultErrorMessageBytes;
     GeneratedSSEFrameBytes := or_default (GeneratedSSEFrameBytes l) DefaultGeneratedSSEFrameBytes;
     GeneratedSSEBatchBytes := or_default (GeneratedSSEBatchBytes l) DefaultGeneratedSSEBatchBytes |}.

Inductive limit_error := NegativeLimit (name : string) (v : Z) | BelowMinimum (name : string) (v min : Z).

Definition below_min (v min : Z) : bool := (0 <? v) && (v <? min).

(** [Validate]; the first five fields are visited in map order in the code, so
    which of several negative ones is named is not determined there. *)
Definition Validate (l : BodyLimits) : option limit_error :=
  if AcceptedRequestBytes l <? 0 then Some (NegativeLimit "AcceptedRequestBytes" (AcceptedRequestBytes l))
  else if DecodedRequestBytes l <? 0 then Some (NegativeLimit "DecodedRequestBytes" (DecodedRequestBytes l))
  else if RetryReplayBytes l <? 0 then Some (NegativeLimit "RetryReplayBytes" (RetryReplayBytes l))
  else if SuccessfulResponseBytes l <? 0 then Some (NegativeLimit "SuccessfulResponseBytes" (SuccessfulResponseBytes l))
  else if ErrorResponseBytes l <? 0 then Some (NegativeLimit "ErrorResponseBytes" (ErrorResponseBytes l))
  else if SSELineBytes l <? 0 then Some (NegativeLimit "SSELineBytes" (SSELineBytes l))
  else if SSEFrameBytes l <? 0 then Some (NegativeLimit "SSEFrameBytes" (SSEFrameBytes l))
  else if GeneratedResponseBytes l <? 0 then Some (NegativeLimit "GeneratedResponseBytes" (GeneratedResponseBytes l))
  else if ErrorMessageBytes l <? 0 then Some (NegativeLimit "ErrorMessageBytes" (ErrorMessageBytes l))
  else if GeneratedSSEFrameBytes l <? 0 then Some (NegativeLimit "GeneratedSSEFrameBytes" (GeneratedSSEFrameBytes l))
  else if GeneratedSSEBatchBytes l <? 0 then Some (NegativeLimit "GeneratedSSEBatchBytes" (GeneratedSSEBatchBytes l))
  else if below_min (GeneratedSSEFrameBytes l) MinGeneratedFrameBytes
  then Some (BelowMinimum "GeneratedSSEFrameBytes" (GeneratedSSEFrameBytes l) MinGeneratedFrameBytes)
  else if below_min (GeneratedSSEBatchBytes l) MinGeneratedBatchBytes
  then Some (BelowMinimum "GeneratedSSEBatchBytes" (GeneratedSSEBatchBytes l) MinGeneratedBatchBytes)
  else if below_min (GeneratedResponseBytes l) MinGeneratedResponseBytes
  then Some (BelowMinimum "GeneratedResponseBytes" (GeneratedResponseBytes l) MinGeneratedResponseBytes)
  else None.

(** ** Specifications *)

(** Within the caps. *)
Record budget_ok (b : streamBudget) : Prop := {
  ok_events : 0 <= events b <= maxStreamTotalEvents;
  ok_items : 0 <= items_count b <= maxStreamOutputItems;
  ok_parts : 0 <= parts_count b <= maxStreamTotalParts;
  ok_toolCalls : 0 <= toolCalls b <= maxStreamToolCalls;
  ok_stateEntries : 0 <= stateEntries b <= maxStreamStateEntries;
  ok_semanticBytes : 0 <= semanticBytes b <= maxStreamTotalAccumulatedBytes;
}.

(** The bytes of the worst accepted release: every accepted byte six times
    escaped in its delta, every event's framing, and the terminal batch. *)
Definition worst_release (b : streamBudget) : Z :=
  6 * semanticBytes b + events b * maxStreamPerEventFramingBytes + DefaultGeneratedSSEBatchBytes.

(** ** Lemmas *)

Ltac budget_consts :=
  unfold maxStreamTotalEvents, maxStreamOutputItems, maxStreamTotalParts, maxStreamToolCalls,
    maxStreamStateEntries, maxStreamTotalAccumulatedBytes in *.

Lemma newStreamBudget_ok : budget_ok newStreamBudget.
Proof. constructor; simpl; budget_consts; lia. Qed.

Ltac charge :=
  match goal with
  | Hok : budget_ok _ |- _ =>
      destruct Hok; intros; simplify_eq/=; unfold add64 in *; budget_consts;
      rewrite ?wrap64_id in * by (unfold in_int64, min_int64, max_int64; lia);
      repeat split; simpl; budget_consts; try lia
  end.

Lemma addEvent_ok b b' : budget_ok b → addEvent b = Some b' → budget_ok b' ∧ events b' = events b + 1 ∧
  semanticBytes b' = semanticBytes b ∧ items_count b' = items_count b.
Proof. intros Hok. unfold addEvent. destruct (Z.leb_spec maxStreamTotalEvents (events b)); [done|]. charge. Qed.

Lemma addItem_ok b b' : budget_ok b → addItem b = Some b' → budget_ok b' ∧ items_count b' = items_count b + 1 ∧
  events b' = events b ∧ semanticBytes b' = semanticBytes b.
Proof. intros Hok. unfold addItem. destruct (Z.leb_spec maxStreamOutputItems (items_count b)); [done|]. charge. Qed.

Lemma addPart_ok b b' : budget_ok b → addPart b = Some b' → budget_ok b' ∧ items_count b' = items_count b ∧
  events b' = events b ∧ semanticBytes b' = semanticBytes b.
Proof. intros Hok. unfold addPart. destruct (Z.leb_spec maxStreamTotalParts (parts_count b)); [done|]. charge. Qed.

Lemma addToolCall_ok b b' : budget_ok b → addToolCall b = Some b' → budget_ok b' ∧ items_count b' = items_count b ∧
  events b' = events b ∧ semanticBytes b' = semanticBytes b.
Proof. intros Hok. unfold addToolCall. destruct (Z.leb_spec maxStreamToolCalls (toolCalls b)); [done|]. charge. Qed.

Lemma addStateEntries_ok b b' : budget_ok b → addStateEntries 1 b = Some b' → budget_ok b' ∧
  items_count b' = items_count b ∧ events b' = events b ∧ semanticBytes b' = semanticBytes b.
Proof.
  intros Hok. unfold addStateEntries. assert (Hx : add64 (stateEntries b) 1 = stateEntries b + 1).
  { destruct Hok. unfold add64. budget_consts. apply wrap64_id. unfold in_int64, min_int64, max_int64. lia. }
  rewrite Hx. destruct (Z.ltb_spec maxStreamStateEntries (stateEntries b + 1)); [done|]. charge.
Qed.

Lemma addSemanticBytes_ok n b b' : budget_ok b → 0 <= n <= 2 ^ 62 → addSemanticBytes n b = Some b' →
  budget_ok b' ∧ semanticBytes b' = semanticBytes b + n ∧ items_count b' = items_count b ∧ events b' = events b.
Proof.
  intros Hok Hn. unfold addSemanticBytes. assert (Hx : add64 (semanticBytes b) n = semanticBytes b + n).
  { destruct Hok. unfold add64. budget_consts. apply wrap64_id. unfold in_int64, min_int64, max_int64. lia. }
  rewrite Hx. destruct (Z.ltb_spec maxStreamTotalAccumulatedBytes (semanticBytes b + n)); [done|]. charge.
Qed.

(** The generated-bytes cap leaves room for the worst release any budget within
    its caps allows, so it never fires before them. *)
Lemma generated_cap_sufficient b : budget_ok b → worst_release b < maxStreamGeneratedBytes.
Proof.
  intros []. unfold worst_release, maxStreamGeneratedBytes, maxStreamPerEventFramingBytes. budget_consts. lia.
Qed.

(** ** Properties *)

(** limits that validate stay valid once defaulted: every field is then
    positive, the generated-output ones carry at least the smallest legal frame,
    defaulting again changes nothing, and defaulting alone never fails. *)
Theorem limits_usable l :
  Validate l = None →
  let d := WithDefaults l in
  0 < AcceptedRequestBytes d ∧ 0 < DecodedRequestBytes d ∧ 0 < RetryReplayBytes d ∧
  0 < SuccessfulResponseBytes d ∧ 0 < ErrorResponseBytes d ∧ 0 < SSELineBytes d ∧ 0 < SSEFrameBytes d ∧
  0 < ErrorMessageBytes d ∧ MinGeneratedResponseBytes <= GeneratedResponseBytes d ∧
  MinGeneratedFrameBytes <= GeneratedSSEFrameBytes d ∧ MinGeneratedBatchBytes <= GeneratedSSEBatchBytes d ∧
  WithDefaults d = d ∧ Validate d = None.
Proof.
  intros Hv.
  assert (Hpos : ∀ v d, 0 < d → 0 < or_default v d ∧ or_default (or_default v d) d = or_default v d).
  { intros v d Hd. unfold or_default. bcase; lia. }
  assert (Hmin : below_min (GeneratedSSEFrameBytes l) MinGeneratedFrameBytes = false ∧
    below_min (GeneratedSSEBatchBytes l) MinGeneratedBatchBytes = false ∧
    below_min (GeneratedResponseBytes l) MinGeneratedResponseBytes = false).
  { unfold Validate in Hv. repeat match type of Hv with (if ?b then Some _ else _) = None =>
      destruct b eqn:?; [discriminate Hv|] end. done. }
  assert (Hge : ∀ v d m, below_min v m = false → m <= d → m <= or_default v d ∧ below_min (or_default v d) m = false).
  { intros v d m. unfold below_min, or_default. destruct (Z.leb_spec v 0), (Z.ltb_spec 0 v); try lia;
      destruct (Z.ltb_spec v m); try done; intros; split; try lia;
      repeat match goal with |- context [?a <? ?b] => destruct (Z.ltb_spec a b) end; try done; lia. }
  destruct Hmin as (Hm1 & Hm2 & Hm3).
  destruct (Hge _ DefaultGeneratedSSEFrameBytes _ Hm1 ltac:(vm_compute; discriminate)) as [Hf1 Hf2].
  destruct (Hge _ DefaultGeneratedSSEBatchBytes _ Hm2 ltac:(vm_compute; discriminate)) as [Hb1 Hb2].
  destruct (Hge _ DefaultGeneratedResponseBytes _ Hm3 ltac:(vm_compute; discriminate)) as [Hr1 Hr2].
  assert (Hdef : ∀ v d, 0 < d → 0 < or_default v d) by (intros; by apply Hpos).
  assert (Hid : WithDefaults (WithDefaults l) = WithDefaults l).
  { unfold WithDefaults. simpl. f_equal; apply Hpos; vm_compute; reflexivity. }
  cbn zeta. split_and!; try exact Hid; try (apply Hdef; vm_compute; reflexivity); try done.
  unfold Validate. simpl. rewrite Hf2, Hb2, Hr2.
  assert (Hneg : ∀ v d, 0 < d → (or_default v d <? 0) = false).
  { intros v d Hd. apply Z.ltb_ge. pose proof (Hdef v d Hd). lia. }
  by rewrite !Hneg by (vm_compute; reflexivity).
Qed.

(** ** Witnesses *)

Lemma limits_usable_witness :
  GeneratedSSEFrameBytes (WithDefaults {| AcceptedRequestBytes := 0; DecodedRequestBytes := 0; RetryReplayBytes := 0;
    SuccessfulResponseBytes := 0; ErrorResponseBytes := 0; SSELineBytes := 0; SSEFrameBytes := 0;
    GeneratedResponseBytes := 0; ErrorMessageBytes := 0; GeneratedSSEFrameBytes := 2048; GeneratedSSEBatchBytes := 0 |}) = 2048 ∧
  MinGeneratedFrameBytes <= 2048.
Proof.
  split; [reflexivity|].
  apply (limits_usable {| AcceptedRequestBytes := 0; DecodedRequestBytes := 0; RetryReplayBytes := 0;
    SuccessfulResponseBytes := 0; ErrorResponseBytes := 0; SSELineBytes := 0; SSEFrameBytes := 0;
    GeneratedResponseBytes := 0; ErrorMessageBytes := 0; GeneratedSSEFrameBytes := 2048; GeneratedSSEBatchBytes := 0 |}).
  reflexivity.
Defined.
