(* ===== verification/Admission.v ===== *)
(** * Admission of catalog-suite request bodies ([src/internal/router/suiteadmission.go])

    The pool of [CatalogSuiteAdmission] and the hand-off of a buffered body to
    its target.  The channel [slots] is its number of buffered tokens; an
    exchange is one request that took a token.  A step is one atomic action of a
    goroutine: a channel operation, a [sync.Once], or a critical section of a
    body's [mu].  [WriteTo] holds [mu] over the destination's write, so it is two
    steps with [writing] set between them; a goroutine that found the body spent
    owes the call of [drain], counted by [pending]. *)

From Stdlib Require Import ZArith Lia Bool List Ascii String.
From stdpp Require Import strings.
From S2P Require Import Prelude GoStd GoStr Budget.

Open Scope Z_scope.

(** ** The pool *)

Definition catalogSuiteBufferBudgetBytes : Z := 64 * 2 ^ 20.

(** [NewCatalogSuiteAdmission]: the capacity of the channel. *)
Definition NewCatalogSuiteAdmission (limits : BodyLimits) : Z :=
  let limits := WithDefaults limits in
  Z.max 1 (Z.quot catalogSuiteBufferBudgetBytes (Z.max 1 (AcceptedRequestBytes limits))).

(** ** Bodies *)

(** [catalogHandoffBody]; [got] is what it has given out so far. *)
Record handoffBody := { off : nat; closed : bool; writing : bool; got : str }.

(** [primaryBody] and [replayBody] *)
Definition new_body : handoffBody := {| off := 0; closed := false; writing := false; got := [] |}.

Inductive read_result :=
| ErrBodyReadAfterClose
| EndOfFile
| Bytes (chunk : str).

(** [spent] *)
Definition spent (data : str) (b : handoffBody) : bool := (length data <=? off b)%nat.

Definition advance (data : str) (n : nat) (b : handoffBody) : handoffBody :=
  let chunk := take n (drop (off b) data) in
  {| off := off b + length chunk; closed := closed b; writing := false; got := got b ++ chunk |}.

(** [Read]: the answer, the body and whether [release] is called. *)
Definition body_Read (data : str) (n : nat) (b : handoffBody) : read_result * handoffBody * bool :=
  if closed b then (ErrBodyReadAfterClose, b, false)
  else if spent data b then (EndOfFile, b, true)
  else let b' := advance data n b in (Bytes (take n (drop (off b) data)), b', spent data b').

(** [WriteTo] up to the destination's write. *)
Definition body_WriteTo (data : str) (b : handoffBody) : handoffBody * bool :=
  if closed b then (b, false)
  else if spent data b then (b, true)
  else ({| off := off b; closed := closed b; writing := true; got := got b |}, false).

(** What the destination does with the remainder: it panics, or takes [k] bytes
    ([bytes.Reader.WriteTo] panics too when told of more than there were). *)
Inductive written := WritePanics | Wrote (k : nat).

(** [WriteTo] from there. *)
Definition body_Written (data : str) (o : written) (b : handoffBody) : handoffBody * bool :=
  let unlocked := {| off := off b; closed := closed b; writing := false; got := got b |} in
  match o with
  | WritePanics => (unlocked, false)
  | Wrote k =>
      if (length data - off b <? k)%nat then (unlocked, false)
      else let b' := advance data k b in (b', spent data b')
  end.

(** [Close] *)
Definition body_Close (b : handoffBody) : handoffBody * bool :=
  ({| off := off b; closed := true; writing := writing b; got := got b |}, true).

(** ** Exchanges *)

Inductive phase := Inspecting | Rejected | Serving | Returned.

#[export] Instance phase_eq_dec : EqDecision phase.
Proof. solve_decision. Defined.

Record exchange := {
  ph : phase;             (* where the suite's handler is *)
  data : str;             (* the buffered body *)
  slot_once : bool;       (* the [sync.Once] of the token's release *)
  releaseOnce : bool;     (* the [sync.Once] of [catalogHandoff] *)
  primary : handoffBody;
  replays : list handoffBody;
  pending : nat;
}.

Record pool := { slots : Z; capacity : Z; exchanges : list exchange }.

Definition set_ph (p : phase) (e : exchange) : exchange :=
  {| ph := p; data := data e; slot_once := slot_once e; releaseOnce := releaseOnce e;
     primary := primary e; replays := replays e; pending := pending e |}.
Definition set_data (d : str) (e : exchange) : exchange :=
  {| ph := ph e; data := d; slot_once := slot_once e; releaseOnce := releaseOnce e;
     primary := primary e; replays := replays e; pending := pending e |}.
Definition set_slot_once (e : exchange) : exchange :=
  {| ph := ph e; data := data e; slot_once := true; releaseOnce := releaseOnce e;
     primary := primary e; replays := replays e; pending := pending e |}.
Definition set_releaseOnce (e : exchange) : exchange :=
  {| ph := ph e; data := data e; slot_once := slot_once e; releaseOnce := true;
     primary := primary e; replays := replays e; pending := pending e |}.
Definition set_pending (n : nat) (e : exchange) : exchange :=
  {| ph := ph e; data := data e; slot_once := slot_once e; releaseOnce := releaseOnce e;
     primary := primary e; replays := replays e; pending := n |}.
Definition set_replays (l : list handoffBody) (e : exchange) : exchange :=
  {| ph := ph e; data := data e; slot_once := slot_once e; releaseOnce := releaseOnce e;
     primary := primary e; replays := l; pending := pending e |}.
Definition set_primary (b : handoffBody) (e : exchange) : exchange :=
  {| ph := ph e; data := data e; slot_once := slot_once e; releaseOnce := releaseOnce e;
     primary := b; replays := replays e; pending := pending e |}.

(** A body of the exchange: the one on [r.Body], or one that [r.GetBody] made. *)
Inductive which := Primary | Replay (j : nat).

Definition body_at (w : which) (e : exchange) : option handoffBody :=
  match w with Primary => Some (primary e) | Replay j => replays e !! j end.

(** The body's new state; only the primary body has an [onDrain]. *)
Definition set_body (w : which) (r : handoffBody * bool) (e : exchange) : exchange :=
  match w with
  | Primary => set_pending (if snd r then S (pending e) else pending e) (set_primary (fst r) e)
  | Replay j => set_replays (<[j := fst r]> (replays e)) e
  end.

(** An exchange has taken its body over. *)
Definition handed_off (e : exchange) : bool := match ph e with Serving | Returned => true | _ => false end.

(** ** Tokens *)

Definition set_exchange (i : nat) (e : exchange) (p : pool) : pool :=
  {| slots := slots p; capacity := capacity p; exchanges := <[i := e]> (exchanges p) |}.

(** [acquireBufferSlot], when the send goes through. *)
Definition acquireBufferSlot (p : pool) : pool :=
  {| slots := slots p + 1; capacity := capacity p;
     exchanges := exchanges p ++
       [{| ph := Inspecting; data := []; slot_once := false; releaseOnce := false; primary := new_body;
           replays := []; pending := 0 |}] |}.

(** The release it returned. *)
Definition releaseSlot (i : nat) (e : exchange) (p : pool) : pool :=
  if slot_once e then set_exchange i e p
  else {| slots := slots p - 1; capacity := capacity p; exchanges := <[i := set_slot_once e]> (exchanges p) |}.

(** [drain] *)
Definition drain (i : nat) (e : exchange) (p : pool) : pool :=
  if releaseOnce e then set_exchange i e p else releaseSlot i (set_releaseOnce e) p.

(** ** Runs *)

Inductive ad_step (max : Z) : pool → pool → Prop :=
| step_acquire p : slots p < capacity p → ad_step max p (acquireBufferSlot p)
| step_inspect p i e d :
    exchanges p !! i = Some e → ph e = Inspecting → Z.of_nat (length d) <= max + 1 →
    ad_step max p (set_exchange i (set_data d e) p)
| step_reject p i e :
    exchanges p !! i = Some e → ph e = Inspecting → ad_step max p (releaseSlot i (set_ph Rejected e) p)
| step_handoff p i e :
    exchanges p !! i = Some e → ph e = Inspecting → Z.of_nat (length (data e)) <= max →
    ad_step max p (set_exchange i (set_ph Serving e) p)
| step_GetBody p i e :
    exchanges p !! i = Some e → handed_off e = true →
    ad_step max p (set_exchange i (set_replays (replays e ++ [new_body]) e) p)
| step_Read p i e w b n r b' rel :
    exchanges p !! i = Some e → handed_off e = true → body_at w e = Some b → writing b = false →
    body_Read (data e) n b = (r, b', rel) →
    ad_step max p (set_exchange i (set_body w (b', rel) e) p)
| step_WriteTo p i e w b :
    exchanges p !! i = Some e → handed_off e = true → body_at w e = Some b → writing b = false →
    ad_step max p (set_exchange i (set_body w (body_WriteTo (data e) b) e) p)
| step_Written p i e w b o :
    exchanges p !! i = Some e → handed_off e = true → body_at w e = Some b → writing b = true →
    ad_step max p (set_exchange i (set_body w (body_Written (data e) o b) e) p)
| step_Close p i e w b :
    exchanges p !! i = Some e → handed_off e = true → body_at w e = Some b →
    ad_step max p (set_exchange i (set_body w (body_Close b) e) p)
| step_drain p i e k :
    exchanges p !! i = Some e → pending e = S k → ad_step max p (drain i (set_pending k e) p)
| step_return p i e :
    exchanges p !! i = Some e → ph e = Serving → ad_step max p (drain i (set_ph Returned e) p).

Definition ad_initial (cap : Z) : pool := {| slots := 0; capacity := cap; exchanges := [] |}.

Definition ad_reachable (max cap : Z) (p : pool) : Prop := rtc (ad_step max) (ad_initial cap) p.

(** ** Specifications *)

(** A token is held for the exchange. *)
Definition holding (e : exchange) : Z := if slot_once e then 0 else 1.
Definition held_bytes (e : exchange) : Z := if slot_once e then 0 else Z.of_nat (length (data e)).

(** A body has given out exactly the bytes before its offset. *)
Definition body_ok (d : str) (b : handoffBody) : Prop :=
  (off b <= length d)%nat ∧ got b = take (off b) d.

(** The target cannot get another byte of the body, or has returned. *)
Definition done_with (e : exchange) : Prop :=
  ph e = Returned ∨ closed (primary e) = true ∨ (off (primary e) = length (data e) ∧ data e ≠ []).

(** A concrete life: a five-byte body, taken by the target in two reads. *)
Definition demo_limits : BodyLimits :=
  {| AcceptedRequestBytes := 32 * 2 ^ 20; DecodedRequestBytes := 0; RetryReplayBytes := 0; SuccessfulResponseBytes := 0;
     ErrorResponseBytes := 0; SSELineBytes := 0; SSEFrameBytes := 0; GeneratedResponseBytes := 0;
     ErrorMessageBytes := 0; GeneratedSSEFrameBytes := 0; GeneratedSSEBatchBytes := 0 |}.
Definition demo_body : str := lit "hello".
Definition demo_half : handoffBody := advance demo_body 3 new_body.
Definition demo_served : exchange :=
  {| ph := Serving; data := demo_body; slot_once := false; releaseOnce := false; primary := new_body;
     replays := []; pending := 0 |}.
Definition demo_pool (e : exchange) (n : Z) : pool := {| slots := n; capacity := 2; exchanges := [e] |}.
Definition demo_spent : exchange :=
  set_slot_once (set_releaseOnce (set_pending 0 (set_primary (advance demo_body 3 demo_half) demo_served))).

Record exchange_ok (max : Z) (e : exchange) : Prop := {
  ok_read : Z.of_nat (length (data e)) <= max + 1;
  ok_bytes : handed_off e = true → Z.of_nat (length (data e)) <= max;
  ok_inspecting : ph e = Inspecting → slot_once e = false;
  ok_rejected : ph e = Rejected → slot_once e = true;
  ok_before : handed_off e = false → releaseOnce e = false ∧ primary e = new_body ∧ replays e = [] ∧ pending e = 0%nat;
  ok_once : handed_off e = true → slot_once e = releaseOnce e;
  ok_returned : ph e = Returned → releaseOnce e = true;
  ok_spent : done_with e → handed_off e = true → (0 < pending e)%nat ∨ releaseOnce e = true;
  ok_owed : (0 < pending e)%nat ∨ releaseOnce e = true →
            ph e = Returned ∨ closed (primary e) = true ∨ off (primary e) = length (data e);
  ok_bodies : ∀ w b, body_at w e = Some b → body_ok (data e) b;
}.

Record pool_ok (max cap : Z) (p : pool) : Prop := {
  ok_capacity : capacity p = cap;
  ok_slots : slots p = sumZ holding (exchanges p);
  ok_limit : slots p <= cap;
  ok_exchanges : Forall (exchange_ok max) (exchanges p);
}.

(** What a step keeps of every exchange. *)
Definition kept (e e' : exchange) : Prop :=
  (handed_off e = true → handed_off e' = true ∧ data e' = data e) ∧ (slot_once e = true → slot_once e' = true).

(** ** Lemmas: bodies *)

Lemma advance_ok d n b : body_ok d b → body_ok d (advance d n b) ∧ (off b <= off (advance d n b))%nat.
Proof.
  intros [Ho Hg]. unfold body_ok, advance. simpl. rewrite length_take, length_drop.
  split; [|lia]. split; [lia|]. rewrite Hg.
  rewrite take_take_drop. destruct (Nat.le_ge_cases n (length d - off b)) as [Hn|Hn].
  - by rewrite Nat.min_l.
  - rewrite Nat.min_r by done. rewrite !take_ge by lia. done.
Qed.

(** What an operation on a body may do: it moves forward, and it calls [release]
    when, and only when, the body becomes spent or closed. *)
Record body_step (d : str) (b : handoffBody) (r : handoffBody * bool) : Prop := {
  bs_ok : body_ok d (fst r);
  bs_forward : (off b <= off (fst r))%nat;
  bs_closed : closed b = true → closed (fst r) = true;
  bs_release : snd r = true → closed (fst r) = true ∨ off (fst r) = length d;
  bs_kept : snd r = false → closed (fst r) = closed b ∧ (off (fst r) = length d → off b = length d);
}.

Lemma spent_true d b : body_ok d b → spent d b = true ↔ off b = length d.
Proof. intros [Ho _]. unfold spent. rewrite Nat.leb_le. lia. Qed.

Lemma advance_step d n b : body_ok d b → body_step d b (advance d n b, spent d (advance d n b)).
Proof.
  intros Hok. destruct (advance_ok d n b Hok) as [Hok' Hle]. pose proof (spent_true _ _ Hok') as Hs.
  constructor; simpl in *; try done.
  - intros Hsp. right. by apply Hs.
  - intros Hsp. split; [done|]. intros Ho. apply Hs in Ho. congruence.
Qed.

Lemma keep_step d b b' : body_ok d b → off b' = off b → got b' = got b → closed b' = closed b → body_step d b (b', false).
Proof.
  intros [Ho Hg] H1 H2 H3. constructor; simpl; try done; rewrite ?H1, ?H3; try done.
  split; [by rewrite H1|]. by rewrite H1, H2.
Qed.

Lemma spent_step d b : body_ok d b → spent d b = true → body_step d b (b, true).
Proof. intros Hok Hs. constructor; simpl; try done. intros _. right. by apply spent_true. Qed.

Lemma body_Read_step d n b r b' rel : body_ok d b → body_Read d n b = (r, b', rel) → body_step d b (b', rel).
Proof.
  intros Hok. unfold body_Read. destruct (closed b); [intros [= _ <- <-]; by apply keep_step|].
  destruct (spent d b) eqn:Es; [intros [= _ <- <-]; by apply spent_step|].
  intros [= _ <- <-]. by apply advance_step.
Qed.

Lemma body_WriteTo_step d b : body_ok d b → body_step d b (body_WriteTo d b).
Proof.
  intros Hok. unfold body_WriteTo. destruct (closed b) eqn:Ec; [by apply keep_step|].
  destruct (spent d b) eqn:Es; [by apply spent_step|]. by apply keep_step.
Qed.

Lemma body_Written_step d o b : body_ok d b → body_step d b (body_Written d o b).
Proof.
  intros Hok. unfold body_Written. destruct o as [|k]; [by apply keep_step|].
  destruct (_ <? k)%nat; [by apply keep_step|]. by apply advance_step.
Qed.

Lemma body_Close_step d b : body_ok d b → body_step d b (body_Close b).
Proof. intros Hok. constructor; simpl; try done. by left. Qed.

(** ** Lemmas: exchanges *)

Lemma body_ok_new d : body_ok d new_body.
Proof. split; simpl; [lia|done]. Qed.

(** An operation on one of the bodies of an exchange. *)
Lemma exchange_ok_body max e w b r :
  exchange_ok max e → handed_off e = true → body_at w e = Some b → body_step (data e) b r →
  exchange_ok max (set_body w r e).
Proof.
  intros [Hrd Hby Hin Hrj Hbf Hon Hrt Hsp How Hbd] Hh Hw [Hok Hfw Hcl Hrel Hkp].
  destruct w as [|j]; simpl in Hw.
  - injection Hw as <-. constructor; simpl; try done.
    + intros Hh'. unfold handed_off in *. simpl in Hh'. congruence.
    + intros Hd _. destruct (snd r) eqn:Er; [left; lia|]. apply (Hsp); [|done].
      destruct (Hkp eq_refl) as [Hc Ho]. unfold done_with in *. simpl in Hd. rewrite Hc in Hd.
      destruct Hd as [?|[?|[??]]]; [by left|by right; left|right; right; split; [by apply Ho|done]].
    + intros Hp. destruct (snd r) eqn:Er.
      * right. by apply Hrel.
      * destruct (How Hp) as [?|[Hc|Ho]]; [by left|right; left; by apply Hcl|]. right; right.
        destruct Hok as [Hle _]. lia.
    + intros [|j] b' Hb'; simpl in Hb'; [by injection Hb' as <-|]. by apply (Hbd (Replay j)).
  - constructor; simpl; try done.
    + intros Hh'. unfold handed_off in *. simpl in Hh'. congruence.
    + intros [|j'] b' Hb'; simpl in Hb'; [by apply (Hbd Primary)|].
      apply list_lookup_insert_Some in Hb' as [(<- & <- & _)|[_ Hb']]; [done|by apply (Hbd (Replay j'))].
Qed.

Lemma exchange_ok_GetBody max e :
  exchange_ok max e → handed_off e = true → exchange_ok max (set_replays (replays e ++ [new_body]) e).
Proof.
  intros [Hrd Hby Hin Hrj Hbf Hon Hrt Hsp How Hbd] Hh. constructor; simpl; try done.
  - intros Hh'. unfold handed_off in *. simpl in Hh'. congruence.
  - intros [|j] b Hb; simpl in Hb; [by apply (Hbd Primary)|].
    apply lookup_app_Some in Hb as [Hb|[_ Hb]]; [by apply (Hbd (Replay j))|].
    apply list_lookup_singleton_Some in Hb as [_ <-]. apply body_ok_new.
Qed.

(** The hand-off's token comes back. *)
Lemma exchange_ok_drained max e q k :
  exchange_ok max e → handed_off e = true → handed_off (set_ph q e) = true →
  q = Returned ∨ closed (primary e) = true ∨ off (primary e) = length (data e) →
  exchange_ok max (set_slot_once (set_releaseOnce (set_pending k (set_ph q e)))).
Proof.
  intros [Hrd Hby Hin Hrj Hbf Hon Hrt Hsp How Hbd] Hh Hq Hd. unfold handed_off in *. simpl in *.
  constructor; unfold handed_off; simpl; try done.
  - intros _. by apply Hby.
  - intros ->. done.
  - intros Hh'. congruence.
  - intros _ _. by right.
Qed.

(** It had come back already. *)
Lemma exchange_ok_again max e q k :
  exchange_ok max e → handed_off e = true → handed_off (set_ph q e) = true →
  releaseOnce e = true → (ph e = Returned → q = Returned) → exchange_ok max (set_pending k (set_ph q e)).
Proof.
  intros [Hrd Hby Hin Hrj Hbf Hon Hrt Hsp How Hbd] Hh Hq Hr Hk. unfold handed_off in *. simpl in *.
  constructor; unfold handed_off; simpl; try done.
  - intros _. by apply Hby.
  - intros ->. done.
  - intros ->. done.
  - intros Hh'. congruence.
  - intros _. by apply Hon.
  - intros _ _. by right.
  - intros _. destruct How as [Hx|Hx]; [by right|left; by apply Hk|by right].
Qed.

(** ** Lemmas: the pool *)

Lemma pool_ok_set max cap p i e e' :
  pool_ok max cap p → exchanges p !! i = Some e → exchange_ok max e' → slot_once e' = slot_once e →
  pool_ok max cap (set_exchange i e' p).
Proof.
  intros [Hc Hs Hl He] Hi Hok Ho. constructor; simpl; try done.
  - rewrite (sumZ_insert holding _ _ e) by done. unfold holding at 2 3. rewrite Ho. lia.
  - by apply Forall_insert.
Qed.

Lemma pool_ok_release max cap p i e e' :
  pool_ok max cap p → exchanges p !! i = Some e → slot_once e' = slot_once e → slot_once e = false →
  exchange_ok max (set_slot_once e') → pool_ok max cap (releaseSlot i e' p).
Proof.
  intros [Hc Hs Hl He] Hi Ho Hf Hok. unfold releaseSlot. rewrite Ho, Hf. constructor; simpl; try done.
  - rewrite (sumZ_insert holding _ _ e) by done. unfold holding at 2 3. simpl. rewrite Hf. lia.
  - lia.
  - by apply Forall_insert.
Qed.

Lemma pool_ok_drain max cap p i e q k :
  pool_ok max cap p → exchanges p !! i = Some e →
  handed_off e = true → handed_off (set_ph q e) = true → (ph e = Returned → q = Returned) →
  q = Returned ∨ closed (primary e) = true ∨ off (primary e) = length (data e) →
  pool_ok max cap (drain i (set_pending k (set_ph q e)) p).
Proof.
  intros Hp Hi Hh Hq Hk Hd. assert (Hok : exchange_ok max e) by (eapply Forall_lookup_1; [apply Hp|done]).
  unfold drain. simpl. destruct (releaseOnce e) eqn:Er.
  - apply (pool_ok_set _ _ _ _ e); [done|done|by apply exchange_ok_again|done].
  - apply (pool_ok_release _ _ _ _ e); [done|done|done| |by apply exchange_ok_drained].
    by rewrite (ok_once _ _ Hok Hh).
Qed.

Lemma set_ph_id e : set_ph (ph e) e = e.
Proof. by destruct e. Qed.

Lemma set_pending_id e : set_pending (pending e) e = e.
Proof. by destruct e. Qed.

Lemma set_body_slot w r e : slot_once (set_body w r e) = slot_once e.
Proof. by destruct w. Qed.

Lemma pool_ok_body max cap p i e w b r :
  pool_ok max cap p → exchanges p !! i = Some e → handed_off e = true → body_at w e = Some b →
  (body_ok (data e) b → body_step (data e) b r) → pool_ok max cap (set_exchange i (set_body w r e) p).
Proof.
  intros Hp Hi Hh Hw Hs. assert (Hok : exchange_ok max e) by (eapply Forall_lookup_1; [apply Hp|done]).
  apply (pool_ok_set _ _ _ _ e); [done|done| |apply set_body_slot].
  apply (exchange_ok_body _ _ _ b); [done|done|done|]. apply Hs. by apply (ok_bodies _ _ Hok w).
Qed.

Lemma pool_ok_step max cap p p' : 0 <= max → pool_ok max cap p → ad_step max p p' → pool_ok max cap p'.
Proof.
  intros Hmax Hp Hs. pose proof (λ i e, Forall_lookup_1 _ _ i e (ok_exchanges _ _ _ Hp)) as Hex.
  destruct Hs as [p Hc|p i e d Hi Hph Hd|p i e Hi Hph|p i e Hi Hph Hd|p i e Hi Hh|p i e w b n r b' rel Hi Hh Hw _ Hr|
    p i e w b Hi Hh Hw _|p i e w b o Hi Hh Hw _|p i e w b Hi Hh Hw|p i e k Hi Hk|p i e Hi Hph].
  - destruct Hp as [Hcap Hs Hl He]. constructor; simpl; try done.
    + rewrite sumZ_app. simpl. unfold holding at 2. simpl. lia.
    + lia.
    + apply Forall_app. split; [done|]. apply Forall_singleton. constructor; simpl; try done; [lia| |].
      * intros [Hx|Hx]; [lia|done].
      * intros [|j] b Hb; simpl in Hb; [injection Hb as <-; apply body_ok_new|done].
  - apply (pool_ok_set _ _ _ _ e); [done|done| |done].
    destruct (Hex _ _ Hi) as [Hrd Hby Hin Hrj Hbf Hon Hrt Hsp How Hbd].
    assert (Hh : handed_off e = false) by (unfold handed_off; by rewrite Hph).
    destruct (Hbf Hh) as (Hr & Hpr & Hre & Hpe).
    constructor; unfold handed_off in *; simpl; rewrite ?Hph, ?Hpr, ?Hre, ?Hpe in *; try done.
    + intros [Hx|Hx]; [lia|congruence].
    + intros [|j] b Hb; simpl in Hb; [rewrite Hpr in Hb; injection Hb as <-; apply body_ok_new|by rewrite Hre in Hb].
  - destruct (Hex _ _ Hi) as [Hrd Hby Hin Hrj Hbf Hon Hrt Hsp How Hbd].
    apply (pool_ok_release _ _ _ _ e); [done|done|done|by apply Hin|].
    assert (Hh : handed_off e = false) by (unfold handed_off; by rewrite Hph).
    destruct (Hbf Hh) as (Hr & Hpr & Hre & Hpe).
    constructor; unfold handed_off in *; simpl; rewrite ?Hph in *; try done.
    intros [Hx|Hx]; [lia|congruence].
  - apply (pool_ok_set _ _ _ _ e); [done|done| |done].
    destruct (Hex _ _ Hi) as [Hrd Hby Hin Hrj Hbf Hon Hrt Hsp How Hbd].
    assert (Hh : handed_off e = false) by (unfold handed_off; by rewrite Hph).
    destruct (Hbf Hh) as (Hr & Hpr & Hre & Hpe).
    constructor; unfold handed_off in *; simpl; rewrite ?Hph, ?Hpr, ?Hre, ?Hpe in *; try done.
    + intros _. rewrite Hr. by apply Hin.
    + intros [Hx|[Hx|[Hx Hy]]]; simpl in *; rewrite ?Hpr in *; try done. simpl in Hx. by destruct (data e).
    + intros [Hx|Hx]; [lia|congruence].
  - apply (pool_ok_set _ _ _ _ e); [done|done|by apply exchange_ok_GetBody; [apply (Hex _ _ Hi)|]|done].
  - apply (pool_ok_body _ _ _ _ _ _ b); try done. intros Hb. by eapply body_Read_step.
  - apply (pool_ok_body _ _ _ _ _ _ b); try done. apply body_WriteTo_step.
  - apply (pool_ok_body _ _ _ _ _ _ b); try done. apply body_Written_step.
  - apply (pool_ok_body _ _ _ _ _ _ b); try done. apply body_Close_step.
  - pose proof (Hex _ _ Hi) as Hok.
    assert (Hh : handed_off e = true).
    { destruct (handed_off e) eqn:Hh; [done|]. destruct (ok_before _ _ Hok Hh) as (_ & _ & _ & Hpe). lia. }
    rewrite <- (set_ph_id e) at 1. apply pool_ok_drain; try done; rewrite ?set_ph_id; try done.
    apply (ok_owed _ _ Hok). left. lia.
  - rewrite <- (set_pending_id (set_ph Returned e)). apply pool_ok_drain; try done.
    + unfold handed_off. by rewrite Hph.
    + by left.
Qed.

Lemma ad_reachable_ok max cap p : 0 <= max → 0 <= cap → ad_reachable max cap p → pool_ok max cap p.
Proof.
  intros Hm Hc. apply (rtc_invariant (ad_step max) (pool_ok max cap)).
  - intros a b Ha Hs. by eapply pool_ok_step.
  - by constructor.
Qed.

Lemma kept_refl e : kept e e.
Proof. by split. Qed.

Lemma set_exchange_kept i e e' p j x :
  exchanges p !! i = Some e → kept e e' → exchanges p !! j = Some x →
  ∃ x', exchanges (set_exchange i e' p) !! j = Some x' ∧ kept x x'.
Proof.
  intros Hi Hk Hj. simpl. destruct (decide (i = j)) as [->|Hne].
  - assert (x = e) as -> by congruence. exists e'. split; [|done].
    apply list_lookup_insert_eq. by eapply lookup_lt_Some.
  - exists x. split; [by rewrite list_lookup_insert_ne|apply kept_refl].
Qed.

Lemma release_kept i e e' p j x :
  exchanges p !! i = Some e → kept e e' → exchanges p !! j = Some x →
  ∃ x', exchanges (releaseSlot i e' p) !! j = Some x' ∧ kept x x'.
Proof.
  intros Hi Hk Hj. assert (Hk' : kept e (set_slot_once e')) by (destruct Hk; by split).
  unfold releaseSlot. destruct (slot_once e').
  - by apply (set_exchange_kept i e e' p).
  - by apply (set_exchange_kept i e (set_slot_once e') p).
Qed.

Lemma drain_kept i e e' p j x :
  exchanges p !! i = Some e → kept e e' → exchanges p !! j = Some x →
  ∃ x', exchanges (drain i e' p) !! j = Some x' ∧ kept x x'.
Proof.
  intros Hi Hk Hj. unfold drain. destruct (releaseOnce e').
  - by apply (set_exchange_kept i e e' p).
  - by apply (release_kept i e (set_releaseOnce e') p).
Qed.

Lemma step_kept max p p' j x :
  ad_step max p p' → exchanges p !! j = Some x → ∃ x', exchanges p' !! j = Some x' ∧ kept x x'.
Proof.
  intros Hs Hj. assert (Hbody : ∀ w r e, kept e (set_body w r e)) by (by intros [|?] r e; split).
  assert (Hin : ∀ e e', ph e = Inspecting → slot_once e' = slot_once e → kept e e').
  { intros e e' Hph Ho. split; [unfold handed_off; by rewrite Hph|by rewrite Ho]. }
  destruct Hs.
  - exists x. split; [by apply lookup_app_l_Some|apply kept_refl].
  - eapply set_exchange_kept; [done|by apply Hin|done].
  - eapply release_kept; [done|by apply Hin|done].
  - eapply set_exchange_kept; [done|by apply Hin|done].
  - by eapply set_exchange_kept.
  - by eapply set_exchange_kept.
  - by eapply set_exchange_kept.
  - by eapply set_exchange_kept.
  - by eapply set_exchange_kept.
  - by eapply drain_kept.
  - by eapply drain_kept.
Qed.

Lemma rtc_kept max p p' j x :
  rtc (ad_step max) p p' → exchanges p !! j = Some x → ∃ x', exchanges p' !! j = Some x' ∧ kept x x'.
Proof.
  intros Hs. revert x. induction Hs as [p|p p1 p' H1 _ IH]; intros x Hj.
  - exists x. split; [done|apply kept_refl].
  - destruct (step_kept _ _ _ _ _ H1 Hj) as (y & Hy & [Hk1 Hk2]).
    destruct (IH y Hy) as (z & Hz & [Hk3 Hk4]). exists z. split; [done|].
    split; [|by auto]. intros Hh. destruct (Hk1 Hh) as [Hh' Hd]. destruct (Hk3 Hh') as [? ?]. split; congruence.
Qed.

Lemma held_le l max : 0 <= max → Forall (exchange_ok max) l → sumZ held_bytes l <= sumZ holding l * (max + 1).
Proof.
  intros Hm. induction 1 as [|e l He _ IH]; simpl; [lia|]. pose proof (ok_read _ _ He).
  unfold held_bytes at 1, holding at 1. destruct (slot_once e); nia.
Qed.

Lemma admission_capacity l :
  let max := AcceptedRequestBytes (WithDefaults l) in
  0 < max ∧ 1 <= NewCatalogSuiteAdmission l ∧
  NewCatalogSuiteAdmission l * max <= Z.max catalogSuiteBufferBudgetBytes max.
Proof.
  intros max. assert (Hm : 0 < max).
  { unfold max, WithDefaults, or_default. simpl. destruct (Z.leb_spec (AcceptedRequestBytes l) 0); [done|lia]. }
  unfold NewCatalogSuiteAdmission. fold max. split; [done|]. rewrite (Z.max_r 1 max) by lia. split; [lia|].
  pose proof (Z.mul_quot_le catalogSuiteBufferBudgetBytes max ltac:(done) ltac:(lia)).
  destruct (Z.max_spec 1 (catalogSuiteBufferBudgetBytes ÷ max)) as [[_ ->]|[_ ->]]; lia.
Qed.

(** ** Properties *)

(** whatever the targets and clients do, the pool's tokens are exactly the
    exchanges holding one, at most as many as the pool has, and the request
    bodies buffered for them stay within the budget (or one body, where the
    configured ceiling exceeds the budget), up to the byte by which each
    inspection reads past the ceiling to notice an oversized body. *)
Theorem suite_bodies_bounded l p :
  let max := AcceptedRequestBytes (WithDefaults l) in
  ad_reachable max (NewCatalogSuiteAdmission l) p →
  slots p = sumZ holding (exchanges p) ∧ 0 <= slots p <= NewCatalogSuiteAdmission l ∧
  sumZ held_bytes (exchanges p) <= Z.max catalogSuiteBufferBudgetBytes max + slots p.
Proof.
  intros max Hr. destruct (admission_capacity l) as (Hm & Hc & Hb). fold max in Hm, Hb.
  destruct (ad_reachable_ok max (NewCatalogSuiteAdmission l) p) as [_ Hs Hl He]; [lia|lia|done|].
  pose proof (held_le _ max ltac:(lia) He) as Hh. rewrite <- Hs in Hh.
  assert (H0 : 0 <= slots p).
  { rewrite Hs. apply sumZ_nonneg. intros e. unfold holding. by destruct (slot_once e). }
  assert (Hle : slots p * max <= NewCatalogSuiteAdmission l * max) by (apply Z.mul_le_mono_nonneg_r; lia).
  rewrite Z.mul_add_distr_l, Z.mul_1_r in Hh. split_and!; [done|done|done|lia].
Qed.

(** once no goroutine owes a call of [drain], the token of a handed-off body
    has come back exactly when the target has read or written out the body's
    last byte, closed it, or returned; what becomes of the replay bodies does
    not matter. *)
Theorem token_follows_body max cap p i e :
  0 <= max → 0 <= cap → ad_reachable max cap p → exchanges p !! i = Some e →
  handed_off e = true → data e ≠ [] → pending e = 0%nat →
  slot_once e = true ↔ ph e = Returned ∨ closed (primary e) = true ∨ off (primary e) = length (data e).
Proof.
  intros Hm Hc Hr Hi Hh Hd Hp. destruct (ad_reachable_ok _ _ _ Hm Hc Hr) as [_ _ _ He].
  pose proof (Forall_lookup_1 _ _ _ _ He Hi) as Hok. rewrite (ok_once _ _ Hok Hh). split.
  - intros Ho. apply (ok_owed _ _ Hok). by right.
  - intros Hx. assert (Hdone : done_with e) by (destruct Hx as [?|[?|?]]; [by left|by right; left|by right; right]).
    destruct (ok_spent _ _ Hok Hdone Hh); [lia|done].
Qed.

(** from its hand-off on, a body keeps its bytes, and whatever is read,
    written out, closed and replayed after that, each body has given out a
    prefix of exactly those bytes, each once and in order; a token that came
    back stays back. *)
Theorem body_delivered_in_order max cap p i e p' :
  0 <= max → 0 <= cap → ad_reachable max cap p → exchanges p !! i = Some e → handed_off e = true →
  rtc (ad_step max) p p' →
  ∃ e', exchanges p' !! i = Some e' ∧ (slot_once e = true → slot_once e' = true) ∧
    ∀ w b, body_at w e' = Some b → got b = take (off b) (data e) ∧ (off b <= length (data e))%nat.
Proof.
  intros Hm Hc Hr Hi Hh Hs. destruct (rtc_kept _ _ _ _ _ Hs Hi) as (e' & Hi' & Hk1 & Hk2).
  destruct (Hk1 Hh) as [_ Hd]. exists e'. split; [done|]. split; [done|]. intros w b Hb.
  destruct (ad_reachable_ok max cap p' Hm Hc) as [_ _ _ He]; [unfold ad_reachable in *; by etrans|].
  destruct (ok_bodies _ _ (Forall_lookup_1 _ _ _ _ He Hi') w b Hb) as [Ho Hg]. by rewrite <- Hd.
Qed.

(** a request that waits for a slot can always still be admitted: from every
    reachable state a handler that ends frees a slot. *)
Theorem admission_resumes max cap p :
  0 <= max → 1 <= cap → ad_reachable max cap p → ∃ p', rtc (ad_step max) p p' ∧ slots p' < capacity p'.
Proof.
  intros Hm Hc Hr. destruct (ad_reachable_ok max cap p) as [Hcap Hs Hl He]; [done|lia|done|].
  destruct (Z.ltb_spec (slots p) (capacity p)); [by exists p|].
  destruct (sumZ_pos_elem holding (exchanges p)) as (e & [i Hi]%list_elem_of_lookup_1 & Hw); [lia|].
  unfold holding in Hw. destruct (slot_once e) eqn:Eo; [lia|].
  pose proof (Forall_lookup_1 _ _ _ _ He Hi) as Hok. destruct (ph e) eqn:Eph.
  - exists (releaseSlot i (set_ph Rejected e) p). split; [apply rtc_once; by apply step_reject|].
    unfold releaseSlot. simpl. rewrite Eo. simpl. lia.
  - rewrite (ok_rejected _ _ Hok Eph) in Eo. done.
  - assert (Hh : handed_off e = true) by (unfold handed_off; by rewrite Eph).
    pose proof (ok_once _ _ Hok Hh) as Ho. exists (drain i (set_ph Returned e) p).
    split; [apply rtc_once; by apply step_return|]. unfold drain, releaseSlot. simpl. rewrite <- Ho, !Eo. simpl. lia.
  - assert (Hh : handed_off e = true) by (unfold handed_off; by rewrite Eph).
    pose proof (ok_once _ _ Hok Hh) as Ho. rewrite (ok_returned _ _ Hok Eph) in Ho. congruence.
Qed.

(** ** Witnesses *)

Abbreviation demo_max := (32 * 2 ^ 20).

Lemma demo_served_reachable : ad_reachable demo_max 2 (demo_pool demo_served 1).
Proof.
  unfold ad_reachable. eapply rtc_l; [by apply step_acquire|].
  eapply rtc_l; [eapply (step_inspect _ _ 0%nat _ demo_body); [reflexivity|reflexivity|vm_compute; discriminate]|].
  eapply rtc_l; [eapply (step_handoff _ _ 0%nat); [reflexivity|reflexivity|vm_compute; discriminate]|].
  apply rtc_refl.
Qed.

Lemma demo_served_reads : rtc (ad_step demo_max) (demo_pool demo_served 1) (demo_pool demo_spent 0).
Proof.
  eapply rtc_l; [by eapply (step_Read _ _ 0%nat demo_served Primary new_body 3)|].
  eapply rtc_l; [by eapply (step_Read _ _ 0%nat (set_primary demo_half demo_served) Primary demo_half 3)|].
  eapply rtc_l; [by apply (step_drain _ _ 0%nat (set_pending 1 (set_primary (advance demo_body 3 demo_half) demo_served)) 0)|].
  apply rtc_refl.
Qed.

Lemma suite_bodies_bounded_witness :
  0 <= slots (demo_pool demo_served 1) <= NewCatalogSuiteAdmission demo_limits ∧ NewCatalogSuiteAdmission demo_limits = 2.
Proof.
  destruct (suite_bodies_bounded demo_limits (demo_pool demo_served 1)) as (_ & H & _); [exact demo_served_reachable|].
  split; [exact H|reflexivity].
Defined.

Lemma token_follows_body_witness : slot_once demo_spent = true ∧ off (primary demo_spent) = length demo_body.
Proof.
  split; [|reflexivity].
  apply (token_follows_body demo_max 2 (demo_pool demo_spent 0) 0 demo_spent);
    [discriminate|discriminate| |reflexivity|reflexivity|discriminate|reflexivity|right; right; reflexivity].
  unfold ad_reachable. etrans; [exact demo_served_reachable|exact demo_served_reads].
Defined.

Lemma body_delivered_in_order_witness :
  ∃ e', exchanges (demo_pool demo_spent 0) !! 0%nat = Some e' ∧ got (primary e') = take (off (primary e')) demo_body.
Proof.
  destruct (body_delivered_in_order demo_max 2 (demo_pool demo_served 1) 0 demo_served (demo_pool demo_spent 0))
    as (e' & Hi & _ & Hb);
    [discriminate|discriminate|exact demo_served_reachable|reflexivity|reflexivity|exact demo_served_reads|].
  exists e'. split; [exact Hi|]. apply (Hb Primary). reflexivity.
Defined.

Lemma admission_resumes_witness :
  ∃ p', rtc (ad_step demo_max) (demo_pool demo_served 1) p' ∧ slots p' < capacity p'.
Proof.
  apply (admission_resumes demo_max 2); [discriminate|discriminate|exact demo_served_reachable].
Defined.
