(* ===== verification/Suite.v ===== *)
(** * The catalog suite handler ([src/internal/router/suite.go])

    Routing on a suite mount, the inspection and dispatch of a completion
    request, and the documents the suite answers with.  Handlers are values of an
    abstract type.  A request's effects are a log, in the order the code makes
    them, deferred calls included; what the code observes from outside (the
    admission, the body's arrival, the timer) is a record.  [Quote] is the
    [%q] of [fmt], which depends on the Unicode tables; [TopLevelModel] reads the
    model out of a JSON document. *)

From Stdlib Require Import ZArith Lia Bool List Ascii String.
From stdpp Require Import gmap strings.
From S2P Require Import Prelude GoStd GoStr GoText Budget Admission.

Open Scope Z_scope.

(** ** Bounded messages ([src/internal/transcode/flowlog.go], [stream_adapter.go]) *)

(** The loop of [truncateUTF8]. *)
Fixpoint back_to_rune (s : str) (limit : nat) : nat :=
  match limit with
  | O => O
  | S n => match s !! limit with
           | Some c => if RuneStart c then limit else back_to_rune s n
           | None => limit
           end
  end.

Definition truncateUTF8 (s : str) (limit : nat) : str :=
  if (length s <=? limit)%nat then s else take (back_to_rune s limit) s.

Definition ellipsis : str := map ascii_of_nat [226; 128; 166]%nat.

Definition BoundErrorMessage (message : str) (max : Z) : str :=
  if (max <=? 0) || (Z.of_nat (length message) <=? max) then message
  else if 3 <? max then truncateUTF8 message (Z.to_nat (max - 3)) ++ ellipsis
  else truncateUTF8 message (Z.to_nat max).

(** ** Configuration *)

Definition CatalogPath : str := lit "/v1/models".
Definition CatalogShapeCodex : str := lit "codex".
Definition CatalogShapeAnthropic : str := lit "anthropic".
Definition CatalogShapeOpenAI : str := lit "openai".

Definition catalogSuiteMinErrorBytes : Z := 128.
Definition catalogSuiteInspectionWait : Duration := 30 * Second.

Definition StatusOK : Z := 200.
Definition StatusBadRequest : Z := 400.
Definition StatusNotFound : Z := 404.
Definition StatusRequestTimeout : Z := 408.
Definition StatusRequestEntityTooLarge : Z := 413.
Definition StatusServiceUnavailable : Z := 503.

Abbreviation RouteKey := (str * str)%type.

Record ModelRoute (T : Type) := { Model : str; mr_Handler : option T; SupportedRoutes : list RouteKey }.
Arguments Model {T}.
Arguments mr_Handler {T}.
Arguments SupportedRoutes {T}.

Record SuiteConfig (T : Type) := {
  CatalogHandler : option T;
  DefaultShape : str;
  ModelRoutes : list (ModelRoute T);
  Fallback : option T;
  FallbackRoutes : list RouteKey;
  Limits : BodyLimits;
  InspectionTimeout : Duration;
  Strict : bool;
}.
Arguments CatalogHandler {T}.
Arguments DefaultShape {T}.
Arguments ModelRoutes {T}.
Arguments Fallback {T}.
Arguments FallbackRoutes {T}.
Arguments Limits {T}.
Arguments InspectionTimeout {T}.
Arguments Strict {T}.

Record suiteModelTarget (T : Type) := { handler : T; supportedRoutes : list RouteKey }.
Arguments handler {T}.
Arguments supportedRoutes {T}.

Record CatalogSuiteHandler (T : Type) := {
  catalogHandler : option T;
  defaultShape : str;
  modelMap : gmap str (suiteModelTarget T);
  fallback : option T;
  fallbackRoutes : list RouteKey;
  limits : BodyLimits;
  inspectionTimeout : Duration;
  strict : bool;
}.
Arguments catalogHandler {T}.
Arguments defaultShape {T}.
Arguments modelMap {T}.
Arguments fallback {T}.
Arguments fallbackRoutes {T}.
Arguments limits {T}.
Arguments inspectionTimeout {T}.
Arguments strict {T}.

Definition with_ErrorResponseBytes (n : Z) (l : BodyLimits) : BodyLimits :=
  {| AcceptedRequestBytes := AcceptedRequestBytes l; DecodedRequestBytes := DecodedRequestBytes l;
     RetryReplayBytes := RetryReplayBytes l; SuccessfulResponseBytes := SuccessfulResponseBytes l;
     ErrorResponseBytes := n; SSELineBytes := SSELineBytes l; SSEFrameBytes := SSEFrameBytes l;
     GeneratedResponseBytes := GeneratedResponseBytes l; ErrorMessageBytes := ErrorMessageBytes l;
     GeneratedSSEFrameBytes := GeneratedSSEFrameBytes l; GeneratedSSEBatchBytes := GeneratedSSEBatchBytes l |}.

(** The loop over [ModelRoutes]: later routes of a model replace earlier ones. *)
Definition add_route {T} (m : gmap str (suiteModelTarget T)) (mr : ModelRoute T) : gmap str (suiteModelTarget T) :=
  match Model mr, mr_Handler mr with
  | _ :: _, Some t => <[Model mr := {| handler := t; supportedRoutes := SupportedRoutes mr |}]> m
  | _, _ => m
  end.

Definition NewCatalogSuiteHandler {T} (cfg : SuiteConfig T) : CatalogSuiteHandler T :=
  let limits := WithDefaults (Limits cfg) in
  {| catalogHandler := CatalogHandler cfg; defaultShape := DefaultShape cfg;
     modelMap := fold_left add_route (ModelRoutes cfg) ∅;
     fallback := Fallback cfg; fallbackRoutes := FallbackRoutes cfg;
     limits := if ErrorResponseBytes limits <? catalogSuiteMinErrorBytes
               then with_ErrorResponseBytes catalogSuiteMinErrorBytes limits else limits;
     inspectionTimeout := if InspectionTimeout cfg <=? 0 then catalogSuiteInspectionWait else InspectionTimeout cfg;
     strict := Strict cfg |}.

(** ** Requests and effects *)

Record Request := { Method : str; Path : str; ContentLength : Z; hasBody : bool }.

Inductive read_error := ErrDeadlineExceeded | OtherReadError.

(** What a completion observes: whether a slot was taken before the client went
    away, whether the read deadline could be set, the bytes that arrive and the
    error that ends them ([None] is the end of the body), and whether the
    inspection timer has fired by then. *)
Record Observed := {
  o_admitted : bool;
  o_deadline : bool;
  o_content : str;
  o_err : option read_error;
  o_timedOut : bool;
}.

Inductive suite_message :=
| MsgTooLarge | MsgTimedOut | MsgReadFailed | MsgInvalid | MsgMissingModel | MsgMissingBody | MsgNotFound
| MsgNoProvider (model : str)
| MsgUnknownModel (model : str)
| MsgUnavailable (model path : str).

Inductive event (T : Type) :=
| EvAcquire                               (* a slot is taken *)
| EvSetDeadline (ok : bool)
| EvClearDeadline
| EvTimer                                 (* the inspection timer starts *)
| EvTimerStop
| EvRead                                  (* the body is read *)
| EvCloseBody
| EvAnswer (status : Z) (body : str)      (* a response of the suite's own *)
| EvHandOff                               (* the token goes with the body *)
| EvServe (target : T) (body : str)       (* the target serves the buffered body *)
| EvDelegate (target : T)                 (* the request goes on untouched *)
| EvDrain                                 (* the hand-off's backstop *)
| EvRelease.                              (* the slot is given back *)
Arguments EvAcquire {T}.
Arguments EvSetDeadline {T}.
Arguments EvClearDeadline {T}.
Arguments EvTimer {T}.
Arguments EvTimerStop {T}.
Arguments EvRead {T}.
Arguments EvCloseBody {T}.
Arguments EvAnswer {T}.
Arguments EvHandOff {T}.
Arguments EvServe {T}.
Arguments EvDelegate {T}.
Arguments EvDrain {T}.
Arguments EvRelease {T}.

(** ** Documents *)

Definition errTypeForStatus (status : Z) : str :=
  if status =? StatusNotFound then lit "invalid_request_error"
  else if status =? StatusBadRequest then lit "invalid_request_error"
  else if status =? StatusServiceUnavailable then lit "api_error"
  else if status =? StatusRequestEntityTooLarge then lit "request_too_large"
  else lit "api_error".

Definition errCodeForStatus (status : Z) : str :=
  if status =? StatusNotFound then lit "model_not_found"
  else if status =? StatusBadRequest then lit "bad_request"
  else if status =? StatusServiceUnavailable then lit "service_unavailable"
  else if status =? StatusRequestEntityTooLarge then lit "request_too_large"
  else lit "api_error".

(** A member of a JSON object. *)
Definition member (name value : str) : str := json_string name ++ lit ":" ++ value.

(** The marshalled envelopes of the two dialects. *)
Definition anthropic_error (errType message : str) : str :=
  lit "{" ++ member (lit "type") (json_string (lit "error")) ++ lit "," ++
  member (lit "error") (lit "{" ++ member (lit "type") (json_string errType) ++ lit "," ++
                         member (lit "message") (json_string message) ++ lit "}") ++ lit "}".

Definition openai_error (message errType param code : str) : str :=
  lit "{" ++ member (lit "error")
    (lit "{" ++ member (lit "message") (json_string message) ++ lit "," ++ member (lit "type") (json_string errType) ++
     lit "," ++ member (lit "param") param ++ lit "," ++ member (lit "code") (json_string code) ++ lit "}") ++ lit "}".

Definition anthropic_type (status : Z) : str :=
  if status =? StatusNotFound then lit "not_found_error" else errTypeForStatus status.

Definition is_anthropic (shape : str) : bool := str_eqb shape CatalogShapeAnthropic.

Definition fallbackSuiteErrorBody (shape : str) (status : Z) : str :=
  if is_anthropic shape then anthropic_error (anthropic_type status) (lit "catalog suite error")
  else openai_error (lit "catalog suite error") (errTypeForStatus status) (lit "null") (errCodeForStatus status).

(** [strings.Trim] of one byte. *)
Fixpoint trim_left (c : ascii) (s : str) : str :=
  match s with
  | a :: s' => if byte_eqb a c then trim_left c s' else s
  | [] => []
  end.
Definition Trim (c : ascii) (s : str) : str := rev (trim_left c (rev (trim_left c s))).

Definition isCatalogRoute (path : str) : bool :=
  if str_eqb path CatalogPath then true
  else match strip_prefix (CatalogPath ++ lit "/") path with
       | Some rem => negb (str_eqb rem []) && negb (ContainsByte "/" rem)
       | None => false
       end.

Definition isCompletionRoute (path : str) : bool :=
  existsb (str_eqb path)
    [lit "/v1/responses"; lit "/v1/messages"; lit "/v1/chat/completions"; lit "/v1/messages/count_tokens"].

Section suite.
Context {T : Type} (Quote : str → str) (TopLevelModel : str → option str).

Definition message_text (m : suite_message) : str :=
  match m with
  | MsgTooLarge => lit "request body too large"
  | MsgTimedOut => lit "timed out reading request body"
  | MsgReadFailed => lit "failed to read request body"
  | MsgInvalid => lit "invalid request body"
  | MsgMissingModel => lit "missing or empty 'model' field in request"
  | MsgMissingBody => lit "missing request body"
  | MsgNotFound => lit "not found on this suite mount"
  | MsgNoProvider m => lit "no provider configured to serve model " ++ Quote m
  | MsgUnknownModel m => lit "model " ++ Quote m ++ lit " not found in catalog suite"
  | MsgUnavailable m path => lit "model " ++ Quote m ++ lit " is not available for " ++ path
  end.

Definition defaultCatalogShape (h : CatalogSuiteHandler T) : str :=
  if negb (str_eqb (defaultShape h) []) then defaultShape h else CatalogShapeOpenAI.

Definition shapeForCompletion (h : CatalogSuiteHandler T) (r : Request) : str :=
  let p := path_Clean (Path r) in
  if str_eqb p "/v1/responses" then CatalogShapeCodex
  else if str_eqb p "/v1/messages" || str_eqb p "/v1/messages/count_tokens" then CatalogShapeAnthropic
  else if str_eqb p "/v1/chat/completions" then CatalogShapeOpenAI
  else defaultCatalogShape h.

(** [writeDialectError]'s document. *)
Definition dialect_body (h : CatalogSuiteHandler T) (shape : str) (status : Z) (message : str) : str :=
  let message := BoundErrorMessage message (ErrorMessageBytes (limits h)) in
  let body := if is_anthropic shape then anthropic_error (anthropic_type status) message
              else openai_error message (errTypeForStatus status) (lit "null") (errCodeForStatus status) in
  if ErrorResponseBytes (limits h) <? Z.of_nat (length body) then fallbackSuiteErrorBody shape status else body.

Definition writeDialectError (h : CatalogSuiteHandler T) (shape : str) (status : Z) (m : suite_message) : list (event T) :=
  [EvAnswer status (dialect_body h shape status (message_text m))].

Definition writeModelNotFoundError (h : CatalogSuiteHandler T) (shape modelID : str) : list (event T) :=
  let modelID := BoundErrorMessage modelID (ErrorMessageBytes (limits h)) in
  let body :=
    if is_anthropic shape
    then anthropic_error (lit "not_found_error") (lit "model: " ++ modelID ++ lit " not found")
    else openai_error (lit "The model " ++ Quote modelID ++ lit " does not exist") (lit "invalid_request_error")
           (json_string (lit "model")) (lit "model_not_found") in
  let body := if ErrorResponseBytes (limits h) <? Z.of_nat (length body)
              then fallbackSuiteErrorBody shape StatusNotFound else body in
  [EvAnswer StatusNotFound body].

Definition empty_catalog (shape : str) : str :=
  if str_eqb shape CatalogShapeCodex then lit "{" ++ member (lit "models") (lit "[]") ++ lit "}"
  else if is_anthropic shape
  then lit "{" ++ member (lit "data") (lit "[]") ++ lit "," ++ member (lit "has_more") (lit "false") ++ lit "}"
  else lit "{" ++ member (lit "object") (json_string (lit "list")) ++ lit "," ++ member (lit "data") (lit "[]") ++ lit "}".

Definition writeEmptyCatalogOr404 (h : CatalogSuiteHandler T) (r : Request) : list (event T) :=
  let shape := defaultCatalogShape h in
  match strip_prefix (CatalogPath ++ lit "/") (path_Clean (Path r)) with
  | Some after =>
      let modelID := Trim "/" after in
      if negb (str_eqb modelID []) then writeModelNotFoundError h shape modelID
      else [EvAnswer StatusOK (empty_catalog shape)]
  | None => [EvAnswer StatusOK (empty_catalog shape)]
  end.

(** ** Completions *)

(** [io.ReadAll(io.LimitReader(originalBody, maxPeekBytes+1))] *)
Definition read_limited (max : Z) (o : Observed) : str * option read_error :=
  let n := add64 max 1 in
  if n <=? 0 then ([], None)
  else if n <? Z.of_nat (length (o_content o)) then (take (Z.to_nat n) (o_content o), None)
  else (o_content o, o_err o).

(** From the body in hand to the target that is to serve it, or the answer. *)
Definition inspect (h : CatalogSuiteHandler T) (r : Request) (o : Observed) : result (Z * suite_message) (T * str) :=
  let max := AcceptedRequestBytes (limits h) in
  let '(body, err) := read_limited max o in
  match err with
  | Some e =>
      if o_timedOut o || match e with ErrDeadlineExceeded => true | OtherReadError => false end
      then Err (StatusRequestTimeout, MsgTimedOut)
      else Err (StatusBadRequest, MsgReadFailed)
  | None =>
      if max <? Z.of_nat (length body) then Err (StatusRequestEntityTooLarge, MsgTooLarge)
      else match TopLevelModel body with
           | None => Err (StatusBadRequest, MsgInvalid)
           | Some [] => Err (StatusBadRequest, MsgMissingModel)
           | Some modelID =>
               let path := path_Clean (Path r) in
               let serve (target : suiteModelTarget T) : result (Z * suite_message) (T * str) :=
                 if existsb (λ k, str_eqb (fst k) "POST" && str_eqb (snd k) path) (supportedRoutes target)
                 then Ok (handler target, body)
                 else Err (StatusNotFound, MsgUnavailable modelID path) in
               match modelMap h !! modelID with
               | Some target => serve target
               | None =>
                   match strict h, fallback h with
                   | false, Some t => serve {| handler := t; supportedRoutes := fallbackRoutes h |}
                   | _, _ =>
                       if bool_decide (modelMap h = ∅) then Err (StatusServiceUnavailable, MsgNoProvider modelID)
                       else Err (StatusNotFound, MsgUnknownModel modelID)
                   end
               end
           end
  end.

Definition serveCompletion (h : CatalogSuiteHandler T) (r : Request) (o : Observed) : list (event T) :=
  let shape := shapeForCompletion h r in
  let clear := if o_deadline o then [EvClearDeadline] else [] in
  if AcceptedRequestBytes (limits h) <? ContentLength r
  then writeDialectError h shape StatusRequestEntityTooLarge MsgTooLarge
  else if negb (o_admitted o) then []
  else
    [EvAcquire; EvSetDeadline (o_deadline o)] ++
    if hasBody r then
      [EvTimer; EvRead; EvTimerStop; EvCloseBody] ++ clear ++
      match inspect h r o with
      | Err (status, m) => writeDialectError h shape status m ++ [EvRelease]
      | Ok (target, body) => [EvHandOff; EvServe target body; EvDrain]
      end
    else writeDialectError h shape StatusBadRequest MsgMissingBody ++ clear ++ [EvRelease].

Definition ServeHTTP (h : CatalogSuiteHandler T) (r : Request) (o : Observed) : list (event T) :=
  let reqPath := path_Clean (Path r) in
  if str_eqb (Method r) "GET" && isCatalogRoute reqPath then
    match catalogHandler h with
    | Some c => [EvDelegate c]
    | None => writeEmptyCatalogOr404 h r
    end
  else if str_eqb (Method r) "POST" && isCompletionRoute reqPath then serveCompletion h r o
  else match strict h, fallback h with
       | false, Some t => [EvDelegate t]
       | _, _ => writeDialectError h (defaultCatalogShape h) StatusNotFound MsgNotFound
       end.
End suite.

(** ** Specifications *)

Inductive token := NoToken | Held | HandedOff | GivenBack.

#[export] Instance token_eq_dec : EqDecision token.
Proof. solve_decision. Defined.

(** What a completion has done so far. *)
Record progress := { tok : token; armed : bool; timing : bool; body_closed : bool; answered : bool; served : bool }.

Definition nothing_yet : progress :=
  {| tok := NoToken; armed := false; timing := false; body_closed := false; answered := false; served := false |}.

(** The discipline of a completion: a body is read only under a slot and a
    running timer; a target is served once, after the hand-off, with the original
    body closed, the timer stopped and no read deadline left; an answer excludes
    a target; a token is given back by the release or, once handed off, by the
    backstop. *)
Definition discipline {T} (p : progress) (e : event T) : option progress :=
  let '{| tok := t; armed := a; timing := ti; body_closed := c; answered := an; served := s |} := p in
  let mk t a ti c an s :=
    {| tok := t; armed := a; timing := ti; body_closed := c; answered := an; served := s |} in
  match e, t with
  | EvAcquire, NoToken => if an then None else Some (mk Held a ti c an s)
  | EvSetDeadline ok, Held => Some (mk t ok ti c an s)
  | EvClearDeadline, _ => if a then Some (mk t false ti c an s) else None
  | EvTimer, Held => if ti then None else Some (mk t a true c an s)
  | EvRead, Held => if ti && negb c then Some p else None
  | EvTimerStop, _ => if ti then Some (mk t a false c an s) else None
  | EvCloseBody, Held => if ti then None else Some (mk t a ti true an s)
  | EvAnswer _ _, (NoToken | Held) => if ti || an || s then None else Some (mk t a ti c true s)
  | EvHandOff, Held => if c && negb an then Some (mk HandedOff a ti c an s) else None
  | EvServe _ _, HandedOff => if a || ti || an || s then None else Some (mk t a ti c an true)
  | EvDrain, HandedOff => if s then Some (mk GivenBack a ti c an s) else None
  | EvRelease, Held => Some (mk GivenBack a ti c an s)
  | _, _ => None
  end.

Fixpoint follow {T} (p : progress) (l : list (event T)) : option progress :=
  match l with
  | [] => Some p
  | e :: l => match discipline p e with Some p => follow p l | None => None end
  end.

(** A target a model is configured for: its last route with a handler. *)
Definition configured {T} (cfg : SuiteConfig T) (m : str) : option (suiteModelTarget T) :=
  match last (filter (λ mr, Model mr = m ∧ mr_Handler mr ≠ None) (ModelRoutes cfg)) with
  | Some mr => match mr_Handler mr with
               | Some t => Some {| handler := t; supportedRoutes := SupportedRoutes mr |}
               | None => None
               end
  | None => None
  end.

(** The target of a model: the configured one, or the fallback of a lenient suite. *)
Definition target_of {T} (cfg : SuiteConfig T) (m : str) : option (suiteModelTarget T) :=
  match configured cfg m with
  | Some t => Some t
  | None => match Strict cfg, Fallback cfg with
            | false, Some t => Some {| handler := t; supportedRoutes := FallbackRoutes cfg |}
            | _, _ => None
            end
  end.

(** Every answer of a log is within the limit. *)
Definition bounded_answers {T} (n : Z) (l : list (event T)) : Prop :=
  Forall (λ e, match e with EvAnswer _ b => Z.of_nat (length b) <= n | _ => True end) l.

(** A concrete suite: one model, no fallback. *)
Definition demo_suite : SuiteConfig nat :=
  {| CatalogHandler := None; DefaultShape := []; Fallback := None; FallbackRoutes := []; Limits := demo_limits;
     ModelRoutes := [{| Model := lit "m"; mr_Handler := Some 7%nat; SupportedRoutes := [(lit "POST", lit "/v1/messages")] |}];
     InspectionTimeout := 0; Strict := false |}.
Definition demo_request : Request :=
  {| Method := lit "POST"; Path := lit "/v1/messages"; ContentLength := 5; hasBody := true |}.
Definition demo_observed : Observed :=
  {| o_admitted := true; o_deadline := true; o_content := lit "hello"; o_err := None; o_timedOut := false |}.
Definition demo_model (body : str) : option str := if str_eqb body "hello" then Some (lit "m") else None.

(** ** Lemmas: bounded messages *)

Lemma back_to_rune_spec s n :
  (n < length s)%nat →
  (back_to_rune s n <= n)%nat ∧
  (back_to_rune s n = 0%nat ∨ ∀ c, s !! back_to_rune s n = Some c → RuneStart c = true) ∧
  ∀ j c, (back_to_rune s n < j <= n)%nat → s !! j = Some c → RuneStart c = false.
Proof.
  induction n as [|n IH]; intros Hn; simpl.
  { split; [lia|]. split; [by left|]. intros; lia. }
  destruct (lookup_lt_is_Some_2 s (S n)) as [c Hc]; [done|]. rewrite Hc.
  destruct (RuneStart c) eqn:Er.
  - split; [lia|]. split; [right; intros c'; by rewrite Hc; intros [= <-]|]. intros; lia.
  - destruct IH as (Hle & Hb & Hmax); [lia|]. split; [lia|]. split; [done|].
    intros j c' Hj Hc'. destruct (decide (j = S n)) as [->|]; [congruence|]. apply (Hmax j); [lia|done].
Qed.

Lemma truncate_spec s n :
  ∃ k, truncateUTF8 s n = take k s ∧ (k <= n)%nat ∧ (length s <= n → k = length s)%nat ∧
    (n < length s → (k = 0 ∨ ∀ c, s !! k = Some c → RuneStart c = true) ∧
       ∀ j c, k < j <= n → s !! j = Some c → RuneStart c = false)%nat.
Proof.
  unfold truncateUTF8. destruct (Nat.leb_spec (length s) n).
  - exists (length s). rewrite take_ge by done. split_and!; [done|done|done|lia].
  - destruct (back_to_rune_spec s n) as (Hle & Hb & Hmax); [done|].
    exists (back_to_rune s n). split_and!; [done|done|lia|]. done.
Qed.

Section suite_lemmas.
Context {T : Type} (Quote : str → str) (TopLevelModel : str → option str).
Implicit Types (cfg : SuiteConfig T) (h : CatalogSuiteHandler T).

(** *** The model map *)

Lemma add_route_lookup (m : gmap str (suiteModelTarget T)) mr k :
  k ≠ [] → add_route m mr !! k =
  match mr_Handler mr with
  | Some t => if decide (Model mr = k) then Some {| handler := t; supportedRoutes := SupportedRoutes mr |} else m !! k
  | None => m !! k
  end.
Proof.
  intros Hk. unfold add_route. destruct (Model mr) as [|c s] eqn:Em, (mr_Handler mr) as [t|]; try done.
  - by rewrite decide_False by congruence.
  - destruct (decide (c :: s = k)) as [<-|Hne]; [by rewrite lookup_insert_eq|by rewrite lookup_insert_ne].
Qed.

Lemma modelMap_lookup cfg k : k ≠ [] → modelMap (NewCatalogSuiteHandler cfg) !! k = configured cfg k.
Proof.
  intros Hk. unfold configured. simpl. induction (ModelRoutes cfg) as [|mr l IH] using rev_ind.
  { simpl. by rewrite lookup_empty. }
  rewrite fold_left_app. simpl. rewrite add_route_lookup by done. rewrite filter_app, filter_cons, filter_nil.
  destruct (mr_Handler mr) as [t|] eqn:Et.
  - destruct (decide (Model mr = k)) as [Heq|Hne].
    + rewrite decide_True by done. rewrite last_snoc, Et. done.
    + rewrite decide_False by (intros [? _]; done). rewrite app_nil_r. exact IH.
  - rewrite decide_False by (intros [_ ?]; done). rewrite app_nil_r. exact IH.
Qed.

(** *** Documents *)

Lemma fallback_bounded shape status : (length (fallbackSuiteErrorBody shape status) <= 128)%nat.
Proof.
  unfold fallbackSuiteErrorBody, anthropic_type, errTypeForStatus, errCodeForStatus.
  destruct (is_anthropic shape), (status =? StatusNotFound), (status =? StatusBadRequest),
    (status =? StatusServiceUnavailable), (status =? StatusRequestEntityTooLarge); vm_compute; lia.
Qed.

Lemma New_error_limit cfg : catalogSuiteMinErrorBytes <= ErrorResponseBytes (limits (NewCatalogSuiteHandler cfg)).
Proof.
  unfold NewCatalogSuiteHandler. cbn [limits].
  destruct (Z.ltb_spec (ErrorResponseBytes (WithDefaults (Limits cfg))) catalogSuiteMinErrorBytes); [|done].
  unfold with_ErrorResponseBytes. cbn [ErrorResponseBytes]. lia.
Qed.

Lemma New_accepted_limit cfg :
  AcceptedRequestBytes (limits (NewCatalogSuiteHandler cfg)) = AcceptedRequestBytes (WithDefaults (Limits cfg)).
Proof. unfold NewCatalogSuiteHandler. cbn [limits]. by destruct (_ <? _). Qed.

(** A document, or the fallback when it is too long. *)
Lemma fitted_bounded h shape status (body : str) :
  catalogSuiteMinErrorBytes <= ErrorResponseBytes (limits h) →
  Z.of_nat (length (if ErrorResponseBytes (limits h) <? Z.of_nat (length body)
                    then fallbackSuiteErrorBody shape status else body)) <= ErrorResponseBytes (limits h).
Proof.
  intros Hl. destruct (Z.ltb_spec (ErrorResponseBytes (limits h)) (Z.of_nat (length body))); [|lia].
  pose proof (fallback_bounded shape status). unfold catalogSuiteMinErrorBytes in Hl. lia.
Qed.

Lemma empty_catalog_bounded shape : (length (empty_catalog shape) <= 128)%nat.
Proof.
  unfold empty_catalog. destruct (str_eqb shape CatalogShapeCodex), (is_anthropic shape); vm_compute; lia.
Qed.

Lemma dialect_bounded h shape st m :
  catalogSuiteMinErrorBytes <= ErrorResponseBytes (limits h) →
  bounded_answers (ErrorResponseBytes (limits h)) (writeDialectError Quote h shape st m).
Proof. intros Hl. apply Forall_singleton. by apply fitted_bounded. Qed.

Lemma empty_bounded h r :
  catalogSuiteMinErrorBytes <= ErrorResponseBytes (limits h) →
  bounded_answers (ErrorResponseBytes (limits h)) (writeEmptyCatalogOr404 Quote h r).
Proof.
  intros Hl. assert (He : ∀ st, bounded_answers (T:=T) (ErrorResponseBytes (limits h)) [EvAnswer st (empty_catalog (defaultCatalogShape h))]).
  { intros st. apply Forall_singleton. pose proof (empty_catalog_bounded (defaultCatalogShape h)).
    unfold catalogSuiteMinErrorBytes in Hl. lia. }
  unfold writeEmptyCatalogOr404. destruct (strip_prefix _ _) as [after|]; [|apply He].
  destruct (negb _); [|apply He]. apply Forall_singleton. by apply fitted_bounded.
Qed.

Lemma completion_bounded h r o :
  catalogSuiteMinErrorBytes <= ErrorResponseBytes (limits h) →
  bounded_answers (ErrorResponseBytes (limits h)) (serveCompletion Quote TopLevelModel h r o).
Proof.
  intros Hl. pose proof (λ shape st m, dialect_bounded h shape st m Hl) as Hd.
  unfold serveCompletion. destruct (_ <? _); [apply Hd|]. destruct (negb _); [constructor|].
  assert (Hc : bounded_answers (T:=T) (ErrorResponseBytes (limits h)) (if o_deadline o then [EvClearDeadline] else [])).
  { destruct (o_deadline o); by repeat constructor. }
  unfold bounded_answers in *. rewrite Forall_app. split; [by repeat constructor|].
  destruct (hasBody r).
  - rewrite !Forall_app. split; [by repeat constructor|]. split; [done|].
    destruct (inspect _ _ _ _) as [[t b]|[st m]]; [by repeat constructor|]. rewrite Forall_app.
    split; [apply Hd|by repeat constructor].
  - rewrite !Forall_app. split; [apply Hd|]. split; [done|by repeat constructor].
Qed.

(** *** Dispatch *)

Lemma read_limited_ok max o b :
  0 <= max < max_int64 → Z.of_nat (length b) <= max →
  read_limited max o = (b, None) ↔ o_content o = b ∧ o_err o = None.
Proof.
  intros Hm Hb. unfold read_limited, add64. rewrite wrap64_id by (unfold in_int64, min_int64, max_int64 in *; lia).
  destruct (Z.leb_spec (max + 1) 0); [lia|]. destruct (Z.ltb_spec (max + 1) (Z.of_nat (length (o_content o)))).
  - split.
    + intros [= <-]. rewrite length_take in Hb. lia.
    + intros [<- _]. lia.
  - split; [by intros [= -> ->]|by intros [-> ->]].
Qed.

Lemma route_supported (target : suiteModelTarget T) path :
  existsb (λ k, str_eqb (fst k) "POST" && str_eqb (snd k) path) (supportedRoutes target) = true ↔
  (lit "POST", path) ∈ supportedRoutes target.
Proof.
  rewrite existsb_exists. split.
  - intros ([m p] & Hin%list_elem_of_In & [Hm Hp]%andb_prop). simpl in *.
    apply str_eqb_eq in Hm, Hp. by subst.
  - intros Hin%list_elem_of_In. exists (lit "POST", path). split; [done|]. simpl.
    by rewrite !(proj2 (str_eqb_eq _ _) eq_refl).
Qed.

(** Serving a body with a target that supports the route. *)
Lemma serve_ok (target : suiteModelTarget T) m path (body b : str) t :
  (if existsb (λ k, str_eqb (fst k) "POST" && str_eqb (snd k) path) (supportedRoutes target)
   then Ok (handler target, body) else Err (StatusNotFound, MsgUnavailable m path)) = Ok (t, b) ↔
  handler target = t ∧ body = b ∧ (lit "POST", path) ∈ supportedRoutes target.
Proof.
  rewrite <- route_supported. destruct (existsb _ _).
  - split; [by intros [= <- <-]|by intros (<- & <- & _)].
  - split; [done|by intros (_ & _ & ?)].
Qed.

Lemma inspect_ok cfg r o t b :
  AcceptedRequestBytes (WithDefaults (Limits cfg)) < max_int64 →
  inspect TopLevelModel (NewCatalogSuiteHandler cfg) r o = Ok (t, b) ↔
  o_content o = b ∧ o_err o = None ∧ Z.of_nat (length b) <= AcceptedRequestBytes (WithDefaults (Limits cfg)) ∧
  ∃ m target, TopLevelModel b = Some m ∧ m ≠ [] ∧ target_of cfg m = Some target ∧ handler target = t ∧
    (lit "POST", path_Clean (Path r)) ∈ supportedRoutes target.
Proof.
  intros Hmax. destruct (admission_capacity (Limits cfg)) as [Hpos _].
  unfold inspect. rewrite New_accepted_limit. set (max := AcceptedRequestBytes _) in *.
  destruct (read_limited max o) as [body err] eqn:Er.
  pose proof (read_limited_ok max o b ltac:(lia)) as Hread. rewrite Er in Hread.
  destruct err as [e|].
  { destruct (_ || _); (split; [done|]); intros (Hc & He & Hlen & _);
      pose proof (proj2 (Hread Hlen) (conj Hc He)); done. }
  destruct (Z.ltb_spec max (Z.of_nat (length body))) as [Hlt|Hle].
  { split; [done|]. intros (Hc & He & Hlen & _). pose proof (proj2 (Hread Hlen) (conj Hc He)) as Hx.
    injection Hx as ->. lia. }
  assert (Hb : body = b → o_content o = b ∧ o_err o = None ∧ Z.of_nat (length b) <= max).
  { intros <-. destruct (proj1 (Hread Hle) eq_refl) as [? ?]. done. }
  assert (Hb' : o_content o = b → o_err o = None → Z.of_nat (length b) <= max → body = b).
  { intros Hc He Hlen. pose proof (proj2 (Hread Hlen) (conj Hc He)) as Hx. by injection Hx. }
  assert (Hgone : (∀ m target, TopLevelModel body = Some m → m ≠ [] → target_of cfg m = Some target → False) →
    o_content o = b ∧ o_err o = None ∧ Z.of_nat (length b) <= max ∧
    (∃ m target, TopLevelModel b = Some m ∧ m ≠ [] ∧ target_of cfg m = Some target ∧ handler target = t ∧
      (lit "POST", path_Clean (Path r)) ∈ supportedRoutes target) → False).
  { intros Hno (Hc & He & Hlen & m & target & Hm & Hne & Ht & _). rewrite <- (Hb' Hc He Hlen) in Hm. by eapply Hno. }
  destruct (TopLevelModel body) as [[|c m]|] eqn:Em.
  - split; [done|]. intros Hx. destruct (Hgone ltac:(by intros m tg [= <-]) Hx).
  - set (k := c :: m) in *. rewrite modelMap_lookup by done.
    assert (Hgo : ∀ target, target_of cfg k = Some target →
      (handler target = t ∧ body = b ∧ (lit "POST", path_Clean (Path r)) ∈ supportedRoutes target) ↔
      o_content o = b ∧ o_err o = None ∧ Z.of_nat (length b) <= max ∧
      ∃ m target, TopLevelModel b = Some m ∧ m ≠ [] ∧ target_of cfg m = Some target ∧ handler target = t ∧
        (lit "POST", path_Clean (Path r)) ∈ supportedRoutes target).
    { intros target Ht. split.
      - intros (Hh & Hbb & Hr). destruct (Hb Hbb) as (? & ? & ?). split_and!; [done..|].
        exists k, target. by rewrite <- Hbb.
      - intros (Hc & He & Hlen & m' & target' & Hm & Hne & Ht' & Hh & Hr).
        pose proof (Hb' Hc He Hlen) as Hbb. rewrite <- Hbb, Em in Hm. injection Hm as <-.
        rewrite Ht in Ht'. by injection Ht' as <-. }
    destruct (configured cfg k) as [target|] eqn:Ec.
    + rewrite serve_ok. apply Hgo. unfold target_of. by rewrite Ec.
    + simpl strict. simpl fallback.
      assert (Htgt : target_of cfg k = match Strict cfg, Fallback cfg with
        | false, Some t => Some {| handler := t; supportedRoutes := FallbackRoutes cfg |} | _, _ => None end).
      { unfold target_of. by rewrite Ec. }
      destruct (Strict cfg), (Fallback cfg) as [fb|];
        try (rewrite serve_ok; by apply (Hgo {| handler := fb; supportedRoutes := FallbackRoutes cfg |}));
        (split; [by destruct (bool_decide _)|]); intros Hx;
        destruct (Hgone ltac:(intros m' tg [= <-] _; by rewrite Htgt) Hx).
  - split; [done|]. intros Hx. destruct (Hgone ltac:(by intros m tg) Hx).
Qed.
End suite_lemmas.

(** ** Properties *)

(** a bounded message is the whole message when it fits or no bound is set;
    otherwise it is at most [max] bytes, a prefix of the message with the
    ellipsis where that fits, cut at the last rune boundary; what was valid
    UTF-8 stays valid. *)
Theorem bound_error_message message max :
  let out := BoundErrorMessage message max in
  (max <= 0 ∨ Z.of_nat (length message) <= max → out = message) ∧
  (0 < max < Z.of_nat (length message) →
     Z.of_nat (length out) <= max ∧
     ∃ k, let room := Z.to_nat (if 3 <? max then max - 3 else max) in
       out = take k message ++ (if 3 <? max then ellipsis else []) ∧ (k <= room)%nat ∧
       ∀ j c, (k < j <= room)%nat → message !! j = Some c → RuneStart c = false) ∧
  (ValidString message = true → ValidString out = true).
Proof.
  intros out. unfold out, BoundErrorMessage. destruct (Z.leb_spec max 0).
  { simpl. split_and!; [done|lia|done]. }
  destruct (Z.leb_spec (Z.of_nat (length message)) max); simpl.
  { split_and!; [done|lia|done]. }
  split; [lia|].
  set (room := Z.to_nat (if 3 <? max then max - 3 else max)).
  assert (Hout : (if 3 <? max then truncateUTF8 message (Z.to_nat (max - 3)) ++ ellipsis
                  else truncateUTF8 message (Z.to_nat max)) =
                 truncateUTF8 message room ++ (if 3 <? max then ellipsis else [])).
  { unfold room. destruct (3 <? max); [done|]. by rewrite app_nil_r. }
  rewrite Hout. assert (Hroom : (room < length message)%nat) by (unfold room; destruct (Z.ltb_spec 3 max); lia).
  destruct (truncate_spec message room) as (k & -> & Hk & _ & Hcut). destruct (Hcut Hroom) as [Hb Hmax]. split.
  - intros _. split; [|by exists k]. rewrite length_app, length_take.
    unfold room in Hk. destruct (Z.ltb_spec 3 max); simpl; lia.
  - intros Hv. apply ValidString_app; [by apply ValidString_take|]. by destruct (3 <? max).
Qed.

Lemma bound_error_message_shortens : BoundErrorMessage (lit "abcdefgh") 6 = lit "abc" ++ ellipsis.
Proof. reflexivity. Qed.

(** every completion follows the discipline of the suite, whatever it
    observes: its body is read only under a slot and a running timer, its target
    is served with the original body closed and no timer or read deadline left,
    and at its end the token has been given back exactly once, nothing is armed,
    and it was either answered or served; without a token it was answered only
    for its announced length. *)
Theorem completion_disciplined {T} Quote TopLevelModel (h : CatalogSuiteHandler T) r o :
  ∃ p, follow nothing_yet (serveCompletion Quote TopLevelModel h r o) = Some p ∧
    armed p = false ∧ timing p = false ∧
    ((tok p = GivenBack ∧ xorb (answered p) (served p) = true) ∨
     (tok p = NoToken ∧ served p = false ∧ answered p = (AcceptedRequestBytes (limits h) <? ContentLength r))).
Proof.
  unfold serveCompletion, writeDialectError. destruct (_ <? _).
  { eexists. split; [reflexivity|]. split_and!; [done|done|]. by right. }
  destruct (o_admitted o); simpl.
  2: { eexists. split; [reflexivity|]. split_and!; [done|done|]. by right. }
  destruct (hasBody r), (o_deadline o); simpl;
    try (destruct (inspect _ _ _ _) as [[t b]|[st m]]; simpl);
    (eexists; split; [reflexivity|]; split_and!; [done|done|]; by left).
Qed.

(** a completion is served by exactly the target of the model its body
    names: the last route configured for it, or the fallback of a lenient suite,
    when that target supports the path; and with exactly the body that arrived
    whole and within the ceiling. *)
Theorem completion_dispatch {T} Quote TopLevelModel (cfg : SuiteConfig T) r o t b :
  AcceptedRequestBytes (WithDefaults (Limits cfg)) < max_int64 →
  EvServe t b ∈ serveCompletion Quote TopLevelModel (NewCatalogSuiteHandler cfg) r o ↔
  ContentLength r <= AcceptedRequestBytes (WithDefaults (Limits cfg)) ∧ o_admitted o = true ∧ hasBody r = true ∧
  o_content o = b ∧ o_err o = None ∧ Z.of_nat (length b) <= AcceptedRequestBytes (WithDefaults (Limits cfg)) ∧
  ∃ m target, TopLevelModel b = Some m ∧ m ≠ [] ∧ target_of cfg m = Some target ∧ handler target = t ∧
    (lit "POST", path_Clean (Path r)) ∈ supportedRoutes target.
Proof.
  intros Hmax. rewrite <- (inspect_ok TopLevelModel cfg r o t b Hmax), <- New_accepted_limit.
  unfold serveCompletion, writeDialectError.
  destruct (Z.ltb_spec (AcceptedRequestBytes (limits (NewCatalogSuiteHandler cfg))) (ContentLength r)).
  { rewrite list_elem_of_singleton. split; [done|lia]. }
  destruct (o_admitted o); simpl; [|rewrite elem_of_nil; by split; [|intros (_ & ? & _)]].
  rewrite !elem_of_cons. destruct (hasBody r).
  - simpl. rewrite !elem_of_cons, elem_of_app.
    destruct (inspect TopLevelModel (NewCatalogSuiteHandler cfg) r o) as [[t' b']|[st m]]; simpl;
      rewrite !elem_of_cons, elem_of_nil; destruct (o_deadline o);
      rewrite ?list_elem_of_singleton, ?elem_of_nil; intuition congruence.
  - simpl. rewrite !elem_of_cons, elem_of_app, list_elem_of_singleton.
    destruct (o_deadline o); rewrite ?list_elem_of_singleton, ?elem_of_nil; intuition congruence.
Qed.

(** no document the suite answers with, on any route, is longer than the
    configured limit of error responses: one that would be is replaced by a
    fallback that always fits. *)
Theorem suite_answers_bounded {T} Quote TopLevelModel (cfg : SuiteConfig T) r o st b :
  let h := NewCatalogSuiteHandler cfg in
  EvAnswer st b ∈ ServeHTTP Quote TopLevelModel h r o → Z.of_nat (length b) <= ErrorResponseBytes (limits h).
Proof.
  intros h Hin. pose proof (New_error_limit cfg) as Hl. fold h in Hl.
  assert (Hb : bounded_answers (ErrorResponseBytes (limits h)) (ServeHTTP Quote TopLevelModel h r o)).
  { unfold ServeHTTP. destruct (_ && _).
    - destruct (catalogHandler h); [by repeat constructor|by apply empty_bounded].
    - destruct (_ && _); [by apply completion_bounded|].
      destruct (strict h), (fallback h); first [by apply dialect_bounded|by repeat constructor]. }
  unfold bounded_answers in Hb. rewrite Forall_forall in Hb. by apply (Hb (EvAnswer st b)).
Qed.

(** At the largest ceiling the sum with one wraps: no byte of a body is read and
    every completion is refused. *)
Lemma largest_ceiling_reads_nothing o : read_limited max_int64 o = ([], None).
Proof. reflexivity. Qed.

(** ** Witnesses *)

Lemma completion_dispatch_witness :
  EvServe 7%nat (lit "hello") ∈ serveCompletion (λ s, s) demo_model (NewCatalogSuiteHandler demo_suite) demo_request demo_observed.
Proof.
  apply (completion_dispatch (λ s, s) demo_model demo_suite demo_request demo_observed 7%nat (lit "hello")); [reflexivity|].
  split; [discriminate|]. split; [reflexivity|]. split; [reflexivity|]. split; [reflexivity|]. split; [reflexivity|].
  split; [discriminate|]. exists (lit "m"), {| handler := 7%nat; supportedRoutes := [(lit "POST", lit "/v1/messages")] |}.
  split; [reflexivity|]. split; [discriminate|]. split; [reflexivity|]. split; [reflexivity|].
  apply list_elem_of_singleton. reflexivity.
Defined.

Lemma suite_answers_bounded_witness :
  Z.of_nat (length (dialect_body (NewCatalogSuiteHandler demo_suite) CatalogShapeOpenAI StatusNotFound
    (message_text (λ s, s) MsgNotFound))) <= 2 ^ 20.
Proof.
  apply (suite_answers_bounded (λ s, s) demo_model demo_suite
    {| Method := lit "GET"; Path := lit "/elsewhere"; ContentLength := 0; hasBody := false |} demo_observed StatusNotFound).
  vm_compute. left.
Defined.
