(* ===== verification/ResponsesFsm.v ===== *)
(** * The Responses stream lifecycle ([src/internal/transcode/responses_stream_fsm.go])

    The validator of an upstream Responses stream.  A handler is a computation
    over the validator's state that may end in a violation; what it changed
    before the violation stays changed, as in the code.  Identifiers and texts
    are strings, maps are finite maps, and a decoded event's type tag is its
    constructor (decoding checks it).  A creation time is a finite float, a
    rational. *)

From Stdlib Require Import ZArith Qcanon Lia Bool List String Sorted.
From stdpp Require Import gmap strings.
From S2P Require Import Prelude GoStd Budget.

Open Scope Z_scope.

(** ** Events *)

Inductive OutputItem :=
| ItemMessage (id : string)
| ItemFunctionCall (id : string)
| ItemReasoning (id : string)
| ItemOther (typeName : string).

Definition responsesOutputItemID (item : OutputItem) : string :=
  match item with
  | ItemMessage id | ItemFunctionCall id | ItemReasoning id => id
  | ItemOther _ => EmptyString
  end.

Definition itemTypeName (item : OutputItem) : string :=
  match item with
  | ItemMessage _ => "message"
  | ItemFunctionCall _ => "function_call"
  | ItemReasoning _ => "reasoning"
  | ItemOther t => t
  end.

Inductive ContentPart := PartOutputText | PartRefusal | PartOther (typeName : string).

Definition partTypeName (part : ContentPart) : string :=
  match part with
  | PartOutputText => "output_text"
  | PartRefusal => "refusal"
  | PartOther t => t
  end.

Record ResponseEnvelope := { env_ID : string; env_Model : string; env_CreatedAt : Qc; env_Status : string }.

Inductive event_body :=
| Created (env : ResponseEnvelope)
| InProgress
| OutputItemAdded (outputIndex : Z) (item : OutputItem)
| OutputItemDone (outputIndex : Z) (item : OutputItem)
| ContentPartAdded (itemID : string) (outputIndex contentIndex : Z) (part : ContentPart)
| ContentPartDone (itemID : string) (outputIndex contentIndex : Z) (part : ContentPart)
| TextDelta (itemID : string) (outputIndex contentIndex : Z) (delta : string)
| TextDone (itemID : string) (outputIndex contentIndex : Z) (text : string)
| RefusalDelta (itemID : string) (outputIndex contentIndex : Z) (delta : string)
| RefusalDone (itemID : string) (outputIndex contentIndex : Z) (refusal : string)
| ArgumentsDelta (itemID : string) (outputIndex : Z) (delta : string)
| ArgumentsDone (itemID : string) (outputIndex : Z) (arguments : string)
| ReasoningPartAdded (itemID : string) (outputIndex : Z)
| ReasoningTextDelta (itemID : string) (outputIndex : Z) (delta : string)
| ReasoningTextDone (itemID : string) (outputIndex : Z)
| ReasoningPartDone (itemID : string) (outputIndex : Z)
| Completed (env : ResponseEnvelope)
| Incomplete (env : ResponseEnvelope)
| Failed (env : ResponseEnvelope)
| ErrorEvent
| UnknownEvent.

Record ResponsesSSEEvent := { Sequence : Z; body : event_body }.

(** ** State *)

Inductive itemPhase := itemPhaseAdded | itemPhaseDone.
Inductive partPhase := partPhaseAdded | partPhaseValueDone | partPhaseDone.
Inductive callPhase := callPhaseAdded | callPhaseArgumentsDone | callPhaseDone.
Inductive reasoningPhase := reasoningNone | reasoningPartAdded | reasoningValueDone | reasoningPartDone.

#[export] Instance itemPhase_eq_dec : EqDecision itemPhase.
Proof. solve_decision. Defined.
#[export] Instance partPhase_eq_dec : EqDecision partPhase.
Proof. solve_decision. Defined.
#[export] Instance callPhase_eq_dec : EqDecision callPhase.
Proof. solve_decision. Defined.
#[export] Instance reasoningPhase_eq_dec : EqDecision reasoningPhase.
Proof. solve_decision. Defined.

Record fsmPart := { part_kind : string; part_phase : partPhase }.

Record fsmItem := {
  outputIndex : Z;
  item_kind : string;
  item_phase : itemPhase;
  parts : gmap Z fsmPart;
  calls : gmap string callPhase;
  text : gmap Z string;
  refusal : gmap Z string;
  arguments : string;
  reasoning : reasoningPhase;
}.

Record responsesStreamFSM := {
  budget : streamBudget;
  started : bool;
  terminal : bool;
  lastSeq : Z;
  identity : string * string * Qc;
  items : gmap string fsmItem;
  indexes : gmap Z string;
}.

Definition newResponsesStreamFSM : responsesStreamFSM :=
  {| budget := newStreamBudget; started := false; terminal := false; lastSeq := -1;
     identity := (EmptyString, EmptyString, 0%Qc); items := ∅; indexes := ∅ |}.

Inductive violation :=
| OverBudget
| AfterTerminal
| SequenceNotIncreasing
| BeforeCreated
| UnknownType
| DuplicateCreated
| DuplicateItem
| DuplicateOutputIndex
| UnknownItem
| OutputIndexMismatch
| KindMismatch
| ItemAlreadyDone
| PartStillStreaming
| CallStillStreaming
| DuplicatePart
| UnopenedPart
| PartAlreadyDone
| PartBeforeValueDone
| DeltaAfterDone
| MisplacedDone
| SnapshotMismatch
| NoOpenBlock
| ReasoningPhase
| DuplicateTerminal
| IdentityDrift
| StatusMismatch
| ItemStillOpen.

(** ** Computations *)

Definition FSM (A : Type) : Type := responsesStreamFSM → result violation A * responsesStreamFSM.

Definition ret {A} (a : A) : FSM A := λ f, (Ok a, f).
Definition fail {A} (v : violation) : FSM A := λ f, (Err v, f).
Definition bind {A B} (m : FSM A) (k : A → FSM B) : FSM B :=
  λ f, match m f with
       | (Ok a, f) => k a f
       | (Err v, f) => (Err v, f)
       end.
Declare Scope fsm_scope.
Delimit Scope fsm_scope with fsm.
Notation "'let!' x := m 'in' k" := (bind m (λ x, k))
  (at level 10, x name, m at level 100, k at level 200) : fsm_scope.
Notation "m ;;; k" := (bind m (λ _, k)) (at level 60, right associativity) : fsm_scope.
#[local] Open Scope fsm_scope.

Definition require (b : bool) (v : violation) : FSM unit := if b then ret tt else fail v.
Definition get : FSM responsesStreamFSM := λ f, (Ok f, f).
Definition put (f : responsesStreamFSM) : FSM unit := λ _, (Ok tt, f).

Definition with_budget (b : streamBudget) (f : responsesStreamFSM) : responsesStreamFSM :=
  {| budget := b; started := started f; terminal := terminal f; lastSeq := lastSeq f;
     identity := identity f; items := items f; indexes := indexes f |}.

Definition with_item (id : string) (it : fsmItem) (f : responsesStreamFSM) : responsesStreamFSM :=
  {| budget := budget f; started := started f; terminal := terminal f; lastSeq := lastSeq f;
     identity := identity f; items := <[id := it]> (items f); indexes := indexes f |}.

Definition with_index (i : Z) (id : string) (f : responsesStreamFSM) : responsesStreamFSM :=
  {| budget := budget f; started := started f; terminal := terminal f; lastSeq := lastSeq f;
     identity := identity f; items := items f; indexes := <[i := id]> (indexes f) |}.

Definition with_lastSeq (s : Z) (f : responsesStreamFSM) : responsesStreamFSM :=
  {| budget := budget f; started := started f; terminal := terminal f; lastSeq := s;
     identity := identity f; items := items f; indexes := indexes f |}.

Definition with_identity (i : string * string * Qc) (f : responsesStreamFSM) : responsesStreamFSM :=
  {| budget := budget f; started := true; terminal := terminal f; lastSeq := lastSeq f;
     identity := i; items := items f; indexes := indexes f |}.

Definition with_terminal (f : responsesStreamFSM) : responsesStreamFSM :=
  {| budget := budget f; started := started f; terminal := true; lastSeq := lastSeq f;
     identity := identity f; items := items f; indexes := indexes f |}.

Definition charge (add : streamBudget → option streamBudget) : FSM unit :=
  λ f, match add (budget f) with
       | Some b => (Ok tt, with_budget b f)
       | None => (Err OverBudget, f)
       end.

Definition modify (g : responsesStreamFSM → responsesStreamFSM) : FSM unit := λ f, (Ok tt, g f).

(** Item updates. *)
Definition set_phase (p : itemPhase) (it : fsmItem) : fsmItem :=
  {| outputIndex := outputIndex it; item_kind := item_kind it; item_phase := p; parts := parts it;
     calls := calls it; text := text it; refusal := refusal it; arguments := arguments it; reasoning := reasoning it |}.
Definition set_part (i : Z) (p : fsmPart) (it : fsmItem) : fsmItem :=
  {| outputIndex := outputIndex it; item_kind := item_kind it; item_phase := item_phase it;
     parts := <[i := p]> (parts it); calls := calls it; text := text it; refusal := refusal it;
     arguments := arguments it; reasoning := reasoning it |}.
Definition set_call (id : string) (c : callPhase) (it : fsmItem) : fsmItem :=
  {| outputIndex := outputIndex it; item_kind := item_kind it; item_phase := item_phase it;
     parts := parts it; calls := <[id := c]> (calls it); text := text it; refusal := refusal it;
     arguments := arguments it; reasoning := reasoning it |}.
Definition set_text (i : Z) (s : string) (it : fsmItem) : fsmItem :=
  {| outputIndex := outputIndex it; item_kind := item_kind it; item_phase := item_phase it;
     parts := parts it; calls := calls it; text := <[i := s]> (text it); refusal := refusal it;
     arguments := arguments it; reasoning := reasoning it |}.
Definition set_refusal (i : Z) (s : string) (it : fsmItem) : fsmItem :=
  {| outputIndex := outputIndex it; item_kind := item_kind it; item_phase := item_phase it;
     parts := parts it; calls := calls it; text := text it; refusal := <[i := s]> (refusal it);
     arguments := arguments it; reasoning := reasoning it |}.
Definition set_arguments (s : string) (it : fsmItem) : fsmItem :=
  {| outputIndex := outputIndex it; item_kind := item_kind it; item_phase := item_phase it;
     parts := parts it; calls := calls it; text := text it; refusal := refusal it;
     arguments := s; reasoning := reasoning it |}.
Definition set_reasoning (r : reasoningPhase) (it : fsmItem) : fsmItem :=
  {| outputIndex := outputIndex it; item_kind := item_kind it; item_phase := item_phase it;
     parts := parts it; calls := calls it; text := text it; refusal := refusal it;
     arguments := arguments it; reasoning := r |}.

Definition new_item (oi : Z) (kind : string) (phase : itemPhase) : fsmItem :=
  {| outputIndex := oi; item_kind := kind; item_phase := phase; parts := ∅; calls := ∅; text := ∅;
     refusal := ∅; arguments := EmptyString; reasoning := reasoningNone |}.

Definition bytes (s : string) : Z := Z.of_nat (String.length s).

Definition update (id : string) (it : fsmItem) : FSM unit := modify (with_item id it).

(** ** Resolving items *)

Definition messageItem (id : string) (oi : Z) : FSM fsmItem :=
  let! f := get in
  match items f !! id with
  | None => fail UnknownItem
  | Some it =>
      require (outputIndex it =? oi) OutputIndexMismatch ;;;
      require (bool_decide (item_kind it = "message"%string)) KindMismatch ;;;
      require (bool_decide (item_phase it ≠ itemPhaseDone)) ItemAlreadyDone ;;;
      ret it
  end.

Definition partForDelta (id : string) (oi ci : Z) (wantKind : string) : FSM (fsmItem * fsmPart) :=
  let! f := get in
  (match items f !! id with
   | Some it => if negb (outputIndex it =? oi) then fail OutputIndexMismatch else ret tt
   | None => ret tt
   end) ;;;
  let! it := (λ f, match messageItem id oi f with
             | (Err _, f) => (Err NoOpenBlock, f)
             | r => r
             end) in
  match parts it !! ci with
  | None => fail NoOpenBlock
  | Some part =>
      require (bool_decide (part_kind part = wantKind)) KindMismatch ;;;
      ret (it, part)
  end.

Definition functionCallItem (id : string) (oi : Z) : FSM fsmItem :=
  let! f := get in
  match items f !! id with
  | None => fail UnknownItem
  | Some it =>
      require (outputIndex it =? oi) OutputIndexMismatch ;;;
      require (bool_decide (item_kind it = "function_call"%string)) KindMismatch ;;;
      require (bool_decide (item_phase it ≠ itemPhaseDone)) ItemAlreadyDone ;;;
      match calls it !! id with
      | Some _ => ret it
      | None =>
          let it := set_call id callPhaseAdded it in
          update id it ;;;
          charge (addStateEntries 1) ;;;
          ret it
      end
  end.

Definition reasoningItem (id : string) (oi : Z) : FSM fsmItem :=
  let! f := get in
  let! it := match items f !! id with
       | Some it => ret it
       | None =>
           (match indexes f !! oi with
            | Some prior => require (bool_decide (prior = id)) DuplicateOutputIndex
            | None => ret tt
            end) ;;;
           charge addItem ;;;
           charge (addStateEntries 1) ;;;
           let it := new_item oi "reasoning" itemPhaseDone in
           update id it ;;;
           modify (with_index oi id) ;;;
           ret it
       end in
  require (outputIndex it =? oi) OutputIndexMismatch ;;;
  require (bool_decide (item_kind it = "reasoning"%string)) KindMismatch ;;;
  ret it.

(** ** Handlers *)

Definition created (env : ResponseEnvelope) : FSM unit :=
  let! f := get in
  require (negb (started f)) DuplicateCreated ;;;
  modify (with_identity (env_ID env, env_Model env, env_CreatedAt env)).

Definition itemAdded (oi : Z) (item : OutputItem) : FSM unit :=
  let id := responsesOutputItemID item in
  let! f := get in
  require (bool_decide (items f !! id = None)) DuplicateItem ;;;
  require (bool_decide (indexes f !! oi = None)) DuplicateOutputIndex ;;;
  charge addItem ;;;
  charge (addStateEntries 1) ;;;
  update id (new_item oi (itemTypeName item) itemPhaseAdded) ;;;
  (if bool_decide (itemTypeName item = "function_call"%string) then charge addToolCall else ret tt) ;;;
  modify (with_index oi id).

Definition itemDone (oi : Z) (item : OutputItem) : FSM unit :=
  let id := responsesOutputItemID item in
  let! f := get in
  match items f !! id with
  | None => fail UnknownItem
  | Some it =>
      require (outputIndex it =? oi) OutputIndexMismatch ;;;
      require (bool_decide (itemTypeName item = item_kind it)) KindMismatch ;;;
      require (bool_decide (item_phase it ≠ itemPhaseDone)) ItemAlreadyDone ;;;
      require (bool_decide (map_Forall (λ _ p, part_phase p ≠ partPhaseAdded) (parts it))) PartStillStreaming ;;;
      require (bool_decide (map_Forall (λ _ c, c ≠ callPhaseAdded) (calls it))) CallStillStreaming ;;;
      update id (set_phase itemPhaseDone it)
  end.

Definition partAdded (id : string) (oi ci : Z) (part : ContentPart) : FSM unit :=
  let! it := messageItem id oi in
  require (bool_decide (parts it !! ci = None)) DuplicatePart ;;;
  charge addPart ;;;
  charge (addStateEntries 1) ;;;
  update id (set_part ci {| part_kind := partTypeName part; part_phase := partPhaseAdded |} it).

Definition partDone (id : string) (oi ci : Z) (part : ContentPart) : FSM unit :=
  let! it := messageItem id oi in
  match parts it !! ci with
  | None => fail UnopenedPart
  | Some p =>
      require (bool_decide (part_kind p = partTypeName part)) KindMismatch ;;;
      require (bool_decide (part_phase p ≠ partPhaseDone)) PartAlreadyDone ;;;
      require (bool_decide (part_phase p = partPhaseValueDone)) PartBeforeValueDone ;;;
      update id (set_part ci {| part_kind := part_kind p; part_phase := partPhaseDone |} it)
  end.

Definition textDelta (id : string) (oi ci : Z) (delta : string) : FSM unit :=
  let! r := partForDelta id oi ci "output_text" in
  let '(it, p) := r in
  require (bool_decide (part_phase p = partPhaseAdded)) DeltaAfterDone ;;;
  charge (addSemanticBytes (bytes delta)) ;;;
  update id (set_text ci (String.append (default EmptyString (text it !! ci)) delta) it).

Definition textDone (id : string) (oi ci : Z) (t : string) : FSM unit :=
  let! r := partForDelta id oi ci "output_text" in
  let '(it, p) := r in
  require (bool_decide (part_phase p = partPhaseAdded)) MisplacedDone ;;;
  require (bool_decide (default EmptyString (text it !! ci) = t)) SnapshotMismatch ;;;
  update id (set_part ci {| part_kind := part_kind p; part_phase := partPhaseValueDone |} it).

Definition refusalDelta (id : string) (oi ci : Z) (delta : string) : FSM unit :=
  let! r := partForDelta id oi ci "refusal" in
  let '(it, p) := r in
  require (bool_decide (part_phase p = partPhaseAdded)) DeltaAfterDone ;;;
  charge (addSemanticBytes (bytes delta)) ;;;
  update id (set_refusal ci (String.append (default EmptyString (refusal it !! ci)) delta) it).

Definition refusalDone (id : string) (oi ci : Z) (t : string) : FSM unit :=
  let! r := partForDelta id oi ci "refusal" in
  let '(it, p) := r in
  require (bool_decide (part_phase p = partPhaseAdded)) MisplacedDone ;;;
  require (bool_decide (default EmptyString (refusal it !! ci) = t)) SnapshotMismatch ;;;
  update id (set_part ci {| part_kind := part_kind p; part_phase := partPhaseValueDone |} it).

Definition argumentsDelta (id : string) (oi : Z) (delta : string) : FSM unit :=
  let! it := functionCallItem id oi in
  require (bool_decide (calls it !! id = Some callPhaseAdded)) DeltaAfterDone ;;;
  charge (addSemanticBytes (bytes delta)) ;;;
  update id (set_arguments (String.append (arguments it) delta) it).

Definition argumentsDone (id : string) (oi : Z) : FSM unit :=
  let! it := functionCallItem id oi in
  require (bool_decide (calls it !! id = Some callPhaseAdded)) MisplacedDone ;;;
  update id (set_call id callPhaseArgumentsDone it).

Definition reasoningAdded (id : string) (oi : Z) : FSM unit :=
  let! it := reasoningItem id oi in
  require (bool_decide (reasoning it = reasoningNone)) ReasoningPhase ;;;
  charge (addStateEntries 1) ;;;
  update id (set_reasoning reasoningPartAdded it).

Definition reasoningDelta (id : string) (oi : Z) (delta : string) : FSM unit :=
  let! it := reasoningItem id oi in
  require (bool_decide (reasoning it = reasoningPartAdded)) ReasoningPhase ;;;
  charge (addSemanticBytes (bytes delta)).

Definition reasoningTextDone (id : string) (oi : Z) : FSM unit :=
  let! it := reasoningItem id oi in
  require (bool_decide (reasoning it = reasoningPartAdded)) ReasoningPhase ;;;
  update id (set_reasoning reasoningValueDone it).

Definition reasoningDone (id : string) (oi : Z) : FSM unit :=
  let! it := reasoningItem id oi in
  require (bool_decide (reasoning it = reasoningValueDone)) ReasoningPhase ;;;
  update id (set_reasoning reasoningPartDone it).

Definition terminalEvent (env : ResponseEnvelope) (wantStatus : string) : FSM unit :=
  let! f := get in
  require (negb (terminal f)) DuplicateTerminal ;;;
  require (bool_decide ((env_ID env, env_Model env, env_CreatedAt env) = identity f)) IdentityDrift ;;;
  require (bool_decide (env_Status env = wantStatus)) StatusMismatch ;;;
  require (negb (bool_decide (wantStatus = "completed"%string)) ||
           bool_decide (map_Forall (λ _ it, item_phase it = itemPhaseDone) (items f))) ItemStillOpen ;;;
  modify with_terminal.

Definition is_created (b : event_body) : bool := match b with Created _ => true | _ => false end.
Definition is_error (b : event_body) : bool := match b with ErrorEvent => true | _ => false end.

Definition dispatch (b : event_body) : FSM unit :=
  match b with
  | Created env => created env
  | InProgress => ret tt
  | OutputItemAdded oi item => itemAdded oi item
  | OutputItemDone oi item => itemDone oi item
  | ContentPartAdded id oi ci part => partAdded id oi ci part
  | ContentPartDone id oi ci part => partDone id oi ci part
  | TextDelta id oi ci d => textDelta id oi ci d
  | TextDone id oi ci t => textDone id oi ci t
  | RefusalDelta id oi ci d => refusalDelta id oi ci d
  | RefusalDone id oi ci t => refusalDone id oi ci t
  | ArgumentsDelta id oi d => argumentsDelta id oi d
  | ArgumentsDone id oi _ => argumentsDone id oi
  | ReasoningPartAdded id oi => reasoningAdded id oi
  | ReasoningTextDelta id oi d => reasoningDelta id oi d
  | ReasoningTextDone id oi => reasoningTextDone id oi
  | ReasoningPartDone id oi => reasoningDone id oi
  | Completed env => terminalEvent env "completed"
  | Incomplete env => terminalEvent env "incomplete"
  | Failed env => terminalEvent env "failed"
  | ErrorEvent => ret tt
  | UnknownEvent => fail UnknownType
  end.

(** [Validate] *)
Definition ValidateEvent (ev : ResponsesSSEEvent) : FSM unit :=
  charge addEvent ;;;
  let! f := get in
  require (negb (terminal f)) AfterTerminal ;;;
  require (lastSeq f <? Sequence ev) SequenceNotIncreasing ;;;
  modify (with_lastSeq (Sequence ev)) ;;;
  require (started f || is_created (body ev) || is_error (body ev)) BeforeCreated ;;;
  dispatch (body ev).

(** ** Accepted streams *)

(** The state after a stream every event of which is accepted. *)
Fixpoint run (evs : list ResponsesSSEEvent) (f : responsesStreamFSM) : option responsesStreamFSM :=
  match evs with
  | [] => Some f
  | ev :: evs => match ValidateEvent ev f with
                 | (Ok _, f) => run evs f
                 | (Err _, _) => None
                 end
  end.

Definition accepted (evs : list ResponsesSSEEvent) (f : responsesStreamFSM) : Prop :=
  run evs newResponsesStreamFSM = Some f.

(** The text a stream has sent for a part. *)
Definition text_delta (id : string) (ci : Z) (ev : ResponsesSSEEvent) : string :=
  match body ev with
  | TextDelta id' _ ci' d => if bool_decide (id' = id ∧ ci' = ci) then d else EmptyString
  | _ => EmptyString
  end.
Definition refusal_delta (id : string) (ci : Z) (ev : ResponsesSSEEvent) : string :=
  match body ev with
  | RefusalDelta id' _ ci' d => if bool_decide (id' = id ∧ ci' = ci) then d else EmptyString
  | _ => EmptyString
  end.
Definition joined_deltas (delta : ResponsesSSEEvent → string) (evs : list ResponsesSSEEvent) : string :=
  fold_right String.append EmptyString (map delta evs).

(** The semantic bytes of an event. *)
Definition semantic (ev : ResponsesSSEEvent) : Z :=
  match body ev with
  | TextDelta _ _ _ d | RefusalDelta _ _ _ d | ArgumentsDelta _ _ d | ReasoningTextDelta _ _ d => bytes d
  | _ => 0
  end.

Definition is_terminal (b : event_body) : bool :=
  match b with Completed _ | Incomplete _ | Failed _ => true | _ => false end.

Definition adds_item (id : string) (b : event_body) : bool :=
  match b with OutputItemAdded _ item => bool_decide (responsesOutputItemID item = id) | _ => false end.
Definition ends_item (id : string) (b : event_body) : bool :=
  match b with OutputItemDone _ item => bool_decide (responsesOutputItemID item = id) | _ => false end.

Definition adds_index (oi : Z) (b : event_body) : bool :=
  match b with OutputItemAdded oi' _ => oi' =? oi | _ => false end.
Definition adds_part (id : string) (ci : Z) (b : event_body) : bool :=
  match b with ContentPartAdded id' _ ci' _ => bool_decide (id' = id) && (ci' =? ci) | _ => false end.
(** The event that completes a part's value. *)
Definition ends_value (id : string) (ci : Z) (b : event_body) : bool :=
  match b with
  | TextDone id' _ ci' _ | RefusalDone id' _ ci' _ => bool_decide (id' = id) && (ci' =? ci)
  | _ => false
  end.

Definition identity_of (env : ResponseEnvelope) : string * string * Qc := (env_ID env, env_Model env, env_CreatedAt env).

(** The envelope of a terminal event. *)
Definition terminal_env (b : event_body) : option (ResponseEnvelope * string) :=
  match b with
  | Completed env => Some (env, "completed"%string)
  | Incomplete env => Some (env, "incomplete"%string)
  | Failed env => Some (env, "failed"%string)
  | _ => None
  end.

(** An event of the stream satisfies the test. *)
Definition occurs (t : event_body → bool) (evs : list ResponsesSSEEvent) : bool := existsb (t ∘ body) evs.

(** The item an event is about. *)
Definition target (b : event_body) : option string :=
  match b with
  | OutputItemAdded _ item | OutputItemDone _ item => Some (responsesOutputItemID item)
  | ContentPartAdded id _ _ _ | ContentPartDone id _ _ _ | TextDelta id _ _ _ | TextDone id _ _ _
  | RefusalDelta id _ _ _ | RefusalDone id _ _ _ | ArgumentsDelta id _ _ | ArgumentsDone id _ _
  | ReasoningPartAdded id _ | ReasoningTextDelta id _ _ | ReasoningTextDone id _ | ReasoningPartDone id _ => Some id
  | _ => None
  end.

(** Nothing of the item is still streaming. *)
Definition closed (it : fsmItem) : Prop :=
  map_Forall (λ _ p, part_phase p ≠ partPhaseAdded) (parts it) ∧
  map_Forall (λ _ c, c ≠ callPhaseAdded) (calls it).

Definition text_at (ci : Z) (o : option fsmItem) : string :=
  match o with Some it => default EmptyString (text it !! ci) | None => EmptyString end.
Definition refusal_at (ci : Z) (o : option fsmItem) : string :=
  match o with Some it => default EmptyString (refusal it !! ci) | None => EmptyString end.

Definition part_at (ci : Z) (o : option fsmItem) : option fsmPart :=
  match o with Some it => parts it !! ci | None => None end.

Definition done (o : option fsmItem) : Prop := ∃ it, o = Some it ∧ item_phase it = itemPhaseDone.

(** What an accepted event does to its item. *)
Record item_step (id : string) (ev : ResponsesSSEEvent) (o o' : option fsmItem) : Prop := {
  is_present : o ≠ None ∨ adds_item id (body ev) = true → o' ≠ None;
  is_text : ∀ ci, text_at ci o' = String.append (text_at ci o) (text_delta id ci ev);
  is_refusal : ∀ ci, refusal_at ci o' = String.append (refusal_at ci o) (refusal_delta id ci ev);
  is_closed : (∀ it, o = Some it → item_phase it = itemPhaseDone → closed it) →
              ∀ it, o' = Some it → item_phase it = itemPhaseDone → closed it;
  is_done : done o' → done o ∨ ends_item id (body ev) = true ∨ (o = None ∧ adds_item id (body ev) = false);
  is_added : adds_item id (body ev) = true → o = None;
  is_parts : ∀ ci, part_at ci o ≠ None ∨ adds_part id ci (body ev) = true → part_at ci o' ≠ None;
  is_value : ∀ ci p', part_at ci o' = Some p' → part_phase p' ≠ partPhaseAdded →
             (∃ p, part_at ci o = Some p ∧ part_phase p ≠ partPhaseAdded) ∨ ends_value id ci (body ev) = true;
}.

Definition total_semantic (evs : list ResponsesSSEEvent) : Z := fold_right (λ ev n, semantic ev + n) 0 evs.

(** A message of one text part, streamed as the given deltas. *)
Fixpoint delta_events (id : string) (oi ci seq : Z) (ds : list string) : list ResponsesSSEEvent :=
  match ds with
  | [] => []
  | d :: ds => {| Sequence := seq; body := TextDelta id oi ci d |} :: delta_events id oi ci (seq + 1) ds
  end.

Definition message_stream (id : string) (oi ci : Z) (envelope : string → ResponseEnvelope) (ds : list string) : list ResponsesSSEEvent :=
  let n := Z.of_nat (length ds) in
  [{| Sequence := 0; body := Created (envelope "in_progress"%string) |};
   {| Sequence := 1; body := OutputItemAdded oi (ItemMessage id) |};
   {| Sequence := 2; body := ContentPartAdded id oi ci PartOutputText |}] ++
  delta_events id oi ci 3 ds ++
  [{| Sequence := 3 + n; body := TextDone id oi ci (fold_right String.append EmptyString ds) |};
   {| Sequence := 4 + n; body := ContentPartDone id oi ci PartOutputText |};
   {| Sequence := 5 + n; body := OutputItemDone oi (ItemMessage id) |};
   {| Sequence := 6 + n; body := Completed (envelope "completed"%string) |}].

(** A concrete stream. *)
Definition sample_envelope (st : string) : ResponseEnvelope :=
  {| env_ID := "resp"; env_Model := "model"; env_CreatedAt := 1%Qc; env_Status := st |}.
Definition sample_prefix : list ResponsesSSEEvent :=
  [{| Sequence := 0; body := Created (sample_envelope "in_progress") |};
   {| Sequence := 2; body := OutputItemAdded 1 (ItemMessage "item") |};
   {| Sequence := 3; body := ContentPartAdded "item" 1 0 PartOutputText |};
   {| Sequence := 4; body := TextDelta "item" 1 0 "he" |};
   {| Sequence := 5; body := TextDelta "item" 1 0 "llo" |}].
Definition sample_done : ResponsesSSEEvent := {| Sequence := 7; body := TextDone "item" 1 0 "hello" |}.
Definition sample_middle : list ResponsesSSEEvent :=
  [{| Sequence := 8; body := ContentPartDone "item" 1 0 PartOutputText |};
   {| Sequence := 9; body := OutputItemDone 1 (ItemMessage "item") |}].
Definition sample_last : ResponsesSSEEvent := {| Sequence := 10; body := Completed (sample_envelope "completed") |}.

Definition delta_bytes (ds : list string) : Z := fold_right (λ d n, bytes d + n) 0 ds.

(** The validator while such a message streams, after [n] deltas. *)
Definition streaming (id : string) (oi ci : Z) (env : ResponseEnvelope) (n sem : Z) (m : gmap Z string) : responsesStreamFSM :=
  {| budget := {| events := 3 + n; items_count := 1; parts_count := 1; toolCalls := 0; stateEntries := 2; semanticBytes := sem |};
     started := true; terminal := false; lastSeq := 2 + n; identity := identity_of env;
     items := {[ id := {| outputIndex := oi; item_kind := "message"; item_phase := itemPhaseAdded;
                          parts := {[ ci := {| part_kind := "output_text"; part_phase := partPhaseAdded |} ]};
                          calls := ∅; text := m; refusal := ∅; arguments := EmptyString; reasoning := reasoningNone |} ]};
     indexes := {[ oi := id ]} |}.

(** What the validator knows of an accepted stream. *)
Record trace_ok (evs : list ResponsesSSEEvent) (f : responsesStreamFSM) : Prop := {
  tr_started : started f = occurs is_created evs;
  tr_terminal : terminal f = occurs is_terminal evs;
  tr_last : ∀ ev, In ev evs → Sequence ev <= lastSeq f;
  tr_least : -1 <= lastSeq f;
  tr_identity : started f = true → ∃ ev env, In ev evs ∧ body ev = Created env ∧ identity f = identity_of env;
  tr_text : ∀ id ci, text_at ci (items f !! id) = joined_deltas (text_delta id ci) evs;
  tr_refusal : ∀ id ci, refusal_at ci (items f !! id) = joined_deltas (refusal_delta id ci) evs;
  tr_closed : ∀ id it, items f !! id = Some it → item_phase it = itemPhaseDone → closed it;
  tr_present : ∀ id, occurs (adds_item id) evs = true → items f !! id ≠ None;
  tr_index : ∀ oi, occurs (adds_index oi) evs = true → indexes f !! oi ≠ None;
  tr_done : ∀ id, done (items f !! id) → occurs (adds_item id) evs = true → occurs (ends_item id) evs = true;
  tr_part : ∀ id ci, occurs (adds_part id ci) evs = true → part_at ci (items f !! id) ≠ None;
  tr_value : ∀ id ci p, part_at ci (items f !! id) = Some p → part_phase p ≠ partPhaseAdded →
             occurs (ends_value id ci) evs = true;
  tr_budget : Forall (λ ev, semantic ev <= 2 ^ 62) evs →
    budget_ok (budget f) ∧ events (budget f) = Z.of_nat (length evs) ∧
    semanticBytes (budget f) = total_semantic evs;
}.

Record effect (ev : ResponsesSSEEvent) (f f' : responsesStreamFSM) : Prop := {
  ef_started : started f' = started f || is_created (body ev);
  ef_created : is_created (body ev) = true → started f = false;
  ef_terminal : terminal f' = terminal f || is_terminal (body ev);
  ef_lastSeq : lastSeq f' = lastSeq f;
  ef_identity : is_created (body ev) = false → identity f' = identity f;
  ef_created_id : ∀ env, body ev = Created env → identity f' = identity_of env;
  ef_terminal_id : ∀ env st, terminal_env (body ev) = Some (env, st) → identity_of env = identity f ∧ env_Status env = st;
  ef_others : ∀ id, target (body ev) ≠ Some id → items f' !! id = items f !! id;
  ef_item : ∀ id, target (body ev) = Some id → item_step id ev (items f !! id) (items f' !! id);
  ef_indexes : ∀ i, indexes f !! i ≠ None → indexes f' !! i ≠ None;
  ef_added : ∀ oi item, body ev = OutputItemAdded oi item → indexes f !! oi = None ∧ indexes f' !! oi ≠ None;
  ef_budget : budget_ok (budget f) → semantic ev <= 2 ^ 62 →
    budget_ok (budget f') ∧ events (budget f') = events (budget f) ∧
    semanticBytes (budget f') = semanticBytes (budget f) + semantic ev;
  ef_completed : ∀ env, body ev = Completed env → ∀ id it, items f !! id = Some it → item_phase it = itemPhaseDone;
  ef_text : ∀ id oi ci t, body ev = TextDone id oi ci t → text_at ci (items f !! id) = t;
  ef_refusal : ∀ id oi ci t, body ev = RefusalDone id oi ci t → refusal_at ci (items f !! id) = t;
}.

(** ** Lemmas: computations *)

Lemma bind_ok {A B} (m : FSM A) (k : A → FSM B) f b f' :
  bind m k f = (Ok b, f') ↔ ∃ a g, m f = (Ok a, g) ∧ k a g = (Ok b, f').
Proof.
  unfold bind. destruct (m f) as [[a|v] g]; split; [by eauto | by intros (? & ? & [= -> ->] & ?) | done | by intros (? & ? & ? & ?)].
Qed.

Lemma require_ok b v f u f' : require b v f = (Ok u, f') → b = true ∧ f' = f.
Proof. unfold require. destruct b; [|done]. by intros [= _ <-]. Qed.

Lemma charge_ok add f u f' : charge add f = (Ok u, f') → ∃ b, add (budget f) = Some b ∧ f' = with_budget b f.
Proof. unfold charge. destruct (add (budget f)) as [b|]; [|done]. intros [= _ <-]. eauto. Qed.

Lemma modify_ok g f u f' : modify g f = (Ok u, f') → f' = g f.
Proof. by intros [= _ <-]. Qed.

Lemma get_ok f g f' : get f = (Ok g, f') → g = f ∧ f' = f.
Proof. by intros [= <- <-]. Qed.

Lemma ret_ok {A} (a b : A) f f' : ret a f = (Ok b, f') → b = a ∧ f' = f.
Proof. by intros [= <- <-]. Qed.

Lemma fail_ok {A} v f (a : A) f' : fail v f = (Ok a, f') → False.
Proof. done. Qed.

(** Invert an accepted computation into its steps. *)
Ltac fsm_inv :=
  repeat match goal with
  | Hx : bind _ _ _ = (Ok _, _) |- _ => apply bind_ok in Hx as (? & ? & ? & ?)
  | Hx : require _ _ _ = (Ok _, _) |- _ => apply require_ok in Hx as [? ?]
  | Hx : charge _ _ = (Ok _, _) |- _ => apply charge_ok in Hx as (? & ? & ?)
  | Hx : update _ _ _ = (Ok _, _) |- _ => apply modify_ok in Hx
  | Hx : modify _ _ = (Ok _, _) |- _ => apply modify_ok in Hx
  | Hx : get _ = (Ok _, _) |- _ => apply get_ok in Hx as [? ?]
  | Hx : ret _ _ = (Ok _, _) |- _ => apply ret_ok in Hx as [? ?]
  | Hx : fail _ _ = (Ok _, _) |- _ => by apply fail_ok in Hx
  | Hx : bool_decide _ = true |- _ => apply bool_decide_eq_true_1 in Hx
  | Hx : (_ =? _) = true |- _ => apply Z.eqb_eq in Hx
  | Hx : negb _ = true |- _ => apply negb_true_iff in Hx
  end; subst.

Lemma messageItem_ok id oi f it f' :
  messageItem id oi f = (Ok it, f') →
  f' = f ∧ items f !! id = Some it ∧ outputIndex it = oi ∧ item_phase it ≠ itemPhaseDone.
Proof.
  unfold messageItem. intros Hx. apply bind_ok in Hx as (g & g' & [-> ->]%get_ok & Hx).
  destruct (items f !! id) as [it0|]; fsm_inv. done.
Qed.

Lemma partForDelta_ok id oi ci want f r f' :
  partForDelta id oi ci want f = (Ok r, f') →
  f' = f ∧ items f !! id = Some (fst r) ∧ outputIndex (fst r) = oi ∧ item_phase (fst r) ≠ itemPhaseDone ∧
  parts (fst r) !! ci = Some (snd r) ∧ part_kind (snd r) = want.
Proof.
  unfold partForDelta. intros Hx. apply bind_ok in Hx as (g & g' & [-> ->]%get_ok & Hx).
  apply bind_ok in Hx as (u & g2 & H1 & Hx).
  assert (g2 = f) as ->.
  { destruct (items f !! id) as [it|]; [destruct (negb _)|]; fsm_inv; done. }
  apply bind_ok in Hx as (it & g3 & Hm & Hx).
  destruct (messageItem id oi f) as [[it'|v] f1] eqn:Em; [|done]. injection Hm as -> ->.
  apply messageItem_ok in Em as (-> & Hi & Ho & Hp).
  destruct (parts it !! ci) as [p|] eqn:Ep; fsm_inv. done.
Qed.

Lemma functionCallItem_ok id oi f it f' :
  functionCallItem id oi f = (Ok it, f') →
  ∃ it0, items f !! id = Some it0 ∧ item_phase it0 ≠ itemPhaseDone ∧
    ((f' = f ∧ it = it0) ∨
     (it = set_call id callPhaseAdded it0 ∧
      ∃ b, addStateEntries 1 (budget f) = Some b ∧ f' = with_budget b (with_item id it f))).
Proof.
  unfold functionCallItem. intros Hx. apply bind_ok in Hx as (g & g' & [-> ->]%get_ok & Hx).
  destruct (items f !! id) as [it0|] eqn:Ei; [|done]. fsm_inv.
  match goal with Hx : match calls it0 !! id with _ => _ end _ = _ |- _ => destruct (calls it0 !! id) as [c|] end.
  - fsm_inv. eexists. split; [done|]. split; [done|]. by left.
  - fsm_inv. exists it0. split; [done|]. split; [done|]. right. simpl in *. eauto.
Qed.

Lemma reasoningItem_ok id oi f it f' :
  reasoningItem id oi f = (Ok it, f') →
  outputIndex it = oi ∧
  ((f' = f ∧ items f !! id = Some it) ∨
   (items f !! id = None ∧ (indexes f !! oi = None ∨ indexes f !! oi = Some id) ∧
    it = new_item oi "reasoning" itemPhaseDone ∧
    ∃ b1 b2, addItem (budget f) = Some b1 ∧ addStateEntries 1 b1 = Some b2 ∧
      f' = with_index oi id (with_item id it (with_budget b2 (with_budget b1 f))))).
Proof.
  unfold reasoningItem. intros Hx. apply bind_ok in Hx as (g & g' & [-> ->]%get_ok & Hx).
  apply bind_ok in Hx as (it1 & g & Hget & Hx). fsm_inv.
  split; [done|]. destruct (items f !! id) as [it0|] eqn:Ei; fsm_inv; [by left|].
  right. split; [done|].
  match goal with Hn : it1 = new_item _ _ _ |- _ => rewrite <- Hn end.
  destruct (indexes f !! _) as [prior|]; fsm_inv; simpl in *; split_and!; eauto 10.
Qed.

(** ** Lemmas: what an accepted event does *)

Lemma append_empty s : String.append s EmptyString = s.
Proof.
  induction s as [|c s IH]; [reflexivity|].
  change (String c (String.append s EmptyString) = String c s). by rewrite IH.
Qed.

Lemma append_assoc a b c : String.append a (String.append b c) = String.append (String.append a b) c.
Proof.
  induction a as [|x a IH]; [reflexivity|].
  change (String x (String.append a (String.append b c)) = String x (String.append (String.append a b) c)). by rewrite IH.
Qed.

Lemma target_plain b id :
  target b = Some id → is_created b = false ∧ is_terminal b = false ∧ is_error b = false ∧ terminal_env b = None.
Proof. by destruct b. Qed.

(** The common shape: one item changes. *)
Lemma effect_item ev f f' id it' :
  target (body ev) = Some id →
  started f' = started f → terminal f' = terminal f → lastSeq f' = lastSeq f → identity f' = identity f →
  items f' = <[id := it']> (items f) →
  (∀ i, indexes f !! i ≠ None → indexes f' !! i ≠ None) →
  (∀ oi item, body ev = OutputItemAdded oi item → indexes f !! oi = None ∧ indexes f' !! oi ≠ None) →
  item_step id ev (items f !! id) (Some it') →
  (budget_ok (budget f) → semantic ev <= 2 ^ 62 →
    budget_ok (budget f') ∧ events (budget f') = events (budget f) ∧
    semanticBytes (budget f') = semanticBytes (budget f) + semantic ev) →
  (∀ id oi ci t, body ev = TextDone id oi ci t → text_at ci (items f !! id) = t) →
  (∀ id oi ci t, body ev = RefusalDone id oi ci t → refusal_at ci (items f !! id) = t) →
  effect ev f f'.
Proof.
  intros Ht Hs Hte Hl Hid Hi Hix Hadd Hstep Hb Htx Hrf. pose proof (target_plain _ _ Ht) as (Hc & Htm & _ & Hte').
  constructor; rewrite ?Hc, ?Htm, ?Hte', ?orb_false_r; try done.
  - intros env Hb'. by rewrite Hb' in Hc.
  - intros id' Hne. rewrite Hi. apply lookup_insert_ne. congruence.
  - intros id' Ht'. assert (id' = id) as -> by congruence. rewrite Hi, lookup_insert_eq. done.
  - intros env Hb'. rewrite Hb' in Ht. done.
Qed.

(** An event that leaves every item's texts alone. *)
Lemma item_step_texts id ev it it' :
  (∀ ci, text_delta id ci ev = EmptyString ∧ refusal_delta id ci ev = EmptyString) →
  text it' = text it → refusal it' = refusal it →
  (item_phase it' = itemPhaseDone → item_phase it = itemPhaseDone ∧ (closed it → closed it') ∨
     closed it' ∧ ends_item id (body ev) = true) →
  adds_item id (body ev) = false →
  (∀ ci, parts it !! ci ≠ None ∨ adds_part id ci (body ev) = true → parts it' !! ci ≠ None) →
  (∀ ci p', parts it' !! ci = Some p' → part_phase p' ≠ partPhaseAdded →
     (∃ p, parts it !! ci = Some p ∧ part_phase p ≠ partPhaseAdded) ∨ ends_value id ci (body ev) = true) →
  item_step id ev (Some it) (Some it').
Proof.
  intros Hd Ht Hr Hp Ha Hpa Hv. constructor; try done.
  - intros ci. simpl. rewrite Ht. destruct (Hd ci) as [-> _]. by rewrite append_empty.
  - intros ci. simpl. rewrite Hr. destruct (Hd ci) as [_ ->]. by rewrite append_empty.
  - intros Hc it0 [= <-] Hph. destruct (Hp Hph) as [[Hp' Hcl]|[Hcl _]]; [|done]. apply Hcl. by apply Hc.
  - intros (it0 & [= <-] & Hph). destruct (Hp Hph) as [[Hp' _]|[_ He]]; [left; by exists it|by right; left].
  - by rewrite Ha.
Qed.

(** ... and its parts. *)
Lemma item_step_keep id ev it it' :
  (∀ ci, text_delta id ci ev = EmptyString ∧ refusal_delta id ci ev = EmptyString) →
  text it' = text it → refusal it' = refusal it → parts it' = parts it →
  (item_phase it' = itemPhaseDone → item_phase it = itemPhaseDone ∧ (closed it → closed it') ∨
     closed it' ∧ ends_item id (body ev) = true) →
  adds_item id (body ev) = false → (∀ ci, adds_part id ci (body ev) = false) →
  item_step id ev (Some it) (Some it').
Proof.
  intros Hd Ht Hr Hpt Hp Ha Hpa. apply item_step_texts; try done; rewrite Hpt.
  - intros ci [Hne|Hadd]; [done|]. by rewrite Hpa in Hadd.
  - eauto.
Qed.

(** An event that opens or advances one part of an open item. *)
Lemma item_step_part id ev it ci p :
  (∀ ci, text_delta id ci ev = EmptyString ∧ refusal_delta id ci ev = EmptyString) →
  item_phase it ≠ itemPhaseDone → adds_item id (body ev) = false →
  (∀ ci', adds_part id ci' (body ev) = true → ci' = ci) →
  part_phase p = partPhaseAdded ∨ ends_value id ci (body ev) = true ∨
    (∃ p0, parts it !! ci = Some p0 ∧ part_phase p0 ≠ partPhaseAdded) →
  item_step id ev (Some it) (Some (set_part ci p it)).
Proof.
  intros Hd Hph Ha Hpa Hv. apply item_step_texts; try done; simpl.
  - intros ci' Hc. destruct (decide (ci' = ci)) as [->|Hne]; [by rewrite lookup_insert_eq|].
    rewrite lookup_insert_ne by done. destruct Hc as [Hc|Hc]; [done|]. by apply Hpa in Hc.
  - intros ci' p' Hp' Hne. destruct (decide (ci' = ci)) as [->|Hcne].
    + rewrite lookup_insert_eq in Hp'. injection Hp' as <-. destruct Hv as [Hv|[Hv|Hv]]; [done|by right|by left].
    + rewrite lookup_insert_ne in Hp' by done. left. by exists p'.
Qed.

Lemma text_delta_self id ci ci' oi s seq :
  text_delta id ci' {| Sequence := seq; body := TextDelta id oi ci s |} = if bool_decide (ci = ci') then s else EmptyString.
Proof.
  unfold text_delta. simpl. case_bool_decide as H1; case_bool_decide as H2; try done; destruct H1; by auto.
Qed.

Lemma refusal_delta_self id ci ci' oi s seq :
  refusal_delta id ci' {| Sequence := seq; body := RefusalDelta id oi ci s |} = if bool_decide (ci = ci') then s else EmptyString.
Proof.
  unfold refusal_delta. simpl. case_bool_decide as H1; case_bool_decide as H2; try done; destruct H1; by auto.
Qed.


(** Discharge what a handler's charges do to the budget. *)
Ltac budget_tac :=
  simpl in *; intros Hbok Hsem; unfold semantic in Hsem; simpl in Hsem;
  repeat match goal with
  | Hc : addItem ?b = Some ?b', Hbk : budget_ok ?b |- _ => apply addItem_ok in Hc as (? & _ & ? & ?); [|exact Hbk]
  | Hc : addPart ?b = Some ?b', Hbk : budget_ok ?b |- _ => apply addPart_ok in Hc as (? & _ & ? & ?); [|exact Hbk]
  | Hc : addToolCall ?b = Some ?b', Hbk : budget_ok ?b |- _ => apply addToolCall_ok in Hc as (? & _ & ? & ?); [|exact Hbk]
  | Hc : addStateEntries 1 ?b = Some ?b', Hbk : budget_ok ?b |- _ =>
      apply addStateEntries_ok in Hc as (? & _ & ? & ?); [|exact Hbk]
  | Hc : addSemanticBytes ?n ?b = Some ?b', Hbk : budget_ok ?b |- _ =>
      apply addSemanticBytes_ok in Hc as (? & ? & _ & ?); [|exact Hbk|unfold bytes in *; lia]
  end;
  unfold semantic; simpl; split_and!; [assumption|lia|lia].

Section effects.
Context (seq : Z).
#[local] Abbreviation evt b := {| Sequence := seq; body := b |}.

Lemma itemDone_effect oi item f u f' :
  itemDone oi item f = (Ok u, f') → effect (evt (OutputItemDone oi item)) f f'.
Proof.
  unfold itemDone. intros Hx. apply bind_ok in Hx as (g & g' & [-> ->]%get_ok & Hx).
  destruct (items f !! responsesOutputItemID item) as [it|] eqn:Ei; fsm_inv.
  eapply effect_item; try done.
  - rewrite Ei. apply item_step_keep; try done. intros _. right. split; [by split|].
    unfold ends_item. simpl. by apply bool_decide_eq_true.
  - budget_tac.
Qed.

Lemma partAdded_effect id oi ci part f u f' :
  partAdded id oi ci part f = (Ok u, f') → effect (evt (ContentPartAdded id oi ci part)) f f'.
Proof.
  unfold partAdded. intros Hx. apply bind_ok in Hx as (it & g & (-> & Ei & Ho & Hp)%messageItem_ok & Hx). fsm_inv.
  eapply effect_item; try done.
  - rewrite Ei. apply item_step_part; try done; [|by left].
    intros ci'. simpl. intros [_ ?%Z.eqb_eq]%andb_true_iff. done.
  - budget_tac.
Qed.

Lemma partDone_effect id oi ci part f u f' :
  partDone id oi ci part f = (Ok u, f') → effect (evt (ContentPartDone id oi ci part)) f f'.
Proof.
  unfold partDone. intros Hx. apply bind_ok in Hx as (it & g & (-> & Ei & Ho & Hp)%messageItem_ok & Hx).
  destruct (parts it !! ci) as [p|] eqn:Ep; fsm_inv. eapply effect_item; try done.
  - rewrite Ei. apply item_step_part; try done. right; right. exists p. split; [done|]. congruence.
  - budget_tac.
Qed.

Lemma textDelta_effect id oi ci d f u f' :
  textDelta id oi ci d f = (Ok u, f') → effect (evt (TextDelta id oi ci d)) f f'.
Proof.
  unfold textDelta. intros Hx. apply bind_ok in Hx as ([it p] & g & (-> & Ei & Ho & Hp & Hpt & Hk)%partForDelta_ok & Hx).
  simpl in *. fsm_inv. eapply effect_item; try done.
  - rewrite Ei. constructor; try done.
    + intros ci'. rewrite text_delta_self. simpl. case_bool_decide as Hci.
      * subst ci'. by rewrite lookup_insert_eq.
      * rewrite lookup_insert_ne by done. by rewrite append_empty.
    + intros ci'. by rewrite append_empty.
    + intros _ it' [= <-] Hph. by simpl in Hph.
    + intros (it' & [= <-] & Hph). by simpl in Hph.
    + intros ci' [Hne|]; done.
    + intros ci' p' Hp' Hne. left. by exists p'.
  - budget_tac.
Qed.

Lemma refusalDelta_effect id oi ci d f u f' :
  refusalDelta id oi ci d f = (Ok u, f') → effect (evt (RefusalDelta id oi ci d)) f f'.
Proof.
  unfold refusalDelta. intros Hx. apply bind_ok in Hx as ([it p] & g & (-> & Ei & Ho & Hp & Hpt & Hk)%partForDelta_ok & Hx).
  simpl in *. fsm_inv. eapply effect_item; try done.
  - rewrite Ei. constructor; try done.
    + intros ci'. by rewrite append_empty.
    + intros ci'. rewrite refusal_delta_self. simpl. case_bool_decide as Hci.
      * subst ci'. by rewrite lookup_insert_eq.
      * rewrite lookup_insert_ne by done. by rewrite append_empty.
    + intros _ it' [= <-] Hph. by simpl in Hph.
    + intros (it' & [= <-] & Hph). by simpl in Hph.
    + intros ci' [Hne|]; done.
    + intros ci' p' Hp' Hne. left. by exists p'.
  - budget_tac.
Qed.

Lemma textDone_effect id oi ci t f u f' :
  textDone id oi ci t f = (Ok u, f') → effect (evt (TextDone id oi ci t)) f f'.
Proof.
  unfold textDone. intros Hx. apply bind_ok in Hx as ([it p] & g & (-> & Ei & Ho & Hp & Hpt & Hk)%partForDelta_ok & Hx).
  simpl in *. fsm_inv. eapply effect_item; try done.
  - rewrite Ei. apply item_step_part; try done. right; left. simpl. by rewrite bool_decide_eq_true_2, Z.eqb_refl.
  - budget_tac.
  - intros ? ? ? ? [= <- <- <- <-]. by rewrite Ei.
Qed.

Lemma refusalDone_effect id oi ci t f u f' :
  refusalDone id oi ci t f = (Ok u, f') → effect (evt (RefusalDone id oi ci t)) f f'.
Proof.
  unfold refusalDone. intros Hx. apply bind_ok in Hx as ([it p] & g & (-> & Ei & Ho & Hp & Hpt & Hk)%partForDelta_ok & Hx).
  simpl in *. fsm_inv. eapply effect_item; try done.
  - rewrite Ei. apply item_step_part; try done. right; left. simpl. by rewrite bool_decide_eq_true_2, Z.eqb_refl.
  - budget_tac.
  - intros ? ? ? ? [= <- <- <- <-]. by rewrite Ei.
Qed.

Lemma itemAdded_effect oi item f u f' :
  itemAdded oi item f = (Ok u, f') → effect (evt (OutputItemAdded oi item)) f f'.
Proof.
  unfold itemAdded. intros Hx. apply bind_ok in Hx as (g & g' & [-> ->]%get_ok & Hx).
  fsm_inv. destruct (bool_decide (itemTypeName item = _)); fsm_inv; (eapply effect_item; [reflexivity|reflexivity|reflexivity|reflexivity|reflexivity|reflexivity|..]); simpl; try done.
  1,5: intros i Hi; destruct (decide (i = oi)) as [->|]; [by rewrite lookup_insert_eq|by rewrite lookup_insert_ne].
  1,4: intros ? ? [= <- <-]; split; [done|by rewrite lookup_insert_eq].
  1,3: match goal with Hi : items _ !! _ = None |- _ => rewrite Hi end; constructor; try done;
       [intros _ it [= <-]; done | by intros (it & [= <-] & Hph) | by intros ci [?|?]].
  all: budget_tac.
Qed.

(** A call's bookkeeping entry does not show in the item's texts or phase. *)
Lemma call_effect id it0 it it' ev f f1 f' :
  items f !! id = Some it0 → item_phase it0 ≠ itemPhaseDone →
  (f1 = f ∧ it = it0 ∨
   it = set_call id callPhaseAdded it0 ∧
   ∃ b, addStateEntries 1 (budget f) = Some b ∧ f1 = with_budget b (with_item id it f)) →
  text it' = text it → refusal it' = refusal it → parts it' = parts it → item_phase it' = item_phase it →
  target (body ev) = Some id → adds_item id (body ev) = false → (∀ ci, adds_part id ci (body ev) = false) →
  (∀ ci, text_delta id ci ev = EmptyString ∧ refusal_delta id ci ev = EmptyString) →
  (∀ id oi ci t, body ev ≠ TextDone id oi ci t ∧ body ev ≠ RefusalDone id oi ci t) →
  started f' = started f1 → terminal f' = terminal f1 → lastSeq f' = lastSeq f1 → identity f' = identity f1 →
  items f' = <[id := it']> (items f1) → indexes f' = indexes f1 →
  (budget_ok (budget f1) → semantic ev <= 2 ^ 62 →
    budget_ok (budget f') ∧ events (budget f') = events (budget f1) ∧
    semanticBytes (budget f') = semanticBytes (budget f1) + semantic ev) →
  effect ev f f'.
Proof.
  intros Hi Hp Hcase Ht Hr Hpt Hph Htg Ha Hpa Hd Hn Hs Hte Hl Hid Hit Hix Hb.
  assert (Hf1 : started f1 = started f ∧ terminal f1 = terminal f ∧ lastSeq f1 = lastSeq f ∧
    identity f1 = identity f ∧ indexes f1 = indexes f ∧ parts it = parts it0 ∧
    <[id := it']> (items f1) = <[id := it']> (items f) ∧ text it = text it0 ∧ refusal it = refusal it0 ∧
    item_phase it = item_phase it0).
  { destruct Hcase as [[-> ->]|(-> & b & _ & ->)]; [done|]. simpl. by rewrite insert_insert_eq. }
  destruct Hf1 as (Hs1 & Ht1 & Hl1 & Hd1 & Hx1 & Hp1 & Hi1 & Htx & Hrf & Hph1).
  apply (effect_item ev f f' id it'); try congruence.
  - intros oi item Hbody. rewrite Hbody in *. simpl in *. injection Htg as Htg. rewrite Htg in Ha.
    by rewrite bool_decide_eq_true_2 in Ha.
  - rewrite Hi. apply item_step_keep; try done; try congruence.
  - intros Hok Hsem. destruct Hcase as [[-> ->]|(-> & b & Hb' & ->)]; [by apply Hb|].
    apply addStateEntries_ok in Hb' as (Hok' & _ & Hev & Hsm); [|done]. simpl in Hb.
    destruct (Hb Hok' Hsem) as (H1 & H2 & H3). rewrite H2, H3, Hev, Hsm. done.
  - intros ? ? ? ? Hbody. by destruct (Hn id0 oi ci t).
  - intros ? ? ? ? Hbody. by destruct (Hn id0 oi ci t).
Qed.

Lemma argumentsDelta_effect id oi d f u f' :
  argumentsDelta id oi d f = (Ok u, f') → effect (evt (ArgumentsDelta id oi d)) f f'.
Proof.
  unfold argumentsDelta. intros Hx.
  apply bind_ok in Hx as (it & f1 & (it0 & Hi & Hp & Hcase)%functionCallItem_ok & Hx). fsm_inv.
  eapply (call_effect id it0 it (set_arguments (String.append (arguments it) d) it)); [exact Hi|exact Hp|exact Hcase|..]; try reflexivity; try done. budget_tac.
Qed.

Lemma argumentsDone_effect id oi a f u f' :
  argumentsDone id oi f = (Ok u, f') → effect (evt (ArgumentsDone id oi a)) f f'.
Proof.
  unfold argumentsDone. intros Hx.
  apply bind_ok in Hx as (it & f1 & (it0 & Hi & Hp & Hcase)%functionCallItem_ok & Hx). fsm_inv.
  eapply (call_effect id it0 it (set_call id callPhaseArgumentsDone it)); [exact Hi|exact Hp|exact Hcase|..]; try reflexivity; try done. budget_tac.
Qed.

(** A reasoning item changes only its reasoning phase, or appears done. *)
Lemma reasoning_effect id oi it it' ev f f1 f' :
  reasoningItem id oi f = (Ok it, f1) →
  target (body ev) = Some id → adds_item id (body ev) = false → (∀ ci, adds_part id ci (body ev) = false) →
  text it' = text it → refusal it' = refusal it → parts it' = parts it → item_phase it' = item_phase it → (closed it → closed it') →
  (∀ ci, text_delta id ci ev = EmptyString ∧ refusal_delta id ci ev = EmptyString) →
  (∀ id oi ci t, body ev ≠ TextDone id oi ci t ∧ body ev ≠ RefusalDone id oi ci t) →
  started f' = started f1 → terminal f' = terminal f1 → lastSeq f' = lastSeq f1 → identity f' = identity f1 →
  items f' = <[id := it']> (items f1) → indexes f' = indexes f1 →
  (budget_ok (budget f1) → semantic ev <= 2 ^ 62 →
    budget_ok (budget f') ∧ events (budget f') = events (budget f1) ∧
    semanticBytes (budget f') = semanticBytes (budget f1) + semantic ev) →
  effect ev f f'.
Proof.
  intros (Ho & Hcase)%reasoningItem_ok Htg Ha Hpa Ht Hr Hpt Hph Hcl Hd Hn Hs Hte Hl Hid Hit Hix Hb.
  assert (Hadd : ∀ oi item, body ev = OutputItemAdded oi item → indexes f !! oi = None ∧ indexes f' !! oi ≠ None).
  { intros oi' item Hbody. rewrite Hbody in *. simpl in *. injection Htg as Htg. rewrite Htg in Ha.
    by rewrite bool_decide_eq_true_2 in Ha. }
  destruct Hcase as [(-> & Hi)|(Hi & Hidx & -> & b1 & b2 & Hb1 & Hb2 & ->)].
  - apply (effect_item ev f f' id it'); try congruence.
    + exact Hadd.
    + rewrite Hi. apply item_step_keep; try done. intros Hdone. left. rewrite <- Hph. done.
    + exact Hb.
    + intros i1 i2 i3 i4 Hbody. by destruct (Hn i1 i2 i3 i4).
    + intros i1 i2 i3 i4 Hbody. by destruct (Hn i1 i2 i3 i4).
  - simpl in *. apply (effect_item ev f f' id it'); try congruence.
    + by rewrite Hit, insert_insert_eq.
    + intros i Hne. rewrite Hix. destruct (decide (i = oi)) as [->|]; [by rewrite lookup_insert_eq|by rewrite lookup_insert_ne].
    + exact Hadd.
    + rewrite Hi. constructor; try done.
      * intros ci. destruct (Hd ci) as [-> _]. simpl. by rewrite Ht.
      * intros ci. destruct (Hd ci) as [_ ->]. simpl. by rewrite Hr.
      * intros _ it0 [= <-] _. apply Hcl. split; apply map_Forall_empty.
      * intros _. by right; right.
      * intros ci [Hne|Hadd']; [done|]. by rewrite Hpa in Hadd'.
      * intros ci p'. simpl. rewrite Hpt. by rewrite lookup_empty.
    + intros Hok Hsem. apply addItem_ok in Hb1 as (Hok1 & _ & He1 & Hs1); [|done].
      apply addStateEntries_ok in Hb2 as (Hok2 & _ & He2 & Hs2); [|done].
      destruct (Hb Hok2 Hsem) as (H1 & H2 & H3). rewrite H2, H3, He2, Hs2, He1, Hs1. done.
    + intros i1 i2 i3 i4 Hbody. by destruct (Hn i1 i2 i3 i4).
    + intros i1 i2 i3 i4 Hbody. by destruct (Hn i1 i2 i3 i4).
Qed.

Lemma reasoningAdded_effect id oi f u f' :
  reasoningAdded id oi f = (Ok u, f') → effect (evt (ReasoningPartAdded id oi)) f f'.
Proof.
  unfold reasoningAdded. intros Hx. apply bind_ok in Hx as (it & f1 & Hr & Hx). fsm_inv.
  eapply (reasoning_effect id oi it (set_reasoning reasoningPartAdded it)); [exact Hr|..]; try reflexivity; try done. budget_tac.
Qed.

Lemma reasoningTextDone_effect id oi f u f' :
  reasoningTextDone id oi f = (Ok u, f') → effect (evt (ReasoningTextDone id oi)) f f'.
Proof.
  unfold reasoningTextDone. intros Hx. apply bind_ok in Hx as (it & f1 & Hr & Hx). fsm_inv.
  eapply (reasoning_effect id oi it (set_reasoning reasoningValueDone it)); [exact Hr|..]; try reflexivity; try done. budget_tac.
Qed.

Lemma reasoningDone_effect id oi f u f' :
  reasoningDone id oi f = (Ok u, f') → effect (evt (ReasoningPartDone id oi)) f f'.
Proof.
  unfold reasoningDone. intros Hx. apply bind_ok in Hx as (it & f1 & Hr & Hx). fsm_inv.
  eapply (reasoning_effect id oi it (set_reasoning reasoningPartDone it)); [exact Hr|..]; try reflexivity; try done. budget_tac.
Qed.

Lemma reasoningDelta_effect id oi d f u f' :
  reasoningDelta id oi d f = (Ok u, f') → effect (evt (ReasoningTextDelta id oi d)) f f'.
Proof.
  unfold reasoningDelta. intros Hx. apply bind_ok in Hx as (it & f1 & Hr & Hx). fsm_inv.
  eapply (reasoning_effect id oi it it); [exact Hr|..]; try reflexivity; try done; simpl.
  - pose proof (reasoningItem_ok _ _ _ _ _ Hr) as (_ & [(-> & Hi)|(_ & _ & -> & ? & ? & _ & _ & ->)]); simpl.
    + by rewrite insert_id.
    + by rewrite insert_insert_eq.
  - budget_tac.
Qed.
End effects.

(** An event about no item. *)
Lemma plain_effect ev f f' :
  target (body ev) = None → items f' = items f → indexes f' = indexes f → budget f' = budget f →
  lastSeq f' = lastSeq f → (is_created (body ev) = false → identity f' = identity f) →
  (∀ env, body ev = Created env → identity f' = identity_of env) →
  (∀ env st, terminal_env (body ev) = Some (env, st) → identity_of env = identity f ∧ env_Status env = st) →
  started f' = started f || is_created (body ev) →
  (is_created (body ev) = true → started f = false) → terminal f' = terminal f || is_terminal (body ev) →
  (∀ env, body ev = Completed env → ∀ id it, items f !! id = Some it → item_phase it = itemPhaseDone) →
  effect ev f f'.
Proof.
  intros Htg Hi Hx Hb Hl Hidn Hcid Htid Hs Hc Ht Hco. constructor; try done.
  - intros id _. by rewrite Hi.
  - intros id Hid. congruence.
  - intros i. by rewrite Hx.
  - intros oi item Hbody. by rewrite Hbody in Htg.
  - intros Hok _. rewrite Hb. split; [done|]. split; [done|]. unfold semantic.
    destruct (body ev); try done; simpl in *; lia.
  - intros ? ? ? ? Hbody. by rewrite Hbody in Htg.
  - intros ? ? ? ? Hbody. by rewrite Hbody in Htg.
Qed.

Lemma terminal_effect ev env st f u f' :
  terminalEvent env st f = (Ok u, f') → terminal_env (body ev) = Some (env, st) → effect ev f f'.
Proof.
  unfold terminalEvent. intros Hx He. apply bind_ok in Hx as (g & g' & [-> ->]%get_ok & Hx). fsm_inv.
  assert (Hb : target (body ev) = None ∧ is_created (body ev) = false ∧ is_terminal (body ev) = true ∧
    (∀ e, body ev = Completed e → env_Status env = "completed"%string)) by (destruct (body ev); simplify_eq/=; split_and!; congruence).
  destruct Hb as (Htg & Hc & Ht & Hst).
  apply plain_effect; try done; rewrite ?Hc, ?Ht, ?orb_false_r, ?orb_true_r; try done.
  - intros e Hbody. by rewrite Hbody in Hc.
  - intros env' st' He'. by simplify_eq.
  - intros e Hcomp id it Hi. specialize (Hst _ Hcomp).
    match goal with Ho : _ || _ = true |- _ => apply orb_prop in Ho as [Ho|Ho] end.
    + by rewrite bool_decide_eq_true_2 in H2.
    + apply bool_decide_eq_true in H2. by apply (H2 id it).
Qed.

Lemma dispatch_effect ev f u f' : dispatch (body ev) f = (Ok u, f') → effect ev f f'.
Proof.
  destruct ev as [seq b]. simpl. destruct b; simpl; intros Hx.
  - unfold created in Hx. apply bind_ok in Hx as (g & g' & [-> ->]%get_ok & Hx). fsm_inv.
    apply plain_effect; try done; simpl; [by intros ? [= ->] | by rewrite orb_true_r | by rewrite orb_false_r].
  - apply ret_ok in Hx as [_ ->]. apply plain_effect; try done; simpl; by rewrite orb_false_r.
  - by eapply itemAdded_effect.
  - by eapply itemDone_effect.
  - by eapply partAdded_effect.
  - by eapply partDone_effect.
  - by eapply textDelta_effect.
  - by eapply textDone_effect.
  - by eapply refusalDelta_effect.
  - by eapply refusalDone_effect.
  - by eapply argumentsDelta_effect.
  - by eapply argumentsDone_effect.
  - by eapply reasoningAdded_effect.
  - by eapply reasoningDelta_effect.
  - by eapply reasoningTextDone_effect.
  - by eapply reasoningDone_effect.
  - by eapply terminal_effect.
  - by eapply terminal_effect.
  - by eapply terminal_effect.
  - apply ret_ok in Hx as [_ ->]. apply plain_effect; try done; simpl; by rewrite orb_false_r.
  - by apply fail_ok in Hx.
Qed.

Lemma ValidateEvent_ok ev f u f' :
  ValidateEvent ev f = (Ok u, f') →
  ∃ b, addEvent (budget f) = Some b ∧ terminal f = false ∧ lastSeq f < Sequence ev ∧
    (started f || is_created (body ev) || is_error (body ev)) = true ∧
    effect ev (with_lastSeq (Sequence ev) (with_budget b f)) f'.
Proof.
  unfold ValidateEvent. intros Hx.
  apply bind_ok in Hx as (u1 & f1 & (b & Hb & ->)%charge_ok & Hx).
  apply bind_ok in Hx as (g & g' & [-> ->]%get_ok & Hx).
  apply bind_ok in Hx as (u2 & f2 & [Ht%negb_true_iff ->]%require_ok & Hx).
  apply bind_ok in Hx as (u3 & f3 & [Hs%Z.ltb_lt ->]%require_ok & Hx).
  apply bind_ok in Hx as (u4 & f4 & ->%modify_ok & Hx).
  apply bind_ok in Hx as (u5 & f5 & [Hst ->]%require_ok & Hx).
  exists b. split_and!; try done. by eapply dispatch_effect.
Qed.

(** ** Lemmas: accepted streams *)

Lemma run_app l1 l2 f : run (l1 ++ l2) f = match run l1 f with Some f => run l2 f | None => None end.
Proof.
  revert f. induction l1 as [|ev l1 IH]; intros f; [done|]. simpl.
  destruct (ValidateEvent ev f) as [[u|v] f']; [apply IH|done].
Qed.

Lemma run_snoc l ev f0 f' :
  run (l ++ [ev]) f0 = Some f' → ∃ f u, run l f0 = Some f ∧ ValidateEvent ev f = (Ok u, f').
Proof.
  rewrite run_app. destruct (run l f0) as [f|]; [|done]. simpl.
  destruct (ValidateEvent ev f) as [[u|v] f2] eqn:E; [|done]. intros [= <-]. eauto.
Qed.

Lemma occurs_snoc t l ev : occurs t (l ++ [ev]) = occurs t l || t (body ev).
Proof. unfold occurs. rewrite existsb_app. simpl. by rewrite orb_false_r. Qed.

Lemma occurs_in t l : occurs t l = true ↔ ∃ ev, In ev l ∧ t (body ev) = true.
Proof. apply existsb_exists. Qed.

Lemma joined_snoc d l ev : joined_deltas d (l ++ [ev]) = String.append (joined_deltas d l) (d ev).
Proof.
  unfold joined_deltas. induction l as [|e l IH]; simpl.
  - by rewrite append_empty.
  - rewrite IH. by rewrite append_assoc.
Qed.

Lemma total_snoc l ev : total_semantic (l ++ [ev]) = total_semantic l + semantic ev.
Proof. unfold total_semantic. induction l as [|e l IH]; simpl; [lia|]. rewrite IH. lia. Qed.

Lemma trace_ok_nil : trace_ok [] newResponsesStreamFSM.
Proof. by constructor. Qed.

Lemma is_created_inv b : is_created b = true → ∃ env, b = Created env.
Proof. destruct b; try done. eauto. Qed.

Lemma adds_index_inv oi b : adds_index oi b = true → ∃ item, b = OutputItemAdded oi item.
Proof. destruct b; try done. simpl. intros ->%Z.eqb_eq. eauto. Qed.

(** An item the event is not about. *)
Lemma other_item id b :
  target b ≠ Some id → adds_item id b = false ∧ ends_item id b = false ∧
  (∀ ci, adds_part id ci b = false ∧ ends_value id ci b = false).
Proof.
  intros Ht. unfold adds_item, ends_item, adds_part, ends_value.
  destruct b; simpl in Ht; split_and!; intros; try split; try done; by rewrite bool_decide_eq_false_2 by congruence.
Qed.

Lemma other_deltas id ci ev :
  target (body ev) ≠ Some id → text_delta id ci ev = EmptyString ∧ refusal_delta id ci ev = EmptyString.
Proof.
  unfold text_delta, refusal_delta. intros Ht. destruct (body ev); split; try done; simpl in Ht;
    (rewrite bool_decide_eq_false_2; [done|]); intros [-> _]; done.
Qed.

Lemma effect_step ev f f' id : effect ev f f' → item_step id ev (items f !! id) (items f' !! id).
Proof.
  intros He. destruct (decide (target (body ev) = Some id)) as [Ht|Ht]; [by apply (ef_item _ _ _ He)|].
  rewrite (ef_others _ _ _ He id Ht). destruct (other_item _ _ Ht) as (Ha & Hen & Hp).
  pose proof (λ ci, other_deltas id ci ev Ht) as Hd. constructor; rewrite ?Ha.
  - intros [Hn|Hn]; [exact Hn|discriminate].
  - intros ci. destruct (Hd ci) as [-> _]. by rewrite append_empty.
  - intros ci. destruct (Hd ci) as [_ ->]. by rewrite append_empty.
  - done.
  - intros Hdone. by left.
  - done.
  - intros ci [Hn|Hn]; [exact Hn|]. destruct (Hp ci) as [Hf _]. congruence.
  - intros ci p Hpt Hne. left. by exists p.
Qed.

Lemma trace_ok_snoc l ev f u f' :
  trace_ok l f → ValidateEvent ev f = (Ok u, f') → trace_ok (l ++ [ev]) f'.
Proof.
  intros Ht (b & Hb & Hterm & Hseq & Hstart & He)%ValidateEvent_ok.
  pose proof (λ id, effect_step _ _ _ id He) as Hstep. simpl in Hstep.
  constructor.
  - rewrite (ef_started _ _ _ He), occurs_snoc. simpl. by rewrite (tr_started _ _ Ht).
  - rewrite (ef_terminal _ _ _ He), occurs_snoc. simpl. by rewrite (tr_terminal _ _ Ht).
  - rewrite (ef_lastSeq _ _ _ He). simpl. intros ev' [Hin|[<-|[]]]%in_app_or; [|lia].
    pose proof (tr_last _ _ Ht _ Hin). lia.
  - rewrite (ef_lastSeq _ _ _ He). simpl. pose proof (tr_least _ _ Ht). lia.
  - intros Hs. destruct (is_created (body ev)) eqn:Ec.
    + apply is_created_inv in Ec as [env Eb].
      exists ev, env. split_and!; [apply in_or_app; by right; left|done|by apply (ef_created_id _ _ _ He)].
    + rewrite (ef_started _ _ _ He), Ec, orb_false_r in Hs. rewrite (ef_identity _ _ _ He Ec).
      destruct (tr_identity _ _ Ht Hs) as (ev0 & env & Hin & Hb0 & Hi). exists ev0, env.
      split_and!; [apply in_or_app; by left|done|done].
  - intros id ci. by rewrite (is_text _ _ _ _ (Hstep id)), joined_snoc, (tr_text _ _ Ht).
  - intros id ci. by rewrite (is_refusal _ _ _ _ (Hstep id)), joined_snoc, (tr_refusal _ _ Ht).
  - intros id. apply (is_closed _ _ _ _ (Hstep id)). apply (tr_closed _ _ Ht).
  - intros id. rewrite occurs_snoc. intros [Ho|Ho]%orb_prop; apply (is_present _ _ _ _ (Hstep id)); [|by right].
    left. by apply (tr_present _ _ Ht).
  - intros oi. rewrite occurs_snoc. intros [Ho|Ho]%orb_prop.
    + apply (ef_indexes _ _ _ He). by apply (tr_index _ _ Ht).
    + apply adds_index_inv in Ho as [item Eb]. by apply (ef_added _ _ _ He) in Eb as [_ Hn].
  - intros id Hd. rewrite !occurs_snoc. intros Hadd.
    destruct (is_done _ _ _ _ (Hstep id) Hd) as [Hd'|[->|[Hn Ha]]].
    + rewrite (tr_done _ _ Ht id Hd'); [done|]. apply orb_prop in Hadd as [Ha|Ha]; [done|].
      destruct Hd' as (it & Hi & _). rewrite (is_added _ _ _ _ (Hstep id) Ha) in Hi. done.
    + by rewrite orb_true_r.
    + rewrite Ha, orb_false_r in Hadd. by apply (tr_present _ _ Ht) in Hadd.
  - intros id ci. rewrite occurs_snoc. intros [Ho|Ho]%orb_prop; apply (is_parts _ _ _ _ (Hstep id)); [left|by right].
    by apply (tr_part _ _ Ht).
  - intros id ci p Hp Hne. rewrite occurs_snoc.
    destruct (is_value _ _ _ _ (Hstep id) _ _ Hp Hne) as [(p0 & Hp0 & Hne0)| Hv]; [|by rewrite Hv, orb_true_r].
    by rewrite (tr_value _ _ Ht _ _ _ Hp0 Hne0).
  - intros [Hall Hs]%Forall_app. destruct (tr_budget _ _ Ht Hall) as (Hok & Hev & Hsem).
    destruct (addEvent_ok _ _ Hok Hb) as (Hok' & Hev' & Hsem' & _).
    destruct (ef_budget _ _ _ He) as (H1 & H2 & H3); [done|by inversion Hs|]. simpl in *.
    rewrite total_snoc, length_app. simpl. split; [done|]. lia.
Qed.

Lemma accepted_trace l f : accepted l f → trace_ok l f.
Proof.
  revert f. induction l as [|ev l IH] using rev_ind; intros f Hacc.
  - injection Hacc as <-. apply trace_ok_nil.
  - apply run_snoc in Hacc as (f0 & u & Hrun & Hv). eapply trace_ok_snoc; [by apply IH|exact Hv].
Qed.

(** The state an event of an accepted stream arrives in. *)
Lemma accepted_at l1 ev l2 f :
  accepted (l1 ++ ev :: l2) f → ∃ f1 u f2, trace_ok l1 f1 ∧ ValidateEvent ev f1 = (Ok u, f2).
Proof.
  unfold accepted. rewrite run_app. destruct (run l1 _) as [f1|] eqn:E1; [|done]. simpl.
  destruct (ValidateEvent ev f1) as [[u|v] f2] eqn:E2; [|done]. intros _.
  exists f1, u, f2. split; [by apply accepted_trace|done].
Qed.

Lemma not_true_false b : (b = true → False) → b = false.
Proof. destruct b; [intros H; by destruct H|done]. Qed.

(** *** A message that streams *)

Lemma bind_intro {A B} (m : FSM A) (k : A → FSM B) f a f' : m f = (Ok a, f') → bind m k f = k a f'.
Proof. unfold bind. by intros ->. Qed.

Lemma require_intro b v f : b = true → require b v f = (Ok tt, f).
Proof. by intros ->. Qed.

Lemma charge_intro add f b : add (budget f) = Some b → charge add f = (Ok tt, with_budget b f).
Proof. unfold charge. by intros ->. Qed.

Lemma messageItem_intro id oi f it :
  items f !! id = Some it → outputIndex it = oi → item_kind it = "message"%string → item_phase it = itemPhaseAdded →
  messageItem id oi f = (Ok it, f).
Proof.
  intros Hi <- Hk Hp. unfold messageItem, bind, get. rewrite Hi, Z.eqb_refl, Hk, Hp. done.
Qed.

Lemma partForDelta_intro id oi ci f it p :
  items f !! id = Some it → outputIndex it = oi → item_kind it = "message"%string → item_phase it = itemPhaseAdded →
  parts it !! ci = Some p → partForDelta id oi ci (part_kind p) f = (Ok (it, p), f).
Proof.
  intros Hi Ho Hk Hp Hpt. unfold partForDelta, bind, get.
  rewrite Hi, Ho, Z.eqb_refl. simpl. rewrite (messageItem_intro id oi f it) by done. rewrite Hpt.
  rewrite bool_decide_eq_true_2 by done. done.
Qed.

Lemma run_step ev evs f b f' :
  addEvent (budget f) = Some b → terminal f = false → lastSeq f < Sequence ev →
  started f || is_created (body ev) || is_error (body ev) = true →
  dispatch (body ev) (with_lastSeq (Sequence ev) (with_budget b f)) = (Ok tt, f') →
  run (ev :: evs) f = run evs f'.
Proof.
  intros Hb Ht Hs Hst Hd. simpl. unfold ValidateEvent.
  erewrite bind_intro by by apply charge_intro.
  erewrite bind_intro by reflexivity.
  erewrite bind_intro by (apply require_intro; simpl; by rewrite Ht).
  erewrite bind_intro by (apply require_intro; simpl; by apply Z.ltb_lt).
  erewrite bind_intro by reflexivity.
  erewrite bind_intro by by apply require_intro.
  by rewrite Hd.
Qed.

Lemma addEvent_intro b : 0 <= events b < maxStreamTotalEvents →
  addEvent b = Some {| events := events b + 1; items_count := items_count b; parts_count := parts_count b;
                       toolCalls := toolCalls b; stateEntries := stateEntries b; semanticBytes := semanticBytes b |}.
Proof.
  intros Hb. unfold addEvent, add64. budget_consts. destruct (Z.leb_spec (2 ^ 20) (events b)); [lia|].
  rewrite wrap64_id by (unfold in_int64, min_int64, max_int64; lia). done.
Qed.

Lemma addSemanticBytes_intro n b : 0 <= n → 0 <= semanticBytes b → semanticBytes b + n <= maxStreamTotalAccumulatedBytes →
  addSemanticBytes n b = Some {| events := events b; items_count := items_count b; parts_count := parts_count b;
                       toolCalls := toolCalls b; stateEntries := stateEntries b; semanticBytes := semanticBytes b + n |}.
Proof.
  intros Hn Hs Hb. unfold addSemanticBytes, add64. budget_consts.
  rewrite wrap64_id by (unfold in_int64, min_int64, max_int64; lia).
  destruct (Z.ltb_spec (4 * 2 ^ 20) (semanticBytes b + n)); [lia|done].
Qed.

Section message_stream.
Context (id : string) (oi ci : Z) (envelope : string → ResponseEnvelope).
Context (Hstatus : ∀ st, env_Status (envelope st) = st).
Context (Hident : ∀ st st', identity_of (envelope st) = identity_of (envelope st')).
#[local] Abbreviation env0 := (envelope "in_progress"%string).

Lemma streaming_opens evs :
  run ({| Sequence := 0; body := Created env0 |} ::
       {| Sequence := 1; body := OutputItemAdded oi (ItemMessage id) |} ::
       {| Sequence := 2; body := ContentPartAdded id oi ci PartOutputText |} :: evs) newResponsesStreamFSM =
  run evs (streaming id oi ci env0 0 0 ∅).
Proof.
  erewrite run_step; [|by apply addEvent_intro|done|done|done|].
  2: { simpl. unfold created. by erewrite bind_intro by reflexivity. }
  erewrite run_step; [|by apply addEvent_intro|done|done|done|].
  2: { simpl. unfold itemAdded. simpl. by repeat erewrite bind_intro by reflexivity. }
  erewrite run_step; [|by apply addEvent_intro|done|done|done|].
  2: { simpl. unfold partAdded.
       erewrite bind_intro by (apply messageItem_intro; [apply lookup_insert_eq|done..]).
       by repeat erewrite bind_intro by reflexivity. }
  unfold streaming, with_item. simpl. by rewrite insert_insert_eq.
Qed.

(** One delta, and all of them. *)
Lemma streaming_delta evs n sem m d :
  0 <= n → 0 <= sem → 3 + n < maxStreamTotalEvents → sem + bytes d <= maxStreamTotalAccumulatedBytes →
  run ({| Sequence := 3 + n; body := TextDelta id oi ci d |} :: evs) (streaming id oi ci env0 n sem m) =
  run evs (streaming id oi ci env0 (n + 1) (sem + bytes d)
             (<[ci := String.append (default EmptyString (m !! ci)) d]> m)).
Proof.
  intros Hn Hs Hev Hsem.
  erewrite run_step; [|apply addEvent_intro; simpl; lia|done|simpl; lia|done|].
  2: { simpl. unfold textDelta.
       erewrite bind_intro by
         (eapply (partForDelta_intro id oi ci _ _ {| part_kind := "output_text"; part_phase := partPhaseAdded |});
          [apply lookup_singleton_eq|done|done|done|apply lookup_singleton_eq]).
       cbv beta iota zeta. erewrite bind_intro by reflexivity.
       erewrite bind_intro by (apply charge_intro; apply addSemanticBytes_intro; simpl; unfold bytes in *; lia).
       reflexivity. }
  unfold streaming, with_item, with_budget, with_lastSeq. simpl. rewrite insert_singleton_eq. 
  replace (2 + (n + 1)) with (3 + n) by lia. by replace (3 + (n + 1)) with (3 + n + 1) by lia.
Qed.

Lemma streaming_deltas ds : ∀ evs n sem m,
  0 <= n → 0 <= sem → 3 + n + Z.of_nat (length ds) <= maxStreamTotalEvents →
  sem + delta_bytes ds <= maxStreamTotalAccumulatedBytes →
  ∃ m', run (delta_events id oi ci (3 + n) ds ++ evs) (streaming id oi ci env0 n sem m) =
          run evs (streaming id oi ci env0 (n + Z.of_nat (length ds)) (sem + delta_bytes ds) m') ∧
        default EmptyString (m' !! ci) =
          String.append (default EmptyString (m !! ci)) (fold_right String.append EmptyString ds).
Proof.
  induction ds as [|d ds IH]; intros evs n sem m Hn Hs Hev Hsem; cbn [delta_events app fold_right].
  - exists m. simpl. rewrite !Z.add_0_r, append_empty. done.
  - assert (Hpos : 0 <= delta_bytes ds) by (clear; induction ds; simpl; unfold bytes in *; lia).
    assert (Hb : delta_bytes (d :: ds) = bytes d + delta_bytes ds) by done.
    rewrite Hb in *. rewrite length_cons in *. rewrite streaming_delta by (unfold bytes in *; lia).
    destruct (IH evs (n + 1) (sem + bytes d) (<[ci := String.append (default EmptyString (m !! ci)) d]> m))
      as (m' & Hrun & Hm'); [lia|unfold bytes; lia|lia|lia|]. exists m'. split.
    + replace (3 + n + 1) with (3 + (n + 1)) by lia. rewrite Hrun. f_equal. f_equal; lia.
    + by rewrite Hm', lookup_insert_eq, append_assoc.
Qed.

Lemma streaming_closes n sem m t :
  0 <= n → 7 + n <= maxStreamTotalEvents → default EmptyString (m !! ci) = t →
  run [{| Sequence := 3 + n; body := TextDone id oi ci t |};
       {| Sequence := 4 + n; body := ContentPartDone id oi ci PartOutputText |};
       {| Sequence := 5 + n; body := OutputItemDone oi (ItemMessage id) |};
       {| Sequence := 6 + n; body := Completed (envelope "completed"%string) |}] (streaming id oi ci env0 n sem m) ≠ None.
Proof.
  intros Hn Hev Ht.
  erewrite run_step; [|apply addEvent_intro; simpl; lia|done|simpl; lia|done|].
  2: { simpl. unfold textDone.
       erewrite bind_intro by
         (eapply (partForDelta_intro id oi ci _ _ {| part_kind := "output_text"; part_phase := partPhaseAdded |});
          [apply lookup_singleton_eq|done|done|done|apply lookup_singleton_eq]).
       cbv beta iota zeta. erewrite bind_intro by reflexivity.
       erewrite bind_intro by (apply require_intro; by apply bool_decide_eq_true). reflexivity. }
  erewrite run_step; [|apply addEvent_intro; simpl; lia|done|simpl; lia|done|].
  2: { simpl. unfold partDone.
       erewrite bind_intro by (apply messageItem_intro; [apply lookup_insert_eq|done..]). simpl.
       rewrite lookup_insert_eq. by repeat erewrite bind_intro by reflexivity. }
  erewrite run_step; [|apply addEvent_intro; simpl; lia|done|simpl; lia|done|].
  2: { simpl. unfold itemDone. erewrite bind_intro by reflexivity. simpl. rewrite lookup_insert_eq. simpl.
       erewrite bind_intro by (apply require_intro; apply Z.eqb_refl).
       erewrite bind_intro by reflexivity. erewrite bind_intro by reflexivity.
       erewrite bind_intro by (apply require_intro, bool_decide_eq_true; simpl; rewrite !insert_insert_eq, insert_singleton_eq;
                               by apply map_Forall_singleton).
       erewrite bind_intro by reflexivity. reflexivity. }
  erewrite run_step; [|apply addEvent_intro; simpl; lia|done|simpl; lia|done|].
  2: { simpl. unfold terminalEvent. erewrite bind_intro by reflexivity. simpl.
       erewrite bind_intro by reflexivity.
       erewrite bind_intro by (apply require_intro, bool_decide_eq_true; apply (Hident "completed"%string)).
       erewrite bind_intro by (apply require_intro, bool_decide_eq_true; apply Hstatus).
       erewrite bind_intro by
         (apply require_intro, bool_decide_eq_true; simpl; rewrite !insert_insert_eq, insert_singleton_eq; by apply map_Forall_singleton).
       reflexivity. }
  done.
Qed.
End message_stream.

(** ** Properties *)

(** in a stream the validator accepts, every event carries a sequence number
    above those before it; [response.created] comes once and before everything
    but an error event; nothing follows a terminal event; and no item identifier
    and no output index is announced twice. *)
Theorem stream_lifecycle l1 ev l2 f :
  accepted (l1 ++ ev :: l2) f →
  0 <= Sequence ev ∧ Forall (λ e, Sequence e < Sequence ev) l1 ∧
  occurs is_terminal l1 = false ∧
  (if is_created (body ev) then occurs is_created l1 = false
   else occurs is_created l1 = true ∨ is_error (body ev) = true) ∧
  (∀ id, adds_item id (body ev) = true → occurs (adds_item id) l1 = false) ∧
  (∀ oi, adds_index oi (body ev) = true → occurs (adds_index oi) l1 = false).
Proof.
  intros (f1 & u & f2 & Ht & (b & _ & Hterm & Hseq & Hstart & He)%ValidateEvent_ok)%accepted_at.
  pose proof (tr_least _ _ Ht). split_and!.
  - lia.
  - apply List.Forall_forall. intros e Hin. pose proof (tr_last _ _ Ht _ Hin). lia.
  - by rewrite <- (tr_terminal _ _ Ht).
  - rewrite <- (tr_started _ _ Ht). destruct (is_created (body ev)) eqn:Ec; [by apply (ef_created _ _ _ He)|].
    rewrite orb_false_r in Hstart. by apply orb_prop in Hstart.
  - intros id Ha. apply not_true_false. intros Ho. apply (tr_present _ _ Ht) in Ho.
    by apply (is_added _ _ _ _ (effect_step _ _ _ id He)) in Ha.
  - intros oi Ha. apply not_true_false. intros Ho. apply (tr_index _ _ Ht) in Ho.
    apply adds_index_inv in Ha as [item Eb]. by apply (ef_added _ _ _ He) in Eb as [Hn _].
Qed.

Lemma stream_lifecycle_witness :
  ∃ f, accepted (sample_prefix ++ sample_done :: (sample_middle ++ [sample_last])) f ∧
    Forall (λ e, Sequence e < Sequence sample_done) sample_prefix ∧ occurs is_terminal sample_prefix = false.
Proof.
  eexists. split; [vm_compute; reflexivity|].
  edestruct (stream_lifecycle sample_prefix sample_done (sample_middle ++ [sample_last])) as (_ & H1 & H2 & _);
    [vm_compute; reflexivity|]. split; [exact H1|exact H2].
Defined.

(** a terminal event is accepted only with the response identity that
    [response.created] announced and the status its type names, and
    [response.completed] only when every announced item has been ended and the
    value of every announced part completed. *)
Theorem terminal_settles l ev f env st :
  accepted (l ++ [ev]) f → terminal_env (body ev) = Some (env, st) →
  env_Status env = st ∧
  (∃ e env0, In e l ∧ body e = Created env0 ∧ identity_of env = identity_of env0) ∧
  (st = "completed"%string →
   ∀ id, occurs (adds_item id) l = true →
     occurs (ends_item id) l = true ∧
     ∀ ci, occurs (adds_part id ci) l = true → occurs (ends_value id ci) l = true).
Proof.
  intros (f1 & u & f2 & Ht & (b & _ & Hterm & _ & Hstart & He)%ValidateEvent_ok)%accepted_at Henv.
  destruct (ef_terminal_id _ _ _ He _ _ Henv) as [Hid Hst]. split; [done|]. split.
  - assert (Hs : started f1 = true).
    { destruct (body ev); try done; simpl in Hstart; by rewrite !orb_false_r in Hstart. }
    destruct (tr_identity _ _ Ht Hs) as (e & env0 & Hin & Hb & Hi). exists e, env0. split_and!; [done|done|].
    simpl in Hid. congruence.
  - intros -> id Ha.
    assert (Hc : body ev = Completed env) by (destruct (body ev); naive_solver).
    destruct (items f1 !! id) as [it|] eqn:Ei; [|by apply (tr_present _ _ Ht) in Ha].
    pose proof (ef_completed _ _ _ He _ Hc id it Ei) as Hdone. split.
    + apply (tr_done _ _ Ht); [|done]. by exists it.
    + intros ci Hp. pose proof (tr_part _ _ Ht _ _ Hp) as Hpt. rewrite Ei in Hpt. simpl in Hpt.
      destruct (parts it !! ci) as [p|] eqn:Ep; [|done].
      apply (tr_value _ _ Ht id ci p); [by rewrite Ei|].
      destruct (tr_closed _ _ Ht id it Ei Hdone) as [Hcl _]. by apply (Hcl ci).
Qed.

Lemma terminal_settles_witness :
  ∃ f, accepted ((sample_prefix ++ sample_done :: sample_middle) ++ [sample_last]) f ∧
    occurs (ends_item "item") (sample_prefix ++ sample_done :: sample_middle) = true ∧
    occurs (ends_value "item" 0) (sample_prefix ++ sample_done :: sample_middle) = true.
Proof.
  eexists. split; [vm_compute; reflexivity|].
  edestruct (terminal_settles (sample_prefix ++ sample_done :: sample_middle) sample_last) as (_ & _ & H);
    [vm_compute; reflexivity|reflexivity|].
  destruct (H eq_refl "item"%string) as [H1 H2]; [reflexivity|]. split; [exact H1|]. apply H2. reflexivity.
Defined.

(** a done event's snapshot of a part is accepted only when it is the
    concatenation of the part's deltas in the stream, for texts and refusals. *)
Theorem snapshot_is_deltas l ev f id oi ci t :
  accepted (l ++ [ev]) f →
  (body ev = TextDone id oi ci t → t = joined_deltas (text_delta id ci) l) ∧
  (body ev = RefusalDone id oi ci t → t = joined_deltas (refusal_delta id ci) l).
Proof.
  intros (f1 & u & f2 & Ht & (b & _ & _ & _ & _ & He)%ValidateEvent_ok)%accepted_at. split; intros Hb.
  - rewrite <- (tr_text _ _ Ht). symmetry. by apply (ef_text _ _ _ He) in Hb.
  - rewrite <- (tr_refusal _ _ Ht). symmetry. by apply (ef_refusal _ _ _ He) in Hb.
Qed.

Lemma snapshot_is_deltas_witness :
  ∃ f, accepted (sample_prefix ++ [sample_done]) f ∧
    "hello"%string = joined_deltas (text_delta "item" 0) sample_prefix.
Proof.
  eexists. split; [vm_compute; reflexivity|].
  edestruct (snapshot_is_deltas sample_prefix sample_done) as [H _]; [vm_compute; reflexivity|].
  apply (H eq_refl).
Defined.

(** an accepted stream has at most [maxStreamTotalEvents] events and
    [maxStreamTotalAccumulatedBytes] bytes of deltas, so even its worst release
    stays under the cap on generated bytes. *)
Theorem stream_bounded l f :
  accepted l f → Forall (λ ev, semantic ev <= 2 ^ 62) l →
  Z.of_nat (length l) <= maxStreamTotalEvents ∧ total_semantic l <= maxStreamTotalAccumulatedBytes ∧
  6 * total_semantic l + Z.of_nat (length l) * maxStreamPerEventFramingBytes + DefaultGeneratedSSEBatchBytes
    < maxStreamGeneratedBytes.
Proof.
  intros Ht%accepted_trace Hs. destruct (tr_budget _ _ Ht Hs) as (Hok & Hev & Hsem).
  rewrite <- Hev, <- Hsem. destruct (ok_events _ Hok), (ok_semanticBytes _ Hok).
  split_and!; [done|done|]. by apply generated_cap_sufficient.
Qed.

Lemma stream_bounded_witness :
  ∃ f, accepted (sample_prefix ++ [sample_done]) f ∧
    total_semantic (sample_prefix ++ [sample_done]) <= maxStreamTotalAccumulatedBytes.
Proof.
  eexists. split; [vm_compute; reflexivity|].
  edestruct (stream_bounded (sample_prefix ++ [sample_done])) as (_ & H & _); [vm_compute; reflexivity| |exact H].
  repeat constructor; vm_compute; discriminate.
Defined.

(** the validator accepts a message streamed as any deltas, under any
    identifier and indexes, as long as the stream is within the event and byte
    budgets. *)
Theorem message_stream_accepted id oi ci envelope ds :
  (∀ st, env_Status (envelope st) = st) →
  (∀ st st', identity_of (envelope st) = identity_of (envelope st')) →
  7 + Z.of_nat (length ds) <= maxStreamTotalEvents → delta_bytes ds <= maxStreamTotalAccumulatedBytes →
  ∃ f, accepted (message_stream id oi ci envelope ds) f.
Proof.
  intros Hst Hid Hn Hs. unfold accepted, message_stream. cbn [app]. rewrite streaming_opens.
  destruct (streaming_deltas id oi ci envelope ds
    [{| Sequence := 3 + Z.of_nat (length ds); body := TextDone id oi ci (fold_right String.append EmptyString ds) |};
     {| Sequence := 4 + Z.of_nat (length ds); body := ContentPartDone id oi ci PartOutputText |};
     {| Sequence := 5 + Z.of_nat (length ds); body := OutputItemDone oi (ItemMessage id) |};
     {| Sequence := 6 + Z.of_nat (length ds); body := Completed (envelope "completed"%string) |}] 0 0 ∅)
    as (m' & Hrun & Hm'); [lia..|].
  change (3 + 0) with 3 in Hrun. rewrite Hrun, Z.add_0_l.
  pose proof (streaming_closes id oi ci envelope Hst Hid (Z.of_nat (length ds)) (0 + delta_bytes ds) m'
    (fold_right String.append EmptyString ds)) as Hc.
  destruct (run _ _) as [f|]; [by exists f|]. destruct Hc; [lia|lia| |done]. by rewrite Hm'.
Qed.

Lemma message_stream_accepted_witness :
  ∃ f, accepted (message_stream "item" 1 0 sample_envelope ["he"%string; "llo"%string]) f.
Proof.
  apply message_stream_accepted; [reflexivity|reflexivity|vm_compute; discriminate|vm_compute; discriminate].
Defined.
