(* ===== verification/Credentials.v ===== *)
(** * Upstream authentication and redaction ([internal/auth])

    [auth.go], [sources.go] and [reauth.go]: a policy's validation, what it does to
    a request, and the freezing of a policy at startup; [redact.go]: the headers
    that never cross a provider boundary and the query values that are never
    shown.  The process environment, the files and the dynamic source are read
    through [Surroundings]; a request is its header map and its marker. *)

From Stdlib Require Import ZArith Lia Bool List Ascii String.
From stdpp Require Import strings gmap.
From S2P Require Import Prelude GoStd GoStr GoHttp.

Open Scope Z_scope.

(** ** Policies *)

(** The [AuthMode] constants; [AuthOther] is any other string. *)
Inductive AuthMode :=
| AuthAuto
| AuthNone
| AuthBearer
| AuthXAPIKey
| AuthAPIKey
| AuthCustomHeader
| AuthOther (name : str).

#[export] Instance AuthMode_eq_dec : EqDecision AuthMode.
Proof. solve_decision. Defined.

(** The [SecretSource] implementations; a dynamic source is known by a number. *)
Inductive SecretSource :=
| staticSecretSource (value : str)
| envSecretSource (variable : str)
| fileSecretSource (path : str)
| dynamicSecretSource (id : nat).

Record AuthPolicy := {
  Mode : AuthMode;
  Secret : option SecretSource;
  CustomHeader : str;
  AnthropicVersion : str;
}.

Inductive AuthError :=
| ErrCustomHeaderEmpty
| ErrCustomHeaderInvalid (name : str)
| ErrModeUnresolved
| ErrUnknownMode (mode : AuthMode)
| ErrModeNeedsSecret (mode : AuthMode)
| ErrNoVersion
| ErrAutoNeedsHost
| ErrNoSource
| ErrSecretEmpty
| ErrEnvUnset (variable : str)
| ErrEnvEmpty (variable : str)
| ErrFileNoPath
| ErrFileRead (cause : str)
| ErrFileEmpty (path : str)
| ErrDynamic (cause : str)
| ErrUnsupportedMode (mode : AuthMode).

(** [validHeaderName]. *)
Definition validHeaderName (name : str) : bool :=
  if str_eqb name [] then false
  else forallb (λ c, is_lower c || is_upper c || is_digit c || ContainsByte c (lit "!#$%&'*+-.^_`|~")) name.

Definition Validate (p : AuthPolicy) : option AuthError :=
  let rest :=
    if negb (bool_decide (Mode p = AuthNone)) && bool_decide (Secret p = None)
    then Some (ErrModeNeedsSecret (Mode p))
    else if bool_decide (Mode p = AuthXAPIKey) && str_eqb (TrimSpace (AnthropicVersion p)) []
    then Some ErrNoVersion
    else None in
  match Mode p with
  | AuthNone | AuthBearer | AuthXAPIKey | AuthAPIKey => rest
  | AuthCustomHeader =>
      if str_eqb (CustomHeader p) [] then Some ErrCustomHeaderEmpty
      else if negb (validHeaderName (CustomHeader p)) then Some (ErrCustomHeaderInvalid (CustomHeader p))
      else rest
  | AuthAuto => Some ErrModeUnresolved
  | AuthOther _ => Some (ErrUnknownMode (Mode p))
  end.

(** ** Secret sources *)

Record Surroundings := {
  LookupEnv : str → option str;
  ReadFile : str → result str str;
  DynamicSecret : nat → result str str;
}.

(** [Secret] of each source. *)
Definition source_Secret (o : Surroundings) (s : SecretSource) : result AuthError str :=
  match s with
  | staticSecretSource v => Ok v
  | envSecretSource variable =>
      match LookupEnv o variable with
      | None => Err (ErrEnvUnset variable)
      | Some v => if str_eqb (TrimSpace v) [] then Err (ErrEnvEmpty variable) else Ok v
      end
  | fileSecretSource path =>
      if str_eqb path [] then Err ErrFileNoPath
      else match ReadFile o path with
           | Err e => Err (ErrFileRead e)
           | Ok raw => if str_eqb (TrimSpace raw) [] then Err (ErrFileEmpty path) else Ok (TrimSpace raw)
           end
  | dynamicSecretSource id =>
      match DynamicSecret o id with
      | Err e => Err (ErrDynamic e)
      | Ok v => Ok v
      end
  end.

Definition resolveSecret (o : Surroundings) (source : option SecretSource) : result AuthError str :=
  match source with
  | None => Err ErrNoSource
  | Some source =>
      secret <-? source_Secret o source;;
      if str_eqb (TrimSpace secret) [] then Err ErrSecretEmpty else Ok (TrimSpace secret)
  end.

(** [FreezeAuthPolicy] of a policy that is not nil. *)
Definition FreezeAuthPolicy (o : Surroundings) (p : AuthPolicy) : result AuthError AuthPolicy :=
  let withSecret s := {| Mode := Mode p; Secret := s; CustomHeader := CustomHeader p;
                         AnthropicVersion := AnthropicVersion p |} in
  if bool_decide (Mode p = AuthNone) then Ok (withSecret None)
  else
    secret <-? resolveSecret o (Secret p);;
    match Secret p with
    | Some (dynamicSecretSource _) => Ok p
    | _ => Ok (withSecret (Some (staticSecretSource secret)))
    end.

(** ** Headers that never cross a provider boundary *)

Definition credentialHeaderNames : list str :=
  map lit ["Authorization"; "Proxy-Authorization"; "X-Api-Key"; "Api-Key"; "X-Goog-Api-Key"]%string.

Definition protocolHeaderNames : list str := map lit ["Anthropic-Version"; "Anthropic-Beta"]%string.

Definition Contains (l : list str) (s : str) : bool := existsb (str_eqb s) l.

Definition isCloudSignaturePrefix (canonical : str) : bool :=
  HasPrefix canonical (lit "X-Amz-") || HasPrefix canonical (lit "X-Goog-").

Definition strippable (canonical : str) : bool :=
  if Contains credentialHeaderNames canonical then true
  else if Contains protocolHeaderNames canonical then true
  else isCloudSignaturePrefix canonical.

(** The range loop deletes each stored key whose canonical form is strippable. *)
Definition StripCredentials (h : Header) : Header :=
  foldr (λ name h, if strippable (CanonicalHeaderKey name) then delete name h else h) h (elements (dom h)).

(** ** Requests *)

Record Reauthentication := { re_Source : nat; re_Secret : str; re_Header : str; re_Scheme : str }.

Definition Reauthentication_Apply (r : Reauthentication) (h : Header) (secret : str) : Header :=
  header_Set (re_Header r) (re_Scheme r ++ secret) h.

Record Request := { req_Header : Header; req_Reauth : option Reauthentication }.

Definition AttachReauthentication (req : Request) (source : option SecretSource) (secret header scheme : str) : Request :=
  match source with
  | Some (dynamicSecretSource id) =>
      {| req_Header := req_Header req;
         req_Reauth := Some {| re_Source := id; re_Secret := secret; re_Header := header; re_Scheme := scheme |} |}
  | _ => req
  end.

(** The header a mode injects into, and the scheme before the secret. *)
Definition target_header (p : AuthPolicy) : option (str * str) :=
  match Mode p with
  | AuthBearer => Some (lit "Authorization", lit "Bearer ")
  | AuthXAPIKey => Some (lit "X-Api-Key", [])
  | AuthAPIKey => Some (lit "Api-Key", [])
  | AuthCustomHeader => Some (CustomHeader p, [])
  | _ => None
  end.

Definition ApplyUpstreamAuthentication (o : Surroundings) (req : Request) (p : AuthPolicy)
    : Request * option AuthError :=
  match Validate p with
  | Some e => (req, Some e)
  | None =>
      let stripped := {| req_Header := StripCredentials (req_Header req); req_Reauth := req_Reauth req |} in
      if bool_decide (Mode p = AuthNone) then (stripped, None)
      else
        match resolveSecret o (Secret p) with
        | Err e => (stripped, Some e)
        | Ok secret =>
            match target_header p with
            | None => (stripped, Some (ErrUnsupportedMode (Mode p)))
            | Some (header, scheme) =>
                let h := req_Header stripped in
                let h := if bool_decide (Mode p = AuthXAPIKey)
                         then header_Set (lit "Anthropic-Version") (AnthropicVersion p) h else h in
                let h := header_Set header (scheme ++ secret) h in
                (AttachReauthentication {| req_Header := h; req_Reauth := req_Reauth req |}
                   (Secret p) secret header scheme, None)
            end
        end
  end.

(** ** Host names and queries *)

(** A URL: its query and whatever else it holds. *)
Record URL (T : Type) := { RawQuery : str; url_rest : T }.
Arguments RawQuery {T} _.
Arguments url_rest {T} _.

Section text.
Context `{UnicodeTables}.

Definition DeriveMode (host : str) : AuthMode :=
  let h := ToLower (TrimSpace host) in
  if str_eqb h (lit "api.anthropic.com") || HasSuffix h (lit ".anthropic.com") then AuthXAPIKey else AuthBearer.

Definition ResolveMode (mode : AuthMode) (host : str) : result AuthError AuthMode :=
  if negb (bool_decide (mode = AuthAuto)) then Ok mode
  else if str_eqb host [] then Err ErrAutoNeedsHost
  else Ok (DeriveMode host).

(** ** Query values that are never shown *)

Definition sensitiveQueryParams : list str :=
  map lit ["access_token"; "api_key"; "apikey"; "key"; "sig"; "signature"; "token"]%string.

Definition placeholder : str := lit "%5BREDACTED%5D".

Definition is_delimiter (c : ascii) : bool := byte_eqb c "&" || byte_eqb c ";".

(** The scan: the pairs, and the delimiters between them. *)
Fixpoint split_query (raw : str) : list str * list ascii :=
  match raw with
  | [] => ([[]], [])
  | c :: raw =>
      let '(pairs, delims) := split_query raw in
      if is_delimiter c then ([] :: pairs, c :: delims)
      else match pairs with
           | p :: pairs => ((c :: p) :: pairs, delims)
           | [] => ([[c]], delims)
           end
  end.

Definition is_sensitive (rawKey : str) : bool :=
  let matchKey := match QueryUnescape rawKey with Some unescaped => unescaped | None => rawKey end in
  let matchKey := ToLower matchKey in
  Contains sensitiveQueryParams matchKey || HasSuffix matchKey (lit "signature").

Definition redact_pair (pair : str) : str :=
  match Cut "=" pair with
  | None => pair
  | Some (rawKey, _) => if is_sensitive rawKey then rawKey ++ lit "=" ++ placeholder else pair
  end.

Fixpoint join_query (pairs : list str) (delims : list ascii) : str :=
  match pairs, delims with
  | [], _ => []
  | [p], _ => p
  | p :: pairs, d :: delims => p ++ d :: join_query pairs delims
  | p :: pairs, [] => p ++ concat pairs
  end.

Definition redact_query (raw : str) : str :=
  if str_eqb raw [] then raw
  else let '(pairs, delims) := split_query raw in join_query (map redact_pair pairs) delims.

Definition RedactSensitiveURL {T} (u : option (URL T)) : option (URL T) :=
  match u with
  | None => None
  | Some u => if str_eqb (RawQuery u) [] then Some u
              else Some {| RawQuery := redact_query (RawQuery u); url_rest := url_rest u |}
  end.
End text.

(** ** Specification *)

(** The headers that stay behind, by name and without regard to case. *)
Definition boundary_header (name : str) : bool :=
  let n := map lower_ascii name in
  Contains (map lit ["authorization"; "proxy-authorization"; "x-api-key"; "api-key"; "x-goog-api-key";
                     "anthropic-version"; "anthropic-beta"]%string) n ||
  HasPrefix n (lit "x-amz-") || HasPrefix n (lit "x-goog-").

(** The header map a policy asks for, given the client's and the secret. *)
Definition authenticated (p : AuthPolicy) (header scheme secret : str) (h : Header) (k : str) : option (list str) :=
  if decide (k = CanonicalHeaderKey header) then Some [scheme ++ secret]
  else if decide (Mode p = AuthXAPIKey ∧ k = lit "Anthropic-Version") then Some [AnthropicVersion p]
  else if strippable (CanonicalHeaderKey k) then None
  else h !! k.

(** Two queries that differ at most in the values of sensitive parameters. *)
Definition same_but_secrets `{UnicodeTables} (raw raw' : str) : Prop :=
  snd (split_query raw) = snd (split_query raw') ∧
  Forall2 (λ p q, p = q ∨ ∃ k v v', p = k ++ lit "=" ++ v ∧ q = k ++ lit "=" ++ v' ∧
                                    ("="%char ∉ k) ∧ is_sensitive k = true)
    (fst (split_query raw)) (fst (split_query raw')).

(** ** Lemmas: headers *)

Lemma Contains_elem l s : Contains l s = true ↔ s ∈ l.
Proof.
  unfold Contains. rewrite existsb_exists. setoid_rewrite str_eqb_eq. setoid_rewrite <- list_elem_of_In.
  split; [by intros (x & ? & <-) | by exists s].
Qed.

Lemma Contains_map l s t :
  (∀ n, n ∈ l → s = n ↔ t = map lower_ascii n) → Contains l s = Contains (map (map lower_ascii) l) t.
Proof.
  intros H. apply eq_iff_eq_true. rewrite !Contains_elem. rewrite list_elem_of_fmap.
  split; [intros Hs; exists s; split; [by apply H|done] | intros (n & Ht & Hn)]. apply H in Ht; [by subst|done].
Qed.

Lemma StripCredentials_lookup h k :
  StripCredentials h !! k = if strippable (CanonicalHeaderKey k) then None else h !! k.
Proof.
  assert (Hl : ∀ l, foldr (λ name h, if strippable (CanonicalHeaderKey name) then delete name h else h) h l !! k =
    if bool_decide (k ∈ l) && strippable (CanonicalHeaderKey k) then None else h !! k).
  { induction l as [|n l IH]; [done|]. cbn [foldr].
    destruct (decide (k = n)) as [<-|Hn].
    - rewrite bool_decide_eq_true_2 by left. simpl. destruct (strippable (CanonicalHeaderKey k)) eqn:E.
      + apply lookup_delete_eq.
      + by rewrite andb_false_r in IH.
    - rewrite (bool_decide_ext (k ∈ n :: l) (k ∈ l)) by (rewrite elem_of_cons; tauto).
      destruct (strippable (CanonicalHeaderKey n)); [rewrite lookup_delete_ne by done|]; apply IH. }
  unfold StripCredentials. rewrite Hl. case_bool_decide as Hk; simpl; [done|].
  rewrite elem_of_elements, elem_of_dom in Hk. destruct (h !! k) eqn:E; [|by destruct (strippable _)].
  destruct Hk. by eexists.
Qed.

Lemma canonical_lower k : map lower_ascii (CanonicalHeaderKey k) = map lower_ascii k.
Proof. unfold CanonicalHeaderKey. destruct (forallb _ _); [apply lower_canon | done]. Qed.

Lemma HasPrefix_canonical k p :
  forallb is_tchar k = true → forallb is_tchar p = true → CanonicalHeaderKey p = p →
  byte_eqb (List.last p "x"%char) "-" = true →
  HasPrefix (CanonicalHeaderKey k) p = HasPrefix (map lower_ascii k) (map lower_ascii p).
Proof.
  intros Hk Hp Hc Hd. apply eq_iff_eq_true. rewrite !HasPrefix_app. split.
  - intros [r Hr]. exists (map lower_ascii r). by rewrite <- canonical_lower, Hr, map_app.
  - intros [r Hr]. unfold CanonicalHeaderKey in *. rewrite Hk. rewrite Hp in Hc. exists (canon true r).
    rewrite <- canon_lower, Hr. clear Hr Hk.
    assert (Happ : ∀ u, p ≠ [] → canon u (map lower_ascii p ++ r) = canon u p ++ canon true r).
    { clear Hc Hp. induction p as [|c p IH]; intros u Hne; [done|]. simpl.
      destruct (case_lower c) as (Hu & Hl & _). destruct (case_dash c) as [-> _].
      destruct p as [|d p].
      - simpl in *. rewrite Hd. by destruct u; rewrite ?Hu, ?Hl.
      - rewrite IH by done. by destruct u; rewrite ?Hu, ?Hl. }
    rewrite Happ; [by rewrite Hc|]. by intros ->.
Qed.

Lemma strippable_spec k : forallb is_tchar k = true → strippable (CanonicalHeaderKey k) = boundary_header k.
Proof.
  intros Hk. unfold strippable, boundary_header, isCloudSignaturePrefix.
  rewrite !(HasPrefix_canonical k) by (done || by vm_compute).
  assert (Hname : ∀ n, n ∈ credentialHeaderNames ++ protocolHeaderNames →
    CanonicalHeaderKey k = n ↔ map lower_ascii k = map lower_ascii n).
  { intros n Hn. assert (Hcn : CanonicalHeaderKey n = n ∧ forallb is_tchar n = true).
    { revert n Hn. apply Forall_forall. by repeat constructor. }
    destruct Hcn as [Hcn Htn]. split.
    - intros <-. by rewrite canonical_lower.
    - intros He. rewrite (canonical_any_case k n); done. }
  assert (Happ : ∀ l l' s, Contains (l ++ l') s = Contains l s || Contains l' s) by (intros; apply existsb_app).
  change (map lit _) with (map (map lower_ascii) (credentialHeaderNames ++ protocolHeaderNames)) at 1.
  rewrite <- (Contains_map _ _ _ Hname), Happ, <- orb_assoc.
  by destruct (Contains credentialHeaderNames _), (Contains protocolHeaderNames _).
Qed.

(** ** Lemmas: secrets *)

Lemma resolveSecret_trimmed o s secret :
  resolveSecret o s = Ok secret → secret ≠ [] ∧ TrimSpace secret = secret.
Proof.
  unfold resolveSecret. destruct s as [s|]; [|done]. destruct (source_Secret o s) as [v|]; [|done]. simpl.
  destruct (str_eqb (TrimSpace v) []) eqn:E; [done|]. intros [= <-]. split; [|apply TrimSpace_idem].
  intros Hv. rewrite Hv in E. done.
Qed.

Lemma Validate_target p : Validate p = None → Mode p ≠ AuthNone → ∃ h, target_header p = Some h.
Proof. unfold Validate, target_header. destruct (Mode p); try done; by eexists. Qed.

(** ** Lemmas: queries *)

Section query.
Context `{UnicodeTables}.

Lemma split_query_lengths raw ps ds : split_query raw = (ps, ds) → length ps = S (length ds).
Proof.
  revert ps ds. induction raw as [|c raw IH]; intros ps ds; simpl; [by intros [= <- <-]|].
  destruct (split_query raw) as [ps' ds']. specialize (IH _ _ eq_refl).
  destruct (is_delimiter c); [intros [= <- <-]; simpl; lia|].
  destruct ps' as [|p ps']; [done|]. by intros [= <- <-].
Qed.

Lemma split_query_clean raw ps ds :
  split_query raw = (ps, ds) →
  Forall (λ p, Forall (λ c, is_delimiter c = false) p) ps ∧ Forall (λ c, is_delimiter c = true) ds.
Proof.
  revert ps ds. induction raw as [|c raw IH]; intros ps ds; simpl; [intros [= <- <-]; by repeat constructor|].
  destruct (split_query raw) as [ps' ds']. destruct (IH _ _ eq_refl) as [Hp Hd].
  destruct (is_delimiter c) eqn:Ec; [intros [= <- <-]; by repeat constructor|].
  destruct ps' as [|p ps']; [intros [= <- <-]; by repeat constructor|].
  intros [= <- <-]. apply Forall_cons in Hp as [? ?]. by repeat constructor.
Qed.

Lemma split_query_plain p : Forall (λ c, is_delimiter c = false) p → split_query p = ([p], []).
Proof. induction 1 as [|c p Hc _ IH]; simpl; [done|]. by rewrite IH, Hc. Qed.

Lemma split_query_app p d r :
  Forall (λ c, is_delimiter c = false) p → is_delimiter d = true →
  split_query (p ++ (d :: r)) = (p :: fst (split_query r), d :: snd (split_query r)).
Proof.
  intros Hp Hd. induction Hp as [|c p Hc _ IH]; simpl.
  - rewrite Hd. by destruct (split_query r).
  - by rewrite IH, Hc.
Qed.

(** Joining is the inverse of the scan. *)
Lemma split_join ps ds :
  Forall (λ p, Forall (λ c, is_delimiter c = false) p) ps → Forall (λ c, is_delimiter c = true) ds →
  length ps = S (length ds) → split_query (join_query ps ds) = (ps, ds).
Proof.
  intros Hp. revert ds. induction Hp as [|p ps Hp1 Hp IH]; intros ds Hd Hl; [done|].
  destruct ds as [|d ds]; simpl in Hl.
  - destruct ps; [|done]. simpl. by apply split_query_plain.
  - destruct ps as [|q ps]; [done|]. apply Forall_cons in Hd as [Hd1 Hd].
    change (join_query (p :: q :: ps) (d :: ds)) with (p ++ d :: join_query (q :: ps) ds).
    rewrite split_query_app by done. by rewrite IH by (done || simpl in *; lia).
Qed.

Lemma join_split raw ps ds : split_query raw = (ps, ds) → join_query ps ds = raw.
Proof.
  revert ps ds. induction raw as [|c raw IH]; intros ps ds; simpl; [by intros [= <- <-]|].
  destruct (split_query raw) as [ps' ds'] eqn:E. specialize (IH _ _ eq_refl).
  pose proof (split_query_lengths _ _ _ E) as Hl. destruct ps' as [|p ps']; [done|].
  destruct (is_delimiter c); intros [= <- <-]; [simpl; simpl in IH; by rewrite IH|].
  rewrite <- IH. destruct ps' as [|q ps'], ds' as [|d ds']; done.
Qed.

Lemma redact_pair_clean p :
  Forall (λ c, is_delimiter c = false) p → Forall (λ c, is_delimiter c = false) (redact_pair p).
Proof.
  intros Hp. unfold redact_pair. destruct (Cut "=" p) as [[k v]|] eqn:E; [|done].
  destruct (is_sensitive k); [|done]. apply Cut_spec in E as [-> _]. apply Forall_app in Hp as [Hk _].
  apply Forall_app. split; [done|]. by repeat constructor.
Qed.

(** What is done to one pair. *)
Lemma redact_pair_spec p :
  (∃ k v, p = k ++ lit "=" ++ v ∧ ("="%char ∉ k) ∧ is_sensitive k = true ∧ redact_pair p = k ++ lit "=" ++ placeholder) ∨
  ((∀ k v, p = k ++ lit "=" ++ v → ("="%char ∉ k) → is_sensitive k = false) ∧ redact_pair p = p).
Proof.
  unfold redact_pair. destruct (Cut "=" p) as [[k v]|] eqn:E.
  - apply Cut_spec in E as E'. destruct E' as [-> Hk]. destruct (is_sensitive k) eqn:Es.
    + left. by exists k, v.
    + right. split; [|done]. intros k' v' He Hk'. rewrite He in E. simpl in E.
      rewrite (Cut_app "=" k' v' Hk') in E. by injection E as -> _.
  - right. split; [|done]. intros k v -> Hk. simpl in E. by rewrite (Cut_app "=" k v Hk) in E.
Qed.

Lemma redact_pair_idem p : redact_pair (redact_pair p) = redact_pair p.
Proof.
  destruct (redact_pair_spec p) as [(k & v & -> & Hk & Hs & ->)|[_ Hr]]; [|by rewrite !Hr].
  unfold redact_pair. simpl. rewrite Cut_app by done. by rewrite Hs.
Qed.

Lemma redact_split raw ps ds :
  split_query raw = (ps, ds) → split_query (redact_query raw) = (map redact_pair ps, ds).
Proof.
  intros E. unfold redact_query. destruct (str_eqb raw []) eqn:En.
  { apply str_eqb_eq in En as ->. by injection E as <- <-. }
  rewrite E. destruct (split_query_clean _ _ _ E) as [Hp Hd]. apply split_join; [|done|].
  - apply Forall_fmap. eapply Forall_impl; [exact Hp|]. intros p. apply redact_pair_clean.
  - rewrite length_map. by eapply split_query_lengths.
Qed.
End query.

(** ** Properties *)

(** [StripCredentials] removes a header exactly when its name, in any mixture
    of cases and however the map spells it, is one of the credential or protocol
    headers or of a cloud-signature family; every other header, cookies included,
    keeps its values. *)
Theorem strip_any_spelling h k :
  forallb is_tchar k = true → StripCredentials h !! k = if boundary_header k then None else h !! k.
Proof. intros Hk. by rewrite StripCredentials_lookup, strippable_spec. Qed.


(** Whatever fails, no credential of the client leaves: an error of the policy
    leaves the request as it was and unsent, and any later one leaves it without a
    single credential or protocol header. *)
Theorem apply_error o req req' p e k :
  ApplyUpstreamAuthentication o req p = (req', Some e) →
  (Validate p = Some e ∧ req' = req) ∨
  (Validate p = None ∧ resolveSecret o (Secret p) = Err e ∧ req_Reauth req' = req_Reauth req ∧
   (forallb is_tchar k = true → boundary_header k = true → req_Header req' !! k = None)).
Proof.
  unfold ApplyUpstreamAuthentication. destruct (Validate p) eqn:Ev.
  { intros [= <- ->]. by left. }
  case_bool_decide as Hm; [done|]. destruct (resolveSecret o (Secret p)) eqn:Es.
  - destruct (Validate_target p Ev Hm) as [[header scheme] ->]. done.
  - intros [= <- ->]. right. split_and!; try done. intros Hk Hb. simpl.
    by rewrite StripCredentials_lookup, strippable_spec, Hb.
Qed.

(** A frozen policy is pinned: whatever the environment or the file holds later,
    every request gets the credential resolved at startup, while a dynamic source
    stays live and a policy without authentication keeps none. *)
Theorem frozen_policy_pinned o o' p p' :
  FreezeAuthPolicy o p = Ok p' →
  Mode p' = Mode p ∧
  (if decide (Mode p = AuthNone) then Secret p' = None
   else ∃ secret, resolveSecret o (Secret p) = Ok secret ∧
     match Secret p with
     | Some (dynamicSecretSource _) => p' = p
     | _ => resolveSecret o' (Secret p') = Ok secret
     end).
Proof.
  unfold FreezeAuthPolicy. case_bool_decide as Hm; [intros [= <-]|].
  { split; [done|]. by rewrite decide_True. }
  rewrite decide_False by done. destruct (resolveSecret o (Secret p)) as [secret|] eqn:Es; [|done].
  destruct (resolveSecret_trimmed _ _ _ Es) as [Hne Htr].
  assert (Hstatic : resolveSecret o' (Some (staticSecretSource secret)) = Ok secret).
  { simpl. rewrite Htr. by rewrite str_eqb_neq. }
  simpl. destruct (Secret p) as [[v|v|v|id]|]; intros [= <-]; split; try done; exists secret; by split.
Qed.

Section redaction.
Context `{UnicodeTables}.

(** The redacted query is a function of what is not secret: two queries that
    differ only in the values of sensitive parameters are shown the same. *)
Theorem redaction_hides raw raw' : same_but_secrets raw raw' → redact_query raw = redact_query raw'.
Proof.
  intros [Hd Hp].
  assert (Hr : ∀ r, redact_query r = join_query (map redact_pair (fst (split_query r))) (snd (split_query r))).
  { intros r. unfold redact_query. destruct (str_eqb r []) eqn:E; [by apply str_eqb_eq in E as ->|].
    by destruct (split_query r). }
  rewrite !Hr, Hd. f_equal. induction Hp as [|p q ps qs Hpq _ IH]; [done|]. simpl. rewrite IH. f_equal.
  destruct Hpq as [->|(k & v & v' & -> & -> & Hk & Hs)]; [done|].
  unfold redact_pair. simpl. rewrite !Cut_app by done. by rewrite Hs.
Qed.

(** Redaction keeps the query's shape: the same delimiters in the same order
    around as many pairs, each pair either the sensitive key with the placeholder
    for its value or, when its key is not sensitive, the pair it was, byte for
    byte; redacting again changes nothing. *)
Theorem redaction_shape raw :
  split_query (redact_query raw) = (map redact_pair (fst (split_query raw)), snd (split_query raw)) ∧
  (∀ p, p ∈ fst (split_query raw) →
    (∃ k v, p = k ++ lit "=" ++ v ∧ ("="%char ∉ k) ∧ is_sensitive k = true ∧
            redact_pair p = k ++ lit "=" ++ placeholder) ∨
    ((∀ k v, p = k ++ lit "=" ++ v → ("="%char ∉ k) → is_sensitive k = false) ∧ redact_pair p = p)) ∧
  redact_query (redact_query raw) = redact_query raw.
Proof.
  destruct (split_query raw) as [ps ds] eqn:E. simpl. pose proof (redact_split _ _ _ E) as Hr.
  split; [done|]. split; [intros p _; apply redact_pair_spec|].
  pose proof (redact_split _ _ _ Hr) as Hr2. rewrite <- (join_split _ _ _ Hr2), <- (join_split _ _ _ Hr). f_equal.
  rewrite map_map. apply map_ext. intros p. apply redact_pair_idem.
Qed.
End redaction.

(** ** Witnesses *)

Definition demo_header : Header :=
  {[ lit "x-amz-date" := [lit "1"]; lit "Authorization" := [lit "Bearer client"]; lit "Cookie" := [lit "c=1"] ]}.

Definition demo_surroundings : Surroundings :=
  {| LookupEnv := λ _, Some (lit " key "); ReadFile := λ _, Err (lit "none"); DynamicSecret := λ _, Ok (lit "fresh") |}.

Definition later_surroundings : Surroundings :=
  {| LookupEnv := λ _, None; ReadFile := λ _, Err (lit "none"); DynamicSecret := λ _, Ok (lit "fresher") |}.

Definition demo_policy (s : SecretSource) : AuthPolicy :=
  {| Mode := AuthXAPIKey; Secret := Some s; CustomHeader := []; AnthropicVersion := lit "2023-06-01" |}.

Definition demo_request : Request := {| req_Header := demo_header; req_Reauth := None |}.

Definition demo_sent : Request :=
  fst (ApplyUpstreamAuthentication demo_surroundings demo_request (demo_policy (dynamicSecretSource 0))).

Lemma strip_any_spelling_witness :
  StripCredentials demo_header !! lit "x-amz-date" = None ∧
  StripCredentials demo_header !! lit "Cookie" = Some [lit "c=1"].
Proof.
  split.
  - rewrite (strip_any_spelling demo_header (lit "x-amz-date")) by by vm_compute. by vm_compute.
  - rewrite (strip_any_spelling demo_header (lit "Cookie")) by by vm_compute. by vm_compute.
Defined.


Lemma apply_error_witness :
  let req' := fst (ApplyUpstreamAuthentication later_surroundings demo_request (demo_policy (envSecretSource (lit "K")))) in
  (Validate (demo_policy (envSecretSource (lit "K"))) = Some (ErrEnvUnset (lit "K")) ∧ req' = demo_request) ∨
  (Validate (demo_policy (envSecretSource (lit "K"))) = None ∧
   resolveSecret later_surroundings (Some (envSecretSource (lit "K"))) = Err (ErrEnvUnset (lit "K")) ∧
   req_Reauth req' = None ∧
   (forallb is_tchar (lit "authorization") = true → boundary_header (lit "authorization") = true →
    req_Header req' !! lit "authorization" = None)).
Proof.
  apply (apply_error later_surroundings demo_request _ (demo_policy (envSecretSource (lit "K")))
    (ErrEnvUnset (lit "K")) (lit "authorization")). by vm_compute.
Defined.

Lemma frozen_policy_pinned_witness :
  ∃ p', FreezeAuthPolicy demo_surroundings (demo_policy (envSecretSource (lit "K"))) = Ok p' ∧
    resolveSecret later_surroundings (Secret p') = Ok (lit "key").
Proof.
  exists (demo_policy (staticSecretSource (lit "key"))). split; [by vm_compute|].
  destruct (frozen_policy_pinned demo_surroundings later_surroundings (demo_policy (envSecretSource (lit "K")))
    (demo_policy (staticSecretSource (lit "key")))) as (_ & secret & Hs & H); [by vm_compute|].
  assert (He : Ok secret = (Ok (lit "key") : result AuthError str)) by (rewrite <- Hs; by vm_compute).
  injection He as ->. exact H.
Defined.

Lemma redaction_hides_witness :
  redact_query (lit "a=1&Key=secret;b") = redact_query (lit "a=1&Key=other=x;b").
Proof.
  apply (redaction_hides (lit "a=1&Key=secret;b") (lit "a=1&Key=other=x;b")). split; [done|].
  constructor; [by left|]. constructor; [|constructor; [by left | constructor]].
  right. exists (lit "Key"), (lit "secret"), (lit "other=x"). repeat split; try by vm_compute.
  apply (bool_decide_unpack _). by vm_compute.
Defined.
