(* ===== verification/ExecSource.v ===== *)
(** * The command-backed credential source ([internal/auth/execsource.go])

    [ExecSecretSource] is the struct; what its methods do between taking and
    releasing [mu] is one function of the record and of the clock reading, and
    [World] runs any number of callers, refusals and command executions against
    one source, one critical section per step.  The command itself is observed:
    how [cmd.Run] ended and the writes its output arrived in. *)

From Stdlib Require Import ZArith Lia Bool List Ascii String Sorted.
From stdpp Require Import strings.
From S2P Require Import Prelude GoStd GoStr.

Open Scope Z_scope.

(** ** Constants *)

Definition execOutputLimit : Z := Z.shiftl 64 10.
Definition execRefreshAheadCap : Duration := 5 * Minute.
Definition execBackoffMin : Duration := Second.
Definition execBackoffMax : Duration := Minute.
Definition execInvalidateInterval : Duration := 5 * Second.
Definition execInvalidateIntervalMax : Duration := 5 * Minute.

(** ** Errors

    Everything [Secret] and [Reacquire] can return; the texts are classes only. *)
Inductive ExecError :=
| ErrCommandEmpty
| ErrArgumentEmpty (i : nat)
| ErrRelativeCommand (command : str)
| ErrTTL (ttl : Duration)
| ErrTimeout (timeout : Duration)
| ErrTimedOut (timeout : Duration)
| ErrExitStatus (status : Z)
| ErrSignal
| ErrStart (cause : str)
| ErrLineTooLong
| ErrNoOutput
| ErrControlCharacters
| ErrContext.

(** ** Captured output *)

Record cappedBuffer := { buf : str; limit : Z; truncated : bool }.

Definition cappedBuffer_Write (b : cappedBuffer) (p : str) : cappedBuffer * Z :=
  let room := limit b - Z.of_nat (length (buf b)) in
  let b' :=
    if 0 <? room then
      if room <? Z.of_nat (length p)
      then {| buf := buf b ++ take (Z.to_nat room) p; limit := limit b; truncated := true |}
      else {| buf := buf b ++ p; limit := limit b; truncated := truncated b |}
    else if 0 <? Z.of_nat (length p)
    then {| buf := buf b; limit := limit b; truncated := true |}
    else b in
  (b', Z.of_nat (length p)).

(** What the child's writes leave in the buffer. *)
Definition writes (b : cappedBuffer) (ps : list str) : cappedBuffer :=
  fold_left (λ b p, fst (cappedBuffer_Write b p)) ps b.

Definition newline : ascii := "010"%char.

Definition is_control (c : ascii) : bool := (code c <? 32) || (code c =? 127).

Definition firstLineCredential (out : cappedBuffer) : result ExecError str :=
  let '(line, found) :=
    match Cut newline (buf out) with
    | Some (line, _) => (line, true)
    | None => (buf out, false)
    end in
  if negb found && truncated out then Err ErrLineTooLong
  else
    let value := TrimSpace line in
    match value with
    | [] => Err ErrNoOutput
    | _ => if existsb is_control value then Err ErrControlCharacters else Ok value
    end.

(** ** [execute]

    How [cmd.Run] came back. *)
Inductive runOutcome :=
| RunNil
| RunExit (exitCode : Z)
| RunWaitDelay
| RunOther (cause : str).

Definition execute (timeout : Duration) (deadlineExceeded : bool) (err : runOutcome) (output : list str)
    : result ExecError str :=
  let out := writes {| buf := []; limit := execOutputLimit; truncated := false |} output in
  if deadlineExceeded then Err (ErrTimedOut timeout)
  else
    match err with
    | RunExit code => if 0 <=? code then Err (ErrExitStatus code) else Err ErrSignal
    | RunOther cause => Err (ErrStart cause)
    | RunNil | RunWaitDelay => firstLineCredential out
    end.

(** ** [execBackoff]

    The loop runs while the delay is below the maximum, so at most six times. *)
Fixpoint backoff_loop (fuel : nat) (i failures : Z) (d : Duration) : Duration :=
  match fuel with
  | O => d
  | S fuel =>
      if (i <? failures) && (d <? execBackoffMax)
      then backoff_loop fuel (i + 1) failures (mul64 d 2)
      else d
  end.

Definition execBackoff (failures : Z) : Duration :=
  Z.min (backoff_loop 7 1 failures execBackoffMin) execBackoffMax.

(** ** The source *)

Record execRun := { run_id : nat; forced : bool }.

Record ExecSecretSource := {
  argv : list str;
  ttl : Duration;
  timeout : Duration;
  value : str;
  expires : Time;
  refreshAt : Time;
  lastForced : Time;
  forcedSpacing : Duration;
  forcedValue : str;
  refused : str;
  retryAt : Time;
  failures : Z;
  lastErr : option ExecError;
  inflight : option execRun;
}.

Definition setInflight (r : option execRun) (s : ExecSecretSource) : ExecSecretSource :=
  {| argv := argv s; ttl := ttl s; timeout := timeout s; value := value s; expires := expires s;
     refreshAt := refreshAt s; lastForced := lastForced s; forcedSpacing := forcedSpacing s;
     forcedValue := forcedValue s; refused := refused s; retryAt := retryAt s; failures := failures s;
     lastErr := lastErr s; inflight := r |}.

Definition setLastForced (t : Time) (s : ExecSecretSource) : ExecSecretSource :=
  {| argv := argv s; ttl := ttl s; timeout := timeout s; value := value s; expires := expires s;
     refreshAt := refreshAt s; lastForced := t; forcedSpacing := forcedSpacing s;
     forcedValue := forcedValue s; refused := refused s; retryAt := retryAt s; failures := failures s;
     lastErr := lastErr s; inflight := inflight s |}.

Definition setForcedSpacing (d : Duration) (s : ExecSecretSource) : ExecSecretSource :=
  {| argv := argv s; ttl := ttl s; timeout := timeout s; value := value s; expires := expires s;
     refreshAt := refreshAt s; lastForced := lastForced s; forcedSpacing := d;
     forcedValue := forcedValue s; refused := refused s; retryAt := retryAt s; failures := failures s;
     lastErr := lastErr s; inflight := inflight s |}.

Definition setRefused (v : str) (s : ExecSecretSource) : ExecSecretSource :=
  {| argv := argv s; ttl := ttl s; timeout := timeout s; value := value s; expires := expires s;
     refreshAt := refreshAt s; lastForced := lastForced s; forcedSpacing := forcedSpacing s;
     forcedValue := forcedValue s; refused := v; retryAt := retryAt s; failures := failures s;
     lastErr := lastErr s; inflight := inflight s |}.

(** [filepath.IsAbs] and [filepath.Base] where the separator is a slash. *)
Definition filepath_IsAbs (p : str) : bool := HasPrefix p (lit "/").

Definition filepath_Base (p : str) : str :=
  match p with
  | [] => lit "."
  | _ =>
      match List.find (λ seg, negb (str_eqb seg [])) (rev (Split "/" p)) with
      | Some seg => seg
      | None => lit "/"
      end
  end.

(** The index of the first empty argument. *)
Fixpoint empty_argument (i : nat) (args : list str) : option nat :=
  match args with
  | [] => None
  | [] :: _ => Some i
  | _ :: args => empty_argument (S i) args
  end.

Definition NewExecSecretSource (args : list str) (ttl timeout : Duration) : result ExecError ExecSecretSource :=
  match args with
  | [] => Err ErrCommandEmpty
  | command :: _ =>
      match empty_argument 0 args with
      | Some i => Err (ErrArgumentEmpty i)
      | None =>
          if negb (filepath_IsAbs command) && negb (str_eqb (filepath_Base command) command)
          then Err (ErrRelativeCommand command)
          else if ttl <=? 0 then Err (ErrTTL ttl)
          else if timeout <=? 0 then Err (ErrTimeout timeout)
          else Ok {| argv := args; ttl := ttl; timeout := timeout; value := []; expires := 0;
                     refreshAt := 0; lastForced := 0; forcedSpacing := 0; forcedValue := [];
                     refused := []; retryAt := 0; failures := 0; lastErr := None; inflight := None |}
      end
  end.

(** [startLocked]: join the run in flight or start one, under the identifier
    [fresh]; [None] while a failure backoff is in effect. *)
Definition startLocked (now : Time) (force : bool) (fresh : nat) (s : ExecSecretSource)
    : ExecSecretSource * option nat :=
  match inflight s with
  | Some run =>
      if force && negb (forced run)
      then (setLastForced now (setInflight (Some {| run_id := run_id run; forced := true |}) s), Some (run_id run))
      else (s, Some (run_id run))
  | None =>
      if time_Before now (retryAt s) then (s, None)
      else
        let s := if force then setLastForced now s else s in
        (setInflight (Some {| run_id := fresh; forced := force |}) s, Some fresh)
  end.

(** What a caller has after its critical section: an answer, as Go's
    [(string, error)], or a run to wait for. *)
Inductive answer :=
| Return (v : str) (err : option ExecError)
| Wait (run : nat).

Definition is_refused (s : ExecSecretSource) : bool :=
  negb (str_eqb (value s) []) && str_eqb (value s) (refused s).

Definition Secret_enter (now : Time) (fresh : nat) (s : ExecSecretSource) : ExecSecretSource * answer :=
  let refused := is_refused s in
  if negb (str_eqb (value s) []) && time_Before now (expires s) && negb refused then
    let s' := if negb (time_Before now (refreshAt s)) then fst (startLocked now false fresh s) else s in
    (s', Return (value s') None)
  else
    match startLocked now refused fresh s with
    | (s', None) =>
        if negb (str_eqb (value s') []) then (s', Return (value s') None)
        else (s', Return [] (lastErr s'))
    | (s', Some run) => (s', Wait run)
    end.

(** The tail of [Secret] and of [Reacquire], once [run.done] is closed. *)
Definition Secret_exit (s : ExecSecretSource) : str * option ExecError :=
  if negb (str_eqb (value s) []) then (value s, None) else ([], lastErr s).

Definition Invalidate (now : Time) (fresh : nat) (rejected : str) (s : ExecSecretSource) : ExecSecretSource :=
  if str_eqb rejected [] || negb (str_eqb rejected (value s)) then s
  else if str_eqb rejected (refused s) then fst (startLocked now true fresh s)
  else if match inflight s with Some run => forced run | None => false end then s
  else
    let repeat := str_eqb rejected (forcedValue s) in
    let spacing :=
      if repeat
      then Z.min (mul64 2 (Z.max (forcedSpacing s) execInvalidateInterval)) execInvalidateIntervalMax
      else execInvalidateInterval in
    if negb (time_IsZero (lastForced s)) && (time_Sub now (lastForced s) <? spacing) then s
    else
      let s := if negb repeat then setForcedSpacing spacing (setRefused rejected s) else s in
      match startLocked now true fresh s with
      | (s, Some _) => if repeat then setForcedSpacing spacing s else s
      | (s, None) => s
      end.

Definition Reacquire_enter (rejected : str) (s : ExecSecretSource) : answer :=
  match inflight s with
  | Some run =>
      if negb (str_eqb rejected (value s))
      then if str_eqb (value s) [] then Return [] (lastErr s) else Return (value s) None
      else Wait (run_id run)
  | None => if str_eqb (value s) [] then Return [] (lastErr s) else Return (value s) None
  end.

(** The critical section of [refresh]: [started] and [now] are its two clock
    readings, [wasForced] the flag of the run.  [failures] is unbounded: failed
    runs are at least a second apart. *)
Definition refresh (started now : Time) (wasForced : bool) (r : result ExecError str) (s : ExecSecretSource)
    : ExecSecretSource :=
  match r with
  | Err err =>
      let n := failures s + 1 in
      {| argv := argv s; ttl := ttl s; timeout := timeout s; value := value s; expires := expires s;
         refreshAt := refreshAt s; lastForced := lastForced s; forcedSpacing := forcedSpacing s;
         forcedValue := forcedValue s; refused := refused s; retryAt := time_Add now (execBackoff n);
         failures := n; lastErr := Some err; inflight := None |}
  | Ok v =>
      let ahead := Z.min (div64 (ttl s) 5) execRefreshAheadCap in
      {| argv := argv s; ttl := ttl s; timeout := timeout s; value := v;
         expires := time_Add started (ttl s);
         refreshAt := time_Add (time_Add started (ttl s)) (- ahead);
         lastForced := lastForced s; forcedSpacing := forcedSpacing s;
         forcedValue := if wasForced then v else []; refused := []; retryAt := 0;
         failures := 0; lastErr := None; inflight := None |}
  end.

(** ** Runs of callers and executions against one source

    The goroutine of a run: it reads the clock, executes the command, updates the
    source and closes the channel its waiters block on.  [Reacquire] is called
    with a value the source returned, as its interface asks; [Invalidate] with
    anything. *)
Inductive phase := RunStarted | RunExecuting (started : Time) | RunUpdated | RunDone.

Inductive caller :=
| Waiting (run : nat)
| Answered (v : str) (err : option ExecError).

Definition from_answer (a : answer) : caller :=
  match a with
  | Return v err => Answered v err
  | Wait run => Waiting run
  end.

(** [forcedAt] and [acquired] are history: the times at which a refresh became a
    forced one, latest first, and the successful runs with their start. *)
Record World := {
  clk : Time;
  src : ExecSecretSource;
  runs : list phase;
  callers : list caller;
  forcedAt : list Time;
  acquired : list (Time * str);
}.

Definition is_forcing (s : ExecSecretSource) : bool :=
  match inflight s with Some run => forced run | None => false end.

(** A critical section that may start or join a run leaves the source [s]. *)
Definition enter (s : ExecSecretSource) (cs : list caller) (w : World) : World :=
  {| clk := clk w; src := s;
     runs := match inflight (src w), inflight s with
             | None, Some _ => runs w ++ [RunStarted]
             | _, _ => runs w
             end;
     callers := callers w ++ cs;
     forcedAt := if negb (is_forcing (src w)) && is_forcing s then clk w :: forcedAt w else forcedAt w;
     acquired := acquired w |}.

Definition set_run (i : nat) (p : phase) (w : World) : World :=
  {| clk := clk w; src := src w; runs := <[i := p]> (runs w); callers := callers w;
     forcedAt := forcedAt w; acquired := acquired w |}.

Definition set_caller (i : nat) (c : caller) (w : World) : World :=
  {| clk := clk w; src := src w; runs := runs w; callers := <[i := c]> (callers w);
     forcedAt := forcedAt w; acquired := acquired w |}.

Definition tick (t : Time) (w : World) : World :=
  {| clk := t; src := src w; runs := runs w; callers := callers w;
     forcedAt := forcedAt w; acquired := acquired w |}.

Definition call_secret (w : World) : World :=
  let '(s, a) := Secret_enter (clk w) (length (runs w)) (src w) in enter s [from_answer a] w.

Definition call_invalidate (rejected : str) (w : World) : World :=
  enter (Invalidate (clk w) (length (runs w)) rejected (src w)) [] w.

Definition call_reacquire (rejected : str) (w : World) : World :=
  enter (src w) [from_answer (Reacquire_enter rejected (src w))] w.

(** A run's critical section; [forced run] is read under the mutex. *)
Definition finish (i : nat) (started : Time) (r : result ExecError str) (w : World) : World :=
  {| clk := clk w; src := refresh started (clk w) (is_forcing (src w)) r (src w);
     runs := <[i := RunUpdated]> (runs w); callers := callers w; forcedAt := forcedAt w;
     acquired := match r with Ok v => (started, v) :: acquired w | Err _ => acquired w end |}.

Inductive step : relation World :=
| step_tick w t : clk w <= t → step w (tick t w)
| step_secret w : step w (call_secret w)
| step_invalidate w rejected : step w (call_invalidate rejected w)
| step_reacquire w c rejected :
    callers w !! c = Some (Answered rejected None) → step w (call_reacquire rejected w)
| step_begin w i :
    runs w !! i = Some RunStarted → step w (set_run i (RunExecuting (clk w)) w)
| step_finish w i started deadlineExceeded err output :
    runs w !! i = Some (RunExecuting started) →
    step w (finish i started (execute (timeout (src w)) deadlineExceeded err output) w)
| step_close w i :
    runs w !! i = Some RunUpdated → step w (set_run i RunDone w)
| step_wake w c i :
    callers w !! c = Some (Waiting i) → runs w !! i = Some RunDone →
    step w (set_caller c (Answered (fst (Secret_exit (src w))) (snd (Secret_exit (src w)))) w)
| step_cancel w c i :
    callers w !! c = Some (Waiting i) → step w (set_caller c (Answered [] (Some ErrContext)) w).

Definition initial (t : Time) (s : ExecSecretSource) : World :=
  {| clk := t; src := s; runs := []; callers := []; forcedAt := []; acquired := [] |}.

(** A world of a source the constructor made, at a time the clock can show. *)
Definition reachable (w : World) : Prop :=
  ∃ args ttl timeout s t,
    NewExecSecretSource args ttl timeout = Ok s ∧ 0 < t ∧ in_int64 ttl ∧ rtc step (initial t s) w.

(** A source, and runs against it the witnesses use. *)
Definition demo_source : ExecSecretSource :=
  {| argv := [lit "/bin/token"]; ttl := 10 * Minute; timeout := 10 * Second; value := []; expires := 0;
     refreshAt := 0; lastForced := 0; forcedSpacing := 0; forcedValue := []; refused := []; retryAt := 0;
     failures := 0; lastErr := None; inflight := None |}.

(** A run through its three critical points, with the output [v]. *)
Definition complete (i : nat) (r : result ExecError str) (w : World) : World :=
  set_run i RunDone (finish i (clk w) r (set_run i (RunExecuting (clk w)) w)).

Definition demo_waiting : World := Eval vm_compute in call_secret (initial (1000 * Second) demo_source).

Definition demo_output : list str := [lit "tok"; lit "en"].

Definition demo_acquired : World :=
  Eval vm_compute in complete 0 (execute (10 * Second) false RunNil demo_output) demo_waiting.

Definition demo_served : World := Eval vm_compute in call_secret demo_acquired.

Definition demo_refused : World := Eval vm_compute in call_invalidate (lit "token") demo_served.

(** ** Invariant *)

Definition refreshAhead (ttl : Duration) : Duration := Z.min (div64 ttl 5) execRefreshAheadCap.

(** A forced refresh may begin now as far as the last one is concerned. *)
Definition spaced (d now : Z) (s : ExecSecretSource) : Prop := lastForced s = 0 ∨ lastForced s + d <= now.

Record src_core (now : Time) (s : ExecSecretSource) : Prop := {
  c_now : 0 < now;
  c_ttl : 0 < ttl s ∧ in_int64 (ttl s);
  c_failures : 0 <= failures s ∧ (failures s = 0 → retryAt s = 0) ∧ (failures s = 0 ↔ lastErr s = None);
  c_backoff : inflight s = None → 0 < failures s → lastForced s + Second <= retryAt s;
  c_lastForced : 0 <= lastForced s <= now;
  c_refused : refused s = [] ∨ refused s = value s;
  c_forcedValue : forcedValue s = [] ∨ forcedValue s = value s;
  c_spacing : forcedSpacing s = 0 ∨ execInvalidateInterval <= forcedSpacing s <= execInvalidateIntervalMax;
}.

(** A refusal stands only while its forced run is in flight or has failed. *)
Definition refusal_ok (s : ExecSecretSource) : Prop :=
  refused s = [] ∨ is_forcing s = true ∨ (inflight s = None ∧ 0 < failures s).

(** How the runs of the pool relate to the source's in-flight run. *)
Definition active_phase (p : phase) : Prop :=
  match p with RunStarted | RunExecuting _ => True | _ => False end.

Definition run_ok (now : Time) (s : ExecSecretSource) (i : nat) (p : phase) : Prop :=
  (active_phase p ↔ ∃ r, inflight s = Some r ∧ run_id r = i) ∧
  (∀ started, p = RunExecuting started → 0 < started <= now) ∧
  (¬ active_phase p → value s ≠ [] ∨ 0 < failures s).

Definition caller_ok (n : nat) (c : caller) : Prop :=
  match c with
  | Waiting i => (i < n)%nat
  | Answered v None => v ≠ []
  | Answered v (Some _) => v = []
  end.

Definition value_ok (now : Time) (s : ExecSecretSource) (h : list (Time * str)) : Prop :=
  match h with
  | [] => value s = []
  | (t, v) :: _ =>
      0 < t <= now ∧ value s = v ∧ v ≠ [] ∧ expires s = t + ttl s ∧ refreshAt s = t + ttl s - refreshAhead (ttl s)
  end.

Record inv (w : World) : Prop := {
  i_core : src_core (clk w) (src w);
  i_refusal : refusal_ok (src w);
  i_runs : ∀ i p, runs w !! i = Some p → run_ok (clk w) (src w) i p;
  i_inflight : ∀ r, inflight (src w) = Some r → (run_id r < length (runs w))%nat;
  i_callers : Forall (caller_ok (length (runs w))) (callers w);
  i_returned : ∀ v, Answered v None ∈ callers w → acquired w ≠ [];
  i_value : value_ok (clk w) (src w) (acquired w);
  i_forced : StronglySorted (λ later earlier, earlier + Second <= later) (forcedAt w);
  i_head : lastForced (src w) = hd 0 (forcedAt w) ∧ Forall (λ t, 0 < t) (forcedAt w);
}.

(** ** Lemmas: the source *)

Lemma str_eqb_nil (a : str) : str_eqb a [] = true ↔ a = [].
Proof. by rewrite str_eqb_eq. Qed.

Lemma str_eqb_dec (a b : str) : str_eqb a b = bool_decide (a = b).
Proof.
  destruct (str_eqb a b) eqn:E; symmetry; [apply bool_decide_eq_true | apply bool_decide_eq_false].
  - by apply str_eqb_eq.
  - intros Hab. apply str_eqb_eq in Hab. congruence.
Qed.

Lemma is_refused_spec s : is_refused s = true ↔ value s ≠ [] ∧ value s = refused s.
Proof.
  unfold is_refused. rewrite !str_eqb_dec. rewrite andb_true_iff, negb_true_iff, bool_decide_eq_false, bool_decide_eq_true.
  done.
Qed.

Lemma is_refused_false now s : src_core now s → is_refused s = false → refused s = [].
Proof.
  intros Hc Hr. destruct (c_refused _ _ Hc) as [?|He]; [done|].
  destruct (decide (refused s = [])); [done|].
  assert (is_refused s = true) by (apply is_refused_spec; split; congruence). congruence.
Qed.

(** Everything [startLocked] does. *)
Inductive started (now : Time) (force : bool) (fresh : nat) (s : ExecSecretSource)
    : ExecSecretSource → option nat → Prop :=
| started_joined run :
    inflight s = Some run → (force = true → forced run = true) →
    started now force fresh s s (Some (run_id run))
| started_promoted run :
    inflight s = Some run → force = true → forced run = false →
    started now force fresh s
      (setLastForced now (setInflight (Some {| run_id := run_id run; forced := true |}) s)) (Some (run_id run))
| started_held :
    inflight s = None → now < retryAt s → started now force fresh s s None
| started_new :
    inflight s = None → retryAt s <= now →
    started now force fresh s
      (setInflight (Some {| run_id := fresh; forced := force |}) (if force then setLastForced now s else s))
      (Some fresh).

Lemma startLocked_spec now force fresh s :
  started now force fresh s (fst (startLocked now force fresh s)) (snd (startLocked now force fresh s)).
Proof.
  unfold startLocked, time_Before. destruct (inflight s) as [run|] eqn:Ei.
  - destruct force, (forced run) eqn:Ef; simpl; by constructor.
  - destruct (Z.ltb_spec now (retryAt s)); simpl; constructor; done || lia.
Qed.

(** Preservation, for a refresh allowed to begin now. *)
Lemma started_core now force fresh s s' r :
  src_core now s → started now force fresh s s' r → src_core now s'.
Proof.
  intros Hc Hs. destruct Hs as [run Hi Hf|run Hi Hf Hr|Hi Ht|Hi Ht]; [done| |done|].
  - destruct Hc as [? ? ? ? ? ? ? ?]. by constructor; simpl; try done; lia.
  - destruct Hc as [? ? ? ? ? ? ? ?]. destruct force; constructor; simpl; try done; lia.
Qed.

Lemma started_refusal now force fresh s s' r :
  src_core now s → (force = false → refused s = []) → started now force fresh s s' r → refusal_ok s'.
Proof.
  intros Hc Hf Hs.
  destruct Hs as [run Hi Hj|run Hi Hf' Hr'|Hi Ht|Hi Ht].
  - destruct force; [|left; by apply Hf]. right. left. unfold is_forcing. rewrite Hi. by apply Hj.
  - right. by left.
  - destruct force; [|left; by apply Hf]. right. right. split; [done|].
    destruct (c_failures _ _ Hc) as (? & Hz & _). pose proof (c_now _ _ Hc).
    destruct (Z.eq_dec (failures s) 0) as [E|]; [|lia]. rewrite (Hz E) in Ht. lia.
  - destruct force; [right; left; done|]. left. simpl. by apply Hf.
Qed.

(** What any critical section that may start a run leaves behind. *)
Record entered (now : Time) (fresh : nat) (s s' : ExecSecretSource) : Prop := {
  e_core : src_core now s';
  e_refusal : refusal_ok s';
  e_kept : value s' = value s ∧ expires s' = expires s ∧ refreshAt s' = refreshAt s ∧ ttl s' = ttl s ∧
    failures s' = failures s ∧ lastErr s' = lastErr s ∧ retryAt s' = retryAt s;
  e_run : run_id <$> inflight s' = run_id <$> inflight s ∨
    (inflight s = None ∧ run_id <$> inflight s' = Some fresh ∧ retryAt s <= now);
  e_force : (is_forcing s' = is_forcing s ∧ lastForced s' = lastForced s) ∨
    (is_forcing s = false ∧ is_forcing s' = true ∧ lastForced s' = now ∧ spaced Second now s);
}.

Lemma started_entered now force fresh s s' r :
  src_core now s → (force = false → refused s = []) →
  (force = true → is_forcing s = false → inflight s ≠ None ∨ retryAt s <= now → spaced Second now s) →
  started now force fresh s s' r → entered now fresh s s'.
Proof.
  intros Hc Hf Hsp Hs.
  pose proof (started_core _ _ _ _ _ _ Hc Hs). pose proof (started_refusal _ _ _ _ _ _ Hc Hf Hs).
  constructor; [done|done|..]; destruct Hs as [run Hi Hj|run Hi Hf' Hr'|Hi Ht|Hi Ht]; try destruct force; try done;
    simpl in *; rewrite ?Hi in *; simpl; auto.
  - right. unfold is_forcing in *. rewrite Hi in *. split; [done|]. split; [done|]. split; [done|].
    apply Hsp; try done. by left.
  - right. unfold is_forcing in *. simpl. rewrite Hi in *. split; [done|]. split; [done|]. split; [done|].
    apply Hsp; try done. by right.
  - left. unfold is_forcing. simpl. by rewrite Hi.
Qed.

(** Adjusting the refusal or the spacing first, or the spacing last, is within [entered]. *)
Lemma entered_from now fresh s s1 s' :
  value s1 = value s → expires s1 = expires s → refreshAt s1 = refreshAt s → ttl s1 = ttl s →
  failures s1 = failures s → lastErr s1 = lastErr s → retryAt s1 = retryAt s → inflight s1 = inflight s →
  lastForced s1 = lastForced s → entered now fresh s1 s' → entered now fresh s s'.
Proof.
  intros Hv He Hra Ht Hfl Hle Hre Hin Hlf [? ? Hk Hr Hfo].
  constructor; unfold spaced, is_forcing in *; rewrite ?Hv, ?He, ?Hra, ?Ht, ?Hfl, ?Hle, ?Hre, ?Hin, ?Hlf in *; done.
Qed.

Lemma entered_spacing now fresh s s' d :
  execInvalidateInterval <= d <= execInvalidateIntervalMax →
  entered now fresh s s' → entered now fresh s (setForcedSpacing d s').
Proof.
  intros Hd [Hc Hr Hk Hrun Hf]. constructor; try done.
  destruct Hc. constructor; try done. by right.
Qed.

Lemma entered_refl now fresh s : src_core now s → refusal_ok s → entered now fresh s s.
Proof. intros. constructor; try done; by left. Qed.

(** A refusal that stands may force a refresh whenever the backoff allows a run. *)
Lemma standing_spaced now s :
  src_core now s → refusal_ok s → refused s ≠ [] → is_forcing s = false →
  inflight s ≠ None ∨ retryAt s <= now → spaced Second now s.
Proof.
  intros Hc Hr Hn Hf Hgo. destruct Hr as [?|[?|[Hi Hfl]]]; [done|congruence|].
  destruct Hgo as [?|Ht]; [done|]. pose proof (c_backoff _ _ Hc Hi Hfl). right. lia.
Qed.

Lemma Secret_enter_entered now fresh s :
  src_core now s → refusal_ok s → entered now fresh s (fst (Secret_enter now fresh s)).
Proof.
  intros Hc Hr. unfold Secret_enter.
  assert (Hs : ∀ force, force = is_refused s → entered now fresh s (fst (startLocked now force fresh s))).
  { intros force ->. eapply started_entered; [done| |..|apply startLocked_spec].
    - intros He. by eapply is_refused_false.
    - intros Hre. apply is_refused_spec in Hre as [Hv He]. apply standing_spaced; try done. congruence. }
  destruct (_ && _) eqn:E.
  - apply andb_true_iff in E as [_ E]. apply negb_true_iff in E.
    destruct (negb _); simpl; [|by apply entered_refl]. apply Hs. by rewrite E.
  - pose proof (Hs _ eq_refl) as He. destruct (startLocked now (is_refused s) fresh s) as [s' [run|]]; simpl in *; [done|].
    by destruct (str_eqb (value s') []).
Qed.

(** The spacing a refusal asks for, and its bounds. *)
Definition invalidate_spacing (rejected : str) (s : ExecSecretSource) : Duration :=
  if str_eqb rejected (forcedValue s)
  then Z.min (mul64 2 (Z.max (forcedSpacing s) execInvalidateInterval)) execInvalidateIntervalMax
  else execInvalidateInterval.

Lemma invalidate_spacing_exact now rejected s :
  src_core now s →
  invalidate_spacing rejected s =
    (if bool_decide (rejected = forcedValue s)
     then Z.min (2 * Z.max (forcedSpacing s) execInvalidateInterval) execInvalidateIntervalMax
     else execInvalidateInterval) ∧
  execInvalidateInterval <= invalidate_spacing rejected s <= execInvalidateIntervalMax.
Proof.
  intros Hc. pose proof (c_spacing _ _ Hc) as Hs. unfold invalidate_spacing, mul64. rewrite str_eqb_dec.
  unfold execInvalidateInterval, execInvalidateIntervalMax, Second, Minute in *.
  destruct (bool_decide _); [|lia]. rewrite wrap64_id; [lia|]. unfold in_int64, min_int64, max_int64. lia.
Qed.

Lemma spacing_elapsed d now s :
  execInvalidateInterval <= d <= execInvalidateIntervalMax → lastForced s <= now →
  negb (time_IsZero (lastForced s)) && (time_Sub now (lastForced s) <? d) = false → spaced d now s.
Proof.
  intros Hd Hl H. unfold spaced, time_IsZero, time_Sub in *. apply andb_false_iff in H as [H|H].
  - apply negb_false_iff, Z.eqb_eq in H. by left.
  - apply Z.ltb_ge in H. right.
    unfold clamp64, min_int64, max_int64, execInvalidateInterval, execInvalidateIntervalMax, Second, Minute in *. lia.
Qed.

Lemma spaced_weaken d d' now s : d' <= d → spaced d now s → spaced d' now s.
Proof. unfold spaced. lia. Qed.

(** The branches of [Invalidate], by the condition that selects them. *)
Lemma Invalidate_unfold now fresh rejected s :
  Invalidate now fresh rejected s =
    if bool_decide (rejected = [] ∨ rejected ≠ value s) then s
    else if bool_decide (rejected = refused s) then fst (startLocked now true fresh s)
    else if is_forcing s then s
    else if negb (time_IsZero (lastForced s)) &&
            (time_Sub now (lastForced s) <? invalidate_spacing rejected s) then s
    else if bool_decide (rejected = forcedValue s)
    then match startLocked now true fresh s with
         | (s', Some _) => setForcedSpacing (invalidate_spacing rejected s) s'
         | (s', None) => s'
         end
    else fst (startLocked now true fresh (setForcedSpacing execInvalidateInterval (setRefused rejected s))).
Proof.
  unfold Invalidate, invalidate_spacing, is_forcing. rewrite !str_eqb_dec.
  replace (bool_decide (rejected = []) || negb (bool_decide (rejected = value s)))
    with (bool_decide (rejected = [] ∨ rejected ≠ value s)) by (repeat case_bool_decide; intuition).
  destruct (bool_decide (_ ∨ _)); [done|].
  destruct (bool_decide (rejected = refused s)); [done|].
  destruct (match inflight s with Some run => forced run | None => false end); [done|].
  destruct (bool_decide (rejected = forcedValue s)); simpl; destruct (_ && _); try done.
  by destruct (startLocked _ _ _ _) as [? []].
Qed.

Lemma Invalidate_entered now fresh rejected s :
  src_core now s → refusal_ok s → entered now fresh s (Invalidate now fresh rejected s).
Proof.
  intros Hc Hr. rewrite Invalidate_unfold.
  case_bool_decide as Hcur; [by apply entered_refl|].
  assert (Hv : rejected = value s) by (destruct (decide (rejected = value s)); tauto).
  assert (Hne : rejected ≠ []) by tauto.
  pose proof (invalidate_spacing_exact now rejected s Hc) as [_ Hbounds].
  case_bool_decide as Href.
  { eapply (started_entered now true fresh); [done|done| |apply startLocked_spec].
    intros _. apply standing_spaced; congruence. }
  destruct (is_forcing s) eqn:Ef; [by apply entered_refl|].
  destruct (negb (time_IsZero (lastForced s)) && _) eqn:Esp; [by apply entered_refl|].
  apply spacing_elapsed in Esp; [|done|by destruct (c_lastForced _ _ Hc)].
  assert (Hsp : spaced Second now s).
  { eapply spaced_weaken; [|exact Esp]. unfold execInvalidateInterval, Second in *. lia. }
  case_bool_decide as Hrep.
  - assert (He : entered now fresh s (fst (startLocked now true fresh s))).
    { eapply (started_entered now true fresh); [done|done| |apply startLocked_spec]. done. }
    destruct (startLocked now true fresh s) as [s' [run|]]; [|done]. by apply entered_spacing.
  - set (s1 := setForcedSpacing execInvalidateInterval (setRefused rejected s)).
    assert (Hc1 : src_core now s1).
    { destruct Hc. constructor; try done; simpl; [by right|]. right.
      unfold execInvalidateInterval, execInvalidateIntervalMax, Second, Minute. lia. }
    apply (entered_from now fresh s s1); try done.
    eapply (started_entered now true fresh); [done|done| |apply startLocked_spec]. done.
Qed.

Lemma backoff_loop_step fuel i n d :
  i < n → (d <? execBackoffMax) = true →
  backoff_loop (S fuel) i n d = backoff_loop fuel (i + 1) n (mul64 d 2).
Proof. intros Hi Hd. simpl. apply Z.ltb_lt in Hi. by rewrite Hi, Hd. Qed.

Lemma backoff_loop_stop fuel i n d : (d <? execBackoffMax) = false → backoff_loop (S fuel) i n d = d.
Proof. intros Hd. simpl. by rewrite Hd, andb_false_r. Qed.

(** [execBackoff] doubles from a second and stops at a minute. *)
Lemma execBackoff_spec n :
  execBackoff n = Z.min (2 ^ Z.max 0 (n - 1) * Second) execBackoffMax.
Proof.
  unfold execBackoff.
  destruct (Z_le_gt_dec n 6) as [Hle|Hgt].
  - destruct (Z_le_gt_dec n 1) as [H1|H1].
    { replace (Z.max 0 (n - 1)) with 0 by lia. simpl.
      destruct (Z.ltb_spec 1 n); [lia|]. by vm_compute. }
    assert (Hn : n = 2 ∨ n = 3 ∨ n = 4 ∨ n = 5 ∨ n = 6) by lia.
    by destruct Hn as [-> | [-> | [-> | [-> | ->]]]]; vm_compute.
  - assert (Hp : execBackoffMax <= 2 ^ Z.max 0 (n - 1) * Second).
    { assert (2 ^ 6 <= 2 ^ Z.max 0 (n - 1)) by (apply Z.pow_le_mono_r; lia).
      unfold execBackoffMax, Minute, Second. lia. }
    rewrite (Z.min_r (2 ^ _ * _)) by done.
    do 6 (rewrite backoff_loop_step by (done || lia)). by rewrite backoff_loop_stop.
Qed.

Lemma execBackoff_bounds n : Second <= execBackoff n <= execBackoffMax.
Proof.
  rewrite execBackoff_spec. unfold execBackoffMax, Minute, Second.
  assert (0 < 2 ^ Z.max 0 (n - 1)) by (apply Z.pow_pos_nonneg; lia). lia.
Qed.

(** A credential is never empty. *)
Lemma firstLineCredential_nonempty out v : firstLineCredential out = Ok v → v ≠ [].
Proof.
  unfold firstLineCredential. destruct (match Cut _ _ with Some _ => _ | None => _ end) as [line found].
  destruct (_ && _); [done|]. destruct (TrimSpace line) as [|c v'] eqn:E; [done|].
  destruct (existsb _ _); [done|]. by intros [= <-].
Qed.

Lemma execute_nonempty timeout b err ps v : execute timeout b err ps = Ok v → v ≠ [].
Proof.
  unfold execute. destruct b; [done|]. destruct err as [|c| |c]; try done.
  - apply firstLineCredential_nonempty.
  - by destruct (0 <=? c).
  - apply firstLineCredential_nonempty.
Qed.

(** ** Lemmas: the world *)

Lemma caller_ok_mono n m c : (n <= m)%nat → caller_ok n c → caller_ok m c.
Proof. destruct c as [i|v [e|]]; simpl; lia || done. Qed.

(** How [enter] changes the pool of runs. *)
Lemma enter_runs w s cs :
  inv w → entered (clk w) (length (runs w)) (src w) s →
  (runs (enter s cs w) = runs w ∧ run_id <$> inflight s = run_id <$> inflight (src w)) ∨
  (runs (enter s cs w) = runs w ++ [RunStarted] ∧ inflight (src w) = None ∧
   run_id <$> inflight s = Some (length (runs w))).
Proof.
  intros Hi [_ _ _ [Hr|(Hn & Hr & _)] _]; simpl.
  - left. split; [|done]. destruct (inflight (src w)), (inflight s); done.
  - right. rewrite Hn in *. split; [|done]. by destruct (inflight s).
Qed.

Lemma in_flight_iff (s : ExecSecretSource) i :
  (∃ r, inflight s = Some r ∧ run_id r = i) ↔ run_id <$> inflight s = Some i.
Proof.
  destruct (inflight s) as [r|]; simpl; split.
  - by intros (? & [= <-] & <-).
  - intros [= <-]. by exists r.
  - by intros (? & ? & _).
  - done.
Qed.

Lemma forced_log now (s s' : ExecSecretSource) n h :
  src_core now s → entered now n s s' →
  StronglySorted (λ later earlier, earlier + Second <= later) h →
  lastForced s = hd 0 h ∧ Forall (λ t, 0 < t) h →
  let h' := if negb (is_forcing s) && is_forcing s' then now :: h else h in
  StronglySorted (λ later earlier, earlier + Second <= later) h' ∧
  lastForced s' = hd 0 h' ∧ Forall (λ t, 0 < t) h'.
Proof.
  intros Hc [_ _ _ _ Hf] Hs [Hh Hp]. destruct Hf as [[Hf Hl]|(Hf & Hf' & Hl & Hsp)]; rewrite Hf; simpl.
  - rewrite andb_negb_l. by rewrite Hl.
  - rewrite Hf'. simpl. split_and!; [|done|by constructor; [apply Hc|]].
    constructor; [done|]. destruct h as [|t h]; [constructor|]. simpl in Hh.
    apply StronglySorted_inv in Hs as [Hs' Hall]. apply Forall_cons in Hp as [Ht _].
    assert (t + Second <= now) by (destruct Hsp; lia).
    constructor; [done|]. eapply Forall_impl; [exact Hall|]. simpl. unfold Second in *. lia.
Qed.

Lemma enter_inv w s cs :
  inv w → entered (clk w) (length (runs w)) (src w) s →
  Forall (caller_ok (length (runs (enter s cs w)))) cs →
  (∀ v, Answered v None ∈ cs → acquired w ≠ []) →
  inv (enter s cs w).
Proof.
  intros Hi He Hcs Hret. pose proof (enter_runs w s cs Hi He) as Hruns. destruct Hi as [Hcore Href Hr Hfl Hcl Hans Hv Hs Hh].
  pose proof (forced_log _ _ _ _ _ Hcore He Hs Hh) as (Hs' & Hh' & Hp').
  destruct He as [Hc' Hr' (Hkv & Hke & Hkr & Hkt & Hkf & Hkl & Hkre) _ _].
  assert (Hlen : (length (runs w) <= length (runs (enter s cs w)))%nat).
  { destruct Hruns as [[-> _]|(-> & _)]; [done|]. rewrite length_app. simpl. lia. }
  constructor; try done.
  - intros i p Hip. simpl (clk _). simpl (src _). unfold run_ok. rewrite in_flight_iff, Hkv, Hkf.
    destruct Hruns as [[Hrw Hid]|(Hrw & Hn & Hid)]; rewrite Hrw in Hip.
    + rewrite Hid, <- in_flight_iff. by apply Hr.
    + rewrite Hid. apply lookup_app_Some in Hip as [Hip|[Hge Hip]].
      * pose proof (lookup_lt_Some _ _ _ Hip) as Hlt. destruct (Hr i p Hip) as ((Ha & _) & Hb & Hd).
        split_and!; try done. split; [|intros [= Hx]; lia].
        intros Hact. destruct (Ha Hact) as (r & Hir & _). congruence.
      * apply list_lookup_singleton_Some in Hip as [Hz <-]. split_and!; try done.
        split; [|done]. intros _. f_equal. lia.
  - intros r Hir. simpl in Hir. destruct Hruns as [[Hrw Hid]|(Hrw & Hn & Hid)]; rewrite Hrw; rewrite Hir in Hid; simpl in Hid.
    + symmetry in Hid. apply in_flight_iff in Hid as (r' & Hr1 & <-). by apply Hfl.
    + rewrite length_app. simpl. injection Hid as ->. lia.
  - simpl (callers _). apply Forall_app. split; [|done].
    eapply Forall_impl; [exact Hcl|]. intros c. by apply caller_ok_mono.
  - simpl. intros v [Hin|Hin]%elem_of_app; [by eapply Hans | by eapply Hret].
  - simpl. unfold value_ok in *. by rewrite Hkv, Hke, Hkr, Hkt.
Qed.

Lemma value_acquired w : inv w → value (src w) ≠ [] → acquired w ≠ [].
Proof. intros Hi Hv Ha. pose proof (i_value _ Hi) as H. rewrite Ha in H. done. Qed.

Lemma acquired_value w : inv w → acquired w ≠ [] → value (src w) ≠ [].
Proof.
  intros Hi Ha. pose proof (i_value _ Hi) as H. destruct (acquired w) as [|[t v] h]; [done|].
  destruct H as (_ & -> & ? & _). done.
Qed.

Lemma failed_lastErr now s : src_core now s → 0 < failures s → lastErr s ≠ None.
Proof. intros Hc Hf Hn. destruct (c_failures _ _ Hc) as (_ & _ & Hl). apply Hl in Hn. lia. Qed.

(** The run [startLocked] hands back is the one then in flight. *)
Lemma startLocked_run now force fresh s s' r :
  startLocked now force fresh s = (s', Some r) → run_id <$> inflight s' = Some r.
Proof.
  intros E. pose proof (startLocked_spec now force fresh s) as Hs. rewrite E in Hs. simpl in Hs.
  inversion Hs; subst; simpl; try done. by match goal with H : inflight _ = _ |- _ => rewrite H end.
Qed.

Lemma startLocked_held now force fresh s s' :
  startLocked now force fresh s = (s', None) → s' = s ∧ inflight s = None ∧ now < retryAt s.
Proof.
  intros E. pose proof (startLocked_spec now force fresh s) as Hs. rewrite E in Hs. simpl in Hs.
  by inversion Hs; subst.
Qed.

Lemma held_failed now s : src_core now s → now < retryAt s → 0 < failures s.
Proof.
  intros Hc Ht. destruct (c_failures _ _ Hc) as (? & Hz & _). pose proof (c_now _ _ Hc).
  destruct (Z.eq_dec (failures s) 0) as [E|]; [rewrite (Hz E) in Ht; lia | lia].
Qed.

(** What [Secret] decides in its first critical section. *)
Lemma Secret_enter_cases now fresh s s' a :
  src_core now s → Secret_enter now fresh s = (s', a) →
  (value s ≠ [] ∧ now < expires s ∧ is_refused s = false ∧ a = Return (value s) None ∧
     s' = (if now <? refreshAt s then s else fst (startLocked now false fresh s))) ∨
  ((value s = [] ∨ expires s <= now ∨ is_refused s = true) ∧
    ((s' = s ∧ inflight s = None ∧ now < retryAt s ∧
        a = if decide (value s = []) then Return [] (lastErr s) else Return (value s) None) ∨
     ∃ run, a = Wait run ∧ startLocked now (is_refused s) fresh s = (s', Some run))).
Proof.
  intros Hc. unfold Secret_enter. rewrite str_eqb_dec. unfold time_Before.
  destruct (negb (bool_decide (value s = [])) && (now <? expires s) && negb (is_refused s)) eqn:E.
  - bprop. intros [= <- <-]. left. rewrite bool_decide_eq_false in *.
    assert (Hv : ∀ b : bool, value (if b then fst (startLocked now false fresh s) else s) = value s).
    { intros []; [|done]. unfold startLocked. destruct (inflight s); [done|]. by destruct (time_Before _ _). }
    rewrite Hv. split_and!; try done. by destruct (now <? refreshAt s).
  - intros H. right. split.
    { rewrite !andb_false_iff, !negb_false_iff, Z.ltb_ge, bool_decide_eq_true in E. tauto. }
    destruct (startLocked now (is_refused s) fresh s) as [s1 [run|]] eqn:Es.
    + injection H as <- <-. right. by exists run.
    + apply startLocked_held in Es as (-> & Hn & Ht). rewrite str_eqb_dec in H.
      left. destruct (decide (value s = [])) as [Hz|Hz].
      * rewrite bool_decide_eq_true_2 in H by done. simpl in H. by injection H as <- <-.
      * rewrite bool_decide_eq_false_2 in H by done. simpl in H. by injection H as <- <-.
Qed.

Lemma Secret_answer w s a :
  inv w → Secret_enter (clk w) (length (runs w)) (src w) = (s, a) →
  caller_ok (length (runs (enter s [from_answer a] w))) (from_answer a) ∧
  (∀ v, from_answer a = Answered v None → acquired w ≠ []).
Proof.
  intros Hi E. pose proof (i_core _ Hi) as Hc.
  pose proof (Secret_enter_entered (clk w) (length (runs w)) (src w) Hc (i_refusal _ Hi)) as He.
  rewrite E in He. simpl in He. pose proof (enter_runs w s [from_answer a] Hi He) as Hr.
  destruct (Secret_enter_cases _ _ _ _ _ Hc E) as [(Hv & _ & _ & -> & _)|(_ & [(-> & _ & Ht & ->)|(run & -> & Es)])].
  - simpl. split; [done|]. intros v _. by apply value_acquired.
  - case_decide as Hv; simpl.
    + pose proof (failed_lastErr _ _ Hc (held_failed _ _ Hc Ht)) as Hl.
      destruct (lastErr (src w)); [|done]. by split.
    + split; [done|]. intros v _. by apply value_acquired.
  - apply startLocked_run in Es. split; [|done].
    change (run < length (runs (enter s [from_answer (Wait run)] w)))%nat.
    destruct Hr as [[-> Hid]|(-> & _ & Hid)]; rewrite Es in Hid.
    + symmetry in Hid. apply in_flight_iff in Hid as (r & Hr & <-). by apply (i_inflight _ Hi).
    + injection Hid as ->. rewrite length_app. simpl. lia.
Qed.

Lemma exit_answer w i :
  inv w → runs w !! i = Some RunDone ∨ acquired w ≠ [] →
  caller_ok (length (runs w)) (Answered (fst (Secret_exit (src w))) (snd (Secret_exit (src w)))) ∧
  (∀ v, Answered (fst (Secret_exit (src w))) (snd (Secret_exit (src w))) = Answered v None → acquired w ≠ []).
Proof.
  intros Hi Hd. unfold Secret_exit. rewrite str_eqb_dec. case_bool_decide as Hv; simpl.
  - destruct Hd as [Hd|Ha]; [|by apply acquired_value in Ha].
    destruct (i_runs _ Hi i _ Hd) as (_ & _ & [?|Hf]); [by intros []|done|].
    pose proof (failed_lastErr _ _ (i_core _ Hi) Hf). by destruct (lastErr (src w)).
  - split; [done|]. intros v _. by apply value_acquired.
Qed.

Lemma Reacquire_answer w rejected :
  inv w → acquired w ≠ [] → 
  caller_ok (length (runs w)) (from_answer (Reacquire_enter rejected (src w))).
Proof.
  intros Hi Ha. apply acquired_value in Ha; [|done]. unfold Reacquire_enter.
  destruct (inflight (src w)) as [r|] eqn:Er; [destruct (negb _)|].
  2: by apply (i_inflight _ Hi).
  all: rewrite str_eqb_neq by done; simpl; done.
Qed.

(** [refresh] keeps the source's invariant. *)
Lemma refresh_core now st r s :
  src_core now s → src_core now (refresh st now (is_forcing s) r s).
Proof.
  intros Hc. pose proof (c_now _ _ Hc). destruct Hc. destruct r as [v|e]; constructor; simpl; try done; try lia.
  - by left.
  - destruct (is_forcing s); [by right | by left].
  - split; [lia|]. split; [lia|]. split; [lia|done].
  - intros _ _. pose proof (execBackoff_bounds (failures s + 1)). unfold time_Add. lia.
Qed.

Lemma refresh_refusal now st b r s : src_core now s → refusal_ok (refresh st now b r s).
Proof.
  intros Hc. destruct (c_failures _ _ Hc) as (? & _). destruct r as [v|e]; [by left|].
  right. right. simpl. split; [done | lia].
Qed.

Lemma runs_step w i p p' :
  inv w → runs w !! i = Some p → (active_phase p ↔ active_phase p') →
  (∀ t, p' = RunExecuting t → t = clk w) →
  inv (set_run i p' w).
Proof.
  intros [Hcore Href Hr Hfl Hcl Hans Hv Hs Hh] Hi Hact Ht. constructor; try done; simpl; rewrite ?length_insert; try done.
  intros j q [(-> & <- & _)|(Hne & Hj)]%list_lookup_insert_Some; [|by apply Hr].
  destruct (Hr _ _ Hi) as (Ha & _ & Hd). unfold run_ok. rewrite <- Hact. split_and!; try done.
  intros t ->. rewrite (Ht t) by done. pose proof (c_now _ _ Hcore). lia.
Qed.

Lemma finish_inv w i st r :
  inv w → runs w !! i = Some (RunExecuting st) → (∀ v, r = Ok v → v ≠ []) → inv (finish i st r w).
Proof.
  intros [Hcore Href Hr Hfl Hcl Hans Hv Hs [Hh Hp]] Hi Hne.
  destruct (Hr _ _ Hi) as ([Hact _] & Hst & _). destruct (Hact I) as (run & Hrun & Hid).
  pose proof (Hst st eq_refl) as Hst'. destruct (c_failures _ _ Hcore) as (Hf0 & _).
  assert (Hin : inflight (refresh st (clk w) (is_forcing (src w)) r (src w)) = None) by by destruct r.
  constructor; simpl; rewrite ?length_insert; try done.
  - by apply refresh_core.
  - by apply refresh_refusal.
  - assert (Hvf : value (refresh st (clk w) (is_forcing (src w)) r (src w)) ≠ [] ∨
                  0 < failures (refresh st (clk w) (is_forcing (src w)) r (src w))).
    { destruct r as [v|e]; simpl; [left; by apply Hne | right; lia]. }
    intros j q [(-> & <- & _)|(Hn & Hj)]%list_lookup_insert_Some; unfold run_ok; rewrite Hin.
    + split_and!; try done. split; [done|]. by intros (? & ? & _).
    + destruct (Hr _ _ Hj) as ([Ha _] & Hb & Hd). split_and!; try done. split; [|by intros (? & ? & _)].
      intros Hq. destruct (Ha Hq) as (run' & Hrun' & Hid'). congruence.
  - intros run' Hrun'. congruence.
  - intros v Hin'. destruct r; [done|]. by eapply Hans.
  - destruct r as [v|e]; simpl; [|done]. split_and!; try done; try lia. by apply Hne.
  - by destruct r.
Qed.

Lemma answer_inv w c v err :
  inv w → caller_ok (length (runs w)) (Answered v err) →
  (∀ v', Answered v err = Answered v' None → acquired w ≠ []) → inv (set_caller c (Answered v err) w).
Proof.
  intros [Hcore Href Hr Hfl Hcl Hans Hv Hs Hh] Hok Ha. constructor; try done; simpl.
  - by apply Forall_insert.
  - intros v' (i & Hi)%list_elem_of_lookup. apply list_lookup_insert_Some in Hi as [(-> & Heq & _)|(_ & Hi)].
    + by eapply Ha.
    + eapply Hans. by eapply list_elem_of_lookup_2.
Qed.

Lemma tick_inv w t : inv w → clk w <= t → inv (tick t w).
Proof.
  intros [Hcore Href Hr Hfl Hcl Hans Hv Hs Hh] Ht. constructor; try done; simpl.
  - destruct Hcore. constructor; try done; lia.
  - intros i p Hip. destruct (Hr i p Hip) as (? & Hst & ?). split_and!; try done.
    intros st ->. pose proof (Hst st eq_refl). lia.
  - unfold value_ok in *. destruct (acquired w) as [|[? ?] ?]; [done|]. destruct Hv as (? & ? & ? & ? & ?).
    split_and!; done || lia.
Qed.

Lemma inv_step w w' : inv w → step w w' → inv w'.
Proof.
  intros Hi Hs. pose proof (i_core _ Hi) as Hc. pose proof (i_refusal _ Hi) as Href.
  destruct Hs as [w t Ht|w|w rejected|w c rejected Hcl|w i Hr|w i st b err ps Hr|w i Hr|w c i Hcl Hr|w c i Hcl].
  - by apply tick_inv.
  - unfold call_secret. destruct (Secret_enter _ _ _) as [s a] eqn:E.
    destruct (Secret_answer _ _ _ Hi E) as [Ha Hb]. apply enter_inv; try done.
    + pose proof (Secret_enter_entered _ (length (runs w)) _ Hc Href) as He. by rewrite E in He.
    + by apply Forall_singleton.
    + intros v. rewrite list_elem_of_singleton. intros Heq. by eapply Hb.
  - apply enter_inv; [done|by apply Invalidate_entered|done|]. intros v Hv. by apply elem_of_nil in Hv.
  - assert (Hacq : acquired w ≠ []) by (eapply (i_returned _ Hi); by eapply list_elem_of_lookup_2).
    apply enter_inv; [done|by apply entered_refl| |].
    + apply Forall_singleton. eapply caller_ok_mono; [|by apply Reacquire_answer].
      simpl. destruct (inflight (src w)); lia.
    + done.
  - eapply runs_step; [done|done|done|]. by intros t [= <-].
  - apply finish_inv; [done|done|]. intros v. apply execute_nonempty.
  - by eapply runs_step.
  - destruct (exit_answer _ _ Hi (or_introl Hr)). by apply answer_inv.
  - by apply answer_inv.
Qed.

Lemma initial_inv args ttl timeout s t :
  NewExecSecretSource args ttl timeout = Ok s → 0 < t → in_int64 ttl → inv (initial t s).
Proof.
  intros Hs Ht Httl. unfold NewExecSecretSource in Hs. destruct args as [|command args]; [done|].
  destruct (empty_argument _ _); [done|]. destruct (_ && _); [done|].
  destruct (Z.leb_spec ttl 0); [done|]. destruct (timeout <=? 0); [done|]. injection Hs as <-.
  constructor; simpl; try done; [constructor; simpl; try done; try lia; by left|by left| |].
  - intros v Hv. by apply elem_of_nil in Hv.
  - constructor.
Qed.

Lemma source_reachable_inv w : reachable w → inv w.
Proof.
  intros (args & d & d' & s & t & Hs & Ht & Httl & Hr).
  eapply rtc_invariant; [intros a b; apply inv_step|by eapply initial_inv|exact Hr].
Qed.

(** ** Lemmas: captured output *)

Lemma Write_exact b p :
  0 <= limit b →
  buf b = take (Z.to_nat (limit b)) (buf b) →
  buf (fst (cappedBuffer_Write b p)) = take (Z.to_nat (limit b)) (buf b ++ p) ∧
  limit (fst (cappedBuffer_Write b p)) = limit b ∧
  truncated (fst (cappedBuffer_Write b p)) =
    truncated b || (limit b <? Z.of_nat (length (buf b ++ p))) && (0 <? Z.of_nat (length p)) ∧
  snd (cappedBuffer_Write b p) = Z.of_nat (length p).
Proof.
  intros Hl Hb. assert (Hlen : (length (buf b) <= Z.to_nat (limit b))%nat).
  { rewrite Hb, length_take. lia. }
  unfold cappedBuffer_Write. rewrite length_app.
  destruct (Z.ltb_spec 0 (limit b - Z.of_nat (length (buf b)))).
  - destruct (Z.ltb_spec (limit b - Z.of_nat (length (buf b))) (Z.of_nat (length p))); simpl.
    + rewrite take_app_ge by lia. split_and!; [f_equal; f_equal; lia|done| |done].
      rewrite (proj2 (Z.ltb_lt _ _)), (proj2 (Z.ltb_lt 0 _)) by lia. by rewrite orb_true_r.
    + rewrite take_ge by (rewrite length_app; lia). split_and!; [done|done| |done].
      rewrite (proj2 (Z.ltb_ge _ _)) by lia. by rewrite orb_false_r.
  - rewrite take_app_le, <- Hb by lia.
    destruct (Z.ltb_spec 0 (Z.of_nat (length p))); simpl; split_and!; try done.
    + rewrite (proj2 (Z.ltb_lt _ _)) by lia. by rewrite orb_true_r.
    + by rewrite andb_false_r, orb_false_r.
Qed.

Lemma writes_from b ps :
  0 <= limit b → buf b = take (Z.to_nat (limit b)) (buf b) →
  (truncated b = true → Z.of_nat (length (buf b)) = limit b) →
  buf (writes b ps) = take (Z.to_nat (limit b)) (buf b ++ concat ps) ∧
  truncated (writes b ps) = truncated b || (limit b <? Z.of_nat (length (buf b ++ concat ps))).
Proof.
  intros Hl. revert b Hl. induction ps as [|p ps IH]; intros b Hl Hb Ht; cbn [concat].
  { simpl. rewrite app_nil_r. split; [done|]. rewrite (proj2 (Z.ltb_ge _ _)).
    - by rewrite orb_false_r.
    - rewrite Hb, length_take. lia. }
  pose proof (Write_exact b p Hl Hb) as (Hwb & Hwl & Hwt & _).
  assert (Hlen : (length (buf b) <= Z.to_nat (limit b))%nat) by (rewrite Hb, length_take; lia).
  destruct (IH (fst (cappedBuffer_Write b p))) as [Hib Hit].
  - lia.
  - rewrite Hwl, Hwb, take_take. f_equal. lia.
  - rewrite Hwl, Hwt, Hwb, length_take, length_app. intros [H|H]%orb_true_iff; [apply Ht in H; lia|]. bprop. lia.
  - change (writes b (p :: ps)) with (writes (fst (cappedBuffer_Write b p)) ps). rewrite Hib, Hit, Hwl, Hwb, Hwt. split.
    + rewrite (app_assoc (buf b)). destruct (Nat.le_gt_cases (Z.to_nat (limit b)) (length (buf b ++ p))) as [Hle|Hgt].
      * rewrite (take_app_le (buf b ++ p)) by done.
        rewrite (take_app_le (take _ _)) by (rewrite length_take; lia). by rewrite take_take, Nat.min_id.
      * by rewrite (take_ge (buf b ++ p)) by lia.
    + rewrite <- orb_assoc. f_equal. rewrite !length_app, length_take, length_app in *. bcase; lia || done.
Qed.

Lemma writes_exact n ps :
  0 <= n →
  let b := writes {| buf := []; limit := n; truncated := false |} ps in
  buf b = take (Z.to_nat n) (concat ps) ∧ truncated b = (n <? Z.of_nat (length (concat ps))).
Proof.
  intros Hn b. destruct (writes_from {| buf := []; limit := n; truncated := false |} ps) as [Hb Ht]; simpl; try done.
  by rewrite take_nil.
Qed.

(** The credential of a complete output: its first line, trimmed, if that line
    and the newline after it lie within the limit. *)
Definition credential_of (limit : Z) (output : str) : result ExecError str :=
  let line := match Cut newline output with Some (line, _) => line | None => output end in
  let within := match Cut newline output with
                | Some _ => Z.of_nat (length line) <? limit
                | None => Z.of_nat (length line) <=? limit
                end in
  if negb within then Err ErrLineTooLong
  else match TrimSpace line with
       | [] => Err ErrNoOutput
       | v => if existsb is_control v then Err ErrControlCharacters else Ok v
       end.

Lemma firstLine_reference n ps :
  0 <= n →
  firstLineCredential (writes {| buf := []; limit := n; truncated := false |} ps) = credential_of n (concat ps).
Proof.
  intros Hn. destruct (writes_exact n ps Hn) as [Hb Ht]. unfold firstLineCredential, credential_of.
  rewrite Hb, Ht. set (out := concat ps). clearbody out. clear Hb Ht ps.
  destruct (Cut newline out) as [[line rest]|] eqn:Ec.
  - apply Cut_spec in Ec as [-> Hno]. rewrite length_app. simpl length.
    destruct (Z.ltb_spec (Z.of_nat (length line)) n).
    + rewrite take_app_ge by lia. destruct (Z.to_nat n - length line)%nat eqn:E; [lia|]. simpl.
      rewrite Cut_app by done. simpl. by destruct (TrimSpace line).
    + rewrite take_app_le by lia. rewrite Cut_none.
      * rewrite (proj2 (Z.ltb_lt n _)) by lia. done.
      * intros Hin. apply Hno. rewrite <- (take_drop (Z.to_nat n) line). rewrite elem_of_app. by left.
  - assert (Hno : newline ∉ out).
    { intros Hin. apply list_elem_of_split in Hin as (l1 & l2 & ->).
      revert Ec. clear. induction l1 as [|x l1 IH]; simpl.
      - done.
      - destruct (byte_eqb x newline); [done|]. destruct (Cut newline (l1 ++ newline :: l2)) as [[]|]; [done|]. intros _. by apply IH. }
    rewrite Cut_none.
    2: { intros Hin. apply Hno. rewrite <- (take_drop (Z.to_nat n) out). rewrite elem_of_app. by left. }
    simpl. destruct (Z.ltb_spec n (Z.of_nat (length out))).
    + by rewrite (proj2 (Z.leb_gt _ _)).
    + rewrite take_ge by lia. rewrite (proj2 (Z.leb_le _ _)) by done. simpl. by destruct (TrimSpace out).
Qed.

(** ** Lemmas: liveness *)

Lemma complete_steps w i b err ps :
  runs w !! i = Some RunStarted →
  rtc step w (complete i (execute (timeout (src w)) b err ps) w).
Proof.
  intros Hi. pose proof (lookup_lt_Some _ _ _ Hi) as Hlt. unfold complete.
  eapply rtc_l; [by apply (step_begin w i)|].
  eapply rtc_l.
  { apply (step_finish (set_run i (RunExecuting (clk w)) w) i (clk w) b err ps). simpl. by rewrite list_lookup_insert_eq. }
  apply rtc_once. apply step_close. simpl. rewrite list_lookup_insert_eq; [done|]. by rewrite length_insert.
Qed.

(** A run in flight can end with any answer of the command. *)
Lemma run_can_finish w r b err ps :
  inv w → inflight (src w) = Some r →
  ∃ w', rtc step w w' ∧ runs w' !! run_id r = Some RunDone ∧ callers w' = callers w ∧ clk w' = clk w ∧
    ∃ st, src w' = refresh st (clk w) (is_forcing (src w)) (execute (timeout (src w)) b err ps) (src w) ∧ st <= clk w.
Proof.
  intros Hi Hr. pose proof (i_inflight _ Hi r Hr) as Hlt.
  destruct (lookup_lt_is_Some_2 (runs w) (run_id r) Hlt) as [p Hp].
  destruct (i_runs _ Hi _ _ Hp) as ([_ Ha] & Hst & _).
  assert (Hact : active_phase p) by (apply Ha; by exists r).
  destruct p as [|st| |]; try done.
  - eexists. split; [by apply (complete_steps w (run_id r) b err ps)|]. simpl.
    rewrite list_lookup_insert_eq by (by rewrite !length_insert). split_and!; try done. by exists (clk w).
  - exists (set_run (run_id r) RunDone (finish (run_id r) st (execute (timeout (src w)) b err ps) w)). split.
    { eapply rtc_l; [by apply (step_finish w (run_id r) st b err ps)|]. apply rtc_once. apply step_close. simpl.
      by rewrite list_lookup_insert_eq. }
    simpl. rewrite list_lookup_insert_eq by (by rewrite !length_insert). split_and!; try done.
    exists st. split; [done|]. destruct (Hst st eq_refl). lia.
Qed.

(** The run a caller waits for can be over. *)
Lemma wait_can_end w c i :
  inv w → callers w !! c = Some (Waiting i) →
  ∃ w', rtc step w w' ∧ runs w' !! i = Some RunDone ∧ callers w' !! c = Some (Waiting i).
Proof.
  intros Hi Hc. pose proof (i_callers _ Hi) as Hcl. rewrite Forall_lookup in Hcl. apply Hcl in Hc as Hlt. simpl in Hlt.
  destruct (lookup_lt_is_Some_2 _ _ Hlt) as [p Hp]. destruct (i_runs _ Hi _ _ Hp) as ([Ha _] & _).
  assert (Hact : active_phase p → ∃ w', rtc step w w' ∧ runs w' !! i = Some RunDone ∧ callers w' !! c = Some (Waiting i)).
  { intros Hact. destruct (Ha Hact) as (r & Hr & <-).
    destruct (run_can_finish w r false RunNil [] Hi Hr) as (w' & Hs & Hd & Hcs & _). exists w'. by rewrite Hcs. }
  destruct p as [|st| |]; try by apply Hact.
  - exists (set_run i RunDone w). split; [by apply rtc_once, step_close|]. simpl. by rewrite list_lookup_insert_eq.
  - by exists w.
Qed.

(** ** Lemmas: what forces a refresh *)

(** The two reasons. *)
Definition standing_reason (now : Time) (s : ExecSecretSource) : Prop :=
  refused s = value s ∧ value s ≠ [] ∧ inflight s = None ∧ 0 < failures s ∧
  lastForced s + Second <= retryAt s <= now.

Definition refusal_reason (now : Time) (s : ExecSecretSource) : Prop :=
  refused s ≠ value s ∧
  spaced (if decide (value s = forcedValue s)
          then Z.min (2 * Z.max (forcedSpacing s) execInvalidateInterval) execInvalidateIntervalMax
          else execInvalidateInterval) now s.

Lemma start_unforced now fresh s s' r :
  started now false fresh s s' r → is_forcing s = false → is_forcing s' = false.
Proof. unfold is_forcing. by inversion 1; subst; simpl. Qed.

Lemma start_standing now fresh s s' r :
  src_core now s → refusal_ok s → refused s = value s → value s ≠ [] → is_forcing s = false →
  started now true fresh s s' r → is_forcing s' = true → standing_reason now s.
Proof.
  intros Hc Hr Hrv Hv Hf Hs Hf'. destruct Hr as [Hr|[Hr|[Hn Hfl]]]; [congruence..|].
  pose proof (c_backoff _ _ Hc Hn Hfl). inversion Hs; subst; try congruence. repeat split; done || lia.
Qed.

Lemma Secret_forces now fresh s :
  src_core now s → refusal_ok s → is_forcing s = false → is_forcing (fst (Secret_enter now fresh s)) = true →
  standing_reason now s.
Proof.
  intros Hc Hr Hf. destruct (Secret_enter now fresh s) as [s' a] eqn:E. simpl. intros Hf'.
  pose proof (startLocked_spec now false fresh s) as Hst0.
  destruct (Secret_enter_cases _ _ _ _ _ Hc E) as [(_ & _ & _ & _ & ->)|(_ & [(-> & _)|(run & _ & Es)])].
  - destruct (_ <? _); [congruence|]. apply start_unforced in Hst0; [congruence|done].
  - congruence.
  - pose proof (startLocked_spec now (is_refused s) fresh s) as Hst. rewrite Es in Hst.
    destruct (is_refused s) eqn:Er; [|apply start_unforced in Hst; [simpl in *; congruence|done]].
    apply is_refused_spec in Er as [? ?]. by eapply start_standing.
Qed.

Lemma Invalidate_forces now fresh rejected s :
  src_core now s → refusal_ok s → is_forcing s = false → is_forcing (Invalidate now fresh rejected s) = true →
  standing_reason now s ∨ refusal_reason now s.
Proof.
  intros Hc Hr Hf. rewrite Invalidate_unfold.
  case_bool_decide as Hcur; [congruence|]. assert (rejected = value s) as ->.
  { destruct (decide (rejected = value s)); tauto. }
  case_bool_decide as Href.
  - intros Hf'. left. assert (Hv : value s ≠ []) by tauto.
    exact (start_standing _ _ _ _ _ Hc Hr (eq_sym Href) Hv Hf (startLocked_spec now true fresh s) Hf').
  - pose proof (invalidate_spacing_exact now (value s) s Hc) as [Hex Hb].
    rewrite Hf. destruct (negb (time_IsZero _) && _) eqn:Esp; [congruence|]. intros _. right. split; [congruence|].
    apply spacing_elapsed in Esp; [|done|by destruct (c_lastForced _ _ Hc)].
    rewrite Hex in Esp. case_decide; case_bool_decide; done.
Qed.

(** ** Properties *)

(** However many upstream refusals, callers and command failures interleave,
    two refreshes forced by a refusal are never less than a second apart. *)
Theorem forced_refreshes_spaced w :
  reachable w → StronglySorted (λ later earlier, earlier + Second <= later) (forcedAt w).
Proof. intros Hr. by destruct (source_reachable_inv w Hr). Qed.

(** A step makes a run a forced refresh for one of two reasons: a refusal of
    the current value, at least the interval after the last forced refresh (five
    seconds, doubled for each refused replacement up to five minutes); or a
    refusal still standing whose refresh failed, once the failure backoff is over. *)
Theorem forced_refresh_reason w w' :
  reachable w → step w w' → is_forcing (src w) = false → is_forcing (src w') = true →
  lastForced (src w') = clk w ∧ (standing_reason (clk w) (src w) ∨ refusal_reason (clk w) (src w)).
Proof.
  intros Hreach Hs Hf Hf'. pose proof (source_reachable_inv w Hreach) as Hi.
  pose proof (i_core _ Hi) as Hc. pose proof (i_refusal _ Hi) as Hr.
  destruct Hs as [w t Ht|w|w rejected|w c rejected Hcl|w i Hri|w i st b err ps Hri|w i Hri|w c i Hcl Hri|w c i Hcl];
    simpl in *; try congruence.
  - pose proof (Secret_forces (clk w) (length (runs w)) _ Hc Hr Hf) as Hwhy.
    pose proof (Secret_enter_entered (clk w) (length (runs w)) _ Hc Hr) as He.
    unfold call_secret in *. destruct (Secret_enter _ _ _) as [s a]. simpl in *.
    destruct (e_force _ _ _ _ He) as [[? _]|(_ & _ & Hl & _)]; [congruence|]. auto.
  - pose proof (Invalidate_entered (clk w) (length (runs w)) rejected _ Hc Hr) as He.
    destruct (e_force _ _ _ _ He) as [[? _]|(_ & _ & Hl & _)]; [congruence|]. split; [done|].
    by eapply Invalidate_forces.
  - by destruct (execute _ _ _ _).
Qed.

Lemma started_run now force fresh s s' run :
  started now force fresh s s' (Some run) →
  ∃ r, inflight s' = Some r ∧ run_id r = run ∧ (force = true → forced r = true).
Proof. inversion 1; subst; simpl; eexists; split_and!; try done. Qed.

(** What a caller of [Secret] is told at once. *)
Definition secret_decision (now : Time) (s s' : ExecSecretSource) (history : list (Time * str)) (a : answer) : Prop :=
  match a with
  | Return v None =>
      v = value s ∧ v ≠ [] ∧
      ((v ≠ refused s ∧ ∃ t h, history = (t, v) :: h ∧ t <= now < t + ttl s ∧
          (t + ttl s - refreshAhead (ttl s) <= now → retryAt s <= now → inflight s' ≠ None)) ∨
       (inflight s = None ∧ 0 < failures s ∧ now < retryAt s))
  | Return v (Some e) =>
      v = [] ∧ history = [] ∧ lastErr s = Some e ∧ inflight s = None ∧ now < retryAt s
  | Wait i => ∃ r, inflight s' = Some r ∧ run_id r = i ∧ (value s ≠ [] → refused s = value s → forced r = true)
  end.

(** [Secret] answers at once only with the latest acquired credential: one
    that the upstream has not refused, from a run started less than the TTL ago
    (and then a refresh is under way inside the refresh-ahead window), or the
    previous one while a failed refresh is backing off.  It fails only when no
    credential was ever acquired; otherwise the caller waits for the run in
    flight, which is a forced one when the credential was refused. *)
Theorem secret_answers w s a :
  reachable w → Secret_enter (clk w) (length (runs w)) (src w) = (s, a) →
  secret_decision (clk w) (src w) s (acquired w) a.
Proof.
  intros Hreach E. pose proof (source_reachable_inv w Hreach) as Hi. pose proof (i_core _ Hi) as Hc.
  pose proof (i_value _ Hi) as Hv.
  destruct (Secret_enter_cases _ _ _ _ _ Hc E) as [(Hne & Hexp & Href & -> & Hs)|(_ & [(-> & Hn & Ht & ->)|(run & -> & Es)])].
  - simpl. split; [done|]. split; [done|]. left. apply is_refused_false with (now := clk w) in Href; [|done].
    split; [congruence|]. destruct (acquired w) as [|[t v] h]; [done|].
    destruct Hv as (Ht & <- & _ & He & Hra). exists t, h. split; [done|]. split; [lia|]. intros Hin Hre.
    rewrite Hs. destruct (Z.ltb_spec (clk w) (refreshAt (src w))); [lia|].
    pose proof (startLocked_spec (clk w) false (length (runs w)) (src w)) as Hst. inversion Hst; subst; simpl; try done; [congruence|lia].
  - pose proof (held_failed _ _ Hc Ht) as Hf. destruct (decide (value (src w) = [])) as [Hz|Hz]; simpl.
    + pose proof (failed_lastErr _ _ Hc Hf) as Hl. destruct (lastErr (src w)) as [e|] eqn:El; [|done].
      split_and!; try done. destruct (acquired w) as [|[t v] h]; [done|]. destruct Hv as (_ & Hv & ? & _). congruence.
    + split; [done|]. split; [done|]. by right.
  - pose proof (startLocked_spec (clk w) (is_refused (src w)) (length (runs w)) (src w)) as Hst. rewrite Es in Hst.
    apply started_run in Hst as (r & Hr & Hid & Hf). exists r. split_and!; try done.
    intros. by apply Hf, is_refused_spec.
Qed.

(** An answer that is the source's current value, or its error. *)
Definition current_answer (s : ExecSecretSource) (c : caller) : Prop :=
  match c with
  | Waiting _ => True
  | Answered v err => (v = value s ∧ err = None) ∨ (v = [] ∧ err = lastErr s ∧ value s = [])
  end.

Lemma Secret_current now fresh s s' a :
  src_core now s → refusal_ok s → Secret_enter now fresh s = (s', a) → current_answer s' (from_answer a).
Proof.
  intros Hc Hr E. pose proof (Secret_enter_entered now fresh s Hc Hr) as He. rewrite E in He.
  destruct (e_kept _ _ _ _ He) as (Hv & _ & _ & _ & _ & Hl & _). simpl in *.
  destruct (Secret_enter_cases _ _ _ _ _ Hc E) as [(_ & _ & _ & -> & _)|(_ & [(_ & _ & _ & ->)|(run & -> & _)])].
  - left. by rewrite Hv.
  - destruct (decide (value s = [])); [right | left]; simpl; by rewrite ?Hv, ?Hl.
  - done.
Qed.

Lemma Reacquire_current rejected s : current_answer s (from_answer (Reacquire_enter rejected s)).
Proof.
  unfold Reacquire_enter. destruct (inflight s); [destruct (negb _); [|done]|];
    (destruct (str_eqb (value s) []) eqn:E; simpl; [apply str_eqb_nil in E; by right | by left]).
Qed.

Lemma exit_current s : current_answer s (Answered (fst (Secret_exit s)) (snd (Secret_exit s))).
Proof.
  unfold Secret_exit. destruct (str_eqb (value s) []) eqn:E; simpl; [apply str_eqb_nil in E; by right | by left].
Qed.

(** A step that answers a caller answers it currently, or cancels it. *)
Lemma step_answer w w' c v err :
  inv w → step w w' → callers w' !! c = Some (Answered v err) → callers w !! c ≠ Some (Answered v err) →
  (v = [] ∧ err = Some ErrContext) ∨ current_answer (src w') (Answered v err).
Proof.
  intros Hi Hs Hc' Hc. pose proof (i_core _ Hi) as Hcore. pose proof (i_refusal _ Hi) as Href.
  assert (Hnew : ∀ cs, (callers w ++ cs) !! c = Some (Answered v err) → Answered v err ∈ cs).
  { intros cs [?|[_ ?]]%lookup_app_Some; [done|]. by eapply list_elem_of_lookup_2. }
  destruct Hs as [w t Ht|w|w rejected|w i rejected Hcl|w i Hri|w i st b er ps Hri|w i Hri|w j i Hcl Hri|w j i Hcl];
    try done; simpl in Hc'.
  - right. unfold call_secret in *. destruct (Secret_enter _ _ _) as [s a] eqn:E. simpl in Hc'.
    apply Hnew, list_elem_of_singleton in Hc' as ->. by eapply Secret_current.
  - apply Hnew in Hc'. by apply elem_of_nil in Hc'.
  - right. apply Hnew, list_elem_of_singleton in Hc' as ->. apply Reacquire_current.
  - right. apply list_lookup_insert_Some in Hc' as [(_ & <- & _)|(_ & ?)]; [apply exit_current | done].
  - left. apply list_lookup_insert_Some in Hc' as [(_ & [= <- <-] & _)|(_ & ?)]; done.
Qed.

(** A call of [Secret] or [Reacquire] is answered with the value current at
    that moment, never with an empty credential and no error; apart from the
    caller's own cancellation it fails only if no run has ever succeeded, and
    then with the error of the last run. *)
Theorem answers_are_current w w' c v err :
  reachable w → step w w' → callers w' !! c = Some (Answered v err) → callers w !! c ≠ Some (Answered v err) →
  (v = value (src w') ∧ v ≠ [] ∧ err = None) ∨ (v = [] ∧ err = Some ErrContext) ∨
  (v = [] ∧ err ≠ None ∧ err = lastErr (src w') ∧ acquired w' = []).
Proof.
  intros Hreach Hs Hc' Hc. pose proof (source_reachable_inv w Hreach) as Hi.
  pose proof (inv_step _ _ Hi Hs) as Hi'.
  assert (Hempty : value (src w') = [] → acquired w' = []).
  { intros Hz. destruct (decide (acquired w' = [])); [done|]. by destruct (acquired_value w' Hi'). }
  pose proof (i_callers _ Hi') as Hok. rewrite Forall_lookup in Hok. apply Hok in Hc' as Hcok. clear Hok.
  destruct (step_answer _ _ _ _ _ Hi Hs Hc' Hc) as [?|[[-> ->]|(-> & -> & Hz)]];
    [by right; left|by left|].
  right. right. split_and!; try done; [|by apply Hempty]. simpl in Hcok. by destruct (lastErr _).
Qed.

(** At most one execution of the command is in progress, however many callers
    wait, and every waiting caller waits for one that exists. *)
Theorem single_flight w i j p q :
  reachable w → runs w !! i = Some p → runs w !! j = Some q → active_phase p → active_phase q → i = j.
Proof.
  intros Hreach Hp Hq Hap Haq. pose proof (source_reachable_inv w Hreach) as Hi.
  destruct (i_runs _ Hi _ _ Hp) as ([Ha _] & _). destruct (i_runs _ Hi _ _ Hq) as ([Hb _] & _).
  destruct (Ha Hap) as (r & Hr & <-). destruct (Hb Haq) as (r' & Hr' & <-). congruence.
Qed.

(** Nobody is stranded: from every reachable state each waiting caller can
    still be answered, other than by giving up itself. *)
Theorem waiter_answered w c i :
  reachable w → callers w !! c = Some (Waiting i) →
  ∃ w' v err, rtc step w w' ∧ callers w' !! c = Some (Answered v err) ∧ current_answer (src w') (Answered v err).
Proof.
  intros Hreach Hc. pose proof (source_reachable_inv w Hreach) as Hi.
  destruct (wait_can_end w c i Hi Hc) as (w1 & Hs & Hd & Hc1).
  eexists (set_caller c _ w1), _, _. split; [eapply rtc_r; [exact Hs|]; by eapply step_wake|]. simpl.
  rewrite list_lookup_insert_eq by (by eapply lookup_lt_Some). split; [done | apply exit_current].
Qed.

(** No run need stay in flight. *)
Lemma can_be_idle w :
  inv w → ∃ w', rtc step w w' ∧ inv w' ∧ inflight (src w') = None ∧ timeout (src w') = timeout (src w).
Proof.
  intros Hi. destruct (inflight (src w)) as [r|] eqn:Hr; [|by exists w].
  destruct (run_can_finish w r false RunNil [] Hi Hr) as (w' & Hs & _ & _ & _ & st & Hsrc & _).
  exists w'. split_and!; [done|by eapply rtc_invariant; [intros a b; apply inv_step|exact Hi|]|..];
    rewrite Hsrc; by destruct (execute _ _ _ _).
Qed.

(** Once the backoff is over a caller of [Secret] starts a run. *)
Lemma run_can_start w :
  inv w → inflight (src w) = None →
  ∃ w' r, rtc step w w' ∧ inv w' ∧ inflight (src w') = Some r ∧ runs w' !! run_id r = Some RunStarted ∧
    timeout (src w') = timeout (src w).
Proof.
  intros Hi Hr. set (t := Z.max (clk w) (Z.max (retryAt (src w)) (expires (src w)))).
  assert (Ht : clk w <= t) by lia. pose proof (tick_inv w t Hi Ht) as Hi1.
  pose proof (inv_step _ _ Hi1 (step_secret _)) as Hi2.
  assert (Hrun : ∃ b, Secret_enter t (length (runs w)) (src w) =
    (setInflight (Some {| run_id := length (runs w); forced := b |}) (if b then setLastForced t (src w) else src w),
     Wait (length (runs w)))).
  { exists (is_refused (src w)). unfold Secret_enter, time_Before.
    rewrite (proj2 (Z.ltb_ge t (expires (src w)))) by lia. rewrite andb_false_r. simpl.
    unfold startLocked, time_Before. by rewrite Hr, (proj2 (Z.ltb_ge t (retryAt (src w)))) by lia. }
  destruct Hrun as [b Hrun]. eexists (call_secret (tick t w)), {| run_id := length (runs w); forced := b |}.
  split; [eapply rtc_l; [by apply step_tick|]; apply rtc_once, step_secret|]. split; [done|].
  unfold call_secret. simpl. rewrite Hrun. simpl. rewrite Hr. split_and!; [done| |by destruct b].
  by rewrite list_lookup_middle.
Qed.

(** What [Secret] answers just after a run. *)
Lemma refreshed_serves now fresh b v s :
  0 < ttl s → v ≠ [] → 
  let s' := refresh now now b (Ok v) s in
  is_refused s' = false ∧ snd (Secret_enter now fresh s') = Return v None.
Proof.
  intros Ht Hv s'. assert (Hr : is_refused s' = false).
  { destruct (is_refused s') eqn:E; [|done]. apply is_refused_spec in E as [_ E]. done. }
  split; [done|]. unfold Secret_enter. rewrite Hr. simpl value. rewrite str_eqb_neq by done.
  unfold time_Before at 1. simpl. unfold time_Add at 1. rewrite (proj2 (Z.ltb_lt _ _)) by lia. simpl.
  destruct (negb _); [|done]. unfold startLocked. simpl. by destruct (time_Before _ _).
Qed.

(** The source recovers from every reachable state (expired, refused, backing
    off): once the command prints a credential it becomes the value [Secret] serves. *)
Theorem source_recovers w ps v :
  reachable w → execute (timeout (src w)) false RunNil ps = Ok v →
  ∃ w', rtc step w w' ∧ value (src w') = v ∧ is_refused (src w') = false ∧ failures (src w') = 0 ∧
    snd (Secret_enter (clk w') (length (runs w')) (src w')) = Return v None.
Proof.
  intros Hreach Hv. pose proof (source_reachable_inv w Hreach) as Hi. pose proof (execute_nonempty _ _ _ _ _ Hv) as Hne.
  destruct (can_be_idle w Hi) as (w1 & Hs1 & Hi1 & Hn1 & Ht1).
  destruct (run_can_start w1 Hi1 Hn1) as (w2 & r & Hs2 & Hi2 & _ & Hp & Ht2).
  pose proof (complete_steps w2 _ false RunNil ps Hp) as Hs3. rewrite Ht2, Ht1, Hv in Hs3.
  exists (complete (run_id r) (Ok v) w2). split; [by repeat (etrans; [eassumption|])|].
  destruct (refreshed_serves (clk w2) (length (runs (complete (run_id r) (Ok v) w2))) (is_forcing (src w2)) v (src w2)) as [Hr Ha];
    [apply (i_core _ Hi2)|done|]. by split_and!.
Qed.

(** What the command prints is read the same however its writes are split: the
    credential is the trimmed first line of the whole output when that line ends
    within the capture limit, and every failure is one of three fixed classes. *)
Theorem credential_of_output timeout err ps :
  err = RunNil ∨ err = RunWaitDelay →
  execute timeout false err ps = credential_of execOutputLimit (concat ps).
Proof. intros [-> | ->]; by apply firstLine_reference. Qed.

(** ** Witnesses *)

Lemma demo_waiting_reachable : reachable demo_waiting.
Proof.
  exists [lit "/bin/token"], (10 * Minute), (10 * Second), demo_source, (1000 * Second).
  split; [by vm_compute|]. split; [done|]. split; [done|]. apply rtc_once. apply step_secret.
Qed.

Lemma source_reachable_rtc w w' : reachable w → rtc step w w' → reachable w'.
Proof.
  intros (a & d & d' & s & t & ? & ? & ? & Hr) Hs. exists a, d, d', s, t. split_and!; try done. by etrans.
Qed.

Lemma demo_acquired_reachable : reachable demo_acquired.
Proof.
  apply (source_reachable_rtc demo_waiting); [apply demo_waiting_reachable|].
  exact (complete_steps demo_waiting 0 false RunNil demo_output eq_refl).
Qed.

Lemma demo_secret_served : reachable demo_served.
Proof.
  apply (source_reachable_rtc demo_acquired); [apply demo_acquired_reachable|]. apply rtc_once, (step_secret demo_acquired).
Qed.

Lemma demo_refused_reachable : reachable demo_refused.
Proof.
  apply (source_reachable_rtc demo_served); [apply demo_secret_served|].
  apply rtc_once, (step_invalidate demo_served (lit "token")).
Qed.

Lemma forced_refreshes_spaced_witness :
  forcedAt demo_refused = [1000 * Second] ∧
  StronglySorted (λ later earlier, earlier + Second <= later) (forcedAt demo_refused).
Proof. split; [done|]. apply (forced_refreshes_spaced demo_refused demo_refused_reachable). Defined.

Lemma forced_refresh_reason_witness :
  lastForced (src demo_refused) = clk demo_served ∧
  (standing_reason (clk demo_served) (src demo_served) ∨ refusal_reason (clk demo_served) (src demo_served)).
Proof.
  apply (forced_refresh_reason demo_served demo_refused demo_secret_served
    (step_invalidate demo_served (lit "token"))); by vm_compute.
Defined.

Lemma secret_answers_witness :
  secret_decision (clk demo_acquired) (src demo_acquired) (src demo_served) (acquired demo_acquired)
    (Return (lit "token") None).
Proof. apply (secret_answers demo_acquired (src demo_served)); [apply demo_acquired_reachable|]. by vm_compute. Defined.

Lemma answers_are_current_witness :
  (lit "token" = value (src demo_served) ∧ lit "token" ≠ [] ∧ (None : option ExecError) = None) ∨
  (lit "token" = [] ∧ (None : option ExecError) = Some ErrContext) ∨
  (lit "token" = [] ∧ (None : option ExecError) ≠ None ∧ None = lastErr (src demo_served) ∧ acquired demo_served = []).
Proof.
  apply (answers_are_current demo_acquired demo_served 1%nat (lit "token") None demo_acquired_reachable
    (step_secret demo_acquired)); by vm_compute.
Defined.

Lemma single_flight_witness : runs demo_waiting !! 0%nat = Some RunStarted ∧ 0%nat = 0%nat.
Proof.
  split; [done|]. by apply (single_flight demo_waiting 0%nat 0%nat RunStarted RunStarted demo_waiting_reachable).
Defined.

Lemma waiter_answered_witness :
  ∃ w' v err, rtc step demo_waiting w' ∧ callers w' !! 0%nat = Some (Answered v err) ∧
    current_answer (src w') (Answered v err).
Proof. by apply (waiter_answered demo_waiting 0%nat 0%nat demo_waiting_reachable). Defined.

Lemma source_recovers_witness :
  ∃ w', rtc step demo_refused w' ∧ value (src w') = lit "token" ∧ is_refused (src w') = false ∧
    failures (src w') = 0 ∧
    snd (Secret_enter (clk w') (length (runs w')) (src w')) = Return (lit "token") None.
Proof. apply (source_recovers demo_refused demo_output (lit "token") demo_refused_reachable). by vm_compute. Defined.

Lemma credential_of_output_witness :
  execute Second false RunNil [lit "to"; lit "ken"] = credential_of execOutputLimit (lit "token").
Proof. apply (credential_of_output Second RunNil [lit "to"; lit "ken"]). by left. Defined.
