(* ===== verification/Recorder.v ===== *)
(** * The response recorder ([internal/proxy/recorder.go])

    [statusRecorder] stands between a handler and the client's writer: it observes
    the status, captures the body for the journal, and after an early commit of the
    event stream keeps every later status from reaching the client.  The record
    below is the struct with, in place of the wrapped writer, its header map and
    what has been written to it; each method is a function of the record, the clock
    and what the wrapped writer answered. *)

From Stdlib Require Import ZArith Lia Bool List Ascii String.
From stdpp Require Import strings gmap.
From S2P Require Import Prelude GoStd GoStr GoHttp.
From S2P Require Import Retry.
From S2P Require RetryAfter.

Open Scope Z_scope.

(** ** Data *)

(** The fields of [journal.Entry] the recorder and the admission paths write. *)
Record Entry := {
  StatusCode : Z;
  ResponseHeaders : option Header;
  QueueStart : Time;
  QueueEnd : Time;
  TimingResponseHeaders : Time;
  ContentType : str;
  ResponseSize : Z;
}.

Definition eta_Entry (e : Entry) : Entry :=
  {| StatusCode := StatusCode e; ResponseHeaders := ResponseHeaders e; QueueStart := QueueStart e;
     QueueEnd := QueueEnd e; TimingResponseHeaders := TimingResponseHeaders e; ContentType := ContentType e;
     ResponseSize := ResponseSize e |}.

Definition set_ResponseHeaders (v : option Header) (e : Entry) : Entry :=
  ltac:(set_field ResponseHeaders v e eta_Entry).
Definition set_QueueStart (v : Time) (e : Entry) : Entry := ltac:(set_field QueueStart v e eta_Entry).
Definition set_QueueEnd (v : Time) (e : Entry) : Entry := ltac:(set_field QueueEnd v e eta_Entry).
Definition set_ContentType (v : str) (e : Entry) : Entry := ltac:(set_field ContentType v e eta_Entry).
Definition set_ResponseSize (v : Z) (e : Entry) : Entry := ltac:(set_field ResponseSize v e eta_Entry).

(** What the wrapped writer has been given. *)
Inductive wire_event :=
| WireHeader (code : Z)
| WireBody (b : str)
| WireFlush.

(** [transcode.ExchangeProvenance] and [transcode.Outcome]. *)
Inductive ExchangeProvenance :=
| ProvenanceUpstreamHTTP
| ProvenanceUpstreamTransportError
| ProvenanceUpstreamBodyError
| ProvenanceClientAbort
| ProvenanceDownstreamWriteError
| ProvenanceLocalRequestConversionError
| ProvenanceLocalResponseConversionError
| ProvenanceLocalStreamValidationError.

#[export] Instance ExchangeProvenance_eq_dec : EqDecision ExchangeProvenance.
Proof. solve_decision. Defined.

Record Outcome := {
  o_UpstreamAttempted : bool;
  o_UpstreamStatus : option Z;
  o_UpstreamFailure : bool;
  o_RetryAfter : option Duration;
  o_Provenance : ExchangeProvenance;
  o_ClientAborted : bool;
  o_DownstreamComplete : bool;
  o_LocalFailure : bool;
  o_CircuitRejected : bool;
}.

Definition LocalFailureOutcome : Outcome :=
  {| o_UpstreamAttempted := false; o_UpstreamStatus := Some 502; o_UpstreamFailure := false;
     o_RetryAfter := None; o_Provenance := ProvenanceLocalStreamValidationError; o_ClientAborted := false;
     o_DownstreamComplete := false; o_LocalFailure := true; o_CircuitRejected := false |}.

(** [OutcomeSink]: the first outcome recorded, if any. *)
Definition OutcomeSink_Record (o : Outcome) (sink : option Outcome) : option Outcome :=
  match sink with
  | None => Some o
  | Some _ => sink
  end.

Record statusRecorder := {
  rw_Header : Header;
  wire : list wire_event;
  status : Z;
  entry : option Entry;
  capturedBody : str;
  captureMax : Z;
  captureDone : bool;
  bytesWritten : Z;
  hijacked : bool;
  terminalWritten : bool;
  responseAt : Time;
  writeFailed : bool;
  writeErr : option goerr;
  proxyGeneratedError : bool;
  transportErr : option goerr;
  upstreamAttempted : bool;
  aborted : bool;
  admissionCompleted : bool;
  commentsCommitted : bool;
  upstreamStatusOverride : Z;
  commitSSE : bool;
  committedOKObserved : bool;
  committedResponseStatus : Z;
  transcodeStream : bool;
  dialectErrorFramed : bool;
  localUpgradeFailure : bool;
  switchingProtocolsProbeResolved : bool;
  transcodeOutcome : option Outcome;
}.

Definition eta_rec (r : statusRecorder) : statusRecorder :=
  {| rw_Header := rw_Header r; wire := wire r; status := status r; entry := entry r; capturedBody :=
     capturedBody r; captureMax := captureMax r; captureDone := captureDone r; bytesWritten := bytesWritten r;
     hijacked := hijacked r; terminalWritten := terminalWritten r; responseAt := responseAt r; writeFailed :=
     writeFailed r; writeErr := writeErr r; proxyGeneratedError := proxyGeneratedError r; transportErr :=
     transportErr r; upstreamAttempted := upstreamAttempted r; aborted := aborted r; admissionCompleted :=
     admissionCompleted r; commentsCommitted := commentsCommitted r; upstreamStatusOverride :=
     upstreamStatusOverride r; commitSSE := commitSSE r; committedOKObserved := committedOKObserved r;
     committedResponseStatus := committedResponseStatus r; transcodeStream := transcodeStream r;
     dialectErrorFramed := dialectErrorFramed r; localUpgradeFailure := localUpgradeFailure r;
     switchingProtocolsProbeResolved := switchingProtocolsProbeResolved r; transcodeOutcome :=
     transcodeOutcome r |}.

Definition set_rw_Header (v : Header) (r : statusRecorder) : statusRecorder :=
  ltac:(set_field rw_Header v r eta_rec).
Definition set_wire (v : list wire_event) (r : statusRecorder) : statusRecorder :=
  ltac:(set_field wire v r eta_rec).
Definition set_status (v : Z) (r : statusRecorder) : statusRecorder :=
  ltac:(set_field status v r eta_rec).
Definition set_entry (v : option Entry) (r : statusRecorder) : statusRecorder :=
  ltac:(set_field entry v r eta_rec).
Definition set_capturedBody (v : str) (r : statusRecorder) : statusRecorder :=
  ltac:(set_field capturedBody v r eta_rec).
Definition set_captureDone (v : bool) (r : statusRecorder) : statusRecorder :=
  ltac:(set_field captureDone v r eta_rec).
Definition set_bytesWritten (v : Z) (r : statusRecorder) : statusRecorder :=
  ltac:(set_field bytesWritten v r eta_rec).
Definition set_hijacked (v : bool) (r : statusRecorder) : statusRecorder :=
  ltac:(set_field hijacked v r eta_rec).
Definition set_terminalWritten (v : bool) (r : statusRecorder) : statusRecorder :=
  ltac:(set_field terminalWritten v r eta_rec).
Definition set_responseAt (v : Time) (r : statusRecorder) : statusRecorder :=
  ltac:(set_field responseAt v r eta_rec).
Definition set_writeFailed (v : bool) (r : statusRecorder) : statusRecorder :=
  ltac:(set_field writeFailed v r eta_rec).
Definition set_writeErr (v : option goerr) (r : statusRecorder) : statusRecorder :=
  ltac:(set_field writeErr v r eta_rec).
Definition set_proxyGeneratedError (v : bool) (r : statusRecorder) : statusRecorder :=
  ltac:(set_field proxyGeneratedError v r eta_rec).
Definition set_transportErr (v : option goerr) (r : statusRecorder) : statusRecorder :=
  ltac:(set_field transportErr v r eta_rec).
Definition set_upstreamAttempted (v : bool) (r : statusRecorder) : statusRecorder :=
  ltac:(set_field upstreamAttempted v r eta_rec).
Definition set_aborted (v : bool) (r : statusRecorder) : statusRecorder :=
  ltac:(set_field aborted v r eta_rec).
Definition set_admissionCompleted (v : bool) (r : statusRecorder) : statusRecorder :=
  ltac:(set_field admissionCompleted v r eta_rec).
Definition set_commentsCommitted (v : bool) (r : statusRecorder) : statusRecorder :=
  ltac:(set_field commentsCommitted v r eta_rec).
Definition set_upstreamStatusOverride (v : Z) (r : statusRecorder) : statusRecorder :=
  ltac:(set_field upstreamStatusOverride v r eta_rec).
Definition set_commitSSE (v : bool) (r : statusRecorder) : statusRecorder :=
  ltac:(set_field commitSSE v r eta_rec).
Definition set_committedOKObserved (v : bool) (r : statusRecorder) : statusRecorder :=
  ltac:(set_field committedOKObserved v r eta_rec).
Definition set_committedResponseStatus (v : Z) (r : statusRecorder) : statusRecorder :=
  ltac:(set_field committedResponseStatus v r eta_rec).
Definition set_transcodeStream (v : bool) (r : statusRecorder) : statusRecorder :=
  ltac:(set_field transcodeStream v r eta_rec).
Definition set_dialectErrorFramed (v : bool) (r : statusRecorder) : statusRecorder :=
  ltac:(set_field dialectErrorFramed v r eta_rec).
Definition set_localUpgradeFailure (v : bool) (r : statusRecorder) : statusRecorder :=
  ltac:(set_field localUpgradeFailure v r eta_rec).
Definition set_switchingProtocolsProbeResolved (v : bool) (r : statusRecorder) : statusRecorder :=
  ltac:(set_field switchingProtocolsProbeResolved v r eta_rec).
Definition set_transcodeOutcome (v : option Outcome) (r : statusRecorder) : statusRecorder :=
  ltac:(set_field transcodeOutcome v r eta_rec).

(** The recorder [ServeHTTP] makes for an exchange. *)
Definition newRecorder (h : Header) (e : option Entry) (max : Z) : statusRecorder :=
  {| rw_Header := h; wire := []; status := 0; entry := e; capturedBody := []; captureMax := max;
     captureDone := false; bytesWritten := 0; hijacked := false; terminalWritten := false; responseAt := 0;
     writeFailed := false; writeErr := None; proxyGeneratedError := false; transportErr := None;
     upstreamAttempted := false; aborted := false; admissionCompleted := false; commentsCommitted := false;
     upstreamStatusOverride := 0; commitSSE := false; committedOKObserved := false;
     committedResponseStatus := 0; transcodeStream := false; dialectErrorFramed := false;
     localUpgradeFailure := false; switchingProtocolsProbeResolved := false; transcodeOutcome := None |}.

(** ** Writing

    What the wrapped writer answers to a [Write]. *)
Record answer := { w_n : Z; w_err : option goerr }.

Definition ErrShortWrite : goerr := plain_err (OtherError 0).

(** The contract of [io.Writer]. *)
Definition answer_ok (b : str) (a : answer) : Prop := 0 <= w_n a <= Z.of_nat (length b).

Definition emit_wire (e : wire_event) (r : statusRecorder) : statusRecorder := set_wire (wire r ++ [e]) r.

Definition raw_Write (b : str) (a : answer) : statusRecorder → statusRecorder :=
  emit_wire (WireBody (take (Z.to_nat (w_n a)) b)).

Section recorder.
(** [http.DetectContentType]. *)
Context (DetectContentType : str → str).

Definition on_entry (f : Entry → Entry) (r : statusRecorder) : statusRecorder :=
  set_entry (option_map f (entry r)) r.

(** The journal stamp of an observed status. *)
Definition stamp (code : Z) (now : Time) (h : Header) (e : Entry) : Entry :=
  {| StatusCode := code; ResponseHeaders := Some h; QueueStart := QueueStart e; QueueEnd := QueueEnd e;
     TimingResponseHeaders := now; ContentType := header_Get "Content-Type" h; ResponseSize := ResponseSize e |}.

(** The declared length, when it parses. *)
Definition declared_size (h : Header) (e : Entry) : Entry :=
  let cl := header_Get "Content-Length" h in
  if str_eqb cl [] then e
  else match Atoi cl with
       | Some n => set_ResponseSize n e
       | None => e
       end.

Definition stampCommittedStatus (code : Z) (now : Time) (r : statusRecorder) : statusRecorder :=
  on_entry (stamp code now (rw_Header r)) (set_responseAt now r).

(** [recordImplicitOK]; [None] is a nil sample. *)
Definition recordImplicitOK (sample : option str) (now : Time) (r : statusRecorder) : statusRecorder :=
  if terminalWritten r then r
  else
    let r := set_responseAt now (set_status 200 r) in
    let sniffed e :=
      match sample with
      | Some b =>
          if str_eqb (ContentType e) [] then
            let ct := DetectContentType b in
            set_ResponseHeaders (option_map (header_Set "Content-Type" ct) (ResponseHeaders e)) (set_ContentType ct e)
          else e
      | None => e
      end in
    set_terminalWritten true
      (on_entry (λ e, declared_size (rw_Header r) (sniffed (stamp 200 now (rw_Header r) e))) r).

(** [FlushError]; the answer of the wrapped writer's [Flush]: an error, and
    whether it is [http.ErrNotSupported]. *)
Definition FlushError (now : Time) (res : option (goerr * bool)) (r : statusRecorder) : statusRecorder :=
  match res with
  | None => recordImplicitOK None now (emit_wire WireFlush r)
  | Some (err, notSupported) =>
      if notSupported then r else set_writeErr (Some err) (set_writeFailed true r)
  end.

Definition recordCommittedFailure (code : Z) (now : Time) (r : statusRecorder) : statusRecorder :=
  stampCommittedStatus code now (set_upstreamStatusOverride code (set_aborted true r)).

(** The answers a call that writes a comment and flushes it gets. *)
Record io := { io_write : answer; io_flush : option (goerr * bool) }.

(** After the commit: the first success, and the first failure, are observed. *)
Definition observeCommittedOK (code : Z) (now : Time) (r : statusRecorder) : statusRecorder :=
  if (200 <=? code) && (code <? 300) && terminalWritten r && negb (committedOKObserved r) &&
     (upstreamStatusOverride r =? 0)
  then stampCommittedStatus code now (set_committedResponseStatus code (set_committedOKObserved true r))
  else r.

Definition failedClose (now : Time) (close : io) (r : statusRecorder) : statusRecorder :=
  if negb (transcodeStream r) && negb (dialectErrorFramed r)
  then FlushError now (io_flush close)
         (raw_Write (lit ": queue-wait failed: upstream" ++ ["010"; "010"]%char) (io_write close) r)
  else r.

Definition observeCommittedFailure (code : Z) (now : Time) (close : io) (r : statusRecorder) : statusRecorder :=
  if 300 <=? code then
    let r := set_aborted true r in
    if (upstreamStatusOverride r =? 0) && negb (committedOKObserved r)
    then failedClose now close (stampCommittedStatus code now (set_upstreamStatusOverride code r))
    else r
  else r.

Definition WriteHeader (code : Z) (now : Time) (close : io) (r : statusRecorder) : statusRecorder :=
  if commentsCommitted r then observeCommittedFailure code now close (observeCommittedOK code now r)
  else if (200 <=? code) && terminalWritten r then emit_wire (WireHeader code) r
  else if commitSSE r then
    let r := emit_wire (WireHeader code) (set_status code r) in
    if 200 <=? code then set_terminalWritten true r else r
  else
    let r := set_responseAt now (set_status code r) in
    let r := on_entry (λ e, declared_size (rw_Header r) (stamp code now (rw_Header r) e)) r in
    let r := emit_wire (WireHeader code) r in
    if 200 <=? code then set_terminalWritten true r else r.

(** Appending to the capture, up to its bound.  [close] says whether an exhausted
    bound ends the capture. *)
Definition capture (close : bool) (b : str) (r : statusRecorder) : statusRecorder :=
  let remaining := captureMax r - Z.of_nat (length (capturedBody r)) in
  if 0 <? remaining then
    if remaining <? Z.of_nat (length b)
    then set_captureDone true (set_capturedBody (capturedBody r ++ take (Z.to_nat remaining) b) r)
    else set_capturedBody (capturedBody r ++ b) r
  else if close then set_captureDone true r else r.

Definition has_entry (r : statusRecorder) : bool := match entry r with Some _ => true | None => false end.

(** The content type a wrapped writer may set during [Write]. *)
Definition late_content_type (r : statusRecorder) : statusRecorder :=
  on_entry (λ e,
    if str_eqb (ContentType e) [] then
      let ct := header_Get "Content-Type" (rw_Header r) in
      if str_eqb ct [] then e
      else set_ResponseHeaders (option_map (header_Set "Content-Type" ct) (ResponseHeaders e)) (set_ContentType ct e)
    else e) r.

(** What follows the wrapped writer's answer. *)
Definition accountWrite (b : str) (a : answer) (r : statusRecorder) : statusRecorder :=
  let n := w_n a in
  let r := match w_err a with
           | Some e => set_writeErr (Some e) (set_writeFailed true r)
           | None => if n =? Z.of_nat (length b) then r
                     else set_writeErr (Some ErrShortWrite) (set_writeFailed true r)
           end in
  let r := set_bytesWritten (bytesWritten r + n) r in
  let r := if has_entry r && negb (captureDone r) && (0 <? n)
           then capture true (take (Z.to_nat n) b) r else r in
  late_content_type r.

(** A committed stream whose failure was closed takes no more of the handler's body. *)
Definition swallows (r : statusRecorder) : bool :=
  commentsCommitted r && (0 <? upstreamStatusOverride r) && negb (transcodeStream r) && negb (dialectErrorFramed r).

Definition Write (b : str) (now : Time) (a : answer) (r : statusRecorder) : statusRecorder * Z :=
  if swallows r then
    let r := if has_entry r && negb (captureDone r) && (0 <? Z.of_nat (length b)) then capture false b r else r in
    (set_bytesWritten (bytesWritten r + Z.of_nat (length b)) r, Z.of_nat (length b))
  else (accountWrite b a (raw_Write b a (recordImplicitOK (Some b) now r)), w_n a).

(** [http.Error] on the recorder. *)
Definition http_Error (text : str) (code : Z) (now : Time) (close : io) (a : answer) (r : statusRecorder)
    : statusRecorder :=
  let h := header_Set "X-Content-Type-Options" "nosniff"
             (header_Set "Content-Type" "text/plain; charset=utf-8" (header_Del "Content-Length" (rw_Header r))) in
  fst (Write (text ++ ["010"%char]) now a (WriteHeader code now close (set_rw_Header h r))).

Definition Hijack (ok : bool) (now : Time) (r : statusRecorder) : statusRecorder :=
  if negb ok then r
  else
    let r := set_hijacked true r in
    if terminalWritten r then r
    else
      let r := set_terminalWritten true (set_responseAt now (set_status 101 r)) in
      on_entry (stamp 101 now (rw_Header r)) r.

(** The status every classification reads. *)
Definition observedStatus (r : statusRecorder) : Z :=
  if negb (commentsCommitted r) then status r
  else if 0 <? upstreamStatusOverride r then upstreamStatusOverride r
  else if committedOKObserved r then
    if 0 <? committedResponseStatus r then committedResponseStatus r else 200
  else 0.

Definition recoverLocalPanic (now : Time) (close : io) (a : answer) (r : statusRecorder) : statusRecorder :=
  let r := set_aborted true r in
  if negb (terminalWritten r) then
    http_Error "internal error" 502 now close a (set_proxyGeneratedError true r)
  else if commentsCommitted r && (upstreamStatusOverride r =? 0) && negb (committedOKObserved r) then
    let r := set_proxyGeneratedError true r in
    let r := if negb (dialectErrorFramed r)
             then FlushError now (io_flush close)
                    (fst (Write (lit ": queue-wait failed: internal" ++ ["010"; "010"]%char) now (io_write close) r))
             else r in
    recordCommittedFailure 502 now r
  else r.

(** [startQueueComments]: the commit of the event stream, and its first comment. *)
Definition commitQueueComments (now : Time) (c : io) (r : statusRecorder) : statusRecorder :=
  let h := header_Set "Cache-Control" "no-cache"
             (header_Set "Content-Type" "text/event-stream; charset=utf-8" (rw_Header r)) in
  let r := set_commitSSE true (set_rw_Header h r) in
  let r := WriteHeader 200 now c r in
  let r := set_commentsCommitted true (set_commitSSE false r) in
  FlushError now (io_flush c)
    (fst (Write (lit ": queue-wait elapsed=0" ++ ["010"; "010"]%char) now (io_write c) r)).

(** One tick of the comment goroutine. *)
Definition queueComment (elapsed : str) (now : Time) (c : io) (r : statusRecorder) : statusRecorder :=
  FlushError now (io_flush c)
    (fst (Write (lit ": queue-wait elapsed=" ++ elapsed ++ ["010"; "010"]%char) now (io_write c) r)).
End recorder.

(** ** Predicates *)

Definition downstreamWriteFailed (r : statusRecorder) : bool := writeFailed r.

Definition resolveSwitchingProtocolsProbe (r : statusRecorder) : bool * statusRecorder :=
  (negb (switchingProtocolsProbeResolved r), set_switchingProtocolsProbeResolved true r).

Definition proxyTransportOrGeneratedError (r : statusRecorder) : bool :=
  (observedStatus r =? 0) || proxyGeneratedError r.

(** [errors.Is(err, ErrCircuitOpen)]. *)
Fixpoint is_circuit_open (e : goerr) : bool :=
  match e with
  | GoErr k _ unwrap => (match k with CircuitOpen => true | _ => false end) || existsb is_circuit_open unwrap
  end.

Definition retryCircuitOpen (r : statusRecorder) : bool :=
  match transportErr r with Some e => is_circuit_open e | None => false end.

Definition hasRealProxyTransportError (ctxErr : option goerr) (r : statusRecorder) : bool :=
  negb (localUpgradeFailure r) && negb (retryCircuitOpen r) &&
  negb (match transportErr r with Some e => IsNonRetryable e | None => false end) &&
  upstreamAttempted r && proxyGeneratedError r &&
  match transportErr r with
  | Some e => negb (isContextCancellation e && is_ctx_err ctxErr)
  | None => false
  end.

Definition upstreamHandoffAbandoned (r : statusRecorder) : bool := localUpgradeFailure r.

Definition suppressibleClientAbort (ctxErr : option goerr) (r : statusRecorder) : bool :=
  if negb (proxyTransportOrGeneratedError r) then false
  else if hasRealProxyTransportError ctxErr r then false
  else if downstreamWriteFailed r then true
  else if negb (is_ctx_err ctxErr) then false
  else match transportErr r with
       | None => true
       | Some e => isContextCancellation e
       end.

(** ** Sequences of calls

    Every method above is a sequence of these primitive ones: a handler mutates the
    header map and calls the writer's methods, and the proxy sets its flags. *)
Inductive flag :=
| FProxyGeneratedError
| FTransportErr (e : goerr)
| FUpstreamAttempted
| FAborted
| FTranscodeStream
| FDialectErrorFramed
| FLocalUpgradeFailure
| FCommitSSE (b : bool)
| FCommentsCommitted.

Definition run_flag (f : flag) : statusRecorder → statusRecorder :=
  match f with
  | FProxyGeneratedError => set_proxyGeneratedError true
  | FTransportErr e => set_transportErr (Some e)
  | FUpstreamAttempted => set_upstreamAttempted true
  | FAborted => set_aborted true
  | FTranscodeStream => set_transcodeStream true
  | FDialectErrorFramed => set_dialectErrorFramed true
  | FLocalUpgradeFailure => set_localUpgradeFailure true
  | FCommitSSE b => set_commitSSE b
  | FCommentsCommitted => set_commentsCommitted true
  end.

Inductive rop :=
| OpHeader (h : Header)
| OpWriteHeader (code : Z) (now : Time) (close : io)
| OpWrite (b : str) (now : Time) (a : answer)
| OpFlush (now : Time) (res : option (goerr * bool))
| OpHijack (ok : bool) (now : Time)
| OpCommittedFailure (code : Z) (now : Time)
| OpFlag (f : flag).

Section ops.
Context (DetectContentType : str → str).

Definition run_op (o : rop) (r : statusRecorder) : statusRecorder :=
  match o with
  | OpHeader h => set_rw_Header h r
  | OpWriteHeader code now close => WriteHeader DetectContentType code now close r
  | OpWrite b now a => fst (Write DetectContentType b now a r)
  | OpFlush now res => FlushError DetectContentType now res r
  | OpHijack ok now => Hijack ok now r
  | OpCommittedFailure code now => recordCommittedFailure code now r
  | OpFlag f => run_flag f r
  end.

Definition run_ops (os : list rop) (r : statusRecorder) : statusRecorder := fold_left (λ r o, run_op o r) os r.

(** The bytes a call reports as accepted. *)
Definition accepted_by (o : rop) (r : statusRecorder) : str :=
  match o with
  | OpWrite b now a => if swallows r then b else take (Z.to_nat (w_n a)) b
  | _ => []
  end.

Fixpoint accepted (os : list rop) (r : statusRecorder) : str :=
  match os with
  | [] => []
  | o :: os => accepted_by o r ++ accepted os (run_op o r)
  end.

(** Calls that keep to the writer's contract. *)
Definition op_answers_ok (o : rop) : Prop :=
  match o with
  | OpWrite b _ a => answer_ok b a
  | _ => True
  end.

(** The order of calls the proxy and [net/http] keep to: statuses are valid,
    informational ones come before the final one, the commit flag is set over
    the commit's own status only, and the mode is entered after it. *)
Definition op_ordered (o : rop) (r : statusRecorder) : Prop :=
  match o with
  | OpWriteHeader code _ _ => 100 <= code ∧ (code < 200 → terminalWritten r = false ∨ commentsCommitted r = true)
  | OpCommittedFailure code _ => 300 <= code
  | OpFlag (FCommitSSE true) => terminalWritten r = false
  | OpFlag FCommentsCommitted => terminalWritten r = true ∧ commentsCommitted r = false
  | _ => True
  end.

Fixpoint ordered (os : list rop) (r : statusRecorder) : Prop :=
  match os with
  | [] => True
  | o :: os => op_ordered o r ∧ ordered os (run_op o r)
  end.
End ops.

(** The status a client of [net/http] receives for what the writer was given: the
    first final status, or 200 when a body or a flush comes first. *)
Fixpoint client_status (w : list wire_event) : option Z :=
  match w with
  | [] => None
  | WireHeader code :: w => if 200 <=? code then Some code else client_status w
  | _ :: _ => Some 200
  end.

(** The primitive calls a composed method makes. *)
Definition error_ops (text : str) (code : Z) (now : Time) (close : io) (a : answer) (h : Header) : list rop :=
  [OpHeader (header_Set "X-Content-Type-Options" "nosniff"
     (header_Set "Content-Type" "text/plain; charset=utf-8" (header_Del "Content-Length" h)));
   OpWriteHeader code now close; OpWrite (text ++ ["010"%char]) now a].

Definition commit_ops (now : Time) (c : io) (h : Header) : list rop :=
  [OpHeader (header_Set "Cache-Control" "no-cache"
     (header_Set "Content-Type" "text/event-stream; charset=utf-8" h));
   OpFlag (FCommitSSE true); OpWriteHeader 200 now c; OpFlag (FCommitSSE false); OpFlag FCommentsCommitted;
   OpWrite (lit ": queue-wait elapsed=0" ++ ["010"; "010"]%char) now (io_write c); OpFlush now (io_flush c)].

(** ** Lemmas *)

Section lemmas.
Context (DetectContentType : str → str).

Lemma http_Error_ops text code now close a r :
  http_Error DetectContentType text code now close a r =
  run_ops DetectContentType (error_ops text code now close a (rw_Header r)) r.
Proof. unfold http_Error, run_ops, error_ops. cbn [fold_left run_op]. exact eq_refl. Qed.

Lemma commitQueueComments_ops now c r :
  commitQueueComments DetectContentType now c r = run_ops DetectContentType (commit_ops now c (rw_Header r)) r.
Proof. unfold commitQueueComments, run_ops, commit_ops. cbn [fold_left run_op run_flag]. exact eq_refl. Qed.

Lemma client_status_app w w' :
  client_status (w ++ w') = match client_status w with Some c => Some c | None => client_status w' end.
Proof. induction w as [|[c|b|] w IH]; simpl; [done| |done|done]. by destruct (200 <=? c). Qed.

(** What has been captured, against what was accepted. *)
Definition cap_body (acc : str) (r : statusRecorder) : Prop :=
  0 <= captureMax r ∧ has_entry r = true ∧ capturedBody r = take (Z.to_nat (captureMax r)) acc ∧
  (captureDone r = true → captureMax r <= Z.of_nat (length acc)).

Definition captured (acc : str) (r : statusRecorder) : Prop :=
  cap_body acc r ∧ bytesWritten r = Z.of_nat (length acc).

Lemma recordImplicitOK_keeps sample now r :
  let r' := recordImplicitOK DetectContentType sample now r in
  captureMax r' = captureMax r ∧ capturedBody r' = capturedBody r ∧ captureDone r' = captureDone r ∧
  bytesWritten r' = bytesWritten r ∧ has_entry r' = has_entry r ∧ rw_Header r' = rw_Header r ∧
  wire r' = wire r ∧ hijacked r' = hijacked r ∧ commentsCommitted r' = commentsCommitted r ∧
  upstreamStatusOverride r' = upstreamStatusOverride r ∧ committedOKObserved r' = committedOKObserved r ∧
  committedResponseStatus r' = committedResponseStatus r ∧ commitSSE r' = commitSSE r ∧
  terminalWritten r' = true ∧ status r' = (if terminalWritten r then status r else 200) ∧
  transcodeStream r' = transcodeStream r ∧ dialectErrorFramed r' = dialectErrorFramed r.
Proof.
  unfold recordImplicitOK. destruct (terminalWritten r) eqn:Et; simpl; [by repeat split|].
  repeat split. unfold has_entry. simpl. by destruct (entry r).
Qed.
(** The fields of the capture. *)
Definition cap_fields (r : statusRecorder) : Z * str * bool * Z * bool :=
  (captureMax r, capturedBody r, captureDone r, bytesWritten r, has_entry r).

Lemma has_entry_on f r : has_entry (on_entry f r) = has_entry r.
Proof. unfold has_entry. simpl. by destruct (entry r). Qed.

Lemma cap_on_entry f r : cap_fields (on_entry f r) = cap_fields r.
Proof. unfold cap_fields. by rewrite has_entry_on. Qed.

Lemma cap_implicit sample now r : cap_fields (recordImplicitOK DetectContentType sample now r) = cap_fields r.
Proof.
  unfold cap_fields.
  destruct (recordImplicitOK_keeps sample now r) as (-> & -> & -> & -> & -> & _). done.
Qed.

Lemma cap_flush now res r : cap_fields (FlushError DetectContentType now res r) = cap_fields r.
Proof. destruct res as [[e []]|]; [done|done|]. unfold FlushError. by rewrite cap_implicit. Qed.

Lemma cap_stamp code now r : cap_fields (stampCommittedStatus code now r) = cap_fields r.
Proof. unfold stampCommittedStatus. by rewrite cap_on_entry. Qed.

Lemma cap_failedClose now c r : cap_fields (failedClose DetectContentType now c r) = cap_fields r.
Proof. unfold failedClose. destruct (_ && _); [|done]. by rewrite cap_flush. Qed.

Lemma cap_WriteHeader code now c r : cap_fields (WriteHeader DetectContentType code now c r) = cap_fields r.
Proof.
  unfold WriteHeader. destruct (commentsCommitted r).
  - assert (Hx : cap_fields (observeCommittedOK code now r) = cap_fields r).
    { unfold observeCommittedOK. destruct (_ && _); [by rewrite cap_stamp | done]. }
    rewrite <- Hx. clear Hx. set (x := observeCommittedOK code now r). clearbody x.
    unfold observeCommittedFailure. destruct (300 <=? code); [|done]. cbv zeta. destruct (_ && _); [|done].
    rewrite cap_failedClose, cap_stamp. done.
  - destruct (_ && _); [done|]. destruct (commitSSE r); [by destruct (200 <=? code)|].
    cbv zeta. destruct (200 <=? code); unfold emit_wire;
      [change (cap_fields (set_terminalWritten _ ?y)) with (cap_fields y)|];
      change (cap_fields (set_wire _ ?y)) with (cap_fields y); by rewrite cap_on_entry.
Qed.

Lemma cap_op o r : match o with OpWrite _ _ _ => True | _ => cap_fields (run_op DetectContentType o r) = cap_fields r end.
Proof.
  destruct o as [h|code now c|b now a|now res|ok now|code now|f]; try done.
  - apply cap_WriteHeader.
  - apply cap_flush.
  - simpl. unfold Hijack. destruct ok; [|done]. simpl. destruct (terminalWritten r); [done|].
    cbv zeta. by rewrite cap_on_entry.
  - simpl. unfold recordCommittedFailure. by rewrite cap_stamp.
  - by destruct f.
Qed.

(** Appending to a capture that agrees with what was accepted. *)
Lemma capture_spec close b acc r :
  cap_body acc r → captureDone r = false →
  cap_body (acc ++ b) (capture close b r) ∧ bytesWritten (capture close b r) = bytesWritten r.
Proof.
  intros (Hm & He & Hb & Hd) Hnd. unfold capture, cap_body. rewrite length_app.
  pose proof (length_take acc (Z.to_nat (captureMax r))) as Hl. rewrite <- Hb in Hl.
  destruct (Z.ltb_spec 0 (captureMax r - Z.of_nat (length (capturedBody r)))) as [Hr|Hr].
  - assert (Hall : capturedBody r = acc) by (rewrite Hb; apply take_ge; lia).
    destruct (Z.ltb_spec (captureMax r - Z.of_nat (length (capturedBody r))) (Z.of_nat (length b))); simpl;
      (split; [|done]); rewrite Hall in *; (split; [done|]); (split; [done|]).
    + rewrite take_app_ge by lia. split; [do 2 f_equal; lia | intros _; lia].
    + rewrite take_ge by (rewrite length_app; lia). split; [done | congruence].
  - assert (Hfull : (Z.to_nat (captureMax r) <= length acc)%nat) by lia.
    destruct close; simpl; rewrite take_app_le, <- Hb by done; (split; [|done]); split_and!; try done; intros _; lia.
Qed.

(** The common tail of both branches of [Write]. *)
Lemma captured_more close b acc r :
  cap_body acc r →
  let r' := if has_entry r && negb (captureDone r) && (0 <? Z.of_nat (length b)) then capture close b r else r in
  cap_body (acc ++ b) r' ∧ bytesWritten r' = bytesWritten r.
Proof.
  intros Hc. pose proof Hc as (Hm & He & Hb & Hd). rewrite He. simpl.
  destruct (captureDone r) eqn:Ed; simpl.
  - specialize (Hd eq_refl). split; [|done]. unfold cap_body. rewrite length_app.
    rewrite take_app_le, <- Hb by lia. split_and!; try done. intros _. lia.
  - destruct (Z.ltb_spec 0 (Z.of_nat (length b))) as [Hlt|Hle]; [by apply capture_spec|].
    destruct b; [|simpl in Hle; lia]. by rewrite app_nil_r.
Qed.

Lemma captured_cap acc r r' : cap_fields r' = cap_fields r → captured acc r → captured acc r'.
Proof. unfold cap_fields, captured, cap_body. by intros [= -> -> -> -> ->]. Qed.

Lemma captured_account b a acc r :
  answer_ok b a → captured acc r → captured (acc ++ take (Z.to_nat (w_n a)) b) (accountWrite b a r).
Proof.
  intros Ha Hc. unfold accountWrite. set (r1 := match w_err a with Some e => _ | None => _ end).
  assert (Hc1 : captured acc r1).
  { eapply captured_cap; [|exact Hc]. subst r1. destruct (w_err a); [|destruct (_ =? _)]; done. }
  clearbody r1. cbv zeta. unfold late_content_type. eapply captured_cap; [apply cap_on_entry|].
  set (r2 := set_bytesWritten (bytesWritten r1 + w_n a) r1).
  set (b' := take (Z.to_nat (w_n a)) b) in *.
  assert (Hn : Z.of_nat (length b') = w_n a) by (subst b'; rewrite length_take; unfold answer_ok in Ha; lia).
  rewrite <- Hn. destruct (captured_more true b' acc r2 (proj1 Hc1)) as [Hb Hw]. cbv zeta in Hb, Hw.
  split; [exact Hb|]. etrans; [exact Hw|]. rewrite length_app. subst r2. simpl. rewrite (proj2 Hc1). lia.
Qed.

Lemma captured_Write b now a acc r :
  answer_ok b a → captured acc r →
  captured (acc ++ accepted_by (OpWrite b now a) r) (fst (Write DetectContentType b now a r)).
Proof.
  intros Ha Hc. unfold Write, accepted_by. destruct (swallows r).
  - destruct (captured_more false b acc r (proj1 Hc)) as [Hb Hw]. cbv zeta. simpl fst. cbv zeta in Hb, Hw.
    set (x := if _ && _ then capture false b r else r) in *. clearbody x.
    split; [exact Hb|]. simpl. rewrite Hw, (proj2 Hc), length_app. lia.
  - simpl fst. apply captured_account; [done|]. eapply captured_cap; [|exact Hc]. apply cap_implicit.
Qed.

(** ** Lemmas: the status *)

(** What only extends the wire keeps the rest. *)
Definition grows (r r' : statusRecorder) : Prop :=
  status r' = status r ∧ terminalWritten r' = terminalWritten r ∧ hijacked r' = hijacked r ∧
  commentsCommitted r' = commentsCommitted r ∧ commitSSE r' = commitSSE r ∧ ∃ w, wire r' = wire r ++ w.

Lemma grows_refl r : grows r r.
Proof. repeat split. exists []. by rewrite app_nil_r. Qed.

Lemma grows_trans r1 r2 r3 : grows r1 r2 → grows r2 r3 → grows r1 r3.
Proof.
  intros (H1 & H2 & H3 & H4 & H5 & w & Hw) (H1' & H2' & H3' & H4' & H5' & w' & Hw').
  repeat split; try congruence. exists (w ++ w'). by rewrite Hw', Hw, app_assoc.
Qed.

Lemma grows_same r r' :
  status r' = status r → terminalWritten r' = terminalWritten r → hijacked r' = hijacked r →
  commentsCommitted r' = commentsCommitted r → commitSSE r' = commitSSE r → wire r' = wire r → grows r r'.
Proof. intros. repeat split; try done. exists []. by rewrite app_nil_r. Qed.

Lemma grows_emit e r : grows r (emit_wire e r).
Proof. repeat split. by exists [e]. Qed.

Lemma grows_flush now res r : terminalWritten r = true → grows r (FlushError DetectContentType now res r).
Proof.
  intros Ht. unfold FlushError. destruct res as [[e []]|]; [apply grows_refl|by apply grows_same|].
  unfold recordImplicitOK. change (terminalWritten (emit_wire WireFlush r)) with (terminalWritten r). rewrite Ht.
  apply grows_emit.
Qed.

Lemma grows_WriteHeader code now c r :
  terminalWritten r = true → 200 <= code ∨ commentsCommitted r = true →
  grows r (WriteHeader DetectContentType code now c r).
Proof.
  intros Ht Hc. unfold WriteHeader. destruct (commentsCommitted r) eqn:Ec.
  - eapply (grows_trans _ (observeCommittedOK code now r)).
    { unfold observeCommittedOK. destruct (_ && _); [by apply grows_same | apply grows_refl]. }
    assert (Ht1 : terminalWritten (observeCommittedOK code now r) = true).
    { unfold observeCommittedOK. by destruct (_ && _). }
    set (x := observeCommittedOK code now r) in *. clearbody x.
    unfold observeCommittedFailure. destruct (300 <=? code); [|apply grows_refl]. cbv zeta.
    destruct (_ && _); [|by apply grows_same].
    match goal with |- grows _ (failedClose _ _ _ ?y) => eapply (grows_trans _ y); [by apply grows_same|]; set (z := y) end.
    assert (Ht2 : terminalWritten z = true) by done. clearbody z. unfold failedClose. destruct (_ && _); [|apply grows_refl].
    eapply grows_trans; [apply grows_emit|]. by apply grows_flush.
  - destruct Hc as [Hc|?]; [|done]. rewrite (proj2 (Z.leb_le _ _)) by done. rewrite Ht. simpl. apply grows_emit.
Qed.

Lemma grows_capture close b r : grows r (capture close b r).
Proof.
  unfold capture. destruct (0 <? _); [destruct (_ <? _)|destruct close]; by (apply grows_same || apply grows_refl).
Qed.

Lemma grows_account b a r : grows r (accountWrite b a r).
Proof.
  unfold accountWrite. set (r1 := match w_err a with Some e => _ | None => _ end).
  assert (H1 : grows r r1) by (subst r1; destruct (w_err a); [|destruct (_ =? _)]; by (apply grows_same || apply grows_refl)).
  eapply grows_trans; [exact H1|]. clearbody r1. cbv zeta. unfold late_content_type, on_entry.
  eapply (grows_trans _ (set_bytesWritten (bytesWritten r1 + w_n a) r1)); [by apply grows_same|].
  set (r2 := set_bytesWritten _ r1). clearbody r2.
  set (y := if _ && _ then capture true _ r2 else r2). eapply (grows_trans _ y); [|by apply grows_same].
  subst y. destruct (_ && _); [apply grows_capture | apply grows_refl].
Qed.

Lemma grows_Write b now a r : terminalWritten r = true → grows r (fst (Write DetectContentType b now a r)).
Proof.
  intros Ht. unfold Write. destruct (swallows r); simpl fst.
  - set (y := if _ && _ then capture false b r else r). eapply (grows_trans _ y); [|by apply grows_same].
    subst y. destruct (_ && _); [apply grows_capture | apply grows_refl].
  - unfold recordImplicitOK. rewrite Ht. eapply grows_trans; [apply grows_emit | apply grows_account].
Qed.

(** Once a final status is written, no call made in order changes it. *)
Lemma grows_op o r :
  terminalWritten r = true → op_ordered o r →
  match o with
  | OpFlag (FCommitSSE _) | OpFlag FCommentsCommitted | OpHijack _ _ => True
  | _ => grows r (run_op DetectContentType o r)
  end.
Proof.
  intros Ht Ho. destruct o as [h|code now c|b now a|now res|ok now|code now|f]; simpl in *; try done.
  - by apply grows_same.
  - apply grows_WriteHeader; [done|]. destruct Ho as [Hv Ho]. destruct (Z.le_gt_cases 200 code); [by left|].
    right. destruct Ho as [?|?]; [lia|congruence|done].
  - by apply grows_Write.
  - by apply grows_flush.
  - by apply grows_same.
  - destruct f; try done; by apply grows_same.
Qed.
End lemmas.

(** The recorded status is the client's. *)
Definition stat_ok (r : statusRecorder) : Prop :=
  (commentsCommitted r = true → terminalWritten r = true) ∧
  (hijacked r = false → client_status (wire r) = if terminalWritten r then Some (status r) else None).

Section status.
Context (DetectContentType : str → str).

Lemma stat_ok_grows r r' : terminalWritten r = true → stat_ok r → grows r r' → stat_ok r'.
Proof.
  intros Ht [Hc Hs] (H1 & H2 & H3 & H4 & H5 & w & Hw). split; rewrite ?H2, ?H4; [done|].
  rewrite H3, H1, Ht in *. intros Hh. rewrite Hw, client_status_app, Hs; done.
Qed.

Lemma stat_ok_same r r' :
  status r' = status r → terminalWritten r' = terminalWritten r → hijacked r' = hijacked r →
  commentsCommitted r' = commentsCommitted r → wire r' = wire r → stat_ok r → stat_ok r'.
Proof. unfold stat_ok. by intros -> -> -> -> ->. Qed.

(** The first body or flush makes the status 200 on both sides. *)
Lemma stat_ok_implicit e sample now r :
  terminalWritten r = false → stat_ok r → (∀ c, e ≠ WireHeader c) →
  stat_ok (recordImplicitOK DetectContentType sample now (emit_wire e r)) ∧
  stat_ok (emit_wire e (recordImplicitOK DetectContentType sample now r)).
Proof.
  intros Ht [Hc Hs] He. rewrite Ht in *.
  assert (Hcs : hijacked r = false → client_status (wire r ++ [e]) = Some 200).
  { intros Hh. rewrite client_status_app, Hs by done. destruct e; [by destruct (He code)|done|done]. }
  split; (split; [intros _|]).
  1, 3: unfold recordImplicitOK; simpl; by rewrite Ht.
  - unfold recordImplicitOK. simpl. rewrite Ht. exact Hcs.
  - unfold recordImplicitOK. rewrite Ht. exact Hcs.
Qed.

Lemma stat_ok_WriteHeader code now c r :
  terminalWritten r = false → stat_ok r → stat_ok (WriteHeader DetectContentType code now c r).
Proof.
  intros Ht Hok. pose proof Hok as [Hc Hs]. unfold WriteHeader.
  destruct (commentsCommitted r) eqn:Ec; [by rewrite Hc in Ht|]. rewrite Ht, andb_false_r in *.
  assert (Hfin : ∀ x : statusRecorder, status x = code → terminalWritten x = false → hijacked x = hijacked r →
    commentsCommitted x = false → wire x = wire r ++ [WireHeader code] →
    stat_ok (if 200 <=? code then set_terminalWritten true x else x)).
  { intros x Hx1 Hx2 Hx3 Hx4 Hx5. destruct (200 <=? code) eqn:E; split; simpl; try done; try congruence.
    - rewrite Hx1, Hx3, Hx5. intros Hh. rewrite client_status_app, Hs by done. simpl. by rewrite E.
    - rewrite Hx2, Hx3, Hx5. intros Hh. rewrite client_status_app, Hs by done. simpl. by rewrite E. }
  destruct (commitSSE r); cbv zeta; by apply Hfin.
Qed.

Lemma stat_ok_op o r : stat_ok r → op_ordered o r → stat_ok (run_op DetectContentType o r).
Proof.
  intros Hok Ho. destruct (terminalWritten r) eqn:Ht.
  - pose proof (grows_op DetectContentType o r Ht Ho) as Hg.
    destruct o as [h|code now c|b now a|now res|ok now|code now|f]; try by eapply stat_ok_grows.
    + simpl. unfold Hijack. destruct ok; [|done]. simpl. rewrite Ht. destruct Hok as [Hc _]. by split.
    + destruct f; try by eapply stat_ok_grows. all: destruct Hok as [Hc Hs]; split; simpl; [by rewrite Ht | exact Hs].
  - assert (Hcc : commentsCommitted r = false).
    { destruct (commentsCommitted r) eqn:E; [|done]. destruct Hok as [Hc _]. by rewrite Hc in Ht. }
    destruct o as [h|code now c|b now a|now res|ok now|code now|f]; simpl.
    + by eapply stat_ok_same.
    + by apply stat_ok_WriteHeader.
    + unfold Write. replace (swallows r) with false by (unfold swallows; by rewrite Hcc). simpl fst.
      destruct (stat_ok_implicit (WireBody (take (Z.to_nat (w_n a)) b)) (Some b) now r Ht Hok) as [_ Hi]; [done|].
      eapply (stat_ok_grows (raw_Write b a (recordImplicitOK DetectContentType (Some b) now r)));
        [unfold recordImplicitOK; by rewrite Ht|exact Hi|apply grows_account].
    + unfold FlushError. destruct res as [[e []]|]; [done|by eapply stat_ok_same|].
      by apply stat_ok_implicit.
    + unfold Hijack. destruct ok; [|done]. simpl. rewrite Ht. by split.
    + by eapply stat_ok_same.
    + destruct f; try by eapply stat_ok_same. simpl in Ho. destruct Ho. congruence.
Qed.
End status.

(** ** Lemmas: what is observed *)

Definition obs_fields (r : statusRecorder) : bool * Z * bool * Z :=
  (commentsCommitted r, upstreamStatusOverride r, committedOKObserved r, committedResponseStatus r).

Section observed.
Context (DetectContentType : str → str).

Lemma obs_flush now res r : obs_fields (FlushError DetectContentType now res r) = obs_fields r.
Proof. unfold FlushError, recordImplicitOK. destruct res as [[e []]|]; try done. by destruct (terminalWritten _). Qed.

Lemma obs_Write b now a r : obs_fields (fst (Write DetectContentType b now a r)) = obs_fields r.
Proof.
  assert (Hcap : ∀ close b' x, obs_fields (capture close b' x) = obs_fields x).
  { intros. unfold capture. destruct (0 <? _); [destruct (_ <? _) | destruct close]; done. }
  unfold Write. destruct (swallows r); simpl fst.
  - change (obs_fields (set_bytesWritten _ ?y)) with (obs_fields y). destruct (_ && _); [apply Hcap | done].
  - unfold accountWrite, late_content_type, on_entry. cbv zeta.
    change (obs_fields (set_entry _ ?y)) with (obs_fields y).
    set (r1 := match w_err a with Some e => _ | None => _ end).
    assert (H1 : obs_fields r1 = obs_fields r).
    { subst r1. unfold raw_Write, emit_wire, recordImplicitOK.
      destruct (w_err a); [|destruct (_ =? _)]; by destruct (terminalWritten r). }
    clearbody r1. destruct (_ && _); [rewrite Hcap|]; exact H1.
Qed.

(** An observed status is never replaced. *)
Lemma obs_WriteHeader code now c r :
  commentsCommitted r = true → 0 < observedStatus r →
  obs_fields (WriteHeader DetectContentType code now c r) = obs_fields r.
Proof.
  intros Hc Ho. unfold WriteHeader, observedStatus in *. rewrite Hc in *. simpl in Ho.
  assert (Hobs : (upstreamStatusOverride r =? 0) = false ∨ committedOKObserved r = true).
  { destruct (Z.ltb_spec 0 (upstreamStatusOverride r)); [left; lia|]. by destruct (committedOKObserved r); [right|]. }
  assert (Hok : observeCommittedOK code now r = r).
  { unfold observeCommittedOK. destruct Hobs as [-> | ->]; simpl; by rewrite !andb_false_r. }
  rewrite Hok. unfold observeCommittedFailure. destruct (300 <=? code); [|done]. simpl.
  destruct Hobs as [-> | ->]; simpl; rewrite ?andb_false_r; done.
Qed.

(** No header reaches the writer through a committed recorder. *)
Definition no_header (e : wire_event) : Prop := match e with WireHeader _ => False | _ => True end.

Definition wire_grows_by (P : wire_event → Prop) (r r' : statusRecorder) : Prop :=
  ∃ w, wire r' = wire r ++ w ∧ Forall P w.

Lemma wire_same P r r' : wire r' = wire r → wire_grows_by P r r'.
Proof. intros He. exists []. by rewrite app_nil_r. Qed.

Lemma wire_trans P r1 r2 r3 : wire_grows_by P r1 r2 → wire_grows_by P r2 r3 → wire_grows_by P r1 r3.
Proof. intros (w & Hw & ?) (w' & Hw' & ?). exists (w ++ w'). rewrite Hw', Hw, app_assoc. split; [done|]. by apply Forall_app. Qed.

Lemma wire_flush now res r : wire_grows_by no_header r (FlushError DetectContentType now res r).
Proof.
  unfold FlushError. destruct res as [[e []]|]; try by apply wire_same.
  exists [WireFlush]. split; [|by repeat constructor].
  destruct (recordImplicitOK_keeps DetectContentType None now (emit_wire WireFlush r)) as (_ & _ & _ & _ & _ & _ & -> & _). done.
Qed.

Lemma wire_capture close b r : wire (capture close b r) = wire r.
Proof. unfold capture. destruct (0 <? _); [destruct (_ <? _) | destruct close]; done. Qed.

Lemma wire_Write b now a r :
  wire (fst (Write DetectContentType b now a r)) =
  if swallows r then wire r else wire r ++ [WireBody (take (Z.to_nat (w_n a)) b)].
Proof.
  unfold Write. destruct (swallows r); simpl fst.
  - change (wire (set_bytesWritten _ ?y)) with (wire y). destruct (_ && _); [apply wire_capture | done].
  - unfold accountWrite, late_content_type, on_entry. cbv zeta. change (wire (set_entry _ ?y)) with (wire y).
    set (r1 := match w_err a with Some e => _ | None => _ end).
    assert (H1 : wire r1 = wire r ++ [WireBody (take (Z.to_nat (w_n a)) b)]).
    { subst r1. unfold raw_Write, emit_wire, recordImplicitOK.
      destruct (w_err a); [|destruct (_ =? _)]; by destruct (terminalWritten r). }
    clearbody r1. destruct (_ && _); [rewrite wire_capture|]; exact H1.
Qed.

Lemma capmax_capture close b r : captureMax (capture close b r) = captureMax r.
Proof. unfold capture. destruct (0 <? _); [destruct (_ <? _) | destruct close]; done. Qed.

Lemma capmax_op o r : captureMax (run_op DetectContentType o r) = captureMax r.
Proof.
  pose proof (cap_op DetectContentType o r) as Hcap. destruct o; try (unfold cap_fields in Hcap; congruence).
  simpl. unfold Write. destruct (swallows r); simpl fst.
  - change (captureMax (set_bytesWritten _ ?y)) with (captureMax y). destruct (_ && _); [apply capmax_capture | done].
  - unfold accountWrite, late_content_type, on_entry. cbv zeta. change (captureMax (set_entry _ ?y)) with (captureMax y).
    set (r1 := match w_err a with Some e => _ | None => _ end).
    assert (H1 : captureMax r1 = captureMax r).
    { subst r1. unfold raw_Write, emit_wire, recordImplicitOK.
      destruct (w_err a); [|destruct (_ =? _)]; by destruct (terminalWritten r). }
    clearbody r1. destruct (_ && _); [rewrite capmax_capture|]; exact H1.
Qed.

Lemma wire_committed code now c r :
  commentsCommitted r = true → wire_grows_by no_header r (WriteHeader DetectContentType code now c r).
Proof.
  intros Hc. unfold WriteHeader. rewrite Hc.
  eapply (wire_trans _ _ (observeCommittedOK code now r)).
  { apply wire_same. unfold observeCommittedOK. by destruct (_ && _). }
  set (x := observeCommittedOK code now r). clearbody x. unfold observeCommittedFailure.
  destruct (300 <=? code); [|by apply wire_same]. cbv zeta. destruct (_ && _); [|by apply wire_same].
  match goal with |- wire_grows_by _ _ (failedClose _ _ _ ?y) => eapply (wire_trans _ _ y); [by apply wire_same|]; set (z := y) end.
  clearbody z. unfold failedClose. destruct (_ && _); [|by apply wire_same].
  eapply (wire_trans _ _ (raw_Write _ _ z)); [|apply wire_flush]. eexists. split; [done|]. by repeat constructor.
Qed.
End observed.

(** An abort is never taken back. *)
Section aborted.
Context (DetectContentType : str → str).

Lemma aborted_flush now res r : aborted (FlushError DetectContentType now res r) = aborted r.
Proof. unfold FlushError, recordImplicitOK. destruct res as [[e []]|]; try done. by destruct (terminalWritten _). Qed.

Lemma aborted_Write b now a r : aborted (fst (Write DetectContentType b now a r)) = aborted r.
Proof.
  assert (Hcap : ∀ close b' x, aborted (capture close b' x) = aborted x).
  { intros. unfold capture. destruct (0 <? _); [destruct (_ <? _) | destruct close]; done. }
  unfold Write. destruct (swallows r); simpl fst.
  - change (aborted (set_bytesWritten _ ?y)) with (aborted y). destruct (_ && _); [apply Hcap | done].
  - unfold accountWrite, late_content_type, on_entry. cbv zeta. change (aborted (set_entry _ ?y)) with (aborted y).
    set (r1 := match w_err a with Some e => _ | None => _ end).
    assert (H1 : aborted r1 = aborted r).
    { subst r1. unfold raw_Write, emit_wire, recordImplicitOK.
      destruct (w_err a); [|destruct (_ =? _)]; by destruct (terminalWritten r). }
    clearbody r1. destruct (_ && _); [rewrite Hcap|]; exact H1.
Qed.

Lemma aborted_WriteHeader code now c r :
  aborted r = true → aborted (WriteHeader DetectContentType code now c r) = true.
Proof.
  intros Ha. unfold WriteHeader. destruct (commentsCommitted r).
  - unfold observeCommittedFailure. destruct (300 <=? code).
    + cbv zeta. destruct (_ && _); [|done]. unfold failedClose. destruct (_ && _); [|done]. by rewrite aborted_flush.
    + unfold observeCommittedOK. by destruct (_ && _).
  - destruct (_ && _); [done|]. destruct (commitSSE r); cbv zeta; by destruct (200 <=? code).
Qed.

Lemma aborted_panic now c a r : aborted (recoverLocalPanic DetectContentType now c a r) = true.
Proof.
  unfold recoverLocalPanic. cbv zeta. destruct (negb (terminalWritten _)).
  - unfold http_Error. rewrite aborted_Write. by apply aborted_WriteHeader.
  - by destruct (_ && _).
Qed.
End aborted.

(** ** Properties *)

Section properties.
Context (DetectContentType : str → str).

(** Whatever a handler writes, in whatever pieces and however the client's
    writer cuts them short, the journal's body is exactly the longest prefix of the
    accepted bytes that fits its bound, and the byte count is exactly what was
    accepted. *)
Theorem capture_exact h e max os :
  0 <= max → Forall op_answers_ok os →
  let r0 := newRecorder h (Some e) max in
  let r := run_ops DetectContentType os r0 in
  capturedBody r = take (Z.to_nat max) (accepted DetectContentType os r0) ∧
  bytesWritten r = Z.of_nat (length (accepted DetectContentType os r0)).
Proof.
  intros Hm Hos r0 r.
  assert (Hgen : ∀ os x acc, Forall op_answers_ok os → captured acc x → captureMax x = max →
    captured (acc ++ accepted DetectContentType os x) (run_ops DetectContentType os x) ∧
    captureMax (run_ops DetectContentType os x) = max).
  { clear. intros os. induction os as [|o os IH]; intros x acc Hos Hc Hx; simpl; [by rewrite app_nil_r|].
    apply Forall_cons in Hos as [Ho Hos]. rewrite app_assoc. apply IH; [done| |by rewrite capmax_op].
    pose proof (cap_op DetectContentType o x) as Hcap.
    destruct o; try (simpl accepted_by; rewrite app_nil_r; by eapply captured_cap). by apply captured_Write. }
  destruct (Hgen os r0 [] Hos) as [[(_ & _ & Hb & _) Hw] Hmax]; [|done|].
  - split; [|done]. split; [done|]. split; [done|]. split; [|done]. by rewrite take_nil.
  - simpl in Hb, Hw. fold r in Hb, Hw, Hmax. rewrite Hmax in Hb. by split.
Qed.

(** C34: The recorded status is the one the client received: after any calls made in
    order, the wrapped writer's first final status (or its implicit 200) is the
    recorded one, and none has been sent exactly while none is recorded, the early
    commit of the event stream included. *)
Theorem recorded_status_is_clients h e max os :
  let r0 := newRecorder h e max in
  let r := run_ops DetectContentType os r0 in
  ordered DetectContentType os r0 → hijacked r = false →
  client_status (wire r) = if terminalWritten r then Some (status r) else None.
Proof.
  intros r0 r Ho. assert (Hok : stat_ok r0) by done. subst r. clearbody r0. revert r0 Ho Hok.
  induction os as [|o os IH]; intros r0 Ho Hok; simpl; [by apply Hok|].
  destruct Ho as [Ho Hos]. apply IH; [done|]. by apply stat_ok_op.
Qed.

(** The observed status is final: once the exchange has observed one, no later
    call a handler makes replaces it, neither on a plain exchange nor behind a
    committed stream. *)
Theorem observed_status_final o r :
  terminalWritten r = true → 0 < observedStatus r → op_ordered o r →
  match o with
  | OpCommittedFailure _ _ | OpFlag FCommentsCommitted => True
  | _ => observedStatus (run_op DetectContentType o r) = observedStatus r
  end.
Proof.
  intros Ht Hpos Ho.
  assert (Hby : ∀ r', obs_fields r' = obs_fields r → status r' = status r → observedStatus r' = observedStatus r).
  { unfold obs_fields, observedStatus. by intros r' [= -> -> -> ->] ->. }
  pose proof (grows_op DetectContentType o r Ht Ho) as Hg.
  destruct o as [h|code now c|b now a|now res|ok now|code now|f]; try done.
  - apply Hby; [|by apply Hg]. destruct (commentsCommitted r) eqn:Ec; [by apply obs_WriteHeader|].
    destruct Ho as [_ Ho]. simpl. unfold WriteHeader. rewrite Ec, Ht.
    destruct (Z.leb_spec 200 code); [done|]. destruct Ho; [lia|congruence|congruence].
  - apply Hby; [apply obs_Write | by apply Hg].
  - apply Hby; [apply obs_flush | by apply Hg].
  - simpl. unfold Hijack. destruct ok; [|done]. simpl. by rewrite Ht.
  - destruct f; try done; by apply Hby.
Qed.

(** A committed stream keeps its 200: no status of a handler ever reaches the
    client's writer again, and the body of a response whose failure was already
    closed does not reach it either. *)
Theorem committed_stream_untouched o r :
  commentsCommitted r = true →
  wire_grows_by no_header r (run_op DetectContentType o r) ∧
  match o with
  | OpWrite _ _ _ => swallows r = true → wire (run_op DetectContentType o r) = wire r
  | _ => True
  end.
Proof.
  intros Hc. destruct o as [h|code now c|b now a|now res|ok now|code now|f]; simpl; (split; [|try done]).
  - by apply wire_same.
  - by apply wire_committed.
  - destruct (swallows r) eqn:Es.
    + apply wire_same. by rewrite wire_Write, Es.
    + exists [WireBody (take (Z.to_nat (w_n a)) b)]. rewrite wire_Write, Es. split; [done|]. by repeat constructor.
  - intros Es. by rewrite wire_Write, Es.
  - apply wire_flush.
  - apply wire_same. unfold Hijack. destruct ok; [|done]. simpl. by destruct (terminalWritten r).
  - by apply wire_same.
  - apply wire_same. by destruct f.
Qed.

(** An informational status written after the final one replaces it in the record,
    although the client already has the final one. *)
Lemma informational_after_final code now c r :
  100 <= code < 200 → commentsCommitted r = false → commitSSE r = false → terminalWritten r = true →
  status (WriteHeader DetectContentType code now c r) = code.
Proof.
  intros Hc Hn Hs Ht. unfold WriteHeader. rewrite Hn, Ht, Hs. rewrite (proj2 (Z.leb_gt _ _)) by lia. done.
Qed.
End properties.

(** ** Witnesses *)

Definition demo_detect (b : str) : str := lit "text/plain".
Definition demo_entry : Entry :=
  {| StatusCode := 0; ResponseHeaders := None; QueueStart := 1; QueueEnd := 0; TimingResponseHeaders := 0;
     ContentType := []; ResponseSize := 0 |}.
Definition demo_io : io := {| io_write := {| w_n := 5; w_err := None |}; io_flush := None |}.

(** A handler that answers 503 behind a committed stream and then writes a body. *)
Definition demo_ops : list rop :=
  commit_ops 2 demo_io ∅ ++ [OpWriteHeader 503 3 demo_io; OpWrite (lit "oops") 4 {| w_n := 2; w_err := None |}].

Definition demo_rec : statusRecorder := run_ops demo_detect demo_ops (newRecorder ∅ (Some demo_entry) 6).

Definition demo_writes : list rop :=
  [OpWrite (lit "hello") 2 {| w_n := 5; w_err := None |}; OpWrite (lit "world") 3 {| w_n := 3; w_err := None |}].

Lemma capture_exact_witness :
  let r := run_ops demo_detect demo_writes (newRecorder ∅ (Some demo_entry) 6) in
  capturedBody r = take 6 (accepted demo_detect demo_writes (newRecorder ∅ (Some demo_entry) 6)) ∧
  bytesWritten r = Z.of_nat (length (accepted demo_detect demo_writes (newRecorder ∅ (Some demo_entry) 6))).
Proof.
  apply (capture_exact demo_detect ∅ demo_entry 6 demo_writes); [done|].
  repeat constructor; unfold answer_ok; simpl; lia.
Defined.

Lemma demo_ordered : ordered demo_detect demo_ops (newRecorder ∅ (Some demo_entry) 6).
Proof. cbn [demo_ops commit_ops app ordered op_ordered]. repeat split; try lia; vm_compute; by left || done. Qed.

Lemma recorded_status_is_clients_witness :
  (client_status (wire demo_rec) = if terminalWritten demo_rec then Some (status demo_rec) else None) ∧
  client_status (wire demo_rec) = Some 200 ∧ observedStatus demo_rec = 503.
Proof.
  split; [|split; by vm_compute].
  apply (recorded_status_is_clients demo_detect ∅ (Some demo_entry) 6 demo_ops demo_ordered). by vm_compute.
Defined.

Lemma observed_status_final_witness :
  observedStatus (run_op demo_detect (OpWriteHeader 500 5 demo_io) demo_rec) = observedStatus demo_rec.
Proof.
  apply (observed_status_final demo_detect (OpWriteHeader 500 5 demo_io) demo_rec); [by vm_compute|by vm_compute|].
  split; lia.
Defined.

Lemma committed_stream_untouched_witness :
  wire_grows_by no_header demo_rec (run_op demo_detect (OpWrite (lit "x") 6 {| w_n := 1; w_err := None |}) demo_rec) ∧
  (swallows demo_rec = true →
   wire (run_op demo_detect (OpWrite (lit "x") 6 {| w_n := 1; w_err := None |}) demo_rec) = wire demo_rec).
Proof.
  apply (committed_stream_untouched demo_detect (OpWrite (lit "x") 6 {| w_n := 1; w_err := None |}) demo_rec).
  by vm_compute.
Defined.
