(* ===== verification/Classify.v ===== *)
(** * Outcome classification and breaker resolution ([internal/proxy/classify.go])

    One [exchangeResult] per exchange, computed from what the recorder observed or
    from the outcome a transcoding handler recorded, and what each path then tells
    the circuit breaker.  The breaker's methods are calls with their arguments; the
    request context is read at every point the code reads it, through an index. *)

From Stdlib Require Import ZArith Lia Bool List Ascii String.
From stdpp Require Import strings gmap.
From S2P Require Import Prelude GoStd GoStr GoHttp RetryAfter Retry Recorder.

Open Scope Z_scope.

(** ** Data *)

(** The fields of [Proxy] the admission paths read. *)
Record Proxy := {
  has_breaker : bool;
  retryHandlesBreaker : bool;
  retryTracksAttempts : bool;
  adaptiveHeadroom : bool;
  adaptiveHeadroomWindow : Duration;
  failureHold : Duration;
  cancelCooldown : Duration;
  queueDepthLimit : Z;
  queueComments : Duration;
}.

Record exchangeResult := {
  er_upstreamAttempted : bool;
  er_upstreamStatus : Z;
  er_upstreamFailure : bool;
  er_upstreamSuccess : bool;
  er_retryAfter : Duration;
  er_clientAborted : bool;
  er_localFailure : bool;
  er_switchingProtocolsResolved : bool;
  er_suppressibleAbort : bool;
}.

(** The zero value. *)
Definition noResult : exchangeResult :=
  {| er_upstreamAttempted := false; er_upstreamStatus := 0; er_upstreamFailure := false;
     er_upstreamSuccess := false; er_retryAfter := 0; er_clientAborted := false; er_localFailure := false;
     er_switchingProtocolsResolved := false; er_suppressibleAbort := false |}.

Inductive breaker_call :=
| CallSuccess (startedAt : Time) (epoch : Z)
| CallFailure (status : Z) (retryAfter : Duration) (startedAt : Time) (epoch : Z)
| CallCancel (epoch : Z).

Definition call_epoch (c : breaker_call) : Z :=
  match c with
  | CallSuccess _ e | CallFailure _ _ _ e | CallCancel e => e
  end.

(** ** Attempts *)

Definition retryAttemptOrDefault (attempt : option BreakerAttempt) (startedAt : Time) (epoch : Z) : Time * Z :=
  match attempt with
  | Some a => if negb (time_IsZero (StartedAt a)) then (StartedAt a, Epoch a) else (startedAt, epoch)
  | None => (startedAt, epoch)
  end.

Definition attempt_failed (attempt : option BreakerAttempt) : bool :=
  match attempt with Some a => FailureRecorded a | None => false end.

Definition retryAttemptHasCurrentFailure : option BreakerAttempt → bool := attempt_failed.

Definition retryAttemptFailureForSlot (attempt : option BreakerAttempt) (historicalFailureCanDriveSlot : bool) : bool :=
  match attempt with
  | None => false
  | Some a => if FailureRecorded a then true else historicalFailureCanDriveSlot && AnyFailureRecorded a
  end.

Definition retryHistoricalFailureCanDriveSlot (rec : statusRecorder) (finalUnclean : bool) : bool :=
  if negb finalUnclean then false
  else if localUpgradeFailure rec then false
  else if (0 <? observedStatus rec) && negb (proxyTransportOrGeneratedError rec) then false
  else true.

Section classify.
Context `{UnicodeTables} (ParseTime : str → option Time).

(** ** Headers of the response *)

Definition responseHeaders (rec : statusRecorder) : RetryAfter.Header :=
  Some (map_to_list (match entry rec with
                     | Some e => match ResponseHeaders e with Some h => h | None => rw_Header rec end
                     | None => rw_Header rec
                     end)).

Definition parseRetryAfterFromRecorder (rec : statusRecorder) (now : Time) : Duration :=
  ParseRetryAfter ParseTime (responseHeaders rec) (responseAt rec) now.

(** ** Classification *)

Definition is_2xx (status : Z) : bool := (200 <=? status) && (status <? 300).

Definition has_err (ctxErr : option goerr) : bool := match ctxErr with Some _ => true | None => false end.

Definition isUpstreamFailureStatus (rec : statusRecorder) (now : Time) (ctxErr : option goerr) : bool :=
  if proxyGeneratedError rec && negb (hasRealProxyTransportError ctxErr rec) then false
  else if localUpgradeFailure rec || retryCircuitOpen rec then false
  else if negb (upstreamAttempted rec) then false
  else
    let status := observedStatus rec in
    if has_err ctxErr && is_2xx status then false
    else IsFailureStatusWithHeaders ParseTime status (responseHeaders rec) (responseAt rec) now.

Definition isBreakerSuccessStatus (rec : statusRecorder) (now : Time) (epoch : Z) (ctxErr : option goerr) : bool :=
  if proxyTransportOrGeneratedError rec || localUpgradeFailure rec || retryCircuitOpen rec then false
  else if negb (upstreamAttempted rec) then false
  else if (status rec =? 101) && switchingProtocolsProbeResolved rec then false
  else
    let status := observedStatus rec in
    if is_2xx status then true
    else negb (epoch =? 0) && (0 <? status) && negb (isUpstreamFailureStatus rec now ctxErr).

Definition classifyTranscodeExchange (rec : statusRecorder) (outcome : Outcome) (attemptStarted : bool)
    : exchangeResult :=
  let failure := o_UpstreamFailure outcome in
  let aborted := o_ClientAborted outcome || bool_decide (o_Provenance outcome = ProvenanceClientAbort) in
  let local := match o_Provenance outcome with
               | ProvenanceLocalRequestConversionError | ProvenanceLocalResponseConversionError
               | ProvenanceLocalStreamValidationError | ProvenanceDownstreamWriteError => true
               | _ => false
               end || o_LocalFailure outcome in
  {| er_upstreamAttempted := o_UpstreamAttempted outcome ||
       (attemptStarted && negb (bool_decide (o_Provenance outcome = ProvenanceLocalRequestConversionError)));
     er_upstreamStatus := default 0 (o_UpstreamStatus outcome);
     er_upstreamFailure := failure;
     er_upstreamSuccess :=
       negb failure && negb local && negb aborted && negb (downstreamWriteFailed rec) &&
       o_DownstreamComplete outcome &&
       match o_UpstreamStatus outcome with Some s => is_2xx s | None => false end;
     er_retryAfter := default 0 (o_RetryAfter outcome);
     er_clientAborted := aborted;
     er_localFailure := local;
     er_switchingProtocolsResolved := false;
     er_suppressibleAbort := aborted && negb failure |}.

(** The attempt fact is synced onto the recorder first. *)
Definition sync_attempt (attemptStarted : bool) (rec : statusRecorder) : statusRecorder :=
  if upstreamAttempted rec then rec else set_upstreamAttempted attemptStarted rec.

Definition classifyNativeExchange (rec0 : statusRecorder) (ctx : nat → option goerr)
    (attempt : option BreakerAttempt) (attemptStarted upstreamAbortFailure : bool) (breakerEpoch : Z) (now : Time)
    : exchangeResult * statusRecorder :=
  let clientAborted := is_ctx_err (ctx 0%nat) || downstreamWriteFailed rec0 in
  let rec := sync_attempt attemptStarted rec0 in
  let ctxErr := ctx 1%nat in
  let epoch := match attempt with
               | Some a => if negb (Epoch a =? 0) then Epoch a else breakerEpoch
               | None => breakerEpoch
               end in
  let status := observedStatus rec in
  let failure := isUpstreamFailureStatus rec now ctxErr || upstreamAbortFailure in
  let local := (proxyGeneratedError rec && negb (hasRealProxyTransportError ctxErr rec)) ||
               localUpgradeFailure rec || retryCircuitOpen rec ||
               (negb attemptStarted && (0 <? status) && negb (hasRealProxyTransportError ctxErr rec)) in
  ({| er_upstreamAttempted := attemptStarted;
      er_upstreamStatus := status;
      er_upstreamFailure := failure;
      er_upstreamSuccess := negb failure && negb local && negb clientAborted &&
                            isBreakerSuccessStatus rec now epoch ctxErr;
      er_retryAfter := parseRetryAfterFromRecorder rec now;
      er_clientAborted := clientAborted;
      er_localFailure := local;
      er_switchingProtocolsResolved := (Recorder.status rec =? 101) && switchingProtocolsProbeResolved rec;
      er_suppressibleAbort := suppressibleClientAbort ctxErr rec |}, rec).

Definition classifyExchange (rec : statusRecorder) (ctx : nat → option goerr) (attempt : option BreakerAttempt)
    (attemptStarted upstreamAbortFailure : bool) (breakerEpoch : Z) (now : Time) : exchangeResult * statusRecorder :=
  match transcodeOutcome rec with
  | Some outcome => (classifyTranscodeExchange rec outcome attemptStarted, rec)
  | None => classifyNativeExchange rec ctx attempt attemptStarted upstreamAbortFailure breakerEpoch now
  end.

(** ** Telling the breaker *)

Definition recordFailureOnce (p : Proxy) (result : exchangeResult) (attempt : option BreakerAttempt)
    (startedAt : Time) (epoch : Z) : list breaker_call :=
  if negb (has_breaker p) then []
  else if retryHandlesBreaker p && attempt_failed attempt then []
  else
    let '(attemptStart, attemptEpoch) := retryAttemptOrDefault attempt startedAt epoch in
    [CallFailure (er_upstreamStatus result) (er_retryAfter result) attemptStart attemptEpoch].

Definition cancelSuppressedAbortProbe (p : Proxy) (attempt : option BreakerAttempt) (startedAt : Time) (epoch : Z)
    : list breaker_call :=
  if negb (has_breaker p) then []
  else if retryAttemptHasCurrentFailure attempt then []
  else [CallCancel (snd (retryAttemptOrDefault attempt startedAt epoch))].

Definition resolveAbortedExchange (p : Proxy) (result : exchangeResult) (attempt : option BreakerAttempt)
    (startedAt : Time) (epoch : Z) (upstreamAbortFailure : bool) : list breaker_call :=
  if negb (has_breaker p) then []
  else if upstreamAbortFailure then []
  else if er_upstreamFailure result && negb (er_suppressibleAbort result)
  then recordFailureOnce p result attempt startedAt epoch
  else
    let '(attemptStart, attemptEpoch) := retryAttemptOrDefault attempt startedAt epoch in
    if negb (attemptEpoch =? 0) && negb (er_clientAborted result) && (300 <=? er_upstreamStatus result) &&
       negb (er_upstreamFailure result) && negb (er_localFailure result) && negb (er_suppressibleAbort result) &&
       negb (er_switchingProtocolsResolved result)
    then [CallSuccess attemptStart attemptEpoch]
    else cancelSuppressedAbortProbe p attempt startedAt epoch.

Definition resolveBreakerResult (p : Proxy) (result : exchangeResult) (attempt : option BreakerAttempt)
    (startedAt : Time) (epoch : Z) : list breaker_call :=
  if negb (has_breaker p) then []
  else
    let '(attemptStart, attemptEpoch) := retryAttemptOrDefault attempt startedAt epoch in
    if er_upstreamFailure result && negb (er_suppressibleAbort result)
    then recordFailureOnce p result attempt startedAt epoch
    else if er_upstreamSuccess result && negb (er_suppressibleAbort result)
    then [CallSuccess attemptStart attemptEpoch]
    else if negb (attemptEpoch =? 0) && negb (er_clientAborted result) && (0 <? er_upstreamStatus result) &&
            negb (er_upstreamFailure result) && negb (er_localFailure result) &&
            negb (er_suppressibleAbort result) && negb (er_switchingProtocolsResolved result)
    then [CallSuccess attemptStart attemptEpoch]
    else if attempt_failed attempt then []
    else [CallCancel attemptEpoch].

(** ** Aborted exchanges *)

Definition mark_failed (attempt : option BreakerAttempt) : option BreakerAttempt :=
  option_map (λ a, {| StartedAt := StartedAt a; Epoch := Epoch a; FailureRecorded := true;
                      HeaderFailureRecorded := HeaderFailureRecorded a; AnyFailureRecorded := true;
                      AnyHeaderFailureRecorded := AnyHeaderFailureRecorded a |}) attempt.

Definition recordAbortFailure (p : Proxy) (rec : statusRecorder) (attempt : option BreakerAttempt)
    (startedAt : Time) (epoch : Z) (ctxErr : option goerr) (now : Time)
    : list breaker_call * option BreakerAttempt :=
  if negb (has_breaker p) then ([], attempt)
  else if retryHandlesBreaker p && attempt_failed attempt then ([], attempt)
  else
    let '(status, retryAfter) :=
      if negb (proxyTransportOrGeneratedError rec) && isUpstreamFailureStatus rec now ctxErr
      then (observedStatus rec, parseRetryAfterFromRecorder rec now) else (0, 0) in
    ([CallFailure status retryAfter startedAt epoch], mark_failed attempt).

(** What a decision of the abort path leaves: whether an upstream failure was
    found, the recorder and the attempt, and the calls made. *)
Record abort_state := {
  ab_failed : bool;
  ab_rec : statusRecorder;
  ab_attempt : option BreakerAttempt;
  ab_calls : list breaker_call;
}.

(** Whether the upstream is to blame for the abort; the answer is the context read
    that goes with the record.  [copyErr] is the first read error of its body. *)
Definition abortFailure (rec : statusRecorder) (ctx : nat → option goerr) (copyErr : option goerr) (now : Time)
    : option nat :=
  if hasRealProxyTransportError (ctx 0%nat) rec then Some 1%nat
  else if negb (proxyTransportOrGeneratedError rec) && isUpstreamFailureStatus rec now (ctx 2%nat) then Some 3%nat
  else match copyErr with
       | Some upstreamErr =>
           if isContextCancellation upstreamErr && is_ctx_err (ctx 4%nat) then None else Some 5%nat
       | None =>
           if downstreamWriteFailed rec then None
           else if is_ctx_err (ctx 6%nat) then None
           else Some 7%nat
       end.

Definition handleAbortHandler (p : Proxy) (rec0 : statusRecorder) (ctx : nat → option goerr)
    (copyErr : option goerr) (attemptStarted : bool) (attempt : option BreakerAttempt) (startedAt : Time)
    (epoch : Z) (now : Time) : abort_state :=
  let '(recordStartedAt, recordEpoch) := retryAttemptOrDefault attempt startedAt epoch in
  let rec := sync_attempt attemptStarted rec0 in
  match abortFailure rec ctx copyErr now with
  | None => {| ab_failed := false; ab_rec := rec; ab_attempt := attempt; ab_calls := [] |}
  | Some n =>
      let '(calls, attempt') := recordAbortFailure p rec attempt recordStartedAt recordEpoch (ctx n) now in
      {| ab_failed := true; ab_rec := rec; ab_attempt := attempt'; ab_calls := calls |}
  end.

Definition handleSuppressedAbort (p : Proxy) (rec : statusRecorder) (ctx : nat → option goerr)
    (copyErr : option goerr) (reachedUpstream : bool) (attempt : option BreakerAttempt) (startedAt : Time)
    (epoch : Z) (now : Time) : abort_state :=
  let no r := {| ab_failed := false; ab_rec := r; ab_attempt := attempt; ab_calls := [] |} in
  match transcodeOutcome rec with
  | Some _ => no rec
  | None =>
      let copyFailed := has_err copyErr || downstreamWriteFailed rec in
      let transportCanceled :=
        match transportErr rec with
        | Some e => is_ctx_err (ctx 8%nat) && isContextCancellation e
        | None => false
        end in
      if negb copyFailed && negb transportCanceled then no rec
      else
        let rec := set_aborted true rec in
        if negb reachedUpstream then no rec
        else handleAbortHandler p rec ctx copyErr reachedUpstream attempt startedAt epoch now
  end.
End classify.

(** ** Specifications *)

(** A call that reports the attempt it is about. *)
Definition about (attempt : option BreakerAttempt) (startedAt : Time) (epoch : Z) (c : breaker_call) : Prop :=
  let '(attemptStart, attemptEpoch) := retryAttemptOrDefault attempt startedAt epoch in
  match c with
  | CallSuccess t e => t = attemptStart ∧ e = attemptEpoch
  | CallFailure _ _ t e => t = attemptStart ∧ e = attemptEpoch
  | CallCancel e => e = attemptEpoch
  end.

(** One call about the attempt, unless its failure is already recorded. *)
Definition resolved_once (attempt : option BreakerAttempt) (startedAt : Time) (epoch : Z) (calls : list breaker_call) : Prop :=
  (calls = [] ∧ attempt_failed attempt = true) ∨ ∃ c, calls = [c] ∧ about attempt startedAt epoch c.

(** ** Lemmas *)

Lemma recordFailureOnce_spec p result attempt startedAt epoch :
  has_breaker p = true →
  let '(t, e) := retryAttemptOrDefault attempt startedAt epoch in
  recordFailureOnce p result attempt startedAt epoch =
    if retryHandlesBreaker p && attempt_failed attempt then []
    else [CallFailure (er_upstreamStatus result) (er_retryAfter result) t e].
Proof. intros Hb. unfold recordFailureOnce. rewrite Hb. by destruct (retryAttemptOrDefault _ _ _). Qed.

Lemma recordFailureOnce_resolves p result attempt startedAt epoch :
  has_breaker p = true → resolved_once attempt startedAt epoch (recordFailureOnce p result attempt startedAt epoch).
Proof.
  intros Hb. pose proof (recordFailureOnce_spec p result attempt startedAt epoch Hb) as Hs.
  unfold resolved_once, about. destruct (retryAttemptOrDefault attempt startedAt epoch) as [t e]. rewrite Hs.
  destruct (retryHandlesBreaker p && attempt_failed attempt) eqn:E; [left|right].
  - by apply andb_true_iff in E as [_ ->].
  - by eexists.
Qed.

Lemma cancelSuppressed_resolves p attempt startedAt epoch :
  has_breaker p = true → resolved_once attempt startedAt epoch (cancelSuppressedAbortProbe p attempt startedAt epoch).
Proof.
  intros Hb. unfold cancelSuppressedAbortProbe, retryAttemptHasCurrentFailure, resolved_once, about. rewrite Hb.
  destruct (retryAttemptOrDefault attempt startedAt epoch) as [t e]. simpl.
  destruct (attempt_failed attempt); [by left|]. right. by eexists.
Qed.

Lemma about_success attempt startedAt epoch t e :
  retryAttemptOrDefault attempt startedAt epoch = (t, e) →
  resolved_once attempt startedAt epoch [CallSuccess t e] ∧ resolved_once attempt startedAt epoch [CallCancel e].
Proof. intros E. split; right; eexists; (split; [done|]); unfold about; by rewrite E. Qed.

Lemma resolveBreakerResult_resolves p res attempt startedAt epoch :
  has_breaker p = true → resolved_once attempt startedAt epoch (resolveBreakerResult p res attempt startedAt epoch).
Proof.
  intros Hb. unfold resolveBreakerResult. rewrite Hb. simpl negb. cbv match.
  destruct (retryAttemptOrDefault attempt startedAt epoch) as [t e] eqn:Er.
  destruct (about_success _ _ _ _ _ Er) as [Hs Hc].
  destruct (_ && _); [by apply recordFailureOnce_resolves|]. destruct (_ && _); [done|].
  destruct (_ && _); [done|]. destruct (attempt_failed attempt) eqn:Ea; [by left | done].
Qed.

Lemma resolveAbortedExchange_resolves p res attempt startedAt epoch :
  has_breaker p = true →
  resolved_once attempt startedAt epoch (resolveAbortedExchange p res attempt startedAt epoch false).
Proof.
  intros Hb. unfold resolveAbortedExchange. rewrite Hb. simpl negb. cbv match.
  destruct (_ && _); [by apply recordFailureOnce_resolves|].
  destruct (retryAttemptOrDefault attempt startedAt epoch) as [t e] eqn:Er.
  destruct (about_success _ _ _ _ _ Er) as [Hs Hc]. destruct (_ && _); [done|]. by apply cancelSuppressed_resolves.
Qed.

Section classify_lemmas.
Context `{UnicodeTables} (ParseTime : str → option Time).

(** What never reached the upstream proves nothing about it. *)
Lemma unattempted_no_failure rec now ctxErr :
  upstreamAttempted rec = false → isUpstreamFailureStatus ParseTime rec now ctxErr = false.
Proof. intros Ha. unfold isUpstreamFailureStatus. rewrite Ha. by repeat case_match. Qed.

Lemma unattempted_no_success rec now epoch ctxErr :
  upstreamAttempted rec = false → isBreakerSuccessStatus ParseTime rec now epoch ctxErr = false.
Proof. intros Ha. unfold isBreakerSuccessStatus. rewrite Ha. by repeat case_match. Qed.

(** An upstream failure of a native exchange is not a local one. *)
Lemma failure_not_local rec now ctxErr :
  isUpstreamFailureStatus ParseTime rec now ctxErr = true →
  (proxyGeneratedError rec && negb (hasRealProxyTransportError ctxErr rec)) = false ∧
  localUpgradeFailure rec = false ∧ retryCircuitOpen rec = false ∧ upstreamAttempted rec = true ∧
  (has_err ctxErr && is_2xx (observedStatus rec)) = false.
Proof.
  unfold isUpstreamFailureStatus. destruct (proxyGeneratedError rec && _); [done|].
  destruct (localUpgradeFailure rec); [done|]. destruct (retryCircuitOpen rec); [done|]. simpl.
  destruct (upstreamAttempted rec); [|done]. simpl. by destruct (has_err ctxErr && is_2xx (observedStatus rec)).
Qed.

(** The failure is recorded once, here or earlier by the retry transport. *)
Lemma recordAbortFailure_spec p rec attempt t0 e0 ctxErr now :
  let '(calls, attempt') := recordAbortFailure ParseTime p rec attempt t0 e0 ctxErr now in
  has_breaker p = true →
  (calls = [] ∧ attempt_failed attempt = true ∨ ∃ s ra, calls = [CallFailure s ra t0 e0]) ∧
  (attempt ≠ None → attempt_failed attempt' = true).
Proof.
  unfold recordAbortFailure. destruct (has_breaker p); [|done]. simpl.
  destruct (retryHandlesBreaker p && attempt_failed attempt) eqn:E.
  - apply andb_true_iff in E as [_ E]. intros _. split; [by left | done].
  - destruct (if negb (proxyTransportOrGeneratedError rec) && _ then _ else _) as [s ra].
    intros _. split; [right; by do 2 eexists|]. by destruct attempt.
Qed.

Lemma sync_attempted b rec :
  (upstreamAttempted rec = true → b = true) → upstreamAttempted (sync_attempt b rec) = b.
Proof. unfold sync_attempt. destruct (upstreamAttempted rec) eqn:E; [|done]. intros Hb. by rewrite E, Hb. Qed.
End classify_lemmas.

(** ** Properties *)

Section properties.
Context `{UnicodeTables} (ParseTime : str → option Time).

(** The classification of an exchange is consistent: an upstream success is
    never also an upstream failure, a local failure or an abandoned exchange; a
    native exchange's upstream failure is never also local (an abort caused by the
    upstream's body apart); what never reached the upstream is neither a success
    nor a failure; and a 2xx whose client left is neither. *)
Theorem classification_consistent rec ctx attempt started abortFailure epoch now :
  (upstreamAttempted rec = true → started = true) →
  let '(res, _) := classifyExchange ParseTime rec ctx attempt started abortFailure epoch now in
  (er_upstreamSuccess res = true →
     er_upstreamFailure res = false ∧ er_localFailure res = false ∧ er_clientAborted res = false) ∧
  (transcodeOutcome rec = None → abortFailure = false →
     (er_upstreamFailure res = true → er_localFailure res = false ∧ started = true) ∧
     (started = false → er_upstreamSuccess res = false) ∧
     (is_2xx (observedStatus rec) = true → is_ctx_err (ctx 0%nat) = true → has_err (ctx 1%nat) = true →
        er_upstreamFailure res = false ∧ er_upstreamSuccess res = false)).
Proof.
  intros Hsync. unfold classifyExchange. destruct (transcodeOutcome rec) as [o|] eqn:Eo.
  { simpl. split; [|done]. intros Hs. rewrite !andb_true_iff, !negb_true_iff in Hs. tauto. }
  unfold classifyNativeExchange. simpl. set (rec' := sync_attempt started rec).
  pose proof (sync_attempted started rec Hsync) as Ha. fold rec' in Ha.
  assert (Hobs : observedStatus rec' = observedStatus rec).
  { subst rec'. unfold sync_attempt. by destruct (upstreamAttempted rec). }
  split; [intros Hs; rewrite !andb_true_iff, !negb_true_iff in Hs; tauto|]. intros _ ->. rewrite orb_false_r. split; [|split].
  - intros Hf. destruct (failure_not_local ParseTime _ _ _ Hf) as (H1 & -> & -> & Hat & _).
    rewrite Ha in Hat. by rewrite H1, Hat.
  - intros ->. rewrite unattempted_no_success by done. by rewrite andb_false_r.
  - intros H2 Hc Hc1. rewrite Hc. simpl. rewrite andb_false_r. split; [|done].
    destruct (isUpstreamFailureStatus _ _ _ _) eqn:Hf; [|done].
    destruct (failure_not_local ParseTime _ _ _ Hf) as (_ & _ & _ & _ & Hn). by rewrite Hc1, Hobs, H2 in Hn.
Qed.

(** A finished exchange tells the breaker exactly once how its attempt ended,
    with the attempt's own start and epoch, unless the retry transport already
    recorded its failure: a failure only for an upstream failure, a success only
    for an exchange that was neither a failure nor (outside a plain success) local,
    abandoned or already resolved by its upgrade; everything else withdraws the
    probe. *)
Theorem resolution_exactly_once p res attempt startedAt epoch :
  has_breaker p = true →
  let calls := resolveBreakerResult p res attempt startedAt epoch in
  resolved_once attempt startedAt epoch calls ∧
  (∀ s ra t e, calls = [CallFailure s ra t e] →
     er_upstreamFailure res = true ∧ er_suppressibleAbort res = false ∧ s = er_upstreamStatus res ∧
     ra = er_retryAfter res) ∧
  (∀ t e, calls = [CallSuccess t e] →
     er_suppressibleAbort res = false ∧ er_upstreamFailure res = false ∧
     (er_upstreamSuccess res = true ∨
      (e ≠ 0 ∧ 0 < er_upstreamStatus res ∧ er_clientAborted res = false ∧ er_localFailure res = false ∧
       er_switchingProtocolsResolved res = false))).
Proof.
  intros Hb calls. split; [by apply resolveBreakerResult_resolves|]. subst calls.
  unfold resolveBreakerResult. rewrite Hb. simpl negb. cbv match.
  pose proof (recordFailureOnce_spec p res attempt startedAt epoch Hb) as Hs.
  destruct (retryAttemptOrDefault attempt startedAt epoch) as [t0 e0] eqn:Er.
  destruct (er_upstreamFailure res && negb (er_suppressibleAbort res)) eqn:Ef.
  { rewrite Hs. bprop. destruct (_ && _); split; intros; simplify_eq; done. }
  assert (Hnf : er_suppressibleAbort res = false → er_upstreamFailure res = false).
  { intros Hsup. rewrite Hsup in Ef. by destruct (er_upstreamFailure res). }
  destruct (er_upstreamSuccess res && negb (er_suppressibleAbort res)) eqn:Es.
  { bprop. split; [done|]. intros t e [= <- <-]. split; [done|]. split; [by apply Hnf | by left]. }
  match goal with |- context [if ?c then _ else _] => destruct c eqn:Ep end.
  { bprop. split; [done|]. intros t e [= <- <-]. split_and!; try done. right. split_and!; done || lia. }
  by destruct (attempt_failed attempt).
Qed.

(** An aborted exchange counts against the upstream only for what the upstream
    did: [handleAbortHandler] finds a failure exactly when it also records one (or
    the retry transport has), and a client that leaves or cannot be written to is
    no failure unless the upstream had failed first, by its status, its transport
    or its body. *)
Theorem abort_blames_upstream p rec ctx copyErr started attempt startedAt epoch now :
  let st := handleAbortHandler ParseTime p rec ctx copyErr started attempt startedAt epoch now in
  let rec' := sync_attempt started rec in
  (ab_failed st = false → ab_calls st = [] ∧ ab_attempt st = attempt) ∧
  (ab_failed st = true → has_breaker p = true →
     (ab_calls st = [] ∧ attempt_failed attempt = true ∨
      ∃ s ra, ab_calls st = [CallFailure s ra (fst (retryAttemptOrDefault attempt startedAt epoch))
                                              (snd (retryAttemptOrDefault attempt startedAt epoch))]) ∧
     (attempt ≠ None → attempt_failed (ab_attempt st) = true)) ∧
  (hasRealProxyTransportError (ctx 0%nat) rec' = false →
   proxyTransportOrGeneratedError rec' = true ∨ isUpstreamFailureStatus ParseTime rec' now (ctx 2%nat) = false →
   match copyErr with
   | Some e => isContextCancellation e = true ∧ is_ctx_err (ctx 4%nat) = true
   | None => downstreamWriteFailed rec = true ∨ is_ctx_err (ctx 6%nat) = true
   end → ab_failed st = false).
Proof.
  unfold handleAbortHandler. destruct (retryAttemptOrDefault attempt startedAt epoch) as [t0 e0]. simpl.
  set (rec' := sync_attempt started rec).
  assert (Hw : downstreamWriteFailed rec' = downstreamWriteFailed rec).
  { subst rec'. unfold sync_attempt. by destruct (upstreamAttempted rec). }
  destruct (abortFailure ParseTime rec' ctx copyErr now) as [n|] eqn:Ef.
  - pose proof (recordAbortFailure_spec ParseTime p rec' attempt t0 e0 (ctx n) now) as Hrec.
    destruct (recordAbortFailure _ _ _ _ _ _ _ _) as [c a]. simpl. split; [done|]. split; [done|].
    intros H1 H2 H3. revert Ef. unfold abortFailure. rewrite H1.
    replace (negb (proxyTransportOrGeneratedError rec') && isUpstreamFailureStatus ParseTime rec' now (ctx 2%nat))
      with false by (destruct H2 as [-> | ->]; [done | by rewrite andb_false_r]).
    rewrite Hw. destruct copyErr as [e|]; [destruct H3 as [-> ->]; done|].
    destruct H3 as [-> | ->]; [done|]. by destruct (downstreamWriteFailed rec).
  - by split; [|split].
Qed.
End properties.

(** ** Witnesses *)

Definition demo_proxy : Proxy :=
  {| has_breaker := true; retryHandlesBreaker := false; retryTracksAttempts := false; adaptiveHeadroom := true;
     adaptiveHeadroomWindow := Second; failureHold := 0; cancelCooldown := Second; queueDepthLimit := 4;
     queueComments := Second |}.

Definition no_dates (v : str) : option Time := None.
Definition never_cancelled (n : nat) : option goerr := None.

(** An exchange whose upstream answered the given status. *)
Definition answered (code : Z) : statusRecorder :=
  set_upstreamAttempted true
    (set_status code (set_terminalWritten true (newRecorder ∅ None 0))).

Lemma classification_consistent_witness :
  let '(res, _) := classifyExchange no_dates (answered 200) never_cancelled None true false 0 5 in
  (er_upstreamSuccess res = true →
     er_upstreamFailure res = false ∧ er_localFailure res = false ∧ er_clientAborted res = false) ∧
  (transcodeOutcome (answered 200) = None → false = false →
     (er_upstreamFailure res = true → er_localFailure res = false ∧ true = true) ∧
     (true = false → er_upstreamSuccess res = false) ∧
     (is_2xx (observedStatus (answered 200)) = true → is_ctx_err (never_cancelled 0%nat) = true →
        has_err (never_cancelled 1%nat) = true → er_upstreamFailure res = false ∧ er_upstreamSuccess res = false)).
Proof. exact (classification_consistent no_dates (answered 200) never_cancelled None true false 0 5 (λ _, eq_refl)). Defined.

Definition demo_failure : exchangeResult :=
  Eval vm_compute in fst (classifyExchange no_dates (answered 503) never_cancelled None true false 0 5).

Lemma resolution_exactly_once_witness :
  er_upstreamFailure demo_failure = true ∧
  resolved_once None 7 3 (resolveBreakerResult demo_proxy demo_failure None 7 3).
Proof. split; [done|]. apply (resolution_exactly_once demo_proxy demo_failure None 7 3). done. Defined.

Lemma abort_blames_upstream_witness :
  ab_failed (handleAbortHandler no_dates demo_proxy (answered 200) (λ _, Some (plain_err Canceled)) None true None 7 3 9)
    = false.
Proof.
  destruct (abort_blames_upstream no_dates demo_proxy (answered 200) (λ _, Some (plain_err Canceled)) None true None 7 3 9)
    as (_ & _ & H). apply H; [by vm_compute|right; by vm_compute|right; by vm_compute].
Defined.
