(* ===== verification/Limited.v ===== *)
(** * The admission paths ([internal/proxy/limited.go], [passthrough.go])

    [serveLimited] and [servePassthrough] as functions from what they observe (the
    breaker's and the limiters' answers, the request context, and what the handler
    did) to the ordered log of their effects.  The handler is any function of the
    recorder that may report to the breaker itself, as the retry transport and the
    upgrade hooks do, and that returns, aborts or panics.  Deferred calls run in
    their order at the end of the log. *)

From Stdlib Require Import ZArith Lia Bool List Ascii String.
From stdpp Require Import strings gmap.
From S2P Require Import Prelude GoStd GoStr GoHttp RetryAfter Retry Recorder Classify.
From S2P Require Breaker.

Open Scope Z_scope.

(** ** The early commit of the event stream *)

(** What [serveLimited] reads of a request. *)
Record request := {
  Method : str;
  isUpgrade : bool;
  acceptsEventStream : bool;
  hasBody : bool;
  ContentLength : Z;
  body : str;
  body_err : option goerr;
  fullDuplex : bool;
}.

Definition queueCommentsEligible (r : request) : bool :=
  if str_eqb (Method r) (lit "HEAD") || str_eqb (Method r) (lit "CONNECT") then false else negb (isUpgrade r).

Definition canCommitCommentsWithUnreadBody (r : request) : bool := negb (hasBody r) || (ContentLength r =? 0).

Definition inspectLimit : Z := Z.shiftl 10 20.

Section commit.
(** [json.Unmarshal] into the probe: [None] is an error, [Some None] no "stream". *)
Context (probe : str → option (option bool)).

(** [bodyBlocksStreamCommit]: the answer, and the body the handler then reads, with
    the error that ends it.  [interrupted] is set when the inspection's context
    ended after a read that had succeeded. *)
Definition bodyBlocksStreamCommit (r : request) (interrupted : option goerr) : bool * (str * option goerr) :=
  let unread := (body r, body_err r) in
  if negb (str_eqb (Method r) (lit "POST")) || negb (hasBody r) || (ContentLength r =? 0) then (false, unread)
  else if inspectLimit <? ContentLength r then (true, unread)
  else
    let buf := take (Z.to_nat (inspectLimit + 1)) (body r) in
    let fits := Z.of_nat (length (body r)) <=? inspectLimit in
    let err := if fits then match body_err r with Some e => Some e | None => interrupted end else interrupted in
    match err with
    | Some e => (true, (buf, Some e))
    | None =>
        let replayed := (body r, body_err r) in
        if inspectLimit <? Z.of_nat (length buf) then (true, replayed)
        else match probe buf with
             | None => (true, replayed)
             | Some None => (false, replayed)
             | Some (Some stream) => (negb stream, replayed)
             end
    end.

Definition commitComments (p : Proxy) (r : request) (interrupted : option goerr) : bool :=
  (0 <? queueComments p) && queueCommentsEligible r && acceptsEventStream r &&
  (canCommitCommentsWithUnreadBody r || fullDuplex r) &&
  negb (fst (bodyBlocksStreamCommit r interrupted)).
End commit.

(** ** Effects *)

Inductive limiter := RouteLimiter | GlobalLimiter.

#[export] Instance limiter_eq_dec : EqDecision limiter.
Proof. solve_decision. Defined.

Inductive event :=
| EvCircuitRejected
| EvQueueRejected
| EvRespond (code : Z)
| EvAllow (epoch : option Z)
| EvCommit
| EvStopComments
| EvIncQueued
| EvDecQueued
| EvTimeout
| EvCancelled
| EvAcquire (l : limiter)
| EvRelease (l : limiter) (after : Duration)
| EvAdaptiveReduce (window : Duration)
| EvStarted
| EvIncActive
| EvDecActive
| EvHandler
| EvCall (c : breaker_call).

(** ** What is observed *)

(** How the handler ends: it returns, aborts, or panics. *)
Inductive ending := HandlerReturned | HandlerAborted | HandlerPanicked.

Record Handler := {
  h_run : statusRecorder → statusRecorder;
  h_calls : list breaker_call;
  h_attempt : option BreakerAttempt;
  h_started : bool;
  h_copyErr : option goerr;
  h_end : ending;
}.

Record Observed := {
  o_wouldAllow : bool;
  o_waiters : option Z;
  o_globalWaiters : option Z;
  o_interrupted : option goerr;
  o_ctx_admission : option goerr;
  o_allow : option Z;
  o_acquired : bool;
  o_global : option bool;
  o_ctx_failed : option goerr;
  o_handler : Handler;
  o_ctx : nat → option goerr;
  o_penalty : Duration;
  o_slot_adaptive : bool;
  o_start : Time;
  o_abortNow : Time;
  o_classifyNow : Time;
  o_panic : Time * io * answer;
}.

Definition is_deadline (e : option goerr) : bool :=
  match e with Some e => (fix go (e : goerr) := match e with
    | GoErr k _ unwrap => (match k with DeadlineExceeded => true | _ => false end) || existsb go unwrap end) e
  | None => false end.

Section admission.
Context `{UnicodeTables} (ParseTime : str → option Time) (DetectContentType : str → str).
Context (probe : str → option (option bool)).

(** ** Releasing the slots

    The decision of the deferred release: how long the slots stay held. *)
Definition hold (p : Proxy) (rec : statusRecorder) (result : exchangeResult) (attempt : option BreakerAttempt)
    (ctxErr : option goerr) (penalty : Duration) : Duration :=
  let isClientCancel := is_ctx_err ctxErr || downstreamWriteFailed rec in
  let finalUnclean := isClientCancel || aborted rec in
  let retryRecordedFailure :=
    retryAttemptFailureForSlot attempt (retryHistoricalFailureCanDriveSlot rec finalUnclean) in
  let suppress := er_suppressibleAbort result && negb retryRecordedFailure in
  let upstreamFailure := er_upstreamFailure result || retryRecordedFailure in
  if has_breaker p && er_upstreamAttempted result && negb suppress && upstreamFailure then penalty
  else if (0 <? failureHold p) && er_upstreamAttempted result && negb suppress && upstreamFailure then failureHold p
  else if (isClientCancel || upstreamHandoffAbandoned rec) && er_upstreamAttempted result && (0 <? cancelCooldown p)
  then cancelCooldown p
  else 0.

(** [releaseSlots]: the global slot first. *)
Definition releaseSlots (hasGlobal : bool) (after : Duration) : list event :=
  (if hasGlobal then [EvRelease GlobalLimiter after] else []) ++ [EvRelease RouteLimiter after].

(** The deferred release of [serveLimited]. *)
Definition deferredRelease (p : Proxy) (o : Observed) (hasGlobal localPanic : bool) (rec : statusRecorder)
    (result : exchangeResult) (attempt : option BreakerAttempt) : list event :=
  if localPanic then releaseSlots hasGlobal 0
  else
    (if adaptiveHeadroom p && er_upstreamAttempted result && o_slot_adaptive o && (er_upstreamStatus result =? 429)
     then [EvAdaptiveReduce (adaptiveHeadroomWindow p)] else []) ++
    releaseSlots hasGlobal (hold p rec result attempt (o_ctx o 20%nat) (o_penalty o)).

(** [writeAdmissionFailure]. *)
Definition writeAdmissionFailure (ctxErr : option goerr) (committed : bool) : list event :=
  let '(counter, status) := if is_deadline ctxErr then (EvTimeout, 504) else (EvCancelled, 503) in
  if committed then [counter; EvStopComments] else [counter; EvRespond status].

(** ** Running the handler and reporting *)

(** What one exchange that reached its handler leaves. *)
Record ran := {
  r_rec : statusRecorder;
  r_result : exchangeResult;
  r_attempt : option BreakerAttempt;
  r_localPanic : bool;
  r_calls : list breaker_call;
  r_repanic : bool;
}.

(** From the handler to the breaker's resolution; the same in both paths. *)
Definition runExchange (p : Proxy) (o : Observed) (epoch : Z) (rec : statusRecorder) : ran :=
  let h := o_handler o in
  let ctx := o_ctx o in
  let start := o_start o in
  let rec := h_run h rec in
  let attempt := h_attempt h in
  match h_end h with
  | HandlerAborted =>
      let ab := handleAbortHandler ParseTime p rec ctx (h_copyErr h) (h_started h) attempt start epoch (o_abortNow o) in
      let calls := if ab_failed ab then ab_calls ab
                   else ab_calls ab ++ cancelSuppressedAbortProbe p (ab_attempt ab) start epoch in
      let '(result, rec) := classifyExchange ParseTime (ab_rec ab) (λ n, ctx (10 + n)%nat) (ab_attempt ab)
                              (h_started h) (ab_failed ab) epoch (o_classifyNow o) in
      {| r_rec := rec; r_result := result; r_attempt := ab_attempt ab; r_localPanic := false;
         r_calls := calls; r_repanic := true |}
  | _ =>
      let localPanic := match h_end h with HandlerPanicked => true | _ => false end in
      let '(now, close, a) := o_panic o in
      let rec := if localPanic then recoverLocalPanic DetectContentType now close a rec else rec in
      let ab := handleSuppressedAbort ParseTime p rec ctx (h_copyErr h) (h_started h) attempt start epoch (o_abortNow o) in
      let attempt := ab_attempt ab in
      let '(result, rec) := classifyExchange ParseTime (ab_rec ab) (λ n, ctx (10 + n)%nat) attempt
                              (h_started h) (ab_failed ab) epoch (o_classifyNow o) in
      let calls :=
        if negb (h_started h) then if has_breaker p then [CallCancel epoch] else []
        else if aborted rec then
          if negb localPanic then resolveAbortedExchange p result attempt start epoch (ab_failed ab)
          else cancelSuppressedAbortProbe p attempt start epoch
        else if has_breaker p && negb localPanic then resolveBreakerResult p result attempt start epoch
        else [] in
      let rec := if negb (h_started h) || aborted rec then rec else set_admissionCompleted true rec in
      {| r_rec := rec; r_result := result; r_attempt := attempt; r_localPanic := localPanic;
         r_calls := ab_calls ab ++ calls; r_repanic := false |}
  end.

(** The handler, what it tells the breaker itself, and the resolution. *)
Definition exchange_log (o : Observed) (r : ran) : list event :=
  EvHandler :: map EvCall (h_calls (o_handler o)) ++ map EvCall (r_calls r).

(** ** [serveLimited] *)

(** The bounded queue: a limiter whose waiters reach the bound. *)
Definition queue_full (p : Proxy) (o : Observed) : bool :=
  (0 <? queueDepthLimit p) &&
  (match o_waiters o with Some w => queueDepthLimit p <=? w | None => false end ||
   match o_globalWaiters o with Some w => queueDepthLimit p <=? w | None => false end).

Definition cancel_event (p : Proxy) (epoch : Z) : list event :=
  if has_breaker p then [EvCall (CallCancel epoch)] else [].

(** The part after admission: run the handler, then the deferred calls. *)
Definition admitted (p : Proxy) (o : Observed) (hasGlobal : bool) (epoch : Z) (rec : statusRecorder) : list event :=
  let r := runExchange p o epoch rec in
  [EvIncActive; EvStarted; EvDecQueued] ++ exchange_log o r ++ [EvDecActive] ++
  deferredRelease p o hasGlobal (r_localPanic r) (r_rec r) (r_result r) (r_attempt r).

(** From the queue on: the route's slot, the global one, the exchange. *)
Definition awaitSlots (p : Proxy) (o : Observed) (commit : bool) (epoch : Z) (rec : statusRecorder) : list event :=
  if negb (o_acquired o)
  then [EvDecQueued] ++ cancel_event p epoch ++ writeAdmissionFailure (o_ctx_failed o) commit
  else
    [EvAcquire RouteLimiter] ++
    match o_global o with
    | Some false =>
        [EvDecQueued] ++ cancel_event p epoch ++ writeAdmissionFailure (o_ctx_failed o) commit ++
        deferredRelease p o false false rec noResult None
    | g =>
        let hasGlobal := match g with Some _ => true | None => false end in
        (if hasGlobal then [EvAcquire GlobalLimiter] else []) ++
        (if commit then [EvStopComments] else []) ++ admitted p o hasGlobal epoch rec
    end.

Definition serveLimited (p : Proxy) (req : request) (o : Observed) (rec : statusRecorder) : list event :=
  if has_breaker p && negb (o_wouldAllow o) then [EvCircuitRejected; EvRespond 503]
  else if queue_full p o then [EvQueueRejected; EvRespond 429]
  else
    let commit := commitComments probe p req (o_interrupted o) in
    match o_ctx_admission o with
    | Some _ => writeAdmissionFailure (o_ctx_admission o) false
    | None =>
        match (if has_breaker p then o_allow o else Some 0) with
        | None => [EvAllow None; EvCircuitRejected; EvRespond 503]
        | Some epoch =>
            (if has_breaker p then [EvAllow (Some epoch)] else []) ++
            (if commit then [EvCommit] else []) ++ [EvIncQueued] ++ awaitSlots p o commit epoch rec
        end
    end.

(** ** [servePassthrough]

    [limited] says whether the global limiter applies to the request. *)
Definition servePassthrough (p : Proxy) (limited : bool) (o : Observed) (rec : statusRecorder) : list event :=
  match (if has_breaker p then o_allow o else Some 0) with
  | None => [EvAllow None; EvCircuitRejected; EvRespond 503]
  | Some epoch =>
      (if has_breaker p then [EvAllow (Some epoch)] else []) ++
      (if limited then
         [EvIncQueued] ++
         (if negb (default true (o_global o))
          then [EvDecQueued] ++ cancel_event p epoch ++ writeAdmissionFailure (o_ctx_failed o) false
          else
            let r := runExchange p o epoch rec in
            [EvAcquire GlobalLimiter; EvDecQueued; EvIncActive; EvStarted] ++ exchange_log o r ++ [EvDecActive] ++
            [EvRelease GlobalLimiter
               (if r_localPanic r then 0
                else hold p (r_rec r) (r_result r) (r_attempt r) (o_ctx o 20%nat) (o_penalty o))])
       else EvStarted :: exchange_log o (runExchange p o epoch rec))
  end.
End admission.

#[global] Arguments exchange_log : simpl never.
#[global] Arguments runExchange : simpl never.
#[global] Arguments deferredRelease : simpl never.
#[global] Arguments writeAdmissionFailure : simpl never.
#[global] Arguments cancel_event : simpl never.
#[global] Arguments admitted : simpl never.

(** ** The protocol of an admission path *)

Record protocol := {
  q_allowed : bool;
  q_queued : bool;
  q_active : bool;
  q_comments : bool;
  q_route : bool;
  q_global : bool;
  q_done : bool;
}.

(** Nothing held, counted or pending. *)
Definition idle : protocol :=
  {| q_allowed := false; q_queued := false; q_active := false; q_comments := false; q_route := false;
     q_global := false; q_done := false |}.

Definition eta_protocol (q : protocol) : protocol :=
  {| q_allowed := q_allowed q; q_queued := q_queued q; q_active := q_active q; q_comments := q_comments q;
     q_route := q_route q; q_global := q_global q; q_done := q_done q |}.

Definition set_allowed (v : bool) (q : protocol) : protocol := ltac:(set_field q_allowed v q eta_protocol).
Definition set_queued (v : bool) (q : protocol) : protocol := ltac:(set_field q_queued v q eta_protocol).
Definition set_active (v : bool) (q : protocol) : protocol := ltac:(set_field q_active v q eta_protocol).
Definition set_comments (v : bool) (q : protocol) : protocol := ltac:(set_field q_comments v q eta_protocol).
Definition set_route (v : bool) (q : protocol) : protocol := ltac:(set_field q_route v q eta_protocol).
Definition set_global (v : bool) (q : protocol) : protocol := ltac:(set_field q_global v q eta_protocol).
Definition set_done (v : bool) (q : protocol) : protocol := ltac:(set_field q_done v q eta_protocol).

Definition guarded (b : bool) (q : protocol) : option protocol := if b then Some q else None.

(** The guards: one admission by the breaker, before the stream is committed and
    before the queue; a slot is taken at most once and while queued; the handler runs
    once, holding what was taken, with the comment writer stopped; one answer, from
    the handler or from the admission path; the slots go back after the handler and
    the active gauge; the breaker is told something only after it admitted. *)
Definition pstep (q : protocol) (e : event) : option protocol :=
  match e with
  | EvCircuitRejected | EvQueueRejected | EvTimeout | EvCancelled => guarded (negb (q_done q)) q
  | EvRespond _ => guarded (negb (q_done q) && negb (q_comments q) && negb (q_active q)) (set_done true q)
  | EvAllow epoch => guarded (negb (q_allowed q) && negb (q_queued q) && negb (q_comments q))
                       (match epoch with Some _ => set_allowed true q | None => q end)
  | EvCommit => guarded (negb (q_comments q) && negb (q_queued q) && negb (q_done q)) (set_comments true q)
  | EvStopComments => guarded (q_comments q) (set_comments false q)
  | EvIncQueued => guarded (negb (q_queued q) && negb (q_active q)) (set_queued true q)
  | EvDecQueued => guarded (q_queued q) (set_queued false q)
  | EvAcquire RouteLimiter => guarded (negb (q_route q) && q_queued q) (set_route true q)
  | EvAcquire GlobalLimiter => guarded (negb (q_global q) && q_queued q) (set_global true q)
  | EvRelease RouteLimiter after => guarded (q_route q && negb (q_active q) && (0 <=? after)) (set_route false q)
  | EvRelease GlobalLimiter after => guarded (q_global q && negb (q_active q) && (0 <=? after)) (set_global false q)
  | EvAdaptiveReduce _ => guarded (q_route q && negb (q_active q)) q
  | EvStarted => guarded (negb (q_done q)) q
  | EvIncActive => guarded (negb (q_active q) && negb (q_comments q)) (set_active true q)
  | EvDecActive => guarded (q_active q) (set_active false q)
  | EvHandler => guarded (negb (q_done q) && negb (q_comments q) && negb (q_queued q)) (set_done true q)
  | EvCall _ => guarded (q_allowed q) q
  end.

Fixpoint follow (q : protocol) (l : list event) : option protocol :=
  match l with
  | [] => Some q
  | e :: l => match pstep q e with Some q => follow q l | None => None end
  end.

(** The calls in a log. *)
Definition calls_of (l : list event) : list breaker_call :=
  omap (λ e, match e with EvCall c => Some c | _ => None end) l.

(** A call that changes the breaker's health. *)
Definition is_health (c : breaker_call) : bool := match c with CallCancel _ => false | _ => true end.

(** ** Telling the breaker

    The calls applied to a breaker, each at its own clock readings. *)
Definition tell1 (c : breaker_call) (now stamp : Time) : Breaker.Breaker → Breaker.Breaker :=
  match c with
  | CallSuccess startedAt e => Breaker.RecordSuccess startedAt e stamp
  | CallFailure code ra startedAt e => Breaker.RecordFailure code ra startedAt e now stamp
  | CallCancel e => Breaker.CancelProbe e
  end.

Fixpoint tell (cs : list breaker_call) (clock : nat → Time * Time) (b : Breaker.Breaker) : Breaker.Breaker :=
  match cs with
  | [] => b
  | c :: cs => tell cs (λ n, clock (S n)) (tell1 c (clock O).1 (clock O).2 b)
  end.

(** ** Lemmas: the log *)

Lemma follow_events_app q l k : follow q (l ++ k) = match follow q l with Some q => follow q k | None => None end.
Proof. revert q. induction l as [|e l IH]; intros q; simpl; [done|]. by destruct (pstep q e). Qed.

Lemma follow_calls q cs l : q_allowed q = true ∨ cs = [] → follow q (map EvCall cs ++ l) = follow q l.
Proof.
  intros [Ha| ->]; [|done]. induction cs as [|c cs IH]; simpl; [done|]. by rewrite Ha.
Qed.

Lemma follow_exchange o r q l :
  q_done q = false → q_comments q = false → q_queued q = false →
  q_allowed q = true ∨ (h_calls (o_handler o) = [] ∧ r_calls r = []) →
  follow q (exchange_log o r ++ l) = follow (set_done true q) l.
Proof.
  intros Hd Hc Hq Ha. unfold exchange_log. simpl. rewrite Hd, Hc, Hq. simpl.
  rewrite <- app_assoc. rewrite !follow_calls; [done|..]; destruct Ha as [?|[? ?]]; auto.
Qed.

Section lemmas.
Context `{UnicodeTables} (ParseTime : str → option Time) (DetectContentType : str → str).

(** Without a breaker nothing is told to it. *)
Lemma runExchange_silent p o epoch rec :
  has_breaker p = false → r_calls (runExchange ParseTime DetectContentType p o epoch rec) = [].
Proof.
  intros Hb. unfold runExchange.
  assert (Hc : ∀ a s e, cancelSuppressedAbortProbe p a s e = []) by (intros; unfold cancelSuppressedAbortProbe; by rewrite Hb).
  assert (Hr : ∀ r a s e c n, fst (recordAbortFailure ParseTime p r a s e c n) = [])
    by (intros; unfold recordAbortFailure; by rewrite Hb).
  assert (Hh : ∀ r ce st a s e n, ab_calls (handleAbortHandler ParseTime p r (o_ctx o) ce st a s e n) = []).
  { intros r ce st a s e n. unfold handleAbortHandler. destruct (retryAttemptOrDefault a s e) as [t0 e0].
    destruct (abortFailure _ _ _ _ _) as [i|]; [|done].
    pose proof (Hr (sync_attempt st r) a t0 e0 (o_ctx o i) n) as Hx. by destruct (recordAbortFailure _ _ _ _ _ _ _ _). }
  assert (Hs : ∀ r ce st a s e n, ab_calls (handleSuppressedAbort ParseTime p r (o_ctx o) ce st a s e n) = []).
  { intros. unfold handleSuppressedAbort. destruct (transcodeOutcome _); [done|]. destruct (_ && _); [done|].
    destruct st; [apply Hh | done]. }
  destruct (h_end (o_handler o)).
  2: { destruct (classifyExchange _ _ _ _ _ _ _ _) as [res rec']. simpl. rewrite Hh, Hc. by destruct (ab_failed _). }
  all: destruct (o_panic o) as [[now close] a]; destruct (classifyExchange _ _ _ _ _ _ _ _) as [res rec']; simpl;
    rewrite Hs, ?Hb; simpl; unfold resolveAbortedExchange; rewrite ?Hc, ?Hb; simpl;
    by repeat match goal with |- context [if ?b then _ else _] => destruct b end.
Qed.
End lemmas.

Section protocol_lemmas.
Context `{UnicodeTables} (ParseTime : str → option Time) (DetectContentType : str → str).
Context (probe : str → option (option bool)).

(** Nothing is left behind. *)
Definition settled (q : protocol) : Prop :=
  q_queued q = false ∧ q_active q = false ∧ q_comments q = false ∧ q_route q = false ∧ q_global q = false.

Definition ends_settled (q : protocol) (l : list event) : Prop := ∃ q', follow q l = Some q' ∧ settled q'.

Lemma hold_nonneg p rec res attempt ctxErr penalty : 0 <= penalty → 0 <= hold p rec res attempt ctxErr penalty.
Proof.
  intros Hp. unfold hold. destruct (has_breaker p && _ && _ && _); [done|].
  destruct (Z.ltb_spec 0 (failureHold p)); simpl; [destruct (_ && _ && _); [lia|]|];
    (destruct (Z.ltb_spec 0 (cancelCooldown p)); [|rewrite andb_false_r; done]; destruct (_ && _); lia).
Qed.

Lemma releaseSlots_settles q hasGlobal after :
  0 <= after → q_route q = true → q_global q = hasGlobal → q_active q = false → q_queued q = false →
  q_comments q = false → ends_settled q (releaseSlots hasGlobal after).
Proof.
  intros Ha Hr Hg Hact Hq Hc. apply Z.leb_le in Ha. unfold ends_settled, releaseSlots, settled.
  destruct hasGlobal; simpl; rewrite ?Hg, ?Hr, ?Hact, ?Ha; simpl; rewrite ?Hr, ?Hact; simpl; eexists; split_and!; done.
Qed.

Lemma deferredRelease_settles p o q hasGlobal localPanic rec res attempt :
  0 <= o_penalty o → q_route q = true → q_global q = hasGlobal → q_active q = false → q_queued q = false →
  q_comments q = false → ends_settled q (deferredRelease p o hasGlobal localPanic rec res attempt).
Proof.
  intros Hp Hr Hg Ha Hq Hc. unfold deferredRelease. destruct localPanic; [by apply releaseSlots_settles|].
  pose proof (hold_nonneg p rec res attempt (o_ctx o 20%nat) (o_penalty o) Hp) as Hh.
  destruct (adaptiveHeadroom p && _ && _ && _); [|by apply releaseSlots_settles].
  unfold ends_settled. simpl. rewrite Hr, Ha. simpl. by apply releaseSlots_settles.
Qed.

(** The breaker's calls are allowed where it admitted. *)
Definition calls_allowed (p : Proxy) (o : Observed) : Prop := has_breaker p = false → h_calls (o_handler o) = [].

Lemma admitted_settles p o q hasGlobal epoch rec :
  calls_allowed p o → 0 <= o_penalty o →
  q_route q = true → q_global q = hasGlobal → q_active q = false → q_queued q = true → q_comments q = false →
  q_done q = false → (has_breaker p = true → q_allowed q = true) →
  ends_settled q (admitted ParseTime DetectContentType p o hasGlobal epoch rec).
Proof.
  intros Hcalls Hp Hr Hg Ha Hq Hc Hd Hal. unfold admitted, ends_settled.
  set (r := runExchange _ _ p o epoch rec). pose proof (follow_exchange o r) as Hex.
  pose proof (runExchange_silent ParseTime DetectContentType p o epoch rec) as Hsil. fold r in Hsil.
  set (L := exchange_log o r) in *. clearbody L. cbv zeta. simpl. rewrite Ha, Hc. simpl. rewrite Hd. simpl. rewrite Hq. simpl.
  rewrite Hex; try done.
  - simpl. by apply deferredRelease_settles.
  - simpl. destruct (has_breaker p) eqn:Eb; [left; by apply Hal|]. right. split; [by apply Hcalls | by apply Hsil].
Qed.

Lemma cancel_follow p q epoch l :
  (has_breaker p = true → q_allowed q = true) → follow q (cancel_event p epoch ++ l) = follow q l.
Proof. intros Ha. unfold cancel_event. destruct (has_breaker p); [|done]. simpl. by rewrite Ha. Qed.

Lemma failure_follow ctxErr committed q l :
  q_done q = false → q_comments q = committed → q_active q = false →
  ∃ q', follow q (writeAdmissionFailure ctxErr committed ++ l) = follow q' l ∧ q_comments q' = false ∧
    q_active q' = false ∧ q_queued q' = q_queued q ∧ q_route q' = q_route q ∧ q_global q' = q_global q.
Proof.
  intros Hd Hc Ha. unfold writeAdmissionFailure.
  destruct (is_deadline ctxErr), committed; simpl; rewrite Hd; simpl; rewrite Hc, ?Hd, ?Ha; simpl; eexists; split_and!; done.
Qed.
Lemma ends_app q l k : ends_settled q (l ++ k) ↔ ∃ q', follow q l = Some q' ∧ ends_settled q' k.
Proof.
  unfold ends_settled. setoid_rewrite follow_events_app. destruct (follow q l) as [q1|]; split.
  - intros (q' & ? & ?). eexists; split; [done|]. by eexists.
  - by intros (? & [= <-] & ?).
  - by intros (? & ? & _).
  - by intros (? & ? & _).
Qed.

(** A queue wait that fails gives everything back. *)
Lemma failed_wait_settles p o q commit epoch k :
  q_done q = false → q_comments q = commit → q_active q = false → q_queued q = true →
  (has_breaker p = true → q_allowed q = true) →
  (∀ q', q_comments q' = false → q_active q' = false → q_queued q' = false → q_route q' = q_route q →
     q_global q' = q_global q → ends_settled q' k) →
  ends_settled q ([EvDecQueued] ++ cancel_event p epoch ++ writeAdmissionFailure (o_ctx_failed o) commit ++ k).
Proof.
  intros Hd Hc Ha Hq Hal Hk. apply ends_app. exists (set_queued false q). split; [simpl; by rewrite Hq|].
  unfold ends_settled. rewrite cancel_follow by done.
  destruct (failure_follow (o_ctx_failed o) commit (set_queued false q) k) as (q' & Hf & ? & ? & ? & ? & ?); try done.
  rewrite Hf. by apply Hk.
Qed.

Lemma awaitSlots_settles p o q commit epoch rec :
  calls_allowed p o → 0 <= o_penalty o →
  q_done q = false → q_comments q = commit → q_active q = false → q_queued q = true → q_route q = false →
  q_global q = false → (has_breaker p = true → q_allowed q = true) →
  ends_settled q (awaitSlots ParseTime DetectContentType p o commit epoch rec).
Proof.
  intros Hcalls Hp Hd Hc Ha Hq Hr Hg Hal. unfold awaitSlots. destruct (o_acquired o); simpl negb; cbv match.
  - apply ends_app. exists (set_route true q). split; [simpl; by rewrite Hr, Hq|].
    assert (Hgo : ∀ b, ends_settled (set_route true q) ((if b : bool then [EvAcquire GlobalLimiter] else []) ++
      (if commit then [EvStopComments] else []) ++ admitted ParseTime DetectContentType p o b epoch rec)).
    { intros b. apply ends_app. exists (set_global b (set_route true q)). split.
      { destruct b; simpl; [by rewrite Hg, Hq|]. destruct q; simpl in *; by subst. }
      apply ends_app. exists (set_comments false (set_global b (set_route true q))). split.
      { rewrite <- Hc. destruct (q_comments q) eqn:E; simpl; [by rewrite E|]. destruct q; simpl in *; by subst. }
      by apply admitted_settles. }
    destruct (o_global o) as [[]|]; [apply (Hgo true)| |apply (Hgo false)].
    apply failed_wait_settles; try done. intros q' H1 H2 H3 H4 H5. apply deferredRelease_settles; try done.
    simpl in H5. congruence.
  - rewrite <- (app_nil_r (writeAdmissionFailure _ _)). apply failed_wait_settles; try done.
    intros q' H1 H2 H3 H4 H5. exists q'. split; [done|]. unfold settled. simpl in *. intuition congruence.
Qed.
End protocol_lemmas.

(** ** Lemmas: the breaker is told once *)

Section resolution.
Context `{UnicodeTables} (ParseTime : str → option Time) (DetectContentType : str → str).

(** At most one call that changes the breaker's health. *)
Definition one_verdict (cs : list breaker_call) : Prop := (length (List.filter is_health cs) <= 1)%nat.

(** The verdict on one exchange: told once, about its attempt or its admission, or
    told already. *)
Definition verdict (started : bool) (attempt : option BreakerAttempt) (start : Time) (epoch : Z)
    (cs : list breaker_call) : Prop :=
  (cs ≠ [] ∨ attempt_failed attempt = true) ∧ one_verdict cs ∧
  Forall (λ c, about attempt start epoch c ∨ (started = false ∧ c = CallCancel epoch)) cs.

Lemma resolved_verdict started attempt start epoch cs :
  resolved_once attempt start epoch cs → verdict started attempt start epoch cs.
Proof.
  intros [[-> Ha]|(c & -> & Hc)].
  - split; [by right|]. split; [unfold one_verdict; simpl; lia | constructor].
  - split; [by left|]. split; [unfold one_verdict; simpl; destruct (is_health c); simpl; lia|].
    apply Forall_singleton. by left.
Qed.

Lemma cancel_verdict attempt start epoch : verdict false attempt start epoch [CallCancel epoch].
Proof.
  split; [by left|]. split; [unfold one_verdict; simpl; lia|]. apply Forall_singleton. by right.
Qed.

(** What the abort handlers do to the attempt and tell the breaker. *)
Lemma handleAbort_cases p rec ctx copyErr started attempt start epoch now :
  has_breaker p = true →
  let ab := handleAbortHandler ParseTime p rec ctx copyErr started attempt start epoch now in
  (ab_failed ab = false ∧ ab_calls ab = [] ∧ ab_attempt ab = attempt) ∨
  (ab_failed ab = true ∧
   (ab_calls ab = [] ∧ attempt_failed attempt = true ∨
    ∃ s ra t e, retryAttemptOrDefault attempt start epoch = (t, e) ∧ ab_calls ab = [CallFailure s ra t e]) ∧
   (ab_attempt ab = attempt ∨ ab_attempt ab = mark_failed attempt)).
Proof.
  intros Hb. unfold handleAbortHandler. destruct (retryAttemptOrDefault attempt start epoch) as [t e] eqn:Er.
  destruct (abortFailure _ _ _ _ _) as [n|]; [|by left]. right. unfold recordAbortFailure. rewrite Hb. simpl negb. cbv match.
  destruct (retryHandlesBreaker p && attempt_failed attempt) eqn:E; simpl.
  - apply andb_true_iff in E as [_ E]. split; [done|]. split; [by left | by left].
  - destruct (if negb (proxyTransportOrGeneratedError _) && _ then _ else _) as [s ra]. simpl.
    split; [done|]. split; [right; by exists s, ra, t, e | by right].
Qed.

Lemma mark_failed_same attempt start epoch :
  retryAttemptOrDefault (mark_failed attempt) start epoch = retryAttemptOrDefault attempt start epoch.
Proof. by destruct attempt. Qed.

Lemma handleSuppressed_cases p rec ctx copyErr started attempt start epoch now :
  has_breaker p = true →
  let ab := handleSuppressedAbort ParseTime p rec ctx copyErr started attempt start epoch now in
  (ab_failed ab = false ∧ ab_calls ab = [] ∧ ab_attempt ab = attempt ∧
     (aborted rec = true → aborted (ab_rec ab) = true)) ∨
  (ab_failed ab = true ∧ started = true ∧ aborted (ab_rec ab) = true ∧
   (ab_calls ab = [] ∧ attempt_failed attempt = true ∨
    ∃ s ra t e, retryAttemptOrDefault attempt start epoch = (t, e) ∧ ab_calls ab = [CallFailure s ra t e]) ∧
   (ab_attempt ab = attempt ∨ ab_attempt ab = mark_failed attempt)).
Proof.
  intros Hb. unfold handleSuppressedAbort. destruct (transcodeOutcome rec); [by left|].
  destruct (_ && _); [by left|]. destruct started; [|by left]. simpl negb. cbv match zeta.
  pose proof (handleAbort_cases p (set_aborted true rec) ctx copyErr true attempt start epoch now Hb) as Hc.
  set (ab := handleAbortHandler _ _ _ _ _ _ _ _ _ _) in *. cbv zeta in Hc.
  assert (Ha : aborted (ab_rec ab) = true).
  { subst ab. unfold handleAbortHandler. destruct (retryAttemptOrDefault _ _ _).
    assert (Hs : aborted (sync_attempt true (set_aborted true rec)) = true).
    { unfold sync_attempt. by destruct (upstreamAttempted _). }
    destruct (abortFailure _ _ _ _ _); [|done]. by destruct (recordAbortFailure _ _ _ _ _ _ _ _). }
  destruct Hc as [(?&?&?)|(?&?&?)]; [left|right]; split_and!; done.
Qed.

Lemma classify_aborted rec ctx attempt started ab epoch now :
  aborted (snd (classifyExchange ParseTime rec ctx attempt started ab epoch now)) = aborted rec.
Proof.
  unfold classifyExchange. destruct (transcodeOutcome rec); [done|]. simpl. unfold sync_attempt.
  by destruct (upstreamAttempted rec).
Qed.

Lemma failure_then_verdict started attempt start epoch s ra t e cs :
  retryAttemptOrDefault attempt start epoch = (t, e) → Forall (λ c, c = CallCancel e) cs →
  verdict started attempt start epoch (CallFailure s ra t e :: cs).
Proof.
  intros Er Hcs. assert (Hf : List.filter is_health cs = []) by (by induction Hcs as [|c cs -> _ IH]).
  split; [by left|]. split; [unfold one_verdict; simpl; rewrite Hf; simpl; lia|].
  constructor; [left; unfold about; by rewrite Er|]. eapply Forall_impl; [exact Hcs|]. intros c ->.
  left. unfold about. by rewrite Er.
Qed.

(** The cancellation that may follow a recorded failure. *)
Lemma cancel_after p attempt attempt' start epoch t e :
  has_breaker p = true → retryAttemptOrDefault attempt start epoch = (t, e) →
  attempt' = attempt ∨ attempt' = mark_failed attempt →
  Forall (λ c, c = CallCancel e) (cancelSuppressedAbortProbe p attempt' start epoch).
Proof.
  intros Hb Er Ha. unfold cancelSuppressedAbortProbe. rewrite Hb. simpl.
  assert (Hr : retryAttemptOrDefault attempt' start epoch = (t, e)).
  { destruct Ha as [-> | ->]; [done|]. by rewrite mark_failed_same. }
  rewrite Hr. destruct (retryAttemptHasCurrentFailure attempt'); [constructor | by apply Forall_singleton].
Qed.

(** The verdict after a handler that returned or panicked. *)
Lemma finish_verdict p (ab : abort_state) res rec' attempt start epoch started localPanic :
  has_breaker p = true → aborted rec' = aborted (ab_rec ab) → (localPanic = true → aborted rec' = true) →
  (ab_failed ab = false ∧ ab_calls ab = [] ∧ ab_attempt ab = attempt ∨
   ab_failed ab = true ∧ started = true ∧ aborted (ab_rec ab) = true ∧
   (ab_calls ab = [] ∧ attempt_failed attempt = true ∨
    ∃ s ra t e, retryAttemptOrDefault attempt start epoch = (t, e) ∧ ab_calls ab = [CallFailure s ra t e]) ∧
   (ab_attempt ab = attempt ∨ ab_attempt ab = mark_failed attempt)) →
  verdict started attempt start epoch
    (ab_calls ab ++
     (if negb started then if has_breaker p then [CallCancel epoch] else []
      else if aborted rec' then
        if negb localPanic then resolveAbortedExchange p res (ab_attempt ab) start epoch (ab_failed ab)
        else cancelSuppressedAbortProbe p (ab_attempt ab) start epoch
      else if has_breaker p && negb localPanic then resolveBreakerResult p res (ab_attempt ab) start epoch
      else [])).
Proof.
  intros Hb Ha Hp [(Hf & -> & ->)|(Hf & -> & Ht & Hcs & Hat)]; rewrite Hf; simpl.
  - destruct started; simpl; [|rewrite Hb; apply cancel_verdict]. destruct (aborted rec') eqn:Er.
    + apply resolved_verdict. destruct localPanic; [by apply cancelSuppressed_resolves | by apply resolveAbortedExchange_resolves].
    + destruct localPanic; [by specialize (Hp eq_refl)|]. rewrite Hb. by apply resolved_verdict, resolveBreakerResult_resolves.
  - rewrite Ha, Ht. destruct Hcs as [[-> Hm]|(s & ra & t & e & Er & ->)].
    + apply resolved_verdict. left. split; [|done]. destruct localPanic; simpl.
      * unfold cancelSuppressedAbortProbe. rewrite Hb. simpl. unfold retryAttemptHasCurrentFailure.
        destruct Hat as [-> | ->]; [by rewrite Hm | by destruct attempt].
      * unfold resolveAbortedExchange. by rewrite Hb.
    + apply (failure_then_verdict _ _ _ _ _ _ _ _ _ Er). destruct localPanic; simpl; [by eapply cancel_after|].
      unfold resolveAbortedExchange. rewrite Hb. constructor.
Qed.

(** The exchange blames the upstream: by its result when its handler returned, by the
    decision of the abort when that cut the response off. *)
Definition blames (p : Proxy) (o : Observed) (epoch : Z) (rec : statusRecorder) : Prop :=
  let h := o_handler o in
  let r := runExchange ParseTime DetectContentType p o epoch rec in
  match h_end h with
  | HandlerReturned => h_started h = true ∧ er_upstreamFailure (r_result r) = true ∧ er_suppressibleAbort (r_result r) = false
  | HandlerAborted =>
      is_Some (abortFailure ParseTime (sync_attempt (h_started h) (h_run h rec)) (o_ctx o) (h_copyErr h) (o_abortNow o))
  | HandlerPanicked => False
  end.

Definition is_failure (c : breaker_call) : Prop := match c with CallFailure _ _ _ _ => True | _ => False end.

Lemma recordAbortFailure_reports p rec attempt start epoch ctxErr now :
  has_breaker p = true → retryHandlesBreaker p && attempt_failed attempt = false →
  Exists is_failure (recordAbortFailure ParseTime p rec attempt start epoch ctxErr now).1.
Proof.
  intros Hb Hr. unfold recordAbortFailure. rewrite Hb, Hr. simpl. destruct (if negb _ && _ then _ else _). by apply Exists_cons_hd.
Qed.

Lemma handleAbort_reports p rec ctx copyErr started attempt start epoch now :
  has_breaker p = true → retryHandlesBreaker p && attempt_failed attempt = false →
  let ab := handleAbortHandler ParseTime p rec ctx copyErr started attempt start epoch now in
  (ab_failed ab = true ↔ is_Some (abortFailure ParseTime (sync_attempt started rec) ctx copyErr now)) ∧
  (ab_failed ab = true → Exists is_failure (ab_calls ab)) ∧ (ab_failed ab = false → ab_attempt ab = attempt).
Proof.
  intros Hb Hr. unfold handleAbortHandler. destruct (retryAttemptOrDefault attempt start epoch) as [t e].
  destruct (abortFailure _ _ _ _ _) as [n|]; simpl; [|by split_and!; [split; [done|by intros []]| |]].
  pose proof (recordAbortFailure_reports p (sync_attempt started rec) attempt t e (ctx n) now Hb Hr) as Hx.
  destruct (recordAbortFailure _ _ _ _ _ _ _ _) as [calls at']. simpl in *. split; [|done]. split; [by intros _; eexists|done].
Qed.

Lemma handleSuppressed_reports p rec ctx copyErr started attempt start epoch now :
  has_breaker p = true → retryHandlesBreaker p && attempt_failed attempt = false →
  let ab := handleSuppressedAbort ParseTime p rec ctx copyErr started attempt start epoch now in
  (ab_failed ab = true → Exists is_failure (ab_calls ab)) ∧ (ab_failed ab = false → ab_attempt ab = attempt).
Proof.
  intros Hb Hr. unfold handleSuppressedAbort. destruct (transcodeOutcome rec); [by split|].
  destruct (negb (has_err copyErr || _) && _); [by split|]. destruct (negb started); [by split|]. by apply handleAbort_reports.
Qed.

Lemma recordFailureOnce_reports p result attempt start epoch :
  has_breaker p = true → retryHandlesBreaker p && attempt_failed attempt = false →
  Exists is_failure (recordFailureOnce p result attempt start epoch).
Proof.
  intros Hb Hr. unfold recordFailureOnce. rewrite Hb, Hr. simpl. destruct (retryAttemptOrDefault _ _ _). by apply Exists_cons_hd.
Qed.

Lemma runExchange_blamed p o epoch rec :
  has_breaker p = true → retryHandlesBreaker p && attempt_failed (h_attempt (o_handler o)) = false → blames p o epoch rec →
  Exists is_failure (r_calls (runExchange ParseTime DetectContentType p o epoch rec)).
Proof.
  intros Hb Hr. unfold blames, runExchange. set (h := o_handler o). destruct (h_end h) eqn:Eend; [| |done].
  - destruct (o_panic o) as [[now close] a]. cbv zeta match.
    match goal with |- context [handleSuppressedAbort ?PT ?p ?r ?ctx ?ce ?st ?at' ?t ?e ?n] =>
      pose proof (handleSuppressed_reports p r ctx ce st at' t e n Hb Hr) as [Hf Ha];
      set (ab := handleSuppressedAbort PT p r ctx ce st at' t e n) in * end.
    destruct (classifyExchange _ _ _ _ _ _ _ _) as [res rec']. simpl. intros (-> & Hfail & Hsup). simpl.
    destruct (ab_failed ab); [by apply Exists_app; left; apply Hf|]. rewrite Ha by done. apply Exists_app. right.
    destruct (aborted rec'); simpl; unfold resolveAbortedExchange, resolveBreakerResult; rewrite Hb, Hfail, Hsup; simpl.
    + by apply recordFailureOnce_reports.
    + destruct (retryAttemptOrDefault _ _ _). by apply recordFailureOnce_reports.
  - intros Hblame.
    match goal with |- context [handleAbortHandler ?PT ?p ?r ?ctx ?ce ?st ?at' ?t ?e ?n] =>
      pose proof (handleAbort_reports p r ctx ce st at' t e n Hb Hr) as (Hiff & Hf & _);
      set (ab := handleAbortHandler PT p r ctx ce st at' t e n) in * end.
    apply Hiff in Hblame. destruct (classifyExchange _ _ _ _ _ _ _ _) as [res rec']. simpl. rewrite Hblame. by apply Hf.
Qed.

Lemma runExchange_verdict p o epoch rec :
  has_breaker p = true →
  verdict (h_started (o_handler o)) (h_attempt (o_handler o)) (o_start o) epoch
    (r_calls (runExchange ParseTime DetectContentType p o epoch rec)).
Proof.
  intros Hb. unfold runExchange. set (h := o_handler o). set (at0 := h_attempt h). set (start := o_start o).
  destruct (h_end h) eqn:Eend.
  2: { pose proof (handleAbort_cases p (h_run h rec) (o_ctx o) (h_copyErr h) (h_started h) at0 start epoch
         (o_abortNow o) Hb) as Hc.
       set (ab := handleAbortHandler _ _ _ _ _ _ _ _ _ _) in *. cbv zeta in Hc.
       destruct (classifyExchange _ _ _ _ _ _ _ _) as [res rec']. simpl.
       destruct Hc as [(-> & -> & ->)|(-> & [[-> Ha]|(s & ra & t & e & Er & ->)] & _)].
       - simpl. by apply resolved_verdict, cancelSuppressed_resolves.
       - apply resolved_verdict. by left.
       - by apply failure_then_verdict. }
  all: destruct (o_panic o) as [[now close] a]; cbv zeta; cbv match.
  all: match goal with |- context [handleSuppressedAbort ?PT ?p ?r ?ctx ?ce ?st ?at' ?t ?e ?n] =>
         pose proof (handleSuppressed_cases p r ctx ce st at' t e n Hb) as Hc;
         set (ab := handleSuppressedAbort PT p r ctx ce st at' t e n) in * end.
  all: match goal with |- context [classifyExchange ?PT ?r ?ctx ?at' ?st ?f ?e ?n] =>
         pose proof (classify_aborted r ctx at' st f e n) as Hab; destruct (classifyExchange PT r ctx at' st f e n) as [res rec'] end.
  - simpl in Hab |- *. apply (finish_verdict p ab res rec' at0 start epoch (h_started h) false); try done.
    destruct Hc as [(?&?&?&_)|?]; [by left | by right].
  - simpl in Hab |- *. apply (finish_verdict p ab res rec' at0 start epoch (h_started h) true); try done.
    + intros _. rewrite Hab. destruct Hc as [(_&_&_&Hr)|(_&_&Hr&_)]; [apply Hr, aborted_panic | done].
    + destruct Hc as [(?&?&?&_)|?]; [by left | by right].
Qed.
End resolution.

(** ** Lemmas: the breaker's probe *)

Lemma tell_dead e cs clock b :
  e ≠ 0 → ¬ Breaker.live e b → Forall (λ c, call_epoch c = e) cs → tell cs clock b = b.
Proof.
  intros He Hd Hcs. revert clock. induction Hcs as [|c cs <- _ IH]; intros clock; simpl; [done|].
  destruct (Breaker.dead_results_ignored (call_epoch c) b He Hd) as (Hf & Hs & Hc).
  destruct c; simpl in *; rewrite ?Hs, ?Hf, ?Hc; apply IH.
Qed.

(** Any report about the newest probe settles it. *)
Lemma tell_resolves e b t0 t c now stamp :
  Breaker.BInv b t0 → Breaker.isNewestProbe e b = true → Breaker.startedBeforeOpen t b = false →
  call_epoch c = e → (∀ t', c = CallSuccess t' e → t' = t) → (∀ s ra t', c = CallFailure s ra t' e → t' = t) →
  ¬ Breaker.live e (tell1 c now stamp b).
Proof.
  intros Hi Hn Ht Hc Hts Htf. pose proof (Breaker.isNewestProbe_live e b Hn) as Hl.
  assert (He : e ≠ 0).
  { unfold Breaker.live in Hl. apply list_elem_of_fmap in Hl as (q & -> & Hq).
    pose proof (proj1 (Forall_forall _ _) (Breaker.bi_epochs _ _ Hi) q Hq) as Hx. simpl in Hx. lia. }
  assert (Hst : Breaker.state b = Breaker.HalfOpen).
  { destruct (Breaker.state b) eqn:E; [| |done]; exfalso; unfold Breaker.live in Hl;
      rewrite (Breaker.bi_window _ _ Hi) in Hl by congruence; by apply elem_of_nil in Hl. }
  pose proof (proj2 (Z.eqb_neq e 0) He) as He0. destruct c as [t' e'|s ra t' e'|e']; simpl in Hc; subst e'; simpl.
  - rewrite (Hts t' eq_refl). unfold Breaker.RecordSuccess.
    rewrite He0, (proj2 (Breaker.isLiveProbe_live e b) Hl), Hst, Ht. simpl. unfold Breaker.live. simpl. by apply not_elem_of_nil.
  - rewrite (Htf s ra t' eq_refl). unfold Breaker.RecordFailure. rewrite He0, Hn, Ht, Hst. simpl.
    unfold Breaker.live. simpl. by apply not_elem_of_nil.
  - unfold Breaker.CancelProbe. rewrite He0, Hst. unfold Breaker.live. simpl.
    unfold Breaker.isNewestProbe, Breaker.newestProbe in Hn.
    pose proof (Breaker.bi_unique _ _ Hi) as Hu.
    destruct (last (Breaker.probes b)) as [q|] eqn:El; [|done]. apply Z.eqb_eq in Hn. subst e.
    apply last_Some in El as [ps Hps]. rewrite Hps in Hu |- *. rewrite Breaker.removeProbe_newest by done.
    rewrite map_app in Hu. simpl in Hu. apply NoDup_app in Hu as (_ & Hu & _). intros Hin.
    apply (Hu _ Hin). by apply list_elem_of_singleton.
Qed.

(** ** Properties *)

Section properties.
Context `{UnicodeTables} (ParseTime : str → option Time) (DetectContentType : str → str).
Context (probe : str → option (option bool)).

(** C5: Every path through an admission, whatever the breaker, the limiters, the
    client and the handler do, keeps the protocol: one admission, the queue gauge
    and the active gauge given back, every acquired slot released exactly once and
    only after the handler, the comment writer stopped before anyone else writes,
    at most one answer, and nothing told to a breaker that did not admit. *)
Theorem admission_protocol p req o rec limited :
  calls_allowed p o → 0 <= o_penalty o →
  ends_settled idle (serveLimited ParseTime DetectContentType probe p req o rec) ∧
  ends_settled idle (servePassthrough ParseTime DetectContentType p limited o rec).
Proof.
  intros Hcalls Hp.
  assert (Hallow : ∀ epoch k, ends_settled (set_allowed (has_breaker p) idle) k →
    ends_settled idle ((if has_breaker p then [EvAllow (Some epoch)] else []) ++ k)).
  { intros epoch k Hk. apply ends_app. exists (set_allowed (has_breaker p) idle). split; [by destruct (has_breaker p)|done]. }
  split.
  - unfold serveLimited. destruct (has_breaker p && negb (o_wouldAllow o)); [by eexists|].
    destruct (queue_full p o); [by eexists|]. cbv zeta.
    set (commit := commitComments probe p req (o_interrupted o)). clearbody commit.
    destruct (o_ctx_admission o) as [e|].
    { destruct (failure_follow (Some e) false idle []) as (q & Hq & ?); try done. rewrite app_nil_r in Hq.
      eexists. split; [exact Hq|]. unfold settled. simpl in *. intuition congruence. }
    destruct (if has_breaker p then o_allow o else Some 0) as [epoch|]; [|by eexists].
    apply Hallow. apply ends_app. exists (set_comments commit (set_allowed (has_breaker p) idle)).
    split; [by destruct commit|]. apply ends_app. eexists. split; [done|]. by apply awaitSlots_settles.
  - unfold servePassthrough. destruct (if has_breaker p then o_allow o else Some 0) as [epoch|]; [|by eexists].
    apply Hallow. set (r := runExchange _ _ p o epoch rec).
    pose proof (runExchange_silent ParseTime DetectContentType p o epoch rec) as Hsil. fold r in Hsil.
    assert (Hcs : ∀ q, q_allowed q = has_breaker p → q_allowed q = true ∨ (h_calls (o_handler o) = [] ∧ r_calls r = [])).
    { intros q Hq. destruct (has_breaker p) eqn:E; [by left|]. right. split; [by apply Hcalls | by apply Hsil]. }
    pose proof (follow_exchange o r) as Hex. set (L := exchange_log o r) in *. clearbody L.
    destruct limited.
    + apply ends_app. eexists. split; [done|]. destruct (default true (o_global o)); simpl negb; cbv match.
      * pose proof (hold_nonneg p (r_rec r) (r_result r) (r_attempt r) (o_ctx o 20%nat) (o_penalty o) Hp) as Hh.
        unfold ends_settled. cbn -[Z.leb]. rewrite Hex by (done || by apply Hcs). cbn -[Z.leb].
        match goal with |- context [0 <=? ?d] => assert (0 <= d) as Hd%Z.leb_le by (by destruct (r_localPanic r)) end.
        rewrite Hd. by eexists.
      * rewrite <- (app_nil_r (writeAdmissionFailure _ _)). apply failed_wait_settles; try done.
        intros q' H1 H2 H3 H4 H5. exists q'. split; [done|]. unfold settled. simpl in *. intuition congruence.
    + unfold ends_settled. simpl. rewrite <- (app_nil_r L). rewrite Hex by (done || by apply Hcs). by eexists.
Qed.

(** C29: An exchange the breaker admitted is reported to it, once: the proxy's own calls
    are about the attempt that was made (or withdraw the admission when the handler started
    none) and hold at most one verdict on the upstream's health.  A failure that the
    exchange finds in the upstream, in the result of a handler that returned or in the
    abort of one that was cut off, is told, unless a retry transport that reports to the
    breaker itself has recorded it; a mark of one that does not report, does not silence
    it.  Only if the attempt is marked as failed may there be no call at all: of a marked
    attempt of such a transport then, where nothing in the end is the upstream's fault,
    the probe is not even withdrawn ([marked_probe_kept]). *)
Theorem exchange_verdict p o epoch rec :
  has_breaker p = true →
  let cs := r_calls (runExchange ParseTime DetectContentType p o epoch rec) in
  verdict (h_started (o_handler o)) (h_attempt (o_handler o)) (o_start o) epoch cs ∧
  (retryHandlesBreaker p && attempt_failed (h_attempt (o_handler o)) = false →
   blames ParseTime DetectContentType p o epoch rec → Exists is_failure cs).
Proof. intros Hb. split; [by apply runExchange_verdict|by apply runExchange_blamed]. Qed.

(** A probe never leaks: when the breaker's newest probe is the attempt an
    exchange made, and the exchange began in the current open period, what the
    exchange tells the breaker settles that probe, however the handler ended. *)
Theorem probe_settled p o epoch rec b t0 clock :
  let h := o_handler o in
  let '(t, e) := retryAttemptOrDefault (h_attempt h) (o_start o) epoch in
  has_breaker p = true → attempt_failed (h_attempt h) = false → (h_started h = true ∨ e = epoch) →
  Breaker.BInv b t0 → Breaker.isNewestProbe e b = true → Breaker.startedBeforeOpen t b = false →
  ¬ Breaker.live e (tell (r_calls (runExchange ParseTime DetectContentType p o epoch rec)) clock b).
Proof.
  intros h. destruct (retryAttemptOrDefault (h_attempt h) (o_start o) epoch) as [t e] eqn:Er.
  intros Hb Hf Hs Hi Hn Ht.
  destruct (runExchange_verdict ParseTime DetectContentType p o epoch rec Hb) as (Hcs & _ & Hab).
  fold h in Hcs, Hab. rewrite Hf in Hcs. destruct Hcs as [Hcs|]; [|done].
  set (cs := r_calls _) in *. clearbody cs.
  assert (Habout : Forall (λ c, call_epoch c = e ∧ (∀ t', c = CallSuccess t' e → t' = t) ∧
                                (∀ s ra t', c = CallFailure s ra t' e → t' = t)) cs).
  { eapply Forall_impl; [exact Hab|]. intros c [Hc|[Hst ->]].
    - unfold about in Hc. rewrite Er in Hc. destruct c; simpl; destruct_and?; subst; split_and!; congruence.
    - split_and!; try done. destruct Hs; [congruence | done]. }
  destruct cs as [|c cs]; [done|]. apply Forall_cons in Habout as [(Hc & H1 & H2) Hrest]. simpl.
  assert (Hdead : ¬ Breaker.live e (tell1 c (clock O).1 (clock O).2 b)) by (by apply (tell_resolves e b t0 t)).
  assert (He : e ≠ 0).
  { pose proof (Breaker.isNewestProbe_live e b Hn) as Hl. apply list_elem_of_fmap in Hl as (q & -> & Hq).
    pose proof (proj1 (Forall_forall _ _) (Breaker.bi_epochs _ _ Hi) q Hq) as Hx. simpl in Hx. lia. }
  rewrite (tell_dead e); [done|done|done|]. eapply Forall_impl; [exact Hrest|]. by intros c' (? & _).
Qed.

(** How long a slot stays held after a native exchange.  A definitive failure of
    the upstream holds it for the penalty whatever the client did afterwards; a
    client that leaves while nothing definitive is known holds it for the cancel
    cooldown and never for the penalty; an exchange that never reached the upstream
    holds it not at all. *)
Theorem slot_hold p rec ctx attempt started abortFailure epoch now ctxErr penalty :
  transcodeOutcome rec = None → (upstreamAttempted rec = true → started = true) →
  let '(res, rec') := classifyExchange ParseTime rec ctx attempt started abortFailure epoch now in
  (has_breaker p = true → isUpstreamFailureStatus ParseTime rec' now (ctx 1%nat) = true →
     proxyTransportOrGeneratedError rec' = false → hold p rec' res attempt ctxErr penalty = penalty) ∧
  (started = true → proxyTransportOrGeneratedError rec' = true →
     is_ctx_err (ctx 1%nat) = true → is_ctx_err ctxErr = true →
     (∀ e, transportErr rec' = Some e → isContextCancellation e = true) →
     (∀ a, attempt = Some a → FailureRecorded a = false ∧ AnyFailureRecorded a = false) →
     hold p rec' res attempt ctxErr penalty = Z.max 0 (cancelCooldown p)) ∧
  (started = false → hold p rec' res attempt ctxErr penalty = 0).
Proof.
  intros Ho Hsync. unfold classifyExchange. rewrite Ho. unfold classifyNativeExchange. cbv zeta.
  set (rec' := sync_attempt started rec). pose proof (sync_attempted started rec Hsync) as Ha. fold rec' in Ha.
  unfold hold. cbv zeta. cbn [er_upstreamAttempted er_suppressibleAbort er_upstreamFailure]. split_and!.
  - intros -> Hf Hp. destruct (failure_not_local ParseTime _ _ _ Hf) as (_ & _ & _ & Hat & _).
    rewrite Ha in Hat. rewrite Hat, Hf. unfold suppressibleClientAbort. rewrite Hp. done.
  - intros -> Hp Hc1 Hc2 Htr Hat.
    assert (Hslot : ∀ x, retryAttemptFailureForSlot attempt x = false).
    { intros x. unfold retryAttemptFailureForSlot. destruct attempt as [a|]; [|done].
      destruct (Hat a eq_refl) as [-> ->]. by rewrite andb_false_r. }
    assert (Hreal : hasRealProxyTransportError (ctx 1%nat) rec' = false).
    { unfold hasRealProxyTransportError. destruct (transportErr rec') as [e|]; [|by rewrite andb_false_r].
      by rewrite (Htr e eq_refl), Hc1, andb_false_r. }
    assert (Hsup : suppressibleClientAbort (ctx 1%nat) rec' = true).
    { unfold suppressibleClientAbort. rewrite Hp, Hreal, Hc1. simpl. destruct (downstreamWriteFailed rec'); [done|].
      destruct (transportErr rec') as [e|]; [by apply Htr | done]. }
    rewrite Hslot, Hsup, Hc2. simpl. rewrite !andb_false_r. simpl.
    destruct (Z.ltb_spec 0 (cancelCooldown p)); lia.
  - intros ->. simpl. by rewrite !andb_false_r.
Qed.

(** The inspection before an early commit leaves the request as it was: unless
    it is interrupted the handler reads exactly the client's body and the error that
    ends it, and otherwise a prefix of it that ends in an error; and a POST with a
    body gets an early commit only when the whole body was read within the bound,
    is JSON and does not switch streaming off. *)
Theorem inspection_transparent p req interrupted :
  let '(replayed, err) := snd (bodyBlocksStreamCommit probe req interrupted) in
  (interrupted = None → replayed = body req ∧ err = body_err req) ∧
  (∃ rest, body req = replayed ++ rest ∧ (rest ≠ [] → err ≠ None)) ∧
  (commitComments probe p req interrupted = true → Method req = lit "POST" → hasBody req = true →
   ContentLength req ≠ 0 →
   Z.of_nat (length (body req)) <= inspectLimit ∧ body_err req = None ∧
   (probe (body req) = Some None ∨ probe (body req) = Some (Some true))).
Proof.
  assert (Hcommit : commitComments probe p req interrupted = true → fst (bodyBlocksStreamCommit probe req interrupted) = false).
  { unfold commitComments. rewrite !andb_true_iff, !negb_true_iff. tauto. }
  revert Hcommit. generalize (commitComments probe p req interrupted). intros commit Hcommit.
  unfold bodyBlocksStreamCommit in *. assert (HL : 0 <= inspectLimit) by done.
  generalize dependent inspectLimit. intros inspectLimit Hcommit HL.
  assert (Hself : ∃ rest, body req = body req ++ rest ∧ (rest ≠ [] → body_err req ≠ None)) by (exists []; by rewrite app_nil_r).
  destruct (_ || _ || _) eqn:Eskip.
  { simpl. split_and!; [done|done|]. intros _ Hm Hb Hc. exfalso. rewrite Hm, Hb in Eskip. simpl in Eskip.
    apply Z.eqb_neq in Hc. by rewrite Hc in Eskip. }
  destruct (inspectLimit <? ContentLength req); [simpl; split_and!; [done|done|]; intros Hc; by specialize (Hcommit Hc)|].
  cbv zeta in *. set (buf := take _ (body req)) in *.
  destruct (Z.leb_spec (Z.of_nat (length (body req))) inspectLimit) as [Hfit|Hfit].
  - assert (Hbuf : buf = body req) by (apply take_ge; lia).
    assert (Hlen : (inspectLimit <? Z.of_nat (length buf)) = false) by (rewrite Hbuf; lia).
    rewrite Hlen in *. rewrite Hbuf in *. clear Hbuf Hlen buf.
    destruct (body_err req) as [e|] eqn:Eb; [|destruct interrupted as [e|]].
    1-2: simpl in *; split_and!; [done|exists []; by rewrite app_nil_r|intros Hc; by specialize (Hcommit Hc)].
    destruct (probe (body req)) as [[[]|]|]; simpl in *; split_and!; try done; intros Hc; try (by specialize (Hcommit Hc)); auto.
  - destruct interrupted as [e|].
    + simpl in *. split_and!; [done| |intros Hc; by specialize (Hcommit Hc)].
      exists (drop (Z.to_nat (inspectLimit + 1)) (body req)). split; [|done]. symmetry. apply take_drop.
    + assert (Hlen : (inspectLimit <? Z.of_nat (length buf)) = true).
      { apply Z.ltb_lt. subst buf. rewrite length_take. lia. }
      rewrite Hlen in *. simpl in *. split_and!; [done|done|]. intros Hc. by specialize (Hcommit Hc).
Qed.

(** An exchange whose marker says no attempt was started withdraws the epoch of its
    admission, even when the retry transport has since admitted a later probe. *)
Lemma unstarted_cancels_admission p o epoch rec :
  has_breaker p = true → h_end (o_handler o) = HandlerReturned → h_started (o_handler o) = false →
  r_calls (runExchange ParseTime DetectContentType p o epoch rec) = [CallCancel epoch].
Proof.
  intros Hb He Hs. unfold runExchange. rewrite He, Hs. destruct (o_panic o) as [[now close] a]. cbv zeta.
  assert (Hc : ∀ r ce at' t e n, ab_calls (handleSuppressedAbort ParseTime p r (o_ctx o) ce false at' t e n) = []).
  { intros. unfold handleSuppressedAbort. destruct (transcodeOutcome _); [done|]. by destruct (_ && _). }
  destruct (classifyExchange _ _ _ _ _ _ _ _). simpl. by rewrite Hc, Hb.
Qed.
End properties.

(** ** Witnesses *)

(** A handler whose upstream answered 503 on the exchange's own attempt. *)
Definition demo_handler (e : ending) : Handler :=
  {| h_run := λ r, set_terminalWritten true (set_status 503 (set_upstreamAttempted true r)); h_calls := [];
     h_attempt := None; h_started := true; h_copyErr := None; h_end := e |}.

Definition demo_observed (e : ending) : Observed :=
  {| o_wouldAllow := true; o_waiters := Some 0; o_globalWaiters := Some 1; o_interrupted := None;
     o_ctx_admission := None; o_allow := Some 2; o_acquired := true; o_global := Some true; o_ctx_failed := None;
     o_handler := demo_handler e; o_ctx := never_cancelled; o_penalty := Second; o_slot_adaptive := true;
     o_start := 155; o_abortNow := 160; o_classifyNow := 161; o_panic := (160, demo_io, {| w_n := 0; w_err := None |}) |}.

Definition demo_request : request :=
  {| Method := lit "POST"; isUpgrade := false; acceptsEventStream := true; hasBody := true; ContentLength := 15;
     body := lit "{stream: true}"; body_err := None; fullDuplex := true |}.

(** A probe that finds every body to ask for a stream. *)
Definition demo_probe (b : str) : option (option bool) := Some (Some true).

Definition demo_record : statusRecorder := newRecorder ∅ None 0.

Lemma admission_protocol_witness :
  commitComments demo_probe demo_proxy demo_request None = true ∧
  ends_settled idle (serveLimited no_dates demo_detect demo_probe demo_proxy demo_request (demo_observed HandlerPanicked) demo_record) ∧
  ends_settled idle (servePassthrough no_dates demo_detect demo_proxy true (demo_observed HandlerPanicked) demo_record).
Proof.
  split; [by vm_compute|].
  by apply (admission_protocol no_dates demo_detect demo_probe demo_proxy demo_request (demo_observed HandlerPanicked) demo_record true).
Defined.

Lemma exchange_verdict_witness :
  verdict true None 155 2 (r_calls (runExchange no_dates demo_detect demo_proxy (demo_observed HandlerAborted) 2 demo_record)) ∧
  Exists is_failure (r_calls (runExchange no_dates demo_detect demo_proxy (demo_observed HandlerAborted) 2 demo_record)).
Proof.
  destruct (exchange_verdict no_dates demo_detect demo_proxy (demo_observed HandlerAborted) 2 demo_record eq_refl) as [Hv Hf].
  split; [exact Hv|]. apply Hf; [reflexivity|]. eexists. vm_compute. reflexivity.
Defined.

(** A failed attempt, marked by a transport that reports to no breaker, after which the
    client left while it waited to retry: nothing is told, and the probe stays. *)
Definition marked_handler : Handler :=
  {| h_run := λ r, set_transportErr (Some (plain_err Canceled)) (set_upstreamAttempted true r); h_calls := [];
     h_attempt := Some {| StartedAt := 155; Epoch := 2; FailureRecorded := true; HeaderFailureRecorded := true;
                          AnyFailureRecorded := true; AnyHeaderFailureRecorded := true |};
     h_started := true; h_copyErr := None; h_end := HandlerReturned |}.

Definition marked_observed : Observed :=
  {| o_wouldAllow := true; o_waiters := Some 0; o_globalWaiters := Some 1; o_interrupted := None;
     o_ctx_admission := None; o_allow := Some 2; o_acquired := true; o_global := Some true; o_ctx_failed := None;
     o_handler := marked_handler; o_ctx := λ _, Some (plain_err Canceled); o_penalty := Second; o_slot_adaptive := true;
     o_start := 155; o_abortNow := 160; o_classifyNow := 161; o_panic := (160, demo_io, {| w_n := 0; w_err := None |}) |}.

Lemma marked_probe_kept :
  retryHandlesBreaker demo_proxy = false ∧
  r_calls (runExchange no_dates demo_detect demo_proxy marked_observed 2 demo_record) = [] ∧
  Breaker.live 2 (tell (r_calls (runExchange no_dates demo_detect demo_proxy marked_observed 2 demo_record)) (λ _, (170, 170)) Breaker.half_b).
Proof.
  assert (Hc : r_calls (runExchange no_dates demo_detect demo_proxy marked_observed 2 demo_record) = []) by (by vm_compute).
  split; [by vm_compute|]. split; [done|]. rewrite Hc. by apply Breaker.isNewestProbe_live.
Qed.

Lemma probe_settled_witness :
  Breaker.isNewestProbe 2 Breaker.half_b = true ∧
  ¬ Breaker.live 2 (tell (r_calls (runExchange no_dates demo_detect demo_proxy (demo_observed HandlerReturned) 2 demo_record))
                      (λ _, (170, 170)) Breaker.half_b).
Proof.
  split; [done|].
  apply (probe_settled no_dates demo_detect demo_proxy (demo_observed HandlerReturned) 2 demo_record Breaker.half_b 150
           (λ _, (170, 170))); try done; [by left|].
  apply Breaker.breaker_reachable_inv, Breaker.demo_half_reachable.
Defined.

Lemma slot_hold_witness :
  let '(res, rec') := classifyExchange no_dates (answered 503) (λ _, Some (plain_err Canceled)) None true false 0 5 in
  hold demo_proxy rec' res None (Some (plain_err Canceled)) 7 = 7.
Proof.
  pose proof (slot_hold no_dates demo_proxy (answered 503) (λ _, Some (plain_err Canceled)) None true false 0 5
                (Some (plain_err Canceled)) 7 eq_refl (λ _, eq_refl)) as Hx.
  vm_compute in Hx |- *. by apply Hx.
Defined.
