(* ===== verification/WireObject.v ===== *)
(** * Strict decoding of wire documents ([internal/transcode/wire/object.go])

    The walks over a document's tokens that reject duplicate keys and illegal
    nulls, the strict and tolerant decoders built on them, the payload object
    decoder and the presence-aware field.  A destination is described by its type
    as [reflect] shows it; what [encoding/json] makes of a first value for that
    destination is a parameter. *)

From Stdlib Require Import ZArith Lia Bool List Ascii String.
From stdpp Require Import strings gmap list.
From S2P Require Import Prelude GoStd GoStr GoText GoJson.

Open Scope Z_scope.

(** ** Errors *)

Inductive DecodeErrorKind :=
| DecodeMalformed
| DecodeDuplicateKey
| DecodeUnknownField
| DecodeMissingRequired
| DecodeIllegalNull
| DecodeContradictoryUnion
| DecodeTrailingValue.

#[export] Instance DecodeErrorKind_eq_dec : EqDecision DecodeErrorKind.
Proof. solve_decision. Defined.

Definition DecodeErrorKind_String (k : DecodeErrorKind) : string :=
  match k with
  | DecodeMalformed => "malformed"
  | DecodeDuplicateKey => "duplicate_key"
  | DecodeUnknownField => "unknown_field"
  | DecodeMissingRequired => "missing_required"
  | DecodeIllegalNull => "illegal_null"
  | DecodeContradictoryUnion => "contradictory_union"
  | DecodeTrailingValue => "trailing_value"
  end.

Record DecodeError := { Kind : DecodeErrorKind; Path : str; Message : str }.

Definition DecodeError_Error (e : DecodeError) : str :=
  let kind := lit (DecodeErrorKind_String (Kind e)) in
  let msg := if str_eqb (Message e) [] then kind else Message e in
  if str_eqb (Path e) [] then lit "wire: " ++ kind ++ lit ": " ++ msg
  else lit "wire: " ++ kind ++ lit ": " ++ msg ++ lit " at " ++ Path e.

(** What a decode can fail with: a typed rejection, an unsupported union arm, the
    unknown-field error of [encoding/json], or another error of the decoder. *)
Inductive wire_error :=
| EDecode (e : DecodeError)
| EUnsupported (protocol path typ : str)
| EUnknownField
| ERaw.

Definition typed_error (k : DecodeErrorKind) : wire_error := EDecode {| Kind := k; Path := []; Message := [] |}.

(** ** Types, as [reflect] shows them *)

Inductive rtype :=
| RT (custom : bool) (kind : rkind)
with rkind :=
| KPointer (elem : rtype)
| KSlice (elem : rtype)
| KArray (elem : rtype)
| KMap
| KInterface
| KStruct (fields : list rfield)
| KScalar
with rfield :=
| RF (anonymous : bool) (goName tag : str) (typ : rtype).

Fixpoint unpointer (t : rtype) : rtype :=
  match t with
  | RT _ (KPointer t) => unpointer t
  | _ => t
  end.

(** [isCustomUnmarshaler]: the flag of the type. *)
Definition isCustomUnmarshaler (t : rtype) : bool := let '(RT custom _) := t in custom.

Definition nullCapable (t : rtype) : bool :=
  match t with
  | RT _ (KPointer _ | KSlice _ | KMap | KInterface) => true
  | RT custom _ => custom
  end.

Definition tag_name (goName tag : str) : str :=
  let name := match Cut "," tag with Some (name, _) => name | None => tag end in
  if str_eqb name [] then goName else name.

(** [structFieldByJSONName]; embedded structs are searched through their pointers. *)
Fixpoint structFieldByJSONName (t : rtype) (key : str) : option rtype :=
  match t with
  | RT _ (KPointer t) => structFieldByJSONName t key
  | RT false (KStruct fields) =>
      (fix go (fields : list rfield) : option rtype :=
         match fields with
         | [] => None
         | RF anonymous goName tag ft :: fields =>
             if anonymous then
               match structFieldByJSONName ft key with
               | Some inner => Some inner
               | None => go fields
               end
             else if str_eqb tag "-" then go fields
             else if str_eqb (tag_name goName tag) key then Some ft
             else go fields
         end) fields
  | _ => None
  end.

(** ** Duplicate keys *)

Record frame := { isObject : bool; keys : gset str; expectKey : bool }.

Definition set_expectKey (b : bool) (f : frame) : frame :=
  {| isObject := isObject f; keys := keys f; expectKey := b |}.

(** A value has just been completed. *)
Definition completed (stack : list frame) : list frame :=
  match stack with
  | f :: stack => if isObject f then set_expectKey true f :: stack else f :: stack
  | [] => []
  end.

(** [checkDuplicateKeys] over the tokens of a document: the duplicated key. *)
Fixpoint dup_walk (ts : list token) (stack : list frame) : option str :=
  match ts with
  | [] | TErr :: _ => None
  | TOpen true :: ts => dup_walk ts ({| isObject := true; keys := ∅; expectKey := true |} :: stack)
  | TOpen false :: ts => dup_walk ts ({| isObject := false; keys := ∅; expectKey := false |} :: stack)
  | TClose _ :: ts => dup_walk ts (completed (tail stack))
  | TStr t :: ts =>
      match stack with
      | [] => dup_walk ts stack
      | top :: stack' =>
          if negb (isObject top) || negb (expectKey top) then dup_walk ts (completed stack)
          else if bool_decide (t ∈ keys top) then Some t
          else dup_walk ts ({| isObject := true; keys := {[t]} ∪ keys top; expectKey := false |} :: stack')
      end
  | (TNum _ | TBool _ | TNull) :: ts => dup_walk ts (completed stack)
  end.

Definition checkDuplicateKeys (ts : list token) : option str := dup_walk ts [].

(** ** Illegal nulls *)

(** [skipJSONRest]: whether the container ended, and the tokens left. *)
Fixpoint skipJSONRest (depth : nat) (ts : list token) : bool * list token :=
  match ts with
  | [] => (false, [])
  | TErr :: ts => (false, ts)
  | TOpen _ :: ts => skipJSONRest (S depth) ts
  | TClose _ :: ts => match depth with
                      | S (S d) => skipJSONRest (S d) ts
                      | _ => (true, ts)
                      end
  | _ :: ts => skipJSONRest depth ts
  end.

Definition skipJSONValue (ts : list token) : bool * list token :=
  match ts with
  | [] => (false, [])
  | TErr :: ts => (false, ts)
  | TOpen _ :: ts => skipJSONRest 1 ts
  | _ :: ts => (true, ts)
  end.

(** The subtree of a type that owns its nulls; its syntax error is the walk's. *)
Definition skip_owned (ts : list token) : option wire_error * list token :=
  let '(ended, ts) := skipJSONRest 1 ts in (if ended then None else Some ERaw, ts).

Definition illegal_null (path : str) : wire_error := EDecode {| Kind := DecodeIllegalNull; Path := path; Message := [] |}.

(** The element type of a slice or array without its own decoder. *)
Definition element_type (t : rtype) : option rtype :=
  match t with
  | RT false (KSlice e) | RT false (KArray e) => Some e
  | _ => None
  end.

Definition is_struct (t : rtype) : bool := match t with RT false (KStruct _) => true | _ => false end.

(** The walk; the fuel bounds the number of tokens. *)
Fixpoint checkNullValue (fuel : nat) (t : rtype) (path : str) (ts : list token) : option wire_error * list token :=
  match fuel with
  | O => (None, ts)
  | S fuel =>
      match ts with
      | [] => (None, [])
      | TErr :: ts => (None, ts)
      | tok :: ts => checkNullToken fuel t tok path ts
      end
  end
with checkNullToken (fuel : nat) (t : rtype) (tok : token) (path : str) (ts : list token)
    : option wire_error * list token :=
  match fuel with
  | O => (None, ts)
  | S fuel =>
      match tok with
      | TNull => (if nullCapable t then None else Some (illegal_null path), ts)
      | TOpen true => if is_struct (unpointer t) then checkNullObject fuel (unpointer t) path ts else skip_owned ts
      | TOpen false => match element_type (unpointer t) with
                       | Some e => checkNullArray fuel e path ts
                       | None => skip_owned ts
                       end
      | _ => (None, ts)
      end
  end
with checkNullArray (fuel : nat) (e : rtype) (path : str) (ts : list token) : option wire_error * list token :=
  match fuel with
  | O => (None, ts)
  | S fuel =>
      match ts with
      | [] => (None, [])
      | TErr :: ts => (None, ts)
      | TClose false :: ts => (None, ts)
      | tok :: ts => match checkNullToken fuel e tok (path ++ lit "[]") ts with
                     | (None, ts) => checkNullArray fuel e path ts
                     | r => r
                     end
      end
  end
with checkNullObject (fuel : nat) (t : rtype) (path : str) (ts : list token) : option wire_error * list token :=
  match fuel with
  | O => (None, ts)
  | S fuel =>
      match ts with
      | [] => (None, [])
      | TErr :: ts => (None, ts)
      | TClose true :: ts => (None, ts)
      | TStr key :: ts =>
          match structFieldByJSONName t key with
          | None => match skipJSONValue ts with
                    | (true, ts) => checkNullObject fuel t path ts
                    | (false, ts) => (None, ts)
                    end
          | Some ft => match checkNullValue fuel ft (path ++ "."%char :: key) ts with
                       | (None, ts) => checkNullObject fuel t path ts
                       | r => r
                       end
          end
      | _ :: ts => (Some (EDecode {| Kind := DecodeMalformed; Path := path; Message := lit "object key is not a string" |}), ts)
      end
  end.

Definition checkIllegalNulls (t : rtype) (ts : list token) : option wire_error :=
  fst (checkNullValue (3 * length ts + 3) (unpointer t) [] ts).

(** ** Decoding *)

Section decode.
Context (float_ok : str → bool).

(** [decode]; [typed] is what [encoding/json] and the type's own decoders make of
    the first value, unknown fields being refused or not. *)
Definition decode {A} (typed : bool → json → result wire_error A) (t : rtype) (disallowUnknown : bool) (data : str)
    : result wire_error A :=
  let '(l, ok) := lex data in
  let ts := tokens float_ok data in
  match checkDuplicateKeys ts with
  | Some key => Err (EDecode {| Kind := DecodeDuplicateKey; Path := []; Message := lit "duplicate JSON key " ++ json_string key |})
  | None =>
      match checkIllegalNulls t ts with
      | Some e => Err e
      | None =>
          match decode_first l with
          | None => Err (typed_error DecodeMalformed)
          | Some (v, rest) =>
              match typed disallowUnknown v with
              | Err (EDecode e) => Err (EDecode e)
              | Err (EUnsupported p q r) => Err (EUnsupported p q r)
              | Err EUnknownField => Err (typed_error DecodeUnknownField)
              | Err ERaw => Err (typed_error DecodeMalformed)
              | Ok a =>
                  match trailing rest ok with
                  | NoTrailer => Ok a
                  | TrailingValue => Err (typed_error DecodeTrailingValue)
                  | TrailingGarbage => Err (typed_error DecodeMalformed)
                  end
              end
          end
      end
  end.

Definition Decode {A} (typed : bool → json → result wire_error A) (t : rtype) := decode typed t true.
Definition DecodeTolerant {A} (typed : bool → json → result wire_error A) (t : rtype) := decode typed t false.
End decode.

(** The members of an object as a Go map: the last of equal keys stays. *)
Definition members (kvs : list (str * json)) : gmap str json := list_to_map (rev kvs).

Definition JSONObject (raw : str) : result wire_error (gmap str json) :=
  let trimmed := TrimSpace raw in
  if str_eqb trimmed [] then Err ERaw
  else if negb (HasPrefix trimmed (lit "{")) then Err ERaw
  else
    let '(l, ok) := lex trimmed in
    match decode_first l with
    | Some (JObj kvs, rest) =>
        match trailing rest ok with
        | NoTrailer => Ok (members kvs)
        | TrailingValue => Err (typed_error DecodeTrailingValue)
        | TrailingGarbage => Err (typed_error DecodeMalformed)
        end
    | _ => Err ERaw
    end.

(** ** Presence-aware fields *)

Record Field (T : Type) := { Value : T; Present : bool; Null : bool }.
Arguments Value {T} _.
Arguments Present {T} _.
Arguments Null {T} _.

(** [UnmarshalJSON]; a field the document does not mention is never called. *)
Definition Field_UnmarshalJSON {T} (unmarshal : json → result wire_error T) (zero : T) (v : json) : result wire_error (Field T) :=
  match v with
  | JNull => Ok {| Value := zero; Present := true; Null := true |}
  | _ => x <-? unmarshal v;; Ok {| Value := x; Present := true; Null := false |}
  end.

Definition Field_MarshalJSON {T} (marshal : T → json) (f : Field T) : json := marshal (Value f).

Definition Field_IsZero {T} (f : Field T) : bool := negb (Present f).

(** ** Specifications *)

(** No object of the value has a key twice. *)
Fixpoint unique_keys (v : json) : Prop :=
  match v with
  | JArr vs => foldr (λ v P, unique_keys v ∧ P) True vs
  | JObj kvs => NoDup (map fst kvs) ∧ foldr (λ kv P, unique_keys (snd kv) ∧ P) True kvs
  | _ => True
  end.

(** Every number fits a float64. *)
Fixpoint numbers_fit (float_ok : str → bool) (v : json) : Prop :=
  match v with
  | JNum raw => float_ok raw = true
  | JArr vs => foldr (λ v P, numbers_fit float_ok v ∧ P) True vs
  | JObj kvs => foldr (λ kv P, numbers_fit float_ok (snd kv) ∧ P) True kvs
  | _ => True
  end.

(** The first null, in document order, where the type cannot hold one. *)
Fixpoint null_at (t : rtype) (path : str) (v : json) : option str :=
  match v with
  | JNull => if nullCapable t then None else Some path
  | JArr vs =>
      match element_type (unpointer t) with
      | Some e => foldr (λ v r, match null_at e (path ++ lit "[]") v with Some p => Some p | None => r end) None vs
      | None => None
      end
  | JObj kvs =>
      if is_struct (unpointer t) then
        foldr (λ kv r, match structFieldByJSONName (unpointer t) (fst kv) with
                       | Some ft => match null_at ft (path ++ "."%char :: fst kv) (snd kv) with Some p => Some p | None => r end
                       | None => r
                       end) None kvs
      else None
  | _ => None
  end.

(** What [encoding/json] does with a value, independently of the walk: the names a
    struct takes, the fields of embedded structs included; the field of a key, an exact
    match before one up to case ([fold] is the folding of names); and which part of a
    value is put at which destination. *)
Fixpoint visible (t : rtype) : list (str * rtype) :=
  match t with
  | RT _ (KPointer t) => visible t
  | RT false (KStruct fields) =>
      (fix go (fields : list rfield) : list (str * rtype) :=
         match fields with
         | [] => []
         | RF anonymous goName tag ft :: fields =>
             ((if anonymous then visible ft else if str_eqb tag "-" then [] else [(tag_name goName tag, ft)]) ++ go fields)%list
         end) fields
  | _ => []
  end.

Definition named (t : rtype) (key : str) : option rtype := snd <$> List.find (λ p, str_eqb (fst p) key) (visible t).

Definition destination (fold : str → str) (t : rtype) (key : str) : option rtype :=
  match named t key with
  | Some ft => Some ft
  | None => snd <$> List.find (λ p, str_eqb (fold (fst p)) (fold key)) (visible t)
  end.

Inductive lands (fold : str → str) (t : rtype) (v : json) : rtype → json → Prop :=
| lands_whole : lands fold t v t v
| lands_element t' vs e u : lands fold t v t' (JArr vs) → element_type (unpointer t') = Some e → u ∈ vs → lands fold t v e u
| lands_field t' kvs k u ft : lands fold t v t' (JObj kvs) → is_struct (unpointer t') = true → (k, u) ∈ kvs →
    destination fold (unpointer t') k = Some ft → lands fold t v ft u.

(** A null is put where the type cannot hold one. *)
Definition forced_null (fold : str → str) (t : rtype) (v : json) : Prop :=
  ∃ t', lands fold t v t' JNull ∧ nullCapable t' = false.

(** A key that has a field has its very name. *)
Definition spelled (fold : str → str) (t : rtype) (v : json) : Prop :=
  ∀ t' kvs k u, lands fold t v t' (JObj kvs) → is_struct (unpointer t') = true → (k, u) ∈ kvs →
  named (unpointer t') k = destination fold (unpointer t') k.

(** ** Lemmas: duplicate keys *)

(** The stack waits for a value. *)
Definition ready (stack : list frame) : Prop :=
  match stack with
  | f :: _ => isObject f = true → expectKey f = false
  | [] => True
  end.

#[local] Arguments lit : simpl never.

Section walks.
Context (float_ok : str → bool).

Abbreviation elems vs := (concat (map (toks float_ok) vs)).
Abbreviation fields kvs := (concat (map (λ '(k, v), TStr k :: toks float_ok v) kvs)).

Definition dup_exact (v : json) : Prop := ∀ stack rest, ready stack → numbers_fit float_ok v →
  (unique_keys v ∧ dup_walk (toks float_ok v ++ rest) stack = dup_walk rest (completed stack)) ∨
  (¬ unique_keys v ∧ ∃ k, dup_walk (toks float_ok v ++ rest) stack = Some k).

Lemma dup_elems vs : Forall dup_exact vs → ∀ f stack rest,
  isObject f = false → foldr (λ v P, numbers_fit float_ok v ∧ P) True vs →
  (foldr (λ v P, unique_keys v ∧ P) True vs ∧
     dup_walk (elems vs ++ TClose false :: rest) (f :: stack) = dup_walk rest (completed stack)) ∨
  (¬ foldr (λ v P, unique_keys v ∧ P) True vs ∧ ∃ k, dup_walk (elems vs ++ TClose false :: rest) (f :: stack) = Some k).
Proof.
  induction 1 as [|v vs Hv _ IH]; intros f stack rest Hf Hfit; simpl in *; [by left|]. destruct Hfit as [Hv1 Hvs].
  rewrite <- app_assoc. assert (Hr : ready (f :: stack)) by (simpl; congruence).
  destruct (Hv (f :: stack) (elems vs ++ TClose false :: rest) Hr Hv1) as [[Hu He]|[Hu (k & He)]].
  - rewrite He. simpl. rewrite Hf. destruct (IH f stack rest Hf Hvs) as [[? ?]|[? ?]]; [left | right]; tauto.
  - right. split; [tauto|]. by exists k.
Qed.

Lemma dup_fields kvs : Forall (λ kv, dup_exact (snd kv)) kvs → ∀ ks stack rest,
  foldr (λ kv P, numbers_fit float_ok (snd kv) ∧ P) True kvs →
  let top := {| isObject := true; keys := ks; expectKey := true |} in
  let good := NoDup (map fst kvs) ∧ Forall (λ k, k ∉ ks) (map fst kvs) ∧
              foldr (λ kv P, unique_keys (snd kv) ∧ P) True kvs in
  (good ∧ dup_walk (fields kvs ++ TClose true :: rest) (top :: stack) = dup_walk rest (completed stack)) ∨
  (¬ good ∧ ∃ k, dup_walk (fields kvs ++ TClose true :: rest) (top :: stack) = Some k).
Proof.
  induction 1 as [|[k v] kvs Hv _ IH]; intros ks stack rest Hfit; simpl in *.
  { left. split; [|done]. split_and!; constructor. }
  destruct Hfit as [Hv1 Hvs]. case_bool_decide as Hin.
  { right. split; [|by exists k]. intros (_ & Hn & _). apply Forall_cons in Hn as [? _]. done. }
  rewrite <- app_assoc.
  destruct (Hv ({| isObject := true; keys := {[k]} ∪ ks; expectKey := false |} :: stack)
              (fields kvs ++ TClose true :: rest) (λ _, eq_refl) Hv1) as [[Hu He]|[Hu (x & He)]].
  2: { right. split; [tauto|]. by exists x. }
  rewrite He. simpl. unfold set_expectKey. simpl.
  destruct (IH ({[k]} ∪ ks) stack rest Hvs) as [[Hg ->]|[Hg Hx]].
  - left. split; [|done]. destruct Hg as (Hnd & Hks & Hun). split_and!; try done.
    + apply NoDup_cons. split; [|done]. intros Hk. rewrite Forall_forall in Hks. apply Hks in Hk. set_solver.
    + apply Forall_cons. split; [done|]. eapply Forall_impl; [exact Hks|]. set_solver.
  - right. split; [|done]. intros (Hnd & Hks & _ & Hun). apply Hg. apply NoDup_cons in Hnd as [Hk Hnd].
    apply Forall_cons in Hks as [_ Hks]. split_and!; try done. rewrite Forall_forall in Hks |- *.
    intros x Hx'. specialize (Hks x Hx'). rewrite not_elem_of_union, not_elem_of_singleton. split; [|done]. by intros ->.
Qed.

Lemma dup_value v : dup_exact v.
Proof.
  induction v as [|b|raw|s|vs IH|kvs IH] using json_nested_ind; intros stack rest Hr Hfit; simpl.
  - by left.
  - by left.
  - left. split; [done|]. simpl in Hfit. unfold num_token. by rewrite Hfit.
  - left. split; [done|]. destruct stack as [|f stack]; [done|]. simpl in Hr.
    destruct (isObject f) eqn:Ef; simpl; [by rewrite Hr | by rewrite Ef].
  - rewrite <- app_assoc. simpl. by apply dup_elems.
  - rewrite <- app_assoc. simpl.
    pose proof (dup_fields kvs IH ∅ stack rest Hfit) as Hf. simpl in Hf.
    assert (Hnil : Forall (λ k : str, k ∉ (∅ : gset str)) (map fst kvs)) by (apply Forall_true; set_solver).
    destruct Hf as [[Hg He]|[Hg He]]; [left | right]; tauto.
Qed.

(** ** Lemmas: illegal nulls *)

Lemma skip_value v : numbers_fit float_ok v → ∀ d rest,
  skipJSONRest (S d) (toks float_ok v ++ rest) = skipJSONRest (S d) rest.
Proof.
  induction v as [|b|raw|s|vs IH|kvs IH] using json_nested_ind; intros Hfit d rest; try done.
  - simpl in *. unfold num_token. by rewrite Hfit.
  - simpl in Hfit |- *. rewrite <- app_assoc. simpl. revert d rest.
    assert (Hgo : ∀ d rest, skipJSONRest (S d) (elems vs ++ rest) = skipJSONRest (S d) rest).
    { induction IH as [|v vs Hv _ IHvs]; intros d rest; simpl; [done|]. simpl in Hfit. destruct Hfit as [? ?].
      rewrite <- app_assoc, Hv by done. by apply IHvs. }
    intros d rest. by rewrite Hgo.
  - simpl in Hfit |- *. rewrite <- app_assoc. simpl. revert d rest.
    assert (Hgo : ∀ d rest, skipJSONRest (S d) (fields kvs ++ rest) = skipJSONRest (S d) rest).
    { induction IH as [|[k v] kvs Hv _ IHvs]; intros d rest; simpl; [done|]. simpl in Hfit. destruct Hfit as [? ?].
      rewrite <- app_assoc, Hv by done. by apply IHvs. }
    intros d rest. by rewrite Hgo.
Qed.

Lemma skip_elems vs d rest : foldr (λ v P, numbers_fit float_ok v ∧ P) True vs →
  skipJSONRest (S d) (elems vs ++ rest) = skipJSONRest (S d) rest.
Proof.
  revert rest. induction vs as [|v vs IH]; intros rest Hfit; simpl in *; [done|]. destruct Hfit.
  rewrite <- app_assoc, skip_value by done. by apply IH.
Qed.

Lemma skip_fields kvs d rest : foldr (λ kv P, numbers_fit float_ok (snd kv) ∧ P) True kvs →
  skipJSONRest (S d) (fields kvs ++ rest) = skipJSONRest (S d) rest.
Proof.
  revert rest. induction kvs as [|[k v] kvs IH]; intros rest Hfit; simpl in *; [done|]. destruct Hfit.
  rewrite <- app_assoc, skip_value by done. by apply IH.
Qed.

(** A value that is skipped is skipped exactly. *)
Lemma skipJSONValue_value v rest : numbers_fit float_ok v → skipJSONValue (toks float_ok v ++ rest) = (true, rest).
Proof.
  intros Hfit. destruct v as [|b|raw|s|vs|kvs]; simpl in *; try done.
  - unfold num_token. by rewrite Hfit.
  - rewrite <- app_assoc. by rewrite skip_elems.
  - rewrite <- app_assoc. by rewrite skip_fields.
Qed.

(** What a walk over a value returns. *)
Definition walked (r : option wire_error * list token) (p : option str) (rest : list token) : Prop :=
  match p with
  | None => r = (None, rest)
  | Some p => fst r = Some (illegal_null p)
  end.

Definition null_exact (v : json) : Prop := ∀ fuel t path rest, numbers_fit float_ok v →
  (3 * length (toks float_ok v) <= fuel)%nat →
  walked (checkNullValue fuel t path (toks float_ok v ++ rest)) (null_at t path v) rest.

(** After its first token, a value is walked by [checkNullToken]. *)
Lemma value_head v : numbers_fit float_ok v → ∃ tok ts, toks float_ok v = tok :: ts ∧ tok ≠ TErr ∧ (∀ o, tok ≠ TClose o) ∧
  ∀ fuel t path rest, checkNullValue (S fuel) t path (toks float_ok v ++ rest) = checkNullToken fuel t tok path (ts ++ rest).
Proof.
  intros Hfit. destruct v as [|b|raw|s|vs|kvs]; simpl; try (eexists; eexists; split_and!; done).
  simpl in Hfit. unfold num_token. rewrite Hfit. eexists; eexists; split_and!; done.
Qed.

Lemma null_elems vs e path : Forall null_exact vs → foldr (λ v P, numbers_fit float_ok v ∧ P) True vs → ∀ fuel rest,
  (3 * (length (elems vs) + 1) <= fuel)%nat →
  walked (checkNullArray fuel e path (elems vs ++ TClose false :: rest))
    (foldr (λ v r, match null_at e (path ++ lit "[]") v with Some p => Some p | None => r end) None vs) rest.
Proof.
  induction 1 as [|v vs Hv _ IH]; intros Hfit fuel rest Hf; simpl in *.
  { destruct fuel as [|fuel]; [lia|]. done. }
  destruct Hfit as [Hv1 Hvs]. rewrite length_app in Hf. destruct fuel as [|fuel]; [lia|]. rewrite <- app_assoc.
  destruct (value_head v Hv1) as (tok & ts & Ht & Hne & Hnc & Hhd).
  specialize (Hv (S fuel) e (path ++ lit "[]") (elems vs ++ TClose false :: rest) Hv1 ltac:(lia)).
  rewrite Hhd in Hv. rewrite Ht. simpl app.
  assert (Hstep : checkNullArray (S fuel) e path (tok :: ts ++ elems vs ++ TClose false :: rest) =
    match checkNullToken fuel e tok (path ++ lit "[]") (ts ++ elems vs ++ TClose false :: rest) with
    | (None, ts) => checkNullArray fuel e path ts | r => r end).
  { simpl. destruct tok as [|[]| | | | |]; try done; by destruct (Hnc _ eq_refl). }
  rewrite Hstep. destruct (null_at e (path ++ lit "[]") v) as [p|]; unfold walked in Hv.
  - destruct (checkNullToken _ _ _ _ _) as [[x|] y]; simpl in Hv; by simplify_eq.
  - rewrite Hv. apply IH; [done|]. rewrite Ht in Hf. simpl in Hf. lia.
Qed.

Lemma null_fields kvs t path : Forall (λ kv, null_exact (snd kv)) kvs →
  foldr (λ kv P, numbers_fit float_ok (snd kv) ∧ P) True kvs → ∀ fuel rest,
  (3 * (length (fields kvs) + 1) <= fuel)%nat →
  walked (checkNullObject fuel t path (fields kvs ++ TClose true :: rest))
    (foldr (λ kv r, match structFieldByJSONName t (fst kv) with
                    | Some ft => match null_at ft (path ++ "."%char :: fst kv) (snd kv) with Some p => Some p | None => r end
                    | None => r
                    end) None kvs) rest.
Proof.
  induction 1 as [|[k v] kvs Hv _ IH]; intros Hfit fuel rest Hf; simpl in *.
  { destruct fuel as [|fuel]; [lia|]. done. }
  destruct Hfit as [Hv1 Hvs]. rewrite length_app in Hf. destruct fuel as [|fuel]; [lia|]. rewrite <- app_assoc.
  simpl. destruct (structFieldByJSONName t k) as [ft|].
  - specialize (Hv fuel ft (path ++ "."%char :: k) (fields kvs ++ TClose true :: rest) Hv1 ltac:(lia)).
    destruct (null_at ft (path ++ "."%char :: k) v) as [p|]; unfold walked in Hv.
    + destruct (checkNullValue _ _ _ _) as [[x|] y]; simpl in Hv; by simplify_eq.
    + rewrite Hv. apply IH; [done | lia].
  - rewrite skipJSONValue_value by done. apply IH; [done | lia].
Qed.

Lemma null_value v : null_exact v.
Proof.
  induction v as [|b|raw|s|vs IH|kvs IH] using json_nested_ind; intros fuel t path rest Hfit Hf;
    (destruct fuel as [|[|fuel]]; [simpl in Hf; lia|simpl in Hf; lia|]).
  - simpl. by destruct (nullCapable t).
  - done.
  - simpl in Hfit |- *. unfold num_token. by rewrite Hfit.
  - done.
  - cbn [toks app checkNullValue checkNullToken null_at] in Hf |- *. rewrite <- app_assoc. simpl app.
    simpl length in Hf. rewrite length_app in Hf. simpl in Hf.
    destruct (element_type (unpointer t)) as [e|].
    + apply null_elems; [done | done | lia].
    + unfold skip_owned. by rewrite skip_elems.
  - cbn [toks app checkNullValue checkNullToken null_at] in Hf |- *. rewrite <- app_assoc. simpl app.
    simpl length in Hf. rewrite length_app in Hf. simpl in Hf.
    destruct (is_struct (unpointer t)).
    + apply null_fields; [done | done | lia].
    + unfold skip_owned. by rewrite skip_fields.
Qed.
End walks.

(** ** Lemmas: where a value lands *)

Section landing.
Context (fold : str → str).

Lemma find_app {A} (f : A → bool) l k :
  List.find f (l ++ k) = match List.find f l with Some x => Some x | None => List.find f k end.
Proof. induction l as [|x l IH]; [done|]. simpl. by destruct (f x). Qed.

Fixpoint named_field (t : rtype) : ∀ key, structFieldByJSONName t key = named t key.
Proof.
  destruct t as [custom [e|e|e| | |fields|]]; intros key; [by destruct custom; exact (named_field e key)|by destruct custom..| |by destruct custom].
  - destruct custom; [done|]. unfold named. simpl. induction fields as [|[anonymous goName tag ft] fields IH]; [done|].
    simpl. rewrite find_app. destruct anonymous.
    + rewrite (named_field ft key). unfold named. destruct (List.find _ (visible ft)); [done|]. exact IH.
    + destruct (str_eqb tag "-"); [exact IH|]. simpl. destruct (str_eqb (tag_name goName tag) key); [done|]. exact IH.
Qed.

Lemma lands_trans t v t' v' t'' v'' : lands fold t v t' v' → lands fold t' v' t'' v'' → lands fold t v t'' v''.
Proof. intros H. induction 1; [done|by eapply lands_element|by eapply lands_field]. Qed.

Lemma spelled_part t v t' v' : lands fold t v t' v' → spelled fold t v → spelled fold t' v'.
Proof. intros Hl Hs ?????. apply Hs. by eapply lands_trans. Qed.

Lemma lands_scalar t v t' v' : (∀ vs, v ≠ JArr vs) → (∀ kvs, v ≠ JObj kvs) → lands fold t v t' v' → t' = t ∧ v' = v.
Proof. intros Ha Ho. induction 1 as [|t' vs e u _ IH|t' kvs k u ft _ IH]; [done| |]; destruct IH as [_ IH]; [by edestruct Ha|by edestruct Ho]. Qed.

Lemma lands_array t vs t' v' : lands fold t (JArr vs) t' v' →
  (t' = t ∧ v' = JArr vs) ∨ ∃ e u, element_type (unpointer t) = Some e ∧ u ∈ vs ∧ lands fold e u t' v'.
Proof.
  induction 1 as [|t' ws e u _ IH He Hu|t' kvs k u ft _ IH Hs Hu Hd]; [by left| |].
  - destruct IH as [[-> [= ->]]|(e0 & u0 & H1 & H2 & H3)]; right; [by exists e, u; split_and!; [| |constructor]|].
    exists e0, u0. split_and!; [done..|by eapply lands_element].
  - destruct IH as [[_ ?]|(e0 & u0 & H1 & H2 & H3)]; [done|]. right. exists e0, u0. split_and!; [done..|by eapply lands_field].
Qed.

Lemma lands_object t kvs t' v' : lands fold t (JObj kvs) t' v' →
  (t' = t ∧ v' = JObj kvs) ∨
  ∃ k u ft, is_struct (unpointer t) = true ∧ (k, u) ∈ kvs ∧ destination fold (unpointer t) k = Some ft ∧ lands fold ft u t' v'.
Proof.
  induction 1 as [|t' ws e u _ IH He Hu|t' kvs' k u ft _ IH Hs Hu Hd]; [by left| |].
  - destruct IH as [[_ ?]|(k0 & u0 & f0 & H1 & H2 & H3 & H4)]; [done|]. right. exists k0, u0, f0. split_and!; [done..|by eapply lands_element].
  - destruct IH as [[-> [= ->]]|(k0 & u0 & f0 & H1 & H2 & H3 & H4)]; right; [by exists k, u, ft; split_and!; [| | |constructor]|].
    exists k0, u0, f0. split_and!; [done..|by eapply lands_field].
Qed.

(** The first of several results. *)
Lemma foldr_first {A B} (f : A → option B) (l : list A) :
  foldr (λ x r, match f x with Some p => Some p | None => r end) None l ≠ None ↔ ∃ x, x ∈ l ∧ f x ≠ None.
Proof.
  induction l as [|x l IH]; simpl.
  - split; [done|]. by intros (? & ?%elem_of_nil & _).
  - destruct (f x) as [b|] eqn:E.
    + split; [|done]. intros _. exists x. split; [by left|by rewrite E].
    + rewrite IH. split; intros (y & Hy & Hf); exists y; (split; [|done]); [by right|].
      apply elem_of_cons in Hy as [->|?]; [by rewrite E in Hf|done].
Qed.

(** The walk's reading of a document is the decoder's. *)
Lemma null_at_forced v : ∀ t path, spelled fold t v → null_at t path v ≠ None ↔ forced_null fold t v.
Proof.
  induction v as [|b|raw|s|vs IH|kvs IH] using json_nested_ind; intros t path Hs.
  - simpl. unfold forced_null. split.
    + intros H. exists t. split; [constructor|]. by destruct (nullCapable t).
    + intros (t' & [-> _]%lands_scalar & ->); done.
  - split; [done|]. by intros (t' & [_ ?]%lands_scalar & _).
  - split; [done|]. by intros (t' & [_ ?]%lands_scalar & _).
  - split; [done|]. by intros (t' & [_ ?]%lands_scalar & _).
  - simpl. rewrite Forall_forall in IH. destruct (element_type (unpointer t)) as [e|] eqn:He.
    + rewrite foldr_first. split.
      * intros (u & Hu & Hn). apply (IH u Hu) in Hn as (t' & Hl & Hc).
        { exists t'. split; [|done]. eapply lands_trans; [|exact Hl]. by eapply lands_element; [constructor|..]. }
        eapply spelled_part; [|exact Hs]. by eapply lands_element; [constructor|..].
      * intros (t' & [[_ ?]|(e' & u & He' & Hu & Hl)]%lands_array & Hc); [done|]. rewrite He in He'. injection He' as <-.
        exists u. split; [done|]. apply (IH u Hu); [|by exists t'].
        eapply spelled_part; [|exact Hs]. by eapply lands_element; [constructor|..].
    + split; [done|]. intros (t' & [[_ ?]|(e' & u & He' & _)]%lands_array & _); [done|]. by rewrite He in He'.
  - simpl. rewrite Forall_forall in IH. destruct (is_struct (unpointer t)) eqn:Hst.
    + assert (Hsame : ∀ k u, (k, u) ∈ kvs → structFieldByJSONName (unpointer t) k = destination fold (unpointer t) k).
      { intros k u Hk. rewrite named_field. eapply Hs; [constructor|done|done]. }
      rewrite (foldr_ext _ (λ kv r, match (match structFieldByJSONName (unpointer t) (fst kv) with
          | Some ft => null_at ft (path ++ "."%char :: fst kv) (snd kv) | None => None end) with Some p => Some p | None => r end) None None kvs kvs);
        [|by intros [k u] r; simpl; destruct (structFieldByJSONName _ k)|done|done].
      rewrite foldr_first. split.
      * intros ([k u] & Hu & Hn). simpl in Hn. rewrite (Hsame k u Hu) in Hn. destruct (destination fold (unpointer t) k) as [ft|] eqn:Hd; [|done].
        assert (Hl : lands fold t (JObj kvs) ft u) by (by eapply lands_field; [constructor|..]).
        apply (IH (k, u) Hu) in Hn as (t' & Hl' & Hc); [|by eapply spelled_part]. exists t'. split; [|done]. by eapply lands_trans.
      * intros (t' & [[_ ?]|(k & u & ft & _ & Hu & Hd & Hl')]%lands_object & Hc); [done|].
        assert (Hl : lands fold t (JObj kvs) ft u) by (by eapply lands_field; [constructor|..]).
        exists (k, u). split; [done|]. simpl. rewrite (Hsame k u Hu), Hd. apply (IH (k, u) Hu); [by eapply spelled_part|by exists t'].
    + split; [done|]. intros (t' & [[_ ?]|(k & u & ft & Hst' & _)]%lands_object & _); [done|]. by rewrite Hst in Hst'.
Qed.
End landing.

(** ** Lemmas: documents *)

Lemma parse_text_first text v :
  parse_text text = Some v ↔ decode_first (fst (lex text)) = Some (v, []) ∧ snd (lex text) = true.
Proof.
  unfold parse_text. destruct (lex text) as [l ok]. simpl. split.
  - destruct (decode_first l) as [[v' rest]|]; [|done]. destruct rest as [|x rest].
    + simpl. destruct ok; [|done]. by intros [= ->].
    + unfold trailing. by destruct (decode_first (x :: rest)).
  - intros [-> ->]. done.
Qed.

Lemma no_trailer rest ok : trailing rest ok = NoTrailer → rest = [] ∧ ok = true.
Proof.
  unfold trailing. destruct rest as [|x rest]; [by destruct ok|]. by destruct (decode_first (x :: rest)).
Qed.

Lemma text_tokens float_ok text v : parse_text text = Some v → tokens float_ok text = toks float_ok v.
Proof.
  intros [Hd _]%parse_text_first. unfold tokens. rewrite (decode_first_tokens float_ok _ _ _ Hd). simpl. by rewrite app_nil_r.
Qed.

Lemma dup_text float_ok text v :
  parse_text text = Some v → numbers_fit float_ok v →
  (unique_keys v ∧ checkDuplicateKeys (tokens float_ok text) = None) ∨
  (¬ unique_keys v ∧ ∃ k, checkDuplicateKeys (tokens float_ok text) = Some k).
Proof.
  intros Hp Hfit. rewrite (text_tokens float_ok text v Hp). unfold checkDuplicateKeys.
  pose proof (dup_value float_ok v [] [] I Hfit) as Hd. by rewrite app_nil_r in Hd.
Qed.

Lemma null_text float_ok text v t :
  parse_text text = Some v → numbers_fit float_ok v →
  checkIllegalNulls t (tokens float_ok text) = option_map illegal_null (null_at (unpointer t) [] v).
Proof.
  intros Hp Hfit. rewrite (text_tokens float_ok text v Hp). unfold checkIllegalNulls.
  pose proof (null_value float_ok v (3 * length (toks float_ok v) + 3)%nat (unpointer t) [] [] Hfit ltac:(lia)) as Hn.
  rewrite app_nil_r in Hn. destruct (null_at (unpointer t) [] v); unfold walked in Hn; [done | by rewrite Hn].
Qed.

Lemma lex1_brace c text r : lex1 c text = Some (LOpen true, r) → code c = 123.
Proof.
  intros Hl. destruct (Z.eqb_spec (code c) 123) as [|H1]; [done|]. apply Z.eqb_neq in H1. unfold lex1 in Hl.
  cbv zeta in Hl. rewrite H1 in Hl. by repeat (case_match; simplify_eq).
Qed.

Lemma code_inj c n : code c = Z.of_nat n → (n < 256)%nat → c = ascii_of_nat n.
Proof.
  intros Hc Hn. unfold code in Hc. rewrite <- (ascii_N_embedding c). unfold ascii_of_nat. f_equal. lia.
Qed.

(** A text that begins with no white space and holds an object begins with a brace. *)
Lemma object_text_head text kvs :
  space_head text = None → decode_first (fst (lex text)) = Some (JObj kvs, []) → ∃ s, text = lit "{" ++ s.
Proof.
  intros Hs Hd. unfold lex in Hd. destruct text as [|c text]; [done|]. simpl length in Hd. cbn [lex_fuel] in Hd.
  assert (Hsp : is_json_space c = false).
  { unfold space_head in Hs. cbv zeta in Hs.
    destruct ((code c =? 32) || ((9 <=? code c) && (code c <=? 13))) eqn:E; [done|]. unfold is_json_space. cbv zeta. lia. }
  rewrite Hsp in Hd. destruct (lex1 c text) as [[x r]|] eqn:El; [|done].
  destruct (lex_fuel (length text) r) as [l ok]. unfold decode_first in Hd. cbn [fst] in Hd.
  destruct (3 * length (x :: l) + 3)%nat as [|n] eqn:En; [simpl in En; lia|].
  assert (Hx : x = LOpen true).
  { destruct x as [[]|[]| | | | | |]; simpl in Hd; try done.
    by repeat (case_match; simplify_eq). }
  subst x. apply lex1_brace in El. exists text. by rewrite (code_inj c 123) by (done || lia).
Qed.

Lemma members_last kvs k : members kvs !! k = snd <$> last (filter (λ kv, fst kv = k) kvs).
Proof.
  unfold members. induction kvs as [|[k' v] kvs IH] using rev_ind; [done|]. rewrite rev_app_distr. simpl.
  rewrite filter_app, filter_cons, filter_nil. simpl. destruct (decide (k' = k)) as [->|Hne].
  - rewrite lookup_insert_eq. by rewrite last_snoc.
  - rewrite lookup_insert_ne by done. by rewrite app_nil_r.
Qed.

Lemma JSONObject_iff raw m :
  JSONObject raw = Ok m ↔ ∃ kvs, parse_text (TrimSpace raw) = Some (JObj kvs) ∧ m = members kvs.
Proof.
  unfold JSONObject. set (text := TrimSpace raw). split.
  - destruct (str_eqb text []); [done|]. destruct (HasPrefix text (lit "{")); [|done]. simpl.
    destruct (lex text) as [l ok] eqn:El. destruct (decode_first l) as [[[| | | | |kvs] rest]|] eqn:Ef; try done.
    destruct (trailing rest ok) eqn:Et; try done. apply no_trailer in Et as [-> ->]. intros [= <-].
    exists kvs. split; [|done]. apply parse_text_first. by rewrite El.
  - intros (kvs & [Hd Hk]%parse_text_first & ->).
    destruct (object_text_head text kvs) as [s Hs]; [apply TrimSpace_head | done |].
    assert (Hp : HasPrefix text (lit "{") = true) by (apply HasPrefix_app; exists s; done).
    destruct (str_eqb text []) eqn:E; [apply str_eqb_eq in E; by rewrite E in Hs|]. rewrite Hp. simpl.
    destruct (lex text) as [l ok]. simpl in Hd, Hk. rewrite Hd. simpl. by rewrite Hk.
Qed.

(** ** Properties *)

Section properties.
Context (float_ok : str → bool).

(** C33: A decode succeeds exactly on the documents it means to accept: the text is
    one JSON value and nothing else, no object in it has a key twice at any depth,
    no null is put, by the decoder's own matching of keys and fields, at a destination
    that cannot hold one, and the destination takes the value; its result is what the
    destination made of that value.  This is so of texts whose numbers fit a float64
    and whose keys, where they have a field, are spelled as the field is: the lemmas
    [overflow_hides_duplicates] and [cased_null_escapes] show what the walks miss of
    others. *)
Theorem decode_exact (fold : str → str) A (typed : bool → json → result wire_error A) t strict text a :
  (∀ v, parse_text text = Some v → numbers_fit float_ok v ∧ spelled fold (unpointer t) v) →
  decode float_ok typed t strict text = Ok a ↔
  ∃ v, parse_text text = Some v ∧ unique_keys v ∧ ¬ forced_null fold (unpointer t) v ∧ typed strict v = Ok a.
Proof.
  intros Hfit. unfold decode. destruct (lex text) as [l ok] eqn:El. split.
  - intros Hok. destruct (checkDuplicateKeys (tokens float_ok text)) as [k|] eqn:Ed; [done|].
    destruct (checkIllegalNulls t (tokens float_ok text)) as [e|] eqn:En; [done|].
    destruct (decode_first l) as [[v rest]|] eqn:Ef; [|done].
    destruct (typed strict v) as [x|[]] eqn:Et; try done.
    destruct (trailing rest ok) eqn:Etr; try done. apply no_trailer in Etr as [-> ->]. injection Hok as ->.
    assert (Hp : parse_text text = Some v) by (apply parse_text_first; by rewrite El).
    destruct (Hfit v Hp) as [Hnum Hsp]. exists v. split; [done|].
    destruct (dup_text float_ok text v Hp Hnum) as [[Hu _]|[_ (k & Hk)]]; [|congruence].
    rewrite (null_text float_ok text v t Hp Hnum) in En. split; [done|]. split; [|done].
    rewrite <- (null_at_forced fold v (unpointer t) [] Hsp). destruct (null_at (unpointer t) [] v); [done|by intros []].
  - intros (v & Hp & Hu & Hn & Ht). destruct (Hfit v Hp) as [Hnum Hsp].
    destruct (dup_text float_ok text v Hp Hnum) as [[_ ->]|[? _]]; [|done].
    rewrite (null_text float_ok text v t Hp Hnum). rewrite <- (null_at_forced fold v (unpointer t) [] Hsp) in Hn.
    destruct (null_at (unpointer t) [] v) as [p|]; [by destruct (Hn ltac:(done))|]. simpl.
    apply parse_text_first in Hp as [Hd Hk]. rewrite El in Hd, Hk. simpl in Hd, Hk. rewrite Hd, Ht. simpl. by rewrite Hk.
Qed.

(** The two walks over the tokens decide their document properties exactly: a
    duplicate is reported when and only when some object of the document has a key
    twice, and the null that is reported is the first one, in document order, that
    stands at a type which cannot hold it, with its path. *)
Theorem token_walks_exact text v t :
  parse_text text = Some v → numbers_fit float_ok v →
  (checkDuplicateKeys (tokens float_ok text) = None ↔ unique_keys v) ∧
  checkIllegalNulls t (tokens float_ok text) = option_map illegal_null (null_at (unpointer t) [] v).
Proof.
  intros Hp Hfit. split; [|by apply null_text].
  destruct (dup_text float_ok text v Hp Hfit) as [[Hu ->]|[Hu (k & ->)]]; [done|]. split; [done|]. by intros ?.
Qed.

(** A rejection is typed: a well-formed document is refused with the category of
    what is wrong with it, a duplicate key before an illegal null, and either before
    anything the destination or the trailing text has to say. *)
Theorem decode_error A (typed : bool → json → result wire_error A) t strict text v :
  parse_text text = Some v → numbers_fit float_ok v →
  (¬ unique_keys v → ∃ e, decode float_ok typed t strict text = Err (EDecode e) ∧ Kind e = DecodeDuplicateKey) ∧
  (unique_keys v → ∀ p, null_at (unpointer t) [] v = Some p →
     decode float_ok typed t strict text = Err (illegal_null p)) ∧
  (unique_keys v → null_at (unpointer t) [] v = None → typed strict v = Err EUnknownField →
     decode float_ok typed t strict text = Err (typed_error DecodeUnknownField)).
Proof.
  intros Hp Hfit. unfold decode. pose proof (dup_text float_ok text v Hp Hfit) as Hdup.
  pose proof (null_text float_ok text v t Hp Hfit) as Hnull. apply parse_text_first in Hp as [Hd Hk].
  destruct (lex text) as [l ok]. simpl in Hd, Hk. split_and!.
  - intros Hu. destruct Hdup as [[? _]|[_ (k & ->)]]; [done|]. by eexists.
  - intros Hu p Hnp. destruct Hdup as [[_ ->]|[? _]]; [|done]. rewrite Hnp in Hnull. by rewrite Hnull.
  - intros Hu Hn Ht. destruct Hdup as [[_ ->]|[? _]]; [|done]. rewrite Hn in Hnull. rewrite Hnull, Hd. simpl. by rewrite Ht.
Qed.

(** [JSONObject] accepts exactly the texts that are, trimmed, one JSON object, and
    its map gives every key the last of the values the text has for it. *)
Theorem JSONObject_exact raw m :
  (JSONObject raw = Ok m ↔ ∃ kvs, parse_text (TrimSpace raw) = Some (JObj kvs) ∧ m = members kvs) ∧
  (∀ kvs k, members kvs !! k = snd <$> last (filter (λ kv, fst kv = k) kvs)).
Proof. split; [apply JSONObject_iff | apply members_last]. Qed.

(** A number that does not fit a float64 ends the walks: the keys after it are not
    compared, although the decode that follows may well read past it. *)
Lemma overflow_hides_duplicates :
  let text := list_ascii_of_string "{'a':1e999,'b':1,'b':2}" in
  let text := map (λ c, if byte_eqb c "'"%char then quote_char else c) text in
  let fits raw := negb (str_eqb raw (lit "1e999")) in
  (∃ v, parse_text text = Some v ∧ ¬ unique_keys v) ∧ checkDuplicateKeys (tokens fits text) = None.
Proof.
  cbv zeta. split; [|by vm_compute]. eexists. split; [by vm_compute|]. intros [Hn _]. simpl in Hn.
  apply NoDup_cons in Hn as [_ Hn]. apply NoDup_cons in Hn as [Hb _]. apply Hb. by left.
Qed.

(** Within a subtree that owns its nulls the same number, or a syntax error, is
    returned as the decoder's own error, with no category. *)
Lemma overflow_untyped_rejection :
  let raw_field := RT false (KStruct [RF false (lit "X") (lit "x") (RT true KScalar)]) in
  let text := map (λ c, if byte_eqb c "'"%char then quote_char else c) (lit "{'x':[1e999]}") in
  let fits raw := negb (str_eqb raw (lit "1e999")) in
  ∀ A (typed : bool → json → result wire_error A) strict, decode fits typed raw_field strict text = Err ERaw.
Proof. intros. by vm_compute. Qed.
End properties.

(** ** Witnesses *)

Definition quoted (s : string) : str := map (λ c, if byte_eqb c "'"%char then quote_char else c) (lit s).

Definition all_fit (raw : str) : bool := true.

(** A destination with one required string and one nullable field. *)
Definition demo_type : rtype :=
  RT false (KStruct [RF false (lit "Model") (lit "model") (RT false KScalar);
                     RF false (lit "Stop") (lit "stop,omitempty") (RT false (KPointer (RT false KScalar)))]).

Definition demo_typed (strict : bool) (v : json) : result wire_error json := Ok v.

Definition demo_good : str := quoted "{'model':'m','stop':null}".
Definition demo_null : str := quoted "{'stop':null,'model':null}".
Definition demo_dup : str := quoted "{'model':'m','stop':'x','model':'n'}".

Definition value_of (text : str) : json := match parse_text text with Some v => v | None => JNull end.

(** A folding for the demonstrations. *)
Definition lower (s : str) : str := map (λ c, if (65 <=? code c) && (code c <=? 90) then ascii_of_N (Z.to_N (code c + 32)) else c) s.

Lemma demo_spelled v : parse_text demo_good = Some v → spelled lower (unpointer demo_type) v.
Proof.
  intros Hv. vm_compute in Hv. injection Hv as <-.
  intros t' kvs k u [[-> [= ->]]|(k0 & u0 & ft & _ & Hin & Hd & Hl)]%lands_object Hs Hk.
  - repeat (apply elem_of_cons in Hk as [Hk|Hk]; [injection Hk as -> ->; by vm_compute|]). by apply elem_of_nil in Hk.
  - repeat (apply elem_of_cons in Hin as [Hin|Hin]; [injection Hin as -> ->; by apply lands_scalar in Hl as [_ ?]|]).
    by apply elem_of_nil in Hin.
Qed.

(** A null under a key that matches its field only up to case is not seen. *)
Lemma cased_null_escapes :
  let text := quoted "{'Model':null}" in
  (∃ v, parse_text text = Some v ∧ forced_null lower demo_type v) ∧
  decode all_fit demo_typed demo_type true text = Ok (value_of text).
Proof.
  cbv zeta. split; [|by vm_compute]. eexists. split; [by vm_compute|]. exists (RT false KScalar). split; [|done].
  eapply lands_field; [constructor|done|by left|by vm_compute].
Qed.

Lemma decode_exact_witness :
  decode all_fit demo_typed demo_type true demo_good = Ok (value_of demo_good) ∧
  (decode all_fit demo_typed demo_type true demo_good = Ok (value_of demo_good) ↔
   ∃ v, parse_text demo_good = Some v ∧ unique_keys v ∧ ¬ forced_null lower (unpointer demo_type) v ∧
     demo_typed true v = Ok (value_of demo_good)).
Proof.
  split; [by vm_compute|]. apply (decode_exact all_fit lower json demo_typed demo_type true demo_good (value_of demo_good)).
  intros v Hv. split; [|by apply demo_spelled]. vm_compute in Hv. injection Hv as <-. by vm_compute.
Defined.

Lemma token_walks_exact_witness :
  (checkDuplicateKeys (tokens all_fit demo_null) = None ↔ unique_keys (value_of demo_null)) ∧
  checkIllegalNulls demo_type (tokens all_fit demo_null) =
    option_map illegal_null (null_at (unpointer demo_type) [] (value_of demo_null)).
Proof. apply (token_walks_exact all_fit demo_null (value_of demo_null) demo_type); by vm_compute. Defined.

Lemma decode_error_witness :
  ∃ e, decode all_fit demo_typed demo_type true demo_dup = Err (EDecode e) ∧ Kind e = DecodeDuplicateKey.
Proof.
  destruct (decode_error all_fit json demo_typed demo_type true demo_dup (value_of demo_dup)) as [H _].
  - by vm_compute.
  - by vm_compute.
  - apply H. intros [Hn _]. vm_compute in Hn. apply NoDup_cons in Hn as [Hn _]. apply Hn. right. by left.
Defined.
