(* ===== verification/Losses.v ===== *)
(** * Loss policy and conversion report ([internal/transcode/losses.go])

    A conversion that meets a feature its target cannot carry asks the policy
    ([Lose]) or notes a sanctioned encoding ([Note]); the report is bounded and
    never fails an exchange.  A conversion is a computation that threads the report
    and may stop with an error, the report being kept either way. *)

From Stdlib Require Import ZArith Lia Bool List Ascii String.
From stdpp Require Import strings gmap list.
From S2P Require Import Prelude GoStd GoStr.

Open Scope Z_scope.
Open Scope string_scope.

(** ** Data *)

Definition Feature : Type := string.

Definition RegisteredLossKeys : list Feature :=
  ["previous_response_id"; "request_top_logprobs"; "request_service_tier"; "request_truncation";
   "multiple_system_turns"; "system_non_text_content"; "mid_conversation_system"; "tool_schema_strictness";
   "tool_result_error_status"; "tool_result_multimodal_content"; "namespace_replay_undeclared";
   "output_item_boundaries"; "output_phase"; "missing_stream_sentinel"; "missing_event_name";
   "provider_audio_transcript"; "provider_audio_data"; "usage_unknown"; "usage_total_mismatch";
   "usage_total_derived"; "image_detail_original"; "image_detail_invented"; "report_overflow";
   "usage_cache_read_unknown"; "usage_cache_write_unknown"; "usage_reasoning_unknown";
   "usage_cache_exceeds_input"; "usage_negative_counts"; "provider_reasoning_text"; "request_reasoning";
   "reasoning_summary"; "tool_result_json_envelope"; "developer_role"; "structured_output";
   "vacuous_schema_bounds"; "metadata"; "parallel_tool_calls"; "stop_sequences"; "image_input";
   "document_input"; "authenticated_thinking"; "top_k"; "logprobs"; "responses_controls";
   "anthropic_controls"; "request_citations"; "builtin_tools"; "anthropic_server_tools";
   "response_service_tier"; "legacy_function_call"].

Definition allLossKeys : gset Feature := list_to_set RegisteredLossKeys.

Record LossPolicy := { Allowed : gset Feature }.

Definition StrictLossPolicy : LossPolicy := {| Allowed := ∅ |}.

Definition Allows (p : LossPolicy) (f : Feature) : bool := bool_decide (f ∈ Allowed p).

(** The errors of a conversion: an unsupported feature, content the target cannot
    represent, and the plain ones, with the part they are about; an upstream's corrupt
    data and its own failure; and a nil or out of range access, which panics. *)
Inductive terr :=
| UnsupportedFeatureError (Protocol Path Feature : string)
| UnrepresentableError (Protocol Path Detail : string)
| Errorf (msg : string)
| ErrAt (what : string) (index : nat) (e : terr)
| UpstreamWireError (msg : string)
| UpstreamSemanticFailureError (Message : str)
| NilPanic.

Inductive LossKind := LossRecord | NoteRecord.

Record ConversionLoss := { l_Feature : Feature; l_Path : string; l_Detail : string; l_Kind : LossKind }.

Record ConversionReport := { Losses : list ConversionLoss; Dropped : Z; overflowNoted : bool }.

Definition fresh_report : ConversionReport := {| Losses := []; Dropped := 0; overflowNoted := false |}.

Definition maxStreamConversionReportEntries : nat := N.to_nat 4096.

(** ** Conversions *)

Definition Conv (A : Type) : Type := ConversionReport → result terr A * ConversionReport.

Definition ret {A} (a : A) : Conv A := λ r, (Ok a, r).

Definition fail {A} (e : terr) : Conv A := λ r, (Err e, r).

Definition bind {A B} (m : Conv A) (k : A → Conv B) : Conv B :=
  λ r, let '(res, r) := m r in
       match res with
       | Ok a => k a r
       | Err e => (Err e, r)
       end.

Declare Scope conv_scope.
Delimit Scope conv_scope with conv.
Notation "x <~ m ;; k" := (bind m (λ x, k)) (at level 60, m at level 59, right associativity) : conv_scope.
Notation "m ;;~ k" := (bind m (λ _, k)) (at level 60, right associativity) : conv_scope.
Open Scope conv_scope.

(** A conversion inside another, with its error placed. *)
Definition at_index {A} (what : string) (i : nat) (m : Conv A) : Conv A :=
  λ r, let '(res, r) := m r in
       (match res with Ok a => Ok a | Err e => Err (ErrAt what i e) end, r).

Definition when (b : bool) (m : Conv unit) : Conv unit := if b then m else ret tt.

Definition lift {A} (res : result terr A) : Conv A := λ r, (res, r).

(** The results of a numbered list, concatenated. *)
Fixpoint collect {A B} (f : nat → A → Conv (list B)) (i : nat) (l : list A) : Conv (list B) :=
  match l with
  | [] => ret []
  | x :: l => bs <~ f i x ;; rest <~ collect f (S i) l ;; ret (bs ++ rest)%list
  end.

(** ** The report *)

Definition entry (k : LossKind) (f : Feature) (path detail : string) : ConversionLoss :=
  {| l_Feature := f; l_Path := path; l_Detail := detail; l_Kind := k |}.

Definition overflow_entry : ConversionLoss :=
  entry NoteRecord "report_overflow" "report"
    "conversion report reached the 4096-entry bound; further entries are aggregated here (observability saturation, never an exchange failure)".

Definition append (e : ConversionLoss) (r : ConversionReport) : ConversionReport :=
  {| Losses := (Losses r ++ [e])%list; Dropped := Dropped r; overflowNoted := overflowNoted r |}.

(** [reserve]: whether there is room. *)
Definition reserve (r : ConversionReport) : bool * ConversionReport :=
  if (length (Losses r) <? maxStreamConversionReportEntries)%nat then (true, r)
  else
    let r := if overflowNoted r then r
             else {| Losses := (Losses r ++ [overflow_entry])%list; Dropped := Dropped r; overflowNoted := true |} in
    (false, {| Losses := Losses r; Dropped := Dropped r + 1; overflowNoted := overflowNoted r |}).

Definition record (e : ConversionLoss) (r : ConversionReport) : ConversionReport :=
  let '(room, r) := reserve r in if room then append e r else r.

Definition Lose (policy : LossPolicy) (feature : Feature) (path detail : string) : Conv unit :=
  λ r, if negb (Allows policy feature) then (Err (UnsupportedFeatureError "transcode" path feature), r)
       else (Ok tt, record (entry LossRecord feature path detail) r).

Definition Note (feature : Feature) (path detail : string) : Conv unit :=
  λ r, (Ok tt, record (entry NoteRecord feature path detail) r).

(** ** Parsing the policy *)

(** [strings.FieldsFunc] on commas and spaces. *)
Definition split_names (name : str) : list str :=
  filter (λ s, s ≠ []) (concat (map (Split " ") (Split "," name))).

(** The names that parse, or the first unknown one. *)
Fixpoint parse_names (names : list str) (allowed : gset Feature) : result str (gset Feature) :=
  match names with
  | [] => Ok allowed
  | n :: names =>
      let feature := string_of_list_ascii n in
      if bool_decide (feature ∈ allLossKeys) then parse_names names ({[feature]} ∪ allowed) else Err n
  end.

Definition ParseLossFeatures (names : list str) : result str (gset Feature) :=
  parse_names (concat (map split_names names)) ∅.

(** ** Sequences of calls *)

Inductive call :=
| CLose (feature : Feature) (path detail : string)
| CNote (feature : Feature) (path detail : string).

Definition do_call (policy : LossPolicy) (c : call) : Conv unit :=
  match c with
  | CLose f path detail => Lose policy f path detail
  | CNote f path detail => Note f path detail
  end.

Fixpoint do_calls (policy : LossPolicy) (cs : list call) : Conv unit :=
  match cs with
  | [] => ret tt
  | c :: cs => do_call policy c ;;~ do_calls policy cs
  end.

Definition call_entry (c : call) : ConversionLoss :=
  match c with
  | CLose f path detail => entry LossRecord f path detail
  | CNote f path detail => entry NoteRecord f path detail
  end.

Definition call_allowed (policy : LossPolicy) (c : call) : Prop :=
  match c with CLose f _ _ => f ∈ Allowed policy | CNote _ _ _ => True end.

(** ** Lemmas *)

#[global] Arguments maxStreamConversionReportEntries : simpl never.
#[global] Opaque maxStreamConversionReportEntries.

(** What a report holds after the entries [es] were recorded in order. *)
Definition holds (es : list ConversionLoss) (r : ConversionReport) : Prop :=
  let M := maxStreamConversionReportEntries in
  if (length es <=? M)%nat then r = {| Losses := es; Dropped := 0; overflowNoted := false |}
  else Losses r = (take M es ++ [overflow_entry])%list ∧ Dropped r = Z.of_nat (length es - M) ∧ overflowNoted r = true.

Lemma record_holds es r e : holds es r → holds (es ++ [e])%list (record e r).
Proof.
  unfold holds, record, reserve. cbv zeta. rewrite length_app. simpl length.
  set (M := maxStreamConversionReportEntries). intros Hh.
  destruct (Nat.leb_spec (length es) M) as [Hle|Hgt].
  - subst r. simpl. destruct (Nat.ltb_spec (length es) M) as [Hlt|Hge]; simpl.
    + rewrite (proj2 (Nat.leb_le _ _)) by lia. done.
    + rewrite (proj2 (Nat.leb_gt _ _)) by lia. simpl. rewrite take_app_le by lia. rewrite take_ge by lia.
      split; [done|]. split; [lia | done].
  - destruct Hh as (Hl & Hd & Hn). rewrite Hl, length_app, length_take. simpl.
    rewrite (proj2 (Nat.ltb_ge _ _)) by lia. rewrite (proj2 (Nat.leb_gt _ _)) by lia. rewrite Hn. simpl.
    rewrite take_app_le by lia. split; [by rewrite Hl|]. split; [lia | done].
Qed.

Lemma do_call_ok policy c r :
  call_allowed policy c → do_call policy c r = (Ok tt, record (call_entry c) r).
Proof. intros Ha. destruct c; simpl in *; [|done]. unfold Lose, Allows. by rewrite bool_decide_eq_true_2. Qed.

Lemma do_calls_holds policy cs es r : holds es r →
  let '(res, r') := do_calls policy cs r in
  ∃ done, holds (es ++ map call_entry done) r' ∧ Forall (call_allowed policy) done ∧
    ((res = Ok tt ∧ done = cs) ∨
     ∃ f path detail todo, cs = (done ++ (CLose f path detail :: todo))%list ∧ (f ∉ Allowed policy) ∧
       res = Err (UnsupportedFeatureError "transcode" path f)).
Proof.
  revert es r. induction cs as [|c cs IH]; intros es r Hh; simpl.
  { exists []. rewrite app_nil_r. split_and!; [done|constructor|by left]. }
  unfold bind. assert (Hc : call_allowed policy c ∨ ∃ f path detail, c = CLose f path detail ∧ f ∉ Allowed policy).
  { destruct c as [f path detail|]; simpl; [|by left]. destruct (decide (f ∈ Allowed policy)); [by left | right; by eexists _, _, _]. }
  destruct Hc as [Hc|(f & path & detail & -> & Hf)].
  - rewrite (do_call_ok policy c r Hc). pose proof (record_holds es r (call_entry c) Hh) as Hr.
    specialize (IH _ _ Hr). destruct (do_calls policy cs (record (call_entry c) r)) as [res r'].
    destruct IH as (dn & H1 & H2 & H3). exists (c :: dn). rewrite <- app_assoc in H1. split_and!; [done|by constructor|].
    destruct H3 as [[-> ->]|(f & path & detail & todo & -> & Hf & ->)]; [by left|]. right. by eexists f, path, detail, todo.
  - simpl. unfold Lose, Allows. rewrite bool_decide_eq_false_2 by done. simpl. exists []. rewrite app_nil_r.
    split_and!; [done|constructor|]. right. by exists f, path, detail, cs.
Qed.

(** ** Reasoning about conversions *)

(** Every result of [m] satisfies [Q]. *)
Definition has_post {A} (m : Conv A) (Q : A → Prop) : Prop := ∀ r a r', m r = (Ok a, r') → Q a.

Lemma post_weaken {A} (m : Conv A) (P Q : A → Prop) : has_post m P → (∀ a, P a → Q a) → has_post m Q.
Proof. intros Hm Hi r a r' H. eauto. Qed.

Lemma post_ret {A} (a : A) (Q : A → Prop) : Q a → has_post (ret a) Q.
Proof. intros HQ r b r' [= <- <-]. exact HQ. Qed.

Lemma post_fail {A} e (Q : A → Prop) : has_post (fail e) Q.
Proof. by intros r a r' H. Qed.

Lemma post_lift {A} (res : result terr A) (Q : A → Prop) : (∀ a, res = Ok a → Q a) → has_post (lift res) Q.
Proof. intros H r a r' [= ? <-]. eauto. Qed.

Lemma post_bind {A B} (m : Conv A) (k : A → Conv B) (P : A → Prop) (Q : B → Prop) :
  has_post m P → (∀ a, P a → has_post (k a) Q) → has_post (a <~ m ;; k a) Q.
Proof.
  intros Hm Hk r b r'. unfold bind. destruct (m r) as [[a|e] r1] eqn:E; [|done]. intros Hb. eapply Hk; eauto.
Qed.

Lemma post_seq {A B} (m : Conv A) (k : Conv B) (Q : B → Prop) : has_post k Q → has_post (m ;;~ k) Q.
Proof. intros Hk. apply (post_bind _ _ (λ _, True)); [by intros ????|auto]. Qed.

Lemma post_at_index {A} what i (m : Conv A) (Q : A → Prop) : has_post m Q → has_post (at_index what i m) Q.
Proof.
  intros Hm r a r'. unfold at_index. destruct (m r) as [[b|e] r1] eqn:E; [|done]. intros [= <- <-]. eauto.
Qed.

Lemma post_Lose policy f path detail (Q : unit → Prop) :
  (f ∈ Allowed policy → Q tt) → has_post (Lose policy f path detail) Q.
Proof.
  intros H r [] r'. unfold Lose, Allows. case_bool_decide; simpl; [|done]. auto.
Qed.

Lemma post_Lose_some policy f path detail : has_post (Lose policy f path detail) (λ _, Allowed policy ≠ ∅).
Proof. apply post_Lose. intros Hf He. rewrite He in Hf. by apply elem_of_empty in Hf. Qed.

Lemma post_collect {A B} (f : nat → A → Conv (list B)) (Q : A → list B → Prop) i l :
  (∀ i x, has_post (f i x) (Q x)) → has_post (collect f i l) (λ bs, ∃ bss, Forall2 Q l bss ∧ bs = concat bss).
Proof.
  intros Hf. revert i. induction l as [|x l IH]; intros i; simpl.
  - apply post_ret. by exists [].
  - eapply post_bind; [apply Hf|]. intros bs Hbs. eapply post_bind; [apply IH|]. intros rest (bss & Hbss & ->).
    apply post_ret. exists (bs :: bss). split; [by constructor | done].
Qed.

(** Results satisfy [Q] and errors [E]. *)
Definition triple {A} (m : Conv A) (Q : A → Prop) (E : terr → Prop) : Prop :=
  ∀ r, match (m r).1 with Ok a => Q a | Err e => E e end.

Section triple.
Context (E : terr → Prop).

Lemma t_weaken {A} (m : Conv A) (P Q : A → Prop) : triple m P E → (∀ a, P a → Q a) → triple m Q E.
Proof. intros Hm Hi r. specialize (Hm r). destruct (m r).1; auto. Qed.

Lemma t_ret {A} (a : A) (Q : A → Prop) : Q a → triple (ret a) Q E.
Proof. by intros HQ r. Qed.

Lemma t_fail {A} e (Q : A → Prop) : E e → triple (fail e) Q E.
Proof. by intros HE r. Qed.

Lemma t_bind {A B} (m : Conv A) (k : A → Conv B) (P : A → Prop) (Q : B → Prop) :
  triple m P E → (∀ a, P a → triple (k a) Q E) → triple (a <~ m ;; k a) Q E.
Proof.
  intros Hm Hk r. unfold bind. specialize (Hm r). destruct (m r) as [[a|e] r1]; simpl in *; [by apply Hk|done].
Qed.

(** What comes first says nothing the rest needs. *)
Lemma t_seq {A B} (m : Conv A) (k : Conv B) (Q : B → Prop) : triple m (λ _, True) E → triple k Q E → triple (m ;;~ k) Q E.
Proof. intros Hm Hk. by apply (t_bind _ _ _ _ Hm). Qed.

Lemma t_lift {A} (res : result terr A) (Q : A → Prop) : match res with Ok a => Q a | Err e => E e end → triple (lift res) Q E.
Proof. by intros H r. Qed.

Lemma t_Note f path detail (Q : unit → Prop) : Q tt → triple (Note f path detail) Q E.
Proof. by intros HQ r. Qed.

Lemma t_Lose policy f path detail (Q : unit → Prop) :
  (f ∈ Allowed policy → Q tt) → E (UnsupportedFeatureError "transcode" path f) → triple (Lose policy f path detail) Q E.
Proof. intros HQ HE r. unfold Lose, Allows. case_bool_decide; simpl; auto. Qed.

Lemma t_when b m (Q : unit → Prop) : (b = true → triple m Q E) → (b = false → Q tt) → triple (when b m) Q E.
Proof. destruct b; simpl; intros Hm Hq; [by apply Hm|by apply t_ret, Hq]. Qed.

Lemma t_at_index {A} what i (m : Conv A) (Q : A → Prop) : triple m Q (λ e, E (ErrAt what i e)) → triple (at_index what i m) Q E.
Proof. intros Hm r. unfold at_index. specialize (Hm r). by destruct (m r) as [[a|e] r1]. Qed.

Lemma t_collect {A B} (f : nat → A → Conv (list B)) (Q : A → list B → Prop) l : ∀ i,
  (∀ i x, x ∈ l → triple (f i x) (Q x) E) → triple (collect f i l) (λ bs, ∃ bss, Forall2 Q l bss ∧ bs = concat bss) E.
Proof.
  induction l as [|x l IH]; intros i Hf; simpl; [apply t_ret; by exists []|].
  eapply t_bind; [apply Hf; by left|]. intros bs Hbs. eapply t_bind; [apply IH; intros; apply Hf; by right|].
  intros rest (bss & Hbss & ->). apply t_ret. exists (bs :: bss). split; [by constructor|done].
Qed.

(** A list of which each element gives what [g] says of it. *)
Lemma t_collect_map {A B} (f : nat → A → Conv (list B)) (g : A → list B) l i :
  (∀ i x, x ∈ l → triple (f i x) (λ bs, bs = g x) E) → triple (collect f i l) (λ bs, bs = l ≫= g) E.
Proof.
  intros Hf. eapply t_weaken; [apply (t_collect f (λ x bs, bs = g x)); exact Hf|]. intros bs (bss & Hb & ->). clear Hf.
  induction Hb as [|x b l' bss' -> _ IH]; [done|]. simpl. by rewrite IH.
Qed.
End triple.

(** The losses of a report are allowed; a conversion keeps this, stopped or not. *)
Definition loss_allowed (policy : LossPolicy) (e : ConversionLoss) : Prop :=
  l_Kind e = LossRecord → l_Feature e ∈ Allowed policy.

Definition lawful (policy : LossPolicy) (r : ConversionReport) : Prop := Forall (loss_allowed policy) (Losses r).

Definition keeps_lawful {A} (policy : LossPolicy) (m : Conv A) : Prop := ∀ r, lawful policy r → lawful policy (snd (m r)).

Lemma lawful_record policy e r : loss_allowed policy e → lawful policy r → lawful policy (record e r).
Proof.
  intros He Hr. unfold record, reserve, lawful in *. destruct (_ <? _)%nat; simpl;
    [apply Forall_app_2; [done | by constructor]|].
  destruct (overflowNoted r); simpl; [done|]. apply Forall_app_2; [done|]. by repeat constructor.
Qed.

Lemma lawful_ret {A} policy (a : A) : keeps_lawful policy (ret a).
Proof. by intros r. Qed.

Lemma lawful_fail {A} policy e : keeps_lawful policy (@fail A e).
Proof. by intros r. Qed.

Lemma lawful_lift {A} policy (res : result terr A) : keeps_lawful policy (lift res).
Proof. by intros r. Qed.

Lemma lawful_bind {A B} policy (m : Conv A) (k : A → Conv B) :
  keeps_lawful policy m → (∀ a, keeps_lawful policy (k a)) → keeps_lawful policy (a <~ m ;; k a).
Proof.
  intros Hm Hk r Hr. unfold bind. specialize (Hm r Hr). destruct (m r) as [[a|e] r1]; [|done]. by apply Hk.
Qed.

Lemma lawful_Note policy f path detail : keeps_lawful policy (Note f path detail).
Proof. intros r Hr. by apply lawful_record. Qed.

Lemma lawful_Lose policy f path detail : keeps_lawful policy (Lose policy f path detail).
Proof.
  intros r Hr. unfold Lose, Allows. case_bool_decide; simpl; [|done]. by apply lawful_record; [intros _|].
Qed.

Lemma lawful_when policy b m : keeps_lawful policy m → keeps_lawful policy (when b m).
Proof. destruct b; [done|]. intros _ r Hr. done. Qed.

Lemma lawful_at_index {A} policy what i (m : Conv A) : keeps_lawful policy m → keeps_lawful policy (at_index what i m).
Proof. intros Hm r Hr. unfold at_index. specialize (Hm r Hr). by destruct (m r) as [[]]. Qed.

Lemma lawful_collect {A B} policy (f : nat → A → Conv (list B)) i l :
  (∀ i x, keeps_lawful policy (f i x)) → keeps_lawful policy (collect f i l).
Proof.
  intros Hf. revert i. induction l as [|x l IH]; intros i; simpl; [apply lawful_ret|].
  apply lawful_bind; [apply Hf|]. intros bs. apply lawful_bind; [apply IH|]. intros rest. apply lawful_ret.
Qed.

Create HintDb conv discriminated.
#[export] Hint Resolve lawful_ret lawful_fail lawful_lift lawful_bind lawful_Note lawful_Lose lawful_when
  lawful_at_index lawful_collect : conv.

(** A conversion all of whose parts record only losses the policy allows. *)
Ltac lawful :=
  repeat first
    [ solve [auto with conv] | apply lawful_bind; [|intros ?] | apply lawful_when | apply lawful_at_index
    | apply lawful_collect; intros ? ? | case_match ].

(** ** Properties *)

(** The report accounts for every decision and never fails one by its size: a
    sequence of losses and notes stops exactly at the first loss the policy does not
    allow; what went before is in the report in order, up to the bound, with one
    note and an exact count for the rest; and no loss is recorded that the policy
    does not allow. *)
Theorem report_accounts policy cs :
  let '(res, r) := do_calls policy cs fresh_report in
  let M := maxStreamConversionReportEntries in
  ∃ recorded,
    ((res = Ok tt ∧ recorded = cs) ∨
     ∃ f path detail todo, cs = (recorded ++ (CLose f path detail :: todo))%list ∧ (f ∉ Allowed policy) ∧
       res = Err (UnsupportedFeatureError "transcode" path f)) ∧
    Forall (call_allowed policy) recorded ∧
    take M (Losses r) = take M (map call_entry recorded) ∧
    (length (Losses r) <= M + 1)%nat ∧
    Dropped r = Z.of_nat (length recorded - M).
Proof.
  pose proof (do_calls_holds policy cs [] fresh_report eq_refl) as H.
  destruct (do_calls policy cs fresh_report) as [res r]. cbv zeta. destruct H as (dn & Hh & Ha & Hres).
  exists dn. split; [done|]. split; [done|]. unfold holds in Hh. simpl in Hh. rewrite length_map in Hh.
  set (M := maxStreamConversionReportEntries) in *. destruct (Nat.leb_spec (length dn) M) as [Hle|Hgt].
  - subst r. simpl. rewrite length_map. split; [done|]. lia.
  - destruct Hh as (-> & -> & _). rewrite take_app_le by (rewrite length_take, length_map; lia).
    rewrite take_take, Nat.min_id, length_app, length_take, length_map. simpl. split; [done|]. lia.
Qed.

(** The policy a configuration names is exactly its set of names: it parses when
    and only when every name is a registered key, and then allows those and nothing
    else. *)
Theorem ParseLossFeatures_exact names allowed :
  ParseLossFeatures names = Ok allowed ↔
  Forall (λ n, string_of_list_ascii n ∈ RegisteredLossKeys) (concat (map split_names names)) ∧
  allowed = list_to_set (map string_of_list_ascii (concat (map split_names names))).
Proof.
  unfold ParseLossFeatures. generalize (concat (map split_names names)). intros ns.
  assert (Hgen : ∀ acc, parse_names ns acc = Ok allowed ↔
    Forall (λ n, string_of_list_ascii n ∈ RegisteredLossKeys) ns ∧ allowed = list_to_set (map string_of_list_ascii ns) ∪ acc).
  { induction ns as [|n ns IH]; intros acc; cbn [parse_names map list_to_set].
    { rewrite (left_id_L ∅ (∪)). split; [by intros [= <-] | by intros [_ ->]]. }
    unfold allLossKeys. case_bool_decide as Hn; rewrite elem_of_list_to_set in Hn.
    - rewrite IH, Forall_cons, (assoc_L (∪)), (comm_L (∪) (list_to_set _)). tauto.
    - rewrite Forall_cons. split; [done | tauto]. }
  by rewrite Hgen, (right_id_L ∅ (∪)).
Qed.
