(* ===== verification/Ir.v ===== *)
(** * The intermediate representation of a conversion ([internal/transcode/ir.go])

    Requests and responses in canonical form, the checks every renderer makes first
    and the model's raw tool arguments.  A part, a turn or an item is never the nil
    interface here; raw JSON is its text. *)

From Stdlib Require Import ZArith Lia Bool List Ascii String.
From stdpp Require Import strings gmap list.
From S2P Require Import Prelude GoStd GoStr GoText GoJson Losses.
From S2P Require WireObject.

Open Scope Z_scope.
Open Scope string_scope.

(** ** Data *)

Inductive CanonicalRole := CanonicalUser | CanonicalAssistant | CanonicalSystem | CanonicalDeveloper.

#[export] Instance CanonicalRole_eq_dec : EqDecision CanonicalRole.
Proof. solve_decision. Defined.

Inductive CanonicalPart :=
| CanonicalText (Text : str)
| CanonicalRefusal (Text : str)
| CanonicalThinkingPart (Text Signature : str)
| CanonicalImage (MediaType URL Base64 Detail : str)
| CanonicalDocument (MediaType URL Base64 FileID Filename : str)
| CanonicalFunctionCall (ItemID CallID Name Arguments : str)
| CanonicalFunctionResult (CallID : str) (IsError : bool) (Parts : list CanonicalPart).

Record CanonicalTurn := { t_Role : CanonicalRole; t_Parts : list CanonicalPart }.

Record CanonicalTool := { tool_Name : str; tool_Description : str; tool_JSONSchema : str; tool_Strict : option bool }.

Record CanonicalToolChoice := { tc_Mode : str; tc_Name : str }.

Record ToolNameRef := { Namespace : str; Name : str }.

#[export] Instance ToolNameRef_eq_dec : EqDecision ToolNameRef.
Proof. solve_decision. Defined.

#[export] Instance ToolNameRef_countable : Countable ToolNameRef.
Proof.
  refine (inj_countable' (λ r, (Namespace r, Name r)) (λ '(a, b), {| Namespace := a; Name := b |}) _).
  by intros [].
Defined.

Record ToolNames := { FlatToRef : gmap str ToolNameRef; RefToFlat : gmap ToolNameRef str }.

Definition clientCallName (t : option ToolNames) (flat : str) : str * str :=
  match t with
  | None => (flat, [])
  | Some t => match FlatToRef t !! flat with Some ref => (Name ref, Namespace ref) | None => (flat, []) end
  end.

Definition flatName (t : option ToolNames) (ref : ToolNameRef) : option str :=
  match t with
  | None => None
  | Some t => if str_eqb (Namespace ref) [] then None else RefToFlat t !! ref
  end.

Record CanonicalStructuredOutput := { so_Name : str; so_Description : str; so_Schema : str; so_Strict : bool }.

Record SourceArtifacts := { ResponsesReasoningItems : list str; AnthropicThinkingBlocks : list str }.

Record CanonicalThinking := { th_Type : str; th_BudgetTokens : option Z }.

(** Numbers the conversion only carries are their texts. *)
Record CanonicalRequest := {
  ClientModel : str;
  Turns : list CanonicalTurn;
  Tools : list CanonicalTool;
  RetainedTurns : nat;
  ToolChoice : option CanonicalToolChoice;
  ParallelTools : option bool;
  MaxOutputTokens : option Z;
  Temperature : option str;
  TopP : option str;
  StopSequences : list str;
  StructuredOutput : option CanonicalStructuredOutput;
  Stream : bool;
  Metadata : gmap str str;
  Thinking : option CanonicalThinking;
  Artifacts : SourceArtifacts;
}.

Inductive UpstreamProtocol := UpstreamChatCompletions | UpstreamResponses | UpstreamMessages.

Definition is_messages (p : UpstreamProtocol) : bool := match p with UpstreamMessages => true | _ => false end.
Definition is_responses (p : UpstreamProtocol) : bool := match p with UpstreamResponses => true | _ => false end.

(** ** Artifacts *)

Definition RequirePortableArtifacts (request : CanonicalRequest) (target : UpstreamProtocol) (policy : LossPolicy) : Conv unit :=
  when (negb (is_messages target) && negb (bool_decide (AnthropicThinkingBlocks (Artifacts request) = [])))
    (Lose policy "authenticated_thinking" "messages[].content[]"
       "Anthropic thinking blocks cannot be translated across protocols") ;;~
  when (negb (is_responses target) && negb (bool_decide (ResponsesReasoningItems (Artifacts request) = [])))
    (Lose policy "reasoning_summary" "input[]"
       "Responses reasoning items cannot be reproduced in the target protocol").

(** ** Checks *)

(** [decodeJSONObject]. *)
Definition decodeJSONObject (raw : str) : option (gmap str json) :=
  match WireObject.JSONObject raw with Ok m => Some m | Err _ => None end.

Definition is_empty (s : str) : bool := str_eqb s [].

Definition nonempty_count (l : list str) : nat := length (filter (λ s, s ≠ []) l).

(** The first error of a list of numbered checks. *)
Fixpoint first_error {A} (what : string) (check : A → result terr unit) (i : nat) (l : list A) : result terr unit :=
  match l with
  | [] => Ok tt
  | x :: l => match check x with
              | Ok _ => first_error what check (S i) l
              | Err e => Err (ErrAt what i e)
              end
  end.

Fixpoint validateCanonicalPart (part : CanonicalPart) : result terr unit :=
  match part with
  | CanonicalImage _ url base64 _ =>
      if Bool.eqb (is_empty url) (is_empty base64) then Err (Errorf "image part requires exactly one of url or base64") else Ok tt
  | CanonicalDocument _ url base64 fileID _ =>
      if negb (nonempty_count [url; base64; fileID] =? 1)%nat
      then Err (Errorf "document part requires exactly one of url, base64, or file id") else Ok tt
  | CanonicalFunctionCall _ callID name arguments =>
      if is_empty callID then Err (Errorf "function call has empty call id")
      else if is_empty name then Err (Errorf "function call has empty name")
      else match decodeJSONObject arguments with
           | Some _ => Ok tt
           | None => Err (Errorf "function call arguments")
           end
  | CanonicalFunctionResult callID _ parts =>
      if is_empty callID then Err (Errorf "function result has empty call id")
      else (fix go (i : nat) (parts : list CanonicalPart) : result terr unit :=
              match parts with
              | [] => Ok tt
              | p :: parts => match validateCanonicalPart p with
                              | Ok _ => go (S i) parts
                              | Err e => Err (ErrAt "function result part" i e)
                              end
              end) O parts
  | _ => Ok tt
  end.

(** The role a part needs. *)
Definition part_role_error (role : CanonicalRole) (part : CanonicalPart) : option string :=
  match part with
  | CanonicalFunctionCall _ _ _ _ => if decide (role = CanonicalAssistant) then None else Some "function call in turn"
  | CanonicalFunctionResult _ _ _ => if decide (role = CanonicalUser) then None else Some "function result in turn"
  | CanonicalRefusal _ => if decide (role = CanonicalAssistant) then None else Some "refusal in turn"
  | _ => None
  end.

Definition validate_turn (turn : CanonicalTurn) : result terr unit :=
  match t_Parts turn with
  | [] => Err (Errorf "turn has no content parts")
  | parts => first_error "part" (λ p, match part_role_error (t_Role turn) p with
                                      | Some msg => Err (Errorf msg)
                                      | None => validateCanonicalPart p
                                      end) 0 parts
  end.

Definition ValidateCanonicalRequest (request : CanonicalRequest) : result terr unit :=
  first_error "turn" validate_turn 0 (Turns request).

(** ** Responses *)

Inductive CanonicalStopReason :=
| CanonicalStopEndTurn | CanonicalStopMaxTokens | CanonicalStopStopSequence | CanonicalStopToolUse | CanonicalStopRefusal.

#[export] Instance CanonicalStopReason_eq_dec : EqDecision CanonicalStopReason.
Proof. solve_decision. Defined.

Inductive CanonicalResponseStatus := CanonicalResponseCompleted | CanonicalResponseIncomplete | CanonicalResponseFailed.

#[export] Instance CanonicalResponseStatus_eq_dec : EqDecision CanonicalResponseStatus.
Proof. solve_decision. Defined.

Record CanonicalStop := { Reason : CanonicalStopReason; Sequence : str }.

Record ToolArguments := { Raw : str; Object : option (gmap str json) }.

(** [IsObject] is the presence of [Object]. *)
Definition ParseToolArguments (raw : str) : ToolArguments :=
  if is_empty (TrimSpace raw) then {| Raw := raw; Object := Some ∅ |}
  else {| Raw := raw; Object := decodeJSONObject raw |}.

Inductive CanonicalResponseItem :=
| CanonicalMessageItem (ID : str) (Role : CanonicalRole) (Phase : option str) (Parts : list CanonicalPart)
| CanonicalFunctionCallItem (ItemID CallID Name : str) (Arguments : ToolArguments)
| CanonicalFunctionResultItem (ItemID CallID : str) (IsError : bool) (Parts : list CanonicalPart)
| CanonicalReasoningItem (Raw : str).

(** What the checks read of a response; [None] is the empty string of the status and
    of the stop reason. *)
Record CanonicalResponse := {
  r_ID : str;
  r_Model : str;
  r_Status : option CanonicalResponseStatus;
  r_Stop : option CanonicalStop;
  r_Items : list CanonicalResponseItem;
}.

Definition validateResponsePart (part : CanonicalPart) : result terr unit :=
  match part with
  | CanonicalText _ | CanonicalRefusal _ | CanonicalThinkingPart _ _ => Ok tt
  | _ => Err (Errorf "assistant output message carries non-output part")
  end.

Definition valid_phase (phase : option str) : bool :=
  match phase with
  | None => true
  | Some p => str_eqb p (lit "commentary") || str_eqb p (lit "final_answer")
  end.

(** One item, given the calls seen before it; the calls seen after it. *)
Definition validate_item (known : gset str) (item : CanonicalResponseItem) : result terr (gset str) :=
  match item with
  | CanonicalMessageItem _ role phase parts =>
      if negb (bool_decide (role = CanonicalAssistant)) then Err (Errorf "message role is not assistant")
      else if negb (valid_phase phase) then Err (Errorf "invalid message phase")
      else _ <-? first_error "part" validateResponsePart 0 parts;; Ok known
  | CanonicalFunctionCallItem _ callID name _ =>
      if is_empty callID then Err (Errorf "function call has empty call id")
      else if is_empty name then Err (Errorf "function call has empty name")
      else Ok ({[callID]} ∪ known)
  | CanonicalFunctionResultItem _ callID _ parts =>
      if is_empty callID then Err (Errorf "function result has empty call id")
      else if negb (bool_decide (callID ∈ known)) then Err (Errorf "function result references unknown call")
      else _ <-? first_error "result part" validateCanonicalPart 0 parts;; Ok known
  | CanonicalReasoningItem raw =>
      if json_Valid raw then Ok known else Err (Errorf "reasoning item is not valid JSON")
  end.

Fixpoint validate_items (i : nat) (known : gset str) (items : list CanonicalResponseItem) : result terr unit :=
  match items with
  | [] => Ok tt
  | item :: items => match validate_item known item with
                     | Ok known => validate_items (S i) known items
                     | Err e => Err (ErrAt "response item" i e)
                     end
  end.

Definition ValidateCanonicalResponse (response : CanonicalResponse) : result terr unit :=
  if is_empty (r_Model response) then Err (Errorf "response has no model")
  else match r_Status response with
       | None => Err (Errorf "response has no status")
       | Some _ =>
           match r_Stop response with
           | None => Err (Errorf "response has no stop reason")
           | Some _ => validate_items 0 ∅ (r_Items response)
           end
       end.

(** ** Specifications *)

(** A part every renderer can rely on. *)
Fixpoint part_ok (part : CanonicalPart) : Prop :=
  match part with
  | CanonicalImage _ url base64 _ => (url ≠ [] ∧ base64 = []) ∨ (url = [] ∧ base64 ≠ [])
  | CanonicalDocument _ url base64 fileID _ => nonempty_count [url; base64; fileID] = 1%nat
  | CanonicalFunctionCall _ callID name arguments =>
      callID ≠ [] ∧ name ≠ [] ∧ ∃ kvs, parse_text (TrimSpace arguments) = Some (JObj kvs)
  | CanonicalFunctionResult callID _ parts => callID ≠ [] ∧ foldr (λ p P, part_ok p ∧ P) True parts
  | _ => True
  end.

(** Where a part may stand. *)
Definition role_ok (role : CanonicalRole) (part : CanonicalPart) : Prop :=
  match part with
  | CanonicalFunctionCall _ _ _ _ | CanonicalRefusal _ => role = CanonicalAssistant
  | CanonicalFunctionResult _ _ _ => role = CanonicalUser
  | _ => True
  end.

Definition turn_ok (turn : CanonicalTurn) : Prop :=
  t_Parts turn ≠ [] ∧ Forall (λ p, role_ok (t_Role turn) p ∧ part_ok p) (t_Parts turn).

Definition output_part (part : CanonicalPart) : Prop :=
  match part with
  | CanonicalText _ | CanonicalRefusal _ | CanonicalThinkingPart _ _ => True
  | _ => False
  end.

(** An item of a response, given the items before it. *)
Definition item_ok (before : list CanonicalResponseItem) (item : CanonicalResponseItem) : Prop :=
  match item with
  | CanonicalMessageItem _ role phase parts =>
      role = CanonicalAssistant ∧ phase ∈ [None; Some (lit "commentary"); Some (lit "final_answer")] ∧ Forall output_part parts
  | CanonicalFunctionCallItem _ callID name _ => callID ≠ [] ∧ name ≠ []
  | CanonicalFunctionResultItem _ callID _ parts =>
      callID ≠ [] ∧ (∃ id name args, CanonicalFunctionCallItem id callID name args ∈ before) ∧ Forall part_ok parts
  | CanonicalReasoningItem raw => ∃ v, parse_text raw = Some v
  end.

(** ** Lemmas *)

Section part_induction.
Context (P : CanonicalPart → Prop).
Context (Hleaf : ∀ p, (∀ c e ps, p ≠ CanonicalFunctionResult c e ps) → P p).
Context (Hres : ∀ c e ps, Forall P ps → P (CanonicalFunctionResult c e ps)).

Fixpoint part_nested_ind (p : CanonicalPart) : P p.
Proof.
  destruct p; try (apply Hleaf; congruence). apply Hres.
  induction Parts as [|p ps IH]; constructor; [apply part_nested_ind | exact IH].
Defined.
End part_induction.

Lemma first_error_ok {A} what check i (l : list A) :
  first_error what check i l = Ok tt ↔ Forall (λ x, check x = Ok tt) l.
Proof.
  revert i. induction l as [|x l IH]; intros i; simpl; [by split|]. rewrite Forall_cons.
  destruct (check x) as [[]|e]; [rewrite IH; tauto|]. split; [done | by intros [? _]].
Qed.

Lemma is_empty_spec s : is_empty s = true ↔ s = [].
Proof. apply str_eqb_eq. Qed.

Lemma decodeJSONObject_some raw : is_Some (decodeJSONObject raw) ↔ ∃ kvs, parse_text (TrimSpace raw) = Some (JObj kvs).
Proof.
  unfold decodeJSONObject. destruct (WireObject.JSONObject raw) as [m|e] eqn:E.
  - split; [|by eexists]. intros _. apply WireObject.JSONObject_iff in E as (kvs & ? & _). by exists kvs.
  - split; [by intros [? ?]|]. intros (kvs & Hk).
    assert (WireObject.JSONObject raw = Ok (WireObject.members kvs)) by (apply WireObject.JSONObject_iff; by exists kvs).
    congruence.
Qed.

Lemma validate_part_ok p : validateCanonicalPart p = Ok tt ↔ part_ok p.
Proof.
  induction p as [p Hp|c e ps IH] using part_nested_ind.
  - destruct p; simpl; try done.
    + destruct URL, Base64; simpl; (split; [|intros [[]|[]]]); try done; auto.
    + destruct (Nat.eqb_spec (nonempty_count [URL; Base64; FileID]) 1) as [->|]; simpl; [done|]. by split.
    + destruct (is_empty CallID) eqn:Ec; [apply is_empty_spec in Ec; split; [done | by intros [? _]]|].
      destruct (is_empty Name0) eqn:En; [apply is_empty_spec in En; split; [done | by intros (_ & ? & _)]|].
      pose proof (decodeJSONObject_some Arguments) as Hd.
      assert (Hc : CallID ≠ []) by (intros ->; done). assert (Hn : Name0 ≠ []) by (intros ->; done).
      destruct (decodeJSONObject Arguments) as [m|].
      * split; [|done]. intros _. split_and!; [done|done|]. apply Hd. by eexists.
      * split; [done|]. intros (_ & _ & Hk). apply Hd in Hk as [? ?]. done.
    + by destruct (Hp CallID IsError Parts).
  - simpl. destruct (is_empty c) eqn:Ec; [apply is_empty_spec in Ec; split; [done | by intros [? _]]|].
    assert (Hc : c ≠ []) by (intros ->; done).
    match goal with |- ?g 0%nat ps = Ok tt ↔ _ =>
      assert (Hgo : ∀ i, g i ps = Ok tt ↔ foldr (λ p P, part_ok p ∧ P) True ps) end; [|rewrite Hgo; tauto].
    induction IH as [|p ps Hp _ IHps]; intros i; simpl; [done|].
    destruct (validateCanonicalPart p) as [[]|]; [rewrite IHps; tauto|]. split; [done|]. intros [Hx _]. by apply Hp in Hx.
Qed.

Lemma role_error_ok role p : part_role_error role p = None ↔ role_ok role p.
Proof. destruct p; simpl; try done; by destruct (decide _). Qed.

Lemma validate_turn_ok t : validate_turn t = Ok tt ↔ turn_ok t.
Proof.
  unfold validate_turn, turn_ok. destruct (t_Parts t) as [|p ps]; [split; [done | by intros [? _]]|].
  rewrite first_error_ok. assert (Hne : p :: ps ≠ []) by done. split.
  - intros Hf. split; [done|]. eapply Forall_impl; [exact Hf|]. intros x. simpl.
    pose proof (role_error_ok (t_Role t) x) as Hr. destruct (part_role_error (t_Role t) x); [done|].
    intros Hx%validate_part_ok. split; [by apply Hr | done].
  - intros [_ Hf]. eapply Forall_impl; [exact Hf|]. intros x [Hr Hx]. simpl.
    apply role_error_ok in Hr. rewrite Hr. by apply validate_part_ok.
Qed.

(** The calls seen are those of the items seen. *)
Definition knows (known : gset str) (before : list CanonicalResponseItem) : Prop :=
  ∀ c, c ∈ known ↔ ∃ id name args, CanonicalFunctionCallItem id c name args ∈ before.

Lemma knows_snoc known before item known' :
  knows known before → validate_item known item = Ok known' → knows known' (before ++ [item])%list.
Proof.
  intros Hk Hv.
  assert (Hsame : known' = known → (∀ id c n a, item ≠ CanonicalFunctionCallItem id c n a) → knows known' (before ++ [item])%list).
  { intros -> Hne c. rewrite (Hk c). setoid_rewrite elem_of_app. setoid_rewrite list_elem_of_singleton.
    split; intros (id & n & a & Hin); exists id, n, a; [by left|]. destruct Hin as [|<-]; [done|]. by destruct (Hne id c n a). }
  destruct item as [id role phase parts|id cid name args|id cid e parts|raw]; simpl in Hv.
  - destruct (bool_decide _); [|done]. destruct (valid_phase phase); [|done]. simpl in Hv.
    destruct (first_error _ _ _ _); simpl in Hv; simplify_eq. by apply Hsame.
  - destruct (is_empty cid); [done|]. destruct (is_empty name); [done|]. injection Hv as <-. intros c.
    rewrite elem_of_union, elem_of_singleton, (Hk c). setoid_rewrite elem_of_app. setoid_rewrite list_elem_of_singleton. split.
    + intros [->|(id' & n & a & Hin)]; [exists id, name, args; by right | exists id', n, a; by left].
    + intros (id' & n & a & [Hin|[= -> -> -> ->]]); [right; by exists id', n, a | by left].
  - destruct (is_empty cid); [done|]. destruct (bool_decide _); [|done]. simpl in Hv.
    destruct (first_error _ _ _ _); simpl in Hv; simplify_eq. by apply Hsame.
  - destruct (json_Valid raw); simplify_eq. by apply Hsame.
Qed.

Lemma phase_ok phase : valid_phase phase = true ↔ phase ∈ [None; Some (lit "commentary"); Some (lit "final_answer")].
Proof.
  rewrite !elem_of_cons, elem_of_nil. unfold valid_phase. destruct phase as [p|]; [|by split; [left|]].
  rewrite orb_true_iff, !str_eqb_eq. split; [intros [-> | ->]; auto|]. intros [?|[[= ?]|[[= ?]|?]]]; simplify_eq; auto; done.
Qed.

Lemma output_parts_ok parts : first_error "part" validateResponsePart 0 parts = Ok tt ↔ Forall output_part parts.
Proof.
  rewrite first_error_ok. split; intros Hf; (eapply Forall_impl; [exact Hf|]); intros [] Hx; simpl in *; done.
Qed.

Lemma result_parts_ok parts : first_error "result part" validateCanonicalPart 0 parts = Ok tt ↔ Forall part_ok parts.
Proof. rewrite first_error_ok. split; intros Hf; (eapply Forall_impl; [exact Hf|]); intros x; apply validate_part_ok. Qed.

Lemma validate_item_ok known before item :
  knows known before → is_ok (validate_item known item) = true ↔ item_ok before item.
Proof.
  intros Hk. destruct item as [id role phase parts|id cid name args|id cid e parts|raw]; simpl.
  - case_bool_decide as Hr; simpl; [|split; [done | by intros [? _]]].
    rewrite <- phase_ok. destruct (valid_phase phase); simpl; [|split; [done | by intros (_ & ? & _)]].
    rewrite <- output_parts_ok. destruct (first_error _ _ _ _) as [[]|]; simpl; [by repeat split|]. split; [done | by intros (_ & _ & ?)].
  - destruct (is_empty cid) eqn:Ec; [apply is_empty_spec in Ec; by split; [|intros [? _]]|].
    destruct (is_empty name) eqn:En; [apply is_empty_spec in En; by split; [|intros [_ ?]]|].
    split; [|done]. intros _. split; intros ->; done.
  - destruct (is_empty cid) eqn:Ec; [apply is_empty_spec in Ec; by split; [|intros [? _]]|].
    assert (Hc : cid ≠ []) by (intros ->; done). rewrite <- (Hk cid), <- result_parts_ok.
    case_bool_decide as Hin; simpl; [|split; [done | by intros (_ & ? & _)]].
    destruct (first_error _ _ _ _) as [[]|]; simpl; [by repeat split|]. split; [done | by intros (_ & _ & ?)].
  - unfold json_Valid. destruct (parse_text raw) as [v|]; simpl; [split; [by exists v | done]|]. split; [done | by intros [? ?]].
Qed.

Lemma validate_items_ok i known before items : knows known before →
  validate_items i known items = Ok tt ↔
  ∀ k item, items !! k = Some item → item_ok (before ++ take k items)%list item.
Proof.
  revert i known before. induction items as [|item items IH]; intros i known before Hk; simpl; [by split|].
  pose proof (validate_item_ok known before item Hk) as Hok. split.
  - destruct (validate_item known item) as [known'|] eqn:Ev; [|done]. intros Hv [|k] x Hx; simpl in *.
    + injection Hx as <-. rewrite app_nil_r. by apply Hok.
    + apply (IH (S i) known' (before ++ [item])%list) in Hx; [by rewrite <- app_assoc in Hx|by eapply knows_snoc|done].
  - intros Hall. assert (Hi : is_ok (validate_item known item) = true).
    { apply Hok. specialize (Hall O item eq_refl). by rewrite app_nil_r in Hall. }
    destruct (validate_item known item) as [known'|] eqn:Ev; [|done].
    apply (IH (S i) known' (before ++ [item])%list); [by eapply knows_snoc|]. intros k x Hx.
    rewrite <- app_assoc. apply (Hall (S k) x Hx).
Qed.

(** ** Properties *)

(** C32: A request passes the check exactly when every turn of it has content, function
    calls and refusals stand only in assistant turns and results only in user turns,
    and every part is whole: one source per image and document, calls with an identity
    and one JSON object for arguments, and results with an identity whose own parts
    are whole, at any depth. *)
Theorem ValidateCanonicalRequest_exact request :
  ValidateCanonicalRequest request = Ok tt ↔ Forall turn_ok (Turns request).
Proof.
  unfold ValidateCanonicalRequest. rewrite first_error_ok.
  split; intros Hf; (eapply Forall_impl; [exact Hf|]); intros x; apply validate_turn_ok.
Qed.

(** A response passes the check exactly when it has a model, a status and a stop
    reason and every item is whole given the items before it; in particular every
    function result refers to a call that precedes it. *)
Theorem ValidateCanonicalResponse_exact response :
  ValidateCanonicalResponse response = Ok tt ↔
  r_Model response ≠ [] ∧ r_Status response ≠ None ∧ r_Stop response ≠ None ∧
  ∀ k item, r_Items response !! k = Some item → item_ok (take k (r_Items response)) item.
Proof.
  unfold ValidateCanonicalResponse. destruct (is_empty (r_Model response)) eqn:Em.
  { apply is_empty_spec in Em. split; [done | by intros [? _]]. }
  assert (Hm : r_Model response ≠ []) by (intros Hx; by rewrite Hx in Em).
  destruct (r_Status response); [|split; [done | by intros (_ & ? & _)]].
  destruct (r_Stop response); [|split; [done | by intros (_ & _ & ? & _)]].
  rewrite (validate_items_ok 0 ∅ []); [by split; [intros; split_and!|intros (_ & _ & _ & ?)]|].
  intros cid. split; [set_solver|]. by intros (? & ? & ? & ?%elem_of_nil).
Qed.

(** The model's raw arguments are never altered: their text is kept byte for byte
    whatever it is, and it counts as an object exactly when it is blank or one JSON
    object. *)
Theorem ParseToolArguments_preserves raw :
  Raw (ParseToolArguments raw) = raw ∧
  (is_Some (Object (ParseToolArguments raw)) ↔
   TrimSpace raw = [] ∨ ∃ kvs, parse_text (TrimSpace raw) = Some (JObj kvs)).
Proof.
  unfold ParseToolArguments. destruct (is_empty (TrimSpace raw)) eqn:E; simpl.
  - apply is_empty_spec in E. rewrite E. split; [done|]. split; [by left | by eexists].
  - split; [done|]. rewrite decodeJSONObject_some. split; [by right|]. intros [Hx|?]; [by rewrite Hx in E | done].
Qed.
