(* ===== verification/Usage.v ===== *)
(** * Token accounting ([internal/transcode/usage_clamp.go], [stream_converters.go])

    The clamps of an upstream's usage in its two shapes, the totals the stream decoder
    derives, and the conversion of a Chat usage.  Counts are 64-bit integers; the
    details the notes carry are rendered as the code renders them. *)

From Stdlib Require Import ZArith Lia Bool Btauto List Ascii String.
From stdpp Require Import strings pretty list.
From S2P Require Import Prelude GoStd Losses.

Open Scope string_scope.
Open Scope conv_scope.
Open Scope Z_scope.

(** ** Data *)

Record usageClamp := {
  cacheExceedsInput : bool;
  negativeCounts : bool;
  totalMismatch : bool;
  cacheDetail : string;
  negativeDetail : string;
  totalDetail : string;
}.

Record usagePresence := {
  has_input : bool;
  has_output : bool;
  has_total : bool;
  has_cacheRead : bool;
  has_cacheWrite : bool;
  has_reasoning : bool;
}.

Record usageTotals := { ut_input : Z; ut_output : Z; ut_total : Z }.

Record CanonicalUsage := {
  cu_Input : Z;
  cu_CacheRead : Z;
  cu_CacheWrite : Z;
  cu_Output : Z;
  cu_Reasoning : Z;
  cu_Total : Z;
  cu_Known : usagePresence;
}.

(** The optional counts are the optional detail objects. *)
Record ResponsesUsage := {
  InputTokens : Z;
  CachedTokens : option Z;
  OutputTokens : Z;
  ReasoningTokens : option Z;
  TotalTokens : Z;
  CreatedCacheTokens : option Z;
}.

(** ** Checked arithmetic *)

Definition checkedUsageSum (a b : Z) : option Z := if sub64 max_int64 b <? a then None else Some (add64 a b).

Definition derivedUsageTotal (input output : Z) : Z * string :=
  match checkedUsageSum input output with
  | Some sum => (sum, "")
  | None =>
      (max_int64, "the derived usage total (input " ++ pretty input ++ " + output " ++ pretty output ++
                  ") exceeds the representable range; the total is saturated to " ++ pretty max_int64)
  end.

Definition saturatingUsageSum (a b : Z) : Z :=
  if (a <? 0) || (b <? 0) then 0 else match checkedUsageSum a b with Some sum => sum | None => max_int64 end.

Definition saturatingUsageDifference (known other : Z) : Z :=
  let diff := sub64 known other in if 0 <? diff then diff else 0.

Definition checkedAdd (a b : Z) : option Z := checkedUsageSum a b.

Definition checkedSub (a b : Z) : option Z :=
  if (b <? 0) && (add64 max_int64 b <? a) then None
  else let diff := sub64 a b in if diff <? 0 then None else Some diff.

(** ** Details *)

Definition describeCount (value : Z) (known : bool) : string := if known then pretty value else "absent".

Definition cacheExceedsInputDetail (read write : Z) (readKnown writeKnown : bool) (bound : Z) (inputKnown : bool)
    (sourceInput : Z) : string :=
  if negb inputKnown then
    "the source usage's cached breakdown (" ++ describeCount read readKnown ++ " read + " ++ describeCount write writeKnown ++
    " creation) has no reported input total to bound it; the cached components are clamped to zero"
  else
    "the source usage's cached breakdown (" ++ describeCount read readKnown ++ " read + " ++ describeCount write writeKnown ++
    " creation) exceeds the input total " ++ pretty bound ++ "; the cached components are clamped to the input total" ++
    (if sourceInput =? bound then ""
     else " (the source reported input " ++ pretty sourceInput ++ ", which the clamp corrected to " ++ pretty bound ++ ")").

Definition absentTotalComponents (presence : usagePresence) : string :=
  match has_input presence, has_output presence with
  | false, false => "input or output"
  | false, true => "input"
  | true, false => "output"
  | true, true => ""
  end.

Definition correction (name : string) (emitted source : Z) : list string :=
  if emitted =? source then [] else [name ++ " " ++ pretty source ++ " to " ++ pretty emitted].

Definition describeTotalCorrections (emitted source : usageTotals) : string :=
  String.concat " and " (correction "input" (ut_input emitted) (ut_input source) ++
                         correction "output" (ut_output emitted) (ut_output source) ++
                         correction "total" (ut_total emitted) (ut_total source))%list.

Definition same_totals (a b : usageTotals) : bool :=
  (ut_input a =? ut_input b) && (ut_output a =? ut_output b) && (ut_total a =? ut_total b).

(** [None] when there is no mismatch to note. *)
Definition totalMismatchDetail (emitted source : usageTotals) (presence : usagePresence) : option string :=
  let claim := "the usage total " ++ pretty (ut_total emitted) ++ " is not the exact sum of input " ++
               pretty (ut_input emitted) ++ " + output " ++ pretty (ut_output emitted) in
  if negb (has_total presence) then None
  else if match checkedUsageSum (ut_input emitted) (ut_output emitted) with
          | Some sum => sum =? ut_total emitted
          | None => false
          end then None
  else if same_totals emitted source then
    Some (claim ++ match absentTotalComponents presence with
                   | EmptyString => "; the source total, input, and output are relayed as-is"
                   | absent => "; the source did not report " ++ absent ++ ", and the values it did report are relayed as-is"
                   end)
  else Some (claim ++ " (the clamp corrected the source's " ++ describeTotalCorrections emitted source ++ "); the mismatch is recorded").

(** ** The clamps *)

Definition clampNegative (v : Z) : Z := if v <? 0 then 0 else v.

Definition some_negative (vs : list Z) : bool := existsb (λ v, v <? 0) vs.

Definition make_clamp (cache negative : bool) (cacheText negativeText : string) (total : option string) : usageClamp :=
  {| cacheExceedsInput := cache; negativeCounts := negative; totalMismatch := match total with Some _ => true | None => false end;
     cacheDetail := if cache then cacheText else ""; negativeDetail := if negative then negativeText else "";
     totalDetail := default "" total |}.

Definition clampCanonicalUsage (u : CanonicalUsage) : CanonicalUsage * usageClamp :=
  let known := cu_Known u in
  let input := clampNegative (cu_Input u) in
  let read := clampNegative (cu_CacheRead u) in
  let write := clampNegative (cu_CacheWrite u) in
  let output := clampNegative (cu_Output u) in
  let reasoning := clampNegative (cu_Reasoning u) in
  let total := clampNegative (cu_Total u) in
  let negative := some_negative [cu_Input u; cu_CacheRead u; cu_CacheWrite u; cu_Output u; cu_Reasoning u; cu_Total u] in
  let '(read, cache1) := if input <? read then (input, true) else (read, false) in
  let '(write, cache2) := if sub64 input read <? write then (sub64 input read, true) else (write, false) in
  ({| cu_Input := input; cu_CacheRead := read; cu_CacheWrite := write; cu_Output := output; cu_Reasoning := reasoning;
      cu_Total := total; cu_Known := known |},
   make_clamp (cache1 || cache2) negative
     (cacheExceedsInputDetail (cu_CacheRead u) (cu_CacheWrite u) (has_cacheRead known) (has_cacheWrite known) input
        (has_input known) (cu_Input u))
     ("the source usage reported negative token counts (input " ++ describeCount (cu_Input u) (has_input known) ++
      ", cache-read " ++ describeCount (cu_CacheRead u) (has_cacheRead known) ++
      ", cache-creation " ++ describeCount (cu_CacheWrite u) (has_cacheWrite known) ++
      ", output " ++ describeCount (cu_Output u) (has_output known) ++
      ", reasoning " ++ describeCount (cu_Reasoning u) (has_reasoning known) ++
      ", total " ++ describeCount (cu_Total u) (has_total known) ++ "); each negative count is clamped to zero")
     (totalMismatchDetail {| ut_input := input; ut_output := output; ut_total := total |}
        {| ut_input := cu_Input u; ut_output := cu_Output u; ut_total := cu_Total u |} known)).

(** The optional cached counts within the input. *)
Definition bound_breakdown (input : Z) (cachedTokens created : option Z) : option Z * option Z * bool :=
  let '(cachedTokens, cached, cache1) :=
    match cachedTokens with
    | Some cached => if input <? cached then (Some input, input, true) else (Some cached, cached, false)
    | None => (None, 0, false)
    end in
  let '(created, cache2) :=
    match created with
    | Some created => if sub64 input cached <? created then (Some (sub64 input cached), true) else (Some created, false)
    | None => (None, false)
    end in
  (cachedTokens, created, cache1 || cache2).

Definition clampResponsesUsage (u : ResponsesUsage) (presence : usagePresence) : ResponsesUsage * usageClamp :=
  let sourceCached := default 0 (CachedTokens u) in
  let sourceReasoning := default 0 (ReasoningTokens u) in
  let sourceCreated := default 0 (CreatedCacheTokens u) in
  let input := clampNegative (InputTokens u) in
  let output := clampNegative (OutputTokens u) in
  let total := clampNegative (TotalTokens u) in
  let cachedTokens := clampNegative <$> CachedTokens u in
  let created := clampNegative <$> CreatedCacheTokens u in
  let negative := some_negative [InputTokens u; OutputTokens u; TotalTokens u; sourceCached; sourceReasoning; sourceCreated] in
  let '(cachedTokens, created, cache) := bound_breakdown input cachedTokens created in
  ({| InputTokens := input; CachedTokens := cachedTokens; OutputTokens := output;
      ReasoningTokens := clampNegative <$> ReasoningTokens u; TotalTokens := total; CreatedCacheTokens := created |},
   make_clamp cache negative
     (cacheExceedsInputDetail sourceCached sourceCreated (has_cacheRead presence) (has_cacheWrite presence) input
        (has_input presence) (InputTokens u))
     ("the source usage reported negative token counts (input " ++ describeCount (InputTokens u) (has_input presence) ++
      ", output " ++ describeCount (OutputTokens u) (has_output presence) ++
      ", total " ++ describeCount (TotalTokens u) (has_total presence) ++
      ", cached " ++ describeCount sourceCached (has_cacheRead presence) ++
      ", reasoning " ++ describeCount sourceReasoning (has_reasoning presence) ++
      ", cache-creation " ++ describeCount sourceCreated (has_cacheWrite presence) ++ "); each negative count is clamped to zero")
     (totalMismatchDetail {| ut_input := input; ut_output := output; ut_total := total |}
        {| ut_input := InputTokens u; ut_output := OutputTokens u; ut_total := TotalTokens u |} presence)).

Definition clamp_empty (c : usageClamp) : bool := negb (cacheExceedsInput c) && negb (negativeCounts c) && negb (totalMismatch c).

(** ** Notes *)

Definition clamp_record (c : usageClamp) (path : string) : Conv unit :=
  when (cacheExceedsInput c) (Note "usage_cache_exceeds_input" path (cacheDetail c)) ;;~
  when (negativeCounts c) (Note "usage_negative_counts" path (negativeDetail c)) ;;~
  when (totalMismatch c) (Note "usage_total_mismatch" path (totalDetail c)).

Record usageClampNotes := { noted_cache : bool; noted_negative : bool; noted_total : bool }.

Definition no_notes : usageClampNotes := {| noted_cache := false; noted_negative := false; noted_total := false |}.

(** [usageClampNotes.note]: at most once per key. *)
Definition note_clamp (n : usageClampNotes) (path : string) (c : usageClamp) : Conv usageClampNotes :=
  when (cacheExceedsInput c && negb (noted_cache n)) (Note "usage_cache_exceeds_input" path (cacheDetail c)) ;;~
  when (negativeCounts c && negb (noted_negative n)) (Note "usage_negative_counts" path (negativeDetail c)) ;;~
  when (totalMismatch c && negb (noted_total n)) (Note "usage_total_mismatch" path (totalDetail c)) ;;~
  ret {| noted_cache := noted_cache n || cacheExceedsInput c; noted_negative := noted_negative n || negativeCounts c;
         noted_total := noted_total n || totalMismatch c |}.

(** ** The stream decoder's totals *)

(** A single absent total is derived from the two others; [None] is a wire error.  The
    name is that of the derived total. *)
Definition derive_totals (prompt completion total : option Z) : option (Z * Z * Z * string) :=
  match prompt, completion, total with
  | Some p, Some c, Some t => Some (p, c, t, "")
  | Some p, Some c, None =>
      Some (p, c, match checkedAdd p c with Some d => d | None => saturatingUsageSum p c end, "total_tokens")
  | Some p, None, Some t =>
      Some (p, match checkedSub t p with Some d => d | None => saturatingUsageDifference t p end, t, "completion_tokens")
  | None, Some c, Some t =>
      Some (match checkedSub t c with Some d => d | None => saturatingUsageDifference t c end, c, t, "prompt_tokens")
  | _, _, _ => None
  end.

(** ** Conversions *)

(** What is read of a Chat usage; the details are (cached, created) and (reasoning). *)
Record ChatLLMUsage := {
  PromptTokens : Z;
  CompletionTokens : Z;
  chat_TotalTokens : Z;
  chat_ReasoningTokens : option Z;
  chat_CachedTokens : option Z;
  PromptCacheHitTokens : option Z;
  PromptTokensDetails : option (Z * option Z);
  CompletionTokensDetails : option Z;
}.

Definition cached_of (usage : ChatLLMUsage) : option Z :=
  match PromptTokensDetails usage with
  | Some (cached, _) => Some cached
  | None => match chat_CachedTokens usage with Some c => Some c | None => PromptCacheHitTokens usage end
  end.

Definition reasoning_of (usage : ChatLLMUsage) : option Z :=
  match CompletionTokensDetails usage with Some r => Some r | None => chat_ReasoningTokens usage end.

Definition created_of (usage : ChatLLMUsage) : option Z := PromptTokensDetails usage ≫= snd.

Definition known {A} (o : option A) : bool := match o with Some _ => true | None => false end.

Definition chat_presence (usage : ChatLLMUsage) (derivedTotal : string) : usagePresence :=
  {| has_input := negb (String.eqb derivedTotal "prompt_tokens");
     has_output := negb (String.eqb derivedTotal "completion_tokens");
     has_total := negb (String.eqb derivedTotal "total_tokens");
     has_cacheRead := known (cached_of usage); has_cacheWrite := known (created_of usage);
     has_reasoning := known (reasoning_of usage) |}.

(** On a present usage. *)
Definition chatUsageToResponsesUsage (usage : ChatLLMUsage) (derivedTotal : string) : ResponsesUsage * usageClamp :=
  clampResponsesUsage
    {| InputTokens := PromptTokens usage; CachedTokens := Some (default 0 (cached_of usage));
       OutputTokens := CompletionTokens usage; ReasoningTokens := Some (default 0 (reasoning_of usage));
       TotalTokens := chat_TotalTokens usage; CreatedCacheTokens := created_of usage |}
    (chat_presence usage derivedTotal).

Definition same_count (a b : option Z) : bool := bool_decide (a = b).

Definition sameUsageAccounting (a b : ResponsesUsage) : bool :=
  (InputTokens a =? InputTokens b) && (OutputTokens a =? OutputTokens b) && (TotalTokens a =? TotalTokens b) &&
  same_count (CreatedCacheTokens a) (CreatedCacheTokens b) && same_count (CachedTokens a) (CachedTokens b) &&
  same_count (ReasoningTokens a) (ReasoningTokens b).

Record AnthropicUsage := {
  an_Input : Z;
  an_CacheCreation : Z;
  an_CacheRead : Z;
  an_Output : Z;
  an_Thinking : Z;
}.

(** [int] is 64 bits wide here, so [checkedInt64ToInt] does not fail. *)
Definition responsesUsageToAnthropicUsage (usage : ResponsesUsage) (presence : usagePresence) : AnthropicUsage * usageClamp :=
  let '(u, clamp) := clampResponsesUsage usage presence in
  let cached := default 0 (CachedTokens u) in
  let cacheWrite := default 0 (CreatedCacheTokens u) in
  ({| an_Input := sub64 (sub64 (InputTokens u) cached) cacheWrite; an_CacheCreation := cacheWrite; an_CacheRead := cached;
      an_Output := OutputTokens u; an_Thinking := default 0 (ReasoningTokens u) |}, clamp).

(** Each wire-required component the source did not provide is a loss. *)
Fixpoint lose_components (policy : LossPolicy) (target : string) (cs : list (Feature * string * bool)) : Conv unit :=
  match cs with
  | [] => ret tt
  | (feature, name, isKnown) :: cs =>
      when (negb isKnown)
        (Lose policy feature "usage"
           ("the upstream response did not provide " ++ name ++ "; the required " ++ target ++ " usage cannot be reproduced")) ;;~
      lose_components policy target cs
  end.

(** The non-streaming renderers, on a usage that is not wholly unknown. *)
Definition canonicalUsageToAnthropic (policy : LossPolicy) (usage : CanonicalUsage) : Conv AnthropicUsage :=
  let known := cu_Known usage in
  lose_components policy "Messages"
    [("usage_unknown", "input_tokens", has_input known);
     ("usage_cache_read_unknown", "cache_read_input_tokens", has_cacheRead known);
     ("usage_cache_write_unknown", "cache_creation_input_tokens", has_cacheWrite known);
     ("usage_unknown", "output_tokens", has_output known);
     ("usage_reasoning_unknown", "output_tokens_details.thinking_tokens", has_reasoning known)] ;;~
  let '(u, clamp) := clampCanonicalUsage usage in
  clamp_record clamp "usage" ;;~
  ret {| an_Input := sub64 (cu_Input u) (add64 (cu_CacheRead u) (cu_CacheWrite u)); an_CacheCreation := cu_CacheWrite u;
         an_CacheRead := cu_CacheRead u; an_Output := cu_Output u; an_Thinking := cu_Reasoning u |}.

Definition canonicalUsageToResponses (policy : LossPolicy) (usage : CanonicalUsage) : Conv ResponsesUsage :=
  let known := cu_Known usage in
  let '(u, clamp) := clampCanonicalUsage usage in
  clamp_record clamp "usage" ;;~
  let '(total, saturation) :=
    if has_total known then (cu_Total u, "") else derivedUsageTotal (cu_Input u) (cu_Output u) in
  when (negb (String.eqb saturation "")) (Note "usage_total_mismatch" "usage" saturation) ;;~
  lose_components policy "Responses"
    [("usage_cache_read_unknown", "input_tokens_details.cached_tokens", has_cacheRead known);
     ("usage_reasoning_unknown", "output_tokens_details.reasoning_tokens", has_reasoning known);
     ("usage_unknown", "input_tokens or output_tokens", has_input known && has_output known)] ;;~
  ret {| InputTokens := cu_Input u; CachedTokens := Some (cu_CacheRead u); OutputTokens := cu_Output u;
         ReasoningTokens := Some (cu_Reasoning u); TotalTokens := total; CreatedCacheTokens := None |}.

(** ** Specifications *)

Definition counts (u : ResponsesUsage) : list Z :=
  [InputTokens u; OutputTokens u; TotalTokens u; default 0 (CachedTokens u); default 0 (ReasoningTokens u);
   default 0 (CreatedCacheTokens u)].

(** What the target dialects require of a usage. *)
Definition usage_valid (u : ResponsesUsage) : Prop :=
  Forall (λ n, 0 <= n) (counts u) /\ default 0 (CachedTokens u) + default 0 (CreatedCacheTokens u) <= InputTokens u.

(** The canonical form of a usage in the Responses shape. *)
Definition as_responses (u : CanonicalUsage) : ResponsesUsage :=
  {| InputTokens := cu_Input u; CachedTokens := Some (cu_CacheRead u); OutputTokens := cu_Output u;
     ReasoningTokens := Some (cu_Reasoning u); TotalTokens := cu_Total u; CreatedCacheTokens := Some (cu_CacheWrite u) |}.

(** ** Lemmas *)

Lemma clampNegative_max v : clampNegative v = Z.max 0 v.
Proof. unfold clampNegative. destruct (Z.ltb_spec v 0); lia. Qed.

Lemma clampNegative_id v : 0 <= v → clampNegative v = v.
Proof. rewrite clampNegative_max. lia. Qed.

Lemma sub64_nonneg a b : in_int64 a → in_int64 b → 0 <= a → 0 <= b → sub64 a b = a - b.
Proof. unfold in_int64, min_int64, max_int64, sub64. intros. apply wrap64_id. unfold in_int64, min_int64, max_int64. lia. Qed.

Lemma checkedUsageSum_exact a b :
  in_int64 a → in_int64 b → 0 <= a → 0 <= b →
  checkedUsageSum a b = if decide (a + b <= max_int64) then Some (a + b) else None.
Proof.
  intros Ha Hb Pa Pb. unfold checkedUsageSum. rewrite sub64_nonneg by (done || (unfold in_int64, min_int64, max_int64 in *; lia)).
  destruct (Z.ltb_spec (max_int64 - b) a); [rewrite decide_False by lia; done|]. rewrite decide_True by lia.
  unfold add64. rewrite wrap64_id; [done|]. unfold in_int64, min_int64, max_int64 in *. lia.
Qed.

Lemma some_negative_spec vs : some_negative vs = true ↔ Exists (λ v, v < 0) vs.
Proof.
  unfold some_negative. rewrite existsb_exists, Exists_exists.
  split; intros (v & Hv & Hn); exists v; (split; [by apply list_elem_of_In|]); lia.
Qed.

Lemma mismatch_iff emitted source presence :
  in_int64 (ut_input emitted) → in_int64 (ut_output emitted) → in_int64 (ut_total emitted) →
  0 <= ut_input emitted → 0 <= ut_output emitted →
  is_Some (totalMismatchDetail emitted source presence) ↔
  has_total presence = true /\ ut_total emitted ≠ ut_input emitted + ut_output emitted.
Proof.
  intros Hi Ho Ht Pi Po. unfold totalMismatchDetail. rewrite checkedUsageSum_exact by done.
  destruct (has_total presence); simpl; [|by split; [intros [? ?]|intros [? _]]].
  case_decide as Hd.
  - destruct (Z.eqb_spec (ut_input emitted + ut_output emitted) (ut_total emitted)) as [E|E].
    + split; [by intros [? ?] | intros [_ ?]; lia].
    + split; [intros _; split; [done | lia]|]. intros _. by destruct (same_totals _ _).
  - split; [intros _; split; [done|]|intros _; by destruct (same_totals _ _)].
    unfold in_int64, min_int64 in *. lia.
Qed.

Definition pos (v : Z) : Z := Z.max 0 v.

Lemma pos_range v : in_int64 v → in_int64 (pos v) ∧ 0 <= pos v.
Proof. unfold in_int64, min_int64, max_int64, pos. lia. Qed.

(** The bounding of the two cached counts. *)
Lemma bound_cached input cached created :
  in_int64 input → in_int64 cached → in_int64 created →
  let i := pos input in
  let r := if i <? pos cached then i else pos cached in
  let w := if sub64 i r <? pos created then sub64 i r else pos created in
  r = Z.min i (pos cached) ∧ w = Z.min (i - r) (pos created) ∧ 0 <= r ∧ 0 <= w ∧ r + w <= i ∧
  ((i <? pos cached) || (sub64 i r <? pos created) = true ↔ i < pos cached + pos created).
Proof.
  intros Hi Hc Hw. cbv zeta. destruct (pos_range _ Hi) as [Hi' Pi], (pos_range _ Hc) as [Hc' Pc], (pos_range _ Hw) as [Hw' Pw].
  set (i := pos input) in *. set (c := pos cached) in *. set (w := pos created) in *.
  assert (Hr : (if i <? c then i else c) = Z.min i c) by (destruct (Z.ltb_spec i c); lia). rewrite Hr.
  rewrite sub64_nonneg by (done || (unfold in_int64, min_int64, max_int64 in *; lia)).
  destruct (Z.ltb_spec i c), (Z.ltb_spec (i - Z.min i c) w); simpl; split_and!; try lia; split; intros ?; try done; lia.
Qed.

Lemma bound_breakdown_spec input cached created :
  in_int64 input → in_int64 (default 0 cached) → in_int64 (default 0 created) → 0 <= input →
  let '(c, w, flag) := bound_breakdown input (pos <$> cached) (pos <$> created) in
  c = (λ n, Z.min input (pos n)) <$> cached ∧ w = (λ n, Z.min (input - default 0 c) (pos n)) <$> created ∧
  0 <= default 0 c ∧ 0 <= default 0 w ∧ default 0 c + default 0 w <= input ∧
  (flag = true ↔ input < pos (default 0 cached) + pos (default 0 created)).
Proof.
  intros Hi Hc Hw Pi. assert (Hp : pos input = input) by (unfold pos; lia).
  pose proof (bound_cached input _ _ Hi Hc Hw) as (H1 & H2 & H3 & H4 & H5 & H6). cbv zeta in *. rewrite Hp in *.
  assert (P0 : pos 0 = 0) by done. unfold bound_breakdown.
  destruct cached as [c|], created as [w|]; simpl in *; rewrite ?P0 in *.
  - destruct (input <? pos c); simpl in *; destruct (sub64 input _ <? pos w); simpl in *; split_and!; try done; try lia; by f_equal.
  - destruct (Z.ltb_spec input (pos c)); simpl in *; split_and!; try done; try lia; try (by f_equal; lia); split; intros ?; done || lia.
  - rewrite (proj2 (Z.ltb_ge input 0)) in * by lia. destruct (sub64 input 0 <? pos w); simpl in *; split_and!; try done; try lia; by f_equal.
  - split_and!; try done; try lia; split; intros ?; done || lia.
Qed.

Lemma clampResponses_spec u presence : Forall in_int64 (counts u) →
  let '(v, c) := clampResponsesUsage u presence in
  let cached := pos (default 0 (CachedTokens u)) in
  let created := pos (default 0 (CreatedCacheTokens u)) in
  InputTokens v = pos (InputTokens u) ∧ OutputTokens v = pos (OutputTokens u) ∧ TotalTokens v = pos (TotalTokens u) ∧
  ReasoningTokens v = pos <$> ReasoningTokens u ∧
  CachedTokens v = (λ n, Z.min (InputTokens v) (pos n)) <$> CachedTokens u ∧
  CreatedCacheTokens v = (λ n, Z.min (InputTokens v - default 0 (CachedTokens v)) (pos n)) <$> CreatedCacheTokens u ∧
  usage_valid v ∧
  (cacheExceedsInput c = true ↔ InputTokens v < cached + created) ∧
  (negativeCounts c = true ↔ Exists (λ n, n < 0) (counts u)) ∧
  (totalMismatch c = true ↔ has_total presence = true ∧ TotalTokens v ≠ InputTokens v + OutputTokens v).
Proof.
  intros Hall. assert (Hr : ∀ n, n ∈ counts u → in_int64 n) by (by apply Forall_forall). unfold counts in Hr.
  assert (Hin : in_int64 (InputTokens u) ∧ in_int64 (OutputTokens u) ∧ in_int64 (TotalTokens u) ∧
    in_int64 (default 0 (CachedTokens u)) ∧ in_int64 (default 0 (CreatedCacheTokens u))) by (split_and!; apply Hr; set_solver).
  destruct Hin as (Hi & Ho & Ht & Hc & Hw). destruct (pos_range _ Hi) as [Hi' Pi], (pos_range _ Ho) as [Ho' Po], (pos_range _ Ht) as [Ht' Pt].
  pose proof (bound_breakdown_spec (pos (InputTokens u)) _ _ Hi' Hc Hw Pi) as Hb.
  pose proof (mismatch_iff {| ut_input := pos (InputTokens u); ut_output := pos (OutputTokens u); ut_total := pos (TotalTokens u) |}
    {| ut_input := InputTokens u; ut_output := OutputTokens u; ut_total := TotalTokens u |} presence Hi' Ho' Ht' Pi Po) as Hmis.
  pose proof (some_negative_spec (counts u)) as Hneg.
  assert (Hfm : ∀ o : option Z, clampNegative <$> o = pos <$> o) by (intros [x|]; simpl; [by rewrite clampNegative_max|done]).
  unfold clampResponsesUsage. cbv zeta. rewrite !clampNegative_max, !Hfm.
  fold (pos (InputTokens u)) (pos (OutputTokens u)) (pos (TotalTokens u)).
  destruct (bound_breakdown _ _ _) as [[c w] flag]. destruct Hb as (-> & -> & Hc0 & Hw0 & Hsum & Hflag).
  unfold make_clamp. cbn [InputTokens OutputTokens TotalTokens ReasoningTokens CachedTokens CreatedCacheTokens
    cacheExceedsInput negativeCounts totalMismatch]. simpl in Hmis. split_and!; try done.
  - unfold usage_valid, counts. simpl. split; [|done]. repeat constructor; try done.
    destruct (ReasoningTokens u); simpl; unfold pos; lia.
  - rewrite <- Hmis. destruct (totalMismatchDetail _ _ _); split; [intros _; by eexists | done | done | by intros [? ?]].
Qed.

(** Both shapes are clamped alike. *)
Lemma canonical_as_responses u : Forall in_int64 (counts (as_responses u)) →
  let '(v, c) := clampCanonicalUsage u in
  let '(v', c') := clampResponsesUsage (as_responses u) (cu_Known u) in
  as_responses v = v' ∧ cacheExceedsInput c = cacheExceedsInput c' ∧ negativeCounts c = negativeCounts c' ∧
  totalMismatch c = totalMismatch c' ∧ totalDetail c = totalDetail c' ∧ cacheDetail c = cacheDetail c'.
Proof.
  intros _. unfold clampCanonicalUsage, clampResponsesUsage, bound_breakdown, as_responses. simpl.
  destruct (clampNegative (cu_Input u) <? clampNegative (cu_CacheRead u)); simpl;
    destruct (sub64 _ _ <? clampNegative (cu_CacheWrite u)); simpl; split_and!; try done;
    unfold some_negative; simpl; btauto.
Qed.

Lemma post_lose_components policy target cs : has_post (lose_components policy target cs) (λ _, True).
Proof. by intros ? ? ? ?. Qed.

Lemma canonicalUsageToAnthropic_value policy u :
  has_post (canonicalUsageToAnthropic policy u)
    (λ a, let v := fst (clampCanonicalUsage u) in
          a = {| an_Input := sub64 (cu_Input v) (add64 (cu_CacheRead v) (cu_CacheWrite v)); an_CacheCreation := cu_CacheWrite v;
                 an_CacheRead := cu_CacheRead v; an_Output := cu_Output v; an_Thinking := cu_Reasoning v |}).
Proof.
  unfold canonicalUsageToAnthropic. cbv zeta. apply post_seq. destruct (clampCanonicalUsage u) as [v c].
  by apply post_seq, post_ret.
Qed.

Lemma sub_chain a b c :
  0 <= a <= max_int64 → 0 <= b → 0 <= c → b + c <= a →
  sub64 (sub64 a b) c = a - b - c ∧ sub64 a (add64 b c) = a - b - c.
Proof.
  unfold max_int64, sub64, add64. intros. rewrite !(wrap64_id (a - b)), !(wrap64_id (b + c)), !wrap64_id;
    try (unfold in_int64, min_int64, max_int64); lia.
Qed.

(** ** Findings *)

(** Two negative counts can derive the largest total, and a negative total a huge
    component. *)
Lemma negative_counts_wrap :
  checkedAdd min_int64 (-1) = Some max_int64 ∧ checkedSub min_int64 1 = Some max_int64 ∧
  saturatingUsageDifference min_int64 1 = max_int64.
Proof. by vm_compute. Qed.

(** ** Properties *)

(** C35: A clamped usage is one every client dialect accepts: no count is negative and
    the cached counts together do not exceed the input.  Every count that is reported is
    the source's own or the nearest allowed one and no other is added: input, output,
    total and reasoning are raised to zero at most, the cache reads are bounded by the
    input and the created ones by what the reads leave of it.  A usage that was valid is
    left as it was, and each correction, and a total that is not the sum of input and
    output, is claimed exactly when it is so. *)
Theorem clamp_repairs u presence :
  Forall in_int64 (counts u) →
  let '(v, c) := clampResponsesUsage u presence in
  usage_valid v ∧ (usage_valid u → v = u) ∧
  InputTokens v = Z.max 0 (InputTokens u) ∧ OutputTokens v = Z.max 0 (OutputTokens u) ∧
  TotalTokens v = Z.max 0 (TotalTokens u) ∧ ReasoningTokens v = Z.max 0 <$> ReasoningTokens u ∧
  CachedTokens v = (λ n, Z.min (InputTokens v) (Z.max 0 n)) <$> CachedTokens u ∧
  CreatedCacheTokens v = (λ n, Z.min (InputTokens v - default 0 (CachedTokens v)) (Z.max 0 n)) <$> CreatedCacheTokens u ∧
  (negativeCounts c = true ↔ Exists (λ n, n < 0) (counts u)) ∧
  (cacheExceedsInput c = true ↔
   Z.max 0 (InputTokens u) < Z.max 0 (default 0 (CachedTokens u)) + Z.max 0 (default 0 (CreatedCacheTokens u))) ∧
  (totalMismatch c = true ↔ has_total presence = true ∧ TotalTokens v ≠ InputTokens v + OutputTokens v).
Proof.
  intros Hall. pose proof (clampResponses_spec u presence Hall) as H. destruct (clampResponsesUsage u presence) as [v c].
  cbv zeta in H. destruct H as (Hi & Ho & Ht & Hr & Hc & Hw & Hv & Hx & Hn & Hm). rewrite Hi in Hx. split_and!; try done.
  intros [Hpos Hsum]. unfold counts in Hpos. rewrite !Forall_cons in Hpos. destruct Hpos as (P1 & P2 & P3 & P4 & P5 & P6 & _).
  destruct v as [vi vc vo vr vt vw], u as [ui uc uo ur ut uw]. simpl in *. subst. unfold pos.
  f_equal; try lia; [destruct uc | destruct ur | destruct uc, uw]; simpl in *; try done; f_equal; lia.
Qed.

Definition odd_usage : ResponsesUsage :=
  {| InputTokens := 10; CachedTokens := Some 20; OutputTokens := -1; ReasoningTokens := None; TotalTokens := 30;
     CreatedCacheTokens := Some 5 |}.

Definition all_known : usagePresence :=
  {| has_input := true; has_output := true; has_total := true; has_cacheRead := true; has_cacheWrite := true; has_reasoning := true |}.

Lemma clamp_repairs_witness :
  Forall in_int64 (counts odd_usage) ∧
  usage_valid (fst (clampResponsesUsage odd_usage all_known)) ∧
  fst (clampResponsesUsage odd_usage all_known) =
    {| InputTokens := 10; CachedTokens := Some 10; OutputTokens := 0; ReasoningTokens := None; TotalTokens := 30;
       CreatedCacheTokens := Some 0 |}.
Proof.
  assert (H : Forall in_int64 (counts odd_usage)) by (repeat constructor; vm_compute; discriminate).
  split; [exact H|]. split; [|reflexivity]. exact (proj1 (clamp_repairs odd_usage all_known H)).
Defined.

(** A streamed exchange and a whole one report the same usage to a Messages client:
    on the same counts both renderers give the same numbers, their input, cache-read
    and cache-creation counts add up to the input total, and none is negative. *)
Theorem anthropic_usage_agrees policy u presence r a r' :
  Forall in_int64 (counts (as_responses u)) →
  canonicalUsageToAnthropic policy u r = (Ok a, r') →
  a = fst (responsesUsageToAnthropicUsage (as_responses u) presence) ∧
  an_Input a + an_CacheRead a + an_CacheCreation a = Z.max 0 (cu_Input u) ∧
  Forall (λ n, 0 <= n) [an_Input a; an_CacheRead a; an_CacheCreation a; an_Output a; an_Thinking a].
Proof.
  intros Hall H. apply canonicalUsageToAnthropic_value in H. cbv zeta in H. unfold responsesUsageToAnthropicUsage.
  pose proof (canonical_as_responses u Hall) as Hsame. pose proof (clampResponses_spec (as_responses u) (cu_Known u) Hall) as Hspec.
  pose proof (clampResponses_spec (as_responses u) presence Hall) as Hspec'.
  destruct (clampCanonicalUsage u) as [v c]. simpl in H.
  destruct (clampResponsesUsage (as_responses u) (cu_Known u)) as [v1 c1]. destruct Hsame as (<- & _).
  destruct (clampResponsesUsage (as_responses u) presence) as [v2 c2]. cbv zeta in *.
  destruct Hspec as (Hi & Ho & Ht & Hr & Hc & Hw & [Hpos Hsum] & _). destruct Hspec' as (Hi' & Ho' & Ht' & Hr' & Hc' & Hw' & _).
  assert (Hv : as_responses v = v2).
  { destruct v2 as [i2 c2' o2 r2 t2 w2]. simpl in *. unfold as_responses. simpl. subst i2 o2 r2 t2 c2'.
    rewrite <- Hi in *. rewrite <- Hc in Hw'. simpl in *. rewrite <- Hw in Hw'. congruence. }
  assert (Hrange : in_int64 (cu_Input u)) by (rewrite Forall_forall in Hall; apply Hall; unfold counts; set_solver).
  unfold counts in Hpos. rewrite !Forall_cons in Hpos. simpl in Hpos, Hsum, Hi. destruct Hpos as (P1 & P2 & _ & P4 & P5 & P6 & _).
  destruct (sub_chain (cu_Input v) (cu_CacheRead v) (cu_CacheWrite v)) as [Hs1 Hs2];
    [unfold pos, in_int64, min_int64, max_int64 in *; lia|lia|lia|lia|].
  subst a. rewrite <- Hv. simpl. rewrite Hs1, Hs2. unfold pos in Hi. split; [done|]. split; [lia|]. repeat constructor; lia.
Qed.

Definition demo_usage : CanonicalUsage :=
  {| cu_Input := 10; cu_CacheRead := 20; cu_CacheWrite := 3; cu_Output := 4; cu_Reasoning := 1; cu_Total := 14; cu_Known := all_known |}.

Lemma anthropic_usage_agrees_witness :
  Forall in_int64 (counts (as_responses demo_usage)) ∧
  {| an_Input := 0; an_CacheCreation := 0; an_CacheRead := 10; an_Output := 4; an_Thinking := 1 |} =
    fst (responsesUsageToAnthropicUsage (as_responses demo_usage) all_known).
Proof.
  assert (H : Forall in_int64 (counts (as_responses demo_usage))) by (repeat constructor; vm_compute; discriminate).
  split; [exact H|].
  exact (proj1 (anthropic_usage_agrees StrictLossPolicy demo_usage all_known fresh_report _ _ H eq_refl)).
Defined.

(** A missing total is derived, never invented: from two counts that are not
    negative it is their sum, or the largest count when the sum does not fit, and a
    missing component is what is left of the total, or nothing; with fewer than two
    counts there is none. *)
Theorem derived_totals_exact p c t :
  in_int64 p → in_int64 c → in_int64 t → 0 <= p → 0 <= c → 0 <= t →
  derive_totals (Some p) (Some c) None = Some (p, c, Z.min max_int64 (p + c), "total_tokens") ∧
  derive_totals (Some p) None (Some t) = Some (p, Z.max 0 (t - p), t, "completion_tokens") ∧
  derive_totals None (Some c) (Some t) = Some (Z.max 0 (t - c), c, t, "prompt_tokens") ∧
  derive_totals (Some p) None None = None ∧ derive_totals None None None = None.
Proof.
  intros Hp Hc Ht Pp Pc Pt.
  assert (Hsub : ∀ a b, in_int64 a → in_int64 b → 0 <= a → 0 <= b →
    (match checkedSub a b with Some d => d | None => saturatingUsageDifference a b end) = Z.max 0 (a - b)).
  { intros a b Ha Hb Pa Pb. unfold checkedSub, saturatingUsageDifference. rewrite (proj2 (Z.ltb_ge b 0)) by lia.
    rewrite sub64_nonneg by done. simpl. destruct (Z.ltb_spec (a - b) 0); [destruct (Z.ltb_spec 0 (a - b))|]; lia. }
  unfold derive_totals. rewrite !Hsub by done. split_and!; try done. f_equal. f_equal. f_equal.
  unfold checkedAdd, saturatingUsageSum. rewrite checkedUsageSum_exact by done. rewrite !(proj2 (Z.ltb_ge _ 0)) by lia. simpl.
  case_decide; lia.
Qed.

Lemma derived_totals_exact_witness :
  derive_totals (Some 3) (Some 4) None = Some (3, 4, Z.min max_int64 (3 + 4), "total_tokens").
Proof. exact (proj1 (derived_totals_exact 3 4 7 ltac:(by vm_compute) ltac:(by vm_compute) ltac:(by vm_compute) ltac:(lia) ltac:(lia) ltac:(lia))). Defined.
