(* ===== verification/SchemaBounds.v ===== *)
(** * Vacuous numeric bounds of tool schemas ([internal/transcode/schema_bounds.go])

    The rewriting that removes the bounds no float64 can exceed from a JSON Schema,
    on the schema's value; everything else of it, its key order and the spelling of
    its numbers included, stays. *)

From Stdlib Require Import ZArith Lia Bool List Ascii String QArith Qabs.
From stdpp Require Import strings list.
From S2P Require Import Prelude GoStd GoStr GoText GoJson.

Open Scope Z_scope.

(** ** Numbers *)

(** The digits of a run as a number. *)
Definition digits_value (s : str) : Z := fold_left (λ acc c, 10 * acc + (code c - 48)) s 0.

(** A JSON number as sign, mantissa and decimal exponent. *)
Definition decimal (raw : str) : bool * Z * Z :=
  let '(neg, s0) := match raw with "-"%char :: s => (true, s) | _ => (false, raw) end in
  let '(i, s1) := digits_run s0 in
  let '(f, s2) := match s1 with "."%char :: s => digits_run s | _ => ([], s1) end in
  let e := match s2 with
           | ("e"%char | "E"%char) :: "-"%char :: s => - digits_value (fst (digits_run s))
           | ("e"%char | "E"%char) :: "+"%char :: s => digits_value (fst (digits_run s))
           | ("e"%char | "E"%char) :: s => digits_value (fst (digits_run s))
           | _ => 0
           end in
  (neg, digits_value (i ++ f), e - Z.of_nat (length f)).

(** The midpoint below [math.MaxFloat64]: what is above it parses as the maximum, or
    as an infinity with a range error. *)
Definition max_threshold : Z := (2 ^ 54 - 3) * 2 ^ 970.

(** Whether [m * 10^e] exceeds [t]. *)
Definition above (t m e : Z) : bool :=
  if 0 <=? e then t <? m * 10 ^ e else t * 10 ^ (- e) <? m.

(** [math.Abs(ParseFloat(raw)) >= math.MaxFloat64]. *)
Definition beyond_float64 (raw : str) : bool := let '(_, m, e) := decimal raw in above max_threshold m e.

Definition isVacuousBound (member : json) : bool :=
  match member with
  | JNum raw => beyond_float64 raw
  | _ => false
  end.

(** ** Rewriting *)

Definition vacuousBoundKeys : list str :=
  [lit "minimum"; lit "maximum"; lit "exclusiveMinimum"; lit "exclusiveMaximum"].

Definition is_bound_key (k : str) : bool := bool_decide (k ∈ vacuousBoundKeys).

(** A member the rewriting drops. *)
Definition dropped (kv : str * json) : bool := is_bound_key (fst kv) && isVacuousBound (snd kv).

(** [copyWithoutVacuousBounds]: what is written, and whether something was dropped. *)
Fixpoint copyWithoutVacuousBounds (v : json) : json * bool :=
  match v with
  | JObj kvs =>
      let '(kvs, changed) :=
        foldr (λ kv '(out, changed),
                 let '(w, c) := copyWithoutVacuousBounds (snd kv) in
                 if dropped kv then (out, true) else ((fst kv, w) :: out, c || changed)) ([], false) kvs in
      (JObj kvs, changed)
  | JArr vs =>
      let '(vs, changed) :=
        foldr (λ v '(out, changed), let '(w, c) := copyWithoutVacuousBounds v in (w :: out, c || changed)) ([], false) vs in
      (JArr vs, changed)
  | _ => (v, false)
  end.

(** [bytes.Contains]. *)
Fixpoint Contains (s sub : str) : bool :=
  HasPrefix s sub || match s with [] => false | _ :: s => Contains s sub end.

(** [dropVacuousNumericBounds]; [None] is an error.  What is written is the compact
    text ([print]) of the copied value. *)
Definition dropVacuousNumericBounds (raw : str) : option (str * bool) :=
  if str_eqb raw [] || negb (Contains raw (lit "imum")) then Some (raw, false)
  else match parse_text raw with
       | None => None
       | Some v => let '(w, changed) := copyWithoutVacuousBounds v in
                   if changed then Some (print w, true) else Some (raw, false)
       end.

(** ** Specifications *)

(** The rational a JSON number denotes. *)
Definition number (raw : str) : Q :=
  let '(neg, m, e) := decimal raw in
  ((if neg : bool then - (m # 1) else m # 1) * (if 0 <=? e then 10 ^ e # 1 else 1 # Z.to_pos (10 ^ (- e))))%Q.

(** What a bound keyword asks of a number. *)
Definition bound_holds (k : str) (b x : Q) : Prop :=
  if decide (k = lit "minimum") then (b <= x)%Q
  else if decide (k = lit "maximum") then (x <= b)%Q
  else if decide (k = lit "exclusiveMinimum") then (b < x)%Q
  else if decide (k = lit "exclusiveMaximum") then (x < b)%Q
  else True.

(** The bounds an object states directly. *)
Definition admits (kvs : list (str * json)) (x : Q) : Prop :=
  ∀ k raw, (k, JNum raw) ∈ kvs → bound_holds k (number raw) x.

(** A bound on the side it can be vacuous on. *)
Definition right_side (kv : str * json) : Prop :=
  match kv with
  | (k, JNum raw) => let '(neg, _, _) := decimal raw in
                     if decide (k ∈ [lit "minimum"; lit "exclusiveMinimum"]) then neg = true else neg = false
  | _ => True
  end.

(** No vacuous bound anywhere in the schema. *)
Fixpoint no_vacuous (v : json) : Prop :=
  match v with
  | JObj kvs => foldr (λ kv P, (dropped kv = false ∧ no_vacuous (snd kv)) ∧ P) True kvs
  | JArr vs => foldr (λ v P, no_vacuous v ∧ P) True vs
  | _ => True
  end.

(** ** Lemmas *)

Lemma copy_object kvs :
  copyWithoutVacuousBounds (JObj kvs) =
  (JObj (map (λ kv, (fst kv, fst (copyWithoutVacuousBounds (snd kv)))) (filter (λ kv, dropped kv = false) kvs)),
   existsb (λ kv, dropped kv || snd (copyWithoutVacuousBounds (snd kv))) kvs).
Proof.
  simpl. set (f := λ kv : str * json, _).
  assert (Hgo : foldr f ([], false) kvs =
    (map (λ kv, (fst kv, fst (copyWithoutVacuousBounds (snd kv)))) (filter (λ kv, dropped kv = false) kvs),
     existsb (λ kv, dropped kv || snd (copyWithoutVacuousBounds (snd kv))) kvs)); [|by rewrite Hgo].
  subst f. induction kvs as [|kv kvs IH]; [done|]. simpl. rewrite IH.
  destruct (copyWithoutVacuousBounds (snd kv)) as [w c] eqn:Ew. destruct (dropped kv) eqn:Ed.
  - rewrite filter_cons_False by congruence. done.
  - rewrite filter_cons_True by done. simpl. by rewrite Ew.
Qed.

Lemma copy_array vs :
  copyWithoutVacuousBounds (JArr vs) =
  (JArr (map (λ v, fst (copyWithoutVacuousBounds v)) vs), existsb (λ v, snd (copyWithoutVacuousBounds v)) vs).
Proof.
  simpl. set (f := λ v : json, _).
  assert (Hgo : foldr f ([], false) vs =
    (map (λ v, fst (copyWithoutVacuousBounds v)) vs, existsb (λ v, snd (copyWithoutVacuousBounds v)) vs)); [|by rewrite Hgo].
  subst f. induction vs as [|v vs IH]; [done|]. simpl. rewrite IH. by destruct (copyWithoutVacuousBounds v).
Qed.

(** Nothing is reported changed exactly when there was nothing to drop, and then the
    value is the same. *)
Lemma copy_unchanged v :
  (snd (copyWithoutVacuousBounds v) = false ↔ no_vacuous v) ∧
  (no_vacuous v → fst (copyWithoutVacuousBounds v) = v).
Proof.
  induction v as [|b|raw|s|vs IH|kvs IH] using json_nested_ind; try done.
  - rewrite copy_array. simpl. induction IH as [|v vs [Hv1 Hv2] _ IHvs]; [done|]. simpl. destruct IHvs as [IH1 IH2].
    rewrite orb_false_iff, Hv1, IH1. split; [done|]. intros [Hv Hvs]. rewrite Hv2 by done. specialize (IH2 Hvs).
    injection IH2 as IH2. by rewrite IH2.
  - rewrite copy_object. simpl. induction IH as [|[k v] kvs [Hv1 Hv2] _ IHkvs]; [done|]. simpl in *.
    destruct IHkvs as [IH1 IH2]. rewrite !orb_false_iff, Hv1, IH1. split; [done|]. intros [[Hd Hv] Hkvs].
    rewrite filter_cons_True by done. simpl. rewrite Hv2 by done. specialize (IH2 Hkvs). injection IH2 as IH2. by rewrite IH2.
Qed.

(** Copying keeps what is not a container, so it makes no new bound. *)
Lemma copy_vacuous v : isVacuousBound (fst (copyWithoutVacuousBounds v)) = isVacuousBound v.
Proof. destruct v as [| | | |vs|kvs]; try done; [by rewrite copy_array | by rewrite copy_object]. Qed.

Lemma copy_clean v : no_vacuous (fst (copyWithoutVacuousBounds v)).
Proof.
  induction v as [|b|raw|s|vs IH|kvs IH] using json_nested_ind; try done.
  - rewrite copy_array. simpl. induction IH as [|v vs Hv _ IHvs]; simpl; [done|]. by split.
  - rewrite copy_object. simpl. induction IH as [|[k v] kvs Hv _ IHkvs]; simpl; [done|].
    destruct (decide (dropped (k, v) = false)) as [Hd|Hd]; [|by rewrite filter_cons_False].
    rewrite filter_cons_True by done. simpl. split; [|done]. split; [|done]. unfold dropped in *. simpl in *. by rewrite copy_vacuous.
Qed.

Lemma digits_value_nonneg s : Forall (λ c, is_digit c = true) s → 0 <= digits_value s.
Proof.
  intros Hs. unfold digits_value. assert (Hgen : ∀ acc, 0 <= acc → 0 <= fold_left (λ acc c, 10 * acc + (code c - 48)) s acc).
  { induction Hs as [|c s Hc _ IH]; intros acc Ha; simpl; [done|]. apply IH. unfold is_digit in Hc. lia. }
  by apply Hgen.
Qed.

Lemma digits_run_digits s : Forall (λ c, is_digit c = true) (fst (digits_run s)).
Proof.
  induction s as [|c s IH]; simpl; [constructor|]. destruct (is_digit c) eqn:E; [|constructor].
  destruct (digits_run s) as [d r]. by constructor.
Qed.

(** What is beyond float64 is further from zero than the threshold. *)
Lemma above_number (t m e : Z) : 0 <= t → above t m e = true →
  (inject_Z t < (m # 1) * (if 0 <=? e then 10 ^ e # 1 else 1 # Z.to_pos (10 ^ (- e))))%Q.
Proof.
  intros Ht. unfold above, Qlt, inject_Z. destruct (Z.leb_spec 0 e) as [He|He]; intros Ha%Z.ltb_lt; simpl.
  - rewrite !Z.mul_1_r. done.
  - assert (Hp : 0 < 10 ^ (- e)) by (apply Z.pow_pos_nonneg; lia).
    rewrite !Z.mul_1_r, Pos.mul_1_l, Z2Pos.id by done. done.
Qed.

Definition threshold : Q := inject_Z max_threshold.

Lemma beyond_number raw :
  beyond_float64 raw = true →
  let '(neg, _, _) := decimal raw in
  if neg : bool then (number raw < - threshold)%Q else (threshold < number raw)%Q.
Proof.
  unfold beyond_float64, number. destruct (decimal raw) as [[neg m] e]. intros Ha.
  assert (Ht : 0 <= max_threshold) by (unfold max_threshold; apply Z.mul_nonneg_nonneg; [lia | apply Z.pow_nonneg; lia]).
  pose proof (above_number max_threshold m e Ht Ha) as Hq. unfold threshold.
  set (s := (if 0 <=? e then 10 ^ e # 1 else 1 # Z.to_pos (10 ^ (- e)))%Q) in *. clearbody s.
  generalize dependent max_threshold. intros T _ _ Hq. destruct neg; [|done].
  assert (Hneg : (- (m # 1) * s == - ((m # 1) * s))%Q) by ring. rewrite Hneg. by apply Qopp_lt_compat.
Qed.

Lemma bound_key_cases k : is_bound_key k = true →
  k = lit "minimum" ∨ k = lit "maximum" ∨ k = lit "exclusiveMinimum" ∨ k = lit "exclusiveMaximum".
Proof.
  unfold is_bound_key. intros Hk%bool_decide_eq_true. unfold vacuousBoundKeys in Hk.
  rewrite !elem_of_cons, elem_of_nil in Hk. tauto.
Qed.

(** A dropped bound on its right side asks nothing of a number within the threshold. *)
Lemma dropped_holds k raw x :
  dropped (k, JNum raw) = true → right_side (k, JNum raw) → (- threshold <= x)%Q → (x <= threshold)%Q →
  bound_holds k (number raw) x.
Proof.
  unfold dropped. simpl. intros [Hk Hb]%andb_true_iff Hr Hlo Hhi. pose proof (beyond_number raw Hb) as Hn.
  unfold right_side in Hr. destruct (decimal raw) as [[neg m] e]. generalize dependent threshold. intros T Hlo Hhi Hn.
  generalize dependent (number raw). intros b Hn. unfold bound_holds.
  destruct (bound_key_cases k Hk) as [-> | [-> | [-> | ->]]]; vm_compute in Hr; subst neg; cbn.
  - apply Qlt_le_weak. by apply Qlt_le_trans with (- T)%Q.
  - apply Qlt_le_weak. by apply Qle_lt_trans with T.
  - by apply Qlt_le_trans with (- T)%Q.
  - by apply Qle_lt_trans with T.
Qed.

(** ** Properties *)

(** The rewriting touches nothing but vacuous bounds: it reports no change exactly
    for the schemas that have none, which it then returns byte for byte, and what it
    writes has none left at any depth. *)
Theorem rewrite_minimal raw v :
  parse_text raw = Some v →
  (no_vacuous v → dropVacuousNumericBounds raw = Some (raw, false)) ∧
  (¬ no_vacuous v → Contains raw (lit "imum") = true →
     dropVacuousNumericBounds raw = Some (print (fst (copyWithoutVacuousBounds v)), true)) ∧
  no_vacuous (fst (copyWithoutVacuousBounds v)) ∧
  fst (copyWithoutVacuousBounds (fst (copyWithoutVacuousBounds v))) = fst (copyWithoutVacuousBounds v).
Proof.
  intros Hp. unfold dropVacuousNumericBounds. rewrite Hp. destruct (copy_unchanged v) as [Hc _]. split_and!.
  - intros Hv. destruct (_ || _); [done|]. apply Hc in Hv. by destruct (copyWithoutVacuousBounds v) as [w []].
  - intros Hv ->. destruct (str_eqb raw []) eqn:E; [apply str_eqb_eq in E; by subst|]. simpl.
    destruct (copyWithoutVacuousBounds v) as [w []]; [done|]. by destruct Hv; apply Hc.
  - apply copy_clean.
  - apply copy_unchanged, copy_clean.
Qed.

(** The rewriting keeps what a schema accepts: when the bounds it drops stand on
    the side they are vacuous on, the object admits exactly the same numbers within
    the float64 threshold before and after. *)
Theorem rewrite_preserves_numbers kvs x :
  Forall right_side (filter (λ kv, dropped kv = true) kvs) → (- threshold <= x)%Q → (x <= threshold)%Q →
  ∃ kvs', fst (copyWithoutVacuousBounds (JObj kvs)) = JObj kvs' ∧ (admits kvs' x ↔ admits kvs x).
Proof.
  intros Hr Hlo Hhi. rewrite copy_object. eexists. split; [done|]. unfold admits. split.
  - intros Ha k raw Hin. destruct (dropped (k, JNum raw)) eqn:Ed.
    + apply (dropped_holds k raw x Ed); [|done|done]. rewrite Forall_forall in Hr. apply Hr.
      by apply list_elem_of_filter.
    + apply Ha. apply list_elem_of_fmap. exists (k, JNum raw). split; [done|]. by apply list_elem_of_filter.
  - intros Ha k raw Hin. apply list_elem_of_fmap in Hin as ([k' v] & Heq & Hin). simpl in Heq.
    apply list_elem_of_filter in Hin as [_ Hin]. injection Heq as -> Hv.
    destruct v as [| |r| |vs|fs]; try done; [injection Hv as ->; by apply Ha|by rewrite copy_array in Hv|by rewrite copy_object in Hv].
Qed.

Definition wrong_bound : list (str * json) := [(lit "minimum", JNum (lit "2e308"))].

(** A bound on the other side is dropped as well, although it admits nothing: the
    rewritten schema accepts numbers the original refuses. *)
Lemma wrong_side_dropped :
  ∃ kvs', fst (copyWithoutVacuousBounds (JObj wrong_bound)) = JObj kvs' ∧ admits kvs' 0 ∧ ¬ admits wrong_bound 0.
Proof.
  assert (Hd : dropped (lit "minimum", JNum (lit "2e308")) = true) by (by vm_compute).
  assert (Hf : filter (λ kv, dropped kv = false) wrong_bound = []).
  { unfold wrong_bound. rewrite filter_cons_False by (rewrite Hd; done). apply filter_nil. }
  rewrite copy_object, Hf. exists []. split; [exact eq_refl|]. split.
  - intros k raw Hin. apply elem_of_nil in Hin as [].
  - intros Ha. assert (Hm : (number (lit "2e308") <= 0)%Q) by (apply (Ha (lit "minimum") (lit "2e308")); by left).
    apply (Qle_not_lt _ _ Hm). apply Z.ltb_lt. vm_compute. exact eq_refl.
Qed.

(** ** Witnesses *)

Definition demo_schema : str :=
  map (λ c, if byte_eqb c "'"%char then quote_char else c)
    (lit "{'maximum':1.7976931348623157e308,'minimum':-1e999,'items':[{'minimum':3}]}").

Lemma rewrite_minimal_witness :
  ∃ w, dropVacuousNumericBounds demo_schema = Some (w, true) ∧
    w = map (λ c, if byte_eqb c "'"%char then quote_char else c) (lit "{'items':[{'minimum':3}]}").
Proof.
  destruct (parse_text demo_schema) as [v|] eqn:Ev; [|by vm_compute in Ev].
  destruct (rewrite_minimal demo_schema v Ev) as (_ & H & _). vm_compute in Ev. injection Ev as <-.
  eexists. split; [apply H; [|by vm_compute]|by vm_compute]. intros Hn. apply copy_unchanged in Hn. by vm_compute in Hn.
Defined.

Lemma rewrite_preserves_numbers_witness :
  ∃ kvs', fst (copyWithoutVacuousBounds (JObj [(lit "maximum", JNum (lit "1e309")); (lit "minimum", JNum (lit "3"))])) =
      JObj kvs' ∧
    (admits kvs' 5 ↔ admits [(lit "maximum", JNum (lit "1e309")); (lit "minimum", JNum (lit "3"))] 5).
Proof.
  apply (rewrite_preserves_numbers [(lit "maximum", JNum (lit "1e309")); (lit "minimum", JNum (lit "3"))] 5).
  - repeat (first [rewrite filter_cons_True by (by vm_compute) | rewrite filter_cons_False by (by vm_compute)]).
    rewrite filter_nil. constructor; [by vm_compute | constructor].
  - by vm_compute.
  - by vm_compute.
Defined.
