(* ===== verification/ChatRender.v ===== *)
(** * Rendering a request for a Chat upstream ([internal/transcode/convert_helpers.go],
    [convert_request.go])

    [RenderChatRequest] and what it calls, as conversions from the canonical request
    to the wire request; only its serialisation is left out.  A Go type named in an
    error text is not rendered. *)

From Stdlib Require Import ZArith Lia Bool List Ascii String.
From stdpp Require Import strings pretty gmap list.
From S2P Require Import Prelude GoStd GoStr GoText GoJson Losses Ir SchemaBounds.

Open Scope Z_scope.
Open Scope string_scope.
Open Scope conv_scope.

(** ** The wire request *)

Inductive ChatMessageRole :=
| ChatMessageRoleSystem | ChatMessageRoleDeveloper | ChatMessageRoleUser | ChatMessageRoleAssistant | ChatMessageRoleTool.

#[export] Instance ChatMessageRole_eq_dec : EqDecision ChatMessageRole.
Proof. solve_decision. Defined.

Inductive ChatContentBlock :=
| TextBlock (Text : str)
| ImageBlock (URL Detail : str).

Inductive ChatMessageContent :=
| ContentStr (s : str)
| ContentBlocks (blocks : list ChatContentBlock).

(** The "type" is always "function". *)
Record ChatMessageToolCall := { mc_ID : str; mc_Name : str; mc_Arguments : str }.

Record ChatMessage := {
  m_Role : ChatMessageRole;
  m_Content : option ChatMessageContent;
  m_ToolCalls : list ChatMessageToolCall;
  m_Refusal : option str;
  m_ToolCallID : option str;
}.

Definition plain_message (role : ChatMessageRole) (blocks : list ChatContentBlock) : ChatMessage :=
  {| m_Role := role; m_Content := Some (ContentBlocks blocks); m_ToolCalls := []; m_Refusal := None; m_ToolCallID := None |}.

Definition tool_message (callID : str) (content : ChatMessageContent) : ChatMessage :=
  {| m_Role := ChatMessageRoleTool; m_Content := Some content; m_ToolCalls := []; m_Refusal := None; m_ToolCallID := Some callID |}.

Record ChatTool := { ct_Name : str; ct_Description : str; ct_Parameters : str; ct_Strict : option bool }.

Inductive ChatToolChoice :=
| ChoiceMode (mode : str)
| ChoiceFunction (name : str).

Record ChatRequest := {
  Model : str;
  Messages : list ChatMessage;
  c_Temperature : option str;
  c_TopP : option str;
  MaxCompletionTokens : option Z;
  c_Stream : bool;
  IncludeUsage : bool;
  c_Metadata : gmap str str;
  User : option str;
  Store : option bool;
  c_Tools : list ChatTool;
  c_ToolChoice : option ChatToolChoice;
  ParallelToolCalls : option bool;
  Stop : list str;
  ResponseFormat : option CanonicalStructuredOutput;
  ReasoningEffort : option str;
}.

Record ChatCapabilities := {
  cap_Metadata : bool;
  cap_Float64Bounds : bool;
  cap_DeveloperRole : bool;
  cap_ImageInput : bool;
  cap_StructuredOutputs : bool;
  cap_ParallelToolCalls : bool;
  cap_StopSequences : bool;
  cap_ReasoningEffort : bool;
  cap_SystemAnywhere : bool;
  cap_ToolResultImages : bool;
  cap_MultiAgentPriming : bool;
}.

(** What rendering reads of the exchange and of the client's Responses request. *)
Record ResponsesRequestEcho := {
  e_User : option str;
  e_Store : option bool;
  e_PreviousResponseID : option str;
  e_TopLogprobs : option Z;
  e_ServiceTier : option str;
  e_Truncation : option str;
  e_ReasoningEffort : option str;
  e_ReasoningSummary : option str;
}.

Record ExchangeContext := {
  UpstreamModel : str;
  x_LossPolicy : LossPolicy;
  OriginalResponsesRequest : option ResponsesRequestEcho;
  RequestDepth : Z;
  ResolvedReasoningTier : str;
  x_ToolNames : option ToolNames;
}.

(** ** Data URLs and image details *)

Definition image_types : list str := [lit "image/jpeg"; lit "image/png"; lit "image/gif"; lit "image/webp"].

Definition data_url (mediaType base64 : str) : str := (lit "data:" ++ mediaType ++ lit ";base64," ++ base64)%list.

Definition encodeDataURL (mediaType base64 : str) : result terr str :=
  if is_empty base64 then Err (Errorf "empty data") else Ok (data_url mediaType base64).

Definition imageDataURL (mediaType base64 : str) : result terr str :=
  if negb (bool_decide (mediaType ∈ image_types)) then Err (Errorf "unsupported image media type")
  else if is_empty base64 then Err (Errorf "empty image data")
  else Ok (data_url mediaType base64).

Definition image_url (mediaType url base64 : str) : result terr str :=
  if is_empty url then imageDataURL mediaType base64 else Ok url.

Definition chatImageDetail (detail : str) (path : string) (policy : LossPolicy) : Conv str :=
  if is_empty detail then
    Note "image_detail_invented" path
      "the source carried no image detail; the documented 'auto' default was chosen (the source dialect may have no detail field, or the client omitted the optional one)" ;;~
    ret (lit "auto")
  else if bool_decide (detail ∈ [lit "auto"; lit "low"; lit "high"]) then ret detail
  else if str_eqb detail (lit "original") then
    Lose policy "image_detail_original" path
      "the Responses-only image detail 'original' has no Chat equivalent; it was mapped to 'high' (the closest truthful semantic, but a downgrade the operator can refuse)" ;;~
    ret (lit "high")
  else fail (UnsupportedFeatureError "chat" path ("image detail " ++ string_of_list_ascii detail)).

(** ** System and developer turns *)

Definition text_turn_part (policy : LossPolicy) (role : ChatMessageRole) (part : CanonicalPart) : Conv (list ChatContentBlock) :=
  match part with
  | CanonicalText text => ret [TextBlock text]
  | CanonicalImage _ _ _ _ | CanonicalDocument _ _ _ _ _ =>
      Lose policy "system_non_text_content" "messages[].content"
        "non-text system content cannot be carried by a chat system message" ;;~ ret []
  | _ => fail (UnsupportedFeatureError "chat" "messages[].content" "non-text part in message")
  end.

Definition canonicalTextTurnToChatMessage (turn : CanonicalTurn) (role : ChatMessageRole) (policy : LossPolicy)
    : Conv ChatMessage :=
  blocks <~ collect (λ _, text_turn_part policy role) 0 (t_Parts turn) ;;
  let dropped := (length (t_Parts turn) - length blocks)%nat in
  match blocks with
  | [] => if (0 <? dropped)%nat then ret (plain_message role [TextBlock []])
          else fail (Errorf "empty system or developer turn")
  | _ => ret (plain_message role blocks)
  end.

(** The text blocks of a message, in order. *)
Definition block_texts (m : ChatMessage) : list str :=
  match m_Content m with
  | Some (ContentBlocks blocks) => omap (λ b, match b with TextBlock t => Some t | ImageBlock _ _ => None end) blocks
  | _ => []
  end.

Definition newlines2 : str := map ascii_of_nat [10; 10]%nat.

Definition joinChatSystemMessages (leading midDialog : list ChatMessage) : ChatMessage :=
  plain_message ChatMessageRoleSystem
    [TextBlock (intersperse newlines2 (concat (map block_texts (leading ++ midDialog))))].

(** ** User turns *)

Definition user_part (capabilities : ChatCapabilities) (policy : LossPolicy) (i : nat) (part : CanonicalPart)
    : Conv (list ChatContentBlock) :=
  match part with
  | CanonicalText text => ret [TextBlock text]
  | CanonicalImage mediaType url base64 detail =>
      if negb (cap_ImageInput capabilities) then
        Lose policy "image_input" "messages[].content"
          "image input is not supported by the configured chat provider" ;;~ ret []
      else
        url <~ at_index "content part" i (lift (image_url mediaType url base64)) ;;
        detail <~ chatImageDetail detail "messages[].content" policy ;;
        ret [ImageBlock url detail]
  | CanonicalDocument _ _ _ _ _ =>
      Lose policy "document_input" "messages[].content"
        "document input is not supported by the configured chat provider" ;;~ ret []
  | CanonicalRefusal _ => fail (UnsupportedFeatureError "chat" "messages[].content" "refusal input content")
  | _ => fail (ErrAt "content part" i (Errorf "unknown canonical part"))
  end.

Definition canonicalContentPartsToChatUserMessage (parts : list CanonicalPart) (capabilities : ChatCapabilities)
    (policy : LossPolicy) : Conv ChatMessage :=
  blocks <~ collect (user_part capabilities policy) 0 parts ;;
  match blocks with
  | [] => fail (Errorf "user turn has no portable content")
  | _ => ret (plain_message ChatMessageRoleUser blocks)
  end.

(** ** Tool results *)

Definition is_text (p : CanonicalPart) : bool := match p with CanonicalText _ => true | _ => false end.

Definition allTextParts (parts : list CanonicalPart) : bool := forallb is_text parts.

Definition part_text (p : CanonicalPart) : str := match p with CanonicalText t => t | _ => [] end.

Definition newline : str := [ascii_of_nat 10].

(** One entry of the envelope; empty fields are omitted. *)
Definition envelope_field (k : string) (v : str) : list (str * json) := if is_empty v then [] else [(lit k, JStr v)].

Definition envelope_entry (typ : string) (text mediaType url : str) : json :=
  JObj ((lit "type", JStr (lit typ)) :: envelope_field "text" text ++ envelope_field "media_type" mediaType ++ envelope_field "url" url).

Definition envelope_part (part : CanonicalPart) : result terr json :=
  match part with
  | CanonicalText text => Ok (envelope_entry "text" text [] [])
  | CanonicalImage mediaType url base64 _ =>
      u <-? image_url mediaType url base64;; Ok (envelope_entry "image" [] mediaType u)
  | CanonicalDocument mediaType url base64 _ _ =>
      u <-? (if is_empty url then encodeDataURL mediaType base64 else Ok url);; Ok (envelope_entry "document" [] mediaType u)
  | _ => Err (Errorf "cannot encode canonical part in the tool_result_json_envelope")
  end.

Fixpoint envelope_parts (i : nat) (parts : list CanonicalPart) : result terr (list json) :=
  match parts with
  | [] => Ok []
  | p :: parts => match envelope_part p with
                  | Ok j => js <-? envelope_parts (S i) parts;; Ok (j :: js)
                  | Err e => Err (ErrAt "tool result part" i e)
                  end
  end.

Definition encodeToolResultEnvelope (parts : list CanonicalPart) : result terr str :=
  js <-? envelope_parts 0 parts;;
  Ok (print (JObj [(lit "transcode_version", JNum (lit "1"));
                   (lit "content", match js with [] => JNull | _ => JArr js end)])).

(** The parts as multipart blocks; [None] when one of them declines the form. *)
Fixpoint multipart_blocks (policy : LossPolicy) (parts : list CanonicalPart) : Conv (option (list ChatContentBlock)) :=
  match parts with
  | [] => ret (Some [])
  | p :: parts =>
      match p with
      | CanonicalText text =>
          rest <~ multipart_blocks policy parts ;; ret (option_map (cons (TextBlock text)) rest)
      | CanonicalImage mediaType url base64 detail =>
          match image_url mediaType url base64 with
          | Err _ => ret None
          | Ok url =>
              detail <~ chatImageDetail detail "messages[].tool_result.content" policy ;;
              rest <~ multipart_blocks policy parts ;; ret (option_map (cons (ImageBlock url detail)) rest)
          end
      | _ => ret None
      end
  end.

(** The scratch report is committed by appending. *)
Definition commit_scratch (scratch r : ConversionReport) : ConversionReport :=
  {| Losses := (Losses r ++ Losses scratch)%list; Dropped := Dropped r + Dropped scratch; overflowNoted := overflowNoted r |}.

Definition renderChatToolResultMultipart (callID : str) (parts : list CanonicalPart) (capabilities : ChatCapabilities)
    (policy : LossPolicy) : Conv (option ChatMessage) :=
  λ r,
    if negb (cap_ImageInput capabilities) then (Ok None, r)
    else match multipart_blocks policy parts fresh_report with
         | (Err e, _) => (Err e, r)
         | (Ok None, _) | (Ok (Some []), _) => (Ok None, r)
         | (Ok (Some blocks), scratch) => (Ok (Some (tool_message callID (ContentBlocks blocks))), commit_scratch scratch r)
         end.

(** A loss whose refusal is reported as unrepresentable content. *)
Definition Lose_or_unrepresentable (policy : LossPolicy) (feature : Feature) (path detail : string) (e : terr) : Conv unit :=
  λ r, match Lose policy feature path detail r with
       | (Ok u, r) => (Ok u, r)
       | (Err _, r) => (Err e, r)
       end.

Definition unrepresentable_result : terr :=
  UnrepresentableError "chat" "messages[].tool_result.content"
    "the multimodal tool-result content cannot be represented as a Chat tool message".

Definition error_prefix : CanonicalPart := CanonicalText (lit "[tool_result_error]").

Definition renderChatToolResult (callID : str) (isError : bool) (resultParts : list CanonicalPart)
    (capabilities : ChatCapabilities) (policy : LossPolicy) : Conv ChatMessage :=
  when isError
    (Lose policy "tool_result_error_status" "messages[].tool_result.is_error"
       "the tool result error status cannot be reproduced in the chat dialect; the permissive encoding is the visible error_status_prefix text") ;;~
  let parts := if isError then error_prefix :: resultParts else resultParts in
  if allTextParts parts then
    when (1 <? length resultParts)%nat
      (Note "tool_result_text_join" "messages[].tool_result.content"
         "multi-part all-text tool result joined into one '\n'-separated string (the chat tool message cannot carry part boundaries; every content byte is preserved)") ;;~
    ret (tool_message callID (ContentStr (intersperse newline (map part_text parts))))
  else
    multipart <~ (if cap_ToolResultImages capabilities
                  then renderChatToolResultMultipart callID parts capabilities policy else ret None) ;;
    match multipart with
    | Some message => ret message
    | None =>
        Lose_or_unrepresentable policy "tool_result_multimodal_content" "messages[].tool_result.content"
          "the multimodal tool-result content cannot be carried exactly by a Chat tool message" unrepresentable_result ;;~
        text <~ lift (encodeToolResultEnvelope parts) ;;
        Lose_or_unrepresentable policy "tool_result_json_envelope" "messages[].tool_result.content"
          "the multimodal tool-result content is encoded as the deterministic transcode JSON text envelope (tool_result_json_envelope, transcode_version 1)"
          unrepresentable_result ;;~
        ret (tool_message callID (ContentStr text))
    end.

(** The pending content before a result, or at the end, is one user message. *)
Definition flush_content (pending : list CanonicalPart) (capabilities : ChatCapabilities) (policy : LossPolicy)
    : Conv (list ChatMessage) :=
  match pending with
  | [] => ret []
  | _ => m <~ canonicalContentPartsToChatUserMessage pending capabilities policy ;; ret [m]
  end.

Fixpoint user_messages (capabilities : ChatCapabilities) (policy : LossPolicy) (pending parts : list CanonicalPart)
    : Conv (list ChatMessage) :=
  match parts with
  | [] => flush_content pending capabilities policy
  | CanonicalFunctionResult callID isError rparts :: parts =>
      content <~ flush_content pending capabilities policy ;;
      tool <~ renderChatToolResult callID isError rparts capabilities policy ;;
      rest <~ user_messages capabilities policy [] parts ;;
      ret (content ++ tool :: rest)%list
  | p :: parts => user_messages capabilities policy (pending ++ [p]) parts
  end.

Definition canonicalUserTurnToChatMessages (turn : CanonicalTurn) (capabilities : ChatCapabilities) (policy : LossPolicy)
    : Conv (list ChatMessage) := user_messages capabilities policy [] (t_Parts turn).

(** ** Assistant turns *)

Record assistant := { a_blocks : list ChatContentBlock; a_calls : list ChatMessageToolCall; a_refusal : option str }.

Definition call_arguments (arguments : str) : str := if is_empty arguments then lit "{}" else arguments.

Fixpoint assistant_parts (i : nat) (parts : list CanonicalPart) (a : assistant) : result terr assistant :=
  match parts with
  | [] => Ok a
  | CanonicalText text :: parts =>
      assistant_parts (S i) parts {| a_blocks := a_blocks a ++ [TextBlock text]; a_calls := a_calls a; a_refusal := a_refusal a |}
  | CanonicalRefusal text :: parts =>
      assistant_parts (S i) parts {| a_blocks := a_blocks a; a_calls := a_calls a; a_refusal := Some text |}
  | CanonicalFunctionCall _ callID name arguments :: parts =>
      assistant_parts (S i) parts
        {| a_blocks := a_blocks a;
           a_calls := a_calls a ++ [{| mc_ID := callID; mc_Name := name; mc_Arguments := call_arguments arguments |}];
           a_refusal := a_refusal a |}
  | _ :: _ => Err (ErrAt "assistant message part" i (Errorf "unknown canonical part"))
  end.

Definition canonicalAssistantTurnToChatMessage (turn : CanonicalTurn) : result terr ChatMessage :=
  a <-? assistant_parts 0 (t_Parts turn) {| a_blocks := []; a_calls := []; a_refusal := None |};;
  Ok {| m_Role := ChatMessageRoleAssistant;
        m_Content := match a_blocks a with [] => None | blocks => Some (ContentBlocks blocks) end;
        m_ToolCalls := a_calls a; m_Refusal := a_refusal a; m_ToolCallID := None |}.

(** ** Tool choice and reasoning effort *)

Definition choice_modes : list str := [lit "none"; lit "auto"; lit "required"].

Definition canonicalToolChoiceToChat (choice : CanonicalToolChoice) : result terr ChatToolChoice :=
  if bool_decide (tc_Mode choice ∈ choice_modes) then Ok (ChoiceMode (tc_Mode choice))
  else if str_eqb (tc_Mode choice) (lit "named") then
    if is_empty (tc_Name choice) then Err (Errorf "named tool choice has no name") else Ok (ChoiceFunction (tc_Name choice))
  else Err (Errorf "unknown tool choice mode").

Definition thinkingBudgetToEffort (budget : Z) : string :=
  if (budget <? 1024)%Z then "minimal"
  else if (budget <? 4096)%Z then "low"
  else if (budget <? 16384)%Z then "medium"
  else "high".

(** ** Multi-agent priming *)

Definition newline_string : string := string_of_list_ascii newline.

Definition MultiAgentPrimingReminderText : str :=
  lit ("### Sub-Agent Orchestration Protocol Reminder" ++ newline_string ++
       "When delegating work to sub-agents:" ++ newline_string ++
       "1. Call spawn_agent to launch a sub-agent with a concrete, bounded task in message or items (model and reasoning_effort may be specified if required)." ++ newline_string ++
       "2. Use wait_agent with the returned agent id in targets to wait for completion and receive final status/output." ++ newline_string ++
       "3. Call send_input with target and message or items to communicate with an active agent (set interrupt: true to redirect immediately)." ++ newline_string ++
       "4. Call close_agent with target once an agent is completed or no longer needed." ++ newline_string ++
       "5. If an agent was closed and needs further work, call resume_agent with id to reopen it.").

Definition multiAgentToolNames : list str :=
  [lit "spawn_agent"; lit "wait_agent"; lit "send_input"; lit "close_agent"; lit "resume_agent"].

Definition multiAgentNamespace : str := lit "multi_agent_v1".

Definition multi_agent_ref (ref : ToolNameRef) : Prop :=
  Namespace ref = multiAgentNamespace ∧ Name ref ∈ multiAgentToolNames.

#[export] Instance multi_agent_ref_dec ref : Decision (multi_agent_ref ref).
Proof. unfold multi_agent_ref. apply _. Defined.

Definition declaresMultiAgentTools (tools : list CanonicalTool) (context : ExchangeContext) : bool :=
  bool_decide (Exists (λ t, tool_Name t ∈ multiAgentToolNames) tools) ||
  match x_ToolNames context with
  | None => false
  | Some names => bool_decide (Exists (λ kv, multi_agent_ref (fst kv)) (map_to_list (RefToFlat names)))
  end.

(** The reminder at the end of a message. *)
Definition primed_content (content : option ChatMessageContent) : ChatMessageContent :=
  match content with
  | Some (ContentStr s) => ContentStr (s ++ newlines2 ++ MultiAgentPrimingReminderText)%list
  | Some (ContentBlocks blocks) => ContentBlocks (blocks ++ [TextBlock MultiAgentPrimingReminderText])%list
  | None => ContentBlocks [TextBlock MultiAgentPrimingReminderText]
  end.

Definition prime_message (m : ChatMessage) : ChatMessage :=
  {| m_Role := m_Role m; m_Content := Some (primed_content (m_Content m)); m_ToolCalls := m_ToolCalls m;
     m_Refusal := m_Refusal m; m_ToolCallID := m_ToolCallID m |}.

Definition applyMultiAgentPriming (messages : list ChatMessage) : Conv (list ChatMessage) :=
  let prepend :=
    Note "multi_agent_priming" "messages[0]" "multi-agent protocol reminder prepended as leading system turn" ;;~
    ret (plain_message ChatMessageRoleSystem [TextBlock MultiAgentPrimingReminderText] :: messages) in
  match messages with
  | m :: rest =>
      match m_Role m with
      | ChatMessageRoleSystem =>
          Note "multi_agent_priming" "messages[0].content" "multi-agent protocol reminder appended to leading system turn" ;;~
          ret (prime_message m :: rest)
      | ChatMessageRoleDeveloper =>
          Note "multi_agent_priming" "messages[0].content" "multi-agent protocol reminder appended to leading developer turn" ;;~
          ret (prime_message m :: rest)
      | _ => prepend
      end
  | [] => prepend
  end.

(** ** Messages *)

(** A rendered message, whether it is of the system channel, and whether its turn is
    retained history. *)
Record placed := { p_message : ChatMessage; p_system : bool; p_retained : bool }.

Definition render_turn (capabilities : ChatCapabilities) (policy : LossPolicy) (retained : bool) (turn : CanonicalTurn)
    : Conv (list placed) :=
  let place channel m := {| p_message := m; p_system := channel; p_retained := retained |} in
  match t_Role turn with
  | CanonicalSystem =>
      m <~ canonicalTextTurnToChatMessage turn ChatMessageRoleSystem policy ;; ret [place true m]
  | CanonicalDeveloper =>
      let role := if cap_DeveloperRole capabilities then ChatMessageRoleDeveloper else ChatMessageRoleSystem in
      m <~ canonicalTextTurnToChatMessage turn role policy ;; ret [place (negb (cap_DeveloperRole capabilities)) m]
  | CanonicalUser =>
      ms <~ canonicalUserTurnToChatMessages turn capabilities policy ;; ret (map (place false) ms)
  | CanonicalAssistant =>
      m <~ lift (canonicalAssistantTurnToChatMessage turn) ;; ret [place false m]
  end.

Definition render_turns (capabilities : ChatCapabilities) (policy : LossPolicy) (retained : nat) (turns : list CanonicalTurn)
    : Conv (list placed) :=
  collect (λ i, render_turn capabilities policy (i <? retained)%nat) 0 turns.

Record channels := {
  leading : list ChatMessage;
  midDialog : list ChatMessage;
  dialog : list ChatMessage;
  sawDialog : bool;
  midDialogAllRetained : bool;
}.

Definition split_step (c : channels) (p : placed) : channels :=
  if negb (p_system p) then
    {| leading := leading c; midDialog := midDialog c; dialog := dialog c ++ [p_message p];
       sawDialog := sawDialog c || negb (p_retained p); midDialogAllRetained := midDialogAllRetained c |}
  else if sawDialog c then
    {| leading := leading c; midDialog := midDialog c ++ [p_message p]; dialog := dialog c;
       sawDialog := sawDialog c; midDialogAllRetained := midDialogAllRetained c && p_retained p |}
  else
    {| leading := leading c ++ [p_message p]; midDialog := midDialog c; dialog := dialog c;
       sawDialog := sawDialog c; midDialogAllRetained := midDialogAllRetained c |}.

Definition split_channels (rendered : list placed) : channels :=
  fold_left split_step rendered
    {| leading := []; midDialog := []; dialog := []; sawDialog := false; midDialogAllRetained := true |}.

(** The system message of the request, if it has one. *)
Definition consolidate (policy : LossPolicy) (c : channels) : Conv (list ChatMessage) :=
  match midDialog c, leading c with
  | _ :: _, _ =>
      (if midDialogAllRetained c
       then Note "mid_conversation_system" "messages[]"
              "retained conversation history carried system turns after dialog turns; they consolidate into the leading system message (the position was already lost when the chain was first rendered, so it is not re-charged to this request)"
       else Lose policy "mid_conversation_system" "messages[]"
              "mid-conversation system turns cannot keep their position in a chat request; system-channel turns consolidate into one leading system message (position/timing lost, content and authority preserved)") ;;~
      ret [joinChatSystemMessages (leading c) (midDialog c)]
  | [], _ :: _ :: _ =>
      Note "mid_conversation_system" "messages[]"
        "multiple leading system turns consolidate into one leading system message" ;;~
      ret [joinChatSystemMessages (leading c) []]
  | [], [m] => ret [m]
  | [], [] => ret []
  end.

Definition place_messages (capabilities : ChatCapabilities) (policy : LossPolicy) (rendered : list placed)
    : Conv (list ChatMessage) :=
  if cap_SystemAnywhere capabilities then ret (map p_message rendered)
  else
    let c := split_channels rendered in
    system <~ consolidate policy c ;; ret (system ++ dialog c)%list.

Definition degenerate_message (m : ChatMessage) : bool :=
  match m_Content m with
  | Some (ContentBlocks [TextBlock text]) => is_empty text
  | _ => false
  end.

Definition isDegenerate (messages : list ChatMessage) : bool := forallb degenerate_message messages.

Definition representable (messages : list ChatMessage) : Conv (list ChatMessage) :=
  if isDegenerate messages then fail (Errorf "the source request has no Chat-representable messages") else ret messages.

(** ** The request *)

Definition is_some {A} (o : option A) : bool := match o with Some _ => true | None => false end.

(** What a capability gates: [Some v] when the target takes it, else the loss. *)
Definition gated {A} (have : bool) (policy : LossPolicy) (feature : Feature) (path detail : string) (v : option A)
    : Conv (option A) :=
  match v with
  | None => ret None
  | Some v => if have then ret (Some v) else Lose policy feature path detail ;;~ ret None
  end.

Definition echo_losses (policy : LossPolicy) (depth : Z) (echo : ResponsesRequestEcho) : Conv unit :=
  when (is_some (e_PreviousResponseID echo) && (depth =? 0)%Z)
    (Lose policy "previous_response_id" "request.previous_response_id"
       "the Responses previous_response_id field is not portable to a chat upstream") ;;~
  when (is_some (e_TopLogprobs echo))
    (Lose policy "request_top_logprobs" "request.top_logprobs"
       "the Responses top_logprobs field is not portable to a chat upstream") ;;~
  when (is_some (e_ServiceTier echo))
    (Lose policy "request_service_tier" "request.service_tier"
       "the Responses service_tier field is not portable to a chat upstream") ;;~
  when (is_some (e_Truncation echo))
    (Lose policy "request_truncation" "request.truncation"
       "the Responses truncation field is not portable to a chat upstream").

Definition developer_losses (capabilities : ChatCapabilities) (policy : LossPolicy) (turns : list CanonicalTurn) : Conv (list unit) :=
  collect (λ _ turn,
             when (bool_decide (t_Role turn = CanonicalDeveloper) && negb (cap_DeveloperRole capabilities))
               (Lose policy "developer_role" "messages[].role"
                  "developer role is not supported by the configured chat provider") ;;~ ret []) 0 turns.

Fixpoint render_tools (float64Bounds boundsNoted : bool) (tools : list CanonicalTool) : Conv (list ChatTool) :=
  match tools with
  | [] => ret []
  | tool :: tools =>
      rewritten <~ (if float64Bounds then ret (tool_JSONSchema tool, false)
                    else match dropVacuousNumericBounds (tool_JSONSchema tool) with
                         | Some rw => ret rw
                         | None => fail (Errorf "tool schema")
                         end) ;;
      let '(parameters, changed) := rewritten in
      when (changed && negb boundsNoted)
        (Note "vacuous_schema_bounds" "tools[].function.parameters"
           "numeric bounds at ±float64 max (which admit every finite number) are removed from tool schemas") ;;~
      rest <~ render_tools float64Bounds (boundsNoted || changed) tools ;;
      ret ({| ct_Name := tool_Name tool; ct_Description := tool_Description tool; ct_Parameters := parameters;
              ct_Strict := tool_Strict tool |} :: rest)
  end.

Definition render_choice (choice : option CanonicalToolChoice) : Conv (option ChatToolChoice) :=
  match choice with
  | None => ret None
  | Some choice => c <~ lift (canonicalToolChoiceToChat choice) ;; ret (Some c)
  end.

Definition quoted_effort (effort : string) : string :=
  string_of_list_ascii (quote_char :: lit effort ++ [quote_char])%list.

(** The effort after the client's thinking control, given the one of the echo. *)
Definition render_thinking (reasoningEffort : bool) (policy : LossPolicy) (thinking : option CanonicalThinking)
    (effort : option str) : Conv (option str) :=
  match thinking with
  | None => ret effort
  | Some t =>
      if str_eqb (th_Type t) (lit "enabled") then
        match th_BudgetTokens t with
        | None =>
            Note "request_reasoning" "thinking"
              "thinking enabled without a budget maps to the chat provider's default reasoning effort" ;;~ ret effort
        | Some budget =>
            if negb reasoningEffort then
              Lose policy "request_reasoning" "thinking"
                "the thinking budget cannot be reproduced by the configured chat provider" ;;~ ret effort
            else
              let mapped := thinkingBudgetToEffort budget in
              Note "request_reasoning" "thinking"
                ("Anthropic thinking budget " ++ pretty budget ++ " mapped to chat reasoning_effort " ++ quoted_effort mapped) ;;~
              ret (Some (lit mapped))
        end
      else if str_eqb (th_Type t) (lit "adaptive") then
        Note "request_reasoning" "thinking"
          "adaptive thinking maps to the chat provider's default reasoning effort" ;;~ ret effort
      else if str_eqb (th_Type t) (lit "disabled") then
        Note "request_reasoning" "thinking"
          "thinking disabled maps to the absence of chat reasoning_effort" ;;~ ret effort
      else ret effort
  end.

(** The tier of the profile fills the gap when the client expressed no intent. *)
Definition resolved_effort (request : CanonicalRequest) (context : ExchangeContext) (reasoningEffort : bool)
    (effort : option str) : option str :=
  if negb (is_empty (ResolvedReasoningTier context)) && negb (is_some (Thinking request)) && reasoningEffort && negb (is_some effort)
  then Some (ResolvedReasoningTier context) else effort.

Definition prime (capabilities : ChatCapabilities) (request : CanonicalRequest) (context : ExchangeContext)
    (messages : list ChatMessage) : Conv (list ChatMessage) :=
  if cap_MultiAgentPriming capabilities && declaresMultiAgentTools (Tools request) context
  then applyMultiAgentPriming messages else ret messages.

Definition render_messages (request : CanonicalRequest) (context : ExchangeContext) (capabilities : ChatCapabilities)
    : Conv (list ChatMessage) :=
  let policy := x_LossPolicy context in
  rendered <~ render_turns capabilities policy (RetainedTurns request) (Turns request) ;;
  messages <~ place_messages capabilities policy rendered ;;
  messages <~ representable messages ;;
  prime capabilities request context messages.

Definition RenderChatRequest (request : CanonicalRequest) (context : ExchangeContext) (capabilities : ChatCapabilities)
    : Conv ChatRequest :=
  let policy := x_LossPolicy context in
  let echo := OriginalResponsesRequest context in
  lift (ValidateCanonicalRequest request) ;;~
  RequirePortableArtifacts request UpstreamChatCompletions policy ;;~
  metadata <~ gated (cap_Metadata capabilities) policy "metadata" "metadata"
                "request metadata is not forwarded to the configured chat provider"
                (if bool_decide (Metadata request = ∅) then None else Some (Metadata request)) ;;
  match echo with Some echo => echo_losses policy (RequestDepth context) echo | None => ret tt end ;;~
  developer_losses capabilities policy (Turns request) ;;~
  messages <~ render_messages request context capabilities ;;
  tools <~ render_tools (cap_Float64Bounds capabilities) false (Tools request) ;;
  choice <~ render_choice (ToolChoice request) ;;
  parallel <~ gated (cap_ParallelToolCalls capabilities) policy "parallel_tool_calls" "parallel_tool_calls"
                "parallel tool calls are not supported by the configured chat provider" (ParallelTools request) ;;
  stop <~ gated (cap_StopSequences capabilities) policy "stop_sequences" "stop_sequences"
            "stop sequences are not supported by the configured chat provider"
            (match StopSequences request with [] => None | stop => Some stop end) ;;
  format <~ gated (cap_StructuredOutputs capabilities) policy "structured_output" "text.format"
              "structured output is not supported by the configured chat provider" (StructuredOutput request) ;;
  effort <~ gated (cap_ReasoningEffort capabilities) policy "request_reasoning" "reasoning.effort"
              "reasoning effort is not supported by the configured chat provider" (echo ≫= e_ReasoningEffort) ;;
  when (is_some (echo ≫= e_ReasoningSummary))
    (Lose policy "reasoning_summary" "reasoning.summary"
       "the reasoning summary style cannot be reproduced in a chat request") ;;~
  effort <~ render_thinking (cap_ReasoningEffort capabilities) policy (Thinking request) effort ;;
  ret {| Model := if is_empty (UpstreamModel context) then ClientModel request else UpstreamModel context;
         Messages := messages;
         c_Temperature := Temperature request;
         c_TopP := TopP request;
         MaxCompletionTokens := MaxOutputTokens request;
         c_Stream := Stream request;
         IncludeUsage := Stream request;
         c_Metadata := default ∅ metadata;
         User := echo ≫= e_User;
         Store := echo ≫= e_Store;
         c_Tools := tools;
         c_ToolChoice := choice;
         ParallelToolCalls := parallel;
         Stop := default [] stop;
         ResponseFormat := format;
         ReasoningEffort := resolved_effort request context (cap_ReasoningEffort capabilities) effort |}.

(** ** Lemmas: the report *)

Section reports.
Context (capabilities : ChatCapabilities) (policy : LossPolicy).

Lemma lawful_detail detail path : keeps_lawful policy (chatImageDetail detail path policy).
Proof. unfold chatImageDetail. lawful. Qed.
#[local] Hint Resolve lawful_detail : conv.

Lemma lawful_text_turn turn role : keeps_lawful policy (canonicalTextTurnToChatMessage turn role policy).
Proof. unfold canonicalTextTurnToChatMessage, text_turn_part. lawful. Qed.

Lemma lawful_user_message parts : keeps_lawful policy (canonicalContentPartsToChatUserMessage parts capabilities policy).
Proof. unfold canonicalContentPartsToChatUserMessage, user_part. lawful. Qed.
#[local] Hint Resolve lawful_text_turn lawful_user_message : conv.

Lemma lawful_multipart_blocks parts : keeps_lawful policy (multipart_blocks policy parts).
Proof. induction parts as [|p parts IH]; simpl; lawful. Qed.

Lemma lawful_multipart callID parts :
  keeps_lawful policy (renderChatToolResultMultipart callID parts capabilities policy).
Proof.
  intros r Hr. unfold renderChatToolResultMultipart. destruct (negb _); [done|].
  pose proof (lawful_multipart_blocks parts fresh_report (Forall_nil_2 _)) as Hs.
  destruct (multipart_blocks policy parts fresh_report) as [[[[|b bs]|]|e] scratch]; simpl in *; try done.
  by apply Forall_app_2.
Qed.
#[local] Hint Resolve lawful_multipart : conv.

Lemma lawful_or_unrepresentable f path detail e : keeps_lawful policy (Lose_or_unrepresentable policy f path detail e).
Proof.
  intros r Hr. unfold Lose_or_unrepresentable. pose proof (lawful_Lose policy f path detail r Hr).
  by destruct (Lose policy f path detail r) as [[]].
Qed.
#[local] Hint Resolve lawful_or_unrepresentable : conv.

Lemma lawful_tool_result callID isError parts :
  keeps_lawful policy (renderChatToolResult callID isError parts capabilities policy).
Proof. unfold renderChatToolResult. cbv zeta. lawful. Qed.
#[local] Hint Resolve lawful_tool_result : conv.

Lemma lawful_flush pending : keeps_lawful policy (flush_content pending capabilities policy).
Proof. unfold flush_content. lawful. Qed.
#[local] Hint Resolve lawful_flush : conv.

Lemma lawful_user_messages pending parts : keeps_lawful policy (user_messages capabilities policy pending parts).
Proof. revert pending. induction parts as [|p parts IH]; intros pending; simpl; lawful. Qed.
#[local] Hint Resolve lawful_user_messages : conv.

Lemma lawful_turn retained turn : keeps_lawful policy (render_turn capabilities policy retained turn).
Proof. unfold render_turn, canonicalUserTurnToChatMessages. lawful. Qed.
#[local] Hint Resolve lawful_turn : conv.

Lemma lawful_place rendered : keeps_lawful policy (place_messages capabilities policy rendered).
Proof. unfold place_messages, consolidate. lawful. Qed.
#[local] Hint Resolve lawful_place : conv.

Lemma lawful_prime request context messages : keeps_lawful policy (prime capabilities request context messages).
Proof. unfold prime, applyMultiAgentPriming. lawful. Qed.
#[local] Hint Resolve lawful_prime : conv.

Lemma lawful_tools float64 noted tools : keeps_lawful policy (render_tools float64 noted tools).
Proof. revert noted. induction tools as [|t tools IH]; intros noted; simpl; lawful. Qed.
#[local] Hint Resolve lawful_tools : conv.

Lemma lawful_gated {A} have f path detail (v : option A) : keeps_lawful policy (gated have policy f path detail v).
Proof. unfold gated. lawful. Qed.

Lemma lawful_thinking effort_cap thinking effort : keeps_lawful policy (render_thinking effort_cap policy thinking effort).
Proof. unfold render_thinking. lawful. Qed.
#[local] Hint Resolve lawful_gated lawful_thinking : conv.

Lemma RenderChatRequest_lawful request context :
  x_LossPolicy context = policy → keeps_lawful policy (RenderChatRequest request context capabilities).
Proof.
  intros Hp. unfold RenderChatRequest, RequirePortableArtifacts, developer_losses, render_messages, render_turns,
    representable, render_choice, echo_losses. rewrite Hp. cbv zeta. lawful.
Qed.

End reports.

(** ** Specifications *)

(** The function calls and results of a turn, as the wire carries them. *)
Definition part_calls (p : CanonicalPart) : list ChatMessageToolCall :=
  match p with
  | CanonicalFunctionCall _ callID name arguments => [{| mc_ID := callID; mc_Name := name; mc_Arguments := arguments |}]
  | _ => []
  end.

Definition part_results (p : CanonicalPart) : list CanonicalPart :=
  match p with
  | CanonicalFunctionResult _ _ _ => [p]
  | _ => []
  end.

Definition turn_calls (t : CanonicalTurn) : list ChatMessageToolCall := concat (map part_calls (t_Parts t)).
Definition turn_results (t : CanonicalTurn) : list CanonicalPart := concat (map part_results (t_Parts t)).

Definition messages_calls (ms : list ChatMessage) : list ChatMessageToolCall := concat (map m_ToolCalls ms).
Definition messages_results (ms : list ChatMessage) : list (str * option ChatMessageContent) :=
  omap (λ m, (λ callID, (callID, m_Content m)) <$> m_ToolCallID m) ms.

(** What a part of a result is as a block of a message: a text unchanged, an image by its
    link or its data, with its detail ('auto' where it has none, 'high' for 'original'
    where the policy allows it). *)
Definition detail_shown (policy : LossPolicy) (d d' : str) : Prop :=
  d' = d ∨ (d = [] ∧ d' = lit "auto") ∨ (d = lit "original" ∧ d' = lit "high" ∧ "image_detail_original" ∈ Allowed policy).

Definition block_shown (policy : LossPolicy) (p : CanonicalPart) (b : ChatContentBlock) : Prop :=
  match p, b with
  | CanonicalText t, TextBlock t' => t' = t
  | CanonicalImage mediaType url base64 d, ImageBlock url' d' => image_url mediaType url base64 = Ok url' ∧ detail_shown policy d d'
  | _, _ => False
  end.

(** An entry of the envelope says what its part is: the text, or the media type and the
    link or data of an image or document; an omitted field is an empty one. *)
Definition entry_says (p : CanonicalPart) (j : json) : Prop :=
  ∃ kvs, j = JObj kvs ∧
    let field k := default (JStr []) ((list_to_map kvs : gmap str json) !! lit k) in
    match p with
    | CanonicalText t => field "type" = JStr (lit "text") ∧ field "text" = JStr t
    | CanonicalImage mediaType url base64 _ =>
        field "type" = JStr (lit "image") ∧ field "media_type" = JStr mediaType ∧
        ∃ u, image_url mediaType url base64 = Ok u ∧ field "url" = JStr u
    | CanonicalDocument mediaType url base64 _ _ =>
        field "type" = JStr (lit "document") ∧ field "media_type" = JStr mediaType ∧
        ∃ u, (if decide (url = []) then encodeDataURL mediaType base64 = Ok u else u = url) ∧ field "url" = JStr u
    | _ => False
    end.

Definition envelope_says (parts : list CanonicalPart) (s : str) : Prop :=
  ∃ js, Forall2 entry_says parts js ∧
    s = print (JObj [(lit "transcode_version", JNum (lit "1")); (lit "content", match js with [] => JNull | _ => JArr js end)]).

(** The result [p] is in a message with the identity of its call and all of its content: its
    texts joined by lines, its parts as blocks where the upstream takes images in results,
    or all of it in the JSON envelope where the policy allows both losses.  An error is
    marked by a text before it, where the policy allows the loss of its status. *)
Definition result_kept (capabilities : ChatCapabilities) (policy : LossPolicy) (p : CanonicalPart)
    (m : str * option ChatMessageContent) : Prop :=
  match p, m with
  | CanonicalFunctionResult callID isError parts, (callID', Some content) =>
      let parts := if isError then error_prefix :: parts else parts in
      callID' = callID ∧ (isError = true → "tool_result_error_status" ∈ Allowed policy) ∧
      match content with
      | ContentStr s =>
          (allTextParts parts = true ∧ s = intersperse newline (map part_text parts)) ∨
          (allTextParts parts = false ∧ envelope_says parts s ∧
           "tool_result_multimodal_content" ∈ Allowed policy ∧ "tool_result_json_envelope" ∈ Allowed policy)
      | ContentBlocks blocks =>
          allTextParts parts = false ∧ cap_ToolResultImages capabilities = true ∧ Forall2 (block_shown policy) parts blocks
      end
  | _, _ => False
  end.

(** What a message carries, in order. *)
Inductive atom :=
| AContent (b : ChatContentBlock)
| AResult (callID : str) (content : ChatMessageContent).

Definition message_atoms (m : ChatMessage) : list atom :=
  match m_ToolCallID m, m_Content m with
  | Some callID, Some content => [AResult callID content]
  | _, Some (ContentBlocks blocks) => map AContent blocks
  | _, _ => []
  end.

(** A detail is kept, or invented where there is none. *)
Definition detail_kept (d d' : str) : Prop := d' = d ∨ (d = [] ∧ d' = lit "auto").

Definition block_carries (p : CanonicalPart) (b : ChatContentBlock) : Prop :=
  match p, b with
  | CanonicalText t, TextBlock t' => t' = t
  | CanonicalImage mediaType url base64 d, ImageBlock url' d' => image_url mediaType url base64 = Ok url' ∧ detail_kept d d'
  | _, _ => False
  end.

Definition result_carries (parts : list CanonicalPart) (content : ChatMessageContent) : Prop :=
  match content with
  | ContentStr s => allTextParts parts = true ∧ s = intersperse newline (map part_text parts)
  | ContentBlocks blocks => Forall2 block_carries parts blocks
  end.

Definition atom_carries (p : CanonicalPart) (a : atom) : Prop :=
  match p, a with
  | CanonicalFunctionResult callID isError parts, AResult callID' content =>
      callID' = callID ∧ isError = false ∧ result_carries parts content
  | _, AContent b => block_carries p b
  | _, _ => False
  end.

(** The messages of a turn lose nothing of it: a user or developer turn part by part,
    an assistant turn its texts, calls and one refusal. *)
Definition last_refusal (parts : list CanonicalPart) : option str :=
  last (omap (λ p, match p with CanonicalRefusal t => Some t | _ => None end) parts).

Definition texts (parts : list CanonicalPart) : list str :=
  omap (λ p, match p with CanonicalText t => Some t | _ => None end) parts.

Definition turn_carried (t : CanonicalTurn) (ms : list ChatMessage) : Prop :=
  match t_Role t with
  | CanonicalAssistant =>
      ∃ m, ms = [m] ∧ m_Role m = ChatMessageRoleAssistant ∧
        message_atoms m = map (AContent ∘ TextBlock) (texts (t_Parts t)) ∧ m_ToolCalls m = turn_calls t ∧
        m_Refusal m = last_refusal (t_Parts t)
  | CanonicalUser =>
      Forall2 atom_carries (t_Parts t) (concat (map message_atoms ms)) ∧
      Forall (λ m, m_Role m = ChatMessageRoleUser ∨ m_Role m = ChatMessageRoleTool) ms
  | CanonicalSystem | CanonicalDeveloper =>
      ∃ role, role ∈ [ChatMessageRoleSystem; ChatMessageRoleDeveloper] ∧
        ms = [plain_message role (map TextBlock (map part_text (t_Parts t)))] ∧ allTextParts (t_Parts t) = true
  end.

(** Only a tool message answers a call. *)
Definition tool_named (m : ChatMessage) : Prop := is_Some (m_ToolCallID m) → m_Role m = ChatMessageRoleTool.

(** A placed message of the system channel is a text message of that role, and no
    other has the role. *)
Definition well_placed (p : placed) : Prop :=
  if p_system p then ∃ ts, p_message p = plain_message ChatMessageRoleSystem (map TextBlock ts)
  else m_Role (p_message p) ≠ ChatMessageRoleSystem ∧ tool_named (p_message p).

(** ** Lemmas: calls and results *)

Definition no_calls (p : CanonicalPart) : Prop := part_calls p = [] ∧ part_results p = [].

Lemma no_calls_turn parts :
  Forall no_calls parts → concat (map part_calls parts) = [] ∧ concat (map part_results parts) = [].
Proof. induction 1 as [|p ps [Hc Hr] _ [IHc IHr]]; simpl; [done|]. by rewrite Hc, Hr, IHc, IHr. Qed.

Lemma messages_calls_app a b : messages_calls (a ++ b) = (messages_calls a ++ messages_calls b)%list.
Proof. unfold messages_calls. by rewrite map_app, concat_app. Qed.

Lemma messages_results_app a b : messages_results (a ++ b) = (messages_results a ++ messages_results b)%list.
Proof. apply omap_app. Qed.

Lemma text_turn_post policy turn role :
  has_post (canonicalTextTurnToChatMessage turn role policy)
    (λ m, Forall no_calls (t_Parts turn) ∧ ∃ ts, m = plain_message role (map TextBlock ts) ∧
          (Allowed policy = ∅ → allTextParts (t_Parts turn) = true ∧ ts = map part_text (t_Parts turn))).
Proof.
  unfold canonicalTextTurnToChatMessage. eapply post_bind.
  { apply (post_collect _ (λ p bs, no_calls p ∧ ∃ ts, bs = map TextBlock ts ∧
                             (Allowed policy = ∅ → is_text p = true ∧ ts = [part_text p]))).
    intros _ p. destruct p; simpl; try apply post_fail.
    - apply post_ret. split; [done|]. by exists [Text].
    - eapply post_bind; [apply post_Lose_some|]. intros [] Hne.
      apply post_ret. split; [done|]. exists []. split; [done|]. intros He. by destruct (Hne He).
    - eapply post_bind; [apply post_Lose_some|]. intros [] Hne.
      apply post_ret. split; [done|]. exists []. split; [done|]. intros He. by destruct (Hne He). }
  intros blocks (bss & Hall & ->).
  assert (Hn : Forall no_calls (t_Parts turn)) by (induction Hall as [|???? [? _]]; by constructor).
  assert (Ht : ∃ ts, concat bss = map TextBlock ts ∧
                (Allowed policy = ∅ → allTextParts (t_Parts turn) = true ∧ ts = map part_text (t_Parts turn))).
  { clear Hn. induction Hall as [|p bs ps bss (_ & ts & -> & Hs) _ (ts' & Hc & Hs')]; simpl; [by exists []|].
    exists (ts ++ ts')%list. rewrite Hc, map_app. split; [done|]. intros He.
    destruct (Hs He) as [-> ->], (Hs' He) as [-> ->]. done. }
  destruct Ht as (ts & Hts & Hstrict). rewrite Hts. destruct ts as [|t ts]; simpl.
  - case_match eqn:Hd; [|apply post_fail]. apply post_ret. split; [done|]. exists [[]]. split; [done|]. intros He.
    destruct (Hstrict He) as [_ Hp]. destruct (t_Parts turn); [|done]. simpl in Hd. lia || done.
  - apply post_ret. split; [done|]. by exists (t :: ts).
Qed.

Lemma detail_post detail path policy :
  has_post (chatImageDetail detail path policy) (detail_shown policy detail).
Proof.
  unfold chatImageDetail. destruct (is_empty detail) eqn:E.
  - apply is_empty_spec in E as ->. apply post_seq, post_ret. by right; left.
  - case_bool_decide; [apply post_ret; by left|]. destruct (str_eqb _ _) eqn:Eo; [|apply post_fail].
    apply str_eqb_eq in Eo as ->. eapply (post_bind _ _ (λ _, "image_detail_original" ∈ Allowed policy)); [by apply post_Lose|].
    intros [] Ha. apply post_ret. by right; right.
Qed.

Lemma detail_strict policy d d' : Allowed policy = ∅ → detail_shown policy d d' → detail_kept d d'.
Proof. intros He [?|[?|(_ & _ & Ha)]]; [by left|by right|]. rewrite He in Ha. by apply elem_of_empty in Ha. Qed.

Lemma block_strict policy p b : Allowed policy = ∅ → block_shown policy p b → block_carries p b.
Proof. intros He. destruct p, b; try done. intros [Hu Hd]. split; [done|by eapply detail_strict]. Qed.

Lemma user_message_post parts capabilities policy :
  has_post (canonicalContentPartsToChatUserMessage parts capabilities policy)
    (λ m, Forall no_calls parts ∧ ∃ bs, m = plain_message ChatMessageRoleUser bs ∧
          (Allowed policy = ∅ → Forall2 block_carries parts bs)).
Proof.
  unfold canonicalContentPartsToChatUserMessage. eapply post_bind.
  { apply (post_collect _ (λ p bs, no_calls p ∧ (Allowed policy = ∅ → ∃ b, bs = [b] ∧ block_carries p b))).
    intros i p. destruct p; simpl; try apply post_fail.
    - apply post_ret. split; [done|]. intros _. by eexists.
    - destruct (cap_ImageInput capabilities); simpl.
      + eapply post_bind; [apply post_at_index, (post_lift _ (λ u, image_url MediaType URL Base64 = Ok u)); auto|].
        intros u Hu. eapply post_bind; [apply detail_post|]. intros d Hd. apply post_ret. split; [done|].
        intros He. exists (ImageBlock u d). simpl. eauto using detail_strict.
      + eapply post_bind; [apply post_Lose_some|]. intros [] Hne. by apply post_ret.
    - eapply post_bind; [apply post_Lose_some|]. intros [] Hne. by apply post_ret. }
  intros blocks (bss & Hall & ->).
  assert (Hp : Forall no_calls parts ∧ (Allowed policy = ∅ → Forall2 block_carries parts (concat bss))).
  { induction Hall as [|p bs ps bss [Hn Hs] _ [IHn IHs]]; simpl; [by split|]. split; [by constructor|]. intros He.
    destruct (Hs He) as (b & -> & Hb). constructor; auto. }
  destruct (concat bss); [apply post_fail|]. apply post_ret. destruct Hp as [Hp Hs]. split; [done|]. by eexists.
Qed.

Lemma multipart_blocks_post policy parts :
  has_post (multipart_blocks policy parts) (λ o, ∀ bs, o = Some bs → Forall2 (block_shown policy) parts bs).
Proof.
  induction parts as [|p parts IH]; simpl; [apply post_ret; by intros ? [= <-]|].
  destruct p; try by apply post_ret.
  - eapply post_bind; [apply IH|]. intros o Ho. apply post_ret. intros bs. destruct o as [bs'|]; [|done].
    intros [= <-]. constructor; [done | by apply Ho].
  - destruct (image_url MediaType URL Base64) as [u|] eqn:Eu; [|by apply post_ret].
    eapply post_bind; [apply detail_post|]. intros d Hd. eapply post_bind; [apply IH|]. intros o Ho. apply post_ret.
    intros bs. destruct o as [bs'|]; [|done]. intros [= <-]. constructor; [by split | by apply Ho].
Qed.

Lemma multipart_post callID parts capabilities policy :
  has_post (renderChatToolResultMultipart callID parts capabilities policy)
    (λ o, ∀ m, o = Some m → ∃ bs, m = tool_message callID (ContentBlocks bs) ∧ Forall2 (block_shown policy) parts bs).
Proof.
  intros r o r'. unfold renderChatToolResultMultipart. destruct (negb _); [by intros [= <- <-]|].
  pose proof (multipart_blocks_post policy parts fresh_report) as Hp.
  destruct (multipart_blocks policy parts fresh_report) as [[[[|b bs]|]|e] scratch]; try by intros [= <- <-].
  intros [= <- <-] m [= <-]. exists (b :: bs). split; [done|]. by eapply Hp.
Qed.

Lemma post_or_unrepresentable policy f path detail e :
  has_post (Lose_or_unrepresentable policy f path detail e) (λ _, f ∈ Allowed policy).
Proof.
  intros r [] r'. unfold Lose_or_unrepresentable. destruct (Lose policy f path detail r) as [[[]|] r1] eqn:E; [|done].
  intros _. by eapply (post_Lose policy f path detail (λ _, f ∈ Allowed policy)).
Qed.

Lemma entry_fields typ text mediaType url :
  ∃ kvs, envelope_entry typ text mediaType url = JObj kvs ∧
    let field k := default (JStr []) ((list_to_map kvs : gmap str json) !! lit k) in
    field "type" = JStr (lit typ) ∧ field "text" = JStr text ∧ field "media_type" = JStr mediaType ∧ field "url" = JStr url.
Proof. eexists. split; [done|]. by destruct text, mediaType, url. Qed.

Lemma entry_ok p j : envelope_part p = Ok j → entry_says p j.
Proof.
  destruct p as [t| | |mediaType url base64 d|mediaType url base64 fid name| |]; try done; unfold entry_says; cbn [envelope_part].
  - intros [= <-]. by destruct (entry_fields "text" t [] []) as (kvs & Hj & H1 & H2 & _); exists kvs.
  - intros (u & Hu & [= <-])%result_bind_ok. destruct (entry_fields "image" [] mediaType u) as (kvs & Hj & H1 & _ & H3 & H4).
    exists kvs. split_and!; [done..|by exists u].
  - intros (u & Hu & [= <-])%result_bind_ok. destruct (entry_fields "document" [] mediaType u) as (kvs & Hj & H1 & _ & H3 & H4).
    exists kvs. split_and!; [done..|]. exists u. split; [|done].
    destruct (is_empty url) eqn:Ee; case_decide as Hd; [done|by apply is_empty_spec in Ee|by subst|by injection Hu].
Qed.

Lemma envelope_ok parts s : encodeToolResultEnvelope parts = Ok s → envelope_says parts s.
Proof.
  unfold encodeToolResultEnvelope. intros (js & Hjs & [= <-])%result_bind_ok. exists js. split; [|done].
  revert js Hjs. generalize 0%nat. induction parts as [|p parts IH]; intros i js; simpl; [intros [= <-]; constructor|].
  destruct (envelope_part p) as [j|] eqn:Ej; [|done]. intros (js' & Hjs & [= <-])%result_bind_ok.
  constructor; [by apply entry_ok|by eapply IH].
Qed.

Lemma tool_result_post callID isError parts capabilities policy :
  has_post (renderChatToolResult callID isError parts capabilities policy)
    (λ m, ∃ content, m = tool_message callID content ∧
          result_kept capabilities policy (CanonicalFunctionResult callID isError parts) (callID, Some content)).
Proof.
  unfold renderChatToolResult, result_kept. apply (post_bind _ _ (λ _, isError = true → "tool_result_error_status" ∈ Allowed policy)).
  { destruct isError; simpl; [|by apply post_ret]. by apply post_Lose. }
  intros [] Herr. cbv zeta. set (all := if isError then error_prefix :: parts else parts).
  destruct (allTextParts all) eqn:Et.
  - apply post_seq, post_ret. eexists. split; [done|]. split_and!; [done..|]. by left.
  - eapply (post_bind _ _ (λ o, ∀ m, o = Some m → cap_ToolResultImages capabilities = true ∧
                              ∃ bs, m = tool_message callID (ContentBlocks bs) ∧ Forall2 (block_shown policy) all bs)).
    { destruct (cap_ToolResultImages capabilities); [|by apply post_ret].
      eapply post_weaken; [apply multipart_post|]. intros o Ho m Hm. split; [done|by apply Ho]. }
    intros [m|] Hm.
    + apply post_ret. destruct (Hm m eq_refl) as (Hcap & bs & -> & Hbs). eexists. split; [done|]. by split_and!.
    + eapply post_bind; [apply post_or_unrepresentable|]. intros [] Hm1.
      eapply post_bind; [apply (post_lift _ (λ t, envelope_says all t)); apply envelope_ok|]. intros text Ht.
      eapply post_bind; [apply post_or_unrepresentable|]. intros [] Hm2. apply post_ret. eexists. split; [done|].
      split_and!; [done..|]. by right.
Qed.

(** Without losses a result is carried whole. *)
Lemma result_strict capabilities policy callID isError parts content :
  Allowed policy = ∅ → result_kept capabilities policy (CanonicalFunctionResult callID isError parts) (callID, Some content) →
  isError = false ∧ result_carries parts content.
Proof.
  intros He (_ & Herr & Hc). destruct isError; [specialize (Herr eq_refl); rewrite He in Herr; by apply elem_of_empty in Herr|].
  split; [done|]. destruct content as [t|bs].
  - destruct Hc as [?|(_ & _ & Ha & _)]; [done|]. rewrite He in Ha. by apply elem_of_empty in Ha.
  - destruct Hc as (_ & _ & Hall). eapply Forall2_impl; [exact Hall|]. intros. by eapply block_strict.
Qed.

(** ** Lemmas: turns *)

(** What the messages of a part of a user turn carry of it. *)
Definition user_spec (capabilities : ChatCapabilities) (policy : LossPolicy) (parts : list CanonicalPart) (ms : list ChatMessage) : Prop :=
  messages_calls ms = concat (map part_calls parts) ∧
  Forall2 (result_kept capabilities policy) (concat (map part_results parts)) (messages_results ms) ∧
  Forall (λ m, (m_Role m = ChatMessageRoleUser ∨ m_Role m = ChatMessageRoleTool) ∧ tool_named m) ms ∧
  (Allowed policy = ∅ → Forall2 atom_carries parts (concat (map message_atoms ms))).

Lemma user_spec_app capabilities policy ps ps' ms ms' :
  user_spec capabilities policy ps ms → user_spec capabilities policy ps' ms' → user_spec capabilities policy (ps ++ ps') (ms ++ ms').
Proof.
  intros (Hc & Hr & Hf & Hs) (Hc' & Hr' & Hf' & Hs'). unfold user_spec.
  rewrite messages_calls_app, messages_results_app, Hc, Hc', !map_app, !concat_app.
  split_and!; [done|by apply Forall2_app|by apply Forall_app_2|]. intros He. apply Forall2_app; auto.
Qed.

Lemma block_atom p b : block_carries p b → atom_carries p (AContent b).
Proof. by destruct p. Qed.

Lemma flush_post pending capabilities policy :
  has_post (flush_content pending capabilities policy) (user_spec capabilities policy pending).
Proof.
  unfold flush_content. destruct pending as [|p ps]; [apply post_ret; by repeat constructor|].
  eapply post_bind; [apply user_message_post|]. intros m (Hn & bs & -> & Hs). apply post_ret.
  destruct (no_calls_turn _ Hn) as [Hc Hr]. unfold user_spec. rewrite Hc, Hr. split_and!; [done|constructor|constructor; [split; [by left|by intros []]|done]|].
  intros He. cbn [map concat message_atoms plain_message m_ToolCallID m_Content]. rewrite app_nil_r.
  apply Forall2_fmap_r. eapply Forall2_impl; [by apply Hs|]. apply block_atom.
Qed.

Lemma user_messages_post capabilities policy pending parts :
  has_post (user_messages capabilities policy pending parts) (user_spec capabilities policy (pending ++ parts)).
Proof.
  revert pending. induction parts as [|p parts IH]; intros pending; cbn [user_messages].
  { rewrite app_nil_r. apply flush_post. }
  assert (Hgen : ∀ q, has_post (user_messages capabilities policy (pending ++ [q]) parts) (user_spec capabilities policy (pending ++ q :: parts))).
  { intros q. specialize (IH (pending ++ [q])%list). by rewrite <- app_assoc in IH. }
  destruct p as [| | | | | |callID isError rparts]; try apply Hgen.
  eapply post_bind; [apply flush_post|]. intros ms Hms.
  eapply post_bind; [apply tool_result_post|]. intros m (content & -> & Hm).
  eapply post_bind; [apply IH|]. intros rest Hrest. apply post_ret. apply user_spec_app; [done|].
  change (CanonicalFunctionResult callID isError rparts :: parts) with ([CanonicalFunctionResult callID isError rparts] ++ parts)%list.
  change (tool_message callID content :: rest) with ([tool_message callID content] ++ rest)%list.
  apply user_spec_app; [|done]. split_and!; [done|by constructor|by constructor; [split; [right|]|]|]. intros He.
  destruct (result_strict _ _ _ _ _ _ He Hm) as [-> Hc]. by constructor.
Qed.

(** Folding an assistant turn. *)
Lemma assistant_parts_ok i parts a b :
  assistant_parts i parts a = Ok b →
  a_blocks b = (a_blocks a ++ map TextBlock (texts parts))%list ∧
  a_calls b = (a_calls a ++ map (λ c, {| mc_ID := mc_ID c; mc_Name := mc_Name c; mc_Arguments := call_arguments (mc_Arguments c) |})
                               (concat (map part_calls parts)))%list ∧
  a_refusal b = match last_refusal parts with Some t => Some t | None => a_refusal a end ∧
  concat (map part_results parts) = [].
Proof.
  revert i a. induction parts as [|p parts IH]; intros i a; simpl.
  { intros [= <-]. by rewrite !app_nil_r. }
  destruct p; try done; intros (Hb & Hc & Hr & Hn)%IH; simpl in *; rewrite Hb, Hc, Hr, Hn, <- ?app_assoc; split_and!; try done.
  unfold last_refusal. simpl. rewrite last_cons. by destruct (last _).
Qed.

Lemma call_arguments_id arguments : arguments ≠ [] → call_arguments arguments = arguments.
Proof.
  intros Ha. unfold call_arguments. destruct (is_empty arguments) eqn:E; [|done]. by apply is_empty_spec in E.
Qed.

Lemma part_calls_whole parts :
  Forall part_ok parts →
  map (λ c, {| mc_ID := mc_ID c; mc_Name := mc_Name c; mc_Arguments := call_arguments (mc_Arguments c) |})
    (concat (map part_calls parts)) = concat (map part_calls parts).
Proof.
  induction 1 as [|p ps Hp _ IH]; [done|]. simpl. rewrite map_app, IH. f_equal. destruct p; try done.
  destruct Hp as (_ & _ & kvs & Hk). simpl. by rewrite call_arguments_id by (intros ->; by vm_compute in Hk).
Qed.

Definition has_developer_role (capabilities : ChatCapabilities) (t : CanonicalTurn) : Prop :=
  t_Role t = CanonicalDeveloper → cap_DeveloperRole capabilities = true.

Definition turn_spec (capabilities : ChatCapabilities) (policy : LossPolicy) (t : CanonicalTurn) (ps : list placed) : Prop :=
  Forall well_placed ps ∧
  (turn_ok t → messages_calls (map p_message ps) = turn_calls t ∧
    Forall2 (result_kept capabilities policy) (turn_results t) (messages_results (map p_message ps))) ∧
  (Allowed policy = ∅ → turn_ok t → has_developer_role capabilities t →
   turn_carried t (map p_message ps) ∧ Forall (λ p, p_system p = bool_decide (t_Role t = CanonicalSystem)) ps).

Lemma text_turn_spec capabilities policy turn role (channel : bool) retained :
  t_Role turn = CanonicalSystem ∨ t_Role turn = CanonicalDeveloper →
  role = (if channel then ChatMessageRoleSystem else ChatMessageRoleDeveloper) →
  channel = negb (bool_decide (t_Role turn = CanonicalDeveloper) && cap_DeveloperRole capabilities) →
  has_post (m <~ canonicalTextTurnToChatMessage turn role policy ;;
            ret [{| p_message := m; p_system := channel; p_retained := retained |}])
    (turn_spec capabilities policy turn).
Proof.
  intros Ht -> ->. eapply post_bind; [apply text_turn_post|]. intros m (Hn & ts & -> & Hs). apply post_ret.
  destruct (no_calls_turn _ Hn) as [Hc Hr]. unfold turn_spec, turn_calls, turn_results. rewrite Hc, Hr. split_and!.
  - constructor; [|done]. unfold well_placed. simpl. destruct (negb _); [by exists ts | split; [done|by intros []]].
  - split; [done|constructor].
  - intros He _ Hd. destruct (Hs He) as [Hall ->]. unfold turn_carried, has_developer_role in *. destruct Ht as [Ht|Ht]; rewrite Ht in *.
    + split; [|by repeat constructor]. exists ChatMessageRoleSystem. simpl. repeat split; [by apply list_elem_of_here | done].
    + rewrite Hd by done. split; [|by repeat constructor]. exists ChatMessageRoleDeveloper. simpl.
      split; [by apply list_elem_of_further, list_elem_of_here | done].
Qed.

Lemma turn_post capabilities policy retained turn :
  has_post (render_turn capabilities policy retained turn) (turn_spec capabilities policy turn).
Proof.
  unfold render_turn. cbv zeta. destruct (t_Role turn) eqn:Ht.
  - eapply post_bind; [apply user_messages_post|]. intros ms (Hc & Hr & Hf & Hs). apply post_ret. unfold turn_spec.
    rewrite map_map, map_id. split_and!.
    + apply Forall_map. eapply Forall_impl; [exact Hf|]. intros m [Hm Hn]. unfold well_placed. simpl. split; [by destruct Hm as [-> | ->]|done].
    + done.
    + intros He _ _. unfold turn_carried. rewrite Ht. split; [split; [by apply Hs |eapply Forall_impl; [exact Hf|by intros m [? _]]]|]. apply Forall_map. by apply Forall_true.
  - eapply post_bind; [apply (post_lift _ (λ m, canonicalAssistantTurnToChatMessage turn = Ok m)); auto|].
    intros m Hm. apply post_ret. unfold canonicalAssistantTurnToChatMessage in Hm.
    apply result_bind_ok in Hm as (a & Ha & [= <-]). apply assistant_parts_ok in Ha as (Hb & Hc & Hr & Hn). simpl in *.
    assert (Hcalls : turn_ok turn → a_calls a = turn_calls turn).
    { intros [_ Hok]. rewrite Hc. apply part_calls_whole. eapply Forall_impl; [exact Hok|]. by intros x [_ ?]. }
    split_and!; [constructor; [split; [done|by intros []]|constructor]| |].
    + intros Hok. unfold messages_calls. simpl. rewrite app_nil_r. split; [by apply Hcalls | unfold turn_results; rewrite Hn; constructor].
    + intros _ Hok _. unfold turn_carried. rewrite Ht. split; [|by repeat constructor]. eexists. split; [done|]. simpl.
      split_and!; [done| |by apply Hcalls|by rewrite Hr; destruct (last_refusal _)].
      unfold message_atoms. simpl. rewrite Hb. destruct (texts (t_Parts turn)); [done|]. simpl. by rewrite map_map.
  - apply text_turn_spec; [by left|done|by rewrite Ht].
  - apply text_turn_spec; [by right| |]; [by destruct (cap_DeveloperRole capabilities)|]. rewrite Ht. by destruct (cap_DeveloperRole capabilities).
Qed.

(** ** Lemmas: placement *)

Definition is_system (m : ChatMessage) : bool := bool_decide (m_Role m = ChatMessageRoleSystem).

(** The messages of the dialogue, and the text of the system channel. *)
Definition dialogue (ms : list ChatMessage) : list ChatMessage := filter (λ m, is_system m = false) ms.

Definition system_text (ms : list ChatMessage) : str :=
  intersperse newlines2 (concat (map block_texts (filter (λ m, is_system m = true) ms))).

Definition system_leads (ms : list ChatMessage) : Prop :=
  ∀ i m, ms !! i = Some m → m_Role m = ChatMessageRoleSystem → i = 0%nat.

Definition system_message (m : ChatMessage) : Prop := ∃ ts, m = plain_message ChatMessageRoleSystem (map TextBlock ts).

Lemma split_channels_spec rendered c :
  (sawDialog c = false → midDialog c = []) →
  let c' := fold_left split_step rendered c in
  dialog c' = (dialog c ++ map p_message (filter (λ p, p_system p = false) rendered))%list ∧
  (leading c' ++ midDialog c')%list = (leading c ++ midDialog c ++ map p_message (filter (λ p, p_system p = true) rendered))%list.
Proof.
  revert c. induction rendered as [|p ps IH]; intros c Hc; cbv zeta; [simpl; by rewrite !app_nil_r|].
  assert (Hc' : sawDialog (split_step c p) = false → midDialog (split_step c p) = []).
  { unfold split_step. destruct (p_system p); simpl; [|intros [? _]%orb_false_iff; auto].
    destruct (sawDialog c) eqn:Es; simpl; [done | auto]. }
  destruct (IH _ Hc') as [Hd Hs]. cbn [fold_left]. rewrite Hd, Hs, !filter_cons. clear IH Hd Hs Hc'. revert Hc. unfold split_step.
  destruct (p_system p); simpl; [|by rewrite <- app_assoc].
  destruct (sawDialog c); simpl; intros Hc; rewrite <- ?app_assoc; [done|]. by rewrite Hc.
Qed.

Lemma consolidate_post policy c :
  Forall system_message (leading c ++ midDialog c) →
  has_post (consolidate policy c)
    (λ sys, (length sys <= 1)%nat ∧ Forall system_message sys ∧
            intersperse newlines2 (concat (map block_texts sys)) =
            intersperse newlines2 (concat (map block_texts (leading c ++ midDialog c)))).
Proof.
  intros Hall. assert (Hjoin : ∀ ls ms, system_message (joinChatSystemMessages ls ms)) by (intros; unfold joinChatSystemMessages; eexists [_]; done).
  unfold consolidate. destruct (midDialog c) as [|m ms].
  - rewrite app_nil_r in *. destruct (leading c) as [|l [|l' ls]]; [apply post_ret; simpl; split_and!; [lia|done|done] | apply post_ret; simpl; split_and!; [lia|done|done] |].
    apply post_seq, post_ret. split; [simpl; lia|]. split; [by constructor|]. simpl. by rewrite ?app_nil_r.
  - apply post_seq, post_ret. split; [simpl; lia|]. split; [by constructor|]. simpl. by rewrite ?app_nil_r.
Qed.

Lemma system_message_role m : system_message m → is_system m = true.
Proof. by intros (ts & ->). Qed.

Lemma system_message_calls m : system_message m → m_ToolCalls m = [] ∧ m_ToolCallID m = None.
Proof. by intros (ts & ->). Qed.

Lemma placed_role p : well_placed p → is_system (p_message p) = p_system p.
Proof.
  unfold well_placed, is_system. destruct (p_system p); [by intros (ts & ->)|]. intros [Hr _]. by apply bool_decide_eq_false_2.
Qed.

Lemma placed_filter b ps : Forall well_placed ps →
  filter (λ m, is_system m = b) (map p_message ps) = map p_message (filter (λ p, p_system p = b) ps).
Proof.
  induction 1 as [|p ps Hp _ IH]; [done|]. simpl. rewrite !filter_cons, placed_role by done.
  destruct (decide (p_system p = b)); simpl; by rewrite IH.
Qed.

Lemma placed_calls ps : Forall well_placed ps →
  let dlg := map p_message (filter (λ p, p_system p = false) ps) in
  messages_calls (map p_message ps) = messages_calls dlg ∧ messages_results (map p_message ps) = messages_results dlg.
Proof.
  induction 1 as [|p ps Hp _ [IHc IHr]]; [done|]. cbv zeta in *. rewrite filter_cons. unfold well_placed in Hp.
  destruct (p_system p) eqn:Ep.
  - destruct (system_message_calls _ Hp) as [Hc Hr]. simpl. rewrite <- IHc, <- IHr.
    unfold messages_calls, messages_results. simpl. by rewrite Hc, Hr.
  - simpl. unfold messages_calls, messages_results in *. simpl. by rewrite IHc, IHr.
Qed.

Lemma filter_none {A} (f : A → bool) b l : Forall (λ x, f x = negb b) l → filter (λ x, f x = b) l = [].
Proof.
  induction 1 as [|x l Hx _ IH]; [done|]. rewrite filter_cons, Hx. rewrite decide_False; [done|]. by destruct b.
Qed.

Lemma filter_all {A} (f : A → bool) b l : Forall (λ x, f x = b) l → filter (λ x, f x = b) l = l.
Proof. induction 1 as [|x l Hx _ IH]; [done|]. by rewrite filter_cons, decide_True, IH. Qed.

(** What placing keeps of the rendered messages. *)
Definition placed_spec (capabilities : ChatCapabilities) (rendered : list placed) (ms : list ChatMessage) : Prop :=
  messages_calls ms = messages_calls (map p_message rendered) ∧
  messages_results ms = messages_results (map p_message rendered) ∧ Forall tool_named ms ∧
  (cap_SystemAnywhere capabilities = false → system_leads ms) ∧
  dialogue ms = map p_message (filter (λ p, p_system p = false) rendered) ∧
  system_text ms = intersperse newlines2 (concat (map block_texts (map p_message (filter (λ p, p_system p = true) rendered)))).

Lemma placed_named p : well_placed p → tool_named (p_message p).
Proof. unfold well_placed. destruct (p_system p); [by intros (ts & ->) []|by intros [_ ?]]. Qed.

Lemma system_head_leads sys dlg :
  (length sys <= 1)%nat → Forall (λ m, is_system m = false) dlg → system_leads (sys ++ dlg).
Proof.
  intros Hl Hd i m Hi Hr. destruct i as [|i]; [done|]. exfalso.
  assert (Hin : m ∈ dlg).
  { destruct sys as [|s [|? ?]]; simpl in *; [|by apply list_elem_of_lookup_2 in Hi|lia]. apply list_elem_of_lookup_2 in Hi. done. }
  rewrite Forall_forall in Hd. specialize (Hd m Hin). unfold is_system in Hd. by rewrite Hr in Hd.
Qed.

Lemma place_post capabilities policy rendered :
  Forall well_placed rendered →
  has_post (place_messages capabilities policy rendered) (placed_spec capabilities rendered).
Proof.
  intros Hw. pose proof (placed_calls rendered Hw) as [Hc Hr]. cbv zeta in Hc, Hr. unfold place_messages, placed_spec.
  destruct (cap_SystemAnywhere capabilities).
  { apply post_ret. split_and!; [done|done| |done| |]; [|unfold dialogue, system_text; by rewrite placed_filter..].
    apply Forall_map. eapply Forall_impl; [exact Hw|apply placed_named]. }
  cbv zeta. set (c := split_channels rendered).
  destruct (split_channels_spec rendered {| leading := []; midDialog := []; dialog := []; sawDialog := false; midDialogAllRetained := true |} (λ _, eq_refl)) as [Hd Hs].
  change (dialog c = map p_message (filter (λ p, p_system p = false) rendered)) in Hd.
  change ((leading c ++ midDialog c)%list = map p_message (filter (λ p, p_system p = true) rendered)) in Hs.
  assert (Hdlg : Forall (λ m, is_system m = false) (dialog c)).
  { rewrite Hd, <- (placed_filter false) by done. apply Forall_forall. by intros m [? _]%list_elem_of_filter. }
  eapply post_bind.
  { apply consolidate_post. rewrite Hs, <- (placed_filter true) by done. apply Forall_forall.
    intros m [Hm [p [-> Hp]]%list_elem_of_fmap]%list_elem_of_filter. rewrite Forall_forall in Hw. specialize (Hw p Hp).
    rewrite placed_role in Hm by done. unfold well_placed in Hw. by rewrite Hm in Hw. }
  intros sys (Hlen & Hsys & Htext). apply post_ret.
  assert (Hsr : Forall (λ m, is_system m = true) sys) by (eapply Forall_impl; [exact Hsys | apply system_message_role]).
  assert (Hsc : messages_calls sys = [] ∧ messages_results sys = []).
  { clear -Hsys. induction Hsys as [|m sys Hm _ [IHc IHr]]; [done|]. unfold messages_calls, messages_results in *. simpl.
    destruct (system_message_calls m Hm) as [-> ->]. done. }
  destruct Hsc as [Hsc Hsres].
  rewrite messages_calls_app, messages_results_app, Hsc, Hsres, Hc, Hr, Hd. split_and!; [done|done| | | |].
  - apply Forall_app_2; [eapply Forall_impl; [exact Hsys|by intros m (ts & ->) []]|]. apply Forall_map.
    apply Forall_forall. intros p [_ Hp]%list_elem_of_filter. rewrite Forall_forall in Hw. by apply placed_named, Hw.
  - intros _. rewrite <- Hd. by apply system_head_leads.
  - unfold dialogue. rewrite filter_app, (filter_none _ false), <- Hd, filter_all; done.
  - unfold system_text. rewrite filter_app, (filter_all _ true), (filter_none _ true (map _ _)), app_nil_r, Htext, Hs; [done|by rewrite <- Hd|done].
Qed.

(** ** Lemmas: requests *)

Definition turns_carried (turns : list CanonicalTurn) (ms : list ChatMessage) : Prop :=
  (∃ mss, Forall2 turn_carried (filter (λ t, t_Role t ≠ CanonicalSystem) turns) mss ∧ dialogue ms = concat mss) ∧
  system_text ms =
    intersperse newlines2 (concat (map (λ t, map part_text (t_Parts t)) (filter (λ t, t_Role t = CanonicalSystem) turns))).

Lemma plain_block_texts role ts : block_texts (plain_message role (map TextBlock ts)) = ts.
Proof. unfold block_texts. simpl. induction ts as [|t ts IH]; [done|]. cbn. by f_equal. Qed.

Lemma turns_spec_placed capabilities policy turns pss :
  Forall2 (turn_spec capabilities policy) turns pss →
  Forall well_placed (concat pss) ∧
  (Forall turn_ok turns →
   messages_calls (map p_message (concat pss)) = concat (map turn_calls turns) ∧
   Forall2 (result_kept capabilities policy) (concat (map turn_results turns)) (messages_results (map p_message (concat pss)))).
Proof.
  induction 1 as [|t ps turns pss (Hw & Hc & _) _ [IHw IHc]]; simpl; [by split|].
  split; [by apply Forall_app_2|]. intros [Ht Hts]%Forall_cons. destruct (Hc Ht) as [Hc1 Hr1], (IHc Hts) as [Hc2 Hr2].
  rewrite map_app, messages_calls_app, messages_results_app, Hc1, Hc2. split; [done|by apply Forall2_app].
Qed.

Lemma turns_spec_carried capabilities policy turns pss :
  Forall2 (turn_spec capabilities policy) turns pss → Allowed policy = ∅ →
  Forall turn_ok turns → Forall (has_developer_role capabilities) turns →
  (∃ mss, Forall2 turn_carried (filter (λ t, t_Role t ≠ CanonicalSystem) turns) mss ∧
          map p_message (filter (λ p, p_system p = false) (concat pss)) = concat mss) ∧
  concat (map block_texts (map p_message (filter (λ p, p_system p = true) (concat pss)))) =
    concat (map (λ t, map part_text (t_Parts t)) (filter (λ t, t_Role t = CanonicalSystem) turns)).
Proof.
  intros H He. induction H as [|t ps turns pss (_ & _ & Hs) _ IH]; simpl; [intros _ _; split; [by exists [] | done]|].
  intros [Ht Hts]%Forall_cons [Hd Hds]%Forall_cons. destruct (IH Hts Hds) as [(mss & Hm & Hdlg) Htext].
  destruct (Hs He Ht Hd) as [Hcar Hps]. rewrite !filter_cons, !filter_app.
  destruct (decide (t_Role t = CanonicalSystem)) as [E|E].
  - rewrite bool_decide_eq_true_2 in Hps by done.
    rewrite (filter_none p_system false), (filter_all p_system true) by done.
    rewrite decide_False by tauto. split; [by exists mss|]. simpl. rewrite <- Htext, map_app, map_app, concat_app. f_equal.
    unfold turn_carried in Hcar. rewrite E in Hcar. destruct Hcar as (role & _ & -> & _). simpl.
    by rewrite app_nil_r, plain_block_texts.
  - rewrite bool_decide_eq_false_2 in Hps by done.
    rewrite (filter_all p_system false), (filter_none p_system true) by done.
    rewrite decide_True by done. split; [|done]. exists (map p_message ps :: mss). split; [by constructor|].
    simpl. by rewrite map_app, Hdlg.
Qed.

Lemma prime_message_keeps m rest : m_ToolCallID m = None →
  messages_calls (prime_message m :: rest) = messages_calls (m :: rest) ∧
  messages_results (prime_message m :: rest) = messages_results (m :: rest) ∧
  (system_leads (m :: rest) → system_leads (prime_message m :: rest)).
Proof.
  intros Hn. split; [done|]. split; [by unfold messages_results; simpl; rewrite Hn|].
  intros Hl [|i] x Hx Hr; [done|]. by apply (Hl (S i) x).
Qed.

Lemma prime_post capabilities request context ms : Forall tool_named ms →
  has_post (prime capabilities request context ms)
    (λ ms', messages_calls ms' = messages_calls ms ∧ messages_results ms' = messages_results ms ∧
            (system_leads ms → system_leads ms') ∧ (cap_MultiAgentPriming capabilities = false → ms' = ms)).
Proof.
  intros Hnamed. unfold prime. destruct (cap_MultiAgentPriming capabilities); simpl; [|by apply post_ret].
  destruct (declaresMultiAgentTools _ _); [|by apply post_ret]. unfold applyMultiAgentPriming. cbv zeta.
  assert (Hpre : (∀ m, head ms = Some m → m_Role m ≠ ChatMessageRoleSystem) → system_leads ms →
    system_leads (plain_message ChatMessageRoleSystem [TextBlock MultiAgentPrimingReminderText] :: ms)).
  { intros Hh Hl [|i] m Hm Hr; [done|]. simpl in Hm. pose proof (Hl i m Hm Hr) as ->. exfalso.
    destruct ms as [|m0 ms]; [done|]. injection Hm as ->. by apply (Hh m). }
  destruct ms as [|m rest].
  { apply post_seq, post_ret. split_and!; [done|done| |done]. intros Hl. by apply Hpre. }
  apply Forall_cons in Hnamed as [Hm _].
  assert (Hnone : m_Role m ≠ ChatMessageRoleTool → m_ToolCallID m = None).
  { intros Hr. destruct (m_ToolCallID m) as [c|] eqn:E; [|done]. exfalso. apply Hr, Hm. rewrite E. by exists c. }
  destruct (m_Role m) eqn:Em; try (destruct (prime_message_keeps m rest (Hnone ltac:(done))) as (Hk1 & Hk2 & Hk3)); apply post_seq, post_ret; split_and!; try done;
    intros Hl; apply Hpre; try done; intros m' [= <-]; by rewrite Em.
Qed.

(** What the messages of a rendered request keep of its turns. *)
Definition messages_spec (request : CanonicalRequest) (context : ExchangeContext) (capabilities : ChatCapabilities)
    (ms : list ChatMessage) : Prop :=
  messages_calls ms = concat (map turn_calls (Turns request)) ∧
  Forall2 (result_kept capabilities (x_LossPolicy context)) (concat (map turn_results (Turns request))) (messages_results ms) ∧
  (cap_SystemAnywhere capabilities = false → system_leads ms) ∧
  (Allowed (x_LossPolicy context) = ∅ → Forall (has_developer_role capabilities) (Turns request) →
   cap_MultiAgentPriming capabilities = false → turns_carried (Turns request) ms).

Lemma render_messages_post request context capabilities :
  Forall turn_ok (Turns request) →
  has_post (render_messages request context capabilities) (messages_spec request context capabilities).
Proof.
  intros Hok. unfold render_messages. cbv zeta.
  eapply post_bind; [apply post_collect; intros i t; apply turn_post|]. intros rendered (pss & Hall & ->).
  destruct (turns_spec_placed _ _ _ _ Hall) as [Hw Hcalls]. destruct (Hcalls Hok) as [Hc Hr].
  eapply post_bind; [by apply place_post|]. intros ms (Hpc & Hpr & Hnamed & Hl & Hd & Ht).
  apply (post_bind _ _ (λ ms', ms' = ms)); [unfold representable; case_match; [apply post_fail | by apply post_ret]|].
  intros ? ->. eapply post_weaken; [by apply prime_post|]. intros ms' (Hc' & Hr' & Hl' & Hsame). unfold messages_spec.
  rewrite Hc', Hr', Hpc, Hpr, Hc. split_and!; [done|done|auto|]. intros He Hdev Hp. rewrite Hsame by done.
  destruct (turns_spec_carried _ _ _ _ Hall He Hok Hdev) as [Hcar Htext]. unfold turns_carried. by rewrite Hd, Ht, Htext.
Qed.

(** ** Controls *)

(** A control reaches the wire, or its capability is withdrawn and its loss allowed. *)
Definition carried_or_allowed {A} (have : bool) (policy : LossPolicy) (feature : Feature) (absent sent got : A) : Prop :=
  got = sent ∨ (have = false ∧ feature ∈ Allowed policy ∧ got = absent).

Definition tool_carried (float64Bounds : bool) (tool : CanonicalTool) (w : ChatTool) : Prop :=
  ct_Name w = tool_Name tool ∧ ct_Description w = tool_Description tool ∧ ct_Strict w = tool_Strict tool ∧
  if float64Bounds then ct_Parameters w = tool_JSONSchema tool
  else ∃ changed, dropVacuousNumericBounds (tool_JSONSchema tool) = Some (ct_Parameters w, changed).

Definition choice_carried (choice : option CanonicalToolChoice) (w : option ChatToolChoice) : Prop :=
  match choice, w with
  | None, None => True
  | Some c, Some (ChoiceMode mode) => tc_Mode c = mode ∧ mode ∈ choice_modes
  | Some c, Some (ChoiceFunction name) => tc_Mode c = lit "named" ∧ tc_Name c = name ∧ name ≠ []
  | _, _ => False
  end.

(** The effort a request asks for where the target takes one: the budget's, else the
    client's own, else the profile's when the client expressed no intent. *)
Definition intended_effort (request : CanonicalRequest) (context : ExchangeContext) : option str :=
  let own := OriginalResponsesRequest context ≫= e_ReasoningEffort in
  match Thinking request with
  | Some t =>
      match th_BudgetTokens t with
      | Some budget => if decide (th_Type t = lit "enabled") then Some (lit (thinkingBudgetToEffort budget)) else own
      | None => own
      end
  | None =>
      match own with
      | Some effort => Some effort
      | None => if decide (ResolvedReasoningTier context = []) then None else Some (ResolvedReasoningTier context)
      end
  end.

Definition controls_spec (request : CanonicalRequest) (context : ExchangeContext) (capabilities : ChatCapabilities)
    (out : ChatRequest) : Prop :=
  let policy := x_LossPolicy context in
  carried_or_allowed (cap_Metadata capabilities) policy "metadata" ∅ (Metadata request) (c_Metadata out) ∧
  carried_or_allowed (cap_ParallelToolCalls capabilities) policy "parallel_tool_calls" None (ParallelTools request) (ParallelToolCalls out) ∧
  carried_or_allowed (cap_StopSequences capabilities) policy "stop_sequences" [] (StopSequences request) (Stop out) ∧
  carried_or_allowed (cap_StructuredOutputs capabilities) policy "structured_output" None (StructuredOutput request) (ResponseFormat out) ∧
  Forall2 (tool_carried (cap_Float64Bounds capabilities)) (Tools request) (c_Tools out) ∧
  choice_carried (ToolChoice request) (c_ToolChoice out) ∧
  ReasoningEffort out = (if cap_ReasoningEffort capabilities then intended_effort request context else None).

Lemma gated_post {A} have policy f path detail (v : option A) :
  has_post (gated have policy f path detail v)
    (λ o, o = (if have then v else None) ∧ (have = false → v ≠ None → f ∈ Allowed policy)).
Proof.
  unfold gated. destruct v as [v|]; [|apply post_ret; by destruct have]. destruct have; [by apply post_ret|].
  eapply (post_bind _ _ (λ _, f ∈ Allowed policy)); [by apply post_Lose|]. intros [] Hf. by apply post_ret.
Qed.

Lemma gated_carried {A B} have policy f (v : option A) (absent : B) (g : A → B) sent :
  sent = from_option g absent v → (have = false → v ≠ None → f ∈ Allowed policy) →
  carried_or_allowed have policy f absent sent (from_option g absent (if have then v else None)).
Proof.
  intros -> Hf. unfold carried_or_allowed. destruct have, v; [by left|by left|right|by left]. split_and!; [done|by apply Hf|done].
Qed.

Lemma resolved_effort_spec request context cap :
  let own := OriginalResponsesRequest context ≫= e_ReasoningEffort in
  resolved_effort request context cap
    (match Thinking request with
     | Some t => match th_BudgetTokens t with
                 | Some budget => if decide (th_Type t = lit "enabled") then
                                    if cap then Some (lit (thinkingBudgetToEffort budget)) else if cap then own else None
                                  else if cap then own else None
                 | None => if cap then own else None
                 end
     | None => if cap then own else None
     end) = (if cap then intended_effort request context else None).
Proof.
  unfold resolved_effort, intended_effort. destruct (Thinking request) as [t|].
  - rewrite andb_false_r. simpl. destruct cap, (th_BudgetTokens t); try done. by case_decide.
  - destruct cap; [|by rewrite andb_false_r]. rewrite !andb_true_r. simpl.
    destruct (OriginalResponsesRequest context ≫= e_ReasoningEffort); [by rewrite andb_false_r|]. rewrite andb_true_r.
    destruct (is_empty (ResolvedReasoningTier context)) eqn:Ee.
    + apply is_empty_spec in Ee. by rewrite decide_True.
    + rewrite decide_False; [done|]. intros Hx. by rewrite Hx in Ee.
Qed.

Lemma tools_post float64 noted tools : has_post (render_tools float64 noted tools) (Forall2 (tool_carried float64) tools).
Proof.
  revert noted. induction tools as [|tool tools IH]; intros noted; simpl; [by apply post_ret|].
  eapply (post_bind _ _ (λ rw, if float64 then fst rw = tool_JSONSchema tool
                                else dropVacuousNumericBounds (tool_JSONSchema tool) = Some rw)).
  { destruct float64; [by apply post_ret|]. destruct (dropVacuousNumericBounds _); [by apply post_ret | apply post_fail]. }
  intros [parameters changed] Hp. apply post_seq. eapply post_bind; [apply IH|]. intros rest Hrest. apply post_ret.
  constructor; [|done]. repeat split. destruct float64; [done | by exists changed].
Qed.

Lemma choice_post choice : has_post (render_choice choice) (choice_carried choice).
Proof.
  destruct choice as [c|]; simpl; [|by apply post_ret]. eapply (post_bind _ _ (λ w, choice_carried (Some c) (Some w))).
  - apply post_lift. intros w. unfold canonicalToolChoiceToChat. case_bool_decide as Hm; [intros [= <-]; by split|].
    destruct (str_eqb _ _) eqn:En; [|done]. destruct (is_empty (tc_Name c)) eqn:Ee; [done|]. intros [= <-].
    apply str_eqb_eq in En. split; [done|]. split; [done|]. intros Hx. by rewrite Hx in Ee.
  - intros w Hw. by apply post_ret.
Qed.

Lemma thinking_post cap policy thinking effort :
  has_post (render_thinking cap policy thinking effort)
    (λ e, e = match thinking with
              | Some t => match th_BudgetTokens t with
                          | Some budget => if decide (th_Type t = lit "enabled") then
                                             if cap then Some (lit (thinkingBudgetToEffort budget)) else effort
                                           else effort
                          | None => effort
                          end
              | None => effort
              end).
Proof.
  unfold render_thinking. destruct thinking as [t|]; [|by apply post_ret].
  destruct (str_eqb (th_Type t) (lit "enabled")) eqn:Et.
  - apply str_eqb_eq in Et. destruct (th_BudgetTokens t); [|by apply post_seq, post_ret]. rewrite decide_True by done.
    destruct cap; by apply post_seq, post_ret.
  - assert (th_Type t ≠ lit "enabled") by (intros Hx; by rewrite Hx, str_eqb_refl in Et).
    clear Et. destruct (th_BudgetTokens t); [rewrite decide_False by done|];
      (destruct (str_eqb _ _); [by apply post_seq, post_ret|]);
      (destruct (str_eqb _ _); [by apply post_seq, post_ret | by apply post_ret]).
Qed.

Lemma developer_post capabilities policy turns :
  has_post (developer_losses capabilities policy turns)
    (λ _, Allowed policy = ∅ → Forall (has_developer_role capabilities) turns).
Proof.
  unfold developer_losses. eapply post_weaken.
  { apply (post_collect _ (λ t _, Allowed policy = ∅ → has_developer_role capabilities t)). intros _ t.
    eapply (post_bind _ _ (λ _, Allowed policy = ∅ → has_developer_role capabilities t)); [|intros [] H; by apply post_ret].
    unfold has_developer_role. case_bool_decide; simpl; [|by apply post_ret].
    destruct (cap_DeveloperRole capabilities); simpl; [by apply post_ret|].
    eapply post_weaken; [apply post_Lose_some|]. by intros []. }
  intros _ (bss & Hall & _) He. induction Hall; constructor; auto.
Qed.

Lemma validated_turns request : ValidateCanonicalRequest request = Ok tt → Forall turn_ok (Turns request).
Proof.
  intros Hv%first_error_ok. eapply Forall_impl; [exact Hv|]. intros t. apply validate_turn_ok.
Qed.

Lemma RenderChatRequest_post request context capabilities :
  has_post (RenderChatRequest request context capabilities)
    (λ out, Forall turn_ok (Turns request) ∧
            (Allowed (x_LossPolicy context) = ∅ → Forall (has_developer_role capabilities) (Turns request)) ∧
            messages_spec request context capabilities (Messages out) ∧
            controls_spec request context capabilities out).
Proof.
  unfold RenderChatRequest. cbv zeta.
  eapply (post_bind _ _ (λ _, Forall turn_ok (Turns request))).
  { apply post_lift. intros []. apply validated_turns. }
  intros [] Hok. apply post_seq. eapply post_bind; [apply gated_post|]. intros metadata Hmeta. apply post_seq.
  eapply post_bind; [apply developer_post|]. intros devs Hdev.
  eapply post_bind; [by apply render_messages_post|]. intros ms Hms.
  eapply post_bind; [apply tools_post|]. intros tools Htools.
  eapply post_bind; [apply choice_post|]. intros choice Hchoice.
  eapply post_bind; [apply gated_post|]. intros parallel Hpar.
  eapply post_bind; [apply gated_post|]. intros stop Hstop.
  eapply post_bind; [apply gated_post|]. intros format Hformat.
  eapply post_bind; [apply gated_post|]. intros effort Heffort. apply post_seq.
  eapply post_bind; [apply thinking_post|]. intros effort' ->. apply post_ret. simpl.
  destruct Hmeta as [-> Hmeta], Hpar as [-> Hpar], Hstop as [-> Hstop], Hformat as [-> Hformat], Heffort as [-> _].
  split; [done|]. split; [done|]. split; [done|]. unfold controls_spec. simpl. split_and!; try done.
  - apply (gated_carried _ _ _ _ _ id); [by case_bool_decide | done].
  - pose proof (gated_carried (cap_ParallelToolCalls capabilities) (x_LossPolicy context) _ (ParallelTools request) None Some _ eq_refl Hpar) as H.
    by destruct (ParallelTools request), (cap_ParallelToolCalls capabilities).
  - apply (gated_carried _ _ _ _ _ id); [by destruct (StopSequences request) | done].
  - pose proof (gated_carried (cap_StructuredOutputs capabilities) (x_LossPolicy context) _ (StructuredOutput request) None Some _ eq_refl Hformat) as H.
    by destruct (StructuredOutput request), (cap_StructuredOutputs capabilities).
  - apply resolved_effort_spec.
Qed.

(** Retained turns come first, so a system message after the dialogue is never one of
    them: the all-retained case of the consolidation does not occur. *)
Lemma all_retained_unreachable retained own :
  Forall (λ p, p_retained p = true) retained → Forall (λ p, p_retained p = false) own →
  let c := split_channels (retained ++ own) in midDialog c = [] ∨ midDialogAllRetained c = false.
Proof.
  intros Hr Ho. cbv zeta. unfold split_channels. rewrite fold_left_app.
  assert (Hpre : ∀ c, sawDialog c = false ∧ midDialog c = [] →
            sawDialog (fold_left split_step retained c) = false ∧ midDialog (fold_left split_step retained c) = []).
  { induction Hr as [|p ps Hp _ IH]; intros c [Hs Hm]; [done|]. apply IH. unfold split_step. rewrite Hs, Hp.
    by destruct (p_system p). }
  assert (Hown : ∀ c, midDialog c = [] ∨ midDialogAllRetained c = false →
            midDialog (fold_left split_step own c) = [] ∨ midDialogAllRetained (fold_left split_step own c) = false).
  { clear Hpre. induction Ho as [|p ps Hp _ IH]; intros c Hc; [done|]. apply IH. unfold split_step. rewrite Hp.
    destruct (p_system p), (sawDialog c); simpl; try done. right. by rewrite andb_false_r. }
  apply Hown. left. by apply Hpre.
Qed.

(** ** Examples *)

Definition no_capabilities : ChatCapabilities :=
  {| cap_Metadata := false; cap_Float64Bounds := true; cap_DeveloperRole := false; cap_ImageInput := false;
     cap_StructuredOutputs := false; cap_ParallelToolCalls := false; cap_StopSequences := false; cap_ReasoningEffort := false;
     cap_SystemAnywhere := false; cap_ToolResultImages := false; cap_MultiAgentPriming := false |}.

Definition images_in_results : ChatCapabilities :=
  {| cap_Metadata := false; cap_Float64Bounds := true; cap_DeveloperRole := false; cap_ImageInput := true;
     cap_StructuredOutputs := false; cap_ParallelToolCalls := false; cap_StopSequences := false; cap_ReasoningEffort := false;
     cap_SystemAnywhere := false; cap_ToolResultImages := true; cap_MultiAgentPriming := false |}.

Definition example_context (policy : LossPolicy) : ExchangeContext :=
  {| UpstreamModel := lit "m"; x_LossPolicy := policy; OriginalResponsesRequest := None; RequestDepth := 0;
     ResolvedReasoningTier := []; x_ToolNames := None |}.

Definition example_request (retained : nat) (turns : list CanonicalTurn) : CanonicalRequest :=
  {| ClientModel := lit "c"; Turns := turns; Tools := []; RetainedTurns := retained; ToolChoice := None; ParallelTools := None;
     MaxOutputTokens := None; Temperature := None; TopP := None; StopSequences := []; StructuredOutput := None; Stream := true;
     Metadata := ∅; Thinking := None; Artifacts := {| ResponsesReasoningItems := []; AnthropicThinkingBlocks := [] |} |}.

Definition turn (role : CanonicalRole) (parts : list CanonicalPart) : CanonicalTurn := {| t_Role := role; t_Parts := parts |}.

(** A conversation with a call and its result. *)
Definition example_turns : list CanonicalTurn :=
  [turn CanonicalSystem [CanonicalText (lit "be brief")];
   turn CanonicalUser [CanonicalText (lit "time?")];
   turn CanonicalAssistant [CanonicalText (lit "asking"); CanonicalFunctionCall [] (lit "c1") (lit "now") (lit "{}")];
   turn CanonicalUser [CanonicalFunctionResult (lit "c1") false [CanonicalText (lit "12:00")]; CanonicalText (lit "so?")]].

Definition example_messages : list ChatMessage :=
  [plain_message ChatMessageRoleSystem [TextBlock (lit "be brief")];
   plain_message ChatMessageRoleUser [TextBlock (lit "time?")];
   {| m_Role := ChatMessageRoleAssistant; m_Content := Some (ContentBlocks [TextBlock (lit "asking")]);
      m_ToolCalls := [{| mc_ID := lit "c1"; mc_Name := lit "now"; mc_Arguments := lit "{}" |}]; m_Refusal := None; m_ToolCallID := None |};
   tool_message (lit "c1") (ContentStr (lit "12:00"));
   plain_message ChatMessageRoleUser [TextBlock (lit "so?")]].

Definition example_out : ChatRequest :=
  {| Model := lit "m"; Messages := example_messages; c_Temperature := None; c_TopP := None; MaxCompletionTokens := None;
     c_Stream := true; IncludeUsage := true; c_Metadata := ∅; User := None; Store := None; c_Tools := []; c_ToolChoice := None;
     ParallelToolCalls := None; Stop := []; ResponseFormat := None; ReasoningEffort := None |}.

Lemma example_renders :
  RenderChatRequest (example_request 0 example_turns) (example_context StrictLossPolicy) no_capabilities fresh_report =
  (Ok example_out, fresh_report).
Proof. by vm_compute. Qed.

(** A retained system turn after retained dialogue moves to the front, and nothing in
    the report says so. *)
Lemma retained_move_unreported :
  let turns := [turn CanonicalUser [CanonicalText (lit "a")]; turn CanonicalSystem [CanonicalText (lit "s")];
                turn CanonicalUser [CanonicalText (lit "b")]] in
  let '(res, r) := RenderChatRequest (example_request 2 turns) (example_context StrictLossPolicy) no_capabilities fresh_report in
  r = fresh_report ∧
  match res with
  | Ok out => Messages out = [plain_message ChatMessageRoleSystem [TextBlock (lit "s")];
                              plain_message ChatMessageRoleUser [TextBlock (lit "a")];
                              plain_message ChatMessageRoleUser [TextBlock (lit "b")]]
  | Err _ => False
  end.
Proof. by vm_compute. Qed.

(** Two system turns whose every part was dropped pass the degenerate check. *)
Lemma two_dropped_turns_admitted :
  let policy := {| Allowed := {[ "system_non_text_content" ]} |} in
  let dropped := turn CanonicalSystem [CanonicalImage [] (lit "http://i") [] []] in
  let run turns := fst (RenderChatRequest (example_request 0 turns) (example_context policy) no_capabilities fresh_report) in
  is_ok (run [dropped]) = false ∧
  match run [dropped; dropped] with
  | Ok out => Messages out = [plain_message ChatMessageRoleSystem [TextBlock newlines2]]
  | Err _ => False
  end.
Proof. by vm_compute. Qed.

(** Of several refusals of a turn the last alone is sent. *)
Lemma earlier_refusal_dropped :
  canonicalAssistantTurnToChatMessage (turn CanonicalAssistant [CanonicalRefusal (lit "first"); CanonicalRefusal (lit "second")]) =
  Ok {| m_Role := ChatMessageRoleAssistant; m_Content := None; m_ToolCalls := []; m_Refusal := Some (lit "second"); m_ToolCallID := None |}.
Proof. done. Qed.

(** Committing takes no room into account. *)
Lemma commit_unbounded callID parts capabilities policy r m r' :
  renderChatToolResultMultipart callID parts capabilities policy r = (Ok (Some m), r') →
  ∃ scratch, Losses r' = (Losses r ++ Losses scratch)%list ∧ ∃ blocks, multipart_blocks policy parts fresh_report = (Ok (Some blocks), scratch).
Proof.
  unfold renderChatToolResultMultipart. destruct (negb _); [done|].
  destruct (multipart_blocks policy parts fresh_report) as [[[[|b bs]|]|e] scratch]; try done.
  intros [= <- <-]. exists scratch. split; [done|]. by exists (b :: bs).
Qed.

(** The multipart attempt rejects what the envelope converts. *)
Lemma attempt_rejects :
  let policy := {| Allowed := {[ "tool_result_multimodal_content"; "tool_result_json_envelope" ]} |} in
  let parts := [CanonicalImage [] (lit "http://i") [] (lit "original"); CanonicalDocument [] (lit "http://d") [] [] []] in
  is_ok (fst (renderChatToolResult (lit "c1") false parts images_in_results policy fresh_report)) = false ∧
  is_ok (fst (renderChatToolResult (lit "c1") false parts no_capabilities policy fresh_report)) = true.
Proof. by vm_compute. Qed.

(** ** Properties *)

(** C30: Rendering keeps the tool protocol of a conversation under any policy: the
    function calls of the messages are the request's, with the same identities, names and
    argument texts in the same order; the results answer the same calls in the same order,
    each with all of its content ([result_kept]: its joined texts, its parts as blocks, or
    their JSON envelope, and an error marked by a text), a different form only by leave of
    the policy; and for an upstream that does not take system messages anywhere there is
    none after the first message. *)
Theorem render_keeps_protocol request context capabilities r out r' :
  RenderChatRequest request context capabilities r = (Ok out, r') →
  messages_calls (Messages out) = concat (map turn_calls (Turns request)) ∧
  Forall2 (result_kept capabilities (x_LossPolicy context)) (concat (map turn_results (Turns request)))
    (messages_results (Messages out)) ∧
  (cap_SystemAnywhere capabilities = false → system_leads (Messages out)).
Proof.
  intros H. apply RenderChatRequest_post in H as (_ & _ & (Hc & Hr & Hl & _) & _). auto.
Qed.

Lemma render_keeps_protocol_witness :
  messages_calls example_messages = concat (map turn_calls example_turns) ∧
  Forall2 (result_kept no_capabilities StrictLossPolicy) (concat (map turn_results example_turns)) (messages_results example_messages) ∧
  (cap_SystemAnywhere no_capabilities = false → system_leads example_messages).
Proof. apply (render_keeps_protocol _ _ _ _ _ _ example_renders). Defined.

(** Nothing is lost in silence: when the policy allows no loss, a request that
    renders loses nothing.  The report holds notes alone, every user and developer
    turn is carried part by part in order (images with their source and detail, each
    result with its content), every assistant turn with its texts, calls and last
    refusal, the system channel with its text, and the controls as they were sent. *)
Theorem strict_loses_nothing request context capabilities out r :
  Allowed (x_LossPolicy context) = ∅ → cap_MultiAgentPriming capabilities = false →
  RenderChatRequest request context capabilities fresh_report = (Ok out, r) →
  Forall (λ e, l_Kind e = NoteRecord) (Losses r) ∧ turns_carried (Turns request) (Messages out) ∧
  c_Metadata out = Metadata request ∧ ParallelToolCalls out = ParallelTools request ∧
  Stop out = StopSequences request ∧ ResponseFormat out = StructuredOutput request.
Proof.
  intros He Hp H. pose proof (RenderChatRequest_lawful capabilities _ request context eq_refl fresh_report (Forall_nil_2 _)) as Hl.
  rewrite H in Hl. apply RenderChatRequest_post in H as (_ & Hdev & (_ & _ & _ & Hc) & Hm & Hpar & Hstop & Hfmt & _).
  assert (Hkeep : ∀ A have f (absent sent got : A), carried_or_allowed have (x_LossPolicy context) f absent sent got → got = sent).
  { intros A have f absent sent got [->|(_ & Hf & _)]; [done|]. rewrite He in Hf. by apply elem_of_empty in Hf. }
  split; [|split; [by auto|]; split_and!; by eapply Hkeep].
  eapply Forall_impl; [exact Hl|]. intros e Hloss. unfold loss_allowed in Hloss. rewrite He in Hloss.
  destruct (l_Kind e); [|done]. by apply elem_of_empty in Hloss.
Qed.

Lemma strict_loses_nothing_witness :
  Forall (λ e, l_Kind e = NoteRecord) (Losses fresh_report) ∧ turns_carried example_turns example_messages ∧
  c_Metadata example_out = ∅ ∧ ParallelToolCalls example_out = None ∧ Stop example_out = [] ∧ ResponseFormat example_out = None.
Proof. apply (strict_loses_nothing (example_request 0 example_turns) (example_context StrictLossPolicy) no_capabilities example_out fresh_report);
    [done|done|exact example_renders]. Defined.

(** Under any policy each control of a request reaches the wire or is dropped
    under a withdrawn capability and an allowed loss; tools keep their name, schema
    (but for vacuous bounds where asked) and strictness; and the reasoning effort is
    the client's budget, else its own effort, else the profile's tier when the client
    expressed no intent, and none where the target takes none. *)
Theorem render_controls request context capabilities r out r' :
  RenderChatRequest request context capabilities r = (Ok out, r') → controls_spec request context capabilities out.
Proof. intros H. by apply RenderChatRequest_post in H as (_ & _ & _ & Hc). Qed.

Lemma render_controls_witness :
  controls_spec (example_request 0 example_turns) (example_context StrictLossPolicy) no_capabilities example_out.
Proof. apply (render_controls _ _ _ _ _ _ example_renders). Defined.

(** A conversion never spends a permission it was not given: every loss in the
    report of a rendering, whether it succeeds or stops with an error, is one the
    policy allows. *)
Theorem render_losses_allowed request context capabilities :
  Forall (loss_allowed (x_LossPolicy context)) (Losses (snd (RenderChatRequest request context capabilities fresh_report))).
Proof. apply (RenderChatRequest_lawful capabilities _ request context eq_refl fresh_report). constructor. Qed.
