(* ===== verification/Emitter.v ===== *)
(** * Emitting computations

    The stream converters are methods of a state machine that append the events they
    build to a slice and may stop with an error.  [M] is their monad: a computation
    over a state that emits events in order and ends in a value or an error; what it
    changed before an error stays changed.  [wp] is its program logic: the events are
    related to a ghost state, for instance the state of whoever reads them. *)

From Stdlib Require Import List.
From stdpp Require Import list.
From S2P Require Import Prelude GoStd.

(** ** Computations *)

Definition M (St Ev Er A : Type) : Type := St → result Er A * list Ev * St.

Section computations.
Context {St Ev Er : Type}.
Implicit Types s : St.

Definition mret {A} (a : A) : M St Ev Er A := λ s, (Ok a, [], s).

Definition mfail {A} (e : Er) : M St Ev Er A := λ s, (Err e, [], s).

Definition mbind {A B} (m : M St Ev Er A) (k : A → M St Ev Er B) : M St Ev Er B :=
  λ s, match m s with
       | (Ok a, evs, s) => let '(r, evs', s) := k a s in (r, (evs ++ evs')%list, s)
       | (Err e, evs, s) => (Err e, evs, s)
       end.

Definition gets {A} (g : St → A) : M St Ev Er A := λ s, (Ok (g s), [], s).

Definition modify (g : St → St) : M St Ev Er unit := λ s, (Ok tt, [], g s).

Definition mwhen (b : bool) (m : M St Ev Er unit) : M St Ev Er unit := if b then m else mret tt.

(** The value of an option, or the error. *)
Definition or_fail {A} (o : option A) (e : Er) : M St Ev Er A := match o with Some a => mret a | None => mfail e end.

(** What a failing computation built is not returned. *)
Definition deliver {A} (m : M St Ev Er A) : M St Ev Er A :=
  λ s, match m s with
       | (Ok a, evs, s) => (Ok a, evs, s)
       | (Err e, _, s) => (Err e, [], s)
       end.

(** A computation for each element, with its position. *)
Fixpoint for_each {A} (f : nat → A → M St Ev Er unit) (i : nat) (l : list A) : M St Ev Er unit :=
  match l with
  | [] => mret tt
  | a :: l => mbind (f i a) (λ _, for_each f (S i) l)
  end.
End computations.

Declare Scope stream_scope.
Delimit Scope stream_scope with stream.
Notation "x <== m ;; k" := (mbind m (λ x, k)) (at level 60, m at level 59, right associativity) : stream_scope.
Notation "m ;;= k" := (mbind m (λ _, k)) (at level 60, right associativity) : stream_scope.

(** ** Program logic *)

(** A reader of the events: a relation on ghost states that is closed under
    concatenation of the events. *)
Class Reader {Ev G : Type} (R : list Ev → G → G → Prop) := {
  reads_nil : ∀ g, R [] g g;
  reads_app : ∀ l1 l2 g1 g2 g3, R l1 g1 g2 → R l2 g2 g3 → R (l1 ++ l2)%list g1 g3;
}.

Section logic.
Context {St Ev Er G : Type} (R : list Ev → G → G → Prop) `{!Reader R} (bad : Er → Prop).
Implicit Types (s : St) (g : G).

(** The events of [m] can be read from [g], it does not end in a bad error, and its
    result, state and ghost state satisfy [Q]. *)
Definition wp {A} (m : M St Ev Er A) (Q : A → St → G → Prop) s g : Prop :=
  let '(r, evs, s') := m s in
  (∀ e, r = Err e → ¬ bad e) ∧ ∃ g', R evs g g' ∧ ∀ a, r = Ok a → Q a s' g'.

Lemma wp_ret {A} (a : A) (Q : A → St → G → Prop) s g : Q a s g → wp (mret a) Q s g.
Proof. intros HQ. split; [done|]. exists g. split; [apply reads_nil|]. by intros ? [= <-]. Qed.

Lemma wp_fail {A} (e : Er) (Q : A → St → G → Prop) s g : ¬ bad e → wp (mfail e) Q s g.
Proof. intros He. split; [by intros ? [= <-]|]. exists g. split; [apply reads_nil|done]. Qed.

Lemma wp_bind {A B} (m : M St Ev Er B) (k : B → M St Ev Er A) Q s g :
  wp m (λ b s g, wp (k b) Q s g) s g → wp (mbind m k) Q s g.
Proof.
  unfold wp, mbind. destruct (m s) as [[r evs] s1]. intros (Hp & g1 & Hl & HQ). destruct r as [b|e].
  - specialize (HQ b eq_refl). destruct (k b s1) as [[r evs'] s2]. destruct HQ as (Hp' & g2 & Hl' & HQ).
    split; [done|]. exists g2. split; [by eapply reads_app|done].
  - split; [by intros ? [= <-]; apply Hp|]. by exists g1.
Qed.

Lemma wp_mono {A} (m : M St Ev Er A) (Q Q' : A → St → G → Prop) s g :
  wp m Q s g → (∀ a s g, Q a s g → Q' a s g) → wp m Q' s g.
Proof.
  unfold wp. destruct (m s) as [[r evs] s1]. intros (Hp & g1 & Hl & HQ) Hm. split; [done|]. exists g1. eauto.
Qed.

Lemma wp_gets {A} (f : St → A) (Q : A → St → G → Prop) s g : Q (f s) s g → wp (gets f) Q s g.
Proof. intros HQ. split; [done|]. exists g. split; [apply reads_nil|]. by intros ? [= <-]. Qed.

Lemma wp_modify f (Q : unit → St → G → Prop) s g : Q tt (f s) g → wp (modify f) Q s g.
Proof. intros HQ. split; [done|]. exists g. split; [apply reads_nil|]. by intros ? [= <-]. Qed.

Lemma wp_when b m (Q : unit → St → G → Prop) s g :
  (b = true → wp m Q s g) → (b = false → Q tt s g) → wp (mwhen b m) Q s g.
Proof. intros Ht Hf. destruct b; [by apply Ht|by apply wp_ret, Hf]. Qed.

Lemma wp_or_fail {A} (o : option A) e (Q : A → St → G → Prop) s g :
  (o = None → ¬ bad e) → (∀ a, o = Some a → Q a s g) → wp (or_fail o e) Q s g.
Proof. intros He HQ. destruct o as [a|]; [by apply wp_ret, HQ|by apply wp_fail, He]. Qed.

Lemma wp_deliver {A} (m : M St Ev Er A) Q s g : wp m Q s g → wp (deliver m) Q s g.
Proof.
  unfold wp, deliver. destruct (m s) as [[[a|e] evs] s1]; [done|]. intros (Hp & _). split; [done|].
  exists g. split; [apply reads_nil|done].
Qed.

Lemma wp_for_each {A} (f : nat → A → M St Ev Er unit) (I : nat → list A → St → G → Prop) i l s g :
  (∀ i a l s g, I i (a :: l) s g → wp (f i a) (λ _, I (S i) l) s g) →
  I i l s g → wp (for_each f i l) (λ _, I (i + length l)%nat []) s g.
Proof.
  intros Hf. revert i s g. induction l as [|a l IH]; intros i s g HI; simpl.
  - apply wp_ret. by rewrite Nat.add_0_r.
  - apply wp_bind. eapply wp_mono; [by apply Hf|]. intros [] s1 g1 H1. rewrite Nat.add_succ_r. by apply (IH (S i)).
Qed.

(** From the logic to a run. *)
Lemma wp_ok {A} (m : M St Ev Er A) Q s g a evs s' :
  wp m Q s g → m s = (Ok a, evs, s') → ∃ g', R evs g g' ∧ Q a s' g'.
Proof. unfold wp. intros Hw Hm. rewrite Hm in Hw. destruct Hw as (_ & g' & HR & HQ). eauto. Qed.

Lemma wp_run {A} (m : M St Ev Er A) Q s g r evs s' :
  wp m Q s g → m s = (r, evs, s') → (∀ e, r = Err e → ¬ bad e) ∧ ∃ g', R evs g g'.
Proof. unfold wp. intros Hw Hm. rewrite Hm in Hw. destruct Hw as (Hb & g' & HR & _). eauto. Qed.
End logic.

(** A computation that keeps a relation of the state and what was read. *)
Section preserving.
Context {St Ev Er G : Type} (R : list Ev → G → G → Prop) `{!Reader R} (bad : Er → Prop) (P : St → G → Prop).

Definition preserves {A} (m : M St Ev Er A) : Prop := ∀ s g, P s g → wp R bad m (λ _ s g, P s g) s g.

Lemma preserves_ret {A} (a : A) : preserves (mret a).
Proof. intros s g H. by apply (wp_ret R). Qed.

Lemma preserves_fail {A} e : ¬ bad e → preserves (A := A) (mfail e).
Proof. intros He s g H. by apply (wp_fail R). Qed.

Lemma preserves_gets {A} (f : St → A) : preserves (gets f).
Proof. intros s g H. by apply (wp_gets R). Qed.

Lemma preserves_modify f : (∀ s g, P s g → P (f s) g) → preserves (modify f).
Proof. intros Hf s g H. by apply (wp_modify R), Hf. Qed.

Lemma preserves_bind {A B} (m : M St Ev Er B) (k : B → M St Ev Er A) : preserves m → (∀ b, preserves (k b)) → preserves (mbind m k).
Proof. intros Hm Hk s g H. apply (wp_bind R). eapply (wp_mono R); [by apply Hm|]. intros b s1 g1 H1. by apply Hk. Qed.

Lemma preserves_when b m : preserves m → preserves (mwhen b m).
Proof. destruct b; [done|]. intros _. apply preserves_ret. Qed.

Lemma preserves_or_fail {A} (o : option A) e : ¬ bad e → preserves (or_fail o e).
Proof. intros He. destruct o; [apply preserves_ret|by apply preserves_fail]. Qed.

Lemma preserves_for_each {A} (f : nat → A → M St Ev Er unit) i l : (∀ i a, preserves (f i a)) → preserves (for_each f i l).
Proof.
  intros Hf. revert i. induction l as [|a l IH]; intros i; simpl; [apply preserves_ret|].
  apply preserves_bind; [apply Hf|]. intros _. apply IH.
Qed.
End preserving.

Ltac preserves_step :=
  first
    [ apply preserves_bind; [apply _|..] | apply preserves_ret; [apply _|..] | apply preserves_gets; [apply _|..]
    | apply preserves_when; [apply _|..] | apply preserves_for_each; [apply _|..] ].

(** A computation that emits nothing, ends in no bad error and keeps a function of the
    state. *)
Section quiet.
Context {St Ev Er K : Type} (kept : St → K) (bad : Er → Prop).

Definition quiet {A} (m : M St Ev Er A) : Prop :=
  ∀ s, let '(r, evs, s') := m s in (∀ e, r = Err e → ¬ bad e) ∧ evs = [] ∧ kept s' = kept s.

Lemma quiet_ret {A} (a : A) : quiet (mret a).
Proof. by intros s. Qed.

Lemma quiet_fail {A} e : ¬ bad e → quiet (A := A) (mfail e).
Proof. intros He s. split_and!; [by intros ? [= <-]|done|done]. Qed.

Lemma quiet_gets {A} (g : St → A) : quiet (gets g).
Proof. by intros s. Qed.

Lemma quiet_modify g : (∀ s, kept (g s) = kept s) → quiet (modify g).
Proof. intros Hg s. simpl. split_and!; [done|done|apply Hg]. Qed.

Lemma quiet_bind {A B} (m : M St Ev Er B) (k : B → M St Ev Er A) : quiet m → (∀ b, quiet (k b)) → quiet (mbind m k).
Proof.
  intros Hm Hk s. specialize (Hm s). unfold mbind. destruct (m s) as [[r evs] s1]. destruct Hm as (Hp & -> & Hc).
  destruct r as [b|e]; [|split_and!; [by intros ? [= <-]; apply Hp|done|done]]. specialize (Hk b s1).
  destruct (k b s1) as [[r evs'] s2]. destruct Hk as (Hp' & -> & Hc'). split_and!; [done|done|]. by rewrite Hc', Hc.
Qed.

Lemma quiet_when b m : quiet m → quiet (mwhen b m).
Proof. destruct b; [done|]. intros _. apply quiet_ret. Qed.

Lemma quiet_or_fail {A} (o : option A) e : ¬ bad e → quiet (or_fail o e).
Proof. intros He. destruct o; [apply quiet_ret|by apply quiet_fail]. Qed.

Lemma quiet_for_each {A} (f : nat → A → M St Ev Er unit) i l : (∀ i a, quiet (f i a)) → quiet (for_each f i l).
Proof.
  intros Hf. revert i. induction l as [|a l IH]; intros i; simpl; [apply quiet_ret|].
  apply quiet_bind; [apply Hf|]. intros _. apply IH.
Qed.

Lemma wp_quiet {G A} (R : list Ev → G → G → Prop) `{!Reader R} (m : M St Ev Er A) (Q : A → St → G → Prop) s g :
  quiet m → (∀ a s', kept s' = kept s → Q a s' g) → wp R bad m Q s g.
Proof.
  intros Hm HQ. specialize (Hm s). unfold wp. destruct (m s) as [[r evs] s']. destruct Hm as (Hp & -> & Hc).
  split; [done|]. exists g. split; [apply reads_nil|eauto].
Qed.
End quiet.

(** A computation that keeps a function of the state, whatever it emits, and ends in no
    bad error. *)
Section keeping.
Context {St Ev Er K : Type} (kept : St → K) (bad : Er → Prop).

Definition keeps {A} (m : M St Ev Er A) : Prop := ∀ s, (∀ e, (m s).1.1 = Err e → ¬ bad e) ∧ kept (m s).2 = kept s.

Lemma keeps_ret {A} (a : A) : keeps (mret a).
Proof. by intros s. Qed.

Lemma keeps_fail {A} e : ¬ bad e → keeps (A := A) (mfail e).
Proof. intros He s. split; [by intros ? [= <-]|done]. Qed.

Lemma keeps_gets {A} (g : St → A) : keeps (gets g).
Proof. by intros s. Qed.

Lemma keeps_modify g : (∀ s, kept (g s) = kept s) → keeps (modify g).
Proof. intros Hg s. split; [done|apply Hg]. Qed.

Lemma keeps_bind {A B} (m : M St Ev Er B) (k : B → M St Ev Er A) : keeps m → (∀ b, keeps (k b)) → keeps (mbind m k).
Proof.
  intros Hm Hk s. specialize (Hm s). unfold mbind. destruct (m s) as [[[b|e] evs] s1]; simpl in *; [|by split; [intros ? [= <-]; apply Hm|apply Hm]].
  specialize (Hk b s1). destruct (k b s1) as [[r evs'] s2]. simpl in *. destruct Hm as [_ <-]. done.
Qed.

Lemma keeps_when b m : keeps m → keeps (mwhen b m).
Proof. destruct b; [done|]. intros _. apply keeps_ret. Qed.

Lemma keeps_or_fail {A} (o : option A) e : ¬ bad e → keeps (or_fail o e).
Proof. intros He. destruct o; [apply keeps_ret|by apply keeps_fail]. Qed.

Lemma keeps_for_each {A} (f : nat → A → M St Ev Er unit) i l : (∀ i a, keeps (f i a)) → keeps (for_each f i l).
Proof.
  intros Hf. revert i. induction l as [|a l IH]; intros i; simpl; [apply keeps_ret|].
  apply keeps_bind; [apply Hf|]. intros _. apply IH.
Qed.

Lemma wp_keeps {G A} (R : list Ev → G → G → Prop) (bad' : Er → Prop) (m : M St Ev Er A) (Q : A → St → G → Prop) s g :
  keeps m → wp R bad' m (λ a s' g', kept s' = kept s → Q a s' g') s g → wp R bad' m Q s g.
Proof.
  intros Hm. specialize (Hm s). unfold wp. destruct (m s) as [[r evs] s']. destruct Hm as [_ Hk].
  intros (Hb & g' & HR & HQ). split; [done|]. exists g'. eauto.
Qed.
End keeping.

(** Appending to a trace is a reader. *)
Definition traced {Ev : Type} (evs tr tr' : list Ev) : Prop := tr' = (tr ++ evs)%list.

#[export] Instance traced_reader {Ev : Type} : Reader (traced (Ev := Ev)).
Proof.
  split; unfold traced; [intros g; by rewrite app_nil_r|]. intros l1 l2 g1 g2 g3 -> ->. by rewrite app_assoc.
Qed.
