(* ===== verification/ChatStream.v ===== *)
(** * Converting a Chat stream ([internal/transcode/stream_converters.go], [ids.go])

    [chatResponsesStreamState]: the machine that turns the decoded chunks of a Chat
    stream into the events of a Responses stream.  A method is a computation over the
    machine that emits events in the order it builds them and may stop with an error;
    the pending tool calls, which the code shares by pointer, are named by their
    fragment index.  The envelope's echo of the request and the values interpolated
    in error texts are not rendered; a creation time is an exact number of seconds. *)

From Stdlib Require Import ZArith QArith Qcanon Lia Bool List Ascii String.
From stdpp Require Import strings pretty gmap list.
From S2P Require Import Prelude GoStd GoStr Budget Losses Ir Usage Emitter.
From S2P Require SchemaBounds ResponsesFsm.

Open Scope string_scope.
Open Scope Z_scope.

(** ** Chunks *)

Record ChatToolCallDelta := {
  tc_Index : option Z;
  tc_ID : option string;
  tc_FunctionName : option string;
  tc_Arguments : string;
}.

(** [d_FunctionCall]: a raw legacy value other than null and blank. *)
Record ChatStreamDelta := {
  d_Content : option string;
  d_Refusal : option string;
  d_Reasoning : option string;
  d_ReasoningContent : option string;
  d_ToolCalls : list ChatToolCallDelta;
  d_FunctionCall : bool;
}.

(** [ch_LogProbs] and [c_ServiceTier] are presence. *)
Record ChatStreamChoice := {
  ch_Index : Z;
  ch_LogProbs : bool;
  ch_Delta : option ChatStreamDelta;
  ch_FinishReason : option string;
}.

Record ChatStreamResponse := {
  c_ID : string;
  c_Created : Z;
  c_Model : string;
  c_ServiceTier : bool;
  c_Choices : list ChatStreamChoice;
  c_Usage : option ChatLLMUsage;
  c_DerivedUsageTotal : string;
}.

(** ** Events *)

Inductive part_kind := KText | KRefusal.

#[export] Instance part_kind_eq_dec : EqDecision part_kind.
Proof. solve_decision. Defined.

(** A snapshot of an item; the status is whether it is completed. *)
Inductive out_item :=
| OutMessage (id : string) (completed : bool) (content : list (part_kind * string))
| OutCall (id : string) (completed : bool) (callID name namespace arguments : string)
| OutReasoning (id : string) (completed : bool) (summary : option string).

Record envelope := {
  e_ID : string;
  e_Model : string;
  e_CreatedAt : Qc;
  e_Status : string;
  e_Output : list out_item;
  e_Usage : option ResponsesUsage;
  e_IncompleteReason : option string;
}.

Inductive event_body :=
| Created (e : envelope)
| InProgress (e : envelope)
| OutputItemAdded (outputIndex : Z) (item : out_item)
| OutputItemDone (outputIndex : Z) (item : out_item)
| ContentPartAdded (itemID : string) (outputIndex contentIndex : Z) (kind : part_kind)
| ContentPartDone (itemID : string) (outputIndex contentIndex : Z) (kind : part_kind) (text : string)
| TextDelta (itemID : string) (outputIndex contentIndex : Z) (delta : string)
| TextDone (itemID : string) (outputIndex contentIndex : Z) (text : string)
| RefusalDelta (itemID : string) (outputIndex contentIndex : Z) (delta : string)
| RefusalDone (itemID : string) (outputIndex contentIndex : Z) (refusal : string)
| FunctionArgumentsDelta (itemID : string) (outputIndex : Z) (delta : string)
| FunctionArgumentsDone (itemID : string) (outputIndex : Z) (arguments : string)
| ReasoningSummaryPartAdded (itemID : string) (outputIndex : Z)
| ReasoningSummaryTextDelta (itemID : string) (outputIndex : Z) (delta : string)
| ReasoningSummaryTextDone (itemID : string) (outputIndex : Z) (text : string)
| ReasoningSummaryPartDone (itemID : string) (outputIndex : Z) (text : string)
| Completed (e : envelope)
| Incomplete (e : envelope).

Record event := { SequenceNumber : Z; ev_body : event_body }.

(** ** State *)

Record pendingToolCall := {
  itemID : string;
  outputIndex : Z;
  callID : string;
  call_name : string;
  pending : string;
  complete : string;
  call_started : bool;
}.

Inductive live_item :=
| LiveMessage (id : string) (completed : bool) (content : list (part_kind * string))
| LiveReasoning (id : string) (completed : bool) (summary : option string).

Record openResponsesItem := { oi_index : Z; oi_openPart : Z; oi_item : live_item }.

(** What does not change: the exchange's policy, capabilities, identity, tool names and
    the random prefix of its identifiers. *)
Record exchange := {
  x_policy : LossPolicy;
  x_ProviderReasoningThinking : bool;
  x_ProviderReasoningText : bool;
  x_responseID : string;
  x_model : string;
  x_ToolNames : option ToolNames;
  x_idPrefix : string;
}.

Record chatState := {
  s_exchange : exchange;
  s_createdAt : Qc;
  s_started : bool;
  s_sawFinish : bool;
  s_chunkID : string;
  s_chunkModel : string;
  s_finishReason : string;
  s_items : list openResponsesItem;
  s_itemIndex : Z;
  s_pendingCalls : gmap Z pendingToolCall;
  s_closedCalls : list pendingToolCall;
  s_textBufs : gmap (Z * Z) string;
  s_refusalBufs : gmap (Z * Z) string;
  s_serviceTierLossRecorded : bool;
  s_logprobsLossRecorded : bool;
  s_reasoningReportRecorded : bool;
  s_legacyFunctionCallNoted : bool;
  s_totalAccumulated : Z;
  s_budget : streamBudget;
  s_usage : option ResponsesUsage;
  s_report : ConversionReport;
  s_heldTerminal : list event;
  s_terminalReleased : bool;
  s_usageComponentsLossRecorded : bool;
  s_usageClampNotes : usageClampNotes;
  s_usageTotalDerivedNoted : gset string;
  s_usageMergeNoted : bool;
  s_nextSequence : Z;
  s_nextID : N;
}.

Definition eta (s : chatState) : chatState :=
  {| s_exchange := s_exchange s; s_createdAt := s_createdAt s; s_started := s_started s; s_sawFinish := s_sawFinish s;
     s_chunkID := s_chunkID s; s_chunkModel := s_chunkModel s; s_finishReason := s_finishReason s; s_items := s_items s;
     s_itemIndex := s_itemIndex s; s_pendingCalls := s_pendingCalls s; s_closedCalls := s_closedCalls s;
     s_textBufs := s_textBufs s; s_refusalBufs := s_refusalBufs s; s_serviceTierLossRecorded := s_serviceTierLossRecorded s;
     s_logprobsLossRecorded := s_logprobsLossRecorded s; s_reasoningReportRecorded := s_reasoningReportRecorded s;
     s_legacyFunctionCallNoted := s_legacyFunctionCallNoted s; s_totalAccumulated := s_totalAccumulated s;
     s_budget := s_budget s; s_usage := s_usage s; s_report := s_report s; s_heldTerminal := s_heldTerminal s;
     s_terminalReleased := s_terminalReleased s; s_usageComponentsLossRecorded := s_usageComponentsLossRecorded s;
     s_usageClampNotes := s_usageClampNotes s; s_usageTotalDerivedNoted := s_usageTotalDerivedNoted s;
     s_usageMergeNoted := s_usageMergeNoted s; s_nextSequence := s_nextSequence s; s_nextID := s_nextID s |}.

Definition set_createdAt (v : Qc) (s : chatState) : chatState := ltac:(set_field s_createdAt v s eta).
Definition set_started (v : bool) (s : chatState) : chatState := ltac:(set_field s_started v s eta).
Definition set_sawFinish (v : bool) (s : chatState) : chatState := ltac:(set_field s_sawFinish v s eta).
Definition set_chunkID (v : string) (s : chatState) : chatState := ltac:(set_field s_chunkID v s eta).
Definition set_chunkModel (v : string) (s : chatState) : chatState := ltac:(set_field s_chunkModel v s eta).
Definition set_finishReason (v : string) (s : chatState) : chatState := ltac:(set_field s_finishReason v s eta).
Definition set_items (v : list openResponsesItem) (s : chatState) : chatState := ltac:(set_field s_items v s eta).
Definition set_itemIndex (v : Z) (s : chatState) : chatState := ltac:(set_field s_itemIndex v s eta).
Definition set_pendingCalls (v : gmap Z pendingToolCall) (s : chatState) : chatState := ltac:(set_field s_pendingCalls v s eta).
Definition set_closedCalls (v : list pendingToolCall) (s : chatState) : chatState := ltac:(set_field s_closedCalls v s eta).
Definition set_textBufs (v : gmap (Z * Z) string) (s : chatState) : chatState := ltac:(set_field s_textBufs v s eta).
Definition set_refusalBufs (v : gmap (Z * Z) string) (s : chatState) : chatState := ltac:(set_field s_refusalBufs v s eta).
Definition set_serviceTierLossRecorded (v : bool) (s : chatState) : chatState := ltac:(set_field s_serviceTierLossRecorded v s eta).
Definition set_logprobsLossRecorded (v : bool) (s : chatState) : chatState := ltac:(set_field s_logprobsLossRecorded v s eta).
Definition set_reasoningReportRecorded (v : bool) (s : chatState) : chatState := ltac:(set_field s_reasoningReportRecorded v s eta).
Definition set_legacyFunctionCallNoted (v : bool) (s : chatState) : chatState := ltac:(set_field s_legacyFunctionCallNoted v s eta).
Definition set_totalAccumulated (v : Z) (s : chatState) : chatState := ltac:(set_field s_totalAccumulated v s eta).
Definition set_budget (v : streamBudget) (s : chatState) : chatState := ltac:(set_field s_budget v s eta).
Definition set_usage (v : option ResponsesUsage) (s : chatState) : chatState := ltac:(set_field s_usage v s eta).
Definition set_report (v : ConversionReport) (s : chatState) : chatState := ltac:(set_field s_report v s eta).
Definition set_heldTerminal (v : list event) (s : chatState) : chatState := ltac:(set_field s_heldTerminal v s eta).
Definition set_terminalReleased (v : bool) (s : chatState) : chatState := ltac:(set_field s_terminalReleased v s eta).
Definition set_usageComponentsLossRecorded (v : bool) (s : chatState) : chatState := ltac:(set_field s_usageComponentsLossRecorded v s eta).
Definition set_usageClampNotes (v : usageClampNotes) (s : chatState) : chatState := ltac:(set_field s_usageClampNotes v s eta).
Definition set_usageTotalDerivedNoted (v : gset string) (s : chatState) : chatState := ltac:(set_field s_usageTotalDerivedNoted v s eta).
Definition set_usageMergeNoted (v : bool) (s : chatState) : chatState := ltac:(set_field s_usageMergeNoted v s eta).
Definition set_nextSequence (v : Z) (s : chatState) : chatState := ltac:(set_field s_nextSequence v s eta).
Definition set_nextID (v : N) (s : chatState) : chatState := ltac:(set_field s_nextID v s eta).

Definition newChatResponsesStreamState (x : exchange) (createdAt : Qc) : chatState :=
  {| s_exchange := x; s_createdAt := createdAt; s_started := false; s_sawFinish := false; s_chunkID := ""; s_chunkModel := "";
     s_finishReason := ""; s_items := []; s_itemIndex := 0; s_pendingCalls := ∅; s_closedCalls := []; s_textBufs := ∅;
     s_refusalBufs := ∅; s_serviceTierLossRecorded := false; s_logprobsLossRecorded := false;
     s_reasoningReportRecorded := false; s_legacyFunctionCallNoted := false; s_totalAccumulated := 0;
     s_budget := newStreamBudget; s_usage := None; s_report := fresh_report; s_heldTerminal := []; s_terminalReleased := false;
     s_usageComponentsLossRecorded := false; s_usageClampNotes := no_notes; s_usageTotalDerivedNoted := ∅;
     s_usageMergeNoted := false; s_nextSequence := 0; s_nextID := 0%N |}.

(** ** Computations *)

(** Corrupt upstream data, an error of the conversion itself, or a nil or out of range
    access. *)
Inductive stream_error :=
| WireError (msg : string)
| LocalError (e : terr)
| Panic.

Abbreviation M := (Emitter.M chatState event stream_error).

Open Scope stream_scope.

Definition wireError {A} (msg : string) : M A := mfail (WireError msg).
Definition require (b : bool) (msg : string) : M unit := if b then mret tt else wireError msg.

(** A builder call: the next sequence number. *)
Definition emit (b : event_body) : M unit :=
  λ s, (Ok tt, [{| SequenceNumber := s_nextSequence s; ev_body := b |}], set_nextSequence (s_nextSequence s + 1) s).

(** The events of [m], held back. *)
Definition capture (m : M unit) : M (list event) :=
  λ s, match m s with
       | (Ok _, evs, s) => (Ok evs, [], s)
       | (Err e, _, s) => (Err e, [], s)
       end.

(** A call on the report. *)
Definition on_report {A} (c : Conv A) : M A :=
  λ s, let '(res, r) := c (s_report s) in
       (match res with Ok a => Ok a | Err e => Err (LocalError e) end, [], set_report r s).

Definition charge (add : streamBudget → option streamBudget) : M unit :=
  λ s, match add (s_budget s) with
       | Some b => (Ok tt, [], set_budget b s)
       | None => (Err (WireError "stream budget"), [], s)
       end.

(** [ExchangeIDs.New] *)
Definition id_of (prefix kind : string) (n : N) : string := kind ++ prefix ++ "_" ++ pretty n.

Definition new_id (kind : string) : M string :=
  λ s, let n := (s_nextID s + 1)%N in (Ok (id_of (x_idPrefix (s_exchange s)) kind n), [], set_nextID n s).

(** ** Accounting *)

Definition bytes (t : string) : Z := Z.of_nat (String.length t).

(** [chargeIdentity]; also the exchange total of [checkAccumulated]. *)
Definition chargeIdentity (n : Z) : M unit :=
  modify (λ s, set_totalAccumulated (add64 (s_totalAccumulated s) n) s) ;;=
  total <== gets s_totalAccumulated ;;
  require (total <=? maxStreamTotalAccumulatedBytes) "chat stream exceeds the exchange total".

Definition checkAccumulated (accumulated : string) (added : Z) : M unit :=
  require (bytes accumulated <=? maxStreamAccumulatedBytes) "chat stream accumulated text exceeds the bound" ;;=
  chargeIdentity added.

Definition lose (feature : Feature) (path detail : string) : M unit :=
  policy <== gets (λ s, x_policy (s_exchange s)) ;;
  on_report (Lose policy feature path detail).

Definition note (feature : Feature) (path detail : string) : M unit := on_report (Note feature path detail).

(** [m] the first time only; the flag is set before. *)
Definition once (flag : chatState → bool) (set : bool → chatState → chatState) (m : M unit) : M unit :=
  recorded <== gets flag ;;
  mwhen (negb recorded) (modify (set true) ;;= m).

Definition loseServiceTierOnce : M unit :=
  once s_serviceTierLossRecorded set_serviceTierLossRecorded
    (lose "response_service_tier" "service_tier"
       "the upstream chat service tier actually served cannot be reproduced in the client dialect").

Definition loseLogprobsOnce : M unit :=
  once s_logprobsLossRecorded set_logprobsLossRecorded
    (lose "logprobs" "choices[].logprobs" "chat response logprobs cannot be reproduced in the client dialect").

Definition loseUnknownUsageComponentsOnce (usage : ChatLLMUsage) : M unit :=
  once s_usageComponentsLossRecorded set_usageComponentsLossRecorded
    (mwhen (negb (known (PromptTokensDetails usage)) && negb (known (chat_CachedTokens usage)) &&
            negb (known (PromptCacheHitTokens usage)))
       (lose "usage_cache_read_unknown" "usage"
          "the upstream response did not provide input_tokens_details.cached_tokens; the required Responses usage breakdown cannot be reproduced") ;;=
     mwhen (negb (known (CompletionTokensDetails usage)) && negb (known (chat_ReasoningTokens usage)))
       (lose "usage_reasoning_unknown" "usage"
          "the upstream response did not provide output_tokens_details.reasoning_tokens; the required Responses usage breakdown cannot be reproduced")).

Definition noteDerivedUsageTotal (chunk : ChatStreamResponse) : M unit :=
  let total := c_DerivedUsageTotal chunk in
  noted <== gets s_usageTotalDerivedNoted ;;
  mwhen (negb (String.eqb total "") && negb (bool_decide (total ∈ noted)))
    (modify (set_usageTotalDerivedNoted ({[total]} ∪ noted)) ;;=
     note "usage_total_derived" "usage"
       ("the upstream usage omitted " ++ total ++ "; it was derived from the other two totals (never defaulted to zero)")).

(** The conversion of a chunk's usage, with its losses and notes. *)
Definition absorb_usage (chunk : ChatStreamResponse) (usage : ChatLLMUsage) : M ResponsesUsage :=
  noteDerivedUsageTotal chunk ;;=
  loseUnknownUsageComponentsOnce usage ;;=
  let '(converted, clamp) := chatUsageToResponsesUsage usage (c_DerivedUsageTotal chunk) in
  notes <== gets s_usageClampNotes ;;
  notes <== on_report (note_clamp notes "usage" clamp) ;;
  modify (set_usageClampNotes notes) ;;=
  mret converted.

(** ** After the finish reason *)

(** [nonEmpty] *)
Definition nonEmpty (o : option string) : bool := match o with Some t => negb (String.eqb t "") | None => false end.

Definition isRepeatedTerminalChunk (chunk : ChatStreamResponse) (finishReason : string) : bool :=
  match c_Choices chunk with
  | [choice] =>
      (ch_Index choice =? 0) &&
      bool_decide (ch_FinishReason choice = Some finishReason) &&
      match ch_Delta choice with
      | Some d =>
          negb (nonEmpty (d_Content d) || nonEmpty (d_Refusal d) || nonEmpty (d_Reasoning d) ||
                nonEmpty (d_ReasoningContent d) || (0 <? Z.of_nat (length (d_ToolCalls d))) || d_FunctionCall d)
      | None => true
      end
  | _ => false
  end.

Definition absorbPhase2Accounting (chunk : ChatStreamResponse) : M unit :=
  id <== gets s_chunkID ;;
  require (String.eqb (c_ID chunk) "" || String.eqb (c_ID chunk) id) "chat stream chunk id does not match" ;;=
  model <== gets s_chunkModel ;;
  require (String.eqb (c_Model chunk) "" || String.eqb (c_Model chunk) model) "chat stream chunk model does not match" ;;=
  mwhen (c_ServiceTier chunk) loseServiceTierOnce ;;=
  for_each (λ _ choice, mwhen (ch_LogProbs choice) loseLogprobsOnce) 0 (c_Choices chunk) ;;=
  match c_Usage chunk with
  | None => mret tt
  | Some usage =>
      converted <== absorb_usage chunk usage ;;
      recorded <== gets s_usage ;;
      noted <== gets s_usageMergeNoted ;;
      mwhen (match recorded with Some u => negb noted && negb (sameUsageAccounting u converted) | None => false end)
        (note "usage_total_merged" "usage"
           "a repeated terminal frame re-delivered the accounting; the recorded usage was replaced with the values in that frame" ;;=
         modify (set_usageMergeNoted true)) ;;=
      modify (set_usage (Some converted))
  end.

(** ** Items *)

Definition last_item (l : list openResponsesItem) : option openResponsesItem := last l.

Definition with_item (f : openResponsesItem → openResponsesItem) (i : nat) (s : chatState) : chatState :=
  set_items (alter f i (s_items s)) s.

Definition on_last (f : openResponsesItem → openResponsesItem) (s : chatState) : chatState :=
  with_item f (pred (length (s_items s))) s.

Definition with_live (l : live_item) (oi : openResponsesItem) : openResponsesItem :=
  {| oi_index := oi_index oi; oi_openPart := oi_openPart oi; oi_item := l |}.

Definition with_part (p : Z) (l : live_item) (oi : openResponsesItem) : openResponsesItem :=
  {| oi_index := oi_index oi; oi_openPart := p; oi_item := l |}.

(** A new item takes the next output index. *)
Definition push_item (l : live_item) : M Z :=
  i <== gets s_itemIndex ;;
  modify (set_itemIndex (i + 1)) ;;=
  modify (λ s, set_items (s_items s ++ [{| oi_index := i; oi_openPart := -1; oi_item := l |}])%list s) ;;=
  mret i.

(** The accumulated value of a part. *)
Definition bufs (k : part_kind) (s : chatState) : gmap (Z * Z) string :=
  match k with KText => s_textBufs s | KRefusal => s_refusalBufs s end.

Definition set_bufs (k : part_kind) (v : gmap (Z * Z) string) (s : chatState) : chatState :=
  match k with KText => set_textBufs v s | KRefusal => set_refusalBufs v s end.

Definition delta_event (k : part_kind) : string → Z → Z → string → event_body :=
  match k with KText => TextDelta | KRefusal => RefusalDelta end.

Definition done_event (k : part_kind) : string → Z → Z → string → event_body :=
  match k with KText => TextDone | KRefusal => RefusalDone end.

(** The parts of a message, materialized. *)
Fixpoint close_parts (id : string) (oi ci : Z) (parts : list (part_kind * string)) : M (list (part_kind * string)) :=
  match parts with
  | [] => mret []
  | (k, value) :: parts =>
      buf <== gets (λ s, bufs k s !! (oi, ci)) ;;
      let value := default value buf in
      emit (done_event k id oi ci value) ;;=
      emit (ContentPartDone id oi ci k value) ;;=
      rest <== close_parts id oi (ci + 1) parts ;;
      mret ((k, value) :: rest)
  end.

(** The [i]th item, when it is an open message. *)
Definition close_message (i : nat) : M unit :=
  items <== gets s_items ;;
  match items !! i with
  | Some {| oi_index := oi; oi_item := LiveMessage id false content |} =>
      content <== close_parts id oi 0 content ;;
      modify (with_item (with_live (LiveMessage id true content)) i) ;;=
      emit (OutputItemDone oi (OutMessage id true content))
  | _ => mret tt
  end.

(** The [i]th item, when it is open reasoning. *)
Definition close_reasoning (i : nat) : M unit :=
  items <== gets s_items ;;
  match items !! i with
  | Some {| oi_index := oi; oi_item := LiveReasoning id false summary |} =>
      modify (with_item (with_live (LiveReasoning id true summary)) i) ;;=
      match summary with
      | None => mfail Panic
      | Some text =>
          emit (ReasoningSummaryTextDone id oi text) ;;=
          emit (ReasoningSummaryPartDone id oi text) ;;=
          emit (OutputItemDone oi (OutReasoning id true summary))
      end
  | _ => mret tt
  end.

Definition on_trailing (f : nat → M unit) : M unit :=
  items <== gets s_items ;;
  f (pred (length items)).

Definition closeOpenReasoningItem : M unit := on_trailing close_reasoning.

Definition closeOpenMessageItem : M unit := on_trailing close_message.

Definition openMessageItem : M unit :=
  items <== gets s_items ;;
  require (Z.of_nat (length items) <? maxStreamOutputItems) "chat stream output items exceed the exchange bound" ;;=
  id <== new_id "msg_" ;;
  i <== push_item (LiveMessage id false []) ;;
  emit (OutputItemAdded i (OutMessage id false [])).

(** ** Tool calls *)

Definition client_name (t : option ToolNames) (name : string) : string * string :=
  let '(n, ns) := clientCallName t (lit name) in (string_of_list_ascii n, string_of_list_ascii ns).

(** Its completed item. *)
Definition call_item (t : option ToolNames) (p : pendingToolCall) : out_item :=
  let arguments := if String.eqb (complete p) "" then "{}" else complete p in
  let '(name, namespace) := client_name t (call_name p) in
  OutCall (itemID p) true (callID p) name namespace arguments.

Definition toolCallClosure (p : pendingToolCall) : M unit :=
  t <== gets (λ s, x_ToolNames (s_exchange s)) ;;
  emit (FunctionArgumentsDone (itemID p) (outputIndex p) (if String.eqb (complete p) "" then "{}" else complete p)) ;;=
  emit (OutputItemDone (outputIndex p) (call_item t p)).

(** [sort.Ints] *)
Fixpoint insert_index (i : Z) (l : list Z) : list Z :=
  match l with
  | [] => [i]
  | j :: l' => if i <=? j then i :: l else j :: insert_index i l'
  end.

Definition pendingIndexes (calls : gmap Z pendingToolCall) : list Z :=
  foldr insert_index [] (map fst (map_to_list calls)).

Definition pendingSlice (calls : gmap Z pendingToolCall) : list pendingToolCall :=
  omap (λ i, calls !! i) (pendingIndexes calls).

Definition closePendingToolCalls : M unit :=
  calls <== gets s_pendingCalls ;;
  for_each (λ _ index,
    calls <== gets s_pendingCalls ;;
    match calls !! index with
    | Some p =>
        mwhen (call_started p)
          (toolCallClosure p ;;=
           modify (λ s, set_closedCalls (s_closedCalls s ++ [p])%list s) ;;=
           modify (λ s, set_pendingCalls (delete index (s_pendingCalls s)) s))
    | None => mfail Panic
    end) 0 (pendingIndexes calls).

Definition derefStr (o : option string) : string := default "" o.

(** The first call, in the map's order, with this identifier. *)
Definition find_call (id : string) (calls : gmap Z pendingToolCall) : option Z :=
  fst <$> head (filter (λ e, callID e.2 = id) (map_to_list calls)).

(** The key of the call a fragment continues. *)
Definition resolve_call (call : ChatToolCallDelta) : M (option Z) :=
  calls <== gets s_pendingCalls ;;
  match (if nonEmpty (tc_ID call) then find_call (derefStr (tc_ID call)) calls else None) with
  | Some key => mret (Some key)
  | None =>
      match tc_Index call with
      | Some index =>
          match calls !! index with
          | Some p =>
              require (negb (nonEmpty (tc_ID call)) || String.eqb (callID p) "" ||
                       String.eqb (callID p) (derefStr (tc_ID call)))
                "chat tool call fragment carries another id" ;;=
              mret (Some index)
          | None => mret None
          end
      | None =>
          match tc_ID call with
          | Some _ => mret None
          | None =>
              match map_to_list calls with
              | [] => mret None
              | [(key, _)] => mret (Some key)
              | _ => wireError "chat tool call fragment without index or id is ambiguous"
              end
          end
      end
  end.

(** The first free key from [index] downwards. *)
Fixpoint free_index (fuel : nat) (index : Z) (calls : gmap Z pendingToolCall) : Z :=
  match fuel with
  | O => index
  | S fuel => if bool_decide (calls !! index = None) then index else free_index fuel (index - 1) calls
  end.

Definition unnamed_call (outputIndex : Z) : pendingToolCall :=
  {| itemID := ""; outputIndex := outputIndex; callID := ""; call_name := ""; pending := ""; complete := "";
     call_started := false |}.

(** A new call takes the next output index. *)
Definition new_call (call : ChatToolCallDelta) : M Z :=
  calls <== gets s_pendingCalls ;;
  require (Z.of_nat (size calls) <? maxStreamToolCalls) "chat stream tool calls exceed the exchange bound" ;;=
  let index := match tc_Index call with Some index => index | None => free_index (size calls) (-1) calls end in
  i <== gets s_itemIndex ;;
  modify (set_itemIndex (i + 1)) ;;=
  modify (set_pendingCalls (<[index := unnamed_call i]> calls)) ;;=
  mret index.

Definition get_call (key : Z) : M pendingToolCall :=
  calls <== gets s_pendingCalls ;;
  match calls !! key with Some p => mret p | None => mfail Panic end.

Definition update_call (key : Z) (f : pendingToolCall → pendingToolCall) : M unit :=
  modify (λ s, set_pendingCalls (alter f key (s_pendingCalls s)) s).

Definition set_callID (v : string) (p : pendingToolCall) : pendingToolCall :=
  {| itemID := itemID p; outputIndex := outputIndex p; callID := v; call_name := call_name p; pending := pending p;
     complete := complete p; call_started := call_started p |}.
Definition set_name (v : string) (p : pendingToolCall) : pendingToolCall :=
  {| itemID := itemID p; outputIndex := outputIndex p; callID := callID p; call_name := v; pending := pending p;
     complete := complete p; call_started := call_started p |}.
Definition add_arguments (v : string) (p : pendingToolCall) : pendingToolCall :=
  {| itemID := itemID p; outputIndex := outputIndex p; callID := callID p; call_name := call_name p;
     pending := pending p ++ v; complete := complete p ++ v; call_started := call_started p |}.
Definition reset_pending (p : pendingToolCall) : pendingToolCall :=
  {| itemID := itemID p; outputIndex := outputIndex p; callID := callID p; call_name := call_name p; pending := "";
     complete := complete p; call_started := call_started p |}.
Definition start_call (id : string) (p : pendingToolCall) : pendingToolCall :=
  {| itemID := id; outputIndex := outputIndex p; callID := callID p; call_name := call_name p; pending := pending p;
     complete := complete p; call_started := true |}.

(** New bytes of a call's identity are charged. *)
Definition absorb_identity (key : Z) (fragment : option string) (get : pendingToolCall → string)
    (set : string → pendingToolCall → pendingToolCall) : M unit :=
  p <== get_call key ;;
  mwhen (nonEmpty fragment && negb (String.eqb (get p) (derefStr fragment)))
    (chargeIdentity (bytes (derefStr fragment)) ;;= update_call key (set (derefStr fragment))).

(** The call is announced once its identity is complete. *)
Definition announce_call (key : Z) : M unit :=
  p <== get_call key ;;
  mwhen (negb (call_started p) && negb (String.eqb (callID p) "") && negb (String.eqb (call_name p) ""))
    (closeOpenMessageItem ;;=
     id <== new_id "fc_" ;;
     update_call key (start_call id) ;;=
     t <== gets (λ s, x_ToolNames (s_exchange s)) ;;
     let '(name, namespace) := client_name t (call_name p) in
     emit (OutputItemAdded (outputIndex p) (OutCall id false (callID p) name namespace ""))).

Definition flush_arguments (key : Z) : M unit :=
  p <== get_call key ;;
  mwhen (call_started p && negb (String.eqb (pending p) ""))
    (emit (FunctionArgumentsDelta (itemID p) (outputIndex p) (pending p)) ;;= update_call key reset_pending).

Definition convertToolCall (call : ChatToolCallDelta) : M unit :=
  let id := derefStr (tc_ID call) in
  noted <== gets s_legacyFunctionCallNoted ;;
  mwhen (SchemaBounds.Contains (lit id) (lit ":legacy-function-call-") && negb noted)
    (modify (set_legacyFunctionCallNoted true) ;;=
     note "legacy_function_call" "choices[].delta.function_call"
       ("legacy function_call mapped to one tool call with id synthesized from the chunk id (" ++ id ++ ")")) ;;=
  closed <== gets s_closedCalls ;;
  require (negb (nonEmpty (tc_ID call) && existsb (λ p, String.eqb (callID p) id) closed))
    "chat tool call fragment reuses the id of a sealed call" ;;=
  resolved <== resolve_call call ;;
  key <== (match resolved with
           | None => new_call call
           | Some key =>
               match tc_Index call with
               | Some index =>
                   calls <== gets s_pendingCalls ;;
                   require (negb (negb (index =? key) && bool_decide (calls !! index ≠ None)))
                     "chat tool call fragment index resolves to another call" ;;=
                   mret key
               | None => mret key
               end
           end) ;;
  p <== get_call key ;;
  require (negb (call_started p && nonEmpty (tc_FunctionName call) &&
                 negb (String.eqb (call_name p) (derefStr (tc_FunctionName call)))))
    "chat tool call name changed after the added event" ;;=
  absorb_identity key (tc_ID call) callID set_callID ;;=
  absorb_identity key (tc_FunctionName call) call_name set_name ;;=
  mwhen (negb (String.eqb (tc_Arguments call) ""))
    (update_call key (add_arguments (tc_Arguments call)) ;;=
     p <== get_call key ;;
     checkAccumulated (complete p) (bytes (tc_Arguments call))) ;;=
  announce_call key ;;=
  flush_arguments key.

(** ** Deltas *)

(** The trailing message with the content index a delta must target. *)
Definition openMessageItemForPartWithEvents (kind : part_kind) : M (string * Z * Z) :=
  items <== gets s_items ;;
  match last_item items with
  | Some {| oi_index := oi; oi_openPart := part; oi_item := LiveMessage id completed content |} =>
      if bool_decide (0 <= part ∧ fst <$> content !! Z.to_nat part = Some kind) then mret (id, oi, part)
      else
        require (Z.of_nat (length content) <? maxStreamPartsPerItem) "chat stream content parts per item exceed the exchange bound" ;;=
        let part := Z.of_nat (length content) in
        modify (on_last (with_part part (LiveMessage id completed (content ++ [(kind, "")])%list))) ;;=
        emit (ContentPartAdded id oi part kind) ;;=
        mret (id, oi, part)
  | _ => mfail Panic
  end.

Definition openMessageItemForPart (kind : part_kind) : M (string * Z * Z) :=
  items <== gets s_items ;;
  mwhen (match last_item items with Some {| oi_item := LiveMessage _ false _ |} => false | _ => true end)
    (closePendingToolCalls ;;= openMessageItem) ;;=
  openMessageItemForPartWithEvents kind.

(** Content of either kind. *)
Definition append_content (kind : part_kind) (delta : string) : M unit :=
  target <== openMessageItemForPart kind ;;
  let '(id, oi, part) := target in
  emit (delta_event kind id oi part delta) ;;=
  m <== gets (bufs kind) ;;
  let value := default "" (m !! (oi, part)) ++ delta in
  modify (set_bufs kind (<[(oi, part) := value]> m)) ;;=
  checkAccumulated value (bytes delta).

(** The text with its path, or [None] when both spellings are present. *)
Definition resolveChatReasoningSpelling (reasoning reasoningContent : option string) : option (string * string) :=
  if nonEmpty reasoning && nonEmpty reasoningContent then None
  else if nonEmpty reasoningContent then Some (derefStr reasoningContent, "choices[].delta.reasoning_content")
  else if nonEmpty reasoning then Some (derefStr reasoning, "choices[].delta.reasoning")
  else Some ("", "").

(** A new reasoning item, unless the trailing item is open reasoning. *)
Definition open_reasoning : M unit :=
  items <== gets s_items ;;
  mwhen (match last_item items with Some {| oi_item := LiveReasoning _ false _ |} => false | _ => true end)
    (closeOpenMessageItem ;;=
     closePendingToolCalls ;;=
     charge addItem ;;=
     charge (addStateEntries 1) ;;=
     id <== new_id "rs_" ;;
     i <== push_item (LiveReasoning id false None) ;;
     emit (OutputItemAdded i (OutReasoning id false None)) ;;=
     emit (ReasoningSummaryPartAdded id i)).

Definition append_reasoning (text : string) : M unit :=
  items <== gets s_items ;;
  match last_item items with
  | Some {| oi_index := oi; oi_item := LiveReasoning id completed summary |} =>
      emit (ReasoningSummaryTextDelta id oi text) ;;=
      modify (on_last (with_live (LiveReasoning id completed (Some (default "" summary ++ text))))) ;;=
      chargeIdentity (bytes text)
  | _ => mfail Panic
  end.

Definition convert_reasoning (text path : string) : M unit :=
  x <== gets s_exchange ;;
  if x_ProviderReasoningThinking x then
    recorded <== gets s_reasoningReportRecorded ;;
    mwhen (negb recorded)
      (note "provider_reasoning_text" path
         "provider reasoning mapped to native thinking blocks (provider_reasoning_thinking encoding)") ;;=
    open_reasoning ;;=
    append_reasoning text
  else if negb (x_ProviderReasoningText x) then
    once s_reasoningReportRecorded set_reasoningReportRecorded
      (lose "provider_reasoning_text" path
         "provider reasoning is dropped because the provider_reasoning_text capability is not enabled")
  else
    append_content KText text ;;=
    once s_reasoningReportRecorded set_reasoningReportRecorded
      (note "provider_reasoning_text" path "provider reasoning maps to ordinary text (provider_reasoning_text encoding)").

Definition has_output (delta : ChatStreamDelta) : bool :=
  nonEmpty (d_Content delta) || nonEmpty (d_Refusal delta) || negb (bool_decide (d_ToolCalls delta = [])).

Definition convertDelta (delta : ChatStreamDelta) : M unit :=
  mwhen (has_output delta) closeOpenReasoningItem ;;=
  mwhen (nonEmpty (d_Content delta)) (append_content KText (derefStr (d_Content delta))) ;;=
  mwhen (nonEmpty (d_Refusal delta)) (append_content KRefusal (derefStr (d_Refusal delta))) ;;=
  match resolveChatReasoningSpelling (d_Reasoning delta) (d_ReasoningContent delta) with
  | None => wireError "chat response carries both reasoning and reasoning_content"
  | Some (text, path) => mwhen (negb (String.eqb text "")) (convert_reasoning text path)
  end ;;=
  for_each (λ _, convertToolCall) 0 (d_ToolCalls delta).

(** ** The terminal *)

Definition finish_reasons : list string :=
  ["length"; "max_tokens"; "content_filter"; "stop"; "tool_calls"; "function_call"].

Definition finish (finishReason : string) : M unit :=
  calls <== gets s_pendingCalls ;;
  for_each (λ _ p,
    require (call_started p) "chat tool call fragment ended without an id and name" ;;=
    toolCallClosure p) 0 (pendingSlice calls) ;;=
  items <== gets s_items ;;
  for_each (λ i _, close_message i) 0 items ;;=
  for_each (λ i _, close_reasoning i) 0 items ;;=
  if bool_decide (finishReason ∈ finish_reasons) then modify (set_finishReason finishReason)
  else mfail (LocalError (UnsupportedFeatureError "chat" "choices[].finish_reason" finishReason)).

Definition baseEnvelope (status : string) (s : chatState) : envelope :=
  {| e_ID := x_responseID (s_exchange s); e_Model := x_model (s_exchange s); e_CreatedAt := s_createdAt s;
     e_Status := status; e_Output := []; e_Usage := None; e_IncompleteReason := None |}.

Definition live_out (l : live_item) : out_item :=
  match l with
  | LiveMessage id completed content => OutMessage id completed content
  | LiveReasoning id completed summary => OutReasoning id completed summary
  end.

Fixpoint insert_output (e : Z * out_item) (l : list (Z * out_item)) : list (Z * out_item) :=
  match l with
  | [] => [e]
  | e' :: l' => if e.1 <? e'.1 then e :: l else e' :: insert_output e l'
  end.

(** The items and the started calls, by output index. *)
Definition finalOutputItems (s : chatState) : list out_item :=
  let t := x_ToolNames (s_exchange s) in
  let calls := filter (λ p, call_started p = true) (pendingSlice (s_pendingCalls s) ++ s_closedCalls s)%list in
  let ordered := (map (λ oi, (oi_index oi, live_out (oi_item oi))) (s_items s) ++
                  map (λ p, (outputIndex p, call_item t p)) calls)%list in
  map snd (fold_left (λ acc e, insert_output e acc) ordered []).

Definition incomplete_reason (finishReason : string) : option string :=
  if String.eqb finishReason "length" || String.eqb finishReason "max_tokens" then Some "max_output_tokens"
  else if String.eqb finishReason "content_filter" then Some "content_filter"
  else None.

Definition terminalEnvelope : M unit :=
  s <== gets (λ s, s) ;;
  let reason := incomplete_reason (s_finishReason s) in
  let e := baseEnvelope (match reason with Some _ => "incomplete" | None => "completed" end) s in
  let e := {| e_ID := e_ID e; e_Model := e_Model e; e_CreatedAt := e_CreatedAt e; e_Status := e_Status e;
              e_Output := finalOutputItems s; e_Usage := s_usage s; e_IncompleteReason := reason |} in
  emit (match reason with Some _ => Incomplete e | None => Completed e end).

Definition emit_held (evs : list event) : M unit := λ s, (Ok tt, evs, s).

(** Whether this call released the terminal. *)
Definition releaseTerminal : M bool :=
  released <== gets s_terminalReleased ;;
  if released then mret false
  else
    modify (set_terminalReleased true) ;;=
    held <== gets s_heldTerminal ;;
    modify (set_heldTerminal []) ;;=
    emit_held held ;;=
    terminalEnvelope ;;=
    mret true.

(** ** Chunks and frames *)

(** [Convert] before the finish reason. *)
Definition convert_choice (choice : ChatStreamChoice) : M unit :=
  require (ch_Index choice =? 0) "n=1 requires index 0" ;;=
  mwhen (ch_LogProbs choice) loseLogprobsOnce ;;=
  match ch_Delta choice with Some delta => convertDelta delta | None => mret tt end ;;=
  match ch_FinishReason choice with
  | Some finishReason =>
      terminal <== capture (finish finishReason) ;;
      modify (set_heldTerminal terminal) ;;=
      modify (set_sawFinish true)
  | None => mret tt
  end.

(** The identity of the first chunk, or its check. *)
Definition pin_identity (chunk : ChatStreamResponse) : M unit :=
  started <== gets s_started ;;
  if negb started then
    mwhen (negb (c_Created chunk =? 0)) (modify (set_createdAt (Q2Qc (inject_Z (c_Created chunk))))) ;;=
    modify (set_chunkID (c_ID chunk)) ;;=
    modify (set_chunkModel (c_Model chunk)) ;;=
    e <== gets (baseEnvelope "in_progress") ;;
    emit (Created e) ;;=
    emit (InProgress e) ;;=
    modify (set_started true)
  else
    id <== gets s_chunkID ;;
    require (String.eqb (c_ID chunk) id) "chat stream chunk id does not match" ;;=
    model <== gets s_chunkModel ;;
    require (String.eqb (c_Model chunk) model) "chat stream chunk model does not match".

Definition Convert (chunk : ChatStreamResponse) : M unit :=
  deliver
    (charge addEvent ;;=
     sawFinish <== gets s_sawFinish ;;
     if sawFinish then
       finishReason <== gets s_finishReason ;;
       if known (c_Usage chunk) && bool_decide (c_Choices chunk = []) || isRepeatedTerminalChunk chunk finishReason
       then absorbPhase2Accounting chunk
       else wireError "chat stream chunk after finish_reason"
     else
       pin_identity chunk ;;=
       match c_Usage chunk with
       | Some usage => converted <== absorb_usage chunk usage ;; modify (set_usage (Some converted))
       | None => mret tt
       end ;;=
       mwhen (c_ServiceTier chunk) loseServiceTierOnce ;;=
       require (Z.of_nat (length (c_Choices chunk)) <=? 1) "chat stream chunk has more than one choice; n=1 required" ;;=
       for_each (λ _, convert_choice) 0 (c_Choices chunk)).

Definition noteMissingSentinel : M unit :=
  note "missing_stream_sentinel" "chat[].stream"
    "the upstream stream ended after a finishing chunk without the [DONE] sentinel; the completion was released on EOF".

Definition FinalizeEOF : M unit :=
  sawFinish <== gets s_sawFinish ;;
  released <== gets s_terminalReleased ;;
  if sawFinish && negb released then
    noteMissingSentinel ;;=
    releaseTerminal ;;=
    mret tt
  else if sawFinish then mret tt
  else mfail (LocalError (Errorf "chat stream ended before a terminal condition")).

(** [[DONE]] *)
Definition convert_done : M unit :=
  sawFinish <== gets s_sawFinish ;;
  require sawFinish "chat stream [DONE] before a terminal condition" ;;=
  ok <== releaseTerminal ;;
  require ok "chat stream [DONE] after the terminal was released".

(** A decoded frame, the sentinel, or the end of the body. *)
Inductive frame := Chunk (chunk : ChatStreamResponse) | Done | EOF.

Definition convert_frame (fr : frame) : M unit :=
  match fr with
  | Chunk chunk => Convert chunk
  | Done => convert_done
  | EOF => FinalizeEOF
  end.

(** The reader stops at the first error and at a terminal batch. *)
Fixpoint stream (frames : list frame) : M unit :=
  match frames with
  | [] => mret tt
  | fr :: frames =>
      convert_frame fr ;;=
      match fr with Chunk _ => stream frames | _ => mret tt end
  end.

(** ** A sample exchange *)

Definition sample_exchange (thinking text : bool) : exchange :=
  {| x_policy := StrictLossPolicy; x_ProviderReasoningThinking := thinking; x_ProviderReasoningText := text;
     x_responseID := "resp_1"; x_model := "m"; x_ToolNames := None; x_idPrefix := "ab" |}.

Definition text_chunk (content reasoning : option string) (calls : list ChatToolCallDelta) (finishReason : option string)
    (usage : option ChatLLMUsage) : frame :=
  Chunk {| c_ID := "c"; c_Created := 5; c_Model := "g"; c_ServiceTier := false;
           c_Choices := [{| ch_Index := 0; ch_LogProbs := false;
                            ch_Delta := Some {| d_Content := content; d_Refusal := None; d_Reasoning := reasoning;
                                                d_ReasoningContent := None; d_ToolCalls := calls; d_FunctionCall := false |};
                            ch_FinishReason := finishReason |}];
           c_Usage := usage; c_DerivedUsageTotal := "" |}.

Definition sample_call (id name : option string) (arguments : string) : ChatToolCallDelta :=
  {| tc_Index := Some 0; tc_ID := id; tc_FunctionName := name; tc_Arguments := arguments |}.

Definition sample_usage (output : Z) : ChatLLMUsage :=
  {| PromptTokens := 3; CompletionTokens := output; chat_TotalTokens := 3 + output; chat_ReasoningTokens := Some 0;
     chat_CachedTokens := Some 1; PromptCacheHitTokens := None; PromptTokensDetails := None; CompletionTokensDetails := None |}.

(** Reasoning, text, a tool call in fragments, more text, the finish and the usage tail. *)
Definition sample_frames : list frame :=
  [text_chunk None (Some "hm") [] None None;
   text_chunk (Some "Hel") None [] None None;
   text_chunk (Some "lo") None [] None None;
   text_chunk None None [sample_call (Some "call_1") None "{"] None None;
   text_chunk None None [sample_call None (Some "f") "}"] None None;
   text_chunk (Some "!") None [] (Some "stop") None;
   text_chunk (Some "") None [] (Some "stop") (Some (sample_usage 4));
   Done].
