(* ===== verification/ChatStreamLaws.v ===== *)
(** * A generated Responses stream obeys the protocol

    The events of the Chat stream converter ([ChatStream]) put to the validator of a
    Responses stream ([ResponsesFsm]), as the converter to Messages puts them
    ([stream_converters.go], [Convert]). *)

From Stdlib Require Import ZArith QArith Qcanon Lia Bool List Ascii String.
From stdpp Require Import strings pretty gmap list.
From S2P Require Import Prelude GoStd GoStr Budget Losses Ir Usage Emitter ChatStream.
From S2P Require ResponsesFsm.

Open Scope string_scope.
Open Scope Z_scope.

Abbreviation fsm := ResponsesFsm.responsesStreamFSM.
Abbreviation fsmItem := ResponsesFsm.fsmItem.

(** ** The events on the wire *)

(** What the validator reads of an event. *)
Definition wire_item (it : out_item) : ResponsesFsm.OutputItem :=
  match it with
  | OutMessage id _ _ => ResponsesFsm.ItemMessage id
  | OutCall id _ _ _ _ _ => ResponsesFsm.ItemFunctionCall id
  | OutReasoning id _ _ => ResponsesFsm.ItemReasoning id
  end.

Definition wire_part (k : part_kind) : ResponsesFsm.ContentPart :=
  match k with KText => ResponsesFsm.PartOutputText | KRefusal => ResponsesFsm.PartRefusal end.

Definition wire_envelope (e : envelope) : ResponsesFsm.ResponseEnvelope :=
  {| ResponsesFsm.env_ID := e_ID e; ResponsesFsm.env_Model := e_Model e; ResponsesFsm.env_CreatedAt := e_CreatedAt e;
     ResponsesFsm.env_Status := e_Status e |}.

Definition wire_body (b : event_body) : ResponsesFsm.event_body :=
  match b with
  | Created e => ResponsesFsm.Created (wire_envelope e)
  | InProgress _ => ResponsesFsm.InProgress
  | OutputItemAdded i it => ResponsesFsm.OutputItemAdded i (wire_item it)
  | OutputItemDone i it => ResponsesFsm.OutputItemDone i (wire_item it)
  | ContentPartAdded id i ci k => ResponsesFsm.ContentPartAdded id i ci (wire_part k)
  | ContentPartDone id i ci k _ => ResponsesFsm.ContentPartDone id i ci (wire_part k)
  | TextDelta id i ci d => ResponsesFsm.TextDelta id i ci d
  | TextDone id i ci t => ResponsesFsm.TextDone id i ci t
  | RefusalDelta id i ci d => ResponsesFsm.RefusalDelta id i ci d
  | RefusalDone id i ci t => ResponsesFsm.RefusalDone id i ci t
  | FunctionArgumentsDelta id i d => ResponsesFsm.ArgumentsDelta id i d
  | FunctionArgumentsDone id i a => ResponsesFsm.ArgumentsDone id i a
  | ReasoningSummaryPartAdded id i => ResponsesFsm.ReasoningPartAdded id i
  | ReasoningSummaryTextDelta id i d => ResponsesFsm.ReasoningTextDelta id i d
  | ReasoningSummaryTextDone id i _ => ResponsesFsm.ReasoningTextDone id i
  | ReasoningSummaryPartDone id i _ => ResponsesFsm.ReasoningPartDone id i
  | Completed e => ResponsesFsm.Completed (wire_envelope e)
  | Incomplete e => ResponsesFsm.Incomplete (wire_envelope e)
  end.

Definition wire (ev : event) : ResponsesFsm.ResponsesSSEEvent :=
  {| ResponsesFsm.Sequence := SequenceNumber ev; ResponsesFsm.body := wire_body (ev_body ev) |}.

(** The validator's verdict on a stream: its state, or the first violation. *)
Fixpoint verdict (evs : list event) (f : fsm) : result ResponsesFsm.violation fsm :=
  match evs with
  | [] => Ok f
  | ev :: evs =>
      match ResponsesFsm.ValidateEvent (wire ev) f with
      | (Ok _, f) => verdict evs f
      | (Err v, _) => Err v
      end
  end.

(** ** The validator without its budget *)

Record view := {
  v_started : bool;
  v_terminal : bool;
  v_lastSeq : Z;
  v_identity : string * string * Qc;
  v_items : gmap string fsmItem;
  v_indexes : gmap Z string;
}.

Definition view_of (f : fsm) : view :=
  {| v_started := ResponsesFsm.started f; v_terminal := ResponsesFsm.terminal f; v_lastSeq := ResponsesFsm.lastSeq f;
     v_identity := ResponsesFsm.identity f; v_items := ResponsesFsm.items f; v_indexes := ResponsesFsm.indexes f |}.

(** From a view to a view, unless the budget runs out. *)
Definition lawful (evs : list event) (v v' : view) : Prop :=
  ∀ f, view_of f = v →
  match verdict evs f with
  | Ok f' => view_of f' = v'
  | Err e => e = ResponsesFsm.OverBudget
  end.

Lemma lawful_nil v : lawful [] v v.
Proof. by intros f Hf. Qed.

Lemma verdict_app l1 l2 f :
  verdict (l1 ++ l2)%list f = match verdict l1 f with Ok f => verdict l2 f | Err e => Err e end.
Proof.
  revert f. induction l1 as [|ev l1 IH]; intros f; simpl; [done|].
  destruct (ResponsesFsm.ValidateEvent _ f) as [[?|?] f']; [apply IH|done].
Qed.

Lemma lawful_app l1 l2 v1 v2 v3 : lawful l1 v1 v2 → lawful l2 v2 v3 → lawful (l1 ++ l2)%list v1 v3.
Proof.
  intros H1 H2 f Hf. rewrite verdict_app. specialize (H1 f Hf). destruct (verdict l1 f) as [f2|e]; [by apply H2|done].
Qed.

(** *** Views after an event *)

(** A new sequence number, with an item. *)
Definition v_seq (n : Z) (v : view) : view :=
  {| v_started := v_started v; v_terminal := v_terminal v; v_lastSeq := n; v_identity := v_identity v;
     v_items := v_items v; v_indexes := v_indexes v |}.

Definition v_put (n : Z) (id : string) (it : fsmItem) (v : view) : view :=
  {| v_started := v_started v; v_terminal := v_terminal v; v_lastSeq := n; v_identity := v_identity v;
     v_items := <[id := it]> (v_items v); v_indexes := v_indexes v |}.

Definition v_new (n : Z) (id : string) (i : Z) (it : fsmItem) (v : view) : view :=
  {| v_started := v_started v; v_terminal := v_terminal v; v_lastSeq := n; v_identity := v_identity v;
     v_items := <[id := it]> (v_items v); v_indexes := <[i := id]> (v_indexes v) |}.

(** Ready for an event numbered [n]. *)
Definition ready (n : Z) (v : view) : Prop := v_started v = true ∧ v_terminal v = false ∧ v_lastSeq v < n.

Definition at_seq (n : Z) (b : event_body) : list event := [{| SequenceNumber := n; ev_body := b |}].

(** *** A handler of the validator, whatever its budget *)

Definition accepts {A} (m : ResponsesFsm.FSM A) (v : view) (Q : A → view → Prop) : Prop :=
  ∀ f, view_of f = v →
  match m f with
  | (Ok a, f') => Q a (view_of f')
  | (Err e, _) => e = ResponsesFsm.OverBudget
  end.

Lemma accepts_ret {A} (a : A) v (Q : A → view → Prop) : Q a v → accepts (ResponsesFsm.ret a) v Q.
Proof. by intros HQ f <-. Qed.

Lemma accepts_bind {A B} (m : ResponsesFsm.FSM A) (k : A → ResponsesFsm.FSM B) v Q :
  accepts m v (λ a v', accepts (k a) v' Q) → accepts (ResponsesFsm.bind m k) v Q.
Proof.
  intros Hm f Hf. unfold ResponsesFsm.bind. specialize (Hm f Hf). destruct (m f) as [[a|e] f']; [|done].
  by apply Hm.
Qed.

Lemma accepts_require b e v Q : b = true → Q tt v → accepts (ResponsesFsm.require b e) v Q.
Proof. intros -> HQ. by apply accepts_ret. Qed.

Lemma accepts_charge add v Q : Q tt v → accepts (ResponsesFsm.charge add) v Q.
Proof. intros HQ f Hf. unfold ResponsesFsm.charge. destruct (add _); [|done]. by rewrite <- Hf in HQ. Qed.

Lemma accepts_get {B} (k : fsm → ResponsesFsm.FSM B) v Q :
  (∀ f, view_of f = v → accepts (k f) v Q) → accepts (ResponsesFsm.bind ResponsesFsm.get k) v Q.
Proof. intros Hk f Hf. by apply Hk. Qed.

Lemma accepts_modify g v Q : (∀ f, view_of f = v → Q tt (view_of (g f))) → accepts (ResponsesFsm.modify g) v Q.
Proof. intros HQ f Hf. by apply HQ. Qed.

Lemma accepts_update id it v Q :
  Q tt (v_put (v_lastSeq v) id it v) → accepts (ResponsesFsm.update id it) v Q.
Proof. intros HQ. apply accepts_modify. by intros f <-. Qed.

Lemma accepts_messageItem id oi it v Q :
  v_items v !! id = Some it → ResponsesFsm.outputIndex it = oi → ResponsesFsm.item_kind it = "message" →
  ResponsesFsm.item_phase it = ResponsesFsm.itemPhaseAdded → Q it v →
  accepts (ResponsesFsm.messageItem id oi) v Q.
Proof.
  intros Hi Ho Hk Hp HQ. apply accepts_get. intros f <-. simpl in Hi. rewrite Hi, Ho, Hk, Hp.
  repeat (apply accepts_bind, accepts_require; [by rewrite ?Z.eqb_refl|]). by apply accepts_ret.
Qed.

Lemma accepts_partForDelta id oi ci kind phase it v Q :
  v_items v !! id = Some it → ResponsesFsm.outputIndex it = oi → ResponsesFsm.item_kind it = "message" →
  ResponsesFsm.item_phase it = ResponsesFsm.itemPhaseAdded →
  ResponsesFsm.parts it !! ci = Some {| ResponsesFsm.part_kind := kind; ResponsesFsm.part_phase := phase |} →
  Q (it, {| ResponsesFsm.part_kind := kind; ResponsesFsm.part_phase := phase |}) v →
  accepts (ResponsesFsm.partForDelta id oi ci kind) v Q.
Proof.
  intros Hi Ho Hk Hp Hpart HQ. apply accepts_get. intros f Hf.
  assert (ResponsesFsm.items f !! id = Some it) as -> by by rewrite <- Hf in Hi.
  rewrite Ho, Z.eqb_refl. apply accepts_bind, accepts_ret, accepts_bind.
  intros g Hg. rewrite (ResponsesFsm.messageItem_intro id oi g it); [|by rewrite <- Hg in Hi|done|done|by rewrite Hp].
  rewrite Hg, Hpart. apply accepts_bind, accepts_require; [by apply bool_decide_eq_true|]. by apply accepts_ret.
Qed.

Lemma lawful_event n b v v' :
  ready n v → accepts (ResponsesFsm.dispatch (wire_body b)) (v_seq n v) (λ _ v2, v2 = v') → lawful (at_seq n b) v v'.
Proof.
  intros (Hs & Ht & Hl) Hd.
  assert (accepts (ResponsesFsm.ValidateEvent (wire {| SequenceNumber := n; ev_body := b |})) v (λ _ v2, v2 = v')) as Ha.
  { apply accepts_bind, accepts_charge, accepts_get. intros f <-. simpl in *.
    repeat (apply accepts_bind, accepts_require; [by rewrite ?Ht, ?Hs; try apply Z.ltb_lt|]).
    apply accepts_bind, accepts_modify. intros g Hg. apply accepts_bind, accepts_require; [by rewrite Hs|].
    change (view_of (ResponsesFsm.with_lastSeq n g)) with (v_seq n (view_of g)). by rewrite Hg. }
  intros f Hf. simpl. specialize (Ha f Hf). by destruct (ResponsesFsm.ValidateEvent _ f) as [[u|e] f'].
Qed.

(** *** The events of items *)

Definition fresh_item (oi : Z) (kind : string) : fsmItem := ResponsesFsm.new_item oi kind ResponsesFsm.itemPhaseAdded.

Definition out_id (it : out_item) : string := ResponsesFsm.responsesOutputItemID (wire_item it).

Definition out_kind (it : out_item) : string := ResponsesFsm.itemTypeName (wire_item it).

Lemma view_with_index i id f :
  view_of (ResponsesFsm.with_index i id f) =
  {| v_started := v_started (view_of f); v_terminal := v_terminal (view_of f); v_lastSeq := v_lastSeq (view_of f);
     v_identity := v_identity (view_of f); v_items := v_items (view_of f); v_indexes := <[i := id]> (v_indexes (view_of f)) |}.
Proof. done. Qed.

Lemma lawful_added n i it v :
  ready n v → v_items v !! out_id it = None → v_indexes v !! i = None →
  lawful (at_seq n (OutputItemAdded i it)) v (v_new n (out_id it) i (fresh_item i (out_kind it)) v).
Proof.
  intros Hr Hid Hix. apply lawful_event; [done|]. simpl. apply accepts_get. intros f Hf.
  apply accepts_bind, accepts_require; [by rewrite (f_equal v_items Hf : ResponsesFsm.items f = _); apply bool_decide_eq_true|].
  apply accepts_bind, accepts_require; [by rewrite (f_equal v_indexes Hf : ResponsesFsm.indexes f = _); apply bool_decide_eq_true|].
  do 2 (apply accepts_bind, accepts_charge). apply accepts_bind, accepts_update. apply accepts_bind.
  case_bool_decide; [apply accepts_charge|apply accepts_ret]; apply accepts_modify; intros g Hg;
    by rewrite view_with_index, Hg.
Qed.

Lemma lawful_done n i it fi v :
  ready n v → v_items v !! out_id it = Some fi → ResponsesFsm.outputIndex fi = i → out_kind it = ResponsesFsm.item_kind fi →
  ResponsesFsm.item_phase fi = ResponsesFsm.itemPhaseAdded →
  map_Forall (λ _ p, ResponsesFsm.part_phase p ≠ ResponsesFsm.partPhaseAdded) (ResponsesFsm.parts fi) →
  map_Forall (λ _ c, c ≠ ResponsesFsm.callPhaseAdded) (ResponsesFsm.calls fi) →
  lawful (at_seq n (OutputItemDone i it)) v (v_put n (out_id it) (ResponsesFsm.set_phase ResponsesFsm.itemPhaseDone fi) v).
Proof.
  intros Hr Hid Ho Hk Hp Hparts Hcalls. apply lawful_event; [done|]. simpl. apply accepts_get. intros f Hf.
  rewrite (f_equal v_items Hf : ResponsesFsm.items f = _). unfold out_id in Hid. simpl. rewrite Hid.
  repeat (apply accepts_bind, accepts_require; [by rewrite ?Ho, ?Z.eqb_refl, ?Hp; try apply bool_decide_eq_true|]).
  by apply accepts_update.
Qed.

Lemma lawful_part_added n id i ci k fi v :
  ready n v → v_items v !! id = Some fi → ResponsesFsm.outputIndex fi = i → ResponsesFsm.item_kind fi = "message" →
  ResponsesFsm.item_phase fi = ResponsesFsm.itemPhaseAdded → ResponsesFsm.parts fi !! ci = None →
  lawful (at_seq n (ContentPartAdded id i ci k)) v
    (v_put n id (ResponsesFsm.set_part ci {| ResponsesFsm.part_kind := ResponsesFsm.partTypeName (wire_part k);
                                             ResponsesFsm.part_phase := ResponsesFsm.partPhaseAdded |} fi) v).
Proof.
  intros Hr Hid Ho Hk Hp Hc. apply lawful_event; [done|]. apply accepts_bind, (accepts_messageItem _ _ fi); try done.
  apply accepts_bind, accepts_require; [by rewrite Hc|].
  do 2 (apply accepts_bind, accepts_charge). by apply accepts_update.
Qed.

(** The text or refusal a validator's item has accumulated. *)
Definition fsm_value (k : part_kind) (fi : fsmItem) : gmap Z string :=
  match k with KText => ResponsesFsm.text fi | KRefusal => ResponsesFsm.refusal fi end.

Definition set_value (k : part_kind) (ci : Z) (t : string) (fi : fsmItem) : fsmItem :=
  match k with KText => ResponsesFsm.set_text ci t fi | KRefusal => ResponsesFsm.set_refusal ci t fi end.

Definition streaming_part (k : part_kind) (phase : ResponsesFsm.partPhase) : ResponsesFsm.fsmPart :=
  {| ResponsesFsm.part_kind := ResponsesFsm.partTypeName (wire_part k); ResponsesFsm.part_phase := phase |}.

(** An open message of the validator. *)
Definition open_message (id : string) (i : Z) (fi : fsmItem) (vi : gmap string fsmItem) : Prop :=
  vi !! id = Some fi ∧ ResponsesFsm.outputIndex fi = i ∧ ResponsesFsm.item_kind fi = "message" ∧
  ResponsesFsm.item_phase fi = ResponsesFsm.itemPhaseAdded.

Lemma lawful_delta n k id i ci d fi v :
  ready n v → open_message id i fi (v_items v) →
  ResponsesFsm.parts fi !! ci = Some (streaming_part k ResponsesFsm.partPhaseAdded) →
  lawful (at_seq n (delta_event k id i ci d)) v
    (v_put n id (set_value k ci (default "" (fsm_value k fi !! ci) ++ d) fi) v).
Proof.
  intros Hr (Hid & Ho & Hk & Hp) Hc. apply lawful_event; [done|].
  destruct k; (apply accepts_bind; eapply accepts_partForDelta; [done..|]);
    apply accepts_bind, accepts_require; try done; apply accepts_bind, accepts_charge; by apply accepts_update.
Qed.

Lemma lawful_value_done n k id i ci fi v :
  ready n v → open_message id i fi (v_items v) →
  ResponsesFsm.parts fi !! ci = Some (streaming_part k ResponsesFsm.partPhaseAdded) →
  lawful (at_seq n (done_event k id i ci (default "" (fsm_value k fi !! ci)))) v
    (v_put n id (ResponsesFsm.set_part ci (streaming_part k ResponsesFsm.partPhaseValueDone) fi) v).
Proof.
  intros Hr (Hid & Ho & Hk & Hp) Hc. apply lawful_event; [done|].
  destruct k; (apply accepts_bind; eapply accepts_partForDelta; [done..|]);
    repeat (apply accepts_bind, accepts_require; [by try apply bool_decide_eq_true|]); by apply accepts_update.
Qed.

Lemma lawful_part_done n k id i ci t fi v :
  ready n v → open_message id i fi (v_items v) →
  ResponsesFsm.parts fi !! ci = Some (streaming_part k ResponsesFsm.partPhaseValueDone) →
  lawful (at_seq n (ContentPartDone id i ci k t)) v
    (v_put n id (ResponsesFsm.set_part ci (streaming_part k ResponsesFsm.partPhaseDone) fi) v).
Proof.
  intros Hr (Hid & Ho & Hk & Hp) Hc. apply lawful_event; [done|].
  apply accepts_bind, (accepts_messageItem _ _ fi); try done. rewrite Hc.
  repeat (apply accepts_bind, accepts_require; [by try apply bool_decide_eq_true|]). by apply accepts_update.
Qed.

(** An open call of the validator, announced with or without fragments. *)
Definition open_call (id : string) (i : Z) (fi : fsmItem) (vi : gmap string fsmItem) : Prop :=
  vi !! id = Some fi ∧ ResponsesFsm.outputIndex fi = i ∧ ResponsesFsm.item_kind fi = "function_call" ∧
  ResponsesFsm.item_phase fi = ResponsesFsm.itemPhaseAdded ∧ ResponsesFsm.parts fi = ∅ ∧
  (ResponsesFsm.calls fi = ∅ ∨ ResponsesFsm.calls fi = {[id := ResponsesFsm.callPhaseAdded]}).

(** Its phase once it has fragments. *)
Definition with_call (id : string) (c : ResponsesFsm.callPhase) (fi : fsmItem) : fsmItem :=
  ResponsesFsm.set_call id c (ResponsesFsm.set_call id ResponsesFsm.callPhaseAdded fi).

Lemma v_put_put n id a b v : v_put n id a (v_put n id b v) = v_put n id a v.
Proof. unfold v_put. simpl. by rewrite insert_insert_eq. Qed.

Lemma accepts_functionCallItem id i fi v Q :
  open_call id i fi (v_items v) →
  (∀ fi' v', ResponsesFsm.calls fi' = {[id := ResponsesFsm.callPhaseAdded]} →
     (∀ c, ResponsesFsm.set_call id c fi' = ResponsesFsm.set_call id c fi) →
     (∀ a, v_put (v_lastSeq v') id a v' = v_put (v_lastSeq v) id a v) → Q fi' v') →
  accepts (ResponsesFsm.functionCallItem id i) v Q.
Proof.
  intros (Hid & Ho & Hk & Hp & Hpa & Hc) HQ. apply accepts_get. intros f Hf.
  rewrite (f_equal v_items Hf : ResponsesFsm.items f = _), Hid.
  repeat (apply accepts_bind, accepts_require; [by rewrite ?Ho, ?Z.eqb_refl, ?Hp; try apply bool_decide_eq_true|]).
  destruct Hc as [Hc|Hc]; rewrite Hc.
  - rewrite lookup_empty. apply accepts_bind, accepts_update, accepts_bind, accepts_charge, accepts_ret.
    apply HQ; simpl.
    + rewrite Hc. by rewrite insert_empty.
    + intros c. unfold ResponsesFsm.set_call. simpl. by rewrite insert_insert_eq.
    + intros a. apply v_put_put.
  - rewrite lookup_singleton_eq. by apply accepts_ret, HQ.
Qed.

Definition call_with_arguments (id : string) (fi : fsmItem) (d : string) : fsmItem :=
  ResponsesFsm.set_arguments (ResponsesFsm.arguments fi ++ d) (ResponsesFsm.set_call id ResponsesFsm.callPhaseAdded fi).

Lemma set_call_same id c fi : ResponsesFsm.calls fi = {[id := c]} → ResponsesFsm.set_call id c fi = fi.
Proof. intros Hc. destruct fi. simpl in *. subst. unfold ResponsesFsm.set_call. simpl. by rewrite insert_singleton_eq. Qed.

Lemma lawful_arguments_delta n id i d fi v :
  ready n v → open_call id i fi (v_items v) →
  lawful (at_seq n (FunctionArgumentsDelta id i d)) v (v_put n id (call_with_arguments id fi d) v).
Proof.
  intros Hr Hc. apply lawful_event; [done|]. apply accepts_bind, (accepts_functionCallItem id i fi); [done|].
  intros fi' v' Hcalls Hset Hput. rewrite Hcalls, lookup_singleton_eq.
  apply accepts_bind, accepts_require; [by apply bool_decide_eq_true|].
  apply accepts_bind, accepts_charge, accepts_update. rewrite Hput. unfold call_with_arguments.
  rewrite <- Hset, (set_call_same _ _ _ Hcalls).
  replace (ResponsesFsm.arguments fi) with (ResponsesFsm.arguments fi'); [done|].
  by rewrite <- (set_call_same _ _ _ Hcalls), Hset.
Qed.

Lemma lawful_arguments_done n id i a fi v :
  ready n v → open_call id i fi (v_items v) →
  lawful (at_seq n (FunctionArgumentsDone id i a)) v
    (v_put n id (ResponsesFsm.set_call id ResponsesFsm.callPhaseArgumentsDone fi) v).
Proof.
  intros Hr Hc. apply lawful_event; [done|]. apply accepts_bind, (accepts_functionCallItem id i fi); [done|].
  intros fi' v' Hcalls Hset Hput. rewrite Hcalls, lookup_singleton_eq.
  apply accepts_bind, accepts_require; [by apply bool_decide_eq_true|].
  apply accepts_update. by rewrite Hput, Hset.
Qed.

(** An open reasoning item of the validator. *)
Definition open_reasoning_item (id : string) (i : Z) (phase : ResponsesFsm.reasoningPhase) (fi : fsmItem)
    (vi : gmap string fsmItem) : Prop :=
  vi !! id = Some fi ∧ ResponsesFsm.outputIndex fi = i ∧ ResponsesFsm.item_kind fi = "reasoning" ∧
  ResponsesFsm.item_phase fi = ResponsesFsm.itemPhaseAdded ∧ ResponsesFsm.parts fi = ∅ ∧ ResponsesFsm.calls fi = ∅ ∧
  ResponsesFsm.reasoning fi = phase.

Lemma accepts_reasoningItem id i phase fi v Q :
  open_reasoning_item id i phase fi (v_items v) → Q fi v → accepts (ResponsesFsm.reasoningItem id i) v Q.
Proof.
  intros (Hid & Ho & Hk & _) HQ. apply accepts_get. intros f Hf.
  rewrite (f_equal v_items Hf : ResponsesFsm.items f = _), Hid. apply accepts_bind, accepts_ret.
  repeat (apply accepts_bind, accepts_require; [by rewrite ?Ho, ?Z.eqb_refl; try apply bool_decide_eq_true|]).
  by apply accepts_ret.
Qed.

(** The phase after each reasoning event, and the one it wants. *)
Definition reasoning_event (b : event_body) (id : string) (i : Z) (want next : ResponsesFsm.reasoningPhase) : Prop :=
  match b with
  | ReasoningSummaryPartAdded id' i' =>
      id' = id ∧ i' = i ∧ want = ResponsesFsm.reasoningNone ∧ next = ResponsesFsm.reasoningPartAdded
  | ReasoningSummaryTextDone id' i' _ =>
      id' = id ∧ i' = i ∧ want = ResponsesFsm.reasoningPartAdded ∧ next = ResponsesFsm.reasoningValueDone
  | ReasoningSummaryPartDone id' i' _ =>
      id' = id ∧ i' = i ∧ want = ResponsesFsm.reasoningValueDone ∧ next = ResponsesFsm.reasoningPartDone
  | _ => False
  end.

Lemma lawful_reasoning n b id i want next fi v :
  ready n v → reasoning_event b id i want next → open_reasoning_item id i want fi (v_items v) →
  lawful (at_seq n b) v (v_put n id (ResponsesFsm.set_reasoning next fi) v).
Proof.
  intros Hr Hb Ho. apply lawful_event; [done|]. pose proof Ho as (_ & _ & _ & _ & _ & _ & Hph).
  destruct b; try done; destruct Hb as (-> & -> & -> & ->);
    (apply accepts_bind; eapply accepts_reasoningItem; [done|]); rewrite Hph;
    (apply accepts_bind, accepts_require; [by apply bool_decide_eq_true|]);
    try (apply accepts_bind, accepts_charge); by apply accepts_update.
Qed.

Lemma lawful_reasoning_delta n id i d fi v :
  ready n v → open_reasoning_item id i ResponsesFsm.reasoningPartAdded fi (v_items v) →
  lawful (at_seq n (ReasoningSummaryTextDelta id i d)) v (v_seq n v).
Proof.
  intros Hr Ho. apply lawful_event; [done|]. pose proof Ho as (_ & _ & _ & _ & _ & _ & Hph).
  apply accepts_bind. eapply accepts_reasoningItem; [done|].
  apply accepts_bind, accepts_require; [by rewrite Hph; apply bool_decide_eq_true|]. by apply accepts_charge.
Qed.

(** *** The envelopes *)

Definition v_begin (n : Z) (e : envelope) (v : view) : view :=
  {| v_started := true; v_terminal := v_terminal v; v_lastSeq := n; v_identity := (e_ID e, e_Model e, e_CreatedAt e);
     v_items := v_items v; v_indexes := v_indexes v |}.

Definition v_end (n : Z) (v : view) : view :=
  {| v_started := v_started v; v_terminal := true; v_lastSeq := n; v_identity := v_identity v;
     v_items := v_items v; v_indexes := v_indexes v |}.

Lemma lawful_created n e v :
  v_started v = false → v_terminal v = false → v_lastSeq v < n → lawful (at_seq n (Created e)) v (v_begin n e v).
Proof.
  intros Hs Ht Hl.
  assert (accepts (ResponsesFsm.ValidateEvent (wire {| SequenceNumber := n; ev_body := Created e |})) v (λ _ v2, v2 = v_begin n e v)) as Ha.
  { apply accepts_bind, accepts_charge, accepts_get. intros f <-. simpl in *.
    repeat (apply accepts_bind, accepts_require; [by rewrite ?Ht, ?Hs; try apply Z.ltb_lt|]).
    apply accepts_bind, accepts_modify. intros g Hg. apply accepts_bind, accepts_require; [by rewrite Hs|].
    apply accepts_get. intros h Hh. apply accepts_bind, accepts_require.
    { by rewrite (f_equal v_started Hh : ResponsesFsm.started h = ResponsesFsm.started g), (f_equal v_started Hg : ResponsesFsm.started g = ResponsesFsm.started f); simpl; rewrite Hs. }
    apply accepts_modify. intros h' Hh'.
    assert (view_of h' = v_seq n (view_of f)) as Hv by (rewrite Hh'; change (v_seq n (view_of g) = v_seq n (view_of f)); by rewrite Hg).
    etrans; [exact (f_equal (λ w, v_begin (v_lastSeq w) e w) Hv)|done]. }
  intros f Hf. simpl. specialize (Ha f Hf). by destruct (ResponsesFsm.ValidateEvent _ f) as [[u|err] f'].
Qed.

Lemma lawful_in_progress n e v : ready n v → lawful (at_seq n (InProgress e)) v (v_seq n v).
Proof. intros Hr. apply lawful_event; [done|]. by apply accepts_ret. Qed.

Lemma lawful_terminal n b e v :
  ready n v → (b = Completed e ∧ e_Status e = "completed" ∨ b = Incomplete e ∧ e_Status e = "incomplete") →
  v_identity v = (e_ID e, e_Model e, e_CreatedAt e) →
  map_Forall (λ _ it, ResponsesFsm.item_phase it = ResponsesFsm.itemPhaseDone) (v_items v) →
  lawful (at_seq n b) v (v_end n v).
Proof.
  intros Hr Hb Hid Hall. apply lawful_event; [done|].
  assert (∀ st, e_Status e = st → accepts (ResponsesFsm.terminalEvent (wire_envelope e) st) (v_seq n v) (λ _ v2, v2 = v_end n v)) as Ht.
  { intros st Hst. apply accepts_get. intros f Hf. destruct Hr as (_ & Ht & _).
    rewrite (f_equal v_terminal Hf : ResponsesFsm.terminal f = _), (f_equal v_identity Hf : ResponsesFsm.identity f = _),
      (f_equal v_items Hf : ResponsesFsm.items f = _). simpl.
    apply accepts_bind, accepts_require; [by rewrite Ht|].
    apply accepts_bind, accepts_require; [by rewrite Hid; apply bool_decide_eq_true|].
    apply accepts_bind, accepts_require; [by apply bool_decide_eq_true|].
    apply accepts_bind, accepts_require; [by rewrite (bool_decide_eq_true_2 (map_Forall _ _)), orb_true_r|].
    apply accepts_modify. intros g Hg. change (view_of (ResponsesFsm.with_terminal g)) with (v_end (v_lastSeq (view_of g)) (view_of g)).
    by rewrite Hg. }
  destruct Hb as [[-> Hst]|[-> Hst]]; by apply Ht.
Qed.

(** ** Computations and the validator *)

#[export] Instance lawful_reader : Reader lawful.
Proof. split; [apply lawful_nil|]. intros l1 l2 v1 v2 v3. apply lawful_app. Qed.

(** The events of a computation are lawful from a view, and it does not panic. *)
Abbreviation wpc := (wp lawful (λ e : stream_error, e = Panic)).
Abbreviation wpc_ret := (wp_ret lawful (λ e : stream_error, e = Panic)).
Abbreviation wpc_fail := (wp_fail lawful (λ e : stream_error, e = Panic)).
Abbreviation wpc_bind := (wp_bind lawful (λ e : stream_error, e = Panic)).
Abbreviation wpc_mono := (wp_mono lawful (λ e : stream_error, e = Panic)).
Abbreviation wpc_gets := (wp_gets lawful (λ e : stream_error, e = Panic)).
Abbreviation wpc_modify := (wp_modify lawful (λ e : stream_error, e = Panic)).
Abbreviation wpc_when := (wp_when lawful (λ e : stream_error, e = Panic)).
Abbreviation wpc_deliver := (wp_deliver lawful (λ e : stream_error, e = Panic)).
Abbreviation wpc_for_each := (wp_for_each lawful (λ e : stream_error, e = Panic)).

(** Nothing is emitted. *)
Lemma wpc_silent {A} (m : M A) r s' (Q : A → chatState → view → Prop) s v :
  m s = (r, [], s') → r ≠ Err Panic → (∀ a, r = Ok a → Q a s' v) → wpc m Q s v.
Proof.
  intros Hm Hr HQ. unfold wp. rewrite Hm. split; [by intros e -> ->|]. exists v. split; [apply lawful_nil|done].
Qed.

Lemma wpc_on_report {A} (c : Conv A) (Q : A → chatState → view → Prop) s v :
  (∀ a r, Q a (set_report r s) v) → wpc (on_report c) Q s v.
Proof.
  intros HQ. destruct (c (s_report s)) as [[a|e] r] eqn:Hc.
  all: eapply wpc_silent; [by unfold on_report; rewrite Hc|done|by intros ? [= <-]].
Qed.

Lemma wpc_require b msg (Q : unit → chatState → view → Prop) s v : (b = true → Q tt s v) → wpc (require b msg) Q s v.
Proof. intros HQ. destruct b; [by apply wpc_ret, HQ|by apply wpc_fail]. Qed.

Lemma wpc_emit b v' (Q : unit → chatState → view → Prop) s v :
  lawful (at_seq (s_nextSequence s) b) v v' → Q tt (set_nextSequence (s_nextSequence s + 1) s) v' → wpc (emit b) Q s v.
Proof. intros Hl HQ. split; [done|]. exists v'. split; [done|]. by intros ? [= <-]. Qed.

Lemma wpc_charge add (Q : unit → chatState → view → Prop) s v : (∀ b, Q tt (set_budget b s) v) → wpc (charge add) Q s v.
Proof.
  intros HQ. destruct (add (s_budget s)) eqn:Ha.
  all: eapply wpc_silent; [by unfold charge; rewrite Ha|done|by intros ? [= <-]].
Qed.

Lemma wpc_new_id kind (Q : string → chatState → view → Prop) s v :
  Q (id_of (x_idPrefix (s_exchange s)) kind (s_nextID s + 1)) (set_nextID (s_nextID s + 1) s) v → wpc (new_id kind) Q s v.
Proof. intros HQ. eapply wpc_silent; [done|done|by intros ? [= <-]]. Qed.

Lemma wpc_push_item l (Q : Z → chatState → view → Prop) s v :
  Q (s_itemIndex s)
    (set_items (s_items s ++ [{| oi_index := s_itemIndex s; oi_openPart := -1; oi_item := l |}])%list (set_itemIndex (s_itemIndex s + 1) s)) v →
  wpc (push_item l) Q s v.
Proof. intros HQ. apply wpc_bind, wpc_gets, wpc_bind, wpc_modify, wpc_bind, wpc_modify, wpc_ret, HQ. Qed.

(** ** Accounting *)

(** What accounting leaves alone. *)
Record core := {
  k_exchange : exchange;
  k_createdAt : Qc;
  k_started : bool;
  k_sawFinish : bool;
  k_finishReason : string;
  k_items : list openResponsesItem;
  k_itemIndex : Z;
  k_pendingCalls : gmap Z pendingToolCall;
  k_closedCalls : list pendingToolCall;
  k_textBufs : gmap (Z * Z) string;
  k_refusalBufs : gmap (Z * Z) string;
  k_heldTerminal : list event;
  k_terminalReleased : bool;
  k_nextSequence : Z;
  k_nextID : N;
}.

Definition core_of (s : chatState) : core :=
  {| k_exchange := s_exchange s; k_createdAt := s_createdAt s; k_started := s_started s; k_sawFinish := s_sawFinish s;
     k_finishReason := s_finishReason s; k_items := s_items s; k_itemIndex := s_itemIndex s;
     k_pendingCalls := s_pendingCalls s; k_closedCalls := s_closedCalls s; k_textBufs := s_textBufs s;
     k_refusalBufs := s_refusalBufs s; k_heldTerminal := s_heldTerminal s; k_terminalReleased := s_terminalReleased s;
     k_nextSequence := s_nextSequence s; k_nextID := s_nextID s |}.

(** Emits nothing, does not panic and leaves the core. *)
Abbreviation quietc := (quiet core_of (λ e : stream_error, e = Panic)).
Abbreviation wpc_quiet := (wp_quiet core_of (λ e : stream_error, e = Panic) lawful).

Lemma quietc_wire {A} msg : quietc (wireError (A := A) msg).
Proof. by apply quiet_fail. Qed.
Lemma quietc_on_report {A} (c : Conv A) : quietc (on_report c).
Proof. intros s. unfold on_report. destruct (c (s_report s)) as [[a|e] r]; split_and!; try done; by intros ? [= <-]. Qed.
Lemma quietc_require b msg : quietc (require b msg).
Proof. destruct b; [apply quiet_ret|apply quietc_wire]. Qed.
Lemma quietc_charge add : quietc (charge add).
Proof. intros s. unfold charge. destruct (add _); split_and!; try done; by intros ? [= <-]. Qed.

Create HintDb quietc.

Ltac quietc :=
  repeat (intros; first
    [ apply quiet_bind | apply quiet_ret | apply quietc_wire | apply quiet_gets | apply quietc_on_report | apply quietc_require
    | apply quiet_when | apply quietc_charge | apply quiet_for_each | solve [eauto with quietc]
    | apply quiet_modify; intros; solve [done | eauto] | case_match ]).

Lemma quietc_once flag set m : (∀ b s, core_of (set b s) = core_of s) → quietc m → quietc (once flag set m).
Proof. intros Hset Hm. unfold once. quietc. Qed.
#[export] Hint Resolve quietc_once : quietc.

Lemma quietc_lose f p d : quietc (lose f p d).
Proof. unfold lose. quietc. Qed.
Lemma quietc_note f p d : quietc (note f p d).
Proof. unfold note. quietc. Qed.
#[export] Hint Resolve quietc_lose quietc_note : quietc.

Lemma quietc_charge_identity n : quietc (chargeIdentity n).
Proof. unfold chargeIdentity. quietc. Qed.
#[export] Hint Resolve quietc_charge_identity : quietc.

Lemma quietc_accumulated t n : quietc (checkAccumulated t n).
Proof. unfold checkAccumulated. quietc. Qed.
Lemma quietc_tier : quietc loseServiceTierOnce.
Proof. unfold loseServiceTierOnce. auto with quietc. Qed.
Lemma quietc_logprobs : quietc loseLogprobsOnce.
Proof. unfold loseLogprobsOnce. auto with quietc. Qed.
Lemma quietc_components usage : quietc (loseUnknownUsageComponentsOnce usage).
Proof. unfold loseUnknownUsageComponentsOnce. apply quietc_once; [done|]. quietc. Qed.
Lemma quietc_derived chunk : quietc (noteDerivedUsageTotal chunk).
Proof. unfold noteDerivedUsageTotal. quietc. Qed.
#[export] Hint Resolve quietc_accumulated quietc_tier quietc_logprobs quietc_components quietc_derived : quietc.

Lemma quietc_absorb chunk usage : quietc (absorb_usage chunk usage).
Proof. unfold absorb_usage. quietc. Qed.
#[export] Hint Resolve quietc_absorb : quietc.

Lemma quietc_phase2 chunk : quietc (absorbPhase2Accounting chunk).
Proof. unfold absorbPhase2Accounting. quietc. Qed.
#[export] Hint Resolve quietc_phase2 : quietc.

(** ** Identifiers are fresh *)

Fixpoint after_last (c : ascii) (t : string) : option string :=
  match t with
  | EmptyString => None
  | String x t' => match after_last c t' with Some r => Some r | None => if Ascii.eqb x c then Some t' else None end
  end.

Lemma after_last_app c a b : after_last c b = None → after_last c (a ++ String c b) = Some b.
Proof.
  intros Hb. induction a as [|x a IH].
  - change (after_last c (String c b) = Some b). simpl. by rewrite Hb, Ascii.eqb_refl.
  - change (after_last c (String x (a ++ String c b)) = Some b). simpl. by rewrite IH.
Qed.

Lemma pretty_char_plain x : Ascii.eqb (pretty_N_char x) "_" = false.
Proof. unfold pretty_N_char. by repeat case_match. Qed.

Lemma pretty_go_plain x t : after_last "_" t = None → after_last "_" (pretty_N_go x t) = None.
Proof.
  revert t. induction (N.lt_wf_0 x) as [x _ IH]. intros t Ht.
  destruct (decide (x = 0%N)) as [->|Hx]; [by rewrite pretty_N_go_0|].
  rewrite pretty_N_go_step by lia. apply IH; [apply N.div_lt; lia|]. simpl. by rewrite Ht, pretty_char_plain.
Qed.

Lemma pretty_plain (n : N) : after_last "_" (pretty n) = None.
Proof. unfold pretty, pretty_N. case_decide; [done|]. by apply pretty_go_plain. Qed.

Lemma id_of_inj prefix k1 k2 n1 n2 : id_of prefix k1 n1 = id_of prefix k2 n2 → n1 = n2.
Proof.
  assert (∀ k n, after_last "_" (id_of prefix k n) = Some (pretty n)) as Hl.
  { intros k n. unfold id_of. rewrite ResponsesFsm.append_assoc.
    change ("_" ++ pretty n) with (String "_"%char (pretty n)). by rewrite after_last_app by apply pretty_plain. }
  intros Heq. apply (inj pretty). pose proof (Hl k1 n1) as H1. rewrite Heq, Hl in H1. congruence.
Qed.

(** ** The structure shared with the validator *)

Definition live_id (l : live_item) : option string :=
  match l with LiveMessage id false _ | LiveReasoning id false _ => Some id | _ => None end.

Definition part_at (content : list (part_kind * string)) (ci : Z) : option part_kind :=
  if 0 <=? ci then fst <$> content !! Z.to_nat ci else None.

(** An open item is the validator's. *)
Definition live_ok (B : part_kind → gmap (Z * Z) string) (oi : openResponsesItem) (vi : gmap string fsmItem) : Prop :=
  match oi_item oi with
  | LiveMessage id false content =>
      Forall (λ e, e.2 = "") content ∧
      ∃ fi, open_message id (oi_index oi) fi vi ∧ ResponsesFsm.calls fi = ∅ ∧
        (∀ ci, ResponsesFsm.parts fi !! ci = (λ k, streaming_part k ResponsesFsm.partPhaseAdded) <$> part_at content ci) ∧
        (∀ k ci, default "" (fsm_value k fi !! ci) = default "" (B k !! (oi_index oi, ci)))
  | LiveReasoning id false _ =>
      ∃ fi, open_reasoning_item id (oi_index oi) ResponsesFsm.reasoningPartAdded fi vi
  | _ => True
  end.

(** The open items [l], with the next index [ii], the pending calls [m] and the
    accumulated texts [B]; the validator's items and indexes. *)
Record linked (prefix : string) (n : N) (l : list openResponsesItem) (ii : Z) (m : gmap Z pendingToolCall)
    (B : part_kind → gmap (Z * Z) string) (vi : gmap string fsmItem) (vx : gmap Z string) : Prop := {
  lk_ids : ∀ id, vi !! id ≠ None → ∃ kind j, (j <= n)%N ∧ id = id_of prefix kind j;
  lk_items : ∀ j oi, l !! j = Some oi → oi_index oi < ii;
  lk_items_inj : ∀ i j a b, l !! i = Some a → l !! j = Some b → oi_index a = oi_index b → i = j;
  lk_calls : ∀ key p, m !! key = Some p → outputIndex p < ii;
  lk_calls_inj : ∀ k1 k2 p1 p2, m !! k1 = Some p1 → m !! k2 = Some p2 → outputIndex p1 = outputIndex p2 → k1 = k2;
  lk_apart : ∀ key p j oi, m !! key = Some p → l !! j = Some oi → outputIndex p ≠ oi_index oi;
  lk_indexes : ∀ i, vx !! i ≠ None → i < ii;
  lk_waiting : ∀ key p, m !! key = Some p → call_started p = false → vx !! outputIndex p = None;
  lk_bufs : ∀ k i ci, B k !! (i, ci) ≠ None → i < ii;
  lk_live : ∀ j oi, l !! j = Some oi → live_ok B oi vi;
  lk_started : ∀ key p, m !! key = Some p → call_started p = true → ∃ fi, open_call (itemID p) (outputIndex p) fi vi;
  lk_tracked : ∀ id fi, vi !! id = Some fi →
    ResponsesFsm.item_phase fi = ResponsesFsm.itemPhaseDone ∨
    (∃ j oi, l !! j = Some oi ∧ live_id (oi_item oi) = Some id) ∨
    (∃ key p, m !! key = Some p ∧ call_started p = true ∧ itemID p = id);
}.

Lemma live_ok_lookup B oi vi id :
  live_ok B oi vi → live_id (oi_item oi) = Some id →
  ∃ fi, vi !! id = Some fi ∧ ResponsesFsm.outputIndex fi = oi_index oi ∧ ResponsesFsm.item_phase fi = ResponsesFsm.itemPhaseAdded.
Proof.
  unfold live_ok. destruct (oi_item oi) as [id' [] c|id' [] c]; simpl; intros Hl [= <-].
  - destruct Hl as (_ & fi & (Hi & Ho & _ & Hp) & _). eauto.
  - destruct Hl as (fi & Hi & Ho & _ & Hp & _). eauto.
Qed.

Lemma live_ok_frame B B' oi vi id it :
  live_ok B oi vi → live_id (oi_item oi) ≠ Some id → (∀ k ci, B' k !! (oi_index oi, ci) = B k !! (oi_index oi, ci)) →
  live_ok B' oi (<[id := it]> vi).
Proof.
  unfold live_ok. destruct (oi_item oi) as [id' [] c|id' [] c]; simpl; try done; intros Hl Hne HB.
  - destruct Hl as (Hc & fi & (Hi & Hr) & Hcalls & Hp & Hv). split; [done|]. exists fi.
    split; [split; [by rewrite lookup_insert_ne by congruence|done]|]. split_and!; [done..|].
    intros k ci. by rewrite HB.
  - destruct Hl as (fi & Hi & Hr). exists fi. split; [by rewrite lookup_insert_ne by congruence|done].
Qed.

Lemma open_call_frame id i fi vi id' it : open_call id i fi vi → id ≠ id' → open_call id i fi (<[id' := it]> vi).
Proof. intros (Hi & Hr) Hne. split; [by rewrite lookup_insert_ne|done]. Qed.

Section linked_steps.
Context {prefix : string} {n : N} {l : list openResponsesItem} {ii : Z} {m : gmap Z pendingToolCall}
  {B : part_kind → gmap (Z * Z) string} {vi : gmap string fsmItem} {vx : gmap Z string}.
Context (Hk : linked prefix n l ii m B vi vx).

Lemma live_unique i j a b id :
  l !! i = Some a → l !! j = Some b → live_id (oi_item a) = Some id → live_id (oi_item b) = Some id → i = j.
Proof using Hk.
  intros Ha Hb Hia Hib. destruct (live_ok_lookup _ _ _ _ (lk_live _ _ _ _ _ _ _ _ Hk _ _ Ha) Hia) as (f1 & H1 & Ho1 & _).
  destruct (live_ok_lookup _ _ _ _ (lk_live _ _ _ _ _ _ _ _ Hk _ _ Hb) Hib) as (f2 & H2 & Ho2 & _).
  eapply lk_items_inj; [done..|]. congruence.
Qed.

Lemma live_not_call j a key p id :
  l !! j = Some a → live_id (oi_item a) = Some id → m !! key = Some p → call_started p = true → itemID p ≠ id.
Proof using Hk.
  intros Ha Hia Hp Hs Hid. destruct (live_ok_lookup _ _ _ _ (lk_live _ _ _ _ _ _ _ _ Hk _ _ Ha) Hia) as (f1 & H1 & Ho1 & _).
  destruct (lk_started _ _ _ _ _ _ _ _ Hk _ _ Hp Hs) as (f2 & H2 & Ho2 & _).
  eapply lk_apart; [done..|]. rewrite Hid in H2. congruence.
Qed.

Lemma call_unique k1 k2 p1 p2 :
  m !! k1 = Some p1 → m !! k2 = Some p2 → call_started p1 = true → call_started p2 = true → itemID p1 = itemID p2 → k1 = k2.
Proof using Hk.
  intros H1 H2 Hs1 Hs2 Hid. destruct (lk_started _ _ _ _ _ _ _ _ Hk _ _ H1 Hs1) as (f1 & Hf1 & Ho1 & _).
  destruct (lk_started _ _ _ _ _ _ _ _ Hk _ _ H2 Hs2) as (f2 & Hf2 & Ho2 & _).
  eapply lk_calls_inj; [done..|]. rewrite Hid in Hf1. congruence.
Qed.

Lemma fresh_id kind : vi !! id_of prefix kind (n + 1) = None.
Proof using Hk.
  destruct (vi !! _) eqn:Hv; [|done].
  destruct (lk_ids _ _ _ _ _ _ _ _ Hk (id_of prefix kind (n + 1))) as (k' & j & Hj & Heq); [by rewrite Hv|].
  apply id_of_inj in Heq. lia.
Qed.

(** An open item and the validator's change together. *)
Lemma linked_item j oi oi' id fi' B' :
  l !! j = Some oi → live_id (oi_item oi) = Some id → oi_index oi' = oi_index oi →
  live_ok B' oi' (<[id := fi']> vi) →
  live_id (oi_item oi') = Some id ∨ ResponsesFsm.item_phase fi' = ResponsesFsm.itemPhaseDone →
  (∀ k i ci, i ≠ oi_index oi → B' k !! (i, ci) = B k !! (i, ci)) →
  linked prefix n (<[j := oi']> l) ii m B' (<[id := fi']> vi) vx.
Proof using Hk.
  intros Hj Hid Hix Hok Hphase HB.
  assert (∀ j' o, <[j := oi']> l !! j' = Some o → ∃ o0, l !! j' = Some o0 ∧ oi_index o = oi_index o0 ∧
    (j' = j ∧ o0 = oi ∧ o = oi' ∨ j' ≠ j ∧ o0 = o)) as Hl.
  { intros j' o Ho. apply list_lookup_insert_Some in Ho as [(<- & <- & _)|[Hne Ho]]; [by eauto 10|].
    exists o. eauto 10. }
  constructor.
  - intros id' Hv. apply (lk_ids _ _ _ _ _ _ _ _ Hk). destruct (decide (id' = id)) as [->|Hne].
    + by destruct (live_ok_lookup _ _ _ _ (lk_live _ _ _ _ _ _ _ _ Hk _ _ Hj) Hid) as (? & -> & _).
    + by rewrite lookup_insert_ne in Hv by congruence.
  - intros j' o (o0 & Ho & -> & _)%Hl. by eapply lk_items.
  - intros i1 i2 a b (a0 & Ha & -> & _)%Hl (b0 & Hb & -> & _)%Hl. by eapply lk_items_inj.
  - apply (lk_calls _ _ _ _ _ _ _ _ Hk).
  - apply (lk_calls_inj _ _ _ _ _ _ _ _ Hk).
  - intros key p j' o Hp (o0 & Ho & -> & _)%Hl. by eapply lk_apart.
  - apply (lk_indexes _ _ _ _ _ _ _ _ Hk).
  - apply (lk_waiting _ _ _ _ _ _ _ _ Hk).
  - intros k i ci Hi. destruct (decide (i = oi_index oi)) as [->|Hne]; [by eapply lk_items|].
    rewrite HB in Hi by done. by eapply lk_bufs.
  - intros j' o (o0 & Ho & Hi & [(-> & -> & ->)|[Hne ->]])%Hl; [done|].
    apply (live_ok_frame B); [by eapply lk_live| |].
    + intros Hid'. apply Hne. by eapply live_unique.
    + intros k ci. apply HB. intros Heq. apply Hne. by eapply lk_items_inj.
  - intros key p Hp Hs. destruct (lk_started _ _ _ _ _ _ _ _ Hk _ _ Hp Hs) as (f0 & Hf). exists f0.
    apply open_call_frame; [done|]. by eapply live_not_call.
  - intros id' f0 Hf. apply lookup_insert_Some in Hf as [[<- <-]|[Hne Hf]].
    + destruct Hphase as [Hlive|Hdone]; [|by left]. right; left. exists j, oi'. split; [|done].
      apply list_lookup_insert_Some. left. split_and!; [done..|by eapply lookup_lt_Some].
    + destruct (lk_tracked _ _ _ _ _ _ _ _ Hk _ _ Hf) as [?|[(j' & o & Ho & Hid')|?]]; [by left| |by eauto].
      right; left. exists j', o. split; [|done]. apply list_lookup_insert_Some. right. split; [|done].
      intros ->. congruence.
Qed.

(** A new item takes the next index and a fresh identifier. *)
Lemma linked_push oi kind fi' :
  oi_index oi = ii → live_ok B oi (<[id_of prefix kind (n + 1) := fi']> vi) →
  live_id (oi_item oi) = Some (id_of prefix kind (n + 1)) →
  linked prefix (n + 1) (l ++ [oi])%list (ii + 1) m B (<[id_of prefix kind (n + 1) := fi']> vi)
    (<[ii := id_of prefix kind (n + 1)]> vx).
Proof using Hk.
  intros Hix Hok Hid. pose proof (fresh_id kind) as Hfresh. set (id := id_of prefix kind (n + 1)) in *.
  assert (∀ j o, (l ++ [oi])%list !! j = Some o → l !! j = Some o ∨ j = length l ∧ o = oi) as Hl.
  { intros j o Ho. apply lookup_app_Some in Ho as [?|[Hge Ho]]; [by left|]. right.
    apply list_lookup_singleton_Some in Ho as [? <-]. split; [lia|done]. }
  constructor.
  - intros id' Hv. destruct (decide (id' = id)) as [->|Hne]; [by exists kind, (n + 1)%N|].
    rewrite lookup_insert_ne in Hv by congruence.
    destruct (lk_ids _ _ _ _ _ _ _ _ Hk _ Hv) as (k' & j & Hj & ->). exists k', j. split; [lia|done].
  - intros j o [Ho|[_ ->]]%Hl; [|lia]. pose proof (lk_items _ _ _ _ _ _ _ _ Hk _ _ Ho). lia.
  - intros i1 i2 a b [Ha|[-> ->]]%Hl [Hb|[-> ->]]%Hl Heq; [by eapply lk_items_inj| | |done].
    + pose proof (lk_items _ _ _ _ _ _ _ _ Hk _ _ Ha). lia.
    + pose proof (lk_items _ _ _ _ _ _ _ _ Hk _ _ Hb). lia.
  - intros key p Hp. pose proof (lk_calls _ _ _ _ _ _ _ _ Hk _ _ Hp). lia.
  - apply (lk_calls_inj _ _ _ _ _ _ _ _ Hk).
  - intros key p j o Hp [Ho|[-> ->]]%Hl; [by eapply lk_apart|]. pose proof (lk_calls _ _ _ _ _ _ _ _ Hk _ _ Hp). lia.
  - intros i Hi. destruct (decide (i = ii)) as [->|Hne]; [lia|]. rewrite lookup_insert_ne in Hi by done.
    pose proof (lk_indexes _ _ _ _ _ _ _ _ Hk _ Hi). lia.
  - intros key p Hp Hs. pose proof (lk_calls _ _ _ _ _ _ _ _ Hk _ _ Hp). rewrite lookup_insert_ne by lia. by eapply lk_waiting.
  - intros k i ci Hi. pose proof (lk_bufs _ _ _ _ _ _ _ _ Hk _ _ _ Hi). lia.
  - intros j o [Ho|[-> ->]]%Hl; [|done]. pose proof (lk_live _ _ _ _ _ _ _ _ Hk _ _ Ho) as Hlive.
    apply (live_ok_frame B); [done| |done]. intros Hid'. destruct (live_ok_lookup _ _ _ _ Hlive Hid') as (? & Hv & _). congruence.
  - intros key p Hp Hs. destruct (lk_started _ _ _ _ _ _ _ _ Hk _ _ Hp Hs) as (f0 & Hf). exists f0.
    apply open_call_frame; [done|]. destruct Hf as (Hv & _). intros Heq. rewrite Heq in Hv. congruence.
  - intros id' f0 Hf. apply lookup_insert_Some in Hf as [[<- <-]|[Hne Hf]].
    + right; left. exists (length l), oi. split; [by apply lookup_snoc_Some; right|done].
    + destruct (lk_tracked _ _ _ _ _ _ _ _ Hk _ _ Hf) as [?|[(j' & o & Ho & Hid')|?]]; [by left| |by eauto].
      right; left. exists j', o. split; [|done]. by apply lookup_app_l_Some.
Qed.

(** A new call takes the next index. *)
Lemma linked_new_call key : m !! key = None → linked prefix n l (ii + 1) (<[key := unnamed_call ii]> m) B vi vx.
Proof using Hk.
  intros Hkey.
  assert (∀ k p, <[key := unnamed_call ii]> m !! k = Some p → k = key ∧ p = unnamed_call ii ∨ k ≠ key ∧ m !! k = Some p) as Hm.
  { intros k p Hp. apply lookup_insert_Some in Hp as [[<- <-]|[? ?]]; [by left|by right]. }
  assert (∀ k p, m !! k = Some p → outputIndex p < ii) as Hlt by apply (lk_calls _ _ _ _ _ _ _ _ Hk).
  constructor; try apply Hk.
  - intros j o Ho. pose proof (lk_items _ _ _ _ _ _ _ _ Hk _ _ Ho). lia.
  - intros k p [[-> ->]|[_ Hp]]%Hm; [simpl; lia|]. specialize (Hlt _ _ Hp). lia.
  - intros k1 k2 p1 p2 [[-> ->]|[_ H1]]%Hm [[-> ->]|[_ H2]]%Hm Heq; [done| | |by eapply lk_calls_inj].
    + specialize (Hlt _ _ H2). simpl in Heq. lia.
    + specialize (Hlt _ _ H1). simpl in Heq. lia.
  - intros k p j o [[-> ->]|[_ Hp]]%Hm Ho; [|by eapply lk_apart]. pose proof (lk_items _ _ _ _ _ _ _ _ Hk _ _ Ho). simpl. lia.
  - intros i Hi. pose proof (lk_indexes _ _ _ _ _ _ _ _ Hk _ Hi). lia.
  - intros k p [[-> ->]|[_ Hp]]%Hm Hs; [|by eapply lk_waiting]. simpl. destruct (vx !! ii) eqn:Hv; [|done].
    assert (ii < ii); [|lia]. apply (lk_indexes _ _ _ _ _ _ _ _ Hk). by rewrite Hv.
  - intros k i ci Hi. pose proof (lk_bufs _ _ _ _ _ _ _ _ Hk _ _ _ Hi). lia.
  - intros k p [[-> ->]|[_ Hp]]%Hm Hs; [done|by eapply lk_started].
  - intros id' f0 Hf. destruct (lk_tracked _ _ _ _ _ _ _ _ Hk _ _ Hf) as [?|[?|(k & p & Hp & Hr)]]; [by left|by eauto|].
    right; right. exists k, p. split; [|done]. rewrite lookup_insert_ne; [done|]. intros ->. congruence.
Qed.

(** A call's texts change. *)
Lemma linked_call_update key p p' :
  m !! key = Some p → itemID p' = itemID p → outputIndex p' = outputIndex p → call_started p' = call_started p →
  linked prefix n l ii (<[key := p']> m) B vi vx.
Proof using Hk.
  intros Hkey Hid Hix Hst.
  assert (∀ k q, <[key := p']> m !! k = Some q → ∃ q0, m !! k = Some q0 ∧ itemID q = itemID q0 ∧
    outputIndex q = outputIndex q0 ∧ call_started q = call_started q0) as Hm.
  { intros k q Hq. apply lookup_insert_Some in Hq as [[<- <-]|[? Hq]]; eauto 10. }
  constructor; try apply Hk.
  - intros k q (q0 & Hq & _ & -> & _)%Hm. by eapply lk_calls.
  - intros k1 k2 p1 p2 (q1 & H1 & _ & -> & _)%Hm (q2 & H2 & _ & -> & _)%Hm. by eapply lk_calls_inj.
  - intros k q j oi (q0 & Hq & _ & -> & _)%Hm. by eapply lk_apart.
  - intros k q (q0 & Hq & _ & -> & ->)%Hm. by eapply lk_waiting.
  - intros k q (q0 & Hq & -> & -> & ->)%Hm. by eapply lk_started.
  - intros id' f0 Hf. destruct (lk_tracked _ _ _ _ _ _ _ _ Hk _ _ Hf) as [?|[?|(k & q & Hq & Hs & Hid')]]; [by left|by eauto|].
    right; right. destruct (decide (k = key)) as [->|Hne].
    + exists key, p'. rewrite lookup_insert_eq. assert (q = p) as -> by congruence. split_and!; congruence.
    + exists k, q. by rewrite lookup_insert_ne.
Qed.

(** An event of a call: its announcement, its fragments or its end. *)
Lemma linked_call_step key p kind id fi' o n' vx' :
  m !! key = Some p →
  (o = None ∧ ResponsesFsm.item_phase fi' = ResponsesFsm.itemPhaseDone ∨
   ∃ p', o = Some p' ∧ outputIndex p' = outputIndex p ∧ itemID p' = id ∧ call_started p' = true ∧
     open_call id (outputIndex p) fi' (<[id := fi']> vi)) →
  (call_started p = true ∧ itemID p = id ∧ n' = n ∧ vx' = vx ∨
   call_started p = false ∧ id = id_of prefix kind (n + 1) ∧ n' = (n + 1)%N ∧ vx' = <[outputIndex p := id]> vx) →
  linked prefix n' l ii (partial_alter (λ _, o) key m) B (<[id := fi']> vi) vx'.
Proof using Hk.
  intros Hkey Ho Hn.
  assert (∀ k q, partial_alter (λ _, o) key m !! k = Some q →
    k = key ∧ o = Some q ∧ outputIndex q = outputIndex p ∧ itemID q = id ∧ call_started q = true ∧
      open_call id (outputIndex p) fi' (<[id := fi']> vi) ∨ k ≠ key ∧ m !! k = Some q) as Hm.
  { intros k q Hq. apply lookup_partial_alter_Some in Hq as [[<- Hq]|[Hne Hq]]; [left|right; by split].
    destruct Ho as [[-> _]|(p' & -> & ?)]; [done|]. injection Hq as <-. tauto. }
  assert (∀ k q, partial_alter (λ _, o) key m !! k = Some q → ∃ q0, m !! k = Some q0 ∧ outputIndex q = outputIndex q0) as Hm0.
  { intros k q [(-> & _ & Hix & _)|[_ Hq]]%Hm; eauto. }
  assert (∀ j oi, l !! j = Some oi → live_id (oi_item oi) ≠ Some id) as Hlive.
  { intros j oi Hj Hid. destruct Hn as [(Hs & <- & _)|(_ & -> & _)]; [by eapply live_not_call|].
    destruct (live_ok_lookup _ _ _ _ (lk_live _ _ _ _ _ _ _ _ Hk _ _ Hj) Hid) as (? & Hv & _). by rewrite fresh_id in Hv. }
  assert (∀ k q, k ≠ key → m !! k = Some q → call_started q = true → itemID q ≠ id) as Hother.
  { intros k q Hne Hq Hs Hid. destruct Hn as [(Hs' & <- & _)|(_ & -> & _)]; [apply Hne; by eapply call_unique|].
    destruct (lk_started _ _ _ _ _ _ _ _ Hk _ _ Hq Hs) as (? & Hv & _). by rewrite Hid, fresh_id in Hv. }
  constructor; try apply Hk.
  - intros id' Hv. destruct (decide (id' = id)) as [->|Hne].
    + destruct Hn as [(Hs & <- & -> & _)|(_ & -> & -> & _)]; [|by exists kind, (n + 1)%N].
      apply (lk_ids _ _ _ _ _ _ _ _ Hk). by destruct (lk_started _ _ _ _ _ _ _ _ Hk _ _ Hkey Hs) as (? & -> & _).
    + rewrite lookup_insert_ne in Hv by congruence.
      destruct (lk_ids _ _ _ _ _ _ _ _ Hk _ Hv) as (k' & j & Hj & ->). exists k', j.
      split; [destruct Hn as [(_ & _ & -> & _)|(_ & _ & -> & _)]; lia|done].
  - intros k q (q0 & Hq & ->)%Hm0. by eapply lk_calls.
  - intros k1 k2 p1 p2 (q1 & H1 & ->)%Hm0 (q2 & H2 & ->)%Hm0. by eapply lk_calls_inj.
  - intros k q j oi (q0 & Hq & ->)%Hm0. by eapply lk_apart.
  - intros i Hi. destruct Hn as [(_ & _ & _ & ->)|(_ & _ & _ & ->)]; [by eapply lk_indexes|].
    destruct (decide (i = outputIndex p)) as [->|Hne]; [by eapply lk_calls|].
    rewrite lookup_insert_ne in Hi by congruence. by eapply lk_indexes.
  - intros k q [(-> & _ & _ & _ & Hs & _)|[Hne Hq]]%Hm Hs'; [congruence|].
    assert (vx !! outputIndex q = None) as Hv by by eapply lk_waiting.
    destruct Hn as [(_ & _ & _ & ->)|(_ & _ & _ & ->)]; [done|]. rewrite lookup_insert_ne; [done|].
    intros Heq. apply Hne. by eapply lk_calls_inj.
  - intros j oi Hj. apply (live_ok_frame B); [by eapply lk_live|by eapply Hlive|done].
  - intros k q [(-> & _ & -> & -> & _ & Hq)|[Hne Hq]]%Hm Hs; [by exists fi'|].
    destruct (lk_started _ _ _ _ _ _ _ _ Hk _ _ Hq Hs) as (f0 & Hf). exists f0. apply open_call_frame; [done|]. by eapply Hother.
  - intros id' f0 Hf. apply lookup_insert_Some in Hf as [[<- <-]|[Hne Hf]].
    + destruct Ho as [[-> Hd]|(p' & -> & _ & Hid & Hs & _)]; [by left|]. right; right. exists key, p'.
      by rewrite lookup_partial_alter_eq.
    + destruct (lk_tracked _ _ _ _ _ _ _ _ Hk _ _ Hf) as [?|[?|(k & q & Hq & Hs & Hid')]]; [by left|by eauto|].
      right; right. exists k, q. rewrite lookup_partial_alter_ne; [done|]. intros ->.
      assert (q = p) as -> by congruence. destruct Hn as [(_ & Heq & _)|(Hs' & _)]; congruence.
Qed.
End linked_steps.

(** ** The invariant *)

(** Open reasoning has a summary. *)
Definition summarized (l : list openResponsesItem) : Prop :=
  ∀ j oi id, l !! j = Some oi → oi_item oi ≠ LiveReasoning id false None.

Definition base (s : chatState) (v : view) : Prop :=
  ready (s_nextSequence s) v ∧
  v_identity v = (x_responseID (s_exchange s), x_model (s_exchange s), s_createdAt s).

(** With [m] for the pending calls still open. *)
Definition Link (m : gmap Z pendingToolCall) (s : chatState) (v : view) : Prop :=
  linked (x_idPrefix (s_exchange s)) (s_nextID s) (s_items s) (s_itemIndex s) m (λ k, bufs k s) (v_items v) (v_indexes v).

Definition Inv (m : gmap Z pendingToolCall) (s : chatState) (v : view) : Prop :=
  base s v ∧ Link m s v ∧ summarized (s_items s).

(** An event has been sent: the view's sequence number is the last. *)
Definition sent (s : chatState) (v v' : view) : Prop :=
  v_started v' = v_started v ∧ v_terminal v' = v_terminal v ∧ v_identity v' = v_identity v ∧
  v_lastSeq v' = s_nextSequence s.

Lemma sent_base s v v' : base s v → sent s v v' → base (set_nextSequence (s_nextSequence s + 1) s) v'.
Proof. intros ((Hs & Ht & Hl) & Hid) (Hs' & Ht' & Hid' & Hl'). split; [split_and!; simpl; [congruence..|lia]|by rewrite Hid']. Qed.

Lemma base_ready s v : base s v → ready (s_nextSequence s) v.
Proof. by intros []. Qed.
#[export] Hint Resolve base_ready : core.

Lemma alter_at {A} (f : A → A) (i : nat) (l : list A) x : l !! i = Some x → alter f i l = <[i := f x]> l.
Proof.
  intros Hx. apply list_eq. intros j. destruct (decide (i = j)) as [<-|Hne].
  - rewrite list_lookup_alter_eq, Hx, list_lookup_insert_eq by (by eapply lookup_lt_Some). done.
  - by rewrite list_lookup_alter_ne, list_lookup_insert_ne.
Qed.

Lemma Inv_core m s s' v : core_of s' = core_of s → Inv m s v → Inv m s' v.
Proof.
  intros [= Hx Hca _ _ _ Hit Hii _ _ Htb Hrb _ _ Hsq Hni] (Hb & Hk & Hs). unfold Inv, base, Link, bufs in *.
  by rewrite Hx, Hca, Hit, Hii, Htb, Hrb, Hsq, Hni.
Qed.

Lemma core_pending s s' : core_of s' = core_of s → s_pendingCalls s' = s_pendingCalls s.
Proof. by intros [=]. Qed.

(** A computation that leaves [g] alone. *)
Abbreviation keepsc g := (keeps g (λ _ : stream_error, False)).
Abbreviation wpc_keeps g := (wp_keeps g (λ _ : stream_error, False) lawful (λ e : stream_error, e = Panic)).

Section keeping.
Context {B : Type} (g : chatState → B).

Lemma keepsc_require b msg : keepsc g (require b msg).
Proof. destruct b; [apply keeps_ret|apply keeps_fail; intros []]. Qed.
Lemma keepsc_charge add : (∀ s b, g (set_budget b s) = g s) → keepsc g (charge add).
Proof. intros Hb s. unfold charge. destruct (add _); simpl; (split; [intros ? _ []|]); [apply Hb|done]. Qed.
Lemma keepsc_on_report {A} (c : Conv A) : (∀ s r, g (set_report r s) = g s) → keepsc g (on_report c).
Proof. intros Hr s. unfold on_report. destruct (c (s_report s)) as [[a|e] r]; (split; [intros ? _ []|apply Hr]). Qed.
Lemma keepsc_emit b : (∀ s n, g (set_nextSequence n s) = g s) → keepsc g (emit b).
Proof. intros Hn s. split; [done|apply Hn]. Qed.
Lemma keepsc_new_id kind : (∀ s n, g (set_nextID n s) = g s) → keepsc g (new_id kind).
Proof. intros Hn s. split; [done|apply Hn]. Qed.
End keeping.

Create HintDb keeps.

Ltac keeps_step :=
  first
    [ apply keeps_bind | apply keeps_ret | solve [apply keeps_fail; intros []] | apply keeps_gets | apply keepsc_require | apply keeps_when
    | apply keeps_for_each | solve [apply keeps_modify; done] | solve [apply keepsc_charge; done]
    | solve [apply keepsc_on_report; done] | solve [apply keepsc_emit; done] | solve [apply keepsc_new_id; done]
    | solve [eauto with keeps] | case_match ].
Ltac keeps := repeat (intros; keeps_step).

(** The phase of the stream, which deltas and the closing of items leave alone. *)
Definition phase_of (s : chatState) : exchange * Qc * bool * bool * list event * bool :=
  (s_exchange s, s_createdAt s, s_started s, s_sawFinish s, s_heldTerminal s, s_terminalReleased s).

(** ** Closing items *)

(** An open message or open reasoning after is one before. *)
Definition shrinks (s s' : chatState) : Prop :=
  length (s_items s') = length (s_items s) ∧
  ∀ j oi, s_items s' !! j = Some oi → live_id (oi_item oi) ≠ None → s_items s !! j = Some oi.

(** What remains to be closed of a message: the parts from [ci0]. *)
Definition parts_left (s : chatState) (oi ci0 : Z) (parts : list (part_kind * string)) (fi : fsmItem) : Prop :=
  (∀ j k t, parts !! j = Some (k, t) →
     ResponsesFsm.parts fi !! (ci0 + Z.of_nat j) = Some (streaming_part k ResponsesFsm.partPhaseAdded) ∧
     default t (bufs k s !! (oi, ci0 + Z.of_nat j)) = default "" (fsm_value k fi !! (ci0 + Z.of_nat j))) ∧
  (∀ ci p, ResponsesFsm.parts fi !! ci = Some p → ResponsesFsm.part_phase p = ResponsesFsm.partPhaseAdded →
     ∃ j, (j < length parts)%nat ∧ ci = ci0 + Z.of_nat j).

Lemma wpc_close_parts id oi parts : ∀ ci0 s v fi (Q : list (part_kind * string) → chatState → view → Prop),
  base s v → open_message id oi fi (v_items v) → ResponsesFsm.calls fi = ∅ → parts_left s oi ci0 parts fi →
  (∀ r n v' fi', base (set_nextSequence n s) v' → v_items v' = <[id := fi']> (v_items v) → v_indexes v' = v_indexes v →
     open_message id oi fi' (v_items v') → ResponsesFsm.calls fi' = ∅ →
     map_Forall (λ _ p, ResponsesFsm.part_phase p ≠ ResponsesFsm.partPhaseAdded) (ResponsesFsm.parts fi') →
     map fst r = map fst parts → Q r (set_nextSequence n s) v') →
  wpc (close_parts id oi ci0 parts) Q s v.
Proof.
  induction parts as [|[k t] parts IH]; intros ci0 s v fi Q Hb Ho Hc [Hparts Hrest] HQ; simpl.
  - apply wpc_ret. replace s with (set_nextSequence (s_nextSequence s) s) by by destruct s.
    eapply (HQ _ _ _ fi); [by destruct s|symmetry; by apply insert_id, Ho|done|done|done| |done].
    intros ci p Hp Hph. destruct (Hrest ci p Hp Hph) as (j & Hj & _). simpl in Hj. lia.
  - destruct (Hparts 0%nat k t eq_refl) as [Hpart Hval]. rewrite Z.add_0_r in Hpart, Hval.
    apply wpc_bind, wpc_gets. rewrite Hval. apply wpc_bind.
    eapply wpc_emit; [by eapply lawful_value_done; eauto|].
    set (f1 := ResponsesFsm.set_part ci0 _ fi). set (v1 := v_put _ id f1 v). set (s1 := set_nextSequence _ s).
    assert (base s1 v1) as Hb1 by by eapply sent_base.
    assert (open_message id oi f1 (v_items v1)) as Ho1.
    { destruct Ho as (_ & Ho). split; [apply lookup_insert_eq|done]. }
    apply wpc_bind. eapply wpc_emit; [eapply lawful_part_done; [by eauto|done|apply lookup_insert_eq]|].
    set (f2 := ResponsesFsm.set_part ci0 _ f1). set (v2 := v_put _ id f2 v1). set (s2 := set_nextSequence _ s1).
    assert (base s2 v2) as Hb2 by by eapply sent_base.
    apply wpc_bind. apply (IH (ci0 + 1) s2 v2 f2); [done| |done| |].
    + destruct Ho1 as (_ & Ho1). split; [apply lookup_insert_eq|done].
    + split.
      * intros j k' t' Hj. destruct (Hparts (S j) k' t' Hj) as [Hp Hv].
        replace (ci0 + 1 + Z.of_nat j) with (ci0 + Z.of_nat (S j)) by lia. split; [|by destruct k'].
        simpl. rewrite !lookup_insert_ne by lia. done.
      * intros ci p Hp Hph. simpl in Hp. apply lookup_insert_Some in Hp as [[<- <-]|[Hne Hp]]; [done|].
        rewrite lookup_insert_ne in Hp by done. destruct (Hrest ci p Hp Hph) as (j & Hj & ->).
        destruct j as [|j]; [lia|]. exists j. simpl in Hj. split; lia.
    + intros r n v' fi' Hb' Hi' Hx' Ho' Hc' Hd' Hr'. apply wpc_ret. apply (HQ _ n v' fi'); try done.
      * rewrite Hi'. simpl. by rewrite !insert_insert_eq.
      * simpl. by rewrite Hr'.
Qed.

Lemma summarized_insert l j oi oi' :
  summarized l → l !! j = Some oi → (∀ id, oi_item oi' ≠ LiveReasoning id false None) → summarized (<[j := oi']> l).
Proof. intros Hs Hj Hn i o id Ho. apply list_lookup_insert_Some in Ho as [(_ & <- & _)|[_ Ho]]; [apply Hn|by eapply Hs]. Qed.

Lemma shrinks_refl s : shrinks s s.
Proof. by split. Qed.

Lemma shrinks_closed s s' j oi oi' :
  s_items s !! j = Some oi → s_items s' = <[j := oi']> (s_items s) → live_id (oi_item oi') = None → shrinks s s'.
Proof.
  intros Hj Hs Hn. split; [by rewrite Hs, length_insert|]. intros i o Ho Hid. rewrite Hs in Ho.
  apply list_lookup_insert_Some in Ho as [(_ & <- & _)|[_ Ho]]; [by rewrite Hn in Hid|done].
Qed.

Definition is_live_message (oi : openResponsesItem) : Prop := ∃ id c, oi_item oi = LiveMessage id false c.

Definition is_live_reasoning (oi : openResponsesItem) : Prop := ∃ id c, oi_item oi = LiveReasoning id false c.

Lemma part_at_some content ci k :
  part_at content ci = Some k → ∃ j t, ci = Z.of_nat j ∧ content !! j = Some (k, t).
Proof.
  unfold part_at. destruct (Z.leb_spec 0 ci); [|done]. intros Hp.
  apply fmap_Some in Hp as ([k' t] & Hj & ->). exists (Z.to_nat ci), t. split; [lia|done].
Qed.

Lemma part_at_nat content j k t : content !! j = Some (k, t) → part_at content (Z.of_nat j) = Some k.
Proof. intros Hj. unfold part_at. rewrite (proj2 (Z.leb_le 0 _)), Nat2Z.id, Hj by lia. done. Qed.

Lemma wpc_close_message m i s v :
  Inv m s v →
  wpc (close_message i)
    (λ _ s' v', Inv m s' v' ∧ shrinks s s' ∧ ∀ oi, s_items s' !! i = Some oi → ¬ is_live_message oi) s v.
Proof.
  intros (Hb & Hk & Hs). apply wpc_bind, wpc_gets. simpl.
  destruct (s_items s !! i) as [[oi op [id [] content|id c sm]]|] eqn:Hi;
    try solve [apply wpc_ret; split_and!;
      [done|apply shrinks_refl|intros o Ho (id' & c' & Heq); rewrite Hi in Ho; by simplify_eq]].
  pose proof (lk_live _ _ _ _ _ _ _ _ Hk _ _ Hi) as (Hempty & fi & Ho & Hc & Hp & Hv). simpl in *.
  apply wpc_bind. apply (wpc_close_parts _ _ _ _ _ _ fi); try done.
  { split.
    - intros j k t Hj. rewrite Z.add_0_l, Hp, (part_at_nat _ _ _ _ Hj), Hv. split; [done|].
      rewrite (Forall_lookup_1 _ _ _ _ Hempty Hj : t = _). done.
    - intros ci p Hci _. rewrite Hp in Hci. apply fmap_Some in Hci as (k & (j & t & -> & Hj)%part_at_some & ->).
      exists j. split; [by eapply lookup_lt_Some|lia]. }
  intros r n v1 f1 Hb1 Hi1 Hx1 Ho1 Hc1 Hd1 Hr1.
  apply wpc_bind, wpc_modify. eapply wpc_emit.
  { apply (lawful_done _ _ (OutMessage id true r) f1); simpl; try apply Ho1; try done; [apply Hb1| |]; [by destruct Ho1 as (_ & _ & -> & _)|].
    rewrite Hc1. apply map_Forall_empty. }
  set (oi' := {| oi_index := oi; oi_openPart := op; oi_item := LiveMessage id true r |}).
  assert (∀ n', s_items (set_nextSequence n' (with_item (with_live (LiveMessage id true r)) i (set_nextSequence n s))) =
    <[i := oi']> (s_items s)) as Hitems.
  { intros n'. simpl. by rewrite (alter_at _ _ _ _ Hi). }
  split_and!.
  - split; [by apply (sent_base (with_item _ i (set_nextSequence n s)) v1)|]. unfold Link. rewrite Hitems. split.
    + simpl. rewrite Hi1, Hx1, insert_insert_eq.
      eapply (linked_item Hk i); [done|done|done|done|by right|done].
    + by eapply summarized_insert.
  - eapply shrinks_closed; [done|apply Hitems|done].
  - intros o Ho' (id' & c' & Heq). rewrite Hitems, list_lookup_insert_eq in Ho' by (by eapply lookup_lt_Some). by simplify_eq.
Qed.

(** The events that end reasoning. *)
Lemma lawful_reasoning_end s v id i t it fi :
  base s v → open_reasoning_item id i ResponsesFsm.reasoningPartAdded fi (v_items v) → out_id it = id → out_kind it = "reasoning" →
  ∀ (Q : unit → chatState → view → Prop),
  (∀ n v' fi', base (set_nextSequence n s) v' → v_items v' = <[id := fi']> (v_items v) → v_indexes v' = v_indexes v →
     ResponsesFsm.item_phase fi' = ResponsesFsm.itemPhaseDone → Q tt (set_nextSequence n s) v') →
  wpc (emit (ReasoningSummaryTextDone id i t) ;;= emit (ReasoningSummaryPartDone id i t) ;;= emit (OutputItemDone i it)) Q s v.
Proof.
  intros Hb (Hi & Ho & Hkd & Hp & Hpa & Hc & Hr) Hid Hout Q HQ.
  apply wpc_bind. eapply wpc_emit; [eapply (lawful_reasoning _ _ id i); [by eauto|done|by split_and!]|].
  set (f1 := ResponsesFsm.set_reasoning _ fi). set (v1 := v_put _ id f1 v). set (s1 := set_nextSequence _ s).
  assert (base s1 v1) as Hb1 by by eapply sent_base.
  apply wpc_bind. eapply wpc_emit; [eapply (lawful_reasoning _ _ id i _ _ f1); [by eauto|done|split_and!; try done; apply lookup_insert_eq]|].
  set (f2 := ResponsesFsm.set_reasoning _ f1). set (v2 := v_put _ id f2 v1). set (s2 := set_nextSequence _ s1).
  assert (base s2 v2) as Hb2 by by eapply sent_base.
  eapply wpc_emit.
  { apply (lawful_done _ i it f2); try done; [by eauto|rewrite Hid; apply lookup_insert_eq|by rewrite Hout| |].
    - simpl. rewrite Hpa. apply map_Forall_empty.
    - simpl. rewrite Hc. apply map_Forall_empty. }
  eapply (HQ _ _ (ResponsesFsm.set_phase ResponsesFsm.itemPhaseDone f2)); [by eapply (sent_base s2 v2)| |done|done].
  simpl. by rewrite Hid, !insert_insert_eq.
Qed.

Lemma wpc_close_reasoning m i s v :
  Inv m s v →
  wpc (close_reasoning i)
    (λ _ s' v', Inv m s' v' ∧ shrinks s s' ∧ ∀ oi, s_items s' !! i = Some oi → ¬ is_live_reasoning oi) s v.
Proof.
  intros (Hb & Hk & Hs). apply wpc_bind, wpc_gets. simpl.
  destruct (s_items s !! i) as [[oi op [id c content|id [] sm]]|] eqn:Hi;
    try solve [apply wpc_ret; split_and!;
      [done|apply shrinks_refl|intros o Ho (id' & c' & Heq); rewrite Hi in Ho; by simplify_eq]].
  pose proof (lk_live _ _ _ _ _ _ _ _ Hk _ _ Hi) as (fi & Hr). simpl in *.
  apply wpc_bind, wpc_modify. destruct sm as [t|]; [|by destruct (Hs _ _ id Hi)].
  set (oi' := {| oi_index := oi; oi_openPart := op; oi_item := LiveReasoning id true (Some t) |}).
  eapply (lawful_reasoning_end (with_item _ i s)); [done|done|done|done|].
  intros n v' fi' Hb' Hi' Hx' Hd'.
  assert (s_items (set_nextSequence n (with_item (with_live (LiveReasoning id true (Some t))) i s)) = <[i := oi']> (s_items s)) as Hitems.
  { simpl. by rewrite (alter_at _ _ _ _ Hi). }
  split_and!.
  - split; [done|]. unfold Link. rewrite Hitems. split.
    + simpl. rewrite Hi', Hx'. eapply (linked_item Hk i); [done|done|done|done|by right|done].
    + by eapply summarized_insert.
  - eapply shrinks_closed; [done|apply Hitems|done].
  - intros o Ho' (id' & c' & Heq). rewrite Hitems, list_lookup_insert_eq in Ho' by (by eapply lookup_lt_Some). by simplify_eq.
Qed.

(** The validator has closed the call of [key]. *)
Lemma wpc_closure m key p s v (Q : unit → chatState → view → Prop) :
  Inv m s v → m !! key = Some p → call_started p = true →
  (∀ n v', Inv (delete key m) (set_nextSequence n s) v' → Q tt (set_nextSequence n s) v') →
  wpc (toolCallClosure p) Q s v.
Proof.
  intros (Hb & Hk & Hs) Hp Hst HQ. destruct (lk_started _ _ _ _ _ _ _ _ Hk _ _ Hp Hst) as (fi & Ho).
  apply wpc_bind, wpc_gets, wpc_bind. eapply wpc_emit; [by apply (lawful_arguments_done _ _ _ _ fi); eauto|].
  set (f1 := ResponsesFsm.set_call _ _ fi). set (v1 := v_put _ _ f1 v). set (s1 := set_nextSequence _ s).
  assert (base s1 v1) as Hb1 by by eapply sent_base. destruct Ho as (Hi & Hix & Hkd & Hph & Hpa & Hcalls).
  assert (out_id (call_item (x_ToolNames (s_exchange s)) p) = itemID p ∧ out_kind (call_item (x_ToolNames (s_exchange s)) p) = "function_call") as [Hid Hout].
  { unfold call_item. by destruct (client_name _ _). }
  eapply wpc_emit.
  { apply (lawful_done _ _ _ f1); try done; [by eauto|rewrite Hid; apply lookup_insert_eq|by rewrite Hout| |].
    - simpl. rewrite Hpa. apply map_Forall_empty.
    - simpl. intros id c Hc. apply lookup_insert_Some in Hc as [[_ <-]|[Hne Hc]]; [done|].
      destruct Hcalls as [Hcalls|Hcalls]; rewrite Hcalls in Hc; [done|]. by rewrite lookup_singleton_ne in Hc. }
  apply HQ. split_and!; [by eapply (sent_base s1 v1)| |done]. unfold Link. simpl. rewrite Hid, insert_insert_eq.
  eapply (linked_call_step Hk key p "" (itemID p) _ None); [done|by left|by left].
Qed.

(** ** The pending calls in order *)

Lemma insert_index_perm i l : insert_index i l ≡ₚ i :: l.
Proof.
  induction l as [|j l IH]; simpl; [done|]. case_match; [done|]. rewrite IH. apply Permutation_swap.
Qed.

Lemma pendingIndexes_perm calls : pendingIndexes calls ≡ₚ map fst (map_to_list calls).
Proof.
  unfold pendingIndexes. induction (map fst (map_to_list calls)) as [|i l IH]; simpl; [done|].
  by rewrite insert_index_perm, IH.
Qed.

Lemma pendingIndexes_elem calls i : i ∈ pendingIndexes calls ↔ calls !! i ≠ None.
Proof.
  rewrite pendingIndexes_perm, list_elem_of_fmap. split.
  - intros ([j p] & -> & Hp%elem_of_map_to_list). simpl. by rewrite Hp.
  - intros Hi. destruct (calls !! i) as [p|] eqn:Hp; [|done]. exists (i, p). by rewrite elem_of_map_to_list.
Qed.

Lemma pendingIndexes_nodup calls : NoDup (pendingIndexes calls).
Proof. rewrite pendingIndexes_perm. apply NoDup_fst_map_to_list. Qed.

Lemma delete_order (calls : gmap Z pendingToolCall) (index : Z) : ∀ i, delete index calls !! i ≠ None ↔ calls !! i ≠ None ∧ i ≠ index.
Proof.
  intros i. destruct (decide (i = index)) as [->|Hne].
  - rewrite lookup_delete_eq. split; [done|by intros [_ []]].
  - rewrite lookup_delete_ne by done. split; [by split|by intros []].
Qed.

(** Every started call is closed. *)
Lemma wpc_closePendingToolCalls s v (Q : unit → chatState → view → Prop) :
  Inv (s_pendingCalls s) s v →
  (∀ s' v', Inv (s_pendingCalls s') s' v' → s_items s' = s_items s → (s_pendingCalls s' ⊆ s_pendingCalls s) →
     phase_of s' = phase_of s → Q tt s' v') →
  wpc closePendingToolCalls Q s v.
Proof.
  intros HI HQ. apply wpc_bind, wpc_gets. eapply wpc_mono.
  - eapply (wpc_for_each _ (λ _ l s' v', Inv (s_pendingCalls s') s' v' ∧ s_items s' = s_items s ∧
      s_pendingCalls s' ⊆ s_pendingCalls s ∧ phase_of s' = phase_of s ∧ NoDup l ∧ ∀ i, i ∈ l → s_pendingCalls s' !! i ≠ None)).
    + intros _ index l s1 v1 (H1 & Hi1 & Hs1 & Hp1 & Hnd & Hin). apply NoDup_cons in Hnd as [Hni Hnd].
      apply wpc_bind, wpc_gets. destruct (s_pendingCalls s1 !! index) as [p|] eqn:Hp;
        [|by destruct (Hin index); [by left|]].
      apply wpc_when; intros Hst; [|split_and!; try done; intros i Hi; apply Hin; by right].
      apply wpc_bind. eapply wpc_closure; [done..|]. intros n v2 H2.
      apply wpc_bind, wpc_modify, wpc_modify. split_and!; try done.
      * simpl. etrans; [apply delete_subseteq|done].
      * intros i Hi. simpl. apply delete_order. split; [apply Hin; by right|by intros ->].
    + split_and!; try done; [apply pendingIndexes_nodup|]. intros i. apply pendingIndexes_elem.
  - intros [] s' v' (H1 & Hi1 & Hs1 & Hp1 & _). by apply HQ.
Qed.

(** ** Opening items and parts *)

Abbreviation InvS s := (Inv (s_pendingCalls s) s).

Lemma summarized_snoc l oi : summarized l → (∀ id, oi_item oi ≠ LiveReasoning id false None) → summarized (l ++ [oi])%list.
Proof.
  intros Hs Hn j o id Ho. apply lookup_app_Some in Ho as [Ho|[_ Ho]]; [by eapply Hs|].
  apply list_lookup_singleton_Some in Ho as [_ <-]. apply Hn.
Qed.

Lemma last_snoc_item (l : list openResponsesItem) oi : last_item (l ++ [oi])%list = Some oi.
Proof. apply last_snoc. Qed.

Lemma wpc_openMessageItem s v (Q : unit → chatState → view → Prop) :
  InvS s v →
  (∀ s' v' oi id, InvS s' v' → s_items s' = (s_items s ++ [{| oi_index := oi; oi_openPart := -1; oi_item := LiveMessage id false [] |}])%list →
     Q tt s' v') →
  wpc openMessageItem Q s v.
Proof.
  intros (Hb & Hk & Hs) HQ. apply wpc_bind, wpc_gets, wpc_bind, wpc_require. intros _.
  apply wpc_bind, wpc_new_id, wpc_bind, wpc_push_item. simpl.
  set (id := id_of _ _ _).
  eapply wpc_emit.
  { apply lawful_added; simpl; [by apply base_ready in Hb|by apply (fresh_id Hk)|].
    destruct (v_indexes v !! s_itemIndex s) eqn:Hx; [|done].
    assert (s_itemIndex s < s_itemIndex s); [|lia]. apply (lk_indexes _ _ _ _ _ _ _ _ Hk). by rewrite Hx. }
  eapply HQ; [|done]. split_and!; [by eapply (sent_base (set_items _ (set_itemIndex _ (set_nextID _ s))) v)| |by apply summarized_snoc].
  unfold Link. simpl. eapply (linked_push Hk); [done| |done].
  split; [done|]. eexists. split_and!; [split_and!; [apply lookup_insert_eq|done..]|done| |].
  - intros ci. simpl. unfold part_at. rewrite lookup_nil. by case_match.
  - intros k ci. simpl. destruct (bufs k s !! (s_itemIndex s, ci)) eqn:Hbuf; [|by destruct k].
    assert (s_itemIndex s < s_itemIndex s); [|lia]. apply (lk_bufs _ _ _ _ _ _ _ _ Hk k _ ci). by rewrite Hbuf.
Qed.

(** The trailing item is the open message a delta targets. *)
Definition target_ok (kind : part_kind) (target : string * Z * Z) (s : chatState) : Prop :=
  ∃ content, last_item (s_items s) =
    Some {| oi_index := target.1.2; oi_openPart := target.2; oi_item := LiveMessage target.1.1 false content |} ∧
  part_at content target.2 = Some kind.

Lemma last_item_lookup l : last_item l = l !! pred (length l).
Proof. apply last_lookup. Qed.

Lemma part_at_snoc content k ci :
  part_at (content ++ [(k, "")])%list ci = if decide (ci = Z.of_nat (length content)) then Some k else part_at content ci.
Proof.
  unfold part_at. destruct (Z.leb_spec 0 ci) as [Hci|Hci].
  - destruct (decide (ci = Z.of_nat (length content))) as [->|Hne].
    + rewrite Nat2Z.id. by rewrite (list_lookup_middle content [] (k, "") (length content)).
    + destruct (decide (Z.to_nat ci < length content)%nat) as [Hlt|Hge].
      * by rewrite lookup_app_l.
      * rewrite lookup_app_r, !lookup_ge_None_2 by (simpl; lia). done.
  - by rewrite decide_False by lia.
Qed.

Lemma part_at_length content : part_at content (Z.of_nat (length content)) = None.
Proof. unfold part_at. rewrite (proj2 (Z.leb_le 0 _)), Nat2Z.id, lookup_ge_None_2 by lia. done. Qed.

Lemma wpc_openPart kind s v oi op id content (Q : string * Z * Z → chatState → view → Prop) :
  InvS s v → last_item (s_items s) = Some {| oi_index := oi; oi_openPart := op; oi_item := LiveMessage id false content |} →
  (∀ t s' v', InvS s' v' → target_ok kind t s' → Q t s' v') →
  wpc (openMessageItemForPartWithEvents kind) Q s v.
Proof.
  intros HI Hlast HQ. pose proof HI as (Hb & Hk & Hs). apply wpc_bind, wpc_gets. rewrite Hlast.
  case_bool_decide as Hop.
  { apply wpc_ret, HQ; [done|]. exists content. split; [done|]. destruct Hop as [H0 Hop]. unfold part_at. simpl.
    by rewrite (proj2 (Z.leb_le 0 _)). }
  apply wpc_bind, wpc_require. intros _. apply wpc_bind, wpc_modify. set (ci := Z.of_nat (length content)).
  pose proof Hlast as Hj. rewrite last_item_lookup in Hj.
  pose proof (lk_live _ _ _ _ _ _ _ _ Hk _ _ Hj) as (Hempty & fi & Ho & Hc & Hp & Hv). simpl in *.
  apply wpc_bind. eapply wpc_emit; [eapply (lawful_part_added _ id oi ci kind fi); try apply Ho; [by apply base_ready in Hb|]|].
  { rewrite Hp. unfold ci. by rewrite part_at_length. }
  set (oi' := {| oi_index := oi; oi_openPart := ci; oi_item := LiveMessage id false (content ++ [(kind, "")])%list |}).
  apply wpc_ret, HQ.
  - split_and!; [by eapply (sent_base (on_last _ s))| |]; unfold Link; simpl; rewrite (alter_at _ _ _ _ Hj).
    + eapply (linked_item Hk); [done|done|done| |by left|done].
      split; [apply Forall_app; by repeat constructor|]. eexists. split_and!; [split_and!; [apply lookup_insert_eq|apply Ho..]|done| |].
      * intros c. simpl. rewrite part_at_snoc. destruct (decide (c = ci)) as [->|Hne].
        -- by rewrite lookup_insert_eq, decide_True.
        -- by rewrite lookup_insert_ne, decide_False.
      * intros k c. specialize (Hv k c). by destruct k.
    + by eapply summarized_insert.
  - exists (content ++ [(kind, "")])%list. simpl. rewrite (alter_at _ _ _ _ Hj), last_item_lookup, length_insert, list_lookup_insert_eq
      by (by eapply lookup_lt_Some). split; [done|]. by rewrite part_at_snoc, decide_True.
Qed.

Lemma wpc_openMessageItemForPart kind s v (Q : string * Z * Z → chatState → view → Prop) :
  InvS s v → (∀ t s' v', InvS s' v' → target_ok kind t s' → Q t s' v') → wpc (openMessageItemForPart kind) Q s v.
Proof.
  intros HI HQ. apply wpc_bind, wpc_gets, wpc_bind.
  apply wpc_when; intros Hlast.
  - apply wpc_bind, wpc_closePendingToolCalls; [done|]. intros s1 v1 H1 _ _ _.
    eapply wpc_openMessageItem; [done|]. intros s2 v2 oi id H2 Hi2.
    eapply wpc_openPart; [done|by rewrite Hi2, last_snoc_item|done].
  - destruct (last_item (s_items s)) as [[oi op [id [] content|id [] sm]]|] eqn:Hl; try done.
    by eapply wpc_openPart.
Qed.

Lemma bufs_set k k' m s : bufs k' (set_bufs k m s) = if decide (k' = k) then m else bufs k' s.
Proof. by destruct k, k'. Qed.

Lemma fsm_value_set k k' ci t fi :
  fsm_value k' (set_value k ci t fi) = if decide (k' = k) then <[ci := t]> (fsm_value k fi) else fsm_value k' fi.
Proof. by destruct k, k'. Qed.


Lemma wpc_append_content kind t s v (Q : unit → chatState → view → Prop) :
  InvS s v → (∀ s' v', InvS s' v' → Q tt s' v') → wpc (append_content kind t) Q s v.
Proof.
  intros HI HQ. apply wpc_bind, wpc_openMessageItemForPart; [done|].
  intros [[id oi] ci] s1 v1 (Hb & Hk & Hs) (content & Hl & Hpart). simpl in *.
  pose proof Hl as Hj. rewrite last_item_lookup in Hj.
  pose proof (lk_live _ _ _ _ _ _ _ _ Hk _ _ Hj) as (Hempty & fi & Ho & Hc & Hp & Hv). simpl in *.
  apply wpc_bind. eapply wpc_emit; [eapply (lawful_delta _ kind); [by apply base_ready in Hb|done|]|].
  { by rewrite Hp, Hpart. }
  set (v2 := v_put _ _ _ _). set (s2 := set_nextSequence _ s1).
  apply wpc_bind, wpc_gets, wpc_bind, wpc_modify, wpc_quiet; [auto with quietc|]. intros [] s3 Hcore. apply HQ.
  set (value := default "" (bufs kind s2 !! (oi, ci)) ++ t) in *.
  set (s2' := set_bufs kind _ s2) in *.
  assert (InvS s2' v2) as H2.
  { split_and!.
    - assert (base s2 v2) as Hb2 by by eapply sent_base. by destruct kind.
    - unfold Link.
      assert (linked (x_idPrefix (s_exchange s1)) (s_nextID s1) (s_items s1) (s_itemIndex s1) (s_pendingCalls s1)
        (λ k, bufs k s2') (v_items v2) (v_indexes v2)) as Hk2; [|by destruct kind].
      rewrite <- (list_insert_id _ _ _ Hj).
      eapply (linked_item Hk); [done|done|done| |by left|].
      + split; [done|]. eexists. split_and!; [split_and!; [apply lookup_insert_eq|destruct kind; apply Ho..]|by destruct kind|by destruct kind|].
        intros k c. assert (bufs kind s2 = bufs kind s1) as Hbs by by destruct kind.
        unfold s2'. rewrite bufs_set, fsm_value_set. destruct (decide (k = kind)) as [->|Hne]; [|by rewrite Hv; destruct k].
        destruct (decide (c = ci)) as [->|Hne].
        -- rewrite !lookup_insert_eq. simpl. unfold value. by rewrite Hv, Hbs.
        -- rewrite !lookup_insert_ne by congruence. by rewrite Hv, Hbs.
      + intros k i c Hne. simpl in Hne. unfold s2'. rewrite bufs_set.
        destruct (decide (k = kind)) as [->|]; [rewrite lookup_insert_ne by congruence|]; by destruct k || destruct kind.
    - by destruct kind. }
  eapply Inv_core; [done|]. by rewrite (core_pending _ _ Hcore).
Qed.

(** ** Transitions between blocks *)

Lemma keepsc_close_parts {B} (g : chatState → B) id oi parts ci :
  (∀ s n, g (set_nextSequence n s) = g s) → keepsc g (close_parts id oi ci parts).
Proof. intros Hg. revert ci. induction parts as [|[k t] parts IH]; intros ci; simpl; keeps; apply keepsc_emit, Hg. Qed.
#[export] Hint Resolve keepsc_close_parts : keeps.

Lemma keepsc_pending_close_message i : keepsc s_pendingCalls (close_message i).
Proof. unfold close_message. keeps. Qed.
Lemma keepsc_pending_close_reasoning i : keepsc s_pendingCalls (close_reasoning i).
Proof. unfold close_reasoning. keeps. Qed.
#[export] Hint Resolve keepsc_pending_close_message keepsc_pending_close_reasoning : keeps.

Lemma wpc_closeOpenMessageItem s v (Q : unit → chatState → view → Prop) :
  InvS s v → (∀ s' v', InvS s' v' → s_pendingCalls s' = s_pendingCalls s → Q tt s' v') → wpc closeOpenMessageItem Q s v.
Proof.
  intros HI HQ. apply wpc_bind, wpc_gets, (wpc_keeps s_pendingCalls); [auto with keeps|].
  eapply wpc_mono; [by apply wpc_close_message|]. intros [] s' v' (H1 & _) Hm. apply HQ; [by rewrite Hm|done].
Qed.

Lemma wpc_closeOpenReasoningItem s v (Q : unit → chatState → view → Prop) :
  InvS s v → (∀ s' v', InvS s' v' → Q tt s' v') → wpc closeOpenReasoningItem Q s v.
Proof.
  intros HI HQ. apply wpc_bind, wpc_gets, (wpc_keeps s_pendingCalls); [auto with keeps|].
  eapply wpc_mono; [by apply wpc_close_reasoning|]. intros [] s' v' (H1 & _) Hm. apply HQ. by rewrite Hm.
Qed.

(** The trailing item is open reasoning, which may not have a summary yet. *)
Definition reasoning_open (s : chatState) (v : view) : Prop :=
  base s v ∧ Link (s_pendingCalls s) s v ∧
  (∃ oi op id sm, last_item (s_items s) = Some {| oi_index := oi; oi_openPart := op; oi_item := LiveReasoning id false sm |}) ∧
  ∀ j oi id, j ≠ pred (length (s_items s)) → s_items s !! j = Some oi → oi_item oi ≠ LiveReasoning id false None.

Lemma wpc_append_reasoning t s v (Q : unit → chatState → view → Prop) :
  reasoning_open s v → (∀ s' v', InvS s' v' → Q tt s' v') → wpc (append_reasoning t) Q s v.
Proof.
  intros (Hb & Hk & (oi & op & id & sm & Hl) & Hs) HQ. apply wpc_bind, wpc_gets. rewrite Hl.
  pose proof Hl as Hj. rewrite last_item_lookup in Hj.
  pose proof (lk_live _ _ _ _ _ _ _ _ Hk _ _ Hj) as (fi & Hr). simpl in *.
  apply wpc_bind. eapply wpc_emit; [by eapply lawful_reasoning_delta; eauto|].
  set (v1 := v_seq _ v). set (s1 := set_nextSequence _ s).
  assert (base s1 v1) as Hb1 by by eapply sent_base.
  apply wpc_bind, wpc_modify, wpc_quiet; [auto with quietc|]. intros [] s2 Hcore. apply HQ.
  eapply Inv_core; [done|]. rewrite (core_pending _ _ Hcore). split_and!; [done| |]; unfold Link; simpl; rewrite (alter_at _ _ _ _ Hj).
  - rewrite <- (insert_id (v_items v) id fi) by apply Hr. eapply (linked_item Hk); [done|done|done| |by left|done].
    exists fi. split; [apply lookup_insert_eq|apply Hr].
  - intros j o id' Ho. apply list_lookup_insert_Some in Ho as [(_ & <- & _)|[Hne Ho]]; [done|by eapply Hs].
Qed.

Lemma wpc_open_reasoning s v (Q : unit → chatState → view → Prop) :
  InvS s v → (∀ s' v', reasoning_open s' v' → Q tt s' v') → wpc open_reasoning Q s v.
Proof.
  intros HI HQ. apply wpc_bind, wpc_gets, wpc_when; intros Hlast.
  2: { apply HQ. destruct HI as (Hb & Hk & Hs). split_and!; [done..| |intros j o id _; by apply Hs].
       destruct (last_item (s_items s)) as [[oi op [id [] content|id [] sm]]|]; eauto 10; done. }
  apply wpc_bind, wpc_closeOpenMessageItem; [done|]. intros s1 v1 H1 _.
  apply wpc_bind, wpc_closePendingToolCalls; [done|]. intros s2 v2 H2 _ _ _.
  apply wpc_bind, wpc_charge. intros b3. apply wpc_bind, wpc_charge. intros b4.
  set (s3 := set_budget b4 _). assert (InvS s3 v2) as (Hb & Hk & Hs) by done. clearbody s3.
  apply wpc_bind, wpc_new_id, wpc_bind, wpc_push_item. simpl. set (id := id_of _ _ _).
  apply wpc_bind. eapply wpc_emit.
  { apply lawful_added; simpl; [by apply base_ready in Hb|by apply (fresh_id Hk)|].
    destruct (v_indexes v2 !! s_itemIndex s3) eqn:Hx; [|done].
    assert (s_itemIndex s3 < s_itemIndex s3); [|lia]. apply (lk_indexes _ _ _ _ _ _ _ _ Hk). by rewrite Hx. }
  simpl. set (s4 := set_nextSequence _ _). set (f4 := fresh_item _ _). set (v4 := v_new _ _ _ f4 v2).
  assert (base s4 v4) as Hb4 by by eapply (sent_base (set_items _ (set_itemIndex _ (set_nextID _ s3))) v2).
  eapply wpc_emit; [eapply (lawful_reasoning _ _ id (s_itemIndex s3) _ _ f4); [by eauto|done|split_and!; try done; apply lookup_insert_eq]|].
  apply HQ. split_and!; [by eapply sent_base| | |].
  - unfold Link. simpl. rewrite insert_insert_eq. eapply (linked_push Hk); [done| |done].
    eexists. split; [apply lookup_insert_eq|done].
  - simpl. rewrite last_snoc_item. eauto 10.
  - intros j o id' Hj Ho. simpl in *. rewrite length_app in Hj. simpl in Hj.
    apply lookup_app_Some in Ho as [Ho|[Hge Ho]]; [by eapply Hs|]. apply list_lookup_singleton_Some in Ho as [? _]. lia.
Qed.

(** ** Tool calls *)

Lemma wpc_get_call key p s v (Q : pendingToolCall → chatState → view → Prop) :
  s_pendingCalls s !! key = Some p → Q p s v → wpc (get_call key) Q s v.
Proof. intros Hp HQ. apply wpc_bind, wpc_gets. rewrite Hp. by apply wpc_ret. Qed.

Lemma alter_some {A} (f : A → A) (key : Z) (m : gmap Z A) p : m !! key = Some p → alter f key m = <[key := f p]> m.
Proof.
  intros Hp. apply map_eq. intros k. destruct (decide (k = key)) as [->|Hne].
  - by rewrite lookup_alter_eq, Hp, lookup_insert_eq.
  - by rewrite lookup_alter_ne, lookup_insert_ne.
Qed.

(** The invariant, with the call of [key] pending. *)
Definition InvC (key : Z) (s : chatState) (v : view) : Prop := InvS s v ∧ ∃ p, s_pendingCalls s !! key = Some p.

Lemma InvC_core key s s' v : core_of s' = core_of s → InvC key s v → InvC key s' v.
Proof.
  intros Hc (HI & p & Hp). pose proof (core_pending _ _ Hc) as Hm. split; [|exists p; by rewrite Hm].
  rewrite Hm. by eapply Inv_core.
Qed.

Lemma wpc_update_call key f s v (Q : unit → chatState → view → Prop) :
  InvC key s v → (∀ p, itemID (f p) = itemID p ∧ outputIndex (f p) = outputIndex p ∧ call_started (f p) = call_started p) →
  (∀ s', InvC key s' v → Q tt s' v) → wpc (update_call key f) Q s v.
Proof.
  intros ((Hb & Hk & Hs) & p & Hp) Hf HQ. apply wpc_modify, HQ. destruct (Hf p) as (H1 & H2 & H3). split.
  - split_and!; [done| |done]. unfold Link. simpl. rewrite (alter_some _ _ _ _ Hp). by eapply (linked_call_update Hk).
  - exists (f p). simpl. by rewrite lookup_alter_eq, Hp.
Qed.

Lemma wpc_absorb_identity key fragment get set s v (Q : unit → chatState → view → Prop) :
  InvC key s v →
  (∀ t p, itemID (set t p) = itemID p ∧ outputIndex (set t p) = outputIndex p ∧ call_started (set t p) = call_started p) →
  (∀ s', InvC key s' v → Q tt s' v) → wpc (absorb_identity key fragment get set) Q s v.
Proof.
  intros HI Hset HQ. destruct (proj2 HI) as [p Hp]. apply wpc_bind. eapply wpc_get_call; [done|].
  apply wpc_when; intros _; [|by apply HQ]. apply wpc_bind, wpc_quiet; [auto with quietc|]. intros [] s1 Hc.
  eapply wpc_update_call; [by eapply InvC_core|apply Hset|done].
Qed.

Lemma wpc_announce_call key s v (Q : unit → chatState → view → Prop) :
  InvC key s v → (∀ s' v', InvC key s' v' → Q tt s' v') → wpc (announce_call key) Q s v.
Proof.
  intros (HI & p & Hp) HQ. apply wpc_bind. eapply wpc_get_call; [done|].
  apply wpc_when; intros Hst; [|by apply HQ; split; [|exists p]].
  assert (call_started p = false) as Hun by by destruct (call_started p).
  apply wpc_bind, wpc_closeOpenMessageItem; [done|]. intros s1 v1 (Hb & Hk & Hs) Hm.
  assert (s_pendingCalls s1 !! key = Some p) as Hp1 by by rewrite Hm. clear HI.
  apply wpc_bind, wpc_new_id, wpc_bind, wpc_modify, wpc_bind, wpc_gets. simpl. set (id := id_of _ _ _).
  destruct (client_name _ _) as [name namespace].
  eapply wpc_emit.
  { apply lawful_added; simpl; [by apply base_ready in Hb|by apply (fresh_id Hk)|by eapply lk_waiting]. }
  apply HQ. split.
  - split_and!; [by eapply (sent_base (set_pendingCalls _ (set_nextID _ s1)))| |done].
    unfold Link. simpl. rewrite (alter_some _ _ _ _ Hp1).
    eapply (linked_call_step Hk key p "fc_" id _ (Some (start_call id p))); [done| |by right].
    right. exists (start_call id p). split_and!; try done. split_and!; [apply lookup_insert_eq|done..|by left].
  - exists (start_call id p). simpl. by rewrite lookup_alter_eq, Hp1.
Qed.

Lemma wpc_flush_arguments key s v (Q : unit → chatState → view → Prop) :
  InvC key s v → (∀ s' v', InvS s' v' → Q tt s' v') → wpc (flush_arguments key) Q s v.
Proof.
  intros (HI & p & Hp) HQ. apply wpc_bind. eapply wpc_get_call; [done|].
  apply wpc_when; intros Hst; [|by apply HQ]. apply andb_true_iff in Hst as [Hst _].
  destruct HI as (Hb & Hk & Hs). destruct (lk_started _ _ _ _ _ _ _ _ Hk _ _ Hp Hst) as (fi & Ho).
  apply wpc_bind. eapply wpc_emit; [by eapply lawful_arguments_delta; eauto|].
  apply wpc_modify, HQ. split_and!; [by eapply (sent_base s v)| |done].
  unfold Link. simpl. rewrite (alter_some _ _ _ _ Hp).
  eapply (linked_call_step Hk key p "" (itemID p) _ (Some (reset_pending p))); [done| |by left].
  right. exists (reset_pending p). destruct Ho as (_ & Hix & Hkd & Hph & Hpa & Hc). split_and!; try done.
  split_and!; [apply lookup_insert_eq|done..|]. right. simpl.
  destruct Hc as [->| ->]; [by rewrite insert_empty|by rewrite insert_singleton_eq].
Qed.

(** ** Resolving a fragment's call *)

Lemma find_call_some id calls key : find_call id calls = Some key → ∃ p, calls !! key = Some p ∧ callID p = id.
Proof.
  unfold find_call. destruct (head _) as [[k p]|] eqn:Hh; [|done]. intros [= <-]. exists p.
  assert ((k, p) ∈ filter (λ e : Z * pendingToolCall, callID e.2 = id) (map_to_list calls)) as Hin.
  { destruct (filter _ _); [done|]. injection Hh as ->. by left. }
  apply list_elem_of_filter in Hin as [Hid Hin%elem_of_map_to_list]. done.
Qed.

Lemma wpc_resolve_call call s v (Q : option Z → chatState → view → Prop) :
  (∀ r, (∀ key, r = Some key → ∃ p, s_pendingCalls s !! key = Some p) →
        (r = None → ∀ i, tc_Index call = Some i → s_pendingCalls s !! i = None) → Q r s v) →
  wpc (resolve_call call) Q s v.
Proof.
  intros HQ. apply wpc_bind, wpc_gets.
  destruct (if nonEmpty (tc_ID call) then _ else None) as [key|] eqn:Hf.
  { apply wpc_ret, HQ; [|done]. intros k [= <-]. destruct (nonEmpty (tc_ID call)); [|done].
    apply find_call_some in Hf as (p & Hp & _). eauto. }
  destruct (tc_Index call) as [i|] eqn:Hi.
  - destruct (s_pendingCalls s !! i) as [p|] eqn:Hp.
    + apply wpc_bind, wpc_require. intros _. apply wpc_ret, HQ; [|done]. intros k [= <-]. eauto.
    + apply wpc_ret, HQ; [done|]. by intros _ ? [= <-].
  - destruct (tc_ID call); [by apply wpc_ret, HQ|].
    destruct (map_to_list (s_pendingCalls s)) as [|[k p] [|]] eqn:Hl; [by apply wpc_ret, HQ| |by apply wpc_fail].
    apply wpc_ret, HQ; [|done]. intros k' [= <-]. exists p. apply elem_of_map_to_list. rewrite Hl. by left.
Qed.

(** The synthetic key is free. *)
Lemma free_index_free fuel : ∀ index (calls : gmap Z pendingToolCall) (taken : gset Z),
  taken ⊆ dom calls → (∀ i, i ∈ taken → index < i) → (size calls <= fuel + size taken)%nat →
  calls !! free_index fuel index calls = None.
Proof.
  induction fuel as [|fuel IH]; intros index calls taken Hsub Hlt Hsize; simpl.
  - destruct (calls !! index) eqn:Hi; [|done].
    assert ({[index]} ∪ taken ⊆ dom calls) as Hsub'.
    { apply union_subseteq. split; [|done]. apply singleton_subseteq_l, elem_of_dom. by rewrite Hi. }
    apply subseteq_size in Hsub'. rewrite size_union, size_singleton, size_dom in Hsub'; [lia|].
    apply disjoint_singleton_l. intros Hin. specialize (Hlt _ Hin). lia.
  - case_bool_decide as Hi; [done|]. apply (IH _ _ ({[index]} ∪ taken)).
    + apply union_subseteq. split; [|done]. apply singleton_subseteq_l, elem_of_dom. by destruct (calls !! index).
    + intros i [->%elem_of_singleton|Hin]%elem_of_union; [lia|]. specialize (Hlt _ Hin). lia.
    + rewrite size_union, size_singleton; [lia|]. apply disjoint_singleton_l. intros Hin. specialize (Hlt _ Hin). lia.
Qed.

Lemma wpc_new_call call s v (Q : Z → chatState → view → Prop) :
  InvS s v → (∀ i, tc_Index call = Some i → s_pendingCalls s !! i = None) →
  (∀ key s', InvC key s' v → Q key s' v) → wpc (new_call call) Q s v.
Proof.
  intros (Hb & Hk & Hs) Hi HQ. apply wpc_bind, wpc_gets, wpc_bind, wpc_require. intros _. cbv zeta.
  set (key := match tc_Index call with Some i => i | None => _ end).
  assert (s_pendingCalls s !! key = None) as Hkey.
  { unfold key. destruct (tc_Index call) as [i|]; [by apply Hi|]. apply (free_index_free _ _ _ ∅); [set_solver..|].
    rewrite size_empty. lia. }
  apply wpc_bind, wpc_gets, wpc_bind, wpc_modify, wpc_bind, wpc_modify, wpc_ret, HQ. split.
  - split_and!; [done| |done]. by apply (linked_new_call Hk).
  - exists (unnamed_call (s_itemIndex s)). apply lookup_insert_eq.
Qed.

Lemma wpc_convertToolCall call s v (Q : unit → chatState → view → Prop) :
  InvS s v → (∀ s' v', InvS s' v' → Q tt s' v') → wpc (convertToolCall call) Q s v.
Proof.
  intros HI HQ. apply wpc_bind, wpc_gets, wpc_bind, wpc_quiet; [quietc|]. intros [] s1 Hc1.
  assert (InvS s1 v) as H1 by (rewrite (core_pending _ _ Hc1); by eapply Inv_core).
  apply wpc_bind, wpc_gets, wpc_bind, wpc_require. intros _. apply wpc_bind, wpc_resolve_call. intros r Hsome Hnone.
  apply wpc_bind. apply (wpc_mono _ (λ key s v, InvC key s v)).
  { destruct r as [key|]; [|apply wpc_new_call; auto]. destruct (Hsome _ eq_refl) as (p & Hp).
    assert (InvC key s1 v) as HC by (split; [done|by exists p]). destruct (tc_Index call); [|by apply wpc_ret].
    apply wpc_bind, wpc_gets, wpc_bind, wpc_require. intros _. by apply wpc_ret. }
  intros key s2 v2 H2. destruct (proj2 H2) as [p Hp]. apply wpc_bind. eapply wpc_get_call; [done|].
  apply wpc_bind, wpc_require. intros _.
  apply wpc_bind, wpc_absorb_identity; [done|done|]. intros s3 H3.
  apply wpc_bind, wpc_absorb_identity; [done|done|]. intros s4 H4.
  apply wpc_bind. apply (wpc_mono _ (λ _ s v, InvC key s v)).
  { apply wpc_when; intros _; [|done]. apply wpc_bind, wpc_update_call; [done|done|]. intros s5 H5.
    destruct (proj2 H5) as [p5 Hp5]. apply wpc_bind. eapply wpc_get_call; [done|].
    apply wpc_quiet; [auto with quietc|]. intros [] s6 Hc6. by eapply InvC_core. }
  intros [] s5 v5 H5. apply wpc_bind, wpc_announce_call; [done|]. intros s6 v6 H6. by apply (wpc_flush_arguments key).
Qed.

(** ** Deltas *)

Lemma wpc_convert_reasoning t path s v (Q : unit → chatState → view → Prop) :
  InvS s v → (∀ s' v', InvS s' v' → Q tt s' v') → wpc (convert_reasoning t path) Q s v.
Proof.
  assert (∀ A (m : M A) s v (Q : A → chatState → view → Prop), quietc m → InvS s v → (∀ a s' v', InvS s' v' → Q a s' v') → wpc m Q s v) as Hquiet.
  { intros A m s0 v0 Q0 Hm HI HQ. apply wpc_quiet; [done|]. intros a s1 Hc. apply HQ.
    rewrite (core_pending _ _ Hc). by eapply Inv_core. }
  intros HI HQ. apply wpc_bind, wpc_gets. destruct (x_ProviderReasoningThinking _).
  - apply wpc_bind, wpc_gets, wpc_bind, Hquiet; [quietc|done|]. intros [] s1 v1 H1.
    apply wpc_bind, wpc_open_reasoning; [done|]. intros s2 v2 H2. by apply wpc_append_reasoning.
  - destruct (negb _).
    + apply Hquiet; [apply quietc_once; [done|quietc]|done|]. by intros [].
    + apply wpc_bind, wpc_append_content; [done|]. intros s1 v1 H1.
      apply Hquiet; [apply quietc_once; [done|quietc]|done|]. by intros [].
Qed.

Lemma wpc_convertDelta d s v : InvS s v → wpc (convertDelta d) (λ _ s' v', InvS s' v') s v.
Proof.
  intros HI. apply wpc_bind, (wpc_mono _ (λ _ s v, InvS s v)).
  { apply wpc_when; intros _; [by apply wpc_closeOpenReasoningItem|done]. }
  intros [] s1 v1 H1. apply wpc_bind, (wpc_mono _ (λ _ s v, InvS s v)).
  { apply wpc_when; intros _; [by apply wpc_append_content|done]. }
  intros [] s2 v2 H2. apply wpc_bind, (wpc_mono _ (λ _ s v, InvS s v)).
  { apply wpc_when; intros _; [by apply wpc_append_content|done]. }
  intros [] s3 v3 H3. apply wpc_bind, (wpc_mono _ (λ _ s v, InvS s v)).
  { destruct (resolveChatReasoningSpelling _ _) as [[t path]|]; [|by apply wpc_fail].
    apply wpc_when; intros _; [by apply wpc_convert_reasoning|done]. }
  intros [] s4 v4 H4. apply (wpc_for_each _ (λ _ _ s v, InvS s v)); [|done].
  intros _ call _ s5 v5 H5. by apply wpc_convertToolCall.
Qed.

(** ** The finish *)

Definition all_closed (s : chatState) : Prop := ∀ j oi, s_items s !! j = Some oi → live_id (oi_item oi) = None.

Definition settled (s : chatState) (v : view) : Prop :=
  base s v ∧ map_Forall (λ _ it, ResponsesFsm.item_phase it = ResponsesFsm.itemPhaseDone) (v_items v) ∧ all_closed s.

Lemma wpc_close_calls s v :
  InvS s v →
  wpc (for_each (λ _ p, require (call_started p) "chat tool call fragment ended without an id and name" ;;= toolCallClosure p) 0
        (pendingSlice (s_pendingCalls s)))
    (λ _ s' v', Inv ∅ s' v' ∧ s_items s' = s_items s) s v.
Proof.
  intros HI. eapply wpc_mono.
  - eapply (wpc_for_each _ (λ _ l s' v', ∃ m ix, Inv m s' v' ∧ s_items s' = s_items s ∧ l = omap (λ i, m !! i) ix ∧
      NoDup ix ∧ ∀ i, i ∈ ix ↔ m !! i ≠ None)).
    + intros _ p l s1 v1 (m & ix & H1 & Hit & Hl & Hnd & Hix).
      destruct ix as [|i ix]; [done|]. apply NoDup_cons in Hnd as [Hni Hnd].
      destruct (m !! i) as [p'|] eqn:Hp; [|by destruct (proj1 (Hix i)); [left|]].
      simpl in Hl. rewrite Hp in Hl. injection Hl as <- ->.
      apply wpc_bind, wpc_require. intros Hst. eapply wpc_closure; [done..|]. intros n v2 H2.
      exists (delete i m), ix. split_and!; try done.
      * apply list_omap_ext. clear -Hni. induction ix as [|j ix IH]; [done|]. apply not_elem_of_cons in Hni as [Hne Hni].
        constructor; [by rewrite lookup_delete_ne|by apply IH].
      * intros j. destruct (decide (j = i)) as [->|Hne].
        -- rewrite lookup_delete_eq. split; [done|by intros []].
        -- rewrite lookup_delete_ne by done. rewrite <- Hix, elem_of_cons. clear -Hne. tauto.
    + exists (s_pendingCalls s), (pendingIndexes (s_pendingCalls s)). split_and!; try done; [apply pendingIndexes_nodup|].
      apply pendingIndexes_elem.
  - intros [] s' v' (m & ix & H1 & Hit & Hl & _ & Hix). assert (m = ∅) as ->; [|done].
    apply map_empty. intros i. destruct (m !! i) as [p|] eqn:Hp; [|done].
    assert (i ∈ ix) as Hin by (apply Hix; by rewrite Hp).
    assert (p ∈ omap (λ i, m !! i) ix) as Hin'; [by apply list_elem_of_omap; eauto|]. rewrite <- Hl in Hin'. by apply elem_of_nil in Hin'.
Qed.

(** Closing at every index closes everything of the kind. *)
Lemma wpc_close_all (f : nat → M unit) (open : openResponsesItem → Prop) (others : openResponsesItem → Prop) (items : list openResponsesItem) s v :
  (∀ oi, open oi → live_id (oi_item oi) ≠ None) → (∀ oi, others oi → live_id (oi_item oi) ≠ None) →
  (∀ i s v, Inv ∅ s v →
     wpc (f i) (λ _ s' v', Inv ∅ s' v' ∧ shrinks s s' ∧ ∀ oi, s_items s' !! i = Some oi → ¬ open oi) s v) →
  Inv ∅ s v → length (s_items s) = length items → (∀ j oi, s_items s !! j = Some oi → ¬ others oi) →
  wpc (for_each (λ i _, f i) 0 items)
    (λ _ s' v', Inv ∅ s' v' ∧ length (s_items s') = length items ∧
       ∀ j oi, s_items s' !! j = Some oi → ¬ open oi ∧ ¬ others oi) s v.
Proof.
  intros Hopen Hothers Hf HI Hlen Hno. eapply wpc_mono.
  - eapply (wpc_for_each _ (λ i l s' v', Inv ∅ s' v' ∧ length (s_items s') = (i + length l)%nat ∧
      (∀ j oi, s_items s' !! j = Some oi → ¬ others oi) ∧ ∀ j oi, (j < i)%nat → s_items s' !! j = Some oi → ¬ open oi)).
    + intros i o l s1 v1 (H1 & Hl1 & Ho1 & Hc1). eapply wpc_mono; [by apply Hf|]. intros [] s2 v2 (H2 & [Hl2 Hs2] & Hc2).
      split_and!; [done|rewrite Hl2, Hl1; simpl; lia| |].
      * intros j oi Hj Ho. eapply Ho1; [apply Hs2; [done|by apply Hothers]|done].
      * intros j oi Hj Hjo Ho. destruct (decide (j = i)) as [->|Hne]; [by eapply Hc2|].
        eapply (Hc1 j); [lia|apply Hs2; [done|by apply Hopen]|done].
    + split_and!; try done. intros j oi Hj. lia.
  - intros [] s' v' (H1 & Hl1 & Ho1 & Hc1). split_and!; [done|simpl in Hl1; lia|].
    intros j oi Hj. split; [|by eapply Ho1]. apply (Hc1 j); [apply lookup_lt_Some in Hj; simpl in Hl1; lia|done].
Qed.

Lemma wpc_finish reason s v : InvS s v → wpc (finish reason) (λ _ s' v', settled s' v') s v.
Proof.
  intros HI. apply wpc_bind, wpc_gets, wpc_bind. eapply wpc_mono; [by apply wpc_close_calls|]. intros [] s1 v1 [H1 _].
  apply wpc_bind, wpc_gets, wpc_bind. eapply wpc_mono.
  { apply (wpc_close_all close_message is_live_message (λ _, False)); [by intros oi (id & c & ->)|done| |done|done|tauto].
    intros i s2 v2 H2. by apply wpc_close_message. }
  intros [] s2 v2 (H2 & Hl2 & Hn2). apply wpc_bind. eapply wpc_mono.
  { apply (wpc_close_all close_reasoning is_live_reasoning is_live_message);
      [by intros oi (id & c & ->)|by intros oi (id & c & ->)| |done|done|apply Hn2].
    intros i s3 v3 H3. by apply wpc_close_reasoning. }
  intros [] s3 v3 ((Hb & Hk & Hs) & _ & Hn3). case_bool_decide; [|by apply wpc_fail]. apply wpc_modify.
  assert (all_closed s3) as Hc.
  { intros j oi Hj. destruct (Hn3 _ _ Hj) as [Hr Hm]. destruct (oi_item oi) as [id' [] c|id' [] c] eqn:Hoi; try done.
    - destruct Hm. by exists id', c.
    - destruct Hr. by exists id', c. }
  split_and!; [done| |done].
  intros id fi Hfi. destruct (lk_tracked _ _ _ _ _ _ _ _ Hk _ _ Hfi) as [?|[(j & oi & Hj & Hid)|(key & p & Hp & _)]]; [done| |done].
  by rewrite (Hc _ _ Hj) in Hid.
Qed.

(** ** Chunks and frames *)

(** What a phase of the stream knows. *)
Definition flags (s : chatState) (started sawFinish : bool) : Prop :=
  s_started s = started ∧ s_sawFinish s = sawFinish ∧ s_terminalReleased s = false.

Definition Unstarted (s : chatState) (v : view) : Prop :=
  flags s false false ∧ v_started v = false ∧ v_terminal v = false ∧ v_lastSeq v < s_nextSequence s ∧
  Link (s_pendingCalls s) s v ∧ summarized (s_items s).

Definition Running (s : chatState) (v : view) : Prop := flags s true false ∧ InvS s v.

Definition Finished (s : chatState) (v : view) : Prop :=
  flags s true true ∧ ∃ v', lawful (s_heldTerminal s) v v' ∧ settled s v'.

Definition Status (s : chatState) (v : view) : Prop := Unstarted s v ∨ Running s v ∨ Finished s v.

Lemma flags_core s s' a b : core_of s' = core_of s → flags s a b → flags s' a b.
Proof. intros [= _ _ Hst Hsf _ _ _ _ _ _ _ _ Htr _ _] (H1 & H2 & H3). unfold flags. by rewrite Hst, Hsf, Htr. Qed.

Lemma Running_core s s' v : core_of s' = core_of s → Running s v → Running s' v.
Proof.
  intros Hc [Hf HI]. split; [by eapply flags_core|]. rewrite (core_pending _ _ Hc). by eapply Inv_core.
Qed.

Lemma Finished_core s s' v : core_of s' = core_of s → Finished s v → Finished s' v.
Proof.
  intros Hc [Hf (v' & Hl & Hb & Hd)]. split; [by eapply flags_core|]. exists v'.
  injection Hc as Hx Hca _ _ _ Hit _ _ _ _ _ Hht _ Hsq _. unfold settled, base, all_closed in *. by rewrite Hx, Hca, Hht, Hsq, Hit.
Qed.

Lemma Unstarted_core s s' v : core_of s' = core_of s → Unstarted s v → Unstarted s' v.
Proof.
  intros Hc (Hf & Hs & Ht & Hl & Hk & Hsm). pose proof (flags_core _ _ _ _ Hc Hf) as Hf'.
  injection Hc as Hx Hca _ _ _ Hit Hii Hpc _ Htb Hrb _ _ Hsq Hni.
  unfold Unstarted, Link, bufs in *. by rewrite Hx, Hit, Hii, Hpc, Htb, Hrb, Hsq, Hni.
Qed.

Lemma wpc_capture m (R : chatState → view → Prop) (Q : list event → chatState → view → Prop) s v :
  wpc m (λ _, R) s v → (∀ evs s' v', lawful evs v v' → R s' v' → Q evs s' v) → wpc (capture m) Q s v.
Proof.
  unfold wp, capture. destruct (m s) as [[[u|e] evs] s1].
  - intros (_ & v' & Hl & HR) HQ. split; [done|]. exists v. split; [apply lawful_nil|]. intros ? [= <-].
    eapply HQ; [done|]. by apply (HR u).
  - intros (Hp & _) _. split; [by intros ? [= <-]; apply Hp|]. exists v. split; [apply lawful_nil|done].
Qed.

Lemma keepsc_capture {B} (g : chatState → B) m : keepsc g m → keepsc g (capture m).
Proof. intros Hm s. specialize (Hm s). unfold capture. destruct (m s) as [[[u|e] evs] s1]; (split; [intros ? _ []|apply Hm]). Qed.

(** Deltas and the closing of items leave the phase. *)
Lemma keepsc_phase_convertToolCall call : keepsc phase_of (convertToolCall call).
Proof.
  unfold convertToolCall, note, resolve_call, wireError, new_call, get_call, absorb_identity, update_call, checkAccumulated,
    chargeIdentity, announce_call, closeOpenMessageItem, on_trailing, close_message, flush_arguments, get_call, update_call.
  keeps.
Qed.
Lemma keepsc_phase_closures : keepsc phase_of closePendingToolCalls.
Proof. unfold closePendingToolCalls, toolCallClosure. keeps. Qed.
Lemma keepsc_phase_close_message i : keepsc phase_of (close_message i).
Proof. unfold close_message. keeps. Qed.
Lemma keepsc_phase_close_reasoning i : keepsc phase_of (close_reasoning i).
Proof. unfold close_reasoning. keeps. Qed.
#[export] Hint Resolve keepsc_phase_convertToolCall keepsc_phase_closures keepsc_phase_close_message
  keepsc_phase_close_reasoning : keeps.

Lemma keepsc_phase_append_content k t : keepsc phase_of (append_content k t).
Proof.
  unfold append_content, openMessageItemForPart, openMessageItem, push_item, openMessageItemForPartWithEvents, checkAccumulated,
    chargeIdentity.
  keeps. apply keeps_modify. by destruct k.
Qed.
#[export] Hint Resolve keepsc_phase_append_content : keeps.

Lemma keepsc_phase_convert_reasoning t path : keepsc phase_of (convert_reasoning t path).
Proof.
  unfold convert_reasoning, note, lose, once, note, open_reasoning, push_item, append_reasoning, chargeIdentity,
    closeOpenMessageItem, on_trailing. keeps.
Qed.
#[export] Hint Resolve keepsc_phase_convert_reasoning : keeps.

Lemma keepsc_phase_convertDelta d : keepsc phase_of (convertDelta d).
Proof. unfold convertDelta, closeOpenReasoningItem, on_trailing, wireError. keeps. Qed.

Lemma keepsc_phase_finish reason : keepsc phase_of (finish reason).
Proof. unfold finish, toolCallClosure. keeps. Qed.

Lemma flags_phase s s' a b : phase_of s' = phase_of s → flags s a b → flags s' a b.
Proof. intros [= _ _ Hst Hsf _ Htr] (H1 & H2 & H3). unfold flags. by rewrite Hst, Hsf, Htr. Qed.

Lemma wpc_convert_choice choice s v : Running s v → wpc (convert_choice choice) (λ _ s' v', Running s' v' ∨ Finished s' v') s v.
Proof.
  intros HR. apply wpc_bind, wpc_require. intros _. apply wpc_bind, wpc_quiet; [quietc|]. intros [] s1 Hc.
  pose proof (Running_core _ _ _ Hc HR) as H1. apply wpc_bind, (wpc_mono _ (λ _, Running)).
  { destruct (ch_Delta choice) as [d|]; [|by apply wpc_ret]. apply (wpc_keeps phase_of); [apply keepsc_phase_convertDelta|].
    destruct H1 as [Hf HI]. eapply wpc_mono; [by apply wpc_convertDelta|]. intros [] s2 v2 H2 Hp.
    split; [by eapply flags_phase|done]. }
  intros [] s2 v2 [Hf2 H2]. destruct (ch_FinishReason choice) as [reason|]; [|apply wpc_ret; left; by split].
  apply wpc_bind, (wpc_keeps phase_of); [apply keepsc_capture, keepsc_phase_finish|].
  eapply wpc_capture; [by apply wpc_finish|]. intros evs s3 v3 Hl Hset Hp.
  apply wpc_bind, wpc_modify, wpc_modify. right. destruct (flags_phase _ _ _ _ Hp Hf2) as (Hst & _ & Htr).
  split; [done|]. by exists v3.
Qed.

Lemma wpc_pin_identity chunk s v :
  Unstarted s v ∨ Running s v → wpc (pin_identity chunk) (λ _, Running) s v.
Proof.
  intros [((Hst & Hsf & Htr) & Hs & Ht & Hl & Hk & Hsm)|HR]; apply wpc_bind, wpc_gets.
  - rewrite Hst. apply wpc_bind, (wpc_mono _ (λ _ s v, Unstarted s v)).
    { apply wpc_when; intros _; [apply wpc_modify|]; by split_and!. }
    intros [] s1 v1 ((Hst1 & Hsf1 & Htr1) & Hs1 & Ht1 & Hl1 & Hk1 & Hsm1).
    apply wpc_bind, wpc_modify, wpc_bind, wpc_modify, wpc_bind, wpc_gets, wpc_bind.
    eapply wpc_emit; [by apply lawful_created|]. apply wpc_bind.
    set (v2 := v_begin _ _ _). set (s2 := set_nextSequence _ _).
    assert (base s2 v2) as Hb2 by (split; [split_and!; simpl; [done..|lia]|done]).
    eapply wpc_emit; [by apply lawful_in_progress; eauto|]. apply wpc_modify.
    split; [by split_and!|]. split_and!; [by eapply (sent_base s2 v2)|done|done].
  - pose proof HR as [(-> & _) _]. apply wpc_bind, wpc_gets, wpc_bind, wpc_require. intros _.
    apply wpc_bind, wpc_gets, wpc_require. by intros _.
Qed.

Lemma Status_alt s v : Status s v → (Unstarted s v ∨ Running s v) ∨ Finished s v.
Proof. intros [?|[?|?]]; tauto. Qed.

Lemma Open_core s s' v :
  core_of s' = core_of s → Unstarted s v ∨ Running s v → s_sawFinish s' = false ∧ (Unstarted s' v ∨ Running s' v).
Proof.
  intros Hc [H|H].
  - pose proof (Unstarted_core _ _ _ Hc H) as H1. pose proof H1 as ((_ & Hsf & _) & _). split; [done|by left].
  - pose proof (Running_core _ _ _ Hc H) as H1. pose proof H1 as ((_ & Hsf & _) & _). split; [done|by right].
Qed.

Lemma wpc_Convert chunk s v : Status s v → wpc (Convert chunk) (λ _, Status) s v.
Proof.
  intros HS. apply wpc_deliver, wpc_bind, wpc_charge. intros b. set (s1 := set_budget b s).
  assert (core_of s1 = core_of s) as Hc by done. clearbody s1. apply wpc_bind, wpc_gets.
  apply Status_alt in HS as [HO|HF].
  - apply (Open_core _ _ _ Hc) in HO as [Hsf HO]. rewrite Hsf.
    apply wpc_bind. eapply wpc_mono; [by apply wpc_pin_identity|]. intros [] s2 v2 H2.
    apply wpc_bind, wpc_quiet; [quietc|]. intros [] s3 Hc3. pose proof (Running_core _ _ _ Hc3 H2) as H3.
    apply wpc_bind, wpc_quiet; [quietc|]. intros [] s4 Hc4. pose proof (Running_core _ _ _ Hc4 H3) as H4.
    apply wpc_bind, wpc_require. intros Hlen.
    apply Z.leb_le in Hlen.
    destruct (c_Choices chunk) as [|choice [|]]; [by apply wpc_ret; right; left| |rewrite !length_cons in Hlen; lia].
    apply wpc_bind. eapply wpc_mono; [by apply wpc_convert_choice|]. intros [] s5 v5 H5. apply wpc_ret. by right.
  - pose proof (Finished_core _ _ _ Hc HF) as H1. pose proof H1 as [(_ & Hsf & _) _]. rewrite Hsf.
    apply wpc_bind, wpc_gets. case_match; [|by apply wpc_fail].
    apply wpc_quiet; [quietc|]. intros [] s2 Hc2. right; right. by eapply Finished_core.
Qed.

(** *** The release *)

Lemma wpc_emit_held evs v' (Q : unit → chatState → view → Prop) s v : lawful evs v v' → Q tt s v' → wpc (emit_held evs) Q s v.
Proof. intros Hl HQ. split; [done|]. exists v'. split; [done|]. by intros ? [= <-]. Qed.

Lemma wpc_terminalEnvelope s v : settled s v → wpc terminalEnvelope (λ _ _ _, True) s v.
Proof.
  intros (Hb & Hd & _). apply wpc_bind, wpc_gets. cbv zeta. destruct (incomplete_reason (s_finishReason s)).
  - eapply wpc_emit; [|done]. eapply lawful_terminal; [by eauto|by right|apply Hb|done].
  - eapply wpc_emit; [|done]. eapply lawful_terminal; [by eauto|by left|apply Hb|done].
Qed.

Lemma wpc_releaseTerminal s v : Finished s v → wpc releaseTerminal (λ _ _ _, True) s v.
Proof.
  intros [(_ & _ & Htr) (v' & Hl & Hset)]. apply wpc_bind, wpc_gets. rewrite Htr.
  apply wpc_bind, wpc_modify, wpc_bind, wpc_gets, wpc_bind, wpc_modify, wpc_bind.
  apply (wpc_emit_held _ v'); [done|]. apply wpc_bind. eapply wpc_mono; [by apply wpc_terminalEnvelope|].
  intros [] s1 v1 _. by apply wpc_ret.
Qed.

Lemma wpc_convert_frame fr s v :
  Status s v → wpc (convert_frame fr) (λ _ s' v', match fr with Chunk _ => Status s' v' | _ => True end) s v.
Proof.
  intros HS. assert (s_sawFinish s = true → Finished s v) as HF.
  { destruct HS as [((_ & -> & _) & _)|[[(_ & -> & _) _]|?]]; done. }
  destruct fr as [chunk| |]; simpl; [by apply wpc_Convert|..].
  - apply wpc_bind, wpc_gets, wpc_bind, wpc_require. intros Hsf.
    apply wpc_bind. eapply wpc_mono; [by apply wpc_releaseTerminal, HF|]. intros ok s1 v1 _. by apply wpc_require.
  - apply wpc_bind, wpc_gets, wpc_bind, wpc_gets. destruct (s_sawFinish s) eqn:Hsf; [|by apply wpc_fail].
    destruct (negb (s_terminalReleased s)); [|by apply wpc_ret].
    apply wpc_bind, wpc_quiet; [quietc|]. intros [] s1 Hc1.
    apply wpc_bind. eapply wpc_mono; [eapply wpc_releaseTerminal, Finished_core; [done|by apply HF]|]. intros ok s2 v2 _. by apply wpc_ret.
Qed.

Lemma wpc_stream frames s v : Status s v → wpc (stream frames) (λ _ _ _, True) s v.
Proof.
  revert s v. induction frames as [|fr frames IH]; intros s v HS; simpl; [by apply wpc_ret|].
  apply wpc_bind. eapply wpc_mono; [by apply wpc_convert_frame|]. intros [] s1 v1 H1.
  destruct fr; [by apply IH|by apply wpc_ret..].
Qed.

Lemma Status_initial x t : Status (newChatResponsesStreamState x t) (view_of ResponsesFsm.newResponsesStreamFSM).
Proof.
  left. split_and!; try done. constructor; simpl; try (intros; rewrite ?lookup_empty, ?lookup_nil in *; done).
  intros [] i ci Hi; simpl in Hi; by rewrite lookup_empty in Hi.
Qed.

(** ** Properties *)

(** C4: whatever chunks a Chat upstream sends, the events the converter generates for a
    Responses client pass the validator of the Responses protocol event by event (the
    composed converter to Messages depends on it): no violation but the exchange budget,
    and the converter does not panic. *)
Theorem generated_stream_lawful x t frames :
  let '(r, evs, s) := stream frames (newChatResponsesStreamState x t) in
  r ≠ Err Panic ∧
  match verdict evs ResponsesFsm.newResponsesStreamFSM with
  | Ok _ => True
  | Err e => e = ResponsesFsm.OverBudget
  end.
Proof.
  pose proof (wpc_stream frames _ _ (Status_initial x t)) as Hw. unfold wp in Hw.
  destruct (stream frames _) as [[r evs] s]. destruct Hw as (Hp & v' & Hl & _). split; [intros ->; by apply (Hp Panic)|].
  specialize (Hl _ eq_refl). by destruct (verdict evs _).
Qed.
