(* ===== verification/ChatStreamText.v ===== *)
(** * What a generated Responses stream carries

    The text of a Chat stream reaches the generated events without loss, duplication or
    reordering ([ChatStream]), and the terminal's output is the items its events closed. *)

From Stdlib Require Import ZArith QArith Qcanon Lia Bool List Ascii String Sorted.
From stdpp Require Import strings pretty gmap list.
From S2P Require Import Prelude GoStd GoStr Budget Losses Ir Usage Emitter ChatStream ChatStreamLaws.

Open Scope string_scope.
Open Scope Z_scope.

(** ** Specification *)

Definition joined (l : list string) : string := foldr String.append "" l.

(** The text, or refusal, the events stream. *)
Definition delta_of (k : part_kind) (ev : event) : string :=
  match ev_body ev, k with
  | TextDelta _ _ _ d, KText => d
  | RefusalDelta _ _ _ d, KRefusal => d
  | _, _ => ""
  end.

Definition streamed (k : part_kind) (evs : list event) : string := joined (map (delta_of k) evs).

(** The text, or refusal, of a delta; provider reasoning is text under that capability. *)
Definition reasoning_text (x : exchange) (d : ChatStreamDelta) : string :=
  if negb (x_ProviderReasoningThinking x) && x_ProviderReasoningText x then
    match resolveChatReasoningSpelling (d_Reasoning d) (d_ReasoningContent d) with Some (t, _) => t | None => "" end
  else "".

Definition delta_text (x : exchange) (k : part_kind) (d : ChatStreamDelta) : string :=
  match k with
  | KText => derefStr (d_Content d) ++ reasoning_text x d
  | KRefusal => derefStr (d_Refusal d)
  end.

Definition choice_text (x : exchange) (k : part_kind) (c : ChatStreamChoice) : string :=
  match ch_Delta c with Some d => delta_text x k d | None => "" end.

Definition chunk_text (x : exchange) (k : part_kind) (c : ChatStreamResponse) : string :=
  joined (map (choice_text x k) (c_Choices c)).

(** The chunks the reader hands on. *)
Fixpoint chunks_text (x : exchange) (k : part_kind) (frames : list frame) : string :=
  match frames with
  | Chunk c :: frames => chunk_text x k c ++ chunks_text x k frames
  | _ => ""
  end.

(** ** Strings *)

Lemma append_nil_r (s : string) : s ++ "" = s.
Proof. induction s as [|c s IH]; [done|]. change (String c (s ++ "") = String c s). by rewrite IH. Qed.

Lemma append_assoc3 (a b c : string) : a ++ (b ++ c) = (a ++ b) ++ c.
Proof. induction a as [|x a IH]; [done|]. change (String x (a ++ (b ++ c)) = String x ((a ++ b) ++ c)). by rewrite IH. Qed.

Lemma joined_app l1 l2 : joined (l1 ++ l2)%list = joined l1 ++ joined l2.
Proof. induction l1 as [|x l1 IH]; simpl; [done|]. by rewrite IH, append_assoc3. Qed.

Lemma streamed_app k l1 l2 : streamed k (l1 ++ l2)%list = streamed k l1 ++ streamed k l2.
Proof. unfold streamed. by rewrite map_app, joined_app. Qed.

(** ** Computations and what they stream *)

(** What is held back streams nothing. *)
Definition held_silent (k : part_kind) (s : chatState) : Prop := streamed k (s_heldTerminal s) = "".

(** When [m] succeeds it has streamed [t], which depends on the exchange. *)
Definition streams {A} (k : part_kind) (m : M A) (t : exchange → string) : Prop :=
  ∀ s a evs s', m s = (Ok a, evs, s') → held_silent k s →
  streamed k evs = t (s_exchange s) ∧ s_exchange s' = s_exchange s ∧ held_silent k s'.

Definition silent {A} (k : part_kind) (m : M A) : Prop := streams k m (λ _, "").

Section streams_rules.
Context {A : Type} (k : part_kind).

Lemma streams_bind {B} (m : M B) (f : B → M A) t t' :
  streams k m t → (∀ b, streams k (f b) t') → streams k (mbind m f) (λ x, t x ++ t' x).
Proof.
  intros Hm Hf s a evs s'. unfold mbind. destruct (m s) as [[[b|e] evs1] s1] eqn:Em; [|done].
  destruct (f b s1) as [[r evs2] s2] eqn:Ef. intros [= -> <- <-] Hh.
  destruct (Hm _ _ _ _ Em Hh) as (H1 & Hx1 & Hh1), (Hf _ _ _ _ _ Ef Hh1) as (H2 & Hx2 & Hh2).
  by rewrite streamed_app, H1, H2, Hx1, Hx2.
Qed.
Lemma streams_eq (m : M A) t t' : streams k m t → (∀ x, t x = t' x) → streams k m t'.
Proof. intros Hm Ht s a evs s' H. rewrite <- Ht. by apply (Hm _ a). Qed.
Lemma silent_bind {B} (m : M B) (f : B → M A) : silent k m → (∀ b, silent k (f b)) → silent k (mbind m f).
Proof. intros Hm Hf. by apply (streams_bind m f _ _ Hm Hf). Qed.
Lemma silent_ret (a : A) : silent k (mret a).
Proof. by intros s a' evs s' [= -> <- <-]. Qed.
Lemma streams_fail e t : streams k (mfail (A := A) e) t.
Proof. by intros s a evs s'. Qed.
Lemma silent_gets (g : chatState → A) : silent k (gets g).
Proof. by intros s a evs s' [= <- <- <-]. Qed.
Lemma silent_modify g :
  (∀ s, s_exchange (g s) = s_exchange s ∧ (held_silent k s → held_silent k (g s))) → silent k (modify g).
Proof. intros Hg s a evs s' [= _ <- <-] Hh. destruct (Hg s) as [-> H]. auto. Qed.
Lemma silent_require b msg : silent k (require b msg).
Proof. destruct b; [by intros s a evs s' [= _ <- <-]|by intros s a evs s']. Qed.
Lemma silent_when b m : silent k m → silent k (mwhen b m).
Proof. destruct b; [done|]. by intros _ s a evs s' [= _ <- <-]. Qed.
Lemma streams_emit b : streams k (emit b) (λ _, delta_of k {| SequenceNumber := 0; ev_body := b |}).
Proof. intros s a evs s' [= _ <- <-]. unfold streamed. simpl. by rewrite append_nil_r. Qed.
Lemma silent_quiet (m : M A) : quietc m → silent k m.
Proof.
  intros Hm s a evs s' H. specialize (Hm s). rewrite H in Hm. destruct Hm as (_ & -> & [=]). unfold held_silent.
  by repeat match goal with H : _ s' = _ |- _ => rewrite H end.
Qed.
Lemma silent_new_id kind : silent k (new_id kind).
Proof. by intros s a evs s' [= _ <- <-]. Qed.
Lemma silent_for_each {B} (f : nat → B → M unit) i l : (∀ i b, silent k (f i b)) → silent k (for_each f i l).
Proof.
  intros Hf. revert i. induction l as [|b l IH]; intros i; simpl; [by intros s a evs s' [= _ <- <-]|].
  intros s a evs s'. unfold mbind. destruct (f i b s) as [[[u|e] evs1] s1] eqn:Em; [|done].
  destruct (for_each f (S i) l s1) as [[r evs2] s2] eqn:Ef. intros [= -> <- <-] Hh.
  destruct (Hf _ _ _ _ _ _ Em Hh) as (H1 & Hx1 & Hh1), (IH _ _ _ _ _ Ef Hh1) as (H2 & Hx2 & Hh2).
  by rewrite streamed_app, H1, H2, Hx2.
Qed.
Lemma streams_deliver (m : M unit) t : streams k m t → streams k (deliver m) t.
Proof.
  intros Hm s a evs s'. unfold deliver. destruct (m s) as [[[u|e] evs1] s1] eqn:Em; [|done]. intros [= _ <- <-].
  by apply (Hm _ u).
Qed.
(** The captured events are silent. *)
Lemma silent_capture (m : M unit) (f : list event → M A) :
  silent k m → (∀ evs, streamed k evs = "" → silent k (f evs)) → silent k (mbind (capture m) f).
Proof.
  intros Hm Hf s a evs s'. unfold mbind, capture. destruct (m s) as [[[u|e] evs1] s1] eqn:Em; [|done].
  destruct (f evs1 s1) as [[r evs2] s2] eqn:Ef. intros [= -> <- <-] Hh.
  destruct (Hm _ _ _ _ Em Hh) as (H1 & Hx1 & Hh1), (Hf _ H1 _ _ _ _ Ef Hh1) as (H2 & Hx2 & Hh2).
  by rewrite Hx2.
Qed.
End streams_rules.

Lemma silent_emit k b : delta_of k {| SequenceNumber := 0; ev_body := b |} = "" → silent k (emit b).
Proof. intros Hb. apply (streams_eq k _ _ _ (streams_emit k b)). done. Qed.

Create HintDb silent.

Ltac silent_step :=
  first
    [ apply silent_bind | apply silent_ret | apply streams_fail | apply silent_gets | apply silent_require | apply silent_when
    | apply silent_for_each | apply silent_new_id | solve [apply silent_modify; done]
    | solve [apply silent_emit; match goal with k : part_kind |- _ => by destruct k end]
    | solve [eauto with silent] | case_match | solve [apply silent_quiet; quietc] ].
Ltac silent := repeat (intros; silent_step).

(** ** Everything but content is silent *)

Lemma silent_close_parts k id oi ci parts : silent k (close_parts id oi ci parts).
Proof.
  revert ci. induction parts as [|[k' t] parts IH]; intros ci; simpl; silent.
  all: apply silent_emit; by destruct k, k'.
Qed.
#[export] Hint Resolve silent_close_parts : silent.

Lemma silent_close_message k i : silent k (close_message i).
Proof. unfold close_message. silent. Qed.
Lemma silent_close_reasoning k i : silent k (close_reasoning i).
Proof. unfold close_reasoning. silent. Qed.
Lemma silent_closure k p : silent k (toolCallClosure p).
Proof. unfold toolCallClosure. silent. Qed.
#[export] Hint Resolve silent_close_message silent_close_reasoning silent_closure : silent.

Lemma silent_closures k : silent k closePendingToolCalls.
Proof. unfold closePendingToolCalls. silent. Qed.
#[export] Hint Resolve silent_closures : silent.

Lemma silent_open_part k kind : silent k (openMessageItemForPart kind).
Proof. unfold openMessageItemForPart, openMessageItem, push_item, openMessageItemForPartWithEvents. silent. Qed.
#[export] Hint Resolve silent_open_part : silent.

Lemma silent_convertToolCall k call : silent k (convertToolCall call).
Proof.
  unfold convertToolCall, note, resolve_call, wireError, new_call, get_call, absorb_identity, update_call, announce_call,
    closeOpenMessageItem, on_trailing, flush_arguments, get_call, update_call. silent.
Qed.
#[export] Hint Resolve silent_convertToolCall : silent.

(** ** Content *)

Lemma streams_append_content k kind t : streams k (append_content kind t) (λ _, if decide (k = kind) then t else "").
Proof.
  apply (streams_eq k _ (λ _, "" ++ ((if decide (k = kind) then t else "") ++ ""))); [|intros _; apply append_nil_r].
  apply streams_bind; [apply silent_open_part|]. intros [[id oi] part]. apply streams_bind; [|intros []; silent].
  - apply (streams_eq _ _ _ _ (streams_emit _ _)). intros _. by destruct k, kind.
  - apply silent_modify. by destruct kind.
Qed.

Lemma streams_when k b m t : streams k m t → streams k (mwhen b m) (λ x, if b then t x else "").
Proof. intros Hm. destruct b; [done|]. apply silent_ret. Qed.

Lemma nonEmpty_text o : (if nonEmpty o then derefStr o else "") = derefStr o.
Proof. destruct o as [t|]; [|done]. simpl. by destruct (String.eqb_spec t "") as [->|]. Qed.

Lemma silent_once k flag set m :
  (∀ b s, s_exchange (set b s) = s_exchange s ∧ (held_silent k s → held_silent k (set b s))) →
  silent k m → silent k (once flag set m).
Proof. intros Hset Hm. unfold once. silent. Qed.

Lemma streams_exchange {A} k (f : exchange → M A) t :
  (∀ x, streams k (f x) (λ _, t x)) → streams k (x <== gets s_exchange ;; f x) t.
Proof.
  intros Hf s a evs s'. unfold mbind. simpl. destruct (f (s_exchange s) s) as [[r evs1] s1] eqn:Ef.
  intros [= -> <- <-]. apply (Hf _ _ _ _ _ Ef).
Qed.

(** The text reasoning streams under the exchange's capabilities. *)
Lemma streams_convert_reasoning k t path :
  streams k (convert_reasoning t path)
    (λ x, if negb (x_ProviderReasoningThinking x) && x_ProviderReasoningText x then if decide (k = KText) then t else "" else "").
Proof.
  unfold convert_reasoning. apply streams_exchange. intros x.
  destruct (x_ProviderReasoningThinking x); [|destruct (x_ProviderReasoningText x)]; simpl.
  - unfold note, open_reasoning, append_reasoning, closeOpenMessageItem, on_trailing, push_item. silent.
  - apply (streams_eq k _ (λ _, (if decide (k = KText) then t else "") ++ "")); [|intros _; apply append_nil_r].
    apply streams_bind; [apply streams_append_content|]. intros []. apply silent_once; [done|]. unfold note. silent.
  - apply silent_once; [done|]. unfold lose. silent.
Qed.

Lemma streams_convertDelta k d : streams k (convertDelta d) (λ x, delta_text x k d).
Proof.
  eapply streams_eq.
  { apply streams_bind; [unfold closeOpenReasoningItem, on_trailing; silent|]. intros [].
    apply streams_bind; [apply streams_when, streams_append_content|]. intros [].
    apply streams_bind; [apply streams_when, streams_append_content|]. intros [].
    apply (streams_bind k _ _ (λ x, match k with KText => reasoning_text x d | KRefusal => "" end)); [|intros []; silent].
    unfold reasoning_text. destruct (resolveChatReasoningSpelling _ _) as [[t path]|]; [|apply streams_fail].
    eapply streams_eq; [apply streams_when, streams_convert_reasoning|]. intros x. simpl.
    destruct (negb (x_ProviderReasoningThinking x) && x_ProviderReasoningText x), (String.eqb_spec t "") as [->|];
      by destruct k. }
  intros x. simpl. rewrite append_nil_r. destruct k; simpl.
  - rewrite nonEmpty_text. by destruct (nonEmpty (d_Refusal d)).
  - rewrite append_nil_r, nonEmpty_text. by destruct (nonEmpty (d_Content d)).
Qed.

(** ** Chunks *)

Lemma silent_finish k reason : silent k (finish reason).
Proof. unfold finish. silent. Qed.

Lemma streams_convert_choice k c : streams k (convert_choice c) (λ x, choice_text x k c).
Proof.
  eapply streams_eq.
  { apply streams_bind; [silent|]. intros []. apply streams_bind; [apply silent_when, silent_quiet, quietc_logprobs|]. intros [].
    apply (streams_bind k _ _ (λ x, choice_text x k c)).
    - unfold choice_text. destruct (ch_Delta c); [apply streams_convertDelta|silent].
    - intros []. instantiate (1 := λ _, ""). destruct (ch_FinishReason c); [|silent].
      apply silent_capture; [apply silent_finish|]. intros evs Hevs. silent. }
  intros x. simpl. apply append_nil_r.
Qed.

(** A chunk accepted after the finish carries nothing. *)
Lemma repeated_terminal_text x k chunk reason :
  isRepeatedTerminalChunk chunk reason = true → chunk_text x k chunk = "".
Proof.
  unfold isRepeatedTerminalChunk, chunk_text. destruct (c_Choices chunk) as [|c [|]]; try done.
  intros [_ Hd]%andb_true_iff. simpl. rewrite append_nil_r. unfold choice_text. destruct (ch_Delta c) as [d|]; [|done].
  apply negb_true_iff in Hd. rewrite !orb_false_iff in Hd. destruct Hd as [[[[[Hc Hf] Hr] Hrc] _] _].
  unfold delta_text, reasoning_text, resolveChatReasoningSpelling.
  rewrite <- (nonEmpty_text (d_Content d)), <- (nonEmpty_text (d_Refusal d)), Hc, Hf, Hr, Hrc. by destruct k, (negb (x_ProviderReasoningThinking x) && x_ProviderReasoningText x).
Qed.

Lemma streams_choices k l i : streams k (for_each (λ _, convert_choice) i l) (λ x, joined (map (choice_text x k) l)).
Proof.
  revert i. induction l as [|c l IH]; intros i; simpl; [apply silent_ret|].
  apply (streams_bind k _ _ _ _ (streams_convert_choice k c)). intros []. apply IH.
Qed.

Lemma streams_Convert k chunk : streams k (Convert chunk) (λ x, chunk_text x k chunk).
Proof.
  apply streams_deliver. eapply streams_eq.
  { apply streams_bind; [apply silent_quiet, quietc_charge|]. intros []. apply streams_bind; [silent|].
    intros sawFinish. instantiate (1 := λ x, chunk_text x k chunk). destruct sawFinish.
    - eapply streams_eq; [apply streams_bind; [silent|]|]; [|intros x; instantiate (1 := λ x, chunk_text x k chunk); done].
      intros reason. destruct (_ || _) eqn:Hr; [|apply streams_fail].
      apply (streams_eq k _ (λ _, "")); [apply silent_quiet, quietc_phase2|]. intros x. symmetry.
      apply orb_true_iff in Hr as [[_ Hr%bool_decide_eq_true]%andb_true_iff|Hr]; [|by eapply repeated_terminal_text].
      unfold chunk_text. by rewrite Hr.
    - eapply streams_eq.
      { apply streams_bind; [unfold pin_identity; silent|]. intros []. apply streams_bind; [silent|]. intros [].
        apply streams_bind; [apply silent_when, silent_quiet, quietc_tier|]. intros [].
        apply streams_bind; [silent|]. intros []. apply streams_choices. }
      done. }
  done.
Qed.

(** ** The release *)

(** The envelope of a released terminal. *)
Definition final_envelope (s : chatState) : envelope :=
  {| e_ID := x_responseID (s_exchange s); e_Model := x_model (s_exchange s); e_CreatedAt := s_createdAt s;
     e_Status := match incomplete_reason (s_finishReason s) with Some _ => "incomplete" | None => "completed" end;
     e_Output := finalOutputItems s; e_Usage := s_usage s; e_IncompleteReason := incomplete_reason (s_finishReason s) |}.

Definition final_event (s : chatState) : event :=
  {| SequenceNumber := s_nextSequence s;
     ev_body := match incomplete_reason (s_finishReason s) with
                | Some _ => Incomplete (final_envelope s)
                | None => Completed (final_envelope s)
                end |}.

Lemma releaseTerminal_eq s :
  releaseTerminal s =
  if s_terminalReleased s then (Ok false, [], s)
  else (Ok true, (s_heldTerminal s ++ [final_event s])%list,
        set_nextSequence (s_nextSequence s + 1) (set_heldTerminal [] (set_terminalReleased true s))).
Proof. unfold releaseTerminal, mbind, gets. simpl. by destruct (s_terminalReleased s). Qed.

Lemma streamed_release k s : held_silent k s → streamed k (s_heldTerminal s ++ [final_event s])%list = "".
Proof.
  intros Hh. rewrite streamed_app, Hh. unfold streamed, final_event, delta_of. simpl. by destruct (incomplete_reason _), k.
Qed.

(** The frames that end the stream stream nothing. *)
Lemma silent_end k fr : match fr with Chunk _ => True | _ => silent k (convert_frame fr) end.
Proof.
  destruct fr as [chunk| |]; [done|..]; intros s a evs s'; simpl; unfold convert_done, FinalizeEOF, mbind, gets; simpl.
  - unfold require. destruct (s_sawFinish s); [|done]. simpl. rewrite releaseTerminal_eq.
    destruct (s_terminalReleased s); [done|]. simpl. intros [= _ <- <-] Hh. rewrite app_nil_r.
    split; [by apply streamed_release|done].
  - destruct (s_sawFinish s); [|done]. destruct (s_terminalReleased s) eqn:Htr; simpl; [by intros [= _ <- <-]|].
    set (r := record _ _). rewrite releaseTerminal_eq. simpl. rewrite Htr. simpl.
    intros [= _ <- <-] Hh. rewrite app_nil_r. split; [by apply (streamed_release k (set_report r s))|done].
Qed.

Lemma streams_stream k frames : streams k (stream frames) (λ x, chunks_text x k frames).
Proof.
  induction frames as [|fr frames IH]; simpl; [apply silent_ret|].
  pose proof (silent_end k fr) as He. destruct fr as [chunk| |].
  - apply streams_bind; [apply streams_Convert|]. by intros [].
  - apply silent_bind; [done|]. intros []. apply silent_ret.
  - apply silent_bind; [done|]. intros []. apply silent_ret.
Qed.

(** ** Properties *)

(** when a stream is converted without an error, the text of its events, in their
    order, is exactly the content of its chunks (with the provider's reasoning where the
    exchange maps it to text), and likewise the refusals: nothing is lost, repeated,
    invented or reordered. *)
Theorem content_is_streamed x t frames evs s k :
  stream frames (newChatResponsesStreamState x t) = (Ok tt, evs, s) → streamed k evs = chunks_text x k frames.
Proof. intros H. by destruct (streams_stream k frames _ _ _ _ H eq_refl) as [Hs _]. Qed.

Lemma content_is_streamed_witness :
  let '(r, evs, s) := stream sample_frames (newChatResponsesStreamState (sample_exchange true false) 0%Qc) in
  r = Ok tt ∧ streamed KText evs = "Hello!".
Proof.
  destruct (stream sample_frames (newChatResponsesStreamState (sample_exchange true false) 0%Qc)) as [[r evs] s] eqn:H.
  assert (r = Ok tt) as -> by (vm_compute in H; congruence).
  split; [reflexivity|]. rewrite (content_is_streamed _ _ _ _ _ KText H). reflexivity.
Defined.
