(* ===== verification/ChatStreamTerminal.v ===== *)
(** * The terminal of a generated Responses stream

    A released terminal is the stream's last event and its only one, and its output is
    the items the events before it closed, by output index ([ChatStream]). *)

From Stdlib Require Import ZArith QArith Qcanon Lia Bool List Ascii String Sorted.
From stdpp Require Import strings pretty gmap list.
From S2P Require Import Prelude GoStd GoStr Budget Losses Ir Usage Emitter ChatStream ChatStreamLaws ChatStreamText.

Open Scope string_scope.
Open Scope Z_scope.

(** ** Specification *)

(** The item an event closes, with its output index. *)
Definition closes (ev : event) : option (Z * out_item) :=
  match ev_body ev with OutputItemDone i it => Some (i, it) | _ => None end.

Definition closed_by (evs : list event) : list (Z * out_item) := omap closes evs.

Definition is_terminal (ev : event) : bool :=
  match ev_body ev with Completed _ | Incomplete _ => true | _ => false end.

Definition unterminated (evs : list event) : Prop := Forall (λ ev, is_terminal ev = false) evs.

(** The frames end the stream. *)
Definition ends (frames : list frame) : bool := existsb (λ fr, match fr with Chunk _ => false | _ => true end) frames.

(** ** Traces *)

(** The result, state and trace after a computation, if it succeeds. *)
Abbreviation twp := (wp traced (λ _ : stream_error, False)).
Abbreviation twp_ret := (wp_ret traced (λ _ : stream_error, False)).
Abbreviation twp_bind := (wp_bind traced (λ _ : stream_error, False)).
Abbreviation twp_mono := (wp_mono traced (λ _ : stream_error, False)).
Abbreviation twp_gets := (wp_gets traced (λ _ : stream_error, False)).
Abbreviation twp_modify := (wp_modify traced (λ _ : stream_error, False)).
Abbreviation twp_when := (wp_when traced (λ _ : stream_error, False)).
Abbreviation twp_for_each := (wp_for_each traced (λ _ : stream_error, False)).
Abbreviation twp_deliver := (wp_deliver traced (λ _ : stream_error, False)).
Abbreviation twp_keeps g := (wp_keeps g (λ _ : stream_error, False) traced (λ _ : stream_error, False)).

Lemma twp_iff {A} (m : M A) (Q : A → chatState → list event → Prop) s tr :
  twp m Q s tr ↔ ∀ a evs s', m s = (Ok a, evs, s') → Q a s' (tr ++ evs)%list.
Proof.
  unfold wp, traced. destruct (m s) as [[r evs] s']. split.
  - intros (_ & ? & -> & HQ) a evs' s'' [= -> <- <-]. by apply HQ.
  - intros HQ. split; [intros ? _ []|]. eexists. split; [done|]. intros a ->. by apply HQ.
Qed.

Lemma twp_fail {A} e (Q : A → chatState → list event → Prop) s tr : twp (mfail e) Q s tr.
Proof. apply wp_fail; [apply _|intros []]. Qed.

Lemma twp_require b msg (Q : unit → chatState → list event → Prop) s tr : (b = true → Q tt s tr) → twp (require b msg) Q s tr.
Proof. intros HQ. destruct b; [by apply twp_ret, HQ|apply twp_fail]. Qed.

Lemma twp_emit b (Q : unit → chatState → list event → Prop) s tr :
  Q tt (set_nextSequence (s_nextSequence s + 1) s) (tr ++ [{| SequenceNumber := s_nextSequence s; ev_body := b |}])%list →
  twp (emit b) Q s tr.
Proof. intros HQ. apply twp_iff. by intros [] evs s' [= <- <-]. Qed.

Lemma twp_quiet {A} (m : M A) (Q : A → chatState → list event → Prop) s tr :
  quietc m → (∀ a s', core_of s' = core_of s → Q a s' tr) → twp m Q s tr.
Proof.
  intros Hm HQ. apply twp_iff. intros a evs s' H. specialize (Hm s). rewrite H in Hm. destruct Hm as (_ & -> & Hc).
  rewrite app_nil_r. by apply HQ.
Qed.

(** What [wpc] knows, after the same run. *)
Lemma twp_wp {A} (m : M A) (Q : A → chatState → view → Prop) (R : A → chatState → list event → Prop) s v tr :
  wpc m Q s v → twp m (λ a s' tr', (∃ v', Q a s' v') → R a s' tr') s tr → twp m R s tr.
Proof.
  rewrite !twp_iff. intros Hw Hm a evs s' H. apply (Hm _ _ _ H). destruct (wp_ok _ _ _ _ _ _ _ _ _ Hw H) as (v' & _ & HQ). eauto.
Qed.

(** ** The closed items *)

Definition closed_items (l : list openResponsesItem) : list (Z * out_item) :=
  omap (λ oi, match live_id (oi_item oi) with Some _ => None | None => Some (oi_index oi, live_out (oi_item oi)) end) l.

Definition call_pair (t : option ToolNames) (p : pendingToolCall) : Z * out_item := (outputIndex p, call_item t p).

(** The events have closed the state's closed items and calls, and [extra]. *)
Definition Traced (extra : list pendingToolCall) (s : chatState) (tr : list event) : Prop :=
  closed_by tr ≡ₚ (closed_items (s_items s) ++ map (call_pair (x_ToolNames (s_exchange s))) (s_closedCalls s ++ extra))%list ∧
  unterminated tr ∧ Forall (λ p, call_started p = true) (s_closedCalls s ++ extra).

Lemma closed_by_snoc tr ev : closed_by (tr ++ [ev]) = (closed_by tr ++ match closes ev with Some c => [c] | None => [] end)%list.
Proof. unfold closed_by. rewrite omap_app. simpl. by destruct (closes ev). Qed.

(** An event that neither closes an item nor ends the stream. *)
Definition plain (b : event_body) : bool :=
  match b with OutputItemDone _ _ | Completed _ | Incomplete _ => false | _ => true end.

Lemma Traced_plain extra s tr n b : plain b = true → Traced extra s tr → Traced extra s (tr ++ [{| SequenceNumber := n; ev_body := b |}]).
Proof.
  intros Hb (Hc & Hu & Hst). split_and!; [| |done].
  - rewrite closed_by_snoc. destruct b; try done; simpl; by rewrite app_nil_r.
  - apply Forall_app. split; [done|]. constructor; [by destruct b|constructor].
Qed.

Lemma Traced_done extra s s' tr n i it :
  Traced extra s tr →
  ((i, it) :: closed_items (s_items s) ++ map (call_pair (x_ToolNames (s_exchange s))) (s_closedCalls s ++ extra))%list ≡ₚ
    (closed_items (s_items s') ++ map (call_pair (x_ToolNames (s_exchange s'))) (s_closedCalls s' ++ extra))%list →
  s_closedCalls s' = s_closedCalls s →
  Traced extra s' (tr ++ [{| SequenceNumber := n; ev_body := OutputItemDone i it |}]).
Proof.
  intros (Hc & Hu & Hst) Hp Heq. split_and!; [| |by rewrite Heq].
  - rewrite closed_by_snoc. simpl. rewrite <- Hp, Hc. symmetry. apply Permutation_cons_append.
  - apply Forall_app. split; [done|]. by repeat constructor.
Qed.

Definition traced_of (s : chatState) := (closed_items (s_items s), s_closedCalls s, s_exchange s).

Lemma Traced_same extra s s' tr : traced_of s' = traced_of s → Traced extra s tr → Traced extra s' tr.
Proof. intros [= Hi Hc Hx] (H1 & H2 & H3). split_and!; [by rewrite Hi, Hc, Hx|done|by rewrite Hc]. Qed.

Lemma traced_core s s' : core_of s' = core_of s → traced_of s' = traced_of s.
Proof. intros [= Hx _ _ _ _ Hi _ _ Hc _ _ _ _ _ _]. unfold traced_of. by rewrite Hx, Hi, Hc. Qed.

(** *** Computations that keep the trace in step *)

Abbreviation tracks := (preserves traced (λ _ : stream_error, False) (Traced [])).

Lemma tracks_fail {A} e : tracks (mfail (A := A) e).
Proof. apply preserves_fail; [apply _|intros []]. Qed.
Lemma tracks_modify g : (∀ s, traced_of (g s) = traced_of s) → tracks (modify g).
Proof. intros Hg. apply preserves_modify; [apply _|]. intros s tr. by apply Traced_same. Qed.
Lemma tracks_require b msg : tracks (require b msg).
Proof. intros s tr H. by apply twp_require. Qed.
Lemma tracks_emit b : plain b = true → tracks (emit b).
Proof. intros Hb s tr H. by apply twp_emit, Traced_plain. Qed.
Lemma tracks_quiet {A} (m : M A) : quietc m → tracks m.
Proof. intros Hm s tr H. apply twp_quiet; [done|]. intros a s' Hc. eapply Traced_same; [by apply traced_core|done]. Qed.
Lemma tracks_new_id kind : tracks (new_id kind).
Proof. intros s tr H. apply twp_iff. intros a evs s' [= _ <- <-]. by rewrite app_nil_r. Qed.

Create HintDb tracks.

Ltac tracks_step :=
  first
    [ solve [auto 2 with tracks nocore] | preserves_step | apply tracks_fail | apply tracks_require
    | apply tracks_new_id | solve [apply tracks_modify; done] | solve [apply tracks_emit; done]
    | case_match | solve [apply tracks_quiet; quietc] ].
Ltac tracks := repeat (intros; tracks_step).

(** ** Items *)

Lemma closed_items_app l1 l2 : closed_items (l1 ++ l2)%list = (closed_items l1 ++ closed_items l2)%list.
Proof. apply omap_app. Qed.

(** An open item that stays open. *)
Lemma closed_items_open l i oi oi' :
  l !! i = Some oi → live_id (oi_item oi) ≠ None → live_id (oi_item oi') ≠ None → closed_items (<[i := oi']> l) = closed_items l.
Proof.
  intros Hi Ho Ho'. rewrite <- (take_drop_middle l i oi Hi) at 2. rewrite (insert_take_drop _ _ _ (lookup_lt_Some _ _ _ Hi)).
  rewrite !closed_items_app. simpl. by destruct (live_id (oi_item oi)), (live_id (oi_item oi')).
Qed.

(** An open item that is closed. *)
Lemma closed_items_close l i oi oi' :
  l !! i = Some oi → live_id (oi_item oi) ≠ None → live_id (oi_item oi') = None →
  closed_items (<[i := oi']> l) ≡ₚ (oi_index oi', live_out (oi_item oi')) :: closed_items l.
Proof.
  intros Hi Ho Ho'. rewrite <- (take_drop_middle l i oi Hi) at 2. rewrite (insert_take_drop _ _ _ (lookup_lt_Some _ _ _ Hi)).
  rewrite !closed_items_app. simpl. rewrite Ho'. destruct (live_id (oi_item oi)); [|done]. symmetry. apply Permutation_middle.
Qed.

Lemma tracks_close_parts id oi ci parts : tracks (close_parts id oi ci parts).
Proof. revert ci. induction parts as [|[k t] parts IH]; intros ci; simpl; tracks; apply tracks_emit; by destruct k. Qed.
#[export] Hint Resolve tracks_close_parts : tracks.

Lemma keepsc_items_close_parts id oi ci parts : keepsc s_items (close_parts id oi ci parts).
Proof. by apply keepsc_close_parts. Qed.

(** With the calls [extra] closed without leaving the pending ones. *)
Lemma twp_close_message extra i s tr : Traced extra s tr → twp (close_message i) (λ _, Traced extra) s tr.
Proof.
  intros HT. apply twp_bind, twp_gets.
  destruct (s_items s !! i) as [[oi op [id [] content|id c sm]]|] eqn:Hi; try by apply twp_ret.
  apply twp_bind, (twp_keeps s_items); [apply keepsc_items_close_parts|].
  assert (∀ ci parts s tr, Traced extra s tr → twp (close_parts id oi ci parts) (λ _, Traced extra) s tr) as Hparts.
  { clear. intros ci parts. revert ci. induction parts as [|[k t] parts IH]; intros ci s tr H; simpl; [by apply twp_ret|].
    apply twp_bind, twp_gets, twp_bind, twp_emit. apply twp_bind, twp_emit. apply twp_bind.
    eapply twp_mono; [apply IH|]; [|intros r s1 t1 H1; by apply twp_ret].
    apply Traced_plain; [done|]. apply Traced_plain; [by destruct k|]. exact H. }
  eapply twp_mono; [by apply Hparts|]. intros content' s1 t1 H1 Hit.
  apply twp_bind, twp_modify, twp_emit. apply (Traced_done _ s1); [exact H1| |done]. simpl. rewrite Hit, (alter_at _ _ _ _ Hi).
  rewrite (closed_items_close _ _ _ _ Hi) by done. done.
Qed.

Lemma twp_close_reasoning extra i s tr : Traced extra s tr → twp (close_reasoning i) (λ _, Traced extra) s tr.
Proof.
  intros HT. apply twp_bind, twp_gets.
  destruct (s_items s !! i) as [[oi op [id c content|id [] sm]]|] eqn:Hi; try by apply twp_ret.
  apply twp_bind, twp_modify. destruct sm as [t|]; [|apply twp_fail].
  apply twp_bind, twp_emit, twp_bind, twp_emit, twp_emit.
  apply (Traced_done _ s); [do 2 (apply Traced_plain; [done|]); exact HT| |done]. simpl. rewrite (alter_at _ _ _ _ Hi).
  rewrite (closed_items_close _ _ _ _ Hi) by done. done.
Qed.

Lemma tracks_close_message i : tracks (close_message i).
Proof. intros s tr. apply twp_close_message. Qed.
Lemma tracks_close_reasoning i : tracks (close_reasoning i).
Proof. intros s tr. apply twp_close_reasoning. Qed.
#[export] Hint Resolve tracks_close_message tracks_close_reasoning : tracks.

(** A call closed among [extra]. *)
Lemma twp_closure extra p s tr :
  call_started p = true → Traced extra s tr →
  twp (toolCallClosure p) (λ _ s' tr', Traced (p :: extra) s' tr' ∧ s_pendingCalls s' = s_pendingCalls s) s tr.
Proof.
  intros Hp (Hc & Hu & Hst). apply twp_bind, twp_gets, twp_bind, twp_emit, twp_emit. split; [|done]. split_and!.
  - rewrite !closed_by_snoc. simpl. rewrite app_nil_r, Hc, !map_app. simpl. rewrite <- !app_assoc.
    do 2 apply Permutation_app_head. symmetry. apply Permutation_cons_append.
  - by repeat (apply Forall_app; split; [|by repeat constructor]).
  - apply Forall_app in Hst as [H1 H2]. apply Forall_app. split; [done|by constructor].
Qed.

Lemma tracks_closures : tracks closePendingToolCalls.
Proof.
  apply (preserves_bind traced); [apply (preserves_gets traced)|]. intros calls. apply (preserves_for_each traced). intros _ index.
  apply (preserves_bind traced); [apply (preserves_gets traced)|]. intros calls'. destruct (calls' !! index) as [p|]; [|apply tracks_fail].
  intros s tr HT. apply twp_when; intros Hp; [|done].
  apply twp_bind. eapply twp_mono; [by apply twp_closure|]. intros [] s1 t1 [(Hc & Hu & Hst) _].
  apply twp_bind, twp_modify, twp_modify. split_and!; [simpl; by rewrite app_nil_r|done|simpl; by rewrite app_nil_r].
Qed.
#[export] Hint Resolve tracks_closures : tracks.

(** ** Deltas *)

Lemma traced_last s oi l p :
  last_item (s_items s) = Some oi → live_id (oi_item oi) ≠ None → live_id l ≠ None →
  traced_of (on_last (with_part p l) s) = traced_of s ∧ traced_of (on_last (with_live l) s) = traced_of s.
Proof.
  intros Hl Ho Hn. rewrite last_item_lookup in Hl. unfold traced_of. simpl. rewrite !(alter_at _ _ _ _ Hl).
  by rewrite !(closed_items_open _ _ _ _ Hl).
Qed.

Lemma tracks_push_item l : live_id l ≠ None → tracks (push_item l).
Proof.
  intros Hl. unfold push_item. tracks. apply tracks_modify. intros s. unfold traced_of. simpl.
  rewrite closed_items_app. simpl. destruct (live_id l); [|done]. by rewrite app_nil_r.
Qed.

Lemma tracks_openMessageItem : tracks openMessageItem.
Proof.
  unfold openMessageItem. apply (preserves_bind traced); [tracks|]. intros items. apply (preserves_bind traced); [tracks|]. intros [].
  apply (preserves_bind traced); [tracks|]. intros id. apply (preserves_bind traced); [by apply tracks_push_item|]. intros i. tracks.
Qed.
#[export] Hint Resolve tracks_openMessageItem : tracks.

(** The trailing item is an open message. *)
Definition message_last (s : chatState) : Prop :=
  ∃ oi op id content, last_item (s_items s) = Some {| oi_index := oi; oi_openPart := op; oi_item := LiveMessage id false content |}.

Lemma twp_openPart kind s tr :
  Traced [] s tr → message_last s → twp (openMessageItemForPartWithEvents kind) (λ _ s' tr', Traced [] s' tr') s tr.
Proof.
  intros HT (oi & op & id & content & Hl). apply twp_bind, twp_gets. rewrite Hl. case_bool_decide; [by apply twp_ret|].
  apply twp_bind, twp_require. intros _. apply twp_bind, twp_modify, twp_bind, twp_emit, twp_ret.
  apply Traced_plain; [done|]. eapply (Traced_same _ s); [|done].
  by destruct (traced_last s _ (LiveMessage id false (content ++ [(kind, "")])%list) (Z.of_nat (length content)) Hl).
Qed.

Lemma twp_new_message s tr (Q : unit → chatState → list event → Prop) :
  Traced [] s tr → (∀ s' tr', Traced [] s' tr' → message_last s' → Q tt s' tr') → twp openMessageItem Q s tr.
Proof.
  intros HT HQ. apply twp_iff. intros a evs s' H. pose proof (proj1 (twp_iff _ _ _ _) (tracks_openMessageItem s tr HT) a evs s' H) as HT'. destruct a. apply HQ; [done|].
  revert H. unfold openMessageItem, push_item, mbind, gets, require. simpl. destruct (_ <? _); [|done]. simpl.
  intros [= _ <-]. unfold message_last. simpl. rewrite last_snoc_item. eauto 10.
Qed.

Lemma tracks_openMessageItemForPart kind : tracks (openMessageItemForPart kind).
Proof.
  intros s tr HT. apply twp_bind, twp_gets, twp_bind, twp_when; intros Hl.
  - apply twp_bind. eapply twp_mono; [by apply tracks_closures|]. intros [] s1 t1 H1.
    apply twp_new_message; [done|]. intros s2 t2 H2 Hm. by apply twp_openPart.
  - apply twp_openPart; [done|]. unfold message_last.
    destruct (last_item (s_items s)) as [[oi op [id [] content|id [] sm]]|]; try done. eauto 10.
Qed.
#[export] Hint Resolve tracks_openMessageItemForPart : tracks.

Lemma tracks_append_content k t : tracks (append_content k t).
Proof. unfold append_content. tracks. all: first [apply tracks_modify|apply tracks_emit]; by destruct k. Qed.
#[export] Hint Resolve tracks_append_content : tracks.

Lemma tracks_closeOpenMessageItem : tracks closeOpenMessageItem.
Proof. unfold closeOpenMessageItem, on_trailing. tracks. Qed.
Lemma tracks_closeOpenReasoningItem : tracks closeOpenReasoningItem.
Proof. unfold closeOpenReasoningItem, on_trailing. tracks. Qed.
#[export] Hint Resolve tracks_closeOpenMessageItem tracks_closeOpenReasoningItem : tracks.

Lemma tracks_convertToolCall call : tracks (convertToolCall call).
Proof.
  unfold convertToolCall, note, resolve_call, wireError, new_call, get_call, absorb_identity, update_call, announce_call,
    flush_arguments, get_call, update_call. tracks.
Qed.
#[export] Hint Resolve tracks_convertToolCall : tracks.

(** The trailing item is open reasoning. *)
Definition reasoning_last (s : chatState) : Prop :=
  ∃ oi op id sm, last_item (s_items s) = Some {| oi_index := oi; oi_openPart := op; oi_item := LiveReasoning id false sm |}.

Lemma twp_append_reasoning t s tr :
  Traced [] s tr → reasoning_last s → twp (append_reasoning t) (λ _ s' tr', Traced [] s' tr') s tr.
Proof.
  intros HT (oi & op & id & sm & Hl). apply twp_bind, twp_gets. rewrite Hl.
  apply twp_bind, twp_emit, twp_bind, twp_modify, twp_quiet; [quietc|]. intros [] s1 Hc.
  eapply Traced_same; [by apply traced_core|]. eapply (Traced_same _ s); [|by apply Traced_plain].
  by destruct (traced_last s _ (LiveReasoning id false (Some (default "" sm ++ t))) 0 Hl).
Qed.

Lemma twp_open_reasoning s tr (Q : unit → chatState → list event → Prop) :
  Traced [] s tr → (∀ s' tr', Traced [] s' tr' → reasoning_last s' → Q tt s' tr') → twp open_reasoning Q s tr.
Proof.
  intros HT HQ. apply twp_bind, twp_gets, twp_when; intros Hl.
  - apply twp_bind. eapply twp_mono; [by apply tracks_closeOpenMessageItem|]. intros [] s1 t1 H1.
    apply twp_bind. eapply twp_mono; [by apply tracks_closures|]. intros [] s2 t2 H2.
    apply twp_bind. eapply twp_mono; [by apply tracks_quiet; [quietc|]|]. intros [] s3 t3 H3.
    apply twp_bind. eapply twp_mono; [by apply tracks_quiet; [quietc|]|]. intros [] s4 t4 H4.
    apply twp_bind. eapply twp_mono; [by apply tracks_new_id|]. intros id s5 t5 H5.
    apply twp_bind, twp_bind, twp_gets, twp_bind, twp_modify, twp_bind, twp_modify, twp_ret, twp_bind, twp_emit, twp_emit, HQ.
    + do 2 (apply Traced_plain; [done|]). eapply (Traced_same _ s5); [|done]. unfold traced_of. simpl.
      by rewrite closed_items_app, app_nil_r.
    + unfold reasoning_last. simpl. rewrite last_snoc_item. eauto 10.
  - apply HQ; [done|]. unfold reasoning_last. destruct (last_item (s_items s)) as [[oi op [id [] content|id [] sm]]|]; try done. eauto 10.
Qed.

Lemma tracks_convert_reasoning t path : tracks (convert_reasoning t path).
Proof.
  unfold convert_reasoning. apply (preserves_bind traced); [tracks|]. intros x. destruct (x_ProviderReasoningThinking x).
  - apply (preserves_bind traced); [tracks|]. intros recorded. apply (preserves_bind traced); [unfold note; tracks|]. intros [] s tr HT.
    apply twp_bind, twp_open_reasoning; [done|]. intros s1 t1 H1 Hr. by apply twp_append_reasoning.
  - unfold once, lose, note. tracks.
Qed.
#[export] Hint Resolve tracks_convert_reasoning : tracks.

Lemma tracks_convertDelta d : tracks (convertDelta d).
Proof. unfold convertDelta, wireError. tracks. Qed.
#[export] Hint Resolve tracks_convertDelta : tracks.

(** ** The finish *)

Lemma keepsc_pending_all (f : nat → M unit) l i :
  (∀ i, keepsc s_pendingCalls (f i)) → keepsc s_pendingCalls (for_each (λ i (_ : openResponsesItem), f i) i l).
Proof. intros Hf. by apply keeps_for_each. Qed.

Lemma twp_finish reason s tr :
  Traced [] s tr →
  twp (finish reason) (λ _ s' tr', ∃ extra, extra ≡ₚ pendingSlice (s_pendingCalls s') ∧ Traced extra s' tr') s tr.
Proof.
  intros HT. apply twp_bind, twp_gets, twp_bind. eapply twp_mono.
  { apply (twp_for_each _ (λ _ l s' tr', ∃ extra, (reverse extra ++ l)%list = pendingSlice (s_pendingCalls s) ∧
      s_pendingCalls s' = s_pendingCalls s ∧ Traced extra s' tr')); [|by exists []].
    intros _ p l s1 t1 (extra & Hl & Hm & H1). apply twp_bind, twp_require. intros Hp.
    eapply twp_mono; [by apply twp_closure|]. intros [] s2 t2 [H2 Hm2]. exists (p :: extra). split_and!; [|by rewrite Hm2|done].
    by rewrite reverse_cons, <- app_assoc. }
  intros [] s1 t1 (extra & Hl & Hm & H1). rewrite app_nil_r in Hl.
  apply twp_bind, twp_gets.
  assert (∀ (f : nat → M unit) s tr, (∀ i, keepsc s_pendingCalls (f i)) → (∀ i s tr, Traced extra s tr → twp (f i) (λ _, Traced extra) s tr) →
    Traced extra s tr → twp (for_each (λ i (_ : openResponsesItem), f i) 0 (s_items s1)) (λ _ s' tr', Traced extra s' tr' ∧ s_pendingCalls s' = s_pendingCalls s) s tr) as Hall.
  { intros f s2 t2 Hk Hf H2. apply (twp_keeps s_pendingCalls); [by apply keepsc_pending_all|].
    eapply twp_mono; [apply (twp_for_each _ (λ _ _, Traced extra)); [|done]; intros i o l s3 t3; apply Hf|]. by intros [] s3 t3 H3 Hm3. }
  apply twp_bind. eapply twp_mono.
  { apply (Hall close_message); [apply keepsc_pending_close_message|apply twp_close_message|done]. }
  intros [] s2 t2 [H2 Hm2]. apply twp_bind. eapply twp_mono.
  { apply (Hall close_reasoning); [apply keepsc_pending_close_reasoning|apply twp_close_reasoning|done]. }
  intros [] s3 t3 [H3 Hm3]. case_bool_decide; [|apply twp_fail]. apply twp_modify. exists extra. split; [|done].
  simpl. rewrite Hm3, Hm2, Hm, <- Hl. symmetry. apply reverse_Permutation.
Qed.

(** ** The stream *)

(** The trace at a frame: of the open stream, or with what is held back. *)
Definition Ledger (s : chatState) (tr : list event) : Prop :=
  if s_sawFinish s then
    ∃ extra, extra ≡ₚ pendingSlice (s_pendingCalls s) ∧ all_closed s ∧ Traced extra s (tr ++ s_heldTerminal s)
  else Traced [] s tr.

Lemma Ledger_core s s' tr : core_of s' = core_of s → Ledger s tr → Ledger s' tr.
Proof.
  intros Hc. pose proof (traced_core _ _ Hc) as Ht. injection Hc as _ _ _ Hsf _ Hi _ Hm _ _ _ Hh _ _ _.
  unfold Ledger, all_closed. rewrite Hsf, Hi, Hm, Hh. destruct (s_sawFinish s); [|by apply Traced_same].
  intros (extra & Hp & Ha & H). exists extra. split_and!; [done..|]. by eapply Traced_same.
Qed.

Lemma twp_capture m (Q : unit → chatState → list event → Prop) (R : list event → chatState → list event → Prop) s tr :
  twp m Q s tr → (∀ evs s', Q tt s' (tr ++ evs)%list → R evs s' tr) → twp (capture m) R s tr.
Proof.
  rewrite !twp_iff. intros Hm HR a evs s'. unfold capture. destruct (m s) as [[[[]|e] evs1] s1] eqn:Em; [|done]. intros [= <- <- <-].
  rewrite app_nil_r. by apply HR, (Hm _ _ _ eq_refl).
Qed.

Lemma twp_convert_choice choice s v tr :
  Running s v → Traced [] s tr → twp (convert_choice choice) (λ _ s' tr', Ledger s' tr') s tr.
Proof.
  intros HR HT. apply twp_bind, twp_require. intros _.
  apply twp_bind, twp_quiet; [apply quiet_when, quietc_logprobs|]. intros [] s1 Hc.
  pose proof (Running_core _ _ _ Hc HR) as H1. apply (Traced_same [] s s1) in HT; [|by apply traced_core].
  apply twp_bind. apply (twp_mono _ (λ _ s tr, Traced [] s tr ∧ s_sawFinish s = false ∧ ∃ v, InvS s v)).
  { destruct H1 as [(_ & Hsf & _) HI]. destruct (ch_Delta choice) as [d|]; [|apply twp_ret; eauto].
    eapply (twp_wp _ (λ _ s v, InvS s v)); [apply wpc_convertDelta, HI|]. apply (twp_keeps phase_of); [apply keepsc_phase_convertDelta|].
    eapply twp_mono; [by apply tracks_convertDelta|]. intros [] s2 t2 H2 [= _ _ _ Hs _ _] HI2. split_and!; [done|congruence|done]. }
  intros [] s2 t2 (HT2 & Hsf2 & v2 & HI2). destruct (ch_FinishReason choice) as [reason|].
  - apply twp_bind. eapply twp_wp.
    { eapply (wpc_capture _ settled (λ _ s _, all_closed s)); [by apply wpc_finish|]. by intros evs s3 v3 _ (_ & _ & Ha). }
    eapply twp_capture; [by apply twp_finish|]. intros evs s3 (extra & Hp & H3) [v3 Ha].
    apply twp_bind, twp_modify, twp_modify. by exists extra.
  - apply twp_ret. unfold Ledger. by rewrite Hsf2.
Qed.

Lemma tracks_pin_identity chunk : tracks (pin_identity chunk).
Proof. unfold pin_identity. tracks. Qed.

Lemma twp_Convert chunk s v tr :
  Status s v → Ledger s tr → twp (Convert chunk) (λ _ s' tr', Ledger s' tr') s tr.
Proof.
  intros HS HL. apply twp_deliver, twp_bind, twp_quiet; [apply quietc_charge|]. intros [] s1 Hc.
  apply (Ledger_core _ _ _ Hc) in HL. apply twp_bind, twp_gets. apply Status_alt in HS as [HO|HF].
  - destruct (Open_core _ _ _ Hc HO) as [Hsf HO1]. rewrite Hsf. unfold Ledger in HL. rewrite Hsf in HL.
    apply twp_bind. eapply twp_wp; [by apply wpc_pin_identity|]. eapply twp_mono; [by apply tracks_pin_identity|].
    intros [] s2 t2 HT2 [v2 H2].
    apply twp_bind, twp_quiet; [quietc|]. intros [] s3 Hc3. pose proof (Running_core _ _ _ Hc3 H2) as H3.
    apply (Traced_same [] s2 s3) in HT2; [|by apply traced_core].
    apply twp_bind, twp_quiet; [apply quiet_when, quietc_tier|]. intros [] s4 Hc4. pose proof (Running_core _ _ _ Hc4 H3) as H4.
    apply (Traced_same [] s3 s4) in HT2; [|by apply traced_core].
    apply twp_bind, twp_require. intros Hlen. apply Z.leb_le in Hlen.
    destruct (c_Choices chunk) as [|choice [|]]; [|apply twp_bind; eapply twp_mono; [by eapply twp_convert_choice|]; intros [] s5 t5 H5; by apply twp_ret|rewrite !length_cons in Hlen; lia].
    apply twp_ret. unfold Ledger. destruct H4 as [(_ & Hsf4 & _) _]. by rewrite Hsf4.
  - pose proof (Finished_core _ _ _ Hc HF) as [(_ & Hsf & _) _]. rewrite Hsf.
    apply twp_bind, twp_gets. case_match; [|by apply twp_fail].
    apply twp_quiet; [apply quietc_phase2|]. intros [] s2 Hc2. by eapply Ledger_core.
Qed.

(** ** The terminal's output *)

Definition by_index (a b : Z * out_item) : Prop := a.1 <= b.1.

Lemma insert_output_perm e l : insert_output e l ≡ₚ e :: l.
Proof. induction l as [|e' l IH]; simpl; [done|]. case_match; [done|]. rewrite IH. apply Permutation_swap. Qed.

Lemma insert_output_sorted e l : StronglySorted by_index l → StronglySorted by_index (insert_output e l).
Proof.
  induction 1 as [|e' l Hs IH Hall]; simpl; [by repeat constructor|]. destruct (Z.ltb_spec e.1 e'.1) as [Hlt|Hge].
  - constructor; [by constructor|]. constructor; [unfold by_index; lia|]. eapply Forall_impl; [done|]. unfold by_index. lia.
  - constructor; [done|]. rewrite insert_output_perm. by constructor.
Qed.

Lemma fold_insert_output l acc :
  StronglySorted by_index acc →
  let out := fold_left (λ acc e, insert_output e acc) l acc in StronglySorted by_index out ∧ out ≡ₚ (acc ++ l)%list.
Proof.
  revert acc. induction l as [|e l IH]; intros acc Hacc; simpl; [by rewrite app_nil_r|].
  destruct (IH (insert_output e acc)) as [Hs Hp]; [by apply insert_output_sorted|]. split; [done|].
  rewrite Hp, insert_output_perm. apply Permutation_middle.
Qed.

Lemma closed_items_all s : all_closed s → closed_items (s_items s) = map (λ oi, (oi_index oi, live_out (oi_item oi))) (s_items s).
Proof.
  unfold all_closed. generalize (s_items s). intros l. induction l as [|oi l IH]; intros Ha; simpl; [done|].
  rewrite (Ha 0%nat oi eq_refl). f_equal. apply IH. intros j o Hj. by apply (Ha (S j)).
Qed.

(** The output of a terminal released now. *)
Lemma final_output s tr :
  Ledger s tr → s_sawFinish s = true →
  unterminated (tr ++ s_heldTerminal s) ∧
  ∃ ordered, StronglySorted by_index ordered ∧ ordered ≡ₚ closed_by (tr ++ s_heldTerminal s) ∧ finalOutputItems s = map snd ordered.
Proof.
  unfold Ledger. intros HL Hsf. rewrite Hsf in HL. destruct HL as (extra & Hp & Ha & Hc & Hu & Hst). split; [done|].
  unfold finalOutputItems. eexists. split_and!; [| |done].
  - by apply (fold_insert_output _ []); constructor.
  - etrans; [apply (fold_insert_output _ []); constructor|]. simpl. rewrite Hc, (closed_items_all _ Ha).
    apply Permutation_app_head, fmap_Permutation. apply Forall_app in Hst as [H1 H2].
    rewrite filter_app, !(filter_id _ _).
    + rewrite Hp. apply Permutation_app_comm.
    + apply Forall_forall. intros p Hin. rewrite Forall_forall in H1. by apply H1.
    + rewrite <- Hp. done.
Qed.

(** A stream that has ended in state [s]. *)
Definition Terminated (s : chatState) (evs : list event) : Prop :=
  ∃ evs0 ev e, evs = (evs0 ++ [ev])%list ∧ unterminated evs0 ∧
    ev_body ev = match incomplete_reason (s_finishReason s) with Some _ => Incomplete e | None => Completed e end ∧
    e_Usage e = s_usage s ∧ e_IncompleteReason e = incomplete_reason (s_finishReason s) ∧
    ∃ ordered, StronglySorted by_index ordered ∧ ordered ≡ₚ closed_by evs0 ∧ e_Output e = map snd ordered.

Lemma Terminated_final s tr :
  Ledger s tr → s_sawFinish s = true → Terminated s (tr ++ (s_heldTerminal s ++ [final_event s]))%list.
Proof.
  intros HL Hsf. destruct (final_output s tr HL Hsf) as (Hu & ordered & Hs & Hp & Ho).
  exists (tr ++ s_heldTerminal s)%list, (final_event s), (final_envelope s). rewrite <- app_assoc. split_and!; try done.
  by exists ordered.
Qed.

Lemma Terminated_same s s' evs :
  s_finishReason s' = s_finishReason s → s_usage s' = s_usage s → Terminated s evs → Terminated s' evs.
Proof. unfold Terminated. intros -> ->. done. Qed.

Lemma twp_end fr s v tr :
  Status s v → Ledger s tr → match fr with Chunk _ => False | _ => True end →
  twp (convert_frame fr) (λ _ s' tr', Terminated s' tr') s tr.
Proof.
  intros HS HL Hfr. apply twp_iff. intros a evs s'. assert (s_sawFinish s = true → s_terminalReleased s = false) as Hrel.
  { destruct HS as [((_ & -> & _) & _)|[[(_ & -> & _) _]|[(_ & _ & Htr) _]]]; done. }
  destruct fr as [chunk| |]; [done|..]; simpl; unfold convert_done, FinalizeEOF, noteMissingSentinel, mbind, gets; simpl.
  - unfold require. destruct (s_sawFinish s) eqn:Hsf; [|done]. simpl. rewrite releaseTerminal_eq, (Hrel eq_refl). simpl.
    intros [= _ <- <-]. rewrite app_nil_r. eapply (Terminated_same s); [done|done|]. by apply Terminated_final.
  - destruct (s_sawFinish s) eqn:Hsf; [|done]. rewrite (Hrel eq_refl). simpl. set (s1 := set_report _ s).
    rewrite releaseTerminal_eq. unfold s1 at 1. simpl. rewrite (Hrel eq_refl). simpl. intros [= _ <- <-].
    rewrite app_nil_r. eapply (Terminated_same s1); [done|done|]. apply (Terminated_final s1); [|done].
    by apply (Ledger_core s).
Qed.

Lemma twp_stream frames s v tr :
  Status s v → Ledger s tr →
  twp (stream frames) (λ _ s' tr', if ends frames then Terminated s' tr' else unterminated tr') s tr.
Proof.
  revert s v tr. induction frames as [|fr frames IH]; intros s v tr HS HL; simpl.
  - apply twp_ret. revert HL. unfold Ledger. destruct (s_sawFinish s).
    + intros (extra & _ & _ & _ & Hu & _). by apply Forall_app in Hu as [Hu _].
    + by intros (_ & Hu & _).
  - apply twp_bind. destruct fr as [chunk| |]; simpl.
    + eapply twp_wp; [by apply wpc_Convert|]. eapply twp_mono; [by eapply twp_Convert|]. intros [] s1 t1 HL1 [v1 HS1]. by eapply IH.
    + eapply twp_mono; [by apply (twp_end Done _ v)|]. intros [] s1 t1 H1. by apply twp_ret.
    + eapply twp_mono; [by apply (twp_end EOF _ v)|]. intros [] s1 t1 H1. by apply twp_ret.
Qed.

(** ** What the chunks account for *)

(** The chunks the converter sees: those before the sentinel or the end of the body. *)
Fixpoint received (frames : list frame) : list ChatStreamResponse :=
  match frames with Chunk chunk :: frames => chunk :: received frames | _ => [] end.

(** The usage a chunk carries, as a Responses usage. *)
Definition usage_in (chunk : ChatStreamResponse) : option ResponsesUsage :=
  (λ usage, (chatUsageToResponsesUsage usage (c_DerivedUsageTotal chunk)).1) <$> c_Usage chunk.

Definition last_usage (chunks : list ChatStreamResponse) : option ResponsesUsage := last (omap usage_in chunks).

(** The finish reason a chunk carries; the first one finishes the stream. *)
Definition reason_in (chunk : ChatStreamResponse) : option string := head (omap ch_FinishReason (c_Choices chunk)).

Definition finish_of (chunks : list ChatStreamResponse) : option string := head (omap reason_in chunks).

(** Why a response with a finish reason is incomplete, unless it is complete. *)
Definition cut_short (reason : string) : option string :=
  if decide (reason ∈ ["length"; "max_tokens"]) then Some "max_output_tokens"
  else if decide (reason = "content_filter") then Some "content_filter"
  else None.

Lemma incomplete_reason_spec reason : incomplete_reason reason = cut_short reason.
Proof.
  unfold incomplete_reason, cut_short. destruct (String.eqb_spec reason "length") as [->|H1]; [done|].
  destruct (String.eqb_spec reason "max_tokens") as [->|H2]; [done|]. simpl. rewrite decide_False by by rewrite !elem_of_cons, elem_of_nil; intros [?|[?|?]].
  destruct (String.eqb_spec reason "content_filter") as [->|H3]; by case_decide.
Qed.

(** What the state accounts for. *)
Definition account (s : chatState) : option ResponsesUsage * string * bool := (s_usage s, s_finishReason s, s_sawFinish s).

Definition Accounts (chunks : list ChatStreamResponse) (s : chatState) : Prop :=
  s_usage s = last_usage chunks ∧ if s_sawFinish s then finish_of chunks = Some (s_finishReason s) else finish_of chunks = None.

Lemma Accounts_same chunks s s' : account s' = account s → Accounts chunks s → Accounts chunks s'.
Proof. unfold Accounts. by intros [= -> -> ->]. Qed.

Lemma last_usage_snoc chunks chunk : last_usage (chunks ++ [chunk]) = match usage_in chunk with Some u => Some u | None => last_usage chunks end.
Proof. unfold last_usage. rewrite omap_app. simpl. destruct (usage_in chunk); [apply last_snoc|by rewrite app_nil_r]. Qed.

Lemma finish_of_snoc chunks chunk : finish_of (chunks ++ [chunk]) = match finish_of chunks with Some r => Some r | None => reason_in chunk end.
Proof. unfold finish_of. rewrite omap_app. destruct (omap reason_in chunks); [|done]. simpl. by destruct (reason_in chunk). Qed.

(** *** Computations that leave the account *)

Lemma keepsc_account_convertToolCall call : keepsc account (convertToolCall call).
Proof.
  unfold convertToolCall, note, resolve_call, wireError, new_call, get_call, absorb_identity, update_call, checkAccumulated,
    chargeIdentity, announce_call, closeOpenMessageItem, on_trailing, close_message, flush_arguments, get_call, update_call.
  keeps.
Qed.
Lemma keepsc_account_closures : keepsc account closePendingToolCalls.
Proof. unfold closePendingToolCalls, toolCallClosure. keeps. Qed.
Lemma keepsc_account_close_message i : keepsc account (close_message i).
Proof. unfold close_message. keeps. Qed.
Lemma keepsc_account_close_reasoning i : keepsc account (close_reasoning i).
Proof. unfold close_reasoning. keeps. Qed.
#[export] Hint Resolve keepsc_account_convertToolCall keepsc_account_closures keepsc_account_close_message
  keepsc_account_close_reasoning : keeps.

Lemma keepsc_account_append_content k t : keepsc account (append_content k t).
Proof.
  unfold append_content, openMessageItemForPart, openMessageItem, push_item, openMessageItemForPartWithEvents, checkAccumulated,
    chargeIdentity.
  keeps. apply keeps_modify. by destruct k.
Qed.
Lemma keepsc_account_convert_reasoning t path : keepsc account (convert_reasoning t path).
Proof.
  unfold convert_reasoning, note, lose, once, note, open_reasoning, push_item, append_reasoning, chargeIdentity,
    closeOpenMessageItem, on_trailing. keeps.
Qed.
#[export] Hint Resolve keepsc_account_append_content keepsc_account_convert_reasoning : keeps.

Lemma keepsc_account_convertDelta d : keepsc account (convertDelta d).
Proof. unfold convertDelta, closeOpenReasoningItem, on_trailing, wireError. keeps. Qed.

Lemma keepsc_account_tier : keepsc account loseServiceTierOnce.
Proof. unfold loseServiceTierOnce, once, lose. keeps. Qed.
Lemma keepsc_account_logprobs : keepsc account loseLogprobsOnce.
Proof. unfold loseLogprobsOnce, once, lose. keeps. Qed.
Lemma keepsc_account_pin chunk : keepsc account (pin_identity chunk).
Proof. unfold pin_identity. keeps. Qed.
#[export] Hint Resolve keepsc_account_convertDelta keepsc_account_tier keepsc_account_logprobs keepsc_account_pin : keeps.

(** *** The account of a chunk *)

Lemma twp_kept {A} (m : M A) (Q : A → chatState → list event → Prop) s tr :
  keepsc account m → (∀ a s' tr', account s' = account s → Q a s' tr') → twp m Q s tr.
Proof. intros Hm HQ. apply twp_iff. intros a evs s' H. specialize (Hm s). rewrite H in Hm. by apply HQ, Hm. Qed.

(** A usage taken into the account. *)
Lemma twp_absorb_usage chunk usage (Q : ResponsesUsage → chatState → list event → Prop) s tr :
  (∀ s' tr', account s' = account s → Q (chatUsageToResponsesUsage usage (c_DerivedUsageTotal chunk)).1 s' tr') →
  twp (absorb_usage chunk usage) Q s tr.
Proof.
  intros HQ. unfold absorb_usage, noteDerivedUsageTotal, loseUnknownUsageComponentsOnce, once, lose, note.
  apply twp_bind, twp_kept; [keeps|]. intros [] s1 t1 H1. apply twp_bind, twp_kept; [keeps|]. intros [] s2 t2 H2.
  destruct (chatUsageToResponsesUsage usage (c_DerivedUsageTotal chunk)) as [converted clamp].
  apply twp_bind, twp_gets, twp_bind, twp_kept; [keeps|]. intros notes s3 t3 H3.
  apply twp_bind, twp_kept; [keeps|]. intros [] s4 t4 H4. apply twp_ret, HQ. congruence.
Qed.

Lemma finish_accounts reason s tr :
  twp (finish reason) (λ _ s' _, s_usage s' = s_usage s ∧ s_finishReason s' = reason ∧ reason ∈ finish_reasons) s tr.
Proof.
  unfold finish. apply twp_bind, twp_gets, twp_bind, twp_kept; [unfold toolCallClosure; keeps|]. intros [] s1 t1 H1.
  apply twp_bind, twp_gets, twp_bind, twp_kept; [keeps|]. intros [] s2 t2 H2. apply twp_bind, twp_kept; [keeps|]. intros [] s3 t3 H3.
  case_bool_decide; [|apply twp_fail]. apply twp_modify. split_and!; [|done|done]. simpl. unfold account in *. congruence.
Qed.

(** The choice of a chunk that may finish the stream. *)
Lemma choice_accounts choice s tr : s_sawFinish s = false →
  twp (convert_choice choice) (λ _ s' _, s_usage s' = s_usage s ∧
    match ch_FinishReason choice with
    | Some reason => s_sawFinish s' = true ∧ s_finishReason s' = reason ∧ reason ∈ finish_reasons
    | None => s_sawFinish s' = false
    end) s tr.
Proof.
  intros Hs. unfold convert_choice. apply twp_bind, twp_require. intros _. apply twp_bind, twp_kept; [keeps|]. intros [] s1 t1 H1.
  apply twp_bind, twp_kept; [keeps|]. intros [] s2 t2 H2. destruct (ch_FinishReason choice) as [reason|]; [|apply twp_ret; unfold account in *; split; congruence].
  apply twp_bind. eapply twp_capture; [apply finish_accounts|]. intros evs s3 (Hu & Hf & Hr).
  apply twp_bind, twp_modify, twp_modify. simpl. split_and!; try done. unfold account in *. congruence.
Qed.

Lemma phase2_accounts chunk s tr : s_sawFinish s = true →
  twp (absorbPhase2Accounting chunk) (λ _ s' _, s_usage s' = match usage_in chunk with Some u => Some u | None => s_usage s end ∧
    s_finishReason s' = s_finishReason s ∧ s_sawFinish s' = true) s tr.
Proof.
  intros Hs. unfold absorbPhase2Accounting, usage_in. apply twp_bind, twp_gets, twp_bind, twp_require. intros _.
  apply twp_bind, twp_gets, twp_bind, twp_require. intros _. apply twp_bind, twp_kept; [keeps|]. intros [] s1 t1 H1.
  apply twp_bind, twp_kept; [keeps|]. intros [] s2 t2 H2. destruct (c_Usage chunk) as [usage|]; [|apply twp_ret; unfold account in *; simpl; split_and!; congruence].
  apply twp_bind, twp_absorb_usage. intros s3 t3 H3. apply twp_bind, twp_gets, twp_bind, twp_gets, twp_bind, twp_kept; [unfold note; keeps|].
  intros [] s4 t4 H4. apply twp_modify. unfold account in *. simpl. split_and!; congruence.
Qed.

Lemma Convert_accounts chunks chunk s tr : Accounts chunks s → twp (Convert chunk) (λ _ s' _, Accounts (chunks ++ [chunk]) s') s tr.
Proof.
  intros HA. apply twp_deliver, twp_bind, twp_kept; [keeps|]. intros [] s1 t1 H1. apply (Accounts_same _ _ _ H1) in HA. clear H1 s.
  destruct HA as [Hu Hf]. apply twp_bind, twp_gets. destruct (s_sawFinish s1) eqn:Hsf.
  - apply twp_bind, twp_gets. case_match; [|by apply twp_fail]. eapply twp_mono; [by apply phase2_accounts|].
    intros [] s2 t2 (Hu2 & Hf2 & Hs2). unfold Accounts. rewrite Hs2, Hf2, Hu2, last_usage_snoc, finish_of_snoc, Hf, Hu. by destruct (usage_in chunk).
  - apply twp_bind, twp_kept; [keeps|]. intros [] s2 t2 H2.
    apply twp_bind, (twp_mono _ (λ _ s' _, s_usage s' = last_usage (chunks ++ [chunk]) ∧ s_sawFinish s' = false)).
    { rewrite last_usage_snoc. unfold usage_in. destruct (c_Usage chunk) as [usage|]; simpl; [|apply twp_ret; unfold account in *; split; congruence].
      apply twp_bind, twp_absorb_usage. intros s3 t3 H3. apply twp_modify. unfold account in *. simpl. split; congruence. }
    intros [] s3 t3 [Hu3 Hs3]. apply twp_bind, twp_kept; [keeps|]. intros [] s4 t4 H4. apply twp_bind, twp_require. intros Hlen%Z.leb_le.
    unfold Accounts. rewrite finish_of_snoc, Hf. unfold reason_in.
    destruct (c_Choices chunk) as [|choice [|]]; [| |rewrite !length_cons in Hlen; lia].
    + apply twp_ret. unfold account in *. assert (s_sawFinish s4 = false) as -> by congruence. split; [congruence|done].
    + apply twp_bind. eapply twp_mono; [apply choice_accounts; unfold account in *; congruence|]. intros [] s5 t5 [Hu5 Hf5]. apply twp_ret.
      split; [unfold account in *; congruence|]. simpl. destruct (ch_FinishReason choice); [by destruct Hf5 as (-> & -> & _)|by rewrite Hf5].
Qed.

Lemma releaseTerminal_accounts : keepsc account releaseTerminal.
Proof. unfold releaseTerminal, terminalEnvelope. keeps. by intros s. Qed.

(** At its end the stream accounts for all of the chunks, and has been finished. *)
Lemma stream_accounts frames chunks s tr : Accounts chunks s →
  twp (stream frames) (λ _ s' _, Accounts (chunks ++ received frames) s' ∧ (ends frames = true → s_sawFinish s' = true)) s tr.
Proof.
  revert chunks s tr. induction frames as [|fr frames IH]; intros chunks s tr HA; simpl; [apply twp_ret; by rewrite app_nil_r|].
  apply twp_bind. destruct fr as [chunk| |]; simpl.
  - eapply twp_mono; [by apply Convert_accounts|]. intros [] s1 t1 H1. eapply twp_mono; [by apply IH|]. intros [] s2 t2. by rewrite <- app_assoc.
  - unfold convert_done. rewrite app_nil_r. apply twp_bind, twp_gets, twp_bind, twp_require. intros Hs.
    apply twp_bind, twp_kept; [apply releaseTerminal_accounts|]. intros ok s1 t1 H1. apply twp_require. intros _. apply twp_ret.
    split; [by eapply Accounts_same|]. unfold account in *. congruence.
  - unfold FinalizeEOF, noteMissingSentinel, note. rewrite app_nil_r. apply twp_bind, twp_gets, twp_bind, twp_gets.
    destruct (s_sawFinish s) eqn:Hs; simpl; [|apply twp_fail]. destruct (s_terminalReleased s); simpl; [apply twp_ret, twp_ret; auto|].
    apply twp_bind, twp_kept; [keeps|]. intros [] s1 t1 H1. apply twp_bind, twp_kept; [apply releaseTerminal_accounts|]. intros ok s2 t2 H2.
    apply twp_ret, twp_ret. split; [eapply Accounts_same; [|done]; congruence|]. unfold account in *. congruence.
Qed.

(** ** Property *)

(** The terminal of a stream: its last event and its only one, of the kind the finish
    reason asks for, with the last usage a chunk carried, and the items that were
    closed. *)
Definition Settled (frames : list frame) (evs : list event) : Prop :=
  ∃ evs0 ev e reason, evs = (evs0 ++ [ev])%list ∧ unterminated evs0 ∧
    finish_of (received frames) = Some reason ∧
    ev_body ev = match cut_short reason with Some _ => Incomplete e | None => Completed e end ∧
    e_IncompleteReason e = cut_short reason ∧ e_Usage e = last_usage (received frames) ∧
    ∃ ordered, StronglySorted by_index ordered ∧ ordered ≡ₚ closed_by evs0 ∧ e_Output e = map snd ordered.

(** C21: a converted stream has a terminal exactly when it reached the sentinel or the
    end of the body; the terminal is its last event and its only one, says completed or
    incomplete as the finish reason of the chunks does, carries the last usage a chunk
    carried, also one after the finish, as the conversion of usages has it, and its
    output is exactly the items the events before it closed, in the order of their
    indexes. *)
Theorem terminal_reconciles x t frames evs s :
  stream frames (newChatResponsesStreamState x t) = (Ok tt, evs, s) →
  if ends frames then Settled frames evs else unterminated evs.
Proof.
  intros H. assert (Ledger (newChatResponsesStreamState x t) []) as HL by (split_and!; [done|by constructor|by constructor]).
  pose proof (proj1 (twp_iff _ _ _ _) (twp_stream frames _ _ [] (Status_initial x t) HL) _ _ _ H) as HT.
  assert (Accounts [] (newChatResponsesStreamState x t)) as HA by done.
  destruct (proj1 (twp_iff _ _ _ _) (stream_accounts frames [] _ [] HA) _ _ _ H) as [[Hu Hf] Hs]. simpl in *.
  destruct (ends frames); [|done]. rewrite (Hs eq_refl) in Hf. destruct HT as (evs0 & ev & e & -> & Hun & Hb & Hus & Hr & Hout).
  rewrite incomplete_reason_spec in Hb, Hr. exists evs0, ev, e, (s_finishReason s). split_and!; try done. congruence.
Qed.

Lemma terminal_reconciles_witness :
  let '(r, evs, _) := stream sample_frames (newChatResponsesStreamState (sample_exchange true false) 0%Qc) in
  r = Ok tt ∧ ∃ evs0 ev e, evs = (evs0 ++ [ev])%list ∧ ev_body ev = Completed e ∧
    e_Usage e = Some (chatUsageToResponsesUsage (sample_usage 4) "").1.
Proof.
  destruct (stream sample_frames (newChatResponsesStreamState (sample_exchange true false) 0%Qc)) as [[r evs] s] eqn:H.
  assert (r = Ok tt) as -> by (vm_compute in H; congruence).
  split; [reflexivity|].
  destruct (terminal_reconciles _ _ _ _ _ H) as (evs0 & ev & e & reason & He & _ & Hf & Hb & _ & Hu & _).
  exists evs0, ev, e. split; [exact He|].
  assert (reason = "stop") as -> by (vm_compute in Hf; congruence). split; [exact Hb|]. rewrite Hu. reflexivity.
Defined.

(** ** Divergences *)

(** The note of mapped reasoning is recorded at every delta. *)
Lemma reasoning_note_per_delta :
  let '(_, _, s) := stream [text_chunk None (Some "a") [] None None; text_chunk None (Some "b") [] None None]
                      (newChatResponsesStreamState (sample_exchange true false) 0%Qc) in
  map l_Feature (Losses (s_report s)) = ["provider_reasoning_text"; "provider_reasoning_text"].
Proof. vm_compute. reflexivity. Qed.

(** A message and a call charge no item, part or call. *)
Lemma message_uncharged :
  let '(_, _, s) := stream [text_chunk (Some "a") None [] None None; text_chunk None None [sample_call (Some "c") (Some "f") "{}"] None None]
                      (newChatResponsesStreamState (sample_exchange true false) 0%Qc) in
  items_count (s_budget s) = 0 ∧ parts_count (s_budget s) = 0 ∧ toolCalls (s_budget s) = 0 ∧ stateEntries (s_budget s) = 0.
Proof. vm_compute. by split_and!. Qed.

(** A delta with reasoning and a call opens the call before the reasoning is closed. *)
Lemma call_opens_inside_reasoning :
  let '(_, evs, _) := stream [text_chunk None (Some "a") [sample_call (Some "c") (Some "f") "{}"] None None]
                        (newChatResponsesStreamState (sample_exchange true false) 0%Qc) in
  existsb (λ ev, match ev_body ev with OutputItemAdded _ (OutCall _ _ _ _ _ _) => true | _ => false end) evs = true ∧
  closed_by evs = [].
Proof. vm_compute. by split. Qed.
