(* ===== verification/ChatStreamOrder.v ===== *)
(** * The parts of a converted Chat stream are streamed one after the other

    Every delta the Chat machine ([ChatStream]) emits belongs to the part that was added
    last. *)

From Stdlib Require Import ZArith QArith Qcanon Lia Bool List Ascii String.
From stdpp Require Import strings gmap list.
From S2P Require Import Prelude GoStd GoStr Budget Losses Ir Usage Emitter ChatStream ChatStreamLaws ChatStreamText.

Open Scope string_scope.
Open Scope Z_scope.

(** The part added last. *)
Abbreviation place := (part_kind * (string * Z))%type.

(** A delta belongs to it. *)
Definition advance (at_part : option place) (ev : event) : option (option place) :=
  match ev_body ev with
  | ContentPartAdded id _ ci k => Some (Some (k, (id, ci)))
  | TextDelta id _ ci _ => if bool_decide (at_part = Some (KText, (id, ci))) then Some at_part else None
  | RefusalDelta id _ ci _ => if bool_decide (at_part = Some (KRefusal, (id, ci))) then Some at_part else None
  | _ => Some at_part
  end.

Fixpoint advance_all (at_part : option place) (evs : list event) : option (option place) :=
  match evs with
  | [] => Some at_part
  | ev :: evs => match advance at_part ev with Some p => advance_all p evs | None => None end
  end.

Definition in_order (evs : list event) (p p' : option place) : Prop := advance_all p evs = Some p'.

Lemma advance_app l1 l2 p :
  advance_all p (l1 ++ l2) = match advance_all p l1 with Some p => advance_all p l2 | None => None end.
Proof. revert p. induction l1 as [|ev l1 IH]; intros p; simpl; [done|]. destruct (advance p ev); [apply IH|done]. Qed.

#[export] Instance in_order_reader : Reader in_order.
Proof. split; unfold in_order; [done|]. intros l1 l2 p1 p2 p3 H1 H2. by rewrite advance_app, H1. Qed.

(** The trailing message, with its open part and the kinds of its parts. *)
Definition tail_of (l : list openResponsesItem) : option (string * Z * list part_kind) :=
  match last_item l with
  | Some {| oi_openPart := part; oi_item := LiveMessage id _ content |} => Some (id, part, map fst content)
  | _ => None
  end.

Definition partless (b : event_body) : bool :=
  match b with ContentPartAdded _ _ _ _ | TextDelta _ _ _ _ | RefusalDelta _ _ _ _ => false | _ => true end.

Definition partless_all (evs : list event) : Prop := Forall (λ ev, partless (ev_body ev) = true) evs.

Lemma in_order_partless evs p : partless_all evs → in_order evs p p.
Proof.
  intros Hf. induction Hf as [|ev evs He _ IH]; [done|]. unfold in_order in *. simpl. unfold advance. by destruct (ev_body ev).
Qed.

(** What alignment looks at. *)
Definition tail_view (s : chatState) := (tail_of (s_items s), s_heldTerminal s).

(** Its open part is the one added last, and nothing of a part is held back. *)
Record Aligned (s : chatState) (p : option place) : Prop := {
  al_tail : ∀ id part kinds k, tail_of (s_items s) = Some (id, part, kinds) → 0 <= part → kinds !! Z.to_nat part = Some k → p = Some (k, (id, part));
  al_held : partless_all (s_heldTerminal s);
}.

Lemma Aligned_same s s' p : tail_view s' = tail_view s → Aligned s p → Aligned s' p.
Proof. intros [= H1 H2] [Ht Hh]. split; [by rewrite H1|by rewrite H2]. Qed.

Abbreviation wpo := (wp in_order (λ _ : stream_error, False)).
Abbreviation aligned := (preserves in_order (λ _ : stream_error, False) Aligned).

Lemma aligned_fail {A} e : aligned (mfail (A := A) e).
Proof. apply preserves_fail; [apply _|intros []]. Qed.
Lemma aligned_modify g : (∀ s, tail_view (g s) = tail_view s) → aligned (modify g).
Proof. intros Hg. apply preserves_modify; [apply _|]. intros s p. by apply Aligned_same. Qed.
Lemma aligned_require b msg : aligned (require b msg).
Proof. destruct b; [apply preserves_ret; apply _|apply aligned_fail]. Qed.

Lemma wpo_emit b p' (Q : unit → chatState → option place → Prop) s p :
  advance p {| SequenceNumber := s_nextSequence s; ev_body := b |} = Some p' →
  Q tt (set_nextSequence (s_nextSequence s + 1) s) p' → wpo (emit b) Q s p.
Proof.
  intros Ha HQ. split; [intros ? _ []|]. exists p'. split; [unfold in_order; simpl; by rewrite Ha|]. by intros ? [= <-].
Qed.

Lemma wpo_silent {A} (m : M A) r s' (Q : A → chatState → option place → Prop) s p :
  m s = (r, [], s') → (∀ a, r = Ok a → Q a s' p) → wpo m Q s p.
Proof. intros Hm HQ. unfold wp. rewrite Hm. split; [intros ? _ []|]. by exists p. Qed.

Lemma wpo_fail {A} e (Q : A → chatState → option place → Prop) s p : wpo (mfail e) Q s p.
Proof. apply (wp_fail in_order). intros []. Qed.

Lemma aligned_emit b : partless b = true → aligned (emit b).
Proof. intros Hb s p HP. eapply (wpo_emit b p); [by destruct b|]. by eapply (Aligned_same s). Qed.
Lemma aligned_quiet {A} (m : M A) : quietc m → aligned m.
Proof.
  intros Hm s p HP. specialize (Hm s). destruct (m s) as [[r evs] s'] eqn:E. destruct Hm as (_ & -> & Hc).
  eapply wpo_silent; [exact E|]. intros a _. eapply Aligned_same; [|exact HP].
  injection Hc as _ _ _ _ _ Hi _ _ _ _ _ Hh _ _ _. unfold tail_view. by rewrite Hi, Hh.
Qed.
Lemma aligned_new_id kind : aligned (new_id kind).
Proof. intros s p HP. eapply wpo_silent; [done|]. intros a _. by eapply (Aligned_same s). Qed.

Create HintDb aligned.

Ltac aligned_step :=
  first
    [ solve [auto 2 with aligned nocore] | preserves_step | apply aligned_fail | apply aligned_require | apply aligned_new_id
    | solve [apply aligned_modify; done] | solve [apply aligned_emit; done] | case_match | solve [apply aligned_quiet; quietc] ].
Ltac aligned := repeat (intros; aligned_step).

(** ** Items *)

Lemma last_item_snoc l x : last_item (l ++ [x])%list = Some x.
Proof. apply last_snoc. Qed.

(** Closing an item keeps the place of the trailing message and the kinds of its parts. *)
Lemma tail_with_item f i l oi :
  l !! i = Some oi →
  match oi_item (f oi), oi_item oi with
  | LiveMessage id _ content, LiveMessage id' _ content' => id = id' ∧ map fst content = map fst content' ∧ oi_openPart (f oi) = oi_openPart oi
  | LiveReasoning _ _ _, LiveReasoning _ _ _ => True
  | _, _ => False
  end → tail_of (alter f i l) = tail_of l.
Proof.
  intros Hi Hf. unfold tail_of, last_item. rewrite !last_lookup, length_alter.
  destruct (decide (i = pred (length l))) as [->|Hne].
  - rewrite list_lookup_alter_eq, Hi. simpl. destruct oi as [n part item], (f _) as [n' part' item']. simpl in Hf.
    destruct item, item'; try done. by destruct Hf as (-> & -> & ->).
  - by rewrite list_lookup_alter_ne.
Qed.

(** The parts keep their kinds. *)
Lemma aligned_close_parts id oi parts (Q : list (part_kind * string) → chatState → option place → Prop) ci s p :
  Aligned s p → (∀ content s', s_items s' = s_items s → map fst content = map fst parts → Aligned s' p → Q content s' p) →
  wpo (close_parts id oi ci parts) Q s p.
Proof.
  revert ci s Q. induction parts as [|[k t] parts IH]; intros ci s Q HA HQ; simpl.
  - apply (wp_ret in_order). by apply HQ.
  - apply (wp_bind in_order), (wp_gets in_order), (wp_bind in_order). eapply wpo_emit; [by destruct k|].
    apply (wp_bind in_order). eapply wpo_emit; [done|]. apply (wp_bind in_order). apply IH; [by eapply (Aligned_same s)|].
    intros content s' Hi Hm HA'. apply (wp_ret in_order). apply HQ; [done|simpl; by rewrite Hm|done].
Qed.

Lemma aligned_close_message i : aligned (close_message i).
Proof.
  intros s p HA. apply (wp_bind in_order), (wp_gets in_order). destruct (s_items s !! i) as [[oi part [id [] content|id b summary]]|] eqn:Hi;
    try by apply (wp_ret in_order).
  apply (wp_bind in_order), aligned_close_parts; [done|]. intros content' s' Hs Hm HA'.
  apply (wp_bind in_order), (wp_modify in_order). eapply wpo_emit; [done|]. eapply Aligned_same; [|exact HA'].
  unfold tail_view. simpl. f_equal. eapply tail_with_item; [rewrite Hs; exact Hi|]. simpl. by split_and!.
Qed.

Lemma aligned_close_reasoning i : aligned (close_reasoning i).
Proof.
  intros s p HA. apply (wp_bind in_order), (wp_gets in_order). destruct (s_items s !! i) as [[oi part [id b content|id [] summary]]|] eqn:Hi;
    try by apply (wp_ret in_order).
  apply (wp_bind in_order), (wp_modify in_order).
  assert (Aligned (with_item (with_live (LiveReasoning id true summary)) i s) p) as HA'.
  { eapply Aligned_same; [|exact HA]. unfold tail_view. simpl. f_equal. by eapply tail_with_item. }
  destruct summary as [t|]; [|by apply aligned_fail]. revert HA'. generalize (with_item (with_live (LiveReasoning id true (Some t))) i s). intros s' HA'.
  assert (aligned (mbind (emit (ReasoningSummaryTextDone id oi t)) (λ _, mbind (emit (ReasoningSummaryPartDone id oi t)) (λ _, emit (OutputItemDone oi (OutReasoning id true (Some t))))))) as H by aligned.
  by apply H.
Qed.
#[export] Hint Resolve aligned_close_message aligned_close_reasoning : aligned.

Lemma aligned_push_item l : aligned (push_item l).
Proof.
  intros s p HA. apply (wp_bind in_order), (wp_gets in_order), (wp_bind in_order), (wp_modify in_order), (wp_bind in_order), (wp_modify in_order), (wp_ret in_order).
  split; [|apply HA]. simpl. unfold tail_of. rewrite last_item_snoc. intros id part kinds k. destruct l; [|done]. by intros [= _ <- _] Hp.
Qed.
#[export] Hint Resolve aligned_push_item : aligned.

Lemma aligned_closures : aligned closePendingToolCalls.
Proof. unfold closePendingToolCalls, toolCallClosure. aligned. Qed.
Lemma aligned_openMessageItem : aligned openMessageItem.
Proof. unfold openMessageItem. aligned. Qed.
#[export] Hint Resolve aligned_closures aligned_openMessageItem : aligned.

(** The part that is open afterwards was the last one added. *)
Lemma aligned_part kind s p :
  Aligned s p →
  wpo (openMessageItemForPartWithEvents kind) (λ t s' p', Aligned s' p' ∧ p' = Some (kind, (t.1.1, t.2))) s p.
Proof.
  intros HA. apply (wp_bind in_order), (wp_gets in_order).
  destruct (last_item (s_items s)) as [[oi part [id b content|id b summary]]|] eqn:Hl; try by apply wpo_fail.
  assert (tail_of (s_items s) = Some (id, part, map fst content)) as Ht by by unfold tail_of; rewrite Hl.
  case_bool_decide as Hk.
  - destruct Hk as [Hp Hk]. apply (wp_ret in_order). split; [done|]. simpl. eapply al_tail; [done|done|done|].
    by rewrite list_lookup_fmap.
  - apply (wp_bind in_order). destruct (_ <? _); [apply (wp_ret in_order)|by apply wpo_fail].
    apply (wp_bind in_order), (wp_modify in_order), (wp_bind in_order). eapply wpo_emit; [done|]. apply (wp_ret in_order). split; [|done].
    split; [|apply HA]. simpl. intros id' part' kinds k. unfold tail_of, last_item in *. rewrite last_lookup in Hl |- *. rewrite length_alter, list_lookup_alter_eq, Hl. simpl.
    intros [= <- <- <-] _. rewrite Nat2Z.id, map_app, lookup_app_r, length_map, Nat.sub_diag by (by rewrite length_map). by intros [= <-].
Qed.

Lemma aligned_open_part kind s p :
  Aligned s p → wpo (openMessageItemForPart kind) (λ t s' p', Aligned s' p' ∧ p' = Some (kind, (t.1.1, t.2))) s p.
Proof.
  intros HA. unfold openMessageItemForPart. apply (wp_bind in_order), (wp_gets in_order), (wp_bind in_order).
  match goal with |- wpo ?m _ _ _ => assert (aligned m) as Hm by aligned end.
  eapply (wp_mono in_order); [by apply Hm|]. intros [] s1 p1 H1. by apply aligned_part.
Qed.

Lemma aligned_append_content kind d : aligned (append_content kind d).
Proof.
  intros s p HA. apply (wp_bind in_order). eapply (wp_mono in_order); [by apply aligned_open_part|].
  intros [[id oi] part] s1 p1 [H1 ->]. apply (wp_bind in_order). eapply wpo_emit.
  { unfold advance. destruct kind; simpl; by rewrite bool_decide_eq_true_2. }
  set (s2 := set_nextSequence _ s1). assert (Aligned s2 (Some (kind, (id, part)))) as H2 by by eapply (Aligned_same s1).
  revert H2. generalize s2. clear s2. intros s2 H2.
  match goal with |- wpo ?m _ _ _ => assert (aligned m) as Hm by (aligned; apply aligned_modify; by destruct kind) end. by apply Hm.
Qed.
#[export] Hint Resolve aligned_append_content : aligned.

Lemma aligned_closeOpenMessageItem : aligned closeOpenMessageItem.
Proof. unfold closeOpenMessageItem, on_trailing. aligned. Qed.
Lemma aligned_closeOpenReasoningItem : aligned closeOpenReasoningItem.
Proof. unfold closeOpenReasoningItem, on_trailing. aligned. Qed.
#[export] Hint Resolve aligned_closeOpenMessageItem aligned_closeOpenReasoningItem : aligned.

Lemma aligned_convertToolCall call : aligned (convertToolCall call).
Proof.
  unfold convertToolCall, resolve_call, wireError, new_call, get_call, absorb_identity, update_call, announce_call, flush_arguments, get_call, update_call.
  aligned.
Qed.
#[export] Hint Resolve aligned_convertToolCall : aligned.

Lemma aligned_open_reasoning : aligned open_reasoning.
Proof. unfold open_reasoning. aligned. Qed.
#[export] Hint Resolve aligned_open_reasoning : aligned.

Lemma aligned_append_reasoning t : aligned (append_reasoning t).
Proof.
  intros s p HA. apply (wp_bind in_order), (wp_gets in_order).
  destruct (last_item (s_items s)) as [[oi part [id b content|id b summary]]|] eqn:Hl; try by apply wpo_fail.
  apply (wp_bind in_order). eapply wpo_emit; [done|]. apply (wp_bind in_order), (wp_modify in_order). apply aligned_quiet; [quietc|].
  eapply (Aligned_same s); [|done]. unfold tail_view. simpl. f_equal. eapply tail_with_item; [by rewrite <- last_lookup; exact Hl|done].
Qed.
#[export] Hint Resolve aligned_append_reasoning : aligned.

Lemma aligned_convert_reasoning t path : aligned (convert_reasoning t path).
Proof. unfold convert_reasoning, once, lose, note. aligned. Qed.
#[export] Hint Resolve aligned_convert_reasoning : aligned.

Lemma aligned_convertDelta d : aligned (convertDelta d).
Proof. unfold convertDelta, wireError. aligned. Qed.
Lemma aligned_finish reason : aligned (finish reason).
Proof. unfold finish, toolCallClosure. aligned. Qed.
Lemma aligned_pin_identity chunk : aligned (pin_identity chunk).
Proof. unfold pin_identity. aligned. Qed.
#[export] Hint Resolve aligned_convertDelta aligned_finish aligned_pin_identity : aligned.

(** What the finish holds back has no part. *)
Abbreviation closing := (preserves traced (λ _ : stream_error, False) (λ _ : chatState, partless_all)).

Lemma closing_emit b : partless b = true → closing (emit b).
Proof.
  intros Hb s tr H. split; [intros ? _ []|]. eexists. split; [done|]. intros _ _. apply Forall_app. split; [done|]. by repeat constructor.
Qed.
Lemma closing_fail {A} e : closing (mfail (A := A) e).
Proof. apply preserves_fail; [apply _|intros []]. Qed.
Lemma closing_require b msg : closing (require b msg).
Proof. destruct b; [apply preserves_ret; apply _|apply closing_fail]. Qed.

Create HintDb closing.

Ltac closing :=
  repeat (intros; first
    [ solve [auto 2 with closing nocore] | preserves_step | apply closing_fail | apply closing_require | solve [apply closing_emit; done]
    | solve [apply preserves_modify; [apply _|done]] | case_match ]).

Lemma closing_close_parts id oi ci parts : closing (close_parts id oi ci parts).
Proof. revert ci. induction parts as [|[k t] parts IH]; intros ci; simpl; closing. apply closing_emit. by destruct k. Qed.
#[export] Hint Resolve closing_close_parts : closing.
Lemma closing_finish reason : closing (finish reason).
Proof. unfold finish, toolCallClosure, close_message, close_reasoning. closing. Qed.

Lemma wpo_finish reason (Q : list event → chatState → option place → Prop) s p :
  Aligned s p → (∀ evs s', partless_all evs → Aligned s' p → Q evs s' p) → wpo (capture (finish reason)) Q s p.
Proof.
  intros HA HQ. pose proof (aligned_finish reason s p HA) as Hw. pose proof (closing_finish reason s [] ltac:(by apply Forall_nil)) as Hc.
  unfold wp, capture in *. destruct (finish reason s) as [[[u|e] evs] s']; [|by split; [intros ? _ []|exists p]].
  split; [intros ? _ []|]. exists p. split; [done|]. intros ? [= <-].
  destruct Hw as (_ & p' & Ho & HA'). destruct Hc as (_ & tr & -> & Hc). specialize (Hc u eq_refl). simpl in Hc.
  apply HQ; [done|]. pose proof (in_order_partless evs p Hc) as Ho'. unfold in_order in *. rewrite Ho' in Ho. injection Ho as <-. by apply (HA' u).
Qed.

Lemma aligned_choice choice : aligned (convert_choice choice).
Proof.
  unfold convert_choice. apply preserves_bind; [apply _|aligned|]. intros []. apply preserves_bind; [apply _|aligned|]. intros [].
  apply preserves_bind; [apply _|aligned|]. intros []. destruct (ch_FinishReason choice) as [reason|]; [|aligned].
  intros s p HA. apply (wp_bind in_order), wpo_finish; [done|]. intros evs s1 He H1.
  apply (wp_bind in_order), (wp_modify in_order), (wp_modify in_order). split; [apply H1|done].
Qed.
#[export] Hint Resolve aligned_choice : aligned.

Lemma aligned_Convert chunk : aligned (Convert chunk).
Proof. intros s p HA. apply (wp_deliver in_order). match goal with |- wpo ?m _ _ _ => assert (aligned m) as Hm by aligned end. by apply Hm. Qed.

Lemma aligned_release : aligned releaseTerminal.
Proof.
  intros s p HA. unfold wp. rewrite releaseTerminal_eq. destruct (s_terminalReleased s); [by split; [intros ? _ []|exists p]|].
  split; [intros ? _ []|]. exists p. split.
  - apply in_order_partless, Forall_app. split; [apply HA|]. constructor; [|done]. unfold final_event. simpl. by destruct (incomplete_reason _).
  - intros _ _. split; [apply HA|by apply Forall_nil].
Qed.
#[export] Hint Resolve aligned_release aligned_Convert : aligned.

Lemma aligned_frame fr : aligned (convert_frame fr).
Proof. destruct fr; simpl; unfold convert_done, FinalizeEOF; aligned. Qed.

(** Every delta of a converted stream belongs to the part added last. *)
Lemma stream_in_order frames x t evs s :
  stream frames (newChatResponsesStreamState x t) = (Ok tt, evs, s) → ∃ p, in_order evs None p.
Proof.
  intros H. assert (aligned (stream frames)) as Hs.
  { clear. induction frames as [|fr frames IH]; simpl; [apply preserves_ret; apply _|].
    apply preserves_bind; [apply _|apply aligned_frame|]. intros []. destruct fr; [done|apply preserves_ret; apply _..]. }
  assert (Aligned (newChatResponsesStreamState x t) None) as HA by by split; [|apply Forall_nil].
  destruct (wp_ok _ _ _ _ _ _ _ _ _ (Hs _ _ HA) H) as (p & Ho & _). by exists p.
Qed.
