(* ===== verification/ToolArgs.v ===== *)
(** * Tool arguments on a stream ([internal/transcode/losses.go], [stream_converters.go])

    The arguments of a tool call are the text of a JSON object.  The Messages converter
    compares the fragments it has seen with a later snapshot: [reconcile] is the
    decision of [reconcileToolArguments], on the members of an object as
    [map[string]json.RawMessage] holds them, that is each with the bytes of its text. *)

From Stdlib Require Import ZArith Lia Bool List Ascii String.
From stdpp Require Import strings gmap list.
From S2P Require Import Prelude GoStd GoStr GoJson Ir.
From S2P Require WireObject ResponsesFsm.

Open Scope string_scope.
Open Scope Z_scope.

(** ** Members with their text *)

Fixpoint skip_space (s : str) : str :=
  match s with
  | c :: s' => if is_json_space c then skip_space s' else s
  | [] => []
  end.

Definition next_lexeme (s : str) : option (lexeme * str) :=
  match skip_space s with c :: s' => lex1 c s' | [] => None end.

(** The text after the value at the front, [depth] brackets deep in it. *)
Fixpoint after_value (fuel : nat) (depth : nat) (s : str) : option str :=
  match fuel with
  | O => None
  | S fuel =>
      match next_lexeme s with
      | Some (LOpen _, r) => after_value fuel (S depth) r
      | Some (LClose _, r) =>
          match depth with
          | O => None
          | S O => Some r
          | S depth => after_value fuel depth r
          end
      | Some (_, r) => match depth with O => Some r | _ => after_value fuel depth r end
      | None => None
      end
  end.

(** The members of an object from the first key, each with the bytes of its value. *)
Fixpoint raw_fields (fuel : nat) (s : str) : list (str * str) :=
  match fuel with
  | O => []
  | S fuel =>
      match next_lexeme s with
      | Some (LStr k, r) =>
          match next_lexeme r with
          | Some (LColon, r) =>
              let v := skip_space r in
              match after_value (length v) 0 v with
              | Some r =>
                  (k, take (length v - length r) v) ::
                  match next_lexeme r with
                  | Some (LComma, r) => raw_fields fuel r
                  | _ => []
                  end
              | None => []
              end
          | _ => []
          end
      | _ => []
      end
  end.

(** [decodeJSONObject], with the raw members; the last of equal keys stays. *)
Definition raw_object (raw : str) : option (gmap str str) :=
  match decodeJSONObject raw with
  | Some _ =>
      match next_lexeme (TrimSpace raw) with
      | Some (LOpen true, r) => Some (list_to_map (rev (raw_fields (length r) r)))
      | _ => Some ∅
      end
  | None => None
  end.

Definition jsonObjectsEqual (a b : gmap str str) : bool :=
  (size a =? size b)%nat && bool_decide (map_Forall (λ key value, b !! key = Some value) a).

(** [validateFinalToolInput]: whether the text is a JSON object. *)
Definition validateFinalToolInput (arguments : string) : bool :=
  match raw_object (lit arguments) with Some _ => true | None => false end.

(** ** Reconciliation *)

(** [strings.HasPrefix] with the rest. *)
Fixpoint cut_prefix (prefix s : string) : option string :=
  match prefix, s with
  | EmptyString, _ => Some s
  | String a prefix, String b s => if Ascii.eqb a b then cut_prefix prefix s else None
  | _, _ => None
  end.

Inductive reconcile_error := NotAnObject | Mismatch.

(** The arguments with the suffix that was never streamed. *)
Definition reconcile (accumulated snapshot : string) : result reconcile_error (string * string) :=
  match raw_object (lit snapshot) with
  | None => Err NotAnObject
  | Some doneArgs =>
      match cut_prefix accumulated snapshot with
      | Some suffix => Ok (snapshot, suffix)
      | None =>
          match raw_object (lit accumulated) with
          | Some accArgs => if jsonObjectsEqual accArgs doneArgs then Ok (accumulated, "") else Err Mismatch
          | None => Err Mismatch
          end
      end
  end.

(** Both texts are the same object. *)
Definition same_object (a b : string) : Prop :=
  ∃ m, raw_object (lit a) = Some m ∧ raw_object (lit b) = Some m.

(** ** Lemmas *)

Lemma jsonObjectsEqual_spec a b : jsonObjectsEqual a b = true ↔ a = b.
Proof.
  unfold jsonObjectsEqual. rewrite andb_true_iff, Nat.eqb_eq, bool_decide_eq_true. split.
  - intros [Hs Hf]. apply map_subseteq_size_eq; [|lia]. apply map_subseteq_spec. intros k v Hk. by apply Hf in Hk.
  - intros ->. split; [done|]. by intros k v Hk.
Qed.

Lemma cut_prefix_some p s r : cut_prefix p s = Some r ↔ s = p ++ r.
Proof.
  revert s. induction p as [|a p IH]; intros s; simpl.
  - change ("" ++ r) with r. split; [by intros [= ->]|by intros ->].
  - change (String a p ++ r) with (String a (p ++ r)). destruct s as [|b s]; [done|].
    destruct (Ascii.eqb_spec a b) as [->|Hne].
    + rewrite IH. split; [by intros ->|by intros [= ->]].
    + split; [done|by intros [= ? ?]].
Qed.

Lemma same_object_refl a : is_Some (raw_object (lit a)) → same_object a a.
Proof. intros [m Hm]. by exists m. Qed.

(** What reconciling says of the three texts. *)
Lemma reconcile_ok accumulated snapshot arguments suffix :
  reconcile accumulated snapshot = Ok (arguments, suffix) →
  arguments = accumulated ++ suffix ∧ same_object arguments snapshot.
Proof.
  unfold reconcile. destruct (raw_object (lit snapshot)) as [d|] eqn:Ed; [|done].
  destruct (cut_prefix accumulated snapshot) as [r|] eqn:Ec.
  - intros [= <- <-]. apply cut_prefix_some in Ec. split; [done|]. by exists d.
  - destruct (raw_object (lit accumulated)) as [a|] eqn:Ea; [|done].
    destruct (jsonObjectsEqual a d) eqn:Ee; [|done]. intros [= <- <-]. apply jsonObjectsEqual_spec in Ee as ->.
    split; [by rewrite ResponsesFsm.append_empty|]. by exists d.
Qed.

Lemma raw_object_some raw : is_Some (raw_object raw) ↔ is_Some (decodeJSONObject raw).
Proof.
  unfold raw_object. destruct (decodeJSONObject raw); [|by split; intros []].
  split; [by eexists|]. intros _. repeat case_match; by eexists.
Qed.

Lemma same_object_valid a b : same_object a b → validateFinalToolInput a = true.
Proof. intros (m & Hm & _). unfold validateFinalToolInput. by rewrite Hm. Qed.

(** Spacing and order of the members make no difference, their text does. *)
Definition quoted (s : string) : string := String.string_of_list_ascii (WireObject.quoted s).

Example reconcile_prefix : reconcile (quoted "{'a':") (quoted "{'a':1}") = Ok (quoted "{'a':1}", "1}").
Proof. vm_compute. reflexivity. Qed.

Example reconcile_reordered :
  reconcile (quoted "{'a': 1, 'b':[2,{}]}") (quoted "{ 'b' :[2,{}],'a':1 }") = Ok (quoted "{'a': 1, 'b':[2,{}]}", "").
Proof. vm_compute. reflexivity. Qed.

Example reconcile_nested_spacing : reconcile (quoted "{'a':[1, 2]}") (quoted "{'a':[1,2]}") = Err Mismatch.
Proof. vm_compute. reflexivity. Qed.

Example reconcile_text : reconcile "" "null" = Err NotAnObject.
Proof. vm_compute. reflexivity. Qed.
