(* ===== verification/MsgStream.v ===== *)
(** * Converting a Responses stream to Messages ([internal/transcode/stream_converters.go], [stream_adapter.go])

    [anthropicResponsesStreamState]: the machine that turns the typed events of a
    Responses stream into the events of a Messages stream.  A method is a computation
    ([Emitter.M]) over the machine.  The blocks of tool calls, which the code shares by
    pointer between a map and a queue, are named by the identifier of their item.  The
    values interpolated in error texts are not rendered; a platform [int] has 64 bits. *)

From Stdlib Require Import ZArith QArith Qcanon Lia Bool List Ascii String.
From stdpp Require Import strings gmap list.
From S2P Require Import Prelude GoStd GoStr Budget Losses Usage Emitter ToolArgs.
From S2P Require ResponsesFsm.

Open Scope string_scope.
Open Scope Z_scope.
Open Scope stream_scope.

(** ** Upstream events *)

(** The parts of a message. *)
Inductive part_kind := KText | KRefusal.

#[export] Instance part_kind_eq_dec : EqDecision part_kind.
Proof. solve_decision. Defined.

(** [OtherItem]: an item of a type that never appears on a stream. *)
Inductive output_item :=
| MessageItem (id phase : string) (content : list (part_kind * string))
| FunctionCallItem (id callID name arguments status : string)
| ReasoningItem (id : string)
| OtherItem (typeName : string).

(** The controls are presence; the error is its message and code. *)
Record response := {
  re_ID : string;
  re_Model : string;
  re_CreatedAt : Qc;
  re_Status : string;
  re_Output : list output_item;
  re_Usage : option ResponsesUsage;
  re_IncompleteReason : option string;
  re_Error : option (string * string);
  re_Background : bool;
  re_MaxToolCalls : bool;
  re_Prompt : bool;
  re_PromptCacheKey : bool;
  re_SafetyIdentifier : bool;
}.

Inductive upstream_body :=
| Created (e : response)
| InProgress (e : response)
| OutputItemAdded (outputIndex : Z) (item : output_item)
| OutputItemDone (outputIndex : Z) (item : output_item)
| ContentPartAdded (itemID : string) (outputIndex contentIndex : Z) (part : part_kind)
| ContentPartDone (itemID : string) (outputIndex contentIndex : Z) (part : part_kind)
| TextDelta (itemID : string) (outputIndex contentIndex : Z) (delta : string)
| TextDone (itemID : string) (outputIndex contentIndex : Z) (text : string)
| RefusalDelta (itemID : string) (outputIndex contentIndex : Z) (delta : string)
| RefusalDone (itemID : string) (outputIndex contentIndex : Z) (refusal : string)
| FunctionArgumentsDelta (itemID : string) (outputIndex : Z) (delta : string)
| FunctionArgumentsDone (itemID : string) (outputIndex : Z) (arguments : string)
| ReasoningSummaryPartAdded (itemID : string) (outputIndex : Z)
| ReasoningSummaryTextDelta (itemID : string) (outputIndex : Z) (delta : string)
| ReasoningSummaryTextDone (itemID : string) (outputIndex : Z)
| ReasoningSummaryPartDone (itemID : string) (outputIndex : Z)
| Completed (e : response)
| Incomplete (e : response)
| Failed (e : response)
| StreamError (code message : string).

Record upstream := { Sequence : Z; up_body : upstream_body }.

(** What the validator reads of an event. *)
Definition fsm_item (item : output_item) : ResponsesFsm.OutputItem :=
  match item with
  | MessageItem id _ _ => ResponsesFsm.ItemMessage id
  | FunctionCallItem id _ _ _ _ => ResponsesFsm.ItemFunctionCall id
  | ReasoningItem id => ResponsesFsm.ItemReasoning id
  | OtherItem t => ResponsesFsm.ItemOther t
  end.

Definition fsm_part (k : part_kind) : ResponsesFsm.ContentPart :=
  match k with KText => ResponsesFsm.PartOutputText | KRefusal => ResponsesFsm.PartRefusal end.

Definition fsm_response (e : response) : ResponsesFsm.ResponseEnvelope :=
  {| ResponsesFsm.env_ID := re_ID e; ResponsesFsm.env_Model := re_Model e; ResponsesFsm.env_CreatedAt := re_CreatedAt e;
     ResponsesFsm.env_Status := re_Status e |}.

Definition fsm_body (b : upstream_body) : ResponsesFsm.event_body :=
  match b with
  | Created e => ResponsesFsm.Created (fsm_response e)
  | InProgress _ => ResponsesFsm.InProgress
  | OutputItemAdded i it => ResponsesFsm.OutputItemAdded i (fsm_item it)
  | OutputItemDone i it => ResponsesFsm.OutputItemDone i (fsm_item it)
  | ContentPartAdded id i ci k => ResponsesFsm.ContentPartAdded id i ci (fsm_part k)
  | ContentPartDone id i ci k => ResponsesFsm.ContentPartDone id i ci (fsm_part k)
  | TextDelta id i ci d => ResponsesFsm.TextDelta id i ci d
  | TextDone id i ci t => ResponsesFsm.TextDone id i ci t
  | RefusalDelta id i ci d => ResponsesFsm.RefusalDelta id i ci d
  | RefusalDone id i ci t => ResponsesFsm.RefusalDone id i ci t
  | FunctionArgumentsDelta id i d => ResponsesFsm.ArgumentsDelta id i d
  | FunctionArgumentsDone id i a => ResponsesFsm.ArgumentsDone id i a
  | ReasoningSummaryPartAdded id i => ResponsesFsm.ReasoningPartAdded id i
  | ReasoningSummaryTextDelta id i d => ResponsesFsm.ReasoningTextDelta id i d
  | ReasoningSummaryTextDone id i => ResponsesFsm.ReasoningTextDone id i
  | ReasoningSummaryPartDone id i => ResponsesFsm.ReasoningPartDone id i
  | Completed e => ResponsesFsm.Completed (fsm_response e)
  | Incomplete e => ResponsesFsm.Incomplete (fsm_response e)
  | Failed e => ResponsesFsm.Failed (fsm_response e)
  | StreamError _ _ => ResponsesFsm.ErrorEvent
  end.

Definition fsm_event (ev : upstream) : ResponsesFsm.ResponsesSSEEvent :=
  {| ResponsesFsm.Sequence := Sequence ev; ResponsesFsm.body := fsm_body (up_body ev) |}.

Definition responsesOutputItemID (item : output_item) : string := ResponsesFsm.responsesOutputItemID (fsm_item item).

Definition itemTypeName (item : output_item) : string := ResponsesFsm.itemTypeName (fsm_item item).

(** ** Downstream events *)

Inductive content_block :=
| TextBlock
| ToolUseBlock (id name : string)
| ThinkingBlock.

Inductive block_delta :=
| TextD (text : string)
| InputJSOND (partial : string)
| ThinkingD (thinking : string)
| SignatureD (signature : string).

(** [MessageStart] carries a pointer to the machine's message. *)
Inductive mevent :=
| MessageStart
| ContentBlockStart (index : Z) (block : content_block)
| ContentBlockDelta (index : Z) (delta : block_delta)
| ContentBlockStop (index : Z)
| MessageDelta (stop : string) (usage : option AnthropicUsage)
| MessageStop
| ErrorEvent (errorType message : string).

(** ** State *)

Record pendingToolBlock := {
  tb_blockIndex : Z;
  tb_outputIndex : Z;
  tb_itemID : string;
  tb_callID : string;
  tb_name : string;
  tb_arguments : string;
  tb_started : bool;
  tb_deferred : bool;
  tb_done : bool;
  tb_doneSuffix : string;
}.

Record closedToolCall := { cc_outputIndex : Z; cc_callID : string; cc_name : string; cc_arguments : string }.

Abbreviation part_key := (string * Z)%type.

(** What does not change. *)
Record msg_exchange := { mx_policy : LossPolicy; mx_ProviderReasoningThinking : bool; mx_responseID : string; mx_model : string }.

(** The fields of the message that change. *)
Record message := { msg_StopReason : option string; msg_Usage : option AnthropicUsage }.

Record msgState := {
  m_exchange : msg_exchange;
  m_messageSent : bool;
  m_blockIndex : Z;
  m_lastSequence : Z;
  m_upstream : string * string * Qc;
  m_addedItems : gmap string (Z * string);
  m_doneItems : gset string;
  m_partsSeen : gmap part_key part_kind;
  m_partCounts : gmap string Z;
  m_textBufs : gmap part_key string;
  m_refusalBufs : gmap part_key string;
  m_pendingToolStart : gmap string pendingToolBlock;
  m_deferredTools : list string;
  m_bufferedToolFragments : gmap string (list string);
  m_closedToolCalls : gmap string closedToolCall;
  m_partBlocks : gmap part_key Z;
  m_budget : streamBudget;
  m_fsm : ResponsesFsm.responsesStreamFSM;
  m_sawTerminal : bool;
  m_sawErrorEvent : bool;
  m_sawToolUse : bool;
  m_reasoningLossRecorded : bool;
  m_usageComponentsLossRecorded : bool;
  m_usageClampNotes : usageClampNotes;
  m_totalAccumulated : Z;
  m_reasoningBlockIndex : option Z;
  m_phaseGated : gset string;
  m_controlsGated : bool;
  m_usage : option AnthropicUsage;
  m_report : ConversionReport;
  m_message : message;
}.

Definition eta (s : msgState) : msgState :=
  {| m_exchange := m_exchange s; m_messageSent := m_messageSent s; m_blockIndex := m_blockIndex s; m_lastSequence := m_lastSequence s;
     m_upstream := m_upstream s; m_addedItems := m_addedItems s; m_doneItems := m_doneItems s; m_partsSeen := m_partsSeen s;
     m_partCounts := m_partCounts s; m_textBufs := m_textBufs s; m_refusalBufs := m_refusalBufs s; m_pendingToolStart := m_pendingToolStart s;
     m_deferredTools := m_deferredTools s; m_bufferedToolFragments := m_bufferedToolFragments s; m_closedToolCalls := m_closedToolCalls s; m_partBlocks := m_partBlocks s;
     m_budget := m_budget s; m_fsm := m_fsm s; m_sawTerminal := m_sawTerminal s; m_sawErrorEvent := m_sawErrorEvent s;
     m_sawToolUse := m_sawToolUse s; m_reasoningLossRecorded := m_reasoningLossRecorded s; m_usageComponentsLossRecorded := m_usageComponentsLossRecorded s; m_usageClampNotes := m_usageClampNotes s;
     m_totalAccumulated := m_totalAccumulated s; m_reasoningBlockIndex := m_reasoningBlockIndex s; m_phaseGated := m_phaseGated s; m_controlsGated := m_controlsGated s;
     m_usage := m_usage s; m_report := m_report s; m_message := m_message s |}.

Definition set_messageSent (v : bool) (s : msgState) : msgState := ltac:(set_field m_messageSent v s eta).
Definition set_blockIndex (v : Z) (s : msgState) : msgState := ltac:(set_field m_blockIndex v s eta).
Definition set_lastSequence (v : Z) (s : msgState) : msgState := ltac:(set_field m_lastSequence v s eta).
Definition set_upstream (v : string * string * Qc) (s : msgState) : msgState := ltac:(set_field m_upstream v s eta).
Definition set_addedItems (v : gmap string (Z * string)) (s : msgState) : msgState := ltac:(set_field m_addedItems v s eta).
Definition set_doneItems (v : gset string) (s : msgState) : msgState := ltac:(set_field m_doneItems v s eta).
Definition set_partsSeen (v : gmap part_key part_kind) (s : msgState) : msgState := ltac:(set_field m_partsSeen v s eta).
Definition set_partCounts (v : gmap string Z) (s : msgState) : msgState := ltac:(set_field m_partCounts v s eta).
Definition set_textBufs (v : gmap part_key string) (s : msgState) : msgState := ltac:(set_field m_textBufs v s eta).
Definition set_refusalBufs (v : gmap part_key string) (s : msgState) : msgState := ltac:(set_field m_refusalBufs v s eta).
Definition set_pendingToolStart (v : gmap string pendingToolBlock) (s : msgState) : msgState := ltac:(set_field m_pendingToolStart v s eta).
Definition set_deferredTools (v : list string) (s : msgState) : msgState := ltac:(set_field m_deferredTools v s eta).
Definition set_bufferedToolFragments (v : gmap string (list string)) (s : msgState) : msgState := ltac:(set_field m_bufferedToolFragments v s eta).
Definition set_closedToolCalls (v : gmap string closedToolCall) (s : msgState) : msgState := ltac:(set_field m_closedToolCalls v s eta).
Definition set_partBlocks (v : gmap part_key Z) (s : msgState) : msgState := ltac:(set_field m_partBlocks v s eta).
Definition set_budget (v : streamBudget) (s : msgState) : msgState := ltac:(set_field m_budget v s eta).
Definition set_fsm (v : ResponsesFsm.responsesStreamFSM) (s : msgState) : msgState := ltac:(set_field m_fsm v s eta).
Definition set_sawTerminal (v : bool) (s : msgState) : msgState := ltac:(set_field m_sawTerminal v s eta).
Definition set_sawErrorEvent (v : bool) (s : msgState) : msgState := ltac:(set_field m_sawErrorEvent v s eta).
Definition set_sawToolUse (v : bool) (s : msgState) : msgState := ltac:(set_field m_sawToolUse v s eta).
Definition set_reasoningLossRecorded (v : bool) (s : msgState) : msgState := ltac:(set_field m_reasoningLossRecorded v s eta).
Definition set_usageComponentsLossRecorded (v : bool) (s : msgState) : msgState := ltac:(set_field m_usageComponentsLossRecorded v s eta).
Definition set_usageClampNotes (v : usageClampNotes) (s : msgState) : msgState := ltac:(set_field m_usageClampNotes v s eta).
Definition set_totalAccumulated (v : Z) (s : msgState) : msgState := ltac:(set_field m_totalAccumulated v s eta).
Definition set_reasoningBlockIndex (v : option Z) (s : msgState) : msgState := ltac:(set_field m_reasoningBlockIndex v s eta).
Definition set_phaseGated (v : gset string) (s : msgState) : msgState := ltac:(set_field m_phaseGated v s eta).
Definition set_controlsGated (v : bool) (s : msgState) : msgState := ltac:(set_field m_controlsGated v s eta).
Definition set_usage (v : option AnthropicUsage) (s : msgState) : msgState := ltac:(set_field m_usage v s eta).
Definition set_report (v : ConversionReport) (s : msgState) : msgState := ltac:(set_field m_report v s eta).
Definition set_message (v : message) (s : msgState) : msgState := ltac:(set_field m_message v s eta).

Definition newAnthropicResponsesStreamState (x : msg_exchange) : msgState :=
  {| m_exchange := x; m_messageSent := false; m_blockIndex := 0; m_lastSequence := -1;
     m_upstream := ("", "", 0%Qc); m_addedItems := ∅; m_doneItems := ∅; m_partsSeen := ∅;
     m_partCounts := ∅; m_textBufs := ∅; m_refusalBufs := ∅; m_pendingToolStart := ∅;
     m_deferredTools := []; m_bufferedToolFragments := ∅; m_closedToolCalls := ∅; m_partBlocks := ∅;
     m_budget := newStreamBudget; m_fsm := ResponsesFsm.newResponsesStreamFSM; m_sawTerminal := false; m_sawErrorEvent := false;
     m_sawToolUse := false; m_reasoningLossRecorded := false; m_usageComponentsLossRecorded := false; m_usageClampNotes := no_notes;
     m_totalAccumulated := 0; m_reasoningBlockIndex := None; m_phaseGated := ∅; m_controlsGated := false;
     m_usage := None; m_report := fresh_report; m_message := {| msg_StopReason := None; msg_Usage := None |} |}.

(** ** Computations *)

(** A violation of the lifecycle, corrupt upstream data, an exhausted budget or bound, an
    error of the conversion itself, an event after the terminal, a stream that ended
    without one, and a nil or missing access. *)
Inductive msg_error :=
| Violation (v : ResponsesFsm.violation)
| Corrupt (msg : string)
| OverBudget
| LocalError (e : terr)
| AfterTerminal
| Truncated
| Panic.

Abbreviation M := (Emitter.M msgState mevent msg_error).

Definition require (b : bool) (e : msg_error) : M unit := if b then mret tt else mfail e.

Definition emit (e : mevent) : M unit := λ s, (Ok tt, [e], s).

Definition on_report {A} (c : Conv A) : M A :=
  λ s, let '(res, r) := c (m_report s) in
       (match res with Ok a => Ok a | Err e => Err (LocalError e) end, [], set_report r s).

Definition charge (add : streamBudget → option streamBudget) : M unit :=
  λ s, match add (m_budget s) with
       | Some b => (Ok tt, [], set_budget b s)
       | None => (Err OverBudget, [], s)
       end.

Definition validate (ev : upstream) : M unit :=
  λ s, match ResponsesFsm.ValidateEvent (fsm_event ev) (m_fsm s) with
       | (Ok _, f) => (Ok tt, [], set_fsm f s)
       | (Err v, f) => (Err (Violation v), [], set_fsm f s)
       end.

Definition lose (feature : Feature) (path detail : string) : M unit :=
  policy <== gets (λ s, mx_policy (m_exchange s)) ;;
  on_report (Lose policy feature path detail).

(** [m] the first time only; the flag is set before. *)
Definition once (flag : msgState → bool) (set : bool → msgState → msgState) (m : M unit) : M unit :=
  recorded <== gets flag ;;
  mwhen (negb recorded) (modify (set true) ;;= m).

Definition bytes (t : string) : Z := Z.of_nat (String.length t).

(** The exchange total. *)
Definition chargeIdentity (n : Z) : M unit :=
  modify (λ s, set_totalAccumulated (add64 (m_totalAccumulated s) n) s) ;;=
  total <== gets m_totalAccumulated ;;
  require (total <=? maxStreamTotalAccumulatedBytes) OverBudget.

Definition checkAccumulated (accumulated : string) (added : Z) : M unit :=
  require (bytes accumulated <=? maxStreamAccumulatedBytes) OverBudget ;;=
  chargeIdentity added.

(** ** Losses *)

Definition loseUnknownUsageComponentsOnce (usage : ResponsesUsage) : M unit :=
  once m_usageComponentsLossRecorded set_usageComponentsLossRecorded
    (mwhen (negb (known (CachedTokens usage)))
       (lose "usage_cache_read_unknown" "usage"
          "the upstream response did not provide cache_read_input_tokens; the required Messages usage breakdown cannot be reproduced") ;;=
     mwhen (negb (known (CreatedCacheTokens usage)))
       (lose "usage_cache_write_unknown" "usage"
          "the upstream response cannot provide cache_creation_input_tokens; the required Messages usage breakdown cannot be reproduced") ;;=
     mwhen (negb (known (ReasoningTokens usage)))
       (lose "usage_reasoning_unknown" "usage"
          "the upstream response did not provide output_tokens_details.thinking_tokens; the required Messages usage breakdown cannot be reproduced")).

Definition controls_present (e : response) : list string :=
  map fst (filter (λ c, c.2 = true)
    [("background", re_Background e); ("max_tool_calls", re_MaxToolCalls e); ("prompt", re_Prompt e);
     ("prompt_cache_key", re_PromptCacheKey e); ("safety_identifier", re_SafetyIdentifier e)]).

Definition loseControlsOnce (e : response) : M unit :=
  gated <== gets m_controlsGated ;;
  if gated then mret tt
  else
    mwhen (negb (bool_decide (controls_present e = [])))
      (modify (set_controlsGated true) ;;=
       lose "responses_controls" "response"
         ("the Responses envelope controls " ++ String.concat ", " (controls_present e) ++ " cannot be reproduced in an Anthropic stream")).

Definition losePhaseOnce (id phase : string) : M unit :=
  gated <== gets m_phaseGated ;;
  mwhen (negb (String.eqb phase "") && negb (bool_decide (id ∈ gated)))
    (modify (set_phaseGated ({[id]} ∪ gated)) ;;=
     lose "output_phase" "output[].phase" "the output message phase cannot be reproduced in an Anthropic stream").

Definition gateEnvelopePhases (e : response) : M unit :=
  for_each (λ _ item, match item with MessageItem id phase _ => losePhaseOnce id phase | _ => mret tt end) 0 (re_Output e).

Definition loseReasoningOnce : M unit :=
  once m_reasoningLossRecorded set_reasoningLossRecorded
    (lose "reasoning_summary" "stream[].reasoning" "OpenAI reasoning cannot be reproduced in an Anthropic stream").

(** ** Usage *)

Definition responsesUsagePresence (usage : ResponsesUsage) : usagePresence :=
  {| has_input := true; has_output := true; has_total := true; has_cacheRead := known (CachedTokens usage);
     has_cacheWrite := known (CreatedCacheTokens usage); has_reasoning := known (ReasoningTokens usage) |}.

Definition zero_usage : AnthropicUsage :=
  {| an_Input := 0; an_CacheCreation := 0; an_CacheRead := 0; an_Output := 0; an_Thinking := 0 |}.

(** The conversion of an envelope's usage, with its notes and losses. *)
Definition absorb_usage (usage : ResponsesUsage) : M AnthropicUsage :=
  let '(converted, clamp) := responsesUsageToAnthropicUsage usage (responsesUsagePresence usage) in
  notes <== gets m_usageClampNotes ;;
  notes <== on_report (note_clamp notes "usage" clamp) ;;
  modify (set_usageClampNotes notes) ;;=
  loseUnknownUsageComponentsOnce usage ;;=
  mret converted.

Definition set_message_usage (u : AnthropicUsage) (s : msgState) : msgState :=
  set_message {| msg_StopReason := msg_StopReason (m_message s); msg_Usage := Some u |} s.

(** ** Envelopes *)

Definition identity_of (e : response) : string * string * Qc := (re_ID e, re_Model e, re_CreatedAt e).

Definition messageStart (e : response) : M unit :=
  sent <== gets m_messageSent ;;
  require (negb sent) (Corrupt "duplicate message_start") ;;=
  modify (set_messageSent true) ;;=
  modify (set_upstream (identity_of e)) ;;=
  loseControlsOnce e ;;=
  modify (set_message {| msg_StopReason := None; msg_Usage := None |}) ;;=
  match re_Usage e with
  | Some usage =>
      converted <== absorb_usage usage ;;
      modify (set_message_usage converted) ;;=
      modify (set_usage (Some converted))
  | None =>
      lose "usage_unknown" "message_start.usage"
        "the source cannot provide early token usage; the required message_start usage is a known loss" ;;=
      modify (set_message_usage zero_usage)
  end ;;=
  emit MessageStart.

Definition checkEnvelopeIdentity (e : response) : M unit :=
  upstream <== gets m_upstream ;;
  require (bool_decide (identity_of e = upstream)) (Corrupt "responses stream response identity drifted").

(** ** Tool blocks *)

Definition set_started (p : pendingToolBlock) : pendingToolBlock :=
  {| tb_blockIndex := tb_blockIndex p; tb_outputIndex := tb_outputIndex p; tb_itemID := tb_itemID p; tb_callID := tb_callID p;
     tb_name := tb_name p; tb_arguments := tb_arguments p; tb_started := true; tb_deferred := false; tb_done := tb_done p;
     tb_doneSuffix := tb_doneSuffix p |}.
Definition set_block_deferred (p : pendingToolBlock) : pendingToolBlock :=
  {| tb_blockIndex := tb_blockIndex p; tb_outputIndex := tb_outputIndex p; tb_itemID := tb_itemID p; tb_callID := tb_callID p;
     tb_name := tb_name p; tb_arguments := tb_arguments p; tb_started := tb_started p; tb_deferred := true; tb_done := tb_done p;
     tb_doneSuffix := tb_doneSuffix p |}.
Definition set_arguments (a : string) (p : pendingToolBlock) : pendingToolBlock :=
  {| tb_blockIndex := tb_blockIndex p; tb_outputIndex := tb_outputIndex p; tb_itemID := tb_itemID p; tb_callID := tb_callID p;
     tb_name := tb_name p; tb_arguments := a; tb_started := tb_started p; tb_deferred := tb_deferred p; tb_done := tb_done p;
     tb_doneSuffix := tb_doneSuffix p |}.
(** More held bytes, and whether the item is done. *)
Definition hold (done : bool) (suffix : string) (p : pendingToolBlock) : pendingToolBlock :=
  {| tb_blockIndex := tb_blockIndex p; tb_outputIndex := tb_outputIndex p; tb_itemID := tb_itemID p; tb_callID := tb_callID p;
     tb_name := tb_name p; tb_arguments := tb_arguments p; tb_started := tb_started p; tb_deferred := tb_deferred p;
     tb_done := tb_done p || done; tb_doneSuffix := tb_doneSuffix p ++ suffix |}.

(** The block a pointer names. *)
Definition block (id : string) : M pendingToolBlock :=
  blocks <== gets m_pendingToolStart ;;
  or_fail (blocks !! id) Panic.

Definition update_block (id : string) (f : pendingToolBlock → pendingToolBlock) : M unit :=
  modify (λ s, set_pendingToolStart (alter f id (m_pendingToolStart s)) s).

Definition toolBlockStartEvent (p : pendingToolBlock) : mevent :=
  ContentBlockStart (tb_blockIndex p) (ToolUseBlock (tb_callID p) (tb_name p)).

Definition anyContentBlockOpen (s : msgState) : bool :=
  negb (bool_decide (m_partBlocks s = ∅)) || known (m_reasoningBlockIndex s) ||
  negb (bool_decide (map_Forall (λ _ p, tb_started p = false) (m_pendingToolStart s))).

Definition deferToolBlock (id : string) : M unit :=
  p <== block id ;;
  mwhen (negb (tb_deferred p))
    (charge (addStateEntries 1) ;;=
     update_block id set_block_deferred ;;=
     modify (λ s, set_deferredTools (m_deferredTools s ++ [id])%list s)).

(** Direct starts leave the deferred flag alone, as a block that is not deferred. *)
Definition start_directly (p : pendingToolBlock) : pendingToolBlock :=
  {| tb_blockIndex := tb_blockIndex p; tb_outputIndex := tb_outputIndex p; tb_itemID := tb_itemID p; tb_callID := tb_callID p;
     tb_name := tb_name p; tb_arguments := tb_arguments p; tb_started := true; tb_deferred := tb_deferred p; tb_done := tb_done p;
     tb_doneSuffix := tb_doneSuffix p |}.

Definition maybeStartToolBlock (id : string) : M unit :=
  p <== block id ;;
  if tb_started p || String.eqb (tb_callID p) "" || String.eqb (tb_name p) "" then mret tt
  else
    open <== gets anyContentBlockOpen ;;
    if open then deferToolBlock id
    else
      update_block id start_directly ;;=
      modify (set_sawToolUse true) ;;=
      emit (toolBlockStartEvent p).

Definition emit_input (index : Z) (partial : string) : M unit := emit (ContentBlockDelta index (InputJSOND partial)).

Definition nonblank (t : string) : bool := negb (String.eqb t "").

(** The block is stopped and the call is recorded as closed. *)
Definition close_block (id : string) (p : pendingToolBlock) (arguments : string) : M unit :=
  emit (ContentBlockStop (tb_blockIndex p)) ;;=
  modify (λ s, set_pendingToolStart (delete id (m_pendingToolStart s)) s) ;;=
  modify (λ s, set_closedToolCalls
    (<[id := {| cc_outputIndex := tb_outputIndex p; cc_callID := tb_callID p; cc_name := tb_name p; cc_arguments := arguments |}]>
       (m_closedToolCalls s)) s) ;;=
  modify (λ s, set_doneItems ({[id]} ∪ m_doneItems s) s).

(** The next deferred block starts; whether it also stopped. *)
Definition start_deferred (id : string) : M bool :=
  p <== block id ;;
  update_block id set_started ;;=
  modify (set_sawToolUse true) ;;=
  emit (toolBlockStartEvent p) ;;=
  fragments <== gets (λ s, default [] (m_bufferedToolFragments s !! id)) ;;
  for_each (λ _, emit_input (tb_blockIndex p)) 0 fragments ;;=
  modify (λ s, set_bufferedToolFragments (delete id (m_bufferedToolFragments s)) s) ;;=
  mwhen (nonblank (tb_doneSuffix p)) (emit_input (tb_blockIndex p) (tb_doneSuffix p)) ;;=
  mwhen (tb_done p) (close_block id p (if String.eqb (tb_arguments p) "" then "{}" else tb_arguments p)) ;;=
  mret (tb_done p).

(** One block of the queue per unit of fuel. *)
Fixpoint drain (fuel : nat) : M unit :=
  match fuel with
  | O => mret tt
  | S fuel =>
      queue <== gets m_deferredTools ;;
      open <== gets anyContentBlockOpen ;;
      match queue with
      | id :: queue =>
          if open then mret tt
          else
            modify (set_deferredTools queue) ;;=
            stopped <== start_deferred id ;;
            if (stopped : bool) then drain fuel else mret tt
      | [] => mret tt
      end
  end.

Definition drainDeferredTools : M unit :=
  queue <== gets m_deferredTools ;;
  drain (length queue).

(** ** Items *)

Definition accumulated (k : part_kind) (key : part_key) (s : msgState) : string :=
  default "" (match k with KText => m_textBufs s | KRefusal => m_refusalBufs s end !! key).

(** A snapshot's content is what was observed of the item. *)
Definition check_content (id : string) (content : list (part_kind * string)) : M unit :=
  for_each (λ i part,
    let key := (id, Z.of_nat i) in
    seen <== gets (λ s, m_partsSeen s !! key) ;;
    match seen with
    | None => mfail (Corrupt "message part was never opened")
    | Some kind =>
        require (bool_decide (part.1 = kind)) (Corrupt "message part type differs") ;;=
        value <== gets (accumulated part.1 key) ;;
        require (String.eqb value part.2) (Corrupt "message part does not match the accumulated value")
    end) 0 content ;;=
  count <== gets (λ s, default 0 (m_partCounts s !! id)) ;;
  require (Z.of_nat (length content) =? count) (Corrupt "message content count does not match the observed parts").

Definition mark_done (id : string) : M unit := modify (λ s, set_doneItems ({[id]} ∪ m_doneItems s) s).

Definition outputItemAdded (outputIndex : Z) (item : output_item) : M unit :=
  let itemID := responsesOutputItemID item in
  added <== gets m_addedItems ;;
  require (bool_decide (added !! itemID = None)) (Corrupt "duplicate output item") ;;=
  charge addItem ;;=
  charge (addStateEntries 1) ;;=
  modify (set_addedItems (<[itemID := (outputIndex, itemTypeName item)]> added)) ;;=
  match item with
  | MessageItem id phase _ => losePhaseOnce id phase
  | ReasoningItem _ =>
      x <== gets m_exchange ;;
      mwhen (negb (mx_ProviderReasoningThinking x)) loseReasoningOnce
  | FunctionCallItem id callID name _ _ =>
      charge addToolCall ;;=
      charge (addStateEntries 1) ;;=
      chargeIdentity (bytes callID + bytes name) ;;=
      index <== gets m_blockIndex ;;
      modify (set_blockIndex (index + 1)) ;;=
      modify (λ s, set_pendingToolStart
        (<[id := {| tb_blockIndex := index; tb_outputIndex := outputIndex; tb_itemID := id; tb_callID := callID; tb_name := name;
                    tb_arguments := ""; tb_started := false; tb_deferred := false; tb_done := false; tb_doneSuffix := "" |}]>
           (m_pendingToolStart s)) s) ;;=
      maybeStartToolBlock id
  | OtherItem t => mfail (LocalError (UnsupportedFeatureError "responses" "stream[].item.type" t))
  end.

Definition unrepresentable_input : msg_error :=
  LocalError (UnrepresentableError "anthropic" "content_block.input" "final arguments are not a JSON object").

Definition reconcileToolArguments (id snapshot : string) : M (string * string) :=
  p <== block id ;;
  match reconcile (tb_arguments p) snapshot with
  | Err NotAnObject => mfail unrepresentable_input
  | Err Mismatch => mfail (Corrupt "final arguments do not match the accumulated argument deltas")
  | Ok (arguments, suffix) =>
      mwhen (known (cut_prefix (tb_arguments p) snapshot))
        (chargeIdentity (bytes suffix) ;;= update_block id (set_arguments snapshot)) ;;=
      mret (arguments, suffix)
  end.

(** The done snapshot of a call. *)
Definition functionCallDone (id callID name arguments status : string) : M unit :=
  blocks <== gets m_pendingToolStart ;;
  p <== or_fail (blocks !! id) (Corrupt "tool block was never started") ;;
  require (nonblank (tb_callID p) && nonblank (tb_name p)) (Corrupt "tool block was added without call identity") ;;=
  require (String.eqb callID (tb_callID p)) (Corrupt "output item done call id differs") ;;=
  require (String.eqb name (tb_name p)) (Corrupt "output item done name differs") ;;=
  require (String.eqb status "" || String.eqb status "completed") (Corrupt "output item done status is not completed") ;;=
  maybeStartToolBlock id ;;=
  reconciled <== reconcileToolArguments id arguments ;;
  let '(arguments, suffix) := reconciled in
  require (validateFinalToolInput arguments) unrepresentable_input ;;=
  p <== block id ;;
  if tb_deferred p && negb (tb_started p) then update_block id (hold true suffix)
  else
    mwhen (nonblank suffix) (emit_input (tb_blockIndex p) suffix) ;;=
    close_block id p arguments ;;=
    drainDeferredTools.

Definition outputItemDone (outputIndex : Z) (item : output_item) : M unit :=
  let itemID := responsesOutputItemID item in
  done <== gets m_doneItems ;;
  require (negb (bool_decide (itemID ∈ done))) (Corrupt "duplicate output item done") ;;=
  items <== gets m_addedItems ;;
  added <== or_fail (items !! itemID) (Corrupt "output item done for unknown item") ;;
  require (String.eqb (itemTypeName item) added.2) (Corrupt "output item done type differs") ;;=
  require (outputIndex =? added.1) (Corrupt "output item done output index differs") ;;=
  match item with
  | MessageItem id _ content => check_content id content ;;= mark_done id
  | ReasoningItem id => mark_done id
  | FunctionCallItem id callID name arguments status => functionCallDone id callID name arguments status
  | OtherItem _ => mret tt
  end.

(** ** Parts and deltas *)

(** An event that targets a part carries its item's output index. *)
Definition checkPartOutputIndex (itemID : string) (outputIndex : Z) : M unit :=
  items <== gets m_addedItems ;;
  added <== or_fail (items !! itemID) (Corrupt "event for unknown item") ;;
  require (outputIndex =? added.1) (Corrupt "event output index differs").

Definition contentPartAdded (itemID : string) (outputIndex contentIndex : Z) (kind : part_kind) : M unit :=
  items <== gets m_addedItems ;;
  added <== or_fail (items !! itemID) (Corrupt "content part for unknown item") ;;
  require (String.eqb added.2 "message") (Corrupt "content part for non-message item") ;;=
  require (outputIndex =? added.1) (Corrupt "content part output index differs") ;;=
  let key := (itemID, contentIndex) in
  seen <== gets m_partsSeen ;;
  require (bool_decide (seen !! key = None)) (Corrupt "duplicate content part") ;;=
  counts <== gets m_partCounts ;;
  let count := default 0 (counts !! itemID) in
  require (count <? maxStreamPartsPerItem) OverBudget ;;=
  index <== gets m_blockIndex ;;
  emit (ContentBlockStart index TextBlock) ;;=
  charge addPart ;;=
  charge (addStateEntries 2) ;;=
  modify (λ s, set_partBlocks (<[key := index]> (m_partBlocks s)) s) ;;=
  modify (set_partsSeen (<[key := kind]> seen)) ;;=
  modify (set_partCounts (<[itemID := count + 1]> counts)) ;;=
  modify (set_blockIndex (index + 1)).

(** The open block of a part of the wanted kind. *)
Definition open_part (key : part_key) (outputIndex : Z) (kind : part_kind) : M Z :=
  blocks <== gets m_partBlocks ;;
  index <== or_fail (blocks !! key) (Corrupt "event with no open content block") ;;
  checkPartOutputIndex key.1 outputIndex ;;=
  seen <== gets m_partsSeen ;;
  require (bool_decide (seen !! key = Some kind)) (Corrupt "event for part of another type") ;;=
  mret index.

Definition set_accumulated (k : part_kind) (v : gmap part_key string) (s : msgState) : msgState :=
  match k with KText => set_textBufs v s | KRefusal => set_refusalBufs v s end.

Definition bufs (k : part_kind) (s : msgState) : gmap part_key string :=
  match k with KText => m_textBufs s | KRefusal => m_refusalBufs s end.

(** [textDelta] and [refusalDelta]. *)
Definition partDelta (kind : part_kind) (itemID : string) (outputIndex contentIndex : Z) (delta : string) : M unit :=
  let key := (itemID, contentIndex) in
  index <== open_part key outputIndex kind ;;
  m <== gets (bufs kind) ;;
  let value := default "" (m !! key) ++ delta in
  modify (set_accumulated kind (<[key := value]> m)) ;;=
  checkAccumulated value (bytes delta) ;;=
  emit (ContentBlockDelta index (TextD delta)).

(** [textDone] and [refusalDone]. *)
Definition partValueDone (kind : part_kind) (itemID : string) (outputIndex contentIndex : Z) (text : string) : M unit :=
  let key := (itemID, contentIndex) in
  open_part key outputIndex kind ;;=
  value <== gets (accumulated kind key) ;;
  require (String.eqb value text) (Corrupt "done value does not match the accumulated value").

Definition contentPartDone (itemID : string) (outputIndex contentIndex : Z) (kind : part_kind) : M unit :=
  let key := (itemID, contentIndex) in
  index <== open_part key outputIndex kind ;;
  modify (λ s, set_partBlocks (delete key (m_partBlocks s)) s) ;;=
  emit (ContentBlockStop index) ;;=
  drainDeferredTools.

Definition functionArgumentsDelta (itemID : string) (outputIndex : Z) (delta : string) : M unit :=
  blocks <== gets m_pendingToolStart ;;
  p <== or_fail (blocks !! itemID) (Corrupt "arguments delta for unknown item") ;;
  require (outputIndex =? tb_outputIndex p) (Corrupt "arguments delta output index differs") ;;=
  maybeStartToolBlock itemID ;;=
  update_block itemID (set_arguments (tb_arguments p ++ delta)) ;;=
  p <== block itemID ;;
  checkAccumulated (tb_arguments p) (bytes delta) ;;=
  if tb_started p then emit_input (tb_blockIndex p) delta
  else
    mwhen (tb_deferred p)
      (charge (addStateEntries 1) ;;=
       modify (λ s, set_bufferedToolFragments
         (<[itemID := (default [] (m_bufferedToolFragments s !! itemID) ++ [delta])%list]> (m_bufferedToolFragments s)) s)).

Definition functionArgumentsDone (itemID : string) (outputIndex : Z) (arguments : string) : M unit :=
  blocks <== gets m_pendingToolStart ;;
  p <== or_fail (blocks !! itemID) (Corrupt "arguments done for unknown item") ;;
  require (outputIndex =? tb_outputIndex p) (Corrupt "arguments done output index differs") ;;=
  reconciled <== reconcileToolArguments itemID arguments ;;
  let suffix := snd reconciled in
  maybeStartToolBlock itemID ;;=
  p <== block itemID ;;
  if tb_started p && nonblank suffix then emit_input (tb_blockIndex p) suffix
  else mwhen (tb_deferred p && nonblank suffix) (update_block itemID (hold false suffix)).

(** ** Reasoning *)

Definition SyntheticThinkingSignature : string := "shaper-synth-thinking-1".

Definition reasoningPartAdded : M unit :=
  open <== gets m_reasoningBlockIndex ;;
  require (negb (known open)) (Corrupt "reasoning summary part added while a thinking block is open") ;;=
  charge (addStateEntries 1) ;;=
  charge addPart ;;=
  index <== gets m_blockIndex ;;
  modify (set_reasoningBlockIndex (Some index)) ;;=
  modify (set_blockIndex (index + 1)) ;;=
  emit (ContentBlockStart index ThinkingBlock).

Definition reasoningTextDelta (delta : string) : M unit :=
  open <== gets m_reasoningBlockIndex ;;
  index <== or_fail open (Corrupt "reasoning summary delta with no open thinking block") ;;
  charge addEvent ;;=
  emit (ContentBlockDelta index (ThinkingD delta)).

Definition reasoningPartDone : M unit :=
  open <== gets m_reasoningBlockIndex ;;
  index <== or_fail open (Corrupt "reasoning summary part done with no open thinking block") ;;
  emit (ContentBlockDelta index (SignatureD SyntheticThinkingSignature)) ;;=
  emit (ContentBlockStop index) ;;=
  modify (set_reasoningBlockIndex None) ;;=
  drainDeferredTools.

(** With the capability, or a loss. *)
Definition reasoning_event (m : M unit) : M unit :=
  x <== gets m_exchange ;;
  if mx_ProviderReasoningThinking x then m else loseReasoningOnce.

(** ** Terminals *)

Inductive CanonicalStopReason :=
| CanonicalStopEndTurn | CanonicalStopMaxTokens | CanonicalStopStopSequence | CanonicalStopToolUse | CanonicalStopRefusal.

#[export] Instance stop_reason_eq_dec : EqDecision CanonicalStopReason.
Proof. solve_decision. Defined.

Definition stopReasonToAnthropic (stop : CanonicalStopReason) : string :=
  match stop with
  | CanonicalStopMaxTokens => "max_tokens"
  | CanonicalStopStopSequence => "stop_sequence"
  | CanonicalStopToolUse => "tool_use"
  | CanonicalStopRefusal => "refusal"
  | CanonicalStopEndTurn => "end_turn"
  end.

(** One item of the terminal's output. *)
Definition reconcile_output (item : output_item) : M unit :=
  let itemID := responsesOutputItemID item in
  items <== gets m_addedItems ;;
  added <== or_fail (items !! itemID) (Corrupt "terminal envelope output item was never observed") ;;
  require (String.eqb (itemTypeName item) added.2) (Corrupt "terminal envelope output item type differs") ;;=
  match item with
  | MessageItem id _ content => check_content id content
  | ReasoningItem id =>
      done <== gets m_doneItems ;;
      require (bool_decide (id ∈ done)) (Corrupt "terminal envelope reasoning item was never closed")
  | FunctionCallItem id callID name arguments _ =>
      calls <== gets m_closedToolCalls ;;
      closed <== or_fail (calls !! id) (Corrupt "terminal envelope function call was never closed") ;;
      require (String.eqb callID (cc_callID closed) && String.eqb name (cc_name closed))
        (Corrupt "terminal envelope function call identity differs") ;;=
      valueArgs <== or_fail (raw_object (lit arguments)) unrepresentable_input ;;
      require (match raw_object (lit (cc_arguments closed)) with
               | Some closedArgs => jsonObjectsEqual valueArgs closedArgs
               | None => false
               end) (Corrupt "terminal envelope function call arguments differ")
  | OtherItem _ => mret tt
  end.

Definition gateTerminalEnvelope (e : response) : M unit :=
  sent <== gets m_messageSent ;;
  require sent (Corrupt "responses stream terminal before response.created") ;;=
  checkEnvelopeIdentity e ;;=
  closed <== gets (λ s, bool_decide (m_partBlocks s = ∅) && bool_decide (m_pendingToolStart s = ∅)) ;;
  require closed (Corrupt "responses stream terminal with open content parts or tool blocks") ;;=
  all <== gets (λ s, bool_decide (map_Forall (λ id _, id ∈ m_doneItems s) (m_addedItems s))) ;;
  require all (Corrupt "responses stream terminal with an output item never closed") ;;=
  for_each (λ _, reconcile_output) 0 (re_Output e).

Definition outputHasFunctionCalls (output : list output_item) : bool :=
  existsb (λ item, match item with FunctionCallItem _ _ _ _ _ => true | _ => false end) output.

Definition finalizeMessage (stop : CanonicalStopReason) (usage : option ResponsesUsage) : M unit :=
  modify (λ s, set_message {| msg_StopReason := Some (stopReasonToAnthropic stop); msg_Usage := msg_Usage (m_message s) |} s) ;;=
  match usage with
  | Some usage =>
      converted <== absorb_usage usage ;;
      modify (set_message_usage converted) ;;=
      modify (set_usage (Some converted))
  | None => mret tt
  end ;;=
  recorded <== gets m_usage ;;
  mwhen (negb (known recorded))
    (lose "usage_unknown" "usage"
       "the upstream response did not provide terminal token usage; the required Messages usage cannot be reproduced" ;;=
     modify (set_usage (Some zero_usage))).

Definition terminalEvents (stop : CanonicalStopReason) : M unit :=
  usage <== gets m_usage ;;
  emit (MessageDelta (stopReasonToAnthropic stop) usage) ;;=
  emit MessageStop.

(** After the stop reason is chosen. *)
Definition conclude (e : response) (stop : CanonicalStopReason) : M unit :=
  gateEnvelopePhases e ;;=
  loseControlsOnce e ;;=
  finalizeMessage stop (re_Usage e) ;;=
  modify (set_sawTerminal true) ;;=
  terminalEvents stop.

Definition completed (e : response) : M unit :=
  gateTerminalEnvelope e ;;=
  sawToolUse <== gets m_sawToolUse ;;
  conclude e (if outputHasFunctionCalls (re_Output e) || sawToolUse then CanonicalStopToolUse else CanonicalStopEndTurn).

Definition incomplete (e : response) : M unit :=
  gateTerminalEnvelope e ;;=
  conclude e (if bool_decide (re_IncompleteReason e = Some "content_filter") then CanonicalStopRefusal else CanonicalStopMaxTokens).

Definition anthropicErrorTypeFromCode (code : string) : string :=
  if String.eqb code "rate_limit_exceeded" then "rate_limit_error"
  else if bool_decide (code = "overloaded") then "overloaded_error"
  else if bool_decide (code ∈ ["authentication_error"; "permission_error"; "request_too_large"; "invalid_request_error"])
  then code else "api_error".

Definition buildErrorEvent (code message : string) : M unit :=
  emit (ErrorEvent (anthropicErrorTypeFromCode code) message).

Definition saw_error : M unit := modify (set_sawTerminal true) ;;= modify (set_sawErrorEvent true).

Definition failed (e : response) : M unit :=
  sent <== gets m_messageSent ;;
  require sent (Corrupt "responses stream terminal before response.created") ;;=
  checkEnvelopeIdentity e ;;=
  saw_error ;;=
  match re_Error e with
  | Some (message, code) => buildErrorEvent code (if String.eqb message "" then "upstream response failed" else message)
  | None => buildErrorEvent "" "upstream response failed"
  end.

Definition errorEvent (code message : string) : M unit := saw_error ;;= buildErrorEvent code message.

(** ** Events and frames *)

Definition is_created (b : upstream_body) : bool := match b with Created _ => true | _ => false end.
Definition is_error (b : upstream_body) : bool := match b with StreamError _ _ => true | _ => false end.

Definition interpret (b : upstream_body) : M unit :=
  match b with
  | Created e => messageStart e
  | InProgress e => checkEnvelopeIdentity e ;;= loseControlsOnce e
  | OutputItemAdded i item => outputItemAdded i item
  | OutputItemDone i item => outputItemDone i item
  | ContentPartAdded id i ci k => contentPartAdded id i ci k
  | TextDelta id i ci d => partDelta KText id i ci d
  | TextDone id i ci t => partValueDone KText id i ci t
  | ContentPartDone id i ci k => contentPartDone id i ci k
  | FunctionArgumentsDelta id i d => functionArgumentsDelta id i d
  | FunctionArgumentsDone id i a => functionArgumentsDone id i a
  | RefusalDelta id i ci d => partDelta KRefusal id i ci d
  | RefusalDone id i ci t => partValueDone KRefusal id i ci t
  | ReasoningSummaryPartAdded _ _ => reasoning_event reasoningPartAdded
  | ReasoningSummaryTextDelta _ _ d => reasoning_event (reasoningTextDelta d)
  | ReasoningSummaryTextDone _ _ => reasoning_event (mret tt)
  | ReasoningSummaryPartDone _ _ => reasoning_event reasoningPartDone
  | Completed e => completed e
  | Incomplete e => incomplete e
  | Failed e => failed e
  | StreamError code message => errorEvent code message
  end.

Definition Convert (ev : upstream) : M unit :=
  deliver
    (ended <== gets m_sawTerminal ;;
     require (negb ended) AfterTerminal ;;=
     validate ev ;;=
     charge addEvent ;;=
     last <== gets m_lastSequence ;;
     require (last <? Sequence ev) (Corrupt "sequence number is not strictly increasing") ;;=
     modify (set_lastSequence (Sequence ev)) ;;=
     sent <== gets m_messageSent ;;
     require (sent || is_created (up_body ev) || is_error (up_body ev)) (Corrupt "event before response.created") ;;=
     interpret (up_body ev)).

Definition FinalizeEOF : M unit :=
  ended <== gets m_sawTerminal ;;
  require ended Truncated.

(** A decoded frame with its event name (empty when absent) and whether that name is the
    type of its data, the chat-style sentinel, or the end of the body. *)
Inductive frame := Frame (name : string) (agrees : bool) (ev : upstream) | DoneSentinel | EOF.

(** [responsesToAnthropicConverter]: the machine and whether a missing event name was
    noted. *)
Definition convert_frame (noted : bool) (fr : frame) : M bool :=
  match fr with
  | DoneSentinel =>
      ended <== gets m_sawTerminal ;;
      require ended (Corrupt "responses stream [DONE] before a terminal condition") ;;=
      mret noted
  | EOF => FinalizeEOF ;;= mret noted
  | Frame name agrees ev =>
      noted' <== (if String.eqb name "" then
                    mwhen (negb noted)
                      (on_report (Note "missing_event_name" "responses[].stream"
                         "the upstream stream omitted the SSE event: name; the event was routed by its JSON type")) ;;=
                    mret true
                  else require agrees (Corrupt "SSE event name does not match the JSON type") ;;= mret noted) ;;
      Convert ev ;;=
      mret noted'
  end.

(** The reader stops at the first error and at a terminal batch. *)
Fixpoint stream (noted : bool) (frames : list frame) : M unit :=
  match frames with
  | [] => mret tt
  | fr :: frames =>
      noted <== convert_frame noted fr ;;
      ended <== gets m_sawTerminal ;;
      if (ended : bool) then mret tt else stream noted frames
  end.
