(* ===== verification/MsgClient.v ===== *)
(** * The reader of a Messages stream

    What a client makes of the events of a Messages stream ([read]): the content blocks
    it assembles, and the order it insists on.  And what a Responses stream announces
    ([announced]): the contents, in the order of their announcement.  The two are the
    abstract specification of the converter ([MsgStream]), which must make the client
    assemble what the upstream announced. *)

From Stdlib Require Import ZArith Lia Bool List Ascii String.
From stdpp Require Import strings gmap list.
From S2P Require Import Prelude GoStd Emitter ToolArgs MsgStream.

Open Scope string_scope.
Open Scope Z_scope.

(** ** The client *)

Inductive content :=
| CText (text : string)
| CTool (id name input : string)
| CThinking (thinking signature : string).

(** [Stopping]: after message_delta. *)
Inductive phase :=
| Waiting
| Streaming
| Stopping (stop : string)
| Stopped (stop : string)
| Errored (errorType message : string).

(** Each block with whether it is open. *)
Record client := { cl_phase : phase; cl_blocks : gmap Z (content * bool) }.

Definition client0 : client := {| cl_phase := Waiting; cl_blocks := ∅ |}.

Definition with_phase (p : phase) (c : client) : client := {| cl_phase := p; cl_blocks := cl_blocks c |}.

Definition with_block (i : Z) (b : content * bool) (c : client) : client :=
  {| cl_phase := cl_phase c; cl_blocks := <[i := b]> (cl_blocks c) |}.

(** An empty block. *)
Definition begin (b : content_block) : content :=
  match b with
  | TextBlock => CText ""
  | ToolUseBlock id name => CTool id name ""
  | ThinkingBlock => CThinking "" ""
  end.

(** A delta belongs to one type of block. *)
Definition extend (b : content) (d : block_delta) : option content :=
  match b, d with
  | CText t, TextD d => Some (CText (t ++ d))
  | CTool id name input, InputJSOND d => Some (CTool id name (input ++ d))
  | CThinking t sig, ThinkingD d => Some (CThinking (t ++ d) sig)
  | CThinking t sig, SignatureD d => Some (CThinking t (sig ++ d))
  | _, _ => None
  end.

Definition is_tool (b : content) : bool := match b with CTool _ _ _ => true | _ => false end.
Definition is_thinking (b : content) : bool := match b with CThinking _ _ => true | _ => false end.

Definition none_open (c : client) : bool := bool_decide (map_Forall (λ _ b, b.2 = false) (cl_blocks c)).

(** Open blocks other than thinking. *)
Definition answer_closed (c : client) : bool := bool_decide (map_Forall (λ _ b, b.2 = false ∨ is_thinking b.1 = true) (cl_blocks c)).

Definition no_thinking (c : client) : bool := bool_decide (map_Forall (λ _ b, b.2 = false ∨ is_thinking b.1 = false) (cl_blocks c)).

(** Events of blocks come between message_start and message_delta; a block starts under
    a new index, a tool block when no block is open and a thinking block when no other
    is; a delta extends an open block of its type; the message ends with no text or tool
    block open; an error ends everything.  The dialect asks for more ([orderly]): this
    client puts up with a text block that starts, and a thinking block that starts or is
    left open at the end, where another block or its own is still open. *)
Definition read (c : client) (e : mevent) : option client :=
  match e, cl_phase c with
  | MessageStart, Waiting => Some (with_phase Streaming c)
  | ContentBlockStart i b, Streaming =>
      if bool_decide (cl_blocks c !! i = None) && (negb (is_tool (begin b)) || none_open c) && (negb (is_thinking (begin b)) || no_thinking c)
      then Some (with_block i (begin b, true) c) else None
  | ContentBlockDelta i d, Streaming =>
      match cl_blocks c !! i with
      | Some (b, true) => match extend b d with Some b => Some (with_block i (b, true) c) | None => None end
      | _ => None
      end
  | ContentBlockStop i, Streaming =>
      match cl_blocks c !! i with
      | Some (b, true) => Some (with_block i (b, false) c)
      | _ => None
      end
  | MessageDelta stop _, Streaming => if answer_closed c then Some (with_phase (Stopping stop) c) else None
  | MessageStop, Stopping stop => Some (with_phase (Stopped stop) c)
  | ErrorEvent t m, (Waiting | Streaming) => Some (with_phase (Errored t m) c)
  | _, _ => None
  end.

Fixpoint read_all (evs : list mevent) (c : client) : option client :=
  match evs with
  | [] => Some c
  | e :: evs => match read c e with Some c => read_all evs c | None => None end
  end.

Definition reads (evs : list mevent) (c c' : client) : Prop := read_all evs c = Some c'.

Lemma read_all_app l1 l2 c : read_all (l1 ++ l2) c = match read_all l1 c with Some c => read_all l2 c | None => None end.
Proof. revert c. induction l1 as [|e l1 IH]; intros c; simpl; [done|]. destruct (read c e); [apply IH|done]. Qed.

#[export] Instance reads_reader : Reader reads.
Proof. split; unfold reads; [done|]. intros l1 l2 c1 c2 c3 H1 H2. by rewrite read_all_app, H1. Qed.

(** *** One block at a time *)

(** A block starts and the message ends with no block open. *)
Definition orderly (c : client) (e : mevent) : bool :=
  match e with
  | ContentBlockStart _ _ | MessageDelta _ _ => none_open c
  | _ => true
  end.

(** The client that insists on it. *)
Definition read_strictly (c : client) (e : mevent) : option client := if orderly c e then read c e else None.

Fixpoint read_all_strictly (evs : list mevent) (c : client) : option client :=
  match evs with
  | [] => Some c
  | e :: evs => match read_strictly c e with Some c => read_all_strictly evs c | None => None end
  end.

(** ** What a Responses stream announces *)

(** A content part with the text streamed for it, a call with its final arguments, and a
    summary of reasoning. *)
Inductive entry :=
| EText (kind : part_kind) (key : part_key) (text : string)
| ECall (itemID callID name : string) (snapshot : option string)
| EThink (text : string).

Definition add_text (kind : part_kind) (key : part_key) (d : string) (e : entry) : entry :=
  match e with
  | EText k key' t => if bool_decide (k = kind ∧ key' = key) then EText k key' (t ++ d) else e
  | _ => e
  end.

Definition add_snapshot (id arguments : string) (e : entry) : entry :=
  match e with
  | ECall id' callID name None => if String.eqb id' id then ECall id' callID name (Some arguments) else e
  | _ => e
  end.

(** The last summary grows. *)
Fixpoint add_thinking (d : string) (rev_entries : list entry) : list entry :=
  match rev_entries with
  | [] => []
  | EThink t :: l => EThink (t ++ d) :: l
  | e :: l => e :: add_thinking d l
  end.

Definition announce (thinking : bool) (l : list entry) (b : upstream_body) : list entry :=
  match b with
  | ContentPartAdded id _ ci k => (l ++ [EText k (id, ci) ""])%list
  | TextDelta id _ ci d => map (add_text KText (id, ci) d) l
  | RefusalDelta id _ ci d => map (add_text KRefusal (id, ci) d) l
  | OutputItemAdded _ (FunctionCallItem id callID name _ _) => (l ++ [ECall id callID name None])%list
  | OutputItemDone _ (FunctionCallItem id _ _ arguments _) => map (add_snapshot id arguments) l
  | ReasoningSummaryPartAdded _ _ => if thinking then (l ++ [EThink ""])%list else l
  | ReasoningSummaryTextDelta _ _ d => if thinking then rev (add_thinking d (rev l)) else l
  | _ => l
  end.

Definition is_call (e : entry) : bool := match e with ECall _ _ _ _ => true | _ => false end.

(** Where the message stands after an event. *)
Definition progress (p : phase) (l : list entry) (b : upstream_body) : phase :=
  match b with
  | Created _ => Streaming
  | Completed e =>
      Stopped (if outputHasFunctionCalls (re_Output e) || existsb is_call l then "tool_use" else "end_turn")
  | Incomplete e => Stopped (if bool_decide (re_IncompleteReason e = Some "content_filter") then "refusal" else "max_tokens")
  | Failed e =>
      match re_Error e with
      | Some (message, code) =>
          Errored (anthropicErrorTypeFromCode code) (if String.eqb message "" then "upstream response failed" else message)
      | None => Errored "api_error" "upstream response failed"
      end
  | StreamError code message => Errored (anthropicErrorTypeFromCode code) message
  | _ => p
  end.

Definition final (p : phase) : bool := match p with Stopped _ | Errored _ _ => true | _ => false end.

(** What was heard of the frames, up to the terminal event. *)
Fixpoint heard (thinking : bool) (p : phase) (l : list entry) (frames : list frame) : phase * list entry :=
  match frames with
  | [] => (p, l)
  | Frame _ _ ev :: frames =>
      let p' := progress p l (up_body ev) in
      let l' := announce thinking l (up_body ev) in
      if final p' then (p', l') else heard thinking p' l' frames
  | _ :: frames => heard thinking p l frames
  end.

(** The client holds what was announced: a call's input is the object of its final
    arguments, a thinking block bears the marker once it is closed. *)
Definition delivered (e : entry) (b : content * bool) : Prop :=
  match e with
  | EText _ _ t => b = (CText t, false)
  | ECall _ callID name (Some arguments) => ∃ input, b = (CTool callID name input, false) ∧ same_object input arguments
  | ECall _ _ _ None => False
  | EThink t => b = (CThinking t SyntheticThinkingSignature, false) ∨ b = (CThinking t "", true)
  end.

(** Until then, texts and summaries are up to date and a call may wait. *)
Definition current (e : entry) (o : option (content * bool)) : Prop :=
  match e with
  | EText _ _ t => ∃ live, o = Some (CText t, live)
  | ECall _ callID name _ => o = None ∨ ∃ input live, o = Some (CTool callID name input, live)
  | EThink t => ∃ signature live, o = Some (CThinking t signature, live)
  end.

(** The blocks are those of the contents, under their positions. *)
Definition assembled (p : phase) (l : list entry) (blocks : gmap Z (content * bool)) : Prop :=
  (∀ i, blocks !! i ≠ None → 0 <= i < Z.of_nat (length l)) ∧
  ∀ j e, l !! j = Some e →
    match p with
    | Stopped _ => ∃ b, blocks !! Z.of_nat j = Some b ∧ delivered e b
    | _ => current e (blocks !! Z.of_nat j)
    end.
