(* ===== verification/MsgStreamLaws.v ===== *)
(** * The Messages converter delivers what the upstream announces

    The converter ([MsgStream]) against its specification ([MsgClient]): a client that
    reads the events it emits never sees a disorder, and holds the announced contents
    when the stream ends. *)

From Stdlib Require Import ZArith QArith Qcanon Lia Bool List Ascii String.
From stdpp Require Import strings gmap list.
From S2P Require Import Prelude GoStd GoStr Budget Losses Usage Emitter ToolArgs MsgStream MsgClient.
From S2P Require ResponsesFsm.

Open Scope string_scope.
Open Scope Z_scope.
Open Scope stream_scope.

Abbreviation fsm := ResponsesFsm.responsesStreamFSM.

(** ** What the validator rules out *)

(** The item was done; no arguments may follow. *)
Definition finished (id : string) (f : fsm) : Prop :=
  ∃ it, ResponsesFsm.items f !! id = Some it ∧ ResponsesFsm.item_phase it = ResponsesFsm.itemPhaseDone.

Definition sealed (id : string) (f : fsm) : Prop :=
  ∃ it, ResponsesFsm.items f !! id = Some it ∧
    (ResponsesFsm.item_phase it = ResponsesFsm.itemPhaseDone ∨
     ∃ c, ResponsesFsm.calls it !! id = Some c ∧ c ≠ ResponsesFsm.callPhaseAdded).

Definition steady_item (id : string) (it it' : ResponsesFsm.fsmItem) : Prop :=
  (ResponsesFsm.item_phase it = ResponsesFsm.itemPhaseDone → ResponsesFsm.item_phase it' = ResponsesFsm.itemPhaseDone) ∧
  (∀ c, ResponsesFsm.calls it !! id = Some c → c ≠ ResponsesFsm.callPhaseAdded →
        ∃ c', ResponsesFsm.calls it' !! id = Some c' ∧ c' ≠ ResponsesFsm.callPhaseAdded).

(** What is finished or sealed stays so. *)
Definition steady (f f' : fsm) : Prop :=
  ∀ id it, ResponsesFsm.items f !! id = Some it →
  ∃ it', ResponsesFsm.items f' !! id = Some it' ∧ steady_item id it it'.

Lemma steady_finished f f' id : steady f f' → finished id f → finished id f'.
Proof. intros Hs (it & Hi & Hp). destruct (Hs id it Hi) as (it' & Hi' & Hd & _). exists it'. auto. Qed.

Lemma steady_sealed f f' id : steady f f' → sealed id f → sealed id f'.
Proof.
  intros Hs (it & Hi & Hp). destruct (Hs id it Hi) as (it' & Hi' & Hd & Hc). exists it'. split; [done|].
  destruct Hp as [Hp|(c & Hc1 & Hc2)]; [left; auto|right; eauto].
Qed.

Lemma finished_sealed f id : finished id f → sealed id f.
Proof. intros (it & Hi & Hp). exists it. auto. Qed.

Lemma steady_item_refl id it : steady_item id it it.
Proof. split; [done|]. eauto. Qed.

Lemma steady_refl f f' : ResponsesFsm.items f' = ResponsesFsm.items f → steady f f'.
Proof. intros Hi id it Hit. rewrite Hi. exists it. split; [done|apply steady_item_refl]. Qed.

Lemma steady_put f f' id it' :
  ResponsesFsm.items f' = <[id := it']> (ResponsesFsm.items f) →
  (∀ it, ResponsesFsm.items f !! id = Some it → steady_item id it it') → steady f f'.
Proof.
  intros Hi Hs id0 it0 H0. rewrite Hi. destruct (decide (id0 = id)) as [->|Hne].
  - rewrite lookup_insert_eq. exists it'. auto.
  - rewrite lookup_insert_ne by done. exists it0. split; [done|apply steady_item_refl].
Qed.

Ltac same_items :=
  try match goal with
  | H1 : ResponsesFsm.items ?f !! ?id = Some ?a, H2 : ResponsesFsm.items ?f !! ?id = Some ?b |- _ =>
      rewrite H1 in H2; injection H2 as ->
  | H1 : ResponsesFsm.items ?f !! ?id = None, H2 : ResponsesFsm.items ?f !! ?id = Some ?b |- _ =>
      by rewrite H1 in H2
  end.

Lemma steady_trans f1 f2 f3 : steady f1 f2 → steady f2 f3 → steady f1 f3.
Proof.
  intros H1 H2 id it Hi. destruct (H1 _ _ Hi) as (it1 & Hi1 & Hd1 & Hc1). destruct (H2 _ _ Hi1) as (it2 & Hi2 & Hd2 & Hc2).
  exists it2. split; [done|]. split; [auto|]. intros c Hc Hne. destruct (Hc1 c Hc Hne) as (c1 & ? & ?). eauto.
Qed.


(** The handlers that work on a call. *)
Lemma functionCallItem_steady id oi f it f' :
  ResponsesFsm.functionCallItem id oi f = (Ok it, f') →
  steady f f' ∧ ResponsesFsm.items f' !! id = Some it ∧ ¬ finished id f ∧
  (ResponsesFsm.calls it !! id = Some ResponsesFsm.callPhaseAdded → ¬ sealed id f).
Proof.
  unfold ResponsesFsm.functionCallItem. intros Hx. apply ResponsesFsm.bind_ok in Hx as (g & g' & [-> ->]%ResponsesFsm.get_ok & Hx).
  destruct (ResponsesFsm.items f !! id) as [it0|] eqn:Ei; [|done]. ResponsesFsm.fsm_inv.
  match goal with Hx : match ResponsesFsm.calls it0 !! id with _ => _ end _ = _ |- _ => destruct (ResponsesFsm.calls it0 !! id) as [c|] eqn:Ec end;
    ResponsesFsm.fsm_inv; (split_and!; [|by simpl; rewrite ?lookup_insert_eq|by intros (? & ? & ?); same_items|]).
  - by apply steady_refl.
  - intros Hc (it1 & Ha1 & [Ha2|(c1 & Ha2 & Ha3)]); same_items; congruence.
  - eapply steady_put; [done|]. intros it1 Ha1. same_items. split; [done|]. intros c Hc. congruence.
  - intros _ (it1 & Ha1 & [Ha2|(c1 & Ha2 & Ha3)]); same_items; congruence.
Qed.

Lemma reasoningItem_steady id oi f it f' :
  ResponsesFsm.reasoningItem id oi f = (Ok it, f') → steady f f' ∧ ResponsesFsm.items f' !! id = Some it.
Proof.
  intros (_ & [[-> Hi]|(Hn & _ & -> & b1 & b2 & _ & _ & ->)])%ResponsesFsm.reasoningItem_ok.
  - split; [by apply steady_refl|done].
  - split; [|simpl; by rewrite lookup_insert_eq]. eapply steady_put; [done|]. intros it1 H1. same_items.
Qed.

(** A change of the item a handler has resolved. *)
Lemma steady_update id it it' (f f' : fsm) :
  ResponsesFsm.items f !! id = Some it → steady_item id it it' →
  ResponsesFsm.items f' = <[id := it']> (ResponsesFsm.items f) → steady f f'.
Proof. intros Hi Hs Hf. apply (steady_put _ _ id it' Hf). intros it1 H1. by same_items. Qed.

Ltac fsm_steady :=
  ResponsesFsm.fsm_inv; simpl in *;
  first [ by apply steady_refl
        | eapply steady_update; [eassumption| |reflexivity]; split; simpl; try done; eauto ].

Lemma dispatch_steady b f u f' : ResponsesFsm.dispatch b f = (Ok u, f') → steady f f'.
Proof.
  destruct b; simpl; intros Hx.
  - unfold ResponsesFsm.created in Hx. fsm_steady.
  - fsm_steady.
  - unfold ResponsesFsm.itemAdded in Hx. ResponsesFsm.fsm_inv. case_bool_decide; ResponsesFsm.fsm_inv;
      (eapply steady_put; [reflexivity|]; intros it Hit; congruence).
  - unfold ResponsesFsm.itemDone in Hx. ResponsesFsm.fsm_inv.
    destruct (ResponsesFsm.items f !! _) eqn:Ei; fsm_steady.
  - apply ResponsesFsm.bind_ok in Hx as (it & g & (-> & Ei & _)%ResponsesFsm.messageItem_ok & Hx). fsm_steady.
  - apply ResponsesFsm.bind_ok in Hx as (it & g & (-> & Ei & _)%ResponsesFsm.messageItem_ok & Hx).
    destruct (ResponsesFsm.parts it !! _); fsm_steady.
  - apply ResponsesFsm.bind_ok in Hx as ([it p] & g & (-> & Ei & _)%ResponsesFsm.partForDelta_ok & Hx). fsm_steady.
  - apply ResponsesFsm.bind_ok in Hx as ([it p] & g & (-> & Ei & _)%ResponsesFsm.partForDelta_ok & Hx). fsm_steady.
  - apply ResponsesFsm.bind_ok in Hx as ([it p] & g & (-> & Ei & _)%ResponsesFsm.partForDelta_ok & Hx). fsm_steady.
  - apply ResponsesFsm.bind_ok in Hx as ([it p] & g & (-> & Ei & _)%ResponsesFsm.partForDelta_ok & Hx). fsm_steady.
  - apply ResponsesFsm.bind_ok in Hx as (it & g & (Hs & Ei & _)%functionCallItem_steady & Hx). eapply steady_trans; [done|]. fsm_steady.
  - apply ResponsesFsm.bind_ok in Hx as (it & g & (Hs & Ei & _)%functionCallItem_steady & Hx). eapply steady_trans; [done|].
    ResponsesFsm.fsm_inv. eapply steady_update; [eassumption| |reflexivity]. split; [done|]. simpl. intros c _ _.
    rewrite lookup_insert_eq. by eexists.
  - apply ResponsesFsm.bind_ok in Hx as (it & g & (Hs & Ei)%reasoningItem_steady & Hx). eapply steady_trans; [done|]. fsm_steady.
  - apply ResponsesFsm.bind_ok in Hx as (it & g & (Hs & Ei)%reasoningItem_steady & Hx). eapply steady_trans; [done|]. fsm_steady.
  - apply ResponsesFsm.bind_ok in Hx as (it & g & (Hs & Ei)%reasoningItem_steady & Hx). eapply steady_trans; [done|]. fsm_steady.
  - apply ResponsesFsm.bind_ok in Hx as (it & g & (Hs & Ei)%reasoningItem_steady & Hx). eapply steady_trans; [done|]. fsm_steady.
  - unfold ResponsesFsm.terminalEvent in Hx. fsm_steady.
  - unfold ResponsesFsm.terminalEvent in Hx. fsm_steady.
  - unfold ResponsesFsm.terminalEvent in Hx. fsm_steady.
  - fsm_steady.
  - fsm_steady.
Qed.

(** What an accepted event tells of the item it is about. *)
Definition told (b : upstream_body) (f f' : fsm) : Prop :=
  match b with
  | FunctionArgumentsDelta id _ _ => ¬ sealed id f
  | FunctionArgumentsDone id _ _ => ¬ sealed id f ∧ sealed id f'
  | OutputItemDone _ item => ¬ finished (responsesOutputItemID item) f ∧ finished (responsesOutputItemID item) f'
  | _ => True
  end.

Lemma dispatch_told b f u f' : ResponsesFsm.dispatch (fsm_body b) f = (Ok u, f') → told b f f'.
Proof.
  destruct b; simpl; try done; intros Hx.
  - unfold ResponsesFsm.itemDone in Hx. ResponsesFsm.fsm_inv. fold (responsesOutputItemID item) in *.
    destruct (ResponsesFsm.items f !! _) as [it|] eqn:Ei; ResponsesFsm.fsm_inv. simpl. split.
    + intros (it1 & Ha1 & Ha2). by same_items.
    + eexists. simpl. by rewrite lookup_insert_eq.
  - apply ResponsesFsm.bind_ok in Hx as (it & g & (_ & _ & _ & Hs)%functionCallItem_steady & Hx). ResponsesFsm.fsm_inv. by apply Hs.
  - apply ResponsesFsm.bind_ok in Hx as (it & g & (_ & Ei & _ & Hs)%functionCallItem_steady & Hx). ResponsesFsm.fsm_inv.
    split; [by apply Hs|]. eexists. simpl. rewrite lookup_insert_eq. split; [done|]. right. simpl. rewrite lookup_insert_eq. by eexists.
Qed.

Lemma validated ev f u f' :
  ResponsesFsm.ValidateEvent (fsm_event ev) f = (Ok u, f') → steady f f' ∧ told (up_body ev) f f'.
Proof.
  unfold ResponsesFsm.ValidateEvent. intros Hx. ResponsesFsm.fsm_inv. simpl in *.
  match goal with Hd : ResponsesFsm.dispatch _ ?g = _ |- _ =>
    assert (ResponsesFsm.items g = ResponsesFsm.items f) as Hi by done;
    pose proof (dispatch_steady _ _ _ _ Hd) as Hs; pose proof (dispatch_told _ _ _ _ Hd) as Ht end.
  split; [|destruct (up_body ev); try done]; intros id it Hit; by apply Hs.
Qed.

(** ** The machine, the client and the announced contents *)

(** A block in the queue holds its bytes; a block done in the queue has its snapshot. *)
Record tool_ok (id : string) (frags : list string) (f : fsm) (p : pendingToolBlock) : Prop := {
  tk_id : tb_itemID p = id;
  tk_started : tb_started p = true → tb_deferred p = false ∧ tb_done p = false;
  tk_named : tb_deferred p = true → tb_callID p ≠ "" ∧ tb_name p ≠ "";
  tk_held : tb_deferred p = true → tb_arguments p = fold_right String.append "" frags ++ tb_doneSuffix p;
  tk_sealed : tb_doneSuffix p ≠ "" → sealed id f;
  tk_done : tb_done p = true → tb_deferred p = true ∧ finished id f;
}.

(** The client's view of a pending call. *)
Definition call_pending (j : nat) (callID name : string) (snap : option string) (p : pendingToolBlock)
    (b : option (content * bool)) : Prop :=
  tb_blockIndex p = Z.of_nat j ∧ tb_callID p = callID ∧ tb_name p = name ∧
  b = (if tb_started p then Some (CTool callID name (tb_arguments p), true) else None) ∧
  (if tb_done p then ∃ t, snap = Some t ∧ same_object (tb_arguments p) t else snap = None).

Definition call_closed (callID name : string) (snap : option string) (b : option (content * bool)) : Prop :=
  ∃ t input, snap = Some t ∧ same_object input t ∧ b = Some (CTool callID name input, false).

Section matching.
Context (parts : gmap part_key Z) (seen : gmap part_key part_kind) (value : part_kind → gmap part_key string)
  (reas : option Z) (pend : gmap string pendingToolBlock).

(** What the client holds for the [j]th announced content. *)
Definition matched (j : nat) (e : entry) (b : option (content * bool)) : Prop :=
  match e with
  | EText k key t =>
      seen !! key = Some k ∧ t = default "" (value k !! key) ∧
      b = Some (CText t, bool_decide (parts !! key = Some (Z.of_nat j)))
  | ECall id callID name snap =>
      match pend !! id with
      | Some p => call_pending j callID name snap p b
      | None => call_closed callID name snap b
      end
  | EThink t =>
      b = Some (if bool_decide (reas = Some (Z.of_nat j)) then (CThinking t "", true) else (CThinking t SyntheticThinkingSignature, false))
  end.
End matching.

(** The accumulated values of a kind. *)
Definition pick {A} (t r : A) (k : part_kind) : A := match k with KText => t | KRefusal => r end.

Definition entry_key (e : entry) : option (string * Z + string) :=
  match e with EText _ key _ => Some (inl key) | ECall id _ _ _ => Some (inr id) | EThink _ => None end.

Definition is_think (e : entry) : bool := match e with EThink _ => true | _ => false end.

(** A call whose block has started. *)
Definition call_live (pend : gmap string pendingToolBlock) (e : entry) : bool :=
  match e with
  | ECall id _ _ _ => match pend !! id with Some p => tb_started p | None => true end
  | _ => false
  end.

(** The announced contents [l] and the machine. *)
Record Shape (s : msgState) (l : list entry) : Prop := {
  sh_next : m_blockIndex s = Z.of_nat (length l);
  sh_unique : ∀ i j a b, l !! i = Some a → l !! j = Some b → entry_key a ≠ None → entry_key a = entry_key b → i = j;
  sh_parts : ∀ key i, m_partBlocks s !! key = Some i → ∃ j k t, i = Z.of_nat j ∧ l !! j = Some (EText k key t);
  sh_seen : ∀ k key t, EText k key t ∈ l → m_partsSeen s !! key = Some k;
  sh_bufs : ∀ k key, pick (m_textBufs s) (m_refusalBufs s) k !! key ≠ None → m_partsSeen s !! key = Some k;
  sh_reas : ∀ i, m_reasoningBlockIndex s = Some i →
    ∃ l1 t l2, l = (l1 ++ EThink t :: l2)%list ∧ i = Z.of_nat (length l1) ∧ Forall (λ e, is_think e = false) l2;
  sh_pend : ∀ id p, m_pendingToolStart s !! id = Some p →
    tool_ok id (default [] (m_bufferedToolFragments s !! id)) (m_fsm s) p ∧
    ∃ j callID name snap, l !! j = Some (ECall id callID name snap);
  sh_frags : ∀ id, m_bufferedToolFragments s !! id ≠ None → ∃ p, m_pendingToolStart s !! id = Some p ∧ tb_deferred p = true;
  sh_calls : ∀ id callID name snap, ECall id callID name snap ∈ l → m_addedItems s !! id ≠ None;
  sh_queue : NoDup (m_deferredTools s) ∧
    ∀ id, id ∈ m_deferredTools s ↔ ∃ p, m_pendingToolStart s !! id = Some p ∧ tb_deferred p = true;
  sh_one : ∀ id1 id2 p1 p2, m_pendingToolStart s !! id1 = Some p1 → m_pendingToolStart s !! id2 = Some p2 →
    tb_started p1 = true → tb_started p2 = true → id1 = id2;
  sh_saw : m_sawToolUse s = existsb (call_live (m_pendingToolStart s)) l;
}.

(** What the machine says of the [j]th content. *)
Definition matches (s : msgState) : nat → entry → option (content * bool) → Prop :=
  matched (m_partBlocks s) (m_partsSeen s) (pick (m_textBufs s) (m_refusalBufs s)) (m_reasoningBlockIndex s) (m_pendingToolStart s).

(** ... and the client's blocks. *)
Record Inv (s : msgState) (blocks : gmap Z (content * bool)) (l : list entry) : Prop := {
  iv_shape : Shape s l;
  iv_used : ∀ i, blocks !! i ≠ None → 0 <= i < Z.of_nat (length l);
  iv_match : ∀ j e, l !! j = Some e → matches s j e (blocks !! Z.of_nat j);
}.

(** Between events, a block waits only while another is open ... *)
Definition no_wait (s : msgState) : Prop := m_deferredTools s = [] ∨ anyContentBlockOpen s = true.

(** ... and a call that has its identity is started or waits. *)
Definition placed (p : pendingToolBlock) : Prop :=
  tb_started p = true ∨ tb_deferred p = true ∨ tb_callID p = "" ∨ tb_name p = "".

Definition settled (s : msgState) : Prop :=
  no_wait s ∧ ∀ id p, m_pendingToolStart s !! id = Some p → placed p.

(** The fields of no concern here, reset. *)
Definition kept (s : msgState) : msgState :=
  set_budget newStreamBudget (set_report fresh_report (set_totalAccumulated 0 (set_reasoningLossRecorded false
    (set_usageComponentsLossRecorded false (set_usageClampNotes no_notes (set_phaseGated ∅ (set_controlsGated false
      (set_usage None (set_message {| msg_StopReason := None; msg_Usage := None |} (set_doneItems ∅ (set_closedToolCalls ∅
        (set_partCounts ∅ (set_upstream ("", "", 0%Qc) (set_lastSequence 0 (set_sawErrorEvent false s))))))))))))))).

Lemma Inv_kept s s' blocks l : kept s' = kept s → Inv s blocks l → Inv s' blocks l.
Proof.
  intros Hk [[] Hu Hm].
  assert (∀ A (g : msgState → A), (∀ s, g (kept s) = g s) → g s' = g s) as Hg.
  { intros A g Hgk. by rewrite <- (Hgk s'), Hk. }
  constructor; [constructor|done|]; unfold matches; rewrite ?(Hg _ m_blockIndex), ?(Hg _ m_partBlocks), ?(Hg _ m_partsSeen), ?(Hg _ m_reasoningBlockIndex),
    ?(Hg _ m_pendingToolStart), ?(Hg _ m_addedItems), ?(Hg _ m_deferredTools), ?(Hg _ m_sawToolUse),
    ?(Hg _ m_bufferedToolFragments), ?(Hg _ m_fsm), ?(Hg _ m_textBufs), ?(Hg _ m_refusalBufs) by done; done.
Qed.

Lemma tool_ok_steady id frags f f' p : steady f f' → tool_ok id frags f p → tool_ok id frags f' p.
Proof.
  intros Hs []. constructor; try done.
  - intros Hne. by eapply steady_sealed, tk_sealed0.
  - intros Hd. destruct (tk_done0 Hd). split; [done|by eapply steady_finished].
Qed.

Lemma Inv_fsm s blocks l f' : steady (m_fsm s) f' → Inv s blocks l → Inv (set_fsm f' s) blocks l.
Proof.
  intros Hs [[] Hu Hm]. constructor; [constructor; try done|done|done]. simpl. intros id p Hp. destruct (sh_pend0 id p Hp) as [Hk Hl].
  split; [by eapply tool_ok_steady|done].
Qed.

Section reading.
Context {s : msgState} {blocks : gmap Z (content * bool)} {l : list entry} (HI : Inv s blocks l).

Lemma block_entry i b : blocks !! i = Some b → ∃ j e, i = Z.of_nat j ∧ l !! j = Some e.
Proof.
  intros Hb. destruct (iv_used _ _ _ HI i) as [H0 H1]; [by rewrite Hb|]. exists (Z.to_nat i).
  destruct (lookup_lt_is_Some_2 l (Z.to_nat i)) as [e He]; [lia|]. exists e. split; [lia|done].
Qed.

Lemma block_fresh : blocks !! m_blockIndex s = None.
Proof.
  destruct (blocks !! m_blockIndex s) as [b|] eqn:Hb; [|done]. rewrite (sh_next _ _ (iv_shape _ _ _ HI)) in Hb.
  destruct (iv_used _ _ _ HI (Z.of_nat (length l))) as [_ Hlt]; [by rewrite Hb|lia].
Qed.

Lemma pend_entry id p :
  m_pendingToolStart s !! id = Some p →
  ∃ j snap, l !! j = Some (ECall id (tb_callID p) (tb_name p) snap) ∧ tb_blockIndex p = Z.of_nat j ∧
    blocks !! Z.of_nat j = (if tb_started p then Some (CTool (tb_callID p) (tb_name p) (tb_arguments p), true) else None) ∧
    (if tb_done p then ∃ t, snap = Some t ∧ same_object (tb_arguments p) t else snap = None).
Proof.
  intros Hp. destruct (sh_pend _ _ (iv_shape _ _ _ HI) id p Hp) as (_ & j & callID & name & snap & Hj).
  pose proof (iv_match _ _ _ HI j _ Hj) as Hm. simpl in Hm. rewrite Hp in Hm. destruct Hm as (Hi & <- & <- & Hb & Hd). eauto 10.
Qed.

Lemma part_entry key i :
  m_partBlocks s !! key = Some i →
  ∃ j k, i = Z.of_nat j ∧ l !! j = Some (EText k key (default "" (pick (m_textBufs s) (m_refusalBufs s) k !! key))) ∧
    m_partsSeen s !! key = Some k ∧ blocks !! i = Some (CText (default "" (pick (m_textBufs s) (m_refusalBufs s) k !! key)), true).
Proof.
  intros Hp. destruct (sh_parts _ _ (iv_shape _ _ _ HI) key i Hp) as (j & k & t & -> & Hj). exists j, k.
  pose proof (iv_match _ _ _ HI j _ Hj) as (Hs & -> & Hb). split_and!; [done..|]. rewrite Hb, bool_decide_eq_true_2 by done. done.
Qed.

Lemma closed_blocks : anyContentBlockOpen s = false → map_Forall (λ _ b, b.2 = false) blocks.
Proof.
  unfold anyContentBlockOpen. intros [[Hp%negb_false_iff%bool_decide_eq_true_1 Hr]%orb_false_iff
    Ht%negb_false_iff%bool_decide_eq_true_1]%orb_false_iff i b Hb.
  destruct (block_entry i b Hb) as (j & e & -> & He). pose proof (iv_match _ _ _ HI j e He) as Hm. rewrite Hb in Hm.
  destruct e as [k key t|id callID name snap|t]; simpl in Hm.
  - destruct Hm as (_ & _ & [= ->]). simpl. by rewrite Hp, lookup_empty.
  - destruct (m_pendingToolStart s !! id) as [p|] eqn:Ep.
    + destruct Hm as (_ & _ & _ & Hm & _). by rewrite (Ht id p Ep) in Hm.
    + by destruct Hm as (? & ? & _ & _ & [= ->]).
  - destruct (m_reasoningBlockIndex s); [done|]. rewrite bool_decide_eq_false_2 in Hm by done. by injection Hm as ->.
Qed.

(** With no thinking block of the machine, none is open. *)
Lemma thinking_blocks : m_reasoningBlockIndex s = None → map_Forall (λ _ b, b.2 = false ∨ is_thinking b.1 = false) blocks.
Proof.
  intros Hr i b Hb. destruct (block_entry i b Hb) as (j & e & -> & He). pose proof (iv_match _ _ _ HI j e He) as Hm. rewrite Hb in Hm.
  destruct e as [k key t|id callID name snap|t]; simpl in Hm.
  - destruct Hm as (_ & _ & [= ->]). by right.
  - destruct (m_pendingToolStart s !! id) as [p|]; [|destruct Hm as (? & ? & _ & _ & [= ->]); by left].
    destruct Hm as (_ & _ & _ & Hm & _). destruct (tb_started p); [|done]. injection Hm as ->. by right.
  - rewrite Hr, bool_decide_eq_false_2 in Hm by done. injection Hm as ->. by left.
Qed.

(** When the calls and the parts are closed, only thinking may be open. *)
Lemma answer_blocks :
  m_partBlocks s = ∅ → m_pendingToolStart s = ∅ → map_Forall (λ _ b, b.2 = false ∨ is_thinking b.1 = true) blocks.
Proof.
  intros Hp Ht i b Hb.
  destruct (block_entry i b Hb) as (j & e & -> & He). pose proof (iv_match _ _ _ HI j e He) as Hm. rewrite Hb in Hm.
  destruct e as [k key t|id callID name snap|t]; simpl in Hm.
  - destruct Hm as (_ & _ & [= ->]). simpl. rewrite Hp, lookup_empty. by left.
  - rewrite Ht, lookup_empty in Hm. destruct Hm as (? & ? & _ & _ & [= ->]). by left.
  - injection Hm as ->. case_bool_decide; [by right|by left].
Qed.
End reading.

(** ** Transitions: parts and thinking *)

Lemma lookup_snoc_inv {A} (l : list A) x j e : (l ++ [x])%list !! j = Some e → l !! j = Some e ∨ j = length l ∧ e = x.
Proof.
  intros [Hj|[Hj He]]%lookup_app_Some; [by left|]. right. destruct (j - length l)%nat eqn:Hd; simpl in He; [|done].
  injection He as <-. split; [lia|done].
Qed.

Lemma existsb_snoc {A} (f : A → bool) l x : existsb f (l ++ [x])%list = existsb f l || f x.
Proof. rewrite existsb_app. simpl. by rewrite orb_false_r. Qed.

Lemma existsb_agree {A} (f g : A → bool) l : (∀ a, a ∈ l → f a = g a) → existsb f l = existsb g l.
Proof.
  induction l as [|a l IH]; intros H; simpl; [done|]. f_equal; [apply H; by left|]. apply IH. intros b Hb. apply H. by right.
Qed.

(** Appending a content that no earlier one has the key of keeps the keys apart. *)
Lemma unique_snoc l e :
  (∀ i j a b, l !! i = Some a → l !! j = Some b → entry_key a ≠ None → entry_key a = entry_key b → i = j) →
  (∀ a, a ∈ l → entry_key a ≠ None → entry_key a ≠ entry_key e) →
  ∀ i j a b, (l ++ [e])%list !! i = Some a → (l ++ [e])%list !! j = Some b → entry_key a ≠ None → entry_key a = entry_key b → i = j.
Proof.
  intros Hu Hf i j a b [Hi|[-> ->]]%lookup_snoc_inv [Hj|[-> ->]]%lookup_snoc_inv Hn He; [by eapply Hu| | |done].
  - exfalso. eapply Hf; [by eapply list_elem_of_lookup_2|done|done].
  - exfalso. eapply Hf; [by eapply list_elem_of_lookup_2| |done]. by rewrite <- He.
Qed.

(** [e'] has the place of [e]. *)
Definition same_entry (e e' : entry) : Prop :=
  match e, e' with
  | EText k key _, EText k' key' _ => k' = k ∧ key' = key
  | ECall id callID name _, ECall id' callID' name' _ => id' = id ∧ callID' = callID ∧ name' = name
  | EThink _, EThink _ => True
  | _, _ => False
  end.

Lemma same_key e e' : same_entry e e' → entry_key e' = entry_key e.
Proof. destruct e, e'; simpl; intros Hs; try done; [by destruct Hs as [-> ->]|by destruct Hs as (-> & _)]. Qed.

Lemma lookup_insert_entry (l : list entry) j e e' i a :
  l !! j = Some e → same_entry e e' → <[j := e']> l !! i = Some a → ∃ b, l !! i = Some b ∧ (a = b ∧ i ≠ j ∨ a = e' ∧ b = e ∧ i = j).
Proof.
  intros Hj Hs. destruct (decide (i = j)) as [->|Hne].
  - rewrite list_lookup_insert_eq by (by eapply lookup_lt_Some). intros [= <-]. eauto 10.
  - rewrite list_lookup_insert_ne by done. eauto 10.
Qed.

Lemma lookup_entry_insert (l : list entry) j e e' i b :
  l !! j = Some e → same_entry e e' → l !! i = Some b → ∃ a, <[j := e']> l !! i = Some a ∧ (a = b ∧ i ≠ j ∨ a = e' ∧ b = e ∧ i = j).
Proof.
  intros Hj Hs Hi. destruct (decide (i = j)) as [->|Hne].
  - rewrite list_lookup_insert_eq by (by eapply lookup_lt_Some). rewrite Hj in Hi. injection Hi as <-. eauto 10.
  - rewrite list_lookup_insert_ne by done. eauto 10.
Qed.

Lemma existsb_insert (f : entry → bool) (l : list entry) j e e' :
  l !! j = Some e → f e' = f e → existsb f (<[j := e']> l) = existsb f l.
Proof.
  revert j. induction l as [|a l IH]; intros [|j]; simpl; try done.
  - by intros [= ->] ->.
  - intros Hj Hf. f_equal. by apply IH.
Qed.

(** The machine does not mind what has been streamed of a content. *)
Lemma Shape_entry s l j e e' : Shape s l → l !! j = Some e → same_entry e e' → Shape s (<[j := e']> l).
Proof.
  intros [] Hj Hs. pose proof (same_key _ _ Hs) as Hkey. constructor; try done.
  - by rewrite length_insert.
  - intros i1 i2 a b (a0 & Ha & Hca)%(lookup_insert_entry _ _ _ _ _ _ Hj Hs) (b0 & Hb & Hcb)%(lookup_insert_entry _ _ _ _ _ _ Hj Hs) Hn He.
    apply (sh_unique0 i1 i2 a0 b0 Ha Hb); destruct Hca as [[-> _]|(-> & -> & _)], Hcb as [[-> _]|(-> & -> & _)]; congruence.
  - intros key i Hi. destruct (sh_parts0 key i Hi) as (j0 & k & t & -> & H0).
    destruct (lookup_entry_insert _ _ _ _ _ _ Hj Hs H0) as (a & Ha & [[-> _]|(-> & He & _)]); [eauto 10|].
    subst e. destruct e' as [k' key' t'| |]; try done. destruct Hs as [-> ->]. eauto 10.
  - intros k key t [i (b & Hb & [[<- _]|(He & -> & _)])%(lookup_insert_entry _ _ _ _ _ _ Hj Hs)]%list_elem_of_lookup.
    + eapply sh_seen0. by eapply list_elem_of_lookup_2.
    + subst e'. destruct e as [k' key' t'| |]; try done. destruct Hs as [-> ->]. eapply sh_seen0. by eapply list_elem_of_lookup_2.
  - intros i Hi. destruct (sh_reas0 i Hi) as (l1 & t & l2 & -> & -> & Hf).
    destruct (Nat.lt_trichotomy j (length l1)) as [Hlt|[->|Hgt]].
    + exists (<[j := e']> l1), t, l2. rewrite insert_app_l, length_insert by done. done.
    + rewrite list_lookup_middle in Hj by done. injection Hj as <-. destruct e' as [| |t']; try done.
      exists l1, t', l2. rewrite insert_app_r_alt, Nat.sub_diag by lia. done.
    + rewrite lookup_app_r in Hj by lia. rewrite insert_app_r_alt by lia.
      destruct (j - length l1)%nat as [|d] eqn:Hd; [lia|]. simpl in *. exists l1, t, (<[d := e']> l2). split_and!; [done..|].
      apply Forall_insert; [done|]. pose proof (Forall_lookup_1 _ _ _ _ Hf Hj) as Hx. by destruct e, e'.
  - intros id p Hp. destruct (sh_pend0 id p Hp) as (Hk & j0 & callID & name & snap & H0). split; [done|].
    destruct (lookup_entry_insert _ _ _ _ _ _ Hj Hs H0) as (a & Ha & [[-> _]|(-> & He & _)]); [eauto 10|].
    subst e. destruct e' as [|id' c' n' s'|]; try done. destruct Hs as (-> & -> & ->). eauto 10.
  - intros id callID name snap [i (b & Hb & [[<- _]|(He & -> & _)])%(lookup_insert_entry _ _ _ _ _ _ Hj Hs)]%list_elem_of_lookup.
    + eapply sh_calls0. by eapply list_elem_of_lookup_2.
    + subst e'. destruct e as [|id' c' n' s'|]; try done. destruct Hs as (-> & -> & ->). eapply sh_calls0. by eapply list_elem_of_lookup_2.
  - rewrite (existsb_insert _ _ j e e' Hj); [done|]. destruct e, e'; try done. by destruct Hs as (-> & _).
Qed.

(** A content and its block change together. *)
Lemma Inv_change s s' blocks blocks' l j e e' :
  Inv s blocks l → l !! j = Some e → same_entry e e' → Shape s' l →
  (∀ i a o, i ≠ j → l !! i = Some a → matches s i a o → matches s' i a o) →
  (∀ i, i ≠ Z.of_nat j → blocks' !! i = blocks !! i) →
  matches s' j e' (blocks' !! Z.of_nat j) → Inv s' blocks' (<[j := e']> l).
Proof.
  intros HI Hj Hs Hsh Hother Hb Hm. constructor; [by eapply Shape_entry| |].
  - intros i. rewrite length_insert. apply lookup_lt_Some in Hj. destruct (decide (i = Z.of_nat j)) as [->|Hne]; [lia|].
    rewrite Hb by done. apply (iv_used _ _ _ HI).
  - intros i a (a0 & Ha & [[-> Hne]|(-> & -> & ->)])%(lookup_insert_entry _ _ _ _ _ _ Hj Hs); [|done].
    rewrite Hb by lia. eapply Hother; [done..|]. by apply (iv_match _ _ _ HI).
Qed.

Lemma Inv_update s s' blocks l j e e' b :
  Inv s blocks l → l !! j = Some e → same_entry e e' → Shape s' l →
  (∀ i a o, i ≠ j → l !! i = Some a → matches s i a o → matches s' i a o) →
  matches s' j e' (Some b) → Inv s' (<[Z.of_nat j := b]> blocks) (<[j := e']> l).
Proof.
  intros HI Hj Hs Hsh Hother Hm. apply (Inv_change s s' blocks _ l j e e' HI Hj Hs Hsh Hother).
  - intros i Hi. by rewrite lookup_insert_ne.
  - by rewrite lookup_insert_eq.
Qed.

(** Only its block changes. *)
Lemma Inv_block s s' blocks l j e b :
  Inv s blocks l → l !! j = Some e → Shape s' l →
  (∀ i a o, i ≠ j → l !! i = Some a → matches s i a o → matches s' i a o) →
  matches s' j e (Some b) → Inv s' (<[Z.of_nat j := b]> blocks) l.
Proof.
  intros HI Hj Hsh Hother Hm. rewrite <- (list_insert_id l j e Hj).
  apply (Inv_update s s' blocks l j e e b); try done. by destruct e.
Qed.

Lemma map_insert_at {A} (g : A → A) (l : list A) j e :
  l !! j = Some e → (∀ i a, i ≠ j → l !! i = Some a → g a = a) → map g l = <[j := g e]> l.
Proof.
  revert j. induction l as [|a l IH]; intros [|j]; simpl; try done.
  - intros [= ->] Hg. f_equal. clear IH. assert (∀ i a, l !! i = Some a → g a = a) as Hl by (intros i a Ha; by apply (Hg (S i))).
    clear Hg. induction l as [|a l IH]; simpl; [done|]. f_equal; [by apply (Hl 0%nat)|]. apply IH. intros i b Hb. by apply (Hl (S i)).
  - intros Hj Hg. f_equal; [by apply (Hg 0%nat)|]. apply IH; [done|]. intros i b Hi Hb. apply (Hg (S i)); [congruence|done].
Qed.

Lemma announce_text s l j k key t d :
  Shape s l → l !! j = Some (EText k key t) → map (add_text k key d) l = <[j := EText k key (t ++ d)]> l.
Proof.
  intros Hs Hj. rewrite (map_insert_at _ l j (EText k key t)); [|done|].
  - simpl. by rewrite bool_decide_eq_true_2.
  - intros i [k' key' t'| |] Hne Hi; simpl; try done. case_bool_decide as Hk; [|done]. destruct Hk as [-> ->].
    destruct Hne. by eapply (sh_unique _ _ Hs).
Qed.

Lemma announce_snapshot s l j id callID name a :
  Shape s l → l !! j = Some (ECall id callID name None) → map (add_snapshot id a) l = <[j := ECall id callID name (Some a)]> l.
Proof.
  intros Hs Hj. rewrite (map_insert_at _ l j (ECall id callID name None)); [|done|].
  - simpl. by rewrite String.eqb_refl.
  - intros i [|id' c' n' [s'|]|] Hne Hi; simpl; try done. destruct (String.eqb_spec id' id) as [->|]; [|done].
    destruct Hne. by eapply (sh_unique _ _ Hs).
Qed.

Lemma add_thinking_skip d l1 l2 : Forall (λ e, is_think e = false) l1 → add_thinking d (l1 ++ l2) = (l1 ++ add_thinking d l2)%list.
Proof. induction 1 as [|e l1 He _ IH]; simpl; [done|]. destruct e; try done; by rewrite IH. Qed.

Lemma announce_thinking d l1 t l2 :
  Forall (λ e, is_think e = false) l2 →
  rev (add_thinking d (rev (l1 ++ EThink t :: l2))) = <[length l1 := EThink (t ++ d)]> (l1 ++ EThink t :: l2)%list.
Proof.
  intros Hf. rewrite rev_app_distr. simpl. rewrite <- !app_assoc. rewrite add_thinking_skip.
  - simpl. rewrite rev_app_distr. simpl. rewrite !rev_involutive, <- app_assoc. simpl. by rewrite insert_app_r_alt, Nat.sub_diag by done.
  - by apply List.Forall_rev.
Qed.

Section transitions.
Context {s : msgState} {blocks : gmap Z (content * bool)} {l : list entry} (HI : Inv s blocks l).

(** Two contents under one part, or one call, are the same. *)
Lemma same_place i j a b : l !! i = Some a → l !! j = Some b → entry_key a ≠ None → entry_key a = entry_key b → i = j.
Proof. apply (sh_unique _ _ (iv_shape _ _ _ HI)). Qed.

Lemma Inv_text key i k d :
  m_partBlocks s !! key = Some i → m_partsSeen s !! key = Some k →
  let t := default "" (bufs k s !! key) in
  Inv (set_accumulated k (<[key := t ++ d]> (bufs k s)) s) (<[i := (CText (t ++ d), true)]> blocks) (map (add_text k key d) l).
Proof.
  intros Hp Hk t. destruct (part_entry HI key i Hp) as (j & k' & -> & Hj & Hs & Hb).
  assert (k' = k) as -> by congruence. rewrite (announce_text s l j k key _ d (iv_shape _ _ _ HI) Hj).
  apply (Inv_update s _ blocks l j _ _ _ HI Hj).
  - done.
  - destruct (iv_shape _ _ _ HI). destruct k; constructor; try done; simpl; intros [] key'; simpl;
      try (destruct (decide (key' = key)) as [->|Hne]; [by rewrite lookup_insert_eq|rewrite lookup_insert_ne by done]);
      intros Hv; first [ by apply (sh_bufs0 KText) | by apply (sh_bufs0 KRefusal) ].
  - intros i' [k' key' t'| |] o Hne Hi'; [|by destruct k..]. unfold matches. simpl. intros (Hs' & -> & ->).
    assert (key' = key → False) as Hkey. { intros ->. apply Hne. by eapply same_place. }
    destruct k, k'; simpl; split_and!; try done; by rewrite lookup_insert_ne by congruence.
  - destruct k; unfold matches; simpl; split_and!; try done; try (by rewrite lookup_insert_eq);
      by rewrite bool_decide_eq_true_2.
Qed.

Lemma Inv_part_done key i k :
  m_partBlocks s !! key = Some i → m_partsSeen s !! key = Some k →
  ∃ t, blocks !! i = Some (CText t, true) ∧
    Inv (set_partBlocks (delete key (m_partBlocks s)) s) (<[i := (CText t, false)]> blocks) l.
Proof.
  intros Hp Hk. destruct (part_entry HI key i Hp) as (j & k' & -> & Hj & Hs & Hb).
  eexists. split; [done|]. apply (Inv_block s _ blocks l j _ _ HI Hj).
  - destruct (iv_shape _ _ _ HI). constructor; try done. simpl. intros key' i' [_ Hi']%lookup_delete_Some. eauto.
  - intros i' [k2 key' t'| |] o Hne Hi'; try done. unfold matches. simpl. intros (Hs' & -> & ->).
    rewrite lookup_delete_ne; [done|]. intros ->. apply Hne. by eapply same_place.
  - unfold matches. simpl. split_and!; [done..|]. by rewrite lookup_delete_eq.
Qed.

Lemma thinking_entry i :
  m_reasoningBlockIndex s = Some i →
  ∃ j t, i = Z.of_nat j ∧ l !! j = Some (EThink t) ∧ blocks !! i = Some (CThinking t "", true) ∧
    ∀ d, rev (add_thinking d (rev l)) = <[j := EThink (t ++ d)]> l.
Proof.
  intros Hr. destruct (sh_reas _ _ (iv_shape _ _ _ HI) i Hr) as (l1 & t & l2 & Hl & -> & Hf).
  exists (length l1), t. assert (l !! length l1 = Some (EThink t)) as Hj by by rewrite Hl, list_lookup_middle.
  split_and!; [done|done| |].
  - pose proof (iv_match _ _ _ HI _ _ Hj) as Hm. unfold matches in Hm. simpl in Hm. by rewrite Hr, bool_decide_eq_true_2 in Hm.
  - intros d. rewrite Hl. by apply announce_thinking.
Qed.

Lemma Inv_thinking_delta i d :
  m_reasoningBlockIndex s = Some i →
  ∃ t, blocks !! i = Some (CThinking t "", true) ∧
    Inv s (<[i := (CThinking (t ++ d) "", true)]> blocks) (rev (add_thinking d (rev l))).
Proof.
  intros Hr. destruct (thinking_entry i Hr) as (j & t & -> & Hj & Hb & Hl). exists t. split; [done|]. rewrite Hl.
  apply (Inv_update s s blocks l j _ _ _ HI Hj); try done; [apply HI|].
  unfold matches. simpl. by rewrite Hr, bool_decide_eq_true_2.
Qed.

Lemma Inv_thinking_done i :
  m_reasoningBlockIndex s = Some i →
  ∃ t, blocks !! i = Some (CThinking t "", true) ∧
    Inv (set_reasoningBlockIndex None s) (<[i := (CThinking t SyntheticThinkingSignature, false)]> blocks) l.
Proof.
  intros Hr. destruct (thinking_entry i Hr) as (j & t & -> & Hj & Hb & Hl). exists t. split; [done|].
  apply (Inv_block s _ blocks l j _ _ HI Hj).
  - by destruct (iv_shape _ _ _ HI).
  - intros i' [| |t'] o Hne Hi'; try done. unfold matches. simpl. rewrite Hr. intros ->.
    rewrite bool_decide_eq_false_2; [done|]. intros [= ?]. lia.
  - done.
Qed.

(** *** New contents *)

(** A content announced under a new index. *)
Lemma Inv_snoc s' blocks' e :
  Shape s' (l ++ [e]) → (∀ j, Z.of_nat j < Z.of_nat (length l) → blocks' !! Z.of_nat j = blocks !! Z.of_nat j) →
  (∀ i, blocks' !! i ≠ None → blocks !! i ≠ None ∨ i = Z.of_nat (length l)) →
  (∀ i a o, l !! i = Some a → matches s i a o → matches s' i a o) →
  matches s' (length l) e (blocks' !! Z.of_nat (length l)) → Inv s' blocks' (l ++ [e]).
Proof.
  intros Hsh Hsame Hnew Hother Hm. constructor; [done| |].
  - intros i [Hi| ->]%Hnew; rewrite length_app; simpl; [apply (iv_used _ _ _ HI) in Hi|]; lia.
  - intros j a [Hj|[-> ->]]%lookup_snoc_inv; [|done]. rewrite Hsame by (apply lookup_lt_Some in Hj; lia).
    eapply Hother; [done|]. by apply (iv_match _ _ _ HI).
Qed.

(** ... and its block started. *)
Lemma Inv_snoc_block s' e b :
  Shape s' (l ++ [e]) → (∀ i a o, l !! i = Some a → matches s i a o → matches s' i a o) →
  matches s' (length l) e (Some b) → Inv s' (<[m_blockIndex s := b]> blocks) (l ++ [e]).
Proof.
  intros Hsh Hother Hm. rewrite (sh_next _ _ (iv_shape _ _ _ HI)). apply Inv_snoc; [done| | |done|by rewrite lookup_insert_eq].
  - intros j Hj. rewrite lookup_insert_ne by lia. done.
  - intros i. destruct (decide (i = Z.of_nat (length l))) as [->|Hne]; [by right|]. rewrite lookup_insert_ne by done. by left.
Qed.
End transitions.

Section new_contents.
Context {s : msgState} {l : list entry} (HS : Shape s l).

Lemma snoc_parts e :
  ∀ key i, m_partBlocks s !! key = Some i → ∃ j k t, i = Z.of_nat j ∧ (l ++ [e])%list !! j = Some (EText k key t).
Proof.
  intros key i (j & k & t & -> & Hj)%(sh_parts _ _ HS). exists j, k, t. split; [done|]. by apply lookup_app_l_Some.
Qed.

Lemma snoc_pend e :
  ∀ id p, m_pendingToolStart s !! id = Some p →
  tool_ok id (default [] (m_bufferedToolFragments s !! id)) (m_fsm s) p ∧
  ∃ j callID name snap, (l ++ [e])%list !! j = Some (ECall id callID name snap).
Proof.
  intros id p Hp. destruct (sh_pend _ _ HS id p Hp) as (Hk & j & callID & name & snap & Hj). split; [done|].
  exists j, callID, name, snap. by apply lookup_app_l_Some.
Qed.

Lemma snoc_reas e : is_think e = false → ∀ i, m_reasoningBlockIndex s = Some i →
  ∃ l1 t l2, (l ++ [e])%list = (l1 ++ EThink t :: l2)%list ∧ i = Z.of_nat (length l1) ∧ Forall (λ e, is_think e = false) l2.
Proof.
  intros He i Hi. destruct (sh_reas _ _ HS i Hi) as (l1 & t & l2 & -> & -> & Hf). exists l1, t, (l2 ++ [e])%list.
  split_and!; [by rewrite <- app_assoc|done|]. apply Forall_app. by repeat constructor.
Qed.

Lemma snoc_next e : m_blockIndex s + 1 = Z.of_nat (length (l ++ [e])).
Proof. rewrite length_app, (sh_next _ _ HS). simpl. lia. Qed.

(** A message part. *)
Lemma Shape_part_added key k :
  m_partsSeen s !! key = None →
  Shape (set_blockIndex (m_blockIndex s + 1) (set_partsSeen (<[key := k]> (m_partsSeen s))
           (set_partBlocks (<[key := m_blockIndex s]> (m_partBlocks s)) s))) (l ++ [EText k key ""]).
Proof.
  intros Hseen. pose proof HS as [].
  constructor; simpl; try done; try (by apply snoc_pend); try (by apply snoc_reas); try (by apply snoc_next).
  - apply unique_snoc; [done|]. intros [k' key' t| |] Ha; simpl; try done. intros _ [= ->].
    apply sh_seen0 in Ha. congruence.
  - intros key' i [[<- <-]|[Hne Hi]]%lookup_insert_Some; [|by apply snoc_parts].
    exists (length l), k, "". split; [done|]. by rewrite list_lookup_middle.
  - intros k' key' t [He|He%list_elem_of_singleton]%elem_of_app; [|injection He as -> -> ->; by rewrite lookup_insert_eq].
    apply sh_seen0 in He. by rewrite lookup_insert_ne by congruence.
  - intros k' key' Hb%sh_bufs0. by rewrite lookup_insert_ne by congruence.
  - intros id callID name snap [He|He%list_elem_of_singleton]%elem_of_app; [by eapply sh_calls0|done].
  - by rewrite existsb_snoc, orb_false_r.
Qed.

(** A summary of reasoning. *)
Lemma Shape_thinking_added :
  Shape (set_blockIndex (m_blockIndex s + 1) (set_reasoningBlockIndex (Some (m_blockIndex s)) s)) (l ++ [EThink ""]).
Proof.
  pose proof HS as [].
  constructor; simpl; try done; try (by apply snoc_pend); try (by apply snoc_parts); try (by apply snoc_next).
  - apply unique_snoc; [done|]. by intros [] _ Hn.
  - intros k' key' t [He|He%list_elem_of_singleton]%elem_of_app; [by eapply sh_seen0|done].
  - intros i [= <-]. by exists l, "", [].
  - intros id callID name snap [He|He%list_elem_of_singleton]%elem_of_app; [by eapply sh_calls0|done].
  - by rewrite existsb_snoc, orb_false_r.
Qed.

Definition new_block (id callID name : string) (outputIndex : Z) : pendingToolBlock :=
  {| tb_blockIndex := m_blockIndex s; tb_outputIndex := outputIndex; tb_itemID := id; tb_callID := callID; tb_name := name;
     tb_arguments := ""; tb_started := false; tb_deferred := false; tb_done := false; tb_doneSuffix := "" |}.

(** A call, of an item that was just added. *)
Lemma Shape_call_added id callID name oi x :
  m_addedItems s !! id = None →
  Shape (set_pendingToolStart (<[id := new_block id callID name oi]> (m_pendingToolStart s))
           (set_blockIndex (m_blockIndex s + 1) (set_addedItems (<[id := x]> (m_addedItems s)) s))) (l ++ [ECall id callID name None]).
Proof.
  intros Hadd. pose proof HS as [].
  assert (∀ c n sn, ECall id c n sn ∈ l → False) as Hfresh by (intros c n sn He; by eapply sh_calls0).
  assert (m_pendingToolStart s !! id = None) as Hnone.
  { destruct (m_pendingToolStart s !! id) eqn:Hp; [|done]. destruct (sh_pend0 _ _ Hp) as (_ & j & c & n & sn & Hj).
    exfalso. eapply Hfresh. by eapply list_elem_of_lookup_2. }
  constructor; simpl; try done; try (by apply snoc_parts); try (by apply snoc_reas); try (by apply snoc_next).
  - apply unique_snoc; [done|]. intros [|id' c n sn|] Ha; simpl; try done. intros _ [= ->]. by eapply Hfresh.
  - intros k' key' t [He|He%list_elem_of_singleton]%elem_of_app; [by eapply sh_seen0|done].
  - intros id' p [[<- <-]|[Hne Hp]]%lookup_insert_Some; [|by apply snoc_pend].
    split; [|exists (length l); eexists _, _, _; by rewrite list_lookup_middle].
    destruct (m_bufferedToolFragments s !! id) eqn:Hf; [|by constructor].
    destruct (sh_frags0 id) as (p & Hp & _); [by rewrite Hf|congruence].
  - intros id' (p & Hp & Hd)%sh_frags0. exists p. by rewrite lookup_insert_ne by congruence.
  - intros id' c n sn [He|He%list_elem_of_singleton]%elem_of_app; [|injection He as -> -> -> ->; by rewrite lookup_insert_eq].
    destruct (decide (id' = id)) as [->|Hne]; [by rewrite lookup_insert_eq|]. rewrite lookup_insert_ne by done. by eapply sh_calls0.
  - split; [apply sh_queue0|]. intros id'. rewrite (proj2 sh_queue0). split.
    + intros (p & Hp & Hd). exists p. by rewrite lookup_insert_ne by congruence.
    + intros (p & [[<- <-]|[Hne Hp]]%lookup_insert_Some & Hd); [done|]. by exists p.
  - intros id1 id2 p1 p2 [[<- <-]|[? Hp1]]%lookup_insert_Some [[<- <-]|[? Hp2]]%lookup_insert_Some Hs1 Hs2; try done. by eapply sh_one0.
  - rewrite existsb_snoc. simpl. rewrite lookup_insert_eq, orb_false_r, sh_saw0. apply existsb_agree.
    intros [|id' c n sn|] Ha; try done. simpl. rewrite lookup_insert_ne; [done|]. intros <-. by eapply Hfresh.
Qed.
End new_contents.

(** ** Transitions: calls *)

(** What a change of a call leaves alone. *)
Definition others (s : msgState) :=
  (m_partBlocks s, m_partsSeen s, m_textBufs s, m_refusalBufs s, m_reasoningBlockIndex s, m_blockIndex s, m_addedItems s, m_fsm s).

Section calls.
Context {s s' : msgState} {l : list entry} {id : string} {p : pendingToolBlock}.
Context (HS : Shape s l) (Hp : m_pendingToolStart s !! id = Some p) (Ho : others s' = others s).

Lemma others_fields :
  m_partBlocks s' = m_partBlocks s ∧ m_partsSeen s' = m_partsSeen s ∧ m_textBufs s' = m_textBufs s ∧
  m_refusalBufs s' = m_refusalBufs s ∧ m_reasoningBlockIndex s' = m_reasoningBlockIndex s ∧ m_blockIndex s' = m_blockIndex s ∧
  m_addedItems s' = m_addedItems s ∧ m_fsm s' = m_fsm s.
Proof. unfold others in Ho. by injection Ho as -> -> -> -> -> -> -> ->. Qed.

Lemma call_elem : ∃ callID name snap, ECall id callID name snap ∈ l.
Proof.
  destruct (sh_pend _ _ HS id p Hp) as (_ & j & callID & name & snap & Hj). do 3 eexists. by eapply list_elem_of_lookup_2.
Qed.

(** A pending call changes. *)
Lemma Shape_block p' :
  m_pendingToolStart s' = <[id := p']> (m_pendingToolStart s) →
  tool_ok id (default [] (m_bufferedToolFragments s' !! id)) (m_fsm s) p' →
  (∀ id', id' ≠ id → m_bufferedToolFragments s' !! id' = m_bufferedToolFragments s !! id') →
  (m_bufferedToolFragments s' !! id ≠ None → tb_deferred p' = true) →
  NoDup (m_deferredTools s') →
  (∀ id', id' ∈ m_deferredTools s' ↔ (id' = id ∧ tb_deferred p' = true) ∨ (id' ≠ id ∧ id' ∈ m_deferredTools s)) →
  (tb_started p = true → tb_started p' = true) →
  (tb_started p' = true → tb_started p = true ∨ ∀ id' p0, m_pendingToolStart s !! id' = Some p0 → tb_started p0 = false) →
  m_sawToolUse s' = m_sawToolUse s || tb_started p' → Shape s' l.
Proof.
  intros Hpend Hk Hf Hfd Hnd Hq Hst Hone Hsaw. pose proof HS as [].
  destruct others_fields as (E1 & E2 & E3 & E4 & E5 & E6 & E7 & E8).
  constructor; rewrite ?E1, ?E2, ?E3, ?E4, ?E5, ?E6, ?E7, ?E8, ?Hpend; try done.
  - intros id' p0 [[<- <-]|[Hne H0]]%lookup_insert_Some.
    + split; [done|]. by apply (sh_pend0 _ _ Hp).
    + rewrite Hf by done. by apply sh_pend0.
  - intros id'. destruct (decide (id' = id)) as [->|Hne]; [rewrite lookup_insert_eq; eauto|].
    rewrite Hf, lookup_insert_ne by done. apply sh_frags0.
  - split; [done|]. intros id'. rewrite Hq, (proj2 sh_queue0). split.
    + intros [[-> Hd]|[Hne (p0 & H0 & Hd)]]; [exists p'; by rewrite lookup_insert_eq|exists p0; by rewrite lookup_insert_ne].
    + intros (p0 & [[<- <-]|[Hne H0]]%lookup_insert_Some & Hd); [by left|right; eauto].
  - assert (∀ id' p0, id' ≠ id → m_pendingToolStart s !! id' = Some p0 → tb_started p0 = true → tb_started p' = true → False) as Hx.
    { intros id' p0 Hne H0 Hs0 Hs'. destruct (Hone Hs') as [Hs|Hnone]; [|by rewrite (Hnone _ _ H0) in Hs0].
      by apply Hne, (sh_one0 _ _ _ _ H0 Hp). }
    intros id1 id2 p1 p2 [[<- <-]|[? Hp1]]%lookup_insert_Some [[<- <-]|[? Hp2]]%lookup_insert_Some Hs1 Hs2; try done.
    + exfalso. by eapply (Hx id2).
    + exfalso. by eapply (Hx id1).
    + by eapply sh_one0.
  - rewrite Hsaw, sh_saw0. destruct call_elem as (c & n & sn & He). apply eq_true_iff_eq. rewrite orb_true_iff, !existsb_exists.
    assert (∀ e, In e l ↔ e ∈ l) as Hin by (intros e; symmetry; apply list_elem_of_In). split.
    + intros [(e & Hel & Hlive)|Hs'].
      * exists e. split; [done|]. destruct e as [|id' c' n' sn'|]; try done. simpl in *.
        destruct (decide (id' = id)) as [->|Hne]; [rewrite lookup_insert_eq; rewrite Hp in Hlive; auto|by rewrite lookup_insert_ne].
      * exists (ECall id c n sn). split; [by apply Hin|]. simpl. by rewrite lookup_insert_eq.
    + intros (e & Hel & Hlive). destruct e as [|id' c' n' sn'|]; try done. simpl in Hlive.
      destruct (decide (id' = id)) as [->|Hne]; [rewrite lookup_insert_eq in Hlive; by right|]. rewrite lookup_insert_ne in Hlive by done.
      left. by exists (ECall id' c' n' sn').
Qed.

(** A call is closed. *)
Lemma Shape_close :
  m_pendingToolStart s' = delete id (m_pendingToolStart s) →
  m_bufferedToolFragments s' = delete id (m_bufferedToolFragments s) →
  NoDup (m_deferredTools s') →
  (∀ id', id' ∈ m_deferredTools s' ↔ id' ≠ id ∧ id' ∈ m_deferredTools s) →
  m_sawToolUse s' = true → Shape s' l.
Proof.
  intros Hpend Hf Hnd Hq Hsaw. pose proof HS as [].
  destruct others_fields as (E1 & E2 & E3 & E4 & E5 & E6 & E7 & E8).
  constructor; rewrite ?E1, ?E2, ?E3, ?E4, ?E5, ?E6, ?E7, ?E8, ?Hpend, ?Hf; try done.
  - intros id' p0 [Hne H0]%lookup_delete_Some. rewrite lookup_delete_ne by done. by apply sh_pend0.
  - intros id'. destruct (decide (id' = id)) as [->|Hne]; [by rewrite lookup_delete_eq|].
    rewrite !lookup_delete_ne by done. apply sh_frags0.
  - split; [done|]. intros id'. rewrite Hq, (proj2 sh_queue0). split.
    + intros [Hne (p0 & H0 & Hd)]. exists p0. by rewrite lookup_delete_ne.
    + intros (p0 & [Hne H0]%lookup_delete_Some & Hd). eauto.
  - intros id1 id2 p1 p2 [? Hp1]%lookup_delete_Some [? Hp2]%lookup_delete_Some. by apply sh_one0.
  - rewrite Hsaw. symmetry. apply existsb_exists. destruct call_elem as (c & n & sn & He). exists (ECall id c n sn).
    split; [by apply list_elem_of_In|]. simpl. by rewrite lookup_delete_eq.
Qed.

(** The other contents do not see it. *)
Lemma matches_block pend' j callID name snap i a o :
  m_pendingToolStart s' = pend' → (∀ id', id' ≠ id → pend' !! id' = m_pendingToolStart s !! id') →
  l !! j = Some (ECall id callID name snap) → i ≠ j → l !! i = Some a → matches s i a o → matches s' i a o.
Proof.
  intros Hpend Hne Hj Hij Hi. destruct others_fields as (E1 & E2 & E3 & E4 & E5 & _).
  unfold matches. rewrite E1, E2, E3, E4, E5, Hpend. destruct a as [|id' c n sn|]; try done. simpl.
  rewrite Hne; [done|]. intros ->. apply Hij. by eapply (sh_unique _ _ HS).
Qed.
End calls.

(** *** A call and its block *)
Section call_steps.
Context {s s' : msgState} {blocks : gmap Z (content * bool)} {l : list entry} {id : string} {p : pendingToolBlock}.
Context (HI : Inv s blocks l) (Hp : m_pendingToolStart s !! id = Some p) (Ho : others s' = others s).

Lemma Inv_call p' blocks' j snap snap' :
  l !! j = Some (ECall id (tb_callID p) (tb_name p) snap) → Shape s' l →
  m_pendingToolStart s' = <[id := p']> (m_pendingToolStart s) →
  (∀ i, i ≠ Z.of_nat j → blocks' !! i = blocks !! i) →
  call_pending j (tb_callID p) (tb_name p) snap' p' (blocks' !! Z.of_nat j) →
  Inv s' blocks' (<[j := ECall id (tb_callID p) (tb_name p) snap']> l).
Proof.
  intros Hj HS' Hpend Hb Hm. eapply (Inv_change s s' blocks _ l j _ _ HI Hj); try done.
  - intros i a o Hne Hi. eapply (matches_block (iv_shape _ _ _ HI) Ho _ j _ _ _ i a o Hpend); [|exact Hj|done|done]. intros id' Hid. by rewrite lookup_insert_ne.
  - unfold matches. simpl. by rewrite Hpend, lookup_insert_eq.
Qed.

Lemma Inv_call_closed blocks' j snap t input :
  l !! j = Some (ECall id (tb_callID p) (tb_name p) snap) → Shape s' l →
  m_pendingToolStart s' = delete id (m_pendingToolStart s) →
  (∀ i, i ≠ Z.of_nat j → blocks' !! i = blocks !! i) →
  same_object input t → blocks' !! Z.of_nat j = Some (CTool (tb_callID p) (tb_name p) input, false) →
  Inv s' blocks' (<[j := ECall id (tb_callID p) (tb_name p) (Some t)]> l).
Proof.
  intros Hj HS' Hpend Hb Hso Hm. eapply (Inv_change s s' blocks _ l j _ _ HI Hj); try done.
  - intros i a o Hne Hi. eapply (matches_block (iv_shape _ _ _ HI) Ho _ j _ _ _ i a o Hpend); [|exact Hj|done|done]. intros id' Hid. by rewrite lookup_delete_ne.
  - unfold matches. simpl. rewrite Hpend, lookup_delete_eq. eexists _, _. eauto.
Qed.

(** *** The queue *)

(** A deferred block at the front of the queue starts with its bytes. *)
Context {q : list string} (Hq : m_deferredTools s = id :: q) (Hopen : anyContentBlockOpen s = false).

Lemma front_deferred : tb_deferred p = true.
Proof.
  destruct (sh_queue _ _ (iv_shape _ _ _ HI)) as [_ Hd]. destruct (proj1 (Hd id)) as (p' & Hp' & Hdef); [rewrite Hq; by left|].
  congruence.
Qed.

Lemma front_rest : NoDup q ∧ ∀ id', id' ∈ q ↔ id' ≠ id ∧ id' ∈ m_deferredTools s.
Proof.
  destruct (sh_queue _ _ (iv_shape _ _ _ HI)) as [Hnd _]. rewrite Hq in Hnd. apply NoDup_cons in Hnd as [Hni Hnd].
  split; [done|]. intros id'. rewrite Hq, elem_of_cons. split; [intros Hin; split; [by intros ->|by right]|by intros [Hne [->|Hin]]].
Qed.

Lemma none_started : ∀ id' p0, m_pendingToolStart s !! id' = Some p0 → tb_started p0 = false.
Proof.
  intros id' p0 H0. unfold anyContentBlockOpen in Hopen. apply orb_false_iff in Hopen as [_ Ht%negb_false_iff%bool_decide_eq_true_1].
  by apply (Ht id').
Qed.

Lemma Inv_front_started j snap :
  l !! j = Some (ECall id (tb_callID p) (tb_name p) snap) → tb_blockIndex p = Z.of_nat j → tb_done p = false → snap = None →
  m_pendingToolStart s' = <[id := set_started p]> (m_pendingToolStart s) →
  m_bufferedToolFragments s' = delete id (m_bufferedToolFragments s) → m_deferredTools s' = q → m_sawToolUse s' = true →
  Inv s' (<[Z.of_nat j := (CTool (tb_callID p) (tb_name p) (tb_arguments p), true)]> blocks) l.
Proof.
  intros Hj Hi Hd -> Hpend Hf Hdq Hsaw. destruct front_rest as [Hnd Hrest].
  rewrite <- (list_insert_id l j _ Hj) at 1. destruct (sh_pend _ _ (iv_shape _ _ _ HI) id p Hp) as [[] _].
  eapply (Inv_call (set_started p)); [exact Hj| |exact Hpend|..].
  - apply (Shape_block (iv_shape _ _ _ HI) Hp Ho (set_started p)); rewrite ?Hf, ?Hdq; simpl.
    + done.
    + rewrite lookup_delete_eq. simpl. constructor; try done. simpl. by rewrite Hd.
    + intros id' Hne. by rewrite lookup_delete_ne.
    + by rewrite lookup_delete_eq.
    + done.
    + intros id'. rewrite Hrest. split; [by right|by intros [[_ ?]|?]].
    + done.
    + intros _. right. apply none_started.
    + by rewrite Hsaw, orb_true_r.
  - intros i Hne. by rewrite lookup_insert_ne.
  - split_and!; simpl; try done; [by rewrite lookup_insert_eq|]. by rewrite Hd.
Qed.

Lemma Inv_front_closed j snap :
  l !! j = Some (ECall id (tb_callID p) (tb_name p) snap) → tb_blockIndex p = Z.of_nat j →
  (∃ t, snap = Some t ∧ same_object (tb_arguments p) t) →
  m_pendingToolStart s' = delete id (m_pendingToolStart s) →
  m_bufferedToolFragments s' = delete id (m_bufferedToolFragments s) → m_deferredTools s' = q → m_sawToolUse s' = true →
  Inv s' (<[Z.of_nat j := (CTool (tb_callID p) (tb_name p) (tb_arguments p), false)]> blocks) l.
Proof.
  intros Hj Hi (t & -> & Hso) Hpend Hf Hdq Hsaw. destruct front_rest as [Hnd Hrest].
  rewrite <- (list_insert_id l j _ Hj) at 1. eapply Inv_call_closed; try done.
  - apply (Shape_close (iv_shape _ _ _ HI) Hp Ho); rewrite ?Hdq; try done.
  - intros i Hne. by rewrite lookup_insert_ne.
  - by rewrite lookup_insert_eq.
Qed.
End call_steps.

(** ** Computations and the client *)

Abbreviation wpm := (wp reads (λ e : msg_error, e = Panic)).

Abbreviation wpm_ret := (wp_ret reads (λ e : msg_error, e = Panic)).
Abbreviation wpm_fail := (wp_fail reads (λ e : msg_error, e = Panic)).
Abbreviation wpm_bind := (wp_bind reads (λ e : msg_error, e = Panic)).
Abbreviation wpm_mono := (wp_mono reads (λ e : msg_error, e = Panic)).
Abbreviation wpm_gets := (wp_gets reads (λ e : msg_error, e = Panic)).
Abbreviation wpm_modify := (wp_modify reads (λ e : msg_error, e = Panic)).
Abbreviation wpm_when := (wp_when reads (λ e : msg_error, e = Panic)).
Abbreviation wpm_or_fail := (wp_or_fail reads (λ e : msg_error, e = Panic)).
Abbreviation wpm_quiet := (wp_quiet kept (λ e : msg_error, e = Panic) reads).

Abbreviation quietm := (quiet kept (λ e : msg_error, e = Panic)).

Lemma wpm_emit e c' (Q : unit → msgState → client → Prop) s c : read c e = Some c' → Q tt s c' → wpm (emit e) Q s c.
Proof. intros Hr HQ. split; [done|]. exists c'. unfold reads. simpl. rewrite Hr. split; [done|]. by intros ? [= <-]. Qed.

Lemma wpm_require b e (Q : unit → msgState → client → Prop) s c :
  e ≠ Panic → (b = true → Q tt s c) → wpm (require b e) Q s c.
Proof. intros He HQ. destruct b; [by apply wpm_ret, HQ|by apply wpm_fail]. Qed.

Lemma quietm_require b e : e ≠ Panic → quietm (require b e).
Proof. intros He. destruct b; [apply quiet_ret|by apply quiet_fail]. Qed.

Lemma quietm_charge add : quietm (charge add).
Proof. intros s. unfold charge. destruct (add _); split_and!; try done; by intros ? [= <-]. Qed.

Lemma quietm_on_report {A} (c : Conv A) : quietm (on_report c).
Proof. intros s. unfold on_report. destruct (c (m_report s)) as [[a|e] r]; split_and!; try done; by intros ? [= <-]. Qed.

Create HintDb quietm.

Ltac quietm :=
  repeat (intros; first
    [ solve [eauto 2 with quietm nocore]
    | apply quiet_bind | apply quiet_ret | apply quiet_gets | apply quietm_on_report | apply quietm_charge
    | apply quietm_require; done | apply quiet_or_fail; done | apply quiet_fail; done | apply quiet_when
    | apply quiet_for_each | apply quiet_modify; intros; done | case_match ]).

Lemma quietm_lose f path d : quietm (lose f path d).
Proof. unfold lose. quietm. Qed.
#[export] Hint Resolve quietm_lose : quietm.

Lemma quietm_once flag set m : (∀ b s, kept (set b s) = kept s) → quietm m → quietm (once flag set m).
Proof. intros Hset Hm. unfold once. quietm. Qed.

Lemma quietm_components usage : quietm (loseUnknownUsageComponentsOnce usage).
Proof. apply quietm_once; [done|]. quietm. Qed.
Lemma quietm_controls e : quietm (loseControlsOnce e).
Proof. unfold loseControlsOnce. quietm. Qed.
Lemma quietm_phase id ph : quietm (losePhaseOnce id ph).
Proof. unfold losePhaseOnce. quietm. Qed.
Lemma quietm_reasoning : quietm loseReasoningOnce.
Proof. apply quietm_once; [done|]. quietm. Qed.
Lemma quietm_identity n : quietm (chargeIdentity n).
Proof. unfold chargeIdentity. quietm. Qed.
#[export] Hint Resolve quietm_components quietm_controls quietm_phase quietm_reasoning quietm_identity : quietm.

Lemma quietm_phases e : quietm (gateEnvelopePhases e).
Proof. unfold gateEnvelopePhases. quietm. Qed.
Lemma quietm_accumulated t n : quietm (checkAccumulated t n).
Proof. unfold checkAccumulated. quietm. Qed.
Lemma quietm_usage u : quietm (absorb_usage u).
Proof. unfold absorb_usage. quietm. Qed.
Lemma quietm_check_identity e : quietm (checkEnvelopeIdentity e).
Proof. unfold checkEnvelopeIdentity. quietm. Qed.
Lemma quietm_check_content id content : quietm (check_content id content).
Proof. unfold check_content. quietm. Qed.
#[export] Hint Resolve quietm_phases quietm_accumulated quietm_usage quietm_check_identity quietm_check_content : quietm.

Lemma quietm_output item : quietm (reconcile_output item).
Proof. unfold reconcile_output. quietm. Qed.
#[export] Hint Resolve quietm_output : quietm.

Lemma quietm_finalize stop usage : quietm (finalizeMessage stop usage).
Proof. unfold finalizeMessage. quietm. Qed.
Lemma quietm_index id oi : quietm (checkPartOutputIndex id oi).
Proof. unfold checkPartOutputIndex. quietm. Qed.
Lemma quietm_mark id : quietm (mark_done id).
Proof. unfold mark_done. quietm. Qed.
#[export] Hint Resolve quietm_finalize quietm_index quietm_mark : quietm.

(** The client has read the events so far, within the message. *)
Record Good (th : bool) (l : list entry) (s : msgState) (c : client) : Prop := {
  gd_phase : cl_phase c = Streaming;
  gd_sent : m_messageSent s = true;
  gd_live : m_sawTerminal s = false;
  gd_thinking : mx_ProviderReasoningThinking (m_exchange s) = th;
  gd_inv : Inv s (cl_blocks c) l;
}.

(** ... and nothing is left undone. *)
Record Ready (th : bool) (l : list entry) (s : msgState) (c : client) : Prop := {
  rd_good : Good th l s c;
  rd_settled : settled s;
}.

Lemma Good_kept th l s s' c : kept s' = kept s → Good th l s c → Good th l s' c.
Proof.
  intros Hk [Hp Hs Hl Ht HI]. split; [done| | | |by eapply Inv_kept].
  - by rewrite <- Hs; apply (f_equal m_messageSent Hk).
  - by rewrite <- Hl; apply (f_equal m_sawTerminal Hk).
  - by rewrite <- Ht; apply (f_equal (λ s, mx_ProviderReasoningThinking (m_exchange s)) Hk).
Qed.

(** What being settled looks at. *)
Definition waiting (s : msgState) := (m_deferredTools s, m_partBlocks s, m_reasoningBlockIndex s, m_pendingToolStart s).

Lemma settled_same s s' : waiting s' = waiting s → settled s → settled s'.
Proof.
  unfold waiting. intros [= H1 H2 H3 H4] [Hw Hp]. split; [|by rewrite H4].
  unfold no_wait, anyContentBlockOpen in *. by rewrite H1, H2, H3, H4.
Qed.

Lemma settled_kept s s' : kept s' = kept s → settled s → settled s'.
Proof. intros Hk. apply settled_same. exact (f_equal waiting Hk). Qed.

Lemma Ready_kept th l s s' c : kept s' = kept s → Ready th l s c → Ready th l s' c.
Proof. intros Hk [Hg Hs]. split; [by eapply Good_kept|by eapply settled_kept]. Qed.

Lemma wpm_quiet_ready {A} (m : M A) th l s c :
  quietm m → Ready th l s c → wpm m (λ _, Ready th l) s c.
Proof. intros Hm Hr. apply wpm_quiet; [done|]. intros _ s' Hk. by eapply Ready_kept. Qed.

Lemma Good_block th l l' s s' c i b :
  Good th l s c → m_messageSent s' = m_messageSent s → m_sawTerminal s' = m_sawTerminal s → m_exchange s' = m_exchange s →
  Inv s' (<[i := b]> (cl_blocks c)) l' → Good th l' s' (with_block i b c).
Proof. intros [] H1 H2 H3 HI. by split; rewrite ?H1, ?H2, ?H3. Qed.

(** ** Parts and thinking *)

Lemma read_start c i b : cl_phase c = Streaming → cl_blocks c !! i = None → (is_tool (begin b) = true → none_open c = true) →
  (is_thinking (begin b) = true → no_thinking c = true) →
  read c (ContentBlockStart i b) = Some (with_block i (begin b, true) c).
Proof.
  intros Hp Hi Ht Hth. unfold read. rewrite Hp, bool_decide_eq_true_2 by done.
  destruct (is_tool (begin b)), (is_thinking (begin b)); simpl; rewrite ?Ht, ?Hth by done; done.
Qed.

Lemma read_delta c i d b b' : cl_phase c = Streaming → cl_blocks c !! i = Some (b, true) → extend b d = Some b' →
  read c (ContentBlockDelta i d) = Some (with_block i (b', true) c).
Proof. intros Hp Hi Hx. unfold read. by rewrite Hp, Hi, Hx. Qed.

Lemma read_stop c i b : cl_phase c = Streaming → cl_blocks c !! i = Some (b, true) →
  read c (ContentBlockStop i) = Some (with_block i (b, false) c).
Proof. intros Hp Hi. unfold read. by rewrite Hp, Hi. Qed.

(** The part is announced and its block starts. *)
Lemma Inv_part_added s blocks l key k :
  Inv s blocks l → m_partsSeen s !! key = None →
  Inv (set_blockIndex (m_blockIndex s + 1) (set_partsSeen (<[key := k]> (m_partsSeen s))
         (set_partBlocks (<[key := m_blockIndex s]> (m_partBlocks s)) s)))
      (<[m_blockIndex s := (CText "", true)]> blocks) (l ++ [EText k key ""]).
Proof.
  intros HI Hseen. apply (Inv_snoc_block HI).
  - exact (Shape_part_added (iv_shape _ _ _ HI) key k Hseen).
  - intros i [k' key' t| |] o Hi; try done. unfold matches. simpl. intros (Hs & -> & ->).
    by rewrite !lookup_insert_ne by congruence.
  - unfold matches. simpl. rewrite !lookup_insert_eq, (sh_next _ _ (iv_shape _ _ _ HI)). split_and!; [done| |by rewrite bool_decide_eq_true_2].
    destruct (pick _ _ k !! key) eqn:Hb; [|done]. assert (m_partsSeen s !! key = Some k); [|congruence].
    apply (sh_bufs _ _ (iv_shape _ _ _ HI)). by rewrite Hb.
Qed.

Lemma Inv_thinking_added s blocks l :
  Inv s blocks l → m_reasoningBlockIndex s = None →
  Inv (set_blockIndex (m_blockIndex s + 1) (set_reasoningBlockIndex (Some (m_blockIndex s)) s))
      (<[m_blockIndex s := (CThinking "" "", true)]> blocks) (l ++ [EThink ""]).
Proof.
  intros HI Hr. apply (Inv_snoc_block HI).
  - exact (Shape_thinking_added (iv_shape _ _ _ HI)).
  - intros i [| |t] o Hi; try done. unfold matches. simpl. rewrite Hr. intros ->.
    rewrite (bool_decide_eq_false_2 (None = _)) by done. rewrite (bool_decide_eq_false_2 (Some _ = _)); [done|]. rewrite (sh_next _ _ (iv_shape _ _ _ HI)). intros [= ?].
    apply lookup_lt_Some in Hi. lia.
  - unfold matches. simpl. rewrite (sh_next _ _ (iv_shape _ _ _ HI)). by rewrite bool_decide_eq_true_2.
Qed.

Section parts.
Context {th : bool} {l : list entry} {s : msgState} {c : client} (HR : Ready th l s c).

Lemma wpm_part_added id oi ci k : wpm (contentPartAdded id oi ci k) (λ _, Ready th (l ++ [EText k (id, ci) ""])) s c.
Proof.
  pose proof (rd_good _ _ _ _ HR) as HG. pose proof HG as [Hp _ _ _ HI]. unfold contentPartAdded.
  apply wpm_bind, wpm_gets, wpm_bind, wpm_or_fail; [done|]. intros added _.
  do 2 (apply wpm_bind, wpm_require; [done|intros _]). apply wpm_bind, wpm_gets, wpm_bind, wpm_require; [done|].
  intros Hseen%bool_decide_eq_true_1. apply wpm_bind, wpm_gets, wpm_bind, wpm_require; [done|intros _].
  apply wpm_bind, wpm_gets, wpm_bind. eapply wpm_emit.
  { apply read_start; [done|by apply (block_fresh HI)|done|done]. }
  apply wpm_bind, wpm_quiet; [quietm|]. intros _ s1 Hk1. apply wpm_bind, wpm_quiet; [quietm|]. intros _ s2 Hk2.
  do 3 apply wpm_bind, wpm_modify. apply wpm_modify.
  assert (kept s2 = kept s) as Hk by by rewrite Hk2. clear Hk1 Hk2.
  assert (Good th l s2 c) as HG2 by by eapply Good_kept.
  rewrite <- (f_equal m_partsSeen Hk : m_partsSeen s2 = m_partsSeen s) in *.
  rewrite <- (f_equal m_blockIndex Hk : m_blockIndex s2 = m_blockIndex s) in *. split.
  - eapply Good_block; [exact HG2|done..|]. eapply Inv_kept; [|by apply Inv_part_added, Hseen; apply HG2]. reflexivity.
  - destruct (settled_kept _ _ Hk (rd_settled _ _ _ _ HR)) as [_ Hpl]. split; [|done]. right. unfold anyContentBlockOpen. simpl.
    by rewrite bool_decide_eq_false_2 by apply insert_non_empty.
Qed.
End parts.

(** ** The queue *)

Lemma wpm_block id p (Q : pendingToolBlock → msgState → client → Prop) s c :
  m_pendingToolStart s !! id = Some p → Q p s c → wpm (block id) Q s c.
Proof. intros Hp HQ. apply wpm_bind, wpm_gets. rewrite Hp. by apply wpm_ret. Qed.

(** Deltas of an open block of tool input. *)
Lemma wpm_inputs i (Q : unit → msgState → client → Prop) fragments : ∀ n s c id name input,
  cl_phase c = Streaming → cl_blocks c !! i = Some (CTool id name input, true) →
  Q tt s (with_block i (CTool id name (input ++ fold_right String.append "" fragments), true) c) →
  wpm (for_each (λ _, emit_input i) n fragments) Q s c.
Proof.
  induction fragments as [|d fragments IH]; intros n s c id name input Hp Hi HQ; simpl.
  - apply wpm_ret. simpl in HQ. rewrite ResponsesFsm.append_empty in HQ.
    replace c with (with_block i (CTool id name input, true) c); [done|]. destruct c as [ph bl]. unfold with_block. simpl in *.
    by rewrite insert_id.
  - apply wpm_bind. eapply wpm_emit; [by eapply read_delta|]. eapply (IH _ _ _ id name (input ++ d)); [done|simpl; by rewrite lookup_insert_eq|].
    unfold with_block in *. simpl in *. by rewrite insert_insert_eq, <- ResponsesFsm.append_assoc.
Qed.

Lemma wpm_input i d (Q : unit → msgState → client → Prop) s c id name input :
  cl_phase c = Streaming → cl_blocks c !! i = Some (CTool id name input, true) →
  Q tt s (with_block i (CTool id name (input ++ d), true) c) →
  wpm (mwhen (nonblank d) (emit_input i d)) Q s c.
Proof.
  intros Hp Hi HQ. apply wpm_when; intros Hd.
  - eapply wpm_emit; [by eapply read_delta|done].
  - unfold nonblank in Hd. apply negb_false_iff, String.eqb_eq in Hd as ->. rewrite ResponsesFsm.append_empty in HQ.
    replace c with (with_block i (CTool id name input, true) c); [done|]. destruct c as [ph bl]. unfold with_block. simpl in *.
    by rewrite insert_id.
Qed.

Lemma object_nonempty t u : same_object t u → String.eqb t "" = false.
Proof. intros (m & Hm & _). destruct (String.eqb_spec t "") as [->|]; [|done]. by vm_compute in Hm. Qed.

Lemma alter_insert_some {A} (f : A → A) (m : gmap string A) i x : m !! i = Some x → alter f i m = <[i := f x]> m.
Proof.
  intros Hi. apply map_eq. intros j. destruct (decide (j = i)) as [->|Hne].
  - by rewrite lookup_alter_eq, lookup_insert_eq, Hi.
  - by rewrite lookup_alter_ne, lookup_insert_ne.
Qed.

(** After its bytes, whatever blocks were written on the way. *)
Lemma with_block_twice i a b c : with_block i a (with_block i b c) = with_block i a c.
Proof. unfold with_block. simpl. by rewrite insert_insert_eq. Qed.

Lemma wpm_front th l s c q id p (Q : bool → msgState → client → Prop) :
  Good th l s c → m_deferredTools s = id :: q → anyContentBlockOpen s = false → m_pendingToolStart s !! id = Some p →
  (∀ s' c', Good th l s' c' → m_deferredTools s' = q →
     m_pendingToolStart s' = (if tb_done p then delete id (m_pendingToolStart s) else <[id := set_started p]> (m_pendingToolStart s)) →
     m_partBlocks s' = m_partBlocks s → m_reasoningBlockIndex s' = m_reasoningBlockIndex s → Q (tb_done p) s' c') →
  wpm (start_deferred id) Q (set_deferredTools q s) c.
Proof.
  intros HG Hq Hopen Hp HQ. pose proof HG as [Hph _ _ _ HI].
  destruct (pend_entry HI id p Hp) as (j & snap & Hj & Hi & Hb & Hd).
  destruct (sh_pend _ _ (iv_shape _ _ _ HI) id p Hp) as [Hk _].
  pose proof (front_deferred HI Hp Hq) as Hdef.
  rewrite (none_started Hopen _ _ Hp) in Hb.
  unfold start_deferred. apply wpm_bind. eapply wpm_block; [done|].
  do 2 (apply wpm_bind, wpm_modify). apply wpm_bind. unfold toolBlockStartEvent. rewrite Hi. eapply wpm_emit.
  { apply read_start; [done|done| |done]. intros _. apply bool_decide_eq_true_2. apply (closed_blocks HI Hopen). }
  apply wpm_bind, wpm_gets, wpm_bind. eapply wpm_inputs; [done|simpl; by rewrite lookup_insert_eq|].
  apply wpm_bind, wpm_modify, wpm_bind. eapply wpm_input; [done|simpl; by rewrite lookup_insert_eq|].
  rewrite !with_block_twice. simpl.
  change ("" ++ fold_right String.append "" ?x) with (fold_right String.append "" x).
  rewrite <- (tk_held _ _ _ _ Hk Hdef). rewrite (alter_insert_some _ _ _ _ Hp). destruct (tb_done p) eqn:Hdone.
  - destruct Hd as (t & -> & Hso). apply wpm_bind. unfold mwhen, close_block. rewrite Hi, (object_nonempty _ _ Hso).
    apply wpm_bind. eapply wpm_emit; [eapply read_stop; [done|simpl; by rewrite lookup_insert_eq]|].
    rewrite with_block_twice. do 2 apply wpm_bind, wpm_modify. apply wpm_modify, wpm_ret. simpl.
    apply HQ; simpl; try done; [|by rewrite delete_insert_eq].
    eapply Good_block; [exact HG|done..|]. eapply (Inv_front_closed HI Hp); simpl; try done; [by exists t|by rewrite delete_insert_eq].
  - apply wpm_bind, wpm_ret, wpm_ret. apply HQ; simpl; try done.
    eapply Good_block; [exact HG|done..|]. eapply (Inv_front_started HI Hp); simpl; done.
Qed.

Lemma wpm_drain th l fuel : ∀ s c,
  Good th l s c → length (m_deferredTools s) = fuel → (∀ id p, m_pendingToolStart s !! id = Some p → placed p) →
  wpm (drain fuel) (λ _, Ready th l) s c.
Proof.
  induction fuel as [|fuel IH]; intros s c HG Hlen Hpl; simpl.
  - apply wpm_ret. split; [done|]. split; [|done]. left. by apply nil_length_inv.
  - apply wpm_bind, wpm_gets, wpm_bind, wpm_gets. destruct (m_deferredTools s) as [|id q] eqn:Hq; [done|].
    destruct (anyContentBlockOpen s) eqn:Hopen; [apply wpm_ret; split; [done|]; split; [by right|done]|].
    apply wpm_bind, wpm_modify, wpm_bind.
    destruct (proj1 (proj2 (sh_queue _ _ (iv_shape _ _ _ (gd_inv _ _ _ _ HG))) id)) as (p & Hp & _); [rewrite Hq; by left|].
    eapply wpm_front; [done..|]. intros s' c' HG' Hq' Hpend Hparts Hreas. destruct (tb_done p).
    + apply IH; [done|by rewrite Hq'; injection Hlen|]. intros id' p'. rewrite Hpend. intros [_ Hp']%lookup_delete_Some. eauto.
    + apply wpm_ret. split; [done|]. split.
      * right. unfold anyContentBlockOpen. rewrite (bool_decide_eq_false_2 (map_Forall _ _)), !orb_true_r; [done|].
        intros Hall. specialize (Hall id (set_started p)). rewrite Hpend, lookup_insert_eq in Hall. by specialize (Hall eq_refl).
      * intros id' p'. rewrite Hpend. intros [[<- <-]|[_ Hp']]%lookup_insert_Some; [by left|eauto].
Qed.

Lemma wpm_drain_all th l s c :
  Good th l s c → (∀ id p, m_pendingToolStart s !! id = Some p → placed p) → wpm drainDeferredTools (λ _, Ready th l) s c.
Proof. intros HG Hpl. apply wpm_bind, wpm_gets. by apply wpm_drain. Qed.

(** ** Handlers: parts and thinking *)

Section part_handlers.
Context {th : bool} {l : list entry} {s : msgState} {c : client} (HR : Ready th l s c).

Lemma wpm_open_part key oi k (Q : Z → msgState → client → Prop) :
  (∀ i, m_partBlocks s !! key = Some i → m_partsSeen s !! key = Some k → Q i s c) → wpm (open_part key oi k) Q s c.
Proof.
  intros HQ. apply wpm_bind, wpm_gets, wpm_bind, wpm_or_fail; [done|]. intros i Hi.
  apply wpm_bind, wpm_bind, wpm_gets, wpm_bind, wpm_or_fail; [done|]. intros added _. apply wpm_require; [done|intros _].
  apply wpm_bind, wpm_gets, wpm_bind, wpm_require; [done|]. intros Hs%bool_decide_eq_true_1. by apply wpm_ret, HQ.
Qed.

Lemma wpm_part_delta k id oi ci d :
  wpm (partDelta k id oi ci d) (λ _, Ready th (map (add_text k (id, ci) d) l)) s c.
Proof.
  pose proof HR as [HG Hw]. apply wpm_bind, wpm_open_part. intros i Hi Hs.
  apply wpm_bind, wpm_gets, wpm_bind, wpm_modify, wpm_bind, wpm_quiet; [quietm|]. intros _ s1 Hk.
  destruct (part_entry (gd_inv _ _ _ _ HG) (id, ci) i Hi) as (j & k' & -> & Hj & Hs' & Hb).
  assert (k' = k) as -> by congruence.
  eapply wpm_emit; [eapply read_delta; [apply HG|done|done]|]. eapply Ready_kept; [exact Hk|]. split.
  - eapply (Good_block th l); [exact HG|by destruct k..|]. by apply (Inv_text (gd_inv _ _ _ _ HG)).
  - eapply settled_same; [|done]. by destruct k.
Qed.

Lemma wpm_value_done k id oi ci t : wpm (partValueDone k id oi ci t) (λ _, Ready th l) s c.
Proof.
  apply wpm_bind, wpm_open_part. intros i Hi Hs. apply wpm_bind, wpm_gets, wpm_require; [done|]. by intros _.
Qed.

Lemma wpm_part_done id oi ci k : wpm (contentPartDone id oi ci k) (λ _, Ready th l) s c.
Proof.
  pose proof HR as [HG Hw]. apply wpm_bind, wpm_open_part. intros i Hi Hs.
  apply wpm_bind, wpm_modify, wpm_bind. destruct (Inv_part_done (gd_inv _ _ _ _ HG) (id, ci) i k Hi Hs) as (t & Hb & HI').
  eapply wpm_emit; [by apply read_stop; [apply HG|]|]. apply wpm_drain_all; [|apply Hw]. by eapply Good_block.
Qed.

Lemma wpm_reasoning_added : wpm reasoningPartAdded (λ _, Ready th (l ++ [EThink ""])) s c.
Proof.
  apply wpm_bind, wpm_gets, wpm_bind, wpm_require; [done|]. intros Hr.
  apply wpm_bind, wpm_quiet; [quietm|]. intros _ s1 Hk1. apply wpm_bind, wpm_quiet; [quietm|]. intros _ s2 Hk2.
  assert (kept s2 = kept s) as Hk by by rewrite Hk2. clear Hk1 Hk2.
  destruct (Ready_kept _ _ _ _ _ Hk HR) as [HG2 [_ Hpl]].
  apply wpm_bind, wpm_gets, wpm_bind, wpm_modify, wpm_bind, wpm_modify.
  assert (m_reasoningBlockIndex s2 = None) as Hr2.
  { rewrite (f_equal m_reasoningBlockIndex Hk : m_reasoningBlockIndex s2 = m_reasoningBlockIndex s). by destruct (m_reasoningBlockIndex s). }
  eapply wpm_emit.
  { apply read_start; [apply HG2|apply (block_fresh (gd_inv _ _ _ _ HG2))|done|].
    intros _. apply bool_decide_eq_true_2, (thinking_blocks (gd_inv _ _ _ _ HG2) Hr2). }
  split.
  - eapply Good_block; [exact HG2|done..|]. apply Inv_thinking_added; [apply HG2|].
    rewrite (f_equal m_reasoningBlockIndex Hk : m_reasoningBlockIndex s2 = m_reasoningBlockIndex s). by destruct (m_reasoningBlockIndex s).
  - split; [|done]. right. unfold anyContentBlockOpen. simpl. by rewrite orb_true_r.
Qed.

Lemma wpm_reasoning_delta d : wpm (reasoningTextDelta d) (λ _, Ready th (rev (add_thinking d (rev l)))) s c.
Proof.
  apply wpm_bind, wpm_gets, wpm_bind, wpm_or_fail; [done|]. intros i Hr.
  apply wpm_bind, wpm_quiet; [quietm|]. intros _ s1 Hk. destruct (Ready_kept _ _ _ _ _ Hk HR) as [HG Hw].
  rewrite <- (f_equal m_reasoningBlockIndex Hk : m_reasoningBlockIndex s1 = m_reasoningBlockIndex s) in Hr.
  destruct (Inv_thinking_delta (gd_inv _ _ _ _ HG) i d Hr) as (t & Hb & HI').
  eapply wpm_emit; [eapply read_delta; [apply HG|done|done]|]. split; [by eapply Good_block|done].
Qed.

Lemma wpm_reasoning_done : wpm reasoningPartDone (λ _, Ready th l) s c.
Proof.
  pose proof HR as [HG Hw]. apply wpm_bind, wpm_gets, wpm_bind, wpm_or_fail; [done|]. intros i Hr.
  destruct (Inv_thinking_done (gd_inv _ _ _ _ HG) i Hr) as (t & Hb & HI').
  apply wpm_bind. eapply wpm_emit; [eapply read_delta; [apply HG|done|done]|].
  apply wpm_bind. eapply wpm_emit; [apply read_stop; [apply HG|simpl; by rewrite lookup_insert_eq]|].
  apply wpm_bind, wpm_modify. rewrite with_block_twice. apply wpm_drain_all; [|apply Hw].
  by eapply Good_block; [exact HG|..].
Qed.
End part_handlers.

(** ** Handlers: calls *)

(** A pending call keeps its place: its bytes change, and what the client holds of it. *)
Lemma Inv_replace s s' blocks blocks' l id p p' j snap snap' :
  Inv s blocks l → m_pendingToolStart s !! id = Some p → others s' = others s →
  l !! j = Some (ECall id (tb_callID p) (tb_name p) snap) →
  m_pendingToolStart s' = <[id := p']> (m_pendingToolStart s) → m_deferredTools s' = m_deferredTools s →
  m_sawToolUse s' = m_sawToolUse s → tb_started p' = tb_started p → tb_deferred p' = tb_deferred p →
  tool_ok id (default [] (m_bufferedToolFragments s' !! id)) (m_fsm s) p' →
  (∀ id', id' ≠ id → m_bufferedToolFragments s' !! id' = m_bufferedToolFragments s !! id') →
  (m_bufferedToolFragments s' !! id ≠ None → tb_deferred p' = true) →
  (∀ i, i ≠ Z.of_nat j → blocks' !! i = blocks !! i) →
  call_pending j (tb_callID p) (tb_name p) snap' p' (blocks' !! Z.of_nat j) →
  Inv s' blocks' (<[j := ECall id (tb_callID p) (tb_name p) snap']> l).
Proof.
  intros HI Hp Ho Hj Hpend Hq Hsaw Hst Hdef Hk Hf Hfd Hb Hm. pose proof (iv_shape _ _ _ HI) as HS.
  eapply (Inv_call HI Ho p'); try done.
  apply (Shape_block HS Hp Ho p'); try done; rewrite ?Hq, ?Hst; try done.
  - apply (sh_queue _ _ HS).
  - intros id'. rewrite Hdef. destruct (decide (id' = id)) as [->|Hne]; [|by split; [right|intros [[]|[]]]].
    rewrite (proj2 (sh_queue _ _ HS)). split; [intros (p0 & H0 & Hd); left; split; [done|congruence]|].
    intros [[_ Hd]|[Hne _]]; [by exists p|done].
  - by left.
  - rewrite Hsaw, (sh_saw _ _ HS). destruct (tb_started p) eqn:E; [|by rewrite orb_false_r]. rewrite orb_true_r. apply existsb_exists.
    exists (ECall id (tb_callID p) (tb_name p) snap). split; [eapply list_elem_of_In, list_elem_of_lookup_2, Hj|]. simpl. by rewrite Hp.
Qed.

Lemma tool_ok_grow id frags f p d :
  tool_ok id frags f p → tb_done p = false → tb_deferred p = false → tool_ok id frags f (set_arguments (tb_arguments p ++ d) p).
Proof. intros [] Hd Hdef. constructor; simpl; try done. by rewrite Hdef. Qed.

Lemma fold_append_snoc frags d : fold_right String.append "" (frags ++ [d])%list = fold_right String.append "" frags ++ d.
Proof.
  induction frags as [|x frags IH]; simpl; [by rewrite ResponsesFsm.append_empty|]. by rewrite IH, ResponsesFsm.append_assoc.
Qed.

(** A fragment of a deferred call is kept in its order. *)
Lemma tool_ok_fragment id frags f p d :
  tool_ok id frags f p → tb_done p = false → tb_doneSuffix p = "" → tb_deferred p = true →
  tool_ok id (frags ++ [d]) f (set_arguments (tb_arguments p ++ d) p).
Proof.
  intros [] Hd Hs Hdef. constructor; simpl; try done.
  intros _. rewrite (tk_held0 Hdef), Hs, !ResponsesFsm.append_empty. by rewrite fold_append_snoc.
Qed.

(** The rest of a snapshot waits behind the fragments. *)
Lemma tool_ok_hold id frags f p d b :
  tool_ok id frags f p → tb_deferred p = true → sealed id f → (b = true → finished id f) →
  tool_ok id frags f (hold b d (set_arguments (tb_arguments p ++ d) p)).
Proof.
  intros [] Hdef Hs Hf. constructor; simpl; try done.
  - intros Hst. destruct (tk_started0 Hst). congruence.
  - intros _. by rewrite (tk_held0 Hdef), ResponsesFsm.append_assoc.
  - intros [Hd| ->]%orb_true_iff; [by apply tk_done0|auto].
Qed.

Lemma maybeStart_noop s id p :
  no_wait s → placed p → (tb_deferred p = true → m_deferredTools s ≠ []) → m_pendingToolStart s !! id = Some p →
  maybeStartToolBlock id s = (Ok tt, [], s).
Proof.
  intros Hw Hpl Hin Hp. unfold maybeStartToolBlock, block, mbind, gets, or_fail. simpl. rewrite Hp. simpl.
  destruct (tb_started p || String.eqb (tb_callID p) "" || String.eqb (tb_name p) "") eqn:E; [done|].
  apply orb_false_iff in E as [[E1 E2%String.eqb_neq]%orb_false_iff E3%String.eqb_neq].
  destruct Hpl as [Hx|[Hdef|[Hx|Hx]]]; try congruence.
  destruct Hw as [Hq|Hopen]; [by destruct (Hin Hdef)|].
  rewrite Hopen. unfold deferToolBlock, block, mbind, gets, or_fail. simpl. rewrite Hp. simpl. by rewrite Hdef.
Qed.

Lemma deferred_queued s l id p :
  Shape s l → m_pendingToolStart s !! id = Some p → tb_deferred p = true → m_deferredTools s ≠ [].
Proof.
  intros HS Hp Hdef Hq. assert (id ∈ m_deferredTools s) as Hin by (apply (sh_queue _ _ HS); eauto).
  rewrite Hq in Hin. by apply not_elem_of_nil in Hin.
Qed.

Lemma wpm_same {A} (m : M A) a (Q : A → msgState → client → Prop) s c : m s = (Ok a, [], s) → Q a s c → wpm m Q s c.
Proof. intros Hm HQ. unfold wp. rewrite Hm. split; [done|]. exists c. split; [done|]. by intros ? [= <-]. Qed.

(** Nothing of a call that may still stream is held at its end. *)
Definition flowing (id : string) (s : msgState) : Prop :=
  ∀ p, m_pendingToolStart s !! id = Some p → tb_doneSuffix p = "" ∧ tb_done p = false.

(** Setting a field that is kept, and reading one. *)
Lemma kept_set_fragments v s s' : kept s' = kept s → kept (set_bufferedToolFragments v s') = kept (set_bufferedToolFragments v s).
Proof. intros Hk. exact (f_equal (set_bufferedToolFragments v) Hk). Qed.

Lemma kept_fragments s s' : kept s' = kept s → m_bufferedToolFragments s' = m_bufferedToolFragments s.
Proof. intros Hk. exact (f_equal m_bufferedToolFragments Hk). Qed.

(** A block that starts, and one that waits, keep the others where they are. *)
Lemma open_started s id p : m_pendingToolStart s !! id = Some p → tb_started p = true → anyContentBlockOpen s = true.
Proof.
  intros Hp Hst. unfold anyContentBlockOpen. rewrite (bool_decide_eq_false_2 (map_Forall _ _)), orb_true_r; [done|].
  intros Hall. specialize (Hall id p Hp). simpl in Hall. congruence.
Qed.

Lemma open_same s s' id p p' :
  m_pendingToolStart s !! id = Some p → tb_started p' = tb_started p → m_pendingToolStart s' = <[id := p']> (m_pendingToolStart s) →
  m_partBlocks s' = m_partBlocks s → m_reasoningBlockIndex s' = m_reasoningBlockIndex s → anyContentBlockOpen s' = anyContentBlockOpen s.
Proof.
  intros Hp H1 Hpend Hparts Hr. unfold anyContentBlockOpen. rewrite Hparts, Hr, Hpend. do 2 f_equal.
  apply bool_decide_ext. split; intros Hall id0 p0 H0.
  - destruct (decide (id0 = id)) as [->|Hne].
    + rewrite Hp in H0. injection H0 as <-. rewrite <- H1. apply (Hall id). by rewrite lookup_insert_eq.
    + apply (Hall id0). by rewrite lookup_insert_ne.
  - apply lookup_insert_Some in H0 as [[<- <-]|[Hne H0]]; [rewrite H1; by apply (Hall id)|by apply (Hall id0)].
Qed.

Lemma settled_replace s s' id p p' :
  settled s → m_pendingToolStart s !! id = Some p → m_pendingToolStart s' = <[id := p']> (m_pendingToolStart s) →
  m_deferredTools s' = m_deferredTools s → m_partBlocks s' = m_partBlocks s → m_reasoningBlockIndex s' = m_reasoningBlockIndex s →
  tb_started p' = tb_started p → tb_deferred p' = tb_deferred p → tb_callID p' = tb_callID p → tb_name p' = tb_name p → settled s'.
Proof.
  intros [Hw Hpl] Hp Hpend Hq Hparts Hr H1 H2 H3 H4. split.
  - destruct Hw as [Hw|Hw]; [left; by rewrite Hq|right]. rewrite <- Hw. by eapply open_same.
  - intros id0 p0. rewrite Hpend. intros [[<- <-]|[Hne H0]]%lookup_insert_Some; [|eauto].
    unfold placed. rewrite H1, H2, H3, H4. by apply (Hpl id).
Qed.

Section call_handlers.
Context {th : bool} {l : list entry} {s : msgState} {c : client} (HR : Ready th l s c).

Lemma wpm_maybe_start id p (Q : unit → msgState → client → Prop) :
  m_pendingToolStart s !! id = Some p → Q tt s c → wpm (maybeStartToolBlock id) Q s c.
Proof.
  intros Hp HQ. destruct HR as [HG [Hw Hpl]]. eapply wpm_same; [|done]. eapply maybeStart_noop; eauto.
  by eapply deferred_queued, Hp; apply (gd_inv _ _ _ _ HG).
Qed.

(** The client's block grows with the arguments. *)
Lemma Good_grow id p d j s' :
  m_pendingToolStart s !! id = Some p → tb_done p = false → tb_started p = true →
  l !! j = Some (ECall id (tb_callID p) (tb_name p) None) → tb_blockIndex p = Z.of_nat j →
  others s' = others s → m_pendingToolStart s' = <[id := set_arguments (tb_arguments p ++ d) p]> (m_pendingToolStart s) →
  m_deferredTools s' = m_deferredTools s → m_sawToolUse s' = m_sawToolUse s → m_bufferedToolFragments s' = m_bufferedToolFragments s →
  Inv s' (<[Z.of_nat j := (CTool (tb_callID p) (tb_name p) (tb_arguments p ++ d), true)]> (cl_blocks c)) l.
Proof.
  intros Hp Hdone Hst Hj Hi Ho Hpend Hq Hsaw Hf. pose proof (gd_inv _ _ _ _ (rd_good _ _ _ _ HR)) as HI.
  destruct (sh_pend _ _ (iv_shape _ _ _ HI) id p Hp) as [Hk _]. destruct (tk_started _ _ _ _ Hk Hst) as [Hdef _].
  rewrite <- (list_insert_id l j _ Hj) at 1.
  eapply (Inv_replace s s' _ _ l id p _ j None None HI Hp Ho Hj Hpend Hq Hsaw); try done; rewrite ?Hf.
  - by apply tool_ok_grow.
  - done.
  - intros (p0 & H0 & Hd0)%(sh_frags _ _ (iv_shape _ _ _ HI)). simpl. congruence.
  - intros i Hne. by rewrite lookup_insert_ne.
  - rewrite lookup_insert_eq. unfold call_pending. simpl. by rewrite Hst, Hdone.
Qed.

(** What the client cannot see of a call that has not started. *)
Lemma Inv_idle id p p' s' frags :
  m_pendingToolStart s !! id = Some p → tb_started p = false → tb_done p = false →
  (tb_blockIndex p', tb_callID p', tb_name p', tb_started p', tb_deferred p', tb_done p') =
  (tb_blockIndex p, tb_callID p, tb_name p, tb_started p, tb_deferred p, tb_done p) →
  others s' = others s → m_pendingToolStart s' = <[id := p']> (m_pendingToolStart s) →
  m_deferredTools s' = m_deferredTools s → m_sawToolUse s' = m_sawToolUse s →
  default [] (m_bufferedToolFragments s' !! id) = frags → tool_ok id frags (m_fsm s) p' →
  (∀ id', id' ≠ id → m_bufferedToolFragments s' !! id' = m_bufferedToolFragments s !! id') →
  (m_bufferedToolFragments s' !! id ≠ None → tb_deferred p' = true) → Inv s' (cl_blocks c) l.
Proof.
  intros Hp Hst Hdone [= H1 H2 H3 H4 H5 H6] Ho Hpend Hq Hsaw <- Hok Hf Hfd. pose proof (gd_inv _ _ _ _ (rd_good _ _ _ _ HR)) as HI.
  destruct (pend_entry HI id p Hp) as (j & snap & Hj & Hi & Hb & Hd). rewrite Hdone in Hd. subst snap.
  rewrite <- (list_insert_id l j _ Hj).
  eapply (Inv_replace s s' _ _ l id p p' j None None HI Hp Ho Hj Hpend Hq Hsaw); try done.
  unfold call_pending. by rewrite H1, H2, H3, H4, H6, Hst, Hdone, Hb, Hst.
Qed.

Lemma wpm_arguments_delta id oi d : flowing id s → wpm (functionArgumentsDelta id oi d) (λ _, Ready th l) s c.
Proof.
  intros Hflow. pose proof HR as [HG Hw]. pose proof HG as [Hph H1 H2 H3 HI].
  apply wpm_bind, wpm_gets, wpm_bind, wpm_or_fail; [done|]. intros p Hp. destruct (Hflow p Hp) as [Hsuf Hdone].
  destruct (pend_entry HI id p Hp) as (j & snap & Hj & Hi & Hb & Hd). rewrite Hdone in Hd. subst snap.
  destruct (sh_pend _ _ (iv_shape _ _ _ HI) id p Hp) as [Hk _].
  apply wpm_bind, wpm_require; [done|intros _]. apply wpm_bind. eapply wpm_maybe_start; [done|].
  apply wpm_bind, wpm_modify. rewrite (alter_insert_some _ _ _ _ Hp). apply wpm_bind.
  eapply wpm_block; [simpl; by rewrite lookup_insert_eq|]. apply wpm_bind, wpm_quiet; [quietm|]. intros _ s2 Hk2. simpl.
  set (p' := set_arguments (tb_arguments p ++ d) p) in *.
  set (s1 := set_pendingToolStart (<[id := p']> (m_pendingToolStart s)) s) in *.
  assert (settled s1) as Hw1 by by eapply (settled_replace s s1 id p p').
  destruct (tb_started p) eqn:Hst.
  - rewrite Hi. eapply wpm_emit; [eapply read_delta; [done|exact Hb|done]|]. eapply Ready_kept; [exact Hk2|].
    split; [|done]. eapply Good_block; [exact HG|done..|]. by eapply Good_grow.
  - apply wpm_when; intros Hdef.
    + apply wpm_bind, wpm_quiet; [quietm|]. intros _ s3 Hk3. apply wpm_modify.
      assert (kept s3 = kept s1) as He by by rewrite Hk3. clear Hk2 Hk3.
      rewrite (kept_fragments _ _ He). change (m_bufferedToolFragments s1) with (m_bufferedToolFragments s).
      eapply (Ready_kept th l (set_bufferedToolFragments
        (<[id := (default [] (m_bufferedToolFragments s !! id) ++ [d])%list]> (m_bufferedToolFragments s)) s1)).
      { by apply kept_set_fragments. }
      split; [|by eapply settled_same; [|exact Hw1]]. split; try done.
      eapply (Inv_idle id p p'); try done; simpl.
      * rewrite lookup_insert_eq. by apply tool_ok_fragment.
      * intros id' Hne. by rewrite lookup_insert_ne.
    + eapply Ready_kept; [exact Hk2|]. split; [|done]. split; try done. eapply (Inv_idle id p p'); try done.
      * by apply tool_ok_grow.
      * intros (p0 & H0 & Hd0)%(sh_frags _ _ (iv_shape _ _ _ HI)). simpl. congruence.
Qed.
End call_handlers.
