(* ===== verification/MsgStreamCalls.v ===== *)
(** * The calls of a Messages stream

    The handlers of calls on the invariant of [MsgStreamLaws]: a new call starts or waits,
    its arguments are reconciled with their snapshot, and its end stops the block or is
    held with it. *)

From Stdlib Require Import ZArith QArith Qcanon Lia Bool List Ascii String.
From stdpp Require Import strings gmap list.
From S2P Require Import Prelude GoStd GoStr Budget Losses Usage Emitter ToolArgs MsgStream MsgClient MsgStreamLaws.
From S2P Require ResponsesFsm.

Open Scope string_scope.
Open Scope Z_scope.
Open Scope stream_scope.

(** *** A new call *)

Lemma Inv_added s blocks l id x : Inv s blocks l → Inv (set_addedItems (<[id := x]> (m_addedItems s)) s) blocks l.
Proof.
  intros [HS Hu Hm]. pose proof HS as []. constructor; [constructor; try done|done|done]. simpl. intros id' c n sn He.
  destruct (decide (id' = id)) as [->|Hne]; [by rewrite lookup_insert_eq|]. rewrite lookup_insert_ne by done. by eapply sh_calls.
Qed.

Lemma Inv_call_added s blocks l id callID name oi x :
  Inv s blocks l → m_addedItems s !! id = None →
  Inv (set_pendingToolStart (<[id := new_block (s := s) id callID name oi]> (m_pendingToolStart s))
         (set_blockIndex (m_blockIndex s + 1) (set_addedItems (<[id := x]> (m_addedItems s)) s))) blocks (l ++ [ECall id callID name None]).
Proof.
  intros HI Hadd. pose proof (iv_shape _ _ _ HI) as HS. apply (Inv_snoc HI); try done.
  - exact (Shape_call_added HS id callID name oi x Hadd).
  - by left.
  - intros i a o Hi. destruct a as [|id' c n sn|]; try done. unfold matches. simpl. rewrite lookup_insert_ne; [done|].
    intros <-. by eapply (sh_calls _ _ HS); [eapply list_elem_of_lookup_2|].
  - unfold matches. simpl. rewrite lookup_insert_eq. unfold call_pending, new_block. simpl. rewrite (sh_next _ _ HS). split_and!; try done.
    rewrite <- (sh_next _ _ HS). by apply (block_fresh HI).
Qed.

Section fresh_call.
Context {s : msgState} {blocks : gmap Z (content * bool)} {l : list entry} {id : string} {p : pendingToolBlock}.
Context (HI : Inv s blocks l) (Hp : m_pendingToolStart s !! id = Some p).
Context (Hns : tb_started p = false) (Hnd : tb_deferred p = false) (Hargs : tb_arguments p = "") (Hsuf : tb_doneSuffix p = "").
Context (Hcall : tb_callID p ≠ "") (Hname : tb_name p ≠ "").

Lemma fresh_fragments : m_bufferedToolFragments s !! id = None.
Proof.
  destruct (m_bufferedToolFragments s !! id) eqn:Hf; [|done].
  destruct (sh_frags _ _ (iv_shape _ _ _ HI) id) as (p0 & H0 & Hd); [by rewrite Hf|congruence].
Qed.

Lemma fresh_not_done : tb_done p = false.
Proof.
  destruct (sh_pend _ _ (iv_shape _ _ _ HI) id p Hp) as [Hk _]. destruct (tb_done p) eqn:Hd; [|done].
  destruct (tk_done _ _ _ _ Hk Hd). congruence.
Qed.

Lemma Inv_deferred :
  Inv (set_deferredTools (m_deferredTools s ++ [id]) (set_pendingToolStart (<[id := set_block_deferred p]> (m_pendingToolStart s)) s)) blocks l.
Proof.
  pose proof (iv_shape _ _ _ HI) as HS. destruct (pend_entry HI id p Hp) as (j & snap & Hj & Hi & Hb & Hd).
  rewrite fresh_not_done in Hd. subst snap. rewrite <- (list_insert_id l j _ Hj).
  destruct (sh_pend _ _ HS id p Hp) as [Hk _].
  assert (id ∉ m_deferredTools s) as Hni by (intros (p0 & H0 & Hd)%(sh_queue _ _ HS); congruence).
  set (s' := set_deferredTools _ _). assert (others s' = others s) as Ho by done.
  refine (Inv_call HI Ho (set_block_deferred p) blocks j None None Hj _ eq_refl (λ _ _, eq_refl) _).
  - apply (Shape_block HS Hp Ho (set_block_deferred p)); simpl; try done.
    + rewrite fresh_fragments. destruct Hk. constructor; simpl; try done.
      * by rewrite Hns.
      * by rewrite Hargs, Hsuf.
      * by rewrite fresh_not_done.
    + apply NoDup_app. split_and!; [apply (sh_queue _ _ HS)|intros x Hx ->%list_elem_of_singleton; done|apply NoDup_singleton].
    + intros id'. rewrite elem_of_app, list_elem_of_singleton. destruct (decide (id' = id)) as [->|Hne]; [by split; [left|right]|].
      split; [intros [Hin|?]; [by right|done]|by intros [[]|[_ Hin]]; [|left]].
    + by left.
    + by rewrite Hns, orb_false_r.
  - unfold call_pending. simpl. by rewrite Hns, fresh_not_done, Hb, Hns.
Qed.

Lemma Inv_started (Hnone : ∀ id' p0, m_pendingToolStart s !! id' = Some p0 → tb_started p0 = false) :
  Inv (set_sawToolUse true (set_pendingToolStart (<[id := start_directly p]> (m_pendingToolStart s)) s))
      (<[tb_blockIndex p := (CTool (tb_callID p) (tb_name p) "", true)]> blocks) l.
Proof.
  pose proof (iv_shape _ _ _ HI) as HS. destruct (pend_entry HI id p Hp) as (j & snap & Hj & Hi & Hb & Hd).
  rewrite fresh_not_done in Hd. subst snap. rewrite Hi, <- (list_insert_id l j _ Hj).
  destruct (sh_pend _ _ HS id p Hp) as [Hk _].
  set (s' := set_sawToolUse _ _). assert (others s' = others s) as Ho by done.
  refine (Inv_call HI Ho (start_directly p) _ j None None Hj _ eq_refl _ _).
  - apply (Shape_block HS Hp Ho (start_directly p)); simpl; try done.
    + destruct Hk. constructor; simpl; try done. intros _. by rewrite fresh_not_done.
    + intros (p0 & H0 & Hd)%(sh_frags _ _ HS). congruence.
    + apply (sh_queue _ _ HS).
    + intros id'. rewrite Hnd. destruct (decide (id' = id)) as [->|Hne]; [|by split; [right|intros [[]|[]]]].
      split; [intros (p0 & H0 & Hd)%(sh_queue _ _ HS); congruence|by intros [[]|[]]].
    + by right.
    + by rewrite orb_true_r.
  - intros i Hne. by rewrite lookup_insert_ne.
  - rewrite lookup_insert_eq. unfold call_pending. simpl. by rewrite fresh_not_done, Hargs.
Qed.
End fresh_call.

Lemma wpm_start_new th l s c id p :
  Good th l s c → no_wait s → m_pendingToolStart s !! id = Some p →
  (∀ id' p', id' ≠ id → m_pendingToolStart s !! id' = Some p' → placed p') →
  tb_started p = false → tb_deferred p = false → tb_arguments p = "" → tb_doneSuffix p = "" →
  wpm (maybeStartToolBlock id) (λ _, Ready th l) s c.
Proof.
  intros HG Hw Hp Hpl Hns Hnd Hargs Hsuf. pose proof HG as [Hph _ _ _ HI].
  assert (∀ s1 p1, m_pendingToolStart s1 = <[id := p1]> (m_pendingToolStart s) → placed p1 →
    ∀ id' p', m_pendingToolStart s1 !! id' = Some p' → placed p') as Hall.
  { intros s1 p1 -> Hp1 id' p' [[<- <-]|[Hne H0]]%lookup_insert_Some; [done|by eapply (Hpl id')]. }
  apply wpm_bind. eapply wpm_block; [exact Hp|]. rewrite Hns.
  destruct (String.eqb_spec (tb_callID p) "") as [Hc|Hc]; [|destruct (String.eqb_spec (tb_name p) "") as [Hn|Hn]]; simpl.
  1, 2: apply wpm_ret; split; [done|split; [done|]]; apply (Hall s p); [by rewrite insert_id|right; right; auto].
  apply wpm_bind, wpm_gets. destruct (anyContentBlockOpen s) eqn:Hopen.
  - apply wpm_bind. eapply wpm_block; [exact Hp|]. rewrite Hnd. apply wpm_bind, wpm_quiet; [quietm|]. intros _ s1 Hk.
    apply wpm_bind, wpm_modify, wpm_modify.
    pose proof (Inv_deferred HI Hp Hns Hnd Hargs Hsuf Hc Hn) as HI'.
    assert (m_pendingToolStart s1 = m_pendingToolStart s) as E1 by exact (f_equal m_pendingToolStart Hk).
    assert (m_deferredTools s1 = m_deferredTools s) as E2 by exact (f_equal m_deferredTools Hk).
    simpl. rewrite E1, E2, (alter_insert_some _ _ _ _ Hp).
    eapply (Ready_kept th l (set_deferredTools (m_deferredTools s ++ [id])%list
      (set_pendingToolStart (<[id := set_block_deferred p]> (m_pendingToolStart s)) s))).
    { exact (f_equal (λ x, set_deferredTools (m_deferredTools s ++ [id])%list
        (set_pendingToolStart (<[id := set_block_deferred p]> (m_pendingToolStart s)) x)) Hk). }
    split; [by destruct HG|]. split.
    + right. rewrite <- Hopen. by eapply (open_same s _ id p (set_block_deferred p)).
    + eapply (Hall _ (set_block_deferred p)); [done|right; by left].
  - apply wpm_bind, wpm_modify, wpm_bind, wpm_modify. destruct (pend_entry HI id p Hp) as (j & snap & Hj & Hi & Hb & Hd).
    eapply wpm_emit.
    { apply read_start; [done|by rewrite Hi, Hb, Hns| |done]. intros _. apply bool_decide_eq_true_2, (closed_blocks HI Hopen). }
    rewrite (alter_insert_some _ _ _ _ Hp). split.
    + eapply Good_block; [exact HG|done..|]. apply (Inv_started HI Hp Hns Hnd Hargs). by apply none_started.
    + split; [right; eapply (open_started _ id (start_directly p)); [simpl; by rewrite lookup_insert_eq|done]|].
      eapply (Hall _ (start_directly p)); [done|by left].
Qed.

Lemma Ready_added th l s c id x : Ready th l s c → Ready th l (set_addedItems (<[id := x]> (m_addedItems s)) s) c.
Proof. intros [[? ? ? ? HI] Hs]. split; [split; try done; by apply Inv_added|done]. Qed.

Lemma Good_call_added th l s c id callID name oi x :
  Good th l s c → m_addedItems s !! id = None →
  Good th (l ++ [ECall id callID name None])
    (set_pendingToolStart (<[id := new_block (s := s) id callID name oi]> (m_pendingToolStart s))
       (set_blockIndex (m_blockIndex s + 1) (set_addedItems (<[id := x]> (m_addedItems s)) s))) c.
Proof. intros [? ? ? ? HI] Ha. split; try done. by apply Inv_call_added. Qed.

Lemma wpm_item_added th l s c oi item :
  Ready th l s c → wpm (outputItemAdded oi item) (λ _, Ready th (announce th l (OutputItemAdded oi item))) s c.
Proof.
  intros HR. unfold outputItemAdded. apply wpm_bind, wpm_gets, wpm_bind, wpm_require; [done|]. intros Hadd%bool_decide_eq_true_1.
  apply wpm_bind, wpm_quiet; [quietm|]. intros _ s1 Hk1. apply wpm_bind, wpm_quiet; [quietm|]. intros _ s2 Hk2.
  assert (kept s2 = kept s) as Hk by by rewrite Hk2. clear Hk1 Hk2. apply (Ready_kept _ _ _ _ _ Hk) in HR.
  rewrite <- (f_equal m_addedItems Hk : m_addedItems s2 = m_addedItems s) in *. clear s s1 Hk. rename s2 into s.
  apply wpm_bind, wpm_modify.
  pose proof (Ready_added _ _ _ _ (responsesOutputItemID item) (oi, itemTypeName item) HR) as HR'.
  destruct item as [id ph content|id callID name arguments status|id|t].
  - apply wpm_quiet_ready; [quietm|done].
  - set (x := (oi, _)) in *. simpl announce. change (responsesOutputItemID _) with id in *.
    apply wpm_bind, wpm_quiet; [quietm|]. intros _ s3 Hk3. apply wpm_bind, wpm_quiet; [quietm|]. intros _ s4 Hk4.
    apply wpm_bind, wpm_quiet; [quietm|]. intros _ s5 Hk5. rewrite Hk4, Hk3 in Hk5. clear Hk3 Hk4 s3 s4.
    apply wpm_bind, wpm_gets, wpm_bind, wpm_modify, wpm_bind, wpm_modify.
    pose proof HR as [HG [Hw Hpl]]. pose proof (Good_call_added _ _ _ _ id callID name oi x HG Hadd) as HG'.
    assert (m_pendingToolStart s5 = m_pendingToolStart s) as E1 by exact (f_equal m_pendingToolStart Hk5).
    assert (m_blockIndex s5 = m_blockIndex s) as E2 by exact (f_equal m_blockIndex Hk5).
    assert (m_pendingToolStart s !! id = None) as Hnone.
    { destruct (m_pendingToolStart s !! id) as [p|] eqn:Hp; [|done].
      destruct (sh_pend _ _ (iv_shape _ _ _ (gd_inv _ _ _ _ HG)) id p Hp) as (_ & j & c' & n & sn & Hj).
      exfalso. eapply (sh_calls _ _ (iv_shape _ _ _ (gd_inv _ _ _ _ HG))); [eapply list_elem_of_lookup_2, Hj|done]. }
    simpl. rewrite E1, E2. set (p := {| tb_blockIndex := _ |}).
    apply (wpm_start_new th _ _ _ id p); try done.
    + eapply Good_kept; [|exact HG'].
      exact (f_equal (λ y, set_pendingToolStart (<[id := p]> (m_pendingToolStart s)) (set_blockIndex (m_blockIndex s + 1) y)) Hk5).
    + assert (no_wait s5) as [Hw'|Hw'] by exact (proj1 (settled_kept _ _ Hk5 (rd_settled _ _ _ _ HR'))); [by left|right].
      rewrite <- Hw'. unfold anyContentBlockOpen. simpl. rewrite E1. do 2 f_equal. apply bool_decide_ext.
      rewrite map_Forall_insert by done. by split; [intros []|].
    + simpl. by rewrite lookup_insert_eq.
    + intros id' p'. simpl. rewrite lookup_insert_Some. intros Hne [[]|[_ Hp']]; [by destruct Hne|eauto].
  - change (announce th l _) with l. eapply wpm_quiet_ready; [quietm|done].
  - by apply wpm_fail.
Qed.

(** ** The end of a call *)

Lemma set_arguments_same p : set_arguments (tb_arguments p) p = p.
Proof. by destruct p. Qed.

Lemma reconcile_snapshot accumulated snapshot arguments suffix :
  reconcile accumulated snapshot = Ok (arguments, suffix) →
  arguments = match cut_prefix accumulated snapshot with Some _ => snapshot | None => accumulated end.
Proof.
  unfold reconcile. destruct (raw_object (lit snapshot)); [|done]. destruct (cut_prefix accumulated snapshot); [by intros [= <- <-]|].
  destruct (raw_object (lit accumulated)); [|done]. case_match; [by intros [= <- <-]|done].
Qed.

(** The block takes the arguments, in full. *)
Lemma wpm_reconcile id snapshot p s c (Q : string * string → msgState → client → Prop) :
  m_pendingToolStart s !! id = Some p →
  (∀ suffix s', same_object (tb_arguments p ++ suffix) snapshot →
     kept s' = kept (set_pendingToolStart (<[id := set_arguments (tb_arguments p ++ suffix) p]> (m_pendingToolStart s)) s) →
     Q (tb_arguments p ++ suffix, suffix) s' c) →
  wpm (reconcileToolArguments id snapshot) Q s c.
Proof.
  intros Hp HQ. apply wpm_bind. eapply wpm_block; [exact Hp|].
  destruct (reconcile (tb_arguments p) snapshot) as [[arguments suffix]|e] eqn:Er; [|by destruct e; apply wpm_fail].
  pose proof (reconcile_snapshot _ _ _ _ Er) as Hcut. apply reconcile_ok in Er as [-> Hso]. apply wpm_bind.
  destruct (cut_prefix (tb_arguments p) snapshot) eqn:Ec; apply wpm_when; try done; intros _.
  - apply wpm_bind, wpm_quiet; [quietm|]. intros _ s1 Hk. apply wpm_modify, wpm_ret, HQ; [done|].
    assert (m_pendingToolStart s1 = m_pendingToolStart s) as -> by exact (f_equal m_pendingToolStart Hk).
    rewrite (alter_insert_some _ _ _ _ Hp), <- Hcut. exact (f_equal (set_pendingToolStart (<[id := set_arguments (tb_arguments p ++ suffix) p]> (m_pendingToolStart s))) Hk).
  - apply wpm_ret, HQ; [done|]. rewrite Hcut, set_arguments_same, insert_id by done. by destruct s.
Qed.

Section call_ends.
Context {th : bool} {l : list entry} {s : msgState} {c : client} (HR : Ready th l s c).

Lemma wpm_arguments_done id oi arguments :
  flowing id s → sealed id (m_fsm s) → wpm (functionArgumentsDone id oi arguments) (λ _, Ready th l) s c.
Proof.
  intros Hflow Hseal. pose proof HR as [HG [Hw Hpl]]. pose proof HG as [Hph H1 H2 H3 HI].
  apply wpm_bind, wpm_gets, wpm_bind, wpm_or_fail; [done|]. intros p Hp. destruct (Hflow p Hp) as [Hsuf Hdone].
  destruct (pend_entry HI id p Hp) as (j & snap & Hj & Hi & Hb & Hd). rewrite Hdone in Hd. subst snap.
  destruct (sh_pend _ _ (iv_shape _ _ _ HI) id p Hp) as [Hk _].
  apply wpm_bind, wpm_require; [done|intros _]. apply wpm_bind. eapply wpm_reconcile; [exact Hp|]. intros suffix s2 _ Hk2.
  set (p' := set_arguments (tb_arguments p ++ suffix) p) in *. set (s1 := set_pendingToolStart _ s) in Hk2.
  assert (settled s1) as Hset1 by by eapply (settled_replace s s1 id p p').
  assert (m_pendingToolStart s2 = <[id := p']> (m_pendingToolStart s)) as Hpend2 by exact (f_equal m_pendingToolStart Hk2).
  assert (m_pendingToolStart s2 !! id = Some p') as Hp2 by by rewrite Hpend2, lookup_insert_eq.
  pose proof (settled_kept _ _ Hk2 Hset1) as [Hw2 Hpl2]. apply wpm_bind. eapply wpm_same.
  { eapply maybeStart_noop; [done|by eapply Hpl2|intros Hdef|exact Hp2].
    rewrite (f_equal m_deferredTools Hk2 : m_deferredTools s2 = m_deferredTools s). by apply (deferred_queued s l id p (iv_shape _ _ _ HI) Hp). }
  apply wpm_bind. eapply wpm_block; [exact Hp2|]. simpl. destruct (nonblank suffix) eqn:Hnb; rewrite ?andb_true_r, ?andb_false_r.
  2: { unfold nonblank in Hnb. apply negb_false_iff, String.eqb_eq in Hnb as ->.
       unfold p' in Hk2, s1. apply wpm_ret. eapply Ready_kept; [|exact HR]. rewrite Hk2. unfold s1, p'.
       rewrite ResponsesFsm.append_empty, set_arguments_same, insert_id by done. by destruct s. }
  destruct (tb_started p) eqn:Hst.
  - rewrite Hi. eapply wpm_emit; [by eapply read_delta|]. eapply Ready_kept; [exact Hk2|]. split; [|done].
    eapply Good_block; [exact HG|done..|]. by eapply (Good_grow HR).
  - destruct (tb_deferred p) eqn:Hdef; simpl.
    + apply wpm_modify. rewrite Hpend2, (alter_insert_some _ _ id p') by by rewrite lookup_insert_eq. rewrite insert_insert_eq.
      set (ph := hold false suffix p').
      eapply (Ready_kept th l (set_pendingToolStart (<[id := ph]> (m_pendingToolStart s)) s)).
      { exact (f_equal (set_pendingToolStart (<[id := ph]> (m_pendingToolStart s))) Hk2). }
      assert (tool_ok id (default [] (m_bufferedToolFragments s !! id)) (m_fsm s) ph) as Hok by by apply tool_ok_hold.
      split; [split; try done|eapply (settled_replace s _ id p ph); done].
      eapply (Inv_idle HR id p ph); try done. unfold ph. simpl. by rewrite Hdone.
    + apply wpm_ret. eapply Ready_kept; [exact Hk2|]. split; [|done]. split; try done.
      eapply (Inv_idle HR id p p'); try done; [by apply tool_ok_grow|].
      intros (p0 & H0 & Hd0)%(sh_frags _ _ (iv_shape _ _ _ HI)). simpl. congruence.
Qed.

(** An open block stops with the arguments. *)
Lemma Inv_stopped id p j suffix arguments s1 :
  m_pendingToolStart s !! id = Some p → tb_started p = true → l !! j = Some (ECall id (tb_callID p) (tb_name p) None) →
  same_object (tb_arguments p ++ suffix) arguments → others s1 = others s →
  m_pendingToolStart s1 = delete id (m_pendingToolStart s) → m_bufferedToolFragments s1 = m_bufferedToolFragments s →
  m_deferredTools s1 = m_deferredTools s → m_sawToolUse s1 = m_sawToolUse s →
  Inv s1 (<[Z.of_nat j := (CTool (tb_callID p) (tb_name p) (tb_arguments p ++ suffix), false)]> (cl_blocks c))
    (<[j := ECall id (tb_callID p) (tb_name p) (Some arguments)]> l).
Proof.
  intros Hp Hst Hj Hso Ho Hpend Hf Hq Hsaw. pose proof (gd_inv _ _ _ _ (rd_good _ _ _ _ HR)) as HI. pose proof (iv_shape _ _ _ HI) as HS.
  destruct (sh_pend _ _ HS id p Hp) as [Hk _]. destruct (tk_started _ _ _ _ Hk Hst) as [Hdef _].
  eapply (Inv_call_closed HI Ho); [exact Hj| |exact Hpend| |exact Hso|by rewrite lookup_insert_eq].
  - apply (Shape_close HS Hp Ho Hpend).
    + rewrite Hf, delete_id; [done|]. destruct (m_bufferedToolFragments s !! id) eqn:E; [|done].
      destruct (sh_frags _ _ HS id) as (p0 & H0 & Hd0); [by rewrite E|congruence].
    + rewrite Hq. apply (sh_queue _ _ HS).
    + intros id'. rewrite Hq. split; [|by intros []]. intros Hin. split; [|done]. intros ->.
      apply (sh_queue _ _ HS) in Hin as (p0 & H0 & Hd0). congruence.
    + rewrite Hsaw, (sh_saw _ _ HS). apply existsb_exists. exists (ECall id (tb_callID p) (tb_name p) None).
      split; [eapply list_elem_of_In, list_elem_of_lookup_2, Hj|]. simpl. by rewrite Hp.
  - intros i Hne. by rewrite lookup_insert_ne.
Qed.

Lemma Inv_held id p j suffix arguments ph s1 :
  m_pendingToolStart s !! id = Some p → tb_deferred p = true → finished id (m_fsm s) →
  l !! j = Some (ECall id (tb_callID p) (tb_name p) None) → tb_blockIndex p = Z.of_nat j → cl_blocks c !! Z.of_nat j = None →
  same_object (tb_arguments p ++ suffix) arguments →
  ph = hold true suffix (set_arguments (tb_arguments p ++ suffix) p) → s1 = set_pendingToolStart (<[id := ph]> (m_pendingToolStart s)) s →
  Inv s1 (cl_blocks c) (<[j := ECall id (tb_callID p) (tb_name p) (Some arguments)]> l).
Proof.
  intros Hp Hdef Hfin Hj Hi Hb Hso -> ->. pose proof (gd_inv _ _ _ _ (rd_good _ _ _ _ HR)) as HI. pose proof (iv_shape _ _ _ HI) as HS.
  destruct (sh_pend _ _ HS id p Hp) as [Hk _].
  assert (tb_started p = false) as Hst by (destruct (tb_started p) eqn:E; [destruct (tk_started _ _ _ _ Hk E); congruence|done]).
  eapply (Inv_replace s _ _ _ l id p _ j None (Some arguments) HI Hp); try done.
  - apply tool_ok_hold; try done. by apply finished_sealed.
  - unfold call_pending. simpl. rewrite Hst, Hb, orb_true_r. split_and!; try done. by exists arguments.
Qed.

Lemma wpm_call_done id callID name arguments status :
  (∀ p, m_pendingToolStart s !! id = Some p → tb_done p = false) → finished id (m_fsm s) →
  wpm (functionCallDone id callID name arguments status) (λ _, Ready th (map (add_snapshot id arguments) l)) s c.
Proof.
  intros Hopen Hfin. pose proof HR as [HG [Hw Hpl]]. pose proof HG as [Hph H1 H2 H3 HI].
  apply wpm_bind, wpm_gets, wpm_bind, wpm_or_fail; [done|]. intros p Hp. pose proof (Hopen p Hp) as Hdone.
  destruct (pend_entry HI id p Hp) as (j & snap & Hj & Hi & Hb & Hd). rewrite Hdone in Hd. subst snap.
  destruct (sh_pend _ _ (iv_shape _ _ _ HI) id p Hp) as [Hk _].
  rewrite (announce_snapshot s l j id _ _ arguments (iv_shape _ _ _ HI) Hj).
  apply wpm_bind, wpm_require; [done|]. intros [Hc Hn]%andb_true_iff.
  do 3 (apply wpm_bind, wpm_require; [done|intros _]). apply wpm_bind. eapply (wpm_maybe_start HR); [exact Hp|].
  apply wpm_bind. eapply wpm_reconcile; [exact Hp|]. intros suffix s2 Hso Hk2.
  set (p' := set_arguments (tb_arguments p ++ suffix) p) in *. set (s1 := set_pendingToolStart _ s) in Hk2.
  assert (m_pendingToolStart s2 = <[id := p']> (m_pendingToolStart s)) as Hpend2 by exact (f_equal m_pendingToolStart Hk2).
  assert (m_pendingToolStart s2 !! id = Some p') as Hp2 by by rewrite Hpend2, lookup_insert_eq.
  apply wpm_bind, wpm_require; [done|intros _]. apply wpm_bind. eapply wpm_block; [exact Hp2|]. simpl.
  destruct (tb_deferred p && negb (tb_started p)) eqn:Hcase.
  - apply andb_true_iff in Hcase as [Hdef Hst%negb_true_iff]. rewrite Hst in Hb.
    apply wpm_modify. rewrite Hpend2, (alter_insert_some _ _ id p') by by rewrite lookup_insert_eq. rewrite insert_insert_eq.
    set (ph := hold true suffix p').
    eapply (Ready_kept th _ (set_pendingToolStart (<[id := ph]> (m_pendingToolStart s)) s)).
    { exact (f_equal (set_pendingToolStart (<[id := ph]> (m_pendingToolStart s))) Hk2). }
    split; [split; try done; by eapply (Inv_held id p j suffix)|eapply (settled_replace s _ id p ph); done].
  - assert (tb_started p = true) as Hst.
    { destruct (Hpl id p Hp) as [?|[Hdef|[E|E]]]; [done| |by rewrite E in Hc|by rewrite E in Hn].
      rewrite Hdef in Hcase. by apply negb_false_iff in Hcase. }
    rewrite Hst in Hb. rewrite Hi. apply wpm_bind. eapply wpm_input; [done|exact Hb|].
    apply wpm_bind, wpm_bind. simpl. rewrite Hi. eapply wpm_emit; [eapply read_stop; [done|simpl; by rewrite lookup_insert_eq]|].
    rewrite with_block_twice. do 2 apply wpm_bind, wpm_modify. apply wpm_modify. simpl.
    set (s3 := set_pendingToolStart (delete id (m_pendingToolStart s)) s).
    apply wpm_drain_all.
    + eapply (Good_kept th _ s3).
      { rewrite Hpend2, delete_insert_eq. exact (f_equal (set_pendingToolStart (delete id (m_pendingToolStart s))) Hk2). }
      eapply Good_block; [exact HG|done..|]. by eapply Inv_stopped.
    + intros id' p0. simpl. rewrite Hpend2, delete_insert_eq. intros [_ H0]%lookup_delete_Some. by eapply Hpl.
Qed.
End call_ends.
