(* ===== verification/MsgStreamRun.v ===== *)
(** * The Messages stream as a whole

    The events, the terminals and the frames of a stream on the invariant of
    [MsgStreamLaws], and the theorems: the converter refines its specification
    ([MsgClient]). *)

From Stdlib Require Import ZArith QArith Qcanon Lia Bool List Ascii String.
From stdpp Require Import strings gmap list.
From S2P Require Import Prelude GoStd GoStr Budget Losses Usage Emitter ToolArgs MsgStream MsgClient MsgStreamLaws MsgStreamCalls.
From S2P Require ResponsesFsm.

Open Scope string_scope.
Open Scope Z_scope.
Open Scope stream_scope.

(** ** Events *)

Lemma Inv_current s blocks l j e : Inv s blocks l → l !! j = Some e → current e (blocks !! Z.of_nat j).
Proof.
  intros HI Hj. pose proof (iv_match _ _ _ HI j e Hj) as Hm. destruct e as [k key t|id callID name snap|t]; simpl in *.
  - destruct Hm as (_ & _ & ->). by eexists.
  - destruct (m_pendingToolStart s !! id) as [p|].
    + destruct Hm as (_ & _ & _ & -> & _). destruct (tb_started p); [right|by left]. by eexists _, _.
    + destruct Hm as (t & input & _ & _ & ->). right. by eexists _, _.
  - rewrite Hm. case_bool_decide; by eexists _, _.
Qed.

Lemma Inv_delivered s blocks l j e :
  Inv s blocks l → m_partBlocks s = ∅ → m_pendingToolStart s = ∅ → l !! j = Some e →
  ∃ b, blocks !! Z.of_nat j = Some b ∧ delivered e b.
Proof.
  intros HI Hp Ht Hj. pose proof (iv_match _ _ _ HI j e Hj) as Hm. destruct e as [k key t|id callID name snap|t]; simpl in *.
  - destruct Hm as (_ & _ & ->). rewrite Hp, lookup_empty. by eexists.
  - rewrite Ht, lookup_empty in Hm. destruct Hm as (t & input & -> & Hso & ->). eexists. split; [done|]. simpl. by exists input.
  - rewrite Hm. eexists. split; [done|]. case_bool_decide; [by right|by left].
Qed.

(** The machine and the client at a phase of the message. *)
Inductive Follows (th : bool) : phase → list entry → msgState → client → Prop :=
| Before s : m_messageSent s = false → m_sawTerminal s = false → mx_ProviderReasoningThinking (m_exchange s) = th →
    Inv s ∅ [] → settled s → Follows th Waiting [] s client0
| During l s c : Ready th l s c → Follows th Streaming l s c
| After l s c : m_sawTerminal s = true → final (cl_phase c) = true → assembled (cl_phase c) l (cl_blocks c) →
    Follows th (cl_phase c) l s c.

Lemma wpm_message_start th e s :
  m_messageSent s = false → m_sawTerminal s = false → mx_ProviderReasoningThinking (m_exchange s) = th →
  Inv s ∅ [] → settled s → wpm (messageStart e) (λ _, Ready th []) s client0.
Proof.
  intros _ Hlive Hth HI Hset. apply wpm_bind, wpm_gets, wpm_bind, wpm_require; [done|intros _]. apply wpm_bind, wpm_modify.
  set (s1 := set_messageSent true s). apply wpm_bind, wpm_quiet; [quietm|]. intros _ s2 Hk2. apply wpm_bind, wpm_quiet; [quietm|].
  intros _ s3 Hk3. apply wpm_bind, wpm_quiet; [quietm|]. intros _ s4 Hk4. rewrite Hk3, Hk2 in Hk4. apply wpm_bind, wpm_quiet.
  { destruct (re_Usage e); quietm. }
  intros _ s5 Hk5. rewrite Hk4 in Hk5. eapply (wpm_emit _ (with_phase Streaming client0)); [done|].
  eapply Ready_kept; [exact Hk5|]. split; [split; try done|done]. destruct HI as [HS Hu Hm]. constructor; [by destruct HS|done..].
Qed.

Lemma call_live_empty l : existsb (call_live ∅) l = existsb is_call l.
Proof. apply existsb_agree. by intros []. Qed.

Section terminals.
Context {th : bool} {l : list entry} {s : msgState} {c : client} (HR : Ready th l s c).

Lemma wpm_gate e (Q : unit → msgState → client → Prop) :
  (∀ s', kept s' = kept s → m_partBlocks s = ∅ → m_pendingToolStart s = ∅ → Q tt s' c) → wpm (gateTerminalEnvelope e) Q s c.
Proof.
  intros HQ. apply wpm_bind, wpm_gets, wpm_bind, wpm_require; [done|intros _]. apply wpm_bind, wpm_quiet; [quietm|]. intros _ s1 Hk.
  apply wpm_bind, wpm_gets, wpm_bind, wpm_require; [done|]. intros [H1%bool_decide_eq_true_1 H2%bool_decide_eq_true_1]%andb_true_iff.
  apply wpm_bind, wpm_gets, wpm_bind, wpm_require; [done|intros _]. apply wpm_quiet; [quietm|]. intros [] s2 Hk2. apply HQ.
  - by rewrite Hk2, Hk.
  - rewrite <- H1. symmetry. exact (f_equal m_partBlocks Hk).
  - rewrite <- H2. symmetry. exact (f_equal m_pendingToolStart Hk).
Qed.

Lemma wpm_conclude e stop :
  m_partBlocks s = ∅ → m_pendingToolStart s = ∅ →
  wpm (conclude e stop) (λ _, Follows th (Stopped (stopReasonToAnthropic stop)) l) s c.
Proof.
  intros Hp Ht. pose proof HR as [[Hph _ _ _ HI] _].
  apply wpm_bind, wpm_quiet; [quietm|]. intros _ s1 _. apply wpm_bind, wpm_quiet; [quietm|]. intros _ s2 _.
  apply wpm_bind, wpm_quiet; [quietm|]. intros _ s3 _. apply wpm_bind, wpm_modify, wpm_bind, wpm_gets, wpm_bind.
  eapply (wpm_emit _ (with_phase (Stopping (stopReasonToAnthropic stop)) c)).
  { simpl. unfold answer_closed. by rewrite Hph, bool_decide_eq_true_2 by by eapply answer_blocks. }
  eapply (wpm_emit _ (with_phase (Stopped (stopReasonToAnthropic stop)) c)); [done|].
  apply (After th l _ (with_phase (Stopped (stopReasonToAnthropic stop)) c)); [done..|]. simpl. split; [apply HI|].
  intros j en Hj. by eapply Inv_delivered.
Qed.

End terminals.

Section endings.
Context {th : bool} {l : list entry} {s : msgState} {c : client} (HR : Ready th l s c).

Lemma wpm_completed e :
  wpm (completed e) (λ _, Follows th (progress Streaming l (Completed e)) l) s c.
Proof.
  apply wpm_bind, wpm_gate. intros s1 Hk Hp Ht. apply wpm_bind, wpm_gets. pose proof (Ready_kept _ _ _ _ _ Hk HR) as HR1.
  assert (m_partBlocks s1 = ∅) as Hp1 by by rewrite <- Hp; exact (f_equal m_partBlocks Hk).
  assert (m_pendingToolStart s1 = ∅) as Ht1 by by rewrite <- Ht; exact (f_equal m_pendingToolStart Hk).
  rewrite (sh_saw _ _ (iv_shape _ _ _ (gd_inv _ _ _ _ (rd_good _ _ _ _ HR1)))), Ht1, call_live_empty.
  simpl. destruct (_ || _); by apply (wpm_conclude HR1).
Qed.

Lemma wpm_incomplete e :
  wpm (incomplete e) (λ _, Follows th (progress Streaming l (Incomplete e)) l) s c.
Proof.
  apply wpm_bind, wpm_gate. intros s1 Hk Hp Ht. pose proof (Ready_kept _ _ _ _ _ Hk HR) as HR1.
  assert (m_partBlocks s1 = ∅) as Hp1 by by rewrite <- Hp; exact (f_equal m_partBlocks Hk).
  assert (m_pendingToolStart s1 = ∅) as Ht1 by by rewrite <- Ht; exact (f_equal m_pendingToolStart Hk).
  simpl. case_bool_decide; by apply (wpm_conclude HR1).
Qed.
End endings.

Lemma Follows_inv th p l s c :
  Follows th p l s c → m_sawTerminal s = false → Inv s (cl_blocks c) l ∧ assembled p l (cl_blocks c) ∧ final p = false.
Proof.
  intros [s0 ? ? ? HI Hs|l0 s0 c0 [[? ? ? ? HI] Hs]|l0 s0 c0 Hend ? ?] Hlive; [| |congruence]; (split; [done|split; [|done]]);
    (split; [apply HI|]); intros j e; by eapply Inv_current.
Qed.

(** An error of the upstream ends the message. *)
Lemma wpm_error th p l s c code message errorType :
  Follows th p l s c → m_sawTerminal s = false → anthropicErrorTypeFromCode code = errorType →
  wpm (saw_error ;;= buildErrorEvent code message) (λ _, Follows th (Errored errorType message) l) s c.
Proof.
  intros HF Hlive <-. pose proof (Follows_inv _ _ _ _ _ HF Hlive) as (HI & Ha & _).
  apply wpm_bind, wpm_bind, wpm_modify, wpm_modify. eapply (wpm_emit _ (with_phase (Errored _ _) c)).
  { destruct HF as [|l0 s0 c0 [[Hph] _]|]; simpl in *; [done|by rewrite Hph|congruence]. }
  apply (After th l _ (with_phase (Errored _ message) c)); try done. simpl. destruct Ha as [Hu Ha]. split; [done|].
  intros j e Hj. specialize (Ha j e Hj). destruct HF; simpl in *; try done. congruence.
Qed.

(** What the validator's acceptance says of the blocks. *)
Definition heeds (b : upstream_body) (s : msgState) : Prop :=
  match b with
  | FunctionArgumentsDelta id _ _ => flowing id s
  | FunctionArgumentsDone id _ _ => flowing id s ∧ sealed id (m_fsm s)
  | OutputItemDone _ item =>
      (∀ p, m_pendingToolStart s !! responsesOutputItemID item = Some p → tb_done p = false) ∧
      finished (responsesOutputItemID item) (m_fsm s)
  | _ => True
  end.

Lemma heeds_told b s f' l : Shape s l → told b (m_fsm s) f' → heeds b (set_fsm f' s).
Proof.
  intros HS. assert (∀ id, ¬ sealed id (m_fsm s) → flowing id (set_fsm f' s)) as Hflow.
  { intros id Hns p Hp. destruct (sh_pend _ _ HS id p Hp) as [Hk _]. split.
    - destruct (String.string_dec (tb_doneSuffix p) "") as [|Hne]; [done|]. by destruct Hns; apply (tk_sealed _ _ _ _ Hk).
    - destruct (tb_done p) eqn:E; [|done]. by destruct Hns; apply finished_sealed, (tk_done _ _ _ _ Hk E). }
  destruct b; simpl; try done.
  - intros [Hnf Hf]. split; [|done]. intros p Hp. destruct (sh_pend _ _ HS _ p Hp) as [Hk _].
    destruct (tb_done p) eqn:E; [|done]. by destruct Hnf; apply (tk_done _ _ _ _ Hk E).
  - apply Hflow.
  - intros [Hns Hs]. split; [by apply Hflow|done].
Qed.

Section events.
Context {th : bool} {l : list entry} {s : msgState} {c : client} (HR : Ready th l s c).

Lemma wpm_item_done oi item :
  heeds (OutputItemDone oi item) s → wpm (outputItemDone oi item) (λ _, Ready th (announce th l (OutputItemDone oi item))) s c.
Proof.
  intros [Hopen Hfin]. apply wpm_bind, wpm_gets, wpm_bind, wpm_require; [done|intros _]. apply wpm_bind, wpm_gets.
  apply wpm_bind, wpm_or_fail; [done|]. intros added _. do 2 (apply wpm_bind, wpm_require; [done|intros _]).
  destruct item; try (eapply wpm_quiet_ready; [quietm|done]). by apply wpm_call_done.
Qed.

Lemma wpm_reasoning (m : M unit) l' :
  (th = true → wpm m (λ _, Ready th l') s c) → (th = false → l' = l) → wpm (reasoning_event m) (λ _, Ready th l') s c.
Proof.
  intros Hm Hl. apply wpm_bind, wpm_gets. rewrite (gd_thinking _ _ _ _ (rd_good _ _ _ _ HR)).
  destruct th; [by apply Hm|]. rewrite Hl by done. eapply wpm_quiet_ready; [quietm|done].
Qed.

Lemma wpm_within b :
  heeds b s → final (progress Streaming l b) = false → wpm (interpret b) (λ _, Ready th (announce th l b)) s c.
Proof.
  intros Hb Hf. destruct b; simpl in Hf |- *; try done.
  - apply wpm_bind, wpm_gets. rewrite (gd_sent _ _ _ _ (rd_good _ _ _ _ HR)). apply wpm_bind, wpm_require; done.
  - eapply wpm_quiet_ready; [quietm|done].
  - by apply wpm_item_added.
  - by apply wpm_item_done.
  - by apply (wpm_part_added HR).
  - by apply (wpm_part_done HR).
  - by apply (wpm_part_delta HR).
  - by apply (wpm_value_done HR).
  - by apply (wpm_part_delta HR).
  - by apply (wpm_value_done HR).
  - by apply (wpm_arguments_delta HR).
  - by destruct Hb; apply wpm_arguments_done.
  - apply wpm_reasoning; destruct th; try done. intros _. by apply wpm_reasoning_added.
  - apply wpm_reasoning; destruct th; try done. intros _. by apply wpm_reasoning_delta.
  - apply wpm_reasoning; [|done]. intros _. by apply wpm_ret.
  - apply wpm_reasoning; [|done]. intros _. by apply wpm_reasoning_done.
  - by destruct (re_Error e) as [[]|].
Qed.

Lemma wpm_interpret b :
  heeds b s → wpm (interpret b) (λ _, Follows th (progress Streaming l b) (announce th l b)) s c.
Proof.
  intros Hb. destruct (final (progress Streaming l b)) eqn:Hf.
  - pose proof HR as [[_ _ Hlive _ _] _]. destruct b; try done.
    + by apply wpm_completed.
    + by apply wpm_incomplete.
    + apply wpm_bind, wpm_gets, wpm_bind, wpm_require; [done|intros _]. apply wpm_bind, wpm_quiet; [quietm|]. intros _ s1 Hk.
      simpl. pose proof (Ready_kept _ _ _ _ _ Hk HR) as HR1. pose proof HR1 as [[_ _ Hlive1 _ _] _].
      destruct (re_Error e) as [[message code]|]; (eapply (wpm_error th _ l s1 c); [by apply During|done|done]).
    + eapply (wpm_error th _ l s c); [by apply During|done|done].
  - assert (progress Streaming l b = Streaming) as ->.
    { destruct b; simpl in *; try done. by repeat case_match. }
    eapply wpm_mono; [by apply wpm_within|]. intros u s1 c1. by apply During.
Qed.
End events.

(** ** The stream *)

Lemma wpm_convert th p l s c ev :
  Follows th p l s c → wpm (Convert ev) (λ _, Follows th (progress p l (up_body ev)) (announce th l (up_body ev))) s c.
Proof.
  intros HF. apply wp_deliver; [apply _|]. apply wpm_bind, wpm_gets, wpm_bind, wpm_require; [done|]. intros Hlive%negb_true_iff.
  pose proof (Follows_inv _ _ _ _ _ HF Hlive) as (HI & _ & _). apply wpm_bind. unfold wp at 1, validate.
  destruct (ResponsesFsm.ValidateEvent (fsm_event ev) (m_fsm s)) as [[u|v] f'] eqn:Ev.
  2: { split; [by intros ? [= <-]|]. exists c. split; [done|done]. }
  apply validated in Ev as [Hs Ht]. split; [done|]. exists c. split; [done|]. intros _ _.
  assert (Follows th p l (set_fsm f' s) c) as HF'.
  { destruct HF as [s0 ? ? ? HI0 Hset|l0 s0 c0 [[? ? ? ? HI0] Hset]|]; [| |simpl in *; congruence].
    - apply Before; try done. by apply Inv_fsm.
    - apply During. split; [split; try done|done]. by apply Inv_fsm. }
  pose proof (heeds_told _ _ _ _ (iv_shape _ _ _ HI) Ht) as Hh. clear HF HI Hs Ht. assert (m_sawTerminal (set_fsm f' s) = false) as Hl by done.
  clear Hlive. revert HF' Hh Hl. generalize (set_fsm f' s). clear s f'. intros s HF Hh Hl.
  apply wpm_bind, wpm_quiet; [quietm|]. intros _ s1 Hk1. apply wpm_bind, wpm_gets, wpm_bind, wpm_require; [done|intros _].
  apply wpm_bind, wpm_modify, wpm_bind, wpm_gets, wpm_bind, wpm_require; [done|]. intros Hsent.
  assert (kept (set_lastSequence (Sequence ev) s1) = kept s) as Hk by by rewrite <- Hk1.
  revert Hk Hsent. generalize (set_lastSequence (Sequence ev) s1). clear s1 Hk1. intros s1 Hk Hsent.
  destruct HF as [s Hns Hlive Hth HI Hset|l s c HR|]; [| |congruence].
  - rewrite (f_equal m_messageSent Hk : m_messageSent s1 = m_messageSent s), Hns in Hsent.
    assert (Inv s1 ∅ []) as HI1 by by eapply Inv_kept. assert (settled s1) as Hset1 by by eapply settled_kept.
    assert (m_messageSent s1 = false) as Hns1 by by rewrite <- Hns; exact (f_equal m_messageSent Hk).
    assert (m_sawTerminal s1 = false) as Hl1 by by rewrite <- Hl; exact (f_equal m_sawTerminal Hk).
    assert (mx_ProviderReasoningThinking (m_exchange s1) = th) as Hth1 by by rewrite <- Hth; exact (f_equal (λ s, mx_ProviderReasoningThinking (m_exchange s)) Hk).
    destruct (up_body ev); try done.
    + eapply wpm_mono; [by apply wpm_message_start|]. intros ? s2 c2. by apply During.
    + eapply (wpm_error th Waiting); [by apply Before|done|done].
  - apply wpm_interpret; [by eapply Ready_kept|]. 
    assert (m_pendingToolStart s1 = m_pendingToolStart s) as E1 by exact (f_equal m_pendingToolStart Hk).
    assert (m_fsm s1 = m_fsm s) as E2 by exact (f_equal m_fsm Hk).
    destruct (up_body ev); simpl in *; unfold flowing in *; rewrite ?E1, ?E2; done.
Qed.

Lemma Follows_final th p l s c : Follows th p l s c → m_sawTerminal s = final p.
Proof. intros [s0 ? Hl|l0 s0 c0 [[? ? Hl] _]|l0 s0 c0 Hl Hf]; [done|done|by rewrite Hf]. Qed.

Lemma Follows_client th p l s c : Follows th p l s c → cl_phase c = p ∧ assembled p l (cl_blocks c).
Proof.
  intros HF. destruct (m_sawTerminal s) eqn:Hl.
  - destruct HF as [|l0 s0 c0 [[] _]|]; [congruence|congruence|done].
  - pose proof (Follows_inv _ _ _ _ _ HF Hl) as (_ & Ha & _). split; [|done]. by destruct HF as [|l0 s0 c0 [[] _]|].
Qed.

Lemma wpm_frame th p l s c noted fr :
  Follows th p l s c → final p = false →
  wpm (convert_frame noted fr)
    (λ _, match fr with
          | Frame _ _ ev => Follows th (progress p l (up_body ev)) (announce th l (up_body ev))
          | _ => λ _ _, False
          end) s c.
Proof.
  intros HF Hp. destruct fr as [name agrees ev| |].
  - apply wpm_bind. assert (∀ (b : bool) s', kept s' = kept s →
      wpm ((Convert ev ;;= mret b) : M bool) (λ _, Follows th (progress p l (up_body ev)) (announce th l (up_body ev))) s' c) as Hev.
    { intros b s' Hk. apply wpm_bind. eapply wpm_mono; [apply (wpm_convert th p l)|intros ? ? ? HF1; by apply wpm_ret].
      destruct HF as [s0 H1 H2 H3 HI Hset|l0 s0 c0 HR|]; [| |congruence].
      - apply Before; [..|by eapply Inv_kept|by eapply settled_kept].
        + rewrite <- H1. exact (f_equal m_messageSent Hk).
        + rewrite <- H2. exact (f_equal m_sawTerminal Hk).
        + rewrite <- H3. exact (f_equal (λ s, mx_ProviderReasoningThinking (m_exchange s)) Hk).
      - apply During. by eapply Ready_kept. }
    destruct (String.eqb name "").
    + apply wpm_bind, wpm_quiet; [quietm|]. intros _ s1 Hk. apply wpm_ret. by apply Hev.
    + apply wpm_bind, wpm_require; [done|intros _]. apply wpm_ret. by apply Hev.
  - apply wpm_bind, wpm_gets, wpm_bind. rewrite (Follows_final _ _ _ _ _ HF), Hp. by apply wpm_require.
  - apply wpm_bind, wpm_bind, wpm_gets. rewrite (Follows_final _ _ _ _ _ HF), Hp. by apply wpm_require.
Qed.

Lemma wpm_stream th frames : ∀ noted p l s c,
  Follows th p l s c → final p = false →
  wpm (stream noted frames)
    (λ _ s c, Follows th (heard th p l frames).1 (heard th p l frames).2 s c ∧ (EOF ∈ frames → final (heard th p l frames).1 = true)) s c.
Proof.
  induction frames as [|fr frames IH]; intros noted p l s c HF Hp; simpl.
  - apply wpm_ret. split; [done|]. by intros ?%not_elem_of_nil.
  - apply wpm_bind. eapply wpm_mono; [by apply (wpm_frame th p l)|]. intros noted' s1 c1 HF1. destruct fr as [name agrees ev| |]; try done.
    apply wpm_bind, wpm_gets. rewrite (Follows_final _ _ _ _ _ HF1). destruct (final (progress p l (up_body ev))) eqn:Hp1.
    + apply wpm_ret. split; [done|by intros _].
    + eapply wpm_mono; [by apply (IH noted')|]. intros _ s2 c2 [HF2 He]. split; [done|]. intros [Hx|Hx]%elem_of_cons; [done|by apply He].
Qed.

Lemma Inv_new x : Inv (newAnthropicResponsesStreamState x) ∅ [].
Proof.
  constructor; [constructor; try done|done|done].
  - intros k key t Hx. by apply not_elem_of_nil in Hx.
  - by intros [].
  - intros id callID name snap Hx. by apply not_elem_of_nil in Hx.
  - split; [apply NoDup_nil_2|]. intros id. split; [by intros ?%not_elem_of_nil|by intros (? & ? & _)].
Qed.

Lemma Follows_new x : Follows (mx_ProviderReasoningThinking x) Waiting [] (newAnthropicResponsesStreamState x) client0.
Proof. apply Before; try done; [apply Inv_new|]. split; [by left|done]. Qed.

(** An open block of the machine is one of the client. *)
Lemma open_block s blocks l : Inv s blocks l → anyContentBlockOpen s = true → ∃ i b, blocks !! i = Some (b, true).
Proof.
  intros HI [[Hp%negb_true_iff%bool_decide_eq_false_1|Hr]%orb_true_iff|Ht%negb_true_iff%bool_decide_eq_false_1]%orb_true_iff.
  - apply map_choose in Hp as (key & i & Hi). destruct (part_entry HI key i Hi) as (j & k & -> & _ & _ & Hb). eauto.
  - destruct (m_reasoningBlockIndex s) as [i|] eqn:Hi; [|done]. destruct (thinking_entry HI i Hi) as (j & t & _ & _ & Hb & _). eauto.
  - apply map_not_Forall in Ht as (id & p & Hp & Hst); [|apply _].
    destruct (pend_entry HI id p Hp) as (j & snap & _ & _ & Hb & _). destruct (tb_started p); [eauto|done].
Qed.

(** ** Properties *)

(** A stream from its start. *)
Definition run (x : msg_exchange) (noted : bool) (frames : list frame) : result msg_error unit * list mevent * msgState :=
  stream noted frames (newAnthropicResponsesStreamState x).

(** C9: the Messages converter refines its specification: of a stream it has converted,
    the client stands where the upstream's events say (the stop reason and the error
    included, and never without a terminal at the end of the body), its blocks are those
    of the contents announced, under their positions, with their text so far, and when
    the message has stopped every call is there, closed, with an input that is the object
    of its final arguments, also when it was deferred behind another block. *)
Theorem assembled_message x noted frames evs s :
  run x noted frames = (Ok tt, evs, s) →
  let '(p, l) := heard (mx_ProviderReasoningThinking x) Waiting [] frames in
  ∃ c, reads evs client0 c ∧ cl_phase c = p ∧ assembled p l (cl_blocks c) ∧ (EOF ∈ frames → final p = true).
Proof.
  intros H. pose proof (wpm_stream _ frames noted _ _ _ _ (Follows_new x) eq_refl) as Hw.
  destruct (wp_ok _ _ _ _ _ _ _ _ _ Hw H) as (c & Hr & HF & He).
  destruct (heard _ Waiting [] frames) as [p l]. exists c. destruct (Follows_client _ _ _ _ _ HF). eauto.
Qed.

(** no call is starved: between events, a call that has its identity and whose block
    has not started waits for another block, which the client has open. *)
Theorem deferred_call_waits x noted frames evs s c j id callID name snap :
  run x noted frames = (Ok tt, evs, s) →
  read_all evs client0 = Some c → cl_phase c = Streaming →
  (heard (mx_ProviderReasoningThinking x) Waiting [] frames).2 !! j = Some (ECall id callID name snap) →
  callID ≠ "" → name ≠ "" → cl_blocks c !! Z.of_nat j = None → ∃ i b, i ≠ Z.of_nat j ∧ cl_blocks c !! i = Some (b, true).
Proof.
  intros H Hc Hph Hj Hid Hname Hb. pose proof (wpm_stream _ frames noted _ _ _ _ (Follows_new x) eq_refl) as Hw.
  destruct (wp_ok _ _ _ _ _ _ _ _ _ Hw H) as (c' & Hr & HF & _). assert (c' = c) as -> by (unfold reads in Hr; congruence).
  revert HF Hj. generalize (heard (mx_ProviderReasoningThinking x) Waiting [] frames). intros [p l] HF Hj. simpl in *.
  destruct HF as [|l s c HR|l s c _ Hf]; [done| |by rewrite Hph in Hf].
  destruct HR as [[_ _ _ _ HI] [Hw' Hpl]]. pose proof (iv_match _ _ _ HI j _ Hj) as Hm. simpl in Hm. rewrite Hb in Hm.
  destruct (m_pendingToolStart s !! id) as [p|] eqn:Hp; [|by destruct Hm as (? & ? & _ & _ & ?)].
  destruct Hm as (_ & <- & <- & Hn & _). destruct (tb_started p) eqn:Hst; [done|].
  destruct (Hpl id p Hp) as [?|[Hdef|[?|?]]]; [congruence| |done|done].
  destruct Hw' as [Hq|Ho]; [by destruct (deferred_queued s l id p (iv_shape _ _ _ HI) Hp Hdef)|].
  destruct (open_block _ _ _ HI Ho) as (i & b & Hi). exists i, b. split; [congruence|done].
Qed.

(** A call that arrives while a text is open, and the reasoning before it. *)
Definition sample_msg_exchange : msg_exchange :=
  {| mx_policy := {| Allowed := {["usage_unknown"]} |}; mx_ProviderReasoningThinking := true; mx_responseID := "r"; mx_model := "m" |}.

Definition sample_response (status : string) (output : list output_item) : response :=
  {| re_ID := "r"; re_Model := "m"; re_CreatedAt := 1; re_Status := status; re_Output := output; re_Usage := None;
     re_IncompleteReason := None; re_Error := None; re_Background := false; re_MaxToolCalls := false; re_Prompt := false;
     re_PromptCacheKey := false; re_SafetyIdentifier := false |}.

Definition number_frames (bodies : list upstream_body) : list frame :=
  imap (λ i b, Frame "event" true {| Sequence := Z.of_nat i; up_body := b |}) bodies.

Definition sample_call : output_item := FunctionCallItem "f" "c" "get" (quoted "{'a':1}") "completed".

Definition sample_opening : list upstream_body :=
  [ Created (sample_response "in_progress" []);
    OutputItemAdded 0 (ReasoningItem "t"); ReasoningSummaryPartAdded "t" 0; ReasoningSummaryTextDelta "t" 0 "hm";
    ReasoningSummaryTextDone "t" 0; ReasoningSummaryPartDone "t" 0; OutputItemDone 0 (ReasoningItem "t");
    OutputItemAdded 1 (MessageItem "m" "" []); ContentPartAdded "m" 1 0 KText; TextDelta "m" 1 0 "he";
    OutputItemAdded 2 (FunctionCallItem "f" "c" "get" "" "in_progress"); FunctionArgumentsDelta "f" 2 (quoted "{'a'");
    TextDelta "m" 1 0 "llo" ].

Definition sample_rest : list upstream_body :=
  [ FunctionArgumentsDone "f" 2 (quoted "{'a':1}"); OutputItemDone 2 sample_call; TextDone "m" 1 0 "hello";
    ContentPartDone "m" 1 0 KText; OutputItemDone 1 (MessageItem "m" "" [(KText, "hello")]);
    Completed (sample_response "completed" [ReasoningItem "t"; MessageItem "m" "" [(KText, "hello")]; sample_call]) ].

Definition events_of (r : result msg_error unit * list mevent * msgState) : list mevent := snd (fst r).

Definition sample_stream : list frame := (number_frames (sample_opening ++ sample_rest)%list ++ [EOF])%list.

Example sample_events :
  let '(r, evs, _) := run sample_msg_exchange false sample_stream in
  r = Ok tt ∧
  evs = [ MessageStart;
          ContentBlockStart 0 ThinkingBlock; ContentBlockDelta 0 (ThinkingD "hm");
          ContentBlockDelta 0 (SignatureD SyntheticThinkingSignature); ContentBlockStop 0;
          ContentBlockStart 1 TextBlock; ContentBlockDelta 1 (TextD "he"); ContentBlockDelta 1 (TextD "llo"); ContentBlockStop 1;
          ContentBlockStart 2 (ToolUseBlock "c" "get"); ContentBlockDelta 2 (InputJSOND (quoted "{'a'"));
          ContentBlockDelta 2 (InputJSOND ":1}"); ContentBlockStop 2;
          MessageDelta "tool_use" (Some zero_usage); MessageStop ].
Proof. vm_compute. by split. Qed.

Lemma assembled_message_witness :
  let '(r, evs, s) := run sample_msg_exchange false sample_stream in
  r = Ok tt ∧
  let '(p, l) := heard true Waiting [] sample_stream in
  p = Stopped "tool_use" ∧ length l = 3%nat ∧
  ∃ c, reads evs client0 c ∧ cl_phase c = p ∧ assembled p l (cl_blocks c) ∧ (EOF ∈ sample_stream → final p = true).
Proof.
  destruct (run sample_msg_exchange false sample_stream) as [[r evs] s] eqn:H.
  assert (r = Ok tt) as -> by (vm_compute in H; congruence). split; [reflexivity|].
  pose proof (assembled_message _ _ _ _ _ H) as Ha.
  change (mx_ProviderReasoningThinking sample_msg_exchange) with true in Ha.
  destruct (heard true Waiting [] sample_stream) as [p l] eqn:Hh. vm_compute in Hh. injection Hh as <- <-.
  split; [reflexivity|]. split; [reflexivity|exact Ha].
Defined.

Lemma deferred_call_waits_witness :
  ∃ c i b, read_all (events_of (run sample_msg_exchange false (number_frames sample_opening))) client0 = Some c ∧
    i ≠ 2 ∧ cl_blocks c !! i = Some (b, true).
Proof.
  destruct (run sample_msg_exchange false (number_frames sample_opening)) as [[r evs] s] eqn:H.
  assert (r = Ok tt) as -> by (vm_compute in H; congruence).
  assert (∃ c, read_all evs client0 = Some c ∧ cl_phase c = Streaming ∧ cl_blocks c !! 2 = None) as (c & Hc & Hp & Hb).
  { vm_compute in H. injection H as <- _. eexists. split; [vm_compute; reflexivity|]. split; vm_compute; reflexivity. }
  destruct (deferred_call_waits _ _ _ _ _ c 2%nat "f" "c" "get" None H Hc Hp) as (i & b & Hi & Hl);
    [vm_compute; reflexivity|discriminate|discriminate|exact Hb|].
  exists c, i, b. split; [exact Hc|]. split; [exact Hi|exact Hl].
Defined.

(** ** Divergences *)

(** The terminal does not look at an open thinking block: it stays open. *)
Lemma thinking_left_open :
  let '(r, evs, _) :=
    run sample_msg_exchange false (number_frames
      [ Created (sample_response "in_progress" []); OutputItemAdded 0 (ReasoningItem "t"); ReasoningSummaryPartAdded "t" 0;
        ReasoningSummaryTextDelta "t" 0 "hm"; OutputItemDone 0 (ReasoningItem "t"); Completed (sample_response "completed" []) ]) in
  r = Ok tt ∧ evs = [MessageStart; ContentBlockStart 0 ThinkingBlock; ContentBlockDelta 0 (ThinkingD "hm");
                     MessageDelta "end_turn" (Some zero_usage); MessageStop].
Proof. vm_compute. by split. Qed.

(** A text block starts inside the block of a call. *)
Lemma text_inside_call :
  let '(r, evs, _) :=
    run sample_msg_exchange false (number_frames
      [ Created (sample_response "in_progress" []); OutputItemAdded 0 (FunctionCallItem "f" "c" "get" "" "in_progress");
        OutputItemAdded 1 (MessageItem "m" "" []); ContentPartAdded "m" 1 0 KText; TextDelta "m" 1 0 "hi" ]) in
  r = Ok tt ∧ evs = [MessageStart; ContentBlockStart 0 (ToolUseBlock "c" "get"); ContentBlockStart 1 TextBlock; ContentBlockDelta 1 (TextD "hi")].
Proof. vm_compute. by split. Qed.

(** A delta of reasoning counts as two events. *)
Lemma reasoning_delta_counts_twice :
  let count b := let '(_, _, s) := run sample_msg_exchange false (number_frames b) in events (m_budget s) in
  count (take 4 sample_opening) = count (take 3 sample_opening) + 2.
Proof. vm_compute. reflexivity. Qed.
