(* ===== verification/MsgStreamOrder.v ===== *)
(** * The order of a Messages stream

    The dialect has one content block open at a time.  The events the converter passes
    on keep to it, and a client that insists on it ([read_strictly]) reads them, as long
    as the upstream keeps its own contents apart ([apart]); a client that puts up with
    more ([read]) reads them whatever the upstream does. *)

From Stdlib Require Import ZArith Lia Bool List Ascii String.
From stdpp Require Import strings gmap list.
From S2P Require Import Prelude GoStd GoStr Budget Losses Usage Emitter ToolArgs MsgStream MsgClient MsgStreamLaws MsgStreamCalls MsgStreamRun.

Open Scope string_scope.
Open Scope Z_scope.
Open Scope stream_scope.

(** ** Specification *)

(** The content parts that were added and are not done. *)
Definition open_texts (texts : gset part_key) (b : upstream_body) : gset part_key :=
  match b with
  | ContentPartAdded id _ ci _ => {[(id, ci)]} ∪ texts
  | ContentPartDone id _ ci _ => texts ∖ {[(id, ci)]}
  | _ => texts
  end.

(** A part of a summary was added and is not done. *)
Definition open_summary (summary : bool) (b : upstream_body) : bool :=
  match b with
  | ReasoningSummaryPartAdded _ _ => true
  | ReasoningSummaryPartDone _ _ => false
  | _ => summary
  end.

(** The call has its final arguments. *)
Definition answered (e : entry) : bool := match e with ECall _ _ _ None => false | _ => true end.

(** Nothing the upstream has announced is unfinished. *)
Definition all_finished (texts : gset part_key) (summary : bool) (l : list entry) : bool :=
  bool_decide (texts = ∅) && negb summary && forallb answered l.

(** The upstream keeps its contents apart: it adds a content part or a part of a summary
    only when everything announced before is finished, and ends with no summary open. *)
Fixpoint apart (thinking : bool) (texts : gset part_key) (summary : bool) (l : list entry) (frames : list frame) : bool :=
  match frames with
  | [] => true
  | Frame _ _ ev :: frames =>
      match up_body ev with
      | ContentPartAdded _ _ _ _ | ReasoningSummaryPartAdded _ _ => all_finished texts summary l
      | Completed _ | Incomplete _ => negb summary
      | _ => true
      end &&
      apart thinking (open_texts texts (up_body ev)) (open_summary summary (up_body ev)) (announce thinking l (up_body ev)) frames
  | _ :: frames => apart thinking texts summary l frames
  end.

Definition reads_strictly (evs : list mevent) (c c' : client) : Prop := read_all_strictly evs c = Some c'.

(** ** What is emitted *)

(** Events that a strict client reads wherever the other one does. *)
Definition calm (e : mevent) : bool :=
  match e with
  | ContentBlockStart _ b => is_tool (begin b)
  | MessageDelta _ _ => false
  | _ => true
  end.

Lemma calm_read c c' e : calm e = true → read c e = Some c' → read_strictly c e = Some c'.
Proof.
  unfold read_strictly. destruct e; simpl; try done. intros Ht. destruct (cl_phase c); try done. rewrite Ht. simpl.
  destruct (none_open c); [done|]. by rewrite andb_false_r.
Qed.

Lemma calm_reads evs c c' : Forall (λ e, calm e = true) evs → reads evs c c' → reads_strictly evs c c'.
Proof.
  unfold reads, reads_strictly. intros He. revert c. induction He as [|e evs He Hevs IH]; intros c; simpl; [done|].
  destruct (read c e) as [c1|] eqn:Hr; [|done]. rewrite (calm_read _ _ _ He Hr). apply IH.
Qed.

Lemma none_open_strict c e : none_open c = true → read_strictly c e = read c e.
Proof. intros Hn. unfold read_strictly. by destruct e; simpl; rewrite ?Hn. Qed.

Lemma first_reads evs c c' : none_open c = true → Forall (λ e, calm e = true) (tail evs) → reads evs c c' → reads_strictly evs c c'.
Proof.
  intros Hn. destruct evs as [|e evs]; [done|]. unfold reads, reads_strictly. simpl. intros He. rewrite none_open_strict by done.
  destruct (read c e) as [c1|]; [|done]. by apply calm_reads.
Qed.

Lemma reads_strictly_app l1 l2 c c1 c2 : reads_strictly l1 c c1 → reads_strictly l2 c1 c2 → reads_strictly (l1 ++ l2) c c2.
Proof.
  unfold reads_strictly. revert c. induction l1 as [|e l1 IH]; intros c; simpl; [by intros [= <-]|]. destruct (read_strictly c e); [apply IH|done].
Qed.

(** *** Computations that emit certain events only *)

Definition only {A} (P : mevent → bool) (m : M A) : Prop := ∀ s, Forall (λ e, P e = true) (m s).1.2.

Section only.
Context (P : mevent → bool).

Lemma only_quiet {A} (m : M A) : quietm m → only P m.
Proof. intros Hm s. specialize (Hm s). destruct (m s) as [[r evs] s']. by destruct Hm as (_ & -> & _). Qed.
Lemma only_ret {A} (a : A) : only P (mret a).
Proof. by intros s. Qed.
Lemma only_fail {A} e : only P (mfail (A := A) e).
Proof. by intros s. Qed.
Lemma only_gets {A} (g : msgState → A) : only P (gets g).
Proof. by intros s. Qed.
Lemma only_modify g : only P (modify g).
Proof. by intros s. Qed.
Lemma only_require b e : only P (require b e).
Proof. intros s; by destruct b. Qed.
Lemma only_or_fail {A} (o : option A) e : only P (or_fail o e).
Proof. intros s; by destruct o. Qed.
Lemma only_emit e : P e = true → only P (emit e).
Proof. intros He s. by repeat constructor. Qed.
Lemma only_bind {A B} (m : M B) (k : B → M A) : only P m → (∀ b, only P (k b)) → only P (mbind m k).
Proof.
  intros Hm Hk s. specialize (Hm s). unfold mbind. destruct (m s) as [[[b|e] evs] s1]; [|done]. simpl in *.
  specialize (Hk b s1). destruct (k b s1) as [[r evs'] s2]. simpl in *. by apply Forall_app.
Qed.
Lemma only_when b (m : M unit) : only P m → only P (mwhen b m).
Proof. destruct b; [done|]. intros _. apply only_ret. Qed.
Lemma only_for_each {A} (f : nat → A → M unit) i l : (∀ i a, only P (f i a)) → only P (for_each f i l).
Proof. intros Hf. revert i. induction l as [|a l IH]; intros i; simpl; [apply only_ret|]. apply only_bind; [apply Hf|intros _; apply IH]. Qed.

Lemma only_deliver {A} (m : M A) : only P m → only P (deliver m).
Proof. intros Hm s. specialize (Hm s). unfold deliver. by destruct (m s) as [[[a|e] evs] s1]. Qed.
End only.

Abbreviation calmly := (only calm).

Create HintDb calmly.

Ltac calmly :=
  repeat (intros; first
    [ solve [eauto 2 with calmly nocore]
    | apply only_bind | apply only_ret | apply only_fail | apply only_gets | apply only_modify | apply only_require
    | apply only_or_fail | apply only_when | apply only_for_each | solve [apply only_emit; done]
    | solve [apply only_quiet; quietm] | case_match ]).

Lemma calmly_maybe id : calmly (maybeStartToolBlock id).
Proof. unfold maybeStartToolBlock, block, deferToolBlock, update_block, block. calmly. Qed.
Lemma calmly_close_block id p arguments : calmly (close_block id p arguments).
Proof. unfold close_block. calmly. Qed.
#[export] Hint Resolve calmly_maybe calmly_close_block : calmly.

Lemma calmly_start_deferred id : calmly (start_deferred id).
Proof. unfold start_deferred, block, update_block, emit_input. calmly. Qed.
#[export] Hint Resolve calmly_start_deferred : calmly.

Lemma calmly_drain : calmly drainDeferredTools.
Proof.
  apply only_bind; [calmly|]. intros queue. generalize (length queue). intros fuel. induction fuel as [|fuel IH]; simpl; calmly.
Qed.
#[export] Hint Resolve calmly_drain : calmly.

Lemma calmly_reconcile id snapshot : calmly (reconcileToolArguments id snapshot).
Proof. unfold reconcileToolArguments, block, update_block. calmly. Qed.
Lemma calmly_open_part key oi kind : calmly (open_part key oi kind).
Proof. unfold open_part. calmly. Qed.
#[export] Hint Resolve calmly_reconcile calmly_open_part : calmly.

(** *** Computations whose first event need not be calm *)

Definition after_first {A} (m : M A) : Prop := ∀ s, Forall (λ e, calm e = true) (tail (m s).1.2).

Lemma calmly_after_first {A} (m : M A) : calmly m → after_first m.
Proof. intros Hm s. specialize (Hm s). destruct Hm; [done|done]. Qed.

Lemma after_first_silent {A B} (m : M B) (k : B → M A) :
  (∀ s, (m s).1.2 = []) → (∀ b, after_first (k b)) → after_first (mbind m k).
Proof.
  intros Hm Hk s. specialize (Hm s). unfold mbind. destruct (m s) as [[[b|e] evs] s1]; simpl in Hm; subst evs; [|done].
  specialize (Hk b s1). by destruct (k b s1) as [[r evs'] s2].
Qed.

Lemma after_first_quiet {A B} (m : M B) (k : B → M A) : quietm m → (∀ b, after_first (k b)) → after_first (mbind m k).
Proof. intros Hm. apply after_first_silent. intros s. specialize (Hm s). destruct (m s) as [[r evs] s']. by destruct Hm as (_ & -> & _). Qed.

Lemma after_first_modify {A} g (k : unit → M A) : (∀ b, after_first (k b)) → after_first (mbind (modify g) k).
Proof. by apply after_first_silent. Qed.

Lemma after_first_bind {A B} (m : M B) (k : B → M A) : after_first m → (∀ b, calmly (k b)) → after_first (mbind m k).
Proof.
  intros Hm Hk s. specialize (Hm s). unfold mbind. destruct (m s) as [[[b|e] evs] s1]; [|done]. simpl in *.
  specialize (Hk b s1). destruct (k b s1) as [[r evs'] s2]. simpl in *. destruct evs; simpl in *; [by destruct Hk|by apply Forall_app].
Qed.

Lemma after_first_deliver {A} (m : M A) : after_first m → after_first (deliver m).
Proof. intros Hm s. specialize (Hm s). unfold deliver. by destruct (m s) as [[[a|e] evs] s1]. Qed.

Lemma after_first_emit e : after_first (emit e).
Proof. by intros s. Qed.

Ltac after_first :=
  repeat (intros; first
    [ apply after_first_quiet; [solve [quietm]|] | apply after_first_modify | apply after_first_bind; [|solve [calmly]] | apply after_first_emit
    | solve [apply calmly_after_first; calmly] | case_match ]).

(** The events that may start with one that is not calm. *)
Definition opens (b : upstream_body) : bool :=
  match b with ContentPartAdded _ _ _ _ | ReasoningSummaryPartAdded _ _ | Completed _ | Incomplete _ => true | _ => false end.

Lemma calmly_interpret b : opens b = false → calmly (interpret b).
Proof.
  destruct b; simpl; try done; intros _.
  - unfold messageStart. calmly.
  - calmly.
  - unfold outputItemAdded. calmly.
  - unfold outputItemDone, functionCallDone, mark_done, block, update_block, emit_input. calmly.
  - unfold partDelta. calmly.
  - unfold partValueDone. calmly.
  - unfold contentPartDone. calmly.
  - unfold partDelta. calmly.
  - unfold partValueDone. calmly.
  - unfold functionArgumentsDelta, block, update_block, emit_input. calmly.
  - unfold functionArgumentsDone, block, update_block, emit_input. calmly.
  - unfold reasoning_event, reasoningTextDelta. calmly.
  - unfold reasoning_event. calmly.
  - unfold reasoning_event, reasoningPartDone. calmly.
  - unfold failed, saw_error, buildErrorEvent. calmly.
  - unfold errorEvent, saw_error, buildErrorEvent. calmly.
Qed.

Lemma after_first_conclude e stop : after_first (conclude e stop).
Proof. unfold conclude, terminalEvents. after_first. Qed.

Lemma quietm_gate e : quietm (gateTerminalEnvelope e).
Proof. unfold gateTerminalEnvelope. quietm. Qed.

Lemma after_first_interpret b : after_first (interpret b).
Proof.
  destruct (opens b) eqn:Hb; [|by apply calmly_after_first, calmly_interpret]. destruct b; simpl in Hb |- *; try done.
  - unfold contentPartAdded. after_first.
  - unfold reasoning_event, reasoningPartAdded. after_first.
  - apply after_first_quiet; [apply quietm_gate|]. intros _. apply after_first_quiet; [quietm|]. intros saw. apply after_first_conclude.
  - apply after_first_quiet; [apply quietm_gate|]. intros _. apply after_first_conclude.
Qed.

(** ** What is open *)

(** The blocks of parts and of reasoning that the machine has open. *)
Definition opened (s : msgState) := (m_partBlocks s, m_reasoningBlockIndex s, m_exchange s).

Abbreviation keepso := (keeps opened (λ _ : msg_error, False)).
Abbreviation twm := (wp (traced (Ev := mevent)) (λ _ : msg_error, False)).

Abbreviation twm_bind := (wp_bind (traced (Ev := mevent)) (λ _ : msg_error, False)).
Abbreviation twm_modify := (wp_modify (traced (Ev := mevent)) (λ _ : msg_error, False)).
Abbreviation twm_gets := (wp_gets (traced (Ev := mevent)) (λ _ : msg_error, False)).
Abbreviation twm_ret := (wp_ret (traced (Ev := mevent)) (λ _ : msg_error, False)).

Lemma keepso_quiet {A} (m : M A) : quietm m → keepso m.
Proof.
  intros Hm s. specialize (Hm s). destruct (m s) as [[r evs] s']. destruct Hm as (_ & _ & Hk). split; [by intros ? _ []|].
  exact (f_equal opened Hk).
Qed.
Lemma keepso_require b e : keepso (require b e).
Proof. intros s. destruct b; (split; [by intros ? _ []|done]). Qed.
Lemma keepso_emit e : keepso (emit e).
Proof. intros s. by split. Qed.

Create HintDb keepso.

Ltac keepso :=
  repeat (intros; first
    [ solve [eauto 2 with keepso nocore]
    | apply keeps_bind | apply keeps_ret | solve [apply keeps_fail; intros []] | apply keeps_gets | apply keepso_require | apply keepso_emit
    | solve [apply keeps_or_fail; intros []] | apply keeps_when | apply keeps_for_each | solve [apply keeps_modify; done]
    | solve [apply keepso_quiet; quietm] | case_match ]).

Lemma keepso_maybe id : keepso (maybeStartToolBlock id).
Proof. unfold maybeStartToolBlock, block, deferToolBlock, update_block, block. keepso. Qed.
Lemma keepso_close_block id p arguments : keepso (close_block id p arguments).
Proof. unfold close_block. keepso. Qed.
#[export] Hint Resolve keepso_maybe keepso_close_block : keepso.

Lemma keepso_start_deferred id : keepso (start_deferred id).
Proof. unfold start_deferred, block, update_block, emit_input. keepso. Qed.
#[export] Hint Resolve keepso_start_deferred : keepso.

Lemma keepso_drain : keepso drainDeferredTools.
Proof.
  apply keeps_bind; [keepso|]. intros queue. generalize (length queue). intros fuel. induction fuel as [|fuel IH]; simpl; keepso.
Qed.
#[export] Hint Resolve keepso_drain : keepso.

Lemma keepso_reconcile id snapshot : keepso (reconcileToolArguments id snapshot).
Proof. unfold reconcileToolArguments, block, update_block. keepso. Qed.
Lemma keepso_open_part key oi kind : keepso (open_part key oi kind).
Proof. unfold open_part. keepso. Qed.
#[export] Hint Resolve keepso_reconcile keepso_open_part : keepso.

(** What the upstream has left open covers what the machine has open. *)
Definition Covers (texts : gset part_key) (summary : bool) (s : msgState) : Prop :=
  (∀ key, m_partBlocks s !! key ≠ None → key ∈ texts) ∧ (known (m_reasoningBlockIndex s) = true → summary = true) ∧
  (mx_ProviderReasoningThinking (m_exchange s) = true ∨ m_reasoningBlockIndex s = None).

Lemma Covers_opened texts summary s s' : opened s' = opened s → Covers texts summary s → Covers texts summary s'.
Proof. unfold Covers. by intros [= -> -> ->]. Qed.

Lemma twm_kept {A} (m : M A) (Q : A → msgState → list mevent → Prop) s tr :
  keepso m → (∀ a s' tr', opened s' = opened s → Q a s' tr') → twm m Q s tr.
Proof.
  intros Hm HQ. specialize (Hm s). unfold wp. destruct (m s) as [[r evs] s']. destruct Hm as [_ Hk]. split; [by intros ? _ []|].
  eexists. split; [done|]. intros a _. by apply HQ.
Qed.

Definition changes (b : upstream_body) : bool :=
  match b with
  | ContentPartAdded _ _ _ _ | ContentPartDone _ _ _ _ | ReasoningSummaryPartAdded _ _ | ReasoningSummaryPartDone _ _ => true
  | _ => false
  end.

Lemma keepso_interpret b : changes b = false → keepso (interpret b).
Proof.
  destruct b; simpl; try done; intros _.
  - unfold messageStart. keepso.
  - keepso.
  - unfold outputItemAdded. keepso.
  - unfold outputItemDone, functionCallDone, mark_done, block, update_block, emit_input. keepso.
  - unfold partDelta. keepso. all: apply keeps_modify; by destruct KText.
  - unfold partValueDone. keepso.
  - unfold partDelta. keepso.
  - unfold partValueDone. keepso.
  - unfold functionArgumentsDelta, block, update_block, emit_input. keepso.
  - unfold functionArgumentsDone, block, update_block, emit_input. keepso.
  - unfold reasoning_event, reasoningTextDelta. keepso.
  - unfold reasoning_event. keepso.
  - unfold completed, conclude, terminalEvents. keepso.
  - unfold incomplete, conclude, terminalEvents. keepso.
  - unfold failed, saw_error, buildErrorEvent. keepso.
Qed.

Lemma Covers_part_added texts summary s key i :
  Covers texts summary s → Covers ({[key]} ∪ texts) summary (set_partBlocks (<[key := i]> (m_partBlocks s)) s).
Proof.
  intros [HT HR]. split; [|exact HR]. simpl. intros key'. rewrite elem_of_union, elem_of_singleton.
  destruct (decide (key' = key)) as [->|Hne]; [by left|]. rewrite lookup_insert_ne by done. right. by apply HT.
Qed.

Lemma Covers_part_done texts summary s key :
  Covers texts summary s → Covers (texts ∖ {[key]}) summary (set_partBlocks (delete key (m_partBlocks s)) s).
Proof.
  intros [HT HR]. split; [|exact HR]. simpl. intros key'. rewrite elem_of_difference, elem_of_singleton.
  destruct (decide (key' = key)) as [->|Hne]; [by rewrite lookup_delete_eq|]. rewrite lookup_delete_ne by done. intros Hk. split; [by apply HT|done].
Qed.

Lemma Covers_summary texts summary b i s : (known i = true → b = true) → mx_ProviderReasoningThinking (m_exchange s) = true →
  Covers texts summary s → Covers texts b (set_reasoningBlockIndex i s).
Proof. intros Hb Hth (HT & _ & _). split_and!; [done|done|by left]. Qed.

(** The steps up to the change, and after it. *)
Ltac covers_steps :=
  repeat (first [ apply twm_kept; [by keepso|]; intros ? ? ? ? | apply twm_bind, twm_modify | apply twm_bind, twm_gets
                | apply twm_bind, twm_kept; [by keepso|]; intros ? ? ? ?]).

Ltac covered :=
  match goal with
  | HC : Covers _ _ ?s, H : opened ?s' = opened (?f ?m ?s1) |- Covers _ _ ?s' =>
      apply (Covers_opened _ _ (f m s1)); [exact H|]; assert (Covers _ _ s1) by (apply (Covers_opened _ _ s); [congruence|exact HC]); clear H HC
  end.

Lemma part_added_covers id oi ci k texts summary s tr : Covers texts summary s →
  twm (contentPartAdded id oi ci k) (λ _ s' _, Covers ({[(id, ci)]} ∪ texts) summary s') s tr.
Proof.
  intros HC. unfold contentPartAdded. covers_steps. covered. by apply Covers_part_added.
Qed.

Lemma part_done_covers id oi ci k texts summary s tr : Covers texts summary s →
  twm (contentPartDone id oi ci k) (λ _ s' _, Covers (texts ∖ {[(id, ci)]}) summary s') s tr.
Proof.
  intros HC. unfold contentPartDone. covers_steps. covered. by apply Covers_part_done.
Qed.

Lemma summary_added_covers texts summary s tr : Covers texts summary s →
  twm (reasoning_event reasoningPartAdded) (λ _ s' _, Covers texts true s') s tr.
Proof.
  intros HC. apply twm_bind, twm_gets. destruct (mx_ProviderReasoningThinking (m_exchange s)) eqn:Hth.
  - unfold reasoningPartAdded. covers_steps. covered. eapply Covers_summary; [done| |done]. unfold opened in *. congruence.
  - apply twm_kept; [keepso|]. intros [] s' _ Ho. apply (Covers_opened _ _ s); [done|]. by destruct HC as (? & _ & ?).
Qed.

Lemma summary_done_covers texts summary s tr : Covers texts summary s →
  twm (reasoning_event reasoningPartDone) (λ _ s' _, Covers texts false s') s tr.
Proof.
  intros HC. apply twm_bind, twm_gets. destruct (mx_ProviderReasoningThinking (m_exchange s)) eqn:Hth.
  - unfold reasoningPartDone. covers_steps. covered. eapply Covers_summary; [done| |done]. unfold opened in *. congruence.
  - apply twm_kept; [keepso|]. intros [] s' _ Ho. apply (Covers_opened _ _ s); [done|]. destruct HC as (HT & _ & Hx). split; [done|].
    split; [|done]. destruct Hx as [|Hx]; [congruence|by rewrite Hx].
Qed.

Lemma interpret_covers b texts summary s tr : Covers texts summary s →
  twm (interpret b) (λ _ s' _, Covers (open_texts texts b) (open_summary summary b) s') s tr.
Proof.
  intros HC. destruct (changes b) eqn:Hb.
  2: { apply twm_kept; [by apply keepso_interpret|]. intros [] s' _ Ho. destruct b; try done; by apply (Covers_opened _ _ s). }
  destruct b; simpl in Hb |- *; try done; [by apply part_added_covers|by apply part_done_covers|by eapply summary_added_covers|by eapply summary_done_covers].
Qed.

(** ** Frames *)

Lemma only_validate P ev : only P (validate ev).
Proof. intros s. unfold validate. by destruct (ResponsesFsm.ValidateEvent _ _) as [[]]. Qed.
Lemma keepso_validate ev : keepso (validate ev).
Proof. intros s. unfold validate. destruct (ResponsesFsm.ValidateEvent _ _) as [[] f']; (split; [by intros ? _ []|done]). Qed.
#[export] Hint Resolve only_validate : calmly.
#[export] Hint Resolve keepso_validate : keepso.

Lemma only_convert P ev : only P (interpret (up_body ev)) → only P (Convert ev).
Proof. intros Hi. apply only_deliver. calmly. Qed.

Lemma after_first_convert ev : after_first (Convert ev).
Proof.
  apply after_first_deliver, after_first_quiet; [quietm|]. intros ended. apply after_first_quiet; [quietm|]. intros _.
  apply after_first_silent; [intros s; unfold validate; by destruct (ResponsesFsm.ValidateEvent _ _) as [[]]|]. intros _.
  apply after_first_quiet; [quietm|]. intros _. apply after_first_quiet; [quietm|]. intros last. apply after_first_quiet; [quietm|]. intros _.
  apply after_first_quiet; [quietm|]. intros _. apply after_first_quiet; [quietm|]. intros sent. apply after_first_quiet; [quietm|]. intros _.
  apply after_first_interpret.
Qed.

Lemma twm_deliver {A} (m : M A) (Q : A → msgState → list mevent → Prop) s tr : twm m Q s tr → twm (deliver m) Q s tr.
Proof. apply wp_deliver. apply _. Qed.

Lemma convert_covers ev texts summary s tr : Covers texts summary s →
  twm (Convert ev) (λ _ s' _, Covers (open_texts texts (up_body ev)) (open_summary summary (up_body ev)) s') s tr.
Proof.
  intros HC. apply twm_deliver.
  do 9 (apply twm_bind, twm_kept; [by keepso|]; intros ? ? ? ?). apply interpret_covers. apply (Covers_opened _ _ s); [congruence|done].
Qed.

(** The frame before the event. *)
Definition named (noted : bool) (name : string) (agrees : bool) : M bool :=
  if String.eqb name "" then
    mwhen (negb noted)
      (on_report (Note "missing_event_name" "responses[].stream"
         "the upstream stream omitted the SSE event: name; the event was routed by its JSON type")) ;;=
    mret true
  else require agrees (Corrupt "SSE event name does not match the JSON type") ;;= mret noted.

Lemma quietm_named noted name agrees : quietm (named noted name agrees).
Proof. unfold named. quietm. Qed.
#[export] Hint Resolve quietm_named : quietm.

Lemma frame_eq noted name agrees ev : convert_frame noted (Frame name agrees ev) = (noted' <== named noted name agrees ;; (Convert ev ;;= mret noted')).
Proof. done. Qed.

Lemma only_frame P noted name agrees ev : only P (interpret (up_body ev)) → only P (convert_frame noted (Frame name agrees ev)).
Proof.
  intros Hi. rewrite frame_eq. apply only_bind; [apply only_quiet, quietm_named|]. intros b. apply only_bind; [by apply only_convert|]. intros _. apply only_ret.
Qed.

Lemma after_first_frame noted name agrees ev : after_first (convert_frame noted (Frame name agrees ev)).
Proof.
  rewrite frame_eq. apply after_first_quiet; [apply quietm_named|]. intros b. apply after_first_bind; [apply after_first_convert|]. intros _. apply only_ret.
Qed.

Lemma frame_covers noted name agrees ev texts summary s tr : Covers texts summary s →
  twm (convert_frame noted (Frame name agrees ev)) (λ _ s' _, Covers (open_texts texts (up_body ev)) (open_summary summary (up_body ev)) s') s tr.
Proof.
  intros HC. rewrite frame_eq. apply twm_bind, twm_kept; [apply keepso_quiet, quietm_named|]. intros b s1 t1 H1. apply twm_bind.
  eapply wp_mono; [by apply convert_covers; apply (Covers_opened _ _ s)|]. intros [] s2 t2 H2. by apply twm_ret.
Qed.

(** Terminals start no block. *)
Definition no_start (e : mevent) : bool := match e with ContentBlockStart _ _ => false | _ => true end.

Lemma only_conclude e stop : only no_start (conclude e stop).
Proof. unfold conclude, terminalEvents. calmly. Qed.

Lemma only_terminal b : match b with Completed _ | Incomplete _ => True | _ => False end → only no_start (interpret b).
Proof.
  destruct b; try done; intros _; (apply only_bind; [apply only_quiet, quietm_gate|]; intros _).
  - apply only_bind; [apply only_quiet; quietm|]. intros saw. apply only_conclude.
  - apply only_conclude.
Qed.

(** ** The order *)

(** Nothing is open when the upstream has finished everything. *)
Lemma finished_none_open th p l s c texts summary :
  Follows th p l s c → final p = false → Covers texts summary s → all_finished texts summary l = true → none_open c = true.
Proof.
  intros HF Hp (HT & HR & _) [[Ht%bool_decide_eq_true_1 Hs%negb_true_iff]%andb_true_iff Hl]%andb_true_iff.
  destruct (Follows_inv _ _ _ _ _ HF) as (HI & _); [by rewrite (Follows_final _ _ _ _ _ HF)|].
  apply bool_decide_eq_true_2, (closed_blocks HI). unfold anyContentBlockOpen. rewrite !orb_false_iff, !negb_false_iff, !bool_decide_eq_true.
  split_and!.
  - apply map_empty. intros key. apply eq_None_not_Some. intros [i Hi]. assert (key ∈ texts) as Hin by (apply HT; by rewrite Hi). rewrite Ht in Hin. by apply not_elem_of_empty in Hin.
  - destruct (known (m_reasoningBlockIndex s)) eqn:Hk; [|done]. by rewrite HR in Hs.
  - intros id q Hq. destruct (tb_started q) eqn:Hst; [|done]. destruct (sh_pend _ _ (iv_shape _ _ _ HI) id q Hq) as [Hok _].
    destruct (tk_started _ _ _ _ Hok Hst) as [_ Hd]. destruct (pend_entry HI id q Hq) as (j & snap & Hj & _ & _ & Hsn). rewrite Hd in Hsn. subst snap.
    apply list_elem_of_lookup_2 in Hj. rewrite forallb_forall in Hl. specialize (Hl _ (proj1 (list_elem_of_In _ _) Hj)). done.
Qed.

(** The end of a message is in order when no thinking is open. *)
Lemma terminal_reads evs c c' :
  no_thinking c = true → Forall (λ e, no_start e = true) evs → Forall (λ e, calm e = true) (tail evs) → reads evs c c' → reads_strictly evs c c'.
Proof.
  intros Hn Hs Hc Hr. destruct evs as [|e evs]; [done|]. apply Forall_cons in Hs as [Hs _]. destruct e as [| | | |stop usage| |]; try done;
    try (apply calm_reads; [by constructor|done]).
  assert (none_open c = true) as Ho; [|by apply first_reads].
  unfold reads in Hr. simpl in Hr. destruct (cl_phase c); try done. destruct (answer_closed c) eqn:Ha; [|done].
  apply bool_decide_eq_true_2. intros i b Hb. apply bool_decide_eq_true_1 in Ha, Hn. specialize (Ha i b Hb). specialize (Hn i b Hb). simpl in Ha, Hn.
  destruct Ha as [|Ha]; [done|]. destruct Hn as [|Hn]; [done|]. congruence.
Qed.

(** One frame of an upstream that keeps its contents apart. *)
Lemma strict_frame th p l s c noted name agrees ev texts summary :
  Follows th p l s c → final p = false → Covers texts summary s →
  match up_body ev with
  | ContentPartAdded _ _ _ _ | ReasoningSummaryPartAdded _ _ => all_finished texts summary l
  | Completed _ | Incomplete _ => negb summary
  | _ => true
  end = true →
  let '(r, evs, s') := convert_frame noted (Frame name agrees ev) s in
  ∃ c', reads_strictly evs c c' ∧ ∀ b, r = Ok b →
    Follows th (progress p l (up_body ev)) (announce th l (up_body ev)) s' c' ∧
    Covers (open_texts texts (up_body ev)) (open_summary summary (up_body ev)) s'.
Proof.
  intros HF Hp HC Hap. pose proof (wpm_frame th p l s c noted (Frame name agrees ev) HF Hp) as Hw.
  pose proof (frame_covers noted name agrees ev texts summary s [] HC) as Hcov.
  pose proof (after_first_frame noted name agrees ev s) as Haf. pose proof (only_frame calm noted name agrees ev) as Hcalm.
  pose proof (only_frame no_start noted name agrees ev) as Hns.
  unfold wp in Hw, Hcov. specialize (λ H, Hcalm H s). specialize (λ H, Hns H s).
  destruct (convert_frame noted (Frame name agrees ev) s) as [[r evs] s']. simpl in Haf, Hcalm, Hns.
  destruct Hw as (_ & c' & Hr & HF'), Hcov as (_ & tr' & _ & HC'). exists c'. split; [|eauto].
  destruct (opens (up_body ev)) eqn:Ho; [|apply calm_reads; [by apply Hcalm, calmly_interpret|done]].
  destruct (up_body ev) eqn:Hb; try done;
    try (apply first_reads; [by eapply finished_none_open|done|done]);
    (apply terminal_reads; [|by apply Hns, only_terminal|done|done]);
    destruct (Follows_inv _ _ _ _ _ HF ltac:(by rewrite (Follows_final _ _ _ _ _ HF))) as (HI & _);
    apply bool_decide_eq_true_2, (thinking_blocks HI); destruct HC as (_ & HR & _), (m_reasoningBlockIndex s); try done;
    by rewrite HR in Hap.
Qed.

Lemma strict_stream th frames : ∀ noted p l s c texts summary,
  Follows th p l s c → final p = false → Covers texts summary s → apart th texts summary l frames = true →
  let '(r, evs, s') := stream noted frames s in ∃ c', reads_strictly evs c c'.
Proof.
  induction frames as [|fr frames IH]; intros noted p l s c texts summary HF Hp HC Hap; [by exists c|].
  cbn [stream]. unfold mbind, gets. destruct fr as [name agrees ev| |].
  - cbn [apart] in Hap. apply andb_true_iff in Hap as [Hap1 Hap2].
    pose proof (strict_frame th p l s c noted name agrees ev texts summary HF Hp HC Hap1) as Hfr.
    destruct (convert_frame noted (Frame name agrees ev) s) as [[[noted'|e] evs] s1]; destruct Hfr as (c1 & Hr & Hok); [|by exists c1].
    destruct (Hok noted' eq_refl) as [HF1 HC1]. rewrite (Follows_final _ _ _ _ _ HF1).
    destruct (final (progress p l (up_body ev))) eqn:Hp1; [simpl; rewrite !app_nil_r; by exists c1|].
    specialize (IH noted' _ _ s1 c1 _ _ HF1 Hp1 HC1 Hap2). destruct (stream noted' frames s1) as [[r2 evs2] s2].
    destruct IH as (c2 & Hr2). exists c2. by eapply reads_strictly_app.
  - unfold convert_frame, mbind, gets, require. rewrite (Follows_final _ _ _ _ _ HF), Hp. by exists c.
  - unfold convert_frame, FinalizeEOF, mbind, gets, require. rewrite (Follows_final _ _ _ _ _ HF), Hp. by exists c.
Qed.

Lemma Covers_new x : Covers ∅ false (newAnthropicResponsesStreamState x).
Proof. split_and!; [|done|by right]. intros key. simpl. by rewrite lookup_empty. Qed.

(** ** Property *)

(** C19: the Messages converter never follows a pointer it does not have, and the events
    it passes on, up to the end or to the error that stops it, are in the order of the
    dialect, one content block open at a time and none at the end, as long as the
    upstream adds content parts and parts of summaries only when what it announced
    before is finished (calls that wait for a block included) and ends with no summary
    open.  Whatever the upstream does, they are in an order that departs from it only
    where a text block starts inside another block, a thinking block starts inside a text
    or tool block, or a thinking block is open at the end: within one message, each block
    started once under a new index, tool blocks alone, deltas and stops only for open
    blocks, of their type, no text or tool block open at the end. *)
Theorem stream_readable x noted frames :
  let '(r, evs, _) := run x noted frames in
  r ≠ Err Panic ∧ (∃ c, reads evs client0 c) ∧
  (apart (mx_ProviderReasoningThinking x) ∅ false [] frames = true → ∃ c, reads_strictly evs client0 c).
Proof.
  pose proof (wpm_stream _ frames noted _ _ _ _ (Follows_new x) eq_refl) as H. unfold wp in H.
  pose proof (strict_stream _ frames noted _ _ _ _ ∅ false (Follows_new x) eq_refl (Covers_new x)) as Hs.
  unfold run. destruct (stream noted frames (newAnthropicResponsesStreamState x)) as [[r evs] s]. destruct H as (Hb & c & Hr & _).
  split; [intros ->; by apply (Hb Panic)|]. split; [by exists c|exact Hs].
Qed.

(** A call that waits for a text. *)
Lemma stream_readable_witness :
  let '(_, evs, _) := run sample_msg_exchange false sample_stream in
  length evs = 15%nat ∧ ∃ c, reads_strictly evs client0 c.
Proof.
  pose proof (stream_readable sample_msg_exchange false sample_stream) as H.
  destruct (run sample_msg_exchange false sample_stream) as [[r evs] s] eqn:Hr.
  assert (length evs = 15%nat) as Hl by (vm_compute in Hr; injection Hr as <- <- <-; reflexivity).
  split; [exact Hl|]. destruct H as (_ & _ & Hs). apply Hs. vm_compute. reflexivity.
Defined.
