(* ===== verification/ChatMessages.v ===== *)
(** * From Chat to Messages ([internal/transcode/stream_adapter.go])

    [chatToAnthropicConverter]: the two machines in sequence, in memory.  The typed
    events the Chat machine ([ChatStream]) builds for a frame are fed to the Messages
    machine ([MsgStream]), which validates them as it would an upstream's. *)

From Stdlib Require Import ZArith QArith Qcanon Lia Bool List Ascii String.
From stdpp Require Import strings gmap list.
From S2P Require Import Prelude GoStd GoStr Budget Losses Ir Usage Emitter MsgStream.
From S2P Require ChatStream.

Open Scope string_scope.
Open Scope Z_scope.
Open Scope stream_scope.

(** ** The events between the machines *)

Definition of_kind (k : ChatStream.part_kind) : part_kind :=
  match k with ChatStream.KText => KText | ChatStream.KRefusal => KRefusal end.

Definition of_item (item : ChatStream.out_item) : output_item :=
  match item with
  | ChatStream.OutMessage id _ content => MessageItem id "" (map (λ p, (of_kind p.1, p.2)) content)
  | ChatStream.OutCall id completed callID name _ arguments =>
      FunctionCallItem id callID name arguments (if completed then "completed" else "in_progress")
  | ChatStream.OutReasoning id _ _ => ReasoningItem id
  end.

(** The Chat machine sets none of the gated controls. *)
Definition of_envelope (e : ChatStream.envelope) : response :=
  {| re_ID := ChatStream.e_ID e; re_Model := ChatStream.e_Model e; re_CreatedAt := ChatStream.e_CreatedAt e;
     re_Status := ChatStream.e_Status e; re_Output := map of_item (ChatStream.e_Output e); re_Usage := ChatStream.e_Usage e;
     re_IncompleteReason := ChatStream.e_IncompleteReason e; re_Error := None; re_Background := false;
     re_MaxToolCalls := false; re_Prompt := false; re_PromptCacheKey := false; re_SafetyIdentifier := false |}.

Definition of_body (b : ChatStream.event_body) : upstream_body :=
  match b with
  | ChatStream.Created e => Created (of_envelope e)
  | ChatStream.InProgress e => InProgress (of_envelope e)
  | ChatStream.OutputItemAdded i item => OutputItemAdded i (of_item item)
  | ChatStream.OutputItemDone i item => OutputItemDone i (of_item item)
  | ChatStream.ContentPartAdded id i ci k => ContentPartAdded id i ci (of_kind k)
  | ChatStream.ContentPartDone id i ci k _ => ContentPartDone id i ci (of_kind k)
  | ChatStream.TextDelta id i ci d => TextDelta id i ci d
  | ChatStream.TextDone id i ci t => TextDone id i ci t
  | ChatStream.RefusalDelta id i ci d => RefusalDelta id i ci d
  | ChatStream.RefusalDone id i ci t => RefusalDone id i ci t
  | ChatStream.FunctionArgumentsDelta id i d => FunctionArgumentsDelta id i d
  | ChatStream.FunctionArgumentsDone id i a => FunctionArgumentsDone id i a
  | ChatStream.ReasoningSummaryPartAdded id i => ReasoningSummaryPartAdded id i
  | ChatStream.ReasoningSummaryTextDelta id i d => ReasoningSummaryTextDelta id i d
  | ChatStream.ReasoningSummaryTextDone id i _ => ReasoningSummaryTextDone id i
  | ChatStream.ReasoningSummaryPartDone id i _ => ReasoningSummaryPartDone id i
  | ChatStream.Completed e => Completed (of_envelope e)
  | ChatStream.Incomplete e => Incomplete (of_envelope e)
  end.

Definition of_chat (ev : ChatStream.event) : upstream :=
  {| Sequence := ChatStream.SequenceNumber ev; up_body := of_body (ChatStream.ev_body ev) |}.

(** ** State *)

Record composed := { ca_chat : ChatStream.chatState; ca_anthropic : msgState }.

Definition newChatToAnthropicConverter (chat : ChatStream.chatState) (anthropic : msgState) : composed :=
  {| ca_chat := chat; ca_anthropic := anthropic |}.

Definition with_chat (c : ChatStream.chatState) (s : composed) : composed := {| ca_chat := c; ca_anthropic := ca_anthropic s |}.
Definition with_anthropic (a : msgState) (s : composed) : composed := {| ca_chat := ca_chat s; ca_anthropic := a |}.

(** The error of either machine. *)
Inductive composed_error :=
| OfChat (e : ChatStream.stream_error)
| OfMessages (e : msg_error).

Abbreviation M := (Emitter.M composed mevent composed_error).

(** ** Operations *)

(** A method of the Chat machine, with the events it built. *)
Definition on_chat {A} (m : ChatStream.M A) : M (A * list ChatStream.event) :=
  λ s, match m (ca_chat s) with
       | (Ok a, evs, c) => (Ok (a, evs), [], with_chat c s)
       | (Err e, _, c) => (Err (OfChat e), [], with_chat c s)
       end.

(** A method of the Messages machine, with the number of events it built. *)
Definition on_messages {A} (m : MsgStream.M A) : M nat :=
  λ s, match m (ca_anthropic s) with
       | (Ok a, evs, a') => (Ok (length evs), evs, with_anthropic a' s)
       | (Err e, evs, a') => (Err (OfMessages e), evs, with_anthropic a' s)
       end.

(** The events of a batch, whether it is terminal, and its length. *)
Definition convertResponsesEvents (evs : list ChatStream.event) : M (bool * nat) :=
  n <== on_messages (deliver (for_each (λ _ ev, Convert (of_chat ev)) 0 evs)) ;;
  terminal <== gets (λ s, m_sawTerminal (ca_anthropic s)) ;;
  mret (terminal, n).

Definition releaseTerminals : M (bool * nat) :=
  released <== on_chat ChatStream.releaseTerminal ;;
  if (released.1 : bool) then convertResponsesEvents released.2 else mret (false, 0%nat).

Definition errChatDoneBeforeTerminal : composed_error :=
  OfChat (ChatStream.WireError "chat stream [DONE] before a terminal condition").

Definition composed_done : M bool :=
  sawFinish <== gets (λ s, ChatStream.s_sawFinish (ca_chat s)) ;;
  if negb sawFinish then mfail errChatDoneBeforeTerminal
  else
    batch <== releaseTerminals ;;
    if batch.1 || (0 <? batch.2)%nat then mret batch.1 else mfail errChatDoneBeforeTerminal.

Definition composed_EOF : M bool :=
  sawFinish <== gets (λ s, ChatStream.s_sawFinish (ca_chat s)) ;;
  released <== gets (λ s, ChatStream.s_terminalReleased (ca_chat s)) ;;
  sawTerminal <== gets (λ s, m_sawTerminal (ca_anthropic s)) ;;
  if sawFinish && negb released then
    on_chat ChatStream.noteMissingSentinel ;;=
    releaseTerminals ;;=
    mret true
  else if sawFinish || sawTerminal then mret true
  else mfail (OfChat (ChatStream.LocalError (Errorf "chat stream ended before a terminal condition"))).

(** One frame; whether its batch is terminal. *)
Definition composed_frame (fr : ChatStream.frame) : M bool :=
  match fr with
  | ChatStream.Chunk chunk =>
      built <== on_chat (ChatStream.Convert chunk) ;;
      batch <== convertResponsesEvents built.2 ;;
      mret batch.1
  | ChatStream.Done => composed_done
  | ChatStream.EOF => composed_EOF
  end.

(** The reader stops at the first error and at a terminal batch. *)
Fixpoint composed_stream (frames : list ChatStream.frame) : M unit :=
  match frames with
  | [] => mret tt
  | fr :: frames =>
      terminal <== composed_frame fr ;;
      if (terminal : bool) then mret tt else composed_stream frames
  end.
