(* ===== verification/ChatMessagesLaws.v ===== *)
(** * The composed converter

    The Chat machine's events are lawful ([ChatStreamLaws]) and the Messages machine
    assembles what lawful events announce ([MsgStreamRun]); together, what a Messages
    client reads of a Chat stream. *)

From Stdlib Require Import ZArith QArith Qcanon Lia Bool List Ascii String.
From stdpp Require Import strings gmap list.
From S2P Require Import Prelude GoStd GoStr Budget Losses Usage Emitter ToolArgs MsgStream MsgClient MsgStreamLaws MsgStreamCalls MsgStreamRun ChatMessages.
From S2P Require ResponsesFsm ChatStream ChatStreamLaws ChatStreamText ChatStreamTerminal.

Open Scope string_scope.
Open Scope Z_scope.
Open Scope stream_scope.

(** ** Only the validation changes the validator *)

Definition violation (e : msg_error) : Prop := ∃ v, e = Violation v.

Abbreviation keepsm := (keeps m_fsm violation).

Lemma keepsm_require b e : ¬ violation e → keepsm (require b e).
Proof. intros He. destruct b; [apply keeps_ret|by apply keeps_fail]. Qed.
Lemma keepsm_charge add : keepsm (charge add).
Proof. intros s. unfold charge. destruct (add _); simpl; (split; [|done]); [done|by intros ? [= <-] [v [=]]]. Qed.
Lemma keepsm_on_report {A} (c : Conv A) : keepsm (on_report c).
Proof. intros s. unfold on_report. destruct (c (m_report s)) as [[a|e] r]; simpl; (split; [|done]); [done|by intros ? [= <-] [v [=]]]. Qed.
Lemma keepsm_emit e : keepsm (emit e).
Proof. by intros s. Qed.

Create HintDb keepsm.

Ltac keepsm :=
  repeat (intros; first
    [ solve [auto 2 with keepsm nocore]
    | apply keeps_bind | apply keeps_ret | apply keeps_gets | apply keepsm_on_report | apply keepsm_charge | apply keepsm_emit
    | solve [apply keepsm_require; intros [v [=]]] | solve [apply keeps_or_fail; intros [v [=]]] | solve [apply keeps_fail; intros [v [=]]]
    | apply keeps_when | apply keeps_for_each | apply keeps_modify; intros; done | case_match ]).

Lemma keepsm_lose f path d : keepsm (lose f path d).
Proof. unfold lose. keepsm. Qed.
Lemma keepsm_identity n : keepsm (chargeIdentity n).
Proof. unfold chargeIdentity. keepsm. Qed.
#[export] Hint Resolve keepsm_lose keepsm_identity : keepsm.
Lemma keepsm_once flag set m : (∀ b s, m_fsm (set b s) = m_fsm s) → keepsm m → keepsm (once flag set m).
Proof. intros Hset Hm. unfold once. keepsm. Qed.
Lemma keepsm_accumulated t n : keepsm (checkAccumulated t n).
Proof. unfold checkAccumulated. keepsm. Qed.
Lemma keepsm_controls e : keepsm (loseControlsOnce e).
Proof. unfold loseControlsOnce. keepsm. Qed.
Lemma keepsm_phase id ph : keepsm (losePhaseOnce id ph).
Proof. unfold losePhaseOnce. keepsm. Qed.
Lemma keepsm_reasoning_loss : keepsm loseReasoningOnce.
Proof. apply keepsm_once; [done|]. keepsm. Qed.
Lemma keepsm_components usage : keepsm (loseUnknownUsageComponentsOnce usage).
Proof. apply keepsm_once; [done|]. keepsm. Qed.
#[export] Hint Resolve keepsm_accumulated keepsm_controls keepsm_phase keepsm_reasoning_loss keepsm_components : keepsm.
Lemma keepsm_usage u : keepsm (absorb_usage u).
Proof. unfold absorb_usage. keepsm. Qed.
Lemma keepsm_check_identity e : keepsm (checkEnvelopeIdentity e).
Proof. unfold checkEnvelopeIdentity. keepsm. Qed.
Lemma keepsm_check_content id content : keepsm (check_content id content).
Proof. unfold check_content. keepsm. Qed.
Lemma keepsm_block id : keepsm (block id).
Proof. unfold block. keepsm. Qed.
Lemma keepsm_update id f : keepsm (update_block id f).
Proof. unfold update_block. keepsm. Qed.
Lemma keepsm_mark id : keepsm (mark_done id).
Proof. unfold mark_done. keepsm. Qed.
#[export] Hint Resolve keepsm_usage keepsm_check_identity keepsm_check_content keepsm_block keepsm_update keepsm_mark : keepsm.
Lemma keepsm_start id : keepsm (maybeStartToolBlock id).
Proof. unfold maybeStartToolBlock, deferToolBlock. keepsm. Qed.
Lemma keepsm_close id p a : keepsm (close_block id p a).
Proof. unfold close_block. keepsm. Qed.
Lemma keepsm_reconcile id snapshot : keepsm (reconcileToolArguments id snapshot).
Proof. unfold reconcileToolArguments. keepsm. Qed.
#[export] Hint Resolve keepsm_start keepsm_close keepsm_reconcile : keepsm.
Lemma keepsm_start_deferred id : keepsm (start_deferred id).
Proof. unfold start_deferred, emit_input. keepsm. Qed.
#[export] Hint Resolve keepsm_start_deferred : keepsm.
Lemma keepsm_drain fuel : keepsm (drain fuel).
Proof. induction fuel as [|fuel IH]; simpl; keepsm. Qed.
#[export] Hint Resolve keepsm_drain : keepsm.
Lemma keepsm_drain_all : keepsm drainDeferredTools.
Proof. unfold drainDeferredTools. keepsm. Qed.
#[export] Hint Resolve keepsm_drain_all : keepsm.
Lemma keepsm_item_added oi item : keepsm (outputItemAdded oi item).
Proof. unfold outputItemAdded. keepsm. Qed.
Lemma keepsm_item_done oi item : keepsm (outputItemDone oi item).
Proof. unfold outputItemDone, functionCallDone, emit_input. keepsm. Qed.
Lemma keepsm_open_part key oi k : keepsm (open_part key oi k).
Proof. unfold open_part, checkPartOutputIndex. keepsm. Qed.
#[export] Hint Resolve keepsm_item_added keepsm_item_done keepsm_open_part : keepsm.
Lemma keepsm_delta k id oi ci d : keepsm (partDelta k id oi ci d).
Proof. unfold partDelta. keepsm. apply keeps_modify. by destruct k. Qed.
Lemma keepsm_parts id oi ci k : keepsm (contentPartAdded id oi ci k).
Proof. unfold contentPartAdded. keepsm. Qed.
#[export] Hint Resolve keepsm_delta keepsm_parts : keepsm.
Lemma keepsm_gate e : keepsm (gateTerminalEnvelope e).
Proof. unfold gateTerminalEnvelope, reconcile_output. keepsm. Qed.
Lemma keepsm_conclude e stop : keepsm (conclude e stop).
Proof. unfold conclude, gateEnvelopePhases, finalizeMessage, terminalEvents. keepsm. Qed.
#[export] Hint Resolve keepsm_gate keepsm_conclude : keepsm.
Lemma keepsm_interpret b : keepsm (interpret b).
Proof.
  unfold interpret, messageStart, contentPartDone, partValueDone, functionArgumentsDelta, functionArgumentsDone, reasoning_event,
    reasoningPartAdded, reasoningTextDelta, reasoningPartDone, completed, incomplete, failed, errorEvent, saw_error, buildErrorEvent, emit_input.
  destruct b; keepsm.
Qed.
#[export] Hint Resolve keepsm_interpret : keepsm.

(** The validator decides first; what follows leaves it alone. *)
Definition after_validation (ev : upstream) : MsgStream.M unit :=
  charge addEvent ;;=
  last <== gets m_lastSequence ;;
  require (last <? Sequence ev) (Corrupt "sequence number is not strictly increasing") ;;=
  modify (set_lastSequence (Sequence ev)) ;;=
  sent <== gets m_messageSent ;;
  require (sent || is_created (up_body ev) || is_error (up_body ev)) (Corrupt "event before response.created") ;;=
  interpret (up_body ev).

Lemma Convert_live ev s :
  m_sawTerminal s = false →
  Convert ev s = match ResponsesFsm.ValidateEvent (fsm_event ev) (m_fsm s) with
                 | (Ok _, f) => deliver (after_validation ev) (set_fsm f s)
                 | (Err v, f) => (Err (Violation v), [], set_fsm f s)
                 end.
Proof.
  intros Hlive.
  change (Convert ev s) with
    (deliver (ended <== gets m_sawTerminal ;; require (negb ended) AfterTerminal ;;= validate ev ;;= after_validation ev) s).
  generalize (after_validation ev). intros m. unfold deliver, mbind, gets, require, mret, mfail. simpl. rewrite Hlive. simpl.
  unfold validate. destruct (ResponsesFsm.ValidateEvent (fsm_event ev) (m_fsm s)) as [[u|v] f]; simpl; [|done].
  by destruct (m (set_fsm f s)) as [[[]] ].
Qed.

Lemma keepsm_deliver {A} (m : MsgStream.M A) : keepsm m → keepsm (deliver m).
Proof. intros Hm s. specialize (Hm s). unfold deliver. by destruct (m s) as [[[a|e] evs] s']. Qed.

Lemma keepsm_rest ev : keepsm (deliver (after_validation ev)).
Proof. apply keepsm_deliver. unfold after_validation. keepsm. Qed.

Lemma Convert_fsm ev s :
  m_sawTerminal s = false →
  match ResponsesFsm.ValidateEvent (fsm_event ev) (m_fsm s) with
  | (Ok _, f) => (∀ e, (Convert ev s).1.1 = Err e → ¬ violation e) ∧ m_fsm (Convert ev s).2 = f
  | (Err v, _) => (Convert ev s).1.1 = Err (Violation v)
  end.
Proof.
  intros Hlive. rewrite (Convert_live ev s Hlive). destruct (ResponsesFsm.ValidateEvent (fsm_event ev) (m_fsm s)) as [[u|v] f]; [|done].
  destruct (keepsm_rest ev (set_fsm f s)) as [H1 H2]. by rewrite H2.
Qed.

(** ** Feeding events *)

(** The composed converter never ends in a panic of either machine, nor in a violation of
    the lifecycle other than the budget of the exchange. *)
Definition grave_message (e : msg_error) : Prop := e = Panic ∨ ∃ v, e = Violation v ∧ v ≠ ResponsesFsm.OverBudget.

Definition grave (e : composed_error) : Prop :=
  match e with OfChat e => e = ChatStream.Panic | OfMessages e => grave_message e end.

Abbreviation wpg := (wp reads grave_message).

Lemma fsm_event_wire ev : fsm_event (of_chat ev) = ChatStreamLaws.wire ev.
Proof.
  destruct ev as [n b]. unfold of_chat, fsm_event, ChatStreamLaws.wire. simpl. f_equal. destruct b as [| |? []|? []|? ? ? []|? ? ? []| | | | | | | | | | | |]; done.
Qed.

Lemma wpg_convert th p l s c ev :
  Follows th p l s c → final p = false →
  (∀ v f, ResponsesFsm.ValidateEvent (fsm_event ev) (m_fsm s) = (Err v, f) → v = ResponsesFsm.OverBudget) →
  wpg (Convert ev)
    (λ _ s' c', Follows th (progress p l (up_body ev)) (announce th l (up_body ev)) s' c' ∧
       ∃ u, ResponsesFsm.ValidateEvent (fsm_event ev) (m_fsm s) = (Ok u, m_fsm s')) s c.
Proof.
  intros HF Hp Hv. pose proof (wpm_convert th p l s c ev HF) as Hw. pose proof (Convert_fsm ev s) as Hx.
  rewrite (Follows_final _ _ _ _ _ HF) in Hx. specialize (Hx Hp). unfold wp in *.
  destruct (Convert ev s) as [[r evs] s']. simpl in Hx. destruct Hw as (Hb & c' & Hr & HQ).
  destruct (ResponsesFsm.ValidateEvent (fsm_event ev) (m_fsm s)) as [[u|v] f].
  - destruct Hx as [Hn <-]. split; [|exists c'; split; [done|intros a Ha; split; [by eapply HQ|by exists u]]].
    intros e He [->|(v & -> & _)]; [by eapply (Hb Panic)|]. by eapply Hn; [|eexists].
  - subst r. specialize (Hv v f eq_refl). subst v. split; [|by exists c'].
    by intros e [= <-] [|(v & [= <-] & ?)].
Qed.

(** Nothing is converted after the terminal. *)
Lemma wpg_after_terminal ev Q s c : m_sawTerminal s = true → wpg (Convert ev) Q s c.
Proof.
  intros Hend. unfold wp, Convert, deliver, mbind, gets, require, mret, mfail. simpl. rewrite Hend. simpl.
  split; [by intros e [= <-] [|(v & ? & _)]|]. exists c. split; [apply reads_nil|done].
Qed.

Definition framed (ev : ChatStream.event) : frame := Frame "event" true (of_chat ev).

Lemma heard_cons th p l ev evs :
  heard th p l (map framed (ev :: evs)) =
  (if final (progress p l (of_body (ChatStream.ev_body ev)))
   then (progress p l (of_body (ChatStream.ev_body ev)), announce th l (of_body (ChatStream.ev_body ev)))
   else heard th (progress p l (of_body (ChatStream.ev_body ev))) (announce th l (of_body (ChatStream.ev_body ev))) (map framed evs)).
Proof. done. Qed.

(** The announced contents are told apart all along, and nothing follows a terminal. *)
Definition distinct (l : list entry) : Prop :=
  ∀ i j a b, l !! i = Some a → l !! j = Some b → entry_key a ≠ None → entry_key a = entry_key b → i = j.

Fixpoint apart (th : bool) (p : phase) (l : list entry) (evs : list ChatStream.event) : Prop :=
  distinct l ∧
  match evs with
  | [] => True
  | ev :: evs =>
      let p' := progress p l (of_body (ChatStream.ev_body ev)) in
      if final p' then evs = [] else apart th p' (announce th l (of_body (ChatStream.ev_body ev))) evs
  end.

Lemma Follows_distinct th p l s c : Follows th p l s c → final p = false → distinct l.
Proof.
  intros HF Hp. rewrite <- (Follows_final _ _ _ _ _ HF) in Hp. destruct (Follows_inv _ _ _ _ _ HF Hp) as (HI & _). exact (sh_unique _ _ (iv_shape _ _ _ HI)).
Qed.

(** The client follows what the events say. *)
Definition told_by (th : bool) (p : phase) (l : list entry) (evs : list ChatStream.event) (a : msgState) (c : client) : Prop :=
  Follows th (heard th p l (map framed evs)).1 (heard th p l (map framed evs)).2 a c ∧ apart th p l evs.

Lemma wpg_feed th evs : ∀ n p l s c,
  Follows th p l s c → final p = false →
  match ChatStreamLaws.verdict evs (m_fsm s) with Ok _ => True | Err v => v = ResponsesFsm.OverBudget end →
  wpg (for_each (λ _ ev, Convert (of_chat ev)) n evs)
    (λ _ s' c', told_by th p l evs s' c' ∧ ChatStreamLaws.verdict evs (m_fsm s) = Ok (m_fsm s')) s c.
Proof.
  induction evs as [|ev evs IH]; intros n p l s c HF Hp Hv.
  { apply (wp_ret reads). split; [|done]. split; [done|]. split; [by eapply Follows_distinct|done]. }
  unfold told_by. rewrite heard_cons. cbn [for_each apart]. apply (wp_bind reads). simpl in Hv |- *. rewrite <- fsm_event_wire in Hv |- *.
  eapply (wp_mono reads); [apply (wpg_convert th p l s c (of_chat ev) HF Hp)|].
  { intros v f Ev. by rewrite Ev in Hv. }
  intros _ s1 c1 [HF1 [u Ev]]. rewrite Ev in Hv |- *. simpl in HF1. destruct (final (progress p l (of_body (ChatStream.ev_body ev)))) eqn:Hp1.
  - destruct evs as [|ev2 evs].
    + apply (wp_ret reads). split_and!; try done. by eapply Follows_distinct.
    + cbn [for_each]. apply (wp_bind reads), wpg_after_terminal. by rewrite (Follows_final _ _ _ _ _ HF1).
  - eapply (wp_mono reads); [by apply IH|]. intros _ s2 c2 [[HF2 Ha] Hv2]. split_and!; try done. by eapply Follows_distinct.
Qed.

(** ** The composed machine *)

Abbreviation wpcm := (wp reads grave).

Lemma wpcm_on_chat {A} (m : ChatStream.M A) (Q : A * list ChatStream.event → composed → client → Prop) s c :
  (∀ e evs cs, m (ca_chat s) = (Err e, evs, cs) → e ≠ ChatStream.Panic) →
  (∀ a evs cs, m (ca_chat s) = (Ok a, evs, cs) → Q (a, evs) (with_chat cs s) c) → wpcm (on_chat m) Q s c.
Proof.
  intros He HQ. unfold wp, on_chat. destruct (m (ca_chat s)) as [[[a|e] evs] cs].
  - split; [done|]. exists c. split; [apply reads_nil|]. intros ? [= <-]. by apply HQ.
  - split; [intros ? [= <-]; by eapply He|]. exists c. split; [apply reads_nil|done].
Qed.

Lemma wpcm_on_messages {A} (m : MsgStream.M A) (Q : nat → composed → client → Prop) s c :
  wpg m (λ _ a c, ∀ n, Q n (with_anthropic a s) c) (ca_anthropic s) c → wpcm (on_messages m) Q s c.
Proof.
  unfold wp, on_messages. destruct (m (ca_anthropic s)) as [[[a|e] evs] ms]; intros (Hb & c' & Hr & HQ).
  - split; [done|]. exists c'. split; [done|]. intros n _. by apply (HQ a).
  - split; [intros ? [= <-]; by apply Hb|]. by exists c'.
Qed.

(** Events that are no terminal do not end what is heard. *)
Lemma heard_plain th evs : ∀ p l,
  final p = false → ChatStreamTerminal.unterminated evs → final (heard th p l (map framed evs)).1 = false.
Proof.
  induction evs as [|ev evs IH]; intros p l Hp Hu; [done|]. apply Forall_cons in Hu as [Hev Hu]. rewrite heard_cons.
  assert (final (progress p l (of_body (ChatStream.ev_body ev))) = false) as Hp1.
  { unfold ChatStreamTerminal.is_terminal in Hev. by destruct (ChatStream.ev_body ev). }
  rewrite Hp1. by apply IH.
Qed.

Lemma heard_terminal th evs ev : ∀ p l,
  final p = false → ChatStreamTerminal.is_terminal ev = true → final (heard th p l (map framed (evs ++ [ev]))).1 = true.
Proof.
  induction evs as [|ev1 evs IH]; intros p l Hp Ht; cbn [app]; rewrite heard_cons.
  - unfold ChatStreamTerminal.is_terminal in Ht. by destruct (ChatStream.ev_body ev).
  - destruct (final (progress _ _ _)) eqn:Hp1; [done|]. by apply IH.
Qed.

Lemma apart_app th l1 l2 : ∀ p l,
  final (heard th p l (map framed l1)).1 = false → apart th p l l1 →
  apart th (heard th p l (map framed l1)).1 (heard th p l (map framed l1)).2 l2 → apart th p l (l1 ++ l2).
Proof.
  induction l1 as [|ev l1 IH]; intros p l Hf H1 H2; [done|]. rewrite heard_cons in Hf, H2. cbn [app apart] in *. destruct H1 as [Hd H1].
  split; [done|]. destruct (final (progress _ _ _)) eqn:Hp1; [simpl in Hf; congruence|]. by apply IH.
Qed.

Lemma heard_app th l1 l2 : ∀ p l,
  final p = false → final (heard th p l (map framed l1)).1 = false →
  heard th p l (map framed (l1 ++ l2)) = heard th (heard th p l (map framed l1)).1 (heard th p l (map framed l1)).2 (map framed l2).
Proof.
  induction l1 as [|ev l1 IH]; intros p l Hp Hf; [done|]. cbn [app]. rewrite heard_cons in Hf |- *. rewrite heard_cons.
  destruct (final (progress _ _ _)) eqn:Hp1; [simpl in Hf; congruence|]. by apply IH.
Qed.

(** Both machines and the client, after the Chat events [tr]. *)
Record Joint (th : bool) (p : phase) (l : list entry) (s : composed) (c : client) (tr : list ChatStream.event) : Prop := {
  jo_status : ChatStreamLaws.Status (ca_chat s) (ChatStreamLaws.view_of (m_fsm (ca_anthropic s)));
  jo_ledger : ChatStreamTerminal.Ledger (ca_chat s) tr;
  jo_follows : Follows th p l (ca_anthropic s) c;
  jo_live : final p = false;
}.

Lemma wpcm_convert th p l s c evs v' :
  Follows th p l (ca_anthropic s) c → final p = false →
  ChatStreamLaws.lawful evs (ChatStreamLaws.view_of (m_fsm (ca_anthropic s))) v' →
  wpcm (convertResponsesEvents evs)
    (λ batch s' c', ca_chat s' = ca_chat s ∧ ChatStreamLaws.view_of (m_fsm (ca_anthropic s')) = v' ∧
       told_by th p l evs (ca_anthropic s') c' ∧
       batch.1 = final (heard th p l (map framed evs)).1) s c.
Proof.
  intros HF Hp Hl. specialize (Hl _ eq_refl). apply (wp_bind reads), wpcm_on_messages.
  apply (wp_deliver reads). eapply (wp_mono reads).
  { apply (wpg_feed th evs 0 p l _ _ HF Hp). by destruct (ChatStreamLaws.verdict _ _). }
  intros _ a c1 [[HF1 Ha] Hv] n. apply (wp_bind reads), (wp_gets reads), (wp_ret reads). simpl. rewrite Hv in Hl.
  split_and!; [done|done|by split|]. by apply (Follows_final _ _ _ _ _ HF1).
Qed.

(** A chunk goes through both machines. *)
Lemma wpcm_chunk th p l s c tr chunk :
  Joint th p l s c tr →
  wpcm (composed_frame (ChatStream.Chunk chunk))
    (λ terminal s' c', terminal = false ∧ ∃ evs, (∃ cs, ChatStream.Convert chunk (ca_chat s) = (Ok tt, evs, cs) ∧ cs = ca_chat s') ∧
       apart th p l evs ∧ Joint th (heard th p l (map framed evs)).1 (heard th p l (map framed evs)).2 s' c' (tr ++ evs)) s c.
Proof.
  intros [HS HL HF Hp]. apply (wp_bind reads). pose proof (ChatStreamLaws.wpc_Convert chunk _ _ HS) as Hw.
  pose proof (ChatStreamTerminal.twp_Convert chunk _ _ tr HS HL) as Ht. apply wpcm_on_chat.
  { intros e evs cs He. unfold wp in Hw. rewrite He in Hw. destruct Hw as [Hb _]. intros ->. by apply (Hb ChatStream.Panic). }
  intros [] evs cs He. unfold wp in Hw, Ht. rewrite He in Hw, Ht. destruct Hw as (_ & v' & Hl & HQ). destruct Ht as (_ & ? & -> & HL').
  specialize (HQ tt eq_refl). specialize (HL' tt eq_refl). apply (wp_bind reads).
  eapply (wp_mono reads); [by apply (wpcm_convert th p l (with_chat cs s) c evs v' HF Hp)|].
  intros [terminal n] s1 c1 (Hc & Hv & [HF1 Ha] & Hterm). apply (wp_ret reads). simpl in Hc, Hterm |- *.
  assert (final (heard th p l (map framed evs)).1 = false) as Hp1.
  { apply heard_plain; [done|]. unfold ChatStreamTerminal.Ledger in HL'. destruct (ChatStream.s_sawFinish cs).
    - destruct HL' as (extra & _ & _ & _ & Hu & _). by apply Forall_app in Hu as [[_ Hu]%Forall_app _].
    - destruct HL' as (_ & Hu & _). by apply Forall_app in Hu as [_ Hu]. }
  split; [by rewrite Hterm|]. exists evs. split; [by exists cs|]. split; [done|]. split; try done; by rewrite Hc, ?Hv.
Qed.

Lemma wpcm_release th p l s c :
  ChatStreamLaws.Finished (ca_chat s) (ChatStreamLaws.view_of (m_fsm (ca_anthropic s))) →
  Follows th p l (ca_anthropic s) c → final p = false →
  wpcm releaseTerminals
    (λ batch s' c', batch.1 = true ∧ ∃ evs, ChatStream.releaseTerminal (ca_chat s) = (Ok true, evs, ca_chat s') ∧
       told_by th p l evs (ca_anthropic s') c' ∧
       final (heard th p l (map framed evs)).1 = true) s c.
Proof.
  intros HFin HF Hp. pose proof (ChatStreamLaws.wpc_releaseTerminal _ _ HFin) as Hw. pose proof HFin as [(_ & _ & Hrel) _].
  apply (wp_bind reads), wpcm_on_chat; rewrite ChatStreamText.releaseTerminal_eq, Hrel; [done|].
  intros ok evs cs [= <- <- <-]. unfold wp in Hw. rewrite ChatStreamText.releaseTerminal_eq, Hrel in Hw.
  destruct Hw as (_ & v' & Hl & _). simpl. set (evs := (ChatStream.s_heldTerminal (ca_chat s) ++ _)%list) in *.
  eapply (wp_mono reads); [by apply (wpcm_convert th p l (with_chat _ s) c evs v' HF Hp)|].
  intros [terminal n] s1 c1 (Hc & _ & HF1 & Hterm). simpl in Hc, Hterm |- *.
  assert (final (heard th p l (map framed evs)).1 = true) as Hp1.
  { apply heard_terminal; [done|]. unfold ChatStreamTerminal.is_terminal, ChatStreamText.final_event. simpl. by destruct (ChatStream.incomplete_reason _). }
  split; [by rewrite Hterm|]. exists evs. by rewrite Hc.
Qed.

Lemma Status_finished cs v : ChatStreamLaws.Status cs v → ChatStream.s_sawFinish cs = true → ChatStreamLaws.Finished cs v.
Proof. intros [((_ & -> & _) & _)|[[(_ & -> & _) _]|?]]; done. Qed.

Lemma wpcm_end th p l s c tr fr :
  Joint th p l s c tr → match fr with ChatStream.Chunk _ => False | _ => True end →
  wpcm (composed_frame fr)
    (λ terminal s' c', terminal = true ∧ ∃ evs, ChatStream.convert_frame fr (ca_chat s) = (Ok tt, evs, ca_chat s') ∧
       told_by th p l evs (ca_anthropic s') c' ∧
       final (heard th p l (map framed evs)).1 = true) s c.
Proof.
  intros [HS HL HF Hp] Hfr. destruct fr as [chunk| |]; [done|..]; simpl.
  - apply (wp_bind reads), (wp_gets reads). destruct (ChatStream.s_sawFinish (ca_chat s)) eqn:Hsf; [|by apply (wp_fail reads)]. simpl.
    apply (wp_bind reads). eapply (wp_mono reads); [by apply (wpcm_release th p l); [apply Status_finished|..]|].
    intros [terminal n] s1 c1 (Ht & evs & Hr & HF1 & Hp1). simpl in Ht. subst terminal. simpl. apply (wp_ret reads).
    split; [done|]. exists evs. split; [|done]. unfold ChatStream.convert_done, ChatStream.require, mbind, gets, mret. simpl. rewrite Hsf. simpl.
    rewrite Hr. simpl. by rewrite app_nil_r.
  - do 3 apply (wp_bind reads), (wp_gets reads). destruct (ChatStream.s_sawFinish (ca_chat s)) eqn:Hsf; simpl.
    2: { rewrite (Follows_final _ _ _ _ _ HF), Hp. by apply (wp_fail reads). }
    pose proof (Status_finished _ _ HS Hsf) as HFin. pose proof HFin as [(_ & _ & Hrel) _]. rewrite Hrel. simpl.
    assert (ChatStreamLaws.quietc ChatStream.noteMissingSentinel) as Hq by by apply ChatStreamLaws.quietc_note.
    specialize (Hq (ca_chat s)). apply (wp_bind reads), wpcm_on_chat.
    { intros e evs cs He. rewrite He in Hq. destruct Hq as [Hb _]. intros ->. by apply (Hb ChatStream.Panic). }
    intros [] evs1 cs1 He. rewrite He in Hq. destruct Hq as (_ & -> & Hcore). apply (wp_bind reads).
    eapply (wp_mono reads).
    { apply (wpcm_release th p l (with_chat cs1 s) c); [|done|done]. by eapply ChatStreamLaws.Finished_core. }
    intros [terminal n] s1 c1 (_ & evs & Hr & HF1 & Hp1). apply (wp_ret reads). split; [done|]. exists evs. split; [|done].
    change (ca_chat (with_chat cs1 s)) with cs1 in Hr. unfold ChatStream.convert_frame, ChatStream.FinalizeEOF, mbind, gets, mret. cbv beta iota.
    rewrite Hsf, Hrel. cbn [andb negb]. rewrite He, Hr. simpl. by rewrite app_nil_r.
Qed.

Lemma wpcm_stream th frames : ∀ p l s c tr,
  Joint th p l s c tr →
  wpcm (composed_stream frames)
    (λ _ s' c', ∃ evs, ChatStream.stream frames (ca_chat s) = (Ok tt, evs, ca_chat s') ∧
       told_by th p l evs (ca_anthropic s') c' ∧
       final (heard th p l (map framed evs)).1 = ChatStreamTerminal.ends frames) s c.
Proof.
  induction frames as [|fr frames IH]; intros p l s c tr HJ; simpl.
  - apply (wp_ret reads). exists []. split; [done|]. split; [|apply HJ]. split; [apply HJ|]. split; [|done]. eapply Follows_distinct; apply HJ.
  - apply (wp_bind reads). destruct fr as [chunk| |].
    + eapply (wp_mono reads); [by apply (wpcm_chunk th p l s c tr)|]. intros terminal s1 c1 (-> & evs & (cs & He & ->) & Ha1 & HJ1).
      eapply (wp_mono reads); [by eapply IH|]. intros _ s2 c2 (evs2 & Hs & [HF2 Ha2] & Hp2). exists (evs ++ evs2)%list. split.
      * unfold mbind. simpl. rewrite He, Hs. done.
      * unfold told_by. rewrite heard_app by (apply HJ || apply HJ1). split; [|done]. split; [done|]. apply apart_app; [apply HJ1|done|done].
    + eapply (wp_mono reads); [by apply (wpcm_end th p l s c tr)|]. intros terminal s1 c1 (-> & evs & He & HF1 & Hp1).
      apply (wp_ret reads). exists evs. split; [|done]. unfold mbind. rewrite He. simpl. by rewrite app_nil_r.
    + eapply (wp_mono reads); [by apply (wpcm_end th p l s c tr)|]. intros terminal s1 c1 (-> & evs & He & HF1 & Hp1).
      apply (wp_ret reads). exists evs. split; [|done]. unfold mbind. rewrite He. simpl. by rewrite app_nil_r.
Qed.
