(* ===== verification/ChatMessagesRun.v ===== *)
(** * What a Messages client holds of a Chat stream

    The composed converter ([ChatMessages]) from its initial state, and its theorems: the
    laws of [ChatMessagesLaws], and, with the order of the parts ([ChatStreamOrder]) and
    the text of the events ([ChatStreamText]), that the client's blocks hold the text of
    the chunks. *)

From Stdlib Require Import ZArith QArith Qcanon Lia Bool List Ascii String.
From stdpp Require Import strings gmap list.
From S2P Require Import Prelude GoStd GoStr Budget Losses Usage Emitter ToolArgs MsgStream MsgClient MsgStreamLaws MsgStreamCalls MsgStreamRun ChatMessages ChatMessagesLaws.
From S2P Require ChatStream ChatStreamLaws ChatStreamText ChatStreamTerminal ChatStreamOrder.

Open Scope string_scope.
Open Scope Z_scope.

(** An exchange: a Chat machine and a Messages machine, both fresh. *)
Definition composed_run (x : ChatStream.exchange) (now : Qc) (y : msg_exchange) (frames : list ChatStream.frame) :=
  composed_stream frames
    (newChatToAnthropicConverter (ChatStream.newChatResponsesStreamState x now) (newAnthropicResponsesStreamState y)).

(** ** The texts announced *)

Definition textual : Type := part_kind * part_key * string.

Definition texts_of (e : entry) : list textual := match e with EText k key t => [(k, key, t)] | _ => [] end.

Definition texts (l : list entry) : list textual := l ≫= texts_of.

Definition said (k : part_kind) (t : textual) : string := if decide (t.1.1 = k) then t.2 else "".

Definition spoken_of (k : part_kind) (ts : list textual) : string := ChatStreamText.joined (map (said k) ts).

(** The contents of one kind, in the order of the blocks. *)
Definition spoken (k : part_kind) (l : list entry) : string := spoken_of k (texts l).

Lemma spoken_of_app k l1 l2 : spoken_of k (l1 ++ l2)%list = spoken_of k l1 ++ spoken_of k l2.
Proof. unfold spoken_of. by rewrite map_app, ChatStreamText.joined_app. Qed.

Lemma texts_app l1 l2 : texts (l1 ++ l2) = (texts l1 ++ texts l2)%list.
Proof. apply bind_app. Qed.

Lemma texts_map f l : (∀ e, texts_of (f e) = texts_of e) → texts (map f l) = texts l.
Proof. intros Hf. induction l as [|e l IH]; simpl; [done|]. by rewrite Hf, IH. Qed.

Lemma texts_snapshot id arguments l : texts (map (add_snapshot id arguments) l) = texts l.
Proof. apply texts_map. intros [| ? ? ? []|]; simpl; try done. by case_match. Qed.

Lemma texts_thinking d l : texts (rev (add_thinking d (rev l))) = texts l.
Proof.
  enough (∀ l, texts (rev (add_thinking d l)) = texts (rev l)) as H by by rewrite H, rev_involutive.
  clear l. intros l. induction l as [|e l IH]; simpl; [done|]. destruct e; simpl; rewrite !texts_app; try done; by rewrite IH.
Qed.

Definition grow (k : part_kind) (key : part_key) (d : string) (t : textual) : textual :=
  if decide (t.1 = (k, key)) then (t.1, t.2 ++ d) else t.

Lemma texts_grow k key d l : texts (map (add_text k key d) l) = map (grow k key d) (texts l).
Proof.
  induction l as [|e l IH]; [done|]. cbn [map]. change (texts (e :: l)) with (texts_of e ++ texts l)%list. rewrite map_app, <- IH.
  change (texts (add_text k key d e :: map (add_text k key d) l)) with (texts_of (add_text k key d e) ++ texts (map (add_text k key d) l))%list.
  f_equal. destruct e as [k' key' t| |]; try done. simpl. unfold grow. simpl. case_bool_decide as Hk; case_decide as Hd; try done.
  - by destruct Hk as [-> ->].
  - injection Hd as -> ->. by destruct Hk.
Qed.

(** Texts that are told apart. *)
Lemma texts_distinct l : distinct l → NoDup (map (λ t : textual, t.1.2) (texts l)).
Proof.
  induction l as [|e l IH]; intros Hd; [by apply NoDup_nil|]. change (texts (e :: l)) with (texts_of e ++ texts l)%list. rewrite map_app.
  assert (distinct l) as Hl by (intros i j a b Hi Hj Ha Hab; specialize (Hd (S i) (S j) a b Hi Hj Ha Hab); lia).
  destruct e as [k key t| |]; simpl; [|by apply IH..]. apply NoDup_cons. split; [|by apply IH].
  intros ([[k' key'] t'] & Hkey & (e & He & [j Hj]%list_elem_of_lookup)%list_elem_of_bind)%list_elem_of_fmap. simpl in Hkey. subst key'.
  destruct e as [k2 key2 t2| |]; simpl in He; [|by apply not_elem_of_nil in He..]. apply list_elem_of_singleton in He as [= <- <- <-].
  by specialize (Hd O (S j) _ _ eq_refl Hj ltac:(done) eq_refl).
Qed.

Lemma grow_last k key d l t :
  NoDup (map (λ t : textual, t.1.2) (l ++ [(k, key, t)])%list) →
  map (grow k key d) (l ++ [(k, key, t)])%list = (l ++ [(k, key, (t ++ d)%string)])%list.
Proof.
  rewrite map_app. simpl. intros Hnd. apply NoDup_app in Hnd as (_ & Hnd & _).
  rewrite map_app. simpl. f_equal; [|by unfold grow; rewrite decide_True].
  rewrite <- (map_id l) at 2. apply map_ext_in. intros [[k' key'] t'] Hin%list_elem_of_In. unfold grow. rewrite decide_False; [done|].
  intros [= -> ->]. destruct (Hnd key). { apply list_elem_of_fmap. by exists (k, key, t'). }
  by apply list_elem_of_singleton.
Qed.

(** ** The part that grows is the last one *)

Definition At_part (p : option ChatStreamOrder.place) (l : list entry) : Prop :=
  match p with
  | Some (k, key) => ∃ ts t, texts l = (ts ++ [(of_kind k, key, t)])%list
  | None => True
  end.

Lemma At_part_same p l l' : texts l' = texts l → At_part p l → At_part p l'.
Proof. intros Ht. destruct p as [[k key]|]; simpl; [by rewrite Ht|done]. Qed.

(** A delta is spoken at the end. *)
Lemma spoken_delta kind k key d l :
  distinct l → At_part (Some (k, key)) l →
  At_part (Some (k, key)) (map (add_text (of_kind k) key d) l) ∧
  spoken kind (map (add_text (of_kind k) key d) l) = spoken kind l ++ (if decide (of_kind k = kind) then d else "").
Proof.
  intros Hd%texts_distinct (ts & t & Ht). rewrite Ht in Hd. unfold At_part, spoken. rewrite texts_grow, Ht, grow_last by done.
  split; [by eexists _, _|]. rewrite !spoken_of_app, <- ChatStreamText.append_assoc3. f_equal.
  unfold spoken_of. simpl. unfold said. simpl. destruct (decide _); [|done]. by rewrite !ChatStreamText.append_nil_r.
Qed.

Lemma spoken_step th k l p p' ev :
  distinct l → At_part p l → ChatStreamOrder.advance p ev = Some p' →
  let l' := announce th l (of_body (ChatStream.ev_body ev)) in
  At_part p' l' ∧ spoken (of_kind k) l' = spoken (of_kind k) l ++ ChatStreamText.delta_of k ev.
Proof.
  intros Hd Hp Ha. unfold ChatStreamText.delta_of, ChatStreamOrder.advance in *.
  assert (∀ l', texts l' = texts l → At_part p l' ∧ spoken (of_kind k) l' = spoken (of_kind k) l ++ "") as Hsame.
  { intros l' Hl'. split; [by eapply At_part_same|]. unfold spoken. by rewrite Hl', ChatStreamText.append_nil_r. }
  destruct (ChatStream.ev_body ev) as [| |i item|i item|id i ci kind| |id i ci d| |id i ci d| | | | | | | | |] eqn:Eb;
    simpl of_body; cbn [announce]; simplify_eq; try by apply Hsame.
  - apply Hsame. destruct item; simpl; rewrite ?texts_app, ?app_nil_r; done.
  - apply Hsame. destruct item; simpl; rewrite ?texts_snapshot; done.
  - unfold At_part, spoken. rewrite texts_app. split; [by eexists _, _|]. rewrite spoken_of_app. f_equal. unfold spoken_of, said. simpl. by case_decide.
  - case_bool_decide; [|done]. simplify_eq. destruct (spoken_delta (of_kind k) ChatStream.KText (id, ci) d l Hd Hp) as [H1 H2]. simpl in H1, H2.
    split; [done|]. rewrite H2. by destruct k.
  - case_bool_decide; [|done]. simplify_eq. destruct (spoken_delta (of_kind k) ChatStream.KRefusal (id, ci) d l Hd Hp) as [H1 H2]. simpl in H1, H2.
    split; [done|]. rewrite H2. by destruct k.
  - apply Hsame. destruct th; [|done]. by rewrite texts_app, app_nil_r.
  - apply Hsame. destruct th; [apply texts_thinking|done].
Qed.

(** What the client hears is what the events stream. *)
Lemma spoken_heard th k evs : ∀ p l g g',
  apart th p l evs → ChatStreamOrder.in_order evs g g' → At_part g l →
  spoken (of_kind k) (heard th p l (map framed evs)).2 = spoken (of_kind k) l ++ ChatStreamText.streamed k evs.
Proof.
  unfold ChatStreamOrder.in_order. induction evs as [|ev evs IH]; intros p l g g' Hap Ho Hg.
  - simpl. by rewrite ChatStreamText.append_nil_r.
  - rewrite heard_cons. cbn [apart ChatStreamOrder.advance_all] in Hap, Ho. destruct Hap as [Hd Hap].
    destruct (ChatStreamOrder.advance g ev) as [g1|] eqn:Ha; [|done].
    destruct (spoken_step th k l g g1 ev Hd Hg Ha) as [Hg1 Hs].
    change (ChatStreamText.streamed k (ev :: evs)) with (ChatStreamText.delta_of k ev ++ ChatStreamText.streamed k evs).
    rewrite ChatStreamText.append_assoc3, <- Hs. destruct (final _).
    + subst evs. simpl. by rewrite ChatStreamText.append_nil_r.
    + by eapply IH.
Qed.

(** ** Properties *)

Lemma Joint_new x now y :
  Joint (mx_ProviderReasoningThinking y) Waiting []
    (newChatToAnthropicConverter (ChatStream.newChatResponsesStreamState x now) (newAnthropicResponsesStreamState y)) client0 [].
Proof.
  split; [apply ChatStreamLaws.Status_initial| |apply Follows_new|done].
  split_and!; [done|by constructor|by constructor].
Qed.

Lemma composed_ok x now y frames evs s :
  composed_run x now y frames = (Ok tt, evs, s) →
  ∃ c cevs, reads evs client0 c ∧
    ChatStream.stream frames (ChatStream.newChatResponsesStreamState x now) = (Ok tt, cevs, ca_chat s) ∧
    told_by (mx_ProviderReasoningThinking y) Waiting [] cevs (ca_anthropic s) c ∧
    final (heard (mx_ProviderReasoningThinking y) Waiting [] (map framed cevs)).1 = ChatStreamTerminal.ends frames.
Proof.
  intros H. destruct (wp_ok _ _ _ _ _ _ _ _ _ (wpcm_stream _ frames _ _ _ _ _ (Joint_new x now y)) H) as (c & Hr & cevs & HQ).
  by exists c, cevs.
Qed.

(** the events the Chat machine builds are always ones the Messages machine accepts:
    whatever the upstream sends, the composed converter follows no missing pointer in
    either machine, the lifecycle validation between the machines never fails, but for
    the budget of the exchange, and the client can read every event it gets. *)
Theorem composed_lawful x now y frames :
  let '(r, evs, s) := composed_run x now y frames in
  (∀ e, r = Err e → ¬ grave e) ∧ ∃ c, reads evs client0 c.
Proof.
  destruct (composed_run x now y frames) as [[r evs] s] eqn:H.
  exact (wp_run _ _ _ _ _ _ _ _ _ (wpcm_stream _ frames _ _ _ _ _ (Joint_new x now y)) H).
Qed.

(** C20: the composition refines the two specifications: of a stream it has converted,
    the Chat machine on its own converts the same frames to events, the client stands
    where these events say (the stop reason included), having assembled the contents
    they announce, and it has reached the end of the message exactly when the frames
    end the stream. *)
Theorem composed_assembles x now y frames evs s :
  composed_run x now y frames = (Ok tt, evs, s) →
  ∃ cevs, ChatStream.stream frames (ChatStream.newChatResponsesStreamState x now) = (Ok tt, cevs, ca_chat s) ∧
    let '(p, l) := heard (mx_ProviderReasoningThinking y) Waiting [] (map framed cevs) in
    ∃ c, reads evs client0 c ∧ cl_phase c = p ∧ assembled p l (cl_blocks c) ∧ final p = ChatStreamTerminal.ends frames.
Proof.
  intros H. destruct (composed_ok _ _ _ _ _ _ H) as (c & cevs & Hr & Hc & [HF _] & Hf). exists cevs. split; [done|].
  destruct (heard _ Waiting [] (map framed cevs)) as [p l]. exists c. by destruct (Follows_client _ _ _ _ _ HF).
Qed.

(** C8: from end to end, the text blocks a Messages client holds of a Chat stream
    contain, in the order of the blocks, exactly the content of the chunks (with the
    provider's reasoning where the exchange maps it to text), and the blocks of refusals
    exactly their refusals: through both machines nothing is lost, repeated, invented
    or reordered. *)
Theorem client_holds_content x now y frames evs s :
  composed_run x now y frames = (Ok tt, evs, s) →
  ∃ c l, reads evs client0 c ∧ assembled (cl_phase c) l (cl_blocks c) ∧
    ∀ k, spoken (of_kind k) l = ChatStreamText.chunks_text x k frames.
Proof.
  intros H. destruct (composed_ok _ _ _ _ _ _ H) as (c & cevs & Hr & Hc & [HF Hap] & _).
  destruct (Follows_client _ _ _ _ _ HF) as [Hp Ha]. eexists c, _. split; [done|]. rewrite Hp. split; [exact Ha|]. intros k.
  destruct (ChatStreamOrder.stream_in_order _ _ _ _ _ Hc) as [g Hg].
  rewrite (spoken_heard _ k cevs _ _ None g Hap Hg I). by destruct (ChatStreamText.streams_stream k frames _ _ _ _ Hc eq_refl) as [-> _].
Qed.

(** Reasoning, a text, a call announced in two pieces, a text and the finish. *)
Definition sample_gateway : msg_exchange :=
  {| mx_policy := {| Allowed := {["usage_unknown"; "usage_cache_write_unknown"]} |}; mx_ProviderReasoningThinking := true; mx_responseID := "r"; mx_model := "m" |}.

Abbreviation composed_sample := (composed_run (ChatStream.sample_exchange true false) 0%Qc sample_gateway ChatStream.sample_frames).

Example composed_sample_events :
  let '(r, evs, _) := composed_sample in
  r = Ok tt ∧
  evs = [ MessageStart; ContentBlockStart 0 ThinkingBlock; ContentBlockDelta 0 (ThinkingD "hm");
          ContentBlockDelta 0 (SignatureD SyntheticThinkingSignature); ContentBlockStop 0;
          ContentBlockStart 1 TextBlock; ContentBlockDelta 1 (TextD "Hel"); ContentBlockDelta 1 (TextD "lo"); ContentBlockStop 1;
          ContentBlockStart 2 (ToolUseBlock "call_1" "f"); ContentBlockDelta 2 (InputJSOND "{}"); ContentBlockStop 2;
          ContentBlockStart 3 TextBlock; ContentBlockDelta 3 (TextD "!"); ContentBlockStop 3;
          MessageDelta "tool_use" (Some {| an_Input := 2; an_CacheCreation := 0; an_CacheRead := 1; an_Output := 4; an_Thinking := 0 |});
          MessageStop ].
Proof. vm_compute. by split. Qed.

Lemma composed_assembles_witness :
  let '(r, evs, s) := composed_sample in
  r = Ok tt ∧ ∃ c, reads evs client0 c ∧ final (cl_phase c) = true.
Proof.
  destruct composed_sample as [[r evs] s] eqn:H.
  assert (r = Ok tt) as -> by (apply (f_equal (λ r, r.1.1)) in H; vm_compute in H; congruence). split; [reflexivity|].
  destruct (composed_assembles (ChatStream.sample_exchange true false) 0%Qc sample_gateway ChatStream.sample_frames evs s H) as (cevs & _ & Ha). destruct (heard _ _ _ _) as [p l].
  destruct Ha as (c & Hr & Hp & _ & Hf). exists c. split; [exact Hr|]. rewrite Hp, Hf. reflexivity.
Defined.

Lemma client_holds_content_witness :
  let '(r, evs, s) := composed_sample in
  r = Ok tt ∧ ∃ c l, reads evs client0 c ∧ assembled (cl_phase c) l (cl_blocks c) ∧ spoken KText l = "Hello!".
Proof.
  destruct composed_sample as [[r evs] s] eqn:H.
  assert (r = Ok tt) as -> by (apply (f_equal (λ r, r.1.1)) in H; vm_compute in H; congruence). split; [reflexivity|].
  destruct (client_holds_content (ChatStream.sample_exchange true false) 0%Qc sample_gateway ChatStream.sample_frames evs s H) as (c & l & Hr & Ha & Hs).
  exists c, l. split; [exact Hr|]. split; [exact Ha|]. exact (Hs ChatStream.KText).
Defined.
