(* ===== verification/StreamReader.v ===== *)
(** * The converting reader ([internal/transcode/stream_reader.go])

    [convertingReader] adapts a [frameConverter] to an [io.Reader]: it reads one event
    of the upstream at a time, converts it, and hands out the bytes of the frames.  The
    upstream is the list of bytes still to come and what ends them, as in [Sse]. *)

From Stdlib Require Import ZArith Lia Bool List Ascii String.
From stdpp Require Import strings pretty list.
From S2P Require Import Prelude GoStd GoStr GoText Budget Sse Recorder.

Open Scope Z_scope.

(** ** Errors *)

(** The errors of a conversion, by what the classification looks at. *)
Inductive conversion_error :=
| SSEBound (line : bool) (bound : Z)
| UpstreamWire (text : str)
| StreamConversion (p : ExchangeProvenance) (text : str)
| OtherError (text : str).

(** What [Err] holds: the end of a converted stream, a failed read of the body, an error
    of the conversion, or [errStreamTruncated] with the text of its cause. *)
Inductive read_error :=
| EndOfStream
| BodyError (text : str)
| Failed (e : conversion_error)
| Truncated (cause : str).

#[export] Instance conversion_error_eq_dec : EqDecision conversion_error.
Proof. solve_decision. Defined.

#[export] Instance read_error_eq_dec : EqDecision read_error.
Proof. solve_decision. Defined.

(** [Error]. *)
Definition conversion_text (e : conversion_error) : str :=
  match e with
  | SSEBound line bound =>
      lit "SSE " ++ lit (if line then "line" else "frame") ++ lit " exceeds the maximum size of " ++ lit (pretty bound) ++ lit " bytes"
  | UpstreamWire text | StreamConversion _ text | OtherError text => text
  end.

Definition error_text (e : read_error) : str :=
  match e with
  | EndOfStream => lit "EOF"
  | BodyError text => text
  | Failed e => conversion_text e
  | Truncated cause => lit "upstream stream ended before a terminal condition: " ++ cause
  end.

Definition ellipsis : str := map ascii_of_nat [226; 128; 166]%nat.

(** The text of the error that is bounded by [truncateErrorText]. *)
Definition truncateErrorText (message : str) (max : Z) : str :=
  if Z.of_nat (length message) <=? max then message
  else if 3 <? max then take (Z.to_nat (max - 3)) message ++ ellipsis
  else take (Z.to_nat max) message.

Definition isUpstreamConversionError (e : read_error) : bool :=
  match e with
  | Failed (UpstreamWire _) => true
  | Failed (StreamConversion p _) =>
      match p with
      | ProvenanceUpstreamHTTP | ProvenanceUpstreamTransportError | ProvenanceUpstreamBodyError => true
      | _ => false
      end
  | _ => false
  end.

(** ** The converter *)

Record convertedBatch := { Events : list frameEvent; Terminal : bool }.

(** [frameConverter]; an error event is built from the text of the error, and may take a
    sequence number. *)
Class frameConverter (C : Type) := {
  Convert : SSEEvent → C → result conversion_error convertedBatch * C;
  FinalizeEOF : C → result conversion_error convertedBatch * C;
  ErrorEvent : str → C → option frameEvent * C;
}.

Definition is_error_frame (f : frameEvent) : bool := str_eqb (fe_Type f) (lit "error").

Section reader.
Context {C : Type} `{frameConverter C}.

(** ** State *)

Record convertingReader := {
  lineMax : Z;
  frameMax : Z;
  source : str;
  source_end : stream_end;
  source_error : str;
  conv : C;
  buf : str;
  stopAfterDrain : bool;
  err : option read_error;
  sawTerminal : bool;
  sawErrorEvent : bool;
  sawUpstreamErrorFrame : bool;
  upstreamBodyError : bool;
  generatedFrameMax : Z;
  generatedBatchMax : Z;
  generatedTotal : Z;
  errorMessageMax : Z;
}.

Definition eta_reader (r : convertingReader) : convertingReader :=
  {| lineMax := lineMax r; frameMax := frameMax r; source := source r; source_end := source_end r; source_error := source_error r;
     conv := conv r; buf := buf r; stopAfterDrain := stopAfterDrain r; err := err r; sawTerminal := sawTerminal r;
     sawErrorEvent := sawErrorEvent r; sawUpstreamErrorFrame := sawUpstreamErrorFrame r; upstreamBodyError := upstreamBodyError r;
     generatedFrameMax := generatedFrameMax r; generatedBatchMax := generatedBatchMax r; generatedTotal := generatedTotal r;
     errorMessageMax := errorMessageMax r |}.

Definition set_source (v : str) (r : convertingReader) : convertingReader := ltac:(set_field source v r eta_reader).
Definition set_conv (v : C) (r : convertingReader) : convertingReader := ltac:(set_field conv v r eta_reader).
Definition set_buf (v : str) (r : convertingReader) : convertingReader := ltac:(set_field buf v r eta_reader).
Definition set_stopAfterDrain (v : bool) (r : convertingReader) : convertingReader := ltac:(set_field stopAfterDrain v r eta_reader).
Definition set_err (v : option read_error) (r : convertingReader) : convertingReader := ltac:(set_field err v r eta_reader).
Definition set_sawTerminal (v : bool) (r : convertingReader) : convertingReader := ltac:(set_field sawTerminal v r eta_reader).
Definition set_sawErrorEvent (v : bool) (r : convertingReader) : convertingReader := ltac:(set_field sawErrorEvent v r eta_reader).
Definition set_sawUpstreamErrorFrame (v : bool) (r : convertingReader) : convertingReader := ltac:(set_field sawUpstreamErrorFrame v r eta_reader).
Definition set_upstreamBodyError (v : bool) (r : convertingReader) : convertingReader := ltac:(set_field upstreamBodyError v r eta_reader).
Definition set_generatedTotal (v : Z) (r : convertingReader) : convertingReader := ltac:(set_field generatedTotal v r eta_reader).

(** [newConvertingReaderWithLimits] over [NewSSEReaderWithLimits]. *)
Definition newConvertingReaderWithLimits (line frame : Z) (body : str) (fin : stream_end) (failure : str) (c : C)
    (generatedFrame generatedBatch errorMessage : Z) : convertingReader :=
  {| lineMax := or_default line maxSSELineBytes; frameMax := or_default frame maxSSEFrameBytes;
     source := body; source_end := fin; source_error := failure; conv := c; buf := []; stopAfterDrain := false; err := None;
     sawTerminal := false; sawErrorEvent := false; sawUpstreamErrorFrame := false; upstreamBodyError := false;
     generatedFrameMax := or_default generatedFrame DefaultGeneratedSSEFrameBytes;
     generatedBatchMax := or_default generatedBatch DefaultGeneratedSSEBatchBytes; generatedTotal := 0;
     errorMessageMax := or_default errorMessage DefaultErrorMessageBytes |}.

(** ** Operations *)

(** The error of the frame itself, if it cannot be written. *)
Definition appendErrorEvent (e : read_error) (r : convertingReader) : option read_error * convertingReader :=
  let text := if 0 <? errorMessageMax r then truncateErrorText (error_text e) (errorMessageMax r) else error_text e in
  let '(frame, c) := ErrorEvent text (conv r) in
  let r := set_conv c r in
  match frame with
  | None => (None, r)
  | Some f =>
      match writeFrameBytesBounded (buf r) f (generatedFrameMax r) with
      | Err bound => (Some (Failed (SSEBound false bound)), r)
      | Ok b =>
          let r := set_sawErrorEvent true (set_buf b r) in
          (None, if isUpstreamConversionError e then set_sawUpstreamErrorFrame true r else r)
      end
  end.

(** The error is stored with its event appended. *)
Definition fail (e : read_error) (r : convertingReader) : convertingReader :=
  let '(frameErr, r) := appendErrorEvent e r in
  set_err (Some (match frameErr with Some e' => e' | None => e end)) r.

(** The whole batch, or nothing. *)
Definition appendBatch (batch : convertedBatch) (r : convertingReader) : option read_error * convertingReader :=
  match write_all (Events batch) (generatedFrameMax r) [] with
  | Err bound => (Some (Failed (SSEBound false bound)), r)
  | Ok staged =>
      let size := Z.of_nat (length staged) in
      if generatedBatchMax r <? size then (Some (Failed (SSEBound false (generatedBatchMax r))), r)
      else if maxStreamGeneratedBytes <? add64 (generatedTotal r) size then (Some (Failed (SSEBound false maxStreamGeneratedBytes)), r)
      else
        let r := set_buf (buf r ++ staged) (set_generatedTotal (add64 (generatedTotal r) size) r) in
        let r := if existsb is_error_frame (Events batch) then set_sawUpstreamErrorFrame true (set_sawErrorEvent true r) else r in
        (None, if Terminal batch then set_sawTerminal true r else r)
  end.

(** What a batch does to the reader; whether the loop goes on with the end of the
    source. *)
Definition accept (batch : result read_error convertedBatch) (r : convertingReader) : bool * convertingReader :=
  match batch with
  | Err e => (false, fail e r)
  | Ok b =>
      match appendBatch b r with
      | (Some e, r) => (false, fail e r)
      | (None, r) => (true, if Terminal b then set_stopAfterDrain true r else r)
      end
  end.

Definition convert_event (e : SSEEvent) (r : convertingReader) : bool * convertingReader :=
  let '(b, c) := Convert e (conv r) in
  accept (match b with Ok b => Ok b | Err e => Err (Failed e) end) (set_conv c r).

Definition finalize (r : convertingReader) : convertingReader :=
  let '(b, c) := FinalizeEOF (conv r) in
  match accept (match b with Ok b => Ok b | Err e => Err (Truncated (conversion_text e)) end) (set_conv c r) with
  | (true, r) => set_stopAfterDrain true r
  | (false, r) => r
  end.

(** One round of the loop of [Read]: an event of the source. *)
Definition fill (r : convertingReader) : convertingReader :=
  match readSSEEventLimited (lineMax r) (frameMax r) (source_end r) (source r) with
  | None => r
  | Some (SSEEnd StreamError) => set_upstreamBodyError true (fail (BodyError (source_error r)) r)
  | Some (SSEBoundError line bound) => set_upstreamBodyError true (fail (Failed (SSEBound line bound)) r)
  | Some (SSENext e rest) => (convert_event e (set_source rest r)).2
  | Some (SSELast e) => let '(go, r) := convert_event e (set_source [] r) in if go then finalize r else r
  | Some (SSEEnd StreamEOF) => finalize (set_source [] r)
  end.

(** The loop of [Read], up to its end or bytes in the buffer. *)
Fixpoint refill (fuel : nat) (r : convertingReader) : option convertingReader :=
  match buf r with
  | _ :: _ => Some r
  | [] =>
      match err r with
      | Some _ => Some r
      | None =>
          if stopAfterDrain r then Some (set_err (Some EndOfStream) r)
          else match fuel with O => None | S fuel => refill fuel (fill r) end
      end
  end.

(** Each round takes a byte of the source, or ends it. *)
Definition Read (n : nat) (r : convertingReader) : option (result read_error str * convertingReader) :=
  match refill (S (length (source r))) r with
  | None => None
  | Some r =>
      match buf r, err r with
      | [], Some e => Some (Err e, r)
      | b, _ => Some (Ok (take n b), set_buf (drop n b) r)
      end
  end.
End reader.
