(* ===== verification/StreamReaderLaws.v ===== *)
(** * What the converting reader hands out

    However its bytes are read, the reader hands out the same ([settle] is the reader that
    nobody reads from), and that is the [conversion] of its source, a reference that
    knows no buffer: the batches the converter answers, held against the bounds, and what
    the client is told at the end ([closing]). *)

From Stdlib Require Import ZArith Lia Bool List Ascii String.
From stdpp Require Import strings list.
From S2P Require Import Prelude GoStd GoStr GoText Budget Sse Recorder StreamReader.

Open Scope Z_scope.

Section laws.
Context {C : Type} `{frameConverter C}.
Implicit Types r : convertingReader (C := C).

(** ** The reader that nobody reads from *)

(** The rounds until the reader has ended. *)
Fixpoint settle (fuel : nat) r : convertingReader :=
  match err r with
  | Some _ => r
  | None =>
      if stopAfterDrain r then set_err (Some EndOfStream) r
      else match fuel with O => r | S fuel => settle fuel (fill r) end
  end.

Definition settled r : convertingReader := settle (S (length (source r))) r.

Definition over r : bool := match err r with Some _ => true | None => stopAfterDrain r end.

(** ** What is in the buffer does not matter *)

Definition prepend (b : str) r : convertingReader := set_buf (b ++ buf r) r.

Lemma prepend_nil r : prepend [] r = r.
Proof. by destruct r. Qed.

Lemma writeFrame_prepend b0 b f max :
  writeFrameBytesBounded (b0 ++ b) f max =
  match writeFrameBytesBounded b f max with Ok out => Ok (b0 ++ out) | Err e => Err e end.
Proof. unfold writeFrameBytesBounded. destruct (_ <? _); [done|]. destruct (str_eqb _ _); by rewrite ?app_assoc. Qed.

Lemma appendErrorEvent_prepend b e r :
  appendErrorEvent e (prepend b r) = ((appendErrorEvent e r).1, prepend b (appendErrorEvent e r).2).
Proof.
  unfold appendErrorEvent. simpl. destruct (ErrorEvent _ (conv r)) as [[f|] c]; [|done]. rewrite writeFrame_prepend. simpl.
  destruct (writeFrameBytesBounded (buf r) f _); [|done]. by destruct (isUpstreamConversionError e).
Qed.

Lemma fail_prepend b e r : fail e (prepend b r) = prepend b (fail e r).
Proof. unfold fail. rewrite appendErrorEvent_prepend. by destruct (appendErrorEvent e r). Qed.

Lemma appendBatch_prepend b batch r :
  appendBatch batch (prepend b r) = ((appendBatch batch r).1, prepend b (appendBatch batch r).2).
Proof.
  unfold appendBatch. simpl. destruct (write_all _ _ _) as [staged|bound]; [|done].
  destruct (_ <? _); [done|]. destruct (_ <? _); [done|]. destruct (existsb _ _), (Terminal batch); unfold prepend, set_buf; simpl; by rewrite app_assoc.
Qed.

Lemma accept_prepend b batch r : accept batch (prepend b r) = ((accept batch r).1, prepend b (accept batch r).2).
Proof.
  unfold accept. destruct batch as [batch|e]; [|by rewrite fail_prepend]. rewrite appendBatch_prepend.
  destruct (appendBatch batch r) as [[e|] r1]; simpl; [by rewrite fail_prepend|]. by destruct (Terminal batch).
Qed.

Lemma convert_event_prepend b e r : convert_event e (prepend b r) = ((convert_event e r).1, prepend b (convert_event e r).2).
Proof. unfold convert_event. simpl. destruct (Convert e (conv r)) as [batch c]. apply (accept_prepend b _ (set_conv c r)). Qed.

Lemma finalize_prepend b r : finalize (prepend b r) = prepend b (finalize r).
Proof.
  unfold finalize. simpl. destruct (FinalizeEOF (conv r)) as [batch c]. rewrite (accept_prepend b _ (set_conv c r)).
  by destruct (accept _ (set_conv c r)) as [[] r1].
Qed.

Lemma fill_prepend b r : fill (prepend b r) = prepend b (fill r).
Proof.
  unfold fill. change (readSSEEventLimited (lineMax (prepend b r)) (frameMax (prepend b r)) (source_end (prepend b r)) (source (prepend b r)))
    with (readSSEEventLimited (lineMax r) (frameMax r) (source_end r) (source r)).
  destruct (readSSEEventLimited _ _ _ _) as [[e rest|e|[]|line bound]|]; [| | | | |done].
  - change (set_source rest (prepend b r)) with (prepend b (set_source rest r)). by rewrite convert_event_prepend.
  - change (set_source [] (prepend b r)) with (prepend b (set_source [] r)). rewrite convert_event_prepend.
    destruct (convert_event e (set_source [] r)) as [[] r1]; cbn [fst snd]; [apply finalize_prepend|done].
  - apply (finalize_prepend b (set_source [] r)).
  - change (source_error (prepend b r)) with (source_error r). by rewrite fail_prepend.
  - by rewrite fail_prepend.
Qed.

Lemma settle_prepend b fuel r : settle fuel (prepend b r) = prepend b (settle fuel r).
Proof.
  revert r. induction fuel as [|fuel IH]; intros r; simpl; destruct (err r), (stopAfterDrain r); try done. by rewrite fill_prepend, IH.
Qed.

(** ** Every round makes progress *)

Lemma fail_over e r : over (fail e r) = true.
Proof. unfold fail, over. by destruct (appendErrorEvent e r) as [[e'|] r1]. Qed.

Lemma accept_over batch r : (accept batch r).1 = false → over (accept batch r).2 = true.
Proof.
  unfold accept. destruct batch as [batch|e]; simpl; [|by rewrite fail_over].
  destruct (appendBatch batch r) as [[e|] r1]; simpl; [by rewrite fail_over|done].
Qed.

Lemma finalize_over r : over (finalize r) = true.
Proof.
  unfold finalize. destruct (FinalizeEOF (conv r)) as [batch c].
  match goal with |- context [accept ?x ?y] => pose proof (accept_over x y) as Ho; destruct (accept x y) as [[] r1] end; [|by apply Ho].
  unfold over. simpl. by destruct (err r1).
Qed.

Lemma fail_source e r : source (fail e r) = source r.
Proof.
  unfold fail, appendErrorEvent. destruct (ErrorEvent _ (conv r)) as [[f|] c]; [|done]. simpl.
  destruct (writeFrameBytesBounded _ _ _); [|done]. by destruct (isUpstreamConversionError e).
Qed.

Lemma accept_source batch r : source (accept batch r).2 = source r.
Proof.
  unfold accept. destruct batch as [batch|e]; simpl; [|by rewrite fail_source]. unfold appendBatch.
  destruct (write_all _ _ _) as [staged|bound]; [|simpl; by rewrite fail_source].
  destruct (_ <? _); [simpl; by rewrite fail_source|]. destruct (_ <? _); [simpl; by rewrite fail_source|].
  by destruct (existsb _ _), (Terminal batch).
Qed.

Lemma fill_progress r : over (fill r) = true ∨ (length (source (fill r)) < length (source r))%nat.
Proof.
  unfold fill, readSSEEventLimited.
  destruct (read_event_fuel (lineMax r) (frameMax r) (source_end r) (S (length (source r))) (S (length (source r))) [] [] (source r)) as [Hn _]; [lia..|].
  destruct (read_event _ _ _ _ _ _ _) as [[e rest|e|[]|line bound]|] eqn:Er; [| | | | |done].
  - right. apply read_event_shorter in Er. unfold convert_event. destruct (Convert e _) as [batch c]. by rewrite accept_source.
  - left. unfold convert_event. destruct (Convert e _) as [batch c].
    match goal with |- context [accept ?x ?y] => pose proof (accept_over x y) as Ho; destruct (accept x y) as [[] r1] end; [apply finalize_over|by apply Ho].
  - left. apply finalize_over.
  - left. apply (fail_over (BodyError (source_error r))).
  - left. apply (fail_over (Failed (SSEBound line bound))).
Qed.

Lemma over_settle fuel fuel' r : over r = true → settle fuel r = settle fuel' r.
Proof. unfold over. intros Ho. by destruct fuel, fuel'; simpl; destruct (err r), (stopAfterDrain r). Qed.

(** More rounds than bytes change nothing. *)
Lemma settle_fuel fuel fuel' r : (length (source r) < fuel)%nat → (length (source r) < fuel')%nat → settle fuel r = settle fuel' r.
Proof.
  revert fuel' r. induction fuel as [|fuel IH]; intros [|fuel'] r H1 H2; [lia..|]. simpl. destruct (err r), (stopAfterDrain r); try done.
  destruct (fill_progress r) as [Ho|Hl]; [by apply over_settle|apply IH; lia].
Qed.

Lemma settle_ends fuel r : (length (source r) < fuel)%nat → err (settle fuel r) ≠ None.
Proof.
  revert r. induction fuel as [|fuel IH]; intros r Hf; [lia|]. simpl. destruct (err r) eqn:He; [congruence|]. destruct (stopAfterDrain r); [done|].
  destruct (fill_progress r) as [Ho|Hl]; [|apply IH; lia].
  revert Ho. generalize (fill r). intros r1. unfold over. destruct fuel; simpl; destruct (err r1) eqn:E, (stopAfterDrain r1); try done; congruence.
Qed.

Lemma settled_fill r : over r = false → settled r = settled (fill r).
Proof.
  intros Ho. unfold settled at 1. simpl. unfold over in Ho. destruct (err r); [done|]. rewrite Ho.
  destruct (fill_progress r) as [Hov|Hl]; [by apply over_settle|]. apply settle_fuel; lia.
Qed.

Lemma settled_over r e : err r = Some e → settled r = r.
Proof. unfold settled. simpl. by intros ->. Qed.

(** ** Reading *)

Lemma refill_settled fuel r r1 : refill fuel r = Some r1 → settled r1 = settled r ∧ (buf r1 = [] → is_Some (err r1)).
Proof.
  revert r. induction fuel as [|fuel IH]; intros r; simpl; (destruct (buf r) eqn:Hb; [|by intros [= <-]; rewrite Hb]);
    (destruct (err r) eqn:He; [by intros [= <-]; rewrite He|]); (destruct (stopAfterDrain r) eqn:Hs; [intros [= <-]|]); try done.
  - split; [|done]. unfold settled. simpl. by rewrite He, Hs.
  - split; [|done]. unfold settled. simpl. by rewrite He, Hs.
  - intros Hr. destruct (IH _ Hr) as [-> ?]. split; [|done]. symmetry. apply settled_fill. unfold over. by rewrite He, Hs.
Qed.

Lemma refill_total fuel r : (length (source r) < fuel)%nat → is_Some (refill fuel r).
Proof.
  revert r. induction fuel as [|fuel IH]; intros r Hf; [lia|]. simpl. destruct (buf r); [|done]. destruct (err r); [done|].
  destruct (stopAfterDrain r); [done|]. destruct (fill_progress r) as [Ho|Hl]; [|apply IH; lia].
  revert Ho. generalize (fill r). intros r1. unfold over. destruct fuel; simpl; destruct (buf r1), (err r1), (stopAfterDrain r1); try done; by eexists.
Qed.

(** Reading with buffers of the given sizes, up to the first error. *)
Fixpoint drain (sizes : list nat) r : str * option read_error * convertingReader :=
  match sizes with
  | [] => ([], None, r)
  | n :: sizes =>
      match Read n r with
      | Some (Ok b, r) => let '(out, e, r) := drain sizes r in (b ++ out, e, r)
      | Some (Err e, r) => ([], Some e, r)
      | None => ([], None, r)
      end
  end.

Lemma settled_prepend b r : settled (prepend b r) = prepend b (settled r).
Proof. apply settle_prepend. Qed.

Lemma Read_spec n r :
  match Read n r with
  | Some (Ok b, r1) => settled r = prepend b (settled r1) ∧ ((0 < n)%nat → b ≠ [])
  | Some (Err e, r1) => settled r = r1 ∧ err r1 = Some e ∧ buf r1 = []
  | None => False
  end.
Proof.
  unfold Read. destruct (refill_total (S (length (source r))) r) as [r1 Hr]; [lia|]. rewrite Hr.
  destruct (refill_settled _ _ _ Hr) as [Hs He].
  assert (settled r = prepend (take n (buf r1)) (settled (set_buf (drop n (buf r1)) r1))) as Hp.
  { rewrite <- settled_prepend, <- Hs. f_equal. unfold prepend. simpl. rewrite take_drop. by destruct r1. }
  destruct (buf r1) as [|a b] eqn:Hb.
  - destruct (He eq_refl) as [e Hx]. rewrite Hx. split_and!; [|done|done]. rewrite <- Hs. by eapply settled_over.
  - assert (((0 < n)%nat → take n (a :: b) ≠ [])) by (destruct n; [lia|done]). by destruct (err r1).
Qed.

Lemma drain_settled sizes r out e r1 :
  drain sizes r = (out, e, r1) →
  settled r = prepend out (settled r1) ∧ (∀ x, e = Some x → settled r1 = r1 ∧ err r1 = Some x ∧ buf r1 = []).
Proof.
  revert r out. induction sizes as [|n sizes IH]; intros r out; simpl; [by intros [= <- <- <-]; rewrite prepend_nil|].
  pose proof (Read_spec n r) as Hn. destruct (Read n r) as [[[b|x] r2]|]; [| |done].
  - destruct (drain sizes r2) as [[out2 e2] r3] eqn:Ed. intros [= <- <- <-]. destruct (IH _ _ Ed) as [H1 H2]. split; [|done].
    destruct Hn as [-> _]. rewrite H1. unfold prepend. simpl. by rewrite app_assoc.
  - intros [= <- <- <-]. destruct Hn as (Hs & He & Hb). rewrite prepend_nil. assert (settled r2 = r2) as Hs2 by by eapply settled_over.
    split; [congruence|]. by intros ? [= <-].
Qed.

(** Reading more often than there are bytes, the end is seen. *)
Lemma drain_ends sizes r :
  Forall (λ n, 0 < n)%nat sizes → (length (buf (settled r)) < length sizes)%nat → is_Some (drain sizes r).1.2.
Proof.
  revert r. induction sizes as [|n sizes IH]; intros r Hf Hl; simpl in *; [lia|]. apply Forall_cons in Hf as [Hn Hf].
  pose proof (Read_spec n r) as Hs. destruct (Read n r) as [[[b|x] r2]|]; [|done|done].
  destruct Hs as [Hs Hb]. specialize (Hb Hn). rewrite Hs in Hl. simpl in Hl. rewrite length_app in Hl.
  assert (0 < length b)%nat by (destruct b; [done|simpl; lia]).
  specialize (IH r2 Hf ltac:(lia)). by destruct (drain sizes r2) as [[out e] r3].
Qed.

(** ** The conversion of a stream *)

Definition bytes_of (fs : list frameEvent) : str := concat (map frame_bytes fs).

Definition frames_of (bs : list convertedBatch) : list frameEvent := concat (map Events bs).

Definition some_terminal (bs : list convertedBatch) : bool := existsb Terminal bs.

Definition some_error (fs : list frameEvent) : bool := existsb is_error_frame fs.

(** What bounds the reader, and how its source ends. *)
Record stream_limits := {
  l_line : Z; l_frame : Z; l_end : stream_end; l_failure : str;
  l_generated : Z; l_batch : Z; l_message : Z;
}.

Definition reader_limits line frame fin failure generatedFrame generatedBatch errorMessage : stream_limits := {|
  l_line := or_default line maxSSELineBytes; l_frame := or_default frame maxSSEFrameBytes; l_end := fin; l_failure := failure;
  l_generated := or_default generatedFrame DefaultGeneratedSSEFrameBytes; l_batch := or_default generatedBatch DefaultGeneratedSSEBatchBytes;
  l_message := or_default errorMessage DefaultErrorMessageBytes |}.

Definition limits_of r : stream_limits := {|
  l_line := lineMax r; l_frame := frameMax r; l_end := source_end r; l_failure := source_error r;
  l_generated := generatedFrameMax r; l_batch := generatedBatchMax r; l_message := errorMessageMax r |}.

Section reference.
Variable L : stream_limits.

Definition frame_fits (f : frameEvent) : bool := Z.of_nat (length (fe_Data f)) + Z.of_nat (length (fe_Type f)) + 16 <=? l_generated L.

Definition batch_size (b : convertedBatch) : Z := Z.of_nat (length (bytes_of (Events b))).

(** The bound a batch breaks, after so many bytes. *)
Definition refusal (total : Z) (b : convertedBatch) : option Z :=
  if negb (forallb frame_fits (Events b)) then Some (l_generated L)
  else if l_batch L <? batch_size b then Some (l_batch L)
  else if maxStreamGeneratedBytes <? total + batch_size b then Some maxStreamGeneratedBytes
  else None.

(** How a conversion ends: with a terminal batch or the end of the source, or with an
    error, which may be the body's. *)
Inductive ending := Complete | Broken (body : bool) (e : read_error).

(** What the converter has answered, held against the bounds. *)
Definition checked (total : Z) (answer : result read_error convertedBatch) : result read_error convertedBatch :=
  match answer with
  | Ok b => match refusal total b with None => Ok b | Some bound => Err (Failed (SSEBound false bound)) end
  | Err e => Err e
  end.

Definition converted (e : SSEEvent) (total : Z) (c : C) : result read_error convertedBatch * C :=
  let '(answer, c) := Convert e c in (checked total (match answer with Ok b => Ok b | Err e => Err (Failed e) end), c).

Definition finalized (total : Z) (c : C) : result read_error convertedBatch * C :=
  let '(answer, c) := FinalizeEOF c in (checked total (match answer with Ok b => Ok b | Err e => Err (Truncated (conversion_text e)) end), c).

Definition last_batch (total : Z) (c : C) : list convertedBatch * option ending * C :=
  match finalized total c with
  | (Ok b, c) => ([b], Some Complete, c)
  | (Err e, c) => ([], Some (Broken false e), c)
  end.

(** The batches of a body, how the conversion ends, unless it has not ended after
    [fuel] events, and the converter it leaves. *)
Fixpoint conversion (fuel : nat) (src : str) (total : Z) (c : C) : list convertedBatch * option ending * C :=
  match fuel with
  | O => ([], None, c)
  | S fuel =>
      match readSSEEventLimited (l_line L) (l_frame L) (l_end L) src with
      | None => conversion fuel src total c
      | Some (SSEEnd StreamEOF) => last_batch total c
      | Some (SSEEnd StreamError) => ([], Some (Broken true (BodyError (l_failure L))), c)
      | Some (SSEBoundError line bound) => ([], Some (Broken true (Failed (SSEBound line bound))), c)
      | Some (SSENext e rest) =>
          match converted e total c with
          | (Err e, c) => ([], Some (Broken false e), c)
          | (Ok b, c) =>
              if Terminal b then ([b], Some Complete, c)
              else let '(bs, en, c) := conversion fuel rest (total + batch_size b) c in (b :: bs, en, c)
          end
      | Some (SSELast e) =>
          match converted e total c with
          | (Err e, c) => ([], Some (Broken false e), c)
          | (Ok b, c) => let '(bs, en, c) := last_batch (total + batch_size b) c in (b :: bs, en, c)
          end
      end
  end.

(** What the client is told at the end, if the event can be built and fits, and what the
    reader reports. *)
Definition closing (en : ending) (c : C) : option frameEvent * read_error :=
  match en with
  | Complete => (None, EndOfStream)
  | Broken _ e =>
      let text := if 0 <? l_message L then truncateErrorText (error_text e) (l_message L) else error_text e in
      match (ErrorEvent text c).1 with
      | None => (None, e)
      | Some f => if frame_fits f then (Some f, e) else (None, Failed (SSEBound false (l_generated L)))
      end
  end.

(** The event the client is told of an error, and the error, if there is one. *)
Definition told (en : option ending) (c : C) : option frameEvent := match en with Some en => (closing en c).1 | None => None end.

Definition of_body (en : option ending) : bool := match en with Some (Broken body _) => body | _ => false end.

Definition tells_upstream (en : option ending) (c : C) : bool :=
  match en with Some (Broken _ e) => bool_decide (is_Some (told en c)) && isUpstreamConversionError e | _ => false end.
End reference.

(** ** The reader converts *)

(** What [r'] has sent since [r], in so many batches and at its end. *)
Record Sent (bs : list convertedBatch) (en : option ending) (c : C) r r' : Prop := {
  se_bytes : buf r' = buf r ++ bytes_of (frames_of bs ++ option_list (told (limits_of r) en c));
  se_terminal : sawTerminal r' = sawTerminal r || some_terminal bs;
  se_error : sawErrorEvent r' = sawErrorEvent r || some_error (frames_of bs) || bool_decide (is_Some (told (limits_of r) en c));
  se_upstream : sawUpstreamErrorFrame r' = sawUpstreamErrorFrame r || some_error (frames_of bs) || tells_upstream (limits_of r) en c;
  se_body : upstreamBodyError r' = upstreamBodyError r || of_body en;
  se_limits : limits_of r' = limits_of r;
  se_total : generatedTotal r' = generatedTotal r + Z.of_nat (length (bytes_of (frames_of bs)));
  se_bound : generatedTotal r' <= maxStreamGeneratedBytes;
  se_end : match en with
    | None => err r' = None ∧ stopAfterDrain r' = stopAfterDrain r
    | Some Complete => err r' = None ∧ stopAfterDrain r' = true
    | Some en => err r' = Some (closing (limits_of r) en c).2
    end;
}.

(** A reader within its bounds that has met no error. *)
Record Fresh r : Prop := {
  fr_err : err r = None;
  fr_total : 0 <= generatedTotal r <= maxStreamGeneratedBytes;
  fr_batch : 0 <= generatedBatchMax r <= max_int64 - maxStreamGeneratedBytes;
}.

Lemma bytes_of_app l1 l2 : bytes_of (l1 ++ l2) = bytes_of l1 ++ bytes_of l2.
Proof. unfold bytes_of. by rewrite map_app, concat_app. Qed.

Lemma bytes_of_single f : bytes_of [f] = frame_bytes f.
Proof. unfold bytes_of. simpl. by rewrite app_nil_r. Qed.

Lemma frames_of_cons b bs : frames_of (b :: bs) = Events b ++ frames_of bs.
Proof. done. Qed.

Lemma frames_of_single b : frames_of [b] = Events b.
Proof. unfold frames_of. simpl. by rewrite app_nil_r. Qed.

Lemma some_error_app l1 l2 : some_error (l1 ++ l2) = some_error l1 || some_error l2.
Proof. apply existsb_app. Qed.

Lemma Fresh_source s r : Fresh r → Fresh (set_source s r).
Proof. by intros []. Qed.
Lemma Fresh_conv c r : Fresh r → Fresh (set_conv c r).
Proof. by intros []. Qed.

Lemma write_fits L f b :
  writeFrameBytesBounded b f (l_generated L) = if frame_fits L f then Ok (b ++ bytes_of [f]) else Err (l_generated L).
Proof.
  destruct (writeFrameBytesBounded b f (l_generated L)) as [out|bound] eqn:Ew.
  - pose proof (write_frame_ok _ _ _ _ Ew) as ->. rewrite bytes_of_single. unfold writeFrameBytesBounded in Ew. unfold frame_fits.
    rewrite Z.leb_antisym. by destruct (_ <? _).
  - unfold writeFrameBytesBounded in Ew. unfold frame_fits. rewrite Z.leb_antisym. destruct (_ <? _); [by injection Ew as <-|done].
Qed.

Lemma write_all_fits L fs b :
  write_all fs (l_generated L) b = if forallb (frame_fits L) fs then Ok (b ++ bytes_of fs) else Err (l_generated L).
Proof.
  revert b. induction fs as [|f fs IH]; intros b; [by rewrite app_nil_r|]. cbn [write_all forallb]. rewrite write_fits.
  destruct (frame_fits L f); [|done]. cbn [result_bind andb]. rewrite IH. destruct (forallb _ fs); [|done].
  by rewrite <- app_assoc, <- bytes_of_app.
Qed.

(** A batch that is not refused is sent. *)
Lemma appendBatch_spec b c r : Fresh r →
  match refusal (limits_of r) (generatedTotal r) b with
  | Some bound => appendBatch b r = (Some (Failed (SSEBound false bound)), r)
  | None => ∃ r1, appendBatch b r = (None, r1) ∧ Sent [b] None c r r1 ∧ Fresh r1 ∧ conv r1 = conv r ∧ source r1 = source r
  end.
Proof.
  intros [He Ht Hm]. unfold refusal, appendBatch. change (generatedFrameMax r) with (l_generated (limits_of r)).
  rewrite write_all_fits. destruct (forallb _ _); [|done]. cbn [negb]. rewrite app_nil_l. fold (batch_size b). change (l_batch (limits_of r)) with (generatedBatchMax r).
  destruct (Z.ltb_spec (generatedBatchMax r) (batch_size b)) as [|Hb]; [done|].
  assert (0 <= batch_size b) by (unfold batch_size; lia).
  assert (add64 (generatedTotal r) (batch_size b) = generatedTotal r + batch_size b) as ->.
  { unfold add64. apply wrap64_id. unfold in_int64, min_int64. lia. }
  destruct (Z.ltb_spec maxStreamGeneratedBytes (generatedTotal r + batch_size b)) as [|Hx]; [done|]. eexists. split; [reflexivity|].
  destruct (existsb is_error_frame (Events b)) eqn:Hee, (Terminal b) eqn:Hbt;
    (split; [|split; [by constructor; try done; simpl; lia|done]];
     constructor; simpl; try done; rewrite ?app_nil_r, ?frames_of_single, ?orb_false_r; unfold some_error; rewrite ?Hbt, ?Hee, ?orb_true_r, ?orb_false_r; try done).
Qed.

(** The end of a conversion that broke. *)
Lemma fail_spec body e r : Fresh r → Sent [] (Some (Broken body e)) (conv r) r (if body then set_upstreamBodyError true (fail e r) else fail e r).
Proof.
  intros [He Ht Hm].
  enough (Sent [] (Some (Broken false e)) (conv r) r (fail e r) ∧ upstreamBodyError (fail e r) = upstreamBodyError r) as [[] Hub].
  { destruct body; constructor; simpl in *; try done; by rewrite orb_true_r. }
  unfold fail, appendErrorEvent.
  destruct (ErrorEvent (if 0 <? errorMessageMax r then truncateErrorText (error_text e) (errorMessageMax r) else error_text e) (conv r)) as [[f|] c'] eqn:Ee.
  - simpl. change (generatedFrameMax r) with (l_generated (limits_of r)). rewrite write_fits. destruct (frame_fits (limits_of r) f) eqn:Hfit.
    + destruct (isUpstreamConversionError e) eqn:Hu;
        (split; [|done]; constructor; unfold tells_upstream, told; simpl; rewrite ?Ee; simpl; rewrite ?Hfit; simpl; rewrite ?Hu, ?orb_false_r, ?orb_true_r, ?Z.add_0_r; try done; lia).
    + split; [|done]. constructor; unfold tells_upstream, told; simpl; rewrite ?Ee; simpl; rewrite ?Hfit; simpl; rewrite ?app_nil_r, ?orb_false_r, ?Z.add_0_r; try done; lia.
  - split; [|done]. constructor; unfold tells_upstream, told; simpl; rewrite ?Ee; simpl; rewrite ?app_nil_r, ?orb_false_r, ?Z.add_0_r; try done; lia.
Qed.

(** Changes the relation does not look at. *)
Lemma Sent_source bs en c s r r' : Sent bs en c (set_source s r) r' → Sent bs en c r r'.
Proof. by intros []. Qed.
Lemma Sent_conv bs en c c0 r r' : Sent bs en c (set_conv c0 r) r' → Sent bs en c r r'.
Proof. by intros []. Qed.
Lemma Sent_stopped bs en c v r r' : Sent bs (Some en) c (set_stopAfterDrain v r) r' → Sent bs (Some en) c r r'.
Proof. by intros []. Qed.

(** A batch, then what follows. *)
Lemma Sent_cons b bs en c c0 r r1 r' : Sent [b] None c0 r r1 → Sent bs en c r1 r' → Sent (b :: bs) en c r r'.
Proof.
  intros [B1 T1 E1 U1 O1 L1 S1 N1 D1] [B2 T2 E2 U2 O2 L2 S2 N2 D2]. rewrite L1 in *. simpl in *. rewrite frames_of_single, ?app_nil_r, ?orb_false_r in *.
  constructor; try done.
  - rewrite B2, B1, frames_of_cons, <- app_assoc, <- bytes_of_app. by rewrite <- app_assoc.
  - rewrite T2, T1. simpl. by rewrite orb_assoc.
  - rewrite E2, E1, frames_of_cons, some_error_app. by rewrite !orb_assoc.
  - rewrite U2, U1, frames_of_cons, some_error_app. by rewrite !orb_assoc.
  - by rewrite O2, O1.
  - rewrite S2, S1, frames_of_cons, bytes_of_app, length_app. lia.
  - destruct en; [done|]. destruct D1 as [? <-]. done.
Qed.

(** What the converter answered is sent, or ends the stream. *)
Lemma accept_spec answer c r : Fresh r →
  match checked (limits_of r) (generatedTotal r) answer with
  | Ok b => ∃ r1, accept answer (set_conv c r) = (true, if Terminal b then set_stopAfterDrain true r1 else r1) ∧
      Sent [b] None c r r1 ∧ Fresh r1 ∧ conv r1 = c ∧ source r1 = source r
  | Err e => ∃ r1, accept answer (set_conv c r) = (false, r1) ∧ Sent [] (Some (Broken false e)) c r r1
  end.
Proof.
  intros HF. pose proof (Fresh_conv c r HF) as HF'. unfold checked, accept. destruct answer as [b|e].
  - pose proof (appendBatch_spec b c (set_conv c r) HF') as Ha. change (limits_of (set_conv c r)) with (limits_of r) in Ha. simpl in Ha.
    destruct (refusal _ _ b) as [bound|].
    + rewrite Ha. eexists. split; [reflexivity|]. apply (Sent_conv _ _ _ c), (fail_spec false _ (set_conv c r) HF').
    + destruct Ha as (r1 & -> & HS & HF1 & Hc & Hsrc). exists r1. split; [by destruct (Terminal b)|]. split_and!; try done. by eapply Sent_conv.
  - eexists. split; [reflexivity|]. apply (Sent_conv _ _ _ c), (fail_spec false _ (set_conv c r) HF').
Qed.

Lemma Sent_stop b c c' r r1 : Sent [b] None c r r1 → Sent [b] (Some Complete) c' r (set_stopAfterDrain true r1).
Proof. intros [B1 T1 E1 U1 O1 L1 S1 N1 [D1 D2]]. by constructor; simpl in *; rewrite ?orb_false_r, ?app_nil_r in *. Qed.

Lemma finalize_spec r : Fresh r →
  let '(bs, en, c) := last_batch (limits_of r) (generatedTotal r) (conv r) in Sent bs en c r (finalize r).
Proof.
  intros HF. unfold last_batch, finalized, finalize. destruct (FinalizeEOF (conv r)) as [answer c].
  match goal with |- context [checked _ _ ?x] => pose proof (accept_spec x c r HF) as Ha; destruct (checked _ _ x) as [b|e] end.
  - destruct Ha as (r1 & -> & HS & _). apply (Sent_stop _ _ c) in HS. by destruct (Terminal b).
  - by destruct Ha as (r1 & -> & HS).
Qed.

(** [r'] is [r] after so many events. *)
Fixpoint rounds (k : nat) r : convertingReader :=
  match k with O => r | S k => if over r then r else rounds k (fill r) end.

Lemma rounds_over k r : over r = true → rounds k r = r.
Proof. intros Ho. destruct k; simpl; by rewrite ?Ho. Qed.

Lemma Sent_over bs en c r r' : Sent bs (Some en) c r r' → over r' = true.
Proof. intros HS. pose proof (se_end _ _ _ _ _ HS) as Hx. unfold over. destruct en; [by destruct Hx as [-> ->]|by rewrite Hx]. Qed.

Lemma Sent_nothing r c : Fresh r → Sent [] None c r r.
Proof. intros []. constructor; simpl; rewrite ?app_nil_r, ?orb_false_r, ?Z.add_0_r; try done; lia. Qed.

(** The state of the reader is that of the conversion, event by event. *)
Lemma rounds_conversion k r : Fresh r → stopAfterDrain r = false →
  let '(bs, en, c) := conversion (limits_of r) k (source r) (generatedTotal r) (conv r) in Sent bs en c r (rounds k r).
Proof.
  revert r. induction k as [|k IH]; intros r HF Hstop; [by apply Sent_nothing|]. cbn [conversion rounds].
  assert (over r = false) as ->. { unfold over. by rewrite (fr_err _ HF). }
  unfold fill. change (readSSEEventLimited (lineMax r) (frameMax r) (source_end r) (source r))
    with (readSSEEventLimited (l_line (limits_of r)) (l_frame (limits_of r)) (l_end (limits_of r)) (source r)).
  destruct (readSSEEventLimited _ _ _ _) as [[e rest|e|[]|line bound]|]; [| | | | |by apply IH].
  - unfold convert_event, converted. simpl. destruct (Convert e (conv r)) as [answer c].
    match goal with |- context [checked _ _ ?x] => pose proof (accept_spec x c _ (Fresh_source rest r HF)) as Ha;
      change (limits_of (set_source rest r)) with (limits_of r) in Ha; simpl in Ha; destruct (checked _ _ x) as [b|x1] end.
    + destruct Ha as (r1 & -> & HS & HF1 & Hc & Hsrc). cbn [snd]. apply Sent_source in HS. destruct (Terminal b) eqn:Ht.
      * rewrite rounds_over by (unfold over; simpl; by rewrite (fr_err _ HF1)). by eapply Sent_stop.
      * specialize (IH r1 HF1 ltac:(rewrite (proj2 (se_end _ _ _ _ _ HS)); done)). rewrite (se_limits _ _ _ _ _ HS), (se_total _ _ _ _ _ HS), Hc, Hsrc, frames_of_single in IH. fold (batch_size b) in IH. simpl in IH.
        destruct (conversion _ _ _ _ _) as [[bs en] c']. by eapply Sent_cons.
    + destruct Ha as (r1 & -> & HS). cbn [snd]. apply Sent_source in HS. rewrite rounds_over; [done|by eapply Sent_over].
  - unfold convert_event, converted. simpl. destruct (Convert e (conv r)) as [answer c].
    match goal with |- context [checked _ _ ?x] => pose proof (accept_spec x c _ (Fresh_source [] r HF)) as Ha;
      change (limits_of (set_source [] r)) with (limits_of r) in Ha; simpl in Ha; destruct (checked _ _ x) as [b|x1] end.
    + destruct Ha as (r1 & -> & HS & HF1 & Hc & Hsrc). apply Sent_source in HS.
      pose proof (finalize_spec (if Terminal b then set_stopAfterDrain true r1 else r1) ltac:(destruct (Terminal b); by destruct HF1)) as Hf.
      assert (limits_of (if Terminal b then set_stopAfterDrain true r1 else r1) = limits_of r1) as Hx1 by by destruct (Terminal b).
      assert (generatedTotal (if Terminal b then set_stopAfterDrain true r1 else r1) = generatedTotal r1) as Hx2 by by destruct (Terminal b).
      assert (conv (if Terminal b then set_stopAfterDrain true r1 else r1) = conv r1) as Hx3 by by destruct (Terminal b).
      rewrite Hx1, Hx2, Hx3, (se_limits _ _ _ _ _ HS), (se_total _ _ _ _ _ HS), Hc, frames_of_single in Hf. fold (batch_size b) in Hf.
      destruct (last_batch _ _ _) as [[bs en] c'] eqn:Hl. assert (is_Some en) as [en' ->]. { unfold last_batch in Hl. repeat case_match; simplify_eq; eauto. }
      rewrite rounds_over by (by eapply Sent_over). eapply Sent_cons; [done|]. destruct (Terminal b); [by eapply Sent_stopped|done].
    + destruct Ha as (r1 & -> & HS). apply Sent_source in HS. rewrite rounds_over; [done|by eapply Sent_over].
  - pose proof (finalize_spec _ (Fresh_source [] r HF)) as Hf. change (limits_of (set_source [] r)) with (limits_of r) in Hf. simpl in Hf.
    destruct (last_batch _ _ _) as [[bs en] c'] eqn:Hl. assert (is_Some en) as [en' ->]. { unfold last_batch in Hl. repeat case_match; simplify_eq; eauto. }
    apply Sent_source in Hf. rewrite rounds_over; [done|by eapply Sent_over].
  - pose proof (fail_spec true (BodyError (source_error r)) r HF) as HS. rewrite rounds_over; [done|by eapply Sent_over].
  - pose proof (fail_spec true (Failed (SSEBound line bound)) r HF) as HS. rewrite rounds_over; [done|by eapply Sent_over].
Qed.

(** The reader of [settle], which has seen its end. *)
Definition ended r : convertingReader :=
  match err r with None => if stopAfterDrain r then set_err (Some EndOfStream) r else r | Some _ => r end.

Lemma settle_rounds k r : settle k r = ended (rounds k r).
Proof.
  revert r. induction k as [|k IH]; intros r; simpl; unfold ended, over; destruct (err r) eqn:He; try by rewrite ?He.
  destruct (stopAfterDrain r) eqn:Hs; [by rewrite He, Hs|]. apply IH.
Qed.

Lemma conversion_ends r : Fresh r → stopAfterDrain r = false →
  is_Some (conversion (limits_of r) (S (length (source r))) (source r) (generatedTotal r) (conv r)).1.2.
Proof.
  intros HF Hs. pose proof (rounds_conversion (S (length (source r))) r HF Hs) as HS.
  destruct (conversion _ _ _ _ _) as [[bs [en|]] c]; [done|]. pose proof (se_end _ _ _ _ _ HS) as [He Hst].
  destruct (settle_ends (S (length (source r))) r ltac:(lia)). rewrite settle_rounds. unfold ended. by rewrite He, Hst, Hs, He.
Qed.

Lemma Fresh_new line frame body fin failure c generatedFrame generatedBatch errorMessage :
  0 <= or_default generatedBatch DefaultGeneratedSSEBatchBytes <= max_int64 - maxStreamGeneratedBytes →
  Fresh (newConvertingReaderWithLimits line frame body fin failure c generatedFrame generatedBatch errorMessage).
Proof. by constructor. Qed.

(** What the reader has sent when it has ended. *)
Record Finished L (bs : list convertedBatch) (en : ending) (c : C) r : Prop := {
  fi_bytes : buf r = bytes_of (frames_of bs ++ option_list (closing L en c).1);
  fi_end : err r = Some (closing L en c).2;
  fi_terminal : sawTerminal r = some_terminal bs;
  fi_error : sawErrorEvent r = some_error (frames_of bs) || bool_decide (is_Some (closing L en c).1);
  fi_upstream : sawUpstreamErrorFrame r = some_error (frames_of bs) || tells_upstream L (Some en) c;
  fi_body : upstreamBodyError r = of_body (Some en);
  fi_bound : Z.of_nat (length (bytes_of (frames_of bs))) <= maxStreamGeneratedBytes;
}.

Lemma settled_finished line frame body fin failure c generatedFrame generatedBatch errorMessage :
  0 <= or_default generatedBatch DefaultGeneratedSSEBatchBytes <= max_int64 - maxStreamGeneratedBytes →
  let L := reader_limits line frame fin failure generatedFrame generatedBatch errorMessage in
  let r := settled (newConvertingReaderWithLimits line frame body fin failure c generatedFrame generatedBatch errorMessage) in
  ∃ bs en c', conversion L (S (length body)) body 0 c = (bs, Some en, c') ∧ Finished L bs en c' r.
Proof.
  intros Hm L r. pose proof (Fresh_new line frame body fin failure c generatedFrame generatedBatch errorMessage Hm) as HF.
  set (r0 := newConvertingReaderWithLimits _ _ _ _ _ _ _ _ _) in *.
  pose proof (rounds_conversion (S (length body)) r0 HF eq_refl) as HS. pose proof (conversion_ends r0 HF eq_refl) as Hen.
  change (limits_of r0) with L in HS, Hen. change (source r0) with body in HS, Hen. change (generatedTotal r0) with 0 in HS, Hen. change (conv r0) with c in HS, Hen.
  destruct (conversion _ _ _ _ _) as [[bs en] c']. destruct Hen as [en' Hx]. cbn [fst snd] in Hx. subst en.
  exists bs, en', c'. split; [done|]. unfold r, settled. rewrite settle_rounds. change (source r0) with body. revert HS. generalize (rounds (S (length body)) r0). intros r1 HS.
  destruct HS as [Hb Ht He Hu Ho Hl Htot Hbd Hend]. change (limits_of r0) with L in *. simpl in Hb, Ht, He, Hu, Ho, Htot.
  unfold ended. destruct en' as [|body' e]; [destruct Hend as [-> ->]|rewrite Hend]; constructor; simpl; try done; try lia.
Qed.

(** ** What a conversion consists of *)

(** The batches before the last two have no terminal: after a terminal one only that of
    the end of the source may come. *)
Definition ends_early (bs : list convertedBatch) : Prop := ∃ pre rest, bs = pre ++ rest ∧ some_terminal pre = false ∧ (length rest <= 2)%nat.

Lemma ends_early_short bs : (length bs <= 2)%nat → ends_early bs.
Proof. intros Hl. by exists [], bs. Qed.

Lemma ends_early_cons b bs : Terminal b = false → ends_early bs → ends_early (b :: bs).
Proof. intros Hb (pre & rest & -> & Hp & Hr). exists (b :: pre), rest. split_and!; [done| |done]. simpl. by rewrite Hb, Hp. Qed.

(** A batch within its bounds. *)
Definition within L (b : convertedBatch) : Prop := Forall (λ f, frame_fits L f = true) (Events b) ∧ batch_size b <= l_batch L.

Lemma checked_within L total answer b : checked L total answer = Ok b → answer = Ok b ∧ within L b.
Proof.
  unfold checked, refusal. destruct answer as [b'|]; [|done]. destruct (forallb (frame_fits L) (Events b')) eqn:Hf; [|done]. cbn [negb].
  destruct (Z.ltb_spec (l_batch L) (batch_size b')); [done|]. destruct (_ <? _); [done|]. intros [= <-]. split; [done|]. split; [|done].
  apply Forall_forall. intros f Hin. rewrite forallb_forall in Hf. by apply Hf, list_elem_of_In.
Qed.

Lemma last_batch_within L total c : let '(bs, en, _) := last_batch L total c in Forall (within L) bs ∧ (length bs <= 1)%nat.
Proof.
  unfold last_batch, finalized. destruct (FinalizeEOF c) as [answer c']. destruct (checked _ _ _) as [b|e] eqn:Hc; [|simpl; auto].
  apply checked_within in Hc as [_ Hw]. simpl. auto.
Qed.

Lemma conversion_within L k src total c : let '(bs, en, _) := conversion L k src total c in Forall (within L) bs ∧ ends_early bs.
Proof.
  assert (ends_early []) as Hnil by by apply ends_early_short; simpl; lia.
  revert src total c. induction k as [|k IH]; intros src total c; cbn [conversion]; [by split|].
  destruct (readSSEEventLimited _ _ _ _) as [[e rest|e|[]|line bound]|]; try by split.
  - unfold converted. destruct (Convert e c) as [answer c1]. destruct (checked _ _ _) as [b|x] eqn:Hc; [|by split].
    apply checked_within in Hc as [_ Hw]. destruct (Terminal b) eqn:Ht; [split; [auto|by apply ends_early_short; simpl; lia]|].
    specialize (IH rest (total + batch_size b) c1). destruct (conversion _ _ _ _ _) as [[bs en] c2]. destruct IH. split; [auto|by apply ends_early_cons].
  - unfold converted. destruct (Convert e c) as [answer c1]. destruct (checked _ _ _) as [b|x] eqn:Hc; [|by split].
    apply checked_within in Hc as [_ Hw]. pose proof (last_batch_within L (total + batch_size b) c1) as Hl.
    destruct (last_batch _ _ _) as [[bs en] c2]. destruct Hl. split; [auto|]. apply ends_early_short. simpl. lia.
  - pose proof (last_batch_within L total c) as Hl. destruct (last_batch _ _ _) as [[bs en] c2]. destruct Hl. split; [done|]. apply ends_early_short. lia.
  - apply IH.
Qed.

(** An error is never the end of the stream. *)
Definition real_end (en : option ending) : Prop := match en with Some (Broken _ e) => e ≠ EndOfStream | _ => True end.

Lemma checked_real L total answer e : checked L total answer = Err e → e ≠ EndOfStream ∨ answer = Err e.
Proof. unfold checked. destruct answer as [b|]; [|by intros [= ->]; right]. destruct (refusal _ _ _); [|done]. intros [= <-]. by left. Qed.

Lemma last_batch_real L total c : real_end (last_batch L total c).1.2.
Proof.
  unfold last_batch, finalized. destruct (FinalizeEOF c) as [answer c']. destruct (checked _ _ _) as [b|e] eqn:Hc; [done|].
  apply checked_real in Hc as [Hc|Hc]; [done|]. destruct answer; [done|]. by injection Hc as <-.
Qed.

Lemma conversion_real L k src total c : real_end (conversion L k src total c).1.2.
Proof.
  assert (∀ e total c x c', converted L e total c = (Err x, c') → x ≠ EndOfStream) as Hconv.
  { intros e t c0 x c'. unfold converted. destruct (Convert e c0) as [answer c1]. intros [= [Hc|Hc]%checked_real _]; [done|]. destruct answer; [done|]. by injection Hc as <-. }
  revert src total c. induction k as [|k IH]; intros src total c; cbn [conversion]; [done|].
  destruct (readSSEEventLimited _ _ _ _) as [[e rest|e|[]|line bound]|]; try apply last_batch_real; try apply IH; try (simpl; congruence).
  - destruct (converted L e total c) as [[b|x] c1] eqn:Hc; [|by eapply Hconv]. destruct (Terminal b); [done|].
    specialize (IH rest (total + batch_size b) c1). by destruct (conversion _ _ _ _ _) as [[bs en] c2].
  - destruct (converted L e total c) as [[b|x] c1] eqn:Hc; [|by eapply Hconv].
    pose proof (last_batch_real L (total + batch_size b) c1) as Hl. by destruct (last_batch _ _ _) as [[bs en] c2].
Qed.

Lemma closing_real L en c : real_end (Some en) → (closing L en c).2 = EndOfStream → en = Complete.
Proof. destruct en as [|b e]; [done|]. simpl. intros Hr. destruct (ErrorEvent _ c).1; [|done]. by destruct (frame_fits L _). Qed.

(** ** How far a reader has come *)

(** [r'] is [r] after so many events, and has perhaps seen its end. *)
Definition Reached (k : nat) r r' : Prop := r' = rounds k r ∨ r' = ended (rounds k r).

Lemma over_prepend b r : over (prepend b r) = over r.
Proof. done. Qed.

Lemma rounds_prepend b k r : rounds k (prepend b r) = prepend b (rounds k r).
Proof. revert r. induction k as [|k IH]; intros r; [done|]. simpl. rewrite over_prepend. destruct (over r); [done|]. by rewrite fill_prepend, IH. Qed.

Lemma ended_prepend b r : ended (prepend b r) = prepend b (ended r).
Proof. unfold ended. simpl. destruct (err r); [done|]. by destruct (stopAfterDrain r). Qed.

Lemma Reached_prepend b k r r' : Reached k r r' → Reached k (prepend b r) (prepend b r').
Proof. unfold Reached. rewrite rounds_prepend, ended_prepend. by intros [-> | ->]; [left|right]. Qed.

Lemma rounds_rounds j k r : rounds j (rounds k r) = rounds (k + j) r.
Proof.
  revert r. induction k as [|k IH]; intros r; [done|]. cbn [Nat.add]. simpl. destruct (over r) eqn:Ho; [by apply rounds_over|apply IH].
Qed.

Lemma ended_over r : ended r = r ∨ over (ended r) = true ∧ ended (ended r) = ended r ∧ over r = true.
Proof. unfold ended, over. destruct (err r) eqn:He; [by left|]. destruct (stopAfterDrain r) eqn:Hs; [|by left]. right. by rewrite ?He, ?Hs. Qed.

Lemma Reached_trans j k r r1 r2 : Reached k r r1 → Reached j r1 r2 → ∃ n, Reached n r r2.
Proof.
  unfold Reached. intros H1 H2. destruct H1 as [-> | ->].
  - exists (k + j)%nat. by rewrite rounds_rounds in H2.
  - destruct (ended_over (rounds k r)) as [Hx | (Ho & Hi & _)]; [rewrite Hx in H2; exists (k + j)%nat; by rewrite rounds_rounds in H2|].
    rewrite rounds_over in H2 by done. rewrite Hi in H2. exists k. right. by destruct H2.
Qed.

Lemma refill_reached fuel r r1 : refill fuel r = Some r1 → ∃ k, Reached k r r1.
Proof.
  revert r. induction fuel as [|fuel IH]; intros r; simpl; (destruct (buf r) eqn:Hb; [|intros [= <-]; by exists 0%nat; left]);
    (destruct (err r) eqn:He; [intros [= <-]; by exists 0%nat; left|]);
    (destruct (stopAfterDrain r) eqn:Hs; [intros [= <-]; exists 0%nat; right; unfold ended; simpl; by rewrite He, Hs|]); [done|].
  intros [k Hk]%IH. exists (S k). unfold Reached in *. simpl. unfold over. by rewrite He, Hs.
Qed.

(** What has been read, and what is left, are those of so many events. *)
Lemma drain_reached sizes r out e r1 : drain sizes r = (out, e, r1) → ∃ k, Reached k r (prepend out r1).
Proof.
  revert r out e. induction sizes as [|n sizes IH]; intros r out e; simpl; [intros [= <- <- <-]; exists 0%nat; left; by rewrite prepend_nil|].
  unfold Read. destruct (refill _ r) as [r2|] eqn:Hr; [|intros [= <- <- <-]; exists 0%nat; left; by rewrite prepend_nil].
  apply refill_reached in Hr as [k Hk].
  assert (∀ x : convertingReader, x = set_buf (drop n (buf r2)) r2 → ∀ out' e', drain sizes x = (out', e', r1) →
    ∃ k, Reached k r (prepend (take n (buf r2) ++ out') r1)) as Hgo.
  { intros x -> out' e' Hd. destruct (IH _ _ _ Hd) as [j Hj]. apply (Reached_prepend (take n (buf r2))) in Hj.
    assert (prepend (take n (buf r2)) (set_buf (drop n (buf r2)) r2) = r2) as Hx by (unfold prepend; simpl; rewrite take_drop; by destruct r2).
    rewrite Hx in Hj. unfold prepend in *. simpl in *. rewrite app_assoc in Hj. by eapply Reached_trans. }
  destruct (buf r2) as [|a b] eqn:Hb.
  - destruct (err r2) eqn:He.
    + intros [= <- <- <-]. exists k. by rewrite prepend_nil.
    + destruct (drain sizes _) as [[out2 e2] r3] eqn:Ed. intros [= <- <- <-]. by eapply Hgo.
  - destruct (err r2), (drain sizes _) as [[out2 e2] r3] eqn:Ed; intros [= <- <- <-]; by eapply Hgo.
Qed.

(** ** Properties *)

(** how the stream is read does not matter: whatever buffers it is read with, what
    has been read is the beginning of what the reader hands out on its own, all of it
    and the same error once an error is seen; and reading more often than there are
    bytes, with buffers that are not empty, the end is seen. *)
Theorem any_reads_agree sizes r :
  let '(out, e, r1) := drain sizes r in
  (∃ rest, buf (settled r) = out ++ rest ∧ (e ≠ None → rest = [] ∧ e = err (settled r))) ∧
  (Forall (λ n, 0 < n)%nat sizes → (length (buf (settled r)) < length sizes)%nat → is_Some e).
Proof.
  pose proof (drain_ends sizes r) as He. destruct (drain sizes r) as [[out e] r1] eqn:Hd. split; [|exact He].
  destruct (drain_settled _ _ _ _ _ Hd) as [Hs Hx]. exists (buf (settled r1)). rewrite Hs. split; [done|].
  destruct e as [x|]; [|done]. intros _. destruct (Hx x eq_refl) as (H1 & H2 & H3). rewrite H1. simpl. by rewrite H2, H3.
Qed.

(** C23: a translated stream is the conversion of its source, event by event: the batches
    the converter answers are sent whole and in order, up to a terminal one, an answer
    that is an error or breaks a bound, or the end of the source, whose batch is the last;
    each is within its bounds and all within that of the exchange.  The stream ends
    without an error, or with the error event the converter builds of what went wrong,
    nothing after it and nothing of a refused batch; only one that cannot be built or
    does not fit is left out.  What the reader has seen of it is recorded. *)
Theorem handed_out_whole line frame body fin failure c generatedFrame generatedBatch errorMessage :
  0 <= or_default generatedBatch DefaultGeneratedSSEBatchBytes <= max_int64 - maxStreamGeneratedBytes →
  let L := reader_limits line frame fin failure generatedFrame generatedBatch errorMessage in
  let r := settled (newConvertingReaderWithLimits line frame body fin failure c generatedFrame generatedBatch errorMessage) in
  ∃ bs en c', conversion L (S (length body)) body 0 c = (bs, Some en, c') ∧
    buf r = bytes_of (frames_of bs ++ option_list (closing L en c').1) ∧ err r = Some (closing L en c').2 ∧
    sawTerminal r = some_terminal bs ∧
    sawErrorEvent r = some_error (frames_of bs) || bool_decide (is_Some (closing L en c').1) ∧
    sawUpstreamErrorFrame r = some_error (frames_of bs) || tells_upstream L (Some en) c' ∧
    upstreamBodyError r = of_body (Some en) ∧
    ends_early bs ∧ Forall (within L) bs ∧ Z.of_nat (length (bytes_of (frames_of bs))) <= maxStreamGeneratedBytes.
Proof.
  intros Hm L r. destruct (settled_finished line frame body fin failure c generatedFrame generatedBatch errorMessage Hm) as (bs & en & c' & Hc & []).
  exists bs, en, c'. pose proof (conversion_within L (S (length body)) body 0 c) as Hw. fold L in Hc. rewrite Hc in Hw. by destruct Hw.
Qed.
End laws.

(** A converter that passes the data on and ends with a sentinel. *)
#[export] Instance echo_converter : frameConverter unit := {|
  Convert e c := (Ok (if str_eqb (sse_Data e) (lit "[DONE]") then {| Events := [{| fe_Type := lit "stop"; fe_Data := lit "{}" |}]; Terminal := true |}
                      else {| Events := [{| fe_Type := lit "delta"; fe_Data := sse_Data e |}]; Terminal := false |}), c);
  FinalizeEOF c := (Err (OtherError (lit "no terminal")), c);
  ErrorEvent text c := (Some {| fe_Type := lit "error"; fe_Data := text |}, c);
|}.

Definition echo_body : str := lit "data: a" ++ [LF; LF] ++ lit "data: b" ++ [LF; LF] ++ lit "data: [DONE]" ++ [LF; LF].

Definition echo_reader (body : str) (generatedFrame errorMessage : Z) : convertingReader :=
  newConvertingReaderWithLimits 0 0 body StreamEOF [] tt generatedFrame 0 errorMessage.

Lemma handed_out_whole_witness :
  let r := settled (echo_reader echo_body 0 0) in
  ∃ bs, buf r = bytes_of (frames_of bs) ∧ err r = Some EndOfStream ∧
    map Events bs = [[{| fe_Type := lit "delta"; fe_Data := lit "a" |}]; [{| fe_Type := lit "delta"; fe_Data := lit "b" |}];
      [{| fe_Type := lit "stop"; fe_Data := lit "{}" |}]].
Proof.
  destruct (handed_out_whole 0 0 echo_body StreamEOF [] tt 0 0 0) as (bs & en & c & Hc & Hb & He & _); [vm_compute; by split|].
  exists bs. unfold echo_reader.
  assert (conversion (reader_limits 0 0 StreamEOF [] 0 0 0) (S (length echo_body)) echo_body 0 tt =
    ([{| Events := [{| fe_Type := lit "delta"; fe_Data := lit "a" |}]; Terminal := false |};
      {| Events := [{| fe_Type := lit "delta"; fe_Data := lit "b" |}]; Terminal := false |};
      {| Events := [{| fe_Type := lit "stop"; fe_Data := lit "{}" |}]; Terminal := true |}], Some Complete, tt)) as Hx by (vm_compute; reflexivity).
  rewrite Hx in Hc. injection Hc as <- <- <-. split; [|by split]. rewrite Hb. cbn [closing fst]. by rewrite app_nil_r.
Defined.
