(* ===== verification/StreamWriter.v ===== *)
(** * The sealed writer ([internal/transcode/stream_writer.go])

    [sealedSSEWriter] passes complete events on to the client, with a flush after each,
    and after [Seal] nothing any more.  [Write] and [Seal] are functions of the writer
    and of what the client's [ResponseWriter] answers; a step relation over the program
    points of any number of goroutines says what they do together. *)

From Stdlib Require Import ZArith Lia Bool List Ascii String.
From stdpp Require Import strings list.
From S2P Require Import Prelude GoStd GoStr Sse.

(** ** Data *)

Inductive writer_error := Sealed | TrailingBytes | ShortWrite | ClientError (text : str).

(** What the client's writer answers. *)
Inductive write_answer := Wrote (n : nat) | WriteFailed (text : str).
Inductive flush_answer := Flushed | NotSupported | FlushFailed (text : str).

(** What reached it. *)
Inductive client_op := ClientWrite (b : str) | ClientFlush.

Record sealedSSEWriter := {
  stopping : bool;
  pending : str;
  firstErr : option writer_error;
  ops : list client_op;
}.

Definition newSealedSSEWriter : sealedSSEWriter := {| stopping := false; pending := []; firstErr := None; ops := [] |}.

Definition set_stopping (v : bool) (w : sealedSSEWriter) : sealedSSEWriter :=
  {| stopping := v; pending := pending w; firstErr := firstErr w; ops := ops w |}.
Definition set_pending (v : str) (w : sealedSSEWriter) : sealedSSEWriter :=
  {| stopping := stopping w; pending := v; firstErr := firstErr w; ops := ops w |}.
Definition set_firstErr (v : option writer_error) (w : sealedSSEWriter) : sealedSSEWriter :=
  {| stopping := stopping w; pending := pending w; firstErr := v; ops := ops w |}.
Definition add_op (o : client_op) (w : sealedSSEWriter) : sealedSSEWriter :=
  {| stopping := stopping w; pending := pending w; firstErr := firstErr w; ops := ops w ++ [o] |}.

(** ** Operations *)

(** The bytes up to the first empty line, and the rest. *)
Fixpoint cut_event (s : str) : option (str * str) :=
  match s with
  | a :: (b :: r) as t =>
      if byte_eqb a LF && byte_eqb b LF then Some ([a; b], r)
      else match cut_event t with Some (e, r) => Some (a :: e, r) | None => None end
  | _ => None
  end.

(** [writeAll]. *)
Definition writeAll (a : write_answer) (b : str) : option writer_error :=
  match a with
  | Wrote n => if (n =? length b)%nat then None else Some ShortWrite
  | WriteFailed text => Some (ClientError text)
  end.

(** The bytes of [b] the client's writer took. *)
Definition taken (a : write_answer) (b : str) : str := match a with Wrote n => take n b | WriteFailed _ => [] end.

(** [flushResponse]. *)
Definition flushResponse (a : flush_answer) : option writer_error :=
  match a with Flushed | NotSupported => None | FlushFailed text => Some (ClientError text) end.

(** The write and the flush of one event; the error is remembered. *)
Definition write_event (a : write_answer) (b : str) (w : sealedSSEWriter) : sealedSSEWriter :=
  set_firstErr (writeAll a b) (add_op (ClientWrite (taken a b)) w).

Definition flush_event (a : flush_answer) (w : sealedSSEWriter) : sealedSSEWriter :=
  set_firstErr (flushResponse a) (add_op ClientFlush w).

Section answers.
(** The answers to the write and the flush that come after so many operations. *)
Context (on_write : nat → str → write_answer) (on_flush : nat → flush_answer).

(** The loop of [Write] over the complete events. *)
Fixpoint pass (fuel : nat) (w : sealedSSEWriter) : sealedSSEWriter :=
  match fuel with
  | O => w
  | S fuel =>
      match cut_event (pending w) with
      | None => w
      | Some (event, rest) =>
          let w := write_event (on_write (length (ops w)) event) event (set_pending rest w) in
          match firstErr w with
          | Some _ => w
          | None =>
              let w := flush_event (on_flush (length (ops w))) w in
              match firstErr w with Some _ => w | None => pass fuel w end
          end
      end
  end.

(** What [Write] does holding the mutex. *)
Definition Write_locked (p : str) (w : sealedSSEWriter) : result writer_error nat * sealedSSEWriter :=
  if stopping w then (Err Sealed, w)
  else match firstErr w with
       | Some e => (Err e, w)
       | None =>
           let w := set_pending (pending w ++ p) w in
           let w := pass (length (pending w)) w in
           (match firstErr w with Some e => Err e | None => Ok (length p) end, w)
       end.

(** [Write] with nobody else around: the first look at [stopping] is the second. *)
Definition Write (p : str) (w : sealedSSEWriter) : result writer_error nat * sealedSSEWriter := Write_locked p w.

Fixpoint write_chunks (ps : list str) (w : sealedSSEWriter) : sealedSSEWriter :=
  match ps with [] => w | p :: ps => write_chunks ps (Write p w).2 end.
End answers.

Definition StopAccepting (w : sealedSSEWriter) : sealedSSEWriter := set_stopping true w.

(** What [Seal] does holding the mutex. *)
Definition Seal_locked (w : sealedSSEWriter) : option writer_error * sealedSSEWriter :=
  match firstErr w with
  | Some e => (Some e, w)
  | None => match pending w with [] => (None, w) | _ => (Some TrailingBytes, set_pending [] w) end
  end.

Definition Seal (w : sealedSSEWriter) : option writer_error * sealedSSEWriter := Seal_locked (StopAccepting w).

(** ** Goroutines *)

(** [WHeld] holds the mutex before the second look at [stopping], [WLoop] and [WFlush]
    are in the loop. *)
Inductive thread :=
| WEnter (p : str)
| WWait (p : str)
| WHeld (p : str)
| WLoop
| WFlush
| WDone
| Stop
| SEnter
| SWait
| SHeld
| SDone (e : option writer_error).

Record world := { writer : sealedSSEWriter; mutex : option nat; threads : list thread }.

Definition goes (i : nat) (t : thread) (w : sealedSSEWriter) (m : option nat) (x : world) : world :=
  {| writer := w; mutex := m; threads := <[i := t]> (threads x) |}.

Definition begins (t : thread) : Prop := match t with WEnter _ | Stop | SEnter => True | _ => False end.

Inductive w_step : world → world → Prop :=
| step_spawn x t : begins t → w_step x {| writer := writer x; mutex := mutex x; threads := threads x ++ [t] |}
| step_enter x i p : threads x !! i = Some (WEnter p) →
    w_step x (goes i (if stopping (writer x) then WDone else WWait p) (writer x) (mutex x) x)
| step_lock x i p : threads x !! i = Some (WWait p) → mutex x = None →
    w_step x (goes i (WHeld p) (writer x) (Some i) x)
| step_recheck x i p : threads x !! i = Some (WHeld p) →
    w_step x (if stopping (writer x) || bool_decide (is_Some (firstErr (writer x)))
              then goes i WDone (writer x) None x
              else goes i WLoop (set_pending (pending (writer x) ++ p) (writer x)) (mutex x) x)
| step_event x i a event rest : threads x !! i = Some WLoop → cut_event (pending (writer x)) = Some (event, rest) →
    let w := write_event a event (set_pending rest (writer x)) in
    w_step x (match firstErr w with Some _ => goes i WDone w None x | None => goes i WFlush w (mutex x) x end)
| step_flush x i a : threads x !! i = Some WFlush →
    let w := flush_event a (writer x) in
    w_step x (match firstErr w with Some _ => goes i WDone w None x | None => goes i WLoop w (mutex x) x end)
| step_unlock x i : threads x !! i = Some WLoop → cut_event (pending (writer x)) = None →
    w_step x (goes i WDone (writer x) None x)
| step_stop x i : threads x !! i = Some Stop → w_step x (goes i WDone (StopAccepting (writer x)) (mutex x) x)
| step_seal x i : threads x !! i = Some SEnter → w_step x (goes i SWait (StopAccepting (writer x)) (mutex x) x)
| step_seal_lock x i : threads x !! i = Some SWait → mutex x = None → w_step x (goes i SHeld (writer x) (Some i) x)
| step_sealed x i : threads x !! i = Some SHeld →
    w_step x (goes i (SDone (Seal_locked (writer x)).1) (Seal_locked (writer x)).2 None x).

Definition w_initial : world := {| writer := newSealedSSEWriter; mutex := None; threads := [] |}.

Definition w_reachable : world → Prop := rtc w_step w_initial.

(** ** Events *)

(** The complete events of a text, and what is left. *)
Fixpoint split_events (fuel : nat) (s : str) : list str * str :=
  match fuel with
  | O => ([], s)
  | S fuel =>
      match cut_event s with
      | Some (e, r) => let '(es, rest) := split_events fuel r in (e :: es, rest)
      | None => ([], s)
      end
  end.

Definition events_in (s : str) : list str * str := split_events (length s) s.

(** One event: it ends in an empty line and has no other. *)
Definition whole_event (e : str) : Prop := cut_event e = Some (e, []).

(** Each event is written in one piece and flushed. *)
Definition delivered_ops (es : list str) : list client_op := es ≫= λ e, [ClientWrite e; ClientFlush].

(** ** Lemmas *)

Lemma cut_event_app s e r : cut_event s = Some (e, r) → s = e ++ r ∧ whole_event e ∧ (0 < length e)%nat.
Proof.
  revert e r. induction s as [|a s IH]; intros e r; [done|]. destruct s as [|b s]; [done|].
  change (cut_event (a :: b :: s)) with
    (if byte_eqb a LF && byte_eqb b LF then Some ([a; b], s)
     else match cut_event (b :: s) with Some (e, r) => Some (a :: e, r) | None => None end).
  destruct (byte_eqb a LF && byte_eqb b LF) eqn:Hab.
  - intros [= <- <-]. split; [done|]. split; [|simpl; lia]. unfold whole_event. simpl. by rewrite Hab.
  - destruct (cut_event (b :: s)) as [[e' r']|] eqn:Hc; [|done]. intros [= <- <-]. destruct (IH e' r' eq_refl) as (Hs & Hw & Hl).
    split; [by rewrite Hs|]. split; [|simpl; lia]. unfold whole_event in *. destruct e' as [|c e']; [simpl in Hl; lia|]. injection Hs as <- _.
    change (cut_event (a :: b :: e')) with
      (if byte_eqb a LF && byte_eqb b LF then Some ([a; b], e')
       else match cut_event (b :: e') with Some (e, r) => Some (a :: e, r) | None => None end).
    by rewrite Hab, Hw.
Qed.

Lemma cut_event_extend s e r t : cut_event s = Some (e, r) → cut_event (s ++ t) = Some (e, r ++ t).
Proof.
  revert e r. induction s as [|a s IH]; intros e r; [done|]. destruct s as [|b s]; [done|].
  change (cut_event (a :: b :: s)) with
    (if byte_eqb a LF && byte_eqb b LF then Some ([a; b], s)
     else match cut_event (b :: s) with Some (e, r) => Some (a :: e, r) | None => None end).
  change (cut_event ((a :: b :: s) ++ t)) with
    (if byte_eqb a LF && byte_eqb b LF then Some ([a; b], s ++ t)
     else match cut_event ((b :: s) ++ t) with Some (e, r) => Some (a :: e, r) | None => None end).
  destruct (byte_eqb a LF && byte_eqb b LF); [by intros [= <- <-]|].
  destruct (cut_event (b :: s)) as [[e' r']|]; [|done]. intros [= <- <-]. by rewrite (IH e' r' eq_refl).
Qed.

Lemma split_fuel fuel fuel' s : (length s <= fuel)%nat → (length s <= fuel')%nat → split_events fuel s = split_events fuel' s.
Proof.
  revert fuel' s. induction fuel as [|fuel IH]; intros [|fuel'] s H1 H2; [done| | |].
  1, 2: destruct s; [done|simpl in *; lia].
  simpl. destruct (cut_event s) as [[e r]|] eqn:Hc; [|done]. destruct (cut_event_app _ _ _ Hc) as (-> & _ & Hl).
  rewrite length_app in *. by rewrite (IH fuel' r) by lia.
Qed.

Lemma events_in_cut s :
  events_in s = match cut_event s with Some (e, r) => (e :: (events_in r).1, (events_in r).2) | None => ([], s) end.
Proof.
  unfold events_in. destruct s as [|a s]; [done|]. change (length (a :: s)) with (S (length s)). cbn [split_events]. destruct (cut_event (a :: s)) as [[e r]|] eqn:Hc; [|done].
  destruct (cut_event_app _ _ _ Hc) as (Hs & _ & Hl). apply (f_equal length) in Hs. rewrite length_app in Hs. simpl in Hs.
  rewrite (split_fuel (length s) (length r)) by lia. by destruct (split_events (length r) r).
Qed.

(** The events of a text are those of its parts, with what is left over in between. *)
Lemma events_in_app s t :
  events_in (s ++ t) = ((events_in s).1 ++ (events_in ((events_in s).2 ++ t)).1, (events_in ((events_in s).2 ++ t)).2).
Proof.
  remember (length s) as n eqn:Hn. revert s Hn. induction n as [n IH] using lt_wf_ind. intros s ->.
  rewrite (events_in_cut s). destruct (cut_event s) as [[e r]|] eqn:Hc; [|simpl; by destruct (events_in (s ++ t))].
  rewrite events_in_cut, (cut_event_extend _ _ _ _ Hc). destruct (cut_event_app _ _ _ Hc) as (-> & _ & Hl).
  rewrite length_app in IH. rewrite (IH (length r)) by lia. done.
Qed.

Lemma events_in_whole e t : whole_event e → events_in (e ++ t) = (e :: (events_in t).1, (events_in t).2).
Proof. intros He. by rewrite events_in_cut, (cut_event_extend _ _ _ t He). Qed.

Lemma events_in_concat es : Forall whole_event es → events_in (concat es) = (es, []).
Proof. induction 1 as [|e es He _ IH]; [done|]. simpl. by rewrite events_in_whole, IH. Qed.

Lemma events_in_spec s : s = concat (events_in s).1 ++ (events_in s).2 ∧ Forall whole_event (events_in s).1.
Proof.
  remember (length s) as n eqn:Hn. revert s Hn. induction n as [n IH] using lt_wf_ind. intros s ->. rewrite events_in_cut.
  destruct (cut_event s) as [[e r]|] eqn:Hc; [|done]. destruct (cut_event_app _ _ _ Hc) as (Hs & Hw & Hl).
  destruct (IH (length r) ltac:(rewrite Hs, length_app; lia) r eq_refl) as [H1 H2]. simpl. split; [|by constructor].
  by rewrite Hs, <- app_assoc, <- H1.
Qed.

(** ** Writing *)

(** A writer at work: what it has passed on. *)
Definition Passed (es : list str) (rest : str) (w : sealedSSEWriter) : Prop :=
  stopping w = false ∧ firstErr w = None ∧ ops w = delivered_ops es ∧ pending w = rest.

Section writing.
Context (on_write : nat → str → write_answer) (on_flush : nat → flush_answer).

Lemma taken_all a b : writeAll a b = None → taken a b = b.
Proof. destruct a as [n|]; [|done]. simpl. destruct (Nat.eqb_spec n (length b)) as [->|]; [|done]. by rewrite firstn_all. Qed.

Lemma delivered_ops_app l1 l2 : delivered_ops (l1 ++ l2) = delivered_ops l1 ++ delivered_ops l2.
Proof. apply bind_app. Qed.

(** The errors are remembered: one that is there at the end was met. *)
Lemma pass_ok fuel es w :
  (length (pending w) <= fuel)%nat → Passed es (pending w) w →
  firstErr (pass on_write on_flush fuel w) = None →
  Passed (es ++ (events_in (pending w)).1) (events_in (pending w)).2 (pass on_write on_flush fuel w).
Proof.
  revert es w. induction fuel as [|fuel IH]; intros es w Hl HP; cbn [pass].
  { destruct (pending w) eqn:Hp; [|simpl in Hl; lia]. intros _. simpl. rewrite app_nil_r. destruct HP as (?&?&?&_). by split_and!. }
  rewrite events_in_cut. destruct (cut_event (pending w)) as [[e r]|] eqn:Hc; [|intros _; rewrite app_nil_r; exact HP].
  destruct (cut_event_app _ _ _ Hc) as (Hp & _ & He). destruct HP as (Hst & Her & Hops & _).
  set (w1 := write_event _ _ _). destruct (firstErr w1) eqn:E1; [by rewrite E1|]. set (w2 := flush_event _ w1). destruct (firstErr w2) eqn:E2; [by rewrite E2|].
  intros Hn. simpl in E1. cbn [fst snd]. change r with (pending w2) at 1 2.
  change (es ++ e :: (events_in (pending w2)).1) with (es ++ [e] ++ (events_in (pending w2)).1). rewrite app_assoc.
  apply IH; [|split_and!; try done|done].
  - simpl. rewrite Hp, length_app in Hl. lia.
  - simpl. rewrite (taken_all _ _ E1), Hops, delivered_ops_app. simpl. by rewrite <- app_assoc.
Qed.

Lemma Write_ok es rest p w r :
  Passed es rest w → Write on_write on_flush p w = (Ok r, (Write on_write on_flush p w).2) →
  r = length p ∧ Passed (es ++ (events_in (rest ++ p)).1) (events_in (rest ++ p)).2 (Write on_write on_flush p w).2.
Proof.
  intros (Hst & Her & Hops & Hp). unfold Write, Write_locked. rewrite Hst, Her. cbn [snd fst].
  set (w1 := set_pending (pending w ++ p) w). destruct (firstErr (pass _ _ _ w1)) eqn:E; intros [= <-]. split; [done|].
  rewrite <- Hp. apply (pass_ok _ es w1); [done| |done]. by split_and!.
Qed.
End writing.

(** Written without an error, any pieces of a text reach the client as its events. *)
Lemma write_chunks_stuck on_write on_flush ps w : firstErr w ≠ None → firstErr (write_chunks on_write on_flush ps w) ≠ None.
Proof.
  revert w. induction ps as [|p ps IH]; intros w He; simpl; [done|]. apply IH. unfold Write, Write_locked.
  destruct (stopping w); [done|]. destruct (firstErr w) eqn:E; [simpl; congruence|done].
Qed.

Lemma events_in_rest s : cut_event (events_in s).2 = None.
Proof.
  remember (length s) as n eqn:Hn. revert s Hn. induction n as [n IH] using lt_wf_ind. intros s ->. rewrite events_in_cut.
  destruct (cut_event s) as [[e r]|] eqn:Hc; [|done]. destruct (cut_event_app _ _ _ Hc) as (Hs & _ & Hl).
  apply (IH (length r)); [rewrite Hs, length_app; lia|done].
Qed.

Lemma write_chunks_ok on_write on_flush ps : ∀ es rest w,
  cut_event rest = None → Passed es rest w → firstErr (write_chunks on_write on_flush ps w) = None →
  Passed (es ++ (events_in (rest ++ concat ps)).1) (events_in (rest ++ concat ps)).2 (write_chunks on_write on_flush ps w).
Proof.
  induction ps as [|p ps IH]; intros es rest w Hc HP Hn; simpl in *.
  - rewrite app_nil_r, events_in_cut, Hc. simpl. by rewrite app_nil_r.
  - destruct (Write on_write on_flush p w) as [[r|e] w1] eqn:Hw; cbn [snd] in *.
    + destruct (Write_ok on_write on_flush es rest p w r HP) as [_ HP1]; [by rewrite Hw|]. rewrite Hw in HP1. cbn [snd] in HP1.
      rewrite app_assoc, (events_in_app (rest ++ p)). cbn [fst snd]. rewrite app_assoc. apply IH; [apply events_in_rest|done|done].
    + destruct (write_chunks_stuck on_write on_flush ps w1); [|done]. destruct HP as (Hst & Her & _). revert Hw. unfold Write, Write_locked.
      rewrite Hst, Her. destruct (firstErr (pass _ _ _ _)) eqn:E; [|done]. intros [= _ <-]. simpl in E. by rewrite E.
Qed.

(** ** Goroutines *)

Definition holds (t : thread) : bool := match t with WHeld _ | WLoop | WFlush | SHeld => true | _ => false end.
Definition writing (t : thread) : bool := match t with WLoop | WFlush => true | _ => false end.
Definition shut (t : thread) : bool := match t with SWait | SHeld | SDone _ => true | _ => false end.
Definition sealed (t : thread) : bool := match t with SDone _ => true | _ => false end.

(** The mutex is held by one thread; once [Seal] has been called nothing is accepted, and
    once it is past the mutex nobody writes. *)
Record w_inv (x : world) : Prop := {
  wi_mutex : ∀ i t, threads x !! i = Some t → holds t = true ↔ mutex x = Some i;
  wi_owner : ∀ i, mutex x = Some i → is_Some (threads x !! i);
  wi_shut : ∀ i t, threads x !! i = Some t → shut t = true → stopping (writer x) = true;
  wi_sealed : ∀ i j t u, threads x !! i = Some t → threads x !! j = Some u → sealed t = true → writing u = false;
}.

Lemma w_inv_initial : w_inv w_initial.
Proof. by constructor. Qed.

Lemma writing_holds t : writing t = true → holds t = true.
Proof. by destruct t. Qed.

Lemma only_holder x i j t u :
  w_inv x → threads x !! i = Some t → holds t = true → threads x !! j = Some u → j ≠ i → holds u = false.
Proof.
  intros HI Hi Ht Hj Hne. destruct (holds u) eqn:E; [|done]. apply (wi_mutex _ HI i t Hi) in Ht. apply (wi_mutex _ HI j u Hj) in E. congruence.
Qed.

Lemma none_holds x j u : w_inv x → mutex x = None → threads x !! j = Some u → holds u = false.
Proof. intros HI Hm Hj. destruct (holds u) eqn:E; [|done]. apply (wi_mutex _ HI j u Hj) in E. congruence. Qed.

(** A thread that moves on releases the mutex, takes it, or leaves it as it is. *)
Definition mutex_moves (x : world) (i : nat) (t0 t : thread) (m : option nat) : Prop :=
  (m = None ∧ holds t0 = true ∧ holds t = false) ∨ (m = Some i ∧ mutex x = None ∧ holds t = true) ∨ (m = mutex x ∧ holds t = holds t0).

Lemma w_inv_goes i t0 t w m x :
  w_inv x → threads x !! i = Some t0 → mutex_moves x i t0 t m →
  (stopping (writer x) = true → stopping w = true) → (shut t = true → stopping w = true) →
  (writing t = true → writing t0 = true ∨ stopping (writer x) = false) → (sealed t = true → holds t0 = true) →
  w_inv (goes i t w m x).
Proof.
  intros HI Hi Hm Hst Hsh Hw Hse. pose proof HI as [HM HO HS HE].
  assert (∀ j u, <[i := t]> (threads x) !! j = Some u → (j = i ∧ u = t) ∨ (j ≠ i ∧ threads x !! j = Some u)) as Hlk.
  { intros j u Hj. destruct (decide (j = i)) as [->|Hne]; [left|right].
    - rewrite list_lookup_insert_eq in Hj by by eapply lookup_lt_Some. by injection Hj.
    - by rewrite list_lookup_insert_ne in Hj. }
  constructor; simpl.
  - destruct Hm as [(-> & H0 & Ht)|[(-> & Hn & Ht)|[-> Ht]]]; intros j u [[-> ->]|[Hne Hj]]%Hlk.
    + by rewrite Ht.
    + by rewrite (only_holder x i j t0 u).
    + by rewrite Ht.
    + rewrite (none_holds x j u) by done. split; [done|congruence].
    + rewrite Ht. by apply HM.
    + by apply HM.
  - intros j Hj. destruct (decide (j = i)) as [->|Hne]; [by rewrite list_lookup_insert_eq by by eapply lookup_lt_Some|].
    rewrite list_lookup_insert_ne by done. apply HO. destruct Hm as [(-> & _)|[(-> & _)|[-> _]]]; congruence.
  - intros j u [[-> ->]|[Hne Hj]]%Hlk Hu; [by apply Hsh|]. by eapply Hst, HS.
  - intros j k u v [[-> ->]|[Hne Hj]]%Hlk [[-> ->]|[Hnk Hk]]%Hlk Hu.
    + by destruct t.
    + destruct (writing v) eqn:E; [|done]. apply writing_holds in E. by rewrite (only_holder x i k t0 v HI Hi (Hse Hu) Hk Hnk) in E.
    + destruct (writing t) eqn:E; [|done]. destruct (Hw eq_refl) as [E0|E0].
      * by rewrite (HE j i u t0) in E0.
      * rewrite (HS j u Hj) in E0; [done|by destruct u].
    + by apply (HE j k u v).
Qed.

Lemma w_inv_spawn t x : begins t → w_inv x → w_inv {| writer := writer x; mutex := mutex x; threads := threads x ++ [t] |}.
Proof.
  intros Hb [HM HO HS HE].
  assert (∀ j u, (threads x ++ [t]) !! j = Some u → (j = length (threads x) ∧ u = t) ∨ threads x !! j = Some u) as Hlk.
  { intros j u [Hj|[Hle Hj]]%lookup_app_Some; [by right|]. apply list_lookup_singleton_Some in Hj as [? <-]. left. split; [lia|done]. }
  constructor; simpl.
  - intros j u [[-> ->]|Hj]%Hlk; [|by apply HM]. split; [by destruct t|]. intros [u Hu]%HO. apply lookup_lt_Some in Hu. lia.
  - intros j [u Hu]%HO. exists u. by apply lookup_app_l_Some.
  - intros j u [[-> ->]|Hj]%Hlk; [by destruct t|by eapply HS].
  - intros j k u v [[-> ->]|Hj]%Hlk [[-> ->]|Hk]%Hlk; [by destruct t|by destruct t|by destruct t|by apply (HE j k)].
Qed.

Lemma w_inv_step x y : w_inv x → w_step x y → w_inv y.
Proof.
  intros HI Hstep. destruct Hstep as [x t Hb|x i p Hi|x i p Hi Hm|x i p Hi|x i a e r Hi Hc w|x i a Hi w|x i Hi Hc|x i Hi|x i Hi|x i Hi Hm|x i Hi].
  - by apply w_inv_spawn.
  - eapply w_inv_goes; [done|done| |done|by destruct (stopping _)..]. right; right. by destruct (stopping _).
  - eapply w_inv_goes; [done|done| |done..]. by right; left.
  - destruct (stopping (writer x)) eqn:Hs; simpl; [|case_bool_decide].
    + eapply w_inv_goes; [done|done| |by rewrite Hs|done..]. by left.
    + eapply w_inv_goes; [done|done| |by rewrite Hs|done..]. by left.
    + eapply w_inv_goes; [done|done| |by rewrite Hs|done|by right|done]. by right; right.
  - destruct (firstErr w).
    + eapply w_inv_goes; [done|done| |done..]. by left.
    + eapply w_inv_goes; [done|done| |done|done|by left|done]. by right; right.
  - destruct (firstErr w).
    + eapply w_inv_goes; [done|done| |done..]. by left.
    + eapply w_inv_goes; [done|done| |done|done|by left|done]. by right; right.
  - eapply w_inv_goes; [done|done| |done..]. by left.
  - eapply w_inv_goes; [done|done| |done..]. by right; right.
  - eapply w_inv_goes; [done|done| |done..]. by right; right.
  - eapply w_inv_goes; [done|done| |done| |done..]; [by right; left|]. intros _. by apply (wi_shut _ HI i _ Hi).
  - assert (stopping (Seal_locked (writer x)).2 = stopping (writer x)) as Hs.
    { unfold Seal_locked. destruct (firstErr _); [done|]. by destruct (pending _). }
    eapply w_inv_goes; [done|done| |by rewrite Hs| |done..]; [by left|]. intros _. rewrite Hs. by apply (wi_shut _ HI i _ Hi).
Qed.

Lemma w_reachable_inv x : w_reachable x → w_inv x.
Proof. apply rtc_invariant; [apply w_inv_step|apply w_inv_initial]. Qed.

(** A sealed writer has been used for the last time. *)
Lemma sealed_step x y i e : w_inv x → threads x !! i = Some (SDone e) → w_step x y → ops (writer y) = ops (writer x) ∧ threads y !! i = Some (SDone e).
Proof.
  intros HI Hi Hstep.
  assert (∀ j t u, threads x !! j = Some t → sealed t = false → <[j := u]> (threads x) !! i = Some (SDone e)) as Hkeep.
  { intros j t u Hj Ht. rewrite list_lookup_insert_ne; [done|]. intros ->. rewrite Hi in Hj. by injection Hj as <-. }
  assert (∀ j t, threads x !! j = Some t → writing t = false) as Hno by (intros j t Hj; by apply (wi_sealed _ HI i j _ t Hi Hj)).
  destruct Hstep as [x t Hb|x j p Hj|x j p Hj Hm|x j p Hj|x j a ev r Hj Hc w|x j a Hj w|x j Hj Hc|x j Hj|x j Hj|x j Hj Hm|x j Hj].
  - split; [done|]. simpl. by apply lookup_app_l_Some.
  - split; [done|]. by eapply Hkeep.
  - split; [done|]. by eapply Hkeep.
  - rewrite (wi_shut _ HI i _ Hi) by done. simpl. split; [done|]. by eapply Hkeep.
  - by specialize (Hno j _ Hj).
  - by specialize (Hno j _ Hj).
  - by specialize (Hno j _ Hj).
  - split; [done|]. by eapply Hkeep.
  - split; [done|]. by eapply Hkeep.
  - split; [done|]. by eapply Hkeep.
  - split; [|by eapply Hkeep]. simpl. unfold Seal_locked. destruct (firstErr _); [done|]. by destruct (pending _).
Qed.

(** C27: after [Seal] has returned to anyone, nothing touches the client's writer any
    more, whatever other goroutines were doing at the time and do later. *)
Theorem sealed_is_final x y i e :
  w_reachable x → threads x !! i = Some (SDone e) → rtc w_step x y → ops (writer y) = ops (writer x).
Proof.
  intros Hx%w_reachable_inv Hi Hr. induction Hr as [x|x z y Hs Hr IH]; [done|].
  destruct (sealed_step x z i e Hx Hi Hs) as [Ho Hz]. rewrite IH; [done|by eapply w_inv_step|done].
Qed.

(** A writer sealed while another goroutine waits with an event. *)
Definition sample_event : str := lit "data: {}" ++ [LF; LF].

Definition sealed_world : world :=
  {| writer := {| stopping := true; pending := []; firstErr := None; ops := [ClientWrite sample_event; ClientFlush] |};
     mutex := None; threads := [WDone; WWait sample_event; SDone None] |}.

(** A step, with the world it leads to computed. *)
Ltac w_run step :=
  eapply rtc_l; [eapply step; vm_compute; done|];
  match goal with |- rtc _ ?x _ => let y := eval vm_compute in x in change x with y end.

Lemma sealed_world_reachable : w_reachable sealed_world.
Proof.
  unfold w_reachable. w_run (step_spawn w_initial (WEnter sample_event)).
  match goal with |- rtc _ ?x _ => w_run (step_spawn x (WEnter sample_event)) end.
  match goal with |- rtc _ ?x _ => w_run (step_spawn x SEnter) end.
  match goal with |- rtc _ ?x _ => w_run (step_enter x 0 sample_event) end.
  match goal with |- rtc _ ?x _ => w_run (step_enter x 1 sample_event) end.
  match goal with |- rtc _ ?x _ => w_run (step_lock x 0 sample_event) end.
  match goal with |- rtc _ ?x _ => w_run (step_recheck x 0 sample_event) end.
  match goal with |- rtc _ ?x _ => w_run (step_event x 0 (Wrote 10) sample_event []) end.
  match goal with |- rtc _ ?x _ => w_run (step_flush x 0 Flushed) end.
  match goal with |- rtc _ ?x _ => w_run (step_unlock x 0) end.
  match goal with |- rtc _ ?x _ => w_run (step_seal x 2) end.
  match goal with |- rtc _ ?x _ => w_run (step_seal_lock x 2) end.
  match goal with |- rtc _ ?x _ => w_run (step_sealed x 2) end.
  apply rtc_refl.
Qed.

Lemma sealed_is_final_witness : ∃ y,
  threads y !! 1%nat = Some WDone ∧ ops (writer y) = [ClientWrite sample_event; ClientFlush].
Proof.
  assert (∃ y, rtc w_step sealed_world y ∧ threads y !! 1%nat = Some WDone) as (y & Hr & Hd).
  { eexists. split; [eapply rtc_l; [eapply (step_lock _ 1); reflexivity|]; eapply rtc_l; [eapply (step_recheck _ 1); reflexivity|]; apply rtc_refl|reflexivity]. }
  exists y. split; [exact Hd|]. exact (sealed_is_final sealed_world y 2 None sealed_world_reachable eq_refl Hr).
Defined.
