(* ===== verification/StreamRun.v ===== *)
(** * Running a translated stream ([internal/transcode/stream_run.go])

    [runTranslatedStream] copies the converting reader ([StreamReader]) to the sealed
    writer ([StreamWriter]) and shuts both down; what it observed decides the outcome of
    the exchange.  The copy is [stream.Proxy] of another module, a parameter. *)

From Stdlib Require Import ZArith Lia Bool List Ascii String.
From stdpp Require Import strings list.
From S2P Require Import Prelude GoStd GoStr GoText GoHttp Retry Budget Sse Recorder StreamReader StreamReaderLaws StreamWriter.

Open Scope Z_scope.

(** ** Data *)

Record streamObservation := {
  ReaderErr : option read_error;
  WriterErr : option writer_error;
  CopyErr : option goerr;
  SealErr : option writer_error;
  CloseErr : option goerr;
  ClientContextErr : option goerr;
  SawTerminal : bool;
  SawErrorEvent : bool;
  SawUpstreamErrorFrame : bool;
  UpstreamBodyError : bool;
}.

Inductive streamOutcome :=
| streamOutcomeSuccess
| streamOutcomeClientAbort
| streamOutcomeUpstreamFailure
| streamOutcomeLocalConversionFailure
| streamOutcomeDownstreamFailure.

#[export] Instance streamOutcome_eq_dec : EqDecision streamOutcome.
Proof. solve_decision. Defined.

(** ** Classification *)

Definition isSSEBoundError (e : option read_error) : bool := match e with Some (Failed (SSEBound _ _)) => true | _ => false end.

Definition isTruncated (e : option read_error) : bool := match e with Some (Truncated _) => true | _ => false end.

Definition isEOF (e : option read_error) : bool := match e with Some EndOfStream => true | _ => false end.

Definition present {A} (o : option A) : bool := match o with Some _ => true | None => false end.

Definition classifyStreamObservation (o : streamObservation) : streamOutcome :=
  let aborted_or outcome := if present (ClientContextErr o) then streamOutcomeClientAbort else outcome in
  if SawUpstreamErrorFrame o then streamOutcomeUpstreamFailure
  else if SawErrorEvent o then
    aborted_or (if UpstreamBodyError o || isTruncated (ReaderErr o) || isSSEBoundError (ReaderErr o)
                then streamOutcomeUpstreamFailure else streamOutcomeLocalConversionFailure)
  else if present (WriterErr o) || present (SealErr o) then aborted_or streamOutcomeDownstreamFailure
  else if present (ReaderErr o) && negb (isEOF (ReaderErr o)) then aborted_or streamOutcomeUpstreamFailure
  else if present (CopyErr o) then aborted_or streamOutcomeUpstreamFailure
  else if negb (SawTerminal o) then streamOutcomeLocalConversionFailure
  else streamOutcomeSuccess.

Section run.
Context {C : Type} `{frameConverter C}.
Implicit Types r : convertingReader (C := C).

(** [stream.Proxy] from the reader to the writer. *)
Context (Proxy : convertingReader (C := C) → sealedSSEWriter → convertingReader (C := C) * sealedSSEWriter * option goerr).

(** The observation, and the writer as it was left; [ctxErr] is the parent's error after
    the copy, [closeErr] what closing the body answers. *)
Definition runTranslatedStream (r : convertingReader) (ctxErr closeErr : option goerr) : streamObservation * sealedSSEWriter :=
  let '(r, w, copyErr) := Proxy r newSealedSSEWriter in
  let w := StopAccepting w in
  let '(sealErr, w) := Seal w in
  ({| ReaderErr := err r; WriterErr := firstErr w; CopyErr := copyErr; SealErr := sealErr; CloseErr := closeErr;
      ClientContextErr := ctxErr; SawTerminal := sawTerminal r; SawErrorEvent := sawErrorEvent r;
      SawUpstreamErrorFrame := sawUpstreamErrorFrame r; UpstreamBodyError := upstreamBodyError r |}, w).

(** ** What is relied on of the copy *)

(** It reads with buffers of some size and writes what it has read, in order; it reports
    no error when it has come to the end of the reader and all of it is written. *)
Definition copies : Prop :=
  ∀ r w, ∃ on_write on_flush sizes out e ps,
    Forall (λ n, 0 < n)%nat sizes ∧ drain sizes r = (out, e, (Proxy r w).1.1) ∧
    (Proxy r w).1.2 = write_chunks on_write on_flush ps w ∧ (∃ rest, out = concat ps ++ rest) ∧
    ((Proxy r w).2 = None → e = Some EndOfStream ∧ concat ps = out).

(** The frames are single events on the wire. *)
Definition plain_frames (fs : list frameEvent) : Prop := Forall (λ f, one_line (fe_Type f) ∧ one_line (fe_Data f)) fs.

(** ** Lemmas *)

Lemma one_line_cut l t : LF ∉ l → cut_event (l ++ [LF] ++ t) = match cut_event ([LF] ++ t) with Some (e, r) => Some (l ++ e, r) | None => None end.
Proof.
  induction l as [|a l IH]; intros Hl; [cbn [app]; by destruct (cut_event (LF :: t)) as [[]|]|].
  rewrite not_elem_of_cons in Hl. destruct Hl as [Ha Hl].
  assert (∃ b l', l ++ [LF] ++ t = b :: l') as (b & l' & Hb) by (destruct l; by eexists _, _).
  change ((a :: l) ++ [LF] ++ t) with (a :: (l ++ [LF] ++ t)). specialize (IH Hl). rewrite Hb in IH |- *.
  change (cut_event (a :: b :: l')) with
    (if byte_eqb a LF && byte_eqb b LF then Some ([a; b], l')
     else match cut_event (b :: l') with Some (e, r) => Some (a :: e, r) | None => None end).
  rewrite byte_eqb_neq by done. cbn [andb]. rewrite IH. by destruct (cut_event ([LF] ++ t)) as [[]|].
Qed.

Lemma cut_second b t : b ≠ LF → cut_event (LF :: b :: t) = match cut_event (b :: t) with Some (e, r) => Some (LF :: e, r) | None => None end.
Proof.
  intros Hb. change (cut_event (LF :: b :: t)) with
    (if byte_eqb LF LF && byte_eqb b LF then Some ([LF; b], t)
     else match cut_event (b :: t) with Some (e, r) => Some (LF :: e, r) | None => None end).
  by rewrite (byte_eqb_neq b) by done.
Qed.

Lemma data_whole d : LF ∉ d → whole_event (lit "data: " ++ d ++ [LF; LF]).
Proof.
  intros Hd. unfold whole_event. change (lit "data: " ++ d ++ [LF; LF]) with (lit "data: " ++ d ++ [LF] ++ [LF]). rewrite app_assoc.
  rewrite one_line_cut; [done|]. rewrite not_elem_of_app. split; [|done]. apply (lit_one_line "data: "). by vm_compute.
Qed.

Lemma frame_whole f : one_line (fe_Type f) → one_line (fe_Data f) → whole_event (frame_bytes f).
Proof.
  intros [_ Ht] [_ Hd]. unfold frame_bytes. pose proof (data_whole _ Hd) as Hw. destruct (str_eqb _ _); [done|].
  unfold whole_event in *. replace ((lit "event: " ++ fe_Type f ++ [LF]) ++ lit "data: " ++ fe_Data f ++ [LF; LF])
    with ((lit "event: " ++ fe_Type f) ++ [LF] ++ lit "data: " ++ fe_Data f ++ [LF; LF]) by by rewrite <- !app_assoc.
  rewrite one_line_cut.
  - change ([LF] ++ lit "data: " ++ fe_Data f ++ [LF; LF]) with (LF :: "d"%char :: (lit "ata: " ++ fe_Data f ++ [LF; LF])).
    rewrite cut_second by done. change ("d"%char :: (lit "ata: " ++ fe_Data f ++ [LF; LF])) with (lit "data: " ++ fe_Data f ++ [LF; LF]). by rewrite Hw.
  - rewrite not_elem_of_app. split; [|done]. apply (lit_one_line "event: "). by vm_compute.
Qed.

Lemma plain_events fs : plain_frames fs → events_in (bytes_of fs) = (map frame_bytes fs, []).
Proof.
  intros Hf. apply events_in_concat, Forall_map. eapply Forall_impl; [exact Hf|]. intros f [H1 H2]. by apply frame_whole.
Qed.

Lemma Seal_clean w : firstErr w = None → Seal w = (match pending w with [] => None | _ => Some TrailingBytes end, set_pending [] (StopAccepting w)).
Proof. intros He. unfold Seal, Seal_locked. simpl. rewrite He. by destruct w as [st [] fe os]. Qed.

Lemma Seal_kept w : firstErr (Seal w).2 = firstErr w ∧ ops (Seal w).2 = ops w.
Proof. unfold Seal, Seal_locked. simpl. destruct (firstErr w) eqn:E; simpl; [by rewrite E|]. by destruct (pending w). Qed.

(** What a success rests on. *)
Lemma classify_success o :
  classifyStreamObservation o = streamOutcomeSuccess ↔
  SawUpstreamErrorFrame o = false ∧ SawErrorEvent o = false ∧ WriterErr o = None ∧ SealErr o = None ∧
  (ReaderErr o = None ∨ ReaderErr o = Some EndOfStream) ∧ CopyErr o = None ∧ SawTerminal o = true.
Proof.
  unfold classifyStreamObservation, present, isEOF. split.
  - destruct (SawUpstreamErrorFrame o); [done|]. destruct (SawErrorEvent o); [by repeat case_match|].
    destruct (WriterErr o), (SealErr o), (ReaderErr o) as [[]|], (CopyErr o), (ClientContextErr o), (SawTerminal o); try done; simpl; auto 10.
  - intros (-> & -> & -> & -> & Hr & -> & ->). by destruct Hr as [-> | ->].
Qed.

(** A complete copy hands everything over. *)
Lemma copied_all (Hcopies : copies) r ctxErr closeErr o w :
  runTranslatedStream r ctxErr closeErr = (o, w) → CopyErr o = None → WriterErr o = None → SealErr o = None →
  settled r = prepend (bytes_of []) (settled r) ∧
  err (settled r) = Some EndOfStream ∧ ReaderErr o = Some EndOfStream ∧
  SawTerminal o = sawTerminal (settled r) ∧ SawErrorEvent o = sawErrorEvent (settled r) ∧
  SawUpstreamErrorFrame o = sawUpstreamErrorFrame (settled r) ∧
  ops w = delivered_ops (events_in (buf (settled r))).1 ∧ (events_in (buf (settled r))).2 = [].
Proof.
  unfold runTranslatedStream. destruct (Hcopies r newSealedSSEWriter) as (ow & off & sizes & out & e & ps & _ & Hd & Hw & _ & Hall).
  destruct (Proxy r newSealedSSEWriter) as [[r1 w1] ce]. cbn [fst snd] in *.
  destruct (Seal (StopAccepting w1)) as [se w2] eqn:Es. intros [= <- <-]. simpl. intros Hce Hwe Hse.
  destruct (Hall Hce) as [-> <-]. destruct (drain_settled _ _ _ _ _ Hd) as [Hs Hend]. destruct (Hend _ eq_refl) as (Hs1 & He1 & Hb1).
  pose proof (Seal_kept (StopAccepting w1)) as [Hk1 Hk2]. rewrite Es in Hk1, Hk2. simpl in Hk1, Hk2. rewrite Hwe in Hk1. symmetry in Hk1.
  assert (buf (settled r) = concat ps) as Hbuf. { rewrite Hs, Hs1. simpl. by rewrite Hb1, app_nil_r. }
  pose proof (write_chunks_ok ow off ps [] [] newSealedSSEWriter eq_refl) as Hwc. rewrite <- Hw in Hwc.
  destruct Hwc as (_ & _ & Hops & Hpend); [done|done|]. simpl in Hops, Hpend.
  assert (Seal (StopAccepting w1) = Seal w1) as Hsw by done. rewrite Hsw, (Seal_clean w1 Hk1) in Es. injection Es as Hse' _. rewrite Hse in Hse'.
  rewrite Hbuf, Hk2, Hops, <- Hpend. split_and!; try done.
  - by destruct (settled r).
  - by rewrite Hs, Hs1.
  - by rewrite Hs, Hs1.
  - by rewrite Hs, Hs1.
  - by rewrite Hs, Hs1.
  - by destruct (pending w1).
Qed.

(** The stream of a reader that was just made, as the reference has it, and what is to be
    written of it: the events the bytes of its frames hold, and the bytes after the last. *)
Section converted.
Context (Hcopies : copies) (line frame : Z) (body : str) (fin : stream_end) (failure : str) (c : C) (generatedFrame generatedBatch errorMessage : Z).

Definition stream_conversion : list convertedBatch * option ending * C :=
  conversion (reader_limits line frame fin failure generatedFrame generatedBatch errorMessage) (S (length body)) body 0 c.

Definition frames_sent : list frameEvent := frames_of stream_conversion.1.1.

(** It is complete: there is a terminal batch, no error event, and no bytes of an event
    that is not finished. *)
Definition converts_whole : Prop :=
  stream_conversion.1.2 = Some Complete ∧ some_terminal stream_conversion.1.1 = true ∧ some_error frames_sent = false ∧
  (events_in (bytes_of frames_sent)).2 = [].

Definition events_sent : list client_op := delivered_ops (events_in (bytes_of frames_sent)).1.

Let r := newConvertingReaderWithLimits line frame body fin failure c generatedFrame generatedBatch errorMessage.

Context (Hm : 0 <= or_default generatedBatch DefaultGeneratedSSEBatchBytes <= max_int64 - maxStreamGeneratedBytes).
Context (ctxErr closeErr : option goerr) (o : streamObservation) (w : sealedSSEWriter) (Hrun : runTranslatedStream r ctxErr closeErr = (o, w)).

(** A stream copied without an error: what was observed of it, and what the client was
    sent. *)
Lemma run_copied : CopyErr o = None ∧ WriterErr o = None ∧ SealErr o = None →
  stream_conversion.1.2 = Some Complete ∧ ReaderErr o = Some EndOfStream ∧ SawTerminal o = some_terminal stream_conversion.1.1 ∧
  SawErrorEvent o = some_error frames_sent ∧ SawUpstreamErrorFrame o = some_error frames_sent ∧
  ops w = events_sent ∧ (events_in (bytes_of frames_sent)).2 = [].
Proof.
  intros (Hce & Hwe & Hse). destruct (copied_all Hcopies _ _ _ _ _ Hrun Hce Hwe Hse) as (_ & Hend & Hre & Hst & Hsee & Hsu & Hops & Hrest).
  destruct (settled_finished line frame body fin failure c generatedFrame generatedBatch errorMessage Hm) as (bs & en & c' & Hc & []).
  unfold events_sent, frames_sent, stream_conversion. rewrite Hc. cbn [fst snd]. fold r in fi_bytes, fi_end, fi_terminal, fi_error, fi_upstream. rewrite Hend in fi_end.
  assert (en = Complete) as ->. { pose proof (conversion_real (reader_limits line frame fin failure generatedFrame generatedBatch errorMessage) (S (length body)) body 0 c) as Hre'.
    rewrite Hc in Hre'. by eapply closing_real; [exact Hre'|injection fi_end as <-]. }
  rewrite fi_bytes in Hops, Hrest. cbn [closing fst option_list] in Hops, Hrest. rewrite app_nil_r in Hops, Hrest.
  rewrite Hst, Hsee, Hsu, fi_terminal, fi_error, fi_upstream. simpl. by rewrite !orb_false_r.
Qed.

(** A success has been delivered. *)
Lemma success_delivered : classifyStreamObservation o = streamOutcomeSuccess →
  (CopyErr o = None ∧ WriterErr o = None ∧ SealErr o = None) ∧ converts_whole ∧ ops w = events_sent.
Proof.
  intros (Hu & He & Hwe & Hse & Hr & Hce & Ht)%classify_success. destruct run_copied as (Hc & _ & Ht' & He' & _ & Hops & Hrest); [done|].
  unfold converts_whole. rewrite <- Ht', <- He'. done.
Qed.

(** What has been delivered is a success. *)
Lemma delivered_success : CopyErr o = None ∧ WriterErr o = None ∧ SealErr o = None → converts_whole → classifyStreamObservation o = streamOutcomeSuccess.
Proof.
  intros Hok (_ & Ht & He & _). rewrite classify_success. destruct (run_copied Hok) as (_ & Hr & Ht' & He' & Hu' & _), Hok as (? & ? & ?).
  rewrite Ht', He', Hu', Ht, He. auto 10.
Qed.
End converted.

(** ** Faults of the upstream *)

(** Errors of the conversion that say that the upstream's data is at fault. *)
Inductive upstreams_error : read_error → Prop :=
| wire_error text : upstreams_error (Failed (UpstreamWire text))
| http_error text : upstreams_error (Failed (StreamConversion ProvenanceUpstreamHTTP text))
| transport_error text : upstreams_error (Failed (StreamConversion ProvenanceUpstreamTransportError text))
| body_error text : upstreams_error (Failed (StreamConversion ProvenanceUpstreamBodyError text)).

(** What ends a stream that is a fault of the upstream unless the client has gone: its
    body failed or broke a bound, it ended before its terminal, or a bound was exceeded,
    also one that holds for the frames of this side. *)
Inductive broken_off : ending → Prop :=
| body_failed e : broken_off (Broken true e)
| body_ended cause : broken_off (Broken false (Truncated cause))
| bound_exceeded line bound : broken_off (Broken false (Failed (SSEBound line bound))).

(** What is wrong with a stream of which these batches have been converted: an error of
    the upstream was passed on or told; or, while the client was there, it broke off and
    the client was told; or nobody failed to write, and it broke for any reason that could
    not be told, or the copy failed. *)
Inductive stream_fault L (clientGone writing : bool) (copyErr : option goerr) (bs : list convertedBatch) (en : option ending) (c : C) : Prop :=
| error_relayed : some_error (frames_of bs) = true → stream_fault L clientGone writing copyErr bs en c
| error_told body e : en = Some (Broken body e) → upstreams_error e → is_Some (told L en c) → stream_fault L clientGone writing copyErr bs en c
| break_told e : clientGone = false → en = Some e → broken_off e → is_Some (told L en c) → stream_fault L clientGone writing copyErr bs en c
| break_untold body e : clientGone = false → writing = false → en = Some (Broken body e) → told L en c = None →
    stream_fault L clientGone writing copyErr bs en c
| copy_failed_alone : clientGone = false → writing = false → is_Some copyErr → told L en c = None → stream_fault L clientGone writing copyErr bs en c.

Lemma upstreams_error_spec e : isUpstreamConversionError e = true ↔ upstreams_error e.
Proof.
  split; [|by intros []]. destruct e as [|text|[line bound|text|p text|text]|cause]; try done; simpl; [by intros _; constructor|].
  destruct p; try done; intros _; constructor.
Qed.

Lemma copy_reached (Hcopies : copies) r : ∃ k out, Reached k r (prepend out (Proxy r newSealedSSEWriter).1.1).
Proof.
  destruct (Hcopies r newSealedSSEWriter) as (ow & off & sizes & out & e & ps & _ & Hd & _). apply drain_reached in Hd as [k Hk]. by exists k, out.
Qed.

Lemma Reached_flags k r r' bs en c : Sent bs en c r (rounds k r) → Reached k r r' → Fresh r →
  sawTerminal r' = sawTerminal r || some_terminal bs ∧
  sawErrorEvent r' = sawErrorEvent r || some_error (frames_of bs) || bool_decide (is_Some (told (limits_of r) en c)) ∧
  sawUpstreamErrorFrame r' = sawUpstreamErrorFrame r || some_error (frames_of bs) || tells_upstream (limits_of r) en c ∧
  upstreamBodyError r' = upstreamBodyError r || of_body en ∧
  match en with Some (Broken body e) => err r' = Some (closing (limits_of r) (Broken body e) c).2 | _ => err r' = None ∨ err r' = Some EndOfStream end.
Proof.
  intros [] HR HF.
  assert (sawTerminal r' = sawTerminal (rounds k r) ∧ sawErrorEvent r' = sawErrorEvent (rounds k r) ∧ sawUpstreamErrorFrame r' = sawUpstreamErrorFrame (rounds k r) ∧
    upstreamBodyError r' = upstreamBodyError (rounds k r) ∧ (err r' = err (rounds k r) ∨ err (rounds k r) = None ∧ err r' = Some EndOfStream)) as (-> & -> & -> & -> & Herr).
  { destruct HR as [-> | ->]; [by auto 10|]. unfold ended. destruct (err (rounds k r)) eqn:He; [by rewrite He; auto 10|].
    destruct (stopAfterDrain (rounds k r)); [|by rewrite He; auto 10]. simpl. auto 10. }
  split_and!; try done. destruct en as [[|body e]|]; [destruct se_end as [Hx _]| |destruct se_end as [Hx _]]; try (destruct Herr as [-> |[_ ->]]; by auto).
  rewrite se_end in Herr. by destruct Herr as [-> |[? _]].
Qed.

Lemma broken_off_spec body e : body || isTruncated (Some e) || isSSEBoundError (Some e) = true ↔ broken_off (Broken body e).
Proof.
  split; [|by intros Hb; inversion Hb; subst]. intros Hb. destruct body; [constructor|]. destruct e as [| |[]|]; try done; constructor.
Qed.

(** A stream whose end was told, and one whose end was not. *)
Lemma told_error L body e c : is_Some (told L (Some (Broken body e)) c) → (closing L (Broken body e) c).2 = e.
Proof. unfold told. simpl. destruct (ErrorEvent _ c).1; [|done]. destruct (frame_fits L f); [done|]. by intros []. Qed.

Lemma told_broken L en c : is_Some (told L en c) → ∃ body e, en = Some (Broken body e).
Proof. destruct en as [[|body e]|]; [by intros []|by eauto|by intros []]. Qed.

Section classified.
Context (o : streamObservation) (L : stream_limits) (bs : list convertedBatch) (en : option ending) (c : C) (Hreal : real_end en)
  (Hev : SawErrorEvent o = some_error (frames_of bs) || bool_decide (is_Some (told L en c)))
  (Hup : SawUpstreamErrorFrame o = some_error (frames_of bs) || tells_upstream L en c) (Hbody : UpstreamBodyError o = of_body en)
  (Herr : match en with
    | Some (Broken body e) => ReaderErr o = Some (closing L (Broken body e) c).2
    | _ => ReaderErr o = None ∨ ReaderErr o = Some EndOfStream
    end).

Abbreviation gone := (present (ClientContextErr o)).
Abbreviation writing := (present (WriterErr o) || present (SealErr o)).
Abbreviation charged := (classifyStreamObservation o = streamOutcomeUpstreamFailure).

Lemma told_charged : some_error (frames_of bs) = false → is_Some (told L en c) → charged ↔ stream_fault L gone writing (CopyErr o) bs en c.
Proof.
  intros Hx Ht. destruct (told_broken L en c Ht) as (body & e & Hen). rewrite Hen in Ht. pose proof (told_error _ _ _ _ Ht) as Hcl.
  rewrite Hen in Hup, Hev, Herr, Hbody. unfold tells_upstream in Hup. rewrite Hcl in Herr. rewrite Hx, bool_decide_true in Hup, Hev by done. simpl in Hup, Hev, Hbody.
  unfold classifyStreamObservation. rewrite Hup, Hev, Herr, Hbody. destruct (isUpstreamConversionError e) eqn:Hu.
  - split; [|done]. intros _. eapply error_told; [done|by apply upstreams_error_spec|by rewrite Hen].
  - assert (¬ upstreams_error e) as Hne by by rewrite <- upstreams_error_spec, Hu. destruct gone eqn:Hg.
    + split; [done|]. intros [|body' e' He' Hup'| | |]; try done; try congruence.
    + destruct (body || isTruncated (Some e) || isSSEBoundError (Some e)) eqn:Hb.
      * split; [|done]. intros _. eapply break_told; [done|done|by apply broken_off_spec|by rewrite Hen].
      * split; [done|]. intros Hf. destruct Hf as [Hr|body' e' He' Hup' _|e' _ He' Hbr _|body' e' _ _ _ Hn|_ _ _ Hn]; [congruence|congruence| |destruct Ht; congruence..].
        rewrite Hen in He'. injection He' as <-. apply broken_off_spec in Hbr. congruence.
Qed.

Lemma untold_charged : some_error (frames_of bs) = false → told L en c = None → charged ↔ stream_fault L gone writing (CopyErr o) bs en c.
Proof.
  intros Hx Ht. assert (tells_upstream L en c = false) as Htu. { unfold tells_upstream. destruct en as [[|body e]|]; [done| |done]. by rewrite Ht. }
  rewrite Htu, Hx in Hup. rewrite Hx, Ht in Hev. simpl in Hup, Hev.
  assert (charged ↔ gone = false ∧ writing = false ∧ (present (ReaderErr o) && negb (isEOF (ReaderErr o)) = true ∨ is_Some (CopyErr o))) as ->.
  { unfold classifyStreamObservation. rewrite Hup, Hev. destruct writing; [destruct gone; by split; [|intros (? & ? & ?)]|].
    destruct (present (ReaderErr o) && negb (isEOF (ReaderErr o))); [destruct gone; [by split; [|intros [? _]]|by split; auto]|].
    destruct (CopyErr o) eqn:Hc; simpl; [destruct gone; [by split; [|intros [? _]]|by split; eauto]|].
    split; [by destruct (SawTerminal o)|]. by intros (_ & _ & [?|[? ?]]). }
  split.
  - intros (Hg & Hw & [Hr|Hc]); [|by eapply copy_failed_alone]. destruct en as [[|body e]|].
    + by destruct Herr as [Hz|Hz]; rewrite Hz in Hr.
    + by eapply break_untold.
    + by destruct Herr as [Hz|Hz]; rewrite Hz in Hr.
  - intros Hf. destruct Hf as [Hr|body' e' He' Hup' Hs|e' _ He' Hbr Hs|body e Hg Hw Hen _|Hg Hw Hc _]; [congruence|destruct Hs; congruence..| |].
    + split; [done|]. split; [done|]. left. rewrite Hen in Herr, Hreal. rewrite Herr.
      pose proof (closing_real L (Broken body e) c Hreal) as Hz. generalize dependent (closing L (Broken body e) c). intros [f [|text|x|cause]] _ Hz; try done. by specialize (Hz eq_refl).
    + auto.
Qed.

(** The classification of a run charges the upstream for these faults. *)
Lemma classify_charged : charged ↔ stream_fault L gone writing (CopyErr o) bs en c.
Proof.
  destruct (decide (some_error (frames_of bs) = true)) as [Hx|Hx%not_true_is_false].
  - unfold classifyStreamObservation. rewrite Hup, Hx. simpl. split; [|done]. intros _. by apply error_relayed.
  - destruct (decide (is_Some (told L en c))) as [Ht|Ht%eq_None_not_Some]; [by apply told_charged|by apply untold_charged].
Qed.
End classified.

(** Frames without line breaks are the events. *)
Lemma plain_events_sent fs : plain_frames fs → (events_in (bytes_of fs)).1 = map frame_bytes fs ∧ (events_in (bytes_of fs)).2 = [].
Proof. intros Hp. by rewrite plain_events. Qed.

(** C11: an exchange counts as a success exactly if the client has got it: the copy and
    the writer met no error, the conversion of the upstream's body ([conversion]) came to
    its end with a terminal batch and without an error event, and the client was sent
    the events of all its frames, each in one piece followed by a flush, and nothing
    else; where no frame has a line break, each frame is one event. *)
Theorem success_means_delivered (Hcopies : copies) line frame body fin failure c generatedFrame generatedBatch errorMessage ctxErr closeErr o w :
  0 <= or_default generatedBatch DefaultGeneratedSSEBatchBytes <= max_int64 - maxStreamGeneratedBytes →
  let L := reader_limits line frame fin failure generatedFrame generatedBatch errorMessage in
  let r := newConvertingReaderWithLimits line frame body fin failure c generatedFrame generatedBatch errorMessage in
  runTranslatedStream r ctxErr closeErr = (o, w) →
  let '(bs, en, _) := conversion L (S (length body)) body 0 c in
  (classifyStreamObservation o = streamOutcomeSuccess ↔
   CopyErr o = None ∧ WriterErr o = None ∧ SealErr o = None ∧
   en = Some Complete ∧ some_terminal bs = true ∧ some_error (frames_of bs) = false ∧
   (events_in (bytes_of (frames_of bs))).2 = [] ∧ ops w = delivered_ops (events_in (bytes_of (frames_of bs))).1) ∧
  (plain_frames (frames_of bs) → classifyStreamObservation o = streamOutcomeSuccess → ops w = delivered_ops (map frame_bytes (frames_of bs))).
Proof.
  intros Hm L r Hrun. pose proof (success_delivered Hcopies _ _ _ _ _ _ _ _ _ Hm _ _ _ _ Hrun) as Hs.
  pose proof (delivered_success Hcopies _ _ _ _ _ _ _ _ _ Hm _ _ _ _ Hrun) as Hd.
  unfold converts_whole, events_sent, frames_sent, stream_conversion in Hs, Hd. fold L in Hs, Hd.
  destruct (conversion _ _ _ _ _) as [[bs en] c']. cbn [fst snd] in Hs, Hd. split; [split|].
  - intros ((? & ? & ?) & (? & ? & ? & ?) & ?)%Hs. done.
  - intros (? & ? & ? & ? & ? & ? & ? & _). by apply Hd.
  - intros Hp (_ & _ & ->)%Hs. by rewrite (proj1 (plain_events_sent _ Hp)).
Qed.
End run.

(** ** A copy *)

Section io_copy.
Context {C : Type} `{frameConverter C} (n : nat) (on_write : nat → str → write_answer) (on_flush : nat → flush_answer).
Implicit Types r : convertingReader (C := C).

Definition copy_failed : goerr := plain_err (Retry.OtherError 0).

(** [io.Copy] with a buffer of [n] bytes. *)
Fixpoint copy_loop (fuel : nat) r w : convertingReader * sealedSSEWriter * option goerr :=
  match fuel with
  | O => (r, w, Some copy_failed)
  | S fuel =>
      match Read n r with
      | Some (Ok b, r) =>
          match Write on_write on_flush b w with
          | (Ok _, w) => copy_loop fuel r w
          | (Err _, w) => (r, w, Some copy_failed)
          end
      | Some (Err e, r) => (r, w, match e with EndOfStream => None | _ => Some copy_failed end)
      | None => (r, w, Some copy_failed)
      end
  end.

Definition io_copy r w := copy_loop (S (length (buf (settled r)))) r w.

Lemma copy_loop_copies fuel r w : (0 < n)%nat → ∃ sizes out e ps,
  Forall (λ n, 0 < n)%nat sizes ∧ drain sizes r = (out, e, (copy_loop fuel r w).1.1) ∧
  (copy_loop fuel r w).1.2 = write_chunks on_write on_flush ps w ∧ (∃ rest, out = concat ps ++ rest) ∧
  ((copy_loop fuel r w).2 = None → e = Some EndOfStream ∧ concat ps = out).
Proof.
  intros Hn. revert r w. induction fuel as [|fuel IH]; intros r w; simpl.
  { exists [], [], None, []. split_and!; try done. by exists []. }
  destruct (Read n r) as [[[b|x] r1]|] eqn:Hr.
  - destruct (Write on_write on_flush b w) as [[k|e] w1] eqn:Hw.
    + destruct (IH r1 w1) as (sizes & out & e & ps & Hf & Hd & Hps & (rest & Hrest) & Hok). exists (n :: sizes), (b ++ out), e, (b :: ps). split_and!.
      * by constructor.
      * simpl. by rewrite Hr, Hd.
      * simpl. by rewrite Hw.
      * exists rest. simpl. by rewrite Hrest, app_assoc.
      * intros Hc. destruct (Hok Hc) as [-> <-]. done.
    + exists [n], b, None, [b]. simpl. rewrite Hr, Hw, app_nil_r. split_and!; try done; [by repeat constructor|]. exists []. by rewrite app_nil_r.
  - exists [n], [], (Some x), []. simpl. rewrite Hr. split_and!; try done; [by repeat constructor|by exists []|]. by destruct x.
  - exists [], [], None, []. split_and!; try done. by exists [].
Qed.

Lemma io_copy_copies : (0 < n)%nat → copies io_copy.
Proof. intros Hn r w. exists on_write, on_flush. by apply copy_loop_copies. Qed.
End io_copy.

(** A client that takes everything. *)
Definition sample_copy := io_copy (C := unit) 7 (λ _ b, Wrote (length b)) (λ _, Flushed).

Lemma success_means_delivered_witness :
  let '(o, w) := runTranslatedStream sample_copy (echo_reader echo_body 0 0) None None in
  classifyStreamObservation o = streamOutcomeSuccess ∧
  ops w = delivered_ops [lit "event: delta" ++ [LF] ++ lit "data: a" ++ [LF; LF]; lit "event: delta" ++ [LF] ++ lit "data: b" ++ [LF; LF];
    lit "event: stop" ++ [LF] ++ lit "data: {}" ++ [LF; LF]].
Proof.
  destruct (runTranslatedStream sample_copy (echo_reader echo_body 0 0) None None) as [o w] eqn:Hr.
  assert (classifyStreamObservation o = streamOutcomeSuccess) as Ho
    by (change o with (fst (o, w)); rewrite <- Hr; vm_compute; reflexivity).
  split; [exact Ho|].
  pose proof (success_means_delivered sample_copy (io_copy_copies 7 _ _ ltac:(lia)) 0 0 echo_body StreamEOF [] tt 0 0 0 None None o w
    ltac:(vm_compute; by split) Hr) as Hx.
  assert (conversion (reader_limits 0 0 StreamEOF [] 0 0 0) (S (length echo_body)) echo_body 0 tt =
    ([{| Events := [{| fe_Type := lit "delta"; fe_Data := lit "a" |}]; Terminal := false |};
      {| Events := [{| fe_Type := lit "delta"; fe_Data := lit "b" |}]; Terminal := false |};
      {| Events := [{| fe_Type := lit "stop"; fe_Data := lit "{}" |}]; Terminal := true |}], Some Complete, tt)) as Hc by (vm_compute; reflexivity).
  rewrite Hc in Hx. destruct (proj1 (proj1 Hx) Ho) as (_ & _ & _ & _ & _ & _ & _ & Hops). rewrite Hops. vm_compute. reflexivity.
Defined.

(** ** Divergences *)

Definition observed (r : convertingReader) : streamOutcome * option read_error * bool :=
  let '(o, _) := runTranslatedStream sample_copy r None None in (classifyStreamObservation o, ReaderErr o, SawErrorEvent o).

(** A frame this side generates that is larger than its own bound is blamed on the
    upstream. *)
Lemma generated_bound_blames_upstream :
  observed (echo_reader (lit "data: " ++ repeat "a"%char 1100 ++ [LF; LF]) 1024 100) =
  (streamOutcomeUpstreamFailure, Some (Failed (SSEBound false 1024)), true).
Proof. vm_compute. reflexivity. Qed.

(** The bounded text of an error may end inside a rune. *)
Lemma truncation_splits_runes :
  let text := repeat "a"%char 6 ++ map ascii_of_nat [195; 169]%nat ++ repeat "a"%char 10 in
  ValidString text = true ∧ ValidString (truncateErrorText text 10) = false.
Proof. vm_compute. by split. Qed.
