(* ===== verification/ApiErrors.v ===== *)
(** * Errors in the client's dialect ([internal/transcode/errors.go], [stream_adapter.go])

    The canonical form of every error, its defaults, the documents and the event frames
    it is rendered to.  [json.Unmarshal] of an upstream's error document is a parameter:
    the members of the envelope, when it is one. *)

From Stdlib Require Import ZArith Lia Bool List Ascii String.
From stdpp Require Import strings pretty gmap list.
From S2P Require Import Prelude GoStd GoStr GoText GoHttp Sse Suite.

Open Scope string_scope.
Open Scope Z_scope.

(** ** [http.StatusText] *)

Definition status_texts : list (Z * string) :=
  [(100, "Continue"); (101, "Switching Protocols"); (102, "Processing"); (103, "Early Hints");
   (200, "OK"); (201, "Created"); (202, "Accepted"); (203, "Non-Authoritative Information"); (204, "No Content");
   (205, "Reset Content"); (206, "Partial Content"); (207, "Multi-Status"); (208, "Already Reported"); (226, "IM Used");
   (300, "Multiple Choices"); (301, "Moved Permanently"); (302, "Found"); (303, "See Other"); (304, "Not Modified");
   (305, "Use Proxy"); (307, "Temporary Redirect"); (308, "Permanent Redirect");
   (400, "Bad Request"); (401, "Unauthorized"); (402, "Payment Required"); (403, "Forbidden"); (404, "Not Found");
   (405, "Method Not Allowed"); (406, "Not Acceptable"); (407, "Proxy Authentication Required"); (408, "Request Timeout");
   (409, "Conflict"); (410, "Gone"); (411, "Length Required"); (412, "Precondition Failed"); (413, "Request Entity Too Large");
   (414, "Request URI Too Long"); (415, "Unsupported Media Type"); (416, "Requested Range Not Satisfiable");
   (417, "Expectation Failed"); (418, "I'm a teapot"); (421, "Misdirected Request"); (422, "Unprocessable Entity");
   (423, "Locked"); (424, "Failed Dependency"); (425, "Too Early"); (426, "Upgrade Required"); (428, "Precondition Required");
   (429, "Too Many Requests"); (431, "Request Header Fields Too Large"); (451, "Unavailable For Legal Reasons");
   (500, "Internal Server Error"); (501, "Not Implemented"); (502, "Bad Gateway"); (503, "Service Unavailable");
   (504, "Gateway Timeout"); (505, "HTTP Version Not Supported"); (506, "Variant Also Negotiates"); (507, "Insufficient Storage");
   (508, "Loop Detected"); (510, "Not Extended"); (511, "Network Authentication Required")].

Definition StatusText (code : Z) : str :=
  match find (λ p, p.1 =? code) status_texts with Some p => lit p.2 | None => [] end.

(** ** Data *)

Inductive ClientProtocol := ClientResponses | ClientMessages.
Inductive UpstreamProtocol := UpstreamChatCompletions | UpstreamResponses | UpstreamMessages.

Record CanonicalAPIError := {
  ae_Status : Z;
  ae_Type : str;
  ae_Code : str;
  ae_Message : str;
  ae_Param : str;
  ae_RequestID : str;
  ae_RetryAfter : str;
}.

Definition with_message (m : str) (e : CanonicalAPIError) : CanonicalAPIError :=
  {| ae_Status := ae_Status e; ae_Type := ae_Type e; ae_Code := ae_Code e; ae_Message := m; ae_Param := ae_Param e;
     ae_RequestID := ae_RequestID e; ae_RetryAfter := ae_RetryAfter e |}.

(** A local error. *)
Definition api_error (status : Z) (type code message : str) : CanonicalAPIError :=
  {| ae_Status := status; ae_Type := type; ae_Code := code; ae_Message := message; ae_Param := []; ae_RequestID := []; ae_RetryAfter := [] |}.

(** ** Defaults *)

Definition typeForStatus (status : Z) : str :=
  if existsb (Z.eqb status) [400; 404; 409; 413; 422] then lit "invalid_request_error"
  else if status =? 401 then lit "authentication_error"
  else if status =? 403 then lit "permission_error"
  else if status =? 429 then lit "rate_limit_error"
  else if status =? 529 then lit "overloaded_error"
  else if 500 <=? status then lit "api_error" else lit "invalid_request_error".

(** [strings.ReplaceAll] of spaces by underscores. *)
Definition underscored (s : str) : str := map (λ c, if byte_eqb c " " then "_"%char else c) s.

Definition codeForStatus (status : Z) : str :=
  if status =? 413 then lit "request_too_large"
  else if status =? 429 then lit "rate_limit_exceeded"
  else if status =? 529 then lit "overloaded"
  else match underscored (map lower_ascii (StatusText status)) with [] => lit "api_error" | c => c end.

Definition or_else (s d : str) : str := match s with [] => d | _ => s end.

Definition normalizeCanonicalError (e : CanonicalAPIError) : CanonicalAPIError :=
  let status := if ae_Status e =? 0 then 502 else ae_Status e in
  {| ae_Status := status; ae_Type := or_else (ae_Type e) (typeForStatus status); ae_Code := or_else (ae_Code e) (codeForStatus status);
     ae_Message := or_else (ae_Message e) (StatusText status); ae_Param := ae_Param e; ae_RequestID := ae_RequestID e;
     ae_RetryAfter := ae_RetryAfter e |}.

Definition anthropicErrorType (e : CanonicalAPIError) : str :=
  let s := ae_Status e in
  if (s =? 400) || (s =? 422) then lit "invalid_request_error"
  else if s =? 401 then lit "authentication_error"
  else if s =? 403 then lit "permission_error"
  else if s =? 404 then lit "not_found_error"
  else if s =? 413 then lit "request_too_large"
  else if s =? 429 then lit "rate_limit_error"
  else if s =? 529 then lit "overloaded_error"
  else lit "api_error".

(** ** The upstream's document *)

(** [strings.Fields]: the parts between white space. *)
Fixpoint fields (skip : nat) (cur s : str) : list str :=
  match s with
  | [] => match cur with [] => [] | _ => [cur] end
  | c :: s' =>
      match skip with
      | S skip => fields skip [] s'
      | O =>
          match space_head s with
          | Some n => match cur with [] => fields (n - 1) [] s' | _ => cur :: fields (n - 1) [] s' end
          | None => fields 0 (cur ++ [c]) s'
          end
      end
  end.

Definition Fields (s : str) : list str := fields 0 [] s.

Definition joined_by_space (l : list str) : str := concat (imap (λ i s, if (i =? 0)%nat then s else " "%char :: s) l).

Definition sanitizeErrorText (body : str) : str :=
  match TrimSpace body with
  | [] => lit "upstream returned an error without a response body"
  | body =>
      let text := joined_by_space (Fields body) in
      if (2048 <? length text)%nat then take 2048 text ++ ellipsis else text
  end.

Fixpoint firstNonEmpty (l : list str) : str := match l with [] => [] | [] :: l => firstNonEmpty l | s :: _ => s end.

(** The members of an error envelope: for OpenAI the message, type, param and code
    ([rawScalarString] applied), for Anthropic the message, type and request id. *)
Record envelope := { env_Message : str; env_Type : str; env_Param : str; env_Code : str; env_RequestID : str }.

Section read.
Context (openai anthropic : str → option envelope).

(** An envelope with a message. *)
Definition envelope_of (protocol : UpstreamProtocol) (body : str) : option envelope :=
  match (match protocol with UpstreamMessages => anthropic | _ => openai end) body with
  | Some env => match env_Message env with [] => None | _ => Some env end
  | None => None
  end.

(** The body up to the failure that ends it, which comes with a read of its own; an error
    is its text. *)
Definition ReadCanonicalUpstreamError (status : Z) (header : Header) (body : str) (failure : option str) (protocol : UpstreamProtocol)
    (maxBytes : Z) : result str CanonicalAPIError :=
  let max := if maxBytes <=? 0 then 1048576 else maxBytes in
  if max <? Z.of_nat (length body) then Err (lit "upstream error body exceeds the configured limit")
  else match failure with
  | Some text => Err text
  | None =>
    let requestID := firstNonEmpty [header_Get (lit "x-request-id") header; header_Get (lit "request-id") header; header_Get (lit "x-amzn-requestid") header] in
    let retryAfter := header_Get (lit "Retry-After") header in
    Ok (normalizeCanonicalError
      match envelope_of protocol body with
      | Some env =>
          match protocol with
          | UpstreamMessages =>
              {| ae_Status := status; ae_Type := env_Type env; ae_Code := []; ae_Message := env_Message env; ae_Param := [];
                 ae_RequestID := or_else requestID (env_RequestID env); ae_RetryAfter := retryAfter |}
          | _ =>
              {| ae_Status := status; ae_Type := env_Type env; ae_Code := env_Code env; ae_Message := env_Message env;
                 ae_Param := env_Param env; ae_RequestID := requestID; ae_RetryAfter := retryAfter |}
          end
      | None =>
          {| ae_Status := status; ae_Type := typeForStatus status; ae_Code := codeForStatus status; ae_Message := sanitizeErrorText body;
             ae_Param := []; ae_RequestID := requestID; ae_RetryAfter := retryAfter |}
      end)
  end.
End read.

(** ** Documents *)

Definition error_document (client : ClientProtocol) (e : CanonicalAPIError) : str :=
  match client with
  | ClientResponses =>
      openai_error (ae_Message e) (ae_Type e) (match ae_Param e with [] => lit "null" | p => json_string p end) (ae_Code e)
  | ClientMessages =>
      lit "{" ++ member (lit "type") (json_string (lit "error")) ++ lit "," ++
      member (lit "error") (lit "{" ++ member (lit "type") (json_string (anthropicErrorType e)) ++ lit "," ++
                            member (lit "message") (json_string (ae_Message e)) ++ lit "}") ++
      (match ae_RequestID e with [] => [] | id => lit "," ++ member (lit "request_id") (json_string id) end) ++ lit "}"
  end.

Definition request_id_header (client : ClientProtocol) : str :=
  match client with ClientResponses => lit "X-Request-Id" | ClientMessages => lit "Request-Id" end.

(** ** Frames *)

Definition anthropic_event (type message : str) : str :=
  lit "{" ++ member (lit "type") (json_string (lit "error")) ++ lit "," ++
  member (lit "error") (lit "{" ++ member (lit "type") (json_string type) ++ lit "," ++ member (lit "message") (json_string message) ++ lit "}") ++
  lit "}".

Definition responses_event (sequence : Z) (code message : str) : str :=
  lit "{" ++ member (lit "type") (json_string (lit "error")) ++ lit "," ++ member (lit "sequence_number") (lit (pretty sequence)) ++ lit "," ++
  member (lit "code") (json_string code) ++ lit "," ++ member (lit "message") (json_string message) ++ lit "," ++
  member (lit "param") (json_string []) ++ lit "}".

(** What [WriteCommittedStreamError] writes. *)
Definition committed_event (client : ClientProtocol) (e : CanonicalAPIError) : str :=
  match client with
  | ClientMessages => anthropic_event (anthropicErrorType e) (ae_Message e)
  | ClientResponses => responses_event 0 (or_else (ae_Code e) (lit "conversion_error")) (ae_Message e)
  end.

Definition maxStreamErrorTextBytes : Z := 4096.

Definition boundedErrorMessage (text : str) : str := BoundErrorMessage text maxStreamErrorTextBytes.

Definition responsesErrorFrame (text : str) (sequence : Z) : frameEvent :=
  {| fe_Type := lit "error"; fe_Data := responses_event sequence (lit "conversion_error") (boundedErrorMessage text) |}.

Definition anthropicErrorFrame (text : str) : frameEvent :=
  {| fe_Type := lit "error"; fe_Data := anthropic_event (lit "api_error") (boundedErrorMessage text) |}.
