(* ===== verification/HttpHeaders.v ===== *)
(** * Headers of a converted exchange ([internal/transcode/headers.go], [handler.go])

    What is removed of a header map on its way, what of an upstream's headers a client
    may see, and which requests ask for an upgrade. *)

From Stdlib Require Import ZArith Lia Bool List Ascii String.
From stdpp Require Import strings gmap list.
From S2P Require Import Prelude GoStd GoStr GoHttp.

Open Scope string_scope.
Open Scope Z_scope.

(** ** Hop-by-hop headers *)

Definition fixedHopByHopHeaders : list str :=
  map lit ["Connection"; "Proxy-Connection"; "Keep-Alive"; "Proxy-Authenticate"; "Proxy-Authorization"; "Te"; "Trailer";
           "Transfer-Encoding"; "Upgrade"].

Definition ValidHTTPFieldName (s : str) : bool := match s with [] => false | _ => forallb is_tchar s end.

(** [textproto.TrimString]. *)
Definition is_ascii_space (c : ascii) : bool := existsb (byte_eqb c) [" "%char; "009"%char; "010"%char; "013"%char].

Fixpoint trim_left (s : str) : str := match s with c :: s' => if is_ascii_space c then trim_left s' else s | [] => [] end.

Definition TrimString (s : str) : str := rev (trim_left (rev (trim_left s))).

(** The tokens of the [Connection] headers that are names. *)
Definition nominated (h : Header) : list str :=
  header_Values (lit "Connection") h ≫= λ v, List.filter ValidHTTPFieldName (map TrimString (Split "," v)).

Definition delete_all (names : list str) (h : Header) : Header := fold_left (λ h name, header_Del name h) names h.

Definition RemoveHopByHopHeaders (h : Header) : Header := delete_all fixedHopByHopHeaders (delete_all (nominated h) h).

(** ** The representation *)

Definition representationHeaders : list str :=
  map lit ["Content-Length"; "Content-Encoding"; "Content-Md5"; "Content-Range"; "Accept-Ranges"; "Digest"; "Content-Digest";
           "Repr-Digest"; "Etag"; "Last-Modified"; "Signature"; "Signature-Input"].

Definition RemoveTransformedRepresentationHeaders (h : Header) : Header := delete_all representationHeaders h.

(** ** What the client may see *)

Section headers.
Context `{UnicodeTables}.

Definition allowedResponseHeaders : list str :=
  map lit ["x-request-id"; "request-id"; "x-amzn-requestid"; "x-amz-request-id"; "x-amz-id-2"; "retry-after"].

Definition isAllowedResponseHeader (name : str) : bool :=
  let lower := ToLower name in
  existsb (str_eqb lower) allowedResponseHeaders || HasPrefix lower (lit "x-ratelimit-") || HasPrefix lower (lit "anthropic-ratelimit-").

(** The headers of [src] are visited in some order. *)
Definition add_values (name : str) (values : list str) (h : Header) : Header := fold_left (λ h v, header_Add name v h) values h.

Definition copyResponseHeaders (dst src : Header) : Header :=
  fold_left (λ h p, if isAllowedResponseHeader p.1 then add_values p.1 p.2 h else h) (map_to_list src) dst.

(** ** Upgrades *)

Definition isUpgradeRequest (h : Header) : bool :=
  match header_Values (lit "Upgrade") h with
  | _ :: _ => true
  | [] => existsb (λ v, existsb (λ token, EqualFold (TrimSpace token) (lit "upgrade")) (Split "," v)) (header_Values (lit "Connection") h)
  end.
End headers.

(** ** Lookups *)

Lemma lookup_delete_all (names : list str) (h : Header) k :
  delete_all names h !! k = if bool_decide (k ∈ map CanonicalHeaderKey names) then None else h !! k.
Proof.
  unfold delete_all. revert h. induction names as [|n names IH]; intros h; simpl; [done|]. rewrite IH. unfold header_Del.
  destruct (decide (k ∈ map CanonicalHeaderKey names)) as [Hin|Hin]; [rewrite !bool_decide_eq_true_2 by (try done; by right); done|].
  rewrite bool_decide_eq_false_2 by done. destruct (decide (k = CanonicalHeaderKey n)) as [->|Hne].
  - rewrite lookup_delete_eq. by rewrite bool_decide_eq_true_2 by left.
  - rewrite lookup_delete_ne by done. rewrite bool_decide_eq_false_2; [done|]. by intros [?|?]%elem_of_cons.
Qed.

(** What hop-by-hop headers are: the fixed ones and the nominated ones. *)
Definition hop_by_hop (h : Header) (k : str) : Prop :=
  k ∈ map CanonicalHeaderKey fixedHopByHopHeaders ∨ k ∈ map CanonicalHeaderKey (nominated h).

Lemma RemoveHopByHop_kept (h : Header) k (vs : list str) : RemoveHopByHopHeaders h !! k = Some vs ↔ h !! k = Some vs ∧ ¬ hop_by_hop h k.
Proof.
  unfold RemoveHopByHopHeaders, hop_by_hop. rewrite !lookup_delete_all. repeat case_bool_decide; intuition congruence.
Qed.

Lemma delete_all_kept (names : list str) (h : Header) k vs : delete_all names h !! k = Some vs → h !! k = Some vs.
Proof. rewrite lookup_delete_all. by case_bool_decide. Qed.

Section copy.
Context `{UnicodeTables}.

Lemma token_ascii c : is_tchar c = true → is_ascii c = true.
Proof. destruct c as [[] [] [] [] [] [] [] []]; vm_compute; done. Qed.

Lemma ToLower_token s : forallb is_tchar s = true → ToLower s = map lower_ascii s.
Proof.
  intros Hs. unfold ToLower. assert (forallb is_ascii s = true) as ->; [|done].
  apply forallb_forall. intros c Hc. apply token_ascii. by eapply forallb_forall in Hs.
Qed.

(** Whether a header may be seen does not depend on its spelling. *)
Lemma allowed_canonical name : isAllowedResponseHeader (CanonicalHeaderKey name) = isAllowedResponseHeader name.
Proof.
  unfold isAllowedResponseHeader. assert (ToLower (CanonicalHeaderKey name) = ToLower name) as ->; [|done].
  unfold CanonicalHeaderKey. destruct (forallb is_tchar name) eqn:Hn; [|done]. rewrite (ToLower_token name) by done.
  rewrite ToLower_token; [apply lower_canon|]. by rewrite <- token_lower, lower_canon, token_lower.
Qed.

(** The values a name has been given. *)
Lemma add_values_lookup (name : str) (vs : list str) (h : Header) k vs' : add_values name vs h !! k = Some vs' →
  h !! k = Some vs' ∨ (k = CanonicalHeaderKey name ∧ ∀ v, v ∈ vs' → v ∈ default [] (h !! k) ∨ v ∈ vs).
Proof.
  revert h. unfold add_values. induction vs as [|v vs IH]; intros h; simpl; [by left|]. intros [Hk|[-> Hv]]%IH.
  - unfold header_Add in Hk. destruct (decide (k = CanonicalHeaderKey name)) as [->|Hne].
    + rewrite lookup_insert_eq in Hk. injection Hk as <-. right. split; [done|].
      intros x [?|Hx]%elem_of_app; [by left|]. apply list_elem_of_singleton in Hx as ->. right; by left.
    + rewrite lookup_insert_ne in Hk by done. by left.
  - right. split; [done|]. intros x Hx%Hv. unfold header_Add in Hx. rewrite lookup_insert_eq in Hx. simpl in Hx.
    destruct Hx as [[?|Hx]%elem_of_app|]; [by left| |right; by right]. apply list_elem_of_singleton in Hx as ->. right; by left.
Qed.

(** Nothing is copied but what is allowed. *)
Lemma copyResponseHeaders_lookup (dst src : Header) k vs : copyResponseHeaders dst src !! k = Some vs →
  dst !! k = Some vs ∨
  (isAllowedResponseHeader k = true ∧
   ∀ v, v ∈ vs → v ∈ default [] (dst !! k) ∨ ∃ name vs', src !! name = Some vs' ∧ CanonicalHeaderKey name = k ∧ v ∈ vs').
Proof.
  unfold copyResponseHeaders. assert (∀ p, p ∈ map_to_list src → src !! p.1 = Some p.2) as Hsrc by (intros [n ns]; apply elem_of_map_to_list).
  revert dst Hsrc. induction (map_to_list src) as [|[name vs0] l IH]; intros dst Hsrc; simpl; [by left|].
  assert (src !! name = Some vs0) as Hname by (apply (Hsrc (name, vs0)); left).
  specialize (IH (if isAllowedResponseHeader name then add_values name vs0 dst else dst)).
  intros [Hk|[Hal Hv]]%IH; [..|intros p Hp; apply Hsrc; by right].
  - destruct (isAllowedResponseHeader name) eqn:Hal; [|by left].
    apply add_values_lookup in Hk as [Hk|[-> Hv]]; [by left|]. right. split; [by rewrite allowed_canonical|].
    intros v [?|?]%Hv; [by left|right; eauto].
  - right. split; [done|]. intros v [Hd|Hx]%Hv; [|by right]. destruct (isAllowedResponseHeader name) eqn:Hn; [|by left].
    destruct (add_values name vs0 dst !! k) as [vs1|] eqn:Hl; [|by apply not_elem_of_nil in Hd]. simpl in Hd.
    apply add_values_lookup in Hl as [Hl|[-> Hl]]; [left; by rewrite Hl|]. apply Hl in Hd as [?|?]; [by left|right; eauto].
Qed.
End copy.
