(* ===== verification/Handler.v ===== *)
(** * The transcoding handler ([internal/transcode/handler.go])

    [ServeHTTP] as a function from what it observes to the ordered log of its effects:
    the round trip, what it writes to the client, and the outcome it records.  The two
    conversions of a whole body, the construction of the upstream's request, the round
    trip, the converter of a stream and [mime.ParseMediaType] are fields of its
    configuration; the context is read at named points, and the client's writer answers
    each call as it likes. *)

From Stdlib Require Import ZArith Lia Bool List Ascii String.
From stdpp Require Import strings pretty gmap list.
From S2P Require Import Prelude GoStd GoStr GoText GoHttp RetryAfter Retry Sse Budget Suite Recorder StreamReader StreamWriter StreamRun ApiErrors HttpHeaders.

Open Scope string_scope.
Open Scope Z_scope.

(** ** Errors *)

(** What [errors.Is] and [errors.AsType] look for. *)
Inductive sentinel :=
| ContextCanceled
| ContextDeadlineExceeded
| DecodedRequestTooLarge
| EchoTooLarge
| ClientQueryParameter
| AuthInboundCredential
| Signing
| CircuitOpenRejection
| UpstreamSemanticFailure
| UpstreamWireFailure.

#[export] Instance sentinel_eq_dec : EqDecision sentinel.
Proof. solve_decision. Defined.

(** An error: its text and what is found in its tree. *)
Record failure := { failure_text : str; marks : list sentinel }.

Definition Is (s : sentinel) (e : failure) : bool := bool_decide (s ∈ marks e).

Definition isContextCancellationError (e : failure) : bool := Is ContextCanceled e || Is ContextDeadlineExceeded e.

(** ** Data *)

Record request := { rq_Header : GoHttp.Header; rq_Body : str; rq_Failure : option failure }.

Record response := { rs_Status : Z; rs_Header : GoHttp.Header; rs_Body : str; rs_Failure : option failure }.

(** The points at which the context's error is read. *)
Inductive stage := AfterRequestBody | AfterConversion | AfterRoundTrip | AfterResponseBody | AfterCopy | AfterWrite.

Inductive hevent {outgoing : Type} :=
| HRoundTrip (out : outgoing)
| HResponse
| HClose
| HSuppressComment
| HHeader (status : Z) (h : GoHttp.Header)
| HWrite (b : str)
| HFlush
| HOutcome (o : Outcome) (s : streamOutcome).
Arguments hevent : clear implicits.

(** ** Configuration *)

Record HandlerConfig {outgoing C : Type} := {
  client : ClientProtocol;
  upstream : UpstreamProtocol;
  limits : BodyLimits;
  ParseTime : str → option Time;
  ParseMediaType : str → option str;
  openai_envelope : str → option envelope;
  anthropic_envelope : str → option envelope;
  (** The request for the upstream, and whether it is to stream. *)
  convertRequest : request → str → result failure (str * bool);
  buildUpstreamRequest : request → str → bool → result failure outgoing;
  (** The headers of the Opencode preset, if it is enabled. *)
  opencode : request → str → outgoing → outgoing;
  (** An error may come with a response. *)
  roundTrip : outgoing → result (failure * bool) response;
  (** [json.Unmarshal] to the client's document, when the direction is supported. *)
  convertBody : str → result failure str;
  converter : C;
  proxy : convertingReader (C := C) → sealedSSEWriter → convertingReader (C := C) * sealedSSEWriter * option goerr;
}.
Arguments HandlerConfig : clear implicits.

(** What one exchange observes besides its request. *)
Record observed := {
  ob_Header : GoHttp.Header;
  ob_ctx : stage → option goerr;
  ob_committed : bool;
  ob_sink : bool;
  ob_receivedAt : Time;
  ob_evaluatedAt : Time;
  ob_write : str → nat * option failure;
  ob_flush : option failure;
  ob_close : option goerr;
}.

(** Reading a body up to a bound: its failure comes with a read of its own. *)
Inductive body_read := BodyRead (b : str) | BodyTooLarge | BodyFailed (e : failure).

Definition read_limited (max : Z) (body : str) (f : option failure) : body_read :=
  if max <? Z.of_nat (length body) then BodyTooLarge else match f with Some e => BodyFailed e | None => BodyRead body end.

(** ** Outcomes *)

Definition outcome (attempted : bool) (status : option Z) (failed : bool) (retryAfter : option Duration) (p : ExchangeProvenance)
    (aborted complete isLocal circuit : bool) : Outcome :=
  {| o_UpstreamAttempted := attempted; o_UpstreamStatus := status; o_UpstreamFailure := failed; o_RetryAfter := retryAfter;
     o_Provenance := p; o_ClientAborted := aborted; o_DownstreamComplete := complete; o_LocalFailure := isLocal;
     o_CircuitRejected := circuit |}.

Definition clientAbort : Outcome := outcome false None false None ProvenanceClientAbort true false false false.

(** The outcome after the error document was written, or was not. *)
Definition after_write (failed cancelled : bool) (o : Outcome) : Outcome :=
  if failed then
    if cancelled
    then outcome (o_UpstreamAttempted o) (o_UpstreamStatus o) (o_UpstreamFailure o) (o_RetryAfter o) ProvenanceClientAbort
           true (o_DownstreamComplete o) (o_LocalFailure o) (o_CircuitRejected o)
    else outcome (o_UpstreamAttempted o) (o_UpstreamStatus o) (o_UpstreamFailure o) (o_RetryAfter o) ProvenanceDownstreamWriteError
           (o_ClientAborted o) (o_DownstreamComplete o) (o_LocalFailure o) (o_CircuitRejected o)
  else outcome (o_UpstreamAttempted o) (o_UpstreamStatus o) (o_UpstreamFailure o) (o_RetryAfter o) (o_Provenance o)
         (o_ClientAborted o) true (o_LocalFailure o) (o_CircuitRejected o).

Definition is_request_side (p : ExchangeProvenance) : bool := bool_decide (p = ProvenanceLocalRequestConversionError).

Definition is_local (p : ExchangeProvenance) : bool :=
  match p with
  | ProvenanceLocalRequestConversionError | ProvenanceLocalResponseConversionError | ProvenanceLocalStreamValidationError => true
  | _ => false
  end.

Section handler.
Context {outgoing C : Type} `{frameConverter C} `{UnicodeTables} (cfg : HandlerConfig outgoing C) (ob : observed).
Abbreviation event := (hevent outgoing).

Definition cancelled (s : stage) : bool := present (ob_ctx ob s).

Definition boundErrorMessage (m : str) : str := BoundErrorMessage m (ErrorMessageBytes (limits cfg)).

(** ** Writing errors *)

Definition write_failed (b : str) : bool :=
  let '(n, e) := ob_write ob b in present e || negb (n =? length b)%nat.

Definition dialect_header (e : CanonicalAPIError) : GoHttp.Header :=
  let h := header_Set (lit "Content-Type") (lit "application/json")
             (RemoveTransformedRepresentationHeaders (RemoveHopByHopHeaders (ob_Header ob))) in
  let h := match ae_RetryAfter e with [] => h | v => header_Set (lit "Retry-After") v h end in
  let h := match ae_RequestID e with [] => h | id => header_Set (request_id_header (client cfg)) id h end in
  header_Set (lit "Content-Length") (lit (pretty (Z.of_nat (length (error_document (client cfg) e))))) h.

Definition WriteDialectHTTPError (e : CanonicalAPIError) : list event * bool :=
  let e := normalizeCanonicalError e in
  let payload := error_document (client cfg) e in
  ([HHeader (ae_Status e) (dialect_header e); HWrite payload], write_failed payload).

Definition committed_frame (e : CanonicalAPIError) : str :=
  lit "event: error" ++ [LF] ++ lit "data: " ++ committed_event (client cfg) e ++ [LF; LF].

(** [fmt.Fprintf] answers with the writer's error. *)
Definition WriteCommittedStreamError (e : CanonicalAPIError) : list event * bool :=
  let e := normalizeCanonicalError e in
  let frame := committed_frame e in
  let prefix := [HSuppressComment; HHeader (ae_Status e) (ob_Header ob); HWrite frame] in
  if present (ob_write ob frame).2 then (prefix, true) else ((prefix ++ [HFlush])%list, present (ob_flush ob)).

Definition writeDialectOrCommittedStreamError (e : CanonicalAPIError) : list event * bool :=
  if ob_committed ob then WriteCommittedStreamError e else WriteDialectHTTPError e.

(** An error document, and the outcome it leaves. *)
Definition write_error (e : CanonicalAPIError) (o : Outcome) : list event :=
  let '(l, failed) := writeDialectOrCommittedStreamError (with_message (boundErrorMessage (ae_Message e)) e) in
  (l ++ [HOutcome (after_write failed (cancelled AfterWrite) o) streamOutcomeSuccess])%list.

Definition writeDialectHTTPError (e : CanonicalAPIError) (p : ExchangeProvenance) : list event :=
  let upstreamFailure :=
    match p with
    | ProvenanceUpstreamTransportError => true
    | ProvenanceUpstreamHTTP | ProvenanceUpstreamBodyError =>
        (ae_Status e =? 429) || ((500 <=? ae_Status e) && (ae_Status e <? 600)) ||
        ((ae_Status e =? 403) && negb (str_eqb (ae_RetryAfter e) []))
    | _ => false
    end in
  write_error e (outcome (negb (is_request_side p)) (Some (ae_Status e)) upstreamFailure None p false false (is_local p) false).

Definition writeLocalError (status : Z) (message : str) (p : ExchangeProvenance) : list event :=
  writeDialectHTTPError (api_error status (typeForStatus status) (codeForStatus status) message) p.

Definition writeCircuitOpenError : list event :=
  write_error (api_error 503 (lit "api_error") (lit "circuit_open") (lit "circuit open"))
    (outcome false (Some 503) false None ProvenanceLocalRequestConversionError false false true true).

(** The hold an upstream signals, measured from the receipt of its headers. *)
Definition retry_after (h : GoHttp.Header) : option Duration :=
  if str_eqb (header_Get (lit "Retry-After") h) [] then None
  else Some (ParseRetryAfter (ParseTime cfg) (Some (map_to_list h)) (ob_receivedAt ob) (ob_evaluatedAt ob)).

Definition writeUpstreamHTTPError (resp : response) (e : CanonicalAPIError) : list event :=
  let failed := IsFailureStatusWithHeaders (ParseTime cfg) (ae_Status e) (Some (map_to_list (rs_Header resp))) (ob_receivedAt ob) (ob_evaluatedAt ob) in
  write_error e (outcome true (Some (ae_Status e)) failed (retry_after (rs_Header resp)) ProvenanceUpstreamHTTP false false false false).

Definition writeUpstreamBodyError (resp : response) (e : CanonicalAPIError) : list event :=
  write_error e (outcome true (Some (ae_Status e)) true (retry_after (rs_Header resp)) ProvenanceUpstreamBodyError false false false false).

Definition writeUpstreamSemanticFailure (e : CanonicalAPIError) (upstreamStatus : Z) : list event :=
  write_error e (outcome true (Some upstreamStatus) true None ProvenanceUpstreamHTTP false false false false).

Definition abort : list event := [HOutcome clientAbort streamOutcomeSuccess].

(** ** Whole responses *)

(** The directions a whole response and a stream are converted in. *)
Definition supported : bool :=
  match client cfg, upstream cfg with
  | ClientResponses, UpstreamChatCompletions | ClientMessages, UpstreamChatCompletions | ClientMessages, UpstreamResponses => true
  | _, _ => false
  end.

Definition conversionProvenance (e : failure) : ExchangeProvenance :=
  if Is UpstreamWireFailure e then ProvenanceUpstreamBodyError else ProvenanceLocalResponseConversionError.

Definition protocol_name (u : UpstreamProtocol) : str :=
  lit match u with UpstreamResponses => "responses" | UpstreamMessages => "messages" | UpstreamChatCompletions => "chat-completions" end.

Definition client_name : str := lit match client cfg with ClientResponses => "responses" | ClientMessages => "messages" end.

Definition quoted (s : str) : str := [quote_char] ++ s ++ [quote_char].

Definition plain_failure (text : str) : failure := {| failure_text := text; marks := [] |}.

Definition convertResponse (body : str) : result (ExchangeProvenance * failure) str :=
  if supported then match convertBody cfg body with Ok b => Ok b | Err e => Err (conversionProvenance e, e) end
  else Err (ProvenanceLocalResponseConversionError,
            plain_failure (lit "unsupported upstream protocol " ++ quoted (protocol_name (upstream cfg)) ++ lit " for " ++ client_name ++ lit " client")).

Definition bad_gateway (code message : str) : CanonicalAPIError := api_error 502 (lit "api_error") code message.

Definition json_header (resp : response) (length : nat) : GoHttp.Header :=
  header_Set (lit "Content-Length") (lit (pretty (Z.of_nat length)))
    (header_Set (lit "Content-Type") (lit "application/json")
      (RemoveTransformedRepresentationHeaders (copyResponseHeaders (ob_Header ob) (RemoveHopByHopHeaders (rs_Header resp))))).

Definition jsonResponse (resp : response) : list event :=
  match read_limited (or_default (SuccessfulResponseBytes (limits cfg)) 33554432) (rs_Body resp) (rs_Failure resp) with
  | BodyFailed e =>
      if cancelled AfterResponseBody && isContextCancellationError e then abort
      else writeDialectHTTPError (bad_gateway (lit "upstream_body_error") (lit "read upstream response: " ++ failure_text e)) ProvenanceUpstreamBodyError
  | BodyTooLarge =>
      writeDialectHTTPError (bad_gateway (lit "upstream_response_too_large") (lit "upstream response body exceeds the configured limit"))
        ProvenanceUpstreamBodyError
  | BodyRead body =>
      match convertResponse body with
      | Err (p, e) =>
          let apiErr := bad_gateway (lit "response_conversion_error") (lit "convert response: " ++ failure_text e) in
          if Is UpstreamSemanticFailure e then writeUpstreamSemanticFailure apiErr (rs_Status resp)
          else writeDialectHTTPError apiErr p
      | Ok converted =>
          if GeneratedResponseBytes (limits cfg) <? Z.of_nat (length converted)
          then writeDialectHTTPError (bad_gateway (lit "response_conversion_error") (lit "generated response exceeds the configured limit"))
                 ProvenanceLocalResponseConversionError
          else
            let status := Some (rs_Status resp) in
            let o :=
              match (ob_write ob converted).2 with
              | Some e => if cancelled AfterWrite && isContextCancellationError e
                          then outcome true status false None ProvenanceClientAbort true false false false
                          else outcome true status false None ProvenanceDownstreamWriteError false false false false
              | None => if negb ((ob_write ob converted).1 =? length converted)%nat
                        then outcome true status false None ProvenanceDownstreamWriteError false false false false
                        else outcome true status false None ProvenanceUpstreamHTTP false true false false
              end in
            [HHeader (rs_Status resp) (json_header resp (length converted)); HWrite converted; HOutcome o streamOutcomeSuccess]
      end
  end.

(** ** Streams *)

Definition newFrameConverter : result failure C :=
  if supported then Ok (converter cfg)
  else Err (plain_failure (lit "unsupported stream direction " ++ quoted client_name ++ lit " -> " ++ quoted (protocol_name (upstream cfg)))).

Definition stream_header (resp : response) : GoHttp.Header :=
  header_Set (lit "Cache-Control") (lit "no-cache")
    (header_Set (lit "Content-Type") (lit "text/event-stream")
      (RemoveTransformedRepresentationHeaders (copyResponseHeaders (ob_Header ob) (RemoveHopByHopHeaders (rs_Header resp))))).

Definition stream_reader (resp : response) (c : C) : convertingReader :=
  newConvertingReaderWithLimits (SSELineBytes (limits cfg)) (SSEFrameBytes (limits cfg)) (rs_Body resp)
    (match rs_Failure resp with None => StreamEOF | Some _ => StreamError end)
    (match rs_Failure resp with None => [] | Some e => failure_text e end) c
    (GeneratedSSEFrameBytes (limits cfg)) (GeneratedSSEBatchBytes (limits cfg)) (ErrorMessageBytes (limits cfg)).

Definition stream_event (o : client_op) : event := match o with ClientWrite b => HWrite b | ClientFlush => HFlush end.

Definition stream_outcome (resp : response) (o : streamObservation) : Outcome :=
  let complete := negb (present (WriterErr o)) && negb (present (SealErr o)) in
  let status := Some (rs_Status resp) in
  match classifyStreamObservation o with
  | streamOutcomeSuccess => outcome true status false None ProvenanceUpstreamHTTP false complete false false
  | streamOutcomeClientAbort => outcome true status false None ProvenanceClientAbort true false false false
  | streamOutcomeUpstreamFailure =>
      outcome true status true (retry_after (RemoveHopByHopHeaders (rs_Header resp))) ProvenanceUpstreamBodyError false complete false false
  | streamOutcomeLocalConversionFailure => outcome true (Some 502) false None ProvenanceLocalResponseConversionError false complete true false
  | streamOutcomeDownstreamFailure => outcome true status false None ProvenanceDownstreamWriteError false false false false
  end.

Definition streamResponse (resp : response) : list event :=
  match newFrameConverter with
  | Err e => writeLocalError 500 (lit "build stream converter: " ++ failure_text e) ProvenanceLocalRequestConversionError
  | Ok c =>
      let '(o, w) := runTranslatedStream (proxy cfg) (stream_reader resp c) (ob_ctx ob AfterCopy) (ob_close ob) in
      HHeader (rs_Status resp) (stream_header resp) ::
      map stream_event (ops w) ++ [HClose; HOutcome (stream_outcome resp o) (classifyStreamObservation o)]
  end.

(** ** Responses *)

Definition media_type (resp : response) : option str := ParseMediaType cfg (header_Get (lit "Content-Type") (rs_Header resp)).

Definition isEventStream (resp : response) : bool :=
  match media_type resp with Some m => str_eqb m (lit "text/event-stream") | None => false end.

Definition isJSON (resp : response) : bool :=
  match media_type resp with
  | None => false
  | Some m =>
      str_eqb m (lit "application/json") ||
      match Cut "/" m with
      | Some (base, _) => str_eqb base (lit "application") && HasSuffix m (lit "+json")
      | None => false
      end
  end.

Definition respond (streamIntent : bool) (resp : response) : list event :=
  if rs_Status resp =? 101
  then writeDialectHTTPError (bad_gateway (lit "upstream_protocol_error") (lit "upstream switched protocols on a transcoded route")) ProvenanceUpstreamBodyError
  else if (rs_Status resp <? 200) || (300 <=? rs_Status resp) then
    match ReadCanonicalUpstreamError (openai_envelope cfg) (anthropic_envelope cfg) (rs_Status resp) (rs_Header resp) (rs_Body resp)
            (option_map failure_text (rs_Failure resp)) (upstream cfg) (ErrorResponseBytes (limits cfg)) with
    | Err text => writeUpstreamBodyError resp (api_error (rs_Status resp) (lit "api_error") (codeForStatus (rs_Status resp)) (lit "read upstream error body: " ++ text))
    | Ok apiErr => writeUpstreamHTTPError resp apiErr
    end
  else if isEventStream resp then
    if negb streamIntent then writeLocalError 502 (lit "upstream returned a stream for a non-streaming request") ProvenanceUpstreamBodyError
    else streamResponse resp
  else if isJSON resp then
    if streamIntent then writeLocalError 502 (lit "upstream returned a non-streaming response for a streaming request") ProvenanceUpstreamBodyError
    else jsonResponse resp
  else writeLocalError 502 (lit "upstream returned an unrecognized response content type") ProvenanceUpstreamBodyError.

(** ** The exchange *)

Definition unsupported_encoding (h : GoHttp.Header) : bool :=
  let enc := header_Get (lit "Content-Encoding") h in negb (str_eqb enc []) && negb (EqualFold (TrimSpace enc) (lit "identity")).

Definition unsupported_encoding_error : CanonicalAPIError :=
  api_error 415 (lit "invalid_request_error") (lit "unsupported_content_encoding") (lit "content-encoding is not supported on transcoded routes").

Definition intent_error : CanonicalAPIError :=
  api_error 400 (lit "invalid_request_error") (lit "stream_intent_mismatch")
    (lit "stream:false is incompatible with committed event-stream representation").

(** The request as far as the round trip: what is sent, or what is answered. *)
Definition accept_request (rq : request) : result (list event) (outgoing * bool) :=
  let local status message := Err (writeLocalError status message ProvenanceLocalRequestConversionError) in
  if isUpgradeRequest (rq_Header rq) then local 400 (lit "upgrade requests are not supported on transcoded routes")
  else if unsupported_encoding (rq_Header rq) then Err (writeDialectHTTPError unsupported_encoding_error ProvenanceLocalRequestConversionError)
  else
    match read_limited (or_default (AcceptedRequestBytes (limits cfg)) 33554432) (rq_Body rq) (rq_Failure rq) with
    | BodyFailed e =>
        if cancelled AfterRequestBody && isContextCancellationError e then Err abort
        else local 400 (lit "read request body: " ++ boundErrorMessage (failure_text e))%list
    | BodyTooLarge => local 413 (lit "request body too large")
    | BodyRead body =>
        match convertRequest cfg rq body with
        | Err e =>
            if cancelled AfterConversion && isContextCancellationError e then Err abort
            else local (if Is DecodedRequestTooLarge e || Is EchoTooLarge e then 413 else 400)
                   (lit "convert request: " ++ boundErrorMessage (failure_text e))%list
        | Ok (upstreamBody, streamIntent) =>
            if ob_committed ob && negb streamIntent then Err (writeDialectHTTPError intent_error ProvenanceLocalRequestConversionError)
            else
              match buildUpstreamRequest cfg rq upstreamBody streamIntent with
              | Err e =>
                  if Is ClientQueryParameter e || Is AuthInboundCredential e
                  then local 400 (lit "build upstream request: " ++ boundErrorMessage (failure_text e))%list
                  else local 500 (lit "build upstream request: internal error")
              | Ok out => Ok (opencode cfg rq body out, streamIntent)
              end
        end
    end.

Definition refused (e : failure) : list event :=
  if cancelled AfterRoundTrip && isContextCancellationError e then abort
  else if Is Signing e
  then writeDialectHTTPError (bad_gateway (lit "request_conversion_error") (lit "build upstream request: internal error")) ProvenanceLocalRequestConversionError
  else if Is CircuitOpenRejection e then writeCircuitOpenError
  else writeDialectHTTPError (bad_gateway (lit "upstream_transport_error") (lit "upstream request failed")) ProvenanceUpstreamTransportError.

(** The body of [ServeHTTP]. *)
Definition exchange (rq : request) : list event :=
  match accept_request rq with
  | Err answer => answer
  | Ok (out, streamIntent) =>
      HRoundTrip out ::
      match roundTrip cfg out with
      | Err (e, hasResponse) => ((if hasResponse then [HClose] else []) ++ refused e)%list
      | Ok resp => HResponse :: respond streamIntent resp
      end
  end.

(** Its deferred calls, last registered first. *)
Definition is_response (e : event) : bool := match e with HResponse => true | _ => false end.

Definition outcome_of (e : event) : list (Outcome * streamOutcome) := match e with HOutcome o s => [(o, s)] | _ => [] end.

Definition outcomes (l : list event) : list (Outcome * streamOutcome) := l ≫= outcome_of.

Definition deferred (l : list event) : list event :=
  (if existsb is_response l then [HClose] else []) ++
  (if ob_sink ob then match outcomes l with [] => [HOutcome LocalFailureOutcome streamOutcomeSuccess] | _ => [] end else []).

Definition ServeHTTP (rq : request) : list event := let l := exchange rq in l ++ deferred l.

(** A panic after [n] of its effects: the deferred calls still run. *)
Definition ServeHTTP_panic (n : nat) (rq : request) : list event := let l := take n (exchange rq) in l ++ deferred l.

(** What the sink holds. *)
Definition sink_of (l : list event) : option Outcome := fold_left (λ s o, OutcomeSink_Record o.1 s) (outcomes l) None.
End handler.
