(* ===== verification/HandlerLaws.v ===== *)
(** * What the transcoding handler does with an exchange

    The shape of its log ([conduct]), the outcome it leaves there, and what the breaker
    is told of it through [Classify]. *)

From Stdlib Require Import ZArith Lia Bool List Ascii String.
From stdpp Require Import strings pretty gmap list.
From S2P Require Import Prelude GoStd GoStr GoText GoHttp RetryAfter Retry Sse Budget Recorder Classify StreamReader StreamReaderLaws StreamWriter StreamRun.
From S2P Require Import ApiErrors HttpHeaders Handler.

Open Scope string_scope.
Open Scope Z_scope.
Open Scope list_scope.

(** ** The shape of the log *)

Section laws.
Context {outgoing C : Type} `{frameConverter C} `{UnicodeTables} (cfg : HandlerConfig outgoing C) (ob : observed).
Abbreviation event := (hevent outgoing).

(** What the client is sent: an error document, an error frame of a committed stream, or
    a converted stream; a converted document has the shape of the first. *)
Inductive reply : list event → Prop :=
| reply_document status h b : reply [HHeader status h; HWrite b]
| reply_frame status h b l : l = [] ∨ l = [HFlush] → reply ([HSuppressComment; HHeader status h; HWrite b] ++ l)
| reply_stream status h ops : reply (HHeader status h :: map stream_event ops ++ [HClose]).

(** What happens before the client is answered. *)
Inductive prelude : list event → Prop :=
| prelude_none : prelude []
| prelude_sent out : prelude [HRoundTrip out]
| prelude_failed out : prelude [HRoundTrip out; HClose]
| prelude_answered out : prelude [HRoundTrip out; HResponse].

(** An exchange of the outcome [o]. *)
Definition ends_with (l : list event) (o : Outcome) (s : streamOutcome) : Prop :=
  ∃ r, l = r ++ [HOutcome o s] ∧ (reply r ∨ (r = [] ∧ o = clientAbort)).

Definition conduct (l : list event) : Prop := ∃ pre l' o s, l = pre ++ l' ∧ prelude pre ∧ ends_with l' o s.

Lemma write_error_ends e o :
  ∃ failed, ends_with (write_error cfg ob e o) (after_write failed (cancelled ob AfterWrite) o) streamOutcomeSuccess.
Proof.
  unfold write_error, writeDialectOrCommittedStreamError, WriteCommittedStreamError, WriteDialectHTTPError, ends_with.
  repeat case_match; simplify_eq; eexists _, _; (split; [reflexivity|]); left.
  - apply (reply_frame _ _ _ []). by left.
  - apply reply_frame. by right.
  - apply reply_document.
Qed.

Lemma abort_ends : ends_with (abort (outgoing := outgoing)) clientAbort streamOutcomeSuccess.
Proof. exists []. split; [done|by right]. Qed.

Lemma ends_some_error e o : ∃ o' s, ends_with (write_error cfg ob e o) o' s.
Proof. destruct (write_error_ends e o) as [f Hf]. by eexists _, _. Qed.

Lemma ends_some_dialect e p : ∃ o' s, ends_with (writeDialectHTTPError cfg ob e p) o' s.
Proof. apply ends_some_error. Qed.

Lemma ends_some_local st m p : ∃ o' s, ends_with (writeLocalError cfg ob st m p) o' s.
Proof. apply ends_some_error. Qed.

Lemma ends_some_abort : ∃ o' s, ends_with (abort (outgoing := outgoing)) o' s.
Proof. eexists _, _. apply abort_ends. Qed.

#[local] Hint Resolve ends_some_error ends_some_dialect ends_some_local ends_some_abort : core.

Lemma json_ends resp : ∃ o s, ends_with (jsonResponse cfg ob resp) o s.
Proof.
  unfold jsonResponse. repeat case_match; eauto; try apply ends_some_error.
  all: eexists _, _, [_; _]; (split; [reflexivity|]); left; apply reply_document.
Qed.

Lemma stream_ends resp : ∃ o s, ends_with (streamResponse cfg ob resp) o s.
Proof.
  unfold streamResponse. case_match; [|eauto]. destruct (runTranslatedStream _ _ _ _) as [o w].
  eexists _, _, (HHeader _ _ :: map stream_event (ops w) ++ [HClose]). split; [simpl; by rewrite <- app_assoc|]. left. apply reply_stream.
Qed.

Lemma respond_ends intent resp : ∃ o s, ends_with (respond cfg ob intent resp) o s.
Proof. unfold respond. repeat case_match; eauto using json_ends, stream_ends; apply ends_some_error. Qed.

Lemma accept_ends rq l : accept_request cfg ob rq = Err l → ∃ o s, ends_with l o s.
Proof. unfold accept_request. repeat case_match; intros; simplify_eq; eauto. Qed.

Lemma refused_ends e : ∃ o s, ends_with (refused cfg ob e) o s.
Proof. unfold refused. repeat case_match; eauto. apply ends_some_error. Qed.

Lemma exchange_conduct rq : conduct (exchange cfg ob rq).
Proof.
  unfold exchange. destruct (accept_request cfg ob rq) as [[out intent]|l] eqn:Ha.
  - destruct (roundTrip cfg out) as [resp|[e hr]].
    + destruct (respond_ends intent resp) as (o & s & He). exists [HRoundTrip out; HResponse], (respond cfg ob intent resp), o, s.
      split; [done|]. split; [constructor|done].
    + destruct (refused_ends e) as (o & s & He). exists (HRoundTrip out :: if hr then [HClose] else []), (refused cfg ob e), o, s.
      split; [done|]. split; [destruct hr; constructor|done].
  - destruct (accept_ends rq l Ha) as (o & s & He). exists [], l, o, s. split; [done|]. split; [constructor|done].
Qed.

(** ** Counting *)

Definition is_round_trip (e : event) : bool := match e with HRoundTrip _ => true | _ => false end.
Definition is_header (e : event) : bool := match e with HHeader _ _ => true | _ => false end.
Definition is_outcome (e : event) : bool := match e with HOutcome _ _ => true | _ => false end.

Definition count (p : event → bool) (l : list event) : nat := length (List.filter p l).

Lemma count_app p l1 l2 : count p (l1 ++ l2) = (count p l1 + count p l2)%nat.
Proof. unfold count. by rewrite List.filter_app, length_app. Qed.

Lemma count_cons p e l : count p (e :: l) = (count p [e] + count p l)%nat.
Proof. apply (count_app p [e] l). Qed.

Lemma count_take p n l : (count p (take n l) <= count p l)%nat.
Proof. rewrite <- (take_drop n l) at 2. rewrite count_app. lia. Qed.

Lemma outcomes_app (l1 l2 : list event) : outcomes (l1 ++ l2) = outcomes l1 ++ outcomes l2.
Proof. apply bind_app. Qed.

Lemma outcomes_count (l : list event) : length (outcomes l) = count is_outcome l.
Proof. induction l as [|[] l IH]; simpl; [done|..]; try done. simpl. by rewrite IH. Qed.

Lemma count_ops p (ops : list client_op) : p HFlush = false → (∀ b, p (HWrite b) = false) → count p (map stream_event ops) = 0%nat.
Proof. intros Hf Hw. unfold count. induction ops as [|[b|] ops IH]; simpl; [done|by rewrite Hw|by rewrite Hf]. Qed.

Lemma reply_counts r : reply r → count is_outcome r = 0%nat ∧ count is_round_trip r = 0%nat ∧ count is_header r = 1%nat ∧ count is_response r = 0%nat.
Proof.
  intros [status h b|status h b l [-> | ->]|status h ops]; [done..|].
  repeat split; rewrite count_cons, count_app, count_ops by done; done.
Qed.

Lemma conduct_counts l : conduct l →
  count is_outcome l = 1%nat ∧ (count is_round_trip l <= 1)%nat ∧ (count is_header l <= 1)%nat ∧ (count is_response l <= 1)%nat.
Proof.
  intros (pre & l' & o & s & -> & Hp & r & -> & Hr). rewrite !count_app.
  assert (count is_outcome r = 0%nat ∧ count is_round_trip r = 0%nat ∧ (count is_header r <= 1)%nat ∧ count is_response r = 0%nat) as (-> & -> & Hh & ->).
  { destruct Hr as [Hr|[-> _]]; [apply reply_counts in Hr as (? & ? & ? & ?)|cbn]; repeat split; lia. }
  destruct Hp; cbn in *; repeat split; lia.
Qed.

(** ** Outcomes *)

(** C22: whatever happens in an exchange, a panic after any of its effects included: exactly
    one outcome is recorded, the one the sink holds; there is at most one round trip and
    at most one status; a response that was received is closed after everything else; and
    an exchange that does not panic never needs the outcome of the deferred call. *)
Theorem one_outcome n rq : ob_sink ob = true →
  let l := ServeHTTP_panic cfg ob n rq in
  (∃ o s, outcomes l = [(o, s)] ∧ sink_of l = Some o) ∧
  (count is_round_trip l <= 1)%nat ∧ (count is_header l <= 1)%nat ∧
  (HResponse ∈ l → ∃ l1 l2, l = l1 ++ HClose :: l2 ∧ HResponse ∈ l1 ∧ Forall is_outcome l2) ∧
  outcomes (deferred ob (exchange cfg ob rq)) = [].
Proof.
  intros Hs l. destruct (conduct_counts _ (exchange_conduct rq)) as (Ho & Hr & Hh & _).
  assert (outcomes (deferred ob (exchange cfg ob rq)) = []) as Hd.
  { unfold deferred. rewrite Hs, outcomes_app. rewrite <- outcomes_count in Ho. destruct (outcomes (exchange cfg ob rq)); [done|]. by case_match. }
  unfold l, ServeHTTP_panic. set (t := take n (exchange cfg ob rq)).
  pose proof (count_take is_outcome n (exchange cfg ob rq)) as Ho1. pose proof (count_take is_round_trip n (exchange cfg ob rq)) as Hr1.
  pose proof (count_take is_header n (exchange cfg ob rq)) as Hh1. fold t in Ho1, Hr1, Hh1. rewrite Ho in Ho1.
  assert (∃ o s, outcomes (t ++ deferred ob t) = [(o, s)]) as (o & s & Hos).
  { rewrite outcomes_app. unfold deferred. rewrite Hs, outcomes_app. rewrite <- outcomes_count in Ho1.
    assert (∀ b : bool, outcomes (if b then [HClose] else [] : list event) = []) as -> by by intros [].
    destruct (outcomes t) as [|[o s] [|]]; [by eexists _, _|by eexists _, _|simpl in Ho1; lia]. }
  split_and!; [exists o, s; split; [done|]; unfold sink_of; by rewrite Hos|..].
  - rewrite count_app. assert (count is_round_trip (deferred ob t) = 0%nat) as ->; [|lia].
    unfold deferred. rewrite count_app, Hs. by case_match; case_match.
  - rewrite count_app. assert (count is_header (deferred ob t) = 0%nat) as ->; [|lia].
    unfold deferred. rewrite count_app, Hs. by case_match; case_match.
  - intros Hin. assert (HResponse ∈ t) as Ht.
    { apply elem_of_app in Hin as [?|Hin]; [done|]. exfalso. apply list_elem_of_In in Hin. unfold deferred in Hin. rewrite Hs in Hin.
      destruct (existsb _ _), (outcomes t); simpl in Hin; intuition congruence. }
    exists t, (match outcomes t with [] => [HOutcome LocalFailureOutcome streamOutcomeSuccess] | _ => [] end).
    split_and!; [|done|by destruct (outcomes t); repeat constructor].
    unfold deferred. rewrite Hs. assert (existsb is_response t = true) as ->; [|done].
    apply existsb_exists. exists HResponse. split; [by apply list_elem_of_In|done].
  - done.
Qed.

(** ** The outcome *)

(** Whatever becomes of its delivery, this is no success. *)
Definition hopeless (o : Outcome) : bool :=
  o_UpstreamFailure o || o_LocalFailure o || negb (match o_UpstreamStatus o with Some s => is_2xx s | None => false end).

(** The log leaves one outcome, without a stream's classification. *)
Definition leaves (l : list event) (o : Outcome) : Prop := outcomes l = [(o, streamOutcomeSuccess)].

Lemma outcomes_reply r : reply r → outcomes r = [].
Proof. intros (Ho & _)%reply_counts. rewrite <- outcomes_count in Ho. by destruct (outcomes r). Qed.

Lemma write_error_leaves e o : ∃ failed, leaves (write_error cfg ob e o) (after_write failed (cancelled ob AfterWrite) o).
Proof.
  destruct (write_error_ends e o) as (f & r & -> & Hr). exists f. unfold leaves. rewrite outcomes_app.
  destruct Hr as [Hr|[-> _]]; [by rewrite outcomes_reply|done].
Qed.

Lemma after_write_kept f c o :
  o_UpstreamFailure (after_write f c o) = o_UpstreamFailure o ∧ hopeless (after_write f c o) = hopeless o.
Proof. by destruct f, c. Qed.

Lemma deferred_none rq : outcomes (deferred ob (exchange cfg ob rq)) = [].
Proof.
  destruct (conduct_counts _ (exchange_conduct rq)) as (Ho & _). unfold deferred. rewrite outcomes_app. rewrite <- outcomes_count in Ho.
  destruct (outcomes (exchange cfg ob rq)); [done|]. by destruct (existsb _ _), (ob_sink ob).
Qed.

Lemma ServeHTTP_outcomes rq : outcomes (ServeHTTP cfg ob rq) = outcomes (exchange cfg ob rq).
Proof. unfold ServeHTTP. by rewrite outcomes_app, deferred_none, app_nil_r. Qed.

Lemma outcomes_cons_ops st h (l : list client_op) (o : Outcome) (s : streamOutcome) :
  outcomes (HHeader st h :: map stream_event l ++ [HClose; HOutcome o s] : list event) = [(o, s)].
Proof. change (outcomes (map stream_event l ++ [HClose; HOutcome o s] : list event) = [(o, s)]). induction l as [|[] l IH]; [done|..]; exact IH. Qed.


Lemma exchange_outcomes rq : outcomes (exchange cfg ob rq) =
  match accept_request cfg ob rq with
  | Err l => outcomes l
  | Ok (out, intent) => match roundTrip cfg out with Err (e, _) => outcomes (refused cfg ob e) | Ok resp => outcomes (respond cfg ob intent resp) end
  end.
Proof. unfold exchange. repeat case_match; by try case_match. Qed.

Lemma hopeless_unsuccessful rec o started : hopeless o = true → er_upstreamSuccess (classifyTranscodeExchange rec o started) = false.
Proof.
  unfold hopeless. cbn. destruct (o_UpstreamFailure o); [done|]. destruct (o_LocalFailure o); [by destruct (o_Provenance o)|].
  destruct (match o_UpstreamStatus o with Some s => is_2xx s | None => false end); [done|]. intros _. by rewrite !andb_false_r.
Qed.

End laws.

(** ** A sample exchange *)

Definition zero_limits : BodyLimits :=
  {| AcceptedRequestBytes := 0; DecodedRequestBytes := 0; RetryReplayBytes := 0; SuccessfulResponseBytes := 0; ErrorResponseBytes := 0;
     SSELineBytes := 0; SSEFrameBytes := 0; GeneratedResponseBytes := 0; ErrorMessageBytes := 0; GeneratedSSEFrameBytes := 0;
     GeneratedSSEBatchBytes := 0 |}.

(** A handler whose conversions pass bodies on; the request's body says whether it is to
    stream. *)
Definition sample_config (answer : result (failure * bool) response) : HandlerConfig unit unit :=
  {| client := ClientMessages; upstream := UpstreamChatCompletions; limits := WithDefaults zero_limits; ParseTime := λ _, Some 0;
     ParseMediaType := Some; openai_envelope := λ _, None; anthropic_envelope := λ _, None;
     convertRequest := λ _ b, Ok (b, str_eqb b (lit "stream")); buildUpstreamRequest := λ _ _ _, Ok tt; opencode := λ _ _ out, out;
     roundTrip := λ _, answer; convertBody := Ok; converter := tt; proxy := sample_copy |}.

Definition sample_request (body : string) : request := {| rq_Header := ∅; rq_Body := lit body; rq_Failure := None |}.

Definition sample_response (type : string) (body : str) (f : option failure) : response :=
  {| rs_Status := 200; rs_Body := body; rs_Failure := f;
     rs_Header := header_Set (lit "X-Ratelimit-Remaining") (lit "7") (header_Set (lit "Retry-After") (lit "30")
                    (header_Set (lit "Set-Cookie") (lit "a=b") (header_Set (lit "Content-Type") (lit type) ∅))) |}.

(** A client that takes everything, and one that takes less; or whose context ends. *)
Definition sample_observed (committed : bool) (taken : nat → nat) (ctx : option goerr) : observed :=
  {| ob_Header := ∅; ob_ctx := λ _, ctx; ob_committed := committed; ob_sink := true; ob_receivedAt := 0; ob_evaluatedAt := 0;
     ob_write := λ b, (taken (length b), None); ob_flush := None; ob_close := None |}.

Definition sample_canceled : failure := {| failure_text := lit "context canceled"; marks := [ContextCanceled] |}.

Lemma one_outcome_witness :
  ∃ o s, outcomes (ServeHTTP_panic (sample_config (Ok (sample_response "application/json" (lit "{}") None))) (sample_observed false id None) 2
    (sample_request "{}")) = [(o, s)].
Proof.
  destruct (one_outcome (sample_config (Ok (sample_response "application/json" (lit "{}") None))) (sample_observed false id None) 2
    (sample_request "{}") eq_refl) as [(o & s & Ho & _) _].
  exists o, s. exact Ho.
Defined.

(** ** Divergences *)

(** An abort while the answer is read says that nothing was sent. *)
Lemma abort_hides_attempt :
  ServeHTTP (sample_config (Ok (sample_response "application/json" [] (Some sample_canceled)))) (sample_observed false id (Some (plain_err Canceled)))
    (sample_request "{}") = [HRoundTrip tt; HResponse; HOutcome clientAbort streamOutcomeSuccess; HClose] ∧
  o_UpstreamAttempted clientAbort = false.
Proof. split; [vm_compute; reflexivity|done]. Qed.

(** The hold an upstream signals is recorded of a failed stream, not of a failed
    document. *)
Lemma hold_lost :
  let reset := Some {| failure_text := lit "connection reset"; marks := [] |} in
  let hold type body := option_map (λ p, (o_UpstreamFailure p.1, o_RetryAfter p.1)) (head (outcomes (ServeHTTP
    (sample_config (Ok (sample_response type [] reset))) (sample_observed false id None) (sample_request body)))) in
  hold "text/event-stream" "stream" = Some (true, Some (30 * Second)) ∧ hold "application/json" "{}" = Some (true, None).
Proof. vm_compute. by split. Qed.

(** A short write of an error frame counts as delivered, of a document it does not. *)
Lemma short_write_missed :
  let complete committed := option_map (λ p, o_DownstreamComplete p.1) (head (outcomes (ServeHTTP
    (sample_config (Err ({| failure_text := lit "refused"; marks := [] |}, false))) (sample_observed committed pred None) (sample_request "stream")))) in
  complete true = Some true ∧ complete false = Some false.
Proof. vm_compute. by split. Qed.
