(* ===== verification/HandlerVerdict.v ===== *)
(** * What the breaker is told of a transcoded exchange

    An exchange succeeds exactly if the client has been sent the whole conversion of a
    successful answer ([complete_document], [complete_stream]), and it is charged to the
    upstream exactly for the reasons of [fault]. *)

From Stdlib Require Import ZArith Lia Bool List Ascii String.
From stdpp Require Import strings pretty gmap list.
From S2P Require Import Prelude GoStd GoStr GoText GoHttp RetryAfter Retry Sse Budget Recorder Classify StreamReader StreamReaderLaws StreamWriter StreamRun.
From S2P Require Import ApiErrors HttpHeaders Handler HandlerLaws.

Open Scope string_scope.
Open Scope Z_scope.
Open Scope list_scope.

Section verdict.
Context {outgoing C : Type} `{frameConverter C} `{UnicodeTables} (cfg : HandlerConfig outgoing C) (ob : observed).
Abbreviation event := (hevent outgoing).

(** ** Complete answers *)

Definition answered (rq : request) (out : outgoing) (intent : bool) (resp : response) : Prop :=
  accept_request cfg ob rq = Ok (out, intent) ∧ roundTrip cfg out = Ok resp ∧ is_2xx (rs_Status resp) = true.

(** A JSON answer, converted within its bounds and taken whole by the client. *)
Record complete_document (resp : response) (converted : str) : Prop := {
  cd_supported : supported cfg = true;
  cd_json : isEventStream cfg resp = false ∧ isJSON cfg resp = true;
  cd_read : read_limited (or_default (SuccessfulResponseBytes (limits cfg)) 33554432) (rs_Body resp) (rs_Failure resp) = BodyRead (rs_Body resp);
  cd_converted : convertBody cfg (rs_Body resp) = Ok converted;
  cd_bounded : Z.of_nat (length converted) <= GeneratedResponseBytes (limits cfg);
  cd_written : ob_write ob converted = (length converted, None);
}.

(** The conversion of a stream, with what bounds its reader. *)
Definition converted_stream (resp : response) : list convertedBatch * option ending * C :=
  conversion (reader_limits (SSELineBytes (limits cfg)) (SSEFrameBytes (limits cfg))
      (match rs_Failure resp with None => StreamEOF | Some _ => StreamError end)
      (match rs_Failure resp with None => [] | Some e => failure_text e end)
      (GeneratedSSEFrameBytes (limits cfg)) (GeneratedSSEBatchBytes (limits cfg)) (ErrorMessageBytes (limits cfg)))
    (S (length (rs_Body resp))) (rs_Body resp) 0 (converter cfg).

(** The events of its frames on the wire. *)
Definition stream_frames (resp : response) : list frameEvent := frames_of (converted_stream resp).1.1.

Definition wire_events (resp : response) : list str := (events_in (bytes_of (stream_frames resp))).1.

(** A stream, converted to its end, with a terminal batch, no error event and no event
    left unfinished, copied without an error. *)
Record complete_stream (resp : response) (o : streamObservation) (w : sealedSSEWriter) : Prop := {
  cs_supported : supported cfg = true;
  cs_stream : isEventStream cfg resp = true;
  cs_run : runTranslatedStream (proxy cfg) (stream_reader cfg resp (converter cfg)) (ob_ctx ob AfterCopy) (ob_close ob) = (o, w);
  cs_copied : CopyErr o = None ∧ WriterErr o = None ∧ SealErr o = None;
  cs_ended : (converted_stream resp).1.2 = Some Complete;
  cs_terminal : some_terminal (converted_stream resp).1.1 = true;
  cs_clean : some_error (stream_frames resp) = false;
  cs_finished : (events_in (bytes_of (stream_frames resp))).2 = [];
}.

(** Events as the client is sent them; frames without line breaks are the events. *)
Definition sent_events (es : list str) : list event := es ≫= λ e, [HWrite e; HFlush].

Lemma plain_wire_events resp : plain_frames (stream_frames resp) → wire_events resp = map frame_bytes (stream_frames resp).
Proof. intros Hp. unfold wire_events. by rewrite plain_events. Qed.

(** What is done in an exchange that succeeds. *)
Definition document_log (out : outgoing) (resp : response) (converted : str) (o : Outcome) : list event :=
  [HRoundTrip out; HResponse; HHeader (rs_Status resp) (json_header ob resp (length converted)); HWrite converted;
   HOutcome o streamOutcomeSuccess; HClose].

Definition stream_log (out : outgoing) (resp : response) (o : Outcome) : list event :=
  [HRoundTrip out; HResponse; HHeader (rs_Status resp) (stream_header ob resp)] ++ sent_events (wire_events resp) ++
  [HClose; HOutcome o streamOutcomeSuccess; HClose].

(** ** Errors are no successes *)

Definition unsuccessful (l : list event) : Prop :=
  ∃ o s, outcomes l = [(o, s)] ∧ ∀ rec started, er_upstreamSuccess (classifyTranscodeExchange rec o started) = false.

Lemma write_error_unsuccessful e o : hopeless o = true → unsuccessful (write_error cfg ob e o).
Proof.
  intros Ho. destruct (write_error_leaves cfg ob e o) as [f Hl]. eexists _, _. split; [exact Hl|].
  intros rec st. apply hopeless_unsuccessful. by rewrite (proj2 (after_write_kept f _ o)).
Qed.

Lemma dialect_unsuccessful e p : is_2xx (ae_Status e) = false → unsuccessful (writeDialectHTTPError cfg ob e p).
Proof. intros He. apply write_error_unsuccessful. unfold hopeless. simpl. rewrite He. by rewrite !orb_true_r. Qed.

Lemma abort_unsuccessful : unsuccessful (abort (outgoing := outgoing)).
Proof. exists clientAbort, streamOutcomeSuccess. split; [done|]. intros rec st. done. Qed.

Lemma local_unsuccessful st m p : is_2xx st = false → unsuccessful (writeLocalError cfg ob st m p).
Proof. intros Hs. by apply dialect_unsuccessful. Qed.

#[local] Hint Resolve abort_unsuccessful : core.
#[local] Hint Extern 1 (unsuccessful (writeDialectHTTPError _ _ _ _)) => (apply dialect_unsuccessful; reflexivity) : core.
#[local] Hint Extern 1 (unsuccessful (writeLocalError _ _ _ _ _)) => (apply local_unsuccessful; reflexivity) : core.

Lemma accept_unsuccessful rq l : accept_request cfg ob rq = Err l → unsuccessful l.
Proof.
  unfold accept_request. repeat case_match; intros; simplify_eq; eauto.
Qed.

Lemma refused_unsuccessful e : unsuccessful (refused cfg ob e).
Proof. unfold refused, writeCircuitOpenError. repeat case_match; eauto. by apply write_error_unsuccessful. Qed.

(** ** Whole responses *)

(** The outcome is a success unless the recorder saw a failed write. *)
Definition successful (o : Outcome) : Prop :=
  ∀ rec started, er_upstreamSuccess (classifyTranscodeExchange rec o started) = negb (downstreamWriteFailed rec).

Lemma read_limited_read max b f body : read_limited max b f = BodyRead body → body = b.
Proof. unfold read_limited. repeat case_match; intros; by simplify_eq. Qed.

Lemma convertResponse_ok body converted : convertResponse cfg body = Ok converted ↔ supported cfg = true ∧ convertBody cfg body = Ok converted.
Proof.
  unfold convertResponse. destruct (supported cfg); [|by split; [|intros []]].
  destruct (convertBody cfg body); [by split; [intros|intros []]; simplify_eq|by split; [|intros []]].
Qed.

Lemma json_cases resp : is_2xx (rs_Status resp) = true → isEventStream cfg resp = false → isJSON cfg resp = true →
  (∃ converted o, complete_document resp converted ∧ successful o ∧
     jsonResponse cfg ob resp = [HHeader (rs_Status resp) (json_header ob resp (length converted)); HWrite converted; HOutcome o streamOutcomeSuccess]) ∨
  (unsuccessful (jsonResponse cfg ob resp) ∧ ∀ converted, ¬ complete_document resp converted).
Proof.
  intros H2 He Hj. unfold jsonResponse.
  destruct (read_limited _ (rs_Body resp) (rs_Failure resp)) as [body| |e] eqn:Hr.
  2: { right. split; [eauto|]. intros c []. congruence. }
  2: { right. split; [case_match; eauto|]. intros c []. congruence. }
  pose proof (read_limited_read _ _ _ _ Hr) as ->. pose proof (convertResponse_ok (rs_Body resp)) as Hc.
  destruct (convertResponse cfg (rs_Body resp)) as [converted|[p e]] eqn:Hconv.
  2: { right. split.
       - case_match; [by apply write_error_unsuccessful|by apply dialect_unsuccessful].
       - intros c [Hs _ _ Hb _ _]. destruct (Hc c) as [_ Hx]. by discriminate Hx. }
  destruct (proj1 (Hc converted) eq_refl) as [Hs Hb].
  destruct (Z.ltb_spec (GeneratedResponseBytes (limits cfg)) (Z.of_nat (length converted))).
  { right. split; [eauto|]. intros c []. assert (c = converted) as -> by congruence. lia. }
  destruct (ob_write ob converted) as [n [e|]] eqn:Hw; simpl.
  { right. split; [|intros c []; assert (c = converted) as -> by congruence; congruence]. eexists _, _. split; [done|]. intros rec st. by case_match. }
  destruct (Nat.eqb_spec n (length converted)) as [->|Hn]; simpl.
  - left. exists converted, (outcome true (Some (rs_Status resp)) false None ProvenanceUpstreamHTTP false true false false).
    split; [by constructor|]. split; [|done]. intros rec st. cbn. by rewrite H2, !andb_true_r.
  - right. split; [|intros c []; assert (c = converted) as -> by congruence; congruence]. by eexists _, _.
Qed.

(** ** Streams *)

Lemma sent_events_ops es : sent_events es = map stream_event (delivered_ops es).
Proof. unfold sent_events, delivered_ops. induction es as [|e es IH]; [done|]. cbn [map]. by rewrite !bind_cons, map_app, IH. Qed.

Context (Hcopies : copies (proxy cfg))
  (Hbatch : 0 <= or_default (GeneratedSSEBatchBytes (limits cfg)) DefaultGeneratedSSEBatchBytes <= max_int64 - maxStreamGeneratedBytes).

Lemma stream_cases resp : is_2xx (rs_Status resp) = true → isEventStream cfg resp = true →
  (∃ run w o, complete_stream resp run w ∧ successful o ∧
     streamResponse cfg ob resp =
       HHeader (rs_Status resp) (stream_header ob resp) :: sent_events (wire_events resp) ++ [HClose; HOutcome o streamOutcomeSuccess]) ∨
  (unsuccessful (streamResponse cfg ob resp) ∧ ∀ run w, ¬ complete_stream resp run w).
Proof.
  intros H2 Hes. unfold streamResponse, newFrameConverter. destruct (supported cfg) eqn:Hs.
  2: { right. split; [eauto|]. intros run w []. congruence. }
  destruct (runTranslatedStream _ _ _ _) as [o w] eqn:Hr.
  destruct (decide (classifyStreamObservation o = streamOutcomeSuccess)) as [Hc|Hc].
  - left. destruct (success_delivered (proxy cfg) Hcopies _ _ _ _ _ _ _ _ _ Hbatch _ _ _ _ Hr Hc) as (Hok & (He & Ht & Hne & Hf) & Hops).
    exists o, w, (stream_outcome cfg ob resp o). unfold stream_outcome. rewrite Hc. split_and!; [by constructor| |].
    + intros rec st. cbn. destruct Hok as (_ & -> & ->). cbn. by rewrite H2, !andb_true_r.
    + by rewrite Hops, sent_events_ops.
  - right. split.
    + eexists _, _. split; [apply outcomes_cons_ops|]. intros rec st. unfold stream_outcome.
      destruct (classifyStreamObservation o); done.
    + intros run w' [_ _ Hrun Hok He Ht Hne Hf]. assert (run = o ∧ w' = w) as [-> ->] by (split; congruence).
      apply Hc. by eapply (delivered_success (proxy cfg) Hcopies _ _ _ _ _ _ _ _ _ Hbatch _ _ _ _ Hr).
Qed.

(** ** Answers of the upstream *)

Lemma read_error_status openai anthropic status h body f protocol max e :
  ReadCanonicalUpstreamError openai anthropic status h body f protocol max = Ok e → ae_Status e = if status =? 0 then 502 else status.
Proof.
  unfold ReadCanonicalUpstreamError. destruct (_ <? _); [done|]. destruct f; [done|]. intros [= <-].
  assert (∀ e, ae_Status (normalizeCanonicalError e) = if ae_Status e =? 0 then 502 else ae_Status e) as -> by done.
  by destruct (envelope_of _ _ _ _), protocol.
Qed.

Lemma respond_failed intent resp : is_2xx (rs_Status resp) = false → unsuccessful (respond cfg ob intent resp).
Proof.
  intros H2. unfold respond. destruct (rs_Status resp =? 101); [eauto|].
  assert ((rs_Status resp <? 200) || (300 <=? rs_Status resp) = true) as ->.
  { unfold is_2xx in H2. destruct (Z.ltb_spec (rs_Status resp) 200), (Z.leb_spec 300 (rs_Status resp)); simpl; try done; bcase; done || lia. }
  destruct (ReadCanonicalUpstreamError _ _ _ _ _ _ _ _) as [e|] eqn:He; apply write_error_unsuccessful; unfold hopeless; simpl; [|done].
  apply read_error_status in He. rewrite He. assert (is_2xx (if rs_Status resp =? 0 then 502 else rs_Status resp) = false) as -> by by case_match.
  by rewrite !orb_true_r.
Qed.

Lemma respond_2xx intent resp : is_2xx (rs_Status resp) = true → respond cfg ob intent resp =
  if isEventStream cfg resp then
    if negb intent then writeLocalError cfg ob 502 (lit "upstream returned a stream for a non-streaming request") ProvenanceUpstreamBodyError
    else streamResponse cfg ob resp
  else if isJSON cfg resp then
    if intent then writeLocalError cfg ob 502 (lit "upstream returned a non-streaming response for a streaming request") ProvenanceUpstreamBodyError
    else jsonResponse cfg ob resp
  else writeLocalError cfg ob 502 (lit "upstream returned an unrecognized response content type") ProvenanceUpstreamBodyError.
Proof.
  unfold is_2xx. intros [Hl%Z.leb_le Hu%Z.ltb_lt]%andb_true_iff. unfold respond.
  rewrite (proj2 (Z.eqb_neq _ 101)) by lia. rewrite (proj2 (Z.ltb_ge _ 200)) by lia. by rewrite (proj2 (Z.leb_gt 300 _)) by lia.
Qed.

(** An answered exchange closes the answer last. *)
Lemma ServeHTTP_answered rq out intent resp : accept_request cfg ob rq = Ok (out, intent) → roundTrip cfg out = Ok resp →
  ServeHTTP cfg ob rq = HRoundTrip out :: HResponse :: respond cfg ob intent resp ++ [HClose].
Proof.
  intros Ha Hr. unfold ServeHTTP. pose proof (deferred_none cfg ob rq) as Hd. unfold exchange in *. rewrite Ha, Hr in *.
  unfold deferred in *. simpl in *. destruct (ob_sink ob); [|done]. by destruct (outcomes (respond cfg ob intent resp)).
Qed.

(** The verdict on a log that is no success, when nothing complete can have been sent. *)
Lemma verdict_unsuccessful (l : list event) (P : Outcome → Prop) : unsuccessful l → (∀ o, P o → False) →
  ∃ o s, outcomes l = [(o, s)] ∧ ∀ rec started,
    er_upstreamSuccess (classifyTranscodeExchange rec o started) = true ↔ downstreamWriteFailed rec = false ∧ P o.
Proof.
  intros (o & s & Ho & Hf) HP. exists o, s. split; [done|]. intros rec st. rewrite Hf. split; [done|]. intros [_ []%HP].
Qed.

(** What is sent of the exchange that succeeds with [o]. *)
Definition delivery (rq : request) (o : Outcome) : Prop :=
  (∃ out resp converted, answered rq out false resp ∧ complete_document resp converted ∧
     ServeHTTP cfg ob rq = document_log out resp converted o) ∨
  (∃ out resp run w, answered rq out true resp ∧ complete_stream resp run w ∧ ServeHTTP cfg ob rq = stream_log out resp o).

Lemma delivery_answered rq o : delivery rq o →
  ∃ out intent resp, answered rq out intent resp ∧
    ((intent = false ∧ ∃ converted, complete_document resp converted) ∨ (intent = true ∧ ∃ run w, complete_stream resp run w)).
Proof. intros [(out & resp & c & Ha & Hc & _)|(out & resp & run & w & Ha & Hc & _)]; eauto 10. Qed.

Lemma not_delivered rq out intent resp o : accept_request cfg ob rq = Ok (out, intent) → roundTrip cfg out = Ok resp →
  (intent = false → ∀ converted, ¬ complete_document resp converted) → (intent = true → ∀ run w, ¬ complete_stream resp run w) →
  delivery rq o → False.
Proof.
  intros Ha Hr Hd Hs (out' & intent' & resp' & (Ha' & Hr' & _) & Hc)%delivery_answered.
  rewrite Ha in Ha'. injection Ha' as <- <-. rewrite Hr in Hr'. injection Hr' as <-.
  destruct Hc as [[Hi [c Hc]]|[Hi (run & w & Hc)]]; [by apply (Hd Hi c)|by apply (Hs Hi run w)].
Qed.

(** C10: the breaker is told of a success exactly if the client got it: an upstream's 2xx
    answer was converted to the end and within its bounds, and the client was sent all
    of it with nothing else, the document in one write, or the stream's events, those of
    the frames of its [conversion], each in one piece with a flush; provided the recorder
    saw no failed write either.  Where no frame has a line break each frame is one event
    ([plain_wire_events]). *)
Theorem success_is_delivery rq :
  ∃ o s, outcomes (ServeHTTP cfg ob rq) = [(o, s)] ∧ ∀ rec started,
    er_upstreamSuccess (classifyTranscodeExchange rec o started) = true ↔
    downstreamWriteFailed rec = false ∧
    delivery rq o.
Proof.
  rewrite ServeHTTP_outcomes, exchange_outcomes.
  destruct (accept_request cfg ob rq) as [[out intent]|l] eqn:Ha.
  2: { apply verdict_unsuccessful; [by eapply accept_unsuccessful|]. intros o (? & ? & ? & (Ha' & _) & _)%delivery_answered. congruence. }
  destruct (roundTrip cfg out) as [resp|[e hr]] eqn:Hr.
  2: { apply verdict_unsuccessful; [apply refused_unsuccessful|]. intros o (? & ? & ? & (Ha' & Hr' & _) & _)%delivery_answered. congruence. }
  pose proof (not_delivered rq out intent resp) as Hnot. pose proof (ServeHTTP_answered rq out intent resp Ha Hr) as Hlog.
  destruct (is_2xx (rs_Status resp)) eqn:H2.
  2: { apply verdict_unsuccessful; [by apply respond_failed|]. intros o (? & ? & ? & (Ha' & Hr' & H2') & _)%delivery_answered. congruence. }
  rewrite respond_2xx in * by done.
  destruct (isEventStream cfg resp) eqn:Hes; [|destruct (isJSON cfg resp) eqn:Hj].
  - destruct intent; simpl negb in *; cbv iota in *.
    2: { apply verdict_unsuccessful; [by apply local_unsuccessful|]. intros o. apply (Hnot o Ha Hr); [|done]. intros _ c [_ [] _ _ _ _]. congruence. }
    destruct (stream_cases resp H2 Hes) as [(run & w & o & Hc & Ho & Hl)|[Hu Hn]].
    2: { apply verdict_unsuccessful; [done|]. intros o. by apply (Hnot o Ha Hr). }
    exists o, streamOutcomeSuccess. rewrite Hl, sent_events_ops, outcomes_cons_ops. split; [done|]. intros rec st. rewrite Ho, negb_true_iff.
    split; [|by intros []]. intros Hw. split; [done|]. right. exists out, resp, run, w. split_and!; try done.
    rewrite Hlog, Hl. unfold stream_log. simpl. by rewrite <- app_assoc.
  - destruct intent.
    { apply verdict_unsuccessful; [by apply local_unsuccessful|]. intros o. apply (Hnot o Ha Hr); [done|]. intros _ run w []. congruence. }
    destruct (json_cases resp H2 Hes Hj) as [(converted & o & Hc & Ho & Hl)|[Hu Hn]].
    2: { apply verdict_unsuccessful; [done|]. intros o. by apply (Hnot o Ha Hr). }
    exists o, streamOutcomeSuccess. rewrite Hl. split; [done|]. intros rec st. rewrite Ho, negb_true_iff.
    split; [|by intros []]. intros Hw. split; [done|]. left. exists out, resp, converted. split_and!; try done. by rewrite Hlog, Hl.
  - apply verdict_unsuccessful; [by apply local_unsuccessful|].
    intros o. apply (Hnot o Ha Hr); [intros _ c [_ [_ ?] _ _ _ _]|intros _ run w []]; congruence.
Qed.
End verdict.

(** ** A stream that succeeds *)

Abbreviation streamed := (sample_config (Ok (sample_response "text/event-stream" echo_body None))).

Lemma success_is_delivery_witness : ∃ o, delivery streamed (sample_observed false id None) (sample_request "stream") o.
Proof.
  destruct (success_is_delivery streamed (sample_observed false id None) (io_copy_copies 7 _ _ ltac:(lia)) ltac:(vm_compute; by split)
    (sample_request "stream")) as (o & s & Ho & Hv).
  assert (match outcomes (ServeHTTP streamed (sample_observed false id None) (sample_request "stream")) with
          | p :: _ => er_upstreamSuccess (classifyTranscodeExchange (newRecorder ∅ None 0) p.1 true) | [] => false end = true) as Hc
    by (vm_compute; reflexivity).
  rewrite Ho in Hc. exists o. exact (proj2 (proj1 (Hv _ _) Hc)).
Defined.
