(* ===== verification/HandlerFaults.v ===== *)
(** * What a transcoded exchange charges to the upstream

    The reasons for which an exchange counts against the upstream ([fault]), as against
    the ways in which it fails on this side or the client gives up. *)

From Stdlib Require Import ZArith Lia Bool List Ascii String.
From stdpp Require Import strings pretty gmap list.
From S2P Require Import Prelude GoStd GoStr GoText GoHttp RetryAfter Retry Sse Budget Recorder Classify StreamReader StreamReaderLaws StreamWriter StreamRun.
From S2P Require Import ApiErrors HttpHeaders Handler HandlerLaws.

Open Scope string_scope.
Open Scope Z_scope.
Open Scope list_scope.

Section faults.
Context {outgoing C : Type} `{frameConverter C} `{UnicodeTables} (cfg : HandlerConfig outgoing C) (ob : observed).
Abbreviation event := (hevent outgoing).

(** ** The reasons *)

Definition error_body (resp : response) : result str CanonicalAPIError :=
  ReadCanonicalUpstreamError (openai_envelope cfg) (anthropic_envelope cfg) (rs_Status resp) (rs_Header resp) (rs_Body resp)
    (option_map failure_text (rs_Failure resp)) (upstream cfg) (ErrorResponseBytes (limits cfg)).

Definition response_body (resp : response) : body_read :=
  read_limited (or_default (SuccessfulResponseBytes (limits cfg)) 33554432) (rs_Body resp) (rs_Failure resp).

(** The stream as it was observed, and its reader as the copy left it. *)
Definition observation (resp : response) : streamObservation :=
  (runTranslatedStream (proxy cfg) (stream_reader cfg resp (converter cfg)) (ob_ctx ob AfterCopy) (ob_close ob)).1.

Definition copied_reader (resp : response) : convertingReader :=
  (proxy cfg (stream_reader cfg resp (converter cfg)) newSealedSSEWriter).1.1.

(** What bounds the reader. *)
Definition bounds (resp : response) : stream_limits :=
  reader_limits (SSELineBytes (limits cfg)) (SSEFrameBytes (limits cfg))
    (match rs_Failure resp with None => StreamEOF | Some _ => StreamError end)
    (match rs_Failure resp with None => [] | Some e => failure_text e end)
    (GeneratedSSEFrameBytes (limits cfg)) (GeneratedSSEBatchBytes (limits cfg)) (ErrorMessageBytes (limits cfg)).

(** The stream is at fault in what was converted of it: in so many events, those whose
    bytes the copy has read or left in the reader. *)
Definition faulty_stream (resp : response) : Prop :=
  ∃ k out, Reached k (stream_reader cfg resp (converter cfg)) (prepend out (copied_reader resp)) ∧
    let '(bs, en, c) := conversion (bounds resp) k (rs_Body resp) 0 (converter cfg) in
    stream_fault (bounds resp) (present (ob_ctx ob AfterCopy))
      (present (WriterErr (observation resp)) || present (SealErr (observation resp))) (CopyErr (observation resp)) bs en c.

(** What is wrong with an answer to a request that is ([intent]) or is not to stream. *)
Inductive response_fault (intent : bool) (resp : response) : Prop :=
| fault_switched : rs_Status resp = 101 → response_fault intent resp
| fault_status e : rs_Status resp ≠ 101 → is_2xx (rs_Status resp) = false → error_body resp = Ok e →
    IsFailureStatusWithHeaders (ParseTime cfg) (ae_Status e) (Some (map_to_list (rs_Header resp))) (ob_receivedAt ob) (ob_evaluatedAt ob) = true →
    response_fault intent resp
| fault_error_body text : rs_Status resp ≠ 101 → is_2xx (rs_Status resp) = false → error_body resp = Err text → response_fault intent resp
| fault_representation : is_2xx (rs_Status resp) = true →
    (if isEventStream cfg resp then intent = false else isJSON cfg resp = true → intent = true) → response_fault intent resp
| fault_too_large : is_2xx (rs_Status resp) = true → isEventStream cfg resp = false → isJSON cfg resp = true → intent = false →
    response_body resp = BodyTooLarge → response_fault intent resp
| fault_unreadable e : is_2xx (rs_Status resp) = true → isEventStream cfg resp = false → isJSON cfg resp = true → intent = false →
    response_body resp = BodyFailed e → cancelled ob AfterResponseBody && isContextCancellationError e = false → response_fault intent resp
| fault_corrupt body e : is_2xx (rs_Status resp) = true → isEventStream cfg resp = false → isJSON cfg resp = true → intent = false →
    response_body resp = BodyRead body → supported cfg = true → convertBody cfg body = Err e →
    Is UpstreamWireFailure e = true ∨ Is UpstreamSemanticFailure e = true → response_fault intent resp
| fault_stream : is_2xx (rs_Status resp) = true → isEventStream cfg resp = true → intent = true → supported cfg = true →
    faulty_stream resp → response_fault intent resp.

(** A transport that fails on its own account, or a faulty answer. *)
Inductive fault (rq : request) : Prop :=
| fault_transport out intent e hr : accept_request cfg ob rq = Ok (out, intent) → roundTrip cfg out = Err (e, hr) →
    cancelled ob AfterRoundTrip && isContextCancellationError e = false → Is Signing e = false → Is CircuitOpenRejection e = false → fault rq
| fault_response out intent resp : accept_request cfg ob rq = Ok (out, intent) → roundTrip cfg out = Ok resp → response_fault intent resp → fault rq.

(** ** Streams *)

Context (Hcopies : copies (proxy cfg))
  (Hbatch : 0 <= or_default (GeneratedSSEBatchBytes (limits cfg)) DefaultGeneratedSSEBatchBytes <= max_int64 - maxStreamGeneratedBytes).

(** What was observed is what was converted. *)
Lemma charged_at resp k out : Reached k (stream_reader cfg resp (converter cfg)) (prepend out (copied_reader resp)) →
  let '(bs, en, c) := conversion (bounds resp) k (rs_Body resp) 0 (converter cfg) in
  classifyStreamObservation (observation resp) = streamOutcomeUpstreamFailure ↔
  stream_fault (bounds resp) (present (ob_ctx ob AfterCopy))
    (present (WriterErr (observation resp)) || present (SealErr (observation resp))) (CopyErr (observation resp)) bs en c.
Proof.
  intros HR. set (r := stream_reader cfg resp (converter cfg)) in *.
  assert (Fresh r) as HF by by apply Fresh_new.
  pose proof (rounds_conversion k r HF eq_refl) as HS. change (limits_of r) with (bounds resp) in HS.
  change (source r) with (rs_Body resp) in HS. change (generatedTotal r) with 0 in HS. change (conv r) with (converter cfg) in HS.
  pose proof (conversion_real (bounds resp) k (rs_Body resp) 0 (converter cfg)) as Hreal. destruct (conversion _ _ _ _ _) as [[bs en] c].
  pose proof (Reached_flags k r _ bs en c HS HR HF) as (Ht & He & Hu & Hb & Hx). change (limits_of r) with (bounds resp) in *.
  unfold observation, runTranslatedStream. fold r. unfold copied_reader in *. fold r in Ht, He, Hu, Hb, Hx.
  destruct (proxy cfg r newSealedSSEWriter) as [[r1 w1] ce]. destruct (Seal (StopAccepting w1)) as [se w2]. simpl in Ht, He, Hu, Hb, Hx.
  match goal with |- classifyStreamObservation ?o = _ ↔ _ => apply (classify_charged o (bounds resp) bs en c Hreal He Hu Hb Hx) end.
Qed.

Lemma charged_stream resp : classifyStreamObservation (observation resp) = streamOutcomeUpstreamFailure ↔ faulty_stream resp.
Proof.
  split.
  - intros Hc. destruct (copy_reached (proxy cfg) Hcopies (stream_reader cfg resp (converter cfg))) as (k & out & HR).
    exists k, out. split; [exact HR|]. pose proof (charged_at resp k out HR) as Hk. destruct (conversion _ _ _ _ _) as [[bs en] c]. by apply Hk.
  - intros (k & out & HR & Hf). pose proof (charged_at resp k out HR) as Hk. destruct (conversion _ _ _ _ _) as [[bs en] c]. by apply Hk.
Qed.

(** A client that has gone is not blamed on the upstream, unless an error of the upstream
    was passed on or told. *)
Lemma client_gone_uncharged L writing copyErr bs en c : stream_fault L true writing copyErr bs en c →
  some_error (frames_of bs) = true ∨ ∃ body e, en = Some (Broken body e) ∧ upstreams_error e.
Proof. intros Hf. destruct Hf as [Hr|body e He Hu _| | |]; try done; [by left|right; by exists body, e]. Qed.

(** ** Charging *)

(** The log leaves an outcome that blames the upstream exactly if [P], and never besides
    this side. *)
Definition charges (l : list event) (P : Prop) : Prop :=
  ∃ o s, outcomes l = [(o, s)] ∧ (o_UpstreamFailure o = true ↔ P) ∧ (o_LocalFailure o = true → o_UpstreamFailure o = false).

Lemma write_error_charges e o (P : Prop) : (o_UpstreamFailure o = true ↔ P) → (o_LocalFailure o = true → o_UpstreamFailure o = false) →
  charges (write_error cfg ob e o) P.
Proof.
  intros HP Hl. destruct (write_error_leaves cfg ob e o) as [f Ho]. eexists _, _. split; [exact Ho|].
  rewrite (proj1 (after_write_kept f _ o)). split; [done|]. intros Hlo. apply Hl. by destruct f, (cancelled ob AfterWrite).
Qed.

(** An error that is the upstream's, and one that is not. *)
Lemma dialect_charged e p (P : Prop) : (p = ProvenanceUpstreamTransportError ∨ p = ProvenanceUpstreamBodyError) → ae_Status e = 502 → P →
  charges (writeDialectHTTPError cfg ob e p) P.
Proof. intros Hp He HP. apply write_error_charges; [|by destruct Hp as [-> | ->]]. simpl. rewrite He. by destruct Hp as [-> | ->]. Qed.

Lemma dialect_uncharged e p (P : Prop) : is_local p = true → ¬ P → charges (writeDialectHTTPError cfg ob e p) P.
Proof. intros Hp HP. apply write_error_charges; by destruct p. Qed.

Lemma local_uncharged st m p (P : Prop) : is_local p = true → ¬ P → charges (writeLocalError cfg ob st m p) P.
Proof. apply dialect_uncharged. Qed.

Lemma abort_uncharged (P : Prop) : ¬ P → charges (abort (outgoing := outgoing)) P.
Proof. intros HP. by exists clientAbort, streamOutcomeSuccess. Qed.

Lemma accept_uncharged rq l (P : Prop) : accept_request cfg ob rq = Err l → ¬ P → charges l P.
Proof.
  intros Ha HP. unfold accept_request in Ha. repeat case_match; simplify_eq;
    first [by apply abort_uncharged|by apply dialect_uncharged|by apply local_uncharged].
Qed.

Lemma refused_charges e (P : Prop) :
  (P ↔ cancelled ob AfterRoundTrip && isContextCancellationError e = false ∧ Is Signing e = false ∧ Is CircuitOpenRejection e = false) →
  charges (refused cfg ob e) P.
Proof.
  intros HP. unfold refused. destruct (cancelled ob AfterRoundTrip && isContextCancellationError e); [apply abort_uncharged; by rewrite HP; intros []|].
  destruct (Is Signing e); [apply dialect_uncharged; [done|by rewrite HP; intros (_ & ? & _)]|].
  destruct (Is CircuitOpenRejection e); [apply write_error_charges; [by rewrite HP; split; [|intros (_ & _ & ?)]|done]|].
  apply dialect_charged; [by left|done|by apply HP].
Qed.

Lemma json_charges resp (P : Prop) :
  (P ↔ match response_body resp with
       | BodyTooLarge => True
       | BodyFailed e => cancelled ob AfterResponseBody && isContextCancellationError e = false
       | BodyRead body => supported cfg = true ∧ ∃ e, convertBody cfg body = Err e ∧ (Is UpstreamWireFailure e = true ∨ Is UpstreamSemanticFailure e = true)
       end) → charges (jsonResponse cfg ob resp) P.
Proof.
  intros HP. unfold jsonResponse. fold (response_body resp). destruct (response_body resp) as [body| |e].
  - unfold convertResponse. destruct (supported cfg) eqn:Hs.
    2: { apply dialect_uncharged; [done|]. rewrite HP. by intros []. }
    destruct (convertBody cfg body) as [converted|e] eqn:Hc.
    + assert (¬ P) as HnP by (rewrite HP; intros (_ & ? & ? & _); congruence).
      destruct (_ <? _); [by apply dialect_uncharged|]. eexists _, _. split; [reflexivity|].
      destruct (ob_write ob converted) as [n [e|]]; simpl; repeat case_match; by split; [split|].
    + assert (P ↔ Is UpstreamWireFailure e = true ∨ Is UpstreamSemanticFailure e = true) as HP'.
      { rewrite HP. split; [intros (_ & ? & ? & ?); by simplify_eq|by eauto]. }
      destruct (Is UpstreamSemanticFailure e); [apply write_error_charges; [by rewrite HP'; split; [by right|]|done]|].
      unfold conversionProvenance. destruct (Is UpstreamWireFailure e).
      * apply dialect_charged; [by right|done|by apply HP'; left].
      * apply dialect_uncharged; [done|by rewrite HP'; intros []].
  - apply dialect_charged; [by right|done|by apply HP].
  - destruct (cancelled ob AfterResponseBody && isContextCancellationError e); [apply abort_uncharged; by rewrite HP|].
    apply dialect_charged; [by right|done|by apply HP].
Qed.

Lemma stream_charges resp (P : Prop) :
  (P ↔ supported cfg = true ∧ faulty_stream resp) → charges (streamResponse cfg ob resp) P.
Proof.
  intros HP. unfold streamResponse, newFrameConverter. destruct (supported cfg) eqn:Hs; [|apply local_uncharged; [done|by rewrite HP; intros []]].
  rewrite <- charged_stream in HP. unfold observation in HP. destruct (runTranslatedStream _ _ _ _) as [o w].
  eexists _, _. split; [apply outcomes_cons_ops|].
  rewrite HP. unfold stream_outcome. simpl. destruct (classifyStreamObservation o); by split; [split; [|intros []]|].
Qed.

Lemma not_2xx status : (status <? 200) || (300 <=? status) = negb (is_2xx status).
Proof. unfold is_2xx. destruct (Z.ltb_spec status 200), (Z.leb_spec 300 status), (Z.leb_spec 200 status), (Z.ltb_spec status 300); done || lia. Qed.

Lemma respond_charges intent resp : charges (respond cfg ob intent resp) (response_fault intent resp).
Proof.
  unfold respond. rewrite not_2xx. destruct (Z.eqb_spec (rs_Status resp) 101) as [H1|H1].
  { apply dialect_charged; [by right|done|by apply fault_switched]. }
  destruct (is_2xx (rs_Status resp)) eqn:H2; simpl negb; cbv iota.
  2: { fold (error_body resp). destruct (error_body resp) as [e|text] eqn:He; apply write_error_charges; try done; simpl; split; intros Hf; try done.
       - by eapply fault_status.
       - destruct Hf; congruence.
       - by eapply fault_error_body. }
  destruct (isEventStream cfg resp) eqn:Hes; [|destruct (isJSON cfg resp) eqn:Hj].
  - destruct intent; simpl negb; cbv iota.
    2: { apply dialect_charged; [by right|done|]. apply fault_representation; [done|by rewrite Hes]. }
    apply stream_charges. split.
    + intros Hf. destruct Hf as [| | |_ Hx| | | |]; try congruence; [by rewrite Hes in Hx|done].
    + intros []. by apply fault_stream.
  - destruct intent.
    { apply dialect_charged; [by right|done|]. apply fault_representation; [done|by rewrite Hes]. }
    apply json_charges. split.
    + intros Hf. destruct Hf as [| | |_ Hx|_ _ _ _ Hb|e _ _ _ _ Hb|body e _ _ _ _ Hb|]; try congruence; try (rewrite Hb; by eauto).
      rewrite Hes in Hx. by specialize (Hx Hj).
    + destruct (response_body resp) eqn:Hb; [intros (Hs & e & Hc & Hm); by eapply fault_corrupt|intros _; by apply fault_too_large|intros Hc; by eapply fault_unreadable].
  - apply dialect_charged; [by right|done|]. apply fault_representation; [done|]. rewrite Hes, Hj. done.
Qed.

(** C12: an exchange is charged to the upstream exactly for the reasons of [fault], and
    never besides a failure of this side; the breaker is told so.  The transport failed
    on its own account; the status switches protocols or counts as a failure, also with
    a body that cannot be read; the answer has the wrong representation; the document is
    too large, unreadable or corrupt; or the stream is at fault ([stream_fault]) in what
    the conversion of its source ([conversion]) made of the events the copy had read: an
    error of the upstream was passed on or told, or, while the client was there, the
    body failed or ended early or a bound was exceeded (also the one on the frames of
    this side), or, while nobody failed to write, the stream broke without an event that
    could be sent or the copy failed.  A client that has gone is charged only for an
    error of the upstream. *)
Theorem faults_charged rq :
  ∃ o s, outcomes (ServeHTTP cfg ob rq) = [(o, s)] ∧
    (∀ rec started, er_upstreamFailure (classifyTranscodeExchange rec o started) = true ↔ fault rq) ∧
    (o_LocalFailure o = true → ¬ fault rq).
Proof.
  assert (charges (exchange cfg ob rq) (fault rq)) as (o & s & Ho & Hf & Hl).
  2: { exists o, s. rewrite ServeHTTP_outcomes. split; [done|]. split; [done|]. intros Hlo Hx%Hf. by rewrite Hl in Hx. }
  unfold charges. rewrite exchange_outcomes. destruct (accept_request cfg ob rq) as [[out intent]|l] eqn:Ha.
  2: { apply (accept_uncharged rq); [done|]. intros []; congruence. }
  destruct (roundTrip cfg out) as [resp|[e hr]] eqn:Hr.
  - destruct (respond_charges intent resp) as (o & s & Ho & Hf & Hl). exists o, s. split_and!; try done. rewrite Hf.
    split; [by eapply fault_response|]. intros [|out' intent' resp' Ha' Hr' Hx]; [congruence|].
    rewrite Ha in Ha'. injection Ha' as <- <-. rewrite Hr in Hr'. by injection Hr' as <-.
  - apply refused_charges. split; [|intros (? & ? & ?); by eapply fault_transport]. intros [out' intent' e' hr' Ha' Hr' ? ? ?|]; [|congruence].
    rewrite Ha in Ha'. injection Ha' as <- <-. rewrite Hr in Hr'. by injection Hr' as <- <-.
Qed.
End faults.

(** ** A stream that breaks off *)

Abbreviation broken_config := (sample_config (Ok (sample_response "text/event-stream" (lit "data: a" ++ [LF; LF]) None))).

Lemma faults_charged_witness : ∃ o s,
  outcomes (ServeHTTP broken_config (sample_observed false id None) (sample_request "stream")) = [(o, s)] ∧
  fault broken_config (sample_observed false id None) (sample_request "stream").
Proof.
  destruct (faults_charged broken_config (sample_observed false id None) (io_copy_copies 7 _ _ ltac:(lia)) ltac:(vm_compute; by split)
    (sample_request "stream")) as (o & s & Ho & Hv & _).
  assert (match outcomes (ServeHTTP broken_config (sample_observed false id None) (sample_request "stream")) with
          | p :: _ => er_upstreamFailure (classifyTranscodeExchange (newRecorder ∅ None 0) p.1 true) | [] => false end = true) as Hc
    by (vm_compute; reflexivity).
  exists o, s. split; [exact Ho|]. rewrite Ho in Hc. exact (proj1 (Hv _ _) Hc).
Defined.
