(* ===== verification/HandlerHeaders.v ===== *)
(** * Which headers a client of a transcoded exchange sees

    Those the writer already had, those this side sets, and of an upstream's headers the
    allowed ones that are not hop-by-hop. *)

From Stdlib Require Import ZArith Lia Bool List Ascii String.
From stdpp Require Import strings pretty gmap list.
From S2P Require Import Prelude GoStd GoStr GoText GoHttp Retry Recorder StreamReader StreamWriter StreamRun ApiErrors HttpHeaders Handler HandlerLaws.

Open Scope string_scope.
Open Scope Z_scope.
Open Scope list_scope.

(** What this side sets. *)
Definition own_headers : list str :=
  map CanonicalHeaderKey (map lit ["Content-Type"; "Content-Length"; "Cache-Control"; "Retry-After"; "X-Request-Id"; "Request-Id"]%string).

Lemma own_key n : existsb (str_eqb (CanonicalHeaderKey n)) own_headers = true → CanonicalHeaderKey n ∈ own_headers.
Proof. intros (x & Hx & He)%existsb_exists. apply list_elem_of_In in Hx. apply str_eqb_eq in He. by rewrite He. Qed.

Section headers.
Context {outgoing C : Type} `{frameConverter C} `{UnicodeTables} (cfg : HandlerConfig outgoing C) (ob : observed).
Abbreviation event := (hevent outgoing).

Lemma header_Set_lookup (n v : str) (h : GoHttp.Header) k vs :
  header_Set n v h !! k = Some vs → CanonicalHeaderKey n ∈ own_headers → k ∈ own_headers ∨ h !! k = Some vs.
Proof.
  unfold header_Set. intros Hk Hn. destruct (decide (k = CanonicalHeaderKey n)) as [->|Hne]; [by left|].
  rewrite lookup_insert_ne in Hk by done. by right.
Qed.

(** ** Where headers come from *)

Inductive written_header (h : GoHttp.Header) : Prop :=
| written_committed : h = ob_Header ob → written_header h
| written_document e : h = dialect_header cfg ob e → written_header h
| written_json out resp n : roundTrip cfg out = Ok resp → h = json_header ob resp n → written_header h
| written_stream out resp : roundTrip cfg out = Ok resp → h = stream_header ob resp → written_header h.

Definition headers_written (l : list event) : Prop := ∀ st h, HHeader st h ∈ l → written_header h.

Lemma headers_nil : headers_written [].
Proof. by intros st h ?%not_elem_of_nil. Qed.

Lemma headers_app l1 l2 : headers_written l1 → headers_written l2 → headers_written (l1 ++ l2).
Proof. intros H1 H2 st h [?|?]%elem_of_app; eauto. Qed.

Lemma headers_cons e l : is_header e = false → headers_written l → headers_written (e :: l).
Proof. intros He Hl st h [<-|?]%elem_of_cons; [done|eauto]. Qed.

Lemma headers_header st h l : written_header h → headers_written l → headers_written (HHeader st h :: l).
Proof. intros Hh Hl st' h' [[= -> ->]|?]%elem_of_cons; [done|eauto]. Qed.

Lemma headers_ops l : headers_written (map stream_event l).
Proof. induction l as [|[] l IH]; [apply headers_nil|..]; by apply headers_cons. Qed.

#[local] Hint Resolve headers_nil headers_app headers_cons headers_header headers_ops : core.
#[local] Hint Constructors written_header : core.

Lemma write_error_headers e o : headers_written (write_error cfg ob e o).
Proof.
  unfold write_error, writeDialectOrCommittedStreamError, WriteCommittedStreamError, WriteDialectHTTPError.
  repeat case_match; simplify_eq; simpl; eauto 10.
Qed.

#[local] Hint Resolve write_error_headers : core.

Lemma local_headers st m p : headers_written (writeLocalError cfg ob st m p).
Proof. apply write_error_headers. Qed.

Lemma dialect_headers e p : headers_written (writeDialectHTTPError cfg ob e p).
Proof. apply write_error_headers. Qed.

Lemma abort_headers : headers_written (abort (outgoing := outgoing)).
Proof. unfold abort. eauto. Qed.

#[local] Hint Resolve local_headers dialect_headers abort_headers : core.

Lemma respond_headers out intent resp : roundTrip cfg out = Ok resp → headers_written (respond cfg ob intent resp).
Proof.
  intros Hr. unfold respond, writeUpstreamBodyError, writeUpstreamHTTPError. repeat case_match; eauto.
  - unfold streamResponse. case_match; [|eauto]. destruct (runTranslatedStream _ _ _ _). apply headers_header; eauto.
  - unfold jsonResponse, writeUpstreamSemanticFailure. repeat case_match; eauto 10.
Qed.

Lemma exchange_headers rq : headers_written (exchange cfg ob rq).
Proof.
  unfold exchange. destruct (accept_request cfg ob rq) as [[out intent]|l] eqn:Ha.
  - apply headers_cons; [done|]. destruct (roundTrip cfg out) as [resp|[e hr]] eqn:Hr; [eauto using respond_headers|].
    apply headers_app; [destruct hr; eauto|]. unfold refused, writeCircuitOpenError. repeat case_match; eauto.
  - unfold accept_request in Ha. repeat case_match; simplify_eq; eauto.
Qed.

Lemma ServeHTTP_headers rq : headers_written (ServeHTTP cfg ob rq).
Proof.
  unfold ServeHTTP, deferred. apply headers_app; [apply exchange_headers|]. apply headers_app; repeat case_match; eauto.
Qed.

(** ** What they hold *)

(** A header of the client's answer that came from the upstream. *)
Definition from_upstream (k : str) (vs : list str) : Prop :=
  isAllowedResponseHeader k = true ∧
  ∃ out resp, roundTrip cfg out = Ok resp ∧
    ∀ v, v ∈ vs → v ∈ default [] (ob_Header ob !! k) ∨
      ∃ name vs', rs_Header resp !! name = Some vs' ∧ ¬ hop_by_hop (rs_Header resp) name ∧ CanonicalHeaderKey name = k ∧ v ∈ vs'.

Lemma copied_lookup out resp k vs : roundTrip cfg out = Ok resp →
  RemoveTransformedRepresentationHeaders (copyResponseHeaders (ob_Header ob) (RemoveHopByHopHeaders (rs_Header resp))) !! k = Some vs →
  ob_Header ob !! k = Some vs ∨ from_upstream k vs.
Proof.
  intros Hr Hk%delete_all_kept. apply copyResponseHeaders_lookup in Hk as [?|[Hal Hv]]; [by left|]. right. split; [done|].
  exists out, resp. split; [done|]. intros v [?|(name & vs' & [? ?]%RemoveHopByHop_kept & ? & ?)]%Hv; [by left|right; eauto 10].
Qed.

(** C26: a client of a transcoded exchange sees the headers its writer already had, the six
    this side sets, and of the upstream's headers only values of allowed ones that are
    neither hop-by-hop nor nominated by a [Connection] header. *)
Theorem headers_exposed rq status h k vs :
  HHeader status h ∈ ServeHTTP cfg ob rq → h !! k = Some vs →
  ob_Header ob !! k = Some vs ∨ k ∈ own_headers ∨ from_upstream k vs.
Proof.
  intros [->|e ->|out resp n Hr ->|out resp Hr ->]%ServeHTTP_headers Hk; [by left|..].
  - unfold dialect_header in Hk. apply header_Set_lookup in Hk as [?|Hk]; [by right; left| |by apply own_key].
    assert (∀ h, (header_Set (lit "Content-Type") (lit "application/json") h : GoHttp.Header) !! k = Some vs → k ∈ own_headers ∨ h !! k = Some vs) as Hct.
    { intros h' Hh. apply header_Set_lookup in Hh as [?|?]; [by left|by right|by apply own_key]. }
    destruct (ae_RequestID e); [|apply header_Set_lookup in Hk as [?|Hk]; [by right; left| |by destruct (client cfg); apply own_key]];
      (destruct (ae_RetryAfter e); [|apply header_Set_lookup in Hk as [?|Hk]; [by right; left| |by apply own_key]]);
      (apply Hct in Hk as [?|Hk]; [by right; left|]; apply delete_all_kept, RemoveHopByHop_kept in Hk as []; by left).
  - unfold json_header in Hk. do 2 (apply header_Set_lookup in Hk as [?|Hk]; [by right; left| |by apply own_key]).
    apply (copied_lookup out) in Hk as [?|?]; [by left|by right; right|done].
  - unfold stream_header in Hk. do 2 (apply header_Set_lookup in Hk as [?|Hk]; [by right; left| |by apply own_key]).
    apply (copied_lookup out) in Hk as [?|?]; [by left|by right; right|done].
Qed.
End headers.

(** ** A sample answer *)

Abbreviation answered_json := (sample_config (Ok (sample_response "application/json" (lit "{}") None))).

Lemma headers_exposed_witness :
  from_upstream answered_json (sample_observed false id None) (CanonicalHeaderKey (lit "x-ratelimit-remaining")) [lit "7"].
Proof.
  assert (∃ h, HHeader 200 h ∈ ServeHTTP answered_json (sample_observed false id None) (sample_request "{}") ∧
    h !! CanonicalHeaderKey (lit "x-ratelimit-remaining") = Some [lit "7"]) as (h & Hin & Hk).
  { eexists. split; [apply (list_elem_of_lookup_2 _ 2); reflexivity|vm_compute; reflexivity]. }
  destruct (headers_exposed answered_json (sample_observed false id None) (sample_request "{}") 200 h _ _ Hin Hk) as [Hx|[Hx|Hx]].
  - discriminate Hx.
  - apply (bool_decide_eq_true_2 _) in Hx. vm_compute in Hx. discriminate Hx.
  - exact Hx.
Defined.
