(* ===== verification/Continuity.v ===== *)
(** * The continuity store ([internal/transcode/continuity.go])

    The bounded store of conversations by the ids of their responses, and the turns a
    response leaves for the request that continues it.  Each method holds the mutex
    throughout, so it is one function of the store and of its readings of the clock. *)

From Stdlib Require Import ZArith Lia Bool List Ascii String.
From stdpp Require Import strings gmap list fin_sets.
From S2P Require Import Prelude GoStd GoStr GoText GoJson Losses Ir.

Open Scope string_scope.
Open Scope Z_scope.
Open Scope list_scope.

(** ** State *)

Record continuityChain := { c_turns : list CanonicalTurn; c_depth : Z; c_updated : Time }.

Record ContinuityStore := {
  chains : gmap str continuityChain;
  order : list str;
  capacity : Z;
  ttl : Duration;
}.

Definition DefaultContinuityCapacity : Z := 1024.
Definition DefaultContinuityTTL : Duration := 30 * 60 * Second.
Definition MaxContinuityDepth : Z := 32.

Definition NewContinuityStore (cap : Z) (age : Duration) : ContinuityStore :=
  {| chains := ∅; order := []; capacity := if cap <=? 0 then DefaultContinuityCapacity else cap;
     ttl := if age <=? 0 then DefaultContinuityTTL else age |}.

Definition NUL : ascii := ascii_of_nat 0.

Definition continuityKey (mappingKey responseID : str) : str := mappingKey ++ NUL :: responseID.

(** ** Operations *)

Definition expired (now : Time) (s : ContinuityStore) (c : continuityChain) : bool :=
  (0 <? ttl s) && (ttl s <? time_Sub now (c_updated c)).

(** The first occurrence. *)
Fixpoint remove_key (key : str) (l : list str) : list str :=
  match l with [] => [] | k :: l => if decide (k = key) then l else k :: remove_key key l end.

Definition removeLocked (key : str) (s : ContinuityStore) : ContinuityStore :=
  {| chains := delete key (chains s); order := remove_key key (order s); capacity := capacity s; ttl := ttl s |}.

(** The map is visited in some order. *)
Definition expired_keys (now : Time) (s : ContinuityStore) : list str :=
  map fst (List.filter (λ p, expired now s p.2) (map_to_list (chains s))).

(** [None] is an index out of range. *)
Fixpoint drop_oldest (cap : Z) (order : list str) (m : gmap str continuityChain) (dropped : Z)
    : option (Z * list str * gmap str continuityChain) :=
  if Z.of_nat (size m) <=? cap then Some (dropped, order, m)
  else match order with [] => None | oldest :: order => drop_oldest cap order (delete oldest m) (dropped + 1) end.

Definition evictLocked (now : Time) (s : ContinuityStore) : option (Z * ContinuityStore) :=
  let keys := expired_keys now s in
  let s := fold_left (λ s key, removeLocked key s) keys s in
  match drop_oldest (capacity s) (order s) (chains s) (Z.of_nat (length keys)) with
  | Some (dropped, order, m) => Some (dropped, {| chains := m; order := order; capacity := capacity s; ttl := ttl s |})
  | None => None
  end.

(** What is put before the eviction. *)
Definition put (key : str) (c : continuityChain) (s : ContinuityStore) : ContinuityStore :=
  {| chains := <[key := c]> (chains s); order := if chains s !! key is Some _ then order s else order s ++ [key];
     capacity := capacity s; ttl := ttl s |}.

Definition retained (responseID : str) (turns : list CanonicalTurn) (storeFalse : bool) : bool :=
  negb (is_empty responseID) && negb (length turns =? 0)%nat && negb storeFalse.

(** [now] is read when the chain is made, [later] by the eviction. *)
Definition RecordEvicted (mappingKey responseID : str) (turns : list CanonicalTurn) (depth : Z) (storeFalse : bool) (now later : Time)
    (s : ContinuityStore) : option (Z * ContinuityStore) :=
  if negb (retained responseID turns storeFalse) then Some (0, s)
  else evictLocked later (put (continuityKey mappingKey responseID) {| c_turns := turns; c_depth := depth; c_updated := now |} s).

Definition Resolve (mappingKey responseID : str) (now : Time) (s : ContinuityStore) : option (list CanonicalTurn * Z) * ContinuityStore :=
  if is_empty responseID then (None, s)
  else
    let key := continuityKey mappingKey responseID in
    match chains s !! key with
    | None => (None, s)
    | Some c => if expired now s c then (None, removeLocked key s) else (Some (c_turns c, c_depth c), s)
    end.

Definition resolveContinuityChain (mappingKey responseID : str) (now : Time) (s : ContinuityStore)
    : option (list CanonicalTurn * Z) * ContinuityStore :=
  match Resolve mappingKey responseID now s with
  | (Some (turns, depth), s) => (Some (turns, if MaxContinuityDepth <? depth + 1 then MaxContinuityDepth else depth + 1), s)
  | (None, s) => (None, s)
  end.

(** ** The turns of a response *)

Section turns.
(** [json.Marshal] of a decoded object. *)
Context (marshal : gmap str json → str).

Definition is_thinking (p : CanonicalPart) : bool := match p with CanonicalThinkingPart _ _ => true | _ => false end.

(** A call joins the assistant turn before it. *)
Definition add_call (p : CanonicalPart) (turns : list CanonicalTurn) : list CanonicalTurn :=
  match last turns with
  | Some t => if decide (t_Role t = CanonicalAssistant)
              then removelast turns ++ [{| t_Role := CanonicalAssistant; t_Parts := t_Parts t ++ [p] |}]
              else turns ++ [{| t_Role := CanonicalAssistant; t_Parts := [p] |}]
  | None => turns ++ [{| t_Role := CanonicalAssistant; t_Parts := [p] |}]
  end.

Definition item_step (acc : list CanonicalTurn * Z) (item : CanonicalResponseItem) : list CanonicalTurn * Z :=
  let '(turns, omitted) := acc in
  match item with
  | CanonicalMessageItem _ _ _ parts =>
      match List.filter (λ p, negb (is_thinking p)) parts with
      | [] => (turns, omitted)
      | parts => (turns ++ [{| t_Role := CanonicalAssistant; t_Parts := parts |}], omitted)
      end
  | CanonicalFunctionCallItem _ callID name arguments =>
      match Object arguments with
      | None => (turns, omitted + 1)
      | Some m => (add_call (CanonicalFunctionCall [] callID name (marshal m)) turns, omitted)
      end
  | CanonicalFunctionResultItem _ _ _ _ | CanonicalReasoningItem _ => (turns, omitted)
  end.

Definition responseItemsToTurns (response : CanonicalResponse) : list CanonicalTurn * Z := fold_left item_step (r_Items response) ([], 0).
End turns.
