(* ===== verification/ContinuityLaws.v ===== *)
(** * What the continuity store answers

    The store against its specification: of a history of calls, a response id is resolved
    to the conversation recorded last under it and the same mapping, unless it is too old
    or newer ones have taken its place. *)

From Stdlib Require Import ZArith Lia Bool List Ascii String.
From stdpp Require Import strings gmap list fin_sets.
From S2P Require Import Prelude GoStd GoStr GoText GoJson Losses Ir Continuity.

Open Scope string_scope.
Open Scope Z_scope.
Open Scope list_scope.

(** ** Histories *)

Inductive op :=
| ORecord (mappingKey responseID : str) (turns : list CanonicalTurn) (depth : Z) (storeFalse : bool) (now later : Time)
| OResolve (mappingKey responseID : str) (now : Time).

Definition step (o : op) (s : ContinuityStore) : option ContinuityStore :=
  match o with
  | ORecord mk id turns depth storeFalse now later => snd <$> RecordEvicted mk id turns depth storeFalse now later s
  | OResolve mk id now => Some (Resolve mk id now s).2
  end.

Fixpoint run (ops : list op) (s : ContinuityStore) : option ContinuityStore :=
  match ops with [] => Some s | o :: ops => s ← step o s; run ops s end.

(** What a call stores, under its key. *)
Definition stores (o : op) : option (str * continuityChain) :=
  match o with
  | ORecord mk id turns depth storeFalse now _ =>
      if retained id turns storeFalse then Some (continuityKey mk id, {| c_turns := turns; c_depth := depth; c_updated := now |}) else None
  | OResolve _ _ _ => None
  end.

Definition stored_keys (ops : list op) : gset str := list_to_set (map fst (omap stores ops)).

(** The clock of a call. *)
Definition clock (o : op) : Time := match o with ORecord _ _ _ _ _ _ later => later | OResolve _ _ now => now end.

(** The store's specification: the last that was stored under the key. *)
Definition last_stored (key : str) (ops : list op) : option continuityChain :=
  snd <$> last (List.filter (λ p, str_eqb p.1 key) (omap stores ops)).

(** ** The invariant *)

Record wf (s : ContinuityStore) : Prop := {
  wf_nodup : NoDup (order s);
  wf_dom : ∀ k, k ∈ order s ↔ is_Some (chains s !! k);
  wf_capacity : 0 < capacity s;
  wf_ttl : 0 < ttl s;
}.

Lemma wf_new cap age : wf (NewContinuityStore cap age).
Proof.
  constructor; simpl; [constructor|..].
  - intros k. rewrite lookup_empty. split; [by intros ?%not_elem_of_nil|by intros []].
  - by destruct (Z.leb_spec cap 0).
  - by destruct (Z.leb_spec age 0).
Qed.

Lemma remove_key_elem key k l : NoDup l → k ∈ remove_key key l ↔ k ∈ l ∧ k ≠ key.
Proof.
  induction 1 as [|x l Hx Hl IH]; simpl; [by split; [intros ?%not_elem_of_nil|intros [?%not_elem_of_nil _]]|].
  destruct (decide (x = key)) as [->|Hne]; rewrite elem_of_cons.
  - split; [intros Hk; split; [by right|by intros ->]|by intros [[->|?] ?]].
  - rewrite elem_of_cons, IH. split; [intros [->|[? ?]]; auto|intros [[->|?] ?]; auto].
Qed.

Lemma remove_key_sublist key l : remove_key key l `sublist_of` l.
Proof. induction l as [|x l IH]; simpl; [done|]. case_decide; [by apply sublist_cons|by apply sublist_skip]. Qed.

Lemma removeLocked_wf key s : wf s → wf (removeLocked key s).
Proof.
  intros []. constructor; simpl; try done.
  - eapply sublist_NoDup; [done|apply remove_key_sublist].
  - intros k. rewrite remove_key_elem, wf_dom0 by done. destruct (decide (k = key)) as [->|Hne].
    + rewrite lookup_delete_eq. split; [by intros []|by intros []].
    + rewrite lookup_delete_ne by done. tauto.
Qed.

(** Where a key stands in the order: only keys of [S] are newer. *)
Definition before (k : str) (S : gset str) (l : list str) : Prop := ∃ l1 l2, l = l1 ++ k :: l2 ∧ ∀ x, x ∈ l2 → x ∈ S.

Lemma before_remove key k S l : NoDup l → key ≠ k → before k S l → before k S (remove_key key l).
Proof.
  intros _ Hne (l1 & l2 & -> & HS). induction l1 as [|x l1 IH]; simpl.
  - rewrite decide_False by congruence. exists [], (remove_key key l2). split; [done|].
    intros x Hx. apply HS. by eapply elem_of_sublist; [|apply remove_key_sublist].
  - case_decide; [by exists l1, l2|]. destruct IH as (l1' & l2' & -> & HS'). by exists (x :: l1'), l2'.
Qed.

(** What is removed with the expired. *)
Lemma fold_removed keys s : wf s →
  let s' := fold_left (λ s key, removeLocked key s) keys s in
  wf s' ∧ capacity s' = capacity s ∧ ttl s' = ttl s ∧ (∀ k, chains s' !! k = if bool_decide (k ∈ keys) then None else chains s !! k) ∧
  (∀ k S, k ∉ keys → before k S (order s) → before k S (order s')).
Proof.
  revert s. induction keys as [|key keys IH]; intros s Hwf; simpl; [split_and!; try done; intros k; by rewrite bool_decide_eq_false_2 by apply not_elem_of_nil|].
  destruct (IH (removeLocked key s)) as (Hw & Hc & Ht & Hl & Hb); [by apply removeLocked_wf|]. split_and!; try done.
  - intros k. rewrite Hl. simpl. destruct (decide (k ∈ keys)) as [Hk|Hk].
    + rewrite !bool_decide_eq_true_2; [done|by right|done].
    + rewrite bool_decide_eq_false_2 by done. destruct (decide (k = key)) as [->|Hne].
      * rewrite lookup_delete_eq. by rewrite bool_decide_eq_true_2 by left.
      * rewrite lookup_delete_ne by done. rewrite bool_decide_eq_false_2; [done|]. by intros [?|?]%elem_of_cons.
  - intros k S [Hne Hk]%not_elem_of_cons Hbef. apply Hb; [done|]. apply before_remove; [by destruct Hwf|congruence|done].
Qed.

Lemma expired_keys_spec now s k : k ∈ expired_keys now s ↔ ∃ c, chains s !! k = Some c ∧ expired now s c = true.
Proof.
  unfold expired_keys. rewrite list_elem_of_In, in_map_iff. split.
  - intros ([k' c] & <- & [Hin He]%filter_In). exists c. split; [|done]. apply elem_of_map_to_list. by apply list_elem_of_In.
  - intros (c & Hk & He). exists (k, c). split; [done|]. apply filter_In. split; [|done]. apply list_elem_of_In. by apply elem_of_map_to_list.
Qed.

(** ** Eviction by capacity *)

Lemma size_order (l : list str) (m : gmap str continuityChain) : NoDup l → (∀ k, k ∈ l ↔ is_Some (m !! k)) → size m = length l.
Proof.
  intros Hn Hd. rewrite <- size_dom. assert (dom m = (list_to_set l : gset str)) as ->.
  { apply set_eq. intros k. by rewrite elem_of_dom, elem_of_list_to_set, Hd. }
  by apply size_list_to_set.
Qed.

Lemma drop_oldest_spec cap l m n : 0 <= cap → NoDup l → (∀ k, k ∈ l ↔ is_Some (m !! k)) →
  ∃ l1 l2 n' m', drop_oldest cap l m n = Some (n', l2, m') ∧ l = l1 ++ l2 ∧ Z.of_nat (length l2) <= cap ∧
    (l1 = [] ∨ Z.of_nat (length l2) = cap) ∧ ∀ k, m' !! k = if bool_decide (k ∈ l1) then None else m !! k.
Proof.
  intros Hcap. revert m n. induction l as [|x l IH]; intros m n Hn Hd; simpl; rewrite (size_order _ _ Hn Hd).
  - destruct (Z.leb_spec (Z.of_nat (length (@nil str))) cap); [|simpl in *; lia]. exists [], [], n, m. split_and!; try done. by left.
  - destruct (Z.leb_spec (Z.of_nat (length (x :: l))) cap).
    { exists [], (x :: l), n, m. split_and!; try done. by left. }
    apply NoDup_cons in Hn as [Hx Hn].
    destruct (IH (delete x m) (n + 1)) as (l1 & l2 & n' & m' & -> & -> & Hlen & Hsome & Hm); [done|..].
    { intros k. destruct (decide (k = x)) as [->|Hne].
      - rewrite lookup_delete_eq. split; [done|by intros []].
      - rewrite lookup_delete_ne by done. rewrite <- Hd, elem_of_cons. tauto. }
    exists (x :: l1), l2, n', m'. split_and!; try done.
    + right. destruct Hsome as [->|?]; [|done]. simpl in *. lia.
    + intros k. rewrite Hm. destruct (decide (k ∈ l1)) as [Hk|Hk]; [rewrite !bool_decide_eq_true_2; [done|by right|done]|].
      rewrite (bool_decide_eq_false_2 (k ∈ l1)) by done. destruct (decide (k = x)) as [->|Hne].
      * rewrite lookup_delete_eq. by rewrite bool_decide_eq_true_2 by left.
      * rewrite lookup_delete_ne by done. rewrite bool_decide_eq_false_2; [done|]. by intros [?|?]%elem_of_cons.
Qed.

(** A key with fewer than [cap] newer ones stays. *)
Lemma drop_keeps (cap : Z) (l1 l2 a b : list str) (k : str) (S : gset str) : NoDup (l1 ++ l2) → l1 ++ l2 = a ++ k :: b → (∀ x, x ∈ b → x ∈ S) →
  Z.of_nat (size S) < cap → (l1 = [] ∨ Z.of_nat (length l2) = cap) → (k ∉ l1) ∧ before k S l2.
Proof.
  intros Hn Heq HS Hsize Hl. assert (length b <= size S)%nat as Hb.
  { rewrite Heq in Hn. apply NoDup_app in Hn as (_ & _ & [_ Hn]%NoDup_cons). rewrite <- (size_list_to_set (C := gset str)) by done.
    apply subseteq_size. intros x. rewrite elem_of_list_to_set. apply HS. }
  destruct Hl as [->|Hl]; [split; [by apply not_elem_of_nil|by exists a, b]|].
  apply app_eq_app in Heq as (m & [[-> Hb2]|[-> ->]]).
  - destruct m as [|x m]; simpl in Hb2.
    + subst l2. rewrite app_nil_r in *. split; [|by exists [], b]. apply NoDup_app in Hn as (_ & Hn & _). intros Hk. apply (Hn k); [done|by left].
    + injection Hb2 as <- ->. rewrite length_app in Hb. lia.
  - split; [|by exists m, b]. apply NoDup_app in Hn as (_ & Hn & _). intros Hk. apply (Hn k); [done|]. apply elem_of_app. right. by left.
Qed.

(** ** One call *)

Lemma put_wf key c s : wf s → wf (put key c s).
Proof.
  intros []. constructor; simpl; try done.
  - destruct (chains s !! key) eqn:Hk; [done|]. apply NoDup_app. split_and!; [done|..|apply NoDup_singleton].
    intros x Hx ->%list_elem_of_singleton. apply wf_dom0 in Hx. rewrite Hk in Hx. by destruct Hx.
  - intros k. destruct (decide (k = key)) as [->|Hne].
    + rewrite lookup_insert_eq. split; [done|]. intros _. destruct (chains s !! key) eqn:Hk; [by apply wf_dom0; rewrite Hk|apply elem_of_app; right; by left].
    + rewrite lookup_insert_ne by done. rewrite <- wf_dom0. destruct (chains s !! key); [done|]. rewrite elem_of_app, list_elem_of_singleton. tauto.
Qed.

(** The eviction: what is left is as it was, within the capacity, and it holds what is
    neither expired nor older than [capacity] others. *)
Lemma evictLocked_spec now s : wf s → ∃ n s', evictLocked now s = Some (n, s') ∧ wf s' ∧ capacity s' = capacity s ∧ ttl s' = ttl s ∧
  Z.of_nat (size (chains s')) <= capacity s' ∧ (∀ k c, chains s' !! k = Some c → chains s !! k = Some c) ∧
  (∀ k c S, chains s !! k = Some c → expired now s c = false → before k S (order s) → Z.of_nat (size S) < capacity s →
     chains s' !! k = Some c ∧ before k S (order s')).
Proof.
  intros Hwf. unfold evictLocked. destruct (fold_removed (expired_keys now s) s Hwf) as (Hw & Hc & Ht & Hl & Hb).
  set (s1 := fold_left _ (expired_keys now s) s) in *. destruct Hw as [Hn Hd Hcap Httl].
  destruct (drop_oldest_spec (capacity s1) (order s1) (chains s1) (Z.of_nat (length (expired_keys now s)))) as (l1 & l2 & n' & m' & -> & Ho & Hlen & Hsome & Hm); [lia|done..|].
  assert (Hd' : ∀ k, k ∈ l2 ↔ is_Some (m' !! k)).
  { intros k. rewrite Hm. destruct (decide (k ∈ l1)) as [Hk|Hk].
    - rewrite bool_decide_eq_true_2 by done. split; [|by intros []]. intros Hk2. rewrite Ho in Hn. by apply NoDup_app in Hn as (_ & Hx & _); destruct (Hx k).
    - rewrite bool_decide_eq_false_2 by done. rewrite <- Hd, Ho, elem_of_app. tauto. }
  assert (Hn2 : NoDup l2) by (rewrite Ho in Hn; by apply NoDup_app in Hn as (_ & _ & ?)).
  eexists _, _. split; [reflexivity|]. split_and!; simpl; try done.
  - by rewrite (size_order l2 m').
  - intros k c. rewrite Hm, Hl. case_bool_decide; [done|]. by case_bool_decide.
  - intros k c S Hk He Hbef Hsize. assert (k ∉ expired_keys now s) as Hne.
    { rewrite expired_keys_spec. intros (c' & Hk' & He'). congruence. }
    destruct (Hb k S Hne Hbef) as (a & b & Hab & HS). rewrite Ho in Hab, Hn. rewrite <- Hc in Hsize.
    destruct (drop_keeps (capacity s1) l1 l2 a b k S Hn Hab HS Hsize Hsome) as [Hk1 Hbef2]. split; [|done].
    rewrite Hm, Hl, !bool_decide_eq_false_2 by done. done.
Qed.

Lemma step_spec o s : wf s → ∃ s', step o s = Some s' ∧ wf s' ∧ capacity s' = capacity s ∧ ttl s' = ttl s ∧
  (Z.of_nat (size (chains s)) <= capacity s → Z.of_nat (size (chains s')) <= capacity s') ∧
  (∀ k c, chains s' !! k = Some c → chains (match stores o with Some (key, c0) => put key c0 s | None => s end) !! k = Some c) ∧
  (∀ k c S, chains (match stores o with Some (key, c0) => put key c0 s | None => s end) !! k = Some c → expired (clock o) s c = false →
     before k S (order (match stores o with Some (key, c0) => put key c0 s | None => s end)) → Z.of_nat (size S) < capacity s →
     chains s' !! k = Some c ∧ before k S (order s')).
Proof.
  intros Hwf. destruct o as [mk id turns depth storeFalse now later|mk id now]; simpl.
  - unfold RecordEvicted. destruct (retained id turns storeFalse); simpl.
    + set (s1 := put _ _ s). assert (wf s1) as Hw1 by by apply put_wf.
      destruct (evictLocked_spec later s1 Hw1) as (n & s' & -> & Hw & Hc & Ht & Hsz & Hs & Hkeep). exists s'. simpl.
      split_and!; try done.
    + exists s. by split_and!.
  - unfold Resolve. destruct (is_empty id); [exists s; by split_and!|].
    destruct (chains s !! continuityKey mk id) as [c|] eqn:Hk; [|exists s; by split_and!].
    destruct (expired now s c) eqn:He; [|exists s; by split_and!].
    exists (removeLocked (continuityKey mk id) s). simpl. split_and!; try done.
    + by apply removeLocked_wf.
    + intros Hsz. assert (size (delete (continuityKey mk id) (chains s)) <= size (chains s))%nat; [|lia].
      apply map_subseteq_size, delete_subseteq.
    + intros k c'. destruct (decide (k = continuityKey mk id)) as [->|Hne]; [by rewrite lookup_delete_eq|by rewrite lookup_delete_ne].
    + intros k c' S Hk' He' Hbef _. assert (k ≠ continuityKey mk id) as Hne by (intros ->; congruence).
      rewrite lookup_delete_ne by done. split; [done|]. apply before_remove; [by destruct Hwf|done|done].
Qed.

(** ** Histories *)

Lemma history_app ops1 ops2 s : run (ops1 ++ ops2) s = s ← run ops1 s; run ops2 s.
Proof. revert s. induction ops1 as [|o ops1 IH]; intros s; simpl; [done|]. destruct (step o s); simpl; [apply IH|done]. Qed.

Lemma last_stored_snoc k ops o : last_stored k (ops ++ [o]) =
  match stores o with Some (key, c) => if str_eqb key k then Some c else last_stored k ops | None => last_stored k ops end.
Proof.
  unfold last_stored. rewrite omap_app, List.filter_app. simpl. destruct (stores o) as [[key c]|]; simpl; [|by rewrite app_nil_r].
  destruct (str_eqb key k); simpl; [by rewrite last_snoc|by rewrite app_nil_r].
Qed.

Lemma stored_keys_app ops1 ops2 : stored_keys (ops1 ++ ops2) = stored_keys ops1 ∪ stored_keys ops2.
Proof. unfold stored_keys. by rewrite omap_app, map_app, list_to_set_app_L. Qed.

Lemma last_stored_none k ops : k ∉ stored_keys ops → last_stored k ops = None.
Proof.
  induction ops as [|o ops IH] using rev_ind; [done|]. rewrite stored_keys_app, not_elem_of_union, last_stored_snoc. intros [Hk Ho].
  unfold stored_keys in Ho. simpl in Ho. destruct (stores o) as [[key c]|]; [|by apply IH]. simpl in Ho.
  rewrite str_eqb_neq; [by apply IH|]. intros ->. apply Ho. set_solver.
Qed.

(** The call that stored what is found. *)
Lemma last_stored_call k ops c : last_stored k ops = Some c →
  ∃ pre o post, ops = pre ++ o :: post ∧ stores o = Some (k, c) ∧ (k ∉ stored_keys post).
Proof.
  induction ops as [|o ops IH] using rev_ind; [done|]. rewrite last_stored_snoc. intros Hl.
  destruct (stores o) as [[key c']|] eqn:Ho.
  - destruct (str_eqb key k) eqn:Hk.
    + apply str_eqb_eq in Hk as ->. injection Hl as ->. exists ops, o, []. split_and!; [done|done|]. apply not_elem_of_empty.
    + destruct (IH Hl) as (pre & o' & post & -> & Ho' & Hn). exists pre, o', (post ++ [o]). rewrite <- app_assoc. split_and!; [done|done|].
      rewrite stored_keys_app, not_elem_of_union. split; [done|]. unfold stored_keys. simpl. rewrite Ho. simpl.
      intros Hx%elem_of_union. destruct Hx as [Hx%elem_of_singleton|Hx%elem_of_empty]; [|done]. subst key. by rewrite str_eqb_refl in Hk.
  - destruct (IH Hl) as (pre & o' & post & -> & Ho' & Hn). exists pre, o', (post ++ [o]). rewrite <- app_assoc. split_and!; [done|done|].
    rewrite stored_keys_app, not_elem_of_union. split; [done|]. unfold stored_keys. simpl. rewrite Ho. apply not_elem_of_empty.
Qed.

(** No history panics; the store holds at most its capacity, and of what was stored only
    the last. *)
Lemma run_spec cap age ops : let s0 := NewContinuityStore cap age in
  ∃ s, run ops s0 = Some s ∧ wf s ∧ capacity s = capacity s0 ∧ ttl s = ttl s0 ∧ Z.of_nat (size (chains s)) <= capacity s ∧
    ∀ k c, chains s !! k = Some c → last_stored k ops = Some c.
Proof.
  intros s0. induction ops as [|o ops IH] using rev_ind.
  - exists s0. split_and!; try done; [apply wf_new|]. destruct (wf_new cap age) as [_ _ Hc _]. fold s0 in Hc. apply Z.lt_le_incl. exact Hc.
  - destruct IH as (s & Hr & Hw & Hc & Ht & Hsz & Hl). destruct (step_spec o s Hw) as (s' & Hs & Hw' & Hc' & Ht' & Hsz' & Hfrom & _).
    exists s'. rewrite history_app, Hr. simpl. rewrite Hs. split_and!; try done; [exact (eq_trans Hc' Hc)|exact (eq_trans Ht' Ht)|by apply Hsz'|].
    intros k c Hk%Hfrom. rewrite last_stored_snoc. destruct (stores o) as [[key c0]|]; [|by apply Hl]. simpl in Hk.
    destruct (str_eqb key k) eqn:He.
    + apply str_eqb_eq in He as ->. by rewrite lookup_insert_eq in Hk.
    + rewrite lookup_insert_ne in Hk; [by apply Hl|]. intros ->. by rewrite str_eqb_refl in He.
Qed.

Lemma run_settings ops : ∀ s s', wf s → run ops s = Some s' → wf s' ∧ capacity s' = capacity s ∧ ttl s' = ttl s.
Proof.
  induction ops as [|o ops IH]; intros s s' Hw Hr; simpl in Hr; [by injection Hr as <-|].
  destruct (step_spec o s Hw) as (s1 & Hs & Hw1 & Hc & Ht & _). rewrite Hs in Hr. simpl in Hr.
  destruct (IH _ _ Hw1 Hr) as (? & ? & ?). split_and!; [done|congruence|congruence].
Qed.

(** What is neither expired nor pushed out stays. *)
Lemma run_keeps k c post : ∀ S s, wf s → chains s !! k = Some c → before k S (order s) → k ∉ stored_keys post →
  Forall (λ o, expired (clock o) s c = false) post → Z.of_nat (size (S ∪ stored_keys post)) < capacity s →
  ∃ s', run post s = Some s' ∧ chains s' !! k = Some c.
Proof.
  induction post as [|o post IH]; intros S s Hw Hk Hbef Hnot Hlive Hsize; simpl; [by exists s|].
  apply Forall_cons in Hlive as [He Hlive]. destruct (step_spec o s Hw) as (s' & Hs & Hw' & Hc' & Ht' & _ & _ & Hkeep). rewrite Hs. simpl.
  assert (stored_keys (o :: post) = stored_keys [o] ∪ stored_keys post) as Hsk by apply (stored_keys_app [o] post).
  rewrite Hsk in *. clear Hsk. apply not_elem_of_union in Hnot as [Ho Hnot].
  specialize (Hkeep k c (S ∪ stored_keys [o])). destruct Hkeep as [Hk' Hbef'].
  - unfold stored_keys in Ho. simpl in Ho. destruct (stores o) as [[key c0]|]; [|done]. simpl in *.
    rewrite lookup_insert_ne; [done|]. intros ->. apply Ho. set_solver.
  - done.
  - destruct Hbef as (a & b & Hab & HS). unfold stored_keys in *. simpl in *. destruct (stores o) as [[key c0]|]; simpl in *.
    + destruct (chains s !! key); [exists a, b; split; [done|]; intros x ?%HS; set_solver|].
      exists a, (b ++ [key]). rewrite Hab, <- app_assoc. split; [done|]. intros x [Hx%HS|Hx]%elem_of_app; [set_solver|]. apply list_elem_of_singleton in Hx as ->. set_solver.
    + exists a, b. split; [done|]. intros x ?%HS. set_solver.
  - eapply Z.le_lt_trans; [|exact Hsize]. apply inj_le. apply subseteq_size. rewrite union_assoc_L. apply union_subseteq_l.
  - apply (IH (S ∪ stored_keys [o]) s'); try done.
    + unfold expired in *. by rewrite Ht'.
    + rewrite Hc'. by rewrite <- union_assoc_L.
Qed.

(** ** Property *)

(** The key of a mapping's own ids: mapping keys have no NUL. *)
Lemma continuityKey_inj mk mk' id id' : NUL ∉ mk → NUL ∉ mk' → continuityKey mk id = continuityKey mk' id' → mk = mk' ∧ id = id'.
Proof.
  unfold continuityKey. revert mk'. induction mk as [|c mk IH]; intros [|c' mk'] Hm Hm' He; simpl in He.
  - by injection He as ->.
  - injection He as He1 _. destruct Hm'. rewrite <- He1. by left.
  - injection He as He1 _. destruct Hm. rewrite He1. by left.
  - injection He as He1 He2. apply not_elem_of_cons in Hm as [_ Hm], Hm' as [_ Hm']. destruct (IH mk' Hm Hm' He2) as [-> ->]. by subst.
Qed.

Definition plain_mapping (o : op) : Prop := match o with ORecord mk _ _ _ _ _ _ | OResolve mk _ _ => NUL ∉ mk end.

(** C24: whatever the calls before: none panics, and the store holds at most its capacity.
    An id is resolved only to the conversation that was recorded last under this id and
    this mapping, and not after its time; and it is resolved to it as long as it is not
    too old at any call and fewer other ids than the capacity have been recorded since. *)
Theorem continuity_exact cap age ops at_ : Forall plain_mapping ops →
  ∃ s, run ops (NewContinuityStore cap age) = Some s ∧ Z.of_nat (size (chains s)) <= capacity s ∧
    (∀ mk id turns depth, NUL ∉ mk → (Resolve mk id at_ s).1 = Some (turns, depth) →
       ∃ pre now later post, ops = pre ++ ORecord mk id turns depth false now later :: post ∧
         (continuityKey mk id ∉ stored_keys post) ∧ time_Sub at_ now <= ttl s) ∧
    (∀ pre mk id turns depth now later post, ops = pre ++ ORecord mk id turns depth false now later :: post →
       retained id turns false = true → continuityKey mk id ∉ stored_keys (pre ++ post) → Z.of_nat (size (stored_keys post)) < capacity s →
       Forall (λ t, time_Sub t now <= ttl s) (at_ :: later :: map clock post) → (Resolve mk id at_ s).1 = Some (turns, depth)).
Proof.
  intros Hplain. destruct (run_spec cap age ops) as (s & Hr & Hw & Hc & Ht & Hsz & Hl). exists s. split_and!; try done.
  - intros mk id turns depth Hmk. unfold Resolve. destruct (is_empty id); [done|].
    destruct (chains s !! continuityKey mk id) as [c|] eqn:Hk; [|done]. destruct (expired at_ s c) eqn:He; [done|]. intros [= <- <-].
    apply Hl, last_stored_call in Hk as (pre & o & post & -> & Ho & Hnot).
    apply Forall_app in Hplain as [_ [Hpo _]%Forall_cons]. destruct o as [mk' id' turns depth sf now later|]; [|done]. simpl in Ho.
    destruct (retained id' turns sf) eqn:Hret; [|done]. injection Ho as Hkey <-. simpl in *.
    destruct (continuityKey_inj mk' mk id' id) as [-> ->]; [done..|]. exists pre, now, later, post. split_and!; [|done|].
    + unfold retained in Hret. destruct sf; [by rewrite andb_false_r in Hret|done].
    + unfold expired in He. simpl in He. destruct Hw. apply andb_false_iff in He as [?%Z.ltb_ge|?%Z.ltb_ge]; lia.
  - intros pre mk id turns depth now later post -> Hret Hnot Hsize Hlive.
    set (key := continuityKey mk id) in *. set (c := {| c_turns := turns; c_depth := depth; c_updated := now |}).
    rewrite stored_keys_app in Hnot. apply not_elem_of_union in Hnot as [Hpre Hpost].
    apply Forall_cons in Hlive as [Hat [Hlater Hlive]%Forall_cons].
    assert (∀ t (s' : ContinuityStore), ttl s' = ttl s → time_Sub t now <= ttl s → expired t s' c = false) as Hexp.
    { intros t s' Hts Hx. unfold expired, c. simpl. rewrite Hts. rewrite (proj2 (Z.ltb_ge (ttl s) (time_Sub t now))) by done. apply andb_false_r. }
    destruct (run_spec cap age pre) as (s1 & Hr1 & Hw1 & Hc1 & Ht1 & _ & Hl1). rewrite history_app, Hr1 in Hr. simpl in Hr.
    assert (chains s1 !! key = None) as Hnone.
    { destruct (chains s1 !! key) eqn:Hk; [|done]. apply Hl1 in Hk. by rewrite last_stored_none in Hk. }
    destruct (step_spec (ORecord mk id turns depth false now later) s1 Hw1) as (s2 & Hs2 & Hw2 & Hc2 & Ht2 & _ & _ & Hkeep).
    simpl in Hs2. rewrite Hs2 in Hr. simpl in Hr, Hkeep. rewrite Hret in Hkeep. fold key c in Hkeep.
    destruct (Hkeep key c ∅) as [Hk2 Hbef2].
    + simpl. by rewrite lookup_insert_eq.
    + simpl. apply Hexp; [congruence|done].
    + simpl. rewrite Hnone. exists (order s1), []. split; [done|]. by intros x ?%not_elem_of_nil.
    + destruct Hw1. rewrite size_empty. lia.
    + destruct (run_keeps key c post ∅ s2) as (s3 & Hr3 & Hk3); try done.
      * apply Forall_forall. intros o Ho. apply Hexp; [congruence|]. rewrite Forall_forall in Hlive. apply Hlive. apply list_elem_of_fmap. by exists o.
      * rewrite union_empty_l_L. congruence.
      * rewrite Hr in Hr3. injection Hr3 as <-. unfold Resolve. fold key.
        assert (is_empty id = false) as -> by (unfold retained in Hret; by destruct (is_empty id)).
        rewrite Hk3, (Hexp at_ s) by done. done.
Qed.

(** ** The turns of a response *)

Section turns.
Context (marshal : gmap str json → str).

(** Documented: what [json.Marshal] writes of an object is an object. *)
Context (Hmarshal : ∀ m, ∃ kvs, parse_text (TrimSpace (marshal m)) = Some (JObj kvs)).

(** An assistant turn as a request may have it, without the provider's thinking. *)
Definition replayable (t : CanonicalTurn) : Prop :=
  t_Role t = CanonicalAssistant ∧ turn_ok t ∧ Forall (λ p, is_thinking p = false) (t_Parts t).

Lemma replayable_app t p : replayable t → role_ok CanonicalAssistant p → part_ok p → is_thinking p = false →
  replayable {| t_Role := CanonicalAssistant; t_Parts := t_Parts t ++ [p] |}.
Proof.
  intros (Hr & [Hn Hok] & Ht) Hro Hpo Hth. rewrite Hr in Hok. split; [done|]. split; [split|].
  - simpl. by destruct (t_Parts t).
  - apply Forall_app. split; [done|]. by repeat constructor.
  - apply Forall_app. split; [done|]. by repeat constructor.
Qed.

Lemma replayable_one p : role_ok CanonicalAssistant p → part_ok p → is_thinking p = false →
  replayable {| t_Role := CanonicalAssistant; t_Parts := [p] |}.
Proof. intros. split; [done|]. split; [split; [done|by repeat constructor]|by repeat constructor]. Qed.

Lemma add_call_replayable p turns : Forall replayable turns → role_ok CanonicalAssistant p → part_ok p → is_thinking p = false →
  Forall replayable (add_call p turns).
Proof.
  intros Hall Hro Hpo Hth. unfold add_call. destruct (last turns) as [t|] eqn:Hl; [case_decide as Hr|].
  - apply last_Some in Hl as [l ->]. rewrite removelast_last. apply Forall_app in Hall as [Hl [Ht _]%Forall_cons].
    apply Forall_app. split; [done|]. constructor; [by apply replayable_app|done].
  - apply last_Some in Hl as [l ->]. apply Forall_app in Hall as [_ [[Hr' _] _]%Forall_cons]. done.
  - apply Forall_app. split; [done|]. constructor; [by apply replayable_one|done].
Qed.

(** The parts of the turns, one after the other. *)
Definition parts_of (turns : list CanonicalTurn) : list CanonicalPart := turns ≫= t_Parts.

Lemma add_call_parts p turns : parts_of (add_call p turns) = parts_of turns ++ [p].
Proof.
  unfold add_call, parts_of. destruct (last turns) as [t|] eqn:Hl; [|by rewrite bind_app].
  apply last_Some in Hl as [l ->]. case_decide; [|by rewrite bind_app]. rewrite removelast_last, !bind_app. simpl. by rewrite !app_nil_r, app_assoc.
Qed.

(** What an item leaves of its content, and the calls it leaves out. *)
Definition replayed (item : CanonicalResponseItem) : list CanonicalPart :=
  match item with
  | CanonicalMessageItem _ _ _ parts => List.filter (λ p, negb (is_thinking p)) parts
  | CanonicalFunctionCallItem _ callID name arguments =>
      match Object arguments with Some m => [CanonicalFunctionCall [] callID name (marshal m)] | None => [] end
  | _ => []
  end.

Definition left_out (item : CanonicalResponseItem) : Z :=
  match item with CanonicalFunctionCallItem _ _ _ arguments => match Object arguments with Some _ => 0 | None => 1 end | _ => 0 end.

(** An item of a valid response: what it is without those before it. *)
Definition item_fine (item : CanonicalResponseItem) : Prop := ∃ items, item_ok items item.

Lemma filter_output parts : Forall output_part parts →
  Forall (λ p, role_ok CanonicalAssistant p ∧ part_ok p) (List.filter (λ p, negb (is_thinking p)) parts) ∧
  Forall (λ p, is_thinking p = false) (List.filter (λ p, negb (is_thinking p)) parts).
Proof. induction 1 as [|p parts Hp _ [IH1 IH2]]; simpl; [by split|]. destruct p; simpl; try done; by split; constructor. Qed.

Lemma item_step_spec turns n item : item_fine item → Forall replayable turns →
  let '(turns', n') := item_step marshal (turns, n) item in
  Forall replayable turns' ∧ parts_of turns' = parts_of turns ++ replayed item ∧ n' = n + left_out item.
Proof using Hmarshal.
  intros [items Hi] Hall. destruct item as [id role phase parts|id callID name args|id callID err parts|raw]; simpl.
  - destruct Hi as (_ & _ & Hout). apply filter_output in Hout as [H1 H2].
    destruct (List.filter _ parts) as [|p ps] eqn:Hf; [rewrite app_nil_r; split_and!; [done|done|lia]|].
    split_and!; [|unfold parts_of; rewrite bind_app; simpl; by rewrite app_nil_r|lia].
    apply Forall_app. split; [done|]. constructor; [by repeat split|done].
  - destruct Hi as [Hc Hn]. destruct (Object args) as [m|]; [|rewrite app_nil_r; by split_and!].
    split_and!; [apply add_call_replayable; try done; by split_and!|apply add_call_parts|lia].
  - rewrite app_nil_r. split_and!; [done|done|lia].
  - rewrite app_nil_r. split_and!; [done|done|lia].
Qed.

Lemma items_spec items : ∀ turns n, Forall item_fine items → Forall replayable turns →
  let '(turns', n') := fold_left (item_step marshal) items (turns, n) in
  Forall replayable turns' ∧ parts_of turns' = parts_of turns ++ (items ≫= replayed) ∧ n' = n + sumZ left_out items.
Proof using Hmarshal.
  induction items as [|item items IH]; intros turns n Hf Hall; cbn [fold_left].
  - rewrite app_nil_r. simpl. split_and!; [done|done|lia].
  - apply Forall_cons in Hf as [Hi Hf]. pose proof (item_step_spec turns n item Hi Hall) as Hs.
    destruct (item_step marshal (turns, n) item) as [turns1 n1]. destruct Hs as (Ha & Hp & ->). specialize (IH turns1 (n + left_out item) Hf Ha).
    destruct (fold_left _ items _) as [turns2 n2]. destruct IH as (Ha2 & -> & ->). rewrite bind_cons, Hp, app_assoc. simpl. split_and!; [done|done|lia].
Qed.

(** C25: of a valid response the continuity keeps turns that a request may carry as they
    are, assistant turns without thinking, so that the request that continues the
    conversation is not refused for them; they hold every other part of the messages and
    every call whose arguments are an object, in order, and the calls left out are
    counted. *)
Theorem retained_turns_replayable response : ValidateCanonicalResponse response = Ok tt →
  let '(turns, omitted) := responseItemsToTurns marshal response in
  Forall replayable turns ∧ parts_of turns = r_Items response ≫= replayed ∧ omitted = sumZ left_out (r_Items response).
Proof using Hmarshal.
  intros (_ & _ & _ & Hitems)%ValidateCanonicalResponse_exact. unfold responseItemsToTurns. apply (items_spec (r_Items response) [] 0); [|done].
  apply Forall_forall. intros item [k Hk]%list_elem_of_lookup. eexists. by apply Hitems.
Qed.
End turns.

(** ** Samples *)

Definition sample_turn (text : string) : CanonicalTurn := {| t_Role := CanonicalAssistant; t_Parts := [CanonicalText (lit text)] |}.

(** Two conversations in a store for two, then a third. *)
Abbreviation sample_ops :=
  [ORecord (lit "m") (lit "resp_1") [sample_turn "a"] 0 false 0 0; ORecord (lit "m") (lit "resp_2") [sample_turn "b"] 1 false 5 5;
   OResolve (lit "m") (lit "resp_1") 6; ORecord (lit "m") (lit "resp_3") [sample_turn "c"] 2 false 7 7].

Lemma continuity_exact_witness : ∃ s, run sample_ops (NewContinuityStore 2 10) = Some s ∧ Z.of_nat (size (chains s)) <= 2 ∧
  (Resolve (lit "m") (lit "resp_2") 9 s).1 = Some ([sample_turn "b"], 1).
Proof.
  destruct (continuity_exact 2 10 sample_ops 9) as (s & Hr & Hsz & _ & Hhit).
  - repeat constructor; apply (bool_decide_eq_true_1 _); vm_compute; reflexivity.
  - assert (capacity s = 2 ∧ ttl s = 10) as [Hc Ht].
    { assert (match run sample_ops (NewContinuityStore 2 10) with Some s => capacity s = 2 ∧ ttl s = 10 | None => False end) as Hx
        by (vm_compute; split; reflexivity). rewrite Hr in Hx. exact Hx. }
    exists s. split; [exact Hr|]. split; [rewrite <- Hc; exact Hsz|].
    apply (Hhit [ORecord (lit "m") (lit "resp_1") [sample_turn "a"] 0 false 0 0] (lit "m") (lit "resp_2") [sample_turn "b"] 1 5 5
             [OResolve (lit "m") (lit "resp_1") 6; ORecord (lit "m") (lit "resp_3") [sample_turn "c"] 2 false 7 7]).
    + reflexivity.
    + reflexivity.
    + apply (bool_decide_eq_true_1 _). vm_compute. reflexivity.
    + rewrite Hc. vm_compute. reflexivity.
    + rewrite Ht. repeat constructor; vm_compute; discriminate.
Defined.

Lemma retained_turns_replayable_witness :
  let response := {| r_ID := lit "resp_1"; r_Model := lit "m"; r_Status := Some CanonicalResponseCompleted;
                     r_Stop := Some {| Reason := CanonicalStopToolUse; Sequence := [] |};
                     r_Items := [CanonicalMessageItem [] CanonicalAssistant None [CanonicalThinkingPart (lit "hm") []; CanonicalText (lit "hi")];
                                 CanonicalFunctionCallItem [] (lit "c1") (lit "f") {| Raw := []; Object := Some ∅ |};
                                 CanonicalFunctionCallItem [] (lit "c2") (lit "g") {| Raw := lit "x"; Object := None |}] |} in
  let '(turns, omitted) := responseItemsToTurns (λ _, lit "{}") response in Forall replayable turns ∧ omitted = 1.
Proof.
  intros response. pose proof (retained_turns_replayable (λ _, lit "{}") ltac:(intros m; exists []; vm_compute; reflexivity) response
    ltac:(vm_compute; reflexivity)) as H.
  destruct (responseItemsToTurns (λ _, lit "{}") response) as [turns omitted] eqn:E. destruct H as (Hr & _ & Ho). split; [exact Hr|].
  rewrite Ho. reflexivity.
Defined.

(** ** A divergence *)

(** A chain beyond the maximal depth is resolved whole: only the depth is capped. *)
Lemma depth_not_truncated :
  let s := NewContinuityStore 0 0 in
  let turns := repeat (sample_turn "a") 80 in
  match RecordEvicted (lit "m") (lit "resp_1") turns 40 false 0 0 s with
  | Some (_, s) => (resolveContinuityChain (lit "m") (lit "resp_1") 0 s).1 = Some (turns, MaxContinuityDepth)
  | None => False
  end.
Proof. vm_compute. reflexivity. Qed.
