(* ===== verification/Journal.v ===== *)
(** * The journal of exchanges ([internal/journal/journal.go])

    The ring buffer the terminal interface reads, the capture of a body and the labels of
    an entry.  The journal's methods and those of a capture hold their mutex throughout. *)

From Stdlib Require Import ZArith Lia Bool List Ascii String.
From stdpp Require Import strings list.
From S2P Require Import Prelude GoStd GoStr.

Open Scope string_scope.
Open Scope Z_scope.
Open Scope list_scope.

(** ** Timing *)

Record Timing := { QueueStart : Time; QueueEnd : Time; ResponseHeadersAt : Time; ResponseComplete : Time }.

Definition Timing_Duration (t : Timing) : Duration :=
  let start := if time_IsZero (QueueStart t) then QueueEnd t else QueueStart t in
  let finish := if time_IsZero (ResponseComplete t) then ResponseHeadersAt t else ResponseComplete t in
  if time_IsZero start || time_IsZero finish then 0 else time_Sub finish start.

Definition span (from to : Time) : Duration := if time_IsZero from || time_IsZero to then 0 else time_Sub to from.

Definition TTFB (t : Timing) : Duration := span (QueueEnd t) (ResponseHeadersAt t).
Definition QueueDuration (t : Timing) : Duration := span (QueueStart t) (QueueEnd t).
Definition DownloadDuration (t : Timing) : Duration := span (ResponseHeadersAt t) (ResponseComplete t).

(** ** Labels *)

(** [strings.TrimRight] of slashes. *)
Fixpoint drop_slashes (s : str) : str := match s with c :: s' => if byte_eqb c "/" then drop_slashes s' else s | [] => [] end.

Definition trim_slashes (s : str) : str := rev (drop_slashes (rev s)).

(** What follows the last slash, if there is one. *)
Definition after_slash (s : str) : option str :=
  match Cut "/" (rev s) with Some (a, _) => Some (rev a) | None => None end.

Definition Name (path : option str) : str :=
  match path with
  | None => []
  | Some p => match trim_slashes p with [] => lit "/" | p => default p (after_slash p) end
  end.

Definition em_dash : str := map ascii_of_nat [226; 128; 148]%nat.

Definition type_labels : list (string * string) :=
  [("application/json", "json"); ("text/html", "html"); ("text/plain", "text"); ("text/event-stream", "events");
   ("application/octet-stream", "binary"); ("application/x-www-form-urlencoded", "form"); ("multipart/form-data", "form")].

Definition Type_label (contentType : str) : str :=
  match contentType with
  | [] => em_dash
  | _ =>
      let ct := match Cut ";" contentType with Some (a, _) => TrimSpace a | None => contentType end in
      match find (λ p, str_eqb ct (lit p.1)) type_labels with
      | Some p => lit p.2
      | None => default ct (after_slash ct)
      end
  end.

(** ** The ring *)

Definition defaultCapacity : Z := 512.
Definition defaultMaxBodyBytes : Z := 1048576.

Section ring.
Context {E : Type}.

(** An entry is what it records with the identifier [Record] gives it. *)
Record Journal := {
  entries : list (option (Z * E));
  head_ : nat;
  count_ : nat;
  capacity : nat;
  seq : Z;
  maxBodyBytes : Z;
}.

Definition New (cap max : Z) : Journal :=
  let c := Z.to_nat (if cap <=? 0 then defaultCapacity else cap) in
  {| entries := replicate c None; head_ := 0; count_ := 0; capacity := c; seq := 0;
     maxBodyBytes := if max <=? 0 then defaultMaxBodyBytes else max |}.

(** The sequence number has 64 bits. *)
Definition next_id (n : Z) : Z := (n + 1) mod 2 ^ 64.

Definition Record_entry (e : E) (j : Journal) : Journal :=
  let id := next_id (seq j) in
  if (count_ j <? capacity j)%nat then
    {| entries := <[((head_ j + count_ j) mod capacity j)%nat := Some (id, e)]> (entries j); head_ := head_ j; count_ := S (count_ j);
       capacity := capacity j; seq := id; maxBodyBytes := maxBodyBytes j |}
  else
    {| entries := <[head_ j := Some (id, e)]> (entries j); head_ := (S (head_ j) mod capacity j)%nat; count_ := count_ j;
       capacity := capacity j; seq := id; maxBodyBytes := maxBodyBytes j |}.

(** A slot that was never filled reads as [None]. *)
Definition Entries (j : Journal) : list (option (Z * E)) :=
  map (λ i, match entries j !! ((head_ j + i) mod capacity j)%nat with Some e => e | None => None end) (List.seq 0 (count_ j)).

Definition Clear (j : Journal) : Journal :=
  {| entries := map (λ _, None) (entries j); head_ := 0; count_ := 0; capacity := capacity j; seq := 0; maxBodyBytes := maxBodyBytes j |}.

Inductive journal_op := JRecord (e : E) | JClear.

Definition apply_op (j : Journal) (o : journal_op) : Journal := match o with JRecord e => Record_entry e j | JClear => Clear j end.

(** ** The specification: a list that forgets its front *)

Record log := { kept : list (Z * E); issued : Z }.

Definition log_op (cap : nat) (l : log) (o : journal_op) : log :=
  match o with
  | JRecord e => let id := next_id (issued l) in
                 let all := kept l ++ [(id, e)] in {| kept := drop (length all - cap) all; issued := id |}
  | JClear => {| kept := []; issued := 0 |}
  end.

(** The ring holds the list. *)
Record holds (j : Journal) (l : log) : Prop := {
  h_length : length (entries j) = capacity j;
  h_capacity : (0 < capacity j)%nat;
  h_head : (head_ j < capacity j)%nat;
  h_count : count_ j = length (kept l);
  h_room : (length (kept l) <= capacity j)%nat;
  h_seq : seq j = issued l;
  h_slots : ∀ i x, kept l !! i = Some x → entries j !! ((head_ j + i) mod capacity j)%nat = Some (Some x);
}.

Lemma holds_new (cap max : Z) : holds (New cap max) {| kept := []; issued := 0 |}.
Proof.
  assert (0 < Z.to_nat (if (cap <=? 0)%Z then defaultCapacity else cap))%nat by (destruct (Z.leb_spec cap 0); unfold defaultCapacity; lia).
  constructor; simpl; try done; [by rewrite length_replicate|lia].
Qed.

Lemma mod_same c h i i' : (0 < c)%nat → (i < c)%nat → (i' < c)%nat → ((h + i) mod c = (h + i') mod c)%nat → i = i'.
Proof.
  intros Hc Hi Hi' Heq. pose proof (Nat.div_mod_eq (h + i) c). pose proof (Nat.div_mod_eq (h + i') c).
  assert ((h + i) / c = (h + i') / c ∨ (h + i) / c < (h + i') / c ∨ (h + i') / c < (h + i) / c)%nat as [?|[?|?]] by lia; nia.
Qed.

Lemma holds_record e j l : holds j l → holds (Record_entry e j) (log_op (capacity j) l (JRecord e)).
Proof.
  intros []. unfold Record_entry, log_op. rewrite length_app. simpl. rewrite h_count0, h_seq0. destruct (Nat.ltb_spec (length (kept l)) (capacity j)).
  - replace (length (kept l) + 1 - capacity j)%nat with 0%nat by lia. rewrite drop_0.
    assert ((head_ j + length (kept l)) mod capacity j < length (entries j))%nat by (rewrite h_length0; apply Nat.mod_upper_bound; lia).
    constructor; simpl; rewrite ?length_insert, ?length_app; simpl; try lia; try done.
    intros i x Hx. destruct (decide (i = length (kept l))) as [->|Hne].
    + rewrite lookup_app_r, Nat.sub_diag in Hx by lia. injection Hx as <-. by apply list_lookup_insert_eq.
    + assert (i < length (kept l))%nat by (apply lookup_lt_Some in Hx; rewrite length_app in Hx; simpl in Hx; lia).
      rewrite lookup_app_l in Hx by done. rewrite list_lookup_insert_ne; [by apply h_slots0|].
      intros Heq%mod_same; lia.
  - assert (length (kept l) = capacity j) as Hl by lia. replace (length (kept l) + 1 - capacity j)%nat with 1%nat by lia.
    destruct (kept l) as [|x0 k] eqn:Hk; [simpl in *; lia|]. simpl. rewrite drop_0. simpl in Hl.
    constructor; simpl; rewrite ?length_insert, ?length_app; simpl; try lia; try done.
    { apply Nat.mod_upper_bound. lia. }
    intros i x Hx. assert (((S (head_ j) mod capacity j + i) mod capacity j) = (head_ j + S i) mod capacity j)%nat as ->.
    { rewrite Nat.Div0.add_mod_idemp_l. f_equal. lia. }
    destruct (decide (i = length k)) as [->|Hne].
    + rewrite lookup_app_r, Nat.sub_diag in Hx by lia. injection Hx as <-. rewrite Hl. 
      replace ((head_ j + capacity j) mod capacity j)%nat with (head_ j); [apply list_lookup_insert_eq; lia|].
      rewrite <- Nat.Div0.add_mod_idemp_r, Nat.Div0.mod_same, Nat.add_0_r. by rewrite Nat.mod_small.
    + assert (i < length k)%nat by (apply lookup_lt_Some in Hx; rewrite length_app in Hx; simpl in Hx; lia).
      rewrite lookup_app_l in Hx by done. rewrite list_lookup_insert_ne; [by apply (h_slots0 (S i))|].
      intros Heq. assert (head_ j = (head_ j + 0) mod capacity j)%nat as Hh by (rewrite Nat.add_0_r, Nat.mod_small; lia).
      rewrite Hh in Heq at 1. apply mod_same in Heq; lia.
Qed.

Lemma holds_clear j l : holds j l → holds (Clear j) (log_op (capacity j) l JClear).
Proof. intros []. constructor; simpl; rewrite ?length_map; try done; lia. Qed.

Lemma holds_op j l o : holds j l → holds (apply_op j o) (log_op (capacity j) l o).
Proof. destruct o; [apply holds_record|apply holds_clear]. Qed.

Lemma capacity_op j o : capacity (apply_op j o) = capacity j.
Proof. destruct o; simpl; [|done]. unfold Record_entry. by case_match. Qed.

Lemma holds_run ops : ∀ j l, holds j l → holds (fold_left apply_op ops j) (fold_left (log_op (capacity j)) ops l).
Proof.
  induction ops as [|o ops IH]; intros j l Hh; [done|]. simpl. rewrite <- (capacity_op j o). apply IH. rewrite capacity_op. by apply holds_op.
Qed.

(** Read back, the ring is the list. *)
Lemma holds_Entries j l : holds j l → Entries j = map Some (kept l).
Proof.
  intros []. unfold Entries. apply list_eq. intros i. rewrite !list_lookup_fmap, h_count0.
  destruct (lt_dec i (length (kept l))) as [Hi|Hi].
  - rewrite lookup_seq_lt by done. destruct (lookup_lt_is_Some_2 _ _ Hi) as [x Hx]. simpl. by rewrite (h_slots0 i x Hx), Hx.
  - rewrite lookup_seq_ge, lookup_ge_None_2 by lia. done.
Qed.

(** What was recorded since the last [Clear], each with the number of its turn. *)
Definition recorded (ops : list journal_op) : list E :=
  fold_left (λ l o, match o with JRecord e => l ++ [e] | JClear => [] end) ops [].

Definition numbered (l : list E) : list (Z * E) := imap (λ i e, (Z.of_nat (S i) mod 2 ^ 64, e)) l.

Definition last_n {A} (n : nat) (l : list A) : list A := drop (length l - n) l.

Lemma last_n_app (c : nat) {A} (l : list A) x : (0 < c)%nat → last_n c (last_n c l ++ [x]) = last_n c (l ++ [x]).
Proof.
  intros Hc. unfold last_n. rewrite !length_app, length_drop. simpl. destruct (le_lt_dec (length l) c).
  - replace (length l - c)%nat with 0%nat by lia. rewrite drop_0, Nat.sub_0_r. done.
  - replace (length l - (length l - c) + 1 - c)%nat with 1%nat by lia. replace (length l + 1 - c)%nat with ((length l - c) + 1)%nat by lia.
    rewrite <- drop_drop. f_equal. rewrite drop_app_le by lia. done.
Qed.

Lemma log_run (c : nat) ops : (0 < c)%nat →
  fold_left (log_op c) ops {| kept := []; issued := 0 |} =
  {| kept := last_n c (numbered (recorded ops)); issued := Z.of_nat (length (recorded ops)) mod 2 ^ 64 |}.
Proof.
  intros Hc. unfold recorded. induction ops as [|o ops IH] using rev_ind; [done|]. rewrite !fold_left_app, IH. simpl. clear IH.
  set (l := fold_left _ ops []). destruct o as [e|]; [|done].
  assert (next_id (Z.of_nat (length l) mod 2 ^ 64) = Z.of_nat (length (l ++ [e])) mod 2 ^ 64) as Hid.
  { unfold next_id. rewrite Zplus_mod_idemp_l, length_app. f_equal. simpl. lia. }
  unfold log_op. simpl. rewrite Hid. f_equal.
  assert (numbered (l ++ [e]) = numbered l ++ [(Z.of_nat (length (l ++ [e])) mod 2 ^ 64, e)]) as ->.
  { unfold numbered. rewrite imap_app. simpl. do 4 f_equal. rewrite length_app. simpl. lia. }
  by apply last_n_app.
Qed.

(** the journal shows, in order, the last entries recorded since it was last cleared, as many
    as its capacity, and nothing else: whatever was recorded and cleared before, a snapshot is the
    end of the list of what was recorded, each entry under the number of its turn. *)
Theorem entries_are_latest : ∀ (cap max : Z) ops,
  let j := New cap max in
  Entries (fold_left apply_op ops j) = map Some (last_n (capacity j) (numbered (recorded ops))).
Proof.
  intros cap max ops j. subst j. pose proof (holds_new cap max) as Hh. pose proof (h_capacity _ _ Hh).
  rewrite (holds_Entries _ _ (holds_run ops _ _ Hh)), log_run by done. done.
Qed.

End ring.

(** ** The capture of a body

    What the source returns to one [Read]: the bytes, and whether its error is [io.EOF]. *)

Record CaptureBuf := { cb_data : str; cb_maxBytes : Z; cb_truncated : bool; cb_eof : bool }.

Definition cb_append (p : str) (t : bool) (cb : CaptureBuf) : CaptureBuf :=
  {| cb_data := cb_data cb ++ p; cb_maxBytes := cb_maxBytes cb; cb_truncated := t; cb_eof := cb_eof cb |}.

(** A write always claims to have taken all of the bytes, so that the tee goes on. *)
Definition capture_Write (p : str) (cb : CaptureBuf) : CaptureBuf :=
  if cb_truncated cb then cb
  else
    let remaining := cb_maxBytes cb - Z.of_nat (length (cb_data cb)) in
    if remaining <=? 0 then cb_append [] true cb
    else if remaining <? Z.of_nat (length p) then cb_append (take (Z.to_nat remaining) p) true cb
    else cb_append p false cb.

Definition markEOF (cb : CaptureBuf) : CaptureBuf :=
  {| cb_data := cb_data cb; cb_maxBytes := cb_maxBytes cb; cb_truncated := cb_truncated cb; cb_eof := true |}.

(** [io.TeeReader] writes only what was read, and nothing when nothing was. *)
Definition capture_Read (cb : CaptureBuf) (r : str * bool) : CaptureBuf :=
  let cb1 := match r.1 with [] => cb | p => capture_Write p cb end in
  if r.2 then markEOF cb1 else cb1.

Definition TeeReadCloser (maxBytes : Z) : CaptureBuf :=
  {| cb_data := []; cb_maxBytes := maxBytes; cb_truncated := false; cb_eof := false |}.

Definition Snapshot (cb : CaptureBuf) : str * bool * bool := (cb_data cb, cb_truncated cb, cb_eof cb).

Definition body_of (reads : list (str * bool)) : str := concat (map fst reads).

Lemma capture_run (max : Z) (reads : list (str * bool)) :
  fold_left capture_Read reads (TeeReadCloser max) =
  {| cb_data := take (Z.to_nat max) (body_of reads); cb_maxBytes := max;
     cb_truncated := Z.max 0 max <? Z.of_nat (length (body_of reads)); cb_eof := existsb snd reads |}.
Proof.
  induction reads as [|[p eof] reads IH] using rev_ind.
  { unfold body_of. simpl. rewrite take_nil. destruct (Z.ltb_spec (Z.max 0 max) (Z.of_nat 0)); [lia|done]. }
  rewrite fold_left_app, IH. unfold body_of. rewrite map_app, concat_app, existsb_app. simpl. rewrite app_nil_r, orb_false_r.
  set (l := concat (map fst reads)). clear IH. unfold capture_Read. simpl.
  assert ((match p with [] => λ cb, cb | _ => capture_Write p end)
    {| cb_data := take (Z.to_nat max) l; cb_maxBytes := max; cb_truncated := Z.max 0 max <? Z.of_nat (length l); cb_eof := existsb snd reads |}
    = {| cb_data := take (Z.to_nat max) (l ++ p); cb_maxBytes := max; cb_truncated := Z.max 0 max <? Z.of_nat (length (l ++ p)); cb_eof := existsb snd reads |}) as Hw.
  { destruct p as [|c p]; [by rewrite app_nil_r|]. set (q := c :: p). assert (0 < length q)%nat by (simpl; lia). clearbody q.
    unfold capture_Write, cb_append. simpl. rewrite length_app, length_take.
    destruct (Z.ltb_spec (Z.max 0 max) (Z.of_nat (length l))).
    { rewrite take_app_le by lia. f_equal. symmetry. apply Z.ltb_lt. lia. }
    rewrite (take_ge l) by lia. replace (Z.to_nat max `min` length l)%nat with (length l) by lia.
    destruct (Z.leb_spec (max - Z.of_nat (length l)) 0).
    { f_equal; [rewrite app_nil_r, take_app_le, take_ge by lia; done|symmetry; apply Z.ltb_lt; lia]. }
    destruct (Z.ltb_spec (max - Z.of_nat (length l)) (Z.of_nat (length q))); f_equal;
      try (symmetry; first [apply Z.ltb_lt|apply Z.ltb_ge]; lia).
    - rewrite take_app_ge by lia. do 2 f_equal. lia.
    - rewrite take_ge; [done|]. rewrite length_app. lia. }
  destruct p as [|c p]; rewrite Hw; destruct eof; unfold markEOF; simpl; by rewrite ?orb_true_r, ?orb_false_r.
Qed.

(** a capture is the front of the body, cut at the bound, and says so: it is marked truncated
    exactly when more than the bound was read, and complete exactly when the end was read; so a
    capture that is complete and not truncated is the whole body. *)
Theorem capture_is_prefix : ∀ (max : Z) (reads : list (str * bool)),
  match Snapshot (fold_left capture_Read reads (TeeReadCloser max)) with
  | (data, truncated, complete) =>
      data = take (Z.to_nat max) (body_of reads) ∧ complete = existsb snd reads ∧
      (truncated = false ↔ data = body_of reads)
  end.
Proof.
  intros max reads. rewrite capture_run. simpl. split_and!; [done..|]. rewrite Z.ltb_ge. split.
  - intros. apply take_ge. lia.
  - intros Heq. pose proof (length_take (body_of reads) (Z.to_nat max)) as Hl. rewrite Heq in Hl. lia.
Qed.

Example ring_wraps :
  Entries (fold_left apply_op [JRecord 7; JRecord 8; JClear; JRecord 1; JRecord 2; JRecord 3] (New 2 0)) = [Some (2, 2); Some (3, 3)]%Z.
Proof. vm_compute. reflexivity. Qed.

Example labels : Name (Some (lit "/v1/messages/")) = lit "messages" ∧ Type_label (lit "application/json; charset=utf-8") = lit "json" ∧
  Name (Some (lit "//")) = lit "/".
Proof. vm_compute. split_and!; reflexivity. Qed.
