(* ===== verification/ResponseDecode.v ===== *)
(** * Decoding a whole response ([internal/transcode/convert_response.go])

    The two decoders of an upstream's whole response into the canonical form, as
    conversions ([Conv]) over what the wire layer makes of the body.  The values
    interpolated in error texts are not rendered; a creation time is an exact number;
    a platform [int] has 64 bits. *)

From Stdlib Require Import ZArith QArith Qcanon Lia Bool List Ascii String.
From stdpp Require Import strings gmap list.
From S2P Require Import Prelude GoStd GoStr GoText GoJson Losses Ir Usage.

Open Scope string_scope.
Open Scope Z_scope.
Open Scope conv_scope.

(** ** The decoded response *)

Record ResponseSourceArtifacts := {
  ChatLogProbs : bool;
  ChatServiceTier : str;
  ResponsesControls : list string;
  ResponsesServiceTier : str;
}.

(** [CanonicalResponse] is what the checks read of it. *)
Record DecodedResponse := {
  canonical : CanonicalResponse;
  r_CreatedAt : Qc;
  r_Usage : CanonicalUsage;
  r_IncompleteReason : str;
  r_ErrorMessage : str;
  r_Source : ResponseSourceArtifacts;
}.

Definition no_usage : CanonicalUsage :=
  {| cu_Input := 0; cu_CacheRead := 0; cu_CacheWrite := 0; cu_Output := 0; cu_Reasoning := 0; cu_Total := 0;
     cu_Known := {| has_input := false; has_output := false; has_total := false; has_cacheRead := false; has_cacheWrite := false;
                    has_reasoning := false |} |}.

(** [ValidateCanonicalResponse], at the end of a decode. *)
Definition validated (d : DecodedResponse) : Conv DecodedResponse :=
  _ <~ lift (ValidateCanonicalResponse (canonical d)) ;; ret d.

Definition wireError {A} (msg : string) : Conv A := fail (UpstreamWireError msg).
Definition require (b : bool) (msg : string) : Conv unit := if b then ret tt else wireError msg.

(** A value that must be there; the nil access panics. *)
Definition deref {A} (o : option A) : Conv A := match o with Some a => ret a | None => fail NilPanic end.

Definition derefStr (o : option str) : str := default [] o.

Definition nonEmpty (o : option str) : bool := negb (is_empty (derefStr o)).

Definition is_lit (s : str) (t : string) : bool := str_eqb s (lit t).

(** ** A Chat response on the wire

    The body is decoded twice: into the shadow, whose fields tell absent from zero, and
    into the wire type. *)

Record chatToolCallShadow := { ts_Type : option str; ts_ID : option str; ts_Name : option str; ts_Arguments : option str }.

(** [ms_FunctionCall] is raw JSON, empty when absent. *)
Record chatMessageShadow := {
  ms_Role : option str;
  ms_ToolCallID : option str;
  ms_ToolCalls : list chatToolCallShadow;
  ms_FunctionCall : str;
}.

(** [cs_Delta] is presence. *)
Record chatChoiceShadow := {
  cs_Index : option Z;
  cs_FinishReason : option str;
  cs_Message : option chatMessageShadow;
  cs_Delta : bool;
}.

(** The details are (cached, created) and (reasoning). *)
Record chatUsageShadow := {
  us_PromptTokens : option Z;
  us_CompletionTokens : option Z;
  us_TotalTokens : option Z;
  us_ReasoningTokens : option Z;
  us_CachedTokens : option Z;
  us_PromptCacheHitTokens : option Z;
  us_PromptTokensDetails : option (Z * option Z);
  us_CompletionTokensDetails : option Z;
}.

Record chatResponseShadow := {
  sh_Object : option str;
  sh_Model : option str;
  sh_Choices : list chatChoiceShadow;
  sh_Usage : option chatUsageShadow;
}.

Inductive ChatContentBlock := BlockText (Text : option str) | BlockImage | BlockAudio | BlockOther (Type_ : str).

(** Exactly one form is set in a value the wire layer accepts. *)
Inductive ChatMessageContent := ContentStr (s : str) | ContentBlocks (blocks : list ChatContentBlock) | ContentNone.

Record ChatMessageToolCall := { tc_ID : option str; tc_Name : option str; tc_Arguments : str }.

Record ChatAssistantAudio := { au_Data : str; au_Transcript : str }.

Record ChatAssistantMessage := {
  am_Refusal : option str;
  am_ToolCalls : list ChatMessageToolCall;
  am_Audio : option ChatAssistantAudio;
  am_Reasoning : option str;
  am_ReasoningContent : option str;
}.

Record ChatMessage := { m_Content : option ChatMessageContent; m_Assistant : option ChatAssistantMessage }.

Record ChatChoice := { ch_FinishReason : option str; ch_LogProbs : bool; ch_Message : option ChatMessage }.

Record ChatResponse := {
  cr_ID : str;
  cr_Model : str;
  cr_Created : Z;
  cr_ServiceTier : option str;
  cr_Choices : list ChatChoice;
}.

Record ChatCapabilities := { ProviderReasoningThinking : bool; ProviderReasoningText : bool }.

Definition SyntheticThinkingSignature : str := lit "shaper-synth-thinking-1".

(** ** Usage *)

Definition chat_usage (u : chatUsageShadow) : CanonicalUsage :=
  {| cu_Input := default 0 (us_PromptTokens u);
     cu_CacheRead := match us_PromptTokensDetails u, us_CachedTokens u, us_PromptCacheHitTokens u with
                     | Some (cached, _), _, _ => cached
                     | None, Some cached, _ => cached
                     | None, None, Some hit => hit
                     | None, None, None => 0
                     end;
     cu_CacheWrite := match us_PromptTokensDetails u with Some (_, Some created) => created | _ => 0 end;
     cu_Output := default 0 (us_CompletionTokens u);
     cu_Reasoning := match us_CompletionTokensDetails u, us_ReasoningTokens u with
                     | Some r, _ => r
                     | None, Some r => r
                     | None, None => 0
                     end;
     cu_Total := default 0 (us_TotalTokens u);
     cu_Known :=
       {| has_input := known (us_PromptTokens u); has_output := known (us_CompletionTokens u); has_total := known (us_TotalTokens u);
          has_cacheRead := known (us_PromptTokensDetails u) || known (us_CachedTokens u) || known (us_PromptCacheHitTokens u);
          has_cacheWrite := match us_PromptTokensDetails u with Some (_, Some _) => true | _ => false end;
          has_reasoning := known (us_CompletionTokensDetails u) || known (us_ReasoningTokens u) |} |}.

(** ** The message *)

Definition content_block (i : nat) (block : ChatContentBlock) : Conv (list CanonicalPart) :=
  match block with
  | BlockText (Some text) => ret [CanonicalText text]
  | BlockText None => ret []
  | BlockImage => fail (UnsupportedFeatureError "chat" "choices[].message.content[].type" "image_url")
  | BlockAudio => fail (UnsupportedFeatureError "chat" "choices[].message.content[].type" "input_audio")
  | BlockOther _ => wireError "chat message content block: unknown type"
  end.

Definition content_parts (content : option ChatMessageContent) : Conv (list CanonicalPart) :=
  match content with
  | Some (ContentStr s) => ret [CanonicalText s]
  | Some (ContentBlocks blocks) => collect content_block 0 blocks
  | Some ContentNone | None => ret []
  end.

(** [None] when both spellings are there. *)
Definition resolveChatReasoningSpelling (reasoning reasoningContent : option str) : option (str * string) :=
  if nonEmpty reasoning && nonEmpty reasoningContent then None
  else if nonEmpty reasoningContent then Some (derefStr reasoningContent, "choices[].message.reasoning_content")
  else if nonEmpty reasoning then Some (derefStr reasoning, "choices[].message.reasoning")
  else Some ([], "").

Definition reasoning_parts (capabilities : ChatCapabilities) (policy : LossPolicy) (a : ChatAssistantMessage) : Conv (list CanonicalPart) :=
  match resolveChatReasoningSpelling (am_Reasoning a) (am_ReasoningContent a) with
  | None => wireError "chat response carries both reasoning and reasoning_content"
  | Some (text, path) =>
      if is_empty text then ret []
      else if ProviderReasoningThinking capabilities then
        Note "provider_reasoning_text" path
          "provider reasoning mapped to a native thinking block (provider_reasoning_thinking encoding)" ;;~
        ret [CanonicalThinkingPart text SyntheticThinkingSignature]
      else if ProviderReasoningText capabilities then
        Note "provider_reasoning_text" path "provider reasoning maps to ordinary text (provider_reasoning_text encoding)" ;;~
        ret [CanonicalText text]
      else
        Lose policy "provider_reasoning_text" path
          "provider reasoning is dropped because the provider_reasoning_text capability is not enabled" ;;~
        ret []
  end.

Definition tool_call (i : nat) (call : ChatMessageToolCall) : Conv (list CanonicalResponseItem) :=
  if negb (nonEmpty (tc_ID call)) then wireError "chat tool call has no id"
  else ret [CanonicalFunctionCallItem [] (derefStr (tc_ID call)) (derefStr (tc_Name call)) (ParseToolArguments (tc_Arguments call))].

Definition audio_parts (policy : LossPolicy) (audio : option ChatAssistantAudio) : Conv (list CanonicalPart) :=
  match audio with
  | None => ret []
  | Some audio =>
      if is_empty (au_Data audio) && is_empty (au_Transcript audio) then wireError "chat message audio has neither data nor transcript"
      else
        parts <~ (if is_empty (au_Transcript audio) then ret []
                  else Note "provider_audio_transcript" "choices[].message.audio"
                         "upstream chat audio output transcript mapped to ordinary text (provider_audio_transcript encoding)" ;;~
                       ret [CanonicalText (au_Transcript audio)]) ;;
        when (negb (is_empty (au_Data audio)))
          (Lose policy "provider_audio_data" "choices[].message.audio"
             "upstream chat audio output data cannot be reproduced in the target") ;;~
        ret parts
  end.

Definition chatMessageToCanonicalParts (message : ChatMessage) (capabilities : ChatCapabilities) (policy : LossPolicy)
    : Conv (list CanonicalPart * list CanonicalResponseItem) :=
  content <~ content_parts (m_Content message) ;;
  match m_Assistant message with
  | None => ret (content, [])
  | Some a =>
      let refusal := match am_Refusal a with Some text => [CanonicalRefusal text] | None => [] end in
      reasoning <~ reasoning_parts capabilities policy a ;;
      calls <~ collect tool_call 0 (am_ToolCalls a) ;;
      audio <~ audio_parts policy (am_Audio a) ;;
      ret (content ++ refusal ++ reasoning ++ audio, calls)%list
  end.

(** ** The Chat decoder *)

Section chat.
(** What the wire layer makes of a body, and [encoding/json] of a legacy call (its name
    and its arguments). *)
Context (decode_shadow : str → option chatResponseShadow) (decode_chat : str → option ChatResponse).
Context (unmarshal_call : str → option (option str * option str)).

Definition has_legacy (raw : str) : bool := negb (is_empty raw) && negb (is_lit (TrimSpace raw) "null").

Definition check_legacy (m : chatMessageShadow) : Conv unit :=
  when (has_legacy (ms_FunctionCall m))
    (require (length (ms_ToolCalls m) =? 0)%nat "chat response message carries both tool_calls and the legacy function_call spelling" ;;~
     match unmarshal_call (TrimSpace (ms_FunctionCall m)) with
     | None => wireError "chat response legacy function_call"
     | Some (name, arguments) =>
         require (nonEmpty name) "chat response legacy function_call has no name" ;;~
         require (known arguments) "chat response legacy function_call has no arguments"
     end).

Definition check_call (i : nat) (call : chatToolCallShadow) : Conv (list unit) :=
  require (match ts_Type call with Some t => is_lit t "function" | None => false end) "chat response tool call type, want function" ;;~
  require (nonEmpty (ts_ID call)) "chat response tool call has no id" ;;~
  require (nonEmpty (ts_Name call)) "chat response tool call has no function name" ;;~
  require (known (ts_Arguments call)) "chat response tool call has no arguments" ;;~
  ret [].

Definition check_message (message : chatMessageShadow) : Conv unit :=
  require (match ms_Role message with Some r => is_lit r "assistant" | None => false end) "chat response message role, want assistant" ;;~
  check_legacy message ;;~
  require (negb (known (ms_ToolCallID message))) "chat response assistant message carries tool_call_id" ;;~
  _ <~ collect check_call 0 (ms_ToolCalls message) ;;
  ret tt.

(** The message of the one choice of a response that has what the contract requires. *)
Definition check_shadow (s : chatResponseShadow) : Conv chatMessageShadow :=
  require (match sh_Object s with Some o => is_lit o "chat.completion" | None => false end) "chat response object" ;;~
  (if negb (nonEmpty (sh_Model s)) then fail (Errorf "chat response has no model") else ret tt) ;;~
  match sh_Choices s with
  | [] => wireError "chat response has no choices"
  | _ :: _ :: _ => wireError "chat response has more than one choice; the transcoder requires n=1"
  | [choice] =>
      require (match cs_Index choice with Some i => i =? 0 | None => false end) "chat response choice index; n=1 requires index 0" ;;~
      require (negb (cs_Delta choice)) "chat response choice carries a streaming delta arm; the non-streaming surface carries only message" ;;~
      require (known (cs_FinishReason choice)) "chat response choice has no finish_reason" ;;~
      match cs_Message choice with
      | None => wireError "chat response choice has no message"
      | Some message => check_message message ;;~ ret message
      end
  end.

(** The stop reason, the status and the reason of an incomplete response. *)
Definition finish (reason : option str) : Conv (CanonicalStopReason * CanonicalResponseStatus * str) :=
  let r := derefStr reason in
  if is_lit r "stop" then ret (CanonicalStopEndTurn, CanonicalResponseCompleted, [])
  else if is_lit r "length" then ret (CanonicalStopMaxTokens, CanonicalResponseIncomplete, lit "max_output_tokens")
  else if is_lit r "tool_calls" || is_lit r "function_call" then ret (CanonicalStopToolUse, CanonicalResponseCompleted, [])
  else if is_lit r "content_filter" then ret (CanonicalStopRefusal, CanonicalResponseIncomplete, lit "content_filter")
  else r <~ deref reason ;; fail (UnsupportedFeatureError "chat" "choices[].finish_reason" (string_of_list_ascii r)).

Definition no_assistant : ChatAssistantMessage :=
  {| am_Refusal := None; am_ToolCalls := []; am_Audio := None; am_Reasoning := None; am_ReasoningContent := None |}.

Definition append_call (call : ChatMessageToolCall) (message : ChatMessage) : ChatMessage :=
  let a := default no_assistant (m_Assistant message) in
  {| m_Content := m_Content message;
     m_Assistant := Some {| am_Refusal := am_Refusal a; am_ToolCalls := am_ToolCalls a ++ [call]; am_Audio := am_Audio a;
                            am_Reasoning := am_Reasoning a; am_ReasoningContent := am_ReasoningContent a |} |}.

(** The legacy call becomes a tool call whose id is made of the response's. *)
Definition map_legacy (id raw : str) (message : option ChatMessage) : Conv (option ChatMessage) :=
  if negb (has_legacy raw) then ret message
  else
    match unmarshal_call (TrimSpace raw) with
    | None => wireError "chat response legacy function_call"
    | Some (name, arguments) =>
        let synthID := (id ++ lit ":legacy-function-call-0")%list in
        message <~ deref message ;;
        Note "legacy_function_call" "choices[].message.function_call"
          ("legacy function_call mapped to one tool call with id synthesized from the response id (" ++
           string_of_list_ascii synthID ++ ")") ;;~
        ret (Some (append_call {| tc_ID := Some synthID; tc_Name := name; tc_Arguments := derefStr arguments |} message))
    end.

Definition message_items (parts : list CanonicalPart) : list CanonicalResponseItem :=
  match parts with [] => [] | _ => [CanonicalMessageItem [] CanonicalAssistant None parts] end.

Definition DecodeChatResponseWithPolicy (body : str) (capabilities : ChatCapabilities) (policy : LossPolicy) : Conv DecodedResponse :=
  match decode_shadow body with
  | None => wireError "chat response"
  | Some shadow =>
      shadowMessage <~ check_shadow shadow ;;
      match decode_chat body with
      | None => wireError "chat response"
      | Some chat =>
          choice <~ deref (head (cr_Choices chat)) ;;
          fin <~ finish (ch_FinishReason choice) ;;
          let '(stop, status, incomplete) := fin in
          message <~ map_legacy (cr_ID chat) (ms_FunctionCall shadowMessage) (ch_Message choice) ;;
          message <~ deref message ;;
          converted <~ chatMessageToCanonicalParts message capabilities policy ;;
          let '(parts, calls) := converted in
          validated
            {| canonical := {| r_ID := cr_ID chat; r_Model := cr_Model chat; r_Status := Some status;
                               r_Stop := Some {| Reason := stop; Sequence := [] |}; r_Items := message_items parts ++ calls |};
               r_CreatedAt := Q2Qc (inject_Z (cr_Created chat));
               r_Usage := match sh_Usage shadow with Some u => chat_usage u | None => no_usage end;
               r_IncompleteReason := incomplete; r_ErrorMessage := [];
               r_Source := {| ChatLogProbs := ch_LogProbs choice; ChatServiceTier := derefStr (cr_ServiceTier chat);
                              ResponsesControls := []; ResponsesServiceTier := [] |} |}
      end
  end.
End chat.

(** ** A Responses response on the wire *)

Inductive output_content := OutputText (Text : str) | OutputRefusal (Refusal : str) | OutputContentOther.

Inductive input_content :=
| InputText (Text : str)
| InputImage (ImageURL FileID Detail : str)
| InputFile (FileURL FileData FileID Filename Detail : str)
| InputOutputText (Text : str)
| InputOutputRefusal (Refusal : str)
| InputContentOther.

Inductive FunctionOutput := OutputOfText (Text : str) | OutputOfParts (parts : list input_content).

(** [encoding/json] writes a reasoning item, whose provider marker is [Format]. *)
Record ReasoningOutputItem := {
  rs_ID : str;
  rs_Status : str;
  rs_Summary : list str;
  rs_Content : list str;
  rs_EncryptedContent : option str;
  rs_Format : option str;
}.

Inductive output_item :=
| ResponsesOutputMessage (ID Phase : str) (Content : list output_content)
| ResponsesFunctionCallOutputItem (ID CallID Name Arguments : str)
| ResponsesFunctionCallOutputResultItem (ID CallID : str) (Output : FunctionOutput)
| ResponsesReasoningOutputItem (item : ReasoningOutputItem)
| OutputItemOther.

(** The controls are presence; the details of the usage are its optional counts. *)
Record ResponseEnvelope := {
  en_ID : str;
  en_Model : str;
  en_CreatedAt : Qc;
  en_Status : str;
  en_IncompleteReason : option str;
  en_ErrorMessage : option str;
  en_Background : bool;
  en_MaxToolCalls : bool;
  en_Prompt : bool;
  en_PromptCacheKey : bool;
  en_SafetyIdentifier : bool;
  en_ServiceTier : option str;
  en_Usage : option ResponsesUsage;
  en_Output : list output_item;
}.

(** Why the wire layer refuses an envelope. *)
Inductive envelope_error := UnsupportedType (Protocol Path Type_ : string) | Malformed.

Definition envelope_controls (e : ResponseEnvelope) : list string :=
  map fst (List.filter snd
    [("background", en_Background e); ("max_tool_calls", en_MaxToolCalls e); ("prompt", en_Prompt e);
     ("prompt_cache_key", en_PromptCacheKey e); ("safety_identifier", en_SafetyIdentifier e)]).

Definition envelope_usage (u : ResponsesUsage) : CanonicalUsage :=
  {| cu_Input := InputTokens u; cu_CacheRead := default 0 (CachedTokens u); cu_CacheWrite := 0; cu_Output := OutputTokens u;
     cu_Reasoning := default 0 (ReasoningTokens u); cu_Total := TotalTokens u;
     cu_Known := {| has_input := true; has_output := true; has_total := true; has_cacheRead := known (CachedTokens u);
                    has_cacheWrite := false; has_reasoning := known (ReasoningTokens u) |} |}.

(** ** Parts of a tool's output *)

Section parts.
Context `{UnicodeTables}.

Definition data_image_types : list str := [lit "image/jpeg"; lit "image/png"; lit "image/gif"; lit "image/webp"].

(** The media type and the data; both are empty for a URL that is no data URL. *)
Definition splitImageDataURL (url : str) : result terr (str * str) :=
  match strip_prefix (lit "data:") url with
  | None => Ok ([], [])
  | Some rest =>
      match Cut "," rest with
      | None => Err (Errorf "malformed data URL")
      | Some (head, base64Data) =>
          match Split ";" head with
          | [] => Err NilPanic
          | mediaType :: params =>
              if is_empty mediaType || is_empty base64Data then Err (Errorf "data URL missing media type or data")
              else if negb (existsb (λ param, EqualFold param (lit "base64")) params)
              then Err (Errorf "data URL parameters must include base64")
              else if negb (bool_decide (mediaType ∈ data_image_types)) then Err (Errorf "unsupported image media type")
              else Ok (mediaType, base64Data)
          end
      end
  end.

Definition responsesInputContentPartToCanonical (part : input_content) : result terr CanonicalPart :=
  match part with
  | InputText text | InputOutputText text => Ok (CanonicalText text)
  | InputImage url fileID detail =>
      if negb (is_empty fileID) then Err (UnsupportedFeatureError "responses" "input[].content[].file_id" "image file_id input")
      else match splitImageDataURL url with
           | Err e => Err e
           | Ok (mediaType, base64Data) =>
               Ok (if is_empty base64Data then CanonicalImage [] url [] detail else CanonicalImage mediaType [] base64Data detail)
           end
  | InputFile url data fileID filename _ => Ok (CanonicalDocument [] url data fileID filename)
  | InputOutputRefusal text => Ok (CanonicalRefusal text)
  | InputContentOther => Err (Errorf "unknown input content part type")
  end.

Fixpoint input_parts (i : nat) (parts : list input_content) : result terr (list CanonicalPart) :=
  match parts with
  | [] => Ok []
  | p :: parts => match responsesInputContentPartToCanonical p with
                  | Err e => Err (ErrAt "function output part" i e)
                  | Ok p => ps <-? input_parts (S i) parts ;; Ok (p :: ps)
                  end
  end.

Definition responsesFunctionOutputToCanonical (output : FunctionOutput) : result terr (list CanonicalPart) :=
  match output with OutputOfText text => Ok [CanonicalText text] | OutputOfParts parts => input_parts 0 parts end.
End parts.

(** ** The Responses decoder *)

Section responses.
Context `{UnicodeTables}.
(** What the wire layer makes of a body, and [json.Marshal] of a reasoning item. *)
Context (decode_envelope : str → result envelope_error ResponseEnvelope).
Context (marshal_reasoning : ReasoningOutputItem → option str).

Definition clear_format (r : ReasoningOutputItem) : ReasoningOutputItem :=
  {| rs_ID := rs_ID r; rs_Status := rs_Status r; rs_Summary := rs_Summary r; rs_Content := rs_Content r;
     rs_EncryptedContent := rs_EncryptedContent r; rs_Format := None |}.

Definition output_part_to_canonical (c : output_content) : Conv (list CanonicalPart) :=
  match c with
  | OutputText text => ret [CanonicalText text]
  | OutputRefusal text => ret [CanonicalRefusal text]
  | OutputContentOther => fail (Errorf "unknown content part")
  end.

Definition decode_output (i : nat) (item : output_item) : Conv (list CanonicalResponseItem) :=
  at_index "output item" i
    match item with
    | ResponsesOutputMessage id phase content =>
        parts <~ collect (λ _, output_part_to_canonical) 0 content ;;
        ret [CanonicalMessageItem id CanonicalAssistant (if is_empty phase then None else Some phase) parts]
    | ResponsesFunctionCallOutputItem id callID name arguments =>
        ret [CanonicalFunctionCallItem id callID name (ParseToolArguments arguments)]
    | ResponsesFunctionCallOutputResultItem id callID output =>
        parts <~ lift (responsesFunctionOutputToCanonical output) ;;
        ret [CanonicalFunctionResultItem id callID false parts]
    | ResponsesReasoningOutputItem r =>
        match marshal_reasoning (clear_format r) with
        | Some raw => ret [CanonicalReasoningItem raw]
        | None => fail (Errorf "marshal")
        end
    | OutputItemOther => fail (Errorf "unknown item type")
    end.

Definition is_call (item : output_item) : bool := match item with ResponsesFunctionCallOutputItem _ _ _ _ => true | _ => false end.

(** The status, the reason it is incomplete, the error and the stop reason, which for a
    completed response depends on its calls. *)
Definition envelope_status (e : ResponseEnvelope) : Conv (CanonicalResponseStatus * str * str * CanonicalStopReason) :=
  let status := en_Status e in
  if is_lit status "completed" then
    ret (CanonicalResponseCompleted, [], [], if existsb is_call (en_Output e) then CanonicalStopToolUse else CanonicalStopEndTurn)
  else if is_lit status "incomplete" then
    let reason := derefStr (en_IncompleteReason e) in
    ret (CanonicalResponseIncomplete, reason, [], if is_lit reason "content_filter" then CanonicalStopRefusal else CanonicalStopMaxTokens)
  else if is_lit status "failed" then ret (CanonicalResponseFailed, [], derefStr (en_ErrorMessage e), CanonicalStopEndTurn)
  else if is_empty status then fail (Errorf "responses response has no status")
  else fail (UnsupportedFeatureError "responses" "status" (string_of_list_ascii status)).

Definition DecodeResponsesResponse (body : str) : Conv DecodedResponse :=
  match decode_envelope body with
  | Err (UnsupportedType protocol path type_) => fail (UnsupportedFeatureError protocol path type_)
  | Err Malformed => wireError "responses response"
  | Ok e =>
      st <~ envelope_status e ;;
      let '(status, incomplete, message, stop) := st in
      items <~ collect decode_output 0 (en_Output e) ;;
      validated
        {| canonical := {| r_ID := en_ID e; r_Model := en_Model e; r_Status := Some status;
                           r_Stop := Some {| Reason := stop; Sequence := [] |}; r_Items := items |};
           r_CreatedAt := en_CreatedAt e;
           r_Usage := match en_Usage e with Some u => envelope_usage u | None => no_usage end;
           r_IncompleteReason := incomplete; r_ErrorMessage := message;
           r_Source := {| ChatLogProbs := false; ChatServiceTier := []; ResponsesControls := envelope_controls e;
                          ResponsesServiceTier := derefStr (en_ServiceTier e) |} |}
  end.
End responses.
