(* ===== verification/ResponseRender.v ===== *)
(** * Rendering a whole response ([internal/transcode/convert_response.go], [handler.go])

    The two renderers of a canonical response, and the handler's [convertResponse], which
    decodes, renders and records the conversation for the requests that continue it.  A
    document is the value [json.Marshal] is given; the echo of the request in it is not
    rendered. *)

From Stdlib Require Import ZArith QArith Qcanon Lia Bool List Ascii String.
From stdpp Require Import strings gmap list.
From S2P Require Import Prelude GoStd GoStr GoText GoJson Losses Ir Usage ResponseDecode.
From S2P Require ChatStream ApiErrors Continuity.

Open Scope string_scope.
Open Scope Z_scope.
Open Scope conv_scope.

(** ** The exchange *)

Record ExchangeIDs := { ids_prefix : string; ids_next : N }.

(** [ExchangeIDs.New], at a value of the counter. *)
Definition New (ids : ExchangeIDs) (kind : string) : string * ExchangeIDs :=
  let n := (ids_next ids + 1)%N in
  (ChatStream.id_of (ids_prefix ids) kind n, {| ids_prefix := ids_prefix ids; ids_next := n |}).

(** [x_Store]: the client's [store] field. *)
Record ExchangeContext := {
  x_RequestedClientModel : str;
  x_IDs : option ExchangeIDs;
  x_LossPolicy : LossPolicy;
  x_ToolNames : option ToolNames;
  x_RequestTurns : list CanonicalTurn;
  x_RequestDepth : Z;
  x_Store : option bool;
}.

Definition lossPolicy (context : option ExchangeContext) : LossPolicy :=
  match context with Some x => x_LossPolicy x | None => StrictLossPolicy end.

Definition requestedClientModelAlias (response : DecodedResponse) (x : ExchangeContext) : str :=
  if is_empty (x_RequestedClientModel x) then r_Model (canonical response) else x_RequestedClientModel x.

(** [CanonicalUsage.Unknown] *)
Definition Unknown (u : CanonicalUsage) : bool :=
  let k := cu_Known u in
  negb (has_input k) && negb (has_output k) && negb (has_cacheRead k) && negb (has_cacheWrite k) && negb (has_reasoning k) &&
  negb (has_total k).

(** What neither dialect can say of a Chat response. *)
Definition chat_losses (policy : LossPolicy) (target : string) (s : ResponseSourceArtifacts) : Conv unit :=
  when (ChatLogProbs s)
    (Lose policy "logprobs" "choices[].logprobs" ("chat response logprobs cannot be reproduced in a " ++ target ++ " response")) ;;~
  when (negb (is_empty (ChatServiceTier s)))
    (Lose policy "response_service_tier" "service_tier"
       ("the upstream chat service tier actually served cannot be reproduced in a " ++ target ++ " response")).

(** ** A Messages response *)

Inductive AnthropicContentBlock :=
| Text (text : str)
| ThinkingBlock (thinking signature : str)
| ToolUse (id name : str) (input : gmap str json).

Record AnthropicMessageResponse := {
  am_ID : string;
  am_Model : str;
  am_Content : list AnthropicContentBlock;
  am_StopReason : string;
  am_StopSequence : option str;
  am_StopDetails : option string;
  am_Usage : AnthropicUsage;
}.

Definition thinking_block (part : CanonicalPart) : option AnthropicContentBlock :=
  match part with CanonicalThinkingPart text signature => Some (ThinkingBlock text signature) | _ => None end.

Definition text_block (part : CanonicalPart) : Conv (list AnthropicContentBlock) :=
  match part with
  | CanonicalText text | CanonicalRefusal text => ret [Text text]
  | CanonicalThinkingPart _ _ => ret []
  | _ => fail (Errorf "response message item: unknown canonical part")
  end.

(** The blocks of an item, given which of the losses that are recorded once already are. *)
Definition messages_item (policy : LossPolicy) (phaseLossRecorded reasoningLossRecorded : bool) (item : CanonicalResponseItem)
    : Conv (list AnthropicContentBlock) :=
  match item with
  | CanonicalMessageItem _ _ phase parts =>
      when (known phase && negb phaseLossRecorded)
        (Lose policy "output_phase" "output[].phase" "the output message phase cannot be reproduced in a Messages response") ;;~
      texts <~ collect (λ _, text_block) 0 parts ;;
      ret (omap thinking_block parts ++ texts)%list
  | CanonicalFunctionCallItem _ callID name arguments =>
      match Object arguments with
      | None =>
          fail (UnrepresentableError "messages" "content[].tool_use.input"
                  "the model-generated tool arguments are not a JSON object and cannot be represented as tool_use.input")
      | Some input => ret [ToolUse callID name input]
      end
  | CanonicalFunctionResultItem _ _ _ _ =>
      Lose policy "output_item_boundaries" "output[].function_call_output"
        "tool results are conversation-state output items, not part of the model response" ;;~
      ret []
  | CanonicalReasoningItem _ =>
      when (negb reasoningLossRecorded)
        (Lose policy "reasoning_summary" "output[].reasoning" "Responses reasoning output cannot be reproduced in a Messages response") ;;~
      ret []
  end.

Definition has_phase (item : CanonicalResponseItem) : bool :=
  match item with CanonicalMessageItem _ _ phase _ => known phase | _ => false end.
Definition is_reasoning (item : CanonicalResponseItem) : bool := match item with CanonicalReasoningItem _ => true | _ => false end.

Fixpoint messages_items (policy : LossPolicy) (phaseLossRecorded reasoningLossRecorded : bool) (items : list CanonicalResponseItem)
    : Conv (list AnthropicContentBlock) :=
  match items with
  | [] => ret []
  | item :: items =>
      blocks <~ messages_item policy phaseLossRecorded reasoningLossRecorded item ;;
      rest <~ messages_items policy (phaseLossRecorded || has_phase item) (reasoningLossRecorded || is_reasoning item) items ;;
      ret (blocks ++ rest)%list
  end.

Definition stop_name (reason : option CanonicalStopReason) : string :=
  match reason with
  | Some CanonicalStopEndTurn | None => "end_turn"
  | Some CanonicalStopMaxTokens => "max_tokens"
  | Some CanonicalStopStopSequence => "stop_sequence"
  | Some CanonicalStopToolUse => "tool_use"
  | Some CanonicalStopRefusal => "refusal"
  end.

Definition zero_usage : AnthropicUsage := {| an_Input := 0; an_CacheCreation := 0; an_CacheRead := 0; an_Output := 0; an_Thinking := 0 |}.

Definition messages_usage (policy : LossPolicy) (usage : CanonicalUsage) : Conv AnthropicUsage :=
  if Unknown usage then
    Lose policy "usage_unknown" "usage"
      "the upstream response did not provide token usage; the required Messages usage cannot be reproduced" ;;~
    ret zero_usage
  else canonicalUsageToAnthropic policy usage.

(** The separator of [strings.Join]. *)
Definition join (names : list string) : string := String.concat ", " names.

(** A failed response is an error, with the upstream's message. *)
Definition reject_failed (response : DecodedResponse) : Conv unit :=
  if bool_decide (r_Status (canonical response) = Some CanonicalResponseFailed)
  then fail (UpstreamSemanticFailureError (r_ErrorMessage response)) else ret tt.

Definition require_context (what : string) (context : option ExchangeContext) : Conv (ExchangeContext * ExchangeIDs) :=
  match context with
  | Some x => match x_IDs x with
              | Some ids => ret (x, ids)
              | None => fail (Errorf ("render " ++ what ++ " response requires an exchange context"))
              end
  | None => fail (Errorf ("render " ++ what ++ " response requires an exchange context"))
  end.

Definition RenderMessagesResponse (response : DecodedResponse) (context : option ExchangeContext) : Conv AnthropicMessageResponse :=
  let c := canonical response in
  let source := r_Source response in
  let policy := lossPolicy context in
  lift (ValidateCanonicalResponse c) ;;~
  reject_failed response ;;~
  ctx <~ require_context "messages" context ;;
  let '(x, ids) := ctx in
  chat_losses policy "Messages" source ;;~
  when (negb (length (ResponsesControls source) =? 0)%nat)
    (Lose policy "responses_controls" "output"
       ("the Responses envelope controls " ++ join (ResponsesControls source) ++ " cannot be reproduced in a Messages response")) ;;~
  when (negb (is_empty (ResponsesServiceTier source)))
    (Lose policy "response_service_tier" "service_tier"
       "the upstream service tier actually served cannot be reproduced in a Messages response") ;;~
  blocks <~ messages_items policy false false (r_Items c) ;;
  let reason := Reason <$> r_Stop c in
  usage <~ messages_usage policy (r_Usage response) ;;
  ret {| am_ID := (New ids "msg_").1; am_Model := requestedClientModelAlias response x; am_Content := blocks;
         am_StopReason := stop_name reason;
         am_StopSequence := if bool_decide (reason = Some CanonicalStopStopSequence) then Sequence <$> r_Stop c else None;
         am_StopDetails := if bool_decide (reason = Some CanonicalStopRefusal) then Some "refusal" else None;
         am_Usage := usage |}.

(** ** A Responses response *)

Inductive part_kind := KText | KRefusal.

(** The status of an item is always "completed". *)
Inductive ResponsesOutputItem :=
| OutMessage (ID : string) (Phase : str) (Content : list (part_kind * str))
| OutSummary (ID : string) (Text : str)
| OutReasoning (item : ReasoningOutputItem)
| OutCall (ID : string) (CallID Name Namespace Arguments : str).

Record ResponsesEnvelope := {
  re_ID : string;
  re_CreatedAt : Qc;
  re_Status : string;
  re_Model : str;
  re_Output : list ResponsesOutputItem;
  re_Usage : option ResponsesUsage;
  re_Error : option str;
  re_IncompleteReason : option str;
}.

Definition status_name (s : option CanonicalResponseStatus) : string :=
  match s with
  | Some CanonicalResponseCompleted => "completed"
  | Some CanonicalResponseIncomplete => "incomplete"
  | Some CanonicalResponseFailed => "failed"
  | None => ""
  end.

(** The reasoning items of a message's thinking, which stand before it, and its content. *)
Fixpoint message_parts (ids : ExchangeIDs) (parts : list CanonicalPart)
    : Conv (list ResponsesOutputItem * list (part_kind * str) * ExchangeIDs) :=
  match parts with
  | [] => ret ([], [], ids)
  | CanonicalText text :: parts =>
      r <~ message_parts ids parts ;; let '(items, content, ids) := r in ret (items, (KText, text) :: content, ids)
  | CanonicalRefusal text :: parts =>
      r <~ message_parts ids parts ;; let '(items, content, ids) := r in ret (items, (KRefusal, text) :: content, ids)
  | CanonicalThinkingPart text _ :: parts =>
      let '(id, ids) := New ids "rs_" in
      r <~ message_parts ids parts ;; let '(items, content, ids) := r in ret (OutSummary id text :: items, content, ids)
  | _ :: _ => fail (Errorf "response message item: unknown canonical part")
  end.

Section render.
(** [json.Unmarshal] of a reasoning item. *)
Context (unmarshal_reasoning : str → option ReasoningOutputItem).

Definition responses_item (names : option ToolNames) (ids : ExchangeIDs) (item : CanonicalResponseItem)
    : Conv (list ResponsesOutputItem * ExchangeIDs) :=
  match item with
  | CanonicalMessageItem _ _ phase parts =>
      let '(id, ids) := New ids "msg_" in
      r <~ message_parts ids parts ;;
      let '(items, content, ids) := r in
      ret (items ++ [OutMessage id (derefStr phase) content], ids)%list
  | CanonicalFunctionCallItem _ callID name arguments =>
      let '(callName, namespace) := clientCallName names name in
      let '(id, ids) := New ids "fc_" in
      ret ([OutCall id callID callName namespace (Raw arguments)], ids)
  | CanonicalFunctionResultItem _ _ _ _ => fail (UnsupportedFeatureError "responses" "output[]" "function result in model output")
  | CanonicalReasoningItem raw =>
      match unmarshal_reasoning raw with
      | Some r => ret ([OutReasoning r], ids)
      | None => fail (Errorf "response reasoning item")
      end
  end.

Fixpoint responses_items (names : option ToolNames) (ids : ExchangeIDs) (items : list CanonicalResponseItem)
    : Conv (list ResponsesOutputItem * ExchangeIDs) :=
  match items with
  | [] => ret ([], ids)
  | item :: items =>
      r <~ responses_item names ids item ;;
      rest <~ responses_items names r.2 items ;;
      ret (r.1 ++ rest.1, rest.2)%list
  end.

Definition responses_usage (policy : LossPolicy) (usage : CanonicalUsage) : Conv (option ResponsesUsage) :=
  if Unknown usage then
    Note "usage_unknown" "usage"
      "the source response provided no token usage; the Responses usage object is omitted (the target wire does not require it)" ;;~
    ret None
  else u <~ canonicalUsageToResponses policy usage ;; ret (Some u).

Definition RenderResponsesResponse (response : DecodedResponse) (context : option ExchangeContext) : Conv ResponsesEnvelope :=
  let c := canonical response in
  let policy := lossPolicy context in
  lift (ValidateCanonicalResponse c) ;;~
  ctx <~ require_context "responses" context ;;
  let '(x, ids) := ctx in
  chat_losses policy "Responses" (r_Source response) ;;~
  let '(id, ids) := New ids "resp_" in
  out <~ responses_items (x_ToolNames x) ids (r_Items c) ;;
  usage <~ responses_usage policy (r_Usage response) ;;
  ret {| re_ID := id; re_CreatedAt := r_CreatedAt response; re_Status := status_name (r_Status c);
         re_Model := requestedClientModelAlias response x; re_Output := out.1; re_Usage := usage;
         re_Error := if bool_decide (r_Status c = Some CanonicalResponseFailed) then Some (r_ErrorMessage response) else None;
         re_IncompleteReason := if bool_decide (r_Status c = Some CanonicalResponseIncomplete) then Some (r_IncompleteReason response) else None |}.
End render.

(** ** The handler's conversion *)

Record Mapping := {
  ClientProtocol : ApiErrors.ClientProtocol;
  UpstreamProtocol : ApiErrors.UpstreamProtocol;
  map_Capabilities : ChatCapabilities;
  map_LossPolicy : LossPolicy;
  ContinuityKey : str;
}.

Inductive document := ResponsesDocument (e : ResponsesEnvelope) | MessagesDocument (m : AnthropicMessageResponse).

(** Of two conversions with a report each, the first gives the second what it renders: the
    document, and the losses of both, those of the rendering first. *)
Definition decode_render {A} (decode : Conv DecodedResponse) (render : DecodedResponse → Conv A)
    : result terr (DecodedResponse * A) * list ConversionLoss :=
  match decode fresh_report with
  | (Err e, _) => (Err e, [])
  | (Ok response, decodeReport) =>
      match render response fresh_report with
      | (Err e, _) => (Err e, [])
      | (Ok a, report) => (Ok (response, a), Losses report ++ Losses decodeReport)%list
      end
  end.

Section convert.
Context `{UnicodeTables}.
Context (decode_shadow : str → option chatResponseShadow) (decode_chat : str → option ChatResponse).
Context (unmarshal_call : str → option (option str * option str)).
Context (decode_envelope : str → result envelope_error ResponseEnvelope).
Context (marshal_reasoning : ReasoningOutputItem → option str) (unmarshal_reasoning : str → option ReasoningOutputItem).
Context (marshal : gmap str json → str).

(** What is recorded of an exchange: the turns of the request and those the response
    leaves.  The identifier is the envelope's, read back from the document. *)
Definition conversation (x : ExchangeContext) (response : DecodedResponse) : list CanonicalTurn :=
  (x_RequestTurns x ++ (Continuity.responseItemsToTurns marshal (canonical response)).1)%list.

Definition storeFalse (x : ExchangeContext) : bool := match x_Store x with Some store => negb store | None => false end.

(** [None] is a panic. *)
Definition recordContinuityFromEnvelope (key : str) (x : ExchangeContext) (response : DecodedResponse) (id : string)
    (now later : Time) (store : Continuity.ContinuityStore) : option Continuity.ContinuityStore :=
  if String.eqb id "" then Some store
  else snd <$> Continuity.RecordEvicted key (lit id) (conversation x response) (x_RequestDepth x) (storeFalse x) now later store.

Definition unsupported_pair (client : string) : result terr document * list ConversionLoss :=
  (Err (Errorf ("unsupported upstream protocol for " ++ client ++ " client")), []).

(** The document or the error, the losses to log, and the store, if there is one. *)
Definition convertResponse (m : Mapping) (context : option ExchangeContext) (body : str) (now later : Time)
    (store : option Continuity.ContinuityStore)
    : result terr document * list ConversionLoss * option (option Continuity.ContinuityStore) :=
  let decode_chat_response := DecodeChatResponseWithPolicy decode_shadow decode_chat unmarshal_call body (map_Capabilities m) (map_LossPolicy m) in
  match ClientProtocol m, UpstreamProtocol m with
  | ApiErrors.ClientResponses, ApiErrors.UpstreamChatCompletions =>
      match decode_render decode_chat_response (λ r, RenderResponsesResponse unmarshal_reasoning r context) with
      | (Ok (response, e), losses) =>
          (Ok (ResponsesDocument e), losses,
           match store, context with
           | Some s, Some x => Some <$> recordContinuityFromEnvelope (ContinuityKey m) x response (re_ID e) now later s
           | _, _ => Some store
           end)
      | (Err e, losses) => (Err e, losses, Some store)
      end
  | ApiErrors.ClientResponses, _ => (unsupported_pair "responses", Some store)
  | ApiErrors.ClientMessages, ApiErrors.UpstreamChatCompletions =>
      match decode_render decode_chat_response (λ r, RenderMessagesResponse r context) with
      | (Ok (_, d), losses) => (Ok (MessagesDocument d), losses, Some store)
      | (Err e, losses) => (Err e, losses, Some store)
      end
  | ApiErrors.ClientMessages, ApiErrors.UpstreamResponses =>
      match decode_render (DecodeResponsesResponse decode_envelope marshal_reasoning body) (λ r, RenderMessagesResponse r context) with
      | (Ok (_, d), losses) => (Ok (MessagesDocument d), losses, Some store)
      | (Err e, losses) => (Err e, losses, Some store)
      end
  | ApiErrors.ClientMessages, _ => (unsupported_pair "messages", Some store)
  end.
End convert.
