(* ===== verification/ResponseLaws.v ===== *)
(** * What a whole response becomes

    The decoders and the renderers of [ResponseDecode] and [ResponseRender] against
    what the upstream's document says: the content, the stop reason and the losses of
    what the client gets, and what an error means. *)

From Stdlib Require Import ZArith QArith Qcanon Lia Bool List Ascii String.
From stdpp Require Import strings gmap list.
From S2P Require Import Prelude GoStd GoStr GoText GoJson Losses Ir Usage ResponseDecode ResponseRender.
From S2P Require ApiErrors.

Open Scope string_scope.
Open Scope Z_scope.
Open Scope conv_scope.
Open Scope list_scope.

(** ** Conversions with their errors *)

Lemma t_require E b msg (Q : unit → Prop) : (b = true → Q tt) → (b = false → E (UpstreamWireError msg)) → triple (require b msg) Q E.
Proof. destruct b; simpl; intros HQ HE; [by apply t_ret, HQ|by apply t_fail, HE]. Qed.

(** ** The renderer of Messages *)

(** The text a part has in a Messages response, and the blocks of an item. *)
Definition part_text (part : CanonicalPart) : option str :=
  match part with CanonicalText text | CanonicalRefusal text => Some text | _ => None end.

Definition part_content (part : CanonicalPart) : option (part_kind * str) :=
  match part with CanonicalText text => Some (KText, text) | CanonicalRefusal text => Some (KRefusal, text) | _ => None end.

Lemma part_text_content parts : omap part_text parts = map snd (omap part_content parts).
Proof. unfold omap. induction parts as [|p parts IH]; [done|]. destruct p; simpl; by rewrite ?IH. Qed.

Definition item_blocks (item : CanonicalResponseItem) : list AnthropicContentBlock :=
  match item with
  | CanonicalMessageItem _ _ _ parts => omap thinking_block parts ++ map Text (omap part_text parts)
  | CanonicalFunctionCallItem _ callID name arguments =>
      match Object arguments with Some input => [ToolUse callID name input] | None => [] end
  | _ => []
  end.

Definition unrepresentable_call (item : CanonicalResponseItem) : Prop :=
  match item with CanonicalFunctionCallItem _ _ _ arguments => Object arguments = None | _ => False end.

(** Why a rendering stops; [objects] is whether the target needs arguments to be objects. *)
Inductive render_stop (objects : Prop) (policy : LossPolicy) (response : DecodedResponse) (context : option ExchangeContext) : terr → Prop :=
| StopLoss path f : (f ∉ Allowed policy) → render_stop objects policy response context (UnsupportedFeatureError "transcode" path f)
| StopInvalid e : ValidateCanonicalResponse (canonical response) = Err e → render_stop objects policy response context e
| StopFailed : r_Status (canonical response) = Some CanonicalResponseFailed →
    render_stop objects policy response context (UpstreamSemanticFailureError (r_ErrorMessage response))
| StopCall item protocol path detail : objects → item ∈ r_Items (canonical response) → unrepresentable_call item →
    render_stop objects policy response context (UnrepresentableError protocol path detail)
| StopContext msg : context ≫= x_IDs = None → render_stop objects policy response context (Errorf msg).

Lemma t_Lose_stop objects policy response context f path detail (Q : unit → Prop) :
  (f ∈ Allowed policy → Q tt) → triple (Lose policy f path detail) Q (render_stop objects policy response context).
Proof.
  intros HQ r. unfold Lose, Allows. case_bool_decide; simpl; [by apply HQ|by constructor].
Qed.

Lemma t_when_Lose objects policy response context b f path detail :
  triple (when b (Lose policy f path detail)) (λ _, b = true → f ∈ Allowed policy) (render_stop objects policy response context).
Proof. apply t_when; intros ->; [by apply t_Lose_stop|done]. Qed.

Lemma lose_components_stop objects policy response context target cs : triple (lose_components policy target cs) (λ _, True) (render_stop objects policy response context).
Proof.
  induction cs as [|[[f name] k] cs IH]; simpl; [by apply t_ret|]. apply t_seq; [|done]. eapply t_weaken; [apply t_when_Lose|done].
Qed.

Lemma clamp_record_stop objects policy response context c path : triple (clamp_record c path) (λ _, True) (render_stop objects policy response context).
Proof. unfold clamp_record. repeat apply t_seq; apply t_when; intros _; done || by apply t_Note. Qed.

Lemma require_context_stop objects policy response context what :
  triple (require_context what context) (λ p, ∃ x, context = Some x ∧ x_IDs x = Some p.2 ∧ p.1 = x) (render_stop objects policy response context).
Proof.
  unfold require_context. destruct context as [x|] eqn:Hc; [|apply t_fail; by apply StopContext].
  destruct (x_IDs x) as [ids|] eqn:Hi; [apply t_ret; by exists x|]. apply t_fail. by apply StopContext.
Qed.

Section messages.
Context (policy : LossPolicy) (response : DecodedResponse) (context : option ExchangeContext).
Let stop := render_stop True policy response context.

Lemma text_blocks parts : Forall output_part parts →
  triple (collect (λ _, text_block) 0 parts) (λ bs, bs = map Text (omap part_text parts)) stop.
Proof.
  intros Hp. eapply t_weaken; [apply (t_collect_map _ _ (λ p, match part_text p with Some t => [Text t] | None => [] end))|].
  - intros i p Hin. rewrite Forall_forall in Hp. specialize (Hp p Hin). destruct p; simpl in *; try done; by apply t_ret.
  - intros bs ->. clear. induction parts as [|p parts IH]; [done|]. rewrite bind_cons, IH. simpl. by destruct (part_text p).
Qed.

(** An item of which a Messages response cannot have everything. *)
Definition lossy_item (item : CanonicalResponseItem) : Prop :=
  match item with
  | CanonicalMessageItem _ _ phase _ => known phase = true
  | CanonicalFunctionResultItem _ _ _ _ | CanonicalReasoningItem _ => True
  | CanonicalFunctionCallItem _ _ _ _ => False
  end.

Lemma allowed_some f : f ∈ Allowed policy → Allowed policy ≠ ∅.
Proof. intros Hf Hx. rewrite Hx in Hf. by apply elem_of_empty in Hf. Qed.

Definition item_said (item : CanonicalResponseItem) : Prop := ¬ unrepresentable_call item ∧ (lossy_item item → Allowed policy ≠ ∅).

Lemma messages_item_blocks (ph rs : bool) item : item ∈ r_Items (canonical response) → (∃ before, item_ok before item) →
  (ph = true → Allowed policy ≠ ∅) → (rs = true → Allowed policy ≠ ∅) →
  triple (messages_item policy ph rs item) (λ bs, bs = item_blocks item ∧ item_said item) stop.
Proof.
  intros Hin [before Hok] Hph Hrs. unfold item_said.
  destruct item as [id role phase parts|id callID name args|id callID err parts|raw]; simpl in *.
  - destruct Hok as (_ & _ & Hp). eapply t_bind; [apply t_when_Lose|]. intros [] Hl. eapply t_bind; [by apply text_blocks|].
    intros bs ->. apply t_ret. split_and!; [done|by intros []|]. intros Hk. destruct ph; [by apply Hph|]. rewrite Hk in Hl. by eapply allowed_some, Hl.
  - destruct (Object args) as [input|] eqn:Ho; [apply t_ret; by split_and!|]. apply t_fail. by apply (StopCall _ _ _ _ _ _ _ _ I Hin).
  - eapply (t_bind _ _ _ (λ _, Allowed policy ≠ ∅)); [apply t_Lose_stop, allowed_some|]. intros [] Hne. apply t_ret. by split_and!; [|intros []|].
  - eapply t_bind; [apply t_when_Lose|]. intros [] Hl. apply t_ret. split_and!; [done|by intros []|]. intros _.
    destruct rs; [by apply Hrs|]. by eapply allowed_some, Hl.
Qed.

Lemma messages_items_blocks items : ∀ ph rs, (∀ item, item ∈ items → item ∈ r_Items (canonical response) ∧ ∃ before, item_ok before item) →
  (ph = true → Allowed policy ≠ ∅) → (rs = true → Allowed policy ≠ ∅) →
  triple (messages_items policy ph rs items) (λ bs, bs = (items ≫= item_blocks) ∧ Forall item_said items) stop.
Proof.
  induction items as [|item items IH]; intros ph rs Hall Hph Hrs; simpl; [apply t_ret; by split; [|constructor]|].
  destruct (Hall item) as [Hin Hok]; [by left|]. eapply t_bind; [by apply messages_item_blocks|]. intros bs [-> [Hn Hlossy]].
  eapply t_bind; [apply IH; [intros i Hi; apply Hall; by right| |]|].
  - intros [Ht|Ht]%orb_prop; [by apply Hph|]. apply Hlossy. by destruct item.
  - intros [Ht|Ht]%orb_prop; [by apply Hrs|]. apply Hlossy. by destruct item.
  - intros rest [-> Hr]. apply t_ret. split; [done|]. by constructor.
Qed.

(** The counts a Messages response gives: those of the clamped usage, or none. *)
Definition usage_given (u : CanonicalUsage) : AnthropicUsage :=
  if Unknown u then zero_usage
  else
    let v := (clampCanonicalUsage u).1 in
    {| an_Input := sub64 (cu_Input v) (add64 (cu_CacheRead v) (cu_CacheWrite v)); an_CacheCreation := cu_CacheWrite v;
       an_CacheRead := cu_CacheRead v; an_Output := cu_Output v; an_Thinking := cu_Reasoning v |}.

Lemma messages_usage_stop :
  triple (messages_usage policy (r_Usage response)) (λ a, a = usage_given (r_Usage response)) stop.
Proof.
  unfold messages_usage, usage_given. destruct (Unknown (r_Usage response)); [apply t_seq; [by apply t_Lose_stop|by apply t_ret]|].
  unfold canonicalUsageToAnthropic. cbv zeta. apply t_seq; [apply lose_components_stop|].
  destruct (clampCanonicalUsage (r_Usage response)) as [u c]. apply t_seq; [apply clamp_record_stop|by apply t_ret].
Qed.


(** What a rendered message says of a response. *)
Record renders_message (d : AnthropicMessageResponse) : Prop := {
  rm_valid : ValidateCanonicalResponse (canonical response) = Ok tt;
  rm_not_failed : r_Status (canonical response) ≠ Some CanonicalResponseFailed;
  rm_content : am_Content d = r_Items (canonical response) ≫= item_blocks;
  rm_items : Forall item_said (r_Items (canonical response));
  rm_stop : am_StopReason d = stop_name (Reason <$> r_Stop (canonical response));
  rm_usage : am_Usage d = usage_given (r_Usage response);
  rm_logprobs : ChatLogProbs (r_Source response) = true → "logprobs" ∈ Allowed policy;
  rm_controls : ResponsesControls (r_Source response) ≠ [] → "responses_controls" ∈ Allowed policy;
}.
End messages.

Lemma reject_failed_stop objects policy response context :
  triple (reject_failed response) (λ _, r_Status (canonical response) ≠ Some CanonicalResponseFailed) (render_stop objects policy response context).
Proof. unfold reject_failed. case_bool_decide as Hf; [apply t_fail; by apply StopFailed|by apply t_ret]. Qed.

Lemma chat_losses_stop objects policy response context target :
  triple (chat_losses policy target (r_Source response)) (λ _, ChatLogProbs (r_Source response) = true → "logprobs" ∈ Allowed policy)
    (render_stop objects policy response context).
Proof.
  unfold chat_losses. eapply t_bind; [apply t_when_Lose|]. intros [] Hl. eapply t_weaken; [apply t_when_Lose|]. intros [] _. exact Hl.
Qed.

Lemma valid_items response item : ValidateCanonicalResponse response = Ok tt → item ∈ r_Items response → ∃ before, item_ok before item.
Proof. intros (_ & _ & _ & H)%ValidateCanonicalResponse_exact [k Hk]%list_elem_of_lookup. eexists. by apply H. Qed.

Lemma RenderMessages_spec response context :
  let policy := lossPolicy context in
  triple (RenderMessagesResponse response context) (renders_message policy response) (render_stop True policy response context).
Proof.
  cbv zeta. set (policy := lossPolicy context). unfold RenderMessagesResponse. cbv zeta. fold policy.
  eapply (t_bind _ _ _ (λ _, ValidateCanonicalResponse (canonical response) = Ok tt)).
  { apply t_lift. destruct (ValidateCanonicalResponse _) as [[]|e] eqn:Hv; [done|by apply StopInvalid]. }
  intros [] Hv. eapply t_bind; [apply reject_failed_stop|]. intros [] Hnf.
  eapply t_bind; [apply require_context_stop|]. intros [x ids] _. eapply t_bind; [apply chat_losses_stop|]. intros [] Hlog.
  eapply t_bind; [apply t_when_Lose|]. intros [] Hc. apply t_seq; [eapply t_weaken; [apply t_when_Lose|done]|].
  eapply t_bind; [apply (messages_items_blocks _ _ _ (r_Items (canonical response)))|].
  { intros item Hin. split; [done|by apply (valid_items (canonical response))]. }
  { done. }
  { done. }
  intros blocks [-> Hcalls]. eapply t_bind; [apply messages_usage_stop|]. intros usage Hu. apply t_ret.
  constructor; simpl; try done. intros Hne. apply Hc. destruct (ResponsesControls (r_Source response)); done.
Qed.

Lemma lawful_lose_components policy target cs : keeps_lawful policy (lose_components policy target cs).
Proof. induction cs as [|[[f name] k] cs IH]; simpl; lawful. Qed.

Lemma lawful_messages_items policy items : ∀ ph rs, keeps_lawful policy (messages_items policy ph rs items).
Proof.
  induction items as [|item items IH]; intros ph rs; simpl; [apply lawful_ret|].
  apply lawful_bind; [|intros ?; apply lawful_bind; [apply IH|intros ?; apply lawful_ret]].
  unfold messages_item, text_block. lawful.
Qed.

Lemma lawful_RenderMessages response context : keeps_lawful (lossPolicy context) (RenderMessagesResponse response context).
Proof.
  unfold RenderMessagesResponse, reject_failed, require_context, chat_losses, messages_usage, canonicalUsageToAnthropic, clamp_record.
  lawful; try apply lawful_messages_items; try apply lawful_lose_components.
Qed.

Lemma message_items_blocks parts : message_items parts ≫= item_blocks = omap thinking_block parts ++ map Text (omap part_text parts).
Proof. destruct parts as [|p parts]; [done|]. unfold message_items. by rewrite bind_cons, app_nil_r. Qed.

(** ** What an upstream's Chat response says *)

(** The texts of a content, the refusal, the reasoning and the transcript. *)
Definition content_texts (content : option ChatMessageContent) : list str :=
  match content with
  | Some (ContentStr s) => [s]
  | Some (ContentBlocks blocks) => omap (λ b, match b with BlockText t => t | _ => None end) blocks
  | _ => []
  end.

Definition reasoning_text (a : ChatAssistantMessage) : str :=
  if nonEmpty (am_ReasoningContent a) then derefStr (am_ReasoningContent a) else derefStr (am_Reasoning a).

(** A text that is left out when it is empty. *)
Definition opt_text (text : str) : list str := if is_empty text then [] else [text].

Definition as_text (texts : list str) : list (part_kind * str) := map (pair KText) texts.

Definition spoken_content (capabilities : ChatCapabilities) (m : ChatMessage) : list (part_kind * str) :=
  as_text (content_texts (m_Content m)) ++
  match m_Assistant m with
  | None => []
  | Some a =>
      map (pair KRefusal) (option_list (am_Refusal a)) ++
      as_text (if ProviderReasoningThinking capabilities then [] else
               if ProviderReasoningText capabilities then opt_text (reasoning_text a) else []) ++
      as_text (match am_Audio a with Some audio => opt_text (au_Transcript audio) | None => [] end)
  end.

Definition spoken (capabilities : ChatCapabilities) (m : ChatMessage) : list str := map snd (spoken_content capabilities m).

Definition thought (capabilities : ChatCapabilities) (m : ChatMessage) : list str :=
  match m_Assistant m with
  | Some a => if ProviderReasoningThinking capabilities then opt_text (reasoning_text a) else []
  | None => []
  end.

Definition called (m : ChatMessage) : list ChatMessageToolCall := match m_Assistant m with Some a => am_ToolCalls a | None => [] end.

(** What of it no client can be given. *)
Definition unheard (capabilities : ChatCapabilities) (m : ChatMessage) : Prop :=
  match m_Assistant m with
  | Some a => (reasoning_text a ≠ [] ∧ ProviderReasoningThinking capabilities = false ∧ ProviderReasoningText capabilities = false) ∨
              (∃ audio, am_Audio a = Some audio ∧ au_Data audio ≠ [])
  | None => False
  end.

(** A message no conforming upstream sends: an unknown block, two spellings of the
    reasoning, an empty audio or a call without an id. *)
Definition corrupt_message (m : ChatMessage) : Prop :=
  (∃ blocks t, m_Content m = Some (ContentBlocks blocks) ∧ BlockOther t ∈ blocks) ∨
  ∃ a, m_Assistant m = Some a ∧
    ((nonEmpty (am_Reasoning a) = true ∧ nonEmpty (am_ReasoningContent a) = true) ∨
     (∃ audio, am_Audio a = Some audio ∧ au_Data audio = [] ∧ au_Transcript audio = []) ∨
     (∃ call, call ∈ am_ToolCalls a ∧ nonEmpty (tc_ID call) = false)).

Definition call_item (call : ChatMessageToolCall) : CanonicalResponseItem :=
  CanonicalFunctionCallItem [] (derefStr (tc_ID call)) (derefStr (tc_Name call)) (ParseToolArguments (tc_Arguments call)).

(** Why the decoding of a message stops: it is corrupt, or a feature is not supported. *)
Definition message_stop (m : ChatMessage) (e : terr) : Prop :=
  match e with
  | UpstreamWireError _ => corrupt_message m
  | UnsupportedFeatureError _ _ _ => True
  | _ => False
  end.

(** The parts of a message say what it says. *)
Record says (capabilities : ChatCapabilities) (policy : LossPolicy) (m : ChatMessage) (parts : list CanonicalPart) : Prop := {
  s_content : omap part_content parts = spoken_content capabilities m;
  s_thoughts : omap thinking_block parts = map (λ t, ThinkingBlock t SyntheticThinkingSignature) (thought capabilities m);
  s_parts : Forall output_part parts;
  s_lost : unheard capabilities m → Allowed policy ≠ ∅;
}.

Section message.
Context (capabilities : ChatCapabilities) (policy : LossPolicy) (m : ChatMessage).
Let stop := message_stop m.

Lemma lose_message f path detail (Q : unit → Prop) : (f ∈ Allowed policy → Q tt) → triple (Lose policy f path detail) Q stop.
Proof. intros HQ. by apply t_Lose. Qed.

Lemma content_parts_says :
  triple (content_parts (m_Content m)) (λ parts, parts = map CanonicalText (content_texts (m_Content m))) stop.
Proof.
  unfold content_parts, content_texts. destruct (m_Content m) as [[s|blocks|]|] eqn:Hc; try by apply t_ret.
  eapply t_weaken; [apply (t_collect_map _ _ (λ b, match b with BlockText (Some t) => [CanonicalText t] | _ => [] end))|].
  - intros i b Hin. destruct b as [[t|]| | |t]; simpl; try (by apply t_ret); try (by apply t_fail).
    apply t_fail. left. by exists blocks, t.
  - intros parts ->. clear. induction blocks as [|b blocks IH]; [done|]. rewrite bind_cons, IH. by destruct b as [[t|]| | |].
Qed.

Lemma not_empty_ne (s : str) : is_empty s = false → s ≠ [].
Proof. intros Hs ->. done. Qed.

Lemma reasoning_says a : m_Assistant m = Some a →
  triple (reasoning_parts capabilities policy a)
    (λ parts,
       omap part_content parts = as_text (if ProviderReasoningThinking capabilities then [] else
                                          if ProviderReasoningText capabilities then opt_text (reasoning_text a) else []) ∧
       omap thinking_block parts = map (λ t, ThinkingBlock t SyntheticThinkingSignature)
         (if ProviderReasoningThinking capabilities then opt_text (reasoning_text a) else []) ∧
       Forall output_part parts ∧
       (reasoning_text a ≠ [] → ProviderReasoningThinking capabilities = false → ProviderReasoningText capabilities = false → Allowed policy ≠ ∅)) stop.
Proof.
  intros Ha. unfold reasoning_parts.
  assert (match resolveChatReasoningSpelling (am_Reasoning a) (am_ReasoningContent a) with
          | None => corrupt_message m
          | Some (t, _) => t = reasoning_text a
          end) as Hr.
  { unfold resolveChatReasoningSpelling, reasoning_text. destruct (nonEmpty (am_Reasoning a)) eqn:H1, (nonEmpty (am_ReasoningContent a)) eqn:H2; simpl; try done.
    - right. exists a. split; [done|]. by left.
    - unfold nonEmpty in H1. apply negb_eq_false, is_empty_spec in H1. done. }
  destruct (resolveChatReasoningSpelling _ _) as [[t path]|]; [subst t|by apply t_fail].
  unfold opt_text. destruct (is_empty (reasoning_text a)) eqn:He.
  { apply t_ret. apply is_empty_spec in He. rewrite He.
    destruct (ProviderReasoningThinking capabilities), (ProviderReasoningText capabilities); by split_and!. }
  destruct (ProviderReasoningThinking capabilities); [apply t_seq; [by apply t_Note|]; apply t_ret; split_and!; [done|done|by repeat constructor|done]|].
  destruct (ProviderReasoningText capabilities); [apply t_seq; [by apply t_Note|]; apply t_ret; split_and!; [done|done|by repeat constructor|done]|].
  eapply (t_bind _ _ _ (λ _, Allowed policy ≠ ∅)); [apply lose_message; intros Hf Hx; rewrite Hx in Hf; by apply elem_of_empty in Hf|].
  intros [] Hne. apply t_ret. split_and!; [done|done|constructor|done].
Qed.

Lemma audio_says a : m_Assistant m = Some a →
  triple (audio_parts policy (am_Audio a))
    (λ parts,
       parts = map CanonicalText (match am_Audio a with Some audio => opt_text (au_Transcript audio) | None => [] end) ∧
       ((∃ audio, am_Audio a = Some audio ∧ au_Data audio ≠ []) → Allowed policy ≠ ∅)) stop.
Proof.
  intros Ha. unfold audio_parts. destruct (am_Audio a) as [audio|] eqn:Hau; [|apply t_ret; split; [done|by intros (? & ? & _)]].
  destruct (is_empty (au_Data audio) && is_empty (au_Transcript audio)) eqn:Hb.
  { apply andb_prop in Hb as [Hd%is_empty_spec Ht%is_empty_spec]. apply t_fail. right. exists a. split; [done|]. right. left. by exists audio. }
  eapply (t_bind _ _ _ (λ ps, ps = map CanonicalText (opt_text (au_Transcript audio)))).
  { unfold opt_text. destruct (is_empty (au_Transcript audio)); [by apply t_ret|]. apply t_seq; [by apply t_Note|by apply t_ret]. }
  intros ps ->. eapply (t_bind _ _ _ (λ _, au_Data audio ≠ [] → Allowed policy ≠ ∅)).
  - apply t_when; intros Hd.
    + apply lose_message. intros Hf _ Hx. rewrite Hx in Hf. by apply elem_of_empty in Hf.
    + apply negb_eq_false, is_empty_spec in Hd. done.
  - intros [] Hne. apply t_ret. split; [done|]. intros (x & [= <-] & Hx). by apply Hne.
Qed.

Lemma calls_says a : m_Assistant m = Some a → triple (collect tool_call 0 (am_ToolCalls a)) (λ items, items = map call_item (am_ToolCalls a)) stop.
Proof.
  intros Ha. eapply t_weaken; [apply (t_collect_map _ _ (λ c, [call_item c]))|].
  - intros i c Hin. unfold tool_call. destruct (nonEmpty (tc_ID c)) eqn:Hc; simpl; [by apply t_ret|].
    apply t_fail. right. exists a. split; [done|]. right. right. by exists c.
  - intros items ->. generalize (am_ToolCalls a). intros l. induction l as [|c l IH]; [done|]. by rewrite bind_cons, IH.
Qed.

Lemma text_parts (texts : list str) : omap part_content (map CanonicalText texts) = as_text texts.
Proof. unfold as_text, omap. induction texts as [|t texts IH]; [done|]. simpl. by f_equal. Qed.

Lemma text_thoughts (texts : list str) : omap thinking_block (map CanonicalText texts) = [].
Proof. by induction texts. Qed.

Lemma text_outputs (texts : list str) : Forall output_part (map CanonicalText texts).
Proof. induction texts; by constructor. Qed.

(** A decoded message says what the upstream's message says, or names what stopped it. *)
Lemma message_says :
  triple (chatMessageToCanonicalParts m capabilities policy)
    (λ r, says capabilities policy m r.1 ∧ r.2 = map call_item (called m)) stop.
Proof.
  unfold chatMessageToCanonicalParts. eapply t_bind; [apply content_parts_says|]. intros content ->.
  destruct (m_Assistant m) as [a|] eqn:Ha.
  - eapply t_bind; [by apply reasoning_says|]. intros rs (Hrt & Hrb & Hro & Hrl).
    eapply t_bind; [by apply calls_says|]. intros calls ->. eapply t_bind; [by apply audio_says|]. intros au (-> & Hal).
    apply t_ret. simpl. unfold called. rewrite Ha. split; [|done].
    assert (omap part_content (match am_Refusal a with Some text => [CanonicalRefusal text] | None => [] end) = map (pair KRefusal) (option_list (am_Refusal a))) as Hf
      by (by destruct (am_Refusal a)).
    assert (omap thinking_block (match am_Refusal a with Some text => [CanonicalRefusal text] | None => [] end) = []) as Hft
      by (by destruct (am_Refusal a)).
    constructor.
    + unfold spoken_content. rewrite Ha, !omap_app, !text_parts, Hrt, Hf. done.
    + unfold thought. rewrite Ha, !omap_app, !text_thoughts, Hft, Hrb. simpl. by rewrite app_nil_r.
    + apply Forall_app. split; [apply text_outputs|]. apply Forall_app. split; [destruct (am_Refusal a); by repeat constructor|].
      apply Forall_app. split; [done|apply text_outputs].
    + unfold unheard. rewrite Ha. intros [(H1 & H2 & H3)|Hau]; auto.
  - apply t_ret. unfold called. rewrite Ha. split; [|done]. constructor.
    + unfold spoken_content. rewrite Ha, app_nil_r. apply text_parts.
    + unfold thought. rewrite Ha. apply text_thoughts.
    + apply text_outputs.
    + unfold unheard. by rewrite Ha.
Qed.
End message.

(** ** The Chat decoder *)

Section chat.
Context (decode_shadow : str → option chatResponseShadow) (decode_chat : str → option ChatResponse).
Context (unmarshal_call : str → option (option str * option str)).

Definition call_complete (c : chatToolCallShadow) : Prop :=
  ts_Type c = Some (lit "function") ∧ nonEmpty (ts_ID c) = true ∧ nonEmpty (ts_Name c) = true ∧ known (ts_Arguments c) = true.

(** A legacy call is alone and has a name and arguments. *)
Definition legacy_ok (sm : chatMessageShadow) : Prop :=
  has_legacy (ms_FunctionCall sm) = true →
  ms_ToolCalls sm = [] ∧ ∃ name arguments, unmarshal_call (TrimSpace (ms_FunctionCall sm)) = Some (name, Some arguments) ∧ nonEmpty name = true.

(** The contract of a response: one complete choice with an assistant's message. *)
Record contract (s : chatResponseShadow) (sc : chatChoiceShadow) (sm : chatMessageShadow) : Prop := {
  k_object : sh_Object s = Some (lit "chat.completion");
  k_choice : sh_Choices s = [sc];
  k_index : cs_Index sc = Some 0;
  k_delta : cs_Delta sc = false;
  k_finish : known (cs_FinishReason sc) = true;
  k_message : cs_Message sc = Some sm;
  k_role : ms_Role sm = Some (lit "assistant");
  k_legacy : legacy_ok sm;
  k_tool_call_id : ms_ToolCallID sm = None;
  k_calls : Forall call_complete (ms_ToolCalls sm);
}.

Definition shadow_stop (s : chatResponseShadow) (e : terr) : Prop :=
  match e with
  | UpstreamWireError _ => ¬ ∃ sc sm, contract s sc sm
  | Errorf msg => msg = "chat response has no model" ∧ nonEmpty (sh_Model s) = false
  | _ => False
  end.

Lemma is_lit_opt (o : option str) (t : string) : match o with Some r => is_lit r t | None => false end = true ↔ o = Some (lit t).
Proof.
  unfold is_lit. destruct o as [r|]; [|by split]. split; [by intros ->%str_eqb_eq|]. intros [= ->]. by apply str_eqb_eq.
Qed.

(** A failed check of a condition the contract has. *)
Lemma t_check s b msg (P : Prop) (Q : unit → Prop) :
  (b = true ↔ P) → (P → Q tt) → ((∃ sc sm, contract s sc sm) → P) → triple (require b msg) Q (shadow_stop s).
Proof.
  intros Hb HQ Hk. apply t_require; intros Hv; [by apply HQ, Hb|]. intros Hc%Hk%Hb. congruence.
Qed.

Lemma contract_same s sc sm : sh_Choices s = [sc] → cs_Message sc = Some sm → (∃ sc sm, contract s sc sm) → contract s sc sm.
Proof.
  intros Hs Hm (sc' & sm' & Hc). assert (sc' = sc) as -> by (destruct Hc; congruence). assert (sm' = sm) as -> by (destruct Hc; congruence). done.
Qed.

Lemma check_legacy_spec s sc sm : sh_Choices s = [sc] → cs_Message sc = Some sm →
  triple (check_legacy unmarshal_call sm) (λ _, legacy_ok sm) (shadow_stop s).
Proof.
  intros Hs Hm. unfold check_legacy, legacy_ok. apply t_when; intros Hl; [|by rewrite Hl].
  assert ((∃ sc sm, contract s sc sm) → legacy_ok sm) as Hk by (by intros []%(contract_same s sc sm)). unfold legacy_ok in Hk.
  eapply (t_bind _ _ _ (λ _, ms_ToolCalls sm = [])).
  { apply (t_check _ _ _ (ms_ToolCalls sm = [])); [destruct (ms_ToolCalls sm); by split|done|]. intros Hc. by apply Hk. }
  intros _ Ht. destruct (unmarshal_call _) as [[name arguments]|] eqn:Hu.
  2: { apply t_fail. intros Hc. destruct (Hk Hc Hl) as (_ & n & a & Hx & _). congruence. }
  eapply (t_bind _ _ _ (λ _, nonEmpty name = true)).
  { apply (t_check _ _ _ (nonEmpty name = true)); [done|done|]. intros Hc. destruct (Hk Hc Hl) as (_ & n & a & Hx & ?). congruence. }
  intros _ Hn. apply (t_check _ _ _ (is_Some arguments)).
  - destruct arguments as [x|]; split; [by exists x|done|done|by intros [? ?]].
  - intros [a ->] _. split; [done|]. by exists name, a.
  - intros Hc. destruct (Hk Hc Hl) as (_ & n & a & Hx & ?). exists a. congruence.
Qed.

Lemma check_calls_spec s sc sm : sh_Choices s = [sc] → cs_Message sc = Some sm →
  triple (collect check_call 0 (ms_ToolCalls sm)) (λ _, Forall call_complete (ms_ToolCalls sm)) (shadow_stop s).
Proof.
  intros Hs Hm. assert ((∃ sc sm, contract s sc sm) → Forall call_complete (ms_ToolCalls sm)) as Hk by (by intros []%(contract_same s sc sm)).
  eapply t_weaken; [apply (t_collect _ _ (λ c _, call_complete c))|].
  - intros i c Hin.
    assert ((∃ sc sm, contract s sc sm) → call_complete c) as Hc by (intros Hx%Hk; rewrite Forall_forall in Hx; by apply Hx).
    unfold check_call, call_complete in *.
    eapply (t_bind _ _ _ (λ _, ts_Type c = Some (lit "function"))); [apply (t_check _ _ _ _ _ (is_lit_opt _ _)); [done|by intros (? & ?)%Hc]|].
    intros _ H1. eapply (t_bind _ _ _ (λ _, nonEmpty (ts_ID c) = true)); [by apply (t_check _ _ _ (nonEmpty (ts_ID c) = true)); [done|done|intros (? & ? & ?)%Hc]|].
    intros _ H2. eapply (t_bind _ _ _ (λ _, nonEmpty (ts_Name c) = true)); [by apply (t_check _ _ _ (nonEmpty (ts_Name c) = true)); [done|done|intros (? & ? & ? & ?)%Hc]|].
    intros _ H3. eapply (t_bind _ _ _ (λ _, known (ts_Arguments c) = true)); [by apply (t_check _ _ _ (known (ts_Arguments c) = true)); [done|done|intros (? & ? & ? & ?)%Hc]|].
    intros _ H4. by apply t_ret.
  - intros _ (bss & Hb & _). clear -Hb. revert Hb. generalize (ms_ToolCalls sm). intros l Hb. induction Hb; by constructor.
Qed.

Lemma check_shadow_spec s :
  triple (check_shadow unmarshal_call s) (λ sm, nonEmpty (sh_Model s) = true ∧ ∃ sc, contract s sc sm) (shadow_stop s).
Proof.
  unfold check_shadow.
  eapply (t_bind _ _ _ (λ _, sh_Object s = Some (lit "chat.completion"))); [apply (t_check _ _ _ _ _ (is_lit_opt _ _)); [done|by intros (? & ? & [])]|].
  intros _ Hobj. eapply (t_bind _ _ _ (λ _, nonEmpty (sh_Model s) = true)).
  { destruct (nonEmpty (sh_Model s)) eqn:Hm; simpl; [by apply t_ret|]. apply t_fail. by split. }
  intros _ Hmod. destruct (sh_Choices s) as [|sc [|? ?]] eqn:Hs; [apply t_fail; intros (? & ? & []); congruence| |apply t_fail; intros (? & ? & []); congruence].
  eapply (t_bind _ _ _ (λ _, cs_Index sc = Some 0)).
  { apply (t_check _ _ _ (cs_Index sc = Some 0)); [|done|intros (? & ? & []); congruence].
    destruct (cs_Index sc) as [i|]; [|by split]. rewrite Z.eqb_eq. split; [by intros ->|by intros [= ->]]. }
  intros _ Hidx. eapply (t_bind _ _ _ (λ _, cs_Delta sc = false)).
  { apply (t_check _ _ _ (cs_Delta sc = false)); [by destruct (cs_Delta sc)|done|intros (? & ? & []); congruence]. }
  intros _ Hdel. eapply (t_bind _ _ _ (λ _, known (cs_FinishReason sc) = true)).
  { apply (t_check _ _ _ (known (cs_FinishReason sc) = true)); [done|done|intros (? & ? & []); congruence]. }
  intros _ Hfin. destruct (cs_Message sc) as [sm|] eqn:Hm; [|apply t_fail; intros (? & ? & []); congruence].
  eapply (t_bind _ _ _ (λ _, contract s sc sm)); [|intros [] Hc; apply t_ret; split; [done|by exists sc]].
  unfold check_message.
  eapply (t_bind _ _ _ (λ _, ms_Role sm = Some (lit "assistant"))).
  { apply (t_check _ _ _ _ _ (is_lit_opt _ _)); [done|]. intros (? & ? & []). congruence. }
  intros _ Hrole. eapply t_bind; [by apply (check_legacy_spec s sc)|]. intros [] Hleg.
  eapply (t_bind _ _ _ (λ _, ms_ToolCallID sm = None)).
  { apply (t_check _ _ _ (ms_ToolCallID sm = None)); [by destruct (ms_ToolCallID sm)|done|]. intros (? & ? & []). congruence. }
  intros _ Hid. eapply t_bind; [by apply (check_calls_spec s sc)|]. intros us Hcalls. apply t_ret. by constructor.
Qed.

(** ** Reading a body twice

    Documented of [encoding/json]: the fields the two decodes share are the same. *)

Definition same_call (st : chatToolCallShadow) (call : ChatMessageToolCall) : Prop :=
  tc_ID call = ts_ID st ∧ tc_Name call = ts_Name st ∧ tc_Arguments call = derefStr (ts_Arguments st).

Definition same_message (sm : option chatMessageShadow) (m : option ChatMessage) : Prop :=
  match sm, m with
  | Some sm, Some m => Forall2 same_call (ms_ToolCalls sm) (called m)
  | None, None => True
  | _, _ => False
  end.

Definition same_choice (sc : chatChoiceShadow) (choice : ChatChoice) : Prop :=
  ch_FinishReason choice = cs_FinishReason sc ∧ same_message (cs_Message sc) (ch_Message choice).

Definition same_response (s : chatResponseShadow) (c : ChatResponse) : Prop :=
  cr_Model c = derefStr (sh_Model s) ∧ Forall2 same_choice (sh_Choices s) (cr_Choices c).

Context (Hsame : ∀ body s c, decode_shadow body = Some s → decode_chat body = Some c → same_response s c).

(** The message with the call of the old spelling, if there is one. *)
Definition legacy_of (id raw : str) : option ChatMessageToolCall :=
  if has_legacy raw then
    match unmarshal_call (TrimSpace raw) with
    | Some (name, arguments) =>
        Some {| tc_ID := Some (id ++ lit ":legacy-function-call-0")%list; tc_Name := name; tc_Arguments := derefStr arguments |}
    | None => None
    end
  else None.

Definition whole_message (id raw : str) (m : ChatMessage) : ChatMessage :=
  match legacy_of id raw with Some call => append_call call m | None => m end.

(** A body that says [m], within the contract. *)
Record reading (body : str) (s : chatResponseShadow) (c : ChatResponse) (sc : chatChoiceShadow) (choice : ChatChoice) (m : ChatMessage)
    : Prop := {
  rd_shadow : decode_shadow body = Some s;
  rd_chat : decode_chat body = Some c;
  rd_model : cr_Model c ≠ [];
  rd_choice : cr_Choices c = [choice];
  rd_said : ∃ sm m0, contract s sc sm ∧ ch_Message choice = Some m0 ∧ m = whole_message (cr_ID c) (ms_FunctionCall sm) m0;
}.

(** A body no conforming upstream sends. *)
Definition corrupt (body : str) : Prop :=
  decode_shadow body = None ∨ decode_chat body = None ∨
  (∃ s, decode_shadow body = Some s ∧ ¬ ∃ sc sm, contract s sc sm) ∨
  (∃ s c sc choice m, reading body s c sc choice m ∧ corrupt_message m).

(** Of a finish reason, the stop reason, the status and the reason of what is incomplete. *)
Definition finish_table : list (string * CanonicalStopReason * CanonicalResponseStatus * string) :=
  [("stop", CanonicalStopEndTurn, CanonicalResponseCompleted, "");
   ("length", CanonicalStopMaxTokens, CanonicalResponseIncomplete, "max_output_tokens");
   ("tool_calls", CanonicalStopToolUse, CanonicalResponseCompleted, "");
   ("function_call", CanonicalStopToolUse, CanonicalResponseCompleted, "");
   ("content_filter", CanonicalStopRefusal, CanonicalResponseIncomplete, "content_filter")].

Definition chat_stop (body : str) (e : terr) : Prop :=
  match e with
  | UpstreamWireError _ => corrupt body
  | UnsupportedFeatureError _ _ _ => True
  | Errorf msg => msg = "chat response has no model"
  | _ => False
  end.

(** What is decoded of a body. *)
Record decodes (body : str) (capabilities : ChatCapabilities) (policy : LossPolicy) (d : DecodedResponse)
    (s : chatResponseShadow) (c : ChatResponse) (choice : ChatChoice) (m : ChatMessage) : Prop := {
  dc_parts : ∃ parts, says capabilities policy m parts ∧ r_Items (canonical d) = (message_items parts ++ map call_item (called m))%list;
  dc_finish : ∃ name stop status inc, ch_FinishReason choice = Some (lit name) ∧ (name, stop, status, inc) ∈ finish_table ∧
    r_Stop (canonical d) = Some {| Reason := stop; Sequence := [] |} ∧ r_Status (canonical d) = Some status ∧
    r_IncompleteReason d = lit inc;
  dc_usage : r_Usage d = match sh_Usage s with Some u => chat_usage u | None => no_usage end;
  dc_source : ChatLogProbs (r_Source d) = ch_LogProbs choice ∧ ChatServiceTier (r_Source d) = derefStr (cr_ServiceTier c) ∧
    ResponsesControls (r_Source d) = [];
  dc_model : r_Model (canonical d) = cr_Model c;
}.

Lemma finish_spec reason body : known reason = true →
  triple (finish reason) (λ r, ∃ name inc, reason = Some (lit name) ∧ (name, r.1.1, r.1.2, inc) ∈ finish_table ∧ r.2 = lit inc) (chat_stop body).
Proof.
  destruct reason as [r|]; [|done]. intros _. unfold finish, is_lit, derefStr. change (default [] (Some r)) with r.
  assert (∀ name stop status inc, r = lit name → (name, stop, status, inc) ∈ finish_table →
    triple (ret (stop, status, lit inc)) (λ r0 : CanonicalStopReason * CanonicalResponseStatus * str,
      ∃ name inc, Some r = Some (lit name) ∧ (name, r0.1.1, r0.1.2, inc) ∈ finish_table ∧ r0.2 = lit inc) (chat_stop body)) as Hret.
  { intros name stop status inc -> Hin. apply t_ret. by exists name, inc. }
  unfold finish_table in *.
  destruct (str_eqb r (lit "stop")) eqn:H1; [apply str_eqb_eq in H1; apply (Hret "stop" _ _ ""); [done|repeat first [apply list_elem_of_here|apply list_elem_of_further]]|].
  destruct (str_eqb r (lit "length")) eqn:H2; [apply str_eqb_eq in H2; apply (Hret "length" _ _ "max_output_tokens"); [done|repeat first [apply list_elem_of_here|apply list_elem_of_further]]|].
  destruct (str_eqb r (lit "tool_calls")) eqn:H3; [apply str_eqb_eq in H3; apply (Hret "tool_calls" _ _ ""); [done|repeat first [apply list_elem_of_here|apply list_elem_of_further]]|].
  destruct (str_eqb r (lit "function_call")) eqn:H4; [apply str_eqb_eq in H4; apply (Hret "function_call" _ _ ""); [done|repeat first [apply list_elem_of_here|apply list_elem_of_further]]|].
  destruct (str_eqb r (lit "content_filter")) eqn:H5; [apply str_eqb_eq in H5; apply (Hret "content_filter" _ _ "content_filter"); [done|repeat first [apply list_elem_of_here|apply list_elem_of_further]]|].
  eapply (t_bind _ _ _ (λ _, True)); [by apply t_ret|]. intros x _. by apply t_fail.
Qed.

Lemma called_append call m : called (append_call call m) = called m ++ [call].
Proof. unfold called, append_call. simpl. by destruct (m_Assistant m). Qed.

(** Every call of a whole message has an id and a name. *)
Lemma whole_calls s sc sm id m : contract s sc sm → same_message (Some sm) (Some m) →
  Forall (λ call, nonEmpty (tc_ID call) = true ∧ nonEmpty (tc_Name call) = true) (called (whole_message id (ms_FunctionCall sm) m)).
Proof.
  intros Hk Hm. simpl in Hm. destruct Hk. assert (Forall (λ call, nonEmpty (tc_ID call) = true ∧ nonEmpty (tc_Name call) = true) (called m)) as Hc.
  { clear -Hm k_calls0. induction Hm as [|st call sts calls (H1 & H2 & _) _ IH]; [constructor|].
    apply Forall_cons in k_calls0 as [(_ & Hi & Hn & _) Hk]. constructor; [by rewrite H1, H2|by apply IH]. }
  unfold whole_message, legacy_of. destruct (has_legacy (ms_FunctionCall sm)) eqn:Hl; [|done].
  destruct (k_legacy0 Hl) as (_ & name & arguments & -> & Hn). rewrite called_append. apply Forall_app. split; [done|].
  repeat constructor; [|done]. simpl. unfold nonEmpty. simpl. by destruct id.
Qed.

Lemma map_legacy_spec s sc sm c choice m0 body : contract s sc sm → ch_Message choice = Some m0 →
  triple (map_legacy unmarshal_call (cr_ID c) (ms_FunctionCall sm) (ch_Message choice))
    (λ m, m = Some (whole_message (cr_ID c) (ms_FunctionCall sm) m0)) (chat_stop body).
Proof.
  intros [] Hm. unfold map_legacy, whole_message, legacy_of. rewrite Hm.
  destruct (has_legacy (ms_FunctionCall sm)) eqn:Hl; simpl; [|by apply t_ret].
  destruct (k_legacy0 Hl) as (_ & name & arguments & -> & _).
  eapply (t_bind _ _ _ (λ m, m = m0)); [by apply t_ret|]. intros m ->. apply t_seq; [by apply t_Note|by apply t_ret].
Qed.

Lemma call_items_ok before items calls :
  Forall (λ call, nonEmpty (tc_ID call) = true ∧ nonEmpty (tc_Name call) = true) calls →
  ∀ k item, map call_item calls !! k = Some item → item_ok (before ++ items) item.
Proof.
  intros Hc k item Hk. apply list_lookup_fmap_Some in Hk as (call & -> & Hk).
  rewrite Forall_lookup in Hc. destruct (Hc k call Hk) as [H1 H2]. unfold nonEmpty in *.
  apply negb_eq_true in H1, H2. split; by apply not_empty_ne.
Qed.

(** So the check at the end of the decoder cannot fail. *)
Lemma decoded_valid d parts calls stop status : r_Model d ≠ [] → r_Status d = Some status → r_Stop d = Some stop →
  r_Items d = (message_items parts ++ map call_item calls)%list → Forall output_part parts →
  Forall (λ call, nonEmpty (tc_ID call) = true ∧ nonEmpty (tc_Name call) = true) calls → ValidateCanonicalResponse d = Ok tt.
Proof.
  intros Hm Hs Hst Hi Hp Hc. apply ValidateCanonicalResponse_exact. rewrite Hs, Hst, Hi. split_and!; [done..|].
  intros k item Hk. apply lookup_app_Some in Hk as [Hk|[_ Hk]].
  - unfold message_items in Hk. destruct parts as [|p parts]; [done|]. apply list_lookup_singleton_Some in Hk as [-> <-]. simpl.
    split_and!; [done|by left|done].
  - by apply (call_items_ok [] _ calls Hc _ _ Hk).
Qed.

Lemma DecodeChat_spec body capabilities policy :
  triple (DecodeChatResponseWithPolicy decode_shadow decode_chat unmarshal_call body capabilities policy)
    (λ d, ValidateCanonicalResponse (canonical d) = Ok tt ∧
          ∃ s c sc choice m, reading body s c sc choice m ∧ decodes body capabilities policy d s c choice m) (chat_stop body).
Proof.
  unfold DecodeChatResponseWithPolicy. destruct (decode_shadow body) as [s|] eqn:Hs; [|apply t_fail; by left].
  eapply t_bind.
  { intros r. pose proof (check_shadow_spec s r) as H. destruct (check_shadow unmarshal_call s r) as [[sm|e] r']; simpl in *.
    - exact H.
    - destruct e; simpl in *; try done; [by destruct H|]. right. right. left. by exists s. }
  intros sm (Hmod & sc & Hk). destruct (decode_chat body) as [c|] eqn:Hc; [|apply t_fail; right; by left].
  destruct (Hsame body s c Hs Hc) as [Hmodel Hch]. assert (sh_Choices s = [sc]) as Hone by apply Hk. rewrite Hone in Hch.
  apply Forall2_cons_inv_l in Hch as (choice & rest & [Hfin Hmsg] & Hrest & Hcs). apply Forall2_nil_inv_l in Hrest as ->.
  assert (cs_Message sc = Some sm) as Hsm by apply Hk. rewrite Hsm in Hmsg.
  destruct (ch_Message choice) as [m0|] eqn:Hm0; [|done]. rewrite Hcs. simpl.
  eapply (t_bind _ _ _ (λ x, x = choice)); [by apply t_ret|]. intros x ->.
  eapply t_bind; [apply (finish_spec _ body); rewrite Hfin; apply Hk|]. intros [[stop status] inc] (name & inc' & Hname & Htab & Hinc). simpl in Htab, Hinc.
  eapply t_bind; [by apply (map_legacy_spec s sc sm c choice m0 body)|]. intros m1 ->.
  set (m := whole_message (cr_ID c) (ms_FunctionCall sm) m0). eapply (t_bind _ _ _ (λ x, x = m)); [by apply t_ret|]. intros x ->.
  assert (cr_Model c ≠ []) as Hne.
  { rewrite Hmodel. intros Hx. unfold nonEmpty in Hmod. rewrite Hx in Hmod. done. }
  assert (reading body s c sc choice m) as Hread by (constructor; try done; by exists sm, m0).
  eapply t_bind.
  { intros r. pose proof (message_says capabilities policy m r) as H. destruct (chatMessageToCanonicalParts m capabilities policy r) as [[x|e] r']; simpl in *.
    - exact H.
    - destruct e; simpl in *; try done. right. right. right. by exists s, c, sc, choice, m. }
  intros [parts calls] [Hsay Hcalls]. simpl in Hsay, Hcalls. subst calls. unfold validated.
  assert (Forall (λ call, nonEmpty (tc_ID call) = true ∧ nonEmpty (tc_Name call) = true) (called m)) as Hids by (by apply (whole_calls s sc sm)).
  match goal with |- context [ValidateCanonicalResponse ?d0] => assert (ValidateCanonicalResponse d0 = Ok tt) as Hv end.
  { eapply (decoded_valid _ parts (called m)); simpl; try done. apply Hsay. }
  eapply (t_bind _ _ _ (λ _, True)); [apply t_lift; rewrite Hv; exact I|]. intros [] _. apply t_ret. split; [exact Hv|].
  exists s, c, sc, choice, m. split; [done|]. constructor; simpl; try done.
  - by exists parts.
  - by exists name, stop, status, inc'.
Qed.

Lemma lawful_DecodeChat body capabilities policy :
  keeps_lawful policy (DecodeChatResponseWithPolicy decode_shadow decode_chat unmarshal_call body capabilities policy).
Proof.
  unfold DecodeChatResponseWithPolicy, finish, map_legacy, validated, deref, wireError. lawful;
    unfold require, content_parts, content_block, reasoning_parts, tool_call, audio_parts, wireError; lawful.
Qed.

(** ** Messages of a Chat response *)

(** The tool uses of the calls whose arguments are an object. *)
Definition tool_uses (calls : list ChatMessageToolCall) : list AnthropicContentBlock := map call_item calls ≫= item_blocks.

Definition arguments_of (call : ChatMessageToolCall) : option (gmap str json) := Object (ParseToolArguments (tc_Arguments call)).

Definition stop_reasons : list (string * string) :=
  [("stop", "end_turn"); ("length", "max_tokens"); ("tool_calls", "tool_use"); ("function_call", "tool_use"); ("content_filter", "refusal")].

Lemma stop_of_table name stop status inc : (name, stop, status, inc) ∈ finish_table → (name, stop_name (Some stop)) ∈ stop_reasons ∧ status ≠ CanonicalResponseFailed.
Proof.
  intros Hin. unfold finish_table in Hin. rewrite !elem_of_cons, elem_of_nil in Hin.
  destruct Hin as [[= -> -> -> ->]|[[= -> -> -> ->]|[[= -> -> -> ->]|[[= -> -> -> ->]|[[= -> -> -> ->]|[]]]]]];
    (split; [repeat first [apply list_elem_of_here|apply list_elem_of_further]|done]).
Qed.

Lemma calls_representable policy calls : Forall (item_said policy) (map call_item calls) →
  Forall (λ call, is_Some (arguments_of call)) calls.
Proof.
  rewrite Forall_map. intros Hf. eapply Forall_impl; [exact Hf|]. intros call [Hc _]. unfold arguments_of. simpl in Hc. destruct (Object _) as [o|]; [by exists o|done].
Qed.

Lemma unrepresentable_called parts calls item : item ∈ message_items parts ++ map call_item calls → unrepresentable_call item →
  ∃ call, call ∈ calls ∧ arguments_of call = None.
Proof.
  intros [Hin|Hin]%elem_of_app Hu.
  - unfold message_items in Hin. destruct parts; [by apply elem_of_nil in Hin|]. by apply list_elem_of_singleton in Hin as ->.
  - apply list_elem_of_fmap in Hin as (call & -> & Hin). by exists call.
Qed.

End chat.

(** ** Sample: an answer that thinks, speaks and calls in the old spelling *)

Definition sample_shadow : chatResponseShadow :=
  {| sh_Object := Some (lit "chat.completion"); sh_Model := Some (lit "m");
     sh_Choices := [{| cs_Index := Some 0; cs_FinishReason := Some (lit "function_call"); cs_Delta := false;
                       cs_Message := Some {| ms_Role := Some (lit "assistant"); ms_ToolCallID := None; ms_ToolCalls := [];
                                             ms_FunctionCall := lit "{...}" |} |}];
     sh_Usage := Some {| us_PromptTokens := Some 5; us_CompletionTokens := Some 2; us_TotalTokens := Some 7; us_ReasoningTokens := Some 1;
                         us_CachedTokens := Some 3; us_PromptCacheHitTokens := None; us_PromptTokensDetails := Some (3, Some 1);
                         us_CompletionTokensDetails := None |} |}.

Definition sample_message : ChatMessage :=
  {| m_Content := Some (ContentBlocks [BlockText (Some (lit "hi")); BlockText (Some (lit "there"))]);
     m_Assistant := Some {| am_Refusal := None; am_ToolCalls := []; am_Audio := Some {| au_Data := []; au_Transcript := lit "spoken" |};
                            am_Reasoning := Some []; am_ReasoningContent := Some (lit "hm") |} |}.

Definition sample_chat : ChatResponse :=
  {| cr_ID := lit "chatcmpl-1"; cr_Model := lit "m"; cr_Created := 7; cr_ServiceTier := None;
     cr_Choices := [{| ch_FinishReason := Some (lit "function_call"); ch_LogProbs := false; ch_Message := Some sample_message |}] |}.

Definition sample_decode_shadow (body : str) : option chatResponseShadow := if is_empty body then None else Some sample_shadow.
Definition sample_decode_chat (body : str) : option ChatResponse := if is_empty body then None else Some sample_chat.
Definition sample_call (raw : str) : option (option str * option str) := Some (Some (lit "f"), Some (lit "")).

Lemma sample_same body s c : sample_decode_shadow body = Some s → sample_decode_chat body = Some c → same_response s c.
Proof.
  unfold sample_decode_shadow, sample_decode_chat. destruct (is_empty body); [done|]. intros [= <-] [= <-].
  split; [done|]. repeat constructor.
Qed.

Definition sample_capabilities : ChatCapabilities := {| ProviderReasoningThinking := true; ProviderReasoningText := false |}.

Definition sample_context : ExchangeContext :=
  {| x_RequestedClientModel := lit "alias"; x_IDs := Some {| ids_prefix := "ab"; ids_next := 0 |}; x_LossPolicy := StrictLossPolicy;
     x_ToolNames := None; x_RequestTurns := [{| t_Role := CanonicalUser; t_Parts := [CanonicalText (lit "q")] |}]; x_RequestDepth := 0;
     x_Store := None |}.

