(* ===== verification/ResponseExchange.v ===== *)
(** * What a Responses client gets of a whole response, and how it goes on

    The renderer of Responses envelopes against the upstream's Chat message, the
    conversation the continuity store keeps of an exchange, and the conversion of a whole
    Responses response for a Messages client. *)

From Stdlib Require Import ZArith QArith Qcanon Lia Bool List Ascii String.
From stdpp Require Import strings gmap list.
From S2P Require Import Prelude GoStd GoStr GoText GoJson Losses Ir Usage ResponseDecode ResponseRender ResponseLaws.
From S2P Require ApiErrors ChatStream ChatStreamLaws Continuity ContinuityLaws.

Open Scope string_scope.
Open Scope Z_scope.
Open Scope conv_scope.
Open Scope list_scope.

(** ** The renderer of Responses *)

(** An output item without the identifier it was given, and that identifier. *)
Definition anonymous (item : ResponsesOutputItem) : ResponsesOutputItem :=
  match item with
  | OutMessage _ phase content => OutMessage "" phase content
  | OutSummary _ text => OutSummary "" text
  | OutReasoning r => OutReasoning r
  | OutCall _ callID name namespace arguments => OutCall "" callID name namespace arguments
  end.

Definition given_id (item : ResponsesOutputItem) : option string :=
  match item with
  | OutMessage id _ _ | OutSummary id _ | OutCall id _ _ _ _ => Some id
  | OutReasoning _ => None
  end.

Definition thinking_text (part : CanonicalPart) : option str := match part with CanonicalThinkingPart text _ => Some text | _ => None end.

(** The items given identifiers between two values of the counter, none twice. *)
Definition numbered (ids ids' : ExchangeIDs) (l : list string) : Prop :=
  ids_prefix ids' = ids_prefix ids ∧ (ids_next ids <= ids_next ids')%N ∧ NoDup l ∧
  ∀ id, id ∈ l → ∃ kind k, (ids_next ids < k <= ids_next ids')%N ∧ id = ChatStream.id_of (ids_prefix ids) kind k.

Lemma numbered_nil ids : numbered ids ids [].
Proof. split_and!; [done|lia|constructor|]. by intros id ?%elem_of_nil. Qed.

Lemma numbered_new ids kind : numbered ids (New ids kind).2 [(New ids kind).1].
Proof.
  unfold New. simpl. split_and!; simpl; [done|lia|apply NoDup_singleton|].
  intros id ->%list_elem_of_singleton. exists kind, (ids_next ids + 1)%N. split; [lia|done].
Qed.

Lemma numbered_app ids1 ids2 ids3 l k : numbered ids1 ids2 l → numbered ids2 ids3 k → numbered ids1 ids3 (l ++ k).
Proof.
  intros (Hp1 & Hle1 & Hn1 & H1) (Hp2 & Hle2 & Hn2 & H2). split_and!; [congruence|lia| |].
  - apply NoDup_app. split_and!; [done| |done]. intros id Hl Hk. apply H1 in Hl as (k1 & n1 & ? & Hid). apply H2 in Hk as (k2 & n2 & ? & Heq).
    rewrite Hid, Hp1 in Heq. apply ChatStreamLaws.id_of_inj in Heq. lia.
  - intros id [Hl|Hk]%elem_of_app.
    + apply H1 in Hl as (kd & n & ? & ->). exists kd, n. split; [lia|done].
    + apply H2 in Hk as (kd & n & ? & ->). exists kd, n. split; [lia|]. by rewrite Hp1.
Qed.

Lemma numbered_perm ids ids' l k : numbered ids ids' l → l ≡ₚ k → numbered ids ids' k.
Proof.
  intros (Hp & Hle & Hn & H) Hlk. split_and!; [done|done|by rewrite <- Hlk|]. intros id Hid. apply H. by rewrite Hlk.
Qed.

Section responses.
Context (unmarshal_reasoning : str → option ReasoningOutputItem).
Context (policy : LossPolicy) (response : DecodedResponse) (context : option ExchangeContext).
Let stop := render_stop False policy response context.

Lemma message_parts_spec parts : ∀ ids, Forall output_part parts →
  triple (message_parts ids parts)
    (λ r, map anonymous r.1.1 = map (OutSummary "") (omap thinking_text parts) ∧ r.1.2 = omap part_content parts ∧
          numbered ids r.2 (omap given_id r.1.1)) stop.
Proof.
  induction parts as [|p parts IH]; intros ids Hp; simpl; [apply t_ret; split_and!; [done|done|apply numbered_nil]|].
  apply Forall_cons in Hp as [Hp Hps]. destruct p; simpl in *; try done.
  - eapply t_bind; [by apply IH|]. intros [[items content] ids'] (H1 & H2 & H3). simpl in *. apply t_ret. simpl. by rewrite H2.
  - eapply t_bind; [by apply IH|]. intros [[items content] ids'] (H1 & H2 & H3). simpl in *. apply t_ret. simpl. by rewrite H2.
  - pose proof (numbered_new ids "rs_") as Hnew. unfold New in *. simpl in *.
    eapply t_bind; [by apply IH|]. intros [[items content] ids'] (H1 & H2 & H3). simpl in *. apply t_ret. simpl. rewrite H1.
    split_and!; [done|done|]. exact (numbered_app _ _ _ _ _ Hnew H3).
Qed.

(** The items of an item of a Chat response. *)
Definition item_shapes (names : option ToolNames) (item : CanonicalResponseItem) : list ResponsesOutputItem :=
  match item with
  | CanonicalMessageItem _ _ phase parts => map (OutSummary "") (omap thinking_text parts) ++ [OutMessage "" (derefStr phase) (omap part_content parts)]
  | CanonicalFunctionCallItem _ callID name arguments =>
      let '(callName, namespace) := clientCallName names name in [OutCall "" callID callName namespace (Raw arguments)]
  | _ => []
  end.

(** Those a Chat response has. *)
Definition chat_item (item : CanonicalResponseItem) : Prop :=
  match item with
  | CanonicalMessageItem _ _ _ parts => Forall output_part parts
  | CanonicalFunctionCallItem _ _ _ _ => True
  | _ => False
  end.

Lemma responses_item_spec names ids item : chat_item item →
  triple (responses_item unmarshal_reasoning names ids item)
    (λ r, map anonymous r.1 = item_shapes names item ∧ numbered ids r.2 (omap given_id r.1)) stop.
Proof.
  destruct item as [id role phase parts|id callID name args| |]; simpl; try done.
  - intros Hp. pose proof (numbered_new ids "msg_") as Hnew. unfold New in *. simpl in *.
    eapply t_bind; [by apply message_parts_spec|]. intros [[items content] ids'] (H1 & H2 & H3). simpl in *. subst content. apply t_ret. simpl.
    rewrite map_app, H1, omap_app. simpl. split; [done|]. eapply numbered_perm; [exact (numbered_app _ _ _ _ _ Hnew H3)|].
    by rewrite Permutation_app_comm.
  - intros _. destruct (clientCallName names name) as [callName namespace]. pose proof (numbered_new ids "fc_") as Hnew. unfold New in *. simpl in *.
    apply t_ret. by split.
Qed.

Lemma responses_items_spec names items : ∀ ids, Forall chat_item items →
  triple (responses_items unmarshal_reasoning names ids items)
    (λ r, map anonymous r.1 = (items ≫= item_shapes names) ∧ numbered ids r.2 (omap given_id r.1)) stop.
Proof.
  induction items as [|item items IH]; intros ids Hall; simpl; [apply t_ret; split; [done|apply numbered_nil]|].
  apply Forall_cons in Hall as [Hi Hall]. eapply t_bind; [by apply responses_item_spec|]. intros r [H1 H2].
  eapply t_bind; [by apply IH|]. intros rest [H3 H4]. apply t_ret. simpl. rewrite map_app, H1, H3, omap_app.
  split; [done|]. by eapply numbered_app.
Qed.

Lemma responses_usage_stop :
  triple (responses_usage policy (r_Usage response)) (λ _, True) stop.
Proof.
  unfold responses_usage. destruct (Unknown _); [apply t_seq; [by apply t_Note|by apply t_ret]|].
  eapply (t_bind _ _ _ (λ _, True)); [|intros u _; by apply t_ret]. unfold canonicalUsageToResponses. cbv zeta.
  destruct (clampCanonicalUsage _) as [u c]. apply t_seq; [apply clamp_record_stop|].
  destruct (if has_total (cu_Known (r_Usage response)) then _ else _) as [total saturation].
  apply t_seq; [apply t_when; intros _; [by apply t_Note|done]|]. apply t_seq; [apply lose_components_stop|by apply t_ret].
Qed.

(** What a rendered envelope says of a Chat response. *)
Record renders_envelope (e : ResponsesEnvelope) (x : ExchangeContext) (ids : ExchangeIDs) : Prop := {
  re_context : context = Some x ∧ x_IDs x = Some ids;
  re_first : re_ID e = (New ids "resp_").1;
  re_items : map anonymous (re_Output e) = r_Items (canonical response) ≫= item_shapes (x_ToolNames x);
  re_ids : ∃ ids', numbered ids ids' (re_ID e :: omap given_id (re_Output e));
  re_status : re_Status e = status_name (r_Status (canonical response));
  re_model : re_Model e = requestedClientModelAlias response x;
  re_incomplete : re_IncompleteReason e =
    if bool_decide (r_Status (canonical response) = Some CanonicalResponseIncomplete) then Some (r_IncompleteReason response) else None;
  re_logprobs : ChatLogProbs (r_Source response) = true → "logprobs" ∈ Allowed policy;
}.
End responses.

Lemma RenderResponses_spec unmarshal_reasoning response context : Forall chat_item (r_Items (canonical response)) →
  let policy := lossPolicy context in
  triple (RenderResponsesResponse unmarshal_reasoning response context)
    (λ e, ∃ x ids, renders_envelope policy response context e x ids) (render_stop False policy response context).
Proof.
  intros Hall. cbv zeta. set (policy := lossPolicy context). unfold RenderResponsesResponse. cbv zeta. fold policy.
  apply t_seq.
  { apply t_lift. destruct (ValidateCanonicalResponse _) as [[]|e] eqn:Hv; [done|by apply StopInvalid]. }
  eapply t_bind; [apply require_context_stop|]. intros [x ids] (x' & Hx & Hids & Heq). simpl in Hids, Heq. subst x'.
  eapply t_bind; [apply chat_losses_stop|]. intros [] Hlog.
  pose proof (numbered_new ids "resp_") as Hnew. unfold New in *. simpl in Hnew |- *.
  eapply t_bind; [by apply responses_items_spec|]. intros out [Hout Hnum].
  eapply t_bind; [apply responses_usage_stop|]. intros usage _. apply t_ret. exists x, ids.
  constructor; simpl; try done. exists out.2. exact (numbered_app _ _ _ _ _ Hnew Hnum).
Qed.

Lemma lawful_responses_items unmarshal_reasoning policy names items : ∀ ids,
  keeps_lawful policy (responses_items unmarshal_reasoning names ids items).
Proof.
  assert (∀ parts ids, keeps_lawful policy (message_parts ids parts)) as Hp.
  { induction parts as [|p parts IH]; intros ids; simpl; [apply lawful_ret|]. destruct p; simpl; lawful. }
  induction items as [|item items IH]; intros ids; simpl; [apply lawful_ret|].
  apply lawful_bind; [|intros ?; apply lawful_bind; [apply IH|intros ?; apply lawful_ret]]. unfold responses_item. lawful.
Qed.

Lemma lawful_RenderResponses unmarshal_reasoning response context :
  keeps_lawful (lossPolicy context) (RenderResponsesResponse unmarshal_reasoning response context).
Proof.
  unfold RenderResponsesResponse, require_context, chat_losses, responses_usage, canonicalUsageToResponses, clamp_record.
  lawful; try apply lawful_responses_items; try apply lawful_lose_components.
Qed.

(** ** What a Responses client is given *)

(** The items of a message: a reasoning item for what is thought, the message, the calls
    with the names the client declared and the model's own text as arguments. *)
Definition said_items (capabilities : ChatCapabilities) (m : ChatMessage) : list ResponsesOutputItem :=
  match thought capabilities m, spoken_content capabilities m with
  | [], [] => []
  | thoughts, content => map (OutSummary "") thoughts ++ [OutMessage "" [] content]
  end.

Definition client_call (names : option ToolNames) (call : ChatMessageToolCall) : ResponsesOutputItem :=
  let '(name, namespace) := clientCallName names (derefStr (tc_Name call)) in
  OutCall "" (derefStr (tc_ID call)) name namespace (tc_Arguments call).

(** The status of an envelope and the reason it is incomplete, by finish reason. *)
Definition envelope_statuses : list (string * string * option string) :=
  [("stop", "completed", None); ("length", "incomplete", Some "max_output_tokens"); ("tool_calls", "completed", None);
   ("function_call", "completed", None); ("content_filter", "incomplete", Some "content_filter")].

Lemma status_of_table name stop status inc : (name, stop, status, inc) ∈ finish_table →
  (name, status_name (Some status), if bool_decide (Some status = Some CanonicalResponseIncomplete) then Some inc else None) ∈ envelope_statuses.
Proof.
  intros Hin. unfold finish_table in Hin. rewrite !elem_of_cons, elem_of_nil in Hin.
  destruct Hin as [[= -> -> -> ->]|[[= -> -> -> ->]|[[= -> -> -> ->]|[[= -> -> -> ->]|[[= -> -> -> ->]|[]]]]]];
    repeat first [apply list_elem_of_here|apply list_elem_of_further].
Qed.

Lemma thinking_of_blocks parts thoughts signature : omap thinking_block parts = map (λ t, ThinkingBlock t signature) thoughts →
  omap thinking_text parts = thoughts.
Proof.
  revert thoughts. unfold omap. induction parts as [|p parts IH]; intros thoughts; simpl; [by destruct thoughts|].
  destruct p; simpl; try apply IH. destruct thoughts as [|t thoughts]; [done|]. simpl. intros [= -> -> H]. f_equal. by apply IH.
Qed.

Lemma said_shapes capabilities policy names m parts : says capabilities policy m parts →
  message_items parts ≫= item_shapes names = said_items capabilities m.
Proof.
  intros [Hc Hth Hp _]. apply thinking_of_blocks in Hth. unfold said_items. rewrite <- Hth, <- Hc.
  destruct parts as [|p parts]; [done|]. unfold message_items. rewrite bind_cons, app_nil_r. simpl derefStr.
  apply Forall_cons in Hp as [Hp _]. destruct p; try done; simpl; by destruct (list_omap _ _ thinking_text parts).
Qed.

Lemma call_shapes names calls : map call_item calls ≫= item_shapes names = map (client_call names) calls.
Proof.
  induction calls as [|c calls IH]; [done|]. cbn [map]. rewrite bind_cons, IH. unfold client_call. simpl.
  destruct (clientCallName names (derefStr (tc_Name c))) as [name namespace]. simpl. do 2 f_equal.
  unfold ParseToolArguments. by destruct (is_empty _).
Qed.

Lemma chat_items parts calls : Forall output_part parts → Forall chat_item (message_items parts ++ map call_item calls).
Proof.
  intros Hp. apply Forall_app. split; [destruct parts; [constructor|by constructor; [exact Hp|]]|]. by apply Forall_map, Forall_true.
Qed.

Section envelope.
Context (decode_shadow : str → option chatResponseShadow) (decode_chat : str → option ChatResponse).
Context (unmarshal_call : str → option (option str * option str)) (unmarshal_reasoning : str → option ReasoningOutputItem).
Context (Hsame : ∀ body s c, decode_shadow body = Some s → decode_chat body = Some c → same_response s c).

Abbreviation decode := (DecodeChatResponseWithPolicy decode_shadow decode_chat unmarshal_call).
Abbreviation reads := (reading decode_shadow decode_chat unmarshal_call).

(** What an envelope says of a body. *)
Record envelope_of (body : str) (capabilities : ChatCapabilities) (policy : LossPolicy) (x : ExchangeContext) (e : ResponsesEnvelope) : Prop := {
  eo_said : ∃ s c sc choice m, reads body s c sc choice m ∧
    map anonymous (re_Output e) = said_items capabilities m ++ map (client_call (x_ToolNames x)) (called m) ∧
    (∃ name incomplete, ch_FinishReason choice = Some (lit name) ∧ (name, re_Status e, incomplete) ∈ envelope_statuses ∧
       re_IncompleteReason e = lit <$> incomplete) ∧
    (unheard capabilities m ∨ ch_LogProbs choice = true → Allowed policy ≠ ∅);
  eo_ids : NoDup (re_ID e :: omap given_id (re_Output e));
}.

Definition envelope_stop (body : str) (e : terr) : Prop :=
  match e with
  | UpstreamWireError _ => corrupt decode_shadow decode_chat unmarshal_call body
  | UnsupportedFeatureError _ _ _ => True
  | Errorf msg => msg = "chat response has no model"
  | _ => False
  end.

Lemma envelope_exact body capabilities policy x ids : x_LossPolicy x = policy → x_IDs x = Some ids →
  match decode_render (decode body capabilities policy) (λ r, RenderResponsesResponse unmarshal_reasoning r (Some x)) with
  | (Ok (d, e), losses) => ValidateCanonicalResponse (canonical d) = Ok tt ∧ (re_ID e = (New ids "resp_").1) ∧
      envelope_of body capabilities policy x e ∧ Forall (loss_allowed policy) losses ∧
      ∃ s c sc choice m parts, reads body s c sc choice m ∧ says capabilities policy m parts ∧
        r_Items (canonical d) = message_items parts ++ map call_item (called m)
  | (Err e, _) => envelope_stop body e
  end.
Proof.
  intros <- Hids. unfold decode_render. set (policy := x_LossPolicy x).
  pose proof (DecodeChat_spec _ _ unmarshal_call Hsame body capabilities policy fresh_report) as Hd.
  pose proof (lawful_DecodeChat decode_shadow decode_chat unmarshal_call body capabilities policy fresh_report ltac:(constructor)) as Hdl.
  destruct (decode body capabilities policy fresh_report) as [[d|e] dr]; simpl in Hd, Hdl; [|by destruct e].
  destruct Hd as (Hv & s & c & sc & choice & m & Hread & Hdec).
  destruct Hdec as [(parts & Hsays & Hitems) (name & stop & status & inc & Hname & Htab & Hstop & Hstatus & Hinc) _ (Hlog & _) _].
  destruct (stop_of_table _ _ _ _ Htab) as [_ Hnf].
  assert (Forall chat_item (r_Items (canonical d))) as Hall by (rewrite Hitems; apply chat_items, Hsays).
  pose proof (RenderResponses_spec unmarshal_reasoning d (Some x) Hall fresh_report) as Hr. cbv zeta in Hr. change (lossPolicy (Some x)) with policy in Hr.
  pose proof (lawful_RenderResponses unmarshal_reasoning d (Some x) fresh_report ltac:(constructor)) as Hrl. change (lossPolicy (Some x)) with policy in Hrl.
  destruct (RenderResponsesResponse unmarshal_reasoning d (Some x) fresh_report) as [[e|e] rr] eqn:Hren; simpl in Hr, Hrl.
  - destruct Hr as (x' & ids' & []). destruct re_context0 as [[= <-] Hids']. rewrite Hids in Hids'. injection Hids' as <-.
    split; [done|]. split; [done|]. split; [|split; [by apply Forall_app|by exists s, c, sc, choice, m, parts]].
    constructor.
    + exists s, c, sc, choice, m. split; [done|]. rewrite re_items0, Hitems, bind_app, (said_shapes capabilities policy _ m) by done. rewrite call_shapes.
      split_and!; [done| |].
      * pose proof (status_of_table _ _ _ _ Htab) as Hst. eexists name, _. split; [done|]. rewrite re_status0, Hstatus. split; [exact Hst|].
        rewrite re_incomplete0, Hstatus, Hinc. by case_bool_decide.
      * intros [Hu|Hl]; [by apply (s_lost _ _ _ _ Hsays)|]. rewrite <- Hlog in Hl. apply re_logprobs0 in Hl.
        intros Hx. rewrite Hx in Hl. by apply elem_of_empty in Hl.
    + by destruct re_ids0 as (ids'' & _ & _ & Hnd & _).
  - inversion Hr as [path f Hf|e' He|Hf|item protocol path detail []|msg Hc]; subst; try done.
    + congruence.
    + congruence.
    + simpl in Hc. congruence.
Qed.

(** ** The conversation *)

Context (decode_envelope : str → result envelope_error ResponseEnvelope) (marshal_reasoning : ReasoningOutputItem → option str).
Context `{UnicodeTables}.
Context (marshal : gmap str json → str).

(** Documented: what [json.Marshal] writes of an object is an object. *)
Context (Hmarshal : ∀ o, ∃ kvs, parse_text (TrimSpace (marshal o)) = Some (JObj kvs)).

Abbreviation convert := (convertResponse decode_shadow decode_chat unmarshal_call decode_envelope marshal_reasoning unmarshal_reasoning marshal).

Lemma conversation_valid x d : ValidateCanonicalResponse (canonical d) = Ok tt → Forall turn_ok (x_RequestTurns x) →
  Forall turn_ok (conversation marshal x d).
Proof using Hmarshal.
  intros Hv Hx. apply Forall_app. split; [done|]. unfold Continuity.responseItemsToTurns.
  pose proof (ContinuityLaws.items_spec marshal Hmarshal (r_Items (canonical d)) [] 0) as Hi.
  destruct (fold_left _ _ _) as [turns n]. destruct Hi as (Hr & _).
  - apply Forall_forall. intros item Hin. by apply (valid_items (canonical d)).
  - constructor.
  - eapply Forall_impl; [exact Hr|]. by intros t (_ & ? & _).
Qed.

(** What a message leaves for the next request: what it says, and its calls whose
    arguments are an object. *)
Definition content_part (p : part_kind * str) : CanonicalPart := match p.1 with KText => CanonicalText p.2 | KRefusal => CanonicalRefusal p.2 end.

Definition call_part (call : ChatMessageToolCall) : list CanonicalPart :=
  match arguments_of call with
  | Some o => [CanonicalFunctionCall [] (derefStr (tc_ID call)) (derefStr (tc_Name call)) (marshal o)]
  | None => []
  end.

Definition left_of (body : str) (capabilities : ChatCapabilities) (turns : list CanonicalTurn) : Prop :=
  ∃ s c sc choice m, reads body s c sc choice m ∧
    ContinuityLaws.parts_of turns = map content_part (spoken_content capabilities m) ++ (called m ≫= call_part).

Lemma left_of_items parts calls : Forall output_part parts →
  (message_items parts ++ map call_item calls) ≫= ContinuityLaws.replayed marshal =
  map content_part (omap part_content parts) ++ (calls ≫= call_part).
Proof.
  intros Hp. rewrite bind_app. f_equal.
  - assert (List.filter (λ p, negb (Continuity.is_thinking p)) parts = map content_part (omap part_content parts)) as Hf.
    { unfold omap. induction Hp as [|p parts Hp _ IH]; [done|]. destruct p; try done; simpl; by rewrite IH. }
    rewrite <- Hf. destruct parts as [|p parts]; [done|]. unfold message_items. rewrite bind_cons. simpl. by rewrite app_nil_r.
  - induction calls as [|call calls IH]; [done|]. cbn [map]. by rewrite !bind_cons, IH.
Qed.

Lemma left_of_response body capabilities policy d : (∃ s c sc choice m parts, reads body s c sc choice m ∧ says capabilities policy m parts ∧
    r_Items (canonical d) = message_items parts ++ map call_item (called m)) → ValidateCanonicalResponse (canonical d) = Ok tt →
  left_of body capabilities (Continuity.responseItemsToTurns marshal (canonical d)).1.
Proof using Hmarshal.
  intros (s & c & sc & choice & m & parts & Hr & Hsays & Hitems) Hv. exists s, c, sc, choice, m. split; [done|].
  pose proof (ContinuityLaws.items_spec marshal Hmarshal (r_Items (canonical d)) [] 0) as Hi. unfold Continuity.responseItemsToTurns.
  destruct (fold_left _ _ _) as [turns n]. destruct Hi as (_ & Hp & _); [|constructor|].
  - apply Forall_forall. intros item Hin. by apply (valid_items (canonical d)).
  - simpl in Hp |- *. rewrite Hp, Hitems, left_of_items by apply Hsays. by rewrite (s_content _ _ _ _ Hsays).
Qed.

Lemma given_id_nonempty ids : String.eqb (New ids "resp_").1 "" = false ∧ is_empty (lit (New ids "resp_").1) = false.
Proof. by split. Qed.

(** What is kept of an exchange. *)
Definition kept (x : ExchangeContext) (d : DecodedResponse) (now : Time) : Continuity.continuityChain :=
  {| Continuity.c_turns := conversation marshal x d; Continuity.c_depth := x_RequestDepth x; Continuity.c_updated := now |}.

Lemma fresh_kept x d now s t : time_Sub t now <= Continuity.ttl s → Continuity.expired t s (kept x d now) = false.
Proof. intros Ht. unfold Continuity.expired, kept. simpl. rewrite (proj2 (Z.ltb_ge (Continuity.ttl s) (time_Sub t now))) by done. apply andb_false_r. Qed.

(** What is recorded under a new identifier is kept, and is the newest. *)
Lemma record_keeps key x d id now later s :
  ContinuityLaws.wf s → is_empty (lit id) = false → String.eqb id "" = false → conversation marshal x d ≠ [] → x_Store x ≠ Some false →
  Continuity.chains s !! Continuity.continuityKey key (lit id) = None → time_Sub later now <= Continuity.ttl s →
  ∃ s', recordContinuityFromEnvelope marshal key x d id now later s = Some s' ∧ ContinuityLaws.wf s' ∧
    Continuity.capacity s' = Continuity.capacity s ∧ Continuity.ttl s' = Continuity.ttl s ∧
    Continuity.chains s' !! Continuity.continuityKey key (lit id) = Some (kept x d now) ∧
    ContinuityLaws.before (Continuity.continuityKey key (lit id)) ∅ (Continuity.order s').
Proof.
  intros Hw Hid Hid' Hne Hstore Hnone Hlater. unfold recordContinuityFromEnvelope. rewrite Hid'.
  set (k := Continuity.continuityKey key (lit id)) in *. set (c := kept x d now).
  assert (storeFalse x = false) as Hsf by (unfold storeFalse; destruct (x_Store x) as [[]|]; done).
  assert (Continuity.retained (lit id) (conversation marshal x d) false = true) as Hret
    by (unfold Continuity.retained; rewrite Hid; by destruct (conversation marshal x d)).
  destruct (ContinuityLaws.step_spec (ContinuityLaws.ORecord key (lit id) (conversation marshal x d) (x_RequestDepth x) (storeFalse x) now later) s Hw)
    as (s' & Hs & Hw' & Hc & Ht & _ & _ & Hkeep).
  rewrite Hsf in Hs |- *. exists s'. simpl in Hkeep. rewrite Hsf, Hret in Hkeep. fold k in Hkeep. destruct (Hkeep k c ∅) as [Hk Hb].
  - simpl. by rewrite lookup_insert_eq.
  - by apply fresh_kept.
  - simpl. rewrite Hnone. exists (Continuity.order s), []. split; [done|]. by intros y ?%elem_of_nil.
  - destruct Hw. rewrite size_empty. lia.
  - by split_and!.
Qed.

(** It is found while it is fresh. *)
Lemma kept_resolves key x d id now s at_ : is_empty (lit id) = false → time_Sub at_ now <= Continuity.ttl s →
  Continuity.chains s !! Continuity.continuityKey key (lit id) = Some (kept x d now) →
  Continuity.Resolve key (lit id) at_ s = (Some (conversation marshal x d, x_RequestDepth x), s).
Proof. intros Hid Hat Hk. unfold Continuity.Resolve. rewrite Hid. cbv zeta. by rewrite Hk, fresh_kept. Qed.

Lemma record_total key x d id now later s : ContinuityLaws.wf s →
  ∃ s', recordContinuityFromEnvelope marshal key x d id now later s = Some s' ∧ ContinuityLaws.wf s' ∧ (x_Store x = Some false → s' = s).
Proof.
  intros Hw. unfold recordContinuityFromEnvelope. destruct (String.eqb id ""); [by exists s|].
  destruct (ContinuityLaws.step_spec (ContinuityLaws.ORecord key (lit id) (conversation marshal x d) (x_RequestDepth x) (storeFalse x) now later) s Hw)
    as (s' & Hs & Hw' & _).
  exists s'. split_and!; [exact Hs|done|]. intros Hf. simpl in Hs. unfold Continuity.RecordEvicted, Continuity.retained in Hs.
  assert (storeFalse x = true) as Hsf by (unfold storeFalse; by rewrite Hf). rewrite Hsf, andb_false_r in Hs. by injection Hs.
Qed.

(** C14: a Responses client of a Chat upstream gets exactly what the upstream says, item by
    item, under identifiers of which no two are equal: what is thought as a reasoning
    item, the texts and the refusal with their kinds, every call under the name the
    client declared with the model's arguments unchanged, and the status of the finish
    reason; otherwise the exchange fails, and is charged to the upstream only if the
    response is corrupt.  The conversation then goes on from there: unless the client
    declined to store it, its identifier resolves, while it is fresh, to the turns of the
    request and those of this response, which a request may carry if those may; and
    neither the conversion nor the store panics. *)
Theorem exchange_goes_on m x ids body now later s : ClientProtocol m = ApiErrors.ClientResponses →
  UpstreamProtocol m = ApiErrors.UpstreamChatCompletions → x_LossPolicy x = map_LossPolicy m → x_IDs x = Some ids → ContinuityLaws.wf s →
  match convert m (Some x) body now later (Some s) with
  | (Ok (ResponsesDocument e), losses, store) =>
      envelope_of body (map_Capabilities m) (map_LossPolicy m) x e ∧ Forall (loss_allowed (map_LossPolicy m)) losses ∧
      ∃ s' turns, store = Some (Some s') ∧ ContinuityLaws.wf s' ∧ (x_Store x = Some false → s' = s) ∧
        left_of body (map_Capabilities m) turns ∧ (Forall turn_ok (x_RequestTurns x) → Forall turn_ok (x_RequestTurns x ++ turns)) ∧
        (x_Store x ≠ Some false → x_RequestTurns x ≠ [] →
         let key := ContinuityKey m in
         Continuity.chains s !! Continuity.continuityKey key (lit (re_ID e)) = None → time_Sub later now <= Continuity.ttl s →
         ∀ at_, time_Sub at_ now <= Continuity.ttl s →
           (Continuity.Resolve key (lit (re_ID e)) at_ s').1 = Some (x_RequestTurns x ++ turns, x_RequestDepth x))
  | (Ok (MessagesDocument _), _, _) => False
  | (Err e, _, store) => envelope_stop body e ∧ store = Some (Some s)
  end.
Proof using Hmarshal Hsame.
  intros Hc Hu Hpol Hids Hw. unfold convertResponse. rewrite Hc, Hu.
  pose proof (envelope_exact body (map_Capabilities m) (map_LossPolicy m) x ids Hpol Hids) as He.
  destruct (decode_render _ _) as [[[d e]|e] losses]; [|by split]. destruct He as (Hv & Hid & He & Hl & Hsaid). split; [done|]. split; [done|].
  destruct (record_total (ContinuityKey m) x d (re_ID e) now later s Hw) as (s' & Hs & Hw' & Hsf). rewrite Hs. simpl.
  exists s', (Continuity.responseItemsToTurns marshal (canonical d)).1. split_and!; [done|done|done|by eapply left_of_response|by apply conversation_valid|].
  intros Hstore Hturns Hnone Hlater at_ Hat. destruct (given_id_nonempty ids) as [Hn1 Hn2]. rewrite <- Hid in Hn1, Hn2.
  destruct (record_keeps (ContinuityKey m) x d (re_ID e) now later s) as (s'' & Hs'' & _ & _ & Httl & Hk & _); try done.
  - unfold conversation. by destruct (x_RequestTurns x).
  - rewrite Hs in Hs''. injection Hs'' as <-. erewrite kept_resolves; [done|done|by rewrite Httl|exact Hk].
Qed.
End envelope.

(** ** Sample: the answer of [ResponseLaws], continued *)

Definition sample_mapping : Mapping :=
  {| ClientProtocol := ApiErrors.ClientResponses; UpstreamProtocol := ApiErrors.UpstreamChatCompletions;
     map_Capabilities := sample_capabilities; map_LossPolicy := StrictLossPolicy; ContinuityKey := lit "m" |}.

Definition no_envelope (_ : str) : result envelope_error ResponseEnvelope := Err Malformed.
Definition no_marshal (_ : ReasoningOutputItem) : option str := None.
Definition no_unmarshal (_ : str) : option ReasoningOutputItem := None.
Definition empty_object (_ : gmap str json) : str := lit "{}".

Lemma exchange_goes_on_witness :
  match convertResponse sample_decode_shadow sample_decode_chat sample_call no_envelope no_marshal no_unmarshal empty_object
          sample_mapping (Some sample_context) (lit "x") 1 2 (Some (Continuity.NewContinuityStore 4 10)) with
  | (Ok (ResponsesDocument e), _, Some (Some s)) =>
      re_ID e = "resp_ab_1" ∧ NoDup (re_ID e :: omap given_id (re_Output e)) ∧
      ∃ turns, (Continuity.Resolve (lit "m") (lit (re_ID e)) 9 s).1 = Some (x_RequestTurns sample_context ++ turns, 0)
  | _ => False
  end.
Proof.
  pose proof (exchange_goes_on sample_decode_shadow sample_decode_chat sample_call no_unmarshal sample_same no_envelope no_marshal empty_object
    ltac:(intros o; exists []; vm_compute; reflexivity) sample_mapping sample_context {| ids_prefix := "ab"; ids_next := 0 |} (lit "x") 1 2
    (Continuity.NewContinuityStore 4 10) eq_refl eq_refl eq_refl eq_refl (ContinuityLaws.wf_new 4 10)) as H.
  assert (match convertResponse sample_decode_shadow sample_decode_chat sample_call no_envelope no_marshal no_unmarshal empty_object
          sample_mapping (Some sample_context) (lit "x") 1 2 (Some (Continuity.NewContinuityStore 4 10)) with
          | (Ok (ResponsesDocument e), _, Some (Some _)) => re_ID e = "resp_ab_1"
          | _ => False
          end) as Hr by (vm_compute; reflexivity).
  destruct (convertResponse _ _ _ _ _ _ _ _ _ _ _ _ _) as [[[[e|d]|err] losses] store]; [|destruct Hr..].
  destruct store as [[s|]|]; [|destruct Hr..]. destruct H as (He & _ & s' & turns & Hs & _ & _ & _ & _ & Hgo).
  injection Hs as <-. split; [exact Hr|]. split; [exact (eo_ids _ _ _ _ _ _ _ _ He)|]. exists turns. rewrite Hr in *.
  apply Hgo; [discriminate|discriminate|vm_compute; reflexivity|vm_compute; discriminate|vm_compute; discriminate].
Defined.
