(* ===== verification/ResponseMessages.v ===== *)
(** * What a Messages client gets of a whole Responses response

    The Responses decoder of [ResponseDecode] followed by the Messages renderer of
    [ResponseRender], against the upstream's envelope. *)

From Stdlib Require Import ZArith QArith Qcanon Lia Bool List Ascii String.
From stdpp Require Import strings gmap list.
From S2P Require Import Prelude GoStd GoStr GoText GoJson Losses Ir Usage ResponseDecode ResponseRender ResponseLaws.

Open Scope string_scope.
Open Scope Z_scope.
Open Scope conv_scope.
Open Scope list_scope.

(** ** What an envelope says *)

Definition content_text (c : output_content) : option str :=
  match c with OutputText text | OutputRefusal text => Some text | OutputContentOther => None end.

Definition call_object (arguments : str) : option (gmap str json) := Object (ParseToolArguments arguments).

Definition said_blocks (item : output_item) : list AnthropicContentBlock :=
  match item with
  | ResponsesOutputMessage _ _ content => map Text (omap content_text content)
  | ResponsesFunctionCallOutputItem _ callID name arguments =>
      match call_object arguments with Some input => [ToolUse callID name input] | None => [] end
  | _ => []
  end.

(** An item a Messages client cannot be given whole. *)
Definition lossy_output (item : output_item) : Prop :=
  match item with
  | ResponsesOutputMessage _ phase _ => phase ≠ []
  | ResponsesFunctionCallOutputResultItem _ _ _ | ResponsesReasoningOutputItem _ => True
  | _ => False
  end.

Definition no_object (item : output_item) : Prop :=
  match item with ResponsesFunctionCallOutputItem _ _ _ arguments => call_object arguments = None | _ => False end.

(** An error that is no panic, wherever it is. *)
Fixpoint no_panic (e : terr) : Prop := match e with NilPanic => False | ErrAt _ _ e => no_panic e | _ => True end.

(** The stop reason an envelope asks for. *)
Definition stop_of (e : ResponseEnvelope) (stop : string) : Prop :=
  (en_Status e = lit "completed" ∧ stop = if existsb is_call (en_Output e) then "tool_use" else "end_turn") ∨
  (en_Status e = lit "incomplete" ∧ stop = if is_lit (derefStr (en_IncompleteReason e)) "content_filter" then "refusal" else "max_tokens").

Section messages.
Context `{UnicodeTables}.
Context (decode_envelope : str → result envelope_error ResponseEnvelope) (marshal_reasoning : ReasoningOutputItem → option str).

(** Errors of a decode: none is charged to the upstream but that of the wire layer. *)
Definition decode_stop (body : str) (e : terr) : Prop :=
  no_panic e ∧
  match e with
  | UpstreamWireError _ => decode_envelope body = Err Malformed
  | UpstreamSemanticFailureError _ | UnrepresentableError _ _ _ => False
  | _ => True
  end.

Lemma Split_cons c s : ∃ p ps, Split c s = p :: ps.
Proof. induction s as [|x s (p & ps & IH)]; simpl; [by exists [], []|]. destruct (byte_eqb x c); [by eexists _, _|]. rewrite IH. by eexists _, _. Qed.

Lemma splitImageDataURL_error url e : splitImageDataURL url = Err e → ∃ msg, e = Errorf msg.
Proof.
  unfold splitImageDataURL. destruct (strip_prefix _ _) as [rest|]; [|done]. destruct (Cut _ _) as [[head data]|]; [|intros [= <-]; by eexists].
  destruct (Split_cons ";" head) as (p & ps & ->). repeat case_match; intros [= <-]; by eexists.
Qed.

Lemma part_error part e : responsesInputContentPartToCanonical part = Err e → no_panic e.
Proof.
  destruct part; simpl; try done; try (by intros [= <-]). destruct (negb _); [by intros [= <-]|].
  destruct (splitImageDataURL ImageURL) as [[]|e'] eqn:E; [done|]. intros [= <-]. by apply splitImageDataURL_error in E as [msg ->].
Qed.

Lemma input_parts_error parts : ∀ i e, input_parts i parts = Err e → no_panic e.
Proof.
  induction parts as [|p parts IH]; intros i e; simpl; [done|]. destruct (responsesInputContentPartToCanonical p) as [c|e'] eqn:E.
  - destruct (input_parts (S i) parts) as [ps|e'] eqn:E2; simpl; [done|]. intros [= <-]. by apply (IH (S i)).
  - intros [= <-]. by apply part_error in E.
Qed.

(** The canonical item of an output item. *)
Definition item_of (item : output_item) (c : CanonicalResponseItem) : Prop :=
  item_blocks c = said_blocks item ∧ (unrepresentable_call c ↔ no_object item) ∧ (lossy_item c ↔ lossy_output item).

Lemma output_texts content i : triple (collect (λ _, output_part_to_canonical) i content)
  (λ parts, omap part_text parts = omap content_text content ∧ omap thinking_block parts = []) (λ e, ∃ msg, e = Errorf msg).
Proof.
  eapply t_weaken; [apply (t_collect_map _ _ (λ c, match c with OutputText t => [CanonicalText t] | OutputRefusal t => [CanonicalRefusal t] | OutputContentOther => [] end))|].
  - intros j c _. destruct c; simpl; [by apply t_ret|by apply t_ret|]. apply t_fail. by eexists.
  - intros parts ->. unfold omap. induction content as [|c content [IH1 IH2]]; [done|]. rewrite bind_cons. destruct c; simpl; split; try done; by f_equal.
Qed.

Lemma decode_output_spec body i item :
  triple (decode_output marshal_reasoning i item) (λ cs, ∃ c, cs = [c] ∧ item_of item c) (decode_stop body).
Proof.
  unfold decode_output, item_of. apply t_at_index. unfold decode_stop. simpl. destruct item as [id phase content|id callID name args|id callID output|r|].
  - eapply t_bind.
    { intros r. pose proof (output_texts content 0 r) as Ht. destruct (collect _ 0 content r).1; [exact Ht|]. by destruct Ht as [msg ->]. }
    intros parts [Ht Hth]. apply t_ret. eexists. split; [done|]. simpl. rewrite Ht, Hth. split_and!; [done|done|].
    destruct (is_empty phase) eqn:Hp; simpl; [apply is_empty_spec in Hp; by subst|]. apply not_empty_ne in Hp. by split.
  - apply t_ret. eexists. split; [done|]. by split_and!.
  - eapply (t_bind _ _ _ (λ _, True)).
    + apply t_lift. destruct output as [text|parts]; simpl; [done|]. destruct (input_parts 0 parts) as [ps|e] eqn:E; [done|]. by apply input_parts_error in E.
    + intros parts _. apply t_ret. eexists. split; [done|]. by split_and!.
  - destruct (marshal_reasoning _) as [raw|]; [|by apply t_fail]. apply t_ret. eexists. split; [done|]. by split_and!.
  - by apply t_fail.
Qed.

Lemma decode_outputs_spec body items :
  triple (collect (decode_output marshal_reasoning) 0 items) (λ cs, Forall2 item_of items cs) (decode_stop body).
Proof.
  eapply t_weaken; [apply (t_collect _ _ (λ item cs, ∃ c, cs = [c] ∧ item_of item c))|].
  - intros i item _. apply decode_output_spec.
  - intros cs (bss & Hb & ->). induction Hb as [|item b items' bss' (c & -> & Hc) _ IH]; [constructor|]. by constructor.
Qed.

Definition failed (e : ResponseEnvelope) : Prop := en_Status e = lit "failed".

Lemma envelope_status_spec body e :
  triple (envelope_status e)
    (λ r, let '(status, _, message, stop) := r in
          (status = CanonicalResponseFailed → failed e ∧ message = derefStr (en_ErrorMessage e)) ∧
          (status ≠ CanonicalResponseFailed → stop_of e (stop_name (Some stop)))) (decode_stop body).
Proof.
  unfold envelope_status, stop_of, failed, is_lit.
  destruct (str_eqb (en_Status e) (lit "completed")) eqn:H1.
  { apply str_eqb_eq in H1. apply t_ret. split; [done|]. intros _. left. split; [done|]. by destruct (existsb _ _). }
  destruct (str_eqb (en_Status e) (lit "incomplete")) eqn:H2.
  { apply str_eqb_eq in H2. apply t_ret. split; [done|]. intros _. right. split; [done|]. by destruct (str_eqb (derefStr _) _). }
  destruct (str_eqb (en_Status e) (lit "failed")) eqn:H3.
  { apply str_eqb_eq in H3. apply t_ret. by split. }
  destruct (is_empty _); by apply t_fail.
Qed.

(** What is decoded of an envelope. *)
Record decodes_envelope (body : str) (d : DecodedResponse) (e : ResponseEnvelope) : Prop := {
  de_envelope : decode_envelope body = Ok e;
  de_items : Forall2 item_of (en_Output e) (r_Items (canonical d));
  de_failed : r_Status (canonical d) = Some CanonicalResponseFailed → failed e ∧ r_ErrorMessage d = derefStr (en_ErrorMessage e);
  de_stop : r_Status (canonical d) ≠ Some CanonicalResponseFailed → stop_of e (stop_name (Reason <$> r_Stop (canonical d)));
  de_controls : ResponsesControls (r_Source d) = envelope_controls e;
}.

Lemma validation_no_panic r e : ValidateCanonicalResponse r = Err e → no_panic e ∧
  match e with UpstreamWireError _ | UpstreamSemanticFailureError _ | UnrepresentableError _ _ _ => False | _ => True end.
Proof.
  assert (∀ p e, validateCanonicalPart p = Err e → no_panic e) as Hpart.
  { induction p as [p Hleaf|c err ps IH] using part_nested_ind; intros e0; simpl.
    - destruct p; simpl; try done; try (by repeat case_match; intros [= <-]). by exfalso; eapply Hleaf.
    - destruct (is_empty c); [by intros [= <-]|]. generalize 0%nat.
      induction IH as [|p ps Hp _ IH]; intros i; simpl; [done|]. destruct (validateCanonicalPart p) as [u|e1] eqn:E; [apply IH|].
      intros [= <-]. simpl. by apply Hp. }
  assert (∀ {A} what (check : A → result terr unit) l i e, (∀ x e, check x = Err e → no_panic e) → first_error what check i l = Err e →
    ∃ j e', e = ErrAt what j e' ∧ no_panic e') as Hfirst.
  { intros A what check l. induction l as [|x l IH]; intros i e0 Hc; simpl; [done|]. destruct (check x) eqn:E; [by apply IH|].
    intros [= <-]. eexists _, _. split; [done|]. by eapply Hc. }
  unfold ValidateCanonicalResponse. destruct (is_empty _); [by intros [= <-]|]. destruct (r_Status r); [|by intros [= <-]].
  destruct (r_Stop r); [|by intros [= <-]]. generalize 0%nat (∅ : gset str). induction (r_Items r) as [|item items IH]; intros i known_; simpl; [done|].
  destruct (validate_item known_ item) as [k|e1] eqn:E; [apply IH|]. intros [= <-]. split; [|done]. simpl. revert E.
  destruct item; simpl.
  - destruct (negb _); [by intros [= <-]|]. destruct (negb _); [by intros [= <-]|].
    destruct (first_error _ _ _ _) as [[]|e2] eqn:E2; simpl; [done|]. intros [= <-].
    apply Hfirst in E2 as (j & e' & -> & He'); [done|]. intros x e0. destruct x; simpl; try done; by intros [= <-].
  - destruct (is_empty _); [by intros [= <-]|]. by destruct (is_empty _); [intros [= <-]|].
  - destruct (is_empty _); [by intros [= <-]|]. destruct (negb _); [by intros [= <-]|].
    destruct (first_error _ _ _ _) as [[]|e2] eqn:E2; simpl; [done|]. intros [= <-].
    apply Hfirst in E2 as (j & e' & -> & He'); [done|]. exact Hpart.
  - destruct (json_Valid _); [done|by intros [= <-]].
Qed.

Lemma DecodeResponses_spec body :
  triple (DecodeResponsesResponse decode_envelope marshal_reasoning body) (λ d, ∃ e, decodes_envelope body d e) (decode_stop body).
Proof.
  unfold DecodeResponsesResponse. destruct (decode_envelope body) as [e|[p q t|]] eqn:He; [|by apply t_fail|by apply t_fail].
  eapply t_bind; [apply (envelope_status_spec body)|]. intros [[[status inc] message] stop] [Hf Hs].
  eapply t_bind; [apply (decode_outputs_spec body)|]. intros items Hitems. unfold validated.
  eapply (t_bind _ _ _ (λ _, True)).
  - apply t_lift. destruct (ValidateCanonicalResponse _) as [u|err] eqn:Hv; [done|]. apply validation_no_panic in Hv as [Hn Hk].
    split; [done|]. by destruct err.
  - intros _ _. apply t_ret. exists e. constructor; simpl; try done.
    + intros [= Hst]. by apply Hf.
    + intros Hne. apply Hs. by intros ->.
Qed.

Lemma said_of_items items cs : Forall2 item_of items cs → cs ≫= item_blocks = items ≫= said_blocks.
Proof. induction 1 as [|item c items cs (H1 & _) _ IH]; [done|]. by rewrite !bind_cons, H1, IH. Qed.

Lemma lawful_DecodeResponses policy body : keeps_lawful policy (DecodeResponsesResponse decode_envelope marshal_reasoning body).
Proof. unfold DecodeResponsesResponse, envelope_status, validated, wireError, decode_output, output_part_to_canonical. lawful. Qed.

(** C15: of an upstream's whole Responses response a Messages client gets exactly what it
    says: every text and refusal of its messages and every call with the object its
    arguments are, in order, and the stop reason of its status; an item that cannot be
    given whole (a phase, a reasoning item, a tool's output) or a control is lost only if
    the policy allows losses.  A response that says it failed is never a message: it is
    the upstream's failure, with its words.  No error is a panic, and only a body the wire
    layer refuses is charged to the upstream as corrupt. *)
Theorem responses_message_exact policy context ids body : lossPolicy context = policy → context ≫= x_IDs = Some ids →
  match decode_render (DecodeResponsesResponse decode_envelope marshal_reasoning body) (λ r, RenderMessagesResponse r context) with
  | (Ok (_, d), losses) =>
      ∃ e, decode_envelope body = Ok e ∧ am_Content d = en_Output e ≫= said_blocks ∧ stop_of e (am_StopReason d) ∧
        Forall (λ item, ¬ no_object item) (en_Output e) ∧ Forall (loss_allowed policy) losses ∧
        (Exists lossy_output (en_Output e) ∨ envelope_controls e ≠ [] → Allowed policy ≠ ∅)
  | (Err err, _) =>
      no_panic err ∧
      match err with
      | UpstreamWireError _ => decode_envelope body = Err Malformed
      | UpstreamSemanticFailureError message => ∃ e, decode_envelope body = Ok e ∧ failed e ∧ message = derefStr (en_ErrorMessage e)
      | UnrepresentableError _ _ _ => ∃ e, decode_envelope body = Ok e ∧ Exists no_object (en_Output e)
      | _ => True
      end
  end.
Proof.
  intros <- Hids. unfold decode_render. set (policy := lossPolicy context).
  pose proof (DecodeResponses_spec body fresh_report) as Hd.
  pose proof (lawful_DecodeResponses policy body fresh_report ltac:(constructor)) as Hdl.
  destruct (DecodeResponsesResponse _ _ _ _) as [[d|err] dr]; simpl in Hd, Hdl; [|destruct Hd as [Hn Hd]; split; [done|]; by destruct err].
  destruct Hd as (e & [He Hitems Hfail Hstop Hctl]).
  pose proof (RenderMessages_spec d context fresh_report) as Hr. cbv zeta in Hr. fold policy in Hr.
  pose proof (lawful_RenderMessages d context fresh_report ltac:(constructor)) as Hrl. fold policy in Hrl.
  destruct (RenderMessagesResponse d context fresh_report) as [[a|err] rr]; simpl in Hr, Hrl.
  - exists e. destruct Hr as [Hv Hnf Hcontent Hsaid Hreason _ _ Hcontrols]. split; [done|]. rewrite Hcontent, (said_of_items _ _ Hitems), Hreason.
    split_and!; [done|by apply Hstop| |by apply Forall_app|].
    + apply Forall_forall. intros item Hin Hno. apply list_elem_of_lookup in Hin as [k Hk].
      destruct (Forall2_lookup_l _ _ _ _ _ Hitems Hk) as (c & Hc & _ & Hu & _). rewrite Forall_lookup in Hsaid. destruct (Hsaid k c Hc) as [Hx _]. by apply Hx, Hu.
    + intros [Hl|Hc]; [|rewrite Hctl in Hcontrols; by eapply allowed_some, Hcontrols].
      apply Exists_exists in Hl as (item & Hin & Hl). apply list_elem_of_lookup in Hin as [k Hk].
      destruct (Forall2_lookup_l _ _ _ _ _ Hitems Hk) as (c & Hc & _ & _ & Hy). rewrite Forall_lookup in Hsaid. destruct (Hsaid k c Hc) as [_ Hx]. by apply Hx, Hy.
  - inversion Hr as [path f Hf|e' Hv|Hf|item protocol path detail _ Hin Hu|msg Hc]; subst; try done.
    + apply validation_no_panic in Hv as [Hn Hk]. split; [done|]. by destruct err.
    + split; [done|]. destruct (Hfail Hf) as [H1 H2]. by exists e.
    + split; [done|]. exists e. split; [done|]. apply list_elem_of_lookup in Hin as [k Hk].
      destruct (Forall2_lookup_r _ _ _ _ _ Hitems Hk) as (o & Ho & _ & Hx & _). apply Exists_exists. exists o. split; [by eapply list_elem_of_lookup_2|by apply Hx].
Qed.
End messages.

(** ** Sample: a message and a call *)

Definition sample_envelope : ResponseEnvelope :=
  {| en_ID := lit "resp_1"; en_Model := lit "m"; en_CreatedAt := 0%Qc; en_Status := lit "completed"; en_IncompleteReason := None;
     en_ErrorMessage := None; en_Background := false; en_MaxToolCalls := false; en_Prompt := false; en_PromptCacheKey := false;
     en_SafetyIdentifier := false; en_ServiceTier := None;
     en_Usage := Some {| InputTokens := 5; CachedTokens := Some 3; OutputTokens := 2; ReasoningTokens := Some 1; TotalTokens := 7; CreatedCacheTokens := None |};
     en_Output := [ResponsesOutputMessage (lit "msg_1") [] [OutputText (lit "hi")];
                   ResponsesFunctionCallOutputItem (lit "fc_1") (lit "c1") (lit "f") []] |}.

Definition sample_decode_envelope (body : str) : result envelope_error ResponseEnvelope := if is_empty body then Err Malformed else Ok sample_envelope.

Definition cache_policy : LossPolicy := {| Allowed := {["usage_cache_write_unknown"]} |}.

Definition cache_context : ExchangeContext :=
  {| x_RequestedClientModel := []; x_IDs := Some {| ids_prefix := "ab"; ids_next := 0 |}; x_LossPolicy := cache_policy;
     x_ToolNames := None; x_RequestTurns := []; x_RequestDepth := 0; x_Store := None |}.

Lemma responses_message_exact_witness :
  match decode_render (DecodeResponsesResponse sample_decode_envelope (λ _, None) (lit "x")) (λ r, RenderMessagesResponse r (Some cache_context)) with
  | (Ok (_, d), losses) => am_StopReason d = "tool_use" ∧ am_Content d = [Text (lit "hi"); ToolUse (lit "c1") (lit "f") ∅] ∧
      Forall (loss_allowed cache_policy) losses
  | _ => False
  end.
Proof.
  pose proof (responses_message_exact sample_decode_envelope (λ _, None) cache_policy (Some cache_context) {| ids_prefix := "ab"; ids_next := 0 |} (lit "x")
    eq_refl eq_refl) as H.
  assert (match decode_render (DecodeResponsesResponse sample_decode_envelope (λ _, None) (lit "x")) (λ r, RenderMessagesResponse r (Some cache_context)) with
          | (Ok (_, d), _) => am_StopReason d = "tool_use" ∧ am_Content d = [Text (lit "hi"); ToolUse (lit "c1") (lit "f") ∅]
          | _ => False
          end) as Hr by (vm_compute; split; reflexivity).
  destruct (decode_render _ _) as [[[r d]|e] losses]; [|destruct Hr].
  destruct Hr as [H1 H2]. split; [exact H1|]. split; [exact H2|]. destruct H as (e & _ & _ & _ & _ & Hl & _). exact Hl.
Defined.
