(* ===== verification/MsgRequest.v ===== *)
(** * Decoding a Messages request ([wire/anthropicmessages/types.go], [convert_request.go])

    The wire values of a Messages request with their checks, and
    [DecodeMessagesRequest], which turns them into the canonical request.  What the wire
    layer makes of a body is a parameter; a value of type [any] whose content is never
    read is its presence; nil raw JSON is the empty text; the values interpolated in
    error texts are not rendered. *)

From Stdlib Require Import ZArith Lia Bool List Ascii String.
From stdpp Require Import strings pretty gmap list.
From S2P Require Import Prelude GoStd GoStr GoText GoJson Losses Ir.
From S2P Require ResponseDecode.

Open Scope string_scope.
Open Scope Z_scope.
Open Scope conv_scope.

(** ** The wire values *)

Record Source := { src_Type : str; src_MediaType : str; src_Data : str; src_URL : str }.

Record TextCitation := {
  ci_Type : str;
  ci_DocumentIndex : option Z;
  ci_StartCharIndex : option Z;
  ci_EndCharIndex : option Z;
  ci_StartPageNumber : option Z;
  ci_EndPageNumber : option Z;
  ci_StartBlockIndex : option Z;
  ci_EndBlockIndex : option Z;
  ci_URL : option str;
  ci_SearchResultIndex : option Z;
  ci_Source : option str;
}.

(** [Content]: the nil slice of blocks is [None]. *)
Record content_of (B : Type) := { ContentStr : option str; ContentBlocks : option (list B) }.
Arguments ContentStr {B} _.
Arguments ContentBlocks {B} _.

Inductive ContentBlock := {
  b_Type : str;
  b_Text : option str;
  b_Thinking : option str;
  b_Signature : option str;
  b_Data : option str;
  b_ToolUseID : option str;
  b_ID : option str;
  b_Name : option str;
  b_Input : str;
  b_Content : option (content_of ContentBlock);
  b_IsError : option bool;
  b_Source : option Source;
  b_Citations : list TextCitation;
  b_CacheControl : bool;
  b_ServerContent : str;
}.

Definition Content : Type := content_of ContentBlock.

(** The blocks a [range] over the content visits. *)
Definition blocks {B} (c : content_of B) : list B := default [] (ContentBlocks c).

Record Message := { msg_Role : str; msg_Content : Content }.

Record Tool := {
  at_Type : str;
  at_Name : str;
  at_Description : option str;
  at_InputSchema : str;
  at_CacheControl : bool;
  at_DeferLoading : option bool;
}.

Record AnthropicToolChoice := { ac_Type : str; ac_Name : str; ac_DisableParallelToolUse : option bool }.

Record ThinkingConfig := { tk_Type : str; tk_BudgetTokens : option Z; tk_Display : option str }.

(** A value of the metadata is its string, if it is one. *)
Record Request := {
  rq_Model : str;
  rq_MaxTokens : Z;
  rq_Messages : list Message;
  rq_System : option Content;
  rq_Temperature : option str;
  rq_TopP : option str;
  rq_TopK : option Z;
  rq_StopSequences : list str;
  rq_Stream : option bool;
  rq_Thinking : option ThinkingConfig;
  rq_Tools : list Tool;
  rq_ToolChoice : option AnthropicToolChoice;
  rq_Metadata : gmap str (option str);
  rq_ContextManagement : bool;
  rq_OutputConfig : bool;
}.

(** What a decoder gives the handler. *)
Record DecodeResult := { d_Request : CanonicalRequest; d_StreamSet : bool; d_ToolNames : option ToolNames }.

(** ** The checks of the wire values *)

Definition is_lit : str → string → bool := ResponseDecode.is_lit.

Definition Source_Validate (s : Source) : result terr unit :=
  if is_lit (src_Type s) "base64" then
    if is_empty (src_Data s) then Err (Errorf "base64 source has no data")
    else if is_empty (src_MediaType s) then Err (Errorf "base64 source has no media_type")
    else if negb (is_empty (src_URL s)) then Err (Errorf "base64 source must not carry a url") else Ok tt
  else if is_lit (src_Type s) "url" then
    if is_empty (src_URL s) then Err (Errorf "url source has no url")
    else if negb (is_empty (src_Data s)) then Err (Errorf "url source must not carry base64 data") else Ok tt
  else Err (Errorf "unknown anthropic source type").

Definition have {A} (o : option A) (msg : string) : result terr A := match o with Some a => Ok a | None => Err (Errorf msg) end.

(** A start and an end that must be there and in order. *)
Definition valid_range (name startless endless bad : string) (first last : option Z) : result terr unit :=
  s <-? have first (name ++ startless) ;;
  e <-? have last (name ++ endless) ;;
  if (s <? 0) || (e <? s) then Err (Errorf (name ++ bad)) else Ok tt.

Definition TextCitation_Validate (c : TextCitation) : result terr unit :=
  if is_lit (ci_Type c) "char_location" then
    have (ci_DocumentIndex c) "char_location citation has no document_index" ;;?
    valid_range "char_location citation has " "no start_char_index" "no end_char_index" "invalid char indices"
      (ci_StartCharIndex c) (ci_EndCharIndex c)
  else if is_lit (ci_Type c) "page_location" then
    have (ci_DocumentIndex c) "page_location citation has no document_index" ;;?
    valid_range "page_location citation has " "no start_page_number" "no end_page_number" "invalid page numbers"
      (ci_StartPageNumber c) (ci_EndPageNumber c)
  else if is_lit (ci_Type c) "content_block_location" then
    have (ci_DocumentIndex c) "content_block_location citation has no document_index" ;;?
    valid_range "content_block_location citation has " "no start_block_index" "no end_block_index" "invalid block indices"
      (ci_StartBlockIndex c) (ci_EndBlockIndex c)
  else if is_lit (ci_Type c) "web_search_result_location" then
    if is_empty (default [] (ci_URL c)) then Err (Errorf "web_search_result_location citation has no url") else Ok tt
  else if is_lit (ci_Type c) "search_result_location" then
    have (ci_SearchResultIndex c) "search_result_location citation has no search_result_index" ;;?
    (if is_empty (default [] (ci_Source c)) then Err (Errorf "search_result_location citation has no source")
     else valid_range "search_result_location citation has " "no start_block_index" "no end_block_index" "invalid block indices"
            (ci_StartBlockIndex c) (ci_EndBlockIndex c))
  else Err (Errorf "unknown anthropic citation type").

(** The types of blocks and how a chat upstream sees them. *)
Definition server_types : list string :=
  ["server_tool_use"; "web_search_tool_result"; "code_execution"; "code_execution_tool_result"; "container_upload"].

Inductive block_type :=
| BText | BImage | BDocument | BToolUse (mcp : bool) | BToolResult (mcp : bool) | BThinking | BRedactedThinking | BServer.

Definition block_type_of (s : str) : option block_type :=
  if is_lit s "text" then Some BText
  else if is_lit s "image" then Some BImage
  else if is_lit s "document" then Some BDocument
  else if is_lit s "tool_use" then Some (BToolUse false)
  else if is_lit s "tool_result" then Some (BToolResult false)
  else if is_lit s "thinking" then Some BThinking
  else if is_lit s "redacted_thinking" then Some BRedactedThinking
  else if existsb (is_lit s) server_types then Some BServer
  else if is_lit s "mcp_tool_use" then Some (BToolUse true)
  else if is_lit s "mcp_tool_result" then Some (BToolResult true)
  else None.

(** [json.Unmarshal] into a map of raw values: an object, or null, which leaves it nil. *)
Definition unmarshal_map (raw : str) : bool :=
  match parse_text raw with Some (JObj _) | Some JNull => true | _ => false end.

Definition source_valid (what : string) (s : option Source) : result terr unit :=
  s <-? have s (what ++ " block has no source") ;; Source_Validate s.

Definition tool_use_valid (what : string) (b : ContentBlock) : result terr unit :=
  if is_empty (default [] (b_ID b)) then Err (Errorf (what ++ " block has no id"))
  else if is_empty (default [] (b_Name b)) then Err (Errorf (what ++ " block has no name"))
  else if is_empty (b_Input b) then Err (Errorf (what ++ " block has no input"))
  else if negb (unmarshal_map (b_Input b)) then Err (Errorf (what ++ " input is not a JSON object"))
  else Ok tt.

Definition tool_result_valid (what : string) (b : ContentBlock) : result terr unit :=
  if is_empty (default [] (b_ToolUseID b)) then Err (Errorf (what ++ " block has no tool_use_id"))
  else have (b_Content b) (what ++ " block has no content") ;;? Ok tt.

Definition ContentBlock_Validate (b : ContentBlock) : result terr unit :=
  match block_type_of (b_Type b) with
  | None => Err (Errorf "unknown anthropic content block type")
  | Some BText => have (b_Text b) "text block has no text" ;;? first_error "citation" TextCitation_Validate 0 (b_Citations b)
  | Some BImage => source_valid "image" (b_Source b)
  | Some BDocument => source_valid "document" (b_Source b)
  | Some (BToolUse mcp) => tool_use_valid (if mcp then "mcp_tool_use" else "tool_use") b
  | Some (BToolResult mcp) => tool_result_valid (if mcp then "mcp_tool_result" else "tool_result") b
  | Some BThinking =>
      match b_Thinking b, b_Signature b with
      | Some _, Some _ => Ok tt
      | _, _ => Err (Errorf "thinking block requires thinking and signature")
      end
  | Some BRedactedThinking => have (b_Data b) "redacted_thinking block has no data" ;;? Ok tt
  | Some BServer => if is_empty (b_ServerContent b) then Err (Errorf "block has no preserved content") else Ok tt
  end.

Definition Content_Validate (c : Content) : result terr unit :=
  match ContentStr c, ContentBlocks c with
  | Some _, Some _ => Err (Errorf "anthropic content has both string and block variants")
  | None, None => Err (Errorf "anthropic content has no selected variant")
  | _, _ => first_error "anthropic content block" ContentBlock_Validate 0 (blocks c)
  end.

Definition role_of (s : str) : option CanonicalRole :=
  if is_lit s "user" then Some CanonicalUser
  else if is_lit s "assistant" then Some CanonicalAssistant
  else if is_lit s "system" then Some CanonicalSystem
  else None.

Definition Message_Validate (m : Message) : result terr unit :=
  match role_of (msg_Role m) with
  | None => Err (Errorf "unknown anthropic message role")
  | Some _ => Content_Validate (msg_Content m)
  end.

Definition Tool_Validate (t : Tool) : result terr unit :=
  if is_empty (at_Name t) then Err (Errorf "anthropic tool name is empty")
  else if negb (is_empty (at_Type t)) then Ok tt
  else if is_empty (at_InputSchema t) then Err (Errorf "anthropic tool has no input_schema")
  else Ok tt.

(** ** Content *)

(** What a block leaves: parts of its turn and artifacts of the request. *)
Inductive said := Part (p : CanonicalPart) | Artifact (raw : str).

Definition parts_of (l : list said) : list CanonicalPart := omap (λ s, match s with Part p => Some p | Artifact _ => None end) l.
Definition artifacts_of (l : list said) : list str := omap (λ s, match s with Artifact raw => Some raw | Part _ => None end) l.

Definition deref {A} : option A → Conv A := ResponseDecode.deref.

(** A number in a path. *)
Definition index (i : nat) : string := "[" ++ pretty (N.of_nat i) ++ "]".

Section decode.
(** [json.Marshal] of an object and of a block, and what the wire layer makes of a body. *)
Context (marshal : gmap str json → str) (marshal_block : ContentBlock → option str).
Context (decode_messages : str → option Request).

(** [decodeJSONObject] in a conversion. *)
Definition object_of (raw : str) : Conv (gmap str json) :=
  match decodeJSONObject raw with Some m => ret m | None => fail (Errorf "not exactly one JSON object") end.

Definition is_synthetic (b : ContentBlock) : bool :=
  match block_type_of (b_Type b), b_Signature b with
  | Some BThinking, Some s => str_eqb s ResponseDecode.SyntheticThinkingSignature
  | _, _ => false
  end.

Fixpoint block_to_canonical (policy : LossPolicy) (i : nat) (b : ContentBlock) {struct b} : Conv (list said) :=
  at_index "content block" i (lift (ContentBlock_Validate b)) ;;~
  match block_type_of (b_Type b) with
  | Some BText => text <~ deref (b_Text b) ;; ret [Part (CanonicalText text)]
  | Some BImage =>
      match b_Source b with
      | None => fail (ErrAt "content block" i (Errorf "image has no source"))
      | Some s => ret [Part (CanonicalImage (src_MediaType s) (src_URL s) (src_Data s) [])]
      end
  | Some BDocument =>
      match b_Source b with
      | None => fail (ErrAt "content block" i (Errorf "document has no source"))
      | Some s => ret [Part (CanonicalDocument (src_MediaType s) (src_URL s) (src_Data s) [] [])]
      end
  | Some (BToolUse _) =>
      arguments <~ at_index "content block" i (object_of (b_Input b)) ;;
      id <~ deref (b_ID b) ;;
      name <~ deref (b_Name b) ;;
      ret [Part (CanonicalFunctionCall [] id name (marshal arguments))]
  | Some (BToolResult _) =>
      match b_Content b with
      | None => fail NilPanic
      | Some c =>
          l <~ at_index "content block" i
                 match ContentStr c with
                 | Some text => ret [Part (CanonicalText text)]
                 | None => match ContentBlocks c with
                           | Some bs => collect (block_to_canonical policy) 0 bs
                           | None => ret []
                           end
                 end ;;
          id <~ deref (b_ToolUseID b) ;;
          ret (map Artifact (artifacts_of l) ++
               [Part (CanonicalFunctionResult id (default false (b_IsError b)) (parts_of l))])%list
      end
  | Some BThinking | Some BRedactedThinking =>
      if is_synthetic b then ret []
      else match marshal_block b with
           | Some raw => ret [Artifact raw]
           | None => fail (ErrAt "content block" i (Errorf "marshal"))
           end
  | Some BServer =>
      Lose policy "anthropic_server_tools" ("messages[].content" ++ index i)
        "the server-side block cannot be reproduced in a chat request" ;;~
      ret []
  | None => fail (ErrAt "content block" i (Errorf "unknown type"))
  end.

Definition anthropicContentToCanonical (policy : LossPolicy) (c : Content) : Conv (list said) :=
  match ContentStr c with
  | Some text => ret [Part (CanonicalText text)]
  | None => collect (block_to_canonical policy) 0 (blocks c)
  end.

(** ** Hints and citations *)

(** A note taken once: whether it has been taken now. *)
Definition note_once (path detail : string) (noted b : bool) : Conv bool :=
  when (b && negb noted) (Note "anthropic_controls" path detail) ;;~ ret (noted || b).

Definition noteCacheControl : bool → bool → Conv bool :=
  note_once "cache_control" "cache_control performance hints are not forwarded (chat upstreams cache automatically)".

Definition noteDefer : bool → bool → Conv bool :=
  note_once "tools[].defer_loading" "deferred tool loading needs Anthropic server-side tool search; deferred tools are sent eagerly".

(** A fold whose steps may note something. *)
Fixpoint fold_conv {A S} (f : S → A → Conv S) (s : S) (l : list A) : Conv S :=
  match l with
  | [] => ret s
  | x :: l => s <~ f s x ;; fold_conv f s l
  end.

(** The markers of a block and of the blocks in it. *)
Fixpoint block_cache_control (noted : bool) (b : ContentBlock) {struct b} : Conv bool :=
  noted <~ noteCacheControl noted (b_CacheControl b) ;;
  match b_Content b with
  | None => ret noted
  | Some c => match ContentBlocks c with Some bs => fold_conv block_cache_control noted bs | None => ret noted end
  end.

Definition contentBlocksCarryCacheControl (noted : bool) (bs : list ContentBlock) : Conv bool := fold_conv block_cache_control noted bs.

Definition tool_hints (noted : bool * bool) (t : Tool) : Conv (bool * bool) :=
  cache <~ noteCacheControl noted.1 (at_CacheControl t) ;;
  deferred <~ noteDefer noted.2 (default false (at_DeferLoading t)) ;;
  ret (cache, deferred).

Definition note_hints (e : Request) : Conv unit :=
  noted <~ match rq_System e with
           | Some system => fold_conv (λ noted b, noteCacheControl noted (b_CacheControl b)) false (blocks system)
           | None => ret false
           end ;;
  noted <~ fold_conv tool_hints (noted, false) (rq_Tools e) ;;
  _ <~ fold_conv (λ noted m, contentBlocksCarryCacheControl noted (blocks (msg_Content m))) noted.1 (rq_Messages e) ;;
  ret tt.

(** Effects over a numbered list. *)
Definition each {A} (f : nat → A → Conv unit) (l : list A) : Conv unit :=
  _ <~ collect (λ i x, f i x ;;~ ret (@nil unit)) 0 l ;; ret tt.

Fixpoint block_citations (policy : LossPolicy) (path : string) (i : nat) (b : ContentBlock) {struct b} : Conv (list unit) :=
  when (negb (length (b_Citations b) =? 0)%nat)
    (Lose policy "request_citations" (path ++ index i ++ ".citations")
       "request citations on text blocks cannot be reproduced in the target request") ;;~
  match b_Content b with
  | None => ret []
  | Some c => match ContentBlocks c with
              | Some bs => collect (block_citations policy (path ++ index i ++ ".content")) 0 bs
              | None => ret []
              end
  end.

Definition scanCitations (policy : LossPolicy) (path : string) (bs : list ContentBlock) : Conv unit :=
  _ <~ collect (block_citations policy path) 0 bs ;; ret tt.

Definition lose_citations (policy : LossPolicy) (e : Request) : Conv unit :=
  match rq_System e with Some system => scanCitations policy "system" (blocks system) | None => ret tt end ;;~
  each (λ i m, scanCitations policy ("messages" ++ index i ++ ".content") (blocks (msg_Content m))) (rq_Messages e).

(** ** Controls, thinking, tools *)

Definition lose_controls (policy : LossPolicy) (e : Request) : Conv unit :=
  when (bool_decide (is_Some (rq_TopK e))) (Lose policy "top_k" "top_k" "top_k has no portable equivalent in the target protocols") ;;~
  when (rq_ContextManagement e)
    (Lose policy "anthropic_controls" "context_management"
       "context_management is a server-side conversation control the target cannot reproduce") ;;~
  when (rq_OutputConfig e)
    (Lose policy "anthropic_controls" "output_config"
       "the output_config budget duplicates max_tokens, which the target already carries").

Definition decode_thinking (t : option ThinkingConfig) : result terr (option CanonicalThinking) :=
  match t with
  | None => Ok None
  | Some t =>
      if is_lit (tk_Type t) "enabled" then
        if bool_decide (is_Some (tk_Display t)) then Err (Errorf "messages thinking type enabled cannot carry display (it belongs to adaptive)")
        else match tk_BudgetTokens t with
             | None => Err (Errorf "messages thinking type enabled requires budget_tokens")
             | Some budget =>
                 if budget <=? 0 then Err (Errorf "messages thinking budget_tokens must be positive")
                 else Ok (Some {| th_Type := lit "enabled"; th_BudgetTokens := Some budget |})
             end
      else if is_lit (tk_Type t) "disabled" || is_lit (tk_Type t) "adaptive" then
        if bool_decide (is_Some (tk_BudgetTokens t)) then Err (Errorf "messages thinking type cannot carry budget_tokens (it belongs to enabled)")
        else Ok (Some {| th_Type := tk_Type t; th_BudgetTokens := None |})
      else Err (Errorf "messages thinking type is invalid (want enabled, disabled, or adaptive)")
  end.

(** [strMap] *)
Definition strMap (m : gmap str (option str)) : result terr (gmap str str) :=
  if bool_decide (map_Forall (λ _ v, is_Some v) m) then Ok (omap id m) else Err (Errorf "metadata field must be a string").

(** A turn: its canonical value and the artifacts in it. *)
Definition decode_system (policy : LossPolicy) (system : option Content) : Conv (list CanonicalTurn * list str) :=
  match system with
  | None => ret ([], [])
  | Some c =>
      lift (Content_Validate c) ;;~
      l <~ anthropicContentToCanonical policy c ;;
      ret ([{| t_Role := CanonicalSystem; t_Parts := parts_of l |}], artifacts_of l)
  end.

Definition decode_message (policy : LossPolicy) (i : nat) (m : Message) : Conv (list (CanonicalTurn * list str)) :=
  at_index "messages" i
    (lift (Message_Validate m) ;;~
     match role_of (msg_Role m) with
     | None => fail (Errorf "unknown anthropic message role")
     | Some role =>
         l <~ anthropicContentToCanonical policy (msg_Content m) ;;
         let parts := match parts_of l, blocks (msg_Content m) with
                      | [], _ :: _ => [CanonicalText []]
                      | parts, _ => parts
                      end in
         ret [({| t_Role := role; t_Parts := parts |}, artifacts_of l)]
     end).

Definition is_server_tool (t : Tool) : bool := negb (is_empty (at_Type t)) && negb (is_lit (at_Type t) "function").

Definition decode_tool (policy : LossPolicy) (i : nat) (t : Tool) : Conv (list CanonicalTool) :=
  if is_server_tool t then
    Lose policy "anthropic_server_tools" ("tools" ++ index i) "the server-side tool cannot be reproduced in a chat request" ;;~
    ret []
  else
    at_index "messages tools" i (lift (Tool_Validate t) ;;~ _ <~ object_of (at_InputSchema t) ;; ret tt) ;;~
    ret [{| tool_Name := at_Name t; tool_Description := default [] (at_Description t); tool_JSONSchema := at_InputSchema t;
            tool_Strict := None |}].

(** ** Tool choice *)

Definition canonicalizeAnthropicToolChoice (policy : LossPolicy) (choice : AnthropicToolChoice) : Conv CanonicalToolChoice :=
  when (default false (ac_DisableParallelToolUse choice))
    (Lose policy "parallel_tool_calls" "tool_choice.disable_parallel_tool_use"
       "disable_parallel_tool_use is not portable to the target provider") ;;~
  if existsb (is_lit (ac_Type choice)) ["auto"; "none"; "any"] then
    if negb (is_empty (ac_Name choice)) then fail (Errorf "messages tool_choice type must not carry a name")
    else ret {| tc_Mode := lit (if is_lit (ac_Type choice) "none" then "none"
                                else if is_lit (ac_Type choice) "any" then "required" else "auto");
                tc_Name := [] |}
  else if is_lit (ac_Type choice) "tool" then
    if is_empty (ac_Name choice) then fail (Errorf "messages tool_choice type tool requires name")
    else ret {| tc_Mode := lit "named"; tc_Name := ac_Name choice |}
  else fail (UnsupportedFeatureError "messages" "tool_choice.type" (string_of_list_ascii (ac_Type choice))).

Definition reconcileToolChoice (choice : option CanonicalToolChoice) (requestToolCount : nat) (tools : list CanonicalTool)
    : Conv (option CanonicalToolChoice) :=
  match choice with
  | None => ret None
  | Some c =>
      if is_lit (tc_Mode c) "named" then
        if existsb (λ t, str_eqb (tool_Name t) (tc_Name c)) tools then ret (Some c)
        else fail (Errorf "tool_choice names a tool which is not among the tools that survive conversion")
      else if (requestToolCount =? 0)%nat || negb (length tools =? 0)%nat then ret (Some c)
      else if is_lit (tc_Mode c) "required" then fail (Errorf "tool_choice required but no portable tools remain after the tool loss")
      else if is_lit (tc_Mode c) "auto" then
        Note "builtin_tools" "tool_choice" "tool_choice auto dropped with the last tool (no tools remain to choose among)" ;;~
        ret None
      else ret (Some c)
  end.

(** ** The request *)

Definition DecodeMessagesRequest (body : str) (policy : LossPolicy) : Conv DecodeResult :=
  match decode_messages body with
  | None => fail (Errorf "messages request")
  | Some e =>
      (if is_empty (rq_Model e) then fail (Errorf "messages request model is empty") else ret tt) ;;~
      (if rq_MaxTokens e <=? 0 then fail (Errorf "messages request max_tokens must be positive") else ret tt) ;;~
      metadata <~ lift (strMap (rq_Metadata e)) ;;
      lose_controls policy e ;;~
      note_hints e ;;~
      lose_citations policy e ;;~
      thinking <~ lift (decode_thinking (rq_Thinking e)) ;;
      system <~ decode_system policy (rq_System e) ;;
      messages <~ collect (decode_message policy) 0 (rq_Messages e) ;;
      tools <~ collect (decode_tool policy) 0 (rq_Tools e) ;;
      choice <~ match rq_ToolChoice e with
                | None => ret None
                | Some choice =>
                    c <~ canonicalizeAnthropicToolChoice policy choice ;;
                    reconcileToolChoice (Some c) (length (rq_Tools e)) tools
                end ;;
      ret {| d_Request :=
               {| ClientModel := rq_Model e; Turns := system.1 ++ map fst messages; Tools := tools; RetainedTurns := 0;
                  ToolChoice := choice; ParallelTools := None; MaxOutputTokens := Some (rq_MaxTokens e);
                  Temperature := rq_Temperature e; TopP := rq_TopP e; StopSequences := rq_StopSequences e;
                  StructuredOutput := None; Stream := default false (rq_Stream e); Metadata := metadata; Thinking := thinking;
                  Artifacts := {| ResponsesReasoningItems := [];
                                  AnthropicThinkingBlocks := system.2 ++ concat (map snd messages) |} |};
             d_StreamSet := bool_decide (is_Some (rq_Stream e)); d_ToolNames := None |}
  end.
End decode.
