(* ===== verification/MsgRequestLaws.v ===== *)
(** * What a Messages request becomes

    The decoder of [MsgRequest] against the body it reads: the conversation, the tools
    and the controls of the canonical request, what may be missing of them, and what
    the Chat upstream is sent once [ChatRender] has rendered it. *)

From Stdlib Require Import ZArith Lia Bool List Ascii String.
From stdpp Require Import strings gmap list.
From S2P Require Import Prelude GoStd GoStr GoText GoJson Losses Ir MsgRequest.
From S2P Require ChatRender ResponseDecode.

Open Scope string_scope.
Open Scope Z_scope.
Open Scope conv_scope.
Open Scope list_scope.

(** ** Blocks *)

Section block_induction.
Context (P : ContentBlock → Prop).
Context (Hstep : ∀ b, (∀ c bs b', b_Content b = Some c → ContentBlocks c = Some bs → b' ∈ bs → P b') → P b).

Fixpoint block_nested_ind (b : ContentBlock) : P b.
Proof.
  apply Hstep. destruct b as [? ? ? ? ? ? ? ? ? [[s [l|]]|] ? ? ? ? ?]; simpl;
    [|intros c bs b' [= <-]; discriminate|intros c bs b'; discriminate].
  assert (Forall P l) as Hl by (induction l as [|b l IH]; constructor; [apply block_nested_ind|exact IH]).
  intros c bs b' [= <-] [= <-] Hin. by eapply Forall_forall in Hin.
Defined.
End block_induction.

Section spec.
Context (marshal : gmap str json → str).

(** The parts a block says. *)
Fixpoint block_parts (b : ContentBlock) : list CanonicalPart :=
  match block_type_of (b_Type b) with
  | Some BText => [CanonicalText (default [] (b_Text b))]
  | Some BImage => match b_Source b with Some s => [CanonicalImage (src_MediaType s) (src_URL s) (src_Data s) []] | None => [] end
  | Some BDocument => match b_Source b with Some s => [CanonicalDocument (src_MediaType s) (src_URL s) (src_Data s) [] []] | None => [] end
  | Some (BToolUse _) =>
      match decodeJSONObject (b_Input b) with
      | Some o => [CanonicalFunctionCall [] (default [] (b_ID b)) (default [] (b_Name b)) (marshal o)]
      | None => []
      end
  | Some (BToolResult _) =>
      [CanonicalFunctionResult (default [] (b_ToolUseID b)) (default false (b_IsError b))
         match b_Content b with
         | None => []
         | Some c => match ContentStr c, ContentBlocks c with
                     | Some text, _ => [CanonicalText text]
                     | None, Some bs => bs ≫= block_parts
                     | None, None => []
                     end
         end]
  | _ => []
  end.

Definition content_parts (c : Content) : list CanonicalPart :=
  match ContentStr c with Some text => [CanonicalText text] | None => blocks c ≫= block_parts end.

Definition message_parts (m : Message) : list CanonicalPart :=
  match content_parts (msg_Content m), blocks (msg_Content m) with
  | [], _ :: _ => [CanonicalText []]
  | parts, _ => parts
  end.

Definition message_turn (m : Message) : CanonicalTurn :=
  {| t_Role := default CanonicalUser (role_of (msg_Role m)); t_Parts := message_parts m |}.

(** The conversation of a request. *)
Definition said_turns (e : Request) : list CanonicalTurn :=
  match rq_System e with Some c => [{| t_Role := CanonicalSystem; t_Parts := content_parts c |}] | None => [] end ++
  map message_turn (rq_Messages e).
End spec.

(** A block and the blocks of the tool results in it, as the conversion visits them. *)
Fixpoint heard (b : ContentBlock) : list ContentBlock :=
  b :: match block_type_of (b_Type b), b_Content b with
       | Some (BToolResult _), Some c =>
           match ContentStr c, ContentBlocks c with None, Some bs => bs ≫= heard | _, _ => [] end
       | _, _ => []
       end.

Definition heard_content (c : Content) : list ContentBlock := match ContentStr c with Some _ => [] | None => blocks c ≫= heard end.

Definition heard_request (e : Request) : list ContentBlock :=
  match rq_System e with Some c => heard_content c | None => [] end ++ (rq_Messages e ≫= λ m, heard_content (msg_Content m)).

Definition is_server (b : ContentBlock) : Prop := block_type_of (b_Type b) = Some BServer.

(** A thinking block that this proxy did not make. *)
Definition is_foreign (b : ContentBlock) : Prop :=
  (block_type_of (b_Type b) = Some BThinking ∨ block_type_of (b_Type b) = Some BRedactedThinking) ∧ is_synthetic b = false.

#[export] Instance block_type_eq_dec : EqDecision block_type.
Proof. solve_decision. Defined.

#[export] Instance is_foreign_dec b : Decision (is_foreign b).
Proof. unfold is_foreign. apply _. Defined.

(** A block and everything in it. *)
Fixpoint nested (b : ContentBlock) : list ContentBlock :=
  b :: match b_Content b with
       | Some c => match ContentBlocks c with Some bs => bs ≫= nested | None => [] end
       | None => []
       end.

Definition nested_request (e : Request) : list ContentBlock :=
  match rq_System e with Some c => blocks c ≫= nested | None => [] end ++ (rq_Messages e ≫= λ m, blocks (msg_Content m) ≫= nested).

Definition cites (b : ContentBlock) : Prop := b_Citations b ≠ [].

(** An error is the client's: it is no panic and no fault of the upstream. *)
Fixpoint client_error (e : terr) : Prop :=
  match e with
  | UnsupportedFeatureError _ _ _ | Errorf _ => True
  | ErrAt _ _ e => client_error e
  | UnrepresentableError _ _ _ | UpstreamWireError _ | UpstreamSemanticFailureError _ | NilPanic => False
  end.

(** ** The checks *)

Definition res_client {A} (r : result terr A) : Prop := match r with Ok _ => True | Err e => client_error e end.

Lemma client_bind {A B} (r : result terr A) (k : A → result terr B) : res_client r → (∀ a, res_client (k a)) → res_client (result_bind r k).
Proof. by destruct r; simpl. Qed.

Lemma client_first_error {A} what (check : A → result terr unit) l : ∀ i,
  (∀ x, res_client (check x)) → res_client (first_error what check i l).
Proof.
  induction l as [|x l IH]; intros i Hc; simpl; [done|]. specialize (Hc x) as Hx. destruct (check x) as [[]|e]; [by apply IH|exact Hx].
Qed.

Lemma client_have {A} (o : option A) msg : res_client (have o msg).
Proof. by destruct o. Qed.

Ltac client :=
  repeat first [ done | apply client_have | apply client_bind; [|intros ?] | apply client_first_error; intros ? | case_match ].

Lemma checked_block b : res_client (ContentBlock_Validate b).
Proof.
  unfold ContentBlock_Validate, source_valid, tool_use_valid, tool_result_valid, Source_Validate, TextCitation_Validate, valid_range. client.
Qed.

Lemma checked_content c : res_client (Content_Validate c).
Proof. unfold Content_Validate. client; apply checked_block. Qed.

Lemma checked_message m : res_client (Message_Validate m).
Proof. unfold Message_Validate. client; apply checked_content. Qed.

Lemma checked_tool t : res_client (Tool_Validate t).
Proof. unfold Tool_Validate. client. Qed.

Lemma t_client {A} (res : result terr A) : res_client res → triple (lift res) (λ a, res = Ok a) client_error.
Proof. intros H. apply t_lift. by destruct res. Qed.

Lemma t_client_Lose policy f path detail (Q : unit → Prop) :
  (Allowed policy ≠ ∅ → Q tt) → triple (Lose policy f path detail) Q client_error.
Proof. intros HQ. apply t_Lose; [|done]. intros Hf. apply HQ. intros He. rewrite He in Hf. by apply elem_of_empty in Hf. Qed.

Lemma t_client_when policy b f path detail :
  triple (when b (Lose policy f path detail)) (λ _, b = true → Allowed policy ≠ ∅) client_error.
Proof. apply t_when; intros ->; [by apply t_client_Lose|done]. Qed.

(** ** Blocks become parts *)

(** What holds of a block that was converted. *)
Definition block_ok (b : ContentBlock) : Prop :=
  ContentBlock_Validate b = Ok tt ∧ (∀ mcp, block_type_of (b_Type b) = Some (BToolUse mcp) → is_Some (decodeJSONObject (b_Input b))).

Section blocks.
Context (marshal : gmap str json → str) (marshal_block : ContentBlock → option str) (policy : LossPolicy).

(** What the pieces [l] are, of blocks that say [ps]. *)
Record converted (bs : list ContentBlock) (ps : list CanonicalPart) (l : list said) : Prop := {
  cv_parts : parts_of l = ps;
  cv_artifacts : Forall2 (λ raw b, marshal_block b = Some raw) (artifacts_of l) (filter is_foreign bs);
  cv_server : Exists is_server bs → Allowed policy ≠ ∅;
  cv_ok : Forall block_ok bs;
}.

Lemma parts_of_app l k : parts_of (l ++ k) = parts_of l ++ parts_of k.
Proof. apply omap_app. Qed.

Lemma artifacts_of_app l k : artifacts_of (l ++ k) = artifacts_of l ++ artifacts_of k.
Proof. apply omap_app. Qed.

Lemma parts_of_artifacts raws : parts_of (map Artifact raws) = [].
Proof. induction raws; [done|]. exact IHraws. Qed.

Lemma artifacts_of_artifacts raws : artifacts_of (map Artifact raws) = raws.
Proof. induction raws as [|raw raws IH]; [done|]. change (raw :: artifacts_of (map Artifact raws) = raw :: raws). by rewrite IH. Qed.

Lemma converted_nil : converted [] [] [].
Proof. constructor; simpl; try done. by intros ?%Exists_nil. Qed.

Lemma converted_app bs ps l bs' ps' l' : converted bs ps l → converted bs' ps' l' → converted (bs ++ bs') (ps ++ ps') (l ++ l').
Proof.
  intros [Hp Ha Hs Ho] [Hp' Ha' Hs' Ho']. constructor.
  - by rewrite parts_of_app, Hp, Hp'.
  - rewrite artifacts_of_app, filter_app. by apply Forall2_app.
  - intros [?|?]%Exists_app; auto.
  - by apply Forall_app.
Qed.

Lemma converted_collect f bs (parts : ContentBlock → list CanonicalPart) (visits : ContentBlock → list ContentBlock) i :
  (∀ i b, b ∈ bs → triple (f i b) (converted (visits b) (parts b)) client_error) →
  triple (collect f i bs) (converted (bs ≫= visits) (bs ≫= parts)) client_error.
Proof.
  intros Hf. eapply t_weaken; [apply (t_collect _ f (λ b l, converted (visits b) (parts b) l)); exact Hf|].
  intros l (ls & Hls & ->). clear Hf. induction Hls as [|b l' bs' ls' Hb _ IH]; [apply converted_nil|].
  rewrite !bind_cons. by apply converted_app.
Qed.

Lemma converted_result b bs ps l mcp : ContentBlock_Validate b = Ok tt → block_type_of (b_Type b) = Some (BToolResult mcp) →
  converted bs ps l → ∀ id err, converted (b :: bs) [CanonicalFunctionResult id err ps]
    (map Artifact (artifacts_of l) ++ [Part (CanonicalFunctionResult id err (parts_of l))]).
Proof.
  intros Hv Ht [Hp Ha Hs Ho] id err. constructor.
  - by rewrite parts_of_app, parts_of_artifacts, Hp.
  - rewrite artifacts_of_app, artifacts_of_artifacts, app_nil_r, filter_cons, decide_False; [done|].
    unfold is_foreign. rewrite Ht. by intros [[?|?] _].
  - intros [Hsv|Hsv]%Exists_cons; [|auto]. unfold is_server in Hsv. by rewrite Ht in Hsv.
  - constructor; [|done]. split; [done|]. intros m. by rewrite Ht.
Qed.

(** A block with nothing inside: a thinking block that is not ours leaves its artifact. *)
Lemma converted_one b t ps l : block_type_of (b_Type b) = Some t → ContentBlock_Validate b = Ok tt →
  (∀ mcp, t = BToolUse mcp → is_Some (decodeJSONObject (b_Input b))) → (t = BServer → Allowed policy ≠ ∅) → parts_of l = ps →
  (if decide (is_foreign b) then ∃ raw, artifacts_of l = [raw] ∧ marshal_block b = Some raw else artifacts_of l = []) →
  converted [b] ps l.
Proof.
  intros Ht Hv Ho Hs Hp Ha. constructor; [done| | |].
  - rewrite filter_cons. case_decide; [|by rewrite Ha]. destruct Ha as (raw & -> & ?). by repeat constructor.
  - intros [Hsv|[]%Exists_nil]%Exists_cons. unfold is_server in Hsv. rewrite Ht in Hsv. injection Hsv as ->. by apply Hs.
  - constructor; [|constructor]. split; [done|]. intros mcp Hm. rewrite Ht in Hm. injection Hm as ->. by eapply Ho.
Qed.

Definition plain_type (t : block_type) : bool := match t with BThinking | BRedactedThinking | BServer => false | _ => true end.

(** The parts of a plain block. *)
Lemma converted_plain b t ps : block_type_of (b_Type b) = Some t → ContentBlock_Validate b = Ok tt →
  (∀ mcp, t = BToolUse mcp → is_Some (decodeJSONObject (b_Input b))) → plain_type t = true →
  converted [b] ps (map Part ps).
Proof.
  intros Ht Hv Ho Hn. eapply converted_one; try done.
  - by intros ->.
  - induction ps as [|p ps IH]; [done|]. change (p :: parts_of (map Part ps) = p :: ps). by rewrite IH.
  - rewrite decide_False.
    + clear. induction ps as [|p ps IH]; [done|]. exact IH.
    + unfold is_foreign. rewrite Ht. by intros [[[= ->]|[= ->]] _].
Qed.

Lemma t_deref {A} (o : option A) : is_Some o → triple (deref o) (λ a, o = Some a) client_error.
Proof. intros [a ->]. by apply t_ret. Qed.

(** What a check that passed says. *)
Lemma have_some {A} (o : option A) msg B (k : A → result terr B) b : result_bind (have o msg) k = Ok b → ∃ a, o = Some a ∧ k a = Ok b.
Proof. destruct o as [a|]; simpl; [by exists a|done]. Qed.

Lemma nonempty_some (o : option str) : is_empty (default [] o) = false → is_Some o.
Proof. destruct o; [by eexists|done]. Qed.

Lemma thinking_spec b i : block_type_of (b_Type b) = Some BThinking ∨ block_type_of (b_Type b) = Some BRedactedThinking →
  ContentBlock_Validate b = Ok tt →
  triple (if is_synthetic b then ret []
          else match marshal_block b with
               | Some raw => ret [Artifact raw]
               | None => fail (ErrAt "content block" i (Errorf "marshal"))
               end) (converted [b] []) client_error.
Proof.
  intros Ht Hv. destruct (is_synthetic b) eqn:Hs; [|destruct (marshal_block b) as [raw|] eqn:Hm; [|by apply t_fail]]; apply t_ret.
  - destruct Ht as [Ht|Ht]; eapply converted_one; try done; rewrite decide_False; try done; unfold is_foreign; rewrite Hs; by intros [_ ?].
  - destruct Ht as [Ht|Ht]; eapply converted_one; try done; rewrite decide_True by (split; auto); by exists raw.
Qed.

Lemma block_spec b : ∀ i, triple (block_to_canonical marshal marshal_block policy i b) (converted (heard b) (block_parts marshal b)) client_error.
Proof.
  induction b as [b IH] using block_nested_ind. intros i.
  assert (Hv : triple (at_index "content block" i (lift (ContentBlock_Validate b))) (λ _, ContentBlock_Validate b = Ok tt) client_error).
  { apply t_at_index. eapply t_weaken; [apply t_client, checked_block|]. by intros []. }
  destruct b as [ty te th si da tu id na inp co er so ci ca se] eqn:Hb. cbn [block_to_canonical heard block_parts]. rewrite <- Hb in *.
  eapply t_bind; [exact Hv|]. clear Hv. intros [] Hv.
  destruct (block_type_of (b_Type b)) as [t|] eqn:Ht; [|by apply t_fail].
  pose proof Hv as Hd. unfold ContentBlock_Validate in Hd. rewrite Ht in Hd.
  assert (Hplain : ∀ ps, (∀ mcp, t = BToolUse mcp → is_Some (decodeJSONObject (b_Input b))) → plain_type t = true →
    triple (ret (map Part ps)) (converted [b] ps) client_error) by (intros ps Ho Hn; apply t_ret; by eapply converted_plain).
  destruct t as [| | |mcp|mcp| | |].
  - apply have_some in Hd as (text & -> & _). eapply t_bind; [by apply t_deref|]. intros _ [= <-]. by apply (Hplain [_]).
  - apply have_some in Hd as (s & -> & _). by apply (Hplain [_]).
  - apply have_some in Hd as (s & -> & _). by apply (Hplain [_]).
  - unfold tool_use_valid in Hd. destruct (is_empty (default [] (b_ID b))) eqn:Hid; [done|]. destruct (is_empty (default [] (b_Name b))) eqn:Hna; [done|].
    unfold object_of. destruct (decodeJSONObject (b_Input b)) as [o|] eqn:Ho.
    + eapply (t_bind _ _ _ (λ m, m = o)); [apply t_at_index; by apply t_ret|]. intros _ ->. apply nonempty_some in Hid, Hna.
      eapply t_bind; [by apply t_deref|]. intros i' ->. eapply t_bind; [by apply t_deref|]. intros n ->.
      apply (Hplain [_]); [by eexists|done].
    + eapply (t_bind _ _ _ (λ _, False)); [apply t_at_index; by apply t_fail|done].
  - unfold tool_result_valid in Hd. destruct (is_empty (default [] (b_ToolUseID b))) eqn:Hid; [done|]. apply nonempty_some in Hid as [cid Hid].
    apply have_some in Hd as (c & Hc & _). rewrite Hc, Hid. simpl.
    set (bs := match ContentStr c with Some _ => [] | None => match ContentBlocks c with Some bs => bs ≫= heard | None => [] end end).
    match goal with |- triple _ (converted _ [CanonicalFunctionResult _ _ ?ps]) _ => eapply (t_bind _ _ _ (converted bs ps)) end.
    { apply t_at_index. subst bs. destruct (ContentStr c) as [text|] eqn:Hs; [|destruct (ContentBlocks c) as [bs|] eqn:Hbs].
      - apply t_ret. by constructor; [| |intros ?%Exists_nil|].
      - apply converted_collect. intros j b' Hin. by eapply IH.
      - apply t_ret, converted_nil. }
    intros l Hl. eapply (t_bind _ _ _ (λ a, a = cid)); [by apply t_ret|]. intros _ ->. apply t_ret. by eapply converted_result.
  - by apply thinking_spec; [left|].
  - by apply thinking_spec; [right|].
  - eapply (t_bind _ _ _ (λ _, Allowed policy ≠ ∅)); [by apply t_client_Lose|]. intros [] Hne. apply t_ret. eapply converted_one; try done.
    rewrite decide_False; [done|]. unfold is_foreign. rewrite Ht. by intros [[?|?] _].
Qed.

Lemma content_spec c : triple (anthropicContentToCanonical marshal marshal_block policy c) (converted (heard_content c) (content_parts marshal c)) client_error.
Proof.
  unfold anthropicContentToCanonical, heard_content, content_parts. destruct (ContentStr c) as [text|].
  - apply t_ret. by constructor; [| |intros ?%Exists_nil|].
  - apply converted_collect. intros i b _. apply block_spec.
Qed.

(** ** Turns *)

Definition system_blocks (system : option Content) : list ContentBlock := match system with Some c => heard_content c | None => [] end.
Definition system_turns (system : option Content) : list CanonicalTurn :=
  match system with Some c => [{| t_Role := CanonicalSystem; t_Parts := content_parts marshal c |}] | None => [] end.

(** What holds of turns that were converted. *)
Record turned (bs : list ContentBlock) (turns : list CanonicalTurn) (p : list CanonicalTurn * list str) : Prop := {
  tn_turns : p.1 = turns;
  tn_artifacts : Forall2 (λ raw b, marshal_block b = Some raw) p.2 (filter is_foreign bs);
  tn_server : Exists is_server bs → Allowed policy ≠ ∅;
  tn_ok : Forall block_ok bs;
}.

Lemma turned_app bs ts ps bs' ts' ps' : turned bs ts ps → turned bs' ts' ps' → turned (bs ++ bs') (ts ++ ts') (ps.1 ++ ps'.1, ps.2 ++ ps'.2).
Proof.
  intros [Ht Ha Hs Ho] [Ht' Ha' Hs' Ho']. constructor; simpl.
  - by rewrite Ht, Ht'.
  - rewrite filter_app. by apply Forall2_app.
  - intros [?|?]%Exists_app; auto.
  - by apply Forall_app.
Qed.

Lemma system_spec system : triple (decode_system marshal marshal_block policy system) (turned (system_blocks system) (system_turns system)) client_error.
Proof.
  destruct system as [c|]; simpl; [|apply t_ret; by constructor; [| |intros ?%Exists_nil|]].
  apply t_seq; [eapply t_weaken; [apply t_client, checked_content|done]|]. eapply t_bind; [apply content_spec|].
  intros l [Hp Ha Hs Ho]. apply t_ret. constructor; simpl; [by rewrite Hp|done..].
Qed.

Lemma message_spec i m :
  triple (decode_message marshal marshal_block policy i m) (λ l, turned (heard_content (msg_Content m)) [message_turn marshal m] (map fst l, concat (map snd l)))
    client_error.
Proof.
  unfold decode_message. apply t_at_index. eapply t_bind; [apply t_client, checked_message|]. intros [] Hv.
  unfold Message_Validate in Hv. unfold message_turn, message_parts. destruct (role_of (msg_Role m)) as [role|] eqn:Hr; [|done].
  eapply t_bind; [apply content_spec|]. intros l [Hp Ha Hs Ho]. apply t_ret. constructor; simpl; [by rewrite Hp|by rewrite app_nil_r|done..].
Qed.

Lemma messages_spec ms i :
  triple (collect (decode_message marshal marshal_block policy) i ms)
    (λ l, turned (ms ≫= λ m, heard_content (msg_Content m)) (map (message_turn marshal) ms) (map fst l, concat (map snd l))) client_error.
Proof.
  eapply t_weaken; [apply (t_collect _ _ (λ m l, turned (heard_content (msg_Content m)) [message_turn marshal m] (map fst l, concat (map snd l))))|].
  - intros j m _. apply message_spec.
  - intros l (ls & Hls & ->). induction Hls as [|m l' ms' ls' Hm _ IH]; [by constructor; [| |intros ?%Exists_nil|]|].
    rewrite bind_cons. simpl. rewrite !map_app, concat_app. apply (turned_app _ _ _ _ _ _ Hm IH).
Qed.

(** ** Tools *)

Definition client_tool (t : Tool) : CanonicalTool :=
  {| tool_Name := at_Name t; tool_Description := default [] (at_Description t); tool_JSONSchema := at_InputSchema t; tool_Strict := None |}.

Definition client_tools (l : list Tool) : list Tool := filter (λ t, is_server_tool t = false) l.

Definition tool_ok (t : Tool) : Prop := at_Name t ≠ [] ∧ is_Some (decodeJSONObject (at_InputSchema t)).

Lemma tool_spec i t :
  triple (decode_tool policy i t)
    (λ l, l = map client_tool (client_tools [t]) ∧ Forall tool_ok (client_tools [t]) ∧ (is_server_tool t = true → Allowed policy ≠ ∅)) client_error.
Proof.
  unfold decode_tool, client_tools. rewrite filter_cons, filter_nil. destruct (is_server_tool t); simpl.
  - eapply (t_bind _ _ _ (λ _, Allowed policy ≠ ∅)); [by apply t_client_Lose|]. intros [] Hne. by apply t_ret.
  - eapply (t_bind _ _ _ (λ _, tool_ok t)).
    + apply t_at_index. eapply t_bind; [apply t_client, checked_tool|]. intros [] Hv. unfold object_of, tool_ok.
      unfold Tool_Validate in Hv. destruct (is_empty (at_Name t)) eqn:Hn; [done|].
      assert (at_Name t ≠ []) as Hne by (intros Hn'; by rewrite Hn' in Hn).
      destruct (decodeJSONObject (at_InputSchema t)) as [o|]; simpl.
      * eapply t_bind; [apply (t_ret _ _ (λ _, True)); done|]. intros _ _. apply t_ret. split; [done|by eexists].
      * eapply (t_bind _ _ _ (λ _, False)); [by apply t_fail|done].
    + intros [] Hok. apply t_ret. split_and!; [done|by constructor|done].
Qed.

Lemma tools_spec ts i :
  triple (collect (decode_tool policy) i ts)
    (λ l, l = map client_tool (client_tools ts) ∧ Forall tool_ok (client_tools ts) ∧ (Exists (λ t, is_server_tool t = true) ts → Allowed policy ≠ ∅))
    client_error.
Proof.
  eapply t_weaken; [eapply t_collect; intros j t _; apply tool_spec|]. intros l (ls & Hls & ->).
  induction Hls as [|t l' ts' ls' (-> & Ht & Hs) _ (IH & IHt & IHs)]; [split_and!; [done|constructor|by intros ?%Exists_nil]|].
  unfold client_tools in *. simpl. rewrite IH. change (t :: ts') with ([t] ++ ts'). rewrite filter_app, map_app.
  split_and!; [done|by apply Forall_app|]. intros [?|?]%Exists_app; [|auto]. apply Hs. by apply Exists_cons in H as [?|?%Exists_nil].
Qed.
End blocks.

(** ** Hints and citations *)

Lemma t_fold_any {A S} (E : terr → Prop) (f : S → A → Conv S) l : ∀ s,
  (∀ s x, x ∈ l → triple (f s x) (λ _, True) E) → triple (fold_conv f s l) (λ _, True) E.
Proof.
  induction l as [|x l IH]; intros s Hf; simpl; [by apply t_ret|]. eapply t_bind; [apply Hf; by left|].
  intros s' _. apply IH. intros s'' y Hy. apply Hf. by right.
Qed.

Lemma note_once_any path detail noted b : triple (note_once path detail noted b) (λ _, True) client_error.
Proof. unfold note_once. apply t_seq; [apply t_when; intros _; [by apply t_Note|done]|by apply t_ret]. Qed.

Lemma cache_control_any b : ∀ noted, triple (block_cache_control noted b) (λ _, True) client_error.
Proof.
  induction b as [b IH] using block_nested_ind. intros noted.
  destruct b as [ty te th si da tu id na inp co er so ci ca se] eqn:Hb. cbn [block_cache_control]. rewrite <- Hb in *.
  eapply t_bind; [apply note_once_any|]. intros noted' _. destruct (b_Content b) as [c|] eqn:Hc; [|by apply t_ret].
  destruct (ContentBlocks c) as [bs|] eqn:Hbs; [|by apply t_ret]. apply t_fold_any. intros s b' Hin. by eapply IH.
Qed.

Lemma hints_any e : triple (note_hints e) (λ _, True) client_error.
Proof.
  unfold note_hints. eapply t_bind.
  { destruct (rq_System e); [apply t_fold_any; intros; apply note_once_any|by apply (t_ret _ _ (λ _, True))]. }
  intros n1 _. eapply t_bind.
  { apply t_fold_any. intros s t _. unfold tool_hints. eapply t_bind; [apply note_once_any|]. intros c _.
    eapply t_bind; [apply note_once_any|]. intros d _. by apply t_ret. }
  intros n2 _. eapply t_bind; [|intros n3 _; by apply t_ret]. apply t_fold_any. intros s m _. apply t_fold_any. intros; apply cache_control_any.
Qed.

Section citations.
Context (policy : LossPolicy).

(** Citations are lost only if the policy allows losses. *)
Definition cites_allowed (bs : list ContentBlock) : Prop := Exists cites bs → Allowed policy ≠ ∅.

Lemma cites_allowed_app bs bs' : cites_allowed bs → cites_allowed bs' → cites_allowed (bs ++ bs').
Proof. intros H H' [?|?]%Exists_app; auto. Qed.

Lemma cites_allowed_nil : cites_allowed [].
Proof. by intros ?%Exists_nil. Qed.

Lemma cites_collect f bs i : (∀ i b, b ∈ bs → triple (f i b) (λ _, cites_allowed (nested b)) client_error) →
  triple (collect f i bs) (λ (_ : list unit), cites_allowed (bs ≫= nested)) client_error.
Proof.
  intros Hf. eapply t_weaken; [apply (t_collect _ f (λ b _, cites_allowed (nested b))); exact Hf|].
  intros l (ls & Hls & _). clear Hf. induction Hls as [|b l' bs' ls' Hb _ IH]; [apply cites_allowed_nil|].
  rewrite bind_cons. by apply cites_allowed_app.
Qed.

Lemma block_cites b : ∀ path i, triple (block_citations policy path i b) (λ _, cites_allowed (nested b)) client_error.
Proof.
  induction b as [b IH] using block_nested_ind. intros path i.
  destruct b as [ty te th si da tu id na inp co er so ci ca se] eqn:Hb. cbn [block_citations nested]. rewrite <- Hb in *.
  eapply (t_bind _ _ _ (λ _, cites_allowed [b])).
  { eapply t_weaken; [apply t_client_when|]. intros [] Hne [Hc|[]%Exists_nil]%Exists_cons. apply Hne. unfold cites in Hc. by destruct (b_Citations b). }
  intros [] Hown. destruct (b_Content b) as [c|] eqn:Hc; [|by apply t_ret].
  destruct (ContentBlocks c) as [bs|] eqn:Hbs; [|by apply t_ret].
  eapply t_weaken; [apply cites_collect; intros j b' Hin; by eapply IH|]. intros ? Hin. by apply (cites_allowed_app [b]).
Qed.

Lemma scan_cites path bs : triple (scanCitations policy path bs) (λ _, cites_allowed (bs ≫= nested)) client_error.
Proof. unfold scanCitations. eapply t_bind; [apply cites_collect; intros; apply block_cites|]. intros ? H. by apply t_ret. Qed.

Lemma request_cites e : triple (lose_citations policy e) (λ _, cites_allowed (nested_request e)) client_error.
Proof.
  unfold lose_citations, nested_request. eapply (t_bind _ _ _ (λ _, cites_allowed (match rq_System e with Some c => blocks c ≫= nested | None => [] end))).
  { destruct (rq_System e) as [c|]; [apply scan_cites|by apply t_ret, cites_allowed_nil]. }
  intros [] Hs. unfold each. eapply t_bind; [eapply (t_collect _ _ (λ m _, cites_allowed (blocks (msg_Content m) ≫= nested)))|].
  - intros i m _. eapply t_bind; [apply scan_cites|]. intros [] H. by apply t_ret.
  - intros _ (ls & Hls & _). apply t_ret. apply cites_allowed_app; [done|].
    induction Hls as [|m l' ms' ls' Hm _ IH]; [apply cites_allowed_nil|]. rewrite bind_cons. by apply cites_allowed_app.
Qed.

(** ** Tool choice *)

(** What a choice of the client means. *)
Definition choice_meant (c : AnthropicToolChoice) (c' : CanonicalToolChoice) : Prop :=
  (ac_Name c = [] ∧ tc_Name c' = [] ∧
   (ac_Type c, tc_Mode c') ∈ [(lit "auto", lit "auto"); (lit "none", lit "none"); (lit "any", lit "required")]) ∨
  (ac_Type c = lit "tool" ∧ tc_Mode c' = lit "named" ∧ ac_Name c ≠ [] ∧ tc_Name c' = ac_Name c).

Lemma is_lit_spec s t : is_lit s t = true ↔ s = lit t.
Proof. apply str_eqb_eq. Qed.

Lemma choice_spec choice :
  triple (canonicalizeAnthropicToolChoice policy choice)
    (λ c, choice_meant choice c ∧ (ac_DisableParallelToolUse choice = Some true → Allowed policy ≠ ∅)) client_error.
Proof.
  unfold canonicalizeAnthropicToolChoice. eapply t_bind; [apply t_client_when|]. intros [] Hp.
  assert (ac_DisableParallelToolUse choice = Some true → Allowed policy ≠ ∅) as Hdis by (intros Hd; apply Hp; by rewrite Hd). clear Hp.
  destruct (existsb _ _) eqn:He.
  - destruct (is_empty (ac_Name choice)) eqn:Hn; [|by apply t_fail]. simpl. apply is_empty_spec in Hn. apply t_ret. split; [|done].
    left. split_and!; [done|done|]. simpl. apply existsb_exists in He as (t & Hin & Ht).
    pose proof Ht as Heq. apply is_lit_spec in Heq. rewrite Heq.
    destruct Hin as [<-|[<-|[<-|[]]]]; vm_compute; [left|right; left|right; right; left].
  - destruct (is_lit (ac_Type choice) "tool") eqn:Ht; [|by apply t_fail]. apply is_lit_spec in Ht.
    destruct (is_empty (ac_Name choice)) eqn:Hn; [by apply t_fail|]. apply t_ret. split; [|done]. right.
    split_and!; try done. intros Hx. by rewrite Hx in Hn.
Qed.
End citations.

(** A choice whose tool survives the conversion. *)
Definition choice_survives (sent : nat) (tools : list CanonicalTool) (c : CanonicalToolChoice) : Prop :=
  (tc_Mode c = lit "named" → ∃ t, t ∈ tools ∧ tool_Name t = tc_Name c) ∧
  (tc_Mode c = lit "required" → sent = 0%nat ∨ tools ≠ []).

Lemma reconcile_spec c sent tools :
  triple (reconcileToolChoice (Some c) sent tools)
    (λ o, match o with
          | Some c' => c' = c ∧ choice_survives sent tools c
          | None => tc_Mode c = lit "auto" ∧ tools = [] ∧ sent ≠ 0%nat
          end) client_error.
Proof.
  unfold reconcileToolChoice, choice_survives. destruct (is_lit (tc_Mode c) "named") eqn:Hn.
  - apply is_lit_spec in Hn. destruct (existsb _ tools) eqn:He; [|by apply t_fail]. apply t_ret. split; [done|]. rewrite Hn. split; [intros _|done].
    apply existsb_exists in He as (t & Hin & Ht). exists t. split; [by apply list_elem_of_In|by apply str_eqb_eq].
  - assert (tc_Mode c ≠ lit "named") as Hnn by (intros Hx; apply is_lit_spec in Hx; congruence).
    destruct (_ || _) eqn:Hs.
    + apply t_ret. split; [done|]. split; [done|]. intros _. apply orb_prop in Hs as [Hs|Hs]; [left; by apply Nat.eqb_eq|right]. by destruct tools.
    + apply orb_false_elim in Hs as [Hs Ht]. destruct tools; [|done]. apply Nat.eqb_neq in Hs.
      destruct (is_lit (tc_Mode c) "required") eqn:Hr; [by apply t_fail|]. destruct (is_lit (tc_Mode c) "auto") eqn:Ha.
      * apply is_lit_spec in Ha. apply t_seq; [by apply t_Note|by apply t_ret].
      * apply t_ret. split; [done|]. split; [done|]. intros Hx. apply is_lit_spec in Hx. congruence.
Qed.

(** ** The request *)

(** What of a request no Chat upstream can be given. *)
Definition lossy_request (e : Request) : Prop :=
  is_Some (rq_TopK e) ∨ rq_ContextManagement e = true ∨ rq_OutputConfig e = true ∨ Exists cites (nested_request e) ∨
  Exists is_server (heard_request e) ∨ Exists (λ t, is_server_tool t = true) (rq_Tools e) ∨
  (∃ c, rq_ToolChoice e = Some c ∧ ac_DisableParallelToolUse c = Some true).

(** The choice of a request is that of the client, or gone with its tools. *)
Definition choice_decoded (e : Request) (d : CanonicalRequest) : Prop :=
  match rq_ToolChoice e with
  | None => ToolChoice d = None
  | Some c =>
      ∃ c', choice_meant c c' ∧
        match ToolChoice d with
        | Some c'' => c'' = c' ∧ choice_survives (length (rq_Tools e)) (Tools d) c'
        | None => tc_Mode c' = lit "auto" ∧ Tools d = [] ∧ rq_Tools e ≠ []
        end
  end.

(** A thinking control that a client may send. *)
Definition thinking_decoded (t : option ThinkingConfig) (t' : option CanonicalThinking) : Prop :=
  match t, t' with
  | None, None => True
  | Some t, Some t' =>
      th_Type t' = tk_Type t ∧ th_BudgetTokens t' = tk_BudgetTokens t ∧ tk_Type t ∈ [lit "enabled"; lit "disabled"; lit "adaptive"] ∧
      (tk_Type t = lit "enabled" ↔ is_Some (tk_BudgetTokens t)) ∧ (∀ n, tk_BudgetTokens t = Some n → 0 < n)
  | _, _ => False
  end.

(** A display, which belongs to adaptive thinking, is taken with disabled thinking, and
    dropped with either. *)
Lemma display_ignored display type_ : type_ ∈ ["disabled"; "adaptive"] →
  decode_thinking (Some {| tk_Type := lit type_; tk_BudgetTokens := None; tk_Display := display |}) =
  decode_thinking (Some {| tk_Type := lit type_; tk_BudgetTokens := None; tk_Display := None |}).
Proof. by intros [-> | [-> | []%elem_of_nil]%elem_of_cons]%elem_of_cons. Qed.

Section request.
Context (marshal : gmap str json → str) (marshal_block : ContentBlock → option str) (policy : LossPolicy).

Record request_decoded (e : Request) (d : CanonicalRequest) : Prop := {
  qd_turns : Turns d = said_turns marshal e;
  qd_retained : RetainedTurns d = 0%nat;
  qd_blocks : Forall block_ok (heard_request e);
  qd_tools : Tools d = map client_tool (client_tools (rq_Tools e));
  qd_tools_ok : Forall tool_ok (client_tools (rq_Tools e));
  qd_choice : choice_decoded e d;
  qd_artifacts : Forall2 (λ raw b, marshal_block b = Some raw) (AnthropicThinkingBlocks (Artifacts d)) (filter is_foreign (heard_request e));
  qd_model : ClientModel d = rq_Model e ∧ rq_Model e ≠ [];
  qd_max : MaxOutputTokens d = Some (rq_MaxTokens e) ∧ 0 < rq_MaxTokens e;
  qd_sampling : Temperature d = rq_Temperature e ∧ TopP d = rq_TopP e ∧ StopSequences d = rq_StopSequences e;
  qd_metadata : rq_Metadata e = Some <$> Metadata d;
  qd_thinking : thinking_decoded (rq_Thinking e) (Thinking d);
  qd_lossy : lossy_request e → Allowed policy ≠ ∅;
}.

Lemma strMap_spec m : match strMap m with Ok m' => m = Some <$> m' | Err e => client_error e end.
Proof.
  unfold strMap. case_bool_decide as Hm; [|done]. apply map_eq. intros k. rewrite lookup_fmap, lookup_omap.
  destruct (m !! k) as [v|] eqn:Hk; [|done]. destruct (Hm k v Hk) as [s ->]. done.
Qed.

Lemma thinking_spec_of t : match decode_thinking t with Ok t' => thinking_decoded t t' | Err e => client_error e end.
Proof.
  unfold decode_thinking, thinking_decoded. destruct t as [t|]; [|done].
  destruct (is_lit (tk_Type t) "enabled") eqn:He.
  - case_bool_decide; [done|]. destruct (tk_BudgetTokens t) as [n|] eqn:Hb; [|done]. destruct (n <=? 0) eqn:Hn; [done|]. simpl.
    apply is_lit_spec in He. rewrite He. split_and!; [done|done|by left|by split; [eexists|]|]. intros n' [= <-]. bsolve.
  - destruct (_ || _) eqn:Hd; [|done]. case_bool_decide as Hb; [done|]. simpl. rewrite <- eq_None_not_Some in Hb. rewrite Hb.
    assert (tk_Type t ≠ lit "enabled") as Hne by (intros Hx; apply is_lit_spec in Hx; congruence).
    split_and!; [done|done| |by split; [|intros [? ?]]|done].
    apply orb_prop in Hd as [Hd|Hd]; apply is_lit_spec in Hd; rewrite Hd; [right; left|right; right; left].
Qed.

Context (decode_messages : str → option Request).

Lemma choice_decoded_spec e tools :
  triple match rq_ToolChoice e with
         | None => ret None
         | Some choice =>
             c <~ canonicalizeAnthropicToolChoice policy choice ;; reconcileToolChoice (Some c) (length (rq_Tools e)) tools
         end
    (λ choice, ((∃ c, rq_ToolChoice e = Some c ∧ ac_DisableParallelToolUse c = Some true) → Allowed policy ≠ ∅) ∧
       match rq_ToolChoice e with
       | None => choice = None
       | Some c =>
           ∃ c', choice_meant c c' ∧
             match choice with
             | Some c'' => c'' = c' ∧ choice_survives (length (rq_Tools e)) tools c'
             | None => tc_Mode c' = lit "auto" ∧ tools = [] ∧ rq_Tools e ≠ []
             end
       end) client_error.
Proof.
  destruct (rq_ToolChoice e) as [c|]; [|apply t_ret; by split; [intros (? & ? & _)|]].
  eapply t_bind; [apply choice_spec|]. intros c' [Hm Hp]. eapply t_weaken; [apply reconcile_spec|]. intros o Ho. split.
  - intros (c'' & [= <-] & Hd). auto.
  - exists c'. split; [done|]. destruct o as [c''|]; [done|]. destruct Ho as (H1 & H2 & H3). split_and!; [done|done|]. by intros H4; rewrite H4 in H3.
Qed.

Lemma decode_spec body :
  triple (DecodeMessagesRequest marshal marshal_block decode_messages body policy)
    (λ r, ∃ e, decode_messages body = Some e ∧ request_decoded e (d_Request r) ∧ d_StreamSet r = bool_decide (is_Some (rq_Stream e)) ∧
          Stream (d_Request r) = default false (rq_Stream e) ∧ d_ToolNames r = None) client_error.
Proof.
  unfold DecodeMessagesRequest. destruct (decode_messages body) as [e|] eqn:He; [|by apply t_fail].
  eapply (t_bind _ _ _ (λ _, rq_Model e ≠ [])).
  { destruct (is_empty (rq_Model e)) eqn:Hm; [by apply t_fail|apply t_ret]. intros Hx. by rewrite Hx in Hm. }
  intros [] Hmodel. eapply (t_bind _ _ _ (λ _, 0 < rq_MaxTokens e)).
  { destruct (rq_MaxTokens e <=? 0) eqn:Hm; [by apply t_fail|apply t_ret]. bsolve. }
  intros [] Hmax. eapply t_bind; [apply t_lift, strMap_spec|]. intros metadata Hmeta.
  unfold lose_controls. eapply (t_bind _ _ _ (λ _, is_Some (rq_TopK e) ∨ rq_ContextManagement e = true ∨ rq_OutputConfig e = true → Allowed policy ≠ ∅)).
  { eapply t_bind; [apply t_client_when|]. intros [] H1. eapply t_bind; [apply t_client_when|]. intros [] H2.
    eapply t_weaken; [apply t_client_when|]. intros [] H3 [Hk|[Hk|Hk]]; [apply H1; by apply bool_decide_eq_true|auto..]. }
  intros [] Hctl. apply t_seq; [apply hints_any|]. eapply t_bind; [apply request_cites|]. intros [] Hcites.
  eapply t_bind; [apply t_lift, thinking_spec_of|]. intros thinking Hthinking.
  eapply t_bind; [apply system_spec|]. intros system [Hst Hsa Hss Hso].
  eapply t_bind; [apply messages_spec|]. intros messages [Hmt Hma Hms Hmo]. simpl in Hmt, Hma.
  eapply t_bind; [apply tools_spec|]. intros tools (Htools & Htok & Htserver).
  eapply t_bind; [apply (choice_decoded_spec e tools)|]. intros choice [Hdis Hchoice]. apply t_ret. exists e.
  split_and!; try done. simpl. constructor; simpl; try done.
  - by rewrite Hst, Hmt.
  - by apply Forall_app.
  - unfold heard_request. rewrite filter_app. by apply Forall2_app.
  - unfold lossy_request. intros [Hx|[Hx|[Hx|[Hx|[Hx|[Hx|Hx]]]]]]; [auto|auto|auto|auto| |auto|auto].
    unfold heard_request in Hx. apply Exists_app in Hx as [Hx|Hx]; auto.
Qed.
End request.

(** ** The report *)

Section reports.
Context (marshal : gmap str json → str) (marshal_block : ContentBlock → option str) (decode_messages : str → option Request).
Context (policy : LossPolicy).

Lemma lawful_fold {A S} (f : S → A → Conv S) l : ∀ s, (∀ s x, x ∈ l → keeps_lawful policy (f s x)) → keeps_lawful policy (fold_conv f s l).
Proof.
  induction l as [|x l IH]; intros s Hf; simpl; [apply lawful_ret|]. apply lawful_bind; [apply Hf; by left|].
  intros s'. apply IH. intros s'' y Hy. apply Hf. by right.
Qed.

Lemma lawful_collect_in {A B} (f : nat → A → Conv (list B)) l : ∀ i, (∀ i x, x ∈ l → keeps_lawful policy (f i x)) → keeps_lawful policy (collect f i l).
Proof.
  induction l as [|x l IH]; intros i Hf; simpl; [apply lawful_ret|]. apply lawful_bind; [apply Hf; by left|]. intros bs.
  apply lawful_bind; [apply IH; intros j y Hy; apply Hf; by right|]. intros rest. apply lawful_ret.
Qed.

Lemma lawful_deref {A} (o : option A) : keeps_lawful policy (deref o).
Proof. destruct o; [apply lawful_ret|apply lawful_fail]. Qed.
#[local] Hint Resolve lawful_deref : conv.

Lemma lawful_block b : ∀ i, keeps_lawful policy (block_to_canonical marshal marshal_block policy i b).
Proof.
  induction b as [b IH] using block_nested_ind. intros i.
  destruct b as [ty te th si da tu id na inp co er so ci ca se] eqn:Hb. cbn [block_to_canonical]. rewrite <- Hb in *.
  unfold object_of. destruct (b_Content b) as [c|] eqn:Hc; [destruct (ContentBlocks c) as [bs|] eqn:Hbs|]; try by lawful.
  assert (keeps_lawful policy (collect (block_to_canonical marshal marshal_block policy) 0 bs)) as Hin
    by (apply lawful_collect_in; intros j b' Hin; by eapply IH).
  lawful.
Qed.

Lemma lawful_content c : keeps_lawful policy (anthropicContentToCanonical marshal marshal_block policy c).
Proof. unfold anthropicContentToCanonical. lawful. apply lawful_block. Qed.
#[local] Hint Resolve lawful_content : conv.

Lemma lawful_cache b : ∀ noted, keeps_lawful policy (block_cache_control noted b).
Proof.
  induction b as [b IH] using block_nested_ind. intros noted.
  destruct b as [ty te th si da tu id na inp co er so ci ca se] eqn:Hb. cbn [block_cache_control]. rewrite <- Hb in *.
  unfold noteCacheControl, note_once. destruct (b_Content b) as [c|] eqn:Hc; [destruct (ContentBlocks c) as [bs|] eqn:Hbs|]; try by lawful.
  assert (∀ s, keeps_lawful policy (fold_conv block_cache_control s bs)) as Hin
    by (intros s; apply lawful_fold; intros s' b' Hin; by eapply IH).
  lawful.
Qed.

Lemma lawful_hints e : keeps_lawful policy (note_hints e).
Proof.
  unfold note_hints, tool_hints, noteCacheControl, noteDefer, note_once. lawful; apply lawful_fold; intros; lawful.
  apply lawful_fold. intros; apply lawful_cache.
Qed.

Lemma lawful_block_citations b : ∀ path i, keeps_lawful policy (block_citations policy path i b).
Proof.
  induction b as [b IH] using block_nested_ind. intros path i.
  destruct b as [ty te th si da tu id na inp co er so ci ca se] eqn:Hb. cbn [block_citations]. rewrite <- Hb in *.
  destruct (b_Content b) as [c|] eqn:Hc; [destruct (ContentBlocks c) as [bs|] eqn:Hbs|]; try by lawful.
  assert (∀ p, keeps_lawful policy (collect (block_citations policy p) 0 bs)) as Hin
    by (intros p; apply lawful_collect_in; intros j b' Hin; by eapply IH).
  lawful.
Qed.

Lemma lawful_citations e : keeps_lawful policy (lose_citations policy e).
Proof. unfold lose_citations, each, scanCitations. lawful; apply lawful_block_citations. Qed.

Lemma lawful_reconcile c n tools : keeps_lawful policy (reconcileToolChoice c n tools).
Proof. unfold reconcileToolChoice. lawful. Qed.
#[local] Hint Resolve lawful_hints lawful_citations lawful_reconcile : conv.

Lemma lawful_decode_messages body : keeps_lawful policy (DecodeMessagesRequest marshal marshal_block decode_messages body policy).
Proof.
  unfold DecodeMessagesRequest, lose_controls, decode_system, decode_message, decode_tool, canonicalizeAnthropicToolChoice, object_of. lawful.
Qed.
End reports.
