(* ===== verification/RespRequest.v ===== *)
(** * Decoding a Responses request ([wire/openairesponses], [convert_request.go])

    The wire values of a Responses request with their checks, the flattening of
    namespaced tools, and [DecodeResponsesRequest], which turns the values into the
    canonical request and the echo of it.  What the wire layer makes of a body is a
    parameter; a value of a union has at most one arm, and none is [None]; an item's
    type tag is its constructor; the values interpolated in error texts and details
    are not rendered. *)

From Stdlib Require Import ZArith Lia Bool List Ascii String.
From stdpp Require Import strings pretty gmap list.
From S2P Require Import Prelude GoStd GoStr GoText GoJson Losses Ir ResponseDecode.
From S2P Require WireObject Budget MsgRequest.

Open Scope string_scope.
Open Scope Z_scope.
Open Scope conv_scope.

(** ** The wire values *)

(** [wire.Field[bool]]. *)
Definition FieldBool : Type := WireObject.Field bool.

Inductive Tool := {
  rt_Type : str;
  rt_Name : str;
  rt_Description : str;
  rt_Parameters : str;
  rt_Strict : FieldBool;
  rt_Tools : list Tool;
}.

Inductive ToolChoice := ChoiceStr (s : str) | ChoiceNamed (Type_ Name_ : str).

Inductive message_content := MessageText (Text : str) | MessageParts (Parts : list input_content).

Record ReasoningInput := {
  ri_ID : str;
  ri_Status : str;
  ri_Summary : option (list str);
  ri_Content : list str;
  ri_EncryptedContent : str;
}.

Inductive input_item :=
| ResponsesEasyInputMessage (ID Role Phase : str) (Content : option message_content)
| ResponsesPreviousOutputMessage (ID Role Status Phase : str) (Content : option (list output_content))
| ResponsesFunctionCallInput (ID Status CallID Name_ Arguments Namespace_ : str)
| ResponsesFunctionCallOutputInput (ID Status CallID : str) (Output : option FunctionOutput)
| ResponsesReasoningInput (item : ReasoningInput)
| ResponsesItemReferenceInput (ID : str)
| InputItemOther.

Inductive ResponsesInput := InputOfText (Text : str) | InputOfItems (Items : list input_item).

Record TextFormat := { tf_Type : str; tf_Name : str; tf_Description : str; tf_Schema : str; tf_Strict : option bool }.

(** [rr_Text] is the text configuration and, in it, the format; include and the
    client's metadata are whether they have entries. *)
Record Request := {
  rr_Model : str;
  rr_Input : option ResponsesInput;
  rr_Instructions : option str;
  rr_MaxOutputTokens : option Z;
  rr_ParallelToolCalls : option bool;
  rr_PreviousResponseID : option str;
  rr_Store : option bool;
  rr_Temperature : option str;
  rr_TopP : option str;
  rr_Truncation : option str;
  rr_User : option str;
  rr_Metadata : gmap str str;
  rr_Tools : list Tool;
  rr_ToolChoice : option ToolChoice;
  rr_Reasoning : option (option str * option str);
  rr_Text : option (option TextFormat);
  rr_ServiceTier : option str;
  rr_TopLogprobs : option Z;
  rr_Stream : FieldBool;
  rr_Include : bool;
  rr_PromptCacheKey : str;
  rr_ClientMetadata : bool;
}.

(** [ResponsesRequestEcho]; the reasoning is its effort and its summary. *)
Record ResponsesRequestEcho := {
  ec_Instructions : option str;
  ec_Metadata : gmap str str;
  ec_ParallelToolCalls : bool;
  ec_Temperature : str;
  ec_ToolChoice : ToolChoice;
  ec_Tools : list Tool;
  ec_TopP : str;
  ec_MaxOutputTokens : option Z;
  ec_PreviousResponseID : option str;
  ec_Store : option bool;
  ec_Truncation : option str;
  ec_User : option str;
  ec_Reasoning : option (option str * option str);
  ec_Text : option (option TextFormat);
  ec_ServiceTier : option str;
  ec_TopLogprobs : option Z;
}.

(** ** The checks of the wire values *)

Definition is_any (s : str) (l : list string) : bool := existsb (is_lit s) l.

Definition ValidStatus (s : str) : bool := is_any s ["in_progress"; "completed"; "incomplete"].

Definition optional_status (s : str) : bool := is_empty s || ValidStatus s.

Definition check (b : bool) (msg : string) : result terr unit := if b then Ok tt else Err (Errorf msg).

Fixpoint Tool_Validate (t : Tool) : result terr unit :=
  if is_empty (rt_Type t) then Err (Errorf "responses tool requires an explicit non-empty type")
  else if is_lit (rt_Type t) "namespace" then
    check (negb (is_empty (rt_Name t))) "namespace tool name is empty" ;;?
    check (negb (length (rt_Tools t) =? 0)%nat) "namespace tool has no nested tools" ;;?
    check (is_empty (rt_Parameters t)) "namespace tool cannot carry parameters (they belong to function tools)" ;;?
    check (negb (WireObject.Present (rt_Strict t))) "namespace tool cannot carry strict (the strict contract applies to function tools)" ;;?
    first_error "namespace tool" Tool_Validate 0 (rt_Tools t)
  else if is_lit (rt_Type t) "function" then
    check (negb (is_empty (rt_Name t))) "responses tool name is empty" ;;?
    check (length (rt_Tools t) =? 0)%nat "function tool cannot carry nested tools (they belong to namespace tools)" ;;?
    check (WireObject.Present (rt_Strict t) && negb (WireObject.Null (rt_Strict t))) "responses function tool requires an explicit strict value"
  else Ok tt.

Definition ToolChoice_Validate (c : ToolChoice) : result terr unit :=
  match c with
  | ChoiceNamed type_ name =>
      check (is_lit type_ "function") "tool choice type, want function" ;;?
      check (negb (is_empty name)) "named tool choice name is empty"
  | ChoiceStr s => check (is_any s ["none"; "auto"; "required"]) "invalid tool choice"
  end.

Definition exactly_one (l : list str) : bool := (nonempty_count l =? 1)%nat.

Definition input_content_Validate (p : input_content) : result terr unit :=
  match p with
  | InputImage url fileID detail =>
      check (is_empty detail || is_any detail ["auto"; "low"; "high"; "original"]) "invalid input image detail" ;;?
      check (negb (Bool.eqb (is_empty url) (is_empty fileID))) "input image requires exactly one of image_url or file_id"
  | InputFile url data fileID _ detail =>
      check (exactly_one [fileID; data; url]) "input file requires exactly one of file_id, file_data, or file_url" ;;?
      check (is_empty detail || is_any detail ["auto"; "low"; "high"]) "invalid input file detail"
  | _ => Ok tt
  end.

(** [outputPartTypeName]: whether it has a name. *)
Definition is_output_part (p : input_content) : bool :=
  match p with InputOutputText _ | InputOutputRefusal _ => true | _ => false end.

Definition no_output_part (p : input_content) : result terr unit := check (negb (is_output_part p)) "unsupported output part".

Definition message_content_Validate (c : option message_content) : result terr unit :=
  match c with
  | None => Err (Errorf "message content has no selected variant")
  | Some (MessageText _) => Ok tt
  | Some (MessageParts parts) => first_error "message content part" input_content_Validate 0 parts
  end.

Definition FunctionOutput_Validate (o : option FunctionOutput) : result terr unit :=
  match o with
  | None => Err (Errorf "function output has no selected variant")
  | Some (OutputOfText _) => Ok tt
  | Some (OutputOfParts parts) =>
      first_error "output" no_output_part 0 parts ;;? first_error "function output part" input_content_Validate 0 parts
  end.

Definition ReasoningInput_Validate (r : ReasoningInput) : result terr unit :=
  check (negb (is_empty (ri_ID r))) "reasoning item id is empty" ;;?
  check (bool_decide (is_Some (ri_Summary r))) "reasoning summary must be present; use an empty array" ;;?
  check (optional_status (ri_Status r)) "invalid reasoning status".

Definition input_item_Validate (item : input_item) : result terr unit :=
  match item with
  | ResponsesEasyInputMessage _ role phase content =>
      check (is_any role ["user"; "assistant"; "system"; "developer"]) "invalid easy-message role" ;;?
      check (is_empty phase || is_any phase ["commentary"; "final_answer"]) "invalid assistant phase" ;;?
      (if negb (is_lit role "assistant")
       then match content with Some (MessageParts parts) => first_error "input content" no_output_part 0 parts | _ => Ok tt end
       else Ok tt) ;;?
      message_content_Validate content
  | ResponsesPreviousOutputMessage id role status _ content =>
      check (negb (is_empty id)) "previous output message id is empty" ;;?
      check (is_lit role "assistant") "previous output message role" ;;?
      check (optional_status status) "invalid previous output status" ;;?
      check (bool_decide (is_Some content)) "output message content must be present; use an empty array"
  | ResponsesFunctionCallInput _ status callID name arguments _ =>
      check (negb (is_empty callID)) "function call call_id is empty" ;;?
      check (negb (is_empty name)) "function call name is empty" ;;?
      check (optional_status status) "invalid function call status" ;;?
      check (is_empty (TrimSpace arguments) || json_Valid arguments) "function call arguments are not valid JSON"
  | ResponsesFunctionCallOutputInput _ status callID output =>
      check (negb (is_empty callID)) "function call output call_id is empty" ;;?
      check (optional_status status) "invalid function call output status" ;;?
      FunctionOutput_Validate output
  | ResponsesReasoningInput r => ReasoningInput_Validate r
  | ResponsesItemReferenceInput id => check (negb (is_empty id)) "item reference id is empty"
  | InputItemOther => Err (Errorf "responses input item is nil")
  end.

Definition Input_Validate (v : ResponsesInput) : result terr unit :=
  match v with
  | InputOfText _ => Ok tt
  | InputOfItems items => first_error "responses input item" input_item_Validate 0 items
  end.

(** ** Tool names

    A child of a namespace has one name for the upstream; the maps are the exchange's. *)

Definition no_names : ToolNames := {| FlatToRef := ∅; RefToFlat := ∅ |}.

Definition plainToolNames (tools : list Tool) : gset str :=
  list_to_set (omap (λ t, if is_lit (rt_Type t) "function" && negb (is_empty (rt_Name t)) then Some (rt_Name t) else None) tools).

Definition taken (names : ToolNames) (reserved : gset str) (name : str) : bool :=
  bool_decide (is_Some (FlatToRef names !! name)) || bool_decide (name ∈ reserved).

Definition record_name (names : ToolNames) (ref : ToolNameRef) (flat : str) : ToolNames :=
  {| FlatToRef := <[flat := ref]> (FlatToRef names); RefToFlat := <[ref := flat]> (RefToFlat names) |}.

(** [base], [base_2], [base_3] and so on. *)
Definition numbered (base : str) (n : N) : str := (base ++ lit ("_" ++ pretty n))%list.

Fixpoint free_name (fuel : nat) (names : ToolNames) (reserved : gset str) (base : str) (n : N) (qualified : str) : option str :=
  if taken names reserved qualified then
    match fuel with
    | O => None
    | S fuel => free_name fuel names reserved base (n + 1) (numbered base n)
    end
  else Some qualified.

(** There are at most as many names taken as the maps and the plain names have. *)
Definition chooseToolFlatName (names : ToolNames) (reserved : gset str) (namespace child : str) : option (str * ToolNames) :=
  let ref := {| Namespace := namespace; Name := child |} in
  match RefToFlat names !! ref with
  | Some existing => Some (existing, names)
  | None =>
      if negb (taken names reserved child) then Some (child, record_name names ref child)
      else
        let base := (namespace ++ lit "__" ++ child)%list in
        qualified ← free_name (size (FlatToRef names) + size reserved) names reserved base 2 base;
        Some (qualified, record_name names ref qualified)
  end.

(** ** Tools *)

Definition fieldBoolPtr (f : FieldBool) : option bool :=
  if negb (WireObject.Present f) || WireObject.Null f then None else Some (WireObject.Value f).

Definition of_str (s : str) : string := string_of_list_ascii s.

Definition index : nat → string := MsgRequest.index.

(** The functions of a namespace, each with the namespace it was declared under. *)
Fixpoint flattenNamespaceTool (policy : LossPolicy) (tool : Tool) {struct tool} : Conv (list (str * Tool)) :=
  out <~ collect
           (λ i nested,
              if is_lit (rt_Type nested) "namespace" then at_index "namespace" i (flattenNamespaceTool policy nested)
              else if is_lit (rt_Type nested) "function" then ret [(rt_Name tool, nested)]
              else Lose policy "builtin_tools" ("tools[].tools" ++ index i)
                     "the built-in tool nested in a namespace cannot be reproduced in a chat request" ;;~ ret []) 0 (rt_Tools tool) ;;
  Note "builtin_tools" ("tools[namespace=" ++ of_str (rt_Name tool) ++ "]")
    (match out with
     | [] => "namespace tool carried no portable function tools (all nested tools dropped under the builtin_tools approval)"
     | _ => "namespace tool flattened into function tools for the chat request"
     end) ;;~
  ret out.

(** Parameters are the text of an object, if there are any. *)
Definition check_parameters (parameters : str) : Conv unit :=
  if is_empty parameters then ret tt else _ <~ MsgRequest.object_of parameters ;; ret tt.

Definition function_tool (name : str) (t : Tool) : CanonicalTool :=
  {| tool_Name := name; tool_Description := rt_Description t; tool_JSONSchema := rt_Parameters t; tool_Strict := fieldBoolPtr (rt_Strict t) |}.

(** The children of a namespace with their names. *)
Fixpoint name_children (reserved : gset str) (j : nat) (children : list (str * Tool)) (names : ToolNames) : Conv (list CanonicalTool * ToolNames) :=
  match children with
  | [] => ret ([], names)
  | (namespace, nested) :: children =>
      at_index "namespace" j (check_parameters (rt_Parameters nested)) ;;~
      chosen <~ deref (chooseToolFlatName names reserved namespace (rt_Name nested)) ;;
      rest <~ name_children reserved (S j) children chosen.2 ;;
      ret (function_tool chosen.1 nested :: rest.1, rest.2)
  end.

Definition decode_tool (policy : LossPolicy) (reserved : gset str) (i : nat) (tool : Tool) (names : ToolNames)
    : Conv (list CanonicalTool * ToolNames) :=
  if is_lit (rt_Type tool) "namespace" then
    at_index "responses tools" i (flattened <~ flattenNamespaceTool policy tool ;; name_children reserved 0 flattened names)
  else if is_lit (rt_Type tool) "function" then
    at_index "responses tools" i (check_parameters (rt_Parameters tool)) ;;~ ret ([function_tool (rt_Name tool) tool], names)
  else
    Lose policy "builtin_tools" ("tools" ++ index i) "the built-in tool cannot be reproduced in a chat request" ;;~ ret ([], names).

Fixpoint decode_tools (policy : LossPolicy) (reserved : gset str) (i : nat) (tools : list Tool) (names : ToolNames)
    : Conv (list CanonicalTool * ToolNames) :=
  match tools with
  | [] => ret ([], names)
  | tool :: tools =>
      first <~ decode_tool policy reserved i tool names ;;
      rest <~ decode_tools policy reserved (S i) tools first.2 ;;
      ret (first.1 ++ rest.1, rest.2)%list
  end.

Definition canonicalizeResponsesToolChoice (choice : ToolChoice) : Conv CanonicalToolChoice :=
  lift (ToolChoice_Validate choice) ;;~
  match choice with
  | ChoiceNamed _ name => ret {| Ir.tc_Mode := lit "named"; Ir.tc_Name := name |}
  | ChoiceStr s => ret {| Ir.tc_Mode := s; Ir.tc_Name := [] |}
  end.

(** ** Input *)

Definition canonicalRoleFromResponsesInputRole (role : str) : CanonicalRole :=
  if is_lit role "assistant" then CanonicalAssistant
  else if is_lit role "system" then CanonicalSystem
  else if is_lit role "developer" then CanonicalDeveloper
  else CanonicalUser.

Definition loseInputPhase (policy : LossPolicy) (phase : str) (i : nat) : Conv unit :=
  when (negb (is_empty phase))
    (Lose policy "output_phase" ("input" ++ index i ++ ".phase") "the input message phase cannot be reproduced in any target dialect").

Definition last_is (role : CanonicalRole) (turns : list CanonicalTurn) : bool :=
  match last turns with Some t => bool_decide (t_Role t = role) | None => false end.

(** A part at the end of the last turn, or of a new one if the last is not of the role. *)
Definition append_part (role : CanonicalRole) (part : CanonicalPart) (turns : list CanonicalTurn) : list CanonicalTurn :=
  match last turns with
  | Some t =>
      if bool_decide (t_Role t = role)
      then (removelast turns ++ [{| t_Role := t_Role t; t_Parts := t_Parts t ++ [part] |}])%list
      else (turns ++ [{| t_Role := role; t_Parts := [part] |}])%list
  | None => [{| t_Role := role; t_Parts := [part] |}]
  end.

Definition appendFunctionCallTurn : CanonicalPart → list CanonicalTurn → list CanonicalTurn := append_part CanonicalAssistant.
Definition appendFunctionResultTurn : CanonicalPart → list CanonicalTurn → list CanonicalTurn := append_part CanonicalUser.

Definition add_turn (role : CanonicalRole) (parts : list CanonicalPart) (turns : list CanonicalTurn) : list CanonicalTurn :=
  (turns ++ [{| t_Role := role; t_Parts := parts |}])%list.

Section input.
Context `{UnicodeTables}.
Context (marshal : gmap str json → str) (marshal_reasoning : ReasoningInput → option str).
Context (names : ToolNames) (reserved : gset str) (policy : LossPolicy).

Fixpoint content_parts (i : nat) (parts : list input_content) : result terr (list CanonicalPart) :=
  match parts with
  | [] => Ok []
  | p :: parts => match responsesInputContentPartToCanonical p with
                  | Err e => Err (ErrAt "content part" i e)
                  | Ok p => ps <-? content_parts (S i) parts ;; Ok (p :: ps)
                  end
  end.

Definition responsesInputContentToParts (content : option message_content) : result terr (list CanonicalPart) :=
  match content with
  | Some (MessageText text) => Ok [CanonicalText text]
  | Some (MessageParts parts) => content_parts 0 parts
  | None => Ok []
  end.

Definition responsesOutputContentToCanonical (content : option (list output_content)) : Conv (list CanonicalPart) :=
  match content with
  | None => fail (Errorf "output message content must be present; use an empty array")
  | Some parts => collect (λ _, output_part_to_canonical) 0 parts
  end.

(** The name a replayed call has for the upstream. *)
Definition replayed_name (i : nat) (name namespace : str) : Conv str :=
  if is_empty namespace then ret name
  else match flatName (Some names) {| Namespace := namespace; Name := name |} with
       | Some flat => ret flat
       | None =>
           if taken names reserved name then fail (ErrAt "input item" i (Errorf "the name is already used by another declared tool"))
           else Lose policy "namespace_replay_undeclared" ("input" ++ index i ++ ".namespace")
                  "the replayed call references a namespace which this request does not declare for that name" ;;~
                ret name
       end.

Record input_state := { in_turns : list CanonicalTurn; in_noted : bool; in_reasoning : list str }.

Definition with_turns (turns : list CanonicalTurn) (s : input_state) : input_state :=
  {| in_turns := turns; in_noted := in_noted s; in_reasoning := in_reasoning s |}.

Definition noteItemIdentity (id : str) (s : input_state) : Conv input_state :=
  when (negb (is_empty id) && negb (in_noted s))
    (Note "previous_response_id" "input[].id" "input item ids are not forwarded (the target dialect has no item identity)") ;;~
  ret {| in_turns := in_turns s; in_noted := in_noted s || negb (is_empty id); in_reasoning := in_reasoning s |}.

Definition input_item_to_turns (i : nat) (item : input_item) (s : input_state) : Conv input_state :=
  match item with
  | ResponsesEasyInputMessage id role phase content =>
      s <~ noteItemIdentity id s ;;
      loseInputPhase policy phase i ;;~
      parts <~ at_index "input item" i (lift (responsesInputContentToParts content)) ;;
      ret (with_turns (add_turn (canonicalRoleFromResponsesInputRole role) parts (in_turns s)) s)
  | ResponsesPreviousOutputMessage id _ _ phase content =>
      s <~ noteItemIdentity id s ;;
      loseInputPhase policy phase i ;;~
      parts <~ at_index "input item" i (responsesOutputContentToCanonical content) ;;
      ret (with_turns (add_turn CanonicalAssistant parts (in_turns s)) s)
  | ResponsesFunctionCallInput id _ callID name arguments namespace =>
      s <~ noteItemIdentity id s ;;
      arguments <~ at_index "input item" i (MsgRequest.object_of (if is_empty (TrimSpace arguments) then lit "{}" else arguments)) ;;
      flat <~ replayed_name i name namespace ;;
      ret (with_turns (appendFunctionCallTurn (CanonicalFunctionCall [] callID flat (marshal arguments)) (in_turns s)) s)
  | ResponsesFunctionCallOutputInput id _ callID output =>
      s <~ noteItemIdentity id s ;;
      parts <~ at_index "input item" i
                 (match output with Some output => lift (responsesFunctionOutputToCanonical output) | None => ret [] end) ;;
      ret (with_turns (appendFunctionResultTurn (CanonicalFunctionResult callID false parts) (in_turns s)) s)
  | ResponsesReasoningInput r =>
      match marshal_reasoning r with
      | Some raw => ret {| in_turns := in_turns s; in_noted := in_noted s; in_reasoning := in_reasoning s ++ [raw] |}
      | None => fail (ErrAt "input item" i (Errorf "marshal"))
      end
  | ResponsesItemReferenceInput _ =>
      at_index "input item" i
        (Lose policy "previous_response_id" "input[].item_reference" "item references are Responses-specific conversation state") ;;~
      ret s
  | InputItemOther => fail (ErrAt "input item" i (Errorf "unknown item type"))
  end.

Fixpoint input_items_to_turns (i : nat) (items : list input_item) (s : input_state) : Conv input_state :=
  match items with
  | [] => ret s
  | item :: items => s <~ input_item_to_turns i item s ;; input_items_to_turns (S i) items s
  end.

(** The turns, and the reasoning items in them. *)
Definition responsesInputToTurns (input : ResponsesInput) : Conv (list CanonicalTurn * list str) :=
  match input with
  | InputOfText text => ret ([{| t_Role := CanonicalUser; t_Parts := [CanonicalText text] |}], [])
  | InputOfItems items =>
      s <~ input_items_to_turns 0 items {| in_turns := []; in_noted := false; in_reasoning := [] |} ;;
      ret (in_turns s, in_reasoning s)
  end.
End input.

(** ** The request *)

Definition unsupported_fields : list string := ["prompt"; "background"; "max_tool_calls"; "safety_identifier"; "status"].

(** [Some ""] when there is none; [None] when the body is not an object. *)
Definition probeUnsupportedResponsesFields (data : str) : option string :=
  match parse_text data with
  | Some (JObj kvs) => Some (default "" (List.find (λ name, existsb (λ kv, str_eqb kv.1 (lit name)) kvs) unsupported_fields))
  | Some JNull => Some ""
  | _ => None
  end.

Definition defaultToolChoice (choice : option ToolChoice) : ToolChoice := default (ChoiceStr (lit "auto")) choice.

Definition maxEcho : Z := Budget.maxStreamEchoBytes.

Section decode.
Context `{UnicodeTables}.
(** [json.Marshal] of an object, of a reasoning item and of an echo, and what the wire
    layer makes of a body. *)
Context (marshal : gmap str json → str) (marshal_reasoning : ReasoningInput → option str).
Context (marshal_echo : ResponsesRequestEcho → option str) (decode_request : str → result envelope_error Request).

Definition checkEchoSize (echo : ResponsesRequestEcho) : Conv unit :=
  match marshal_echo echo with
  | None => fail (Errorf "responses request echo")
  | Some serialized => if maxEcho <? Z.of_nat (length serialized) then fail (Errorf "errEchoTooLarge") else ret tt
  end.

Definition control_notes (policy : LossPolicy) (r : Request) : Conv unit :=
  when (rr_Include r)
    (Note "responses_controls" "include"
       "the include response-format preference cannot be honored by a chat upstream; the rendered response carries what the source provides") ;;~
  when (rr_ClientMetadata r)
    (Note "responses_controls" "client_metadata" "client_metadata is client telemetry with no upstream semantics; it is not forwarded") ;;~
  when (negb (is_empty (rr_PromptCacheKey r)))
    (Lose policy "responses_controls" "prompt_cache_key" "the prompt cache key cannot be reproduced by a chat upstream").

Definition check_request (r : Request) : result terr unit :=
  first_error "responses tools" Tool_Validate 0 (rr_Tools r) ;;?
  check (negb (is_empty (rr_Model r))) "responses request model is empty" ;;?
  check (match rr_Truncation r with Some t => is_any t ["auto"; "disabled"] | None => true end) "invalid truncation" ;;?
  check (match rr_TopLogprobs r with Some n => 0 <=? n | None => true end) "negative top_logprobs".

Definition structured_output (policy : LossPolicy) (text : option (option TextFormat)) : Conv (option CanonicalStructuredOutput) :=
  match text with
  | Some (Some format) =>
      if is_empty (tf_Type format) || is_lit (tf_Type format) "text" then ret None
      else if is_lit (tf_Type format) "json_schema" then
        if is_empty (tf_Schema format) then fail (Errorf "responses text.format json_schema has no schema")
        else
          _ <~ MsgRequest.object_of (tf_Schema format) ;;
          ret (Some {| so_Name := tf_Name format; so_Description := tf_Description format; so_Schema := tf_Schema format;
                       so_Strict := default false (tf_Strict format) |})
      else if is_lit (tf_Type format) "json_object" then
        Lose policy "structured_output" "text.format.type" "json_object mode cannot be reproduced in every target" ;;~ ret None
      else fail (UnsupportedFeatureError "responses" "text.format.type" (of_str (tf_Type format)))
  | _ => ret None
  end.

Definition decode_choice (r : Request) (tools : list CanonicalTool) : Conv (option CanonicalToolChoice) :=
  match rr_ToolChoice r with
  | None => ret None
  | Some choice =>
      c <~ canonicalizeResponsesToolChoice choice ;;
      MsgRequest.reconcileToolChoice (Some c) (length (rr_Tools r)) tools
  end.

Definition input_turns (policy : LossPolicy) (names : ToolNames) (reserved : gset str) (input : option ResponsesInput)
    : Conv (list CanonicalTurn * list str) :=
  match input with
  | None => ret ([], [])
  | Some input =>
      lift (Input_Validate input) ;;~ responsesInputToTurns marshal marshal_reasoning names reserved policy input
  end.

Definition echo_of (r : Request) : ResponsesRequestEcho :=
  {| ec_Instructions := rr_Instructions r; ec_Metadata := rr_Metadata r; ec_ParallelToolCalls := default true (rr_ParallelToolCalls r);
     ec_Temperature := default (lit "1") (rr_Temperature r); ec_ToolChoice := defaultToolChoice (rr_ToolChoice r);
     ec_Tools := rr_Tools r; ec_TopP := default (lit "1") (rr_TopP r); ec_MaxOutputTokens := rr_MaxOutputTokens r;
     ec_PreviousResponseID := rr_PreviousResponseID r; ec_Store := rr_Store r; ec_Truncation := rr_Truncation r; ec_User := rr_User r;
     ec_Reasoning := rr_Reasoning r; ec_Text := rr_Text r; ec_ServiceTier := rr_ServiceTier r; ec_TopLogprobs := rr_TopLogprobs r |}.

Definition instruction_turns (r : Request) : list CanonicalTurn :=
  match rr_Instructions r with Some text => [{| t_Role := CanonicalSystem; t_Parts := [CanonicalText text] |}] | None => [] end.

(** The maps are given to the exchange only when something is in them. *)
Definition given_names (names : ToolNames) : option ToolNames :=
  if (size (RefToFlat names) =? 0)%nat then None else Some names.

Definition DecodeResponsesRequest (body : str) (policy : LossPolicy) : Conv (MsgRequest.DecodeResult * ResponsesRequestEcho) :=
  match decode_request body with
  | Err (UnsupportedType protocol path type_) => fail (UnsupportedFeatureError protocol path type_)
  | Err Malformed => fail (Errorf "responses request")
  | Ok r =>
      match probeUnsupportedResponsesFields body with
      | None => fail (Errorf "unmarshal")
      | Some name => if negb (String.eqb name "") then fail (UnsupportedFeatureError "responses" name name) else ret tt
      end ;;~
      control_notes policy r ;;~
      lift (check_request r) ;;~
      let reserved := plainToolNames (rr_Tools r) in
      tools <~ decode_tools policy reserved 0 (rr_Tools r) no_names ;;
      choice <~ decode_choice r tools.1 ;;
      format <~ structured_output policy (rr_Text r) ;;
      input <~ input_turns policy tools.2 reserved (rr_Input r) ;;
      checkEchoSize (echo_of r) ;;~
      ret ({| MsgRequest.d_Request :=
                {| ClientModel := rr_Model r; Turns := instruction_turns r ++ input.1; Tools := tools.1; RetainedTurns := 0;
                   Ir.ToolChoice := choice; ParallelTools := rr_ParallelToolCalls r; MaxOutputTokens := rr_MaxOutputTokens r;
                   Temperature := rr_Temperature r; TopP := rr_TopP r; StopSequences := []; StructuredOutput := format;
                   Stream := WireObject.Value (rr_Stream r); Metadata := rr_Metadata r; Thinking := None;
                   Artifacts := {| ResponsesReasoningItems := input.2; AnthropicThinkingBlocks := [] |} |};
              MsgRequest.d_StreamSet := WireObject.Present (rr_Stream r) && negb (WireObject.Null (rr_Stream r));
              MsgRequest.d_ToolNames := given_names tools.2 |}, echo_of r)
  end.
End decode.
