(* ===== verification/ToolNamesLaws.v ===== *)
(** * The names of namespaced tools

    The maps of [RespRequest] between the names the upstream is taught and the tools the
    client declared are inverse to each other and disjoint from the plain names, a free
    name is always found, and a call comes back under the declaration it was made for. *)

From Stdlib Require Import ZArith Lia Bool List Ascii String.
From stdpp Require Import strings pretty gmap list.
From S2P Require Import Prelude GoStd GoStr GoText GoJson Losses Ir ResponseDecode RespRequest.
From S2P Require MsgRequest MsgRequestLaws WireObject.

Open Scope string_scope.
Open Scope Z_scope.
Open Scope conv_scope.
Open Scope list_scope.

(** ** Free names *)

Section free.
Context (names : ToolNames) (reserved : gset str).

(** The names that are taken. *)
Definition owned : gset str := dom (FlatToRef names) ∪ reserved.

Lemma taken_spec name : taken names reserved name = true ↔ name ∈ owned.
Proof.
  unfold taken, owned. rewrite elem_of_union, elem_of_dom. split.
  - intros [H|H]%orb_prop; apply bool_decide_eq_true in H; auto.
  - intros [H|H]; apply orb_true_intro; [left|right]; by apply bool_decide_eq_true.
Qed.

Lemma owned_size : (size owned <= size (FlatToRef names) + size reserved)%nat.
Proof. unfold owned. pose proof (size_union_alt (dom (FlatToRef names)) reserved) as H. rewrite H, size_dom. 
  pose proof (subseteq_size (reserved ∖ dom (FlatToRef names)) reserved ltac:(by apply subseteq_difference_l)). lia. Qed.

Lemma numbered_inj base n m : numbered base n = numbered base m → n = m.
Proof.
  unfold numbered. intros H%app_inv_head. unfold lit in H. apply (f_equal string_of_list_ascii) in H.
  rewrite !string_of_list_ascii_of_string in H. by apply (inj (String.append "_")), (inj pretty) in H.
Qed.

Lemma numbered_base base n : numbered base n ≠ base.
Proof.
  unfold numbered. intros H%(f_equal length). rewrite length_app in H. unfold lit in H. simpl in H. lia.
Qed.

(** The candidates after the [k]-th. *)
Fixpoint candidates (base : str) (n : N) (k : nat) : list str :=
  match k with O => [] | S k => numbered base n :: candidates base (n + 1) k end.

Lemma candidates_elem base k : ∀ n c, c ∈ candidates base n k → ∃ m, (n <= m)%N ∧ c = numbered base m.
Proof.
  induction k as [|k IH]; intros n c; simpl; [by intros ?%elem_of_nil|]. intros [->|Hin]%elem_of_cons; [by exists n|].
  apply IH in Hin as (m & ? & ->). exists m. split; [lia|done].
Qed.

Lemma candidates_NoDup base k : ∀ n, NoDup (candidates base n k).
Proof.
  induction k as [|k IH]; intros n; simpl; constructor; [|apply IH].
  intros (m & Hm & H%numbered_inj)%candidates_elem. lia.
Qed.

Lemma candidates_length base k : ∀ n, length (candidates base n k) = k.
Proof. induction k as [|k IH]; intros n; simpl; [done|]. by rewrite IH. Qed.

(** A search that fails has found every candidate taken. *)
Lemma free_name_none fuel base : ∀ n q, free_name fuel names reserved base n q = None →
  Forall (λ c, c ∈ owned) (q :: candidates base n fuel).
Proof.
  induction fuel as [|fuel IH]; intros n q; simpl; destruct (taken names reserved q) eqn:Ht; try done; apply taken_spec in Ht.
  - intros _. by repeat constructor.
  - intros H. constructor; [done|]. by apply IH.
Qed.

Lemma free_name_found base : ∃ q, free_name (size (FlatToRef names) + size reserved) names reserved base 2 base = Some q.
Proof.
  destruct (free_name _ _ _ _ _ _) as [q|] eqn:Hf; [by exists q|]. exfalso. apply free_name_none in Hf.
  set (k := (size (FlatToRef names) + size reserved)%nat) in *.
  assert (NoDup (base :: candidates base 2 k)) as Hnd.
  { constructor; [|apply candidates_NoDup]. intros (m & _ & H)%candidates_elem. by apply (numbered_base base m). }
  assert ((list_to_set (base :: candidates base 2 k) : gset str) ⊆ owned) as Hsub.
  { intros x Hx%elem_of_list_to_set. by eapply Forall_forall in Hf. }
  apply subseteq_size in Hsub. rewrite size_list_to_set in Hsub by done. simpl in Hsub. rewrite candidates_length in Hsub.
  pose proof owned_size. lia.
Qed.

Lemma free_name_free fuel base : ∀ n q q', free_name fuel names reserved base n q = Some q' → q' ∉ owned.
Proof.
  induction fuel as [|fuel IH]; intros n q q'; simpl; destruct (taken names reserved q) eqn:Ht; try done; try apply IH;
    intros [= <-] Hin; apply taken_spec in Hin; congruence.
Qed.
End free.

(** ** The maps *)

(** The maps are inverse to each other, and no name in them is a plain one. *)
Record names_ok (reserved : gset str) (names : ToolNames) : Prop := {
  no_inverse : ∀ flat ref, FlatToRef names !! flat = Some ref ↔ RefToFlat names !! ref = Some flat;
  no_plain : ∀ flat ref, FlatToRef names !! flat = Some ref → flat ∉ reserved;
  no_spaced : ∀ flat ref, FlatToRef names !! flat = Some ref → Namespace ref ≠ [];
}.

(** Nothing that was named is named otherwise. *)
Definition extends (names names' : ToolNames) : Prop := FlatToRef names ⊆ FlatToRef names'.

#[export] Instance extends_preorder : PreOrder extends.
Proof. split; [intros x; unfold extends; done|intros x y z; unfold extends; by transitivity (FlatToRef y)]. Qed.

Lemma no_names_ok reserved : names_ok reserved no_names.
Proof. constructor; simpl; intros flat ref; by rewrite ?lookup_empty. Qed.

Lemma record_name_ok reserved names ref flat : names_ok reserved names → Namespace ref ≠ [] →
  flat ∉ owned names reserved → RefToFlat names !! ref = None → names_ok reserved (record_name names ref flat) ∧ extends names (record_name names ref flat).
Proof.
  intros [Hi Hp Hs] Hns Hf Hr. unfold owned in Hf. apply not_elem_of_union in Hf as [Hf Hres]. apply not_elem_of_dom in Hf.
  split; [constructor; simpl|by apply insert_subseteq].
  - intros f r. destruct (decide (f = flat)) as [->|Hne], (decide (r = ref)) as [->|Hnr];
      rewrite ?lookup_insert_eq, ?lookup_insert_ne by done.
    + done.
    + split; [by intros [= ->]|]. intros H. apply Hi in H. congruence.
    + split; [|by intros [= ->]]. intros H. apply Hi in H. congruence.
    + apply Hi.
  - intros f r [[<- _]|[_ H]]%lookup_insert_Some; [done|by eapply Hp].
  - intros f r [[_ <-]|[_ H]]%lookup_insert_Some; [done|by eapply Hs].
Qed.

Lemma choose_ok reserved names namespace child : names_ok reserved names → namespace ≠ [] →
  ∃ flat names', chooseToolFlatName names reserved namespace child = Some (flat, names') ∧ names_ok reserved names' ∧ extends names names' ∧
    FlatToRef names' !! flat = Some {| Namespace := namespace; Name := child |}.
Proof.
  intros Hok Hns. unfold chooseToolFlatName. cbv zeta. set (base := namespace ++ lit "__" ++ child). set (ref := {| Namespace := namespace; Name := child |}).
  destruct (RefToFlat names !! ref) as [flat|] eqn:Hr.
  { exists flat, names. split_and!; [done|done|done|]. by apply Hok. }
  destruct (taken names reserved child) eqn:Ht; simpl.
  - destruct (free_name_found names reserved base) as [q Hq]. rewrite Hq. simpl.
    apply free_name_free in Hq. destruct (record_name_ok reserved names ref q Hok Hns Hq Hr) as [? ?].
    exists q, (record_name names ref q). split_and!; [done|done|done|]. by apply lookup_insert_eq.
  - assert (child ∉ owned names reserved) as Hf by (intros H; apply taken_spec in H; congruence).
    destruct (record_name_ok reserved names ref child Hok Hns Hf Hr) as [? ?].
    exists child, (record_name names ref child). split_and!; [done|done|done|]. by apply lookup_insert_eq.
Qed.

Lemma given_names_call names reserved flat : names_ok reserved names → clientCallName (given_names names) flat = clientCallName (Some names) flat.
Proof.
  intros Hok. unfold given_names. destruct (Nat.eqb_spec (size (RefToFlat names)) 0) as [Hz|]; [|done]. simpl.
  destruct (FlatToRef names !! flat) as [ref|] eqn:Hf; [|done]. apply Hok in Hf. apply map_size_empty_inv in Hz. rewrite Hz in Hf. done.
Qed.

(** ** Declared tools *)

Section tool_induction.
Context (P : Tool → Prop) (Hstep : ∀ t, Forall P (rt_Tools t) → P t).

Fixpoint tool_nested_ind (t : Tool) : P t.
Proof.
  apply Hstep. destruct t as [ty na de pa st l]. simpl. induction l as [|t l IH]; constructor; [apply tool_nested_ind|exact IH].
Defined.
End tool_induction.

Definition is_namespace (t : Tool) : bool := is_lit (rt_Type t) "namespace".
Definition is_function (t : Tool) : bool := is_lit (rt_Type t) "function".

(** The functions in a namespace, with the namespace of each. *)
Fixpoint children (tool : Tool) : list (str * Tool) :=
  rt_Tools tool ≫= λ nested,
    if is_namespace nested then children nested else if is_function nested then [(rt_Name tool, nested)] else [].

(** The functions a tool declares; a plain one has no namespace. *)
Definition declared (tool : Tool) : list (str * Tool) :=
  if is_namespace tool then children tool else if is_function tool then [([], tool)] else [].

(** A tool that is no function, or has one in it. *)
Fixpoint has_builtin (tool : Tool) : bool :=
  if is_namespace tool then existsb has_builtin (rt_Tools tool) else negb (is_function tool).

Definition is_lit_spec := MsgRequestLaws.is_lit_spec.

Lemma check_ok b msg : check b msg = Ok tt ↔ b = true.
Proof. unfold check. by destruct b. Qed.

Lemma seq_ok (r k : result terr unit) : (r ;;? k) = Ok tt ↔ r = Ok tt ∧ k = Ok tt.
Proof. destruct r as [[]|e]; simpl; [|by split; [|intros [? _]]]. tauto. Qed.

(** The checks of a namespace. *)
Lemma namespace_valid t : Tool_Validate t = Ok tt → is_namespace t = true → rt_Name t ≠ [] ∧ Forall (λ n, Tool_Validate n = Ok tt) (rt_Tools t).
Proof.
  unfold is_namespace. intros Hv Hn. destruct t as [ty na de pa st l]. cbn [Tool_Validate rt_Type rt_Name rt_Tools rt_Parameters rt_Strict] in *.
  rewrite Hn in Hv. destruct (is_empty ty); [done|]. rewrite !seq_ok, !check_ok in Hv. destruct Hv as (H1 & _ & _ & _ & H5).
  split; [by intros ->|]. by apply first_error_ok in H5.
Qed.

Lemma children_spaced t : Tool_Validate t = Ok tt → is_namespace t = true → Forall (λ d, d.1 ≠ []) (children t).
Proof.
  induction t as [t IH] using tool_nested_ind. intros Hv Hn. destruct (namespace_valid t Hv Hn) as [Hna Hvs].
  assert (Hc : children t = rt_Tools t ≫= λ nested,
    if is_namespace nested then children nested else if is_function nested then [(rt_Name t, nested)] else []) by (by destruct t).
  rewrite Hc. clear Hc Hv. induction Hvs as [|n l Hnv _ IHl]; [constructor|]. rewrite bind_cons. inversion_clear IH as [|? ? Hn' Hl'].
  apply Forall_app. split; [|by apply IHl]. destruct (is_namespace n); [by apply Hn'|]. destruct (is_function n); by repeat constructor.
Qed.

Section names.
Context (policy : LossPolicy) (reserved : gset str).

Abbreviation client := MsgRequestLaws.client_error.

Lemma flatten_spec t : triple (flattenNamespaceTool policy t)
  (λ out, out = children t ∧ (is_namespace t = true → has_builtin t = true → Allowed policy ≠ ∅)) client.
Proof.
  induction t as [t IH] using tool_nested_ind.
  destruct t as [ty na de pa st l] eqn:Ht. cbn [flattenNamespaceTool children has_builtin]. rewrite <- Ht in *.
  set (g := λ nested, if is_namespace nested then children nested else if is_function nested then [(rt_Name t, nested)] else []).
  eapply (t_bind _ _ _ (λ out, out = rt_Tools t ≫= g ∧ (existsb has_builtin (rt_Tools t) = true → Allowed policy ≠ ∅))).
  - eapply t_weaken; [apply (t_collect _ _ (λ n out, out = g n ∧ (has_builtin n = true → Allowed policy ≠ ∅)))|].
    + intros i n Hin. rewrite Forall_forall in IH. specialize (IH n Hin). subst g. unfold is_namespace, is_function in *. simpl.
      destruct (is_lit (rt_Type n) "namespace") eqn:Hns.
      * apply t_at_index. eapply t_weaken; [exact IH|]. intros out [-> H]. split; [done|]. auto.
      * assert (has_builtin n = negb (is_lit (rt_Type n) "function")) as Hb by (unfold is_namespace in *; destruct n; simpl in *; unfold is_namespace, is_function; simpl; by rewrite Hns).
        rewrite Hb. destruct (is_lit (rt_Type n) "function"); [by apply t_ret|].
        eapply (t_bind _ _ _ (λ _, Allowed policy ≠ ∅)); [by apply MsgRequestLaws.t_client_Lose|]. intros [] H. by apply t_ret.
    + intros out (outs & Ho & ->). clear IH. induction Ho as [|n o l' outs' [-> Hn] _ IHo]; [by split|]. simpl.
      split; [by rewrite (proj1 IHo)|]. intros [H|H]%orb_prop; [auto|]. by apply IHo.
  - intros out [-> Hb]. apply t_seq; [by apply t_Note|]. apply t_ret. split; [done|]. intros Hns. by rewrite Hns.
Qed.

(** What a canonical tool is of a declaration, under the names [names]. *)
Definition named (names : ToolNames) (d : str * Tool) (ct : CanonicalTool) : Prop :=
  ct = function_tool (tool_Name ct) d.2 ∧
  (d.1 = [] → tool_Name ct = rt_Name d.2 ∧ tool_Name ct ∈ reserved) ∧
  (d.1 ≠ [] → FlatToRef names !! tool_Name ct = Some {| Namespace := d.1; Name := rt_Name d.2 |}).

Lemma named_extends names names' ds cts : extends names names' → Forall2 (named names) ds cts → Forall2 (named names') ds cts.
Proof.
  intros He Hall. eapply Forall2_impl; [exact Hall|]. intros d ct (H1 & H2 & H3). split_and!; [done|done|]. intros Hd. by eapply lookup_weaken, He; auto.
Qed.

Lemma parameters_client parameters : triple (check_parameters parameters) (λ _, True) client.
Proof.
  unfold check_parameters, MsgRequest.object_of. destruct (is_empty parameters); [by apply t_ret|].
  eapply t_bind; [|intros m _; by apply t_ret]. destruct (decodeJSONObject parameters); [by apply (t_ret _ _ (λ _, True))|by apply t_fail].
Qed.

Definition named_tools (names : ToolNames) (ds : list (str * Tool)) (r : list CanonicalTool * ToolNames) : Prop :=
  names_ok reserved r.2 ∧ extends names r.2 ∧ Forall2 (named r.2) ds r.1.

Lemma children_named ds : ∀ j names, names_ok reserved names → Forall (λ d, d.1 ≠ []) ds →
  triple (name_children reserved j ds names) (named_tools names ds) client.
Proof.
  induction ds as [|[ns t] ds IH]; intros j names Hok Hns; simpl; [by apply t_ret; split_and!|].
  inversion_clear Hns as [|? ? Hn Hns']. simpl in Hn. apply t_seq; [apply t_at_index, parameters_client|].
  destruct (choose_ok reserved names ns (rt_Name t) Hok Hn) as (flat & names' & Hc & Hok' & He & Hf). rewrite Hc.
  eapply (t_bind _ _ _ (λ c, c = (flat, names'))); [by apply t_ret|]. intros _ ->.
  eapply t_bind; [by apply IH|]. intros [cts names''] (Hok'' & He' & Hall). apply t_ret. split_and!; [done|by etransitivity|].
  constructor; [|done]. simpl in *. split_and!; [done|done|]. intros _. by eapply lookup_weaken, He'.
Qed.

Lemma tool_named i t names : names_ok reserved names → Tool_Validate t = Ok tt → (is_function t = true → rt_Name t ∈ reserved) →
  triple (decode_tool policy reserved i t names) (λ r, named_tools names (declared t) r ∧ (has_builtin t = true → Allowed policy ≠ ∅)) client.
Proof.
  intros Hok Hv Hres. unfold decode_tool, declared.
  assert (is_namespace t = false → has_builtin t = negb (is_function t)) as Hb by (intros Hn; destruct t; simpl; by rewrite Hn).
  unfold is_namespace, is_function in *. destruct (is_lit (rt_Type t) "namespace") eqn:Hns.
  - apply t_at_index. eapply t_bind; [apply flatten_spec|]. intros ds [-> Hbl].
    eapply t_weaken; [by apply children_named, children_spaced|]. intros r H. split; [done|]. auto.
  - rewrite Hb by done. destruct (is_lit (rt_Type t) "function") eqn:Hf.
    + apply t_seq; [apply t_at_index, parameters_client|]. apply t_ret. split; [|done]. split_and!; [done|done|]. simpl.
      constructor; [|constructor]. split_and!; [done| |done]. intros _. split; [done|]. by apply Hres.
    + eapply (t_bind _ _ _ (λ _, Allowed policy ≠ ∅)); [by apply MsgRequestLaws.t_client_Lose|]. intros [] H. by apply t_ret.
Qed.

Lemma tools_named ts : ∀ i names, names_ok reserved names → Forall (λ t, Tool_Validate t = Ok tt) ts →
  Forall (λ t, is_function t = true → rt_Name t ∈ reserved) ts →
  triple (decode_tools policy reserved i ts names)
    (λ r, named_tools names (ts ≫= declared) r ∧ (Exists (λ t, has_builtin t = true) ts → Allowed policy ≠ ∅)) client.
Proof.
  induction ts as [|t ts IH]; intros i names Hok Hv Hres; simpl; [apply t_ret; split; [by split_and!|by intros ?%Exists_nil]|].
  inversion_clear Hv as [|? ? Hvt Hvts]. inversion_clear Hres as [|? ? Hrt Hrts].
  eapply t_bind; [by apply tool_named|]. intros [cts names'] [(Hok' & He & Hall) Hb]. simpl in *.
  eapply t_bind; [by apply IH|]. intros [cts' names''] [(Hok'' & He' & Hall') Hb']. apply t_ret. simpl in *. split.
  - split_and!; [done|by etransitivity|]. apply Forall2_app; [by eapply named_extends|done].
  - intros [?|?]%Exists_cons; auto.
Qed.

(** A call of a named tool comes back under its declaration. *)
Lemma named_call names d ct : names_ok reserved names → named names d ct → clientCallName (given_names names) (tool_Name ct) = (rt_Name d.2, d.1).
Proof.
  intros Hok (_ & Hp & Hn). rewrite (given_names_call names reserved) by done. simpl. destruct (decide (d.1 = [])) as [Hd|Hd].
  - destruct (Hp Hd) as [-> Hr]. destruct (FlatToRef names !! rt_Name d.2) as [ref|] eqn:Hf; [|by rewrite Hd].
    by destruct (no_plain _ _ Hok _ _ Hf).
  - by rewrite (Hn Hd).
Qed.
End names.

Lemma plain_reserved tools : Forall (λ t, Tool_Validate t = Ok tt) tools → Forall (λ t, is_function t = true → rt_Name t ∈ plainToolNames tools) tools.
Proof.
  intros Hv. rewrite Forall_forall in *. intros t Hin Hf. specialize (Hv t Hin). unfold plainToolNames. apply elem_of_list_to_set, list_elem_of_omap.
  exists t. split; [done|]. unfold is_function in Hf. rewrite Hf. simpl.
  destruct (is_empty (rt_Name t)) eqn:Hn; [|done]. exfalso. destruct t as [ty na de pa st l]. simpl in *.
  destruct (is_empty ty); [done|]. apply is_lit_spec in Hf. subst ty. simpl in Hv. by rewrite Hn in Hv.
Qed.
