(* ===== verification/RespRequestLaws.v ===== *)
(** * What a Responses request becomes

    The decoder of [RespRequest] against the body it reads: the conversation said by its
    input item by item, its tools under the names of [ToolNamesLaws], and its controls. *)

From Stdlib Require Import ZArith Lia Bool List Ascii String.
From stdpp Require Import strings pretty gmap list.
From S2P Require Import Prelude GoStd GoStr GoText GoJson Losses Ir ResponseDecode RespRequest ToolNamesLaws.
From S2P Require MsgRequest MsgRequestLaws ResponseMessages WireObject.

Open Scope string_scope.
Open Scope Z_scope.
Open Scope conv_scope.
Open Scope list_scope.

Abbreviation client := MsgRequestLaws.client_error.

(** ** The checks *)

Abbreviation res_client := MsgRequestLaws.res_client.

Ltac checked :=
  repeat first
    [ done | apply MsgRequestLaws.client_bind; [|intros ?] | apply MsgRequestLaws.client_first_error; intros ? | case_match ].

Lemma checked_check b msg : res_client (check b msg).
Proof. by destruct b. Qed.

Lemma checked_input_content p : res_client (input_content_Validate p).
Proof. destruct p; simpl; unfold check; checked. Qed.

Lemma checked_item item : res_client (input_item_Validate item).
Proof.
  destruct item; simpl; unfold message_content_Validate, FunctionOutput_Validate, ReasoningInput_Validate, no_output_part, check; checked;
    apply checked_input_content.
Qed.

Lemma checked_input v : res_client (Input_Validate v).
Proof. destruct v; simpl; [done|]. apply MsgRequestLaws.client_first_error, checked_item. Qed.

Lemma checked_declaration t : res_client (Tool_Validate t).
Proof.
  induction t as [t IH] using tool_nested_ind. destruct t as [ty na de pa st l]. cbn [Tool_Validate rt_Type rt_Name rt_Tools rt_Parameters rt_Strict] in *.
  unfold check. assert (∀ i, res_client (first_error "namespace tool" Tool_Validate i l)) as Hl.
  { induction IH as [|t l Ht _ IHl]; intros i; simpl; [done|]. destruct (Tool_Validate t) as [[]|e]; [apply IHl|exact Ht]. }
  checked; apply Hl.
Qed.

Lemma checked_request r : res_client (check_request r).
Proof. unfold check_request, check. checked. apply checked_declaration. Qed.

(** ** Turns as what each role says *)

Definition roles_parts (turns : list CanonicalTurn) : list (CanonicalRole * CanonicalPart) := turns ≫= λ t, map (pair (t_Role t)) (t_Parts t).

Lemma roles_app a b : roles_parts (a ++ b) = roles_parts a ++ roles_parts b.
Proof. unfold roles_parts. apply bind_app. Qed.

Lemma roles_add role parts turns : roles_parts (add_turn role parts turns) = roles_parts turns ++ map (pair role) parts.
Proof. unfold add_turn. rewrite roles_app. unfold roles_parts at 2. rewrite bind_cons. simpl. by rewrite app_nil_r. Qed.

Lemma roles_append role part turns : roles_parts (append_part role part turns) = roles_parts turns ++ [(role, part)].
Proof.
  unfold append_part. destruct turns as [|t turns _] using rev_ind; [done|]. rewrite last_snoc. case_bool_decide as Hr.
  - rewrite removelast_last, !roles_app, <- app_assoc. f_equal. unfold roles_parts. simpl. by rewrite !app_nil_r, map_app, Hr.
  - rewrite (roles_app (turns ++ [t])). done.
Qed.

(** A call or a result opens a turn only when the role changes: turns that alternate
    keep doing so. *)
Lemma append_part_parts role part turns : Forall (λ t, t_Parts t ≠ []) turns → Forall (λ t, t_Parts t ≠ []) (append_part role part turns).
Proof.
  unfold append_part. destruct turns as [|t turns _] using rev_ind; [by constructor|]. rewrite last_snoc. intros [H1 H2]%Forall_app. case_bool_decide.
  - rewrite removelast_last. apply Forall_app. split; [done|]. constructor; [|done]. simpl. by destruct (t_Parts t).
  - apply Forall_app. split; [by apply Forall_app|]. by constructor.
Qed.

(** ** Input items *)

Section input.
Context `{UnicodeTables}.
Context (marshal : gmap str json → str) (marshal_reasoning : ReasoningInput → option str).
Context (names : ToolNames) (reserved : gset str) (policy : LossPolicy).

(** The name a replayed call has: its own without a namespace; else that of its
    declaration; else, if the policy allows it, its own, which nothing declared has. *)
Definition replay_named (name namespace flat : str) : Prop :=
  (namespace = [] ∧ flat = name) ∨
  (namespace ≠ [] ∧ clientCallName (Some names) flat = (name, namespace)) ∨
  (namespace ≠ [] ∧ RefToFlat names !! {| Namespace := namespace; Name := name |} = None ∧ flat = name ∧ (flat ∉ owned names reserved) ∧
   "namespace_replay_undeclared" ∈ Allowed policy).

Definition output_said (c : output_content) : list CanonicalPart :=
  match c with OutputText t => [CanonicalText t] | OutputRefusal t => [CanonicalRefusal t] | OutputContentOther => [] end.

Definition call_object (arguments : str) : option (gmap str json) :=
  decodeJSONObject (if is_empty (TrimSpace arguments) then lit "{}" else arguments).

(** What an item says. *)
Definition item_said (item : input_item) (l : list (CanonicalRole * CanonicalPart)) : Prop :=
  match item with
  | ResponsesEasyInputMessage _ role _ content =>
      ∃ parts, responsesInputContentToParts content = Ok parts ∧ l = map (pair (canonicalRoleFromResponsesInputRole role)) parts
  | ResponsesPreviousOutputMessage _ _ _ _ content => ∃ cs, content = Some cs ∧ l = map (pair CanonicalAssistant) (cs ≫= output_said)
  | ResponsesFunctionCallInput _ _ callID name arguments namespace =>
      ∃ o flat, call_object arguments = Some o ∧ replay_named name namespace flat ∧
        l = [(CanonicalAssistant, CanonicalFunctionCall [] callID flat (marshal o))]
  | ResponsesFunctionCallOutputInput _ _ callID output =>
      ∃ parts, match output with Some output => responsesFunctionOutputToCanonical output | None => Ok [] end = Ok parts ∧
        l = [(CanonicalUser, CanonicalFunctionResult callID false parts)]
  | ResponsesReasoningInput _ | ResponsesItemReferenceInput _ => l = []
  | InputItemOther => False
  end.

(** What of an item no upstream can be given. *)
Definition lossy_item (item : input_item) : Prop :=
  match item with
  | ResponsesEasyInputMessage _ _ phase _ | ResponsesPreviousOutputMessage _ _ _ phase _ => phase ≠ []
  | ResponsesItemReferenceInput _ => True
  | _ => False
  end.

Definition reasoning_of (item : input_item) : list ReasoningInput :=
  match item with ResponsesReasoningInput r => [r] | _ => [] end.

Lemma client_part part : res_client (responsesInputContentPartToCanonical part).
Proof.
  destruct part; simpl; try done. destruct (negb _); [done|].
  destruct (splitImageDataURL ImageURL) as [[]|e'] eqn:E; [done|]. by apply ResponseMessages.splitImageDataURL_error in E as [msg ->].
Qed.

Lemma client_parts parts : ∀ i, res_client (content_parts i parts).
Proof.
  induction parts as [|p parts IH]; intros i; simpl; [done|]. pose proof (client_part p) as Hp.
  destruct (responsesInputContentPartToCanonical p); [|done]. apply MsgRequestLaws.client_bind; [apply IH|done].
Qed.

Lemma client_input_parts parts : ∀ i, res_client (input_parts i parts).
Proof.
  induction parts as [|p parts IH]; intros i; simpl; [done|]. pose proof (client_part p) as Hp.
  destruct (responsesInputContentPartToCanonical p); [|done]. apply MsgRequestLaws.client_bind; [apply IH|done].
Qed.

Lemma t_res {A} (res : result terr A) : res_client res → triple (lift res) (λ a, res = Ok a) client.
Proof. apply MsgRequestLaws.t_client. Qed.

Lemma identity_spec id s : triple (noteItemIdentity id s) (λ s', in_turns s' = in_turns s ∧ in_reasoning s' = in_reasoning s) client.
Proof. unfold noteItemIdentity. apply t_seq; [apply t_when; intros _; [by apply t_Note|done]|]. by apply t_ret. Qed.

Lemma phase_spec phase i : triple (loseInputPhase policy phase i) (λ _, phase ≠ [] → Allowed policy ≠ ∅) client.
Proof.
  unfold loseInputPhase. eapply t_weaken; [apply MsgRequestLaws.t_client_when|]. intros [] Hp Hne. apply Hp.
  destruct (is_empty phase) eqn:E; [|done]. by apply is_empty_spec in E.
Qed.

Lemma replayed_spec i name namespace : names_ok reserved names → triple (replayed_name names reserved policy i name namespace) (replay_named name namespace) client.
Proof.
  intros Hok. unfold replayed_name, replay_named. destruct (is_empty namespace) eqn:Hn; [apply is_empty_spec in Hn; apply t_ret; by left|].
  assert (namespace ≠ []) as Hne by (intros Hx; by rewrite Hx in Hn).
  unfold flatName. change (str_eqb (Namespace {| Namespace := namespace; Name := name |}) []) with (is_empty namespace). rewrite Hn.
  destruct (RefToFlat names !! _) as [flat|] eqn:Hf.
  - apply t_ret. right. left. split; [done|]. apply Hok in Hf. simpl. by rewrite Hf.
  - destruct (taken names reserved name) eqn:Ht; [by apply t_fail|].
    eapply (t_bind _ _ _ (λ _, "namespace_replay_undeclared" ∈ Allowed policy)); [by apply t_Lose|]. intros [] Ha. apply t_ret. right. right.
    split_and!; try done. intros Hin%taken_spec. congruence.
Qed.

(** What a step of the conversion adds. *)
Record item_added (item : input_item) (s s' : input_state) : Prop := {
  ia_said : ∃ l, item_said item l ∧ roles_parts (in_turns s') = roles_parts (in_turns s) ++ l;
  ia_reasoning : ∃ raws, Forall2 (λ raw r, marshal_reasoning r = Some raw) raws (reasoning_of item) ∧ in_reasoning s' = in_reasoning s ++ raws;
  ia_lossy : lossy_item item → Allowed policy ≠ ∅;
}.

Lemma added_plain item s s1 s' l : in_turns s1 = in_turns s ∧ in_reasoning s1 = in_reasoning s → item_said item l →
  roles_parts (in_turns s') = roles_parts (in_turns s1) ++ l → in_reasoning s' = in_reasoning s1 → reasoning_of item = [] →
  (lossy_item item → Allowed policy ≠ ∅) → item_added item s s'.
Proof.
  intros [H1 H2] Hl Ht Hr Hn Hy. rewrite H1 in Ht. rewrite H2 in Hr. constructor; [by exists l| |done]. exists []. rewrite Hn, app_nil_r. by split.
Qed.

Lemma outputs_spec cs i : triple (collect (λ _, output_part_to_canonical) i cs) (λ parts, parts = cs ≫= output_said) client.
Proof. apply t_collect_map. intros j c _. destruct c; simpl; [by apply t_ret|by apply t_ret|by apply t_fail]. Qed.

Lemma object_spec raw : triple (MsgRequest.object_of raw) (λ o, decodeJSONObject raw = Some o) client.
Proof. unfold MsgRequest.object_of. destruct (decodeJSONObject raw); [by apply t_ret|by apply t_fail]. Qed.

Lemma item_spec i item s : names_ok reserved names →
  triple (input_item_to_turns marshal marshal_reasoning names reserved policy i item s) (item_added item s) client.
Proof.
  intros Hok. destruct item as [id role phase content|id role status phase content|id status callID name arguments namespace|
    id status callID output|r|id|]; simpl.
  - eapply t_bind; [apply identity_spec|]. intros s1 Hs1. eapply t_bind; [apply phase_spec|]. intros [] Hp.
    eapply (t_bind _ _ _ (λ parts, responsesInputContentToParts content = Ok parts)).
    { apply t_at_index, t_res. destruct content as [[]|]; simpl; [done|apply client_parts|done]. }
    intros parts Hc. apply t_ret. eapply added_plain; [exact Hs1|by exists parts|apply roles_add|done..].
  - eapply t_bind; [apply identity_spec|]. intros s1 Hs1. eapply t_bind; [apply phase_spec|]. intros [] Hp.
    eapply (t_bind _ _ _ (λ parts, ∃ cs, content = Some cs ∧ parts = cs ≫= output_said)).
    { apply t_at_index. destruct content as [cs|]; [|by apply t_fail]. eapply t_weaken; [apply outputs_spec|]. intros parts ->. by exists cs. }
    intros parts (cs & -> & ->). apply t_ret. eapply added_plain; [exact Hs1|by exists cs|apply roles_add|done..].
  - eapply t_bind; [apply identity_spec|]. intros s1 Hs1. eapply t_bind; [apply t_at_index, object_spec|]. intros o Ho.
    eapply t_bind; [by apply replayed_spec|]. intros flat Hf. apply t_ret.
    eapply added_plain; [exact Hs1|by exists o, flat|apply roles_append|done..].
  - eapply t_bind; [apply identity_spec|]. intros s1 Hs1.
    eapply (t_bind _ _ _ (λ parts, match output with Some output => responsesFunctionOutputToCanonical output | None => Ok [] end = Ok parts)).
    { apply t_at_index. destruct output as [o|]; [|by apply t_ret]. apply t_res. destruct o; simpl; [done|apply client_input_parts]. }
    intros parts Hp. apply t_ret. eapply added_plain; [exact Hs1|by exists parts|apply roles_append|done..].
  - destruct (marshal_reasoning r) as [raw|] eqn:Hr; [|by apply t_fail]. apply t_ret. constructor; simpl; [exists []; by rewrite app_nil_r| |done].
    exists [raw]. split; [by repeat constructor|done].
  - eapply (t_bind _ _ _ (λ _, Allowed policy ≠ ∅)); [apply t_at_index; by apply MsgRequestLaws.t_client_Lose|]. intros [] Ha. apply t_ret.
    by eapply added_plain; [|by simpl|by rewrite app_nil_r|..].
  - by apply t_fail.
Qed.

Record items_added (items : list input_item) (s s' : input_state) : Prop := {
  ta_said : ∃ ls, Forall2 item_said items ls ∧ roles_parts (in_turns s') = roles_parts (in_turns s) ++ concat ls;
  ta_reasoning : ∃ raws, Forall2 (λ raw r, marshal_reasoning r = Some raw) raws (items ≫= reasoning_of) ∧ in_reasoning s' = in_reasoning s ++ raws;
  ta_lossy : Exists lossy_item items → Allowed policy ≠ ∅;
}.

Lemma input_items_spec items : names_ok reserved names → ∀ i s,
  triple (input_items_to_turns marshal marshal_reasoning names reserved policy i items s) (items_added items s) client.
Proof.
  intros Hok. induction items as [|item items IH]; intros i s; simpl.
  { apply t_ret. constructor; [exists []|exists []|by intros ?%Exists_nil]; by rewrite app_nil_r. }
  eapply t_bind; [by apply item_spec|]. intros s1 [(l & Hl & Ht) (raws & Hr & Hrs) Hy].
  eapply t_weaken; [apply IH|]. intros s2 [(ls & Hls & Hts) (raws' & Hr' & Hrs') Hys]. constructor.
  - exists (l :: ls). split; [by constructor|]. by rewrite Hts, Ht, <- app_assoc.
  - exists (raws ++ raws'). rewrite bind_cons. split; [by apply Forall2_app|]. by rewrite Hrs', Hrs, app_assoc.
  - intros [?|?]%Exists_cons; auto.
Qed.

(** What an input says, and the artifacts and losses of it. *)
Definition input_said (input : option ResponsesInput) (l : list (CanonicalRole * CanonicalPart)) : Prop :=
  match input with
  | None => l = []
  | Some (InputOfText text) => l = [(CanonicalUser, CanonicalText text)]
  | Some (InputOfItems items) => Forall (λ item, input_item_Validate item = Ok tt) items ∧ ∃ ls, Forall2 item_said items ls ∧ l = concat ls
  end.

Definition input_items (input : option ResponsesInput) : list input_item :=
  match input with Some (InputOfItems items) => items | _ => [] end.

Lemma input_spec input : names_ok reserved names →
  triple (input_turns marshal marshal_reasoning policy names reserved input)
    (λ r, input_said input (roles_parts r.1) ∧
          Forall2 (λ raw r, marshal_reasoning r = Some raw) r.2 (input_items input ≫= reasoning_of) ∧
          (Exists lossy_item (input_items input) → Allowed policy ≠ ∅)) client.
Proof.
  intros Hok. unfold input_turns. destruct input as [input|]; [|apply t_ret; split_and!; [done|constructor|by intros ?%Exists_nil]].
  eapply t_bind; [apply t_res, checked_input|]. intros [] Hv. destruct input as [text|items]; simpl.
  - apply t_ret. split_and!; [done|constructor|by intros ?%Exists_nil].
  - eapply t_bind; [by apply input_items_spec|]. intros s [(ls & Hls & Ht) (raws & Hr & Hrs) Hy]. apply t_ret. simpl in *. rewrite Ht, Hrs.
    split_and!; [by eapply first_error_ok|by exists ls|done|done].
Qed.
End input.

(** ** The request *)

(** What a choice of the client means. *)
Definition choice_meant (c : ToolChoice) (c' : CanonicalToolChoice) : Prop :=
  match c with
  | ChoiceNamed type_ name => type_ = lit "function" ∧ name ≠ [] ∧ c' = {| Ir.tc_Mode := lit "named"; Ir.tc_Name := name |}
  | ChoiceStr s => s ∈ [lit "none"; lit "auto"; lit "required"] ∧ c' = {| Ir.tc_Mode := s; Ir.tc_Name := [] |}
  end.

Definition choice_decoded (r : Request) (tools : list CanonicalTool) (choice : option CanonicalToolChoice) : Prop :=
  match rr_ToolChoice r with
  | None => choice = None
  | Some c =>
      ∃ c', choice_meant c c' ∧
        match choice with
        | Some c'' => c'' = c' ∧ MsgRequestLaws.choice_survives (length (rr_Tools r)) tools c'
        | None => Ir.tc_Mode c' = lit "auto" ∧ tools = [] ∧ rr_Tools r ≠ []
        end
  end.

Definition format_decoded (policy : LossPolicy) (text : option (option TextFormat)) (o : option CanonicalStructuredOutput) : Prop :=
  match text with
  | Some (Some f) =>
      (tf_Type f ∈ [[]; lit "text"] ∧ o = None) ∨
      (tf_Type f = lit "json_schema" ∧ is_Some (decodeJSONObject (tf_Schema f)) ∧
       o = Some {| so_Name := tf_Name f; so_Description := tf_Description f; so_Schema := tf_Schema f; so_Strict := default false (tf_Strict f) |}) ∨
      (tf_Type f = lit "json_object" ∧ o = None ∧ Allowed policy ≠ ∅)
  | _ => o = None
  end.

(** What of a request no Chat upstream can be given; notes apart. *)
Definition lossy_request (r : Request) : Prop :=
  rr_PromptCacheKey r ≠ [] ∨ Exists (λ t, has_builtin t = true) (rr_Tools r) ∨ Exists lossy_item (input_items (rr_Input r)).

Definition instruction_said (r : Request) : list (CanonicalRole * CanonicalPart) :=
  match rr_Instructions r with Some text => [(CanonicalSystem, CanonicalText text)] | None => [] end.

Section request.
Context `{UnicodeTables}.
Context (marshal : gmap str json → str) (marshal_reasoning : ReasoningInput → option str).
Context (marshal_echo : ResponsesRequestEcho → option str) (decode_request : str → result envelope_error Request).
Context (policy : LossPolicy).

Record request_decoded (r : Request) (names : ToolNames) (d : CanonicalRequest) : Prop := {
  rd_names : names_ok (plainToolNames (rr_Tools r)) names;
  rd_tools : Forall2 (named (plainToolNames (rr_Tools r)) names) (rr_Tools r ≫= declared) (Tools d);
  rd_said : ∃ l, input_said marshal names (plainToolNames (rr_Tools r)) policy (rr_Input r) l ∧ roles_parts (Turns d) = instruction_said r ++ l;
  rd_retained : RetainedTurns d = 0%nat;
  rd_reasoning : Forall2 (λ raw r, marshal_reasoning r = Some raw) (ResponsesReasoningItems (Artifacts d)) (input_items (rr_Input r) ≫= reasoning_of);
  rd_thinking_blocks : AnthropicThinkingBlocks (Artifacts d) = [];
  rd_choice : choice_decoded r (Tools d) (Ir.ToolChoice d);
  rd_format : format_decoded policy (rr_Text r) (StructuredOutput d);
  rd_model : ClientModel d = rr_Model r ∧ rr_Model r ≠ [];
  rd_controls : MaxOutputTokens d = rr_MaxOutputTokens r ∧ ParallelTools d = rr_ParallelToolCalls r ∧ Temperature d = rr_Temperature r ∧
    TopP d = rr_TopP r ∧ StopSequences d = [] ∧ Metadata d = rr_Metadata r ∧ Thinking d = None;
  rd_lossy : lossy_request r → Allowed policy ≠ ∅;
}.

Lemma responses_choice_spec r tools : triple (decode_choice r tools) (choice_decoded r tools) client.
Proof.
  unfold decode_choice, choice_decoded. destruct (rr_ToolChoice r) as [c|]; [|by apply t_ret].
  eapply (t_bind _ _ _ (choice_meant c)).
  - unfold canonicalizeResponsesToolChoice. eapply t_bind; [apply t_res; destruct c; simpl; unfold check; checked|]. intros [] Hv.
    destruct c as [s|type_ name]; cbn [ToolChoice_Validate] in Hv.
    + apply check_ok in Hv. apply t_ret. split; [|done]. apply existsb_exists in Hv as (m & Hin & Hm). apply is_lit_spec in Hm. subst s.
      destruct Hin as [<-|[<-|[<-|[]]]]; [left|right; left|right; right; left].
    + rewrite seq_ok, !check_ok in Hv. destruct Hv as [Ht Hn]. apply t_ret. split; [by apply is_lit_spec|]. split; [|done]. by intros ->.
  - intros c' Hc. eapply t_weaken; [apply MsgRequestLaws.reconcile_spec|]. intros o Ho. exists c'. split; [done|].
    destruct o as [c''|]; [done|]. destruct Ho as (H1 & H2 & H3). split_and!; [done|done|]. by intros H4; rewrite H4 in H3.
Qed.

Lemma format_spec text : triple (structured_output policy text) (format_decoded policy text) client.
Proof.
  unfold structured_output, format_decoded. destruct text as [[f|]|]; [|by apply t_ret..].
  destruct (_ || _) eqn:Hp.
  { apply t_ret. left. split; [|done]. apply orb_prop in Hp as [Hp|Hp]; [apply is_empty_spec in Hp; rewrite Hp; left|].
    apply is_lit_spec in Hp. rewrite Hp. right. left. }
  destruct (is_lit (tf_Type f) "json_schema") eqn:Hs.
  - apply is_lit_spec in Hs. destruct (is_empty (tf_Schema f)); [by apply t_fail|]. eapply t_bind; [apply object_spec|]. intros o Ho. apply t_ret.
    right. left. by rewrite Ho.
  - destruct (is_lit (tf_Type f) "json_object") eqn:Hj; [|by apply t_fail]. apply is_lit_spec in Hj.
    eapply (t_bind _ _ _ (λ _, Allowed policy ≠ ∅)); [by apply MsgRequestLaws.t_client_Lose|]. intros [] Ha. apply t_ret. by right; right.
Qed.

Lemma check_request_ok r : check_request r = Ok tt → Forall (λ t, Tool_Validate t = Ok tt) (rr_Tools r) ∧ rr_Model r ≠ [].
Proof.
  unfold check_request. rewrite !seq_ok, !check_ok. intros (H1 & H2 & _). split; [by eapply first_error_ok|]. by intros Hx; rewrite Hx in H2.
Qed.

Lemma roles_instructions r : roles_parts (instruction_turns r) = instruction_said r.
Proof. unfold instruction_turns, instruction_said. by destruct (rr_Instructions r). Qed.

Lemma responses_decode_spec body :
  triple (DecodeResponsesRequest marshal marshal_reasoning marshal_echo decode_request body policy)
    (λ p, ∃ r names, decode_request body = Ok r ∧ request_decoded r names (MsgRequest.d_Request p.1) ∧
          MsgRequest.d_ToolNames p.1 = given_names names ∧ p.2 = echo_of r ∧
          MsgRequest.d_StreamSet p.1 = WireObject.Present (rr_Stream r) && negb (WireObject.Null (rr_Stream r)) ∧
          Stream (MsgRequest.d_Request p.1) = WireObject.Value (rr_Stream r)) client.
Proof.
  unfold DecodeResponsesRequest. destruct (decode_request body) as [r|[|]] eqn:Hr; [|by apply t_fail..].
  apply t_seq; [destruct (probeUnsupportedResponsesFields body) as [n|]; [destruct (negb _)|]; [by apply t_fail|by apply t_ret|by apply t_fail]|].
  unfold control_notes. eapply (t_bind _ _ _ (λ _, rr_PromptCacheKey r ≠ [] → Allowed policy ≠ ∅)).
  { apply t_seq; [apply t_when; intros _; [by apply t_Note|done]|]. apply t_seq; [apply t_when; intros _; [by apply t_Note|done]|].
    eapply t_weaken; [apply MsgRequestLaws.t_client_when|]. intros [] Hp Hne. apply Hp. destruct (is_empty _) eqn:E; [|done]. by apply is_empty_spec in E. }
  intros [] Hcache. eapply t_bind; [apply t_res, checked_request|]. intros [] [Hv Hm]%check_request_ok. cbv zeta.
  eapply t_bind; [by apply tools_named; [apply no_names_ok|apply Hv|apply plain_reserved]|]. intros [tools names] [(Hok & _ & Hnamed) Hbuiltin]. simpl in *.
  eapply t_bind; [apply responses_choice_spec|]. intros choice Hchoice. eapply t_bind; [apply format_spec|]. intros format Hformat.
  eapply t_bind; [by apply input_spec|]. intros [turns reasoning] (Hsaid & Hreasoning & Hlossy). simpl in *.
  apply t_seq; [unfold checkEchoSize; destruct (marshal_echo _); [destruct (_ <? _)|]; [by apply t_fail|by apply t_ret|by apply t_fail]|].
  apply t_ret. exists r, names. split_and!; try done. constructor; simpl; try done.
  - exists (roles_parts turns). split; [done|]. by rewrite roles_app, roles_instructions.
  - unfold lossy_request. intros [?|[?|?]]; auto.
Qed.
End request.

(** ** The report *)

Section reports.
Context `{UnicodeTables}.
Context (marshal : gmap str json → str) (marshal_reasoning : ReasoningInput → option str).
Context (marshal_echo : ResponsesRequestEcho → option str) (decode_request : str → result envelope_error Request).
Context (policy : LossPolicy).

Lemma lawful_flatten t : keeps_lawful policy (flattenNamespaceTool policy t).
Proof.
  induction t as [t IH] using tool_nested_ind. destruct t as [ty na de pa st l]. cbn [flattenNamespaceTool rt_Tools rt_Name] in *.
  apply lawful_bind; [|intros out; lawful]. apply MsgRequestLaws.lawful_collect_in. intros i n Hin.
  rewrite Forall_forall in IH. specialize (IH n Hin). lawful.
Qed.

Lemma lawful_parameters p : keeps_lawful policy (check_parameters p).
Proof. unfold check_parameters, MsgRequest.object_of. lawful. Qed.
#[local] Hint Resolve lawful_flatten lawful_parameters : conv.

Lemma lawful_deref_of {A} (o : option A) : keeps_lawful policy (deref o).
Proof. destruct o; [apply lawful_ret|apply lawful_fail]. Qed.
#[local] Hint Resolve lawful_deref_of : conv.

Lemma lawful_children reserved ds : ∀ j names, keeps_lawful policy (name_children reserved j ds names).
Proof.
  induction ds as [|[ns t] ds IH]; intros j names; simpl; [apply lawful_ret|]. lawful.
Qed.
#[local] Hint Resolve lawful_children : conv.

Lemma lawful_declarations reserved ts : ∀ i names, keeps_lawful policy (decode_tools policy reserved i ts names).
Proof. induction ts as [|t ts IH]; intros i names; simpl; [apply lawful_ret|]. unfold decode_tool. lawful. Qed.

Lemma lawful_item names reserved i item s : keeps_lawful policy (input_item_to_turns marshal marshal_reasoning names reserved policy i item s).
Proof.
  unfold input_item_to_turns, noteItemIdentity, loseInputPhase, replayed_name, responsesOutputContentToCanonical, output_part_to_canonical,
    MsgRequest.object_of. lawful.
Qed.

Lemma lawful_input_items names reserved items : ∀ i s,
  keeps_lawful policy (input_items_to_turns marshal marshal_reasoning names reserved policy i items s).
Proof. induction items as [|item items IH]; intros i s; simpl; [apply lawful_ret|]. apply lawful_bind; [apply lawful_item|]. intros; apply IH. Qed.
#[local] Hint Resolve lawful_declarations lawful_input_items : conv.

Lemma lawful_reconciled c n tools : keeps_lawful policy (MsgRequest.reconcileToolChoice c n tools).
Proof. apply MsgRequestLaws.lawful_reconcile. Qed.
#[local] Hint Resolve lawful_reconciled : conv.

Lemma lawful_decode_responses body :
  keeps_lawful policy (DecodeResponsesRequest marshal marshal_reasoning marshal_echo decode_request body policy).
Proof.
  unfold DecodeResponsesRequest, control_notes, decode_choice, canonicalizeResponsesToolChoice, structured_output, input_turns, responsesInputToTurns,
    checkEchoSize, MsgRequest.object_of. cbv zeta. lawful.
Qed.

End reports.
