(* ===== verification/RespRequestRender.v ===== *)
(** * Rendering a request for a Responses upstream ([convert_request.go], [convert_helpers.go])

    [RenderResponsesRequest] and what it calls, as a conversion from the canonical
    request to the wire request; of [json.Marshal] the checks it makes of the input are
    kept, the text it writes is not. *)

From Stdlib Require Import ZArith Lia Bool List Ascii String.
From stdpp Require Import strings pretty gmap list.
From S2P Require Import Prelude GoStd GoStr GoText GoJson Losses Ir ResponseDecode RespRequest.
From S2P Require WireObject ChatRender.

Open Scope string_scope.
Open Scope Z_scope.
Open Scope conv_scope.

(** ** Content *)

Definition canonicalImageToResponsesInputImage (mediaType url base64 detail : str) : result terr input_content :=
  let detail := if is_empty detail then lit "auto" else detail in
  if negb (is_empty url) then Ok (InputImage url [] detail)
  else if negb (is_empty base64) then u <-? ChatRender.imageDataURL mediaType base64 ;; Ok (InputImage u [] detail)
  else Err (Errorf "canonical image has neither URL nor base64 data").

Definition canonicalDocumentToResponsesInputFile (url base64 fileID filename : str) : result terr input_content :=
  let file := InputFile url base64 fileID filename [] in
  input_content_Validate file ;;? Ok file.

Definition responses_part (part : CanonicalPart) : result terr input_content :=
  match part with
  | CanonicalText text => Ok (InputText text)
  | CanonicalImage mediaType url base64 detail => canonicalImageToResponsesInputImage mediaType url base64 detail
  | CanonicalDocument _ url base64 fileID filename => canonicalDocumentToResponsesInputFile url base64 fileID filename
  | CanonicalRefusal _ => Err (UnsupportedFeatureError "responses" "input[].content" "refusal input content")
  | CanonicalFunctionCall _ _ _ _ | CanonicalFunctionResult _ _ _ =>
      Err (Errorf "function calls and results must be rendered as separate input items")
  | CanonicalThinkingPart _ _ => Err (Errorf "unknown canonical part")
  end.

Definition is_placed (part : CanonicalPart) : bool :=
  match part with CanonicalImage _ _ _ _ | CanonicalDocument _ _ _ _ _ | CanonicalThinkingPart _ _ => true | _ => false end.

Fixpoint canonicalPartsToResponsesContent (i : nat) (parts : list CanonicalPart) : result terr (list input_content) :=
  match parts with
  | [] => Ok []
  | p :: parts => match responses_part p with
                  | Err e => Err (if is_placed p then ErrAt "content part" i e else e)
                  | Ok p => ps <-? canonicalPartsToResponsesContent (S i) parts ;; Ok (p :: ps)
                  end
  end.

Definition responsesInputRoleFromCanonical (role : CanonicalRole) : str :=
  lit match role with
      | CanonicalAssistant => "assistant"
      | CanonicalSystem => "system"
      | CanonicalDeveloper => "developer"
      | CanonicalUser => "user"
      end.

(** The nil list of parts is no arm of a union. *)
Definition arm {A} (parts : list A) : option (list A) := match parts with [] => None | _ => Some parts end.

Definition canonicalTurnPartsToEasyMessage (role : CanonicalRole) (parts : list CanonicalPart) : result terr input_item :=
  ps <-? canonicalPartsToResponsesContent 0 parts ;;
  Ok (ResponsesEasyInputMessage [] (responsesInputRoleFromCanonical role) [] (MessageParts <$> arm ps)).

Definition canonicalPartsToFunctionOutput (parts : list CanonicalPart) : result terr (option FunctionOutput) :=
  match parts with
  | [CanonicalText text] => Ok (Some (OutputOfText text))
  | _ => ps <-? canonicalPartsToResponsesContent 0 parts ;; Ok (OutputOfParts <$> arm ps)
  end.

Definition transcodeToolResult (policy : LossPolicy) (isError : bool) (parts : list CanonicalPart) (path : string) : Conv (list CanonicalPart) :=
  if negb isError then ret parts
  else
    Lose policy "tool_result_error_status" path
      "the tool result error status cannot be reproduced in the responses dialect; the permissive encoding is the visible error_status_prefix text" ;;~
    ret (ChatRender.error_prefix :: parts).

(** ** Turns *)

(** What is pending becomes one message. *)
Definition flush (role : CanonicalRole) (pending : list CanonicalPart) : Conv (list input_item) :=
  match pending with
  | [] => ret []
  | _ => item <~ lift (canonicalTurnPartsToEasyMessage role pending) ;; ret [item]
  end.

Fixpoint turn_items (policy : LossPolicy) (role : CanonicalRole) (pending parts : list CanonicalPart) : Conv (list input_item) :=
  match parts with
  | [] => flush role pending
  | CanonicalFunctionCall _ callID name arguments :: parts =>
      content <~ flush role pending ;;
      rest <~ turn_items policy role [] parts ;;
      ret (content ++ ResponsesFunctionCallInput [] [] callID name (if is_empty arguments then lit "{}" else arguments) [] :: rest)%list
  | CanonicalFunctionResult callID isError rparts :: parts =>
      content <~ flush role pending ;;
      rparts <~ transcodeToolResult policy isError rparts "input[].function_call_output" ;;
      output <~ lift (canonicalPartsToFunctionOutput rparts) ;;
      rest <~ turn_items policy role [] parts ;;
      ret (content ++ ResponsesFunctionCallOutputInput [] [] callID output :: rest)%list
  | p :: parts => turn_items policy role (pending ++ [p]) parts
  end.

(** ** Instructions *)

Definition loseSystemPart (policy : LossPolicy) (part : CanonicalPart) : Conv unit :=
  match part with
  | CanonicalImage _ _ _ _ | CanonicalDocument _ _ _ _ _ =>
      Lose policy "system_non_text_content" "instructions"
        "the system prompt part cannot be expressed in the string-only create-request instructions"
  | _ => fail (UnsupportedFeatureError "responses" "instructions"
                 "system prompt part cannot be expressed in the create-request instructions string")
  end.

Definition newline : str := [ascii_of_nat 10].

(** The texts of the parts, a line break between what is not empty before and the next. *)
Fixpoint join_system (policy : LossPolicy) (built : str) (parts : list CanonicalPart) : Conv str :=
  match parts with
  | [] => ret built
  | CanonicalText text :: parts => join_system policy (built ++ (if is_empty built then [] else newline) ++ text)%list parts
  | p :: parts => loseSystemPart policy p ;;~ join_system policy built parts
  end.

Definition is_system_turn (t : CanonicalTurn) : bool :=
  match t_Role t with CanonicalSystem | CanonicalDeveloper => true | _ => false end.

Definition render_instructions (policy : LossPolicy) (systemTurns : list CanonicalTurn) : Conv (option str) :=
  when (1 <? length systemTurns)%nat
    (Lose policy "multiple_system_turns" "instructions"
       "multiple system turns cannot be expressed in a single instructions string") ;;~
  match systemTurns with
  | [t] =>
      text <~ join_system policy [] (t_Parts t) ;;
      if is_empty text then ret None
      else
        when (1 <? length (t_Parts t))%nat
          (Note "multiple_system_turns" "instructions"
             "multiple system text parts join into one instructions string (instructions_text_join encoding)") ;;~
        ret (Some text)
  | _ => ret None
  end.

(** ** Tools and reasoning *)

(** The schema of a tool that has none. *)
Definition empty_schema : str := (lit "{" ++ json_string (lit "type") ++ lit ":" ++ json_string (lit "object") ++ lit "}")%list.

Definition canonicalToolChoiceToResponses (choice : CanonicalToolChoice) : result terr ToolChoice :=
  if is_any (Ir.tc_Mode choice) ["none"; "auto"; "required"] then Ok (ChoiceStr (Ir.tc_Mode choice))
  else if is_lit (Ir.tc_Mode choice) "named" then
    if is_empty (Ir.tc_Name choice) then Err (Errorf "named tool choice has no name") else Ok (ChoiceNamed (lit "function") (Ir.tc_Name choice))
  else Err (Errorf "unknown tool choice mode").

Definition explicit (b : bool) : FieldBool := {| WireObject.Value := b; WireObject.Present := true; WireObject.Null := false |}.

Definition responsesToolStrictField (policy : LossPolicy) (strict : option bool) : Conv FieldBool :=
  match strict with
  | Some b => ret (explicit b)
  | None =>
      Lose policy "tool_schema_strictness" "tools[].strict"
        "the source tool schema has no strictness semantic; emitting explicit strict:false" ;;~
      ret (explicit false)
  end.

Definition schema_or (schema : str) : str := if is_empty schema then empty_schema else schema.

Definition render_tool (policy : LossPolicy) (tool : CanonicalTool) : Conv (list Tool) :=
  strict <~ responsesToolStrictField policy (tool_Strict tool) ;;
  ret [{| rt_Type := lit "function"; rt_Name := tool_Name tool; rt_Description := tool_Description tool;
          rt_Parameters := schema_or (tool_JSONSchema tool); rt_Strict := strict; rt_Tools := [] |}].

Definition render_choice (choice : option CanonicalToolChoice) : Conv (option ToolChoice) :=
  match choice with
  | None => ret None
  | Some choice => c <~ lift (canonicalToolChoiceToResponses choice) ;; ret (Some c)
  end.

Definition render_format (o : CanonicalStructuredOutput) : option TextFormat :=
  Some {| tf_Type := lit "json_schema"; tf_Name := so_Name o; tf_Description := so_Description o; tf_Schema := schema_or (so_Schema o);
          tf_Strict := Some (so_Strict o) |}.

(** The effort after the client's thinking control, given the one of the echo. *)
Definition render_thinking (reasoningEffort : bool) (policy : LossPolicy) (thinking : option CanonicalThinking) (effort : option str)
    : Conv (option str) :=
  match thinking with
  | None => ret effort
  | Some t =>
      if is_lit (th_Type t) "enabled" then
        match th_BudgetTokens t with
        | None =>
            Note "request_reasoning" "thinking" "thinking enabled without a budget maps to the upstream provider's default reasoning effort" ;;~
            ret effort
        | Some budget =>
            if negb reasoningEffort then
              Lose policy "request_reasoning" "thinking" "the thinking budget cannot be reproduced by the configured upstream provider" ;;~
              ret effort
            else
              let mapped := ChatRender.thinkingBudgetToEffort budget in
              Note "request_reasoning" "thinking"
                ("Anthropic thinking budget " ++ pretty budget ++ " mapped to Responses reasoning.effort " ++ ChatRender.quoted_effort mapped) ;;~
              ret (Some (lit mapped))
        end
      else if is_lit (th_Type t) "adaptive" then
        Note "request_reasoning" "thinking" "adaptive thinking maps to the upstream provider's default reasoning effort" ;;~ ret effort
      else if is_lit (th_Type t) "disabled" then
        Note "request_reasoning" "thinking" "thinking disabled maps to the absence of Responses reasoning.effort" ;;~ ret effort
      else ret effort
  end.

(** The tier of the profile fills the gap when the client expressed no intent. *)
Definition resolved_effort (request : CanonicalRequest) (context : ChatRender.ExchangeContext) (effort : option str) : option str :=
  if negb (is_empty (ChatRender.ResolvedReasoningTier context)) && negb (ChatRender.is_some (Thinking request)) && negb (ChatRender.is_some effort)
  then Some (ChatRender.ResolvedReasoningTier context) else effort.

(** ** The request *)

Definition conversation (turns : list CanonicalTurn) : list CanonicalTurn := List.filter (λ t, negb (is_system_turn t)) turns.

Definition RenderResponsesRequest (request : CanonicalRequest) (context : ChatRender.ExchangeContext)
    (capabilities : ChatRender.ChatCapabilities) : Conv Request :=
  let policy := ChatRender.x_LossPolicy context in
  lift (ValidateCanonicalRequest request) ;;~
  RequirePortableArtifacts request UpstreamResponses policy ;;~
  instructions <~ render_instructions policy (List.filter is_system_turn (Turns request)) ;;
  (if (length (conversation (Turns request)) =? 0)%nat
   then fail (Errorf "the source request has no Messages-representable conversation turns for the Responses input") else ret tt) ;;~
  items <~ collect (λ _ t, turn_items policy (t_Role t) [] (t_Parts t)) 0 (conversation (Turns request)) ;;
  when (negb (length (StopSequences request) =? 0)%nat)
    (Lose policy "stop_sequences" "stop_sequences" "Responses has no stop-sequence field") ;;~
  tools <~ collect (λ _, render_tool policy) 0 (Tools request) ;;
  choice <~ render_choice (Ir.ToolChoice request) ;;
  effort <~ render_thinking (ChatRender.cap_ReasoningEffort capabilities) policy (Thinking request)
              (ChatRender.OriginalResponsesRequest context ≫= ChatRender.e_ReasoningEffort) ;;
  let effort := resolved_effort request context effort in
  let input := InputOfItems items in
  lift (Input_Validate input) ;;~
  ret {| rr_Model := if is_empty (ChatRender.UpstreamModel context) then ClientModel request else ChatRender.UpstreamModel context;
         rr_Input := Some input; rr_Instructions := instructions; rr_MaxOutputTokens := MaxOutputTokens request;
         rr_ParallelToolCalls := ParallelTools request; rr_PreviousResponseID := None; rr_Store := None;
         rr_Temperature := Temperature request; rr_TopP := TopP request; rr_Truncation := None; rr_User := None;
         rr_Metadata := Metadata request; rr_Tools := tools; rr_ToolChoice := choice;
         rr_Reasoning := option_map (λ e, (Some e, None)) effort; rr_Text := render_format <$> StructuredOutput request;
         rr_ServiceTier := None; rr_TopLogprobs := None;
         rr_Stream := {| WireObject.Value := true; WireObject.Present := Stream request; WireObject.Null := false |};
         rr_Include := false; rr_PromptCacheKey := []; rr_ClientMetadata := false |}.
