(* ===== verification/RespRenderLaws.v ===== *)
(** * What a request for a Responses upstream says

    The renderer of [RespRequestRender] against the canonical request: what a reader of
    the Responses dialect, the decoder of [RespRequest], makes of the input is the
    conversation. *)

From Stdlib Require Import ZArith Lia Bool List Ascii String.
From stdpp Require Import strings pretty gmap list.
From S2P Require Import Prelude GoStd GoStr GoText GoJson Losses Ir ResponseDecode RespRequest RespRequestRender RespRequestLaws.
From S2P Require WireObject ChatRender MsgRequest MsgRequestLaws ToolNamesLaws.

Open Scope string_scope.
Open Scope Z_scope.
Open Scope conv_scope.
Open Scope list_scope.

Section laws.
Context `{UnicodeTables}.
Context (marshal : gmap str json → str) (marshal_reasoning : ReasoningInput → option str).

(** ** What is read of a part *)

Definition detail_given (detail detail' : str) : Prop := detail' = (if is_empty detail then lit "auto" else detail).

(** A part and what a reader makes of it: an image by its URL or by its data, a document
    as it is, a call with the object of its arguments, and a result whose
    error status, where it may be lost, is a text before it. *)
Fixpoint reread (policy : LossPolicy) (p p' : CanonicalPart) {struct p} : Prop :=
  match p with
  | CanonicalText text => p' = CanonicalText text
  | CanonicalImage mediaType url base64 detail =>
      ∃ detail', detail_given detail detail' ∧
        p' = (if is_empty url then CanonicalImage mediaType [] base64 detail' else CanonicalImage [] url [] detail')
  | CanonicalDocument mediaType url base64 fileID filename => p' = CanonicalDocument mediaType url base64 fileID filename
  | CanonicalFunctionCall _ callID name arguments =>
      ∃ o, decodeJSONObject arguments = Some o ∧ p' = CanonicalFunctionCall [] callID name (marshal o)
  | CanonicalFunctionResult callID isError parts =>
      ∃ parts', p' = CanonicalFunctionResult callID false parts' ∧
        (isError = true → Allowed policy ≠ ∅) ∧
        ∃ body, parts' = (if isError then [ChatRender.error_prefix] else []) ++ body ∧
          (fix go (ps qs : list CanonicalPart) : Prop :=
             match ps, qs with [], [] => True | p :: ps, q :: qs => reread policy p q ∧ go ps qs | _, _ => False end) parts body
  | _ => False
  end.

Lemma reread_list policy ps : ∀ qs,
  (fix go (ps qs : list CanonicalPart) : Prop :=
     match ps, qs with [], [] => True | p :: ps, q :: qs => reread policy p q ∧ go ps qs | _, _ => False end) ps qs ↔ Forall2 (reread policy) ps qs.
Proof.
  induction ps as [|p ps IH]; intros [|q qs]; split; try done; try (by intros ?%Forall2_nil_inv_l); try (by intros ?%Forall2_nil_inv_r).
  - intros [Hp Hq]. constructor; [done|]. by apply IH.
  - intros Hf. inversion_clear Hf. split; [done|]. by apply IH.
Qed.

(** What the dialect's content has a place for: an image whose URL, if it has one, is a
    link and no data URL, and a document that needs no media type ([media_type_lost]
    shows that one is not sent). *)
Fixpoint sendable (p : CanonicalPart) : Prop :=
  match p with
  | CanonicalImage _ url _ _ => strip_prefix (lit "data:") url = None
  | CanonicalDocument mediaType _ _ _ _ => mediaType = []
  | CanonicalFunctionResult _ _ parts => foldr (λ p P, sendable p ∧ P) True parts
  | _ => True
  end.

Lemma sendable_forall parts : foldr (λ p P, sendable p ∧ P) True parts ↔ Forall sendable parts.
Proof. induction parts as [|p parts IH]; simpl; [by split|]. by rewrite Forall_cons, IH. Qed.

Lemma strip_prefix_self p s : strip_prefix p (p ++ s) = Some s.
Proof. induction p as [|c p IH]; simpl; [done|]. unfold byte_eqb. by rewrite Ascii.eqb_refl. Qed.

(** A data URL of an image is read back. *)
Lemma split_data_url mediaType base64 url : ChatRender.imageDataURL mediaType base64 = Ok url → splitImageDataURL url = Ok (mediaType, base64).
Proof.
  unfold ChatRender.imageDataURL. case_bool_decide as Hm; [|done]. simpl. destruct (is_empty base64) eqn:He; [done|]. intros [= <-].
  assert (∀ mt, mt ∈ data_image_types → mediaType = mt → splitImageDataURL (ChatRender.data_url mediaType base64) = Ok (mediaType, base64)) as Hall.
  { intros mt Hin ->. unfold data_image_types in Hin.
    repeat (apply elem_of_cons in Hin as [->|Hin]; [unfold splitImageDataURL; cbn -[is_empty]; rewrite He; done|]). by apply elem_of_nil in Hin. }
  by eapply Hall.
Qed.

#[local] Arguments strip_prefix _ _ : simpl never.

(** ** Content *)

Lemma part_reread policy p q : responses_part p = Ok q → sendable p → ∃ p', responsesInputContentPartToCanonical q = Ok p' ∧ reread policy p p'.
Proof.
  destruct p as [text|text|text sg|mediaType url base64 detail|mediaType url base64 fileID filename|a b c d|a b c]; simpl; try done.
  - intros [= <-] _. by eexists.
  - unfold canonicalImageToResponsesInputImage. intros Hq Hl. destruct (is_empty url) eqn:Hu; simpl in Hq.
    + destruct (is_empty base64) eqn:Hb; [done|]. simpl in Hq. destruct (ChatRender.imageDataURL mediaType base64) as [u|] eqn:Hi; [|done].
      injection Hq as <-. simpl. rewrite (split_data_url _ _ _ Hi), Hb. eexists. split; [done|]. by eexists.
    + injection Hq as <-. simpl. change (strip_prefix (lit "data:") url = None) in Hl. unfold splitImageDataURL. rewrite Hl. eexists. split; [done|]. by eexists.
  - unfold canonicalDocumentToResponsesInputFile. destruct (input_content_Validate _); [|done]. intros [= <-] ->. by eexists.
Qed.

Lemma parts_reread policy ps : ∀ i qs, canonicalPartsToResponsesContent i ps = Ok qs → Forall sendable ps →
  ∃ ps', Forall2 (λ q p', responsesInputContentPartToCanonical q = Ok p') qs ps' ∧ Forall2 (reread policy) ps ps'.
Proof.
  induction ps as [|p ps IH]; intros i qs; simpl; [intros [= <-] _; by exists []|].
  destruct (responses_part p) as [q|] eqn:Hq; [|done]. destruct (canonicalPartsToResponsesContent (S i) ps) as [qs'|] eqn:Hqs; [|done].
  intros [= <-] Hl. inversion_clear Hl as [|? ? Hlp Hls]. destruct (part_reread policy p q Hq Hlp) as (p' & ? & ?).
  destruct (IH _ _ Hqs Hls) as (ps' & ? & ?). exists (p' :: ps'). by repeat constructor.
Qed.

Lemma content_parts_ok qs ps : Forall2 (λ q p', responsesInputContentPartToCanonical q = Ok p') qs ps → ∀ i, content_parts i qs = Ok ps.
Proof. induction 1 as [|q p qs ps Hq _ IH]; intros i; simpl; [done|]. by rewrite Hq, IH. Qed.

Lemma input_parts_ok qs ps : Forall2 (λ q p', responsesInputContentPartToCanonical q = Ok p') qs ps → ∀ i, input_parts i qs = Ok ps.
Proof. induction 1 as [|q p qs ps Hq _ IH]; intros i; simpl; [done|]. by rewrite Hq, IH. Qed.

Lemma output_reread policy ps o : canonicalPartsToFunctionOutput ps = Ok o → Forall sendable ps →
  ∃ ps', match o with Some o => responsesFunctionOutputToCanonical o | None => Ok [] end = Ok ps' ∧ Forall2 (reread policy) ps ps'.
Proof.
  intros Ho Hl. assert ((∃ text, ps = [CanonicalText text] ∧ o = Some (OutputOfText text)) ∨
    ∃ qs, canonicalPartsToResponsesContent 0 ps = Ok qs ∧ o = OutputOfParts <$> arm qs) as [(text & -> & ->)|(qs & Hqs & ->)].
  { unfold canonicalPartsToFunctionOutput in Ho. destruct ps as [|[text| | | | | |] [|? ?]]; try (left; injection Ho as <-; by exists text);
      right; (destruct (canonicalPartsToResponsesContent _ _) as [qs|]; [|done]); injection Ho as <-; by exists qs. }
  - exists [CanonicalText text]. split; [done|]. by repeat constructor.
  - destruct (parts_reread policy ps 0 qs Hqs Hl) as (ps' & Hq & Hr). exists ps'. split; [|done].
    destruct qs as [|q qs]; simpl; [by apply Forall2_nil_inv_l in Hq as ->|]. by apply (input_parts_ok _ _ Hq 0).
Qed.

(** ** Turns become items *)

(** An item as the renderer makes it: no identity, no phase, no namespace. *)
Definition plain_item (item : input_item) : Prop :=
  match item with
  | ResponsesEasyInputMessage id _ phase _ => id = [] ∧ phase = []
  | ResponsesFunctionCallInput id _ _ _ _ namespace => id = [] ∧ namespace = []
  | ResponsesFunctionCallOutputInput id _ _ _ => id = []
  | _ => False
  end.

Definition item_read (item : input_item) (l : list (CanonicalRole * CanonicalPart)) : Prop :=
  plain_item item ∧ item_said marshal no_names ∅ StrictLossPolicy item l.

(** What the items say, to a reader. *)
Definition reads (items : list input_item) (l : list (CanonicalRole * CanonicalPart)) : Prop :=
  ∃ ls, Forall2 item_read items ls ∧ l = concat ls.

Lemma reads_nil : reads [] [].
Proof. by exists []. Qed.

Lemma reads_app a la b lb : reads a la → reads b lb → reads (a ++ b) (la ++ lb).
Proof. intros (ls & Ha & ->) (ls' & Hb & ->). exists (ls ++ ls'). split; [by apply Forall2_app|]. by rewrite concat_app. Qed.

Lemma reads_one item l : item_read item l → reads [item] l.
Proof. intros Hi. exists [l]. split; [constructor; [done|constructor]|]. simpl. by rewrite app_nil_r. Qed.

Lemma role_read role : canonicalRoleFromResponsesInputRole (responsesInputRoleFromCanonical role) = role.
Proof. by destruct role. Qed.

Lemma flush_reads policy role pending : Forall sendable pending →
  has_post (flush role pending) (λ items, ∃ ps', Forall2 (reread policy) pending ps' ∧ reads items (map (pair role) ps')).
Proof.
  intros Hl. unfold flush. destruct pending as [|p pending]; [apply post_ret; exists []; split; [constructor|apply reads_nil]|].
  eapply (post_bind _ _ (λ item, canonicalTurnPartsToEasyMessage role (p :: pending) = Ok item)); [by apply post_lift|].
  intros item. unfold canonicalTurnPartsToEasyMessage. destruct (canonicalPartsToResponsesContent 0 (p :: pending)) as [qs|] eqn:Hq; [|done].
  intros [= <-]. apply post_ret. destruct (parts_reread policy _ _ _ Hq Hl) as (ps' & Hr & Hf). exists ps'. split; [done|].
  apply reads_one. split; [done|]. exists ps'. rewrite role_read. split; [|done].
  destruct qs as [|q qs]; simpl; [by apply Forall2_nil_inv_l in Hr as ->|]. by apply (content_parts_ok _ _ Hr 0).
Qed.

Lemma flat_own name : replay_named no_names ∅ StrictLossPolicy name [] name.
Proof. by left. Qed.

(** A text that is an object is not blank. *)
Lemma object_not_blank raw o : decodeJSONObject raw = Some o → is_empty raw = false ∧ call_object raw = Some o.
Proof.
  intros Ho. unfold call_object. destruct (is_empty (TrimSpace raw)) eqn:Ht.
  - apply is_empty_spec in Ht. pose proof (proj1 (decodeJSONObject_some raw) (mk_is_Some _ _ Ho)) as [kvs Hk]. rewrite Ht in Hk. done.
  - split; [|done]. destruct raw; [|done]. by vm_compute in Ht.
Qed.

Lemma result_spec policy isError parts path : Forall sendable parts →
  has_post (transcodeToolResult policy isError parts path)
    (λ rp, (isError = true → Allowed policy ≠ ∅) ∧ rp = (if isError then [ChatRender.error_prefix] else []) ++ parts).
Proof.
  intros Hl. unfold transcodeToolResult. destruct isError; simpl; [|by apply post_ret].
  eapply post_bind; [apply post_Lose_some|]. intros [] Hne. by apply post_ret.
Qed.

Lemma turn_reads policy role parts : ∀ pending, Forall sendable (pending ++ parts) → Forall (λ p, role_ok role p ∧ part_ok p) parts →
  has_post (turn_items policy role pending parts)
    (λ items, ∃ ps', Forall2 (reread policy) (pending ++ parts) ps' ∧ reads items (map (pair role) ps')).
Proof.
  induction parts as [|p parts IH]; intros pending Hl Hok; simpl.
  { rewrite app_nil_r in *. by apply flush_reads. }
  inversion_clear Hok as [|? ? [Hrole Hpok] Hok'].
  assert (Hmore : has_post (turn_items policy role (pending ++ [p]) parts)
    (λ items, ∃ ps', Forall2 (reread policy) (pending ++ p :: parts) ps' ∧ reads items (map (pair role) ps'))).
  { eapply post_weaken; [apply IH; [by rewrite <- app_assoc|done]|]. by rewrite <- app_assoc. }
  apply Forall_app in Hl as [Hlp Hl]. inversion_clear Hl as [|? ? Hlq Hls].
  destruct p as [text|text|text sg|mediaType url base64 detail|mediaType url base64 fileID filename|itemID callID name arguments|callID isError rparts];
    try exact Hmore; clear Hmore.
  - eapply post_bind; [by apply (flush_reads policy)|]. intros content (ps1 & Hr1 & Hc).
    eapply post_bind; [by apply IH|]. intros rest (ps2 & Hr2 & Hrest). apply post_ret.
    destruct Hpok as (_ & _ & Hobj). apply decodeJSONObject_some in Hobj as [o Ho]. destruct (object_not_blank _ _ Ho) as [Hne Hco].
    exists (ps1 ++ CanonicalFunctionCall [] callID name (marshal o) :: ps2). split; [apply Forall2_app; [done|]; constructor; [by exists o|done]|].
    rewrite map_app. apply reads_app; [done|]. simpl. apply (reads_app [_] [_]); [|done]. apply reads_one. split; [done|].
    exists o, name. simpl in Hrole. rewrite Hne, Hrole. split_and!; [done|apply flat_own|done].
  - eapply post_bind; [by apply (flush_reads policy)|]. intros content (ps1 & Hr1 & Hc).
    simpl in Hlq. apply sendable_forall in Hlq.
    eapply post_bind; [by apply result_spec|]. intros rp [Herr ->].
    eapply (post_bind _ _ (λ o, canonicalPartsToFunctionOutput _ = Ok o)); [by apply post_lift|]. intros o Ho.
    apply (output_reread policy) in Ho as (body & Hb & Hr); [|by destruct isError; simpl; [constructor|]].
    eapply post_bind; [by apply IH|]. intros rest (ps2 & Hr2 & Hrest). apply post_ret.
    exists (ps1 ++ CanonicalFunctionResult callID false body :: ps2). split.
    + apply Forall2_app; [done|]. constructor; [|done]. simpl. exists body. split_and!; [done|done|].
      destruct isError; simpl in Hr; [inversion_clear Hr as [|? b ? bs Hp Hrs]; simpl in Hp; subst b; exists bs|exists body]; by rewrite reread_list.
    + rewrite map_app. apply reads_app; [done|]. simpl. apply (reads_app [_] [_]); [|done]. apply reads_one. split; [done|].
      exists body. simpl in Hrole. by rewrite Hrole.
Qed.

(** ** Reading back *)

(** A reader adds what an item says, and reports nothing. *)
Lemma item_reads item l i s : item_read item l →
  ∃ s', (∀ policy r, input_item_to_turns marshal marshal_reasoning no_names ∅ policy i item s r = (Ok s', r)) ∧
    roles_parts (in_turns s') = roles_parts (in_turns s) ++ l ∧ in_reasoning s' = in_reasoning s.
Proof.
  intros [Hp Hs]. set (s1 := {| in_turns := in_turns s; in_noted := in_noted s || false; in_reasoning := in_reasoning s |}).
  destruct item as [id role phase content|id role status phase content|id status callID name arguments namespace|
    id status callID output|rs|id|]; try done.
  - destruct Hp as [-> ->], Hs as (parts & Hc & ->).
    exists (with_turns (add_turn (canonicalRoleFromResponsesInputRole role) parts (in_turns s)) s1). split; [intros policy r|split; [apply roles_add|done]].
    unfold input_item_to_turns, noteItemIdentity, loseInputPhase, bind, at_index, lift. simpl. by rewrite Hc.
  - destruct Hp as [-> ->], Hs as (o & flat & Ho & [[_ ->]|[[Hn _]|[Hn _]]] & ->); [|done|done].
    exists (with_turns (appendFunctionCallTurn (CanonicalFunctionCall [] callID name (marshal o)) (in_turns s)) s1).
    split; [intros policy r|split; [apply roles_append|done]]. unfold call_object in Ho.
    unfold input_item_to_turns, noteItemIdentity, replayed_name, MsgRequest.object_of, bind, at_index. simpl in *. by rewrite Ho.
  - simpl in Hp. subst id. destruct Hs as (parts & Ho & ->).
    exists (with_turns (appendFunctionResultTurn (CanonicalFunctionResult callID false parts) (in_turns s)) s1).
    split; [intros policy r|split; [apply roles_append|done]].
    unfold input_item_to_turns, noteItemIdentity, bind, at_index, lift. simpl. destruct output as [o|]; [by rewrite Ho|]. by injection Ho as <-.
Qed.

Lemma items_read_back items l : reads items l →
  ∃ turns, (∀ policy r, responsesInputToTurns marshal marshal_reasoning no_names ∅ policy (InputOfItems items) r = (Ok (turns, []), r)) ∧ roles_parts turns = l.
Proof.
  intros (ls & Hls & ->).
  assert (∀ i s, ∃ s', (∀ policy r, input_items_to_turns marshal marshal_reasoning no_names ∅ policy i items s r = (Ok s', r)) ∧
    roles_parts (in_turns s') = roles_parts (in_turns s) ++ concat ls ∧ in_reasoning s' = in_reasoning s) as Hall.
  { induction Hls as [|item l items ls Hi _ IH]; intros i s; [exists s; split; [done|]; by rewrite app_nil_r|].
    destruct (item_reads item l i s Hi) as (s1 & Hs1 & Hr1 & Hg1).
    destruct (IH (S i) s1) as (s2 & Hs2 & Hr2 & Hg2). exists s2. split_and!.
    - intros policy r. simpl. unfold bind. by rewrite Hs1.
    - by rewrite Hr2, Hr1, <- app_assoc.
    - by rewrite Hg2. }
  destruct (Hall 0%nat {| in_turns := []; in_noted := false; in_reasoning := [] |}) as (s' & Hs & Ht & Hg). exists (in_turns s').
  split; [|done]. intros policy r. simpl. unfold bind. rewrite Hs. simpl in Hg. by rewrite Hg.
Qed.

(** ** The request *)

(** The texts of the parts, on lines of their own. *)
Definition joined (parts : list CanonicalPart) : str :=
  fold_left (λ built p, match p with
                        | CanonicalText text => built ++ (if is_empty built then [] else newline) ++ text
                        | _ => built
                        end) parts [].

Definition is_text (p : CanonicalPart) : bool := match p with CanonicalText _ => true | _ => false end.

(** The instructions are the text of the one system turn. *)
Definition instructed (policy : LossPolicy) (systems : list CanonicalTurn) (instructions : option str) : Prop :=
  match systems with
  | [] => instructions = None
  | [t] => instructions = (if is_empty (joined (t_Parts t)) then None else Some (joined (t_Parts t))) ∧
           (forallb is_text (t_Parts t) = false → Allowed policy ≠ ∅)
  | _ => instructions = None ∧ Allowed policy ≠ ∅
  end.

Lemma join_post policy parts : ∀ built,
  has_post (join_system policy built parts)
    (λ text, text = fold_left (λ built p, match p with
                                          | CanonicalText text => built ++ (if is_empty built then [] else newline) ++ text
                                          | _ => built
                                          end) parts built ∧ (forallb is_text parts = false → Allowed policy ≠ ∅)).
Proof.
  assert (Hlose : ∀ p, is_text p = false → has_post (loseSystemPart policy p) (λ _, Allowed policy ≠ ∅)).
  { intros p. unfold loseSystemPart. destruct p; try done; intros _; try (by apply post_fail); apply post_Lose_some. }
  induction parts as [|p parts IH]; intros built; simpl; [by apply post_ret|].
  destruct p as [text| | | | | |]; [apply IH|..];
    (eapply post_bind; [by apply Hlose|]; intros [] Hne; eapply post_weaken; [apply IH|]; intros text [-> _]; by split).
Qed.

Lemma instructions_post policy systems : has_post (render_instructions policy systems) (instructed policy systems).
Proof.
  unfold render_instructions, instructed. eapply (post_bind _ _ (λ _, (1 < length systems)%nat → Allowed policy ≠ ∅)).
  { unfold when. destruct (Nat.ltb_spec 1 (length systems)); [|by apply post_ret; intros; lia].
    eapply post_weaken; [apply post_Lose_some|]. by intros [] Hne _. }
  intros [] Hmany. destruct systems as [|t [|t' systems]]; [by apply post_ret| |].
  - eapply post_bind; [apply join_post|]. intros text [-> Ht]. fold (joined (t_Parts t)). destruct (is_empty (joined (t_Parts t))); [by apply post_ret|].
    apply post_seq. by apply post_ret.
  - apply post_ret. split; [done|]. apply Hmany. simpl. lia.
Qed.

Definition tool_rendered (policy : LossPolicy) (t : CanonicalTool) (rt : Tool) : Prop :=
  rt = {| rt_Type := lit "function"; rt_Name := tool_Name t; rt_Description := tool_Description t;
          rt_Parameters := schema_or (tool_JSONSchema t); rt_Strict := explicit (default false (tool_Strict t)); rt_Tools := [] |} ∧
  (tool_Strict t = None → Allowed policy ≠ ∅).

Lemma render_tools_post policy tools : has_post (collect (λ _, render_tool policy) 0 tools) (Forall2 (tool_rendered policy) tools).
Proof.
  eapply post_weaken; [apply (post_collect _ (λ t rts, ∃ rt, rts = [rt] ∧ tool_rendered policy t rt))|].
  - intros _ t. unfold render_tool, responsesToolStrictField.
    eapply (post_bind _ _ (λ f, f = explicit (default false (tool_Strict t)) ∧ (tool_Strict t = None → Allowed policy ≠ ∅))).
    + destruct (tool_Strict t) as [b|]; [by apply post_ret|]. eapply post_bind; [apply post_Lose_some|]. intros [] Hne. by apply post_ret.
    + intros f [-> Hne]. apply post_ret. by eexists.
  - intros rts (bss & Hb & ->). induction Hb as [|t b ts bss' (rt & -> & Ht) _ IH]; [constructor|]. by constructor.
Qed.

(** The effort: that of an explicit budget, else the client's own, else the profile's. *)
Definition effort_rendered (request : CanonicalRequest) (context : ChatRender.ExchangeContext) (cap : bool) : option str :=
  let own := ChatRender.OriginalResponsesRequest context ≫= ChatRender.e_ReasoningEffort in
  match Thinking request with
  | None => match own with Some e => Some e | None => if is_empty (ChatRender.ResolvedReasoningTier context) then None else Some (ChatRender.ResolvedReasoningTier context) end
  | Some t => if is_lit (th_Type t) "enabled"
              then match th_BudgetTokens t with Some n => if cap then Some (lit (ChatRender.thinkingBudgetToEffort n)) else own | None => own end
              else own
  end.

Lemma effort_post cap policy request context :
  has_post (render_thinking cap policy (Thinking request) (ChatRender.OriginalResponsesRequest context ≫= ChatRender.e_ReasoningEffort))
    (λ e, resolved_effort request context e = effort_rendered request context cap).
Proof.
  unfold render_thinking, resolved_effort, effort_rendered. cbv zeta. set (own := _ ≫= _). destruct (Thinking request) as [t|]; simpl.
  - assert (Hno : ∀ e : option str, negb (is_empty (ChatRender.ResolvedReasoningTier context)) && false && negb (ChatRender.is_some e) = false)
      by (intros e; by rewrite andb_false_r).
    destruct (is_lit (th_Type t) "enabled").
    + destruct (th_BudgetTokens t) as [n|]; [destruct cap; simpl|]; apply post_seq, post_ret; by rewrite Hno.
    + destruct (is_lit (th_Type t) "adaptive"); [apply post_seq, post_ret; by rewrite Hno|].
      destruct (is_lit (th_Type t) "disabled"); [apply post_seq, post_ret; by rewrite Hno|]. apply post_ret. by rewrite Hno.
  - apply post_ret. destruct own; destruct (is_empty _); done.
Qed.

(** What the request for a Responses upstream is of the canonical one. *)
Record rendered (request : CanonicalRequest) (context : ChatRender.ExchangeContext) (capabilities : ChatRender.ChatCapabilities) (out : Request) : Prop := {
  rn_valid : Forall turn_ok (Turns request);
  rn_input : ∃ items, rr_Input out = Some (InputOfItems items) ∧
    (Forall (λ t, Forall sendable (t_Parts t)) (conversation (Turns request)) →
     ∃ l, reads items l ∧
       Forall2 (λ said heard, said.1 = heard.1 ∧ reread (ChatRender.x_LossPolicy context) said.2 heard.2) (roles_parts (conversation (Turns request))) l);
  rn_instructions : instructed (ChatRender.x_LossPolicy context) (List.filter is_system_turn (Turns request)) (rr_Instructions out);
  rn_tools : Forall2 (tool_rendered (ChatRender.x_LossPolicy context)) (Tools request) (rr_Tools out);
  rn_stop : StopSequences request ≠ [] → Allowed (ChatRender.x_LossPolicy context) ≠ ∅;
  rn_model : rr_Model out = if is_empty (ChatRender.UpstreamModel context) then ClientModel request else ChatRender.UpstreamModel context;
  rn_controls : rr_MaxOutputTokens out = MaxOutputTokens request ∧ rr_ParallelToolCalls out = ParallelTools request ∧
    rr_Temperature out = Temperature request ∧ rr_TopP out = TopP request ∧ rr_Metadata out = Metadata request;
  rn_effort : rr_Reasoning out = option_map (λ e, (Some e, None)) (effort_rendered request context (ChatRender.cap_ReasoningEffort capabilities));
  rn_stream : WireObject.Present (rr_Stream out) = Stream request ∧ WireObject.Value (rr_Stream out) = true;
}.

Lemma conversation_post policy turns : Forall turn_ok turns → Forall (λ t, Forall sendable (t_Parts t)) turns →
  has_post (collect (λ _ t, turn_items policy (t_Role t) [] (t_Parts t)) 0 turns)
    (λ items, ∃ l, reads items l ∧ Forall2 (λ said heard, said.1 = heard.1 ∧ reread policy said.2 heard.2) (roles_parts turns) l).
Proof.
  intros Hok Hl. assert (∀ i, has_post (collect (λ _ t, turn_items policy (t_Role t) [] (t_Parts t)) i turns)
    (λ items, ∃ l, reads items l ∧ Forall2 (λ said heard, said.1 = heard.1 ∧ reread policy said.2 heard.2) (roles_parts turns) l)) as H'; [|apply H'].
  induction Hok as [|t turns [_ Ht] _ IH]; intros i; simpl; [apply post_ret; exists []; split; [apply reads_nil|constructor]|].
  inversion_clear Hl as [|? ? Hlt Hlts]. eapply post_bind; [by apply (turn_reads policy)|]. intros items (ps & Hps & Hitems).
  eapply post_bind; [by apply IH|]. intros rest (l & Hrest & Hl). apply post_ret. exists (map (pair (t_Role t)) ps ++ l).
  split; [by apply reads_app|]. change (roles_parts (t :: turns)) with (map (pair (t_Role t)) (t_Parts t) ++ roles_parts turns). apply Forall2_app; [|done].
  simpl in Hps. clear -Hps. induction Hps as [|p q ps qs Hp _ IH]; [constructor|]. by constructor.
Qed.

Lemma render_post request context capabilities : has_post (RenderResponsesRequest request context capabilities) (rendered request context capabilities).
Proof.
  unfold RenderResponsesRequest. cbv zeta. set (policy := ChatRender.x_LossPolicy context).
  eapply (post_bind _ _ (λ _, Forall turn_ok (Turns request))); [apply post_lift; intros []; apply ChatRender.validated_turns|].
  intros [] Hok. apply post_seq. eapply post_bind; [apply instructions_post|]. intros instructions Hins. apply post_seq.
  eapply (post_bind _ _ (λ items, Forall (λ t, Forall sendable (t_Parts t)) (conversation (Turns request)) → ∃ l, reads items l ∧
    Forall2 (λ said heard, said.1 = heard.1 ∧ reread policy said.2 heard.2) (roles_parts (conversation (Turns request))) l)).
  { intros r items r' Hc Hl. eapply conversation_post; [|exact Hl|exact Hc]. unfold conversation.
    rewrite Forall_forall in *. intros t Hin%list_elem_of_In. apply filter_In in Hin as [Hin%list_elem_of_In _]. by apply Hok. }
  intros items Hitems. eapply (post_bind _ _ (λ _, StopSequences request ≠ [] → Allowed policy ≠ ∅)).
  { unfold when. destruct (StopSequences request); simpl; [by apply post_ret|]. eapply post_weaken; [apply post_Lose_some|]. by intros [] Hne _. }
  intros [] Hstop. eapply post_bind; [apply render_tools_post|]. intros tools Htools.
  eapply (post_bind _ _ (λ _, True)); [by intros ????|]. intros choice _.
  eapply post_bind; [apply effort_post|]. intros effort Heffort. apply post_seq. apply post_ret.
  constructor; simpl; try done; [by exists items|by rewrite Heffort].
Qed.

End laws.

(** The media type of a document is not sent, and nothing reports it. *)
Lemma media_type_lost mediaType mediaType' url base64 fileID filename :
  responses_part (CanonicalDocument mediaType url base64 fileID filename) =
  responses_part (CanonicalDocument mediaType' url base64 fileID filename).
Proof. done. Qed.

(** ** Sample: the conversation of [ChatRender] for a Responses upstream *)

Definition sample_render : result terr Request * ConversionReport :=
  RenderResponsesRequest (ChatRender.example_request 0 ChatRender.example_turns) (ChatRender.example_context StrictLossPolicy)
    ChatRender.no_capabilities fresh_report.

