(* ===== verification/Accept.v ===== *)
(** * The negotiation of the [Accept] header ([internal/transcode/handler.go])

    Whether a client that says nothing in its body wants a stream: the ranges of the
    header, the preference for each of the two representations, and the choice.  What
    [mime.ParseMediaType] makes of a range and [strconv.ParseFloat] of a weight that is
    a number are parameters; weights are exact. *)

From Stdlib Require Import ZArith QArith Qcanon Lia Bool List Ascii String.
From stdpp Require Import strings gmap list.
From S2P Require Import Prelude GoStd GoStr GoText Ir.

Open Scope string_scope.
Open Scope Z_scope.
Open Scope list_scope.

(** ** Ranges *)

Record acceptRange := { ra_MediaType : str; ra_q : Qc; ra_order : nat }.

(** The parts between the commas outside quoted strings; [part] is the current one. *)
Fixpoint split_ranges (inQuotes escaped : bool) (part : str) (accept : str) : list str :=
  match accept with
  | [] => [part]
  | c :: rest =>
      if escaped then split_ranges inQuotes false (part ++ [c]) rest
      else if inQuotes && byte_eqb c "\" then split_ranges inQuotes true (part ++ [c]) rest
      else if byte_eqb c quote_char then split_ranges (negb inQuotes) false (part ++ [c]) rest
      else if byte_eqb c "," && negb inQuotes then part :: split_ranges inQuotes false [] rest
      else split_ranges inQuotes false (part ++ [c]) rest
  end.

Definition splitAcceptRanges (accept : str) : list str := split_ranges false false [] accept.

Section accept.
(** The media type and the weight parameter of a range, if it parses. *)
Context (parse_media : str → option (str * option str)) (parse_float : str → option Qc).

Definition parse_range (order : nat) (part : str) : option acceptRange :=
  match parse_media part with
  | None => None
  | Some (mediaType, None) => Some {| ra_MediaType := mediaType; ra_q := 1%Qc; ra_order := order |}
  | Some (mediaType, Some raw) =>
      match parse_float raw with
      | None => None
      | Some q => if bool_decide (q < 0)%Qc || bool_decide (1 < q)%Qc then None
                  else Some {| ra_MediaType := mediaType; ra_q := q; ra_order := order |}
      end
  end.

Fixpoint parse_from (order : nat) (parts : list str) : list acceptRange :=
  match parts with
  | [] => []
  | part :: parts => option_list (parse_range order part) ++ parse_from (S order) parts
  end.

Definition parseAcceptRanges (accept : str) : list acceptRange := parse_from 0 (splitAcceptRanges accept).

(** ** Preferences *)

Record acceptPreference := { ap_acceptable : bool; ap_q : Qc; ap_specificity : Z; ap_order : nat }.

Definition specificity_of (mediaType typeWildcard : str) (r : acceptRange) : Z :=
  if str_eqb (ra_MediaType r) mediaType then 2
  else if str_eqb (ra_MediaType r) typeWildcard then 1
  else if str_eqb (ra_MediaType r) (lit "*/*") then 0
  else -1.

(** Whether a range of specificity [s] decides over [best]. *)
Definition outranks (s : Z) (r : acceptRange) (best : acceptPreference) : bool :=
  (ap_specificity best <? s) ||
  (s =? ap_specificity best) &&
  (bool_decide (ap_q best < ra_q r)%Qc || bool_decide (ra_q r = ap_q best) && (ra_order r <? ap_order best)%nat).

Definition prefer (mediaType typeWildcard : str) (best : acceptPreference) (r : acceptRange) : acceptPreference :=
  let s := specificity_of mediaType typeWildcard r in
  if s <? 0 then best
  else if outranks s r best then {| ap_acceptable := false; ap_q := ra_q r; ap_specificity := s; ap_order := ra_order r |}
  else best.

Definition effectiveAcceptPreference (ranges : list acceptRange) (mediaType typeWildcard : str) : acceptPreference :=
  let best := fold_left (prefer mediaType typeWildcard) ranges
                {| ap_acceptable := false; ap_q := 0%Qc; ap_specificity := -1; ap_order := 0 |} in
  {| ap_acceptable := negb ((0 <=? ap_specificity best) && bool_decide (ap_q best = 0%Qc));
     ap_q := ap_q best; ap_specificity := ap_specificity best; ap_order := ap_order best |}.

Definition AcceptIsEventStream (accept : str) : bool :=
  let ranges := parseAcceptRanges accept in
  let sse := effectiveAcceptPreference ranges (lit "text/event-stream") (lit "text/*") in
  let jsonPref := effectiveAcceptPreference ranges (lit "application/json") (lit "application/*") in
  if negb (ap_acceptable sse) && negb (ap_acceptable jsonPref) then false
  else if negb (ap_acceptable jsonPref) then true
  else if negb (ap_acceptable sse) then false
  else if negb (bool_decide (ap_q sse = ap_q jsonPref)) then bool_decide (ap_q jsonPref < ap_q sse)%Qc
  else if negb (ap_specificity sse =? ap_specificity jsonPref) then (ap_specificity jsonPref <? ap_specificity sse)
  else if negb (ap_order sse =? ap_order jsonPref)%nat then (ap_order sse <? ap_order jsonPref)%nat
  else false.
End accept.
