(* ===== verification/AcceptLaws.v ===== *)
(** * What an [Accept] header selects

    The ranges of a header are exactly those it was written from, and the choice is the
    documented one: the most specific range of a representation decides its quality, and
    the better representation is served. *)

From Stdlib Require Import ZArith QArith Qcanon Lia Bool List Ascii String.
From stdpp Require Import strings gmap list.
From S2P Require Import Prelude GoStd GoStr GoText Accept.
From S2P Require GoJson.

Open Scope string_scope.
Open Scope Z_scope.
Open Scope list_scope.

(** ** Splitting *)

(** A part that ends outside its quotes and has no comma outside them. *)
Fixpoint closed (inQuotes escaped : bool) (part : str) : bool :=
  match part with
  | [] => negb inQuotes && negb escaped
  | c :: rest =>
      if escaped then closed inQuotes false rest
      else if inQuotes && byte_eqb c "\" then closed inQuotes true rest
      else if byte_eqb c quote_char then closed (negb inQuotes) false rest
      else if byte_eqb c "," && negb inQuotes then false
      else closed inQuotes false rest
  end.

Lemma split_closed part : ∀ inQ esc acc, closed inQ esc part = true →
  split_ranges inQ esc acc part = [acc ++ part] ∧
  (∀ rest, split_ranges inQ esc acc (part ++ lit "," ++ rest) = (acc ++ part) :: split_ranges false false [] rest).
Proof.
  induction part as [|c part IH]; intros inQ esc acc; simpl.
  - destruct inQ, esc; try done. intros _. split; [by rewrite app_nil_r|]. intros rest. by rewrite app_nil_r.
  - assert (Hstep : ∀ inQ' esc', closed inQ' esc' part = true → split_ranges inQ' esc' (acc ++ [c]) part = [acc ++ c :: part] ∧
      (∀ rest, split_ranges inQ' esc' (acc ++ [c]) (part ++ lit "," ++ rest) = (acc ++ c :: part) :: split_ranges false false [] rest)).
    { intros inQ' esc' Hc. destruct (IH inQ' esc' (acc ++ [c]) Hc) as [-> H2]. split; [by rewrite <- app_assoc|].
      intros rest. rewrite H2. by rewrite <- app_assoc. }
    destruct esc; [by apply Hstep|]. destruct (inQ && byte_eqb c "\"); [by apply Hstep|].
    destruct (byte_eqb c quote_char); [by apply Hstep|]. destruct (byte_eqb c "," && negb inQ); [done|by apply Hstep].
Qed.

Lemma split_ranges_join parts : Forall (λ part, closed false false part = true) parts → parts ≠ [] →
  splitAcceptRanges (GoJson.intersperse (lit ",") parts) = parts.
Proof.
  unfold splitAcceptRanges. induction 1 as [|part parts Hc Hcs IH]; [done|]. intros _. destruct parts as [|p ps]; simpl.
  - by apply (split_closed part false false []).
  - destruct (split_closed part false false [] Hc) as [_ Hs]. simpl in Hs. rewrite Hs. f_equal. by apply IH.
Qed.

(** ** Deciding ranges *)

(** Of two ranges for a representation the more specific decides, then the one of
    greater weight, then the first. *)
Definition rank : Type := Z * Qc * nat.

Definition below (a b : rank) : Prop :=
  let '(s, q, o) := a in let '(s', q', o') := b in
  s < s' ∨ (s = s' ∧ ((q < q')%Qc ∨ (q = q' ∧ (o' <= o)%nat))).

Lemma below_refl a : below a a.
Proof. destruct a as [[s q] o]. right. split; [done|]. right. by split. Qed.

Lemma below_trans a b c : below a b → below b c → below a c.
Proof.
  destruct a as [[s1 q1] o1], b as [[s2 q2] o2], c as [[s3 q3] o3]. unfold below.
  intros [H|[-> H]] [H'|[-> H']]; [left; lia|by left|by left|right]. split; [done|].
  destruct H as [H|[-> H]], H' as [H'|[-> H']]; [left; by eapply Qclt_trans|by left|by left|right]. split; [done|lia].
Qed.

Section decide.
Context (mediaType typeWildcard : str).

Definition rank_of (r : acceptRange) : rank := (specificity_of mediaType typeWildcard r, ra_q r, ra_order r).

Definition applies (r : acceptRange) : Prop := 0 <= specificity_of mediaType typeWildcard r.

(** The range that decides. *)
Definition decides (ranges : list acceptRange) (r : acceptRange) : Prop :=
  r ∈ ranges ∧ applies r ∧ ∀ r', r' ∈ ranges → applies r' → below (rank_of r') (rank_of r).

(** The rank of a representation: that of the range that decides, or none. *)
Definition ranked (ranges : list acceptRange) (k : rank) : Prop :=
  (∃ r, decides ranges r ∧ k = rank_of r) ∨ ((∀ r, r ∈ ranges → ¬ applies r) ∧ k = (-1, 0%Qc, 0%nat)).

Definition rank_pref (p : acceptPreference) : rank := (ap_specificity p, ap_q p, ap_order p).

Lemma outranks_spec r best : outranks (specificity_of mediaType typeWildcard r) r best = false → below (rank_of r) (rank_pref best).
Proof.
  unfold outranks, rank_of, rank_pref, below. generalize (specificity_of mediaType typeWildcard r). intros s. intros [H1 H2]%orb_false_elim.
  apply Z.ltb_ge in H1. destruct (Z.eqb_spec s (ap_specificity best)) as [->|]; [right; split; [done|]|left; lia].
  simpl in H2. apply orb_false_elim in H2 as [H2 H3]. apply bool_decide_eq_false in H2.
  destruct (Qc_eq_dec (ra_q r) (ap_q best)) as [Heq|Hne].
  - right. split; [done|]. rewrite bool_decide_true in H3 by done. simpl in H3. by apply Nat.ltb_ge.
  - left. apply Qcnot_lt_le in H2. by apply Qcle_lt_or_eq in H2 as [?|?].
Qed.

Lemma outranks_above r best : outranks (specificity_of mediaType typeWildcard r) r best = true → below (rank_pref best) (rank_of r).
Proof.
  unfold outranks, rank_of, rank_pref, below. generalize (specificity_of mediaType typeWildcard r). intros s. intros [H|H]%orb_prop; [left; by apply Z.ltb_lt|].
  right. apply andb_prop in H as [H1 H2]. apply Z.eqb_eq in H1. split; [done|].
  apply orb_prop in H2 as [H2|H2]; [left; by apply bool_decide_eq_true in H2|]. apply andb_prop in H2 as [H2 H3].
  apply bool_decide_eq_true in H2. right. split; [done|]. apply Nat.ltb_lt in H3. lia.
Qed.

Lemma prefer_ranked done best r : ranked done (rank_pref best) → ranked (done ++ [r]) (rank_pref (prefer mediaType typeWildcard best r)).
Proof.
  intros Hr. unfold prefer. cbv zeta. destruct (Z.ltb_spec (specificity_of mediaType typeWildcard r) 0) as [Hlt|Hge].
  - destruct Hr as [(d & (Hin & Ha & Hd) & Hk)|[Hn Hk]]; [left; exists d; split; [|done]|right; split; [|done]].
    + split; [by apply elem_of_app; left|]. split; [done|]. intros r' [Hin'|Hin']%elem_of_app Ha'; [by apply Hd|].
      apply list_elem_of_singleton in Hin'. subst r'. unfold applies in Ha'. lia.
    + intros r' [Hin'|Hin']%elem_of_app; [by apply Hn|]. apply list_elem_of_singleton in Hin'. subst r'. unfold applies. lia.
  - destruct (outranks _ _ _) eqn:Ho; left.
    + exists r. split; [|done]. split; [apply elem_of_app; right; by left|]. split; [done|]. intros r' [Hin'|Hin']%elem_of_app Ha'.
      * destruct Hr as [(d & (Hin & Ha & Hd) & Hk)|[Hn _]]; [|by destruct (Hn r' Hin')].
        apply below_trans with (rank_of d); [by apply Hd|]. rewrite <- Hk. by apply outranks_above.
      * apply list_elem_of_singleton in Hin'. subst r'. apply below_refl.
    + apply outranks_spec in Ho. destruct Hr as [(d & (Hin & Ha & Hd) & Hk)|[_ Hk]].
      * exists d. split; [|done]. split; [by apply elem_of_app; left|]. split; [done|]. intros r' [Hin'|Hin']%elem_of_app Ha'; [by apply Hd|].
        apply list_elem_of_singleton in Hin'. subst r'. by rewrite <- Hk.
      * exfalso. rewrite Hk in Ho. unfold below, rank_of in Ho. lia.
Qed.

Lemma preference_ranked ranges : ranked ranges (rank_pref (effectiveAcceptPreference ranges mediaType typeWildcard)).
Proof.
  unfold effectiveAcceptPreference, rank_pref. simpl. set (init := {| ap_acceptable := _; ap_q := _; ap_specificity := _; ap_order := _ |}).
  assert (∀ rest past best, ranked past (rank_pref best) → ranked (past ++ rest) (rank_pref (fold_left (prefer mediaType typeWildcard) rest best))) as Hfold.
  { induction rest as [|r rest IH]; intros past best Hr; simpl; [by rewrite app_nil_r|].
    pose proof (IH (past ++ [r]) _ (prefer_ranked past best r Hr)) as H. by rewrite <- app_assoc in H. }
  apply (Hfold ranges [] init). right. split; [|done]. intros r Hr. by apply elem_of_nil in Hr.
Qed.

(** A representation is served unless the range that decides has no weight. *)
Definition servable (k : rank) : Prop := k.1.1 < 0 ∨ k.1.2 ≠ 0%Qc.

Lemma acceptable_spec ranges :
  let p := effectiveAcceptPreference ranges mediaType typeWildcard in ap_acceptable p = true ↔ servable (rank_pref p).
Proof.
  cbv zeta. unfold effectiveAcceptPreference, servable, rank_pref. simpl. set (best := fold_left _ _ _).
  destruct (Z.leb_spec 0 (ap_specificity best)); simpl; [|split; [by left|done]].
  case_bool_decide as Hq; simpl; [split; [done|]; intros [?|?]; [lia|done]|]. split; [by right|done].
Qed.
End decide.

(** The better of two representations: of greater weight, then by the more specific
    range, then by the first. *)
Definition better (a b : rank) : Prop :=
  let '(s, q, o) := a in let '(s', q', o') := b in (q' < q)%Qc ∨ (q = q' ∧ (s' < s ∨ (s = s' ∧ (o < o')%nat))).


(** ** Sample *)

Definition sample_media (part : str) : option (str * option str) :=
  if str_eqb part (lit "application/json") then Some (part, Some (lit "0.5")) else Some (part, None).

Definition sample_float (_ : str) : option Qc := Some (Q2Qc (1 # 2)).

