(* ===== verification/ConvertRequest.v ===== *)
(** * The handler's conversion of a request ([internal/transcode/handler.go], [models.go])

    The model a client asks for, by profile or by mapping; the conversation a request
    continues; and [convertRequest], which decodes the client's request, resolves both,
    renders the request for the upstream and bounds it.  The report of the exchange is
    that of the rendering, then that of the decoding. *)

From Stdlib Require Import ZArith QArith Qcanon Lia Bool List Ascii String.
From stdpp Require Import strings pretty gmap list sorting.
From S2P Require Import Prelude GoStd GoStr GoText GoJson Losses Ir ResponseDecode Accept.
From S2P Require ChatRender ResponseRender ApiErrors Continuity MsgRequest RespRequest RespRequestRender.

Open Scope string_scope.
Open Scope Z_scope.
Open Scope conv_scope.
Open Scope list_scope.

(** ** Models *)

Record ModelMapping := {
  mm_ClientModel : str;
  mm_UpstreamModel : str;
  mm_ClientResponseModel : str;
  mm_Via : str;
  mm_ReasoningTier : str;
}.

Record ModelMap := { Exact : gmap str ModelMapping; AllowIdentity : bool; RequireExplicitMap : bool }.

Record ProfileMapping := { pf_Model : str; pf_ReasoningTier : str }.

Definition ProfileMap : Type := gmap str ProfileMapping.

Definition ResolveProfile (p : ProfileMap) (profileName : str) : option (str * str) :=
  m ← p !! profileName; Some (pf_Model m, pf_ReasoningTier m).

(** The order of strings, by bytes. *)
Fixpoint str_leb (a b : str) : bool :=
  match a, b with
  | [], _ => true
  | _ :: _, [] => false
  | x :: a, y :: b => if (N_of_ascii x =? N_of_ascii y)%N then str_leb a b else (N_of_ascii x <? N_of_ascii y)%N
  end.

Definition str_le (a b : str) : Prop := str_leb a b = true.

#[export] Instance str_le_dec a b : Decision (str_le a b).
Proof. unfold str_le. apply _. Defined.

Definition maxServableModels : nat := 20.

(** The models of a mount, the first of them in order and how many more there are. *)
Definition servable_names (m : ModelMap) : list str := merge_sort str_le (map fst (map_to_list (Exact m))).

Definition servable (m : ModelMap) : str :=
  let names := servable_names m in
  let shown := Nat.min (length names) maxServableModels in
  let text := GoJson.intersperse (lit ", ") (take shown names) in
  let text := if (shown <? length names)%nat
              then text ++ lit (" ... (+" ++ pretty (N.of_nat (length names - shown)) ++ " more)")%string else text in
  if is_empty text then lit "none" else text.

Section convert.
Context `{UnicodeTables}.
(** [strconv.Quote], for the texts of errors and notes. *)
Context (quote : str → str).

Definition no_mapping (clientModel : str) : str := lit "no upstream model mapping for client model " ++ quote clientModel.

(** The mapping of a model, or the text of the error. *)
Definition Resolve (m : ModelMap) (clientModel : str) : result str ModelMapping :=
  match Exact m !! clientModel with
  | Some mapping =>
      Ok (if is_empty (mm_ClientResponseModel mapping)
          then {| mm_ClientModel := mm_ClientModel mapping; mm_UpstreamModel := mm_UpstreamModel mapping;
                  mm_ClientResponseModel := clientModel; mm_Via := mm_Via mapping; mm_ReasoningTier := mm_ReasoningTier mapping |}
          else mapping)
  | None =>
      if AllowIdentity m && negb (RequireExplicitMap m) then
        Ok {| mm_ClientModel := clientModel; mm_UpstreamModel := clientModel; mm_ClientResponseModel := clientModel;
              mm_Via := []; mm_ReasoningTier := [] |}
      else if RequireExplicitMap m then Err (no_mapping clientModel ++ lit "; servable on this mount: " ++ servable m)
      else Err (no_mapping clientModel)
  end.

(** ** The exchange *)

Record MessagesRequestContext := { MaxTokens : Z; mc_Metadata : gmap str str }.

Record ExchangeContext := {
  x_IDs : ResponseRender.ExchangeIDs;
  x_LossPolicy : LossPolicy;
  x_StreamIntent : bool;
  x_RequestedClientModel : str;
  x_UpstreamModel : str;
  x_ResolvedReasoningTier : str;
  x_OriginalResponsesRequest : option RespRequest.ResponsesRequestEcho;
  x_OriginalMessagesRequest : option MessagesRequestContext;
  x_ToolNames : option ToolNames;
  x_RequestTurns : list CanonicalTurn;
  x_RequestDepth : Z;
}.

(** What the renderers of requests read of the client's own. *)
Definition echo_read (e : RespRequest.ResponsesRequestEcho) : ChatRender.ResponsesRequestEcho :=
  {| ChatRender.e_User := RespRequest.ec_User e; ChatRender.e_Store := RespRequest.ec_Store e;
     ChatRender.e_PreviousResponseID := RespRequest.ec_PreviousResponseID e; ChatRender.e_TopLogprobs := RespRequest.ec_TopLogprobs e;
     ChatRender.e_ServiceTier := RespRequest.ec_ServiceTier e; ChatRender.e_Truncation := RespRequest.ec_Truncation e;
     ChatRender.e_ReasoningEffort := RespRequest.ec_Reasoning e ≫= fst; ChatRender.e_ReasoningSummary := RespRequest.ec_Reasoning e ≫= snd |}.

(** The exchange as the renderers of requests and those of responses read it. *)
Definition for_request (x : ExchangeContext) : ChatRender.ExchangeContext :=
  {| ChatRender.UpstreamModel := x_UpstreamModel x; ChatRender.x_LossPolicy := x_LossPolicy x;
     ChatRender.OriginalResponsesRequest := echo_read <$> x_OriginalResponsesRequest x; ChatRender.RequestDepth := x_RequestDepth x;
     ChatRender.ResolvedReasoningTier := x_ResolvedReasoningTier x; ChatRender.x_ToolNames := x_ToolNames x |}.

Definition for_response (x : ExchangeContext) : ResponseRender.ExchangeContext :=
  {| ResponseRender.x_RequestedClientModel := x_RequestedClientModel x; ResponseRender.x_IDs := Some (x_IDs x);
     ResponseRender.x_LossPolicy := x_LossPolicy x; ResponseRender.x_ToolNames := x_ToolNames x;
     ResponseRender.x_RequestTurns := x_RequestTurns x; ResponseRender.x_RequestDepth := x_RequestDepth x;
     ResponseRender.x_Store := x_OriginalResponsesRequest x ≫= RespRequest.ec_Store |}.

(** ** The configuration *)

Record Mapping := {
  ClientProtocol : ApiErrors.ClientProtocol;
  UpstreamProtocol : ApiErrors.UpstreamProtocol;
  map_LossPolicy : LossPolicy;
  map_Capabilities : ChatRender.ChatCapabilities;
  map_ModelMap : ModelMap;
  map_ProfileMap : ProfileMap;
  ContinuityKey : str;
  DecodedRequestBytes : Z;
}.

(** The model of an exchange: what the client is told, what the upstream is, and the tier. *)
Record resolved := { rv_RequestedClientModel : str; rv_UpstreamModel : str; rv_Tier : str }.

Definition model_error {A} (text : str) : Conv A := fail (Errorf (string_of_list_ascii text)).

Definition resolveModel (m : Mapping) (clientModel : str) : Conv resolved :=
  match ResolveProfile (map_ProfileMap m) clientModel with
  | Some (profileModel, profileTier) =>
      match Resolve (map_ModelMap m) profileModel with
      | Err e =>
          model_error (lit "profile " ++ quote clientModel ++ lit " targets unmapped model " ++ quote profileModel ++ lit ": " ++ e)
      | Ok mapping =>
          let collapsed := negb (is_empty profileTier) && negb (is_empty (mm_ReasoningTier mapping)) &&
                           negb (str_eqb profileTier (mm_ReasoningTier mapping)) in
          when collapsed
            (Note "profile_routing" "model"
               (string_of_list_ascii (lit "profile " ++ quote clientModel ++ lit " requested tier " ++ quote profileTier ++
                  lit " but model mapping pins tier " ++ quote (mm_ReasoningTier mapping)))) ;;~
          ret {| rv_RequestedClientModel := clientModel; rv_UpstreamModel := mm_UpstreamModel mapping;
                 rv_Tier := if collapsed then mm_ReasoningTier mapping
                            else if negb (is_empty profileTier) then profileTier else mm_ReasoningTier mapping |}
      end
  | None =>
      match Resolve (map_ModelMap m) clientModel with
      | Err e => model_error e
      | Ok mapping =>
          ret {| rv_RequestedClientModel := mm_ClientResponseModel mapping; rv_UpstreamModel := mm_UpstreamModel mapping;
                 rv_Tier := mm_ReasoningTier mapping |}
      end
  end.

Definition continuityNote (depth : Z) (responseID : str) : Conv unit :=
  Note "previous_response_id" "request.previous_response_id"
    (string_of_list_ascii (lit "previous_response_id " ++ quote responseID ++
       lit (" resolved against the continuity store (depth " ++ pretty depth ++ "); the reconstructed turns precede the request input")%string)).

(** ** Continuity *)

(** The conversation that an echo names, if one is retained, its depth, and the store. *)
Definition prior_of (m : Mapping) (echo : RespRequest.ResponsesRequestEcho) (now : Time) (store : option Continuity.ContinuityStore)
    : option (str * list CanonicalTurn * Z) * option Continuity.ContinuityStore :=
  match store, RespRequest.ec_PreviousResponseID echo with
  | Some s, Some id =>
      if is_empty id then (None, store)
      else
        let '(found, s) := Continuity.resolveContinuityChain (ContinuityKey m) id now s in
        (match found with Some (turns, depth) => Some (id, turns, depth) | None => None end, Some s)
  | _, _ => (None, store)
  end.

Definition with_model (stream : bool) (model : str) (d : CanonicalRequest) : CanonicalRequest :=
  {| ClientModel := model; Turns := Turns d; Tools := Tools d; RetainedTurns := RetainedTurns d; Ir.ToolChoice := Ir.ToolChoice d;
     ParallelTools := ParallelTools d; MaxOutputTokens := MaxOutputTokens d; Temperature := Temperature d; TopP := TopP d;
     StopSequences := StopSequences d; StructuredOutput := StructuredOutput d; Stream := stream; Metadata := Metadata d;
     Thinking := Thinking d; Artifacts := Artifacts d |}.

Definition continued (prior : list CanonicalTurn) (d : CanonicalRequest) : CanonicalRequest :=
  {| ClientModel := ClientModel d; Turns := prior ++ Turns d; Tools := Tools d; RetainedTurns := length prior;
     Ir.ToolChoice := Ir.ToolChoice d; ParallelTools := ParallelTools d; MaxOutputTokens := MaxOutputTokens d; Temperature := Temperature d;
     TopP := TopP d; StopSequences := StopSequences d; StructuredOutput := StructuredOutput d; Stream := Stream d; Metadata := Metadata d;
     Thinking := Thinking d; Artifacts := Artifacts d |}.

(** A body's own word on streaming goes before the client's [Accept] header. *)
Definition stream_intent (accepts : bool) (d : MsgRequest.DecodeResult) : bool :=
  if MsgRequest.d_StreamSet d then Stream (MsgRequest.d_Request d) else accepts.

(** ** The conversion *)

Inductive upstream_request := ChatUpstream (r : ChatRender.ChatRequest) | ResponsesUpstream (r : RespRequest.Request).

Context (marshal : gmap str json → str) (marshal_reasoning : RespRequest.ReasoningInput → option str).
Context (marshal_echo : RespRequest.ResponsesRequestEcho → option str) (decode_responses : str → result envelope_error RespRequest.Request).
Context (marshal_block : MsgRequest.ContentBlock → option str) (decode_messages : str → option MsgRequest.Request).
(** [json.Marshal] of a request for the upstream. *)
Context (marshal_upstream : upstream_request → option str).
Context (parse_media : str → option (str * option str)) (parse_float : str → option Qc).

Definition checkDecodedRequestSize (limit : Z) (rendered : str) : Conv unit :=
  if (0 <? limit) && (limit <? Z.of_nat (length rendered)) then fail (Errorf "errDecodedRequestTooLarge") else ret tt.

Definition render_upstream (m : Mapping) (client : string) (d : CanonicalRequest) (x : ExchangeContext) : Conv (upstream_request * str) :=
  r <~ match UpstreamProtocol m with
       | ApiErrors.UpstreamChatCompletions =>
           r <~ ChatRender.RenderChatRequest d (for_request x) (map_Capabilities m) ;; ret (ChatUpstream r)
       | ApiErrors.UpstreamResponses =>
           r <~ RespRequestRender.RenderResponsesRequest d (for_request x) (map_Capabilities m) ;; ret (ResponsesUpstream r)
       | ApiErrors.UpstreamMessages => fail (Errorf ("unsupported upstream protocol for " ++ client ++ " client"))
       end ;;
  match marshal_upstream r with Some rendered => ret (r, rendered) | None => fail (Errorf "marshal") end.

(** What rendering and decoding report together, and the exchange with what it sends. *)
Definition rendered_exchange (m : Mapping) (client : string) (d : CanonicalRequest) (x : ExchangeContext) (decodeReport : ConversionReport)
    : result terr (upstream_request * str * ExchangeContext) * list ConversionLoss :=
  match (p <~ render_upstream m client d x ;; checkDecodedRequestSize (DecodedRequestBytes m) p.2 ;;~ ret p) fresh_report with
  | (Ok (r, rendered), report) => (Ok (r, rendered, x), Losses report ++ Losses decodeReport)
  | (Err e, _) => (Err e, [])
  end.

Definition exchange (m : Mapping) (ids : ResponseRender.ExchangeIDs) (intent : bool) (v : resolved) : ExchangeContext :=
  {| x_IDs := ids; x_LossPolicy := map_LossPolicy m; x_StreamIntent := intent; x_RequestedClientModel := rv_RequestedClientModel v;
     x_UpstreamModel := rv_UpstreamModel v; x_ResolvedReasoningTier := rv_Tier v; x_OriginalResponsesRequest := None;
     x_OriginalMessagesRequest := None; x_ToolNames := None; x_RequestTurns := []; x_RequestDepth := 0 |}.

Definition responses_exchange (m : Mapping) (ids : ResponseRender.ExchangeIDs) (accepts : bool) (r : MsgRequest.DecodeResult)
    (echo : RespRequest.ResponsesRequestEcho) (v : resolved) (prior : option (str * list CanonicalTurn * Z))
    : Conv (CanonicalRequest * ExchangeContext) :=
  let intent := stream_intent accepts r in
  let d := with_model intent (rv_UpstreamModel v) (MsgRequest.d_Request r) in
  let x := exchange m ids intent v in
  let given (d : CanonicalRequest) (depth : Z) :=
    (d, {| x_IDs := x_IDs x; x_LossPolicy := x_LossPolicy x; x_StreamIntent := x_StreamIntent x;
           x_RequestedClientModel := x_RequestedClientModel x; x_UpstreamModel := x_UpstreamModel x;
           x_ResolvedReasoningTier := x_ResolvedReasoningTier x; x_OriginalResponsesRequest := Some echo; x_OriginalMessagesRequest := None;
           x_ToolNames := MsgRequest.d_ToolNames r; x_RequestTurns := Turns d; x_RequestDepth := depth |}) in
  match prior with
  | Some (id, turns, depth) => continuityNote depth id ;;~ ret (given (continued turns d) depth)
  | None => ret (given d 0)
  end.

Definition messages_exchange (m : Mapping) (ids : ResponseRender.ExchangeIDs) (accepts : bool) (r : MsgRequest.DecodeResult) (v : resolved)
    : CanonicalRequest * ExchangeContext :=
  let intent := stream_intent accepts r in
  let d := with_model intent (rv_UpstreamModel v) (MsgRequest.d_Request r) in
  let x := exchange m ids intent v in
  (d, {| x_IDs := x_IDs x; x_LossPolicy := x_LossPolicy x; x_StreamIntent := x_StreamIntent x;
         x_RequestedClientModel := x_RequestedClientModel x; x_UpstreamModel := x_UpstreamModel x;
         x_ResolvedReasoningTier := x_ResolvedReasoningTier x; x_OriginalResponsesRequest := None;
         x_OriginalMessagesRequest :=
           Some {| MaxTokens := default 0 (MaxOutputTokens (MsgRequest.d_Request r)); mc_Metadata := Metadata (MsgRequest.d_Request r) |};
         x_ToolNames := None; x_RequestTurns := []; x_RequestDepth := 0 |}).

(** The request for the upstream, its bytes and the exchange, or the error; the losses to
    log; and the store, from which an old conversation is removed when it is asked for. *)
Definition convertRequest (m : Mapping) (ids : ResponseRender.ExchangeIDs) (accept body : str) (now : Time)
    (store : option Continuity.ContinuityStore)
    : result terr (upstream_request * str * ExchangeContext) * list ConversionLoss * option Continuity.ContinuityStore :=
  let accepts := AcceptIsEventStream parse_media parse_float accept in
  match ClientProtocol m with
  | ApiErrors.ClientResponses =>
      match (p <~ RespRequest.DecodeResponsesRequest marshal marshal_reasoning marshal_echo decode_responses body (map_LossPolicy m) ;;
             v <~ resolveModel m (ClientModel (MsgRequest.d_Request p.1)) ;; ret (p, v)) fresh_report with
      | (Err e, _) => (Err e, [], store)
      | (Ok (p, v), report) =>
          let '(prior, store) := prior_of m p.2 now store in
          match responses_exchange m ids accepts p.1 p.2 v prior report with
          | (Err e, _) => (Err e, [], store)
          | (Ok (d, x), report) => (rendered_exchange m "responses" d x report, store)
          end
      end
  | ApiErrors.ClientMessages =>
      match (r <~ MsgRequest.DecodeMessagesRequest marshal marshal_block decode_messages body (map_LossPolicy m) ;;
             v <~ resolveModel m (ClientModel (MsgRequest.d_Request r)) ;; ret (r, v)) fresh_report with
      | (Err e, _) => (Err e, [], store)
      | (Ok (r, v), report) =>
          let '(d, x) := messages_exchange m ids accepts r v in
          (rendered_exchange m "messages" d x report, store)
      end
  end.
End convert.
