(* ===== verification/ConvertErrors.v ===== *)
(** * How the conversion of a request fails

    Every error of the decoders, of the two renderers and of the resolution of a model
    is the proxy's own word to its client: none is a panic, none an upstream's. *)

From Stdlib Require Import ZArith QArith Qcanon Lia Bool List Ascii String.
From stdpp Require Import strings gmap list.
From S2P Require Import Prelude GoStd GoStr GoText GoJson Losses Ir ResponseDecode ConvertRequest.
From S2P Require ApiErrors ChatRender RespRequest RespRequestRender MsgRequest MsgRequestLaws ToolNamesLaws RespRequestLaws Continuity.

Open Scope string_scope.
Open Scope Z_scope.
Open Scope conv_scope.
Open Scope list_scope.

(** ** Errors that stay with the client *)

Fixpoint local_error (e : terr) : Prop :=
  match e with
  | UnsupportedFeatureError _ _ _ | UnrepresentableError _ _ _ | Errorf _ => True
  | ErrAt _ _ e => local_error e
  | UpstreamWireError _ | UpstreamSemanticFailureError _ | NilPanic => False
  end.

Lemma client_is_local e : MsgRequestLaws.client_error e → local_error e.
Proof. by induction e. Qed.

Definition res_safe {A} (r : result terr A) : Prop := match r with Ok _ => True | Err e => local_error e end.

Definition safe {A} (m : Conv A) : Prop := triple m (λ _, True) local_error.

Lemma safe_ret {A} (a : A) : safe (ret a).
Proof. by apply t_ret. Qed.

Lemma safe_fail {A} e : local_error e → safe (@fail A e).
Proof. by apply t_fail. Qed.

Lemma safe_bind {A B} (m : Conv A) (k : A → Conv B) : safe m → (∀ a, safe (k a)) → safe (a <~ m ;; k a).
Proof. intros Hm Hk. eapply t_bind; [exact Hm|]. intros a _. apply Hk. Qed.

Lemma safe_lift {A} (r : result terr A) : res_safe r → safe (lift r).
Proof. intros H. by apply t_lift. Qed.

Lemma safe_Note f path detail : safe (Note f path detail).
Proof. by apply t_Note. Qed.

Lemma safe_Lose policy f path detail : safe (Lose policy f path detail).
Proof. by apply t_Lose. Qed.

Lemma safe_when b m : safe m → safe (when b m).
Proof. intros Hm. by apply t_when. Qed.

Lemma safe_at_index {A} what i (m : Conv A) : safe m → safe (at_index what i m).
Proof. intros Hm. by apply t_at_index. Qed.

Lemma safe_collect {A B} (f : nat → A → Conv (list B)) i l : (∀ i x, safe (f i x)) → safe (collect f i l).
Proof. intros Hf. eapply t_weaken; [apply (t_collect _ f (λ _ _, True)); intros j x _; apply Hf|done]. Qed.

Lemma safe_triple {A} (m : Conv A) Q : triple m Q MsgRequestLaws.client_error → safe m.
Proof. intros Hm r. specialize (Hm r). destruct (m r).1; [done|]. by apply client_is_local. Qed.

Lemma res_bind {A B} (r : result terr A) (k : A → result terr B) : res_safe r → (∀ a, res_safe (k a)) → res_safe (result_bind r k).
Proof. by destruct r; simpl. Qed.

Lemma res_first_error {A} what (check : A → result terr unit) l : ∀ i, (∀ x, res_safe (check x)) → res_safe (first_error what check i l).
Proof.
  induction l as [|x l IH]; intros i Hc; simpl; [done|]. specialize (Hc x) as Hx. destruct (check x) as [[]|e]; [by apply IH|exact Hx].
Qed.

Lemma res_client_safe {A} (r : result terr A) : MsgRequestLaws.res_client r → res_safe r.
Proof. destruct r; [done|]. apply client_is_local. Qed.

Ltac settled :=
  repeat first [ done | apply res_bind; [|intros ?] | apply res_first_error; intros ? | case_match ].

Create HintDb safe discriminated.
#[export] Hint Resolve safe_ret safe_Note safe_Lose : safe.

(** A conversion all of whose parts fail only with an error for the client. *)
Ltac safely :=
  repeat first
    [ solve [auto with safe] | apply safe_fail; exact I | apply safe_lift; exact I | apply safe_bind; [|intros ?] | apply safe_when
    | apply safe_at_index | apply safe_collect; intros ? ? | case_match ].

(** ** The checks of the canonical form *)

Lemma part_settled p : res_safe (validateCanonicalPart p).
Proof.
  induction p as [p Hleaf|callID isError parts IH] using part_nested_ind; [destruct p; simpl; try done; try (exfalso; by eapply Hleaf); settled|simpl].
  destruct (is_empty callID); [done|]. generalize 0%nat. induction IH as [|p parts Hp _ IHp]; intros i; [done|].
  destruct (validateCanonicalPart p) as [[]|e]; [apply IHp|exact Hp].
Qed.

Lemma request_settled request : res_safe (ValidateCanonicalRequest request).
Proof. unfold ValidateCanonicalRequest, validate_turn. settled; try apply part_settled. Qed.

Lemma safe_artifacts request target policy : safe (RequirePortableArtifacts request target policy).
Proof. unfold RequirePortableArtifacts. safely. Qed.
#[export] Hint Resolve safe_artifacts : safe.

(** ** A Chat upstream *)

Section chat.
Import ChatRender.
Context (capabilities : ChatCapabilities) (policy : LossPolicy).

Lemma url_settled mediaType url base64 : res_safe (image_url mediaType url base64).
Proof. unfold image_url, imageDataURL. settled. Qed.

Lemma safe_detail detail path : safe (chatImageDetail detail path policy).
Proof. unfold chatImageDetail. safely. Qed.
#[local] Hint Resolve safe_detail : safe.

Lemma safe_text_turn turn role : safe (canonicalTextTurnToChatMessage turn role policy).
Proof. unfold canonicalTextTurnToChatMessage, text_turn_part. safely. Qed.

Lemma safe_url mediaType url base64 : safe (lift (image_url mediaType url base64)).
Proof. apply safe_lift, url_settled. Qed.
#[local] Hint Resolve safe_text_turn safe_url : safe.

Lemma safe_user_message parts : safe (canonicalContentPartsToChatUserMessage parts capabilities policy).
Proof. unfold canonicalContentPartsToChatUserMessage, user_part. safely. Qed.
#[local] Hint Resolve safe_user_message : safe.

Lemma safe_multipart_blocks parts : safe (multipart_blocks policy parts).
Proof. induction parts as [|p parts IH]; simpl; safely. Qed.

Lemma safe_multipart callID parts : safe (renderChatToolResultMultipart callID parts capabilities policy).
Proof.
  intros r. unfold renderChatToolResultMultipart. destruct (negb _); [done|].
  pose proof (safe_multipart_blocks parts fresh_report) as Hs.
  by destruct (multipart_blocks policy parts fresh_report) as [[[[|b bs]|]|e] scratch].
Qed.
#[local] Hint Resolve safe_multipart : safe.

Lemma safe_or_unrepresentable f path detail e : local_error e → safe (Lose_or_unrepresentable policy f path detail e).
Proof. intros He r. unfold Lose_or_unrepresentable. by destruct (Lose policy f path detail r) as [[]]. Qed.

Lemma envelope_settled parts : res_safe (encodeToolResultEnvelope parts).
Proof.
  unfold encodeToolResultEnvelope. apply res_bind; [|done]. generalize 0%nat. induction parts as [|p parts IH]; intros i; simpl; [done|].
  assert (res_safe (envelope_part p)) as Hp.
  { destruct p; simpl; try done; (apply res_bind; [|done]); [apply url_settled|unfold encodeDataURL; settled]. }
  destruct (envelope_part p); [|exact Hp]. by apply res_bind.
Qed.

Lemma safe_tool_result callID isError parts : safe (renderChatToolResult callID isError parts capabilities policy).
Proof.
  unfold renderChatToolResult. cbv zeta. safely; try (by apply safe_or_unrepresentable); apply safe_lift, envelope_settled.
Qed.
#[local] Hint Resolve safe_tool_result : safe.

Lemma safe_user_messages pending parts : safe (user_messages capabilities policy pending parts).
Proof. revert pending. induction parts as [|p parts IH]; intros pending; simpl; unfold flush_content; safely. Qed.
#[local] Hint Resolve safe_user_messages : safe.

Lemma assistant_settled turn : res_safe (canonicalAssistantTurnToChatMessage turn).
Proof.
  unfold canonicalAssistantTurnToChatMessage. apply res_bind; [|done]. generalize 0%nat, {| a_blocks := []; a_calls := []; a_refusal := None |}.
  induction (t_Parts turn) as [|p parts IH]; intros i a; simpl; [done|]. destruct p; try apply IH; done.
Qed.

Lemma safe_turn retained turn : safe (render_turn capabilities policy retained turn).
Proof. unfold render_turn, canonicalUserTurnToChatMessages. safely. apply safe_lift, assistant_settled. Qed.
#[local] Hint Resolve safe_turn : safe.

Lemma safe_place rendered : safe (place_messages capabilities policy rendered).
Proof. unfold place_messages, consolidate. safely. Qed.

Lemma safe_prime request context messages : safe (prime capabilities request context messages).
Proof. unfold prime, applyMultiAgentPriming. safely. Qed.

Lemma safe_tools float64 noted tools : safe (render_tools float64 noted tools).
Proof. revert noted. induction tools as [|t tools IH]; intros noted; simpl; safely. Qed.

Lemma safe_choice choice : safe (render_choice choice).
Proof. unfold render_choice, canonicalToolChoiceToChat. safely; apply safe_lift; settled. Qed.

Lemma safe_gated {A} have f path detail (v : option A) : safe (gated have policy f path detail v).
Proof. unfold gated. safely. Qed.

Lemma safe_thinking effort_cap thinking effort : safe (render_thinking effort_cap policy thinking effort).
Proof. unfold render_thinking. safely. Qed.
#[local] Hint Resolve safe_place safe_prime safe_tools safe_choice safe_gated safe_thinking : safe.

Lemma safe_chat request context : x_LossPolicy context = policy → safe (RenderChatRequest request context capabilities).
Proof.
  intros Hp. unfold RenderChatRequest, developer_losses, render_messages, render_turns, representable, echo_losses. rewrite Hp.
  cbv zeta. safely; apply safe_lift, request_settled.
Qed.
End chat.

(** ** A Responses upstream *)

Section responses.
Import RespRequest RespRequestRender.
Context (policy : LossPolicy).

Lemma responses_part_settled p : res_safe (responses_part p).
Proof.
  destruct p; simpl; try done.
  - unfold canonicalImageToResponsesInputImage, ChatRender.imageDataURL. settled.
  - unfold canonicalDocumentToResponsesInputFile. apply res_bind; [|done]. apply res_client_safe, RespRequestLaws.checked_input_content.
Qed.

Lemma content_settled parts : ∀ i, res_safe (canonicalPartsToResponsesContent i parts).
Proof.
  induction parts as [|p parts IH]; intros i; simpl; [done|]. pose proof (responses_part_settled p) as Hp.
  destruct (responses_part p) as [q|e]; [by apply res_bind|]. by destruct (is_placed p).
Qed.

Lemma safe_flush role pending : safe (flush role pending).
Proof.
  unfold flush. destruct pending; [safely|]. apply safe_bind; [|safely]. apply safe_lift. unfold canonicalTurnPartsToEasyMessage.
  apply res_bind; [apply content_settled|done].
Qed.
#[local] Hint Resolve safe_flush : safe.

Lemma safe_output parts : safe (lift (canonicalPartsToFunctionOutput parts)).
Proof.
  apply safe_lift. unfold canonicalPartsToFunctionOutput.
  assert (res_safe (ps <-? canonicalPartsToResponsesContent 0 parts ;; Ok (OutputOfParts <$> arm ps))) as H
    by (apply res_bind; [apply content_settled|done]).
  destruct parts as [|[] [|]]; done.
Qed.
#[local] Hint Resolve safe_output : safe.

Lemma safe_items role parts : ∀ pending, safe (turn_items policy role pending parts).
Proof. induction parts as [|p parts IH]; intros pending; simpl; unfold transcodeToolResult; safely. Qed.
#[local] Hint Resolve safe_items : safe.

Lemma safe_join parts : ∀ built, safe (join_system policy built parts).
Proof. induction parts as [|p parts IH]; intros built; simpl; unfold loseSystemPart; safely. Qed.
#[local] Hint Resolve safe_join : safe.

Lemma safe_render_choice choice : safe (render_choice choice).
Proof. unfold render_choice, canonicalToolChoiceToResponses. safely; apply safe_lift; settled. Qed.

Lemma safe_effort effort_cap thinking effort : safe (render_thinking effort_cap policy thinking effort).
Proof. unfold render_thinking. safely. Qed.

Lemma safe_input v : safe (lift (Input_Validate v)).
Proof. apply safe_lift, res_client_safe, RespRequestLaws.checked_input. Qed.
#[local] Hint Resolve safe_render_choice safe_effort safe_input : safe.

Lemma safe_responses request context capabilities : ChatRender.x_LossPolicy context = policy →
  safe (RenderResponsesRequest request context capabilities).
Proof.
  intros Hp. unfold RenderResponsesRequest, render_instructions, render_tool, responsesToolStrictField. rewrite Hp. cbv zeta.
  safely; apply safe_lift, request_settled.
Qed.
End responses.

(** ** The handler's conversion *)

Section convert.
Context `{UnicodeTables}.
Context (quote : str → str) (marshal : gmap str json → str) (marshal_reasoning : RespRequest.ReasoningInput → option str).
Context (marshal_echo : RespRequest.ResponsesRequestEcho → option str) (decode_responses : str → result envelope_error RespRequest.Request).
Context (marshal_block : MsgRequest.ContentBlock → option str) (decode_messages : str → option MsgRequest.Request).
Context (marshal_upstream : upstream_request → option str).
Context (parse_media : str → option (str * option str)) (parse_float : str → option Qc).

Abbreviation convert := (convertRequest quote marshal marshal_reasoning marshal_echo decode_responses marshal_block decode_messages
                           marshal_upstream parse_media parse_float).

Lemma safe_resolve m clientModel : safe (resolveModel quote m clientModel).
Proof. unfold resolveModel, model_error. safely. Qed.

Lemma safe_render_chat d x capabilities : safe (ChatRender.RenderChatRequest d x capabilities).
Proof. by eapply safe_chat. Qed.

Lemma safe_render_responses d x capabilities : safe (RespRequestRender.RenderResponsesRequest d x capabilities).
Proof. by eapply safe_responses. Qed.
#[local] Hint Resolve safe_render_chat safe_render_responses : safe.

Lemma safe_render m client d x : safe (render_upstream marshal_upstream m client d x).
Proof. unfold render_upstream. safely. Qed.

Lemma safe_size limit rendered : safe (checkDecodedRequestSize limit rendered).
Proof. unfold checkDecodedRequestSize. safely. Qed.
#[local] Hint Resolve safe_resolve safe_render safe_size : safe.

Lemma safe_DecodeResponses body policy :
  safe (RespRequest.DecodeResponsesRequest marshal marshal_reasoning marshal_echo decode_responses body policy).
Proof. eapply safe_triple, RespRequestLaws.responses_decode_spec. Qed.

Lemma safe_DecodeMessages body policy : safe (MsgRequest.DecodeMessagesRequest marshal marshal_block decode_messages body policy).
Proof. eapply safe_triple, MsgRequestLaws.decode_spec. Qed.
#[local] Hint Resolve safe_DecodeResponses safe_DecodeMessages : safe.

Lemma lawful_pending role pending policy : keeps_lawful policy (RespRequestRender.flush role pending).
Proof. unfold RespRequestRender.flush. lawful. Qed.
#[local] Hint Resolve lawful_pending : conv.

Lemma lawful_turn_items policy role parts : ∀ pending, keeps_lawful policy (RespRequestRender.turn_items policy role pending parts).
Proof. induction parts as [|p parts IH]; intros pending; simpl; unfold RespRequestRender.transcodeToolResult; lawful. Qed.

Lemma lawful_join policy parts : ∀ built, keeps_lawful policy (RespRequestRender.join_system policy built parts).
Proof. induction parts as [|p parts IH]; intros built; simpl; unfold RespRequestRender.loseSystemPart; lawful. Qed.

Lemma lawful_effort effort_cap policy thinking effort :
  keeps_lawful policy (RespRequestRender.render_thinking effort_cap policy thinking effort).
Proof. unfold RespRequestRender.render_thinking. lawful. Qed.
#[local] Hint Resolve lawful_turn_items lawful_join lawful_effort : conv.

Lemma lawful_responses d x capabilities : keeps_lawful (ChatRender.x_LossPolicy x) (RespRequestRender.RenderResponsesRequest d x capabilities).
Proof.
  unfold RespRequestRender.RenderResponsesRequest, RespRequestRender.render_instructions, RespRequestRender.render_tool,
    RespRequestRender.responsesToolStrictField, RespRequestRender.render_choice, RequirePortableArtifacts. cbv zeta. lawful.
Qed.

Lemma lawful_chat d x capabilities : keeps_lawful (ChatRender.x_LossPolicy x) (ChatRender.RenderChatRequest d x capabilities).
Proof. by apply ChatRender.RenderChatRequest_lawful. Qed.

Lemma lawful_render m client d x : x_LossPolicy x = map_LossPolicy m → keeps_lawful (map_LossPolicy m)
  (p <~ render_upstream marshal_upstream m client d x ;; checkDecodedRequestSize (DecodedRequestBytes m) p.2 ;;~ ret p).
Proof.
  intros Hx. apply lawful_bind; [|intros p; unfold checkDecodedRequestSize; lawful]. unfold render_upstream.
  apply lawful_bind; [|intros r; lawful]. rewrite <- Hx. change (x_LossPolicy x) with (ChatRender.x_LossPolicy (for_request x)).
  destruct (UpstreamProtocol m); [apply lawful_bind; [apply lawful_chat|intros r; lawful]|apply lawful_bind; [apply lawful_responses|intros r; lawful]|lawful].
Qed.

Lemma lawful_resolve policy m clientModel : keeps_lawful policy (resolveModel quote m clientModel).
Proof. unfold resolveModel, model_error. lawful. Qed.

Lemma lawful_Decode_resolve m body :
  keeps_lawful (map_LossPolicy m)
    (p <~ RespRequest.DecodeResponsesRequest marshal marshal_reasoning marshal_echo decode_responses body (map_LossPolicy m) ;;
     v <~ resolveModel quote m (ClientModel (MsgRequest.d_Request p.1)) ;; ret (p, v)).
Proof. lawful; [apply RespRequestLaws.lawful_decode_responses|apply lawful_resolve]. Qed.

Lemma lawful_Decode_messages_resolve m body :
  keeps_lawful (map_LossPolicy m)
    (r <~ MsgRequest.DecodeMessagesRequest marshal marshal_block decode_messages body (map_LossPolicy m) ;;
     v <~ resolveModel quote m (ClientModel (MsgRequest.d_Request r)) ;; ret (r, v)).
Proof. lawful; [apply MsgRequestLaws.lawful_decode_messages|apply lawful_resolve]. Qed.

(** What has been rendered is bounded, marshalled and said with no loss but the allowed. *)
Definition rendered_as (m : Mapping) (d : CanonicalRequest) (x : ExchangeContext) (r : upstream_request) (report : ConversionReport) : Prop :=
  match r with
  | ChatUpstream out =>
      UpstreamProtocol m = ApiErrors.UpstreamChatCompletions ∧
      ChatRender.RenderChatRequest d (for_request x) (map_Capabilities m) fresh_report = (Ok out, report)
  | ResponsesUpstream out =>
      UpstreamProtocol m = ApiErrors.UpstreamResponses ∧
      RespRequestRender.RenderResponsesRequest d (for_request x) (map_Capabilities m) fresh_report = (Ok out, report)
  end.

Definition fits (limit : Z) (rendered : str) : Prop := 0 < limit → Z.of_nat (length rendered) <= limit.

Lemma exchange_spec m client d x decodeReport : x_LossPolicy x = map_LossPolicy m → lawful (map_LossPolicy m) decodeReport →
  match rendered_exchange marshal_upstream m client d x decodeReport with
  | (Ok (r, rendered, x'), losses) =>
      x' = x ∧ marshal_upstream r = Some rendered ∧ fits (DecodedRequestBytes m) rendered ∧ Forall (loss_allowed (map_LossPolicy m)) losses ∧
      ∃ report, rendered_as m d x r report ∧ losses = Losses report ++ Losses decodeReport
  | (Err e, losses) => local_error e ∧ losses = []
  end.
Proof.
  intros Hx Hd. unfold rendered_exchange.
  assert (safe (p <~ render_upstream marshal_upstream m client d x ;; checkDecodedRequestSize (DecodedRequestBytes m) p.2 ;;~ ret p)) as Hs by safely.
  pose proof (lawful_render m client d x Hx fresh_report (Forall_nil_2 _)) as Hl. specialize (Hs fresh_report).
  destruct ((p <~ render_upstream marshal_upstream m client d x ;; checkDecodedRequestSize (DecodedRequestBytes m) p.2 ;;~ ret p) fresh_report)
    as [[[r rendered]|e] report] eqn:Hr; [|by split].
  unfold bind in Hr. destruct (render_upstream marshal_upstream m client d x fresh_report) as [[p|] report1] eqn:Hu; [|done].
  assert (p = (r, rendered) ∧ report1 = report ∧ fits (DecodedRequestBytes m) rendered) as (-> & -> & Hfit).
  { unfold checkDecodedRequestSize, fits in *. destruct (_ && _) eqn:Hsize; [done|]. simpl in Hr. injection Hr as -> ->.
    split_and!; [done|done|]. simpl in Hsize. bsolve. }
  assert (rendered_as m d x r report ∧ marshal_upstream r = Some rendered) as [Has Hm].
  { unfold render_upstream, bind, rendered_as in *. clear Hs Hl Hr. destruct (UpstreamProtocol m).
    - destruct (ChatRender.RenderChatRequest _ _ _ _) as [[out|] report'] eqn:E; [|done]. simpl in Hu.
      destruct (marshal_upstream (ChatUpstream out)) eqn:Hm; [|done]. by injection Hu as <- <- <-.
    - destruct (RespRequestRender.RenderResponsesRequest _ _ _ _) as [[out|] report'] eqn:E; [|done]. simpl in Hu.
      destruct (marshal_upstream (ResponsesUpstream out)) eqn:Hm; [|done]. by injection Hu as <- <- <-.
    - done. }
  split_and!; [done|done|done|by apply Forall_app|by exists report].
Qed.

(** The store after a request asked for a conversation: the one too old is gone. *)
Definition asked (now : Time) (store store' : option Continuity.ContinuityStore) : Prop :=
  store' = store ∨ ∃ s k c, store = Some s ∧ Continuity.chains s !! k = Some c ∧ Continuity.expired now s c = true ∧
    store' = Some (Continuity.removeLocked k s).

Lemma prior_asked m echo now store : asked now store (prior_of m echo now store).2.
Proof.
  unfold prior_of, Continuity.resolveContinuityChain, Continuity.Resolve. destruct store as [s|]; [|by left].
  destruct (RespRequest.ec_PreviousResponseID echo) as [id|]; [|by left]. destruct (is_empty id); [by left|].
  cbv zeta.
  destruct (Continuity.chains s !! Continuity.continuityKey (ContinuityKey m) id) as [c|] eqn:Hc; [|by left].
  destruct (Continuity.expired now s c) eqn:He; [right; by exists s, (Continuity.continuityKey (ContinuityKey m) id), c|]. by left.
Qed.

(** What a conversion went through, for each of the two dialects of a client. *)
Definition responses_way (m : Mapping) (ids : ResponseRender.ExchangeIDs) (accepts : bool) (body : str) (now : Time)
    (store : option Continuity.ContinuityStore) (d : CanonicalRequest) (x : ExchangeContext) (report : ConversionReport) : Prop :=
  ∃ p v r0 r1,
    RespRequest.DecodeResponsesRequest marshal marshal_reasoning marshal_echo decode_responses body (map_LossPolicy m) fresh_report = (Ok p, r0) ∧
    resolveModel quote m (ClientModel (MsgRequest.d_Request p.1)) r0 = (Ok v, r1) ∧
    responses_exchange quote m ids accepts p.1 p.2 v (prior_of m p.2 now store).1 r1 = (Ok (d, x), report).

Definition messages_way (m : Mapping) (ids : ResponseRender.ExchangeIDs) (accepts : bool) (body : str) (d : CanonicalRequest) (x : ExchangeContext)
    (report : ConversionReport) : Prop :=
  ∃ r v r0,
    MsgRequest.DecodeMessagesRequest marshal marshal_block decode_messages body (map_LossPolicy m) fresh_report = (Ok r, r0) ∧
    resolveModel quote m (ClientModel (MsgRequest.d_Request r)) r0 = (Ok v, report) ∧
    (d, x) = messages_exchange m ids accepts r v.

Definition way (m : Mapping) (ids : ResponseRender.ExchangeIDs) (accept body : str) (now : Time) (store : option Continuity.ContinuityStore)
    (d : CanonicalRequest) (x : ExchangeContext) (report : ConversionReport) : Prop :=
  let accepts := Accept.AcceptIsEventStream parse_media parse_float accept in
  match ClientProtocol m with
  | ApiErrors.ClientResponses => responses_way m ids accepts body now store d x report
  | ApiErrors.ClientMessages => messages_way m ids accepts body d x report
  end.

Lemma convert_spec m ids accept body now store :
  match convert m ids accept body now store with
  | (Ok (r, rendered, x), losses, store') =>
      marshal_upstream r = Some rendered ∧ fits (DecodedRequestBytes m) rendered ∧ Forall (loss_allowed (map_LossPolicy m)) losses ∧
      ∃ d report report', way m ids accept body now store d x report ∧ rendered_as m d x r report' ∧
        losses = Losses report' ++ Losses report
  | (Err e, losses, store') => local_error e ∧ losses = []
  end ∧ asked now store (convert m ids accept body now store).2.
Proof.
  unfold convertRequest, way. destruct (ClientProtocol m).
  - pose proof (lawful_Decode_resolve m body fresh_report (Forall_nil_2 _)) as Hl.
    assert (safe (p <~ RespRequest.DecodeResponsesRequest marshal marshal_reasoning marshal_echo decode_responses body (map_LossPolicy m) ;;
      v <~ resolveModel quote m (ClientModel (MsgRequest.d_Request p.1)) ;; ret (p, v))) as Hs by safely. specialize (Hs fresh_report).
    destruct ((p <~ RespRequest.DecodeResponsesRequest marshal marshal_reasoning marshal_echo decode_responses body (map_LossPolicy m) ;;
      v <~ resolveModel quote m (ClientModel (MsgRequest.d_Request p.1)) ;; ret (p, v)) fresh_report) as [[[p v]|e] report] eqn:Hp;
      [|split; [by split|by left]].
    pose proof (prior_asked m p.2 now store) as Hask. destruct (prior_of m p.2 now store) as [prior store'] eqn:Hprior. simpl in Hask.
    assert (∃ d x report', responses_exchange quote m ids (Accept.AcceptIsEventStream parse_media parse_float accept) p.1 p.2 v prior report = (Ok (d, x), report') ∧
      lawful (map_LossPolicy m) report' ∧ x_LossPolicy x = map_LossPolicy m) as (d & x & report' & Hx & Hl' & Hpol).
    { unfold responses_exchange. cbv zeta. destruct prior as [[[id turns] depth]|]; [|by eexists _, _, _].
      unfold continuityNote, bind. simpl. eexists _, _, _. split_and!; [reflexivity|by apply lawful_record|done]. }
    rewrite Hx. pose proof (exchange_spec m "responses" d x report' Hpol Hl') as H1.
    destruct (rendered_exchange _ _ _ _ _ _) as [[[[r rendered] x']|e] losses]; [|by split]. destruct H1 as (-> & H1 & H2 & H3 & report'' & H4 & H5).
    split; [|done]. split_and!; [done|done|done|]. exists d, report', report''. split_and!; [|done|done].
    unfold bind in Hp. destruct (RespRequest.DecodeResponsesRequest _ _ _ _ _ _ _) as [[p0|] r0] eqn:Hd; [|done].
    destruct (resolveModel quote m _ r0) as [[v0|] r1] eqn:Hv; [|done]. injection Hp as -> -> ->. exists p, v, r0, report. by rewrite Hprior.
  - pose proof (lawful_Decode_messages_resolve m body fresh_report (Forall_nil_2 _)) as Hl.
    assert (safe (r <~ MsgRequest.DecodeMessagesRequest marshal marshal_block decode_messages body (map_LossPolicy m) ;;
      v <~ resolveModel quote m (ClientModel (MsgRequest.d_Request r)) ;; ret (r, v))) as Hs by safely. specialize (Hs fresh_report).
    destruct ((r <~ MsgRequest.DecodeMessagesRequest marshal marshal_block decode_messages body (map_LossPolicy m) ;;
      v <~ resolveModel quote m (ClientModel (MsgRequest.d_Request r)) ;; ret (r, v)) fresh_report) as [[[p v]|e] report] eqn:Hp;
      [|split; [by split|by left]].
    destruct (messages_exchange m ids _ p v) as [d x] eqn:Hx.
    pose proof (exchange_spec m "messages" d x report ltac:(by injection Hx as <- <-) Hl) as H1.
    destruct (rendered_exchange _ _ _ _ _ _) as [[[[r rendered] x']|e] losses]; [|split; [done|by left]].
    destruct H1 as (-> & H1 & H2 & H3 & report'' & H4 & H5).
    split; [|by left]. split_and!; [done|done|done|]. exists d, report, report''. split_and!; [|done|done].
    unfold bind in Hp. destruct (MsgRequest.DecodeMessagesRequest _ _ _ _ _ _) as [[p0|] r0] eqn:Hd; [|done].
    destruct (resolveModel quote m _ r0) as [[v0|] r1] eqn:Hv; [|done]. injection Hp as -> -> ->. by exists p, v, r0.
Qed.
End convert.
