(* ===== verification/ConvertLaws.v ===== *)
(** * What a request is for its upstream, and the conversation it continues

    The handler's conversion of a request for a Chat upstream under a policy that allows
    no loss: all that the client said reaches the upstream, with the conversation it
    continues before it; and two exchanges of one conversation. *)

From Stdlib Require Import ZArith QArith Qcanon Lia Bool List Ascii String.
From stdpp Require Import strings gmap list.
From S2P Require Import Prelude GoStd GoStr GoText GoJson Losses Ir ResponseDecode ConvertRequest ConvertErrors.
From S2P Require WireObject ApiErrors ChatRender RespRequest MsgRequest MsgRequestLaws ToolNamesLaws RespRequestLaws Continuity ContinuityLaws ResponseRender ResponseExchange Accept.

Open Scope string_scope.
Open Scope Z_scope.
Open Scope conv_scope.
Open Scope list_scope.

(** ** The rendering for Chat *)

Section chat.
Import ChatRender.
Context (request : CanonicalRequest) (context : ChatRender.ExchangeContext) (capabilities : ChatCapabilities).

(** The controls that need no capability. *)
Record plain_controls (out : ChatRequest) : Prop := {
  pc_own : (User out, Store out) = (OriginalResponsesRequest context ≫= e_User, OriginalResponsesRequest context ≫= e_Store);
  pc_model : Model out = if is_empty (UpstreamModel context) then ClientModel request else UpstreamModel context;
  pc_sampling : c_Temperature out = Temperature request ∧ c_TopP out = TopP request;
  pc_max : MaxCompletionTokens out = MaxOutputTokens request;
  pc_stream : c_Stream out = Stream request ∧ IncludeUsage out = Stream request;
}.

Lemma post_any {A} (m : Conv A) : has_post m (λ _, True).
Proof. by intros ????. Qed.

Lemma post_then {A B} (m : Conv A) (k : A → Conv B) (Q : B → Prop) : (∀ a, has_post (k a) Q) → has_post (a <~ m ;; k a) Q.
Proof. intros Hk. eapply post_bind; [apply post_any|]. intros a _. apply Hk. Qed.

Lemma plain_post : has_post (RenderChatRequest request context capabilities) plain_controls.
Proof. unfold RenderChatRequest. cbv zeta. repeat (apply post_then; intros ?). by apply post_ret. Qed.

(** Artifacts of another protocol are no part of a request whose policy allows no loss. *)
Lemma portable_post policy : has_post (RequirePortableArtifacts request UpstreamChatCompletions policy)
  (λ _, Allowed policy = ∅ → AnthropicThinkingBlocks (Artifacts request) = [] ∧ ResponsesReasoningItems (Artifacts request) = []).
Proof.
  unfold RequirePortableArtifacts. simpl. eapply (post_bind _ _ (λ _, Allowed policy = ∅ → AnthropicThinkingBlocks (Artifacts request) = [])).
  - unfold when. case_bool_decide; simpl; [by apply post_ret|]. eapply post_weaken; [apply post_Lose_some|]. by intros [].
  - intros [] H1. unfold when. case_bool_decide; simpl; [apply post_ret; auto|]. eapply post_weaken; [apply post_Lose_some|]. by intros [].
Qed.

Lemma artifacts_post : has_post (RenderChatRequest request context capabilities)
  (λ _, Allowed (x_LossPolicy context) = ∅ → AnthropicThinkingBlocks (Artifacts request) = [] ∧ ResponsesReasoningItems (Artifacts request) = []).
Proof.
  unfold RenderChatRequest. cbv zeta. apply post_then. intros _. eapply post_bind; [apply portable_post|]. intros [] Hart.
  repeat (apply post_then; intros ?). by apply post_ret.
Qed.

(** Controls that a Chat upstream has no place for, and an effort it does not take. *)
Definition budgeted : Prop := ∃ t n, Thinking request = Some t ∧ th_Type t = lit "enabled" ∧ th_BudgetTokens t = Some n.

Record nothing_gone : Prop := {
  ng_echo : ∀ echo, OriginalResponsesRequest context = Some echo →
    (is_Some (e_PreviousResponseID echo) → RequestDepth context ≠ 0) ∧ e_TopLogprobs echo = None ∧ e_ServiceTier echo = None ∧
    e_Truncation echo = None ∧ e_ReasoningSummary echo = None ∧ (is_Some (e_ReasoningEffort echo) → cap_ReasoningEffort capabilities = true);
  ng_budget : budgeted → cap_ReasoningEffort capabilities = true;
}.

Lemma post_unless b policy f path detail : has_post (when b (Lose policy f path detail)) (λ _, Allowed policy = ∅ → b = false).
Proof. destruct b; simpl; [|by apply post_ret]. eapply post_weaken; [apply post_Lose_some|]. by intros []. Qed.

Lemma some_false {A} (o : option A) : is_some o = false ↔ o = None.
Proof. by destruct o. Qed.

Lemma echo_post policy depth echo : has_post (echo_losses policy depth echo) (λ _, Allowed policy = ∅ →
  (is_Some (e_PreviousResponseID echo) → depth ≠ 0) ∧ e_TopLogprobs echo = None ∧ e_ServiceTier echo = None ∧ e_Truncation echo = None).
Proof.
  unfold echo_losses. do 3 (eapply post_bind; [apply post_unless|]; intros [] ?).
  eapply post_weaken; [apply post_unless|]. intros [] ? He. rewrite <- !some_false. split_and!; [|auto..].
  intros [i Hi] Hd. specialize (H He). by rewrite Hi, Hd in H.
Qed.

Lemma budget_post cap policy thinking effort : has_post (render_thinking cap policy thinking effort)
  (λ _, Allowed policy = ∅ → ∀ t n, thinking = Some t → th_Type t = lit "enabled" → th_BudgetTokens t = Some n → cap = true).
Proof.
  unfold render_thinking. destruct thinking as [t|]; [|by apply post_ret]. destruct cap; [by intros ? ? ? _ _ ?|].
  destruct (str_eqb (th_Type t) (lit "enabled")) eqn:Et.
  - destruct (th_BudgetTokens t) eqn:Eb; simpl; [|apply post_seq, post_ret; by intros _ ?? [= <-] _ ?; simplify_eq].
    eapply post_bind; [apply post_Lose_some|]. intros [] Hne. by apply post_ret.
  - intros ? ? ? _ _ ?? [= <-] Hty. by rewrite Hty, str_eqb_refl in Et.
Qed.

Lemma gone_post : has_post (RenderChatRequest request context capabilities) (λ _, Allowed (x_LossPolicy context) = ∅ → nothing_gone).
Proof.
  unfold RenderChatRequest. cbv zeta. do 3 (apply post_then; intros ?).
  eapply (post_bind _ _ (λ _, Allowed (x_LossPolicy context) = ∅ → ∀ echo, OriginalResponsesRequest context = Some echo →
    (is_Some (e_PreviousResponseID echo) → RequestDepth context ≠ 0) ∧ e_TopLogprobs echo = None ∧ e_ServiceTier echo = None ∧
    e_Truncation echo = None)).
  { destruct (OriginalResponsesRequest context) as [echo|]; [|by apply post_ret]. eapply post_weaken; [apply echo_post|].
    intros [] He Ha echo' [= <-]. by apply He. }
  intros [] Hecho. do 7 (apply post_then; intros ?).
  eapply post_bind; [apply gated_post|]. intros effort [_ Hcap].
  eapply post_bind; [apply post_unless|]. intros [] Hsum.
  eapply post_bind; [apply budget_post|]. intros effort' Hbudget. apply post_ret. intros He.
  assert (∀ f, f ∈ Allowed (x_LossPolicy context) → False) as Hnone by (intros f Hf; rewrite He in Hf; by apply elem_of_empty in Hf).
  constructor.
  - intros echo Ho. destruct (Hecho He echo Ho) as (H1 & H2 & H3 & H4). rewrite Ho in Hcap, Hsum. simpl in Hcap, Hsum. split_and!; try done.
    + by apply some_false, Hsum.
    + intros [e Hs]. destruct (cap_ReasoningEffort capabilities); [done|]. destruct (Hnone _ (Hcap eq_refl ltac:(by rewrite Hs))).
  - intros (t & n & H1 & H2 & H3). by eapply Hbudget.
Qed.

(** A request of which everything is sent. *)
Record whole (turns : list CanonicalTurn) (tools : list CanonicalTool) (choice : option CanonicalToolChoice) (d : CanonicalRequest)
    (out : ChatRequest) : Prop := {
  wh_turns : turns_carried turns (Messages out);
  wh_tools : Forall2 (tool_carried (cap_Float64Bounds capabilities)) tools (c_Tools out);
  wh_choice : choice_carried choice (c_ToolChoice out);
  wh_max : MaxCompletionTokens out = MaxOutputTokens d;
  wh_sampling : c_Temperature out = Temperature d ∧ c_TopP out = TopP d ∧ Stop out = StopSequences d;
  wh_metadata : c_Metadata out = Metadata d;
  wh_parallel : ParallelToolCalls out = ParallelTools d;
  wh_format : ResponseFormat out = StructuredOutput d;
  wh_effort : ReasoningEffort out = (if cap_ReasoningEffort capabilities then intended_effort request context else None);
  wh_own : (User out, Store out) = (OriginalResponsesRequest context ≫= e_User, OriginalResponsesRequest context ≫= e_Store);
  wh_gone : nothing_gone;
}.

Lemma carried_strict {A} have f (absent sent got : A) : Allowed (x_LossPolicy context) = ∅ →
  carried_or_allowed have (x_LossPolicy context) f absent sent got → got = sent.
Proof. intros He [->|(_ & Hf & _)]; [done|]. rewrite He in Hf. by apply elem_of_empty in Hf. Qed.

Lemma strict_whole out report : Allowed (x_LossPolicy context) = ∅ → cap_MultiAgentPriming capabilities = false →
  RenderChatRequest request context capabilities fresh_report = (Ok out, report) →
  whole (Turns request) (Tools request) (ToolChoice request) request out ∧ plain_controls out ∧ Forall turn_ok (Turns request) ∧
  AnthropicThinkingBlocks (Artifacts request) = [] ∧ ResponsesReasoningItems (Artifacts request) = [].
Proof.
  intros He Hp H. pose proof (plain_post _ _ _ H) as Hplain. pose proof (gone_post _ _ _ H He) as Hgone. pose proof (artifacts_post _ _ _ H He) as Hart.
  apply RenderChatRequest_post in H as (Hok & Hdev & (_ & _ & _ & Hc) & Hm & Hpar & Hstop & Hfmt & Htools & Hchoice & Heff).
  split_and!; try done; [|by destruct Hart..]. destruct Hplain as [Hown _ [Ht Htp] Hmax _].
  apply carried_strict in Hm, Hpar, Hstop, Hfmt; [|done..]. constructor; auto.
Qed.
End chat.

(** ** The model *)

(** The mapping of a name: its own, or the identity where that is allowed. *)
Definition mapped (m : ModelMap) (name : str) (mm : ModelMapping) : Prop :=
  Exact m !! name = Some mm ∨
  (Exact m !! name = None ∧ AllowIdentity m = true ∧ RequireExplicitMap m = false ∧
   mm = {| mm_ClientModel := name; mm_UpstreamModel := name; mm_ClientResponseModel := name; mm_Via := []; mm_ReasoningTier := [] |}).

Definition or_else (a b : str) : str := if is_empty a then b else a.

(** What an exchange for [name] is told: a profile's model with the tier of the mapping,
    else the profile's; without a profile the mapping's own. *)
Definition model_served (m : Mapping) (name : str) (requested upstream tier : str) : Prop :=
  match map_ProfileMap m !! name with
  | Some p =>
      ∃ mm, mapped (map_ModelMap m) (pf_Model p) mm ∧ requested = name ∧ upstream = mm_UpstreamModel mm ∧
        tier = or_else (mm_ReasoningTier mm) (pf_ReasoningTier p)
  | None =>
      ∃ mm, mapped (map_ModelMap m) name mm ∧ requested = or_else (mm_ClientResponseModel mm) name ∧ upstream = mm_UpstreamModel mm ∧
        tier = mm_ReasoningTier mm
  end.

Lemma Resolve_spec quote m name : match Resolve quote m name with
  | Ok r => ∃ mm, mapped m name mm ∧ mm_UpstreamModel r = mm_UpstreamModel mm ∧ mm_ReasoningTier r = mm_ReasoningTier mm ∧
              mm_ClientResponseModel r = or_else (mm_ClientResponseModel mm) name
  | Err _ => Exact m !! name = None ∧ (AllowIdentity m = false ∨ RequireExplicitMap m = true)
  end.
Proof.
  unfold Resolve, mapped, or_else. destruct (Exact m !! name) as [mm|] eqn:Hm.
  { exists mm. split; [by left|]. by destruct (is_empty (mm_ClientResponseModel mm)). }
  destruct (AllowIdentity m) eqn:Ha, (RequireExplicitMap m) eqn:Hr; simpl; try (split; [done|auto]; fail).
  eexists. split; [by right|]. simpl. split_and!; [done|done|]. by destruct (is_empty name).
Qed.

Lemma resolve_served quote m name :
  has_post (resolveModel quote m name) (λ v, model_served m name (rv_RequestedClientModel v) (rv_UpstreamModel v) (rv_Tier v)).
Proof.
  unfold resolveModel, model_served, ResolveProfile, model_error. destruct (map_ProfileMap m !! name) as [p|]; simpl.
  - pose proof (Resolve_spec quote (map_ModelMap m) (pf_Model p)) as Hr. destruct (Resolve _ _ _) as [r|e]; [|apply post_fail].
    destruct Hr as (mm & Hm & Hu & Ht & _). apply post_seq, post_ret. exists mm. rewrite Hu, Ht. split_and!; [done|done|done|]. simpl.
    unfold or_else. destruct (is_empty (mm_ReasoningTier mm)) eqn:He, (is_empty (pf_ReasoningTier p)) eqn:Hp; simpl; try done.
    + apply is_empty_spec in He, Hp. by rewrite He, Hp.
    + destruct (str_eqb (pf_ReasoningTier p) (mm_ReasoningTier mm)) eqn:Heq; [|done]. by apply str_eqb_eq in Heq.
  - pose proof (Resolve_spec quote (map_ModelMap m) name) as Hr. destruct (Resolve _ _ _) as [r|e]; [|apply post_fail].
    destruct Hr as (mm & Hm & Hu & Ht & Hc). apply post_ret. exists mm. by rewrite Hu, Ht, Hc.
Qed.

(** ** The exchange *)

Section exchange.
Context `{UnicodeTables}.
Context (quote : str → str) (marshal : gmap str json → str) (marshal_reasoning : RespRequest.ReasoningInput → option str).
Context (marshal_echo : RespRequest.ResponsesRequestEcho → option str) (decode_responses : str → result envelope_error RespRequest.Request).
Context (marshal_block : MsgRequest.ContentBlock → option str) (decode_messages : str → option MsgRequest.Request).
Context (marshal_upstream : upstream_request → option str).
Context (parse_media : str → option (str * option str)) (parse_float : str → option Qc).

Abbreviation convert := (convertRequest quote marshal marshal_reasoning marshal_echo decode_responses marshal_block decode_messages
                           marshal_upstream parse_media parse_float).
Abbreviation responses_way := (ConvertErrors.responses_way quote marshal marshal_reasoning marshal_echo decode_responses).
Abbreviation messages_way := (ConvertErrors.messages_way quote marshal marshal_block decode_messages).

(** A canonical request but for its stream and its model. *)
Record same_but (model : str) (stream : bool) (d d' : CanonicalRequest) : Prop := {
  sb_tools : Tools d' = Tools d;
  sb_choice : Ir.ToolChoice d' = Ir.ToolChoice d;
  sb_parallel : ParallelTools d' = ParallelTools d;
  sb_max : MaxOutputTokens d' = MaxOutputTokens d;
  sb_sampling : Temperature d' = Temperature d ∧ TopP d' = TopP d ∧ StopSequences d' = StopSequences d;
  sb_format : StructuredOutput d' = StructuredOutput d;
  sb_metadata : Metadata d' = Metadata d;
  sb_thinking : Thinking d' = Thinking d;
  sb_artifacts : Artifacts d' = Artifacts d;
  sb_model : ClientModel d' = model;
  sb_stream : Stream d' = stream;
}.

(** The conversation that a request continues, as the store has it. *)
Definition prior_turns (m : Mapping) (r : RespRequest.Request) (now : Time) (store : option Continuity.ContinuityStore)
    : list CanonicalTurn * Z :=
  match (prior_of m (RespRequest.echo_of r) now store).1 with Some (_, turns, depth) => (turns, depth) | None => ([], 0) end.

Record responses_exchanged (m : Mapping) (ids : ResponseRender.ExchangeIDs) (accepts : bool) (now : Time)
    (store : option Continuity.ContinuityStore) (r : RespRequest.Request) (names : ToolNames) (d0 d : CanonicalRequest) (x : ExchangeContext) : Prop := {
  rx_decoded : RespRequestLaws.request_decoded marshal marshal_reasoning (map_LossPolicy m) r names d0;
  rx_same : same_but (x_UpstreamModel x) (x_StreamIntent x) d0 d;
  rx_turns : Turns d = (prior_turns m r now store).1 ++ Turns d0 ∧ RetainedTurns d = length (prior_turns m r now store).1;
  rx_request_turns : x_RequestTurns x = Turns d;
  rx_depth : x_RequestDepth x = (prior_turns m r now store).2;
  rx_intent : x_StreamIntent x = if WireObject.Present (RespRequest.rr_Stream r) && negb (WireObject.Null (RespRequest.rr_Stream r))
                                 then WireObject.Value (RespRequest.rr_Stream r) else accepts;
  rx_model : model_served m (RespRequest.rr_Model r) (x_RequestedClientModel x) (x_UpstreamModel x) (x_ResolvedReasoningTier x);
  rx_names : x_ToolNames x = RespRequest.given_names names;
  rx_echo : x_OriginalResponsesRequest x = Some (RespRequest.echo_of r);
  rx_fixed : x_IDs x = ids ∧ x_LossPolicy x = map_LossPolicy m;
}.

Lemma responses_way_spec m ids accepts body now store d x report : responses_way m ids accepts body now store d x report →
  ∃ r names d0, decode_responses body = Ok r ∧ responses_exchanged m ids accepts now store r names d0 d x.
Proof.
  intros (p & v & r0 & r1 & Hd & Hv & Hx).
  pose proof (RespRequestLaws.responses_decode_spec marshal marshal_reasoning marshal_echo decode_responses (map_LossPolicy m) body fresh_report) as Hspec.
  rewrite Hd in Hspec. destruct p as [p echo]. destruct Hspec as (r & names & Hr & Hdec & Hnames & Hecho & Hset & Hstream). simpl in *.
  apply resolve_served in Hv. destruct (RespRequestLaws.rd_model _ _ _ _ _ _ Hdec) as [Hmodel _]. rewrite Hmodel in Hv.
  exists r, names, (MsgRequest.d_Request p). split; [done|]. subst echo. unfold responses_exchange in Hx. cbv zeta in Hx.
  assert (stream_intent accepts p = if WireObject.Present (RespRequest.rr_Stream r) && negb (WireObject.Null (RespRequest.rr_Stream r))
                                   then WireObject.Value (RespRequest.rr_Stream r) else accepts) as Hintent
    by (unfold stream_intent; by rewrite Hset, Hstream).
  destruct (prior_of m (RespRequest.echo_of r) now store).1 as [[[id turns] depth]|] eqn:Hprior.
  - unfold continuityNote, bind in Hx. simpl in Hx. injection Hx as <- <- _. constructor; simpl; try done; unfold prior_turns; rewrite Hprior; done.
  - simpl in Hx. injection Hx as <- <- _. constructor; simpl; try done; unfold prior_turns; rewrite Hprior; [|done].
    split; [done|]. exact (RespRequestLaws.rd_retained _ _ _ _ _ _ Hdec).
Qed.

Record messages_exchanged (m : Mapping) (ids : ResponseRender.ExchangeIDs) (accepts : bool) (e : MsgRequest.Request) (d0 d : CanonicalRequest)
    (x : ExchangeContext) : Prop := {
  mx_decoded : MsgRequestLaws.request_decoded marshal marshal_block (map_LossPolicy m) e d0;
  mx_same : same_but (x_UpstreamModel x) (x_StreamIntent x) d0 d;
  mx_turns : Turns d = Turns d0 ∧ RetainedTurns d = 0%nat;
  mx_intent : x_StreamIntent x = default accepts (MsgRequest.rq_Stream e);
  mx_model : model_served m (MsgRequest.rq_Model e) (x_RequestedClientModel x) (x_UpstreamModel x) (x_ResolvedReasoningTier x);
  mx_fixed : x_IDs x = ids ∧ x_LossPolicy x = map_LossPolicy m ∧ x_OriginalResponsesRequest x = None;
}.

Lemma messages_way_spec m ids accepts body d x report : messages_way m ids accepts body d x report →
  ∃ e d0, decode_messages body = Some e ∧ messages_exchanged m ids accepts e d0 d x.
Proof.
  intros (p & v & r0 & Hd & Hv & Hx).
  pose proof (MsgRequestLaws.decode_spec marshal marshal_block (map_LossPolicy m) decode_messages body fresh_report) as Hspec.
  rewrite Hd in Hspec. destruct Hspec as (e & He & Hdec & Hset & Hstream & _). apply resolve_served in Hv.
  destruct (MsgRequestLaws.qd_model _ _ _ _ _ Hdec) as [Hmodel _]. rewrite Hmodel in Hv.
  exists e, (MsgRequest.d_Request p). split; [done|]. unfold messages_exchange in Hx. cbv zeta in Hx. injection Hx as -> ->.
  constructor; simpl; try done; [by split; [|exact (MsgRequestLaws.qd_retained _ _ _ _ _ Hdec)]|].
  unfold stream_intent. rewrite Hset, Hstream. by destruct (MsgRequest.rq_Stream e).
Qed.

(** ** Requests for Chat, whole *)

#[local] Existing Instance MsgRequestLaws.is_foreign_dec.

Section whole.
Context (capabilities : ChatRender.ChatCapabilities).
Abbreviation tool_sent := (ChatRender.tool_carried (ChatRender.cap_Float64Bounds capabilities)).

(** The effort that a budget of thinking tokens stands for. *)
Definition budget_effort (n : Z) (s : string) : Prop :=
  (n < 1024 ∧ s = "minimal") ∨ (1024 <= n < 4096 ∧ s = "low") ∨ (4096 <= n < 16384 ∧ s = "medium") ∨ (16384 <= n ∧ s = "high").

(** Without a word of the client the effort is the tier of its model, where the upstream
    takes one. *)
Definition tier_sent (tier : str) (out : ChatRender.ChatRequest) : Prop :=
  ChatRender.ReasoningEffort out = if ChatRender.cap_ReasoningEffort capabilities && negb (is_empty tier) then Some tier else None.

Definition effort_taken (effort : str) (out : ChatRender.ChatRequest) : Prop :=
  ChatRender.cap_ReasoningEffort capabilities = true ∧ ChatRender.ReasoningEffort out = Some effort.

(** All that a Messages client said, for a model of the tier [tier].  Thinking without a
    budget is left to the upstream's default. *)
Record messages_whole (e : MsgRequest.Request) (tier : str) (out : ChatRender.ChatRequest) : Prop := {
  mw_effort : match MsgRequest.rq_Thinking e with
              | None => tier_sent tier out
              | Some t => match MsgRequest.tk_BudgetTokens t with
                          | Some n => ∃ s, budget_effort n s ∧ effort_taken (lit s) out
                          | None => ChatRender.ReasoningEffort out = None
                          end
              end;
  mw_own : (ChatRender.User out, ChatRender.Store out) = (None, None);
  mw_turns : ChatRender.turns_carried (MsgRequestLaws.said_turns marshal e) (ChatRender.Messages out);
  mw_tools : Forall2 tool_sent (map MsgRequestLaws.client_tool (MsgRequest.rq_Tools e)) (ChatRender.c_Tools out);
  mw_choice : match MsgRequest.rq_ToolChoice e with
              | None => ChatRender.c_ToolChoice out = None
              | Some c => ∃ c', MsgRequestLaws.choice_meant c c' ∧ ChatRender.choice_carried (Some c') (ChatRender.c_ToolChoice out)
              end;
  mw_max : ChatRender.MaxCompletionTokens out = Some (MsgRequest.rq_MaxTokens e);
  mw_sampling : (ChatRender.c_Temperature out, ChatRender.c_TopP out, ChatRender.Stop out) =
                (MsgRequest.rq_Temperature e, MsgRequest.rq_TopP e, MsgRequest.rq_StopSequences e);
  mw_metadata : MsgRequest.rq_Metadata e = Some <$> ChatRender.c_Metadata out;
  mw_plain : ¬ MsgRequestLaws.lossy_request e;
  mw_thinking : filter MsgRequestLaws.is_foreign (MsgRequestLaws.heard_request e) = [];
}.

(** All that a Responses client said, after the conversation [prior], in the names [names]. *)
Record responses_whole (policy : LossPolicy) (r : RespRequest.Request) (names : ToolNames) (tier : str) (prior : list CanonicalTurn * Z)
    (turns : list CanonicalTurn) (out : ChatRender.ChatRequest) : Prop := {
  rw_effort : match RespRequest.rr_Reasoning r ≫= fst with None => tier_sent tier out | Some effort => effort_taken effort out end;
  rw_own : (ChatRender.User out, ChatRender.Store out) = (RespRequest.rr_User r, RespRequest.rr_Store r);
  rw_known : is_Some (RespRequest.rr_PreviousResponseID r) → prior.2 ≠ 0;
  rw_gone : (RespRequest.rr_TopLogprobs r, RespRequest.rr_ServiceTier r, RespRequest.rr_Truncation r, RespRequest.rr_Reasoning r ≫= snd) =
            (None, None, None, None);
  rw_said : ∃ l, RespRequestLaws.input_said marshal names (RespRequest.plainToolNames (RespRequest.rr_Tools r)) policy (RespRequest.rr_Input r) l ∧
              RespRequestLaws.roles_parts turns = RespRequestLaws.instruction_said r ++ l;
  rw_turns : ChatRender.turns_carried (prior.1 ++ turns) (ChatRender.Messages out);
  rw_tools : ∃ tools, Forall2 (ToolNamesLaws.named (RespRequest.plainToolNames (RespRequest.rr_Tools r)) names)
               (RespRequest.rr_Tools r ≫= ToolNamesLaws.declared) tools ∧ Forall2 tool_sent tools (ChatRender.c_Tools out) ∧
               ∃ choice, RespRequestLaws.choice_decoded r tools choice ∧ ChatRender.choice_carried choice (ChatRender.c_ToolChoice out);
  rw_max : ChatRender.MaxCompletionTokens out = RespRequest.rr_MaxOutputTokens r;
  rw_sampling : (ChatRender.c_Temperature out, ChatRender.c_TopP out, ChatRender.ParallelToolCalls out) =
                (RespRequest.rr_Temperature r, RespRequest.rr_TopP r, RespRequest.rr_ParallelToolCalls r);
  rw_metadata : ChatRender.c_Metadata out = RespRequest.rr_Metadata r;
  rw_format : RespRequestLaws.format_decoded policy (RespRequest.rr_Text r) (ChatRender.ResponseFormat out);
  rw_plain : ¬ RespRequestLaws.lossy_request r;
  rw_reasoning : (RespRequestLaws.input_items (RespRequest.rr_Input r) ≫= RespRequestLaws.reasoning_of) = [];
}.

Lemma budget_effort_of n : budget_effort n (ChatRender.thinkingBudgetToEffort n).
Proof. unfold budget_effort, ChatRender.thinkingBudgetToEffort. bcase; intuition lia. Qed.

Lemma messages_whole_of policy x e d0 d out : Allowed policy = ∅ → x_OriginalResponsesRequest x = None →
  MsgRequestLaws.request_decoded marshal marshal_block policy e d0 → Turns d = Turns d0 → (∃ model stream, same_but model stream d0 d) →
  whole d (for_request x) capabilities (Turns d) (Tools d) (Ir.ToolChoice d) d out → AnthropicThinkingBlocks (Artifacts d) = [] →
  messages_whole e (x_ResolvedReasoningTier x) out.
Proof.
  intros He Hx [Ht _ _ Htools _ Hchoice Hart _ [Hmax _] (Htemp & Htp & Hstop) Hmeta Hthink Hlossy] Hturns
    (model & stream & [Stools Schoice _ Smax (S1 & S2 & S3) _ Smeta Sthink Sart _ _]) [W1 W2 W3 W4 (W5 & W6 & W7) W8 _ _ W11 W12 [_ W13]] Hno.
  assert (¬ MsgRequestLaws.lossy_request e) as Hpl by (intros Hy; by apply Hlossy in Hy).
  assert (MsgRequestLaws.client_tools (MsgRequest.rq_Tools e) = MsgRequest.rq_Tools e) as Hall.
  { apply (ChatRender.filter_all MsgRequest.is_server_tool), Forall_forall. intros t Hin. apply not_true_is_false. intros Hs. apply Hpl. do 5 right. left. apply Exists_exists. by exists t. }
  rewrite Hall in Htools. constructor.
  - unfold ChatRender.intended_effort in W11. rewrite Sthink in W11. simpl in W11. rewrite Hx in W11. unfold budgeted in W13. rewrite Sthink in W13.
    unfold MsgRequestLaws.thinking_decoded in Hthink. unfold tier_sent, effort_taken.
    destruct (MsgRequest.rq_Thinking e) as [t|], (Thinking d0) as [t'|]; try done.
    + destruct Hthink as (Hty & Hb & _ & Hen & _). rewrite Hb in W11. destruct (MsgRequest.tk_BudgetTokens t) as [n|] eqn:Hn.
      * assert (th_Type t' = lit "enabled") as Hte by (rewrite Hty; apply Hen; by eexists). rewrite decide_True in W11 by done.
        rewrite (W13 (ex_intro _ t' (ex_intro _ n (conj eq_refl (conj Hte Hb))))) in *. exists (ChatRender.thinkingBudgetToEffort n).
        split; [apply budget_effort_of|done].
      * rewrite W11. by destruct (ChatRender.cap_ReasoningEffort _).
    + rewrite W11. destruct (ChatRender.cap_ReasoningEffort _); [|done]. simpl. case_decide as Hd; [by rewrite Hd|].
      destruct (is_empty _) eqn:E; [by apply is_empty_spec in E|done].
  - rewrite W12. simpl. by rewrite Hx.
  - by rewrite <- Ht, <- Hturns.
  - by rewrite <- Htools, <- Stools.
  - rewrite Schoice in W3. unfold MsgRequestLaws.choice_decoded in Hchoice. destruct (MsgRequest.rq_ToolChoice e) as [c|].
    + destruct Hchoice as (c' & Hm & Hc). exists c'. split; [done|]. destruct (Ir.ToolChoice d0) as [c''|]; [by destruct Hc as [-> _]|].
      destruct Hc as (_ & Hnil & Hne). rewrite Htools in Hnil. by apply fmap_nil_inv in Hnil.
    + rewrite Hchoice in W3. simpl in W3. by destruct (ChatRender.c_ToolChoice out).
  - by rewrite W4, Smax.
  - congruence.
  - by rewrite W8, Smeta.
  - done.
  - rewrite Sart in Hno. rewrite Hno in Hart. by inversion Hart.
Qed.

Lemma responses_whole_of policy x r names prior d0 d out : Allowed policy = ∅ → x_OriginalResponsesRequest x = Some (RespRequest.echo_of r) →
  x_RequestDepth x = prior.2 →
  RespRequestLaws.request_decoded marshal marshal_reasoning policy r names d0 → Turns d = prior.1 ++ Turns d0 → (∃ model stream, same_but model stream d0 d) →
  whole d (for_request x) capabilities (Turns d) (Tools d) (Ir.ToolChoice d) d out → ResponsesReasoningItems (Artifacts d) = [] →
  responses_whole policy r names (x_ResolvedReasoningTier x) prior (Turns d0) out.
Proof.
  intros He Hx Hdepth [_ Htools Hsaid _ Hart _ Hchoice Hformat _ (Hmax & Hpar & Htemp & Htp & _ & Hmeta & Hthink) Hlossy] Hturns
    (model & stream & [Stools Schoice Spar Smax (S1 & S2 & _) Sformat Smeta Sthink Sart _ _]) [W1 W2 W3 W4 (W5 & W6 & _) W8 W9 W10 W11 W12 [W13 _]] Hno.
  specialize (W13 (echo_read (RespRequest.echo_of r))). simpl in W13. rewrite Hx in W13. destruct (W13 eq_refl) as (G1 & G2 & G3 & G4 & G5 & G6).
  constructor; [| | | |done|by rewrite <- Hturns| |congruence|congruence|congruence|by rewrite W10, Sformat|by intros Hy%Hlossy|].
  - unfold ChatRender.intended_effort in W11. rewrite Sthink, Hthink in W11. simpl in W11. rewrite Hx in W11. simpl in W11.
    unfold tier_sent, effort_taken. destruct (RespRequest.rr_Reasoning r ≫= fst) as [e|] eqn:Hr.
    + rewrite (G6 (ex_intro _ e eq_refl)) in *. by rewrite W11.
    + rewrite W11. destruct (ChatRender.cap_ReasoningEffort _); [|done]. simpl. case_decide as Hd; [by rewrite Hd|].
      destruct (is_empty _) eqn:E; [by apply is_empty_spec in E|done].
  - rewrite W12. simpl. by rewrite Hx.
  - intros Hp. rewrite <- Hdepth. by apply G1.
  - by rewrite G2, G3, G4, G5.
  - exists (Tools d0). rewrite <- Stools at 2. split_and!; [done|done|]. exists (Ir.ToolChoice d0). by rewrite Schoice in W3.
  - rewrite Sart in Hno. rewrite Hno in Hart. by inversion Hart.
Qed.
End whole.

Lemma all_notes policy losses : Allowed policy = ∅ → Forall (loss_allowed policy) losses → Forall (λ e, l_Kind e = NoteRecord) losses.
Proof.
  intros He Hall. eapply Forall_impl; [exact Hall|]. intros e Hl. unfold loss_allowed in Hl. rewrite He in Hl.
  destruct (l_Kind e); [|done]. by apply elem_of_empty in Hl.
Qed.

(** C16: a request fails only with an error for its own client: no body, model, configured
    pair or limit makes the conversion panic or charges the upstream, and nothing of a
    failed one is reported.  What is sent is the marshalled request, within the bound on
    it; the losses reported are all allowed; and the store loses at most the conversation
    that was asked for, if it is too old. *)
Theorem request_conversion_fails_clean m ids accept body now store :
  match convert m ids accept body now store with
  | (Ok (r, rendered, x), losses, store') =>
      marshal_upstream r = Some rendered ∧ (0 < DecodedRequestBytes m → Z.of_nat (length rendered) <= DecodedRequestBytes m) ∧
      Forall (loss_allowed (map_LossPolicy m)) losses
  | (Err e, losses, store') => local_error e ∧ losses = []
  end ∧ asked now store (convert m ids accept body now store).2.
Proof.
  destruct (convert_spec quote marshal marshal_reasoning marshal_echo decode_responses marshal_block decode_messages marshal_upstream
    parse_media parse_float m ids accept body now store) as [Hc Ha]. split; [|exact Ha].
  destruct (convert m ids accept body now store) as [[[[[r rendered] x]|e] losses] store']; [|exact Hc].
  destruct Hc as (H1 & H2 & H3 & _). by split_and!.
Qed.

End exchange.

(** ** Sample: a Messages request for a Chat upstream *)

Definition sample_block (type_ : string) (text : option string) : MsgRequest.ContentBlock :=
  {| MsgRequest.b_Type := lit type_; MsgRequest.b_Text := lit <$> text; MsgRequest.b_Thinking := None; MsgRequest.b_Signature := None;
     MsgRequest.b_Data := None; MsgRequest.b_ToolUseID := None; MsgRequest.b_ID := None; MsgRequest.b_Name := None; MsgRequest.b_Input := [];
     MsgRequest.b_Content := None; MsgRequest.b_IsError := None; MsgRequest.b_Source := None; MsgRequest.b_Citations := [];
     MsgRequest.b_CacheControl := false; MsgRequest.b_ServerContent := [] |}.

Definition sample_use : MsgRequest.ContentBlock :=
  {| MsgRequest.b_Type := lit "tool_use"; MsgRequest.b_Text := None; MsgRequest.b_Thinking := None; MsgRequest.b_Signature := None;
     MsgRequest.b_Data := None; MsgRequest.b_ToolUseID := None; MsgRequest.b_ID := Some (lit "c1"); MsgRequest.b_Name := Some (lit "now");
     MsgRequest.b_Input := lit "{}"; MsgRequest.b_Content := None; MsgRequest.b_IsError := None; MsgRequest.b_Source := None;
     MsgRequest.b_Citations := []; MsgRequest.b_CacheControl := false; MsgRequest.b_ServerContent := [] |}.

Definition sample_result : MsgRequest.ContentBlock :=
  {| MsgRequest.b_Type := lit "tool_result"; MsgRequest.b_Text := None; MsgRequest.b_Thinking := None; MsgRequest.b_Signature := None;
     MsgRequest.b_Data := None; MsgRequest.b_ToolUseID := Some (lit "c1"); MsgRequest.b_ID := None; MsgRequest.b_Name := None; MsgRequest.b_Input := [];
     MsgRequest.b_Content := Some {| MsgRequest.ContentStr := Some (lit "12:00"); MsgRequest.ContentBlocks := None |}; MsgRequest.b_IsError := None;
     MsgRequest.b_Source := None; MsgRequest.b_Citations := []; MsgRequest.b_CacheControl := false; MsgRequest.b_ServerContent := [] |}.

Definition sample_message (role : string) (blocks : list MsgRequest.ContentBlock) : MsgRequest.Message :=
  {| MsgRequest.msg_Role := lit role; MsgRequest.msg_Content := {| MsgRequest.ContentStr := None; MsgRequest.ContentBlocks := Some blocks |} |}.

Definition sample_messages_request : MsgRequest.Request :=
  {| MsgRequest.rq_Model := lit "m"; MsgRequest.rq_MaxTokens := 5;
     MsgRequest.rq_Messages := [sample_message "user" [sample_block "text" (Some "time?")]; sample_message "assistant" [sample_use];
                                sample_message "user" [sample_result]];
     MsgRequest.rq_System := Some {| MsgRequest.ContentStr := Some (lit "be brief"); MsgRequest.ContentBlocks := None |};
     MsgRequest.rq_Temperature := None; MsgRequest.rq_TopP := None; MsgRequest.rq_TopK := None; MsgRequest.rq_StopSequences := [];
     MsgRequest.rq_Stream := Some true; MsgRequest.rq_Thinking := None;
     MsgRequest.rq_Tools := [{| MsgRequest.at_Type := []; MsgRequest.at_Name := lit "now"; MsgRequest.at_Description := None;
                                MsgRequest.at_InputSchema := lit "{}"; MsgRequest.at_CacheControl := false; MsgRequest.at_DeferLoading := None |}];
     MsgRequest.rq_ToolChoice := None; MsgRequest.rq_Metadata := ∅; MsgRequest.rq_ContextManagement := false; MsgRequest.rq_OutputConfig := false |}.

(** A Responses request, and one that continues the response to it. *)
Definition sample_responses_request (text : string) (previous : option string) : RespRequest.Request :=
  {| RespRequest.rr_Model := lit "m"; RespRequest.rr_Input := Some (RespRequest.InputOfText (lit text)); RespRequest.rr_Instructions := None;
     RespRequest.rr_MaxOutputTokens := None; RespRequest.rr_ParallelToolCalls := None; RespRequest.rr_PreviousResponseID := lit <$> previous;
     RespRequest.rr_Store := None; RespRequest.rr_Temperature := None; RespRequest.rr_TopP := None; RespRequest.rr_Truncation := None;
     RespRequest.rr_User := None; RespRequest.rr_Metadata := ∅; RespRequest.rr_Tools := []; RespRequest.rr_ToolChoice := None;
     RespRequest.rr_Reasoning := None; RespRequest.rr_Text := None; RespRequest.rr_ServiceTier := None; RespRequest.rr_TopLogprobs := None;
     RespRequest.rr_Stream := {| WireObject.Value := false; WireObject.Present := false; WireObject.Null := false |};
     RespRequest.rr_Include := false; RespRequest.rr_PromptCacheKey := []; RespRequest.rr_ClientMetadata := false |}.

Definition sample_decode_messages (body : str) : option MsgRequest.Request := if is_empty body then None else Some sample_messages_request.

(** The shorter body is the first request. *)
Definition sample_decode_responses (body : str) : result envelope_error RespRequest.Request :=
  if (length body =? 2)%nat then Ok (sample_responses_request "hi" None) else Ok (sample_responses_request "and?" (Some "resp_ab_1")).

Definition sample_route (client : ApiErrors.ClientProtocol) : Mapping :=
  {| ClientProtocol := client; UpstreamProtocol := ApiErrors.UpstreamChatCompletions; map_LossPolicy := StrictLossPolicy;
     map_Capabilities := ChatRender.no_capabilities; map_ModelMap := {| Exact := ∅; AllowIdentity := true; RequireExplicitMap := false |};
     map_ProfileMap := ∅; ContinuityKey := lit "m"; DecodedRequestBytes := 100 |}.

Definition sample_ids (n : N) : ResponseRender.ExchangeIDs := {| ResponseRender.ids_prefix := "ab"; ResponseRender.ids_next := n |}.

Definition sample_ask :=
  convertRequest (λ s, s) ResponseExchange.empty_object (λ _, None) (λ _, Some []) sample_decode_responses (λ _, None) sample_decode_messages
    (λ _, Some (lit "sent")) (λ _, None) (λ _, None).

