(* ===== verification/Conversation.v ===== *)
(** * A conversation over several exchanges

    Two exchanges of a Responses client with a Chat upstream, the second continuing the
    first by the identifier of its response, with any others in between. *)

From Stdlib Require Import ZArith QArith Qcanon Lia Bool List Ascii String.
From stdpp Require Import strings gmap list.
From S2P Require Import Prelude GoStd GoStr GoText GoJson Losses Ir ResponseDecode ConvertRequest ConvertErrors ConvertLaws.
From S2P Require ApiErrors ChatRender RespRequest MsgRequest RespRequestLaws Continuity ContinuityLaws ResponseRender ResponseLaws ResponseExchange.

Open Scope string_scope.
Open Scope Z_scope.
Open Scope conv_scope.
Open Scope list_scope.

(** A request with no turns is not rendered. *)
Lemma rendered_turns request context capabilities :
  has_post (ChatRender.RenderChatRequest request context capabilities) (λ _, Turns request ≠ [] ∧ Forall turn_ok (Turns request)).
Proof.
  intros r out r' H. split; [|by apply ChatRender.RenderChatRequest_post in H as (? & _)]. revert r out r' H.
  apply (post_weaken _ (λ _, Turns request ≠ [])); [|done]. unfold ChatRender.RenderChatRequest. cbv zeta.
  do 5 (apply post_then; intros ?). apply (post_bind _ _ (λ _, Turns request ≠ [])); [|intros ms Hms; repeat (apply post_then; intros ?); by apply post_ret].
  unfold ChatRender.render_messages, ChatRender.render_turns. cbv zeta. destruct (Turns request) as [|t ts]; [|by intros ????]. intros r ms r' H. exfalso.
  unfold ChatRender.place_messages, bind in H. simpl in H. by destruct (ChatRender.cap_SystemAnywhere capabilities).
Qed.

Section conversation.
Context `{UnicodeTables}.
Context (quote : str → str) (marshal : gmap str json → str) (marshal_reasoning : RespRequest.ReasoningInput → option str).
Context (marshal_echo : RespRequest.ResponsesRequestEcho → option str) (decode_responses : str → result envelope_error RespRequest.Request).
Context (marshal_block : MsgRequest.ContentBlock → option str) (decode_messages : str → option MsgRequest.Request).
Context (marshal_upstream : upstream_request → option str).
Context (parse_media : str → option (str * option str)) (parse_float : str → option Qc).
Context (decode_shadow : str → option chatResponseShadow) (decode_chat : str → option ChatResponse).
Context (unmarshal_call : str → option (option str * option str)) (unmarshal_reasoning : str → option ReasoningOutputItem).
Context (decode_envelope : str → result envelope_error ResponseEnvelope) (marshal_item : ReasoningOutputItem → option str).

(** Documented: the two readings of a body are of one document, and what [json.Marshal]
    writes of an object is an object. *)
Context (Hsame : ∀ body s c, decode_shadow body = Some s → decode_chat body = Some c → ResponseLaws.same_response s c).
Context (Hmarshal : ∀ o, ∃ kvs, parse_text (TrimSpace (marshal o)) = Some (JObj kvs)).

Abbreviation ask := (convertRequest quote marshal marshal_reasoning marshal_echo decode_responses marshal_block decode_messages
                       marshal_upstream parse_media parse_float).
Abbreviation answer := (ResponseRender.convertResponse decode_shadow decode_chat unmarshal_call decode_envelope marshal_item unmarshal_reasoning marshal).
Abbreviation left_of := (ResponseExchange.left_of decode_shadow decode_chat unmarshal_call marshal).

(** The two views of one configured route, from Responses to Chat. *)
Record one_route (m : Mapping) (rm : ResponseRender.Mapping) : Prop := {
  or_client : ClientProtocol m = ApiErrors.ClientResponses ∧ ResponseRender.ClientProtocol rm = ApiErrors.ClientResponses;
  or_upstream : UpstreamProtocol m = ApiErrors.UpstreamChatCompletions ∧ ResponseRender.UpstreamProtocol rm = ApiErrors.UpstreamChatCompletions;
  or_policy : ResponseRender.map_LossPolicy rm = map_LossPolicy m;
  or_key : ResponseRender.ContinuityKey rm = ContinuityKey m;
}.

(** An exchange of a Responses client that reached the upstream. *)
Lemma asked_chat m ids accept body now store out rendered x losses store' : ClientProtocol m = ApiErrors.ClientResponses →
  ask m ids accept body now store = (Ok (ChatUpstream out, rendered, x), losses, store') →
  ∃ r names d0 d report, decode_responses body = Ok r ∧
    responses_exchanged marshal marshal_reasoning m ids (Accept.AcceptIsEventStream parse_media parse_float accept) now store r names d0 d x ∧
    ChatRender.RenderChatRequest d (for_request x) (map_Capabilities m) fresh_report = (Ok out, report) ∧ asked now store store'.
Proof.
  intros Hm Hc. destruct (convert_spec quote marshal marshal_reasoning marshal_echo decode_responses marshal_block decode_messages marshal_upstream
    parse_media parse_float m ids accept body now store) as [Hs Ha]. rewrite Hc in Hs, Ha.
  destruct Hs as (_ & _ & _ & d & report & report' & Hway & (_ & Hr) & _). unfold way in Hway. rewrite Hm in Hway.
  apply responses_way_spec in Hway as (r & names & d0 & Hdec & Hx). by exists r, names, d0, d, report'.
Qed.

Lemma asked_store now s store' : asked now (Some s) store' → ContinuityLaws.wf s →
  ∃ s', store' = Some s' ∧ ContinuityLaws.wf s' ∧ Continuity.capacity s' = Continuity.capacity s ∧ Continuity.ttl s' = Continuity.ttl s.
Proof.
  intros [->|(s0 & k & c & [= <-] & _ & _ & ->)] Hw; [by exists s|]. exists (Continuity.removeLocked k s).
  split_and!; [done|by apply ContinuityLaws.removeLocked_wf|done|done].
Qed.

(** What happens between the record of a conversation at [now] and the request for it at
    [at_]: nothing else is recorded under its key, fewer others than the store holds, and
    none of it is later than a conversation may be old. *)
Record undisturbed (key : str) (s : Continuity.ContinuityStore) (ops : list ContinuityLaws.op) (now later at_ : Time) : Prop := {
  ud_new : Continuity.chains s !! key = None;
  ud_key : key ∉ ContinuityLaws.stored_keys ops;
  ud_few : Z.of_nat (size (ContinuityLaws.stored_keys ops)) < Continuity.capacity s;
  ud_live : Forall (λ t, time_Sub t now <= Continuity.ttl s) (later :: at_ :: map ContinuityLaws.clock ops);
}.

(** An answered exchange leaves its conversation, which is found under its identifier. *)
Lemma answered_found m rm x ids response now later s1 e losses s2 ops s3 at_ : one_route m rm → ContinuityLaws.wf s1 →
  ResponseRender.x_LossPolicy x = map_LossPolicy m → ResponseRender.x_IDs x = Some ids →
  answer rm (Some x) response now later (Some s1) = (Ok (ResponseRender.ResponsesDocument e), losses, Some (Some s2)) →
  ContinuityLaws.run ops s2 = Some s3 → ResponseRender.x_Store x ≠ Some false → ResponseRender.x_RequestTurns x ≠ [] →
  let key := Continuity.continuityKey (ContinuityKey m) (lit (ResponseRender.re_ID e)) in
  undisturbed key s1 ops now later at_ →
  ∃ turns, left_of response (ResponseRender.map_Capabilities rm) turns ∧ is_empty (lit (ResponseRender.re_ID e)) = false ∧
    (Continuity.Resolve (ContinuityKey m) (lit (ResponseRender.re_ID e)) at_ s3).1 =
      Some (ResponseRender.x_RequestTurns x ++ turns, ResponseRender.x_RequestDepth x).
Proof using Hsame Hmarshal.
  intros [[_ Hc] [_ Hu] Hp Hk] Hw Hpol Hids Ha Hrun Hstore Hne. cbv zeta. intros [Hnew Hkey Hfew Hlive].
  apply Forall_cons in Hlive as [Hlater [Hat Hlive]%Forall_cons]. unfold ResponseRender.convertResponse in Ha. rewrite Hc, Hu, Hp in Ha. cbv zeta in Ha.
  pose proof (ResponseExchange.envelope_exact decode_shadow decode_chat unmarshal_call unmarshal_reasoning Hsame response
    (ResponseRender.map_Capabilities rm) (map_LossPolicy m) x ids Hpol Hids) as He.
  destruct (ResponseRender.decode_render _ _) as [[[d e']|err] l]; [|done]. destruct He as (Hv & Hid & _ & _ & Hsaid). injection Ha as -> _ Hs2.
  destruct (ResponseExchange.given_id_nonempty ids) as [Hn1 Hn2]. rewrite <- Hid in Hn1, Hn2. rewrite Hk in Hs2.
  destruct (ResponseExchange.record_keeps marshal (ContinuityKey m) x d (ResponseRender.re_ID e) now later s1)
    as (s' & Hs' & Hw' & Hcap & Httl & Hkept & Hbef); try done.
  { unfold ResponseRender.conversation. by destruct (ResponseRender.x_RequestTurns x). }
  rewrite Hs' in Hs2. injection Hs2 as <-.
  destruct (ContinuityLaws.run_keeps _ _ ops ∅ s' Hw' Hkept Hbef Hkey) as (s3' & Hs3 & Hkept3).
  - apply (Forall_fmap ContinuityLaws.clock) in Hlive. eapply Forall_impl; [exact Hlive|]. intros o Ho. apply ResponseExchange.fresh_kept. by rewrite Httl.
  - by rewrite union_empty_l_L, Hcap.
  - rewrite Hrun in Hs3. injection Hs3 as <-. exists (Continuity.responseItemsToTurns marshal (canonical d)).1.
    split; [by eapply ResponseExchange.left_of_response|]. split; [done|].
    destruct (ContinuityLaws.run_settings ops s' s3 Hw' Hrun) as (_ & _ & Httl3).
    rewrite (ResponseExchange.kept_resolves marshal (ContinuityKey m) x d (ResponseRender.re_ID e) now s3 at_ Hn2); [done| |exact Hkept3].
    by rewrite Httl3, Httl.
Qed.

(** C7: a conversation goes on.  The second request of a client, which names the response
    to its first, is given to the upstream after all that was said before: the turns the
    first was rendered from, what the upstream answered, and then its own instructions
    and input; with other exchanges in between, as long as the conversation is kept.
    The request's depth counts the responses, up to the bound, and under a policy that
    allows no loss every one of these turns is in the messages the upstream is sent. *)
Theorem conversation_goes_on m rm ids1 ids2 accept1 accept2 body1 body2 response now1 now2 later now3 s0 out1 rendered1 x1 losses1 s1 e losses s2 ops s3
    r2 out2 rendered2 x2 losses2 s4 :
  one_route m rm → ContinuityLaws.wf s0 →
  ask m ids1 accept1 body1 now1 (Some s0) = (Ok (ChatUpstream out1, rendered1, x1), losses1, Some s1) →
  answer rm (Some (for_response x1)) response now2 later (Some s1) = (Ok (ResponseRender.ResponsesDocument e), losses, Some (Some s2)) →
  ContinuityLaws.run ops s2 = Some s3 →
  ask m ids2 accept2 body2 now3 (Some s3) = (Ok (ChatUpstream out2, rendered2, x2), losses2, s4) →
  decode_responses body2 = Ok r2 → RespRequest.rr_PreviousResponseID r2 = Some (lit (ResponseRender.re_ID e)) →
  ResponseRender.x_Store (for_response x1) ≠ Some false →
  undisturbed (Continuity.continuityKey (ContinuityKey m) (lit (ResponseRender.re_ID e))) s1 ops now2 later now3 →
  ∃ turns own, left_of response (ResponseRender.map_Capabilities rm) turns ∧
    x_RequestTurns x2 = x_RequestTurns x1 ++ turns ++ own ∧ Forall turn_ok (x_RequestTurns x2) ∧
    x_RequestDepth x2 = Z.min (x_RequestDepth x1 + 1) Continuity.MaxContinuityDepth ∧
    (∃ names l, x_ToolNames x2 = RespRequest.given_names names ∧
       RespRequestLaws.input_said marshal names (RespRequest.plainToolNames (RespRequest.rr_Tools r2)) (map_LossPolicy m) (RespRequest.rr_Input r2) l ∧
       RespRequestLaws.roles_parts own = RespRequestLaws.instruction_said r2 ++ l) ∧
    (Allowed (map_LossPolicy m) = ∅ → ChatRender.cap_MultiAgentPriming (map_Capabilities m) = false →
     ChatRender.turns_carried (x_RequestTurns x1 ++ turns ++ own) (ChatRender.Messages out2)).
Proof using Hsame Hmarshal.
  intros Hroute Hw Hask1 Hans Hrun Hask2 Hr2 Hprev Hstore Hud. destruct (or_client _ _ Hroute) as [Hm _].
  destruct (asked_chat _ _ _ _ _ _ _ _ _ _ _ Hm Hask1) as (r1 & names1 & d1 & d1' & report1 & _ & [_ _ _ Hxt1 _ _ _ _ _ [Hids1 Hpol1]] & Hrend1 & Hs1).
  apply rendered_turns in Hrend1 as [Hne1 _]. rewrite <- Hxt1 in Hne1. destruct (asked_store _ _ _ Hs1 Hw) as (s1' & [= <-] & Hw1 & _ & _).
  destruct (answered_found m rm (for_response x1) (x_IDs x1) response now2 later s1 e losses s2 ops s3 now3 Hroute Hw1 Hpol1 eq_refl Hans Hrun Hstore Hne1 Hud)
    as (turns & Hleft & Hid & Hfound).
  destruct (asked_chat _ _ _ _ _ _ _ _ _ _ _ Hm Hask2) as (r & names & d & d' & report2 & Hr & Hx & Hrend2 & _).
  rewrite Hr2 in Hr. injection Hr as <-.
  assert (prior_turns m r2 now3 (Some s3) = (x_RequestTurns x1 ++ turns, Z.min (x_RequestDepth x1 + 1) Continuity.MaxContinuityDepth)) as Hprior.
  { unfold prior_turns, prior_of, Continuity.resolveContinuityChain. simpl. rewrite Hprev, Hid.
    destruct (Continuity.Resolve _ _ _ _) as [found s']. simpl in Hfound. subst found. simpl. f_equal.
    destruct (Z.ltb_spec Continuity.MaxContinuityDepth (x_RequestDepth x1 + 1)); lia. }
  destruct Hx as [Hd Hsame2 [Ht _] Hxt2 Hdepth _ _ Hn _ [_ Hpol2]]. rewrite Hprior in Ht, Hdepth. simpl in Ht, Hdepth.
  exists turns, (Turns d). rewrite Hxt2, Ht, <- app_assoc. pose proof (rendered_turns _ _ _ _ _ _ Hrend2) as [_ Hok]. rewrite Ht, <- app_assoc in Hok.
  split_and!; try done.
  - destruct (RespRequestLaws.rd_said _ _ _ _ _ _ Hd) as (l & H1 & H2). by exists names, l.
  - intros He Hp. apply strict_whole in Hrend2 as ([Hc _ _ _ _ _ _ _] & _); [|simpl; by rewrite Hpol2|done]. by rewrite Ht, <- app_assoc in Hc.
Qed.
End conversation.

(** ** Sample: a question, its answer and the next question *)

Definition sample_answer (x : ExchangeContext) (s : Continuity.ContinuityStore) :=
  ResponseRender.convertResponse ResponseLaws.sample_decode_shadow ResponseLaws.sample_decode_chat ResponseLaws.sample_call
    ResponseExchange.no_envelope ResponseExchange.no_marshal ResponseExchange.no_unmarshal ResponseExchange.empty_object
    ResponseExchange.sample_mapping (Some (for_response x)) (lit "x") 2 3 (Some s).

Definition sample_asked (ids : N) (body : string) (now : Time) (s : Continuity.ContinuityStore) :=
  sample_ask (sample_route ApiErrors.ClientResponses) (sample_ids ids) [] (lit body) now (Some s).

Definition sample_store : Continuity.ContinuityStore := Continuity.NewContinuityStore 4 10.

(** The three calls, if they go through. *)
Definition sample_talk (Q : ExchangeContext → Continuity.ContinuityStore → ResponseRender.ResponsesEnvelope → ChatRender.ChatRequest →
    ExchangeContext → Prop) : Prop :=
  match sample_asked 0 "{}" 1 sample_store with
  | (Ok (ChatUpstream _, _, x1), _, Some s1) =>
      match sample_answer x1 s1 with
      | (Ok (ResponseRender.ResponsesDocument e), _, Some (Some s2)) =>
          match sample_asked 7 "{ }" 5 s2 with
          | (Ok (ChatUpstream out2, _, x2), _, _) => Q x1 s1 e out2 x2
          | _ => False
          end
      | _ => False
      end
  | _ => False
  end.

Lemma sample_marshal o : ∃ kvs, parse_text (TrimSpace (ResponseExchange.empty_object o)) = Some (JObj kvs).
Proof. exists []. vm_compute. reflexivity. Qed.

Lemma conversation_goes_on_witness :
  sample_talk (λ x1 s1 e out2 x2, ∃ turns own, x_RequestTurns x2 = x_RequestTurns x1 ++ turns ++ own ∧ x_RequestDepth x2 = 1 ∧
    ChatRender.turns_carried (x_RequestTurns x1 ++ turns ++ own) (ChatRender.Messages out2)).
Proof.
  assert (sample_talk (λ x1 s1 e out2 x2, ResponseRender.re_ID e = "resp_ab_1" ∧ x_OriginalResponsesRequest x1 ≫= RespRequest.ec_Store = None ∧
    Continuity.chains s1 !! Continuity.continuityKey (lit "m") (lit "resp_ab_1") = None ∧ Continuity.capacity s1 = 4 ∧ Continuity.ttl s1 = 10 ∧
    x_RequestDepth x1 = 0)) as Hr by (vm_compute; split_and!; reflexivity).
  unfold sample_talk in *. destruct (sample_asked 0 "{}" 1 sample_store) as [[[[[[out1|] rendered1] x1]|] losses1] [s1|]] eqn:H1; try (exfalso; exact Hr).
  destruct (sample_answer x1 s1) as [[[[e|]|] losses] [[s2|]|]] eqn:H2; try (exfalso; exact Hr).
  destruct (sample_asked 7 "{ }" 5 s2) as [[[[[[out2|] rendered2] x2]|] losses2] s4] eqn:H3; try (exfalso; exact Hr).
  destruct Hr as (He & Hstore & Hnew & Hcap & Httl & Hdepth). unfold sample_asked, sample_ask in H1, H3. unfold sample_answer in H2.
  destruct (conversation_goes_on (λ s, s) ResponseExchange.empty_object (λ _, None) (λ _, Some []) sample_decode_responses (λ _, None)
    sample_decode_messages (λ _, Some (lit "sent")) (λ _, None) (λ _, None) ResponseLaws.sample_decode_shadow ResponseLaws.sample_decode_chat
    ResponseLaws.sample_call ResponseExchange.no_unmarshal ResponseExchange.no_envelope ResponseExchange.no_marshal ResponseLaws.sample_same sample_marshal
    (sample_route ApiErrors.ClientResponses) ResponseExchange.sample_mapping (sample_ids 0) (sample_ids 7) [] [] (lit "{}") (lit "{ }") (lit "x")
    1 2 3 5 sample_store out1 rendered1 x1 losses1 s1 e losses s2 [] s2 (sample_responses_request "and?" (Some "resp_ab_1")) out2 rendered2 x2 losses2 s4)
    as (turns & own & _ & Ht & _ & Hd & _ & Hc).
  - constructor; done.
  - apply ContinuityLaws.wf_new.
  - exact H1.
  - exact H2.
  - reflexivity.
  - exact H3.
  - reflexivity.
  - by rewrite He.
  - simpl. by rewrite Hstore.
  - rewrite He. constructor; [exact Hnew|apply not_elem_of_empty|by rewrite Hcap|]. rewrite Httl. repeat constructor; vm_compute; discriminate.
  - exists turns, own. split; [exact Ht|]. split; [by rewrite Hd, Hdepth|]. by apply Hc.
Defined.
